(* ===== verification/_CoqProject ===== *)
-Q . S2P
Prelude.v
CString.v
MessageQueue.v
Context.v
Handle.v
HandleTable.v
Server.v
Send.v
Command.v
Dispatch.v
DispatchInv.v
DispatchLaunch.v
DispatchProps.v
Socket.v
SocketInv.v
SocketCmd.v
SocketSafe.v
SocketStream.v
Timer.v
Des.v
Crypt.v
Sha1.v
DataBuffer.v
HashId.v
Gate.v
Seri.v
Cluster.v
NetPack.v
Harbor.v
HarborProps.v
LuaSocket.v
LuaSocketProps.v
SprotoPack.v
SprotoPackProps.v
Lock.v
Stm.v
SocketService.v
Sproto.v
SprotoSchema.v
SprotoEncode.v
SprotoDecode.v
SprotoType.v
SprotoCreate.v
SprotoCreateProps.v
Sharedata.v
SharedataHash.v
SharedataConv.v
SharedataFill.v
SharedataTable.v
SharedataRead.v
SharedataProps.v
Multicast.v
