(* ===== verification/Prelude.v ===== *)
(** * Skynet server core: verification library

    Skynet is an actor framework: a process runs many services, each with a
    message queue and a callback, on a few worker threads. This library models
    the C core of the server under src/skynet-src, the gate service under
    src/service-src and the C libraries for messages under src/lualib-src,
    and proves what makes each part correct.

    ** How to read it

    A C function is a Rocq function of the same name on explicit state. Its
    result is of type [result]: [Ok], [LuaError] for a function that leaves
    through [luaL_error], and [Fault] where an [assert] fails or the behaviour
    of the C code is undefined: an index outside a buffer, a freed or null
    pointer, the overflow of a signed integer, an uninitialised read. A theorem
    that states [= Ok ...] therefore also states memory safety. Machine
    integers are numbers of type [Z], reduced where the code converts ([u32],
    [s32], ...). A byte is a [Z] below 256. Pointers to shared objects (queues,
    contexts) are addresses in a finite map, so that links and aliasing are
    those of the code. Loops that are not structural take fuel: the theorems
    give an amount that is enough, so they state termination as well. What an
    allocator, the operating system or a callback may do is an argument.

    ** Parts

    - Prelude.v: integers, results, buffers, linked lists, tactics. CString.v:
      NUL-terminated strings.
    - MessageQueue.v (skynet_mq.c): the ring buffer of a service as a FIFO
      queue that doubles, up to 2^30 slots, and the global list of the queues
      that have work, as linked nodes in a store; the overload report; the
      draining of a released queue.
    - Context.v (skynet_server.c): reference counts and sessions of services.
    - Handle.v (skynet_handle.c): the open-addressing table from handles to
      contexts and the sorted table of names; registration, growth, retirement,
      search. HandleTable.v: the interface the clients of the table rely on, a
      finite map, and its implementation by Handle.v.
    - Server.v, Send.v (skynet_server.c, skynet_harbor.c): the packing of the
      type into the size, local delivery; sending, with the memory of the
      messages: what is copied, handed over, freed, and the assertion that a
      system message for another node fails. Command.v (skynet_server.c,
      skynet_env.c): the text commands of the services and the environment.
    - Lock.v (rwlock.h, spinlock.h, atomic.h): the spinlock and the
      readers-writer lock as steps of any number of threads on their words;
      they make sections, and nobody waits for ever.
    - Dispatch.v (skynet_server.c, skynet_start.c, skynet_mq.c,
      skynet_harbor.c): the workers in [skynet_context_message_dispatch], the
      killing of services, the senders, the harbor service and the launch, whose
      registration, stores of the handle, of the queue and of [init], release and
      report are steps of their own, cut at their locks and run in any order: a
      step relation over any number of threads. Callbacks are arbitrary: while one
      runs any call may start. [launch_race] names the accesses that a launch
      makes unsafe. DispatchInv.v: the invariant, by ownership tokens, of a state
      where every launch is complete. DispatchLaunch.v: a state with launches
      under way does what its completed state does, or faults at a
      [launch_race]. DispatchProps.v: one worker per service, exactly-once
      delivery in order, memory safety but for the races of a launch, no lost
      wake-up, the length of a worker's turn.
    - Socket.v (socket_server.c): the slots of the socket thread, the commands
      other threads send through its pipe, the events of the poll set, the
      two write lists of a socket. The results of system calls are arguments;
      what the kernel keeps for the server (open descriptors, poll set, bytes
      written) is a record. SocketInv.v: the invariant of slots, descriptors,
      poll set, pipe and events, and sending. SocketCmd.v: every command keeps
      it. SocketSafe.v: every event and call keeps it; safety of all histories,
      identifiers, release. SocketStream.v: what a TCP socket sends.
    - SocketService.v (skynet_socket.c): reports of the socket server become
      messages to the services that own the sockets, with the memory of both.
    - Timer.v (skynet_timer.c): the timing wheel refines a clock: every timer
      expires at its tick, across the wrap of the 32-bit tick.
    - DataBuffer.v, HashId.v, Gate.v (databuffer.h, hashid.h, service_gate.c):
      the gate service: receive buffers with their node pool, the connection
      table, framing and routing of client data.
    - Harbor.v (service_harbor.c): the service between the nodes: the table of
      global names, the queues of messages that wait for a name or a node, the
      frames on the sockets. HarborProps.v: queues and table; two connected
      harbors, for frames shorter than 2^24 bytes; names that wait for a node
      which is connected when they are announced.
    - LuaSocket.v (lua-socket.c): the receive buffers of Lua services, chains of
      blocks with a shared pool of nodes. LuaSocketProps.v: they are byte
      streams.
    - NetPack.v (lua-netpack.c): the framing of a Lua gate: half-received
      packages in a hash table, complete ones in a ring.
    - Seri.v (lua-seri.c): serialisation of Lua values: round trip, any string,
      values inside too many tables. Cluster.v
      (lua-cluster.c): requests and responses between nodes.
    - Stm.v (lua-stm.c): objects that a writer replaces and readers in other
      threads copy, with their reference counts, cut at the locks and atomics.
    - Sharedata.v (lua-sharedata.c): Lua tables copied to C memory that other
      services read: conversion, lookup, enumeration, counts. SharedataHash.v:
      chains of the hash part and the search in them. SharedataConv.v: total
      correctness of a conversion, what a copied table stands for, who frees it.
      SharedataFill.v, SharedataTable.v: the two passes that fill a table, whole
      tables. SharedataRead.v, SharedataProps.v: what a reader gets.
    - Multicast.v (lua-multicast.c): one package for many services.
    - SprotoPack.v (sproto.c, lsproto.c): the packing that removes zero bytes.
      SprotoPackProps.v: it is undone, in the room reserved for it.
    - Sproto.v (sproto.c, lsproto.c): messages with a schema: the encoder and
      the decoder with their callbacks, which read and build Lua tables in a
      heap. SprotoSchema.v: schemas, the contents of a message, the bytes that
      stand for them and the tables that carry them. SprotoEncode.v: the
      encoder writes these bytes. SprotoDecode.v: the decoder turns them into
      tables with the same contents. SprotoType.v: what it does with any bytes.
      SprotoCreate.v: the memory pool of a schema, its import from binary form,
      queries. SprotoCreateProps.v: what the schema compiler writes is read back.
    - Des.v, Crypt.v, Sha1.v (lua-crypt.c, lsha1.c): DES, hexadecimal and
      base64 text, the keyed hash, Diffie-Hellman, SHA-1 and HMAC against
      their definitions.

    ** What the theorems show

    Functional correctness against an abstract object (a list, a map, a clock,
    a byte stream, the standard's definition of SHA-1) is stated as refinement;
    encoders and decoders have round trips; the dispatcher has invariants of
    all its reachable configurations. Each property has a witness, a concrete
    run where its hypotheses hold. Some theorems state a flaw: a handle 0 is
    issued after 2^24 launches, two concurrent registrations can lose a handle,
    a service killed during its launch is used after it is freed, a message can
    reach a service that has no queue yet, a size from 2^31 on is popped from a
    buffer as a negative one, the packing copies bytes from behind its source,
    [desdecode]
    reads before its buffer, a gate connection nobody listens to loses its
    framing, a harbor loses the handle of messages that wait for both a name
    and a node, the last two readers of a shared object write to it after it is
    freed, an array whose integers get wider is written behind the buffer of
    sproto, a length near 2^32 makes its decoder read behind the message, an
    integer key of a shared table that does not fit an [int] leaves a slot that is
    never written but read.

    ** Bounds and abstractions

    Memory is not exhausted. A section between two locks is atomic, as is one
    atomic builtin, which Lock.v justifies for sequentially consistent memory.
    In Dispatch.v the handle table is not doubled while another launch has
    registered its context and not stored the handle (what happens then is
    [register_race_loses_handle]), a handle is not reissued while its queue or its
    context exists, and no queue grows beyond 2^30 messages ([allowed]). Deleting
    a context is atomic with its last release. The unpacking of Seri.v has no
    limit on its depth, which in C is that of the stack, and a table with a
    huge announced size is not refused for memory. The sizes LuaSocketProps.v
    asks a buffer for fit an [int] and are not negative ([negative_pop_faults]).

    In Socket.v a call of another thread is one step, as are a command and an
    event; the kernel returns fresh descriptors and at most one event for a
    registered one, callers hand over plain blocks of memory and do not send
    to descriptors they only bound ([input_ok]). Name lookup, socket options
    and the printed addresses are results of the system.

    In Sproto.v a Lua table has no metatable and is a list of entries in the
    order of its traversal; where a new key comes in it is an argument, as are
    the address of a new table and the conversions between numbers and strings.
    Slots of the Lua stack are components of the state of the callbacks; that
    there are enough of them is not stated. The encoder's loops over arrays
    take fuel for one more element than the buffer has room for. The encoder is
    proved for arrays without an integer of more than 32 bits behind smaller ones,
    or with room for everything at the start ([roomy]); the packing for messages
    whose last segment is not padded and the 256th of a run ([inside]); the import
    for schemas with at least one type.

    In Sharedata.v the fuel of [convtable] is the number of nested C calls Lua
    allows, whose end is an error of Lua; [delete_tbl] takes as many steps as
    there are addresses below the table; whether the Lua stack can grow is an
    argument.

    ** Not modelled

    Pure input and output (logging, the pid file, the configuration), the
    module loader and the Lua bindings of the core; the vendored allocator,
    interpreter and Lua libraries; the Lua services. BSON (lua-bson.c) and the
    database protocols (lua-mongo.c) are left out. *)
From Stdlib Require Export ZArith Lia Bool.
From stdpp Require Export base gmap sets strings fin_maps numbers list.

#[global] Open Scope Z_scope.

(** ** C integers *)

(** Conversion to a [w]-bit unsigned type. *)
Definition wrap (w z : Z) : Z := z mod 2 ^ w.

(** Conversion to a [w]-bit two's complement type. *)
Definition swrap (w z : Z) : Z := (z + 2 ^ (w - 1)) mod 2 ^ w - 2 ^ (w - 1).

Definition u8 (z : Z) : Z := wrap 8 z.
Definition u16 (z : Z) : Z := wrap 16 z.
Definition u32 (z : Z) : Z := wrap 32 z.
Definition u64 (z : Z) : Z := wrap 64 z.
Definition s32 (z : Z) : Z := swrap 32 z.
Definition s64 (z : Z) : Z := swrap 64 z.
Definition INT_MAX : Z := 2147483647.

(** A value stored in a [uint8_t]. *)
Definition is_byte (b : Z) : Prop := 0 <= b < 256.
(** A value stored in a [uint32_t]. *)
Definition is_u32 (z : Z) : Prop := 0 <= z < 2 ^ 32.
(** A value stored in a [uint64_t]. *)
Definition is_u64 (z : Z) : Prop := 0 <= z < 2 ^ 64.
(** The contents of a [uint8_t] buffer. *)
Definition bytes (l : list Z) : Prop := Forall is_byte l.

(** ** Results of C code embedded in Lua *)

(** [Ok a]: the function returns; [LuaError m]: it leaves through
    [luaL_error] with a message starting with [m]; [Fault]: an [assert] fails
    or the behaviour of the C code is undefined (index out of a buffer,
    dereference of a null or freed pointer, signed overflow). *)
Inductive result (A : Type) : Type :=
| Ok (a : A)
| LuaError (msg : string)
| Fault.
Arguments Ok {A} a.
Arguments LuaError {A} msg.
Arguments Fault {A}.

#[export] Instance result_ret : MRet result := fun A a => Ok a.
#[export] Instance result_bind : MBind result := fun A B f m =>
  match m with
  | Ok a => f a
  | LuaError e => LuaError e
  | Fault => Fault
  end.
#[export] Instance result_fmap : FMap result := fun A B f m =>
  match m with
  | Ok a => Ok (f a)
  | LuaError e => LuaError e
  | Fault => Fault
  end.

(** [assert (b)] and the conditions under which a C expression is defined. *)
Definition assert_ (b : bool) : result unit := if b then Ok tt else Fault.

(** Dereference of a possibly dangling pointer. *)
Definition deref {A} (o : option A) : result A :=
  match o with Some a => Ok a | None => Fault end.

(** ** C arrays *)

Definition zlen {A} (l : list A) : Z := Z.of_nat (length l).

(** [l[i]] *)
Definition zget {A} (l : list A) (i : Z) : result A :=
  if 0 <=? i then deref (l !! Z.to_nat i) else Fault.

(** [l[i] = x] *)
Definition zset {A} (l : list A) (i : Z) (x : A) : result (list A) :=
  if (0 <=? i) && (i <? zlen l) then Ok (<[Z.to_nat i := x]> l) else Fault.

(** The [n] bytes at offset [i] of a buffer, as [memcpy] reads them. *)
Definition slice {A} (l : list A) (i n : Z) : result (list A) :=
  if (0 <=? i) && (0 <=? n) && (i + n <=? zlen l)
  then Ok (take (Z.to_nat n) (drop (Z.to_nat i) l)) else Fault.

(** [memcpy(&buffer[j], data, n)] with the [n] bytes [data]. *)
Definition blit (buffer : list Z) (j : Z) (data : list Z) : result (list Z) :=
  if j + zlen data <=? zlen buffer
  then Ok (take (Z.to_nat j) buffer ++ data ++ drop (Z.to_nat j + length data) buffer) else Fault.

(** ** Little- and big-endian byte strings *)

Fixpoint le_bytes (n : nat) (z : Z) : list Z :=
  match n with
  | O => []
  | S n => z mod 256 :: le_bytes n (z / 256)
  end.

Fixpoint le_val (l : list Z) : Z :=
  match l with
  | [] => 0
  | b :: l => b + 256 * le_val l
  end.

Definition be_bytes (n : nat) (z : Z) : list Z := rev (le_bytes n z).
Definition be_val (l : list Z) : Z := le_val (rev l).

(** ** Linked lists in a store *)

(** [chain nx p l]: following [next] pointers ([nx a = Some p'] when node [a]
    is allocated and its [next] is [p']) from [p] visits exactly the nodes
    [l] and ends in [NULL]. *)
Fixpoint chain (nx : nat -> option (option nat)) (p : option nat) (l : list nat) : Prop :=
  match l with
  | [] => p = None
  | a :: l => p = Some a /\ exists p', nx a = Some p' /\ chain nx p' l
  end.

(** [seg nx p l q]: the same, ending in [q]. *)
Fixpoint seg (nx : nat -> option (option nat)) (p : option nat) (l : list nat) (q : option nat) : Prop :=
  match l with
  | [] => p = q
  | a :: l => p = Some a /\ exists p', nx a = Some p' /\ seg nx p' l q
  end.

(** ** Automation *)

Create HintDb skynet.

(** Splits the conjunctions of the context. *)
Ltac inv_ands :=
  repeat match goal with
  | H : _ /\ _ |- _ => destruct H
  | H : exists _, _ |- _ => destruct H
  end.

(** Inverts equations between results. *)
Ltac inv_res :=
  repeat match goal with
  | H : Ok _ = Ok _ |- _ => injection H; clear H; intros; subst
  | H : Some _ = Some _ |- _ => injection H; clear H; intros; subst
  | H : Ok _ = Fault |- _ => discriminate H
  | H : Fault = Ok _ |- _ => discriminate H
  | H : LuaError _ = Ok _ |- _ => discriminate H
  | H : Ok _ = LuaError _ |- _ => discriminate H
  | H : Fault = LuaError _ |- _ => discriminate H
  | H : LuaError _ = Fault |- _ => discriminate H
  end.

(** Case analysis on the comparisons on [Z] a definition branches on. *)
Ltac zcases :=
  repeat match goal with
  | |- context [Z.eqb ?a ?b] => destruct (Z.eqb_spec a b)
  | |- context [Z.leb ?a ?b] => destruct (Z.leb_spec a b)
  | |- context [Z.ltb ?a ?b] => destruct (Z.ltb_spec a b)
  end; cbn [andb orb negb].

(** The same, dropping the cases the context refutes as soon as they appear. *)
Ltac zprune :=
  repeat (match goal with
  | |- context [Z.eqb ?a ?b] => destruct (Z.eqb_spec a b)
  | |- context [Z.leb ?a ?b] => destruct (Z.leb_spec a b)
  | |- context [Z.ltb ?a ?b] => destruct (Z.ltb_spec a b)
  end; try (exfalso; lia); cbn [andb orb negb]).

Ltac zcases_in H :=
  repeat match type of H with
  | context [Z.eqb ?a ?b] => destruct (Z.eqb_spec a b)
  | context [Z.leb ?a ?b] => destruct (Z.leb_spec a b)
  | context [Z.ltb ?a ?b] => destruct (Z.ltb_spec a b)
  end; cbn [andb orb negb] in H.

(** [lia] with quotients and remainders by constants. *)
Ltac dlia := Z.to_euclidean_division_equations; lia.

(** [lia] after the unsigned ranges and lengths are unfolded. *)
Ltac zlia := unfold is_byte, is_u32, is_u64, zlen in *; lia.

(** Runs a bind whose first computation is known. *)
Ltac rstep := cbn [mbind result_bind].

(** The bytes of a concrete list. *)
Ltac solve_bytes := repeat (apply Forall_cons; split; [unfold is_byte; lia|]); apply Forall_nil; exact I.

(** ** Lemmas on C integers *)

Lemma wrap_range w z : 0 <= w -> 0 <= wrap w z < 2 ^ w.
Proof. intros. unfold wrap. apply Z.mod_pos_bound. lia. Qed.

Lemma wrap_small w z : 0 <= z < 2 ^ w -> wrap w z = z.
Proof. apply Z.mod_small. Qed.

Lemma wrap_wrap w z : wrap w (wrap w z) = wrap w z.
Proof. unfold wrap. apply Zmod_mod. Qed.

Lemma u32_range z : is_u32 (u32 z).
Proof. apply wrap_range. lia. Qed.

Lemma u64_range z : is_u64 (u64 z).
Proof. apply wrap_range. lia. Qed.

Lemma u32_small z : is_u32 z -> u32 z = z.
Proof. apply wrap_small. Qed.

Lemma u64_small z : is_u64 z -> u64 z = z.
Proof. apply wrap_small. Qed.

Lemma swrap_range w z : 0 < w -> - 2 ^ (w - 1) <= swrap w z < 2 ^ (w - 1).
Proof.
  intros. unfold swrap.
  replace (2 ^ w) with (2 * 2 ^ (w - 1)) by (rewrite <- Z.pow_succ_r by lia; f_equal; lia).
  pose proof (Z.mod_pos_bound (z + 2 ^ (w - 1)) (2 * 2 ^ (w - 1))). lia.
Qed.

Lemma swrap_small w z : 0 < w -> - 2 ^ (w - 1) <= z < 2 ^ (w - 1) -> swrap w z = z.
Proof.
  intros. unfold swrap. rewrite Z.mod_small; [lia|].
  replace (2 ^ w) with (2 * 2 ^ (w - 1)) by (rewrite <- Z.pow_succ_r by lia; f_equal; lia).
  lia.
Qed.

Lemma s32_small z : - 2 ^ 31 <= z < 2 ^ 31 -> s32 z = z.
Proof. intros. apply swrap_small; lia. Qed.

Lemma s64_small z : - 2 ^ 63 <= z < 2 ^ 63 -> s64 z = z.
Proof. intros. apply swrap_small; lia. Qed.

Lemma swrap_wrap w z : 0 < w -> swrap w (wrap w z) = swrap w z.
Proof. intros. unfold swrap, wrap. f_equal. apply Zplus_mod_idemp_l. Qed.

#[export] Hint Resolve u32_range u64_range : skynet.

Lemma land_255 z : Z.land z 255 = z mod 256.
Proof. change 255 with (Z.ones 8). apply Z.land_ones. lia. Qed.

Lemma shiftr_div z n : 0 <= n -> Z.shiftr z n = z / 2 ^ n.
Proof. apply Z.shiftr_div_pow2. Qed.

Lemma land_pred_pow2 x k : 0 <= k -> Z.land x (2 ^ k - 1) = x mod 2 ^ k.
Proof. intros. rewrite <- Z.land_ones by done. f_equal. rewrite Z.ones_equiv. lia. Qed.

(** Equal above [k] bits. *)
Lemma lor_mask_eq a b k : 0 <= k ->
  Z.lor a (2 ^ k - 1) = Z.lor b (2 ^ k - 1) <-> a / 2 ^ k = b / 2 ^ k.
Proof.
  intros Hk. replace (2 ^ k - 1) with (Z.ones k) by (rewrite Z.ones_equiv; lia).
  rewrite <- !Z.shiftr_div_pow2 by done. split; intros H.
  - apply (f_equal (fun x => Z.shiftr x k)) in H. rewrite !Z.shiftr_lor in H.
    replace (Z.shiftr (Z.ones k) k) with 0 in H; [by rewrite !Z.lor_0_r in H|].
    rewrite Z.shiftr_div_pow2, Z.ones_equiv by done. symmetry. apply Z.div_small. lia.
  - apply Z.bits_inj'. intros i Hi. rewrite !Z.lor_spec, Z.testbit_ones_nonneg by done.
    destruct (Z.ltb_spec i k); [by rewrite !orb_true_r|]. rewrite !orb_false_r.
    apply (f_equal (fun x => Z.testbit x (i - k))) in H. rewrite !Z.shiftr_spec in H by lia.
    by replace (i - k + k) with i in H by lia.
Qed.

(** Disjoint bit fields are added by [|]. *)
Lemma lor_shiftl_add a b n : 0 <= n -> 0 <= a < 2 ^ n -> Z.lor a (Z.shiftl b n) = a + b * 2 ^ n.
Proof.
  intros Hn Ha. rewrite <- Z.lxor_lor, <- Z.add_nocarry_lxor; [now rewrite Z.shiftl_mul_pow2| |].
  all: apply Z.bits_inj'; intros i Hi; rewrite Z.land_spec, Z.bits_0;
    destruct (Z.ltb_spec i n);
    [ rewrite Z.shiftl_spec_low by lia; apply andb_false_r
    | rewrite <- (Z.mod_small a (2 ^ n)) by lia; rewrite Z.mod_pow2_bits_high by lia; reflexivity ].
Qed.

Lemma land_lt x m k : 0 <= k -> 0 <= m < 2 ^ k -> 0 <= Z.land x m < 2 ^ k.
Proof.
  intros Hk Hm. rewrite <- (Z.mod_small m (2 ^ k)), <- Z.land_ones, Z.land_assoc, Z.land_ones by lia.
  apply Z.mod_pos_bound. lia.
Qed.

Lemma lxor_lt x y k : 0 <= k -> 0 <= x < 2 ^ k -> 0 <= y < 2 ^ k -> 0 <= Z.lxor x y < 2 ^ k.
Proof.
  intros Hk Hx Hy. replace (Z.lxor x y) with (Z.lxor x y mod 2 ^ k); [apply Z.mod_pos_bound; lia|].
  rewrite <- Z.land_ones by lia.
  apply Z.bits_inj'. intros i Hi. rewrite Z.land_spec, Z.testbit_ones_nonneg, Z.lxor_spec by lia.
  destruct (Z.ltb_spec i k); [by rewrite andb_true_r|].
  rewrite <- (Z.mod_small x (2 ^ k)), <- (Z.mod_small y (2 ^ k)), !Z.mod_pow2_bits_high by lia. done.
Qed.

Lemma lor_lt x y k : 0 <= k -> 0 <= x < 2 ^ k -> 0 <= y < 2 ^ k -> 0 <= Z.lor x y < 2 ^ k.
Proof.
  intros Hk Hx Hy. replace (Z.lor x y) with (Z.lxor (Z.lxor x y) (Z.land x y)).
  { apply lxor_lt; [done|by apply lxor_lt|]. by apply land_lt. }
  apply Z.bits_inj'. intros i Hi. rewrite Z.lor_spec, !Z.lxor_spec, Z.land_spec.
  by destruct (Z.testbit x i), (Z.testbit y i).
Qed.

Lemma land_u32 x m : is_u32 m -> is_u32 (Z.land x m).
Proof. by apply (land_lt x m 32). Qed.

Lemma lxor_u32 x y : is_u32 x -> is_u32 y -> is_u32 (Z.lxor x y).
Proof. by apply (lxor_lt x y 32). Qed.

Lemma lor_u32 x y : is_u32 x -> is_u32 y -> is_u32 (Z.lor x y).
Proof. by apply (lor_lt x y 32). Qed.

Lemma lxor_cancel x t : Z.lxor (Z.lxor x t) t = x.
Proof. by rewrite Z.lxor_assoc, Z.lxor_nilpotent, Z.lxor_0_r. Qed.

#[export] Hint Resolve land_u32 lxor_u32 lor_u32 : skynet.

(** ** Lemmas on byte strings *)

Lemma length_le_bytes n z : length (le_bytes n z) = n.
Proof. revert z. induction n as [|n IH]; intros z; cbn; [done|]. by rewrite IH. Qed.

Lemma zlen_le_bytes n z : zlen (le_bytes n z) = Z.of_nat n.
Proof. unfold zlen. by rewrite length_le_bytes. Qed.

Lemma length_be_bytes n z : length (be_bytes n z) = n.
Proof. unfold be_bytes. by rewrite length_rev, length_le_bytes. Qed.

Lemma bytes_le_bytes n z : bytes (le_bytes n z).
Proof.
  revert z. induction n as [|n IH]; intros z; cbn; constructor; [|apply IH].
  unfold is_byte. apply Z.mod_pos_bound. lia.
Qed.

Lemma bytes_rev l : bytes l -> bytes (rev l).
Proof. apply Forall_rev. Qed.

Lemma bytes_be_bytes n z : bytes (be_bytes n z).
Proof. apply bytes_rev, bytes_le_bytes. Qed.

Lemma bytes_app l k : bytes (l ++ k) <-> bytes l /\ bytes k.
Proof. apply Forall_app. Qed.

Lemma bytes_take n l : bytes l -> bytes (take n l).
Proof. apply Forall_take. Qed.

Lemma bytes_drop n l : bytes l -> bytes (drop n l).
Proof. apply Forall_drop. Qed.

#[export] Hint Resolve bytes_le_bytes bytes_be_bytes bytes_take bytes_drop : skynet.

Lemma pow_8S n : 2 ^ (8 * Z.of_nat (S n)) = 256 * 2 ^ (8 * Z.of_nat n).
Proof. rewrite <- (Z.pow_add_r 2 8) by lia. f_equal. lia. Qed.

Lemma le_bytes_mod n z k : 8 * Z.of_nat n <= k -> le_bytes n (z mod 2 ^ k) = le_bytes n z.
Proof.
  revert z k. induction n as [|n IH]; intros z k Hk; [done|]. cbn [le_bytes].
  assert (2 ^ k = 256 * 2 ^ (k - 8)) as E by (rewrite <- (Z.pow_add_r 2 8) by lia; f_equal; lia).
  rewrite E. rewrite Z.rem_mul_r by lia. f_equal.
  - rewrite Z.mul_comm, Z_mod_plus_full. apply Zmod_mod.
  - rewrite <- (IH (z / 256) (k - 8)) by lia. f_equal.
    rewrite Z.mul_comm, Z_div_plus_full by lia. rewrite Z.div_small; [lia|]. apply Z.mod_pos_bound. lia.
Qed.

Lemma le_bytes_app n m z : le_bytes (n + m) z = le_bytes n z ++ le_bytes m (z / 2 ^ (8 * Z.of_nat n)).
Proof.
  revert z. induction n as [|n IH]; intros z; [by rewrite Z.div_1_r|]. cbn [le_bytes Nat.add app]. rewrite IH, pow_8S, Z.div_div by lia. done.
Qed.

Lemma le_val_le_bytes n z : le_val (le_bytes n z) = z mod 2 ^ (8 * Z.of_nat n).
Proof.
  revert z. induction n as [|n IH]; intros z; cbn [le_bytes le_val].
  - by rewrite Z.mod_1_r.
  - rewrite IH, pow_8S. symmetry.
    rewrite (Z.rem_mul_r z 256 (2 ^ (8 * Z.of_nat n))) by lia. lia.
Qed.

Lemma le_bytes_le_val l : bytes l -> le_bytes (length l) (le_val l) = l.
Proof.
  induction 1 as [|b l Hb Hl IH]; cbn [length le_bytes le_val]; [done|].
  unfold is_byte in Hb. f_equal.
  - rewrite Z.mul_comm, Z_mod_plus_full. apply Z.mod_small. lia.
  - rewrite Z.mul_comm, Z_div_plus_full by lia. rewrite Z.div_small by lia. exact IH.
Qed.

Lemma le_val_range l : bytes l -> 0 <= le_val l < 2 ^ (8 * zlen l).
Proof.
  unfold zlen. induction 1 as [|b l Hb Hl IH]; cbn [length le_val]; [lia|].
  rewrite pow_8S. unfold is_byte in Hb. lia.
Qed.

Lemma be_val_be_bytes n z : be_val (be_bytes n z) = z mod 2 ^ (8 * Z.of_nat n).
Proof. unfold be_val, be_bytes. rewrite rev_involutive. apply le_val_le_bytes. Qed.

Lemma be_bytes_be_val l : bytes l -> be_bytes (length l) (be_val l) = l.
Proof.
  intros H. unfold be_bytes, be_val. rewrite <- (length_rev l), le_bytes_le_val by (by apply bytes_rev).
  apply rev_involutive.
Qed.

(** ** Lemmas on arrays *)

Lemma zget_Some {A} (l : list A) i x : 0 <= i -> l !! Z.to_nat i = Some x -> zget l i = Ok x.
Proof. intros Hi Hx. unfold zget. zcases; [|lia]. by rewrite Hx. Qed.

Lemma zget_Ok {A} (l : list A) i x : zget l i = Ok x -> 0 <= i < zlen l /\ l !! Z.to_nat i = Some x.
Proof.
  unfold zget, deref, zlen. zcases; [|done]. destruct (l !! Z.to_nat i) eqn:E; intros; inv_res.
  apply lookup_lt_Some in E. split; [lia|done].
Qed.

Lemma zget_in_range {A} (l : list A) i : 0 <= i < zlen l -> exists x, zget l i = Ok x.
Proof.
  unfold zlen. intros Hi. destruct (lookup_lt_is_Some_2 l (Z.to_nat i)) as [x Hx]; [lia|].
  exists x. apply zget_Some; [lia|done].
Qed.

Lemma zset_Ok {A} (l : list A) i x : 0 <= i < zlen l -> zset l i x = Ok (<[Z.to_nat i := x]> l).
Proof. intros. unfold zset. zcases; done || lia. Qed.

Lemma zset_inv {A} (l l' : list A) i x : zset l i x = Ok l' -> 0 <= i < zlen l /\ l' = <[Z.to_nat i := x]> l.
Proof. unfold zset. zcases; intros; inv_res; done. Qed.

Lemma zlen_app {A} (l k : list A) : zlen (l ++ k) = zlen l + zlen k.
Proof. unfold zlen. rewrite length_app. lia. Qed.

Lemma zlen_cons {A} (x : A) l : zlen (x :: l) = 1 + zlen l.
Proof. unfold zlen. cbn [length]. lia. Qed.

Lemma zlen_nonneg {A} (l : list A) : 0 <= zlen l.
Proof. unfold zlen. lia. Qed.

Lemma slice_Ok {A} (l : list A) i n : 0 <= i -> 0 <= n -> i + n <= zlen l ->
  slice l i n = Ok (take (Z.to_nat n) (drop (Z.to_nat i) l)).
Proof. intros. unfold slice. zcases; done || lia. Qed.

Lemma slice_app {A} (pre mid post : list A) i n : i = zlen pre -> n = zlen mid ->
  slice (pre ++ mid ++ post) i n = Ok mid.
Proof.
  intros -> ->. rewrite slice_Ok by (rewrite ?zlen_app; zlia). unfold zlen. rewrite !Nat2Z.id.
  by rewrite drop_app_length, take_app_length.
Qed.

Lemma slice_tail {A} (pre mid : list A) i n : i = zlen pre -> n = zlen mid -> slice (pre ++ mid) i n = Ok mid.
Proof. intros. rewrite <- (app_nil_r mid) at 1. by apply slice_app. Qed.

Lemma blit_take {A} (l : list A) j d k : (j <= length l)%nat -> k = (j + length d)%nat ->
  take k (take j l ++ d ++ drop k l) = take j l ++ d.
Proof. intros Hj ->. rewrite app_assoc, take_app_length'; [done|]. rewrite length_app, length_take. lia. Qed.

(** [memcpy] into a buffer: what precedes is kept, the data follow. *)
Lemma blit_spec buffer j d : 0 <= j -> j + zlen d <= zlen buffer ->
  exists b, blit buffer j d = Ok b /\ length b = length buffer
    /\ take (Z.to_nat j + length d) b = take (Z.to_nat j) buffer ++ d
    /\ (bytes buffer -> bytes d -> bytes b).
Proof.
  intros Hj Hl. unfold blit. zcases; [|lia]. eexists. split; [done|]. unfold zlen in *.
  split; [rewrite !length_app, length_take, length_drop; lia|].
  split; [by rewrite blit_take by lia|].
  intros Hb Hd. apply bytes_app; split; [by auto with skynet|]. apply bytes_app; auto with skynet.
Qed.

Lemma blit_Ok buffer j d : 0 <= j -> j + zlen d <= zlen buffer -> bytes buffer -> bytes d ->
  exists b, blit buffer j d = Ok b /\ length b = length buffer /\ bytes b
    /\ take (Z.to_nat j + length d) b = take (Z.to_nat j) buffer ++ d.
Proof. intros Hj Hl Hb Hd. destruct (blit_spec buffer j d Hj Hl) as (b & E & H1 & H2 & H3). exists b. auto. Qed.

Lemma mapM_result_ext {A B} (f g : A -> result B) (l : list A) :
  (forall x, x ∈ l -> f x = g x) -> mapM f l = mapM g l.
Proof.
  induction l as [|x l IH]; intros H; cbn; [done|]. rewrite H by left. destruct (g x); cbn; try done.
  rewrite IH; [done|]. intros. apply H. by right.
Qed.

Lemma zget_app_r {A} (l k : list A) j : 0 <= j -> zget (l ++ k) (zlen l + j) = zget k j.
Proof.
  intros Hj. unfold zlen, zget. zcases; try lia. f_equal. rewrite lookup_app_r by lia. f_equal. lia.
Qed.

(** An index of a ring of [c] slots. *)
Lemma mod_wrap h n c : 0 <= h < c -> 0 <= n <= c ->
  (h + n) mod c = if h + n <? c then h + n else h + n - c.
Proof.
  intros. zcases; [apply Z.mod_small; lia|].
  rewrite <- (Z.mod_small (h + n - c) c) by lia.
  replace (h + n) with (h + n - c + 1 * c) at 1 by lia. apply Z_mod_plus_full.
Qed.

Lemma mapM_ok {A B} (f : A -> result B) (g : A -> B) l :
  (forall a, a ∈ l -> f a = Ok (g a)) -> mapM f l = Ok (g <$> l).
Proof.
  induction l as [|a l IH]; intros H; [done|]. cbn. rewrite (H a) by set_solver. cbn.
  rewrite IH by set_solver. done.
Qed.

(** ** Lemmas on linked lists *)

Lemma chain_det nx p l l' : chain nx p l -> chain nx p l' -> l = l'.
Proof.
  revert p l'. induction l as [|a l IH]; intros p [|b l'] H1 H2; cbn in *; inv_ands; try congruence.
  assert (a = b) as <- by congruence. assert (x0 = x) as -> by congruence. f_equal. by eapply IH.
Qed.

Lemma chain_ext nx nx' p l : (forall a, a ∈ l -> nx a = nx' a) -> chain nx p l -> chain nx' p l.
Proof.
  revert p. induction l as [|a l IH]; intros p Hext H; cbn in *; [done|]. inv_ands.
  split; [done|]. exists x. split; [rewrite <- Hext by set_solver; done|].
  apply IH; [|done]. intros. apply Hext. set_solver.
Qed.

Lemma seg_ext nx nx' p l q : (forall a, a ∈ l -> nx a = nx' a) -> seg nx p l q -> seg nx' p l q.
Proof.
  revert p. induction l as [|a l IH]; intros p Hext H; cbn in *; [done|]. inv_ands.
  split; [done|]. exists x. split; [rewrite <- Hext by set_solver; done|].
  apply IH; [|done]. intros. apply Hext. set_solver.
Qed.

Lemma chain_seg nx p l : chain nx p l <-> seg nx p l None.
Proof. revert p. induction l as [|a l IH]; intros p; cbn; [done|]. by setoid_rewrite IH. Qed.

Lemma seg_app nx p l k q : seg nx p (l ++ k) q <-> exists m, seg nx p l m /\ seg nx m k q.
Proof.
  revert p. induction l as [|a l IH]; intros p; cbn; [naive_solver|].
  setoid_rewrite IH. naive_solver.
Qed.

Lemma chain_app nx p l k : chain nx p (l ++ k) <-> exists m, seg nx p l m /\ chain nx m k.
Proof. rewrite chain_seg, seg_app. by setoid_rewrite chain_seg. Qed.

(** A list that ends in [NULL] visits no node twice. *)
Lemma chain_nodup nx p l : chain nx p l -> NoDup l.
Proof.
  revert p. induction l as [|a l IH]; intros p H; [constructor|].
  destruct H as [-> (p' & Hp & H)]. constructor; [|by eapply IH].
  intros Hin. apply list_elem_of_split in Hin as (l1 & l2 & ->).
  apply chain_app in H as (m & H1 & H2).
  destruct H2 as [-> (p2 & Hp2 & H2)].
  assert (p2 = p') as -> by congruence.
  assert (chain nx p' (l1 ++ a :: l2)) as H3.
  { apply chain_app. exists (Some a). split; [done|]. split; [done|]. exists p'. split; done. }
  pose proof (chain_det _ _ _ _ H2 H3) as E. apply (f_equal length) in E.
  rewrite length_app in E. cbn in E. lia.
Qed.

Lemma chain_alloc nx p l a : chain nx p l -> a ∈ l -> is_Some (nx a).
Proof.
  revert p. induction l as [|b l IH]; intros p H Ha; [set_solver|].
  destruct H as [-> (p' & Hp & H)]. apply elem_of_cons in Ha as [->|Ha]; [by eexists|eauto].
Qed.

Lemma chain_none nx l : chain nx None l -> l = [].
Proof. destruct l; [done|]. cbn. naive_solver. Qed.

(** Linking a node after the last one. *)
Lemma chain_snoc nx nx' p l t a : chain nx p (l ++ [t]) ->
  nx' t = Some (Some a) -> nx' a = Some None -> (forall b, b ∈ l -> nx' b = nx b) ->
  chain nx' p ((l ++ [t]) ++ [a]).
Proof.
  intros H Ht Ha Hl. rewrite <- app_assoc. apply chain_app in H as (m & H1 & -> & p' & Hp & _).
  apply chain_app. exists (Some t). split; [eapply seg_ext; [|done]; intros; symmetry; auto|].
  cbn. split; [done|]. exists (Some a). split; [done|]. split; [done|]. eauto.
Qed.
