(* ===== verification/CString.v ===== *)
(** * C strings

    A NUL-terminated string is the list of its bytes, none of which is 0.
    [strcmp] returns what the C library documents: the sign of the difference
    of the first bytes that differ, compared as [unsigned char]. *)
From S2P Require Import Prelude.

Definition cstring (s : list Z) : Prop := Forall (fun b => 0 < b < 256) s.

Fixpoint strcmp (a b : list Z) : Z :=
  match a, b with
  | [], [] => 0
  | [], y :: _ => - y
  | x :: _, [] => x
  | x :: a, y :: b => if x =? y then strcmp a b else x - y
  end.

(** The bytes of a string literal. *)
Fixpoint of_string (s : string) : list Z :=
  match s with
  | EmptyString => []
  | String c s => Z.of_nat (Ascii.nat_of_ascii c) :: of_string s
  end.

Lemma strcmp_refl a : strcmp a a = 0.
Proof. induction a as [|x a IH]; cbn; [done|]. by rewrite Z.eqb_refl. Qed.

Lemma strcmp_eq a b : cstring a -> cstring b -> strcmp a b = 0 -> a = b.
Proof.
  intros Ha. revert b. induction Ha as [|x a Hx Ha IH]; intros [|y b] Hb; cbn; inversion Hb; subst; try lia; [done|].
  destruct (Z.eqb_spec x y) as [->|]; [|lia]. intros. f_equal. by apply IH.
Qed.

Lemma strcmp_opp a b : strcmp b a = - strcmp a b.
Proof.
  revert b. induction a as [|x a IH]; intros [|y b]; cbn; try lia.
  rewrite Z.eqb_sym. destruct (Z.eqb_spec x y); [apply IH|lia].
Qed.

Lemma strcmp_trans a b c : cstring a -> cstring b -> cstring c -> strcmp a b < 0 -> strcmp b c < 0 -> strcmp a c < 0.
Proof.
  intros Ha. revert b c. induction Ha as [|x a Hx Ha IH]; intros [|y b] [|z c] Hb Hc; cbn;
    inversion Hb; inversion Hc; subst; try lia.
  destruct (Z.eqb_spec x y), (Z.eqb_spec y z), (Z.eqb_spec x z); subst; try lia. by apply IH.
Qed.

#[export] Hint Resolve strcmp_refl : skynet.

(** The digits of [%d] for a non-negative number, most significant first. *)
Fixpoint dec_digits (fuel : nat) (n : Z) (acc : list Z) : list Z :=
  match fuel with
  | O => acc
  | S fuel => if n <? 10 then (48 + n) :: acc else dec_digits fuel (n / 10) ((48 + n mod 10) :: acc)
  end.

(** [%d] of an [int]: at most 10 digits. *)
Definition dec (n : Z) : list Z := if n <? 0 then 45 :: dec_digits 10 (- n) [] else dec_digits 10 n [].

Example dec_examples : dec 0 = of_string "0" /\ dec (-120) = of_string "-120" /\ dec 2147483647 = of_string "2147483647".
Proof. repeat split. Qed.

(** ** Numbers and words in a string *)

(** White space, as [isspace]. *)
Fixpoint skip_space (s : list Z) : list Z :=
  match s with
  | c :: s' => if (c =? 32) || ((9 <=? c) && (c <=? 13)) then skip_space s' else s
  | [] => []
  end.

(** [strtoul(s, NULL, 16)], then as [uint32_t]: white space, a sign, [0x],
    digits; a value above [ULONG_MAX] is [ULONG_MAX]. *)
Definition hex_digit (c : Z) : option Z :=
  if (48 <=? c) && (c <=? 57) then Some (c - 48)
  else if (97 <=? c) && (c <=? 102) then Some (c - 87)
  else if (65 <=? c) && (c <=? 70) then Some (c - 55)
  else None.

Fixpoint hex_digits (s : list Z) (acc : Z) : Z :=
  match s with
  | [] => acc
  | c :: s => match hex_digit c with Some d => hex_digits s (Z.min (acc * 16 + d) (2 ^ 64)) | None => acc end
  end.

Definition hex_prefix (s : list Z) : list Z :=
  match s with
  | z :: x :: c :: s' => if (z =? 48) && ((x =? 120) || (x =? 88)) && bool_decide (is_Some (hex_digit c)) then c :: s' else s
  | _ => s
  end.

Definition strtoul16 (s : list Z) : Z :=
  let '(neg, s) := match skip_space s with
                   | c :: s' => if c =? 45 then (true, s') else if c =? 43 then (false, s') else (false, c :: s')
                   | [] => (false, [])
                   end in
  let v := hex_digits (hex_prefix s) 0 in
  if 2 ^ 64 - 1 <? v then u32 (2 ^ 64 - 1) else if neg : bool then u32 (- v) else u32 v.

(** [%d] of [sscanf]; [None] when there is no number. *)
Fixpoint scan_digits (l : list Z) (acc : Z) : Z * list Z :=
  match l with
  | [] => (acc, [])
  | c :: l' => if (48 <=? c) && (c <=? 57) then scan_digits l' (acc * 10 + (c - 48)) else (acc, l)
  end.

Definition scan_unsigned (l : list Z) : option (Z * list Z) :=
  match l with
  | c :: _ => if (48 <=? c) && (c <=? 57) then Some (scan_digits l 0) else None
  | [] => None
  end.

Definition scan_int (l : list Z) : option (Z * list Z) :=
  match skip_space l with
  | c :: l' =>
      if c =? 45 then match scan_unsigned l' with Some (n, r) => Some (- n, r) | None => None end
      else if c =? 43 then scan_unsigned l' else scan_unsigned (c :: l')
  | [] => None
  end.

Fixpoint hex_loop (fuel : nat) (n : Z) (acc : list Z) : list Z :=
  match fuel with
  | O => acc
  | S fuel =>
      let d := n mod 16 in
      let acc := (if d <? 10 then 48 + d else 87 + d) :: acc in
      if n <? 16 then acc else hex_loop fuel (n / 16) acc
  end.

(** [%x] of an [uint32_t]: at most 8 digits. *)
Definition hex (n : Z) : list Z := hex_loop 8 n [].

(** [%s] of [sscanf]: white space is skipped; [None] when there is no word. *)
Fixpoint take_word (s : list Z) : list Z * list Z :=
  match s with
  | c :: s' => if (c =? 32) || ((9 <=? c) && (c <=? 13)) then ([], s) else let '(w, r) := take_word s' in (c :: w, r)
  | [] => ([], [])
  end.

Definition scan_word (s : list Z) : option (list Z * list Z) :=
  match skip_space s with [] => None | s => Some (take_word s) end.

(** [strtol(s, NULL, 10)]: white space, a sign, digits, clamped to [long]. *)
Fixpoint dec_loop (s : list Z) (acc : Z) : Z :=
  match s with
  | c :: s => if (48 <=? c) && (c <=? 57) then dec_loop s (Z.min (acc * 10 + (c - 48)) (2 ^ 63)) else acc
  | [] => acc
  end.

Definition strtol10 (s : list Z) : Z :=
  match skip_space s with
  | c :: s' =>
      if c =? 45 then - dec_loop s' 0
      else if c =? 43 then Z.min (dec_loop s' 0) (2 ^ 63 - 1) else Z.min (dec_loop (c :: s') 0) (2 ^ 63 - 1)
  | [] => 0
  end.

(** ** What [%d] prints is read back *)

Definition digit (c : Z) : Prop := 48 <= c <= 57.
Definition digits_val (l : list Z) : Z := fold_left (fun a c => a * 10 + (c - 48)) l 0.

Lemma dec_digits_spec fuel : forall n acc, 0 <= n < 10 ^ Z.of_nat fuel -> (0 < fuel)%nat ->
  exists d ds, dec_digits fuel n acc = (d :: ds) ++ acc /\ Forall digit (d :: ds) /\ digits_val (d :: ds) = n.
Proof.
  induction fuel as [|fuel IH]; intros n acc Hn Hf; [lia|]. cbn [dec_digits]. destruct (Z.ltb_spec n 10).
  - exists (48 + n), []. split; [done|]. split; [repeat constructor; unfold digit; lia|]. cbn. lia.
  - assert (10 ^ Z.of_nat (S fuel) = 10 * 10 ^ Z.of_nat fuel) as E by (rewrite Nat2Z.inj_succ, Z.pow_succ_r; lia). rewrite E in Hn.
    destruct fuel as [|fuel]; [cbn in Hn; lia|].
    destruct (IH (n / 10) (48 + n mod 10 :: acc)) as (d & ds & E1 & H1 & H2); [dlia|lia|].
    exists d, (ds ++ [48 + n mod 10]). split; [rewrite E1; cbn; by rewrite <- app_assoc|].
    inversion_clear H1 as [|? ? Hd Hds]. split; [constructor; [done|]; apply Forall_app; split; [done|]; repeat constructor; unfold digit; dlia|].
    change (digits_val (d :: ds ++ [48 + n mod 10])) with (fold_left (fun a c => a * 10 + (c - 48)) ((d :: ds) ++ [48 + n mod 10]) 0).
    rewrite fold_left_app. fold (digits_val (d :: ds)). rewrite H2. cbn. dlia.
Qed.

Lemma dec_nonzero n : 0 <= n <= INT_MAX -> Forall (fun c => c <> 0) (dec n).
Proof.
  intros Hn. unfold dec. destruct (Z.ltb_spec n 0); [lia|]. unfold INT_MAX in Hn.
  destruct (dec_digits_spec 10 n []) as (d & ds & -> & Hd & _); [lia|lia|]. rewrite app_nil_r.
  eapply Forall_impl; [exact Hd|]. unfold digit. intros. lia.
Qed.

Lemma dec_loop_fold ds : Forall digit ds -> forall acc, 0 <= acc ->
  acc <= fold_left (fun a c => a * 10 + (c - 48)) ds acc /\
  (fold_left (fun a c => a * 10 + (c - 48)) ds acc <= 2 ^ 63 -> dec_loop ds acc = fold_left (fun a c => a * 10 + (c - 48)) ds acc).
Proof.
  induction 1 as [|d ds Hd _ IH]; intros acc Hacc; cbn [fold_left dec_loop]; [done|].
  unfold digit in Hd. destruct (IH (acc * 10 + (d - 48))) as [H1 H2]; [lia|]. split; [lia|]. intros Hle.
  zprune. rewrite Z.min_l by lia. auto.
Qed.

Lemma strtol10_dec n : 0 <= n <= INT_MAX -> strtol10 (dec n) = n.
Proof.
  intros Hn. unfold dec. destruct (Z.ltb_spec n 0); [lia|]. unfold INT_MAX in Hn.
  destruct (dec_digits_spec 10 n []) as (d & ds & -> & Hd & Hv); [lia|lia|]. rewrite app_nil_r.
  destruct (dec_loop_fold _ Hd 0) as [_ E]; [done|]. fold (digits_val (d :: ds)) in E. rewrite Hv in E.
  unfold strtol10. cbn [skip_space]. inversion_clear Hd as [|? ? Hd' _]. unfold digit in Hd'. zprune.
  rewrite E by lia. lia.
Qed.
