(* ===== verification/MessageQueue.v ===== *)
(** * Message queues (skynet-src/skynet_mq.c)

    The ring buffer of a service ([struct message_queue]) and the global list
    of the queues that have work ([struct global_queue]). A queue is known by
    its address; the store maps addresses to queues, so the [next] links of
    the global list are real pointers. Every function whose body the source
    brackets with [SPIN_LOCK]/[SPIN_UNLOCK] is one atomic operation here. *)
From S2P Require Import Prelude.

(** ** Data *)

Definition DEFAULT_QUEUE_SIZE : Z := 64.
Definition MQ_IN_GLOBAL : Z := 1.
Definition MQ_OVERLOAD : Z := 1024.

(** [MESSAGE_TYPE_SHIFT] and [MESSAGE_TYPE_MASK] for a 64-bit [size_t]. *)
Definition MESSAGE_TYPE_SHIFT : Z := 56.
Definition MESSAGE_TYPE_MASK : Z := Z.shiftr (2 ^ 64 - 1) 8.

Record skynet_message : Set := SkynetMessage {
  m_source : Z;
  m_session : Z;
  m_data : Z;
  m_sz : Z
}.

(** A slot of the ring is [None] until it is written: [skynet_malloc] does not
    initialise it. *)
Record message_queue : Set := MessageQueue {
  q_handle : Z;
  q_cap : Z;
  q_head : Z;
  q_tail : Z;
  q_release : Z;
  q_in_global : Z;
  q_overload : Z;
  q_overload_threshold : Z;
  q_queue : list (option skynet_message);
  q_next : option nat
}.

Record global_queue : Set := GlobalQueue {
  g_head : option nat;
  g_tail : option nat
}.

(** [hQ] is the static pointer [Q], [NULL] until [skynet_mq_init]. *)
Record heap : Set := Heap {
  h_queues : gmap nat message_queue;
  hQ : option global_queue
}.

Definition set_next (n : option nat) (q : message_queue) : message_queue :=
  MessageQueue (q_handle q) (q_cap q) (q_head q) (q_tail q) (q_release q) (q_in_global q)
    (q_overload q) (q_overload_threshold q) (q_queue q) n.

Definition set_in_global (g : Z) (q : message_queue) : message_queue :=
  MessageQueue (q_handle q) (q_cap q) (q_head q) (q_tail q) (q_release q) g
    (q_overload q) (q_overload_threshold q) (q_queue q) (q_next q).

Definition set_release (r : Z) (q : message_queue) : message_queue :=
  MessageQueue (q_handle q) (q_cap q) (q_head q) (q_tail q) r (q_in_global q)
    (q_overload q) (q_overload_threshold q) (q_queue q) (q_next q).

Definition set_overload (o t : Z) (q : message_queue) : message_queue :=
  MessageQueue (q_handle q) (q_cap q) (q_head q) (q_tail q) (q_release q) (q_in_global q)
    o t (q_queue q) (q_next q).

Definition set_ring (cap head tail : Z) (l : list (option skynet_message)) (q : message_queue) : message_queue :=
  MessageQueue (q_handle q) cap head tail (q_release q) (q_in_global q)
    (q_overload q) (q_overload_threshold q) l (q_next q).

Definition store (a : nat) (q : message_queue) (h : heap) : heap :=
  Heap (<[a := q]> (h_queues h)) (hQ h).

(** ** The global list *)

Definition skynet_mq_init (h : heap) : heap := Heap (h_queues h) (Some (GlobalQueue None None)).

Definition skynet_globalmq_push (queue : nat) (h : heap) : result heap :=
  q ← deref (hQ h);
  mq ← deref (h_queues h !! queue);
  _ ← assert_ (bool_decide (q_next mq = None));
  match g_tail q with
  | Some t =>
      tq ← deref (h_queues h !! t);
      Ok (Heap (<[t := set_next (Some queue) tq]> (h_queues h)) (Some (GlobalQueue (g_head q) (Some queue))))
  | None => Ok (Heap (h_queues h) (Some (GlobalQueue (Some queue) (Some queue))))
  end.

Definition skynet_globalmq_pop (h : heap) : result (option nat * heap) :=
  q ← deref (hQ h);
  match g_head q with
  | None => Ok (None, h)
  | Some a =>
      mq ← deref (h_queues h !! a);
      tail ← match q_next mq with
             | None => _ ← assert_ (bool_decide (g_tail q = Some a)); Ok None
             | Some _ => Ok (g_tail q)
             end;
      Ok (Some a, Heap (<[a := set_next None mq]> (h_queues h)) (Some (GlobalQueue (q_next mq) tail)))
  end.

(** ** One queue *)

Definition mq_new (handle : Z) : message_queue :=
  MessageQueue handle DEFAULT_QUEUE_SIZE 0 0 0 MQ_IN_GLOBAL 0 MQ_OVERLOAD
    (replicate (Z.to_nat DEFAULT_QUEUE_SIZE) None) None.

(** [a] is the address the allocator returns. *)
Definition skynet_mq_create (a : nat) (handle : Z) (h : heap) : heap := store a (mq_new handle) h.

Definition skynet_mq_handle (a : nat) (h : heap) : result Z := q ← deref (h_queues h !! a); Ok (q_handle q).

Definition skynet_mq_length (q : message_queue) : Z :=
  if q_head q <=? q_tail q then q_tail q - q_head q else q_tail q + q_cap q - q_head q.

(** Returns the pending overload report and clears it. *)
Definition skynet_mq_overload (q : message_queue) : Z * message_queue :=
  if negb (q_overload q =? 0)
  then (q_overload q, set_overload 0 (q_overload_threshold q) q)
  else (0, q).

(** [while (length > q->overload_threshold) { q->overload = length; q->overload_threshold *= 2; }];
    doubling beyond [INT_MAX] is undefined, and 32 doublings of a positive
    [int] always reach it. *)
Fixpoint overload_loop (fuel : nat) (length overload threshold : Z) : result (Z * Z) :=
  match fuel with
  | O => Fault
  | S fuel =>
      if threshold <? length then
        if INT_MAX <? threshold * 2 then Fault
        else overload_loop fuel length length (threshold * 2)
      else Ok (overload, threshold)
  end.

(** The body of [skynet_mq_pop]: [Some] message for the return value 0, [None] for 1. *)
Definition mq_pop (q : message_queue) : result (option skynet_message * message_queue) :=
  if negb (q_head q =? q_tail q) then
    slot ← zget (q_queue q) (q_head q);
    message ← deref slot;
    let head := if q_cap q <=? q_head q + 1 then 0 else q_head q + 1 in
    let length := q_tail q - head in
    let length := if length <? 0 then length + q_cap q else length in
    '(overload, threshold) ← overload_loop 32 length (q_overload q) (q_overload_threshold q);
    Ok (Some message,
        set_overload overload threshold (set_ring (q_cap q) head (q_tail q) (q_queue q) q))
  else
    Ok (None, set_in_global 0 (set_overload (q_overload q) MQ_OVERLOAD q)).

(** [q->cap *= 2] is undefined beyond [INT_MAX]. *)
Definition expand_queue (q : message_queue) : result message_queue :=
  if INT_MAX <? q_cap q * 2 then Fault
  else
    new_queue ← mapM (fun i => zget (q_queue q) ((q_head q + i) mod q_cap q)) (seqZ 0 (q_cap q));
    Ok (set_ring (q_cap q * 2) 0 (q_cap q) (new_queue ++ replicate (Z.to_nat (q_cap q)) None) q).

(** [skynet_mq_push] up to the test of [in_global]. *)
Definition mq_put (q : message_queue) (message : skynet_message) : result message_queue :=
  queue ← zset (q_queue q) (q_tail q) (Some message);
  let tail := if q_cap q <=? q_tail q + 1 then 0 else q_tail q + 1 in
  let q := set_ring (q_cap q) (q_head q) tail queue q in
  if q_head q =? q_tail q then expand_queue q else Ok q.

Definition skynet_mq_push (a : nat) (message : skynet_message) (h : heap) : result heap :=
  q ← deref (h_queues h !! a);
  q ← mq_put q message;
  if q_in_global q =? 0
  then skynet_globalmq_push a (store a (set_in_global MQ_IN_GLOBAL q) h)
  else Ok (store a q h).

Definition skynet_mq_pop (a : nat) (h : heap) : result (option skynet_message * heap) :=
  q ← deref (h_queues h !! a);
  '(m, q) ← mq_pop q;
  Ok (m, store a q h).

Definition skynet_mq_mark_release (a : nat) (h : heap) : result heap :=
  q ← deref (h_queues h !! a);
  _ ← assert_ (q_release q =? 0);
  let h := store a (set_release 1 q) h in
  if negb (q_in_global q =? MQ_IN_GLOBAL) then skynet_globalmq_push a h else Ok h.

Definition _release (a : nat) (h : heap) : result heap :=
  q ← deref (h_queues h !! a);
  _ ← assert_ (bool_decide (q_next q = None));
  Ok (Heap (delete a (h_queues h)) (hQ h)).

(** The messages handed to [drop_func], in order, and the heap after the queue
    is freed; one unit of fuel per [skynet_mq_pop]. *)
Fixpoint _drop_queue (fuel : nat) (a : nat) (h : heap) : result (list skynet_message * heap) :=
  match fuel with
  | O => Fault
  | S fuel =>
      '(m, h) ← skynet_mq_pop a h;
      match m with
      | Some m => '(ms, h) ← _drop_queue fuel a h; Ok (m :: ms, h)
      | None => h ← _release a h; Ok ([], h)
      end
  end.

Definition skynet_mq_release (fuel : nat) (a : nat) (h : heap) : result (list skynet_message * heap) :=
  q ← deref (h_queues h !! a);
  if negb (q_release q =? 0) then _drop_queue fuel a h
  else h ← skynet_globalmq_push a h; Ok ([], h).

(** ** Abstraction *)

(** [q] holds the messages [l], oldest first. *)
Record mq_rep (q : message_queue) (l : list skynet_message) : Prop := MqRep {
  rep_cap : exists k, 0 <= k <= 24 /\ q_cap q = 64 * 2 ^ k;
  rep_size : zlen (q_queue q) = q_cap q;
  rep_head : 0 <= q_head q < q_cap q;
  rep_len : zlen l < q_cap q;
  rep_tail : q_tail q = (q_head q + zlen l) mod q_cap q;
  rep_slots : forall i m, l !! i = Some m ->
    q_queue q !! Z.to_nat ((q_head q + Z.of_nat i) mod q_cap q) = Some (Some m);
  rep_threshold : MQ_OVERLOAD <= q_overload_threshold q
}.

(** [l] is stored in the slots of [q]; it may fill the ring. *)
Definition stored (q : message_queue) (l : list skynet_message) : Prop :=
  forall i m, l !! i = Some m -> q_queue q !! Z.to_nat ((q_head q + Z.of_nat i) mod q_cap q) = Some (Some m).

(** The store as seen by the links of the global list. *)
Definition links (h : heap) (a : nat) : option (option nat) := q_next <$> h_queues h !! a.

(** The global list of [h] is [l], first in first. *)
Record gq_rep (h : heap) (l : list nat) : Prop := GqRep {
  gq_q : exists q, hQ h = Some q /\ chain (links h) (g_head q) l /\ g_tail q = last l;
  gq_out : forall a q, h_queues h !! a = Some q -> a ∉ l -> q_next q = None
}.

(** The queues of [h] without their links: what the global list operations leave alone. *)
Definition erase (h : heap) : gmap nat message_queue := set_next None <$> h_queues h.

(** Operations on one queue, and their specification on the list it holds. *)
Inductive mq_op : Set :=
| OpPush (m : skynet_message)
| OpPop.

Fixpoint run_ring (ops : list mq_op) (q : message_queue) : result (list (option skynet_message) * message_queue) :=
  match ops with
  | [] => Ok ([], q)
  | OpPush m :: ops => q ← mq_put q m; run_ring ops q
  | OpPop :: ops => '(m, q) ← mq_pop q; '(ms, q) ← run_ring ops q; Ok (m :: ms, q)
  end.

Fixpoint run_fifo (ops : list mq_op) (l : list skynet_message) : list (option skynet_message) * list skynet_message :=
  match ops with
  | [] => ([], l)
  | OpPush m :: ops => run_fifo ops (l ++ [m])
  | OpPop :: ops =>
      match l with
      | [] => let '(ms, l) := run_fifo ops [] in (None :: ms, l)
      | m :: l => let '(ms, l) := run_fifo ops l in (Some m :: ms, l)
      end
  end.

(** ** The ring buffer *)

Lemma overload_loop_ok fuel len o t : 0 < t -> len <= 2 ^ 30 -> len <= t * 2 ^ Z.of_nat fuel ->
  exists o' t' k, overload_loop (S fuel) len o t = Ok (o', t') /\ t' = t * 2 ^ Z.of_nat k /\ len <= t' /\
    (k <> O -> o' = len) /\ (k = O -> o' = o) /\ (forall k', (k' < k)%nat -> t * 2 ^ Z.of_nat k' < len).
Proof.
  revert o t. induction fuel as [|fuel IH]; intros o t Ht Hlen Hf.
  - cbn [overload_loop]. zcases; [lia|lia|]. exists o, t, O. split_and!; try done; lia.
  - remember (S fuel) as f eqn:Ef. cbn [overload_loop]. zcases; subst f.
    + unfold INT_MAX in *. lia.
    + destruct (IH len (t * 2)) as (o' & t' & k & E & -> & P1 & P2 & P3 & P4).
      { lia. } { done. } { rewrite Nat2Z.inj_succ, Z.pow_succ_r in Hf by lia. lia. }
      exists o', (t * 2 * 2 ^ Z.of_nat k), (S k). split; [exact E|].
      rewrite Nat2Z.inj_succ, Z.pow_succ_r by lia. split_and!; try done; try lia.
      intros [|k'] Hk; [cbn; lia|]. rewrite Nat2Z.inj_succ, Z.pow_succ_r by lia.
      specialize (P4 k'). lia.
    + exists o, t, O. split_and!; try done; lia.
Qed.

Lemma rep_cap_bounds q l : mq_rep q l -> 64 <= q_cap q <= 2 ^ 30.
Proof.
  intros [(k & Hk & ->)]. split.
  - pose proof (Z.pow_pos_nonneg 2 k). lia.
  - change (2 ^ 30) with (64 * 2 ^ 24). pose proof (Z.pow_le_mono_r 2 k 24). lia.
Qed.

(** The ring is empty exactly when it holds no message. *)
Lemma rep_empty q l : mq_rep q l -> (q_head q = q_tail q <-> l = []).
Proof.
  intros H. pose proof (rep_cap_bounds _ _ H). destruct H.
  rewrite rep_tail0, mod_wrap by zlia. destruct l; cbn.
  - rewrite Z.add_0_r. split; [done|]. zcases; lia.
  - unfold zlen in *. cbn in *. split; [|done]. zcases; lia.
Qed.

Lemma mq_length_rep q l : mq_rep q l -> skynet_mq_length q = zlen l.
Proof.
  intros H. pose proof (rep_cap_bounds _ _ H). destruct H. unfold skynet_mq_length.
  rewrite rep_tail0, mod_wrap by zlia. pose proof (zlen_nonneg l). zcases; lia.
Qed.

Lemma mq_new_rep handle : mq_rep (mq_new handle) [].
Proof.
  constructor; cbn; try done; try lia.
  exists 0. by split.
Qed.

Lemma mq_pop_empty q : mq_rep q [] ->
  mq_pop q = Ok (None, set_in_global 0 (set_overload (q_overload q) MQ_OVERLOAD q)).
Proof.
  intros H. pose proof (proj2 (rep_empty _ _ H) eq_refl) as E. unfold mq_pop.
  by rewrite E, Z.eqb_refl.
Qed.

Lemma mq_pop_cons q m l : mq_rep q (m :: l) ->
  exists o k, let t := q_overload_threshold q * 2 ^ Z.of_nat k in
    mq_pop q = Ok (Some m, set_overload o t
      (set_ring (q_cap q) (if q_cap q <=? q_head q + 1 then 0 else q_head q + 1) (q_tail q) (q_queue q) q)) /\
    zlen l <= t /\ (k <> O -> o = zlen l) /\ (k = O -> o = q_overload q) /\
    (forall k', (k' < k)%nat -> q_overload_threshold q * 2 ^ Z.of_nat k' < zlen l).
Proof.
  intros H. pose proof (rep_cap_bounds _ _ H) as Hc.
  assert (q_head q <> q_tail q) as Hne by (rewrite (rep_empty _ _ H); done).
  destruct H. unfold mq_pop. destruct (Z.eqb_spec (q_head q) (q_tail q)) as [|_]; [done|]. cbn [negb].
  rewrite (zget_Some _ _ (Some m)); [|lia|]; cycle 1.
  { specialize (rep_slots0 O m eq_refl). rewrite Z.add_0_r, Z.mod_small in rep_slots0 by lia. done. }
  cbn [mbind result_bind deref].
  set (len := (if _ <? 0 then _ else _)).
  assert (len = zlen l) as ->.
  { subst len. rewrite rep_tail0, mod_wrap by zlia. unfold zlen in *. cbn [length] in *. zcases; lia. }
  destruct (overload_loop_ok 31 (zlen l) (q_overload q) (q_overload_threshold q))
    as (o & t & k & E & -> & H1 & H2 & H3 & H4); unfold MQ_OVERLOAD, zlen in *; cbn [length] in *; try lia.
  exists o, k. cbn zeta. rewrite E. cbn. split_and!; try done.
Qed.

Lemma mq_pop_rep q m l : mq_rep q (m :: l) ->
  exists q', mq_pop q = Ok (Some m, q') /\ mq_rep q' l /\
    q_in_global q' = q_in_global q /\ q_next q' = q_next q /\ q_release q' = q_release q /\ q_handle q' = q_handle q.
Proof.
  intros H. destruct (mq_pop_cons _ _ _ H) as (o & k & E & Ht & Ho & _).
  eexists. split; [exact E|]. split; [|done].
  pose proof (rep_cap_bounds _ _ H) as Hc. destruct H. unfold zlen in *; cbn [length] in *.
  constructor; cbn; try done.
  - zcases; lia.
  - unfold zlen. lia.
  - rewrite rep_tail0. unfold zlen in *. rewrite !mod_wrap by (zcases; lia). zcases; lia.
  - intros i m' Hi. specialize (rep_slots0 (S i) m' Hi). rewrite <- rep_slots0. f_equal. f_equal.
    apply lookup_lt_Some in Hi. unfold zlen in *. rewrite !mod_wrap by (zcases; lia). zcases; lia.
  - pose proof (Z.pow_pos_nonneg 2 (Z.of_nat k)). unfold MQ_OVERLOAD in *. nia.
Qed.

(** A full ring is copied, oldest message first, to one of twice the size. *)
Lemma expand_queue_rep q l k : 0 <= k < 24 -> q_cap q = 64 * 2 ^ k -> 0 <= q_head q < q_cap q ->
  zlen l = q_cap q -> stored q l -> MQ_OVERLOAD <= q_overload_threshold q ->
  exists q', expand_queue q = Ok q' /\ mq_rep q' l /\
    q_in_global q' = q_in_global q /\ q_next q' = q_next q /\ q_release q' = q_release q /\ q_handle q' = q_handle q.
Proof.
  intros Hk Ek Hh Hfull Hslots Hth. unfold expand_queue, stored in *.
  assert (q_cap q * 2 = 64 * 2 ^ (k + 1)) as Ek2 by (rewrite Z.pow_add_r by lia; lia).
  pose proof (Z.pow_le_mono_r 2 (k + 1) 24 ltac:(lia) ltac:(lia)).
  destruct (Z.ltb_spec INT_MAX (q_cap q * 2)); [unfold INT_MAX in *; lia|].
  destruct l as [|m0 l0] eqn:El; [unfold zlen in *; cbn in *; lia|]. rewrite <- El in *. clear El l0.
  assert (Hg : forall i, i ∈ seqZ 0 (q_cap q) ->
    zget (q_queue q) ((q_head q + i) mod q_cap q) = Ok (Some (default m0 (l !! Z.to_nat i)))).
  { intros i Hi. apply elem_of_seqZ in Hi.
    destruct (lookup_lt_is_Some_2 l (Z.to_nat i)) as [m' Hm']; [unfold zlen in *; lia|].
    pose proof (Hslots _ _ Hm') as Hs. rewrite Z2Nat.id in Hs by lia. rewrite Hm'. cbn.
    apply zget_Some; [apply Z.mod_pos_bound; lia|done]. }
  rewrite (mapM_ok _ _ _ Hg). cbn [mbind result_bind].
  eexists. split; [done|]. split; [|done].
  constructor; cbn [q_cap q_head q_tail q_queue q_overload_threshold set_ring]; try lia; try done.
  - exists (k + 1). lia.
  - unfold zlen. rewrite length_app, length_fmap, length_seqZ, length_replicate. lia.
  - rewrite Z.mod_small; lia.
  - intros i m' Hi. assert (Hi' := lookup_lt_Some _ _ _ Hi). unfold zlen in *.
    rewrite Z.mod_small by lia. rewrite lookup_app_l by (rewrite length_fmap, length_seqZ; lia).
    rewrite list_lookup_fmap, lookup_seqZ_lt by lia. cbn.
    replace (Z.to_nat (0 + Z.of_nat (Z.to_nat (0 + Z.of_nat i)))) with i by lia. by rewrite Hi.
Qed.

Lemma mq_put_rep q l m : mq_rep q l -> zlen l + 1 < 2 ^ 30 ->
  exists q', mq_put q m = Ok q' /\ mq_rep q' (l ++ [m]) /\
    q_in_global q' = q_in_global q /\ q_next q' = q_next q /\ q_release q' = q_release q /\ q_handle q' = q_handle q.
Proof.
  intros H Hlen. pose proof (rep_cap_bounds _ _ H) as Hc. destruct H. unfold mq_put.
  pose proof (zlen_nonneg l) as Hl0.
  assert (0 <= q_tail q < q_cap q) as Htl by (rewrite rep_tail0; apply Z.mod_pos_bound; lia).
  rewrite zset_Ok by lia. cbn [mbind result_bind].
  set (ql := <[_ := _]> (q_queue q)).
  set (tl := if q_cap q <=? q_tail q + 1 then 0 else q_tail q + 1).
  assert (tl = (q_head q + (zlen l + 1)) mod q_cap q) as Etl.
  { subst tl. pose proof rep_tail0 as T. rewrite mod_wrap in T by lia. rewrite mod_wrap by lia.
    revert T. zcases; lia. }
  assert (Hslots : stored (set_ring (q_cap q) (q_head q) tl ql q) (l ++ [m])).
  { intros i m' Hi. cbn. subst ql. apply lookup_snoc_Some in Hi as [[Hi Hm]|[-> <-]].
    - rewrite list_lookup_insert_ne; [by apply rep_slots0|]. rewrite rep_tail0. unfold zlen in *.
      rewrite !mod_wrap by lia. zcases; lia.
    - rewrite rep_tail0. apply list_lookup_insert_eq. unfold zlen in *. rewrite <- rep_tail0. lia. }
  assert (length ql = length (q_queue q)) as Hql by apply length_insert.
  assert (zlen (l ++ [m]) = zlen l + 1) as Hlm by (rewrite zlen_app; done).
  cbn [q_head q_tail set_ring]. destruct (Z.eqb_spec (q_head q) tl) as [Ef|Ef].
  - assert (zlen l + 1 = q_cap q) as Hfull.
    { rewrite Etl, mod_wrap in Ef by lia. revert Ef. zcases; lia. }
    destruct rep_cap0 as (k & Hk & Ek).
    assert (k < 24) as Hk'.
    { destruct (Z.eq_dec k 24) as [->|]; [|lia]. rewrite Ek in Hfull. cbn in Hfull. lia. }
    destruct (expand_queue_rep (set_ring (q_cap q) (q_head q) tl ql q) (l ++ [m]) k) as (q' & E & Hq');
      cbn; try done; try lia.
    exists q'. rewrite E. exact (conj eq_refl Hq').
  - eexists. split; [done|]. split; [|done].
    constructor; cbn [q_cap q_head q_tail q_queue q_overload_threshold set_ring]; rewrite ?Hlm; try lia; try done.
    + unfold zlen in *. lia.
    + destruct (Z.eq_dec (zlen l + 1) (q_cap q)) as [E|]; [|lia].
      exfalso. apply Ef. rewrite Etl, E. rewrite mod_wrap by lia. zcases; lia.
Qed.

Lemma mq_rep_ext q q' l : q_cap q' = q_cap q -> q_head q' = q_head q -> q_tail q' = q_tail q ->
  q_queue q' = q_queue q -> MQ_OVERLOAD <= q_overload_threshold q' -> mq_rep q l -> mq_rep q' l.
Proof. intros E1 E2 E3 E4 Ht []. constructor; rewrite ?E1, ?E2, ?E3, ?E4; done. Qed.

Lemma mq_rep_set_next q l n : mq_rep (set_next n q) l <-> mq_rep q l.
Proof. split; intros []; by constructor. Qed.

(** ** The global list *)

Lemma links_insert_ne h a b q : a <> b -> links (store a q h) b = links h b.
Proof. intros. unfold links, store. cbn. by rewrite lookup_insert_ne. Qed.

Lemma erase_insert a q q' h Q : h_queues h !! a = Some q -> set_next None q' = set_next None q ->
  erase (Heap (<[a := q']> (h_queues h)) Q) = erase h.
Proof.
  intros Ha E. unfold erase. cbn. rewrite fmap_insert, E. apply insert_id. by rewrite lookup_fmap, Ha.
Qed.

Lemma erase_lookup h q : erase h !! q = set_next None <$> h_queues h !! q.
Proof. unfold erase. by rewrite lookup_fmap. Qed.

Lemma erase_store h q Q : erase (store q Q h) = <[q := set_next None Q]> (erase h).
Proof. unfold erase, store. cbn. by rewrite fmap_insert. Qed.

(** The global list only depends on the links of its members. *)
Lemma gq_rep_ext h h' gl : gq_rep h gl -> hQ h' = hQ h -> (forall x, x ∈ gl -> links h' x = links h x) ->
  (forall x X, h_queues h' !! x = Some X -> x ∉ gl -> q_next X = None) -> gq_rep h' gl.
Proof.
  intros [(g & Hg & Hch & Htl) _] HQ Hl Hn. constructor; [|done]. exists g. rewrite HQ. split; [done|]. split; [|done].
  eapply chain_ext; [|exact Hch]. intros x Hx. symmetry. by apply Hl.
Qed.

Lemma gq_rep_store h gl q Q Q' : gq_rep h gl -> h_queues h !! q = Some Q -> q_next Q' = q_next Q -> gq_rep (store q Q' h) gl.
Proof.
  intros Hg HQ Hn. eapply gq_rep_ext; [exact Hg|done|..].
  - intros x _. unfold links, store. cbn. destruct (decide (x = q)) as [->|Hne].
    + rewrite lookup_insert_eq, HQ. cbn. by rewrite Hn.
    + by rewrite lookup_insert_ne.
  - cbn. intros x X [[<- <-]|[Hne HX]]%lookup_insert_Some Hx; [rewrite Hn|]; by eapply gq_out.
Qed.

Lemma globalmq_push_rep h l a q : gq_rep h l -> h_queues h !! a = Some q -> a ∉ l ->
  exists h', skynet_globalmq_push a h = Ok h' /\ gq_rep h' (l ++ [a]) /\ erase h' = erase h.
Proof.
  intros [(g & HQ & Hch & Htl) Hout] Ha Hal. unfold skynet_globalmq_push. rewrite HQ, Ha. cbn.
  rewrite (Hout _ _ Ha Hal). cbn. rewrite Htl.
  destruct (last l) as [t|] eqn:El; cbn.
  - apply last_Some in El as [l' ->].
    assert (t <> a) as Hta by set_solver.
    pose proof Hch as Hch2. apply chain_app in Hch2 as (m & _ & -> & p' & Hp & ->).
    unfold links in Hp. destruct (h_queues h !! t) as [tq|] eqn:Et; [|done]. cbn in *.
    eexists. split; [done|]. split; [constructor|].
    + eexists. split; [done|]. cbn. split; [|by rewrite last_snoc].
      pose proof (chain_nodup _ _ _ Hch) as Hnd. apply NoDup_app in Hnd as (_ & Hnd & _).
      apply (chain_snoc (links h)); [done|unfold links; cbn..].
      * by rewrite lookup_insert_eq.
      * rewrite lookup_insert_ne, Ha by done. cbn. by rewrite (Hout _ _ Ha Hal).
      * intros b Hb. rewrite lookup_insert_ne; [done|]. set_solver.
    + cbn. intros b bq Hb Hbl. destruct (decide (b = t)) as [->|]; [set_solver|].
      rewrite lookup_insert_ne in Hb by done. eapply Hout; [done|]. set_solver.
    + by apply erase_insert with tq.
  - apply last_None in El as ->. eexists. split; [done|]. split; [constructor|done].
    + eexists. split; [done|]. cbn. split; [|done]. split; [done|]. exists None.
      unfold links. cbn. rewrite Ha. cbn. by rewrite (Hout _ _ Ha Hal).
    + cbn. intros b bq Hb Hbl. eapply Hout; [done|]. set_solver.
Qed.

Lemma globalmq_pop_nil h : gq_rep h [] -> skynet_globalmq_pop h = Ok (None, h).
Proof. intros [(g & HQ & Hch & Htl) _]. unfold skynet_globalmq_pop. rewrite HQ. cbn. by rewrite Hch. Qed.

Lemma globalmq_pop_cons h a l : gq_rep h (a :: l) ->
  exists h', skynet_globalmq_pop h = Ok (Some a, h') /\ gq_rep h' l /\ erase h' = erase h.
Proof.
  intros [(g & HQ & Hch & Htl) Hout]. pose proof (chain_nodup _ _ _ Hch) as Hnd.
  apply NoDup_cons in Hnd as [Hal _]. destruct Hch as [Hh (p' & Hp & Hch)].
  unfold skynet_globalmq_pop. rewrite HQ. cbn. rewrite Hh.
  unfold links in Hp. destruct (h_queues h !! a) as [q|] eqn:Ea; [|done]. cbn in *. inv_res.
  assert (Hrep : forall tl, tl = last l ->
    gq_rep (Heap (<[a := set_next None q]> (h_queues h)) (Some (GlobalQueue (q_next q) tl))) l).
  { intros tl ->. constructor; cbn.
    - eexists. split; [done|]. cbn. split; [|done]. eapply chain_ext; [|done].
      intros b Hb. unfold links. cbn. rewrite lookup_insert_ne; [done|]. by intros ->.
    - intros b bq Hb Hbl. destruct (decide (a = b)) as [->|].
      + rewrite lookup_insert_eq in Hb. by inv_res.
      + rewrite lookup_insert_ne in Hb by done. eapply Hout; [done|]. set_solver. }
  destruct (q_next q) as [n|] eqn:En; cbn.
  - eexists. split; [done|]. split; [|by apply erase_insert with q].
    apply Hrep. rewrite Htl. destruct l; [done|]. done.
  - apply chain_none in Hch as ->. rewrite Htl. cbn. rewrite bool_decide_true by done. cbn.
    eexists. split; [done|]. split; [|by apply erase_insert with q]. by apply Hrep.
Qed.

#[export] Hint Resolve mq_new_rep : skynet.

Lemma run_ring_rep ops : forall q l, mq_rep q l -> zlen l + Z.of_nat (length ops) < 2 ^ 30 ->
  exists q', run_ring ops q = Ok (fst (run_fifo ops l), q') /\ mq_rep q' (snd (run_fifo ops l)).
Proof.
  induction ops as [|[m|] ops IH]; intros q l Hq Hlen; cbn [run_ring run_fifo length] in *.
  - by exists q.
  - destruct (mq_put_rep q l m Hq ltac:(lia)) as (q1 & -> & Hq1 & _). cbn.
    apply IH; [done|]. rewrite zlen_app. unfold zlen in *. cbn. lia.
  - destruct l as [|m l].
    + rewrite mq_pop_empty by done. cbn.
      destruct (IH (set_in_global 0 (set_overload (q_overload q) MQ_OVERLOAD q)) []) as (q2 & -> & Hq2).
      { eapply mq_rep_ext; [..|exact Hq]; try done; cbn; lia. } { unfold zlen in *. cbn in *. lia. }
      cbn. exists q2. destruct (run_fifo ops []). done.
    + destruct (mq_pop_rep _ _ _ Hq) as (q1 & -> & Hq1 & _). cbn.
      destruct (IH q1 l Hq1) as (q2 & -> & Hq2). { unfold zlen in *. cbn in *. lia. }
      cbn. exists q2. destruct (run_fifo ops l). done.
Qed.

Lemma drop_queue_rep l : forall fuel a h q, h_queues h !! a = Some q -> mq_rep q l -> q_next q = None ->
  (length l < fuel)%nat -> _drop_queue fuel a h = Ok (l, Heap (delete a (h_queues h)) (hQ h)).
Proof.
  induction l as [|m l IH]; intros [|fuel] a h q Ha Hq Hn Hf; cbn in Hf; try lia; cbn; unfold skynet_mq_pop; rewrite Ha; cbn.
  - rewrite mq_pop_empty by done. cbn. unfold _release. cbn. rewrite lookup_insert_eq. cbn. rewrite Hn. cbn.
    by rewrite delete_insert_eq.
  - destruct (mq_pop_rep _ _ _ Hq) as (q1 & -> & Hq1 & _ & Hn1 & _). cbn.
    rewrite (IH fuel a (store a q1 h) q1); cbn; try done; [|by rewrite lookup_insert_eq|congruence|lia].
    by rewrite delete_insert_eq.
Qed.

(** ** Properties *)

(** C10. The ring buffer of a service is a FIFO queue: whatever sequence of
    [skynet_mq_push] and [skynet_mq_pop] runs from [skynet_mq_create], every
    index stays inside the buffer, no uninitialised slot is read, the pops
    return what the pops of a list return, growth included, and
    [skynet_mq_length] is the number of messages left. The bound is where
    [cap] reaches the largest power of two of an [int]. *)
Theorem mq_refines_fifo (handle : Z) (ops : list mq_op) (Hops : Z.of_nat (length ops) < 2 ^ 30) :
  exists q, run_ring ops (mq_new handle) = Ok (fst (run_fifo ops []), q) /\
    mq_rep q (snd (run_fifo ops [])) /\ skynet_mq_length q = zlen (snd (run_fifo ops [])).
Proof.
  destruct (run_ring_rep ops (mq_new handle) []) as (q & E & Hq); [auto with skynet|done|].
  exists q. split; [done|]. split; [done|]. by apply mq_length_rep.
Qed.

Definition sample_message (i : Z) : skynet_message := SkynetMessage 1 i 0 0.
Definition sample_ops : list mq_op := (OpPush ∘ sample_message <$> seqZ 0 66) ++ [OpPop; OpPop; OpPush (sample_message 99); OpPop].

Lemma mq_refines_fifo_witness :
  Z.of_nat (length sample_ops) < 2 ^ 30 /\
  exists q, run_ring sample_ops (mq_new 7) = Ok (fst (run_fifo sample_ops []), q) /\
    mq_rep q (snd (run_fifo sample_ops [])) /\ skynet_mq_length q = zlen (snd (run_fifo sample_ops [])).
Proof. split; [vm_compute; reflexivity|]. apply (mq_refines_fifo 7 sample_ops). vm_compute. reflexivity. Defined.

(** Overload detection: a [skynet_mq_pop] that leaves [n] messages raises
    the threshold to its least doubling that reaches [n], and records [n] as
    the length to report exactly when the threshold was below [n]; a pop of an
    empty queue restores the threshold and clears [in_global]. *)
Theorem mq_pop_overload (q : message_queue) (l : list skynet_message) (Hq : mq_rep q l) :
  match l with
  | [] => exists q', mq_pop q = Ok (None, q') /\ q_overload_threshold q' = MQ_OVERLOAD /\
            q_overload q' = q_overload q /\ q_in_global q' = 0
  | m :: rest => exists q' k, mq_pop q = Ok (Some m, q') /\
            q_overload_threshold q' = q_overload_threshold q * 2 ^ Z.of_nat k /\
            zlen rest <= q_overload_threshold q' /\
            (forall k', (k' < k)%nat -> q_overload_threshold q * 2 ^ Z.of_nat k' < zlen rest) /\
            q_overload q' = (if q_overload_threshold q <? zlen rest then zlen rest else q_overload q)
  end.
Proof.
  destruct l as [|m l].
  - eexists. split; [by apply mq_pop_empty|]. done.
  - destruct (mq_pop_cons _ _ _ Hq) as (o & k & E & H1 & H2 & H3 & H4).
    eexists _, k. split; [exact E|]. split; [done|]. split; [done|]. split; [done|]. cbn.
    destruct k as [|k]; [cbn in H1|specialize (H4 O ltac:(lia)); cbn in H4];
      destruct (Z.ltb_spec (q_overload_threshold q) (zlen l)); auto; lia.
Qed.

Lemma mq_pop_overload_witness :
  mq_rep (mq_new 1) [] /\ exists q', mq_pop (mq_new 1) = Ok (None, q') /\ q_overload_threshold q' = MQ_OVERLOAD /\
            q_overload q' = q_overload (mq_new 1) /\ q_in_global q' = 0.
Proof. split; [apply mq_new_rep|]. exact (mq_pop_overload (mq_new 1) [] (mq_new_rep 1)). Defined.

(** Releasing a queue: once it is marked, [skynet_mq_release] hands every
    message it still holds to [drop_func], oldest first and each once, and
    frees it; before that it puts it back at the end of the global list. *)
Theorem mq_release_drains (a : nat) (h : heap) (q : message_queue) (l : list skynet_message) (gl : list nat)
  (Ha : h_queues h !! a = Some q) (Hq : mq_rep q l) (Hg : gq_rep h gl) (Hout : a ∉ gl) :
  if negb (q_release q =? 0)
  then skynet_mq_release (S (length l)) a h = Ok (l, Heap (delete a (h_queues h)) (hQ h))
  else exists h', skynet_mq_release (S (length l)) a h = Ok ([], h') /\ gq_rep h' (gl ++ [a]) /\ erase h' = erase h.
Proof.
  unfold skynet_mq_release. rewrite Ha. cbn [deref mbind result_bind].
  destruct (negb (q_release q =? 0)).
  - apply drop_queue_rep with q; try done; [|lia]. by eapply gq_out.
  - destruct (globalmq_push_rep h gl a q) as (h' & E & Hh'); [done..|]. exists h'. by rewrite E.
Qed.

Definition sample_heap : heap := Heap {[ 3%nat := set_release 1 (mq_new 5) ]} (Some (GlobalQueue None None)).

Lemma mq_release_drains_witness :
  skynet_mq_release 1 3 sample_heap = Ok ([], Heap ∅ (Some (GlobalQueue None None))).
Proof.
  apply (mq_release_drains 3 sample_heap (set_release 1 (mq_new 5)) [] []).
  - reflexivity.
  - apply mq_rep_ext with (mq_new 5); try reflexivity; apply mq_new_rep.
  - constructor; [eexists; split; [reflexivity|split; reflexivity]|].
    intros b bq Hb _. unfold sample_heap in Hb. cbn in Hb. apply lookup_singleton_Some in Hb as [_ <-]. reflexivity.
  - apply not_elem_of_nil.
Defined.
