(* ===== verification/Context.v ===== *)
(** * Service contexts (skynet-src/skynet_server.c)

    The reference-counted [struct skynet_context] of a service: what grabbing,
    reserving, releasing and deleting a context do to the node. A context is
    known by its address; [instance], [mod], [cb_ud] and the log file are
    opaque pointers. *)
From S2P Require Import Prelude MessageQueue.

Record skynet_context : Set := SkynetContext {
  c_instance : Z;
  c_mod : Z;
  c_cb_ud : Z;
  c_cb : option Z;
  c_queue : nat;
  c_logfile : option Z;
  c_handle : Z;
  c_session_id : Z;
  c_ref : Z;
  c_init : bool;
  c_endless : bool
}.

(** The part of the process the contexts live in: the message queues, the
    allocated contexts and [G_NODE.total]. *)
Record node : Set := Node {
  n_mq : heap;
  n_ctx : gmap nat skynet_context;
  n_total : Z
}.

Definition set_handle (h : Z) (c : skynet_context) : skynet_context :=
  SkynetContext (c_instance c) (c_mod c) (c_cb_ud c) (c_cb c) (c_queue c) (c_logfile c) h
    (c_session_id c) (c_ref c) (c_init c) (c_endless c).
Definition set_session_id (i : Z) (c : skynet_context) : skynet_context :=
  SkynetContext (c_instance c) (c_mod c) (c_cb_ud c) (c_cb c) (c_queue c) (c_logfile c) (c_handle c)
    i (c_ref c) (c_init c) (c_endless c).
Definition set_ref (r : Z) (c : skynet_context) : skynet_context :=
  SkynetContext (c_instance c) (c_mod c) (c_cb_ud c) (c_cb c) (c_queue c) (c_logfile c) (c_handle c)
    (c_session_id c) r (c_init c) (c_endless c).
Definition set_endless (b : bool) (c : skynet_context) : skynet_context :=
  SkynetContext (c_instance c) (c_mod c) (c_cb_ud c) (c_cb c) (c_queue c) (c_logfile c) (c_handle c)
    (c_session_id c) (c_ref c) (c_init c) b.

Definition put_ctx (a : nat) (c : skynet_context) (n : node) : node :=
  Node (n_mq n) (<[a := c]> (n_ctx n)) (n_total n).

Definition context_inc (n : node) : node := Node (n_mq n) (n_ctx n) (n_total n + 1).
Definition context_dec (n : node) : node := Node (n_mq n) (n_ctx n) (n_total n - 1).

Definition skynet_context_handle (a : nat) (n : node) : result Z := c ← deref (n_ctx n !! a); Ok (c_handle c).

(** The session number, an [int] that restarts from 1 when [++] leaves the
    positive range; the increment of [INT_MAX] wraps on the target. *)
Definition skynet_context_newsession (c : skynet_context) : Z * skynet_context :=
  let session := s32 (c_session_id c + 1) in
  if session <=? 0 then (1, set_session_id 1 c) else (session, set_session_id session c).

Definition skynet_context_grab (a : nat) (n : node) : result node :=
  c ← deref (n_ctx n !! a);
  Ok (put_ctx a (set_ref (c_ref c + 1) c) n).

Definition skynet_context_reserve (a : nat) (n : node) : result node :=
  n ← skynet_context_grab a n; Ok (context_dec n).

(** Closing the log file and releasing the module instance leave the node alone. *)
Definition delete_context (a : nat) (n : node) : result node :=
  c ← deref (n_ctx n !! a);
  mq ← skynet_mq_mark_release (c_queue c) (n_mq n);
  Ok (context_dec (Node mq (delete a (n_ctx n)) (n_total n))).

(** [Some a] for the returned pointer, [None] when the context was deleted. *)
Definition skynet_context_release (a : nat) (n : node) : result (option nat * node) :=
  c ← deref (n_ctx n !! a);
  let n := put_ctx a (set_ref (c_ref c - 1) c) n in
  if c_ref c - 1 =? 0
  then n ← delete_context a n; Ok (None, n)
  else Ok (Some a, n).

(** [n] runs of [skynet_context_newsession]. *)
Fixpoint newsessions (k : nat) (c : skynet_context) : list Z * skynet_context :=
  match k with
  | O => ([], c)
  | S k => let '(s, c) := skynet_context_newsession c in
           let '(ss, c) := newsessions k c in (s :: ss, c)
  end.

(** ** Sessions *)

Lemma newsession_range c : 1 <= fst (skynet_context_newsession c) <= INT_MAX.
Proof.
  unfold skynet_context_newsession, INT_MAX. pose proof (swrap_range 32 (c_session_id c + 1) ltac:(lia)) as H.
  unfold s32. zcases; cbn in *; lia.
Qed.

Lemma newsession_id c : c_session_id (snd (skynet_context_newsession c)) = fst (skynet_context_newsession c).
Proof. unfold skynet_context_newsession. by destruct (s32 (c_session_id c + 1) <=? 0). Qed.

Lemma newsession_next c : 0 <= c_session_id c <= INT_MAX ->
  fst (skynet_context_newsession c) = c_session_id c mod INT_MAX + 1.
Proof.
  unfold skynet_context_newsession, INT_MAX. intros H.
  destruct (Z.eq_dec (c_session_id c) 2147483647) as [E|E].
  - rewrite E. reflexivity.
  - rewrite s32_small by lia. destruct (Z.leb_spec (c_session_id c + 1) 0); [lia|]. cbn.
    rewrite Z.mod_small; lia.
Qed.

Lemma newsessions_nth k : forall c i, 0 <= c_session_id c <= INT_MAX -> (i < k)%nat ->
  fst (newsessions k c) !! i = Some ((c_session_id c + Z.of_nat i) mod INT_MAX + 1).
Proof.
  induction k as [|k IH]; intros c i Hc Hi; [lia|]. cbn.
  pose proof (newsession_range c) as Hr. pose proof (newsession_id c) as Hid. pose proof (newsession_next c Hc) as Hn.
  destruct (skynet_context_newsession c) as [s c']. cbn in *.
  specialize (IH c'). destruct (newsessions k c') as [ss c'']. cbn in *.
  destruct i as [|i]; cbn; [by rewrite Z.add_0_r, Hn|].
  rewrite IH by lia. rewrite Hid, Hn. do 2 f_equal.
  replace (c_session_id c + Z.of_nat (S i)) with (c_session_id c + (1 + Z.of_nat i)) by lia.
  rewrite <- Z.add_assoc, Zplus_mod_idemp_l. f_equal; lia.
Qed.

(** Sessions are positive [int]s and do not repeat before 2^31 - 1 of
    them were handed out: no two pending requests of a service share one. *)
Theorem newsession_distinct (c : skynet_context) (k : nat) (Hc : 0 <= c_session_id c <= INT_MAX) (Hk : Z.of_nat k <= INT_MAX) :
  NoDup (fst (newsessions k c)) /\ Forall (fun s => 1 <= s <= INT_MAX) (fst (newsessions k c)) /\
  length (fst (newsessions k c)) = k.
Proof.
  assert (length (fst (newsessions k c)) = k) as Hlen.
  { clear. revert c. induction k as [|k IH]; intros c; cbn; [done|].
    destruct (skynet_context_newsession c) as [s c']. specialize (IH c').
    destruct (newsessions k c'). cbn in *. lia. }
  split; [|split; [|done]].
  - apply NoDup_alt. intros i j x Hi Hj.
    pose proof (lookup_lt_Some _ _ _ Hi). pose proof (lookup_lt_Some _ _ _ Hj).
    rewrite newsessions_nth in Hi, Hj by lia. inv_res.
    set (a := c_session_id c + Z.of_nat i) in *. set (b := c_session_id c + Z.of_nat j) in *.
    assert (a mod INT_MAX = b mod INT_MAX) as E by lia. unfold INT_MAX in *.
    pose proof (Z.div_mod a 2147483647 ltac:(lia)). pose proof (Z.div_mod b 2147483647 ltac:(lia)). lia.
  - apply Forall_lookup. intros i x Hi. pose proof (lookup_lt_Some _ _ _ Hi).
    rewrite newsessions_nth in Hi by lia. inv_res.
    pose proof (Z.mod_pos_bound (c_session_id c + Z.of_nat i) INT_MAX eq_refl). lia.
Qed.

Definition sample_context : skynet_context := SkynetContext 1 1 0 None 0 None 16777217 2147483646 1 true false.

Lemma newsession_distinct_witness :
  NoDup (fst (newsessions 3 sample_context)) /\ fst (newsessions 3 sample_context) = [2147483647; 1; 2].
Proof. split; [|reflexivity]. apply (newsession_distinct sample_context 3); cbn; unfold INT_MAX; lia. Defined.
