(* ===== verification/Handle.v ===== *)
(** * Handle storage (skynet-src/skynet_handle.c)

    The table from 32-bit handles to contexts (open addressing by the low bits
    of the handle, doubled when full) and the sorted table of local names,
    searched by bisection. The functions between [rwlock_wlock] and
    [rwlock_wunlock] (or the read lock) are atomic operations on the storage;
    the storage [s] is what the static pointer [H] points to. *)
From stdpp Require Import sorting.
From S2P Require Import Prelude CString MessageQueue Context.

(** ** Data *)

Definition DEFAULT_SLOT_SIZE : Z := 4.
Definition MAX_SLOT_SIZE : Z := 1073741824.
Definition HANDLE_MASK : Z := 16777215.
Definition HANDLE_REMOTE_SHIFT : Z := 24.

Record handle_name : Set := HandleName {
  hn_name : list Z;
  hn_handle : Z
}.

(** [s_name] has [s_name_cap] entries; those that were never written are [None]. *)
Record handle_storage : Set := HandleStorage {
  s_harbor : Z;
  s_handle_index : Z;
  s_slot_size : Z;
  s_slot : list (option nat);
  s_name_cap : Z;
  s_name_count : Z;
  s_name : list (option handle_name)
}.

Definition set_slots (index size : Z) (slot : list (option nat)) (s : handle_storage) : handle_storage :=
  HandleStorage (s_harbor s) index size slot (s_name_cap s) (s_name_count s) (s_name s).

Definition set_names (cap count : Z) (name : list (option handle_name)) (s : handle_storage) : handle_storage :=
  HandleStorage (s_harbor s) (s_handle_index s) (s_slot_size s) (s_slot s) cap count name.

Definition skynet_handle_init (harbor : Z) : handle_storage :=
  HandleStorage (u32 (Z.shiftl (Z.land harbor 255) HANDLE_REMOTE_SHIFT)) 1
    DEFAULT_SLOT_SIZE (replicate (Z.to_nat DEFAULT_SLOT_SIZE) None)
    2 0 (replicate 2 None).

(** ** Slots *)

(** The scan [for (i=0;i<s->slot_size;i++)]: the first free slot met, with the handle tried there. *)
Fixpoint scan_slots (idx : list Z) (s : handle_storage) : result (option (Z * Z)) :=
  match idx with
  | [] => Ok None
  | i :: idx =>
      let handle := Z.land (u32 (i + s_handle_index s)) HANDLE_MASK in
      let hash := Z.land handle (s_slot_size s - 1) in
      ctx ← zget (s_slot s) hash;
      match ctx with
      | None => Ok (Some (handle, hash))
      | Some _ => scan_slots idx s
      end
  end.

(** The copy of slot [i] into the table of twice the size. *)
Definition rehash_one (s : handle_storage) (n : node) (i : Z) (new_slot : list (option nat)) : result (list (option nat)) :=
  p ← zget (s_slot s) i;
  a ← deref p;
  h ← skynet_context_handle a n;
  let hash := Z.land h (s_slot_size s * 2 - 1) in
  old ← zget new_slot hash;
  _ ← assert_ (bool_decide (old = None));
  zset new_slot hash (Some a).

Fixpoint rehash (idx : list Z) (s : handle_storage) (n : node) (new_slot : list (option nat)) : result (list (option nat)) :=
  match idx with
  | [] => Ok new_slot
  | i :: idx => new_slot ← rehash_one s n i new_slot; rehash idx s n new_slot
  end.

(** One unit of fuel per round of [for (;;)]; the second round always finds a
    free slot, so 2 are enough. *)
Fixpoint register_loop (fuel : nat) (ctx : nat) (n : node) (s : handle_storage) : result (Z * handle_storage) :=
  match fuel with
  | O => Fault
  | S fuel =>
      r ← scan_slots (seqZ 0 (s_slot_size s)) s;
      match r with
      | Some (handle, hash) =>
          slot ← zset (s_slot s) hash (Some ctx);
          Ok (Z.lor handle (s_harbor s), set_slots (u32 (handle + 1)) (s_slot_size s) slot s)
      | None =>
          _ ← assert_ (s_slot_size s * 2 - 1 <=? HANDLE_MASK);
          new_slot ← rehash (seqZ 0 (s_slot_size s)) s n (replicate (Z.to_nat (s_slot_size s * 2)) None);
          register_loop fuel ctx n (set_slots (s_handle_index s) (s_slot_size s * 2) new_slot s)
      end
  end.

Definition skynet_handle_register (ctx : nat) (n : node) (s : handle_storage) : result (Z * handle_storage) :=
  register_loop 2 ctx n s.

(** The context registered under [handle], as [skynet_handle_retire] and
    [skynet_handle_grab] find it. *)
Definition find_ctx (handle : Z) (n : node) (s : handle_storage) : result (option (nat * Z)) :=
  let hash := Z.land handle (s_slot_size s - 1) in
  p ← zget (s_slot s) hash;
  match p with
  | None => Ok None
  | Some a => h ← skynet_context_handle a n; Ok (if h =? handle then Some (a, hash) else None)
  end.

(** The compaction of the names in [skynet_handle_retire]: entries of [handle]
    are dropped, the others move from [i] down to [j]. *)
Fixpoint compact_names (idx : list Z) (j : Z) (handle : Z) (name : list (option handle_name)) :
    result (Z * list (option handle_name)) :=
  match idx with
  | [] => Ok (j, name)
  | i :: idx =>
      slot ← zget name i;
      e ← deref slot;
      if hn_handle e =? handle then compact_names idx j handle name
      else
        name ← (if negb (i =? j) then zset name j (Some e) else Ok name);
        compact_names idx (j + 1) handle name
  end.

(** The locked part of [skynet_handle_retire]. *)
Definition retire_locked (handle : Z) (n : node) (s : handle_storage) : result (option nat * handle_storage) :=
  r ← find_ctx handle n s;
  match r with
  | Some (a, hash) =>
      slot ← zset (s_slot s) hash None;
      '(j, name) ← compact_names (seqZ 0 (s_name_count s)) 0 handle (s_name s);
      Ok (Some a, set_names (s_name_cap s) j name (set_slots (s_handle_index s) (s_slot_size s) slot s))
  | None => Ok (None, s)
  end.

Definition skynet_handle_retire (handle : Z) (n : node) (s : handle_storage) : result (Z * node * handle_storage) :=
  '(ctx, s) ← retire_locked handle n s;
  match ctx with
  | Some a => '(_, n) ← skynet_context_release a n; Ok (1, n, s)
  | None => Ok (0, n, s)
  end.

(** One sweep of [skynet_handle_retireall], counting the contexts retired. *)
Fixpoint retire_sweep (idx : list Z) (count : Z) (n : node) (s : handle_storage) : result (Z * node * handle_storage) :=
  match idx with
  | [] => Ok (count, n, s)
  | i :: idx =>
      p ← zget (s_slot s) i;
      handle ← match p with Some a => skynet_context_handle a n | None => Ok 0 end;
      if negb (handle =? 0)
      then '(r, n, s) ← skynet_handle_retire handle n s; retire_sweep idx (count + r) n s
      else retire_sweep idx count n s
  end.

Fixpoint skynet_handle_retireall (fuel : nat) (n : node) (s : handle_storage) : result (node * handle_storage) :=
  match fuel with
  | O => Fault
  | S fuel =>
      '(count, n, s) ← retire_sweep (seqZ 0 (s_slot_size s)) 0 n s;
      if count =? 0 then Ok (n, s) else skynet_handle_retireall fuel n s
  end.

Definition skynet_handle_grab (handle : Z) (n : node) (s : handle_storage) : result (option nat * node) :=
  r ← find_ctx handle n s;
  match r with
  | Some (a, _) => n ← skynet_context_grab a n; Ok (Some a, n)
  | None => Ok (None, n)
  end.

(** ** Names *)

(** The loop [while (begin<=end)] of [skynet_handle_findname] and
    [_insert_name]: the entry that has [name], or the index [begin] where the
    loop ends. *)
Fixpoint name_search (fuel : nat) (name : list Z) (l : list (option handle_name)) (begin end_ : Z) : result (handle_name + Z) :=
  match fuel with
  | O => Fault
  | S fuel =>
      if begin <=? end_ then
        let mid := (begin + end_) / 2 in
        slot ← zget l mid;
        e ← deref slot;
        let c := strcmp (hn_name e) name in
        if c =? 0 then Ok (inl e)
        else if c <? 0 then name_search fuel name l (mid + 1) end_
        else name_search fuel name l begin (mid - 1)
      else Ok (inr begin)
  end.

Definition search_fuel (s : handle_storage) : nat := S (Z.to_nat (s_name_count s)).

Definition skynet_handle_findname (name : list Z) (s : handle_storage) : result Z :=
  r ← name_search (search_fuel s) name (s_name s) 0 (s_name_count s - 1);
  Ok (match r with inl e => hn_handle e | inr _ => 0 end).

(** [for (i=s->name_count;i>before;i--) s->name[i] = s->name[i-1];] with [k] entries left to move. *)
Fixpoint shift_names (k : nat) (before : Z) (l : list (option handle_name)) : result (list (option handle_name)) :=
  match k with
  | O => Ok l
  | S k =>
      e ← zget l (before + Z.of_nat k);
      l ← zset l (before + Z.of_nat k + 1) e;
      shift_names k before l
  end.

Definition _insert_name_before (s : handle_storage) (name : list Z) (handle : Z) (before : Z) : result handle_storage :=
  '(cap, l) ←
    (if s_name_cap s <=? s_name_count s then
       let cap := s_name_cap s * 2 in
       _ ← assert_ (cap <=? MAX_SLOT_SIZE);
       lo ← mapM (zget (s_name s)) (seqZ 0 before);
       hi ← mapM (zget (s_name s)) (seqZ before (s_name_count s - before));
       Ok (cap, lo ++ [None] ++ hi ++ replicate (Z.to_nat (cap - s_name_count s - 1)) None)
     else
       l ← shift_names (Z.to_nat (s_name_count s - before)) before (s_name s);
       Ok (s_name_cap s, l));
  l ← zset l before (Some (HandleName name handle));
  Ok (set_names cap (s_name_count s + 1) l s).

(** [None] when the name is taken. *)
Definition _insert_name (s : handle_storage) (name : list Z) (handle : Z) : result (option (list Z) * handle_storage) :=
  r ← name_search (search_fuel s) name (s_name s) 0 (s_name_count s - 1);
  match r with
  | inl _ => Ok (None, s)
  | inr begin => s ← _insert_name_before s name handle begin; Ok (Some name, s)
  end.

Definition skynet_handle_namehandle (handle : Z) (name : list Z) (s : handle_storage) : result (option (list Z) * handle_storage) :=
  _insert_name s name handle.

(** ** Specification *)

(** The names of [s] are [l], in order. *)
Record names_rep (s : handle_storage) (l : list handle_name) : Prop := NamesRep {
  nm_count : s_name_count s = zlen l;
  nm_cap : zlen (s_name s) = s_name_cap s;
  nm_pos : 2 <= s_name_cap s;
  nm_fit : s_name_count s <= s_name_cap s;
  nm_entries : forall i e, l !! i = Some e -> s_name s !! i = Some (Some e)
}.

Definition name_lt (a b : handle_name) : Prop := strcmp (hn_name a) (hn_name b) < 0.

(** The names are C strings in strictly increasing order. *)
Definition names_ok (l : list handle_name) : Prop :=
  StronglySorted name_lt l /\ Forall (fun e => cstring (hn_name e)) l.

(** What the table of names means: a map from names to handles, 0 when there is none. *)
Fixpoint name_lookup (name : list Z) (l : list handle_name) : Z :=
  match l with
  | [] => 0
  | e :: l => if bool_decide (hn_name e = name) then hn_handle e else name_lookup name l
  end.

(** Context [a] is registered under [h]. *)
Definition registered (s : handle_storage) (n : node) (h : Z) (a : nat) : Prop :=
  s_slot s !! Z.to_nat (Z.land h (s_slot_size s - 1)) = Some (Some a) /\
  exists c, n_ctx n !! a = Some c /\ c_handle c = h.

(** The table is a power of two of slots, each context sits in the slot of its
    handle, and every handle carries the harbor id of the node. *)
Record slots_ok (s : handle_storage) (n : node) : Prop := SlotsOk {
  sl_size : exists k, 2 <= k <= 24 /\ s_slot_size s = 2 ^ k;
  sl_len : zlen (s_slot s) = s_slot_size s;
  sl_index : 0 <= s_handle_index s <= HANDLE_MASK + 1;
  sl_harbor : exists g, 0 <= g < 256 /\ s_harbor s = g * 2 ^ 24;
  sl_ctx : forall i a, s_slot s !! i = Some (Some a) ->
    exists c, n_ctx n !! a = Some c /\ Z.land (c_handle c) (s_slot_size s - 1) = Z.of_nat i /\
      s_harbor s <= c_handle c <= s_harbor s + HANDLE_MASK
}.

(** A service that is launched and exits: its context [a] is registered,
    stores its handle and is retired. *)
Definition launch_exit (a : nat) (c : skynet_context) (n : node) (s : handle_storage) : result handle_storage :=
  '(h, s) ← skynet_handle_register a n s;
  '(_, s) ← retire_locked h (put_ctx a (set_handle h c) n) s;
  Ok s.

Fixpoint launch_exits (k : nat) (a : nat) (c : skynet_context) (n : node) (s : handle_storage) : result handle_storage :=
  match k with
  | O => Ok s
  | S k => s ← launch_exits k a c n s; launch_exit a c n s
  end.

(** An empty table of the initial size whose next handle is [i]. *)
Definition idle_table (harbor i : Z) : handle_storage :=
  set_slots i DEFAULT_SLOT_SIZE (replicate 4 None) (skynet_handle_init harbor).

(** A context that has not stored its handle yet. *)
Definition new_context (q : nat) : skynet_context := SkynetContext 1 1 0 None q None 0 0 2 false false.

(** Two threads in [skynet_context_new]: context 4 is registered, and before
    its thread executes [ctx->handle = handle] another thread registers
    context 5 in the full table; then context 4 stores its handle. *)
Definition race (n : node) (s : handle_storage) : result (Z * Z * node * handle_storage) :=
  '(h4, s) ← skynet_handle_register 4 n s;
  '(h5, s) ← skynet_handle_register 5 n s;
  let n := put_ctx 5 (set_handle h5 (new_context 5)) (put_ctx 4 (set_handle h4 (new_context 4)) n) in
  Ok (h4, h5, n, s).

(** Contexts 1, 2 and 3 are registered, 4 and 5 are about to be. *)
Definition race_node : node :=
  Node (Heap ∅ None)
    (<[1%nat := set_handle 1 (new_context 1)]> (<[2%nat := set_handle 2 (new_context 2)]>
     (<[3%nat := set_handle 3 (new_context 3)]> (<[4%nat := new_context 4]> {[5%nat := new_context 5]})))) 5.

Definition race_storage : handle_storage :=
  set_slots 4 4 [None; Some 1%nat; Some 2%nat; Some 3%nat] (skynet_handle_init 0).

Definition idle_node : node := Node (Heap ∅ None) {[ 1%nat := new_context 1 ]} 1.

(** ** Names: search *)

Lemma names_ok_lt l i j a b : names_ok l -> l !! i = Some a -> l !! j = Some b -> (i < j)%nat -> name_lt a b.
Proof.
  intros [Hs _]. revert i j. induction Hs as [|x l Hs IH Hx]; intros i j Hi Hj Hij; [done|].
  destruct j as [|j]; [lia|]. cbn in Hj. destruct i as [|i]; cbn in Hi.
  - inv_res. rewrite Forall_lookup in Hx. by eapply Hx.
  - eapply IH; [done..|lia].
Qed.

Lemma names_ok_cstring l i a : names_ok l -> l !! i = Some a -> cstring (hn_name a).
Proof. intros [_ Hc] Hi. rewrite Forall_lookup in Hc. by eapply Hc. Qed.

(** What the search establishes about the index where it ends. *)
Definition search_post (name : list Z) (l : list handle_name) (r : handle_name + Z) : Prop :=
  match r with
  | inl e => e ∈ l /\ hn_name e = name
  | inr b => 0 <= b <= zlen l /\
      (forall i e, l !! i = Some e -> Z.of_nat i < b -> strcmp (hn_name e) name < 0) /\
      (forall i e, l !! i = Some e -> b <= Z.of_nat i -> 0 < strcmp (hn_name e) name)
  end.

Lemma name_search_spec name arr l : names_ok l -> cstring name ->
  (forall i e, l !! i = Some e -> arr !! i = Some (Some e)) ->
  forall fuel begin end_, 0 <= begin -> end_ < zlen l -> begin <= end_ + 1 -> end_ - begin + 1 < Z.of_nat fuel ->
  (forall i e, l !! i = Some e -> Z.of_nat i < begin -> strcmp (hn_name e) name < 0) ->
  (forall i e, l !! i = Some e -> end_ < Z.of_nat i -> 0 < strcmp (hn_name e) name) ->
  exists r, name_search fuel name arr begin end_ = Ok r /\ search_post name l r.
Proof.
  intros Hl Hn Harr. induction fuel as [|fuel IH]; intros begin end_ Hb He Hbe Hf Hlo Hhi; [lia|].
  cbn [name_search]. destruct (Z.leb_spec begin end_).
  2:{ exists (inr begin). split; [done|]. split; [lia|]. split; [done|]. intros. apply (Hhi i); [done|lia]. }
  set (mid := (begin + end_) / 2).
  assert (begin <= mid <= end_) as Hmid by (subst mid; pose proof (Z.div_mod (begin + end_) 2); pose proof (Z.mod_pos_bound (begin + end_) 2); lia).
  destruct (lookup_lt_is_Some_2 l (Z.to_nat mid)) as [e He']; [zlia|].
  rewrite (zget_Some _ _ (Some e)) by (lia || by apply Harr). cbn [mbind result_bind deref].
  assert (Hup : forall i e', l !! i = Some e' -> strcmp (hn_name e) name < 0 -> Z.of_nat i < mid + 1 -> strcmp (hn_name e') name < 0).
  { intros i e' Hi Hc Him. destruct (decide (i = Z.to_nat mid)) as [->|]; [congruence|].
    apply (strcmp_trans _ (hn_name e)); [by eapply names_ok_cstring|by eapply names_ok_cstring|done| |exact Hc].
    eapply (names_ok_lt l i (Z.to_nat mid)); [done..|lia]. }
  assert (Hdn : forall i e', l !! i = Some e' -> 0 < strcmp (hn_name e) name -> mid - 1 < Z.of_nat i -> 0 < strcmp (hn_name e') name).
  { intros i e' Hi Hc Him. destruct (decide (i = Z.to_nat mid)) as [->|]; [congruence|].
    rewrite strcmp_opp. enough (strcmp name (hn_name e') < 0) by lia.
    apply (strcmp_trans _ (hn_name e)); [done|by eapply names_ok_cstring|by eapply names_ok_cstring| |
      eapply (names_ok_lt l (Z.to_nat mid) i); [done..|lia]].
    rewrite strcmp_opp. lia. }
  destruct (Z.eqb_spec (strcmp (hn_name e) name) 0) as [E|E].
  - exists (inl e). split; [done|]. split; [by eapply list_elem_of_lookup_2|].
    apply strcmp_eq; [by eapply names_ok_cstring|done|done].
  - destruct (Z.ltb_spec (strcmp (hn_name e) name) 0).
    + apply IH; try lia; [|done]. intros. by eapply Hup.
    + apply IH; try lia; [done|]. intros. eapply Hdn; [done|lia|done].
Qed.

Lemma name_search_rep s l name : names_rep s l -> names_ok l -> cstring name ->
  exists r, name_search (search_fuel s) name (s_name s) 0 (s_name_count s - 1) = Ok r /\ search_post name l r.
Proof.
  intros [] Hl Hn. unfold search_fuel. pose proof (zlen_nonneg l).
  apply name_search_spec; try done; try lia. intros i e Hi. apply lookup_lt_Some in Hi. unfold zlen in *. lia.
Qed.

Lemma name_lookup_in l e : names_ok l -> e ∈ l -> name_lookup (hn_name e) l = hn_handle e.
Proof.
  intros [Hs Hc]. induction Hs as [|x l Hs IH Hx]; intros He; [set_solver|]. cbn.
  apply Forall_cons in Hc as [Hcx Hc].
  apply elem_of_cons in He as [->|He]; [by rewrite bool_decide_true|].
  rewrite bool_decide_false; [by apply IH|]. intros E. rewrite Forall_forall in Hx.
  specialize (Hx e He). unfold name_lt in Hx. rewrite E, strcmp_refl in Hx. lia.
Qed.

Lemma name_lookup_out l name : (forall i e, l !! i = Some e -> strcmp (hn_name e) name <> 0) -> name_lookup name l = 0.
Proof.
  induction l as [|x l IH]; intros H; [done|]. cbn. rewrite bool_decide_false.
  - apply IH. intros i e Hi. exact (H (S i) e Hi).
  - intros <-. eapply (H O x); [done|apply strcmp_refl].
Qed.

Lemma findname_rep s l name : names_rep s l -> names_ok l -> cstring name ->
  skynet_handle_findname name s = Ok (name_lookup name l).
Proof.
  intros Hs Hl Hn. unfold skynet_handle_findname.
  destruct (name_search_rep s l name) as ([e|b] & -> & Hr); [done..| |]; cbn in *.
  - destruct Hr as [He <-]. by rewrite name_lookup_in.
  - destruct Hr as (_ & Hlo & Hhi). rewrite name_lookup_out; [done|]. intros i e Hi.
    destruct (Z.lt_ge_cases (Z.of_nat i) b); [specialize (Hlo _ _ Hi)|specialize (Hhi _ _ Hi)]; lia.
Qed.

(** ** Names: insertion and removal *)

Lemma insert_names_ok l b name handle : names_ok l -> cstring name -> search_post name l (inr b) ->
  names_ok (take (Z.to_nat b) l ++ HandleName name handle :: drop (Z.to_nat b) l).
Proof.
  intros Hl Hn (Hb & Hlo & Hhi).
  assert (Hlt : forall x, x ∈ take (Z.to_nat b) l -> name_lt x (HandleName name handle)).
  { intros x Hx. apply list_elem_of_lookup in Hx as [i Hi]. apply lookup_take_Some in Hi as [Hi Hib].
    unfold name_lt. cbn. eapply Hlo; [done|lia]. }
  assert (Hgt : forall x, x ∈ drop (Z.to_nat b) l -> name_lt (HandleName name handle) x).
  { intros x Hx. apply list_elem_of_lookup in Hx as [i Hi]. rewrite lookup_drop in Hi.
    unfold name_lt. cbn. rewrite strcmp_opp. enough (0 < strcmp (hn_name x) name) by lia. eapply Hhi; [done|lia]. }
  destruct Hl as [Hs Hc]. rewrite <- (take_drop (Z.to_nat b) l) in Hs, Hc.
  apply StronglySorted_app in Hs as (Hcross & Hs1 & Hs2). apply Forall_app in Hc as [Hc1 Hc2]. split.
  - apply StronglySorted_app. split; [|split; [done|]].
    + intros x1 x2 Hx1 [->|Hx2]%elem_of_cons; auto.
    + apply StronglySorted_cons. split; [|done]. apply Forall_forall. auto.
  - apply Forall_app. split; [done|]. by constructor.
Qed.

Lemma shift_names_spec k : forall before l, 0 <= before -> before + Z.of_nat k < zlen l ->
  exists l', shift_names k before l = Ok l' /\ length l' = length l /\
    forall i, l' !! i = if (before <? Z.of_nat i) && (Z.of_nat i <=? before + Z.of_nat k) then l !! (i - 1)%nat else l !! i.
Proof.
  induction k as [|k IH]; intros before l Hb Hk; cbn [shift_names].
  - exists l. split; [done|]. split; [done|]. intros i. zcases; done || lia.
  - destruct (zget_in_range l (before + Z.of_nat k)) as [e He]; [lia|]. rewrite He. cbn [mbind result_bind].
    apply zget_Ok in He as [_ He]. rewrite zset_Ok by lia. cbn [mbind result_bind].
    destruct (IH before (<[Z.to_nat (before + Z.of_nat k + 1):=e]> l)) as (l' & -> & Hlen & Hl'); [done| |].
    { unfold zlen in *. rewrite length_insert. lia. }
    exists l'. split; [done|]. rewrite length_insert in Hlen. split; [done|]. intros i. rewrite Hl'.
    destruct (decide (i = Z.to_nat (before + Z.of_nat k + 1))) as [->|].
    + rewrite list_lookup_insert_eq by (unfold zlen in *; lia).
      rewrite <- He. zcases; try lia. f_equal. lia.
    + rewrite (list_lookup_insert_ne l _ i) by done.
      destruct (decide (Z.to_nat (before + Z.of_nat k + 1) = i - 1)%nat).
      * zcases; try lia; done.
      * rewrite list_lookup_insert_ne by done. zcases; try lia; done.
Qed.

(** The lookups of the array after an insertion at [b]. *)
Lemma insert_entries (l : list handle_name) (x : handle_name) (b : Z) (arr arr' : list (option handle_name)) :
  0 <= b <= zlen l -> zlen l < zlen arr' ->
  (forall i e, l !! i = Some e -> arr !! i = Some (Some e)) ->
  (forall i, Z.of_nat i < b -> arr' !! i = arr !! i) ->
  (forall i, b < Z.of_nat i <= zlen l -> arr' !! i = arr !! (i - 1)%nat) ->
  exists arr'', zset arr' b (Some x) = Ok arr'' /\ length arr'' = length arr' /\
  forall i e, (take (Z.to_nat b) l ++ x :: drop (Z.to_nat b) l) !! i = Some e -> arr'' !! i = Some (Some e).
Proof.
  intros Hb Hlen Harr Hlo Hhi. rewrite zset_Ok by lia. eexists. split; [done|].
  rewrite length_insert. split; [done|]. intros i e Hi.
  assert (length (take (Z.to_nat b) l) = Z.to_nat b) as Ht by (rewrite length_take; unfold zlen in *; lia).
  destruct (Z.lt_trichotomy (Z.of_nat i) b) as [H|[H|H]].
  - rewrite lookup_app_l in Hi by lia. rewrite lookup_take_lt in Hi by lia.
    rewrite list_lookup_insert_ne by lia. rewrite Hlo by done. auto.
  - rewrite lookup_app_r, Ht in Hi by lia. replace (i - Z.to_nat b)%nat with O in Hi by lia. cbn in Hi. inv_res.
    rewrite Nat2Z.id. apply list_lookup_insert_eq. unfold zlen in *. lia.
  - rewrite lookup_app_r, Ht in Hi by lia. rewrite lookup_cons_ne_0, lookup_drop in Hi by lia.
    replace (Z.to_nat b + Nat.pred (i - Z.to_nat b))%nat with (i - 1)%nat in Hi by lia.
    pose proof (lookup_lt_Some _ _ _ Hi). rewrite list_lookup_insert_ne by lia.
    rewrite Hhi by (unfold zlen in *; lia). auto.
Qed.

Lemma insert_name_before_rep s l b name handle : names_rep s l -> 0 <= b <= zlen l -> zlen l < 2 ^ 29 ->
  exists s', _insert_name_before s name handle b = Ok s' /\
    names_rep s' (take (Z.to_nat b) l ++ HandleName name handle :: drop (Z.to_nat b) l) /\
    s_slot s' = s_slot s /\ s_slot_size s' = s_slot_size s /\ s_harbor s' = s_harbor s /\ s_handle_index s' = s_handle_index s.
Proof.
  intros [Hcnt Hcap Hpos Hfit Hent] Hb Hmax. unfold _insert_name_before.
  assert (Hz : zlen (take (Z.to_nat b) l ++ HandleName name handle :: drop (Z.to_nat b) l) = zlen l + 1).
  { unfold zlen in *. rewrite length_app. cbn. rewrite length_take, length_drop. lia. }
  destruct (Z.leb_spec (s_name_cap s) (s_name_count s)) as [Hfull|Hroom].
  - unfold assert_, MAX_SLOT_SIZE. destruct (Z.leb_spec (s_name_cap s * 2) 1073741824); [|lia]. cbn [mbind result_bind].
    assert (Hget : forall i, 0 <= i < zlen l -> zget (s_name s) i = Ok (s_name s !!! Z.to_nat i)).
    { intros i Hi. apply zget_Some; [lia|]. apply list_lookup_lookup_total_lt. unfold zlen in *. lia. }
    rewrite (mapM_ok _ (fun i => s_name s !!! Z.to_nat i)) by (intros i Hi%elem_of_seqZ; apply Hget; lia).
    cbn [mbind result_bind].
    rewrite (mapM_ok _ (fun i => s_name s !!! Z.to_nat i)) by (intros i Hi%elem_of_seqZ; apply Hget; lia).
    cbn [mbind result_bind].
    set (arr' := _ ++ [None] ++ _).
    assert (zlen arr' = s_name_cap s * 2) as Harr'.
    { subst arr'. unfold zlen in *. rewrite !length_app, !length_fmap, !length_seqZ, length_replicate. cbn. lia. }
    destruct (insert_entries l (HandleName name handle) b (s_name s) arr') as (arr'' & -> & Hlen & Hnew); [lia..|done| | |].
    + intros i Hi. subst arr'. rewrite lookup_app_l by (rewrite length_fmap, length_seqZ; lia).
      rewrite list_lookup_fmap, lookup_seqZ_lt by lia. cbn. symmetry. replace (Z.to_nat (0 + Z.of_nat i)) with i by lia.
      apply list_lookup_lookup_total_lt. unfold zlen in *. lia.
    + intros i Hi. subst arr'. rewrite lookup_app_r by (rewrite length_fmap, length_seqZ; lia).
      rewrite length_fmap, length_seqZ. rewrite lookup_app_r by (cbn; lia). cbn [length].
      rewrite lookup_app_l by (rewrite length_fmap, length_seqZ; lia).
      rewrite list_lookup_fmap, lookup_seqZ_lt by lia. cbn. symmetry.
      replace (Z.to_nat (b + Z.of_nat (i - Z.to_nat b - 1))) with (i - 1)%nat by lia.
      apply list_lookup_lookup_total_lt. unfold zlen in *. lia.
    + cbn [mbind result_bind]. eexists. split; [done|]. split; [|done].
      constructor; cbn; try done; unfold zlen in *; lia.
  - destruct (shift_names_spec (Z.to_nat (s_name_count s - b)) b (s_name s)) as (arr' & -> & Hlen' & Hsh); [lia..|].
    cbn [mbind result_bind].
    destruct (insert_entries l (HandleName name handle) b (s_name s) arr') as (arr'' & -> & Hlen & Hnew).
    + done. + unfold zlen in *. lia. + done.
    + intros i Hi. rewrite Hsh. zcases; done || lia.
    + intros i Hi. rewrite Hsh. zcases; done || lia.
    + cbn [mbind result_bind]. eexists. split; [done|]. split; [|done].
      constructor; cbn; try done; unfold zlen in *; lia.
Qed.

Lemma compact_names_spec handle todo : forall i (done_ : list handle_name) arr,
  zlen done_ <= i -> i + zlen todo <= zlen arr ->
  (forall k e, done_ !! k = Some e -> arr !! k = Some (Some e)) ->
  (forall k e, todo !! k = Some e -> arr !! (Z.to_nat i + k)%nat = Some (Some e)) ->
  exists arr', compact_names (seqZ i (zlen todo)) (zlen done_) handle arr =
      Ok (zlen (done_ ++ filter (fun e => hn_handle e <> handle) todo), arr') /\
    length arr' = length arr /\
    forall k e, (done_ ++ filter (fun e => hn_handle e <> handle) todo) !! k = Some e -> arr' !! k = Some (Some e).
Proof.
  induction todo as [|e todo IH]; intros i done_ arr Hdi Hfit Hdone Htodo.
  - cbn. exists arr. rewrite app_nil_r. done.
  - assert (zlen (e :: todo) = Z.succ (zlen todo)) as Hz by (unfold zlen; cbn; lia).
    pose proof (zlen_nonneg todo). pose proof (zlen_nonneg done_).
    rewrite Hz in *. rewrite seqZ_cons by lia. rewrite Z.pred_succ. cbn [compact_names].
    rewrite (zget_Some _ _ (Some e)); [|lia|by rewrite <- (Htodo O e eq_refl), Nat.add_0_r].
    cbn [mbind result_bind deref].
    assert (Htodo' : forall k e0, todo !! k = Some e0 -> arr !! (Z.to_nat (Z.succ i) + k)%nat = Some (Some e0)).
    { intros k e0 Hk. rewrite <- (Htodo (S k) e0 Hk). f_equal. lia. }
    destruct (Z.eqb_spec (hn_handle e) handle) as [E|E].
    + rewrite filter_cons_False by auto. apply IH; [lia|lia|done|done].
    + rewrite filter_cons_True by done.
      assert (exists arr1, (if negb (i =? zlen done_) then zset arr (zlen done_) (Some e) else Ok arr) = Ok arr1 /\
        length arr1 = length arr /\ arr1 !! length done_ = Some (Some e) /\
        (forall k, k <> length done_ -> arr1 !! k = arr !! k)) as (arr1 & -> & Hl1 & He1 & Ho1).
      { destruct (Z.eqb_spec i (zlen done_)) as [->|]; cbn.
        - exists arr. split; [done|]. split; [done|]. split; [|done].
          rewrite <- (Htodo O e eq_refl). f_equal. unfold zlen. lia.
        - rewrite zset_Ok by lia. eexists. split; [done|]. rewrite length_insert. split; [done|].
          unfold zlen in *. rewrite Nat2Z.id. split; [apply list_lookup_insert_eq; lia|].
          intros k Hk. by rewrite list_lookup_insert_ne. }
      cbn [mbind result_bind].
      destruct (IH (Z.succ i) (done_ ++ [e]) arr1) as (arr' & Hr & Hlen & Hent).
      * rewrite zlen_app. unfold zlen in *. cbn. lia.
      * unfold zlen in *. lia.
      * intros k e0 Hk. apply lookup_snoc_Some in Hk as [[Hk Hk']|[-> <-]]; [|done].
        rewrite Ho1 by lia. auto.
      * intros k e0 Hk. rewrite Ho1; [auto|]. unfold zlen in *. lia.
      * rewrite zlen_app in Hr. change (zlen [e]) with 1 in Hr. rewrite <- app_assoc in Hr, Hent. cbn in Hr, Hent.
        exists arr'. split; [exact Hr|]. split; [congruence|done].
Qed.

Lemma filter_names_ok l handle : names_ok l -> names_ok (filter (fun e => hn_handle e <> handle) l).
Proof.
  intros [Hs Hc]. split.
  - induction Hs as [|x l Hs IH Hx]; [constructor|]. apply Forall_cons in Hc as [_ Hc].
    destruct (decide (hn_handle x <> handle)).
    + rewrite filter_cons_True by done. apply StronglySorted_cons. split; [|auto].
      apply Forall_forall. intros y [_ Hy]%list_elem_of_filter. rewrite Forall_forall in Hx. auto.
    + rewrite filter_cons_False by done. auto.
  - apply Forall_forall. intros y [_ Hy]%list_elem_of_filter. rewrite Forall_forall in Hc. auto.
Qed.

(** ** Slots *)

Lemma slots_ok_mask s n x : slots_ok s n -> Z.land x (s_slot_size s - 1) = x mod s_slot_size s.
Proof. intros [(k & Hk & ->)]. apply land_pred_pow2. lia. Qed.

Lemma slots_ok_size s n : slots_ok s n -> 4 <= s_slot_size s <= 2 ^ 24.
Proof.
  intros [(k & Hk & ->)]. split; [change 4 with (2 ^ 2)|]; apply Z.pow_le_mono_r; lia.
Qed.

(** The handle tried for [i], and its slot. *)
Lemma probe s n i : slots_ok s n -> 0 <= i < s_slot_size s ->
  let handle := Z.land (u32 (i + s_handle_index s)) HANDLE_MASK in
  0 <= handle <= HANDLE_MASK /\ handle = (i + s_handle_index s) mod 2 ^ 24 /\
  Z.land handle (s_slot_size s - 1) = (i + s_handle_index s) mod s_slot_size s.
Proof.
  intros Hs Hi. pose proof (slots_ok_size _ _ Hs). pose proof (slots_ok_mask s n (Z.land (u32 (i + s_handle_index s)) HANDLE_MASK) Hs) as E.
  destruct Hs as [(k & Hk & Ek) _ Hix _ _].
  assert (Z.land (u32 (i + s_handle_index s)) HANDLE_MASK = (i + s_handle_index s) mod 2 ^ 24) as EH.
  { rewrite u32_small by (unfold is_u32, HANDLE_MASK in *; lia). apply (land_pred_pow2 _ 24). lia. }
  rewrite EH in *. unfold HANDLE_MASK in *. pose proof (Z.mod_pos_bound (i + s_handle_index s) (2 ^ 24)).
  cbn zeta. rewrite E. split; [lia|]. split; [done|].
  rewrite Ek. replace (2 ^ 24) with (2 ^ k * 2 ^ (24 - k)) by (rewrite <- Z.pow_add_r by lia; f_equal; lia).
  rewrite Z.rem_mul_r by (try apply Z.pow_nonzero; try apply Z.pow_pos_nonneg; lia).
  rewrite Z.mul_comm, Z_mod_plus_full. apply Zmod_mod.
Qed.

Lemma scan_slots_spec s n idx : slots_ok s n -> Forall (fun i => 0 <= i < s_slot_size s) idx ->
  exists r, scan_slots idx s = Ok r /\
  match r with
  | Some (handle, hash) => 0 <= handle <= HANDLE_MASK /\ hash = Z.land handle (s_slot_size s - 1) /\
      0 <= hash < s_slot_size s /\ s_slot s !! Z.to_nat hash = Some None
  | None => Forall (fun i => exists a, s_slot s !! Z.to_nat ((i + s_handle_index s) mod s_slot_size s) = Some (Some a)) idx
  end.
Proof.
  intros Hs. induction 1 as [|i idx Hi Hidx IH]; cbn; [by exists None|].
  pose proof (slots_ok_size _ _ Hs). destruct (probe s n i Hs Hi) as (Hh & Eh & Em). cbn zeta in *. rewrite !Em.
  pose proof (Z.mod_pos_bound (i + s_handle_index s) (s_slot_size s) ltac:(lia)) as Hr.
  destruct (zget_in_range (s_slot s) ((i + s_handle_index s) mod s_slot_size s)) as [x Hx]; [by rewrite (sl_len _ _ Hs)|].
  rewrite Hx. apply zget_Ok in Hx as [_ Hx]. cbn. destruct x as [a|].
  - destruct IH as (r & -> & Hr'). exists r. split; [done|]. destruct r as [[]|]; [done|]. constructor; eauto.
  - eexists. split; [done|]. cbn. by rewrite Em.
Qed.

(** The slots the whole scan visits are all the slots. *)
Lemma scan_covers s n j : slots_ok s n -> 0 <= j < s_slot_size s ->
  exists i, 0 <= i < s_slot_size s /\ (i + s_handle_index s) mod s_slot_size s = j.
Proof.
  intros Hs Hj. pose proof (slots_ok_size _ _ Hs).
  exists ((j - s_handle_index s) mod s_slot_size s). split; [apply Z.mod_pos_bound; lia|].
  rewrite Zplus_mod_idemp_l. rewrite Z.sub_add. apply Z.mod_small. lia.
Qed.

(** [new] is the copy of the first [i] slots of the full table [s]. *)
Definition rehashed (s : handle_storage) (n : node) (i : Z) (new : list (option nat)) : Prop :=
  zlen new = s_slot_size s * 2 /\
  (forall j a, new !! j = Some (Some a) -> Z.of_nat j mod s_slot_size s < i /\
     s_slot s !! Z.to_nat (Z.of_nat j mod s_slot_size s) = Some (Some a) /\
     exists c, n_ctx n !! a = Some c /\ Z.land (c_handle c) (s_slot_size s * 2 - 1) = Z.of_nat j) /\
  (forall k a c, Z.of_nat k < i -> s_slot s !! k = Some (Some a) -> n_ctx n !! a = Some c ->
     new !! Z.to_nat (Z.land (c_handle c) (s_slot_size s * 2 - 1)) = Some (Some a)).

Lemma mod_double h m : 0 < m -> (h mod (m * 2)) mod m = h mod m.
Proof.
  intros. rewrite Z.rem_mul_r by lia. rewrite Z.mul_comm, Z_mod_plus_full. apply Zmod_mod.
Qed.

Lemma rehash_one_spec s n i new : slots_ok s n -> 0 <= i < s_slot_size s ->
  s_slot s !! Z.to_nat i <> Some None -> rehashed s n i new ->
  exists new', rehash_one s n i new = Ok new' /\ rehashed s n (i + 1) new'.
Proof.
  intros Hs Hi Hfull (Hlen & Hnew & Hold). pose proof (slots_ok_size _ _ Hs) as Hsz.
  assert (Hmask : forall x, Z.land x (s_slot_size s * 2 - 1) = x mod (s_slot_size s * 2)).
  { intros x. destruct Hs as [(k & Hk & ->)]. rewrite Z.mul_comm, <- Z.pow_succ_r by lia. apply land_pred_pow2. lia. }
  destruct (zget_in_range (s_slot s) i) as [p Hp]; [by rewrite (sl_len _ _ Hs)|].
  unfold rehash_one. rewrite Hp. apply zget_Ok in Hp as [_ Hp]. destruct p as [a|]; [|done].
  destruct (sl_ctx _ _ Hs _ _ Hp) as (c & Hc & Hland & _).
  rewrite (slots_ok_mask _ n) in Hland by done. rewrite Z2Nat.id in Hland by lia.
  cbn [mbind result_bind deref]. unfold skynet_context_handle. rewrite Hc. cbn [mbind result_bind deref].
  set (hash := Z.land (c_handle c) (s_slot_size s * 2 - 1)). pose proof (Hmask (c_handle c)) as Eh. fold hash in Eh.
  assert (0 <= hash < s_slot_size s * 2) as Hh by (rewrite Eh; apply Z.mod_pos_bound; lia).
  assert (hash mod s_slot_size s = i) as Hhi by (rewrite Eh, mod_double by lia; done).
  destruct (zget_in_range new hash) as [o Ho]; [lia|]. rewrite Ho. apply zget_Ok in Ho as [_ Ho].
  cbn [mbind result_bind]. destruct o as [b|].
  { exfalso. destruct (Hnew _ _ Ho) as [Hlt _]. rewrite Z2Nat.id in Hlt by lia. lia. }
  rewrite bool_decide_true by done. cbn [assert_ mbind result_bind].
  rewrite zset_Ok by lia. eexists. split; [done|]. split; [unfold zlen in *; by rewrite length_insert|]. split.
  - intros j b Hj. destruct (decide (j = Z.to_nat hash)) as [->|].
    + rewrite list_lookup_insert_eq in Hj by (unfold zlen in *; lia). inv_res.
      rewrite Z2Nat.id by lia. rewrite Hhi. split; [lia|]. split; [done|]. by exists c.
    + rewrite list_lookup_insert_ne in Hj by done. destruct (Hnew _ _ Hj) as (H1 & H2 & c' & H3 & H4).
      split; [lia|]. split; [done|]. by exists c'.
  - intros k b c' Hk Hkb Hc'. destruct (decide (k = Z.to_nat i)) as [->|].
    + assert (b = a) as -> by congruence. assert (c' = c) as -> by congruence. fold hash.
      apply list_lookup_insert_eq. unfold zlen in *. lia.
    + rewrite list_lookup_insert_ne.
      { apply (Hold k); [lia|done|done]. }
      intros E. destruct (sl_ctx _ _ Hs _ _ Hkb) as (c2 & Hc2 & Hl2 & _). assert (c2 = c') as -> by congruence.
      rewrite (slots_ok_mask _ n) in Hl2 by done.
      assert (hash = c_handle c' mod (s_slot_size s * 2)) as E2.
      { rewrite <- Hmask. rewrite Hmask in *. pose proof (Z.mod_pos_bound (c_handle c') (s_slot_size s * 2) ltac:(lia)). lia. }
      rewrite <- (mod_double (c_handle c')), <- E2, Hhi in Hl2 by lia. lia.
Qed.

Lemma rehash_spec s n (m : nat) : slots_ok s n -> (forall i, s_slot s !! i <> Some None) ->
  forall i new, 0 <= i -> i + Z.of_nat m = s_slot_size s -> rehashed s n i new ->
  exists new', rehash (seqZ i (Z.of_nat m)) s n new = Ok new' /\ rehashed s n (s_slot_size s) new'.
Proof.
  intros Hs Hfull. induction m as [|m IH]; intros i new Hi Hm Hnew.
  - cbn. exists new. split; [done|]. replace (s_slot_size s) with i by lia. done.
  - rewrite seqZ_cons by lia. cbn [rehash].
    destruct (rehash_one_spec s n i new) as (new1 & -> & H1); [done|lia|auto|done|]. cbn [mbind result_bind].
    replace (Z.pred (Z.of_nat (S m))) with (Z.of_nat m) by lia. replace (Z.succ i) with (i + 1) by lia.
    apply IH; [lia|lia|done].
Qed.

Lemma handle_mod s n h : slots_ok s n -> (h + s_harbor s) mod s_slot_size s = h mod s_slot_size s.
Proof.
  intros [(k & Hk & ->) _ _ (g & Hg & ->) _].
  replace (g * 2 ^ 24) with ((g * 2 ^ (24 - k)) * 2 ^ k) by (rewrite <- Z.mul_assoc, <- Z.pow_add_r by lia; do 2 f_equal; lia).
  apply Z_mod_plus_full.
Qed.

(** What registering context [a] means for the table. *)
Definition register_post (a : nat) (n : node) (s : handle_storage) (h : Z) (s' : handle_storage) : Prop :=
  s_harbor s <= h <= s_harbor s + HANDLE_MASK /\ (forall b, ~ registered s n h b) /\
  (forall c, n_ctx n !! a = Some c ->
     slots_ok s' (put_ctx a (set_handle h c) n) /\
     forall h' b, registered s' (put_ctx a (set_handle h c) n) h' b <-> (h' = h /\ b = a) \/ registered s n h' b) /\
  s_name s' = s_name s /\ s_name_count s' = s_name_count s /\ s_name_cap s' = s_name_cap s.

Lemma register_at a n s handle hash : slots_ok s n -> (forall i, s_slot s !! i <> Some (Some a)) ->
  0 <= handle <= HANDLE_MASK -> hash = Z.land handle (s_slot_size s - 1) ->
  0 <= hash < s_slot_size s -> s_slot s !! Z.to_nat hash = Some None ->
  register_post a n s (Z.lor handle (s_harbor s))
    (set_slots (u32 (handle + 1)) (s_slot_size s) (<[Z.to_nat hash := Some a]> (s_slot s)) s).
Proof.
  intros Hs Hna Hh Ehash Hr Hfree. pose proof (slots_ok_size _ _ Hs) as Hsz.
  assert (Z.lor handle (s_harbor s) = handle + s_harbor s) as Elor.
  { destruct (sl_harbor _ _ Hs) as (g & Hg & ->). rewrite <- Z.shiftl_mul_pow2 by lia.
    rewrite lor_shiftl_add by (unfold HANDLE_MASK in *; lia). by rewrite Z.shiftl_mul_pow2 by lia. }
  rewrite Elor. set (h := handle + s_harbor s). rewrite (slots_ok_mask _ n) in Ehash by done.
  assert (h mod s_slot_size s = hash) as Hhm by (subst h; by rewrite (handle_mod _ n)).
  split; [subst h; lia|]. split; [|split; [|done]].
  { intros b [Hb _]. rewrite (slots_ok_mask _ n), Hhm in Hb by done. congruence. }
  intros c Hc. assert (Hlt : (Z.to_nat hash < length (s_slot s))%nat) by (pose proof (sl_len _ _ Hs); unfold zlen in *; lia).
  split.
  - destruct Hs as [Hpow Hlen Hix Hg Hctx]. constructor; cbn; try done.
    + unfold zlen in *. by rewrite length_insert.
    + rewrite u32_small; unfold is_u32, HANDLE_MASK in *; lia.
    + intros i b Hi. destruct (decide (i = Z.to_nat hash)) as [->|].
      * rewrite list_lookup_insert_eq in Hi by done. inv_res. exists (set_handle h c).
        rewrite lookup_insert_eq. split; [done|]. cbn. destruct Hpow as (k & Hk & Ek).
        rewrite Ek, land_pred_pow2, <- Ek, Hhm by lia. subst h. lia.
      * rewrite list_lookup_insert_ne in Hi by done. destruct (Hctx _ _ Hi) as (c' & Hc' & Hland & Hrange).
        exists c'. rewrite lookup_insert_ne; [done|]. intros ->. by apply (Hna i).
  - intros h' b. unfold registered. cbn. rewrite !(slots_ok_mask _ n) by done.
    destruct (decide (Z.to_nat hash = Z.to_nat (h' mod s_slot_size s))) as [E|E].
    + rewrite <- E, list_lookup_insert_eq, Hfree by done. split.
      * intros [Hb (c' & Hc' & Hh')]. inv_res. rewrite lookup_insert_eq in Hc'. inv_res. by left.
      * intros [[-> ->]|[? _]]; [|done]. split; [done|]. exists (set_handle h c). by rewrite lookup_insert_eq.
    + rewrite list_lookup_insert_ne by done. split.
      * intros [Hb (c' & Hc' & Hh')]. right. split; [done|]. exists c'. rewrite lookup_insert_ne in Hc'; [done|].
        intros ->. by eapply Hna.
      * intros [[-> ->]|[Hb (c' & Hc' & Hh')]].
        { rewrite Hhm in E. done. }
        split; [done|]. exists c'. rewrite lookup_insert_ne; [done|]. intros ->. by eapply Hna.
Qed.

(** Doubling a full table keeps every registration. *)
Lemma grow_spec n s new : slots_ok s n -> s_slot_size s < 2 ^ 24 -> rehashed s n (s_slot_size s) new ->
  let s2 := set_slots (s_handle_index s) (s_slot_size s * 2) new s in
  slots_ok s2 n /\ (forall h a, registered s2 n h a <-> registered s n h a) /\
  (forall i a, new !! i = Some (Some a) -> exists j, s_slot s !! j = Some (Some a)) /\
  ~ (forall j, 0 <= j < s_slot_size s * 2 -> exists a, new !! Z.to_nat j = Some (Some a)).
Proof.
  intros Hs Hlt (Hlen & Hnew & Hold). pose proof (slots_ok_size _ _ Hs) as Hsz. cbn zeta.
  assert (Hs2 : slots_ok (set_slots (s_handle_index s) (s_slot_size s * 2) new s) n).
  { destruct Hs as [(k & Hk & Ek) Hl Hix Hg Hctx]. constructor; cbn; try done.
    - exists (k + 1). rewrite Z.pow_add_r by lia. split; [|lia].
      destruct (Z.eq_dec k 24) as [->|]; [rewrite Ek in Hlt; lia|lia].
    - intros i a Hi. destruct (Hnew _ _ Hi) as (_ & Hsl & c & Hc & Hland).
      exists c. destruct (Hctx _ _ Hsl) as (c' & Hc' & _ & Hr). assert (c' = c) as -> by congruence. done. }
  split; [done|]. split; [|split].
  - intros h a. unfold registered. split; intros [Hsl (c & Hc & <-)].
    + rewrite (slots_ok_mask _ n) in Hsl by done. cbn in Hsl. rewrite (slots_ok_mask _ n) by done.
      destruct (Hnew _ _ Hsl) as (_ & Hsl' & _).
      rewrite Z2Nat.id, mod_double in Hsl' by (try apply Z.mod_pos_bound; lia). split; [done|by exists c].
    + split; [|by exists c]. cbn. apply (Hold (Z.to_nat (Z.land (c_handle c) (s_slot_size s - 1)))); [|done|done].
      rewrite (slots_ok_mask _ n) by done. pose proof (Z.mod_pos_bound (c_handle c) (s_slot_size s)). lia.
  - intros i a Hi. destruct (Hnew _ _ Hi) as (_ & Hsl & _). by eexists.
  - intros Hall. destruct (Hall 0) as [a Ha]; [lia|]. destruct (Hall (s_slot_size s)) as [b Hb]; [lia|].
    destruct (Hnew _ _ Ha) as (_ & Ha' & c & Hc & Hl). destruct (Hnew _ _ Hb) as (_ & Hb' & c' & Hc' & Hl').
    rewrite Z2Nat.id in Ha', Hl, Hb', Hl' by lia. rewrite Z.mod_0_l in Ha' by lia. rewrite Z_mod_same_full in Hb'.
    assert (a = b) as <- by congruence. assert (c' = c) as -> by congruence. lia.
Qed.

Lemma register_loop_free fuel a n s : slots_ok s n -> (forall i, s_slot s !! i <> Some (Some a)) ->
  ~ (forall j, 0 <= j < s_slot_size s -> exists b, s_slot s !! Z.to_nat j = Some (Some b)) ->
  exists h s', register_loop (S fuel) a n s = Ok (h, s') /\ register_post a n s h s'.
Proof.
  intros Hs Hna Hfree. cbn [register_loop].
  destruct (scan_slots_spec s n (seqZ 0 (s_slot_size s)) Hs) as (r & -> & Hr).
  { apply Forall_forall. intros i Hi%elem_of_seqZ. lia. }
  destruct r as [[handle hash]|]; cbn [mbind result_bind].
  - destruct Hr as (Hh & Eh & Hb & Hn). rewrite zset_Ok by (by rewrite (sl_len _ _ Hs)). cbn [mbind result_bind].
    do 2 eexists. split; [done|]. by apply register_at.
  - exfalso. apply Hfree. intros j Hj. destruct (scan_covers s n j Hs Hj) as (i & Hi & <-).
    rewrite Forall_forall in Hr. apply Hr. apply elem_of_seqZ. lia.
Qed.

Lemma register_spec a n s : slots_ok s n -> (forall i, s_slot s !! i <> Some (Some a)) -> s_slot_size s < 2 ^ 24 ->
  exists h s', skynet_handle_register a n s = Ok (h, s') /\ register_post a n s h s'.
Proof.
  intros Hs Hna Hsz. pose proof (slots_ok_size _ _ Hs).
  destruct (scan_slots_spec s n (seqZ 0 (s_slot_size s)) Hs) as (r & Er & Hr).
  { apply Forall_forall. intros i Hi%elem_of_seqZ. lia. }
  destruct r as [[handle hash]|].
  { apply (register_loop_free 1); [done..|]. intros Hall. destruct Hr as (_ & _ & Hb & Hn).
    destruct (Hall hash) as [b Hbb]; [done|]. congruence. }
  unfold skynet_handle_register. remember 1%nat as f1. cbn [register_loop]. rewrite Er. cbn [mbind result_bind].
  unfold assert_, HANDLE_MASK. destruct (Z.leb_spec (s_slot_size s * 2 - 1) 16777215); cycle 1.
  { exfalso. destruct (sl_size _ _ Hs) as (k & Hk & Ek). destruct (Z.eq_dec k 24) as [->|]; [lia|].
    pose proof (Z.pow_le_mono_r 2 k 23). lia. }
  cbn [mbind result_bind].
  assert (Hfull : forall i, s_slot s !! i <> Some None).
  { intros i Hi. rewrite Forall_forall in Hr. assert (Hlt := lookup_lt_Some _ _ _ Hi).
    pose proof (sl_len _ _ Hs). unfold zlen in *.
    destruct (scan_covers s n (Z.of_nat i) Hs) as (i' & Hi' & E); [lia|].
    destruct (Hr i') as [b Hb]; [apply elem_of_seqZ; lia|]. rewrite E, Nat2Z.id in Hb. congruence. }
  destruct (rehash_spec s n (Z.to_nat (s_slot_size s)) Hs Hfull 0 (replicate (Z.to_nat (s_slot_size s * 2)) None)) as (new & Enew & Hnew).
  { lia. } { lia. }
  { split; [unfold zlen; rewrite length_replicate; lia|]. split; [|lia].
    intros j b Hj. apply lookup_replicate in Hj as [? _]. done. }
  rewrite Z2Nat.id in Enew by lia. rewrite Enew. cbn [mbind result_bind]. subst f1.
  destruct (grow_spec n s new Hs Hsz Hnew) as (Hs2 & Hreg & Hin & Hfree).
  destruct (register_loop_free 0 a n (set_slots (s_handle_index s) (s_slot_size s * 2) new s)) as (h & s' & E & Hp); [done| |done|].
  { intros i Hi. destruct (Hin _ _ Hi) as [j Hj]. by eapply Hna. }
  exists h, s'. split; [exact E|]. destruct Hp as (Hh & Hfr & Hpost & Hnm). split; [done|]. split; [|split; [|done]].
  - intros b. rewrite <- Hreg. apply Hfr.
  - intros c Hc. destruct (Hpost c Hc) as [Hok Hiff]. split; [done|]. intros h' b. rewrite Hiff. by rewrite Hreg.
Qed.

Lemma find_ctx_spec s n h : slots_ok s n ->
  exists r, find_ctx h n s = Ok r /\
  match r with
  | Some (a, hash) => registered s n h a /\ hash = Z.land h (s_slot_size s - 1) /\ 0 <= hash < s_slot_size s
  | None => forall a, ~ registered s n h a
  end.
Proof.
  intros Hs. pose proof (slots_ok_size _ _ Hs). unfold find_ctx.
  pose proof (Z.mod_pos_bound h (s_slot_size s) ltac:(lia)) as Hb. rewrite <- (slots_ok_mask _ n) in Hb by done.
  destruct (zget_in_range (s_slot s) (Z.land h (s_slot_size s - 1))) as [p Hp]; [by rewrite (sl_len _ _ Hs)|].
  rewrite Hp. apply zget_Ok in Hp as [_ Hp]. cbn [mbind result_bind]. destruct p as [a|].
  - destruct (sl_ctx _ _ Hs _ _ Hp) as (c & Hc & _). unfold skynet_context_handle. rewrite Hc. cbn.
    eexists. split; [done|]. destruct (Z.eqb_spec (c_handle c) h) as [E|E].
    + split; [|done]. split; [done|]. by exists c.
    + intros b [Hb' (c' & Hc' & Hh')]. rewrite Hp in Hb'. inv_res. congruence.
  - eexists. split; [done|]. cbn. intros b [Hb' _]. congruence.
Qed.

Lemma retire_locked_spec s n h l : slots_ok s n -> names_rep s l ->
  exists r s', retire_locked h n s = Ok (r, s') /\
  match r with
  | Some a => registered s n h a /\ slots_ok s' n /\
      (forall h' b, registered s' n h' b <-> h' <> h /\ registered s n h' b) /\
      names_rep s' (filter (fun e => hn_handle e <> h) l)
  | None => s' = s /\ forall a, ~ registered s n h a
  end.
Proof.
  intros Hs Hn. unfold retire_locked. destruct (find_ctx_spec s n h Hs) as (r & -> & Hr). cbn [mbind result_bind].
  destruct r as [[a hash]|]; [|by exists None, s].
  destruct Hr as (Hreg & Ehash & Hb). rewrite zset_Ok by (by rewrite (sl_len _ _ Hs)). cbn [mbind result_bind].
  destruct Hn as [Hcnt Hcap Hpos Hfit Hent].
  destruct (compact_names_spec h l 0 [] (s_name s)) as (arr & E & Hlen & Harr); [done|lia|done|done|].
  change (zlen (@nil handle_name)) with 0 in E. rewrite Hcnt, E. cbn [mbind result_bind].
  do 2 eexists. split; [done|]. cbn. split; [done|].
  assert (Hlt : (Z.to_nat hash < length (s_slot s))%nat) by (pose proof (sl_len _ _ Hs); unfold zlen in *; lia).
  split; [|split].
  - destruct Hs as [Hpow Hl Hix Hg Hctx]. constructor; cbn; try done.
    + unfold zlen in *. by rewrite length_insert.
    + intros i b Hi. destruct (decide (i = Z.to_nat hash)) as [->|].
      * rewrite list_lookup_insert_eq in Hi by done. done.
      * rewrite list_lookup_insert_ne in Hi by done. auto.
  - intros h' b. unfold registered in *. cbn. destruct Hreg as [Hsl (c & Hc & Hch)].
    rewrite <- Ehash in Hsl. rewrite !(slots_ok_mask _ n) in * by done.
    destruct (decide (Z.to_nat hash = Z.to_nat (h' mod s_slot_size s))) as [E'|E'].
    + rewrite <- E', list_lookup_insert_eq, Hsl by done. split; [naive_solver|].
      intros [Hne [Hba (c' & Hc' & Hh')]]. inv_res. congruence.
    + rewrite list_lookup_insert_ne by done. split; [|naive_solver]. intros [Hsl' Hc']. split; [|done].
      intros ->. rewrite Ehash in E'. done.
  - constructor; cbn; try done; [unfold zlen in *; congruence|].
    pose proof (length_filter (fun e => hn_handle e <> h) l). unfold zlen in *. lia.
Qed.

Lemma init_slots_ok harbor n : slots_ok (skynet_handle_init harbor) n.
Proof.
  assert (0 <= Z.land harbor 255 < 256) as Hh.
  { change 255 with (Z.ones 8). rewrite Z.land_ones by lia. apply Z.mod_pos_bound. lia. }
  constructor; cbn [skynet_handle_init s_slot_size s_slot s_handle_index s_harbor].
  - exists 2. by split.
  - done.
  - unfold HANDLE_MASK. lia.
  - exists (Z.land harbor 255). split; [done|]. unfold HANDLE_REMOTE_SHIFT.
    rewrite Z.shiftl_mul_pow2 by lia. apply u32_small. unfold is_u32. lia.
  - intros i a Hi. apply lookup_replicate in Hi as [? _]. done.
Qed.

Lemma init_names_rep harbor : names_rep (skynet_handle_init harbor) [].
Proof. constructor; cbn; try done; lia. Qed.

#[export] Hint Resolve init_slots_ok init_names_rep : skynet.

Lemma name_lookup_insert k m x name' : (forall e, e ∈ k -> hn_name e <> hn_name x) ->
  name_lookup name' (k ++ x :: m) = if bool_decide (name' = hn_name x) then hn_handle x else name_lookup name' (k ++ m).
Proof.
  induction k as [|y k IH]; intros Hk; cbn.
  - by repeat case_bool_decide; simplify_eq.
  - rewrite IH by set_solver. repeat case_bool_decide; simplify_eq; try done.
    exfalso. eapply Hk; [|done]. set_solver.
Qed.

Lemma insert_lookup l b name handle name' : names_ok l -> cstring name -> search_post name l (inr b) ->
  name_lookup name' (take (Z.to_nat b) l ++ HandleName name handle :: drop (Z.to_nat b) l) =
  if bool_decide (name' = name) then handle else name_lookup name' l.
Proof.
  intros Hl Hn (Hb & Hlo & Hhi). rewrite name_lookup_insert; [by rewrite take_drop|]. cbn.
  intros e [i Hi]%list_elem_of_lookup <-. apply lookup_take_Some in Hi as [Hi _].
  destruct (Z.lt_ge_cases (Z.of_nat i) b) as [Hib|Hib]; [specialize (Hlo _ _ Hi Hib)|specialize (Hhi _ _ Hi Hib)];
    rewrite strcmp_refl in *; lia.
Qed.

(** [skynet_handle_namehandle] on the map the names denote. *)
Lemma namehandle_rep s l name handle : names_rep s l -> names_ok l -> cstring name -> zlen l < 2 ^ 29 ->
  exists s', skynet_handle_namehandle handle name s =
      Ok (if bool_decide (name ∈ hn_name <$> l) then (None, s) else (Some name, s')) /\
    (name ∉ hn_name <$> l -> exists l', names_rep s' l' /\ names_ok l' /\ zlen l' = zlen l + 1 /\
       forall name', name_lookup name' l' = if bool_decide (name' = name) then handle else name_lookup name' l).
Proof.
  intros Hs Hl Hn Hmax. unfold skynet_handle_namehandle, _insert_name.
  destruct (name_search_rep s l name) as ([e|b] & -> & Hr); [done..| |]; cbn [mbind result_bind].
  - destruct Hr as [He <-]. rewrite bool_decide_true by set_solver. exists s. split; [done|]. set_solver.
  - destruct (insert_name_before_rep s l b name handle) as (s' & -> & Hs' & _); [done|apply Hr|done|].
    exists s'. rewrite bool_decide_false; cbn [mbind result_bind].
    + split; [done|]. intros _. eexists. split; [exact Hs'|]. split; [by apply insert_names_ok|].
      split; [|by intros; apply insert_lookup]. destruct Hr as [Hb _].
      unfold zlen in *. rewrite length_app. cbn. rewrite length_take, length_drop. lia.
    + intros [e [-> [i Hi]%list_elem_of_lookup]]%list_elem_of_fmap. destruct Hr as (Hb & Hlo & Hhi).
      destruct (Z.lt_ge_cases (Z.of_nat i) b) as [Hib|Hib]; [specialize (Hlo _ _ Hi Hib)|specialize (Hhi _ _ Hi Hib)];
        rewrite strcmp_refl in *; lia.
Qed.

Lemma idle_table_ok harbor i n : 0 <= i <= HANDLE_MASK + 1 -> slots_ok (idle_table harbor i) n.
Proof.
  intros Hi. destruct (init_slots_ok harbor n) as [H1 H2 H3 H4 H5]. constructor; cbn in *; done.
Qed.

Lemma register_idle harbor i a n : 0 <= i <= HANDLE_MASK + 1 ->
  skynet_handle_register a n (idle_table harbor i) =
    Ok (Z.lor (i mod 2 ^ 24) (s_harbor (skynet_handle_init harbor)),
        set_slots (i mod 2 ^ 24 + 1) 4 (<[Z.to_nat (i mod 4) := Some a]> (replicate 4 None)) (skynet_handle_init harbor)).
Proof.
  intros Hi. pose proof (idle_table_ok harbor i n Hi) as Hok.
  destruct (probe (idle_table harbor i) n 0 Hok) as (Hh & Eh & Em); [by split|]. cbn zeta in *.
  unfold skynet_handle_register. cbn [register_loop].
  change (s_slot_size (idle_table harbor i)) with (Z.succ 3) in *. rewrite seqZ_cons by lia. cbn [scan_slots].
  change (s_slot_size (idle_table harbor i)) with (Z.succ 3) in *.
  change (s_handle_index (idle_table harbor i)) with i in *. rewrite Z.add_0_l in *. rewrite Em, Eh.
  pose proof (Z.mod_pos_bound i 4 ltac:(lia)). pose proof (Z.mod_pos_bound i (2 ^ 24) ltac:(lia)).
  change (Z.succ 3) with 4. change (s_slot (idle_table harbor i)) with (replicate 4 (@None nat)).
  rewrite (zget_Some _ _ None) by (lia || (apply lookup_replicate_2; lia)). cbn [mbind result_bind].
  rewrite zset_Ok by (unfold zlen; rewrite length_replicate; lia). cbn [mbind result_bind].
  rewrite u32_small by (unfold is_u32; lia). done.
Qed.

Lemma launch_exit_idle harbor i a c n : 0 <= i <= HANDLE_MASK ->
  launch_exit a c n (idle_table harbor i) = Ok (idle_table harbor (i + 1)).
Proof.
  intros Hi. unfold launch_exit. rewrite register_idle by lia. cbn [mbind result_bind].
  rewrite Z.mod_small by (unfold HANDLE_MASK in *; lia).
  set (harb := s_harbor (skynet_handle_init harbor)).
  assert (Z.land (Z.lor i harb) (4 - 1) = i mod 4) as Eh.
  { rewrite (land_pred_pow2 _ 2) by lia. change (2 ^ 2) with 4.
    destruct (sl_harbor _ _ (init_slots_ok harbor n)) as (g & Hg & E). fold harb in E.
    rewrite E, <- Z.shiftl_mul_pow2 by lia. rewrite lor_shiftl_add by (unfold HANDLE_MASK in *; lia).
    replace (g * 2 ^ 24) with (g * 2 ^ 22 * 4) by lia. apply Z_mod_plus_full. }
  pose proof (Z.mod_pos_bound i 4 ltac:(lia)).
  unfold retire_locked, find_ctx. cbn [s_slot_size s_slot set_slots]. rewrite Eh.
  rewrite (zget_Some _ _ (Some a)); [|lia|apply list_lookup_insert_eq; rewrite length_replicate; lia].
  cbn [mbind result_bind]. unfold skynet_context_handle. cbn [n_ctx put_ctx].
  rewrite lookup_insert_eq. cbn [mbind result_bind deref c_handle set_handle]. rewrite Z.eqb_refl.
  rewrite zset_Ok by (unfold zlen; rewrite length_insert, length_replicate; lia). cbn [mbind result_bind].
  cbn [s_name_count set_slots skynet_handle_init]. change (seqZ 0 0) with (@nil Z). cbn [compact_names mbind result_bind].
  rewrite list_insert_insert_eq, insert_replicate. done.
Qed.

Lemma launch_exits_idle harbor a c n (k : nat) : Z.of_nat k <= HANDLE_MASK ->
  launch_exits k a c n (skynet_handle_init harbor) = Ok (idle_table harbor (Z.of_nat k + 1)).
Proof.
  induction k as [|k IH]; intros Hk; [done|]. cbn [launch_exits]. rewrite IH by lia. cbn [mbind result_bind].
  rewrite launch_exit_idle by lia. do 2 f_equal. lia.
Qed.

(** ** Properties *)

(** C11. Registration: [skynet_handle_register] never fails below the 2^24
    limit, terminates after at most one doubling of the table, and returns a
    handle in the range of the node's harbor that no other context has; once
    the caller stores it, the table is well formed, the new handle finds
    the context and every earlier handle still finds its own. *)
Theorem register_correct (a : nat) (c : skynet_context) (n : node) (s : handle_storage)
  (Hs : slots_ok s n) (Ha : n_ctx n !! a = Some c) (Hnew : forall i, s_slot s !! i <> Some (Some a))
  (Hroom : s_slot_size s < 2 ^ 24) :
  exists h s', skynet_handle_register a n s = Ok (h, s') /\
    s_harbor s <= h <= s_harbor s + HANDLE_MASK /\ (forall b, ~ registered s n h b) /\
    slots_ok s' (put_ctx a (set_handle h c) n) /\
    (forall h' b, registered s' (put_ctx a (set_handle h c) n) h' b <-> (h' = h /\ b = a) \/ registered s n h' b).
Proof.
  destruct (register_spec a n s Hs Hnew Hroom) as (h & s' & E & Hr & Hfr & Hpost & _).
  destruct (Hpost c Ha) as [Hok Hiff]. exists h, s'. done.
Qed.

Lemma register_correct_witness :
  exists h s', skynet_handle_register 1 idle_node (skynet_handle_init 1) = Ok (h, s') /\ 16777216 <= h.
Proof.
  destruct (register_correct 1 (new_context 1) idle_node (skynet_handle_init 1)) as (h & s' & E & Hr & _).
  - apply init_slots_ok.
  - reflexivity.
  - intros i Hi. apply lookup_replicate in Hi as [Hi _]. discriminate Hi.
  - reflexivity.
  - exists h, s'. split; [exact E|]. apply Hr.
Defined.

(** Retirement and lookup: retiring a registered handle returns its
    context, frees exactly that registration and removes exactly the names of
    that handle, which stay sorted; retiring any other value changes nothing.
    [skynet_handle_grab] finds the registered context and adds one reference
    to it, and finds nothing otherwise. *)
Theorem retire_grab_correct (h : Z) (n : node) (s : handle_storage) (l : list handle_name)
  (Hs : slots_ok s n) (Hn : names_rep s l) (Hl : names_ok l) :
  (exists r s', retire_locked h n s = Ok (r, s') /\
     match r with
     | Some a => registered s n h a /\ slots_ok s' n /\
         (forall h' b, registered s' n h' b <-> h' <> h /\ registered s n h' b) /\
         names_rep s' (filter (fun e => hn_handle e <> h) l) /\ names_ok (filter (fun e => hn_handle e <> h) l)
     | None => s' = s /\ forall a, ~ registered s n h a
     end) /\
  (exists r n', skynet_handle_grab h n s = Ok (r, n') /\
     match r with
     | Some a => registered s n h a /\ exists c, n_ctx n !! a = Some c /\ n' = put_ctx a (set_ref (c_ref c + 1) c) n
     | None => n' = n /\ forall a, ~ registered s n h a
     end).
Proof.
  split.
  - destruct (retire_locked_spec s n h l Hs Hn) as (r & s' & E & Hr). exists r, s'. split; [done|].
    destruct r; [|done]. destruct Hr as (H1 & H2 & H3 & H4). split_and!; try done. by apply filter_names_ok.
  - unfold skynet_handle_grab. destruct (find_ctx_spec s n h Hs) as (r & -> & Hr). cbn [mbind result_bind].
    destruct r as [[a hash]|]; [|by exists None, n].
    destruct Hr as (Hreg & _). pose proof Hreg as [_ (c & Hc & _)]. unfold skynet_context_grab.
    rewrite Hc. cbn. eexists _, _. split; [done|]. split; [done|]. by exists c.
Qed.

Lemma race_storage_ok : slots_ok race_storage race_node.
Proof.
  constructor.
  - exists 2. by split.
  - done.
  - by split.
  - exists 0. by split.
  - intros [|[|[|[|i]]]] a Ha; cbn in Ha; inv_res; try done; eexists; (split; [reflexivity|by split]).
Qed.

Lemma retire_grab_correct_witness : exists r n', skynet_handle_grab 2 race_node race_storage = Ok (r, n').
Proof.
  destruct (retire_grab_correct 2 race_node race_storage []) as [_ (r & n' & E & _)].
  - exact race_storage_ok.
  - constructor; cbn; try done; lia.
  - split; constructor.
  - exists r, n'. exact E.
Defined.

(** C12. The sorted name table is a map: [skynet_handle_findname] returns what
    the map holds (0 for an unknown name), [skynet_handle_namehandle] refuses
    a name that is taken without changing anything, and otherwise adds the
    one binding, whatever the position found by the bisection and whether or
    not the array has to grow. *)
Theorem names_are_a_map (s : handle_storage) (l : list handle_name) (name : list Z) (handle : Z)
  (Hs : names_rep s l) (Hl : names_ok l) (Hname : cstring name) (Hmax : zlen l < 2 ^ 29) :
  skynet_handle_findname name s = Ok (name_lookup name l) /\
  if bool_decide (name ∈ hn_name <$> l)
  then skynet_handle_namehandle handle name s = Ok (None, s)
  else exists s' l', skynet_handle_namehandle handle name s = Ok (Some name, s') /\ names_rep s' l' /\ names_ok l' /\
         forall name', cstring name' -> skynet_handle_findname name' s' =
           Ok (if bool_decide (name' = name) then handle else name_lookup name' l).
Proof.
  split; [by apply findname_rep|].
  destruct (namehandle_rep s l name handle) as (s' & E & Hpost); [done..|]. case_bool_decide as Hin; [done|].
  destruct (Hpost Hin) as (l' & H1 & H2 & _ & H3). exists s', l'. split; [done|]. split; [done|]. split; [done|].
  intros name' Hn'. rewrite (findname_rep s' l') by done. by rewrite H3.
Qed.

Lemma names_are_a_map_witness :
  skynet_handle_findname (of_string "logger") (skynet_handle_init 0) = Ok 0.
Proof.
  apply (names_are_a_map (skynet_handle_init 0) [] (of_string "logger") 5).
  - apply init_names_rep.
  - split; constructor.
  - repeat constructor.
  - reflexivity.
Defined.

(** The handle that is "reserved for system" (local id 0) is handed out:
    after 2^24 - 1 services were launched and have exited, the next
    registration succeeds with the bare harbor number, which is 0 on a
    single-node server, the value every caller takes for failure. *)
Theorem handle_zero_is_issued (harbor : Z) (a : nat) (c : skynet_context) (n : node) :
  exists s, launch_exits (Z.to_nat HANDLE_MASK) a c n (skynet_handle_init harbor) = Ok s /\
    exists s', skynet_handle_register a n s = Ok (s_harbor (skynet_handle_init harbor), s').
Proof.
  exists (idle_table harbor (HANDLE_MASK + 1)). split.
  - rewrite launch_exits_idle by (rewrite Z2Nat.id; done). rewrite Z2Nat.id by done. done.
  - rewrite register_idle by done. eexists. reflexivity.
Qed.

(** A registration can be lost: [skynet_context_new] stores the handle in
    the context after the table lock is released, and a registration that
    doubles the table in between places the context by handle 0. Here context
    4 gets handle 4, context 5 is registered next, and from then on handle 4
    finds no context although it was never retired. *)
Theorem register_race_loses_handle :
  exists n s, race race_node race_storage = Ok (4, 5, n, s) /\
    find_ctx 5 n s = Ok (Some (5%nat, 5)) /\ find_ctx 4 n s = Ok None.
Proof. do 2 eexists. split; [vm_compute; reflexivity|]. split; vm_compute; reflexivity. Qed.
