(* ===== verification/HandleTable.v ===== *)
(** * The handle table as an interface (skynet-src/skynet_handle.h)

    What the handle storage promises to its clients: it is a finite map from
    handles to contexts. The scheduler of Dispatch.v is proved against this
    interface only; [handle_table] discharges it with the open addressing of
    Handle.v. *)
From S2P Require Import Prelude CString MessageQueue Context Handle.

(** A slot of the table is free: the next registration does not double it. *)
Definition free_slot (s : handle_storage) : bool := existsb (fun o => bool_decide (o = None)) (s_slot s).

(** [rep s n m]: in node [n], the storage [s] stands for the map [m]. *)
Class HandleTable (rep : handle_storage -> node -> gmap Z nat -> Prop) : Prop := {
  ht_ctx s n m h a : rep s n m -> m !! h = Some a -> exists c, n_ctx n !! a = Some c /\ c_handle c = h;
  ht_ext s n n' m : rep s n m ->
    (forall h a, m !! h = Some a -> exists c, n_ctx n' !! a = Some c /\ c_handle c = h) -> rep s n' m;
  ht_init harbor n : rep (skynet_handle_init harbor) n ∅;
  ht_find s n m h : rep s n m -> exists r, find_ctx h n s = Ok r /\ (fst <$> r) = m !! h;
  ht_register s n m a c : rep s n m -> n_ctx n !! a = Some c -> (forall h, m !! h <> Some a) -> s_slot_size s < 2 ^ 24 ->
    exists h s', skynet_handle_register a n s = Ok (h, s') /\ m !! h = None /\
      rep s' (put_ctx a (set_handle h c) n) (<[h := a]> m);
  ht_register_free s n n' m a : rep s n m -> free_slot s = true -> skynet_handle_register a n s = skynet_handle_register a n' s;
  ht_retire s n m h : rep s n m -> exists s', retire_locked h n s = Ok (m !! h, s') /\ rep s' n (delete h m)
}.

(** The storage of Handle.v: the table and the names are well formed, and [m]
    has the registrations. *)
Definition storage_rep (s : handle_storage) (n : node) (m : gmap Z nat) : Prop :=
  slots_ok s n /\ (exists l, names_rep s l) /\ forall h a, m !! h = Some a <-> registered s n h a.

(** A table is well formed in every node where its contexts keep their handles. *)
Lemma slots_ok_ext s n n' : slots_ok s n ->
  (forall h a, registered s n h a -> exists c, n_ctx n' !! a = Some c /\ c_handle c = h) -> slots_ok s n'.
Proof.
  intros Hs Hext. destruct Hs as [H1 H2 H3 H4 H5]. constructor; try done. intros i a Hi.
  destruct (H5 _ _ Hi) as (c & Hc & Hm & Hr).
  destruct (Hext (c_handle c) a) as (c' & Hc' & E).
  { split; [|by exists c]. by rewrite Hm, Nat2Z.id. }
  exists c'. by rewrite E.
Qed.

Lemma registered_ext s n n' : slots_ok s n ->
  (forall h a, registered s n h a -> exists c, n_ctx n' !! a = Some c /\ c_handle c = h) ->
  forall h a, registered s n' h a <-> registered s n h a.
Proof.
  intros Hs Hext h a. split; [|intros Hr; split; [apply Hr|by apply Hext]].
  intros [Hi (c & Hc & Hh)].
  destruct (sl_ctx _ _ Hs _ _ Hi) as (c0 & Hc0 & Hm & _).
  assert (registered s n (c_handle c0) a) as Hr.
  { split; [|by exists c0]. by rewrite Hm, Nat2Z.id. }
  destruct (Hext _ _ Hr) as (c' & Hc' & E). rewrite Hc in Hc'. injection Hc' as <-.
  split; [done|]. exists c0. split; [done|]. congruence.
Qed.

#[export] Instance handle_table : HandleTable storage_rep.
Proof.
  split.
  - intros s n m h a (_ & _ & Hm) Ha. apply Hm in Ha as [_ Ha]. done.
  - intros s n n' m (Hs & Hn & Hm) Hext.
    assert (forall h a, registered s n h a -> exists c, n_ctx n' !! a = Some c /\ c_handle c = h) as Hext'.
    { intros h a Hr. by apply Hext, Hm. }
    split; [by apply slots_ok_ext with n|]. split; [done|]. intros h a. by rewrite Hm, (registered_ext s n n').
  - intros harbor n. split; [apply init_slots_ok|]. split; [exists []; apply init_names_rep|].
    intros h a. rewrite lookup_empty. split; [done|]. intros [Hi _]. apply lookup_replicate in Hi as [? _]. done.
  - intros s n m h (Hs & _ & Hm). destruct (find_ctx_spec s n h Hs) as (r & E & Hr). exists r. split; [exact E|].
    destruct r as [[a hash]|]; cbn.
    + symmetry. apply Hm, Hr.
    + symmetry. apply eq_None_not_Some. intros [a Ha]. apply Hm in Ha. by eapply Hr.
  - intros s n m a c (Hs & [l Hl] & Hm) Hc Hna Hroom.
    destruct (register_spec a n s Hs) as (h & s' & E & Hr & Hfr & Hpost & Hnm); [|done|].
    { intros i Hi. destruct (sl_ctx _ _ Hs _ _ Hi) as (c0 & Hc0 & Hmk & _). apply (Hna (c_handle c0)), Hm.
      split; [|by exists c0]. by rewrite Hmk, Nat2Z.id. }
    exists h, s'. split; [done|]. destruct (Hpost c Hc) as [Hok Hiff]. split; [|split; [done|split]].
    + apply eq_None_not_Some. intros [b Hb]. apply Hm in Hb. by eapply Hfr.
    + exists l. destruct Hnm as (E1 & E2 & E3), Hl as [L1 L2 L3 L4 L5]. constructor; rewrite ?E1, ?E2, ?E3; done.
    + intros h' b. rewrite Hiff, <- Hm. destruct (decide (h' = h)) as [->|Hne].
      * rewrite lookup_insert_eq. split; [intros; left; split; congruence|]. intros [[_ ->]|Hb]; [done|].
        apply Hm in Hb. by destruct (Hfr b).
      * rewrite lookup_insert_ne by done. naive_solver.
  - intros s n n' m a (Hs & _ & _) Hf. unfold skynet_handle_register. cbn [register_loop].
    destruct (scan_slots_spec s n (seqZ 0 (s_slot_size s)) Hs) as (r & Er & Hr).
    { apply Forall_forall. intros i Hi%elem_of_seqZ. lia. }
    rewrite Er. cbn [mbind result_bind]. destruct r as [[handle hash]|]; [done|]. exfalso.
    unfold free_slot in Hf. apply existsb_exists in Hf as (o & Ho & Hn). apply bool_decide_eq_true in Hn as ->.
    apply list_elem_of_In, list_elem_of_lookup in Ho as [j Hj].
    pose proof (lookup_lt_Some _ _ _ Hj) as Hlt. pose proof (sl_len _ _ Hs) as Hlen. unfold zlen in Hlen.
    destruct (scan_covers s n (Z.of_nat j) Hs) as (i & Hi & E); [lia|]. rewrite Forall_forall in Hr.
    destruct (Hr i) as [b Hb]; [apply elem_of_seqZ; lia|]. rewrite E, Nat2Z.id in Hb. congruence.
  - intros s n m h (Hs & [l Hl] & Hm). destruct (retire_locked_spec s n h l Hs Hl) as (r & s' & E & Hr).
    exists s'. destruct r as [a|].
    + destruct Hr as (Hreg & Hok & Hiff & Hn). rewrite E. apply Hm in Hreg as Ea. rewrite Ea.
      split; [done|]. split; [done|]. split; [by eexists|]. intros h' b. rewrite Hiff, <- Hm.
      rewrite lookup_delete_Some. naive_solver.
    + destruct Hr as [-> Hno]. assert (m !! h = None) as En.
      { apply eq_None_not_Some. intros [a Ha]. apply Hm in Ha. by eapply Hno. }
      rewrite E, En. split; [done|]. rewrite delete_id by done. split; [done|]. split; [by exists l|done].
Qed.

(** A registration reads nothing but the handles of the contexts. *)
Lemma rehash_ext n n' s idx new : n_ctx n = n_ctx n' -> rehash idx s n new = rehash idx s n' new.
Proof.
  intros E. revert new. induction idx as [|i idx IH]; intros new; [done|]. cbn [rehash].
  assert (rehash_one s n i new = rehash_one s n' i new) as -> by (unfold rehash_one, skynet_context_handle; by rewrite E).
  destruct (rehash_one s n' i new); [|done..]. cbn [mbind result_bind]. apply IH.
Qed.

Lemma register_ext a n n' s : n_ctx n = n_ctx n' -> skynet_handle_register a n s = skynet_handle_register a n' s.
Proof.
  intros E. unfold skynet_handle_register. generalize 2%nat as fuel. intros fuel. revert s.
  induction fuel as [|fuel IH]; intros s; [done|]. cbn [register_loop].
  destruct (scan_slots _ s) as [[[h hash]|]| |]; [done| |done..]. cbn [mbind result_bind].
  destruct (assert_ _); [|done..]. cbn [mbind result_bind]. rewrite (rehash_ext n n') by done.
  destruct (rehash _ s n' _); [|done..]. cbn [mbind result_bind]. apply IH.
Qed.
