(* ===== verification/Server.v ===== *)
(** * Message delivery (skynet-src/skynet_server.c, skynet_harbor.c)

    Sending a message: packing the type into the size, choosing between the
    harbor and a local queue, and pushing into the queue of the context the
    destination names. *)
From S2P Require Import Prelude CString MessageQueue Context Handle.

(** ** Data *)

Definition PTYPE_TEXT : Z := 0.
Definition PTYPE_RESPONSE : Z := 1.
Definition PTYPE_CLIENT : Z := 3.
Definition PTYPE_SYSTEM : Z := 4.
Definition PTYPE_HARBOR : Z := 5.
Definition PTYPE_SOCKET : Z := 6.
Definition PTYPE_ERROR : Z := 7.
Definition GLOBALNAME_LENGTH : Z := 16.
Definition PTYPE_TAG_DONTCOPY : Z := 65536.
Definition PTYPE_TAG_ALLOCSESSION : Z := 131072.

(** The process: its node and the handle storage [H]. *)
Record world : Set := World {
  w_node : node;
  w_H : handle_storage
}.

(** ** Local delivery *)

(** 0 when the message is queued, -1 when the handle has no context. *)
Definition skynet_context_push (handle : Z) (message : skynet_message) (w : world) : result (Z * world) :=
  '(ctx, n) ← skynet_handle_grab handle (w_node w) (w_H w);
  match ctx with
  | None => Ok (-1, World n (w_H w))
  | Some a =>
      c ← deref (n_ctx n !! a);
      mq ← skynet_mq_push (c_queue c) message (n_mq n);
      '(_, n) ← skynet_context_release a (Node mq (n_ctx n) (n_total n));
      Ok (0, World n (w_H w))
  end.

(** The dequeued message as [dispatch_message] hands it to the callback: type and size. *)
Definition message_type (m : skynet_message) : Z := Z.shiftr (m_sz m) MESSAGE_TYPE_SHIFT.
Definition message_size (m : skynet_message) : Z := Z.land (m_sz m) MESSAGE_TYPE_MASK.

(** [HARBOR] is [harbor << HANDLE_REMOTE_SHIFT] as an [unsigned int]. *)
Definition skynet_harbor_init (harbor : Z) : Z := u32 (Z.shiftl harbor HANDLE_REMOTE_SHIFT).

(** [int h] is compared with the [unsigned] [HARBOR], hence as unsigned. *)
Definition skynet_harbor_message_isremote (HARBOR handle : Z) : bool :=
  let h := Z.land handle (u32 (Z.lnot HANDLE_MASK)) in
  negb (h =? HARBOR) && negb (h =? 0).

(** The type, session and size after [_filter_args]; [copied] tells that
    [data] is replaced by a fresh copy with a NUL after its last byte. *)
Record filtered : Set := Filtered {
  f_session : Z;
  f_copied : bool;
  f_sz : Z;
  f_ctx : skynet_context
}.

Definition _filter_args (context : skynet_context) (type session data sz : Z) : result filtered :=
  let needcopy := Z.land type PTYPE_TAG_DONTCOPY =? 0 in
  let allocsession := negb (Z.land type PTYPE_TAG_ALLOCSESSION =? 0) in
  let type := Z.land type 255 in
  '(session, context) ←
    (if allocsession then _ ← assert_ (session =? 0); Ok (skynet_context_newsession context)
     else Ok (session, context));
  Ok (Filtered session (needcopy && negb (data =? 0)) (Z.lor sz (u64 (Z.shiftl type MESSAGE_TYPE_SHIFT))) context).

(** The size word of a message of type [type] and [size] bytes. *)
Definition pack_sz (type size : Z) : Z := Z.lor size (u64 (Z.shiftl type MESSAGE_TYPE_SHIFT)).

(** ** Lemmas *)

Lemma mask_ones : MESSAGE_TYPE_MASK = Z.ones 56.
Proof. reflexivity. Qed.

Lemma pack_sz_split type size : 0 <= type < 256 -> 0 <= size < 2 ^ 56 ->
  Z.shiftr (pack_sz type size) MESSAGE_TYPE_SHIFT = type /\ Z.land (pack_sz type size) MESSAGE_TYPE_MASK = size.
Proof.
  intros Ht Hs. unfold pack_sz, MESSAGE_TYPE_SHIFT. rewrite u64_small.
  2:{ unfold is_u64. rewrite Z.shiftl_mul_pow2 by lia. lia. }
  rewrite lor_shiftl_add by lia. rewrite mask_ones, Z.land_ones, Z.shiftr_div_pow2 by lia.
  rewrite Z_div_plus_full, Z_mod_plus_full, Z.div_small, Z.mod_small by lia. lia.
Qed.

(** The type rides in the high byte of the size: for every message of at
    most 2^56 - 1 bytes and every type, what [_filter_args] packs, the
    dispatcher unpacks to the low byte of the type and the size; a session is
    allocated exactly on request, and data is copied unless the caller gave it away. *)
Theorem filter_args_roundtrip (c : skynet_context) (type session source data sz : Z)
  (Hsz : 0 <= sz < 2 ^ 56) (Hsession : Z.land type PTYPE_TAG_ALLOCSESSION <> 0 -> session = 0) :
  exists f, _filter_args c type session data sz = Ok f /\
    message_type (SkynetMessage source (f_session f) data (f_sz f)) = type mod 256 /\
    message_size (SkynetMessage source (f_session f) data (f_sz f)) = sz /\
    (f_copied f = true <-> Z.land type PTYPE_TAG_DONTCOPY = 0 /\ data <> 0) /\
    (f_session f, f_ctx f) = (if Z.land type PTYPE_TAG_ALLOCSESSION =? 0 then (session, c) else skynet_context_newsession c).
Proof.
  unfold _filter_args. assert (0 <= type mod 256 < 256) as Ht by (apply Z.mod_pos_bound; lia).
  destruct (pack_sz_split (type mod 256) sz Ht Hsz) as [E1 E2].
  destruct (Z.eqb_spec (Z.land type PTYPE_TAG_ALLOCSESSION) 0) as [E|E]; cbn [negb mbind result_bind].
  - eexists. split; [done|]. cbn. rewrite land_255. split; [exact E1|]. split; [exact E2|]. split; [|done].
    rewrite andb_true_iff, negb_true_iff, Z.eqb_eq, Z.eqb_neq. done.
  - rewrite (Hsession E). cbn [Z.eqb assert_ mbind result_bind].
    destruct (skynet_context_newsession c) as [s c'] eqn:Es. cbn [mbind result_bind].
    eexists. split; [done|]. cbn. rewrite land_255. split; [exact E1|]. split; [exact E2|]. split; [|done].
    rewrite andb_true_iff, negb_true_iff, Z.eqb_eq, Z.eqb_neq. done.
Qed.

Lemma filter_args_roundtrip_witness :
  exists f, _filter_args (new_context 1) (PTYPE_RESPONSE + PTYPE_TAG_ALLOCSESSION) 0 1 12 = Ok f /\
    message_type (SkynetMessage 9 (f_session f) 1 (f_sz f)) = 1.
Proof.
  destruct (filter_args_roundtrip (new_context 1) (PTYPE_RESPONSE + PTYPE_TAG_ALLOCSESSION) 0 9 1 12) as (f & E & H & _).
  - split; [discriminate|reflexivity].
  - reflexivity.
  - exists f. split; [exact E|]. rewrite H. reflexivity.
Defined.
