(* ===== verification/Send.v ===== *)
(** * Sending messages (skynet-src/skynet_server.c, skynet_harbor.c)

    [skynet_send] and [skynet_sendname] with the memory they work on: the
    blocks of message data, which are copied, handed over or freed. A message
    for another node is wrapped in a [remote_message] block for the harbor
    service. *)
From S2P Require Import Prelude CString MessageQueue Context Handle HandleTable Server.

(** ** Data *)

(** The name is read when [rmsg_handle] is 0; otherwise it is not written. *)
Record remote_message : Set := RemoteMessage {
  rmsg_name : option (list Z);
  rmsg_handle : Z;
  rmsg_message : Z;
  rmsg_sz : Z
}.

Definition sizeof_remote_message : Z := 40.

Inductive block : Set :=
| Bytes (l : list Z)
| Remote (rmsg : remote_message).

(** The process: contexts, queues and handles; allocated memory; the statics
    [HARBOR] and [REMOTE]; [G_NODE.monitor_exit]. *)
Record process : Set := Process {
  p_world : world;
  p_mem : gmap Z block;
  p_HARBOR : Z;
  p_REMOTE : option nat;
  p_monitor_exit : Z
}.

Definition with_world (w : world) (p : process) : process := Process w (p_mem p) (p_HARBOR p) (p_REMOTE p) (p_monitor_exit p).
Definition with_node (n : node) (p : process) : process := with_world (World n (w_H (p_world p))) p.
Definition with_mem (m : gmap Z block) (p : process) : process := Process (p_world p) m (p_HARBOR p) (p_REMOTE p) (p_monitor_exit p).
Definition p_node (p : process) : node := w_node (p_world p).

(** ** Memory *)

(** [free(NULL)] does nothing. *)
Definition skynet_free (a : Z) (p : process) : result process :=
  if a =? 0 then Ok p else _ ← deref (p_mem p !! a); Ok (with_mem (delete a (p_mem p)) p).

Definition read_bytes (a n : Z) (p : process) : result (list Z) :=
  b ← deref (p_mem p !! a);
  match b with Bytes l => slice l 0 n | Remote _ => Fault end.

(** [alloc] is the address the allocator chooses. *)
Definition skynet_malloc (alloc : gmap Z block -> Z) (b : block) (p : process) : Z * process :=
  (alloc (p_mem p), with_mem (<[alloc (p_mem p) := b]> (p_mem p)) p).

(** ** Operations *)

(** [_filter_args] on memory: session, data and size after it. *)
Definition filter_args (alloc : gmap Z block -> Z) (ctx : nat) (type session data sz : Z) (p : process) : result (Z * Z * Z * process) :=
  c ← deref (n_ctx (p_node p) !! ctx);
  f ← _filter_args c type session data sz;
  let p := with_node (put_ctx ctx (f_ctx f) (p_node p)) p in
  '(data, p) ←
    (if f_copied f then l ← read_bytes data sz p; Ok (skynet_malloc alloc (Bytes (l ++ [0])) p) else Ok (data, p));
  Ok (f_session f, data, f_sz f, p).

Definition skynet_context_send (ctx : nat) (msg sz source type session : Z) (p : process) : result process :=
  c ← deref (n_ctx (p_node p) !! ctx);
  mq ← skynet_mq_push (c_queue c) (SkynetMessage source session msg (Z.lor sz (u64 (Z.shiftl type MESSAGE_TYPE_SHIFT)))) (n_mq (p_node p));
  Ok (with_node (Node mq (n_ctx (p_node p)) (n_total (p_node p))) p).

(** [rmsg] is the block at [address]. *)
Definition skynet_harbor_send (address : Z) (rmsg : remote_message) (source session : Z) (p : process) : result process :=
  let type := Z.shiftr (rmsg_sz rmsg) MESSAGE_TYPE_SHIFT in
  let rmsg := RemoteMessage (rmsg_name rmsg) (rmsg_handle rmsg) (rmsg_message rmsg) (Z.land (rmsg_sz rmsg) MESSAGE_TYPE_MASK) in
  let p := with_mem (<[address := Remote rmsg]> (p_mem p)) p in
  _ ← assert_ (negb (type =? PTYPE_SYSTEM) && negb (type =? PTYPE_HARBOR));
  remote ← deref (p_REMOTE p);
  skynet_context_send remote address sizeof_remote_message source type session p.

Definition skynet_send (alloc : gmap Z block -> Z) (ctx : nat) (source destination type session data sz : Z) (p : process) : result (Z * process) :=
  if negb (Z.land sz MESSAGE_TYPE_MASK =? sz) then
    p ← (if negb (Z.land type PTYPE_TAG_DONTCOPY =? 0) then skynet_free data p else Ok p);
    Ok (-1, p)
  else
    '(session, data, sz, p) ← filter_args alloc ctx type session data sz p;
    source ← (if source =? 0 then skynet_context_handle ctx (p_node p) else Ok source);
    if destination =? 0 then Ok (session, p)
    else
      _ ← assert_ (negb (p_HARBOR p =? u32 (Z.lnot 0)));
      if skynet_harbor_message_isremote (p_HARBOR p) destination then
        let rmsg := RemoteMessage None destination data sz in
        let '(a, p) := skynet_malloc alloc (Remote rmsg) p in
        p ← skynet_harbor_send a rmsg source session p;
        Ok (session, p)
      else
        '(r, w) ← skynet_context_push destination (SkynetMessage source session data sz) (p_world p);
        let p := with_world w p in
        if negb (r =? 0) then p ← skynet_free data p; Ok (-1, p)
        else Ok (session, p).

(** [addr] without its NUL, in the 16 bytes of a name. *)
Definition copy_name (addr : list Z) : list Z :=
  take (Z.to_nat GLOBALNAME_LENGTH) addr ++ replicate (Z.to_nat GLOBALNAME_LENGTH - length addr) 0.

Definition skynet_sendname (alloc : gmap Z block -> Z) (ctx : nat) (source : Z) (addr : list Z) (type session data sz : Z) (p : process) : result (Z * process) :=
  source ← (if source =? 0 then skynet_context_handle ctx (p_node p) else Ok source);
  match addr with
  | 58 :: hex => skynet_send alloc ctx source (strtoul16 hex) type session data sz p
  | 46 :: name =>
      des ← skynet_handle_findname name (w_H (p_world p));
      if des =? 0 then
        p ← (if negb (Z.land type PTYPE_TAG_DONTCOPY =? 0) then skynet_free data p else Ok p);
        Ok (-1, p)
      else skynet_send alloc ctx source des type session data sz p
  | _ =>
      '(session, data, sz, p) ← filter_args alloc ctx type session data sz p;
      let rmsg := RemoteMessage (Some (copy_name addr)) 0 data sz in
      let '(a, p) := skynet_malloc alloc (Remote rmsg) p in
      p ← skynet_harbor_send a rmsg source session p;
      Ok (session, p)
  end.

Definition skynet_queryname (name : list Z) (p : process) : result Z :=
  match name with
  | 58 :: hex => Ok (strtoul16 hex)
  | 46 :: name => skynet_handle_findname name (w_H (p_world p))
  | _ => Ok 0
  end.

Definition skynet_isremote (handle : Z) (p : process) : result (bool * Z) :=
  _ ← assert_ (negb (p_HARBOR p =? u32 (Z.lnot 0)));
  Ok (skynet_harbor_message_isremote (p_HARBOR p) handle, Z.shiftr handle HANDLE_REMOTE_SHIFT).

Definition skynet_harbor_start (ctx : nat) (p : process) : result process :=
  n ← skynet_context_reserve ctx (p_node p);
  let p := with_node n p in
  Ok (Process (p_world p) (p_mem p) (p_HARBOR p) (Some ctx) (p_monitor_exit p)).

Definition skynet_harbor_exit (p : process) : result process :=
  let ctx := p_REMOTE p in
  let p := Process (p_world p) (p_mem p) (p_HARBOR p) None (p_monitor_exit p) in
  match ctx with
  | Some a => '(_, n) ← skynet_context_release a (p_node p); Ok (with_node n p)
  | None => Ok p
  end.

(** ** The state, abstractly *)

Definition post (m : option (nat * skynet_message)) (Q : nat -> list skynet_message) : nat -> list skynet_message :=
  match m with None => Q | Some (q, m) => fun x => if decide (x = q) then Q q ++ [m] else Q x end.

Section delivery.
Context (rep : handle_storage -> node -> gmap Z nat -> Prop) {HT : HandleTable rep}.

(** In node [n] the storage [H] is the map [m], the queues that are in the
    global list are [gl] and queue [q] holds the messages [Q q]. *)
Record node_ok (H : handle_storage) (n : node) (m : gmap Z nat) (gl : list nat) (Q : nat -> list skynet_message) : Prop := NodeOk {
  no_table : rep H n m;
  no_list : gq_rep (n_mq n) gl;
  no_ctx : forall a c, n_ctx n !! a = Some c -> 0 < c_ref c /\ exists q, h_queues (n_mq n) !! c_queue c = Some q /\
    mq_rep q (Q (c_queue c)) /\ (q_in_global q = 0 -> c_queue c ∉ gl)
}.

Lemma node_ok_ctx H n m gl Q ctxs total : node_ok H n m gl Q ->
  (forall a c', ctxs !! a = Some c' -> exists c, n_ctx n !! a = Some c /\ c_handle c' = c_handle c /\ c_queue c' = c_queue c /\ 0 < c_ref c') ->
  (forall a c, n_ctx n !! a = Some c -> is_Some (ctxs !! a)) -> node_ok H (Node (n_mq n) ctxs total) m gl Q.
Proof using HT.
  intros [N1 N2 N3] Hc Hs. constructor; cbn; [|done|].
  - eapply ht_ext; [exact N1|]. intros h a Ha. destruct (ht_ctx _ _ _ _ _ N1 Ha) as (c & Hac & E). cbn.
    destruct (Hs _ _ Hac) as [c' Hc']. exists c'. split; [done|]. destruct (Hc _ _ Hc') as (c0 & H0 & Eh & _). congruence.
  - intros a c' Ha. destruct (Hc _ _ Ha) as (c & Hac & _ & Eq & Hr). split; [done|]. rewrite Eq. by apply N3 with a.
Qed.

Lemma push_queue_ok H n m gl Q a c msg : node_ok H n m gl Q -> n_ctx n !! a = Some c -> zlen (Q (c_queue c)) + 1 < 2 ^ 30 ->
  exists mq gl', skynet_mq_push (c_queue c) msg (n_mq n) = Ok mq /\ node_ok H (Node mq (n_ctx n) (n_total n)) m gl' (post (Some (c_queue c, msg)) Q).
Proof using HT.
  intros [N1 N2 N3] Hc Hlen. destruct (N3 _ _ Hc) as (_ & q & Hq & Hr & Hin).
  destruct (mq_put_rep q _ msg Hr Hlen) as (q' & E & Hr' & E1 & E2 & _). unfold skynet_mq_push. rewrite Hq. cbn [deref]. rstep. rewrite E. rstep.
  assert (Hfin : forall mq gl' g, erase mq = <[c_queue c := set_next None (set_in_global g q')]> (erase (n_mq n)) -> gq_rep mq gl' -> (g <> 0) ->
    (forall x, x ∈ gl' -> x ∈ gl \/ x = c_queue c) -> node_ok H (Node mq (n_ctx n) (n_total n)) m gl' (post (Some (c_queue c, msg)) Q)).
  { intros mq gl' g Hmq Hg Hg0 Hsub. constructor; [|done|].
    - eapply ht_ext; [exact N1|]. intros h b Hb. cbn. eapply ht_ctx; [exact N1|exact Hb].
    - cbn. intros b cb Hb. destruct (N3 _ _ Hb) as (Hpos & qb & Hqb & Hrb & Hinb). split; [done|].
      assert (Hl : set_next None <$> h_queues mq !! c_queue cb = <[c_queue c := set_next None (set_in_global g q')]> (erase (n_mq n)) !! c_queue cb)
        by (rewrite <- Hmq; symmetry; apply erase_lookup).
      destruct (decide (c_queue cb = c_queue c)) as [Eq|Hne].
      + rewrite Eq, lookup_insert_eq in Hl. rewrite Eq. apply fmap_Some in Hl as (q2 & Hq2 & Eq2). exists q2. split; [done|].
        split; [|intros Hz; apply (f_equal q_in_global) in Eq2; cbn in Eq2; congruence].
        apply (mq_rep_set_next _ _ None). rewrite <- Eq2. apply mq_rep_set_next. eapply mq_rep_ext; [..|exact Hr']; try done. by destruct Hr'.
      + rewrite lookup_insert_ne, erase_lookup, Hqb in Hl by done. cbn in Hl. apply fmap_Some in Hl as (q2 & Hq2 & Eq2). exists q2. split; [done|]. split.
        * apply (mq_rep_set_next _ _ None). rewrite <- Eq2. by apply mq_rep_set_next.
        * intros Hz Hx. apply Hsub in Hx as [Hx|]; [|done]. apply (f_equal q_in_global) in Eq2. cbn in Eq2. apply Hinb; [congruence|done]. }
  rewrite E1. destruct (Z.eqb_spec (q_in_global q) 0) as [E0|E0].
  - destruct (globalmq_push_rep (store (c_queue c) (set_in_global MQ_IN_GLOBAL q') (n_mq n)) gl (c_queue c) (set_in_global MQ_IN_GLOBAL q')) as (mq & Emq & Hg' & Ee).
    { by eapply gq_rep_store. } { cbn. by rewrite lookup_insert_eq. } { by apply Hin. }
    exists mq, (gl ++ [c_queue c]). split; [done|]. apply (Hfin _ _ MQ_IN_GLOBAL); [by rewrite Ee, erase_store|done|done|].
    intros x Hx. apply elem_of_app in Hx as [Hx|Hx%list_elem_of_singleton]; auto.
  - eexists _, gl. split; [done|]. apply (Hfin _ _ (q_in_global q)); [rewrite erase_store, <- E1; by destruct q'|by eapply gq_rep_store|done|auto].
Qed.

(** Delivery to the context a handle stands for. *)
Lemma context_push_ok H n m gl Q handle msg : node_ok H n m gl Q ->
  (forall a c, m !! handle = Some a -> n_ctx n !! a = Some c -> zlen (Q (c_queue c)) + 1 < 2 ^ 30) ->
  match m !! handle with
  | Some a => exists c n' gl', n_ctx n !! a = Some c /\ skynet_context_push handle msg (World n H) = Ok (0, World n' H) /\ n_ctx n' = n_ctx n /\
      node_ok H n' m gl' (post (Some (c_queue c, msg)) Q)
  | None => skynet_context_push handle msg (World n H) = Ok (-1, World n H)
  end.
Proof using HT.
  intros Hok Hlen. pose proof Hok as [N1 N2 N3]. unfold skynet_context_push, skynet_handle_grab. cbn [w_node w_H].
  destruct (ht_find H n m handle N1) as (r & Er & Em). rewrite Er. rstep. destruct r as [[a hash]|]; cbn in Em; rewrite <- Em; [|done].
  destruct (ht_ctx _ _ _ _ _ N1 (eq_sym Em)) as (c & Hc & Eh). destruct (N3 _ _ Hc) as (Hpos & _).
  unfold skynet_context_grab. rewrite Hc. cbn [deref]. rstep. cbn [put_ctx n_ctx]. rewrite lookup_insert_eq. cbn [deref]. rstep. cbn [c_queue set_ref n_mq].
  destruct (push_queue_ok H n m gl Q a c msg Hok Hc) as (mq & gl' & Epush & Hok'); [by eapply Hlen|]. cbn. rewrite Epush. rstep.
  unfold skynet_context_release. cbn [n_ctx put_ctx]. rewrite lookup_insert_eq. cbn [deref]. rstep. cbn [c_ref set_ref].
  destruct (Z.eqb_spec (c_ref c + 1 - 1) 0); [lia|]. rstep. unfold put_ctx. cbn [n_mq n_ctx n_total].
  replace (c_ref c + 1 - 1) with (c_ref c) by lia. rewrite insert_insert_eq.
  assert (set_ref (c_ref c) (set_ref (c_ref c + 1) c) = c) as -> by by destruct c. rewrite insert_id by done.
  exists c, (Node mq (n_ctx n) (n_total n)), gl'. split; [done|]. split; [done|]. by split.
Qed.

(** ** Specification *)

Definition content (mem : gmap Z block) (a n : Z) : list Z := match mem !! a with Some (Bytes l) => take (Z.to_nat n) l | _ => [] end.

Definition copies (type data : Z) : bool := (Z.land type PTYPE_TAG_DONTCOPY =? 0) && negb (data =? 0).

Definition copied (alloc : gmap Z block -> Z) (type data sz : Z) (mem : gmap Z block) : gmap Z block :=
  if copies type data then <[alloc mem := Bytes (content mem data sz ++ [0])]> mem else mem.

(** What sending means on the map of handles and the queues as lists: the
    value returned, the message posted and to which queue, the memory after. *)
Definition send_spec (alloc : gmap Z block -> Z) (queue_of : Z -> option nat) (remote : Z -> bool) (harbor : nat) (c : skynet_context)
  (source destination type session data sz : Z) (mem : gmap Z block) : Z * option (nat * skynet_message) * gmap Z block :=
  if 2 ^ 56 <=? sz then (-1, None, if Z.land type PTYPE_TAG_DONTCOPY =? 0 then mem else delete data mem)
  else
    let session := if Z.land type PTYPE_TAG_ALLOCSESSION =? 0 then session else fst (skynet_context_newsession c) in
    let '(data, mem) := (if copies type data then alloc mem else data, copied alloc type data sz mem) in
    let source := if source =? 0 then c_handle c else source in
    if destination =? 0 then (session, None, mem)
    else if remote destination then
      (session, Some (harbor, SkynetMessage source session (alloc mem) (pack_sz (type mod 256) sizeof_remote_message)),
       <[alloc mem := Remote (RemoteMessage None destination data sz)]> mem)
    else match queue_of destination with
         | Some q => (session, Some (q, SkynetMessage source session data (pack_sz (type mod 256) sz)), mem)
         | None => (-1, None, delete data mem)
         end.

Definition queue_of (m : gmap Z nat) (n : node) (handle : Z) : option nat := a ← m !! handle; c ← n_ctx n !! a; Some (c_queue c).

(** The data a caller may pass: [NULL], or a block of at least [sz] bytes. *)
Definition readable (mem : gmap Z block) (data sz : Z) : Prop :=
  mem !! 0 = None /\ (data = 0 \/ exists l, mem !! data = Some (Bytes l) /\ (sz < 2 ^ 56 -> sz <= zlen l)).

Lemma big_sz sz : 0 <= sz < 2 ^ 64 -> (Z.land sz MESSAGE_TYPE_MASK =? sz) = negb (2 ^ 56 <=? sz).
Proof using.
  intros Hsz. rewrite mask_ones, Z.land_ones by lia. destruct (Z.leb_spec (2 ^ 56) sz); cbn [negb].
  - apply Z.eqb_neq. pose proof (Z.mod_pos_bound sz (2 ^ 56)). lia.
  - apply Z.eqb_eq, Z.mod_small. lia.
Qed.

Lemma readable_slice mem data sz : readable mem data sz -> data <> 0 -> 0 <= sz < 2 ^ 56 ->
  exists l, mem !! data = Some (Bytes l) /\ slice l 0 sz = Ok (content mem data sz).
Proof using.
  intros [_ [->|(l & Hl & Hs)]] H0 Hsz; [done|]. exists l. split; [done|]. unfold content. rewrite Hl, slice_Ok by lia. done.
Qed.

(** What [_filter_args] leaves: the context has counted its session, the data are copied. *)
Lemma filter_args_ok (alloc : gmap Z block -> Z) p m gl Q ctx c type session data sz :
  node_ok (w_H (p_world p)) (p_node p) m gl Q -> n_ctx (p_node p) !! ctx = Some c -> 0 <= sz < 2 ^ 56 -> readable (p_mem p) data sz ->
  (Z.land type PTYPE_TAG_ALLOCSESSION <> 0 -> session = 0) ->
  exists p' c', filter_args alloc ctx type session data sz p =
      Ok (if Z.land type PTYPE_TAG_ALLOCSESSION =? 0 then session else fst (skynet_context_newsession c),
          if copies type data then alloc (p_mem p) else data, pack_sz (type mod 256) sz, p') /\
    p_mem p' = copied alloc type data sz (p_mem p) /\
    w_H (p_world p') = w_H (p_world p) /\ p_HARBOR p' = p_HARBOR p /\ p_REMOTE p' = p_REMOTE p /\
    node_ok (w_H (p_world p')) (p_node p') m gl Q /\ n_ctx (p_node p') = <[ctx := c']> (n_ctx (p_node p)) /\
    c_handle c' = c_handle c /\ c_queue c' = c_queue c.
Proof using HT.
  intros Hok Hc Hsz Hr Hsess. unfold filter_args, _filter_args. rewrite Hc. cbn [deref]. rstep.
  set (c' := if Z.land type PTYPE_TAG_ALLOCSESSION =? 0 then c else snd (skynet_context_newsession c)).
  assert (c_handle c' = c_handle c /\ c_queue c' = c_queue c /\ c_ref c' = c_ref c) as (Eh & Eq & Er).
  { unfold c', skynet_context_newsession. destruct (Z.land type PTYPE_TAG_ALLOCSESSION =? 0); [done|]. by destruct (s32 (c_session_id c + 1) <=? 0). }
  set (p1 := with_node (put_ctx ctx c' (p_node p)) p).
  assert (node_ok (w_H (p_world p1)) (p_node p1) m gl Q) as Hok1.
  { apply node_ok_ctx with (1 := Hok); cbn.
    - intros a c0 [[<- <-]|[Hne Ha]]%lookup_insert_Some; [exists c; rewrite Er; split; [done|]; split; [done|]; split; [done|]; by apply (no_ctx _ _ _ _ _ Hok) in Hc as [? _]|].
      exists c0. split; [done|]. split; [done|]. split; [done|]. by apply (no_ctx _ _ _ _ _ Hok) in Ha as [? _].
    - intros a c0 Ha. destruct (decide (ctx = a)) as [->|]; [rewrite lookup_insert_eq|rewrite lookup_insert_ne by done]; by eexists. }
  exists (with_mem (copied alloc type data sz (p_mem p)) p1), c'.
  split; [|by repeat (split; [done|])]. rewrite land_255.
  destruct (Z.eqb_spec (Z.land type PTYPE_TAG_ALLOCSESSION) 0) as [Ea|Ea]; cbn [negb]; [|rewrite (Hsess Ea), Z.eqb_refl; cbn [assert_]]; rstep;
    [|destruct (skynet_context_newsession c) as [s c0] eqn:En; cbn [snd fst] in *; rstep]; cbn [f_copied f_session f_sz f_ctx];
    change (with_node (put_ctx ctx c' (p_node p)) p) with p1; fold p1.
  all: unfold copied, copies; destruct ((Z.land type PTYPE_TAG_DONTCOPY =? 0) && negb (data =? 0)) eqn:Ecopy; rstep; [|done].
  all: apply andb_true_iff in Ecopy as [_ Ed]; apply negb_true_iff, Z.eqb_neq in Ed; destruct (readable_slice _ _ _ Hr Ed Hsz) as (l & El & Es).
  all: unfold read_bytes; cbn [p_mem p1 with_node with_world]; rewrite El; cbn [deref]; rstep; rewrite Es; rstep; done.
Qed.

Lemma free_ok a p : p_mem p !! 0 = None -> a = 0 \/ is_Some (p_mem p !! a) -> skynet_free a p = Ok (with_mem (delete a (p_mem p)) p).
Proof using.
  intros H0 Ha. unfold skynet_free. destruct (Z.eqb_spec a 0) as [->|Hne].
  - rewrite delete_id by done. by destruct p.
  - destruct Ha as [->|[b ->]]; done.
Qed.

Definition remote_queue (p : process) : option nat := a ← p_REMOTE p; c ← n_ctx (p_node p) !! a; Some (c_queue c).

Lemma harbor_send_ok p m gl Q a rmsg source session : node_ok (w_H (p_world p)) (p_node p) m gl Q ->
  (exists q, remote_queue p = Some q) -> (forall q, zlen (Q q) + 1 < 2 ^ 30) -> forall ty size, rmsg_sz rmsg = pack_sz ty size ->
  0 <= ty < 256 -> 0 <= size < 2 ^ 56 -> ty <> PTYPE_SYSTEM -> ty <> PTYPE_HARBOR ->
  exists p' gl', skynet_harbor_send a rmsg source session p = Ok p' /\
    p_mem p' = <[a := Remote (RemoteMessage (rmsg_name rmsg) (rmsg_handle rmsg) (rmsg_message rmsg) size)]> (p_mem p) /\
    w_H (p_world p') = w_H (p_world p) /\ n_ctx (p_node p') = n_ctx (p_node p) /\
    node_ok (w_H (p_world p')) (p_node p') m gl'
      (post (Some (default 0%nat (remote_queue p), SkynetMessage source session a (pack_sz ty sizeof_remote_message))) Q).
Proof using HT.
  intros Hok [q Hq] Hlen ty size E Ht Hs H1 H2. unfold skynet_harbor_send. destruct (pack_sz_split ty size Ht Hs) as [S1 S2]. rewrite E, S1, S2.
  destruct (Z.eqb_spec ty PTYPE_SYSTEM), (Z.eqb_spec ty PTYPE_HARBOR); try done. cbn [negb andb assert_]. rstep.
  unfold remote_queue in *. cbn [p_REMOTE with_mem]. destruct (p_REMOTE p) as [ra|]; [|done]. cbn [deref]. rstep.
  cbn in Hq. destruct (n_ctx (p_node p) !! ra) as [rc|] eqn:Erc; [|done]. injection Hq as <-. cbn [default mbind option_bind].
  unfold skynet_context_send. change (p_node (with_mem ?x p)) with (p_node p). rewrite Erc. cbn [deref]. rstep.
  destruct (push_queue_ok _ _ _ _ _ _ _ (SkynetMessage source session a (pack_sz ty sizeof_remote_message)) Hok Erc (Hlen _)) as (mq & gl' & Ep & Hok').
  unfold pack_sz in Ep. rewrite Ep. rstep. eexists _, gl'. by split.
Qed.

(** The harbor service takes no message of these types: [skynet_harbor_send] has an assertion. *)
Definition refused (remote : Z -> bool) (destination type sz : Z) : bool :=
  (sz <? 2 ^ 56) && negb (destination =? 0) && remote destination && ((type mod 256 =? PTYPE_SYSTEM) || (type mod 256 =? PTYPE_HARBOR)).

(** C16. [skynet_send] implements its specification [send_spec]: for any message,
    type and destination it returns, the message is at the end of the queue of the
    context the handle stands for, or wrapped in the queue of the harbor service
    when the node is another one, and all other queues and the table of handles
    are unchanged. The data are copied exactly when the caller keeps them. They
    are freed when the destination has no context, and when they are too large
    (2^56 bytes) and were given away; with destination 0, where nothing is sent,
    the copy or the data given away are kept by nobody and not freed. Only a
    message of type [PTYPE_SYSTEM] or [PTYPE_HARBOR] for another node fails: the
    assertion of [skynet_harbor_send]. A message for another node needs a harbor
    service. *)
Theorem send_refines_spec (alloc : gmap Z block -> Z) (p : process) (m : gmap Z nat) (gl : list nat) (Q : nat -> list skynet_message)
  (ctx : nat) (c : skynet_context) (source destination type session data sz : Z)
  (Halloc : forall mem, mem !! alloc mem = None /\ alloc mem <> 0) (Hok : node_ok (w_H (p_world p)) (p_node p) m gl Q)
  (Hc : n_ctx (p_node p) !! ctx = Some c) (Hsz : 0 <= sz < 2 ^ 64) (Hdata : readable (p_mem p) data sz)
  (Hsess : Z.land type PTYPE_TAG_ALLOCSESSION <> 0 -> session = 0) (Hinit : p_HARBOR p <> u32 (Z.lnot 0)) (Hroom : forall q, zlen (Q q) + 1 < 2 ^ 30)
  (Hremote : skynet_harbor_message_isremote (p_HARBOR p) destination = true -> exists q, remote_queue p = Some q) :
  if refused (skynet_harbor_message_isremote (p_HARBOR p)) destination type sz then
    skynet_send alloc ctx source destination type session data sz p = Fault
  else
  let '(r, posted, mem) := send_spec alloc (queue_of m (p_node p)) (skynet_harbor_message_isremote (p_HARBOR p)) (default 0%nat (remote_queue p)) c
                             source destination type session data sz (p_mem p) in
  exists p' gl', skynet_send alloc ctx source destination type session data sz p = Ok (r, p') /\
    node_ok (w_H (p_world p')) (p_node p') m gl' (post posted Q) /\ w_H (p_world p') = w_H (p_world p) /\ p_mem p' = mem.
Proof using HT.
  unfold send_spec, skynet_send, refused. rewrite big_sz, negb_involutive by done. rewrite (Z.ltb_antisym (2 ^ 56)). destruct (Z.leb_spec (2 ^ 56) sz) as [Hbig|Hsmall].
  { cbn [negb andb]. destruct (Z.land type PTYPE_TAG_DONTCOPY =? 0); cbn [negb]; rstep; [by exists p, gl|]. destruct Hdata as [H0 Ha]. rewrite free_ok; [|done|destruct Ha as [|(l & -> & _)]; eauto]. rstep. by eexists _, gl. }
  cbn [negb andb].
  destruct (filter_args_ok alloc p m gl Q ctx c type session data sz Hok Hc) as (p1 & c1 & -> & Em & EH & Eharbor & Eremote & Hok1 & Ectx & Eh & Eq); [lia|done..|].
  set (s := if Z.land type PTYPE_TAG_ALLOCSESSION =? 0 then _ else _). set (d := if copies type data then _ else _). rstep.
  assert (exists src, (if source =? 0 then skynet_context_handle ctx (p_node p1) else Ok source) = Ok src /\ src = (if source =? 0 then c_handle c else source)) as (src & -> & <-).
  { destruct (source =? 0); [|by eexists]. unfold skynet_context_handle. rewrite Ectx, lookup_insert_eq. cbn. eexists. split; [done|]. by rewrite Eh. }
  rstep. destruct (Z.eqb_spec destination 0) as [_|Hd]; cbn [negb andb]; [exists p1, gl; by split; [|split; [|split]]|].
  rewrite Eharbor. destruct (Z.eqb_spec (p_HARBOR p) (u32 (Z.lnot 0))); [done|]. cbn [negb assert_]. rstep.
  assert (0 <= type mod 256 < 256) as Ht by (apply Z.mod_pos_bound; lia).
  assert (remote_queue p1 = remote_queue p) as Erq.
  { unfold remote_queue. rewrite Eremote. destruct (p_REMOTE p) as [ra|]; cbn; [|done]. rewrite Ectx. destruct (decide (ctx = ra)) as [<-|Hne].
    - rewrite lookup_insert_eq, Hc. cbn. by rewrite Eq.
    - by rewrite lookup_insert_ne. }
  destruct (skynet_harbor_message_isremote (p_HARBOR p) destination) eqn:Er.
  - pose proof (Hremote eq_refl) as Hrq. cbn [andb].
    destruct (Z.eqb_spec (type mod 256) PTYPE_SYSTEM) as [T1|T1]; [|destruct (Z.eqb_spec (type mod 256) PTYPE_HARBOR) as [T2|T2]]; cbn [orb].
    1-2: unfold skynet_malloc, skynet_harbor_send; cbn [rmsg_sz]; destruct (pack_sz_split (type mod 256) sz Ht) as [-> _]; [lia|];
      rewrite ?T1, ?T2; reflexivity.
    rewrite <- Em. unfold skynet_malloc. set (a := alloc (p_mem p1)).
    set (p2 := with_mem _ p1). destruct (harbor_send_ok p2 m gl Q a (RemoteMessage None destination d (pack_sz (type mod 256) sz)) src s) with (ty := type mod 256) (size := sz)
      as (p3 & gl' & -> & Em3 & EH3 & _ & Hok3); try done.
    { destruct Hrq as [q Hrq]. exists q. change (remote_queue p2) with (remote_queue p1). by rewrite Erq. }
    { lia. }
    rstep. exists p3, gl'. split; [done|]. change (remote_queue p2) with (remote_queue p1) in Hok3. rewrite Erq in Hok3.
    split; [exact Hok3|]. split; [by rewrite EH3|]. rewrite Em3. cbn. by rewrite insert_insert_eq.
  - pose proof (context_push_ok _ _ _ _ _ destination (SkynetMessage src s d (pack_sz (type mod 256) sz)) Hok1) as Hpush.
    assert (queue_of m (p_node p) destination = queue_of m (p_node p1) destination) as ->.
    { unfold queue_of. destruct (m !! destination) as [b|]; cbn; [|done]. rewrite Ectx. destruct (decide (ctx = b)) as [<-|Hne].
      - rewrite lookup_insert_eq, Hc. cbn. by rewrite Eq.
      - by rewrite lookup_insert_ne. }
    unfold queue_of. assert (World (p_node p1) (w_H (p_world p1)) = p_world p1) as Ew by (unfold p_node; by destruct (p_world p1)). rewrite Ew in Hpush.
    destruct (m !! destination) as [b|] eqn:Eb; cbn [mbind option_bind].
    + destruct Hpush as (cb & n' & gl' & Hcb & -> & _ & Hok'); [intros; apply Hroom|]. rstep. rewrite Hcb. cbn [negb Z.eqb].
      eexists _, gl'. split; [done|]. cbn. split; [exact Hok'|]. split; [done|exact Em].
    + rewrite Hpush by done. rstep. cbn [negb Z.eqb].
      rewrite free_ok; cbn [p_mem with_world].
      * rstep. eexists _, gl. split; [done|]. cbn. rewrite Em. split; [exact Hok1|]. by split.
      * rewrite Em. unfold copied. destruct (copies type data); [|by destruct Hdata]. rewrite lookup_insert_ne; [by destruct Hdata|by apply Halloc].
      * rewrite Em. unfold d, copied. destruct (copies type data); [right; rewrite lookup_insert_eq; by eexists|].
        destruct Hdata as [_ [->|(l & -> & _)]]; eauto.
Qed.

End delivery.

(** An allocator: an address that is not in use. *)
Definition fresh_address (mem : gmap Z block) : Z := fresh (C := gset Z) ({[0]} ∪ dom mem).

Lemma fresh_address_ok mem : mem !! fresh_address mem = None /\ fresh_address mem <> 0.
Proof.
  pose proof (is_fresh (C := gset Z) ({[0]} ∪ dom mem)) as H. unfold fresh_address. split.
  - apply not_elem_of_dom. set_solver.
  - intros E. apply H. rewrite E. set_solver.
Qed.

(** Node 1 with one service, which is the harbor. *)
Definition sample_ctx : skynet_context := SkynetContext 1 1 0 None 0 None 0x01000001 0 1 true false.
Definition sample_process : process :=
  Process (World (Node (Heap {[ 0%nat := mq_new 0x01000001 ]} (Some (GlobalQueue None None))) {[ 0%nat := sample_ctx ]} 1) (skynet_handle_init 1))
    {[ 5 := Bytes [104; 105] ]} (skynet_harbor_init 1) (Some 0%nat) 0.

Lemma sample_process_ok : node_ok storage_rep (w_H (p_world sample_process)) (p_node sample_process) ∅ [] (fun _ => []).
Proof.
  constructor.
  - apply (ht_init (rep := storage_rep)).
  - constructor; [by exists (GlobalQueue None None)|]. intros a q H _. cbn in H. apply lookup_singleton_Some in H as [<- <-]. done.
  - intros a c H. cbn in H. apply lookup_singleton_Some in H as [<- <-]. split; [done|]. exists (mq_new 0x01000001). split; [done|]. split; [apply mq_new_rep|done].
Qed.

Lemma send_refines_spec_witness :
  exists p' gl', skynet_send fresh_address 0 0 0x02000008 PTYPE_CLIENT 7 5 2 sample_process = Ok (7, p') /\
    node_ok storage_rep (w_H (p_world p')) (p_node p') ∅ gl'
      (post (Some (0%nat, SkynetMessage 0x01000001 7 (fresh_address (<[fresh_address {[ 5 := Bytes [104; 105] ]} := Bytes [104; 105; 0] ]> {[ 5 := Bytes [104; 105] ]}))
        (pack_sz 3 40))) (fun _ => [])).
Proof.
  assert (remote_queue sample_process = Some 0%nat) as E by reflexivity.
  pose proof (send_refines_spec storage_rep fresh_address sample_process ∅ [] (fun _ => []) 0 sample_ctx 0 0x02000008 PTYPE_CLIENT 7 5 2
    fresh_address_ok sample_process_ok eq_refl) as H.
  destruct H as (p' & gl' & H1 & H2 & _).
  - lia.
  - split; [reflexivity|]. right. exists [104; 105]. split; [reflexivity|]. intros _. vm_compute. discriminate.
  - intros H. destruct H. reflexivity.
  - discriminate.
  - intros _. reflexivity.
  - intros _. exists 0%nat. exact E.
  - exists p', gl'. split; [exact H1|exact H2].
Defined.
