(* ===== verification/Command.v ===== *)
(** * Commands of a service (skynet-src/skynet_server.c, [skynet_command])

    The text commands a service gives to the core: names and handles as text,
    sessions and timers, leaving and killing. A parameter is a C string, [None]
    for [NULL]; a result is the text in [context->result] or the name, [None]
    for [NULL]. The Lua state of skynet-src/skynet_env.c is a map from names to
    strings. Starting a service (Dispatch.v) and opening a log file are
    parameters; what a command asks of the timer, the files and the modules is
    a list of requests. *)
From S2P Require Import Prelude CString MessageQueue Context Handle HandleTable Server Send.

(** What a command asks of the timer, of a log file and of a module. *)
Inductive request : Set :=
| Timeout (handle time session : Z)
| LogClose (f handle : Z)
| Signal (m inst signal : Z).

Definition answer : Type := result (option (list Z) * list request * process).

(** ** Text *)

(** [sscanf(param, "%s %s", name, handle)]: an array that is not written stays uninitialised. *)
Definition scan_words (param : list Z) : option (list Z) * option (list Z) :=
  match scan_word param with
  | None => (None, None)
  | Some (name, r) => (Some name, fst <$> scan_word r)
  end.

(** ** Leaving *)

Definition handle_exit (alloc : gmap Z block -> Z) (a : nat) (handle : Z) (p : process) : result process :=
  c ← deref (n_ctx (p_node p) !! a);
  let handle := if handle =? 0 then c_handle c else handle in
  p ← (if negb (p_monitor_exit p =? 0) then
         '(_, p) ← skynet_send alloc a handle (p_monitor_exit p) PTYPE_CLIENT 0 0 0 p; Ok p
       else Ok p);
  '(_, n, H) ← skynet_handle_retire handle (p_node p) (w_H (p_world p));
  Ok (with_world (World n H) p).

Definition tohandle (param : list Z) (p : process) : result Z :=
  match param with
  | 58 :: hex => Ok (strtoul16 hex)
  | 46 :: name => skynet_handle_findname name (w_H (p_world p))
  | _ => Ok 0
  end.

(** ** Commands *)

Definition cmd_timeout (a : nat) (param : option (list Z)) (p : process) : answer :=
  param ← deref param;
  c ← deref (n_ctx (p_node p) !! a);
  let ti := s32 (strtol10 param) in
  let '(session, c) := skynet_context_newsession c in
  Ok (Some (dec session), [Timeout (c_handle c) ti session], with_node (put_ctx a c (p_node p)) p).

Definition cmd_reg (a : nat) (param : option (list Z)) (p : process) : answer :=
  c ← deref (n_ctx (p_node p) !! a);
  match param with
  | None | Some [] => Ok (Some (58 :: hex (c_handle c)), [], p)
  | Some (46 :: name) =>
      '(r, H) ← skynet_handle_namehandle (c_handle c) name (w_H (p_world p));
      Ok (r, [], with_world (World (p_node p) H) p)
  | _ => Ok (None, [], p)
  end.

Definition cmd_query (param : option (list Z)) (p : process) : answer :=
  param ← deref param;
  match param with
  | 46 :: name =>
      handle ← skynet_handle_findname name (w_H (p_world p));
      Ok (if negb (handle =? 0) then Some (58 :: hex handle) else None, [], p)
  | _ => Ok (None, [], p)
  end.

Definition cmd_name (param : option (list Z)) (p : process) : answer :=
  param ← deref param;
  let '(name, handle) := scan_words param in
  handle ← deref handle;
  match handle with
  | 58 :: hex =>
      let handle_id := strtoul16 hex in
      if handle_id =? 0 then Ok (None, [], p)
      else
        name ← deref name;
        match name with
        | 46 :: name =>
            '(r, H) ← skynet_handle_namehandle handle_id name (w_H (p_world p));
            Ok (r, [], with_world (World (p_node p) H) p)
        | _ => Ok (None, [], p)
        end
  | _ => Ok (None, [], p)
  end.

Definition cmd_exit (alloc : gmap Z block -> Z) (a : nat) (p : process) : answer :=
  p ← handle_exit alloc a 0 p; Ok (None, [], p).

Definition cmd_kill (alloc : gmap Z block -> Z) (a : nat) (param : option (list Z)) (p : process) : answer :=
  param ← deref param;
  handle ← tohandle param p;
  p ← (if negb (handle =? 0) then handle_exit alloc a handle p else Ok p);
  Ok (None, [], p).

(** [starttime] is the second the timer started at. *)
Definition cmd_starttime (starttime : Z) (p : process) : answer := Ok (Some (dec starttime), [], p).

Definition cmd_endless (a : nat) (p : process) : answer :=
  c ← deref (n_ctx (p_node p) !! a);
  if c_endless c then Ok (Some [49], [], with_node (put_ctx a (set_endless false c) (p_node p)) p)
  else Ok (None, [], p).

(** [fuel] bounds the sweeps of [skynet_handle_retireall]. *)
Definition cmd_abort (fuel : nat) (p : process) : answer :=
  '(n, H) ← skynet_handle_retireall fuel (p_node p) (w_H (p_world p));
  Ok (None, [], with_world (World n H) p).

Definition cmd_monitor (param : option (list Z)) (p : process) : answer :=
  match param with
  | None | Some [] =>
      Ok (if negb (p_monitor_exit p =? 0) then Some (58 :: hex (p_monitor_exit p)) else None, [], p)
  | Some param =>
      handle ← tohandle param p;
      Ok (None, [], Process (p_world p) (p_mem p) (p_HARBOR p) (p_REMOTE p) handle)
  end.

Definition cmd_mqlen (a : nat) (p : process) : answer :=
  c ← deref (n_ctx (p_node p) !! a);
  q ← deref (h_queues (n_mq (p_node p)) !! c_queue c);
  Ok (Some (dec (skynet_mq_length q)), [], p).

(** [':'] and eight digits. *)
Definition id_to_hex (id : Z) : list Z :=
  58 :: ((fun i => let d := Z.land (Z.shiftr id ((7 - Z.of_nat i) * 4)) 0xf in if d <? 10 then 48 + d else 55 + d) <$> seq 0 8).

(** The string up to the first byte of [delim], and what is behind it. *)
Fixpoint strsep (delim s : list Z) : list Z * option (list Z) :=
  match s with
  | [] => ([], None)
  | c :: s => if bool_decide (c ∈ delim) then ([], Some s) else let '(w, r) := strsep delim s in (c :: w, r)
  end.

(** Module and arguments of LAUNCH. *)
Definition launch_args (param : list Z) : list Z * option (list Z) :=
  let '(md, args) := strsep [32; 9; 13; 10] param in
  (md, args ← args; Some (fst (strsep [13; 10] args))).

(** [strtol(param, NULL, 0)] *)
Fixpoint oct_loop (s : list Z) (acc : Z) : Z :=
  match s with
  | c :: s => if (48 <=? c) && (c <=? 55) then oct_loop s (Z.min (acc * 8 + (c - 48)) (2 ^ 63)) else acc
  | [] => acc
  end.

Definition strtol0 (s : list Z) : Z :=
  let '(neg, s) := match skip_space s with
                   | c :: s' => if c =? 45 then (true, s') else if c =? 43 then (false, s') else (false, c :: s')
                   | [] => (false, [])
                   end in
  let v := if bool_decide (hex_prefix s <> s) then hex_digits (hex_prefix s) 0
           else match s with 48 :: s => oct_loop s 0 | _ => dec_loop s 0 end in
  if neg : bool then - Z.min v (2 ^ 63) else Z.min v (2 ^ 63 - 1).

Fixpoint after_space (s : list Z) : option (list Z) :=
  match s with
  | [] => None
  | c :: s' => if c =? 32 then Some s else after_space s'
  end.

Definition set_logfile (f : option Z) (c : skynet_context) : skynet_context :=
  SkynetContext (c_instance c) (c_mod c) (c_cb_ud c) (c_cb c) (c_queue c) f (c_handle c)
    (c_session_id c) (c_ref c) (c_init c) (c_endless c).

(** [skynet_log_open] returned [f]. *)
Definition cmd_logon (skynet_log_open : Z -> option Z) (param : option (list Z)) (p : process) : answer :=
  param ← deref param;
  handle ← tohandle param p;
  if handle =? 0 then Ok (None, [], p)
  else
    '(ctx, n) ← skynet_handle_grab handle (p_node p) (w_H (p_world p));
    match ctx with
    | None => Ok (None, [], with_node n p)
    | Some a =>
        c ← deref (n_ctx n !! a);
        let n := match c_logfile c with
                 | None => match skynet_log_open handle with
                           | Some f => put_ctx a (set_logfile (Some f) c) n
                           | None => n
                           end
                 | Some _ => n
                 end in
        '(_, n) ← skynet_context_release a n;
        Ok (None, [], with_node n p)
    end.

Definition cmd_logoff (param : option (list Z)) (p : process) : answer :=
  param ← deref param;
  handle ← tohandle param p;
  if handle =? 0 then Ok (None, [], p)
  else
    '(ctx, n) ← skynet_handle_grab handle (p_node p) (w_H (p_world p));
    match ctx with
    | None => Ok (None, [], with_node n p)
    | Some a =>
        c ← deref (n_ctx n !! a);
        let '(r, n) := match c_logfile c with
                       | Some f => ([LogClose f handle], put_ctx a (set_logfile None c) n)
                       | None => ([], n)
                       end in
        '(_, n) ← skynet_context_release a n;
        Ok (None, r, with_node n p)
    end.

Definition cmd_signal (param : option (list Z)) (p : process) : answer :=
  param ← deref param;
  handle ← tohandle param p;
  if handle =? 0 then Ok (None, [], p)
  else
    '(ctx, n) ← skynet_handle_grab handle (p_node p) (w_H (p_world p));
    match ctx with
    | None => Ok (None, [], with_node n p)
    | Some a =>
        c ← deref (n_ctx n !! a);
        let sig := match after_space param with Some s => s32 (strtol0 s) | None => 0 end in
        '(_, n) ← skynet_context_release a n;
        Ok (None, [Signal (c_mod c) (c_instance c) sig], with_node n p)
    end.

(** ** The environment and the table of commands *)

Record system : Set := System {
  sy_process : process;
  sy_env : gmap (list Z) (list Z)
}.

Definition skynet_getenv (key : list Z) (s : system) : option (list Z) := sy_env s !! key.

Definition skynet_setenv (key value : list Z) (s : system) : result system :=
  _ ← assert_ (bool_decide (sy_env s !! key = None));
  Ok (System (sy_process s) (<[key := value]> (sy_env s))).

(** The name and the value, [None] without a space. *)
Fixpoint split_key (param : list Z) : option (list Z * list Z) :=
  match param with
  | [] => None
  | c :: param => if c =? 32 then Some ([], param) else '(key, value) ← split_key param; Some (c :: key, value)
  end.

Definition outcome : Type := result (option (list Z) * list request * system).

Definition cmd_getenv (param : option (list Z)) (s : system) : outcome :=
  param ← deref param; Ok (skynet_getenv param s, [], s).

Definition cmd_setenv (param : option (list Z)) (s : system) : outcome :=
  param ← deref param;
  match split_key param with
  | None => Ok (None, [], s)
  | Some (key, value) => s ← skynet_setenv key value s; Ok (None, [], s)
  end.

(** A command that only works on the process. *)
Definition on_process (f : process -> answer) (s : system) : outcome :=
  '(r, q, p) ← f (sy_process s); Ok (r, q, System p (sy_env s)).

Section commands.
Context (alloc : gmap Z block -> Z) (starttime : Z) (sweeps : nat) (skynet_log_open : system -> Z -> option Z)
  (skynet_context_new : list Z -> option (list Z) -> system -> result (option nat * list request * system)).

Definition cmd_launch (param : option (list Z)) (s : system) : outcome :=
  param ← deref param;
  let '(md, args) := launch_args param in
  '(inst, q, s) ← skynet_context_new md args s;
  match inst with
  | None => Ok (None, q, s)
  | Some a => c ← deref (n_ctx (p_node (sy_process s)) !! a); Ok (Some (id_to_hex (c_handle c)), q, s)
  end.

Definition cmd_funcs (a : nat) : list (list Z * (option (list Z) -> system -> outcome)) := [
  (of_string "TIMEOUT", fun param => on_process (cmd_timeout a param));
  (of_string "REG", fun param => on_process (cmd_reg a param));
  (of_string "QUERY", fun param => on_process (cmd_query param));
  (of_string "NAME", fun param => on_process (cmd_name param));
  (of_string "EXIT", fun _ => on_process (cmd_exit alloc a));
  (of_string "KILL", fun param => on_process (cmd_kill alloc a param));
  (of_string "LAUNCH", cmd_launch);
  (of_string "GETENV", cmd_getenv);
  (of_string "SETENV", cmd_setenv);
  (of_string "STARTTIME", fun _ => on_process (cmd_starttime starttime));
  (of_string "ENDLESS", fun _ => on_process (cmd_endless a));
  (of_string "ABORT", fun _ => on_process (cmd_abort sweeps));
  (of_string "MONITOR", fun param => on_process (cmd_monitor param));
  (of_string "MQLEN", fun _ => on_process (cmd_mqlen a));
  (of_string "LOGON", fun param s => on_process (cmd_logon (skynet_log_open s) param) s);
  (of_string "LOGOFF", fun param => on_process (cmd_logoff param));
  (of_string "SIGNAL", fun param => on_process (cmd_signal param))
].

Fixpoint find_command (cmd : list Z) (l : list (list Z * (option (list Z) -> system -> outcome))) (param : option (list Z)) (s : system) : outcome :=
  match l with
  | [] => Ok (None, [], s)
  | (name, func) :: l => if strcmp cmd name =? 0 then func param s else find_command cmd l param s
  end.

(** The service [a] gives the command [cmd]. *)
Definition skynet_command (a : nat) (cmd : list Z) (param : option (list Z)) (s : system) : outcome :=
  find_command cmd (cmd_funcs a) param s.

(** Commands of any services, one after the other. *)
Fixpoint run_commands (l : list (nat * list Z * option (list Z))) (s : system) : result system :=
  match l with
  | [] => Ok s
  | (a, cmd, param) :: l => '(_, _, s) ← skynet_command a cmd param s; run_commands l s
  end.

End commands.

(** ** Handles as text *)

Definition hex_char (c : Z) : Prop := 48 <= c <= 57 \/ 97 <= c <= 102.

Lemma hex_digit_char d : 0 <= d < 16 -> hex_digit (if d <? 10 then 48 + d else 87 + d) = Some d /\ hex_char (if d <? 10 then 48 + d else 87 + d).
Proof.
  intros Hd. unfold hex_digit, hex_char. destruct (Z.ltb_spec d 10); zprune; split; try lia; f_equal; lia.
Qed.

(** Reading the digits of [n] after those of [acc]. *)
Lemma hex_loop_spec fuel : forall n k, 0 <= n < 16 ^ Z.of_nat fuel -> (0 < fuel)%nat ->
  exists d ds, hex_loop fuel n k = (d :: ds) ++ k /\ Forall hex_char (d :: ds) /\
    forall v t, 0 <= v -> v * 16 ^ zlen (d :: ds) + n < 2 ^ 64 -> hex_digits ((d :: ds) ++ t) v = hex_digits t (v * 16 ^ zlen (d :: ds) + n).
Proof.
  induction fuel as [|fuel IH]; intros n k Hn Hf; [lia|]. cbn [hex_loop].
  destruct (hex_digit_char (n mod 16)) as [Ed Ec]; [dlia|]. set (c := if n mod 16 <? 10 then _ else _) in *. destruct (Z.ltb_spec n 16).
  - exists c, []. split; [done|]. split; [by constructor|]. intros v t Hv Hb. cbn [app hex_digits]. rewrite Ed. change (zlen [c]) with 1 in *.
    rewrite Z.mod_small by lia. f_equal. lia.
  - assert (16 ^ Z.of_nat (S fuel) = 16 * 16 ^ Z.of_nat fuel) as E by (rewrite Nat2Z.inj_succ, Z.pow_succ_r; lia). rewrite E in Hn.
    destruct fuel as [|fuel]; [cbn in Hn; lia|].
    destruct (IH (n / 16) (c :: k)) as (d & ds & E1 & H1 & H2); [dlia|lia|].
    exists d, (ds ++ [c]). split; [rewrite E1; cbn; by rewrite <- app_assoc|]. split; [rewrite app_comm_cons; apply Forall_app; split; [done|by constructor]|].
    intros v t Hv Hb. rewrite app_comm_cons, zlen_app in *. change (zlen [c]) with 1 in *. rewrite Z.pow_add_r in * by (try apply zlen_nonneg; lia).
    rewrite <- app_assoc. assert (0 <= v * 16 ^ zlen (d :: ds)) by (apply Z.mul_nonneg_nonneg; [done|apply Z.pow_nonneg; lia]).
    rewrite H2 by dlia. cbn [app hex_digits]. rewrite Ed. f_equal. dlia.
Qed.

Lemma hex_spec n : is_u32 n -> exists d ds, hex n = d :: ds /\ Forall hex_char (d :: ds) /\ hex_digits (d :: ds) 0 = n.
Proof.
  intros Hn. unfold is_u32 in Hn. destruct (hex_loop_spec 8 n []) as (d & ds & E & H1 & H2); [lia|lia|]. rewrite app_nil_r in E.
  exists d, ds. split; [done|]. split; [done|]. specialize (H2 0 []). rewrite app_nil_r in H2. rewrite H2 by lia. change (hex_digits [] ?v) with v. lia.
Qed.

(** [strtoul] reads back what [%x] prints. *)
Lemma strtoul_hex n : is_u32 n -> strtoul16 (hex n) = n.
Proof.
  intros Hn. destruct (hex_spec n Hn) as (d & ds & -> & Hd & Hv). pose proof Hd as Hd'. apply Forall_cons in Hd' as [Hd1 Hds].
  unfold strtoul16. assert (skip_space (d :: ds) = d :: ds) as ->. { unfold hex_char in Hd1. cbn. zprune; done || lia. }
  assert (hex_prefix (d :: ds) = d :: ds) as Ep.
  { destruct ds as [|x [|y ds]]; [done..|]. apply Forall_cons in Hds as [Hx _]. unfold hex_char in Hx. cbn [hex_prefix].
    destruct (Z.eqb_spec x 120), (Z.eqb_spec x 88); try lia. by rewrite andb_false_r. }
  assert (u32 n = n) as Eu by by apply u32_small. unfold is_u32 in Hn. unfold hex_char in Hd1.
  destruct (Z.eqb_spec d 45), (Z.eqb_spec d 43); try lia. rewrite Ep, Hv. by destruct (Z.ltb_spec (2 ^ 64 - 1) n); [lia|].
Qed.

(** ** Names as text *)

Definition not_space (c : Z) : Prop := (c =? 32) || ((9 <=? c) && (c <=? 13)) = false.

Lemma take_word_spec w r : Forall not_space w -> (r = [] \/ exists r', r = 32 :: r') -> take_word (w ++ r) = (w, r).
Proof.
  intros Hw Hr. induction Hw as [|c w Hc Hw IH]; cbn [app take_word]; [by destruct Hr as [->|[r' ->]]|]. unfold not_space in Hc. by rewrite Hc, IH.
Qed.

Lemma skip_space_word c w : not_space c -> skip_space (c :: w) = c :: w.
Proof. unfold not_space. cbn. by intros ->. Qed.

(** A local name and a handle, as NAME takes them. *)
Definition name_param (name : list Z) (h : Z) : list Z := 46 :: name ++ 32 :: 58 :: hex h.

Lemma scan_name_param name h : is_u32 h -> Forall not_space name -> scan_words (name_param name h) = (Some (46 :: name), Some (58 :: hex h)).
Proof.
  intros Hh Hn. unfold scan_words, name_param, scan_word. rewrite skip_space_word by done.
  change (46 :: name ++ ?r) with ((46 :: name) ++ r). rewrite (take_word_spec (46 :: name)); [|by constructor|right; by eexists]. change (skip_space (32 :: 58 :: hex h)) with (58 :: hex h).
  destruct (hex_spec h Hh) as (d & ds & E & Hd & _). rewrite E. rewrite <- (app_nil_r (58 :: d :: ds)), take_word_spec; [by rewrite app_nil_r| |by left].
  constructor; [done|]. eapply Forall_impl; [exact Hd|]. unfold hex_char, not_space. intros c Hc. zprune; done || lia.
Qed.

(** C17. Handles and local names work as text: the handle printed as [:%x] is
    read back by every function that takes an address, and once NAME has bound
    a free name, QUERY prints the handle, the name is resolved to it, messages
    sent to the name go to the handle, and all other names keep their meaning. *)
Theorem name_command_binds (p : process) (l : list handle_name) (name : list Z) (h : Z)
  (Hrep : names_rep (w_H (p_world p)) l) (Hok : names_ok l) (Hlen : zlen l < 2 ^ 29) (Hname : cstring name) (Hsp : Forall not_space name)
  (Hnew : name ∉ hn_name <$> l) (Hh : is_u32 h) (H0 : h <> 0) :
  exists p', cmd_name (Some (name_param name h)) p = Ok (Some name, [], p') /\
    p_mem p' = p_mem p /\ p_node p' = p_node p /\
    cmd_query (Some (46 :: name)) p' = Ok (Some (58 :: hex h), [], p') /\
    skynet_queryname (58 :: hex h) p' = Ok h /\
    (forall name', cstring name' -> skynet_queryname (46 :: name') p' = if bool_decide (name' = name) then Ok h else skynet_queryname (46 :: name') p) /\
    (forall alloc ctx source type session data sz, source <> 0 ->
      skynet_sendname alloc ctx source (46 :: name) type session data sz p' = skynet_send alloc ctx source h type session data sz p' /\
      skynet_sendname alloc ctx source (58 :: hex h) type session data sz p' = skynet_send alloc ctx source h type session data sz p').
Proof.
  destruct (namehandle_rep (w_H (p_world p)) l name h) as (s' & E & Hpost); [done..|]. rewrite bool_decide_false in E by done.
  destruct (Hpost Hnew) as (l' & H1 & H2 & _ & H3).
  assert (Hfind : forall name', cstring name' -> skynet_handle_findname name' s' = Ok (if bool_decide (name' = name) then h else name_lookup name' l)).
  { intros name' Hn'. rewrite (findname_rep s' l') by done. by rewrite H3. }
  assert (Hself : skynet_handle_findname name s' = Ok h) by (rewrite Hfind by done; by rewrite bool_decide_true).
  exists (with_world (World (p_node p) s') p). split.
  { unfold cmd_name. cbn [deref]. rstep. rewrite scan_name_param by done. cbn [deref]. rstep. rewrite strtoul_hex by done.
    destruct (Z.eqb_spec h 0); [done|]. rewrite E. by rstep. }
  split; [done|]. split; [done|]. split.
  { unfold cmd_query. cbn [deref]. rstep. cbn [p_world with_world w_H]. rewrite Hself. rstep. by destruct (Z.eqb_spec h 0). }
  split; [cbn [skynet_queryname]; by rewrite strtoul_hex|]. split.
  - intros name' Hn'. cbn [skynet_queryname p_world with_world w_H]. rewrite Hfind by done. rewrite (findname_rep _ l) by done. by case_bool_decide.
  - intros alloc ctx source type session data sz Hs. unfold skynet_sendname. destruct (Z.eqb_spec source 0); [done|]. rstep.
    cbn [p_world with_world w_H]. rewrite Hself. rstep. rewrite strtoul_hex by done. destruct (Z.eqb_spec h 0); done.
Qed.

Lemma name_command_binds_witness :
  exists p', cmd_name (Some (of_string ".db :1000001")) sample_process = Ok (Some (of_string "db"), [], p') /\
    cmd_query (Some (of_string ".db")) p' = Ok (Some (of_string ":1000001"), [], p').
Proof.
  destruct (name_command_binds sample_process [] (of_string "db") 0x1000001) as (p' & E & _ & _ & Q & _).
  - apply init_names_rep.
  - split; constructor.
  - reflexivity.
  - repeat constructor.
  - repeat constructor.
  - intros H. inversion H.
  - unfold is_u32. lia.
  - discriminate.
  - exists p'. split; [exact E|exact Q].
Defined.

(** ** The environment *)

Section environment.
Context (alloc : gmap Z block -> Z) (starttime : Z) (sweeps : nat) (skynet_log_open : system -> Z -> option Z)
  (skynet_context_new : list Z -> option (list Z) -> system -> result (option nat * list request * system)).
Context (Hnew : forall md args s r q s', skynet_context_new md args s = Ok (r, q, s') -> sy_env s ⊆ sy_env s').

Lemma on_process_env f s r q s' : on_process f s = Ok (r, q, s') -> sy_env s' = sy_env s.
Proof. unfold on_process. destruct (f (sy_process s)) as [[[r0 q0] p]| |]; [|done..]. rstep. by intros [= <- <- <-]. Qed.

Lemma skynet_setenv_spec key value s : skynet_setenv key value s =
  match sy_env s !! key with None => Ok (System (sy_process s) (<[key := value]> (sy_env s))) | Some _ => Fault end.
Proof. unfold skynet_setenv. by destruct (sy_env s !! key). Qed.

Lemma command_env a cmd param s r q s' :
  skynet_command alloc starttime sweeps skynet_log_open skynet_context_new a cmd param s = Ok (r, q, s') -> sy_env s ⊆ sy_env s'.
Proof using Hnew.
  unfold skynet_command. cut (Forall (fun f : list Z * (option (list Z) -> system -> outcome) => forall param r q s', f.2 param s = Ok (r, q, s') -> sy_env s ⊆ sy_env s')
    (cmd_funcs alloc starttime sweeps skynet_log_open skynet_context_new a)).
  { generalize (cmd_funcs alloc starttime sweeps skynet_log_open skynet_context_new a) as l. induction 1 as [|[name f] l Hf Hl IH]; cbn [find_command]; [by intros [= <- <- <-]|].
    destruct (strcmp cmd name =? 0); [apply Hf|apply IH]. }
  unfold cmd_funcs. repeat (apply Forall_cons; split); try apply Forall_nil; try exact I; cbn [snd]; intros prm r0 q0 s0 H;
    try (apply on_process_env in H; by rewrite H).
  - unfold cmd_launch in H. destruct prm as [prm|]; [|done]. cbn [deref] in H. cbn [mbind result_bind] in H. destruct (launch_args prm) as [md args].
    destruct (skynet_context_new md args s) as [[[inst q1] s1]| |] eqn:E; [|done..]. apply Hnew in E. cbn in H. destruct inst as [b|]; [|by injection H as <- <- <-].
    destruct (n_ctx _ !! b); [|done]. by injection H as <- <- <-.
  - unfold cmd_getenv in H. destruct prm; [|done]. by injection H as <- <- <-.
  - unfold cmd_setenv in H. destruct prm as [prm|]; [|done]. cbn [deref] in H. cbn [mbind result_bind] in H. destruct (split_key prm) as [[key value]|]; [|by injection H as <- <- <-].
    rewrite skynet_setenv_spec in H. destruct (sy_env s !! key) eqn:E; [done|]. cbn in H. injection H as <- <- <-. cbn. by apply insert_subseteq.
Qed.

Lemma run_commands_env l : forall s s', run_commands alloc starttime sweeps skynet_log_open skynet_context_new l s = Ok s' -> sy_env s ⊆ sy_env s'.
Proof using Hnew.
  induction l as [|[[a cmd] param] l IH]; intros s s'; cbn [run_commands]; [by intros [= <-]|].
  destruct (skynet_command _ _ _ _ _ a cmd param s) as [[[r q] s1]| |] eqn:E; [|done..]. cbn [mbind result_bind]. intros H. etransitivity; [by eapply command_env|by apply IH].
Qed.

End environment.

Lemma split_key_spec key value : Forall (fun c => c <> 32) key -> split_key (key ++ 32 :: value) = Some (key, value).
Proof. induction 1 as [|c key Hc Hk IH]; cbn [app split_key]; [done|]. destruct (Z.eqb_spec c 32); [done|]. by rewrite IH. Qed.

(** The environment is written once: SETENV of a new name stores its value,
    from then on GETENV returns that value, for every service and whatever
    commands are given in between, and another SETENV of the name fails its
    assertion. *)
Theorem environment_write_once (alloc : gmap Z block -> Z) (starttime : Z) (sweeps : nat) (skynet_log_open : system -> Z -> option Z)
  (skynet_context_new : list Z -> option (list Z) -> system -> result (option nat * list request * system))
  (Hnew : forall md args s r q s', skynet_context_new md args s = Ok (r, q, s') -> sy_env s ⊆ sy_env s')
  (a : nat) (key value : list Z) (s : system) (Hkey : Forall (fun c => c <> 32) key) (Hfree : skynet_getenv key s = None) :
  let command := skynet_command alloc starttime sweeps skynet_log_open skynet_context_new in
  exists s1, command a (of_string "SETENV") (Some (key ++ 32 :: value)) s = Ok (None, [], s1) /\
    forall l s2, run_commands alloc starttime sweeps skynet_log_open skynet_context_new l s1 = Ok s2 ->
      forall b, command b (of_string "GETENV") (Some key) s2 = Ok (Some value, [], s2) /\
        forall value', command b (of_string "SETENV") (Some (key ++ 32 :: value')) s2 = Fault.
Proof.
  cbn zeta. assert (Hset : forall a value s, skynet_command alloc starttime sweeps skynet_log_open skynet_context_new a (of_string "SETENV") (Some (key ++ 32 :: value)) s =
    (s ← skynet_setenv key value s; Ok (None, [], s))).
  { intros. change (cmd_setenv (Some (key ++ 32 :: value0)) s0 = (s ← skynet_setenv key value0 s0; Ok (None, [], s))). unfold cmd_setenv. cbn [deref mbind result_bind].
    by rewrite split_key_spec. }
  rewrite Hset, skynet_setenv_spec. unfold skynet_getenv in Hfree. rewrite Hfree. cbn [mbind result_bind]. eexists. split; [done|]. intros l s2 Hrun b.
  apply run_commands_env in Hrun; [|done]. cbn [sy_env] in Hrun. assert (sy_env s2 !! key = Some value) as E by (eapply lookup_weaken; [apply lookup_insert_eq|done]).
  split; [|intros value'; by rewrite Hset, skynet_setenv_spec, E]. change (cmd_getenv (Some key) s2 = Ok (Some value, [], s2)). unfold cmd_getenv, skynet_getenv. cbn [deref mbind result_bind]. by rewrite E.
Qed.

(** A service sets a variable, takes a name and asks for another variable. *)
Theorem environment_write_once_witness :
  let command := skynet_command fresh_address 1500000000 4 (fun _ _ => None) (fun _ _ s => Ok (None, [], s)) in
  exists s1 s2, command 0%nat (of_string "SETENV") (Some (of_string "daemon ./skynet.pid")) (System sample_process ∅) = Ok (None, [], s1) /\
    run_commands fresh_address 1500000000 4 (fun _ _ => None) (fun _ _ s => Ok (None, [], s)) [(0%nat, of_string "REG", Some (of_string ".main")); (0%nat, of_string "GETENV", Some (of_string "start"))] s1 = Ok s2 /\
    command 0%nat (of_string "GETENV") (Some (of_string "daemon")) s2 = Ok (Some (of_string "./skynet.pid"), [], s2).
Proof.
  destruct (environment_write_once fresh_address 1500000000 4 (fun _ _ => None) (fun _ _ s => Ok (None, [], s))) with
    (a := 0%nat) (key := of_string "daemon") (value := of_string "./skynet.pid") (s := System sample_process ∅) as (s1 & E & H).
  - by intros md args s r q s' [= <- <- <-].
  - cbv. repeat (constructor; [discriminate|]). constructor.
  - reflexivity.
  - assert (exists s2, run_commands fresh_address 1500000000 4 (fun _ _ => None) (fun _ _ s => Ok (None, [], s))
      [(0%nat, of_string "REG", Some (of_string ".main")); (0%nat, of_string "GETENV", Some (of_string "start"))] s1 = Ok s2) as [s2 E2].
    { assert (match run_commands fresh_address 1500000000 4 (fun _ _ => None) (fun _ _ s => Ok (None, [], s))
        [(0%nat, of_string "REG", Some (of_string ".main")); (0%nat, of_string "GETENV", Some (of_string "start"))] s1 with Ok _ => True | _ => False end) as Hr.
      { injection E as <-. vm_compute. exact I. }
      destruct (run_commands _ _ _ _ _ _ s1) as [s2| |]; [by exists s2|destruct Hr..]. }
    exists s1, s2. split; [exact E|]. split; [exact E2|]. by apply (H _ _ E2).
Defined.
