(* ===== verification/Dispatch.v ===== *)
(** * The dispatcher as interleaved steps (skynet-src/skynet_server.c, skynet_start.c)

    The worker threads in [skynet_context_message_dispatch] and the calls that
    run beside them (sending, launching, killing, holding a context), cut at
    their atomic sections: what is between two locks of a queue, of the global
    list or of the handle table, or is one atomic operation on [ref]. A
    [frame] is the program point of one such call with its local variables;
    [run_frame] executes it up to the next point, and [step] lets any frame of
    a configuration run next. *)
From S2P Require Import Prelude CString MessageQueue Context Handle HandleTable Server.

(** ** Data *)

(** What happened to the queue at address [q]: a message was put into it, was
    taken out for the callback, or was taken out to be dropped. *)
Inductive event : Set :=
| EvPush (q : nat) (m : skynet_message)
| EvPop (q : nat) (m : skynet_message)
| EvDrop (q : nat) (m : skynet_message).

(** The process with the history of its queues; [sc_harbor] and [sc_REMOTE] are
    the statics [HARBOR] and [REMOTE] of skynet_harbor.c. *)
Record sched : Set := Sched {
  sc_world : world;
  sc_harbor : Z;
  sc_REMOTE : option nat;
  sc_log : list event
}.

Definition sc_node (s : sched) : node := w_node (sc_world s).
Definition sc_H (s : sched) : handle_storage := w_H (sc_world s).

(** Where [skynet_mq_release] returns to: the worker with this weight, or [skynet_context_new]. *)
Inductive cont : Set :=
| CWorker (weight : Z)
| CDone.

Inductive frame : Set :=
(** [skynet_context_message_dispatch(sm, q, weight)]: at its entry, with a
    queue, in its loop before [skynet_mq_pop], after it, in the callback,
    after the loop, before [skynet_globalmq_push], before the two calls of
    [skynet_context_release], and before [return skynet_globalmq_pop()]. *)
| Dispatch (weight : Z) (q : option nat)
| HaveQueue (weight : Z) (q : nat)
| Loop (weight : Z) (q a : nat) (i n : Z)
| Popped (weight : Z) (q a : nat) (i n : Z) (m : skynet_message)
| Callback (weight : Z) (q a : nat) (i n : Z) (m : skynet_message)
| LoopEnd (weight : Z) (q a : nat)
| PushBack (weight : Z) (q a nq : nat)
| ReturnNext (weight : Z) (a nq : nat)
| QueueEmpty (weight : Z) (a : nat)
| ReturnPop (weight : Z)
(** [skynet_mq_release] and its loop [_drop_queue]. *)
| MqRelease (q : nat) (k : cont)
| MqDrop (q : nat) (k : cont)
(** [skynet_context_push] of one message; a context that is grabbed for other
    reasons receives no message, and a reserved one several, through [skynet_context_send]. *)
| Grab (h : Z) (ms : list skynet_message)
| Holding (a : nat) (ms : list skynet_message)
(** [skynet_harbor_send] of this message to the harbor service. *)
| ToHarbor (m : skynet_message)
(** [skynet_handle_retire], before and after it releases the table. *)
| Retire (h : Z)
| Retired (a : nat)
(** [skynet_context_new]; [a] and [q] are the addresses the allocator returns for
    the context and its queue. At its entry, before [ctx->handle] gets the handle
    [h], before the queue is created, before [context_inc], in the init function,
    before [ctx->init = true], before [skynet_globalmq_push] and before
    [skynet_error], which reads the context [ret]; when the init function failed,
    before [skynet_handle_retire] and before the release in it. *)
| New (a q : nat)
| Registered (a q : nat) (h : Z)
| Stored (a q : nat)
| Queued (a q : nat)
| Init (a q : nat)
| Started (a q : nat)
| Launched (ret : option nat) (q : nat)
| Report (ret : nat)
| InitFailed (h : Z) (q : nat)
| FailRetired (a q : nat).

(** ** Operations *)

Definition with_node (n : node) (s : sched) : sched := Sched (World n (sc_H s)) (sc_harbor s) (sc_REMOTE s) (sc_log s).
Definition with_H (H : handle_storage) (s : sched) : sched := Sched (World (sc_node s) H) (sc_harbor s) (sc_REMOTE s) (sc_log s).
Definition with_mq (h : heap) (s : sched) : sched := with_node (Node h (n_ctx (sc_node s)) (n_total (sc_node s))) s.
Definition log_event (e : event) (s : sched) : sched := Sched (sc_world s) (sc_harbor s) (sc_REMOTE s) (sc_log s ++ [e]).

Definition set_init (b : bool) (c : skynet_context) : skynet_context :=
  SkynetContext (c_instance c) (c_mod c) (c_cb_ud c) (c_cb c) (c_queue c) (c_logfile c) (c_handle c)
    (c_session_id c) (c_ref c) b (c_endless c).

Definition skynet_callback (ud : Z) (cb : option Z) (c : skynet_context) : skynet_context :=
  SkynetContext (c_instance c) (c_mod c) ud cb (c_queue c) (c_logfile c) (c_handle c)
    (c_session_id c) (c_ref c) (c_init c) (c_endless c).

(** The message the drop function sends: [PTYPE_ERROR], no data, session 0. *)
Definition error_message (source : Z) : skynet_message := SkynetMessage source 0 0 (pack_sz PTYPE_ERROR 0).

(** The same for another node: its data are a [remote_message] of 40 bytes, a
    block that is known by when it was allocated. *)
Definition remote_error_message (source : Z) (s : sched) : skynet_message :=
  SkynetMessage source 0 (zlen (sc_log s) + 1) (pack_sz PTYPE_ERROR 40).

(** [drop_message]: the reply to the sender of a dropped message, through
    [skynet_send]: nothing for sender 0, through the harbor service for a sender
    on another node. *)
Definition drop_message (source : Z) (m : skynet_message) (s : sched) : result (list frame) :=
  _ ← assert_ (negb (source =? 0));
  if m_source m =? 0 then Ok []
  else if skynet_harbor_message_isremote (sc_harbor s) (m_source m) then Ok [ToHarbor (remote_error_message source s)]
  else Ok [Grab (m_source m) [error_message source]].

Definition resume (k : cont) : list frame :=
  match k with CWorker weight => [ReturnPop weight] | CDone => [] end.

(** [q = skynet_globalmq_pop(); if (q==NULL) return NULL;] and [skynet_handle_grab(handle)]. *)
Definition run_entry (f : frame) (s : sched) : result (list frame * sched) :=
  match f with
  | Dispatch w None =>
      '(q, h) ← skynet_globalmq_pop (n_mq (sc_node s));
      Ok ([match q with Some q => HaveQueue w q | None => Dispatch w None end], with_mq h s)
  | Dispatch w (Some q) => Ok ([HaveQueue w q], s)
  | HaveQueue w q =>
      handle ← skynet_mq_handle q (n_mq (sc_node s));
      '(ctx, n) ← skynet_handle_grab handle (sc_node s) (sc_H s);
      Ok ([match ctx with Some a => Loop w q a 0 1 | None => MqRelease q (CWorker w) end], with_node n s)
  | _ => Fault
  end.

(** The loop over the messages of [q]; [Callback] returns at once or later. *)
Definition run_loop (f : frame) (s : sched) : result (list frame * sched) :=
  match f with
  | Loop w q a i n =>
      if i <? n then
        '(m, h) ← skynet_mq_pop q (n_mq (sc_node s));
        match m with
        | None => Ok ([QueueEmpty w a], with_mq h s)
        | Some m => Ok ([Popped w q a i n m], log_event (EvPop q m) (with_mq h s))
        end
      else Ok ([LoopEnd w q a], s)
  | Popped w q a i n m =>
      mq ← deref (h_queues (n_mq (sc_node s)) !! q);
      let n := if (i =? 0) && (0 <=? w) then Z.shiftr (skynet_mq_length mq) w else n in
      let '(overload, mq) := skynet_mq_overload mq in
      let s := with_mq (store q mq (n_mq (sc_node s))) s in
      c ← deref (n_ctx (sc_node s) !! a);
      match c_cb c with
      | None => Ok ([Loop w q a (i + 1) n], s)
      | Some _ => _ ← assert_ (c_init c); Ok ([Callback w q a i n m], s)
      end
  | Callback w q a i n m => Ok ([Loop w q a (i + 1) n], s)
  | _ => Fault
  end.

(** The returns of [skynet_context_message_dispatch]. *)
Definition run_return (f : frame) (s : sched) : result (list frame * sched) :=
  match f with
  | LoopEnd w q a =>
      c ← deref (n_ctx (sc_node s) !! a);
      _ ← assert_ (q =? c_queue c)%nat;
      '(nq, h) ← skynet_globalmq_pop (n_mq (sc_node s));
      Ok ([match nq with Some nq => PushBack w q a nq | None => ReturnNext w a q end], with_mq h s)
  | PushBack w q a nq =>
      h ← skynet_globalmq_push q (n_mq (sc_node s));
      Ok ([ReturnNext w a nq], with_mq h s)
  | ReturnNext w a nq =>
      '(_, n) ← skynet_context_release a (sc_node s);
      Ok ([Dispatch w (Some nq)], with_node n s)
  | QueueEmpty w a =>
      '(_, n) ← skynet_context_release a (sc_node s);
      Ok ([ReturnPop w], with_node n s)
  | ReturnPop w =>
      '(q, h) ← skynet_globalmq_pop (n_mq (sc_node s));
      Ok ([Dispatch w q], with_mq h s)
  | _ => Fault
  end.

(** [skynet_mq_release(q, drop_message, &d)]. *)
Definition run_release (f : frame) (s : sched) : result (list frame * sched) :=
  match f with
  | MqRelease q k =>
      mq ← deref (h_queues (n_mq (sc_node s)) !! q);
      if negb (q_release mq =? 0) then Ok ([MqDrop q k], s)
      else h ← skynet_globalmq_push q (n_mq (sc_node s)); Ok (resume k, with_mq h s)
  | MqDrop q k =>
      handle ← skynet_mq_handle q (n_mq (sc_node s));
      '(m, h) ← skynet_mq_pop q (n_mq (sc_node s));
      match m with
      | Some m => fs ← drop_message handle m s; Ok (MqDrop q k :: fs, log_event (EvDrop q m) (with_mq h s))
      | None => h ← _release q h; Ok (resume k, with_mq h s)
      end
  | _ => Fault
  end.

(** [skynet_context_push], [skynet_context_send] and other holders of a context. *)
Definition run_push (f : frame) (s : sched) : result (list frame * sched) :=
  match f with
  | Grab h ms =>
      '(ctx, n) ← skynet_handle_grab h (sc_node s) (sc_H s);
      Ok (match ctx with Some a => [Holding a ms] | None => [] end, with_node n s)
  | Holding a (m :: ms) =>
      c ← deref (n_ctx (sc_node s) !! a);
      h ← skynet_mq_push (c_queue c) m (n_mq (sc_node s));
      Ok ([Holding a ms], log_event (EvPush (c_queue c) m) (with_mq h s))
  | Holding a [] => '(_, n) ← skynet_context_release a (sc_node s); Ok ([], with_node n s)
  | ToHarbor m =>
      let type := message_type m in
      _ ← assert_ (negb (type =? PTYPE_SYSTEM) && negb (type =? PTYPE_HARBOR));
      remote ← deref (sc_REMOTE s);
      c ← deref (n_ctx (sc_node s) !! remote);
      h ← skynet_mq_push (c_queue c) m (n_mq (sc_node s));
      Ok ([], log_event (EvPush (c_queue c) m) (with_mq h s))
  | _ => Fault
  end.

Definition run_retire (f : frame) (s : sched) : result (list frame * sched) :=
  match f with
  | Retire h =>
      '(ctx, H) ← retire_locked h (sc_node s) (sc_H s);
      Ok (match ctx with Some a => [Retired a] | None => [] end, with_H H s)
  | Retired a => '(_, n) ← skynet_context_release a (sc_node s); Ok ([], with_node n s)
  | _ => Fault
  end.

(** [ok] tells whether the init function returned 0. Until the queue is created
    [ctx->queue] is uninitialised: it already is [q] here, where there is no queue,
    so that an access through it is a fault. *)
Definition run_new (ok : bool) (f : frame) (s : sched) : result (list frame * sched) :=
  match f with
  | New a q =>
      let n := put_ctx a (new_context q) (sc_node s) in
      '(h, H) ← skynet_handle_register a n (sc_H s);
      Ok ([Registered a q h], with_H H (with_node n s))
  | Registered a q h =>
      c ← deref (n_ctx (sc_node s) !! a);
      Ok ([Stored a q], with_node (put_ctx a (set_handle h c) (sc_node s)) s)
  | Stored a q =>
      h ← skynet_context_handle a (sc_node s);
      Ok ([Queued a q], with_mq (skynet_mq_create q h (n_mq (sc_node s))) s)
  | Queued a q => Ok ([Init a q], with_node (context_inc (sc_node s)) s)
  | Init a q =>
      if ok then
        '(ret, n) ← skynet_context_release a (sc_node s);
        Ok ([match ret with Some a => Started a q | None => Launched None q end], with_node n s)
      else
        h ← skynet_context_handle a (sc_node s);
        '(_, n) ← skynet_context_release a (sc_node s);
        Ok ([InitFailed h q], with_node n s)
  | Started a q =>
      c ← deref (n_ctx (sc_node s) !! a);
      Ok ([Launched (Some a) q], with_node (put_ctx a (set_init true c) (sc_node s)) s)
  | Launched ret q =>
      h ← skynet_globalmq_push q (n_mq (sc_node s));
      Ok (match ret with Some a => [Report a] | None => [] end, with_mq h s)
  | Report a => _ ← skynet_context_handle a (sc_node s); Ok ([], s)
  | InitFailed h q =>
      '(ctx, H) ← retire_locked h (sc_node s) (sc_H s);
      Ok ([match ctx with Some a => FailRetired a q | None => MqRelease q CDone end], with_H H s)
  | FailRetired a q =>
      '(_, n) ← skynet_context_release a (sc_node s);
      Ok ([MqRelease q CDone], with_node n s)
  | _ => Fault
  end.

Definition run_frame (ok : bool) (f : frame) (s : sched) : result (list frame * sched) :=
  match f with
  | Dispatch _ _ | HaveQueue _ _ => run_entry f s
  | Loop _ _ _ _ _ | Popped _ _ _ _ _ _ | Callback _ _ _ _ _ _ => run_loop f s
  | LoopEnd _ _ _ | PushBack _ _ _ _ | ReturnNext _ _ _ | QueueEmpty _ _ | ReturnPop _ => run_return f s
  | MqRelease _ _ | MqDrop _ _ => run_release f s
  | Grab _ _ | Holding _ _ | ToHarbor _ => run_push f s
  | Retire _ | Retired _ => run_retire f s
  | New _ _ | Registered _ _ _ | Stored _ _ | Queued _ _ | Init _ _ | Started _ _ | Launched _ _ | Report _
  | InitFailed _ _ | FailRetired _ _ => run_new ok f s
  end.

(** ** Configurations and their steps *)

(** The contexts a frame may access: those it grabbed, or is launching. *)
Definition accesses (f : frame) : option nat :=
  match f with
  | Loop _ _ a _ _ | Popped _ _ a _ _ _ | Callback _ _ a _ _ _ | LoopEnd _ _ a | PushBack _ _ a _
  | ReturnNext _ a _ | QueueEmpty _ a | Holding a _ | Retired a | Init a _ | FailRetired a _ => Some a
  | _ => None
  end.

(** What a service does to its own context: take a session, set the callback, clear or set [endless]. *)
Inductive update : Set :=
| UpSession
| UpCallback (ud : Z) (cb : option Z)
| UpEndless (b : bool).

Definition apply_update (u : update) (c : skynet_context) : skynet_context :=
  match u with
  | UpSession => snd (skynet_context_newsession c)
  | UpCallback ud cb => skynet_callback ud cb c
  | UpEndless b => set_endless b c
  end.

(** The context whose code runs: its init function or its callback. *)
Definition service (f : frame) : option nat :=
  match f with Init a _ | Callback _ _ a _ _ _ => Some a | _ => None end.

(** [skynet_harbor_start(ctx)]. *)
Definition harbor_start (a : nat) (s : sched) : result sched :=
  n ← skynet_context_reserve a (sc_node s);
  Ok (Sched (World n (sc_H s)) (sc_harbor s) (Some a) (sc_log s)).

(** The calls a thread may start: they hold nothing yet. Handle 0 is nobody's. *)
Definition call (f : frame) : bool :=
  match f with
  | Grab h _ | Retire h => negb (h =? 0)
  | ToHarbor _ | New _ _ => true
  | _ => false
  end.

(** Room for one more message in the queue of the context. *)
Definition room (a : nat) (s : sched) : bool :=
  match c ← n_ctx (sc_node s) !! a; h_queues (n_mq (sc_node s)) !! c_queue c with
  | Some mq => skynet_mq_length mq + 1 <? 2 ^ 30
  | None => true
  end.

(** What the environment grants: [malloc] returns unused addresses; the table
    has not reached its 2^24 slots and is not doubled while another launch has
    registered its context and not stored the handle yet; a handle is not
    reissued (nor is 0 issued) while a queue or a context still carries it; no
    queue grows to 2^30 messages. *)
Definition allowed (f : frame) (s : sched) : bool :=
  match f with
  | New a q =>
      bool_decide (n_ctx (sc_node s) !! a = None) && bool_decide (h_queues (n_mq (sc_node s)) !! q = None) &&
      forallb (fun e => negb (c_queue (snd e) =? q)%nat) (map_to_list (n_ctx (sc_node s))) &&
      (s_slot_size (sc_H s) <? 2 ^ 24) &&
      (free_slot (sc_H s) || forallb (fun e => negb (c_handle (snd e) =? 0)) (map_to_list (n_ctx (sc_node s)))) &&
      match skynet_handle_register a (put_ctx a (new_context q) (sc_node s)) (sc_H s) with
      | Ok (h, _) => negb (h =? 0) && forallb (fun e => negb (q_handle (snd e) =? h)) (map_to_list (h_queues (n_mq (sc_node s)))) &&
                     forallb (fun e => negb (c_handle (snd e) =? h)) (map_to_list (n_ctx (sc_node s)))
      | _ => true
      end
  | Holding a (_ :: _) => room a s
  | ToHarbor _ => match sc_REMOTE s with Some a => room a s | None => true end
  | _ => true
  end.

(** The address of a freed context is not reused while a launch may still go to
    it: an access to freed memory is seen as one. Nor is a handle reissued that a
    launch is about to store. *)
Definition unused (f : frame) (fs : list frame) (s : sched) : bool :=
  match f with
  | New a q =>
      forallb (fun g => match g with
                        | Started b _ | Launched (Some b) _ | Report b => negb (b =? a)%nat
                        | Registered _ _ h' =>
                            match skynet_handle_register a (put_ctx a (new_context q) (sc_node s)) (sc_H s) with
                            | Ok (h, _) => negb (h' =? h)
                            | _ => true
                            end
                        | _ => true
                        end) fs
  | _ => true
  end.

Definition config : Type := list frame * sched.

Inductive step : config -> config -> Prop :=
| step_run fs1 f fs2 s ok fs s' : allowed f s = true -> unused f (fs1 ++ fs2) s = true -> run_frame ok f s = Ok (fs, s') ->
    step (fs1 ++ f :: fs2, s) (fs1 ++ fs ++ fs2, s')
| step_call fs s f : call f = true -> step (fs, s) (f :: fs, s)
| step_update fs s f a c u : f ∈ fs -> accesses f = Some a -> n_ctx (sc_node s) !! a = Some c ->
    step (fs, s) (fs, with_node (put_ctx a (apply_update u c) (sc_node s)) s)
| step_harbor fs s f a s' : f ∈ fs -> service f = Some a -> sc_REMOTE s = None -> harbor_start a s = Ok s' ->
    step (fs, s) (fs, s').

(** After [skynet_mq_init], [skynet_handle_init], [skynet_globalinit] and the start of the workers. *)
Definition initial (harbor : Z) (weights : list Z) : config :=
  ((fun w => Dispatch w None) <$> weights,
   Sched (World (Node (skynet_mq_init (Heap ∅ None)) ∅ 0) (skynet_handle_init harbor)) (skynet_harbor_init harbor) None []).

(** The messages put into, and taken out of, queue [q], oldest first. *)
Definition pushed (q : nat) (l : list event) : list skynet_message :=
  omap (fun e => match e with EvPush q' m => if (q' =? q)%nat then Some m else None | _ => None end) l.
Definition taken (q : nat) (l : list event) : list skynet_message :=
  omap (fun e => match e with
                 | EvPop q' m | EvDrop q' m => if (q' =? q)%nat then Some m else None
                 | _ => None
                 end) l.

(** The queue a worker is serving and the context whose messages it handles. *)
Definition serving (f : frame) : option (nat * nat) :=
  match f with
  | Loop _ q a _ _ | Popped _ q a _ _ _ | Callback _ q a _ _ _ | LoopEnd _ q a => Some (q, a)
  | _ => None
  end.

(** A worker with nothing to do. *)
Definition idle (f : frame) : bool :=
  match f with Dispatch _ None => true | _ => false end.

(** The accesses that race with a launch: a message is put into a queue that is not
    created yet, the context is gone before [ctx->init] is written or the report
    reads it, or a message goes to the harbor service before there is one (or has
    a type of the system). *)
Definition launch_race (f : frame) (s : sched) : bool :=
  match f with
  | Holding a (_ :: _) =>
      match n_ctx (sc_node s) !! a with
      | Some c => bool_decide (h_queues (n_mq (sc_node s)) !! c_queue c = None)
      | None => false
      end
  | Started a _ | Report a => bool_decide (n_ctx (sc_node s) !! a = None)
  | ToHarbor m => bool_decide (sc_REMOTE s = None) || (message_type m =? PTYPE_SYSTEM) || (message_type m =? PTYPE_HARBOR)
  | _ => false
  end.

(** Steps chosen by a list: run frame [i], start a call, or let frame [i] update its context
    or start the harbor. *)
Inductive choice : Set :=
| ChRun (i : nat) (ok : bool)
| ChCall (f : frame)
| ChUpdate (i : nat) (u : update)
| ChHarbor (i : nat).

Definition exec1 (ch : choice) (cfg : config) : option config :=
  let '(fs, s) := cfg in
  match ch with
  | ChRun i ok =>
      f ← fs !! i;
      if allowed f s && unused f (take i fs ++ drop (S i) fs) s then
        match run_frame ok f s with
        | Ok (gs, s) => Some (take i fs ++ gs ++ drop (S i) fs, s)
        | _ => None
        end
      else None
  | ChCall f => if call f then Some (f :: fs, s) else None
  | ChUpdate i u =>
      f ← fs !! i; a ← accesses f; c ← n_ctx (sc_node s) !! a;
      Some (fs, with_node (put_ctx a (apply_update u c) (sc_node s)) s)
  | ChHarbor i =>
      f ← fs !! i; a ← service f;
      match sc_REMOTE s, harbor_start a s with None, Ok s => Some (fs, s) | _, _ => None end
  end.

Fixpoint exec (chs : list choice) (cfg : config) : option config :=
  match chs with
  | [] => Some cfg
  | ch :: chs => cfg ← exec1 ch cfg; exec chs cfg
  end.

Lemma exec1_step ch cfg cfg' : exec1 ch cfg = Some cfg' -> step cfg cfg'.
Proof.
  destruct cfg as [fs s], ch as [i ok|f|i u|i]; cbn.
  - destruct (fs !! i) as [f|] eqn:Ef; [|done]. cbn. destruct (allowed f s && _) eqn:Ea; [|done].
    apply andb_true_iff in Ea as [Ea Eu].
    destruct (run_frame ok f s) as [[gs s']| |] eqn:Er; [|done..]. intros [= <-].
    rewrite <- (take_drop_middle fs i f Ef) at 1. by apply step_run with ok.
  - destruct (call f) eqn:Ec; [|done]. intros [= <-]. by apply step_call.
  - destruct (fs !! i) as [f|] eqn:Ef; [|done]. cbn. destruct (accesses f) as [a|] eqn:Ea; [|done]. cbn.
    destruct (n_ctx (sc_node s) !! a) as [c|] eqn:Ec; [|done]. cbn. intros [= <-].
    eapply step_update; [by eapply list_elem_of_lookup_2|done..].
  - destruct (fs !! i) as [f|] eqn:Ef; [|done]. cbn. destruct (service f) as [a|] eqn:Ea; [|done]. cbn.
    destruct (sc_REMOTE s) eqn:ER; [done|]. destruct (harbor_start a s) as [s'| |] eqn:Eh; [|done..]. intros [= <-].
    eapply step_harbor; [by eapply list_elem_of_lookup_2|done..].
Qed.

Lemma exec_steps chs cfg cfg' : exec chs cfg = Some cfg' -> rtc step cfg cfg'.
Proof.
  revert cfg. induction chs as [|ch chs IH]; cbn; intros cfg.
  - intros [= <-]. apply rtc_refl.
  - destruct (exec1 ch cfg) as [cfg1|] eqn:E; [|done]. cbn. intros H. eapply rtc_l; [by apply exec1_step in E|]. by apply IH.
Qed.

Lemma allowed_new a q s : allowed (New a q) s = true ->
  n_ctx (sc_node s) !! a = None /\ h_queues (n_mq (sc_node s)) !! q = None /\
  (forall b c, n_ctx (sc_node s) !! b = Some c -> c_queue c <> q) /\ s_slot_size (sc_H s) < 2 ^ 24 /\
  (free_slot (sc_H s) = true \/ forall b c, n_ctx (sc_node s) !! b = Some c -> c_handle c <> 0) /\
  forall h H, skynet_handle_register a (put_ctx a (new_context q) (sc_node s)) (sc_H s) = Ok (h, H) ->
    h <> 0 /\ (forall q' mq, h_queues (n_mq (sc_node s)) !! q' = Some mq -> q_handle mq <> h) /\
    forall b c, n_ctx (sc_node s) !! b = Some c -> c_handle c <> h.
Proof.
  unfold allowed. rewrite !andb_true_iff, orb_true_iff, !bool_decide_eq_true, Z.ltb_lt, !forallb_forall.
  intros [[[[[H1 H2] H3] H4] H5] H6]. split_and!; try done.
  - intros b c Hc. specialize (H3 (b, c)). cbn in H3. rewrite negb_true_iff, Nat.eqb_neq in H3.
    apply H3, list_elem_of_In, elem_of_map_to_list, Hc.
  - destruct H5 as [H5|H5]; [by left|right]. intros b c Hc. specialize (H5 (b, c)). cbn in H5.
    rewrite negb_true_iff, Z.eqb_neq in H5. apply H5, list_elem_of_In, elem_of_map_to_list, Hc.
  - intros h H E. rewrite E, !andb_true_iff, negb_true_iff, Z.eqb_neq, !forallb_forall in H6.
    destruct H6 as [[H6 H7] H8]. split; [done|]. split.
    + intros q' mq Hq. specialize (H7 (q', mq)). cbn in H7.
      rewrite negb_true_iff, Z.eqb_neq in H7. apply H7, list_elem_of_In, elem_of_map_to_list, Hq.
    + intros b c Hc. specialize (H8 (b, c)). cbn in H8.
      rewrite negb_true_iff, Z.eqb_neq in H8. apply H8, list_elem_of_In, elem_of_map_to_list, Hc.
Qed.

Lemma room_length a c mq s : room a s = true -> n_ctx (sc_node s) !! a = Some c ->
  h_queues (n_mq (sc_node s)) !! c_queue c = Some mq -> skynet_mq_length mq + 1 < 2 ^ 30.
Proof. unfold room. intros H Hc Hq. rewrite Hc in H. cbn in H. rewrite Hq in H. by apply Z.ltb_lt. Qed.
