(* ===== verification/DispatchInv.v ===== *)
(** * The dispatcher is correct under every interleaving

    Each frame of Dispatch.v owns tokens: the queues it is responsible for and
    the references it holds. [inv] relates the tokens of a configuration to
    the queues, the global list, the handle table and the reference counts;
    every operation has one lemma that transforms the tokens of its frame and
    keeps those of the others, and the properties follow from [inv]. *)
From S2P Require Import Prelude CString MessageQueue Context Handle HandleTable Server Dispatch.

(** ** Tokens *)

(** [TOwn q]: the right to pop [q] and the duty to put it back; [TNew q h]:
    the same for the queue of a context that failed to start; [TDrop q]: for a
    queue that is being drained; [TRef a]: one reference to context [a];
    [TRun a q]: a reference to an initialised context and its queue;
    [TInit a q]: the context being launched, with its queue; [TStart a q]: the
    same when its creator has given up the reference, before [ctx->init]. *)
Inductive token : Set :=
| TOwn (q : nat)
| TNew (q : nat) (h : Z)
| TDrop (q : nat)
| TRef (a : nat)
| TRun (a q : nat)
| TInit (a q : nat)
| TStart (a q : nat).

Definition tokens (f : frame) : list token :=
  match f with
  | Dispatch _ None | ReturnPop _ | Grab _ _ | ToHarbor _ | Retire _ | New _ _ | Report _ => []
  | Dispatch _ (Some q) | HaveQueue _ q | MqRelease q _ | Launched _ q => [TOwn q]
  | Loop _ q a _ _ | Popped _ q a _ _ _ | Callback _ q a _ _ _ | LoopEnd _ q a => [TOwn q; TRun a q]
  | PushBack _ q a nq => [TOwn q; TOwn nq; TRun a q]
  | ReturnNext _ a nq => [TOwn nq; TRef a]
  | QueueEmpty _ a | Holding a _ | Retired a => [TRef a]
  | MqDrop q _ => [TDrop q]
  | Registered a q _ | Stored a q | Queued a q | Init a q => [TInit a q]
  | Started a q => [TStart a q]
  | InitFailed h q => [TNew q h]
  | FailRetired a q => [TOwn q; TRef a]
  end.

Definition token_queue (t : token) : option nat :=
  match t with TOwn q | TNew q _ | TDrop q | TInit _ q | TStart _ q => Some q | _ => None end.
Definition token_ref (t : token) : option nat :=
  match t with TRef a | TRun a _ | TInit a _ => Some a | _ => None end.

Definition owned (T : list token) : list nat := omap token_queue T.

(** The number of references to [a]. *)
Fixpoint refs (a : nat) (T : list token) : Z :=
  match T with
  | [] => 0
  | t :: T => (if bool_decide (token_ref t = Some a) then 1 else 0) + refs a T
  end.

(** The context of queue [q] is still being started. *)
Definition starting (T : list token) (a q : nat) : Prop := (TInit a q ∈ T \/ TStart a q ∈ T) \/ exists h, TNew q h ∈ T.

(** ** The invariant *)

(** A queue somebody has to attend to. *)
Definition busy (Q : message_queue) : Prop := q_in_global Q <> 0 \/ q_release Q <> 0.

Definition token_ok (E : gmap nat message_queue) (C : gmap nat skynet_context) (t : token) : Prop :=
  match t with
  | TOwn q | TStart _ q => True
  | TNew q h => exists Q, E !! q = Some Q /\ q_handle Q = h
  | TDrop q => exists Q, E !! q = Some Q /\ q_release Q <> 0
  | TRef a => exists c, C !! a = Some c
  | TRun a q => exists c, C !! a = Some c /\ c_queue c = q /\ c_init c = true
  | TInit a q => exists c, C !! a = Some c /\ c_queue c = q
  end.

(** Queue [q] holds what was pushed and not taken yet; nothing when nobody attends to it. *)
Definition queue_ok (ev : list event) (q : nat) (Q : message_queue) : Prop :=
  (q_in_global Q = 0 \/ q_in_global Q = 1) /\ q_handle Q <> 0 /\
  exists l, mq_rep Q l /\ pushed q ev = taken q ev ++ l /\ (q_in_global Q = 0 -> l = []).

(** The reference the handle table holds. *)
Definition table_ref (m : gmap Z nat) (a : nat) (c : skynet_context) : Z :=
  if bool_decide (m !! c_handle c = Some a) then 1 else 0.

Definition ctx_ok (m : gmap Z nat) (E : gmap nat message_queue) (T : list token) (a : nat) (c : skynet_context) : Prop :=
  c_ref c = table_ref m a c + refs a T /\ 0 < c_ref c /\
  (exists Q, E !! c_queue c = Some Q /\ q_release Q = 0 /\ q_handle Q = c_handle c) /\
  (c_init c = false -> starting T a (c_queue c) \/ m !! c_handle c <> Some a).

(** [gl] is the global list, [m] the handle table, [E] the queues without
    their links, [C] the contexts, [ev] the history, [T] the tokens of all frames. *)
Record wf (gl : list nat) (m : gmap Z nat) (E : gmap nat message_queue) (C : gmap nat skynet_context)
    (ev : list event) (T : list token) : Prop := Wf {
  wf_nodup : NoDup (gl ++ owned T);
  wf_own : forall q, q ∈ gl ++ owned T <-> exists Q, E !! q = Some Q /\ busy Q;
  wf_queue : forall q Q, E !! q = Some Q -> queue_ok ev q Q;
  wf_live : forall q Q, E !! q = Some Q -> q_release Q = 0 -> exists a c, C !! a = Some c /\ c_queue c = q;
  wf_gone : forall q, E !! q = None -> pushed q ev = taken q ev;
  wf_handles : forall q q' Q Q', E !! q = Some Q -> E !! q' = Some Q' -> q_handle Q = q_handle Q' -> q = q';
  wf_ctx : forall a c, C !! a = Some c -> ctx_ok m E T a c;
  wf_inj : forall a b c d, C !! a = Some c -> C !! b = Some d -> c_queue c = c_queue d -> a = b;
  wf_reg : forall h a, m !! h = Some a -> exists c, C !! a = Some c /\ c_handle c = h;
  wf_tok : Forall (token_ok E C) T
}.

(** The reference of [REMOTE]; a context that is reserved is not counted. *)
Definition reserved (s : sched) : list token := match sc_REMOTE s with Some a => [TRef a] | None => [] end.
Definition counted (s : sched) : Z := Z.of_nat (size (n_ctx (sc_node s))) - zlen (reserved s).

Record inv (rep : handle_storage -> node -> gmap Z nat -> Prop) (s : sched) (T : list token) : Prop := Inv {
  inv_wf : exists gl m, gq_rep (n_mq (sc_node s)) gl /\ rep (sc_H s) (sc_node s) m /\
    wf gl m (erase (n_mq (sc_node s))) (n_ctx (sc_node s)) (sc_log s) T;
  inv_total : n_total (sc_node s) = counted s
}.

(** The tokens of all the frames of a configuration. *)
Definition all_tokens (fs : list frame) : list token := fs ≫= tokens.

(** ** Tokens: lemmas *)

Lemma refs_app a T U : refs a (T ++ U) = refs a T + refs a U.
Proof. induction T as [|t T IH]; cbn; [done|]. rewrite IH. lia. Qed.

Lemma refs_nonneg a T : 0 <= refs a T.
Proof. induction T as [|t T IH]; cbn; [done|]. case_bool_decide; lia. Qed.

#[export] Instance refs_perm a : Proper (Permutation ==> eq) (refs a).
Proof. intros T U H. induction H; cbn; lia. Qed.

#[export] Instance owned_perm : Proper (Permutation ==> Permutation) owned.
Proof. intros T U H. unfold owned. by rewrite H. Qed.

#[export] Instance starting_perm : Proper (Permutation ==> eq ==> eq ==> iff) starting.
Proof. intros T U H a ? <- q ? <-. unfold starting. by setoid_rewrite H. Qed.

(** Only two kinds of tokens start a context. *)
Lemma starting_cons t T a q : match t with TInit _ _ | TStart _ _ | TNew _ _ => False | _ => True end ->
  starting (t :: T) a q <-> starting T a q.
Proof.
  intros Ht. unfold starting. setoid_rewrite elem_of_cons.
  destruct t; naive_solver.
Qed.

Lemma starting_tail t T a q : starting T a q -> starting (t :: T) a q.
Proof. unfold starting. setoid_rewrite elem_of_cons. naive_solver. Qed.

Lemma owned_app T U : owned (T ++ U) = owned T ++ owned U.
Proof. apply omap_app. Qed.

#[export] Instance wf_perm gl m E C ev : Proper (Permutation ==> iff) (wf gl m E C ev).
Proof.
  assert (forall T U, T ≡ₚ U -> wf gl m E C ev T -> wf gl m E C ev U) as H.
  { intros T U HTU [H1 H2 H3 H4 H5 H6 H7 H8 H9 H10]. constructor; try done.
    - by rewrite <- HTU.
    - intros q. by rewrite <- HTU.
    - intros a c Hc. unfold ctx_ok. rewrite <- HTU. by apply H7.
    - by rewrite <- HTU. }
  intros T U HTU. split; by apply H.
Qed.

#[export] Instance inv_perm rep s : Proper (Permutation ==> iff) (inv rep s).
Proof.
  intros T U HTU. split; intros [(gl & m & H1 & H2 & H3) H4]; (split; [|done]); exists gl, m;
    [rewrite <- HTU|rewrite HTU]; done.
Qed.

Lemma owned_in T t q : t ∈ T -> token_queue t = Some q -> q ∈ owned T.
Proof. intros Ht Hq. apply list_elem_of_omap. by exists t. Qed.

Lemma refs_pos T t a : t ∈ T -> token_ref t = Some a -> 0 < refs a T.
Proof.
  intros Ht Ha. induction T as [|t' T IH]; [by apply not_elem_of_nil in Ht|]. cbn.
  apply elem_of_cons in Ht as [<-|Ht].
  - rewrite bool_decide_true by done. pose proof (refs_nonneg a T). lia.
  - specialize (IH Ht). case_bool_decide; lia.
Qed.

(** A queue has one token. *)
Lemma owned_unique T t u q : NoDup (owned T) -> t ∈ T -> u ∈ T -> token_queue t = Some q -> token_queue u = Some q -> t = u.
Proof.
  intros Hnd Ht Hu Hq Hq'. induction T as [|x T IH]; [by apply not_elem_of_nil in Ht|].
  cbn in Hnd. apply elem_of_cons in Ht as [->|Ht], Hu as [->|Hu]; [done|..].
  - rewrite Hq in Hnd. apply NoDup_cons in Hnd as [Hn _]. destruct Hn. by eapply owned_in.
  - rewrite Hq' in Hnd. apply NoDup_cons in Hnd as [Hn _]. destruct Hn. by eapply owned_in.
  - apply IH; [|done..]. destruct (token_queue x); [by apply NoDup_cons in Hnd as [_ ?]|done].
Qed.

(** The facts behind tokens survive a change of the stores that keeps what they mention. *)
Lemma tokens_mono (E E' : gmap nat message_queue) (C C' : gmap nat skynet_context) T :
  (forall x X, E !! x = Some X -> x ∈ owned T ->
     exists X', E' !! x = Some X' /\ q_handle X' = q_handle X /\ (q_release X <> 0 -> q_release X' <> 0)) ->
  (forall b d, C !! b = Some d -> 0 < refs b T ->
     exists d', C' !! b = Some d' /\ c_queue d' = c_queue d /\ (c_init d = true -> c_init d' = true)) ->
  Forall (token_ok E C) T -> Forall (token_ok E' C') T.
Proof.
  intros HE HC. rewrite !Forall_forall. intros H t Ht. specialize (H t Ht).
  pose proof (owned_in T t) as Hq. pose proof (refs_pos T t) as Hr.
  destruct t as [x|x h|x|b|b x|b x|b x]; cbn in *; [done|..|done].
  - destruct H as (X & HX & Hx). destruct (HE x X HX) as (X' & ? & ? & ?); [auto|]. exists X'. split; [done|congruence].
  - destruct H as (X & HX & Hx). destruct (HE x X HX) as (X' & ? & ? & ?); [auto|]. exists X'. auto.
  - destruct H as (d & Hd). destruct (HC b d Hd) as (d' & ? & ? & ?); [auto|]. by exists d'.
  - destruct H as (d & Hd & Hx & Hi). destruct (HC b d Hd) as (d' & ? & ? & ?); [auto|]. exists d'.
    split; [done|]. split; [congruence|auto].
  - destruct H as (d & Hd & Hx). destruct (HC b d Hd) as (d' & ? & ? & ?); [auto|]. exists d'. split; [done|congruence].
Qed.

(** A context somebody refers to exists. *)
Lemma token_ref_alive gl m E C ev T t a : wf gl m E C ev T -> t ∈ T -> token_ref t = Some a ->
  exists c, C !! a = Some c.
Proof.
  intros H Ht Ha. pose proof (wf_tok _ _ _ _ _ _ H) as Hok. rewrite Forall_forall in Hok.
  specialize (Hok _ Ht). destruct t; cbn in *; inv_res; naive_solver.
Qed.

Lemma refs_dead a T C E : Forall (token_ok E C) T -> C !! a = None -> refs a T = 0.
Proof.
  intros H Ha. induction H as [|t T Ht HT IH]; cbn; [done|]. rewrite IH. case_bool_decide as Hd; [|lia].
  destruct t; cbn in *; inv_res; naive_solver.
Qed.

(** ** Transformations of well-formed configurations *)

(** Only the tokens and the global list change. *)
Lemma wf_tokens gl gl' m E C ev T T' : wf gl m E C ev T -> gl ++ owned T ≡ₚ gl' ++ owned T' ->
  (forall a, refs a T' = refs a T) -> Forall (token_ok E C) T' ->
  (forall a c, C !! a = Some c -> c_init c = false -> m !! c_handle c = Some a ->
     starting T a (c_queue c) -> starting T' a (c_queue c)) ->
  wf gl' m E C ev T'.
Proof.
  intros [H1 H2 H3 H4 H5 H6 H7 H8 H9 H10] Hp Hr Htok Hst. constructor; try done.
  - by rewrite <- Hp.
  - intros q. by rewrite <- Hp.
  - intros a c Hc. destruct (H7 a c Hc) as (R1 & R2 & R3 & R4). split; [by rewrite Hr|].
    split; [done|]. split; [done|]. intros Hi. destruct (decide (m !! c_handle c = Some a)) as [E1|]; [|by right].
    left. destruct (R4 Hi) as [|]; [|done]. by apply Hst.
Qed.

(** Queue [q] is changed, keeping its handle and [release]. *)
Lemma wf_set_queue gl m E C ev T q Q Q' gl' T' ev' : wf gl m E C ev T -> E !! q = Some Q ->
  q_handle Q' = q_handle Q -> q_release Q' = q_release Q -> queue_ok ev' q Q' ->
  (forall x, x <> q -> pushed x ev' = pushed x ev /\ taken x ev' = taken x ev) ->
  NoDup (gl' ++ owned T') -> (forall x, x ∈ gl' ++ owned T' <-> (x <> q /\ x ∈ gl ++ owned T) \/ (x = q /\ busy Q')) ->
  (forall a, refs a T' = refs a T) -> Forall (token_ok E C) T' ->
  (forall a c, C !! a = Some c -> c_init c = false -> m !! c_handle c = Some a ->
     starting T a (c_queue c) -> starting T' a (c_queue c)) ->
  wf gl' m (<[q := Q']> E) C ev' T'.
Proof.
  intros [H1 H2 H3 H4 H5 H6 H7 H8 H9 H10] HQ Hh Hrel Hok Hev Hnd Hown Hr Htok Hst. constructor; try done.
  - intros x. rewrite Hown, H2. destruct (decide (x = q)) as [->|Hne].
    + rewrite lookup_insert_eq. naive_solver.
    + rewrite lookup_insert_ne by done. naive_solver.
  - intros x X HX. destruct (decide (x = q)) as [->|Hne].
    + rewrite lookup_insert_eq in HX. by inv_res.
    + rewrite lookup_insert_ne in HX by done. destruct (Hev x Hne) as [E1 E2]. destruct (H3 _ _ HX) as (A & B & l & D).
      split; [done|]. split; [done|]. exists l. by rewrite E1, E2.
  - intros x X HX Hx. destruct (decide (x = q)) as [->|Hne].
    + rewrite lookup_insert_eq in HX. inv_res. eapply H4; [done|congruence].
    + rewrite lookup_insert_ne in HX by done. by eapply H4.
  - intros x Hx. destruct (decide (x = q)) as [->|Hne]; [by rewrite lookup_insert_eq in Hx|].
    rewrite lookup_insert_ne in Hx by done. destruct (Hev x Hne) as [-> ->]. by apply H5.
  - intros x y X Y HX HY Hxy.
    assert (forall z Z', <[q:=Q']> E !! z = Some Z' -> exists Z0, E !! z = Some Z0 /\ q_handle Z' = q_handle Z0) as Hz.
    { intros z Z' HZ. destruct (decide (z = q)) as [->|Hne].
      - rewrite lookup_insert_eq in HZ. inv_res. eauto.
      - rewrite lookup_insert_ne in HZ by done. eauto. }
    destruct (Hz _ _ HX) as (X0 & HX0 & EX), (Hz _ _ HY) as (Y0 & HY0 & EY). eapply H6; [done..|congruence].
  - intros a c Hc. destruct (H7 a c Hc) as (R1 & R2 & (X & RX & R3 & R5) & R4). split; [by rewrite Hr|].
    split; [done|]. split.
    + destruct (decide (c_queue c = q)) as [<-|Hne].
      * rewrite lookup_insert_eq. exists Q'. split; [done|]. split; congruence.
      * rewrite lookup_insert_ne by done. by exists X.
    + intros Hi. destruct (decide (m !! c_handle c = Some a)) as [E1|]; [|by right].
      left. destruct (R4 Hi) as [|]; [|done]. by apply Hst.
  - eapply tokens_mono; [..|exact Htok]; [|eauto]. intros x X HX _. destruct (decide (x = q)) as [->|Hne].
    + rewrite lookup_insert_eq. exists Q'. split; [done|]. split; congruence.
    + rewrite lookup_insert_ne by done. by exists X.
Qed.

(** Context [a] is changed, keeping its handle and queue. *)
Lemma wf_set_ctx gl m E C ev T a c c' m' T' : wf gl m E C ev T -> C !! a = Some c ->
  c_handle c' = c_handle c -> c_queue c' = c_queue c -> (c_init c = true -> c_init c' = true) ->
  ctx_ok m' E T' a c' -> owned T' ≡ₚ owned T ->
  (forall b, b <> a -> refs b T' = refs b T) -> (forall h b, b <> a -> m' !! h = Some b <-> m !! h = Some b) ->
  (forall h, m' !! h = Some a -> m !! h = Some a) ->
  (forall b d, b <> a -> C !! b = Some d -> c_init d = false -> m !! c_handle d = Some b ->
     starting T b (c_queue d) -> starting T' b (c_queue d)) ->
  Forall (token_ok E (<[a := c']> C)) T' ->
  wf gl m' E (<[a := c']> C) ev T'.
Proof.
  intros [H1 H2 H3 H4 H5 H6 H7 H8 H9 H10] Hc Hh Hq Hi Hok Hown Hr Hm Hma Hst Htok.
  assert (forall b d, <[a:=c']> C !! b = Some d -> exists d0, C !! b = Some d0 /\ c_queue d = c_queue d0) as Hb.
  { intros b d Hd. destruct (decide (b = a)) as [->|Hne].
    - rewrite lookup_insert_eq in Hd. inv_res. eauto.
    - rewrite lookup_insert_ne in Hd by done. eauto. }
  constructor; try done.
  - by rewrite Hown.
  - intros q. by rewrite Hown.
  - intros q Q HQ HR. destruct (H4 _ _ HQ HR) as (b & d & Hd & Hdq). destruct (decide (b = a)) as [->|Hne].
    + exists a, c'. rewrite lookup_insert_eq. split; [done|]. congruence.
    + exists b, d. by rewrite lookup_insert_ne.
  - intros b d Hd. destruct (decide (b = a)) as [->|Hne].
    + rewrite lookup_insert_eq in Hd. by inv_res.
    + rewrite lookup_insert_ne in Hd by done. destruct (H7 _ _ Hd) as (R1 & R2 & R3 & R4).
      split; [|split; [done|split; [done|]]].
      * rewrite Hr by done. rewrite R1. unfold table_ref. f_equal. by rewrite (bool_decide_ext _ _ (Hm (c_handle d) b Hne)).
      * intros Hdi. destruct (decide (m !! c_handle d = Some b)) as [E1|E1]; [|right; by rewrite Hm].
        left. destruct (R4 Hdi); [|done]. by apply Hst.
  - intros b e d d' Hd Hd' Hbe. destruct (Hb _ _ Hd) as (d0 & Hd0 & E0), (Hb _ _ Hd') as (d1 & Hd1 & E1).
    eapply H8; [done..|congruence].
  - intros h b Hhb. destruct (decide (b = a)) as [->|Hne].
    + destruct (H9 _ _ (Hma _ Hhb)) as (d & Hd & Hdh). exists c'. rewrite lookup_insert_eq. split; [done|]. congruence.
    + apply Hm in Hhb; [|done]. destruct (H9 _ _ Hhb) as (d & Hd). exists d. by rewrite lookup_insert_ne.
Qed.

(** Tokens survive the change of a context that keeps its queue and stays initialised. *)
Lemma tokens_set_ctx E C a c c' T : C !! a = Some c -> c_queue c' = c_queue c ->
  (c_init c = true -> c_init c' = true) -> Forall (token_ok E C) T -> Forall (token_ok E (<[a := c']> C)) T.
Proof.
  intros Hc Hq Hi. apply tokens_mono; [eauto|]. intros b d Hd _. destruct (decide (b = a)) as [->|Hne].
  - rewrite lookup_insert_eq. exists c'. split; [done|]. by replace d with c by congruence.
  - rewrite lookup_insert_ne by done. by exists d.
Qed.

Lemma starting_owned T a q : starting T a q -> q ∈ owned T.
Proof. intros [[H|H]|[h H]]; by eapply owned_in. Qed.

Lemma table_ref_ext m m' a c : (m !! c_handle c = Some a <-> m' !! c_handle c = Some a) -> table_ref m a c = table_ref m' a c.
Proof. intros H. unfold table_ref. by rewrite (bool_decide_ext _ _ H). Qed.

(** A context and its queue are allocated together. *)
Lemma wf_create gl m E C ev T a q h : wf gl m E C ev T -> C !! a = None -> E !! q = None -> m !! h = None -> h <> 0 ->
  (forall x X, E !! x = Some X -> q_handle X <> h) ->
  wf gl (<[h := a]> m) (<[q := mq_new h]> E) (<[a := set_handle h (new_context q)]> C) ev (TInit a q :: T).
Proof.
  intros [H1 H2 H3 H4 H5 H6 H7 H8 H9 H10] Ha Hq Hm Hh0 Hfresh.
  assert (q ∉ gl ++ owned T) as Hnq by (rewrite H2; intros (Q & HQ & _); congruence).
  assert (forall b d, C !! b = Some d -> c_queue d <> q /\ c_handle d <> h) as Hd.
  { intros b d Hb. destruct (H7 _ _ Hb) as (_ & _ & (Q & HQ & _ & HQh) & _). split; [congruence|].
    rewrite <- HQh. by eapply Hfresh. }
  constructor.
  - cbn. rewrite <- Permutation_middle. by constructor.
  - intros x. cbn. rewrite <- Permutation_middle, elem_of_cons, H2. setoid_rewrite lookup_insert_Some. split.
    + intros [->|(X & HX & Hb)]; [exists (mq_new h); split; [by left|by left]|].
      exists X. split; [|done]. right. split; [|done]. congruence.
    + intros (X & [[-> _]|[Hne HX]] & Hb); [by left|]. right. by exists X.
  - intros x X [[<- <-]|[Hne HX]]%lookup_insert_Some; [|by apply H3].
    split; [by right|]. split; [done|]. exists []. split; [apply mq_new_rep|]. rewrite app_nil_r. by split; [apply H5|].
  - intros x X [[<- <-]|[Hne HX]]%lookup_insert_Some HR.
    + exists a. eexists. by rewrite lookup_insert_eq.
    + destruct (H4 _ _ HX HR) as (b & d & Hb & Hbd). exists b, d. rewrite lookup_insert_ne; [done|]. congruence.
  - intros x [Hne HX]%lookup_insert_None. by apply H5.
  - intros x y X Y [[<- <-]|[Hx HX]]%lookup_insert_Some [[<- <-]|[Hy HY]]%lookup_insert_Some Hxy; try done.
    + destruct (Hfresh _ _ HY). done.
    + destruct (Hfresh _ _ HX). done.
    + by eapply H6.
  - intros b d [[<- <-]|[Hne Hb]]%lookup_insert_Some.
    + unfold ctx_ok, table_ref. cbn. rewrite lookup_insert_eq, !bool_decide_true by done.
      rewrite (refs_dead a T C E) by done. split; [done|]. split; [done|]. split.
      * exists (mq_new h). by rewrite lookup_insert_eq.
      * intros _. left. left. left. apply list_elem_of_here.
    + destruct (H7 _ _ Hb) as (R1 & R2 & (X & RX & R3) & R4), (Hd _ _ Hb) as [D1 D2].
      split; [|split; [done|split]].
      * cbn. rewrite bool_decide_false by (by intros [=]). rewrite R1. cbn. f_equal.
        apply table_ref_ext. by rewrite lookup_insert_ne.
      * exists X. by rewrite lookup_insert_ne.
      * intros Hi. rewrite lookup_insert_ne by done. destruct (R4 Hi) as [|]; [left|by right]. by apply starting_tail.
  - intros b b' d d' [[<- <-]|[Hx HX]]%lookup_insert_Some [[<- <-]|[Hy HY]]%lookup_insert_Some Hxy; try done.
    + cbn in Hxy. destruct (Hd _ _ HY). congruence.
    + cbn in Hxy. destruct (Hd _ _ HX). congruence.
    + by eapply H8.
  - intros h' b [[<- <-]|[Hne Hb]]%lookup_insert_Some.
    + eexists. by rewrite lookup_insert_eq.
    + destruct (H9 _ _ Hb) as (d & Hbd & Hdh). exists d. rewrite lookup_insert_ne; [done|]. congruence.
  - constructor; [cbn; eexists; by rewrite lookup_insert_eq|].
    eapply tokens_mono; [..|exact H10].
    + intros x X HX _. exists X. rewrite lookup_insert_ne by congruence. done.
    + intros b d Hb _. exists d. rewrite lookup_insert_ne by congruence. done.
Qed.

(** A drained queue is freed. *)
Lemma wf_free gl m E C ev T q Q : wf gl m E C ev (TDrop q :: T) -> E !! q = Some Q -> pushed q ev = taken q ev ->
  wf gl m (delete q E) C ev T.
Proof.
  intros [H1 H2 H3 H4 H5 H6 H7 H8 H9 H10] HQ Hev. apply Forall_cons in H10 as [(Q' & HQ' & HR) H10].
  rewrite HQ in HQ'. injection HQ' as <-.
  assert (gl ++ owned (TDrop q :: T) ≡ₚ q :: gl ++ owned T) as Hp by (cbn; by rewrite <- Permutation_middle).
  rewrite Hp in H1. apply NoDup_cons in H1 as [Hnq Hnd].
  constructor; try done.
  - intros x. specialize (H2 x). rewrite Hp, elem_of_cons in H2. setoid_rewrite lookup_delete_Some.
    destruct (decide (x = q)) as [->|Hne]; [naive_solver|]. naive_solver.
  - intros x X [_ HX]%lookup_delete_Some. by apply H3.
  - intros x X [_ HX]%lookup_delete_Some. by apply H4.
  - intros x [<-|HX]%lookup_delete_None; [done|]. by apply H5.
  - intros x y X Y [_ HX]%lookup_delete_Some [_ HY]%lookup_delete_Some. by apply H6.
  - intros a c Hc. destruct (H7 a c Hc) as (R1 & R2 & (X & RX & R3 & R5) & R4).
    split; [done|]. split; [done|]. split.
    + exists X. rewrite lookup_delete_Some. split; [|done]. split; [|done]. congruence.
    + intros Hi. destruct (R4 Hi) as [Hs|]; [left|by right]. by rewrite starting_cons in Hs.
  - eapply tokens_mono; [..|exact H10]; [|eauto]. intros x X HX Hx. exists X. rewrite lookup_delete_ne; [done|].
    intros ->. apply Hnq, elem_of_app. by right.
Qed.

(** What dropping a reference to [a] leaves: one reference less, or no
    context, and its queue marked and handed to the dispatcher. *)
Definition released (gl : list nat) (m : gmap Z nat) E C ev (T : list token) (a : nat) (c : skynet_context) : Prop :=
  if c_ref c - 1 =? 0 then
    exists Q, E !! c_queue c = Some Q /\ q_release Q = 0 /\
      wf (if q_in_global Q =? MQ_IN_GLOBAL then gl else gl ++ [c_queue c]) m
        (<[c_queue c := set_release 1 Q]> E) (delete a C) ev T
  else wf gl m E (<[a := set_ref (c_ref c - 1) c]> C) ev T.

Lemma wf_delete gl m E C ev T T' a c Q : wf gl m E C ev T -> C !! a = Some c -> m !! c_handle c <> Some a ->
  E !! c_queue c = Some Q -> q_release Q = 0 -> refs a T' = 0 -> (forall b, b <> a -> refs b T' = refs b T) ->
  owned T' ≡ₚ owned T -> Forall (token_ok E C) T' ->
  (forall b d, C !! b = Some d -> c_init d = false -> m !! c_handle d = Some b ->
     starting T b (c_queue d) -> starting T' b (c_queue d)) ->
  wf (if q_in_global Q =? MQ_IN_GLOBAL then gl else gl ++ [c_queue c]) m
    (<[c_queue c := set_release 1 Q]> E) (delete a C) ev T'.
Proof.
  intros [H1 H2 H3 H4 H5 H6 H7 H8 H9 H10] Hc Hm HQ HR Hra Hr HT Htok Hst. set (gl' := if _ =? _ then _ else _).
  assert (Hin : q_in_global Q = 0 \/ q_in_global Q = 1) by apply (H3 _ _ HQ).
  assert (Hq : c_queue c ∈ gl ++ owned T <-> q_in_global Q = 1).
  { rewrite H2. unfold busy. rewrite HQ. split; [intros (Q' & [= <-] & Hb)|exists Q; split; [done|left]]; lia. }
  assert (Hown : NoDup (gl' ++ owned T') /\ forall x, x ∈ gl' ++ owned T' <-> x = c_queue c \/ x ∈ gl ++ owned T).
  { setoid_rewrite HT. subst gl'. unfold MQ_IN_GLOBAL. destruct (Z.eqb_spec (q_in_global Q) 1) as [E1|E1].
    - split; [done|]. intros x. split; [by right|]. intros [->|]; [by apply Hq|done].
    - rewrite <- app_assoc. cbn. split; [rewrite <- Permutation_middle; constructor; [by rewrite Hq|done]|].
      intros x. by rewrite <- Permutation_middle, elem_of_cons. }
  destruct Hown as [Hnd Hown].
  assert (Hb : forall b d, delete a C !! b = Some d -> b <> a /\ C !! b = Some d /\ c_queue d <> c_queue c).
  { intros b d [Hne Hd]%lookup_delete_Some. split; [done|]. split; [done|]. intros E1. apply Hne. by eapply H8. }
  constructor; try done.
  - intros x. rewrite Hown, H2. setoid_rewrite lookup_insert_Some. split.
    + intros [->|(X & HX & Hx)]; [eexists; split; [by left|by right]|].
      destruct (decide (c_queue c = x)) as [<-|Hne]; [eexists; split; [by left|by right]|]. exists X. auto.
    + intros (X & [[<- _]|[Hne HX]] & Hx); [by left|]. right. by exists X.
  - intros x X [[<- <-]|[Hne HX]]%lookup_insert_Some; [|by apply H3].
    destruct (H3 _ _ HQ) as (A & B & l & D1 & D2). split; [done|]. split; [done|]. exists l. split; [|done].
    apply mq_rep_ext with Q; try done. apply D1.
  - intros x X [[<- <-]|[Hne HX]]%lookup_insert_Some HX'; [done|].
    destruct (H4 _ _ HX HX') as (b & d & Hd & Hdx). exists b, d. split; [|done]. rewrite lookup_delete_ne; [done|]. congruence.
  - intros x [Hx _]%lookup_insert_None. by apply H5.
  - intros x y X Y HX HY Hxy.
    assert (forall z Z', <[c_queue c := set_release 1 Q]> E !! z = Some Z' -> exists Z0, E !! z = Some Z0 /\ q_handle Z' = q_handle Z0) as Hz.
    { intros z Z' [[<- <-]|[_ HZ]]%lookup_insert_Some; eauto. }
    destruct (Hz _ _ HX) as (X0 & HX0 & EX), (Hz _ _ HY) as (Y0 & HY0 & EY). eapply H6; [done..|congruence].
  - intros b d Hd. destruct (Hb _ _ Hd) as (Hne & Hd' & Hdq). destruct (H7 _ _ Hd') as (R1 & R2 & (X & RX) & R4).
    split; [by rewrite Hr|]. split; [done|]. split; [exists X; by rewrite lookup_insert_ne|].
    intros Hi. destruct (decide (m !! c_handle d = Some b)) as [E1|]; [|by right].
    left. destruct (R4 Hi) as [|]; [|done]. by apply Hst.
  - intros b e d d' Hd Hd'. apply Hb in Hd as (_ & Hd & _). apply Hb in Hd' as (_ & Hd' & _). by apply H8.
  - intros h b Hh. destruct (H9 _ _ Hh) as (d & Hd & Hdh). exists d. split; [|done]. rewrite lookup_delete_ne; [done|].
    intros <-. apply Hm. congruence.
  - eapply tokens_mono; [..|exact Htok].
    + intros x X HX _. destruct (decide (c_queue c = x)) as [<-|Hne].
      * rewrite lookup_insert_eq. eexists. split; [done|]. split; [cbn; congruence|done].
      * exists X. by rewrite lookup_insert_ne.
    + intros b d Hd Hbr. exists d. rewrite lookup_delete_ne; [done|]. intros <-. lia.
Qed.

(** [skynet_context_release] by a frame whose tokens change from [T] to [T']. *)
Lemma wf_release gl m E C ev T T' a c : wf gl m E C ev T -> C !! a = Some c -> refs a T = refs a T' + 1 ->
  (forall b, b <> a -> refs b T' = refs b T) -> owned T' ≡ₚ owned T -> Forall (token_ok E C) T' ->
  (forall b d, C !! b = Some d -> c_init d = false -> m !! c_handle d = Some b ->
     starting T b (c_queue d) -> starting T' b (c_queue d)) ->
  released gl m E C ev T' a c.
Proof.
  intros Hwf Hc Hra Hr Hown Htok Hst. pose proof (wf_ctx _ _ _ _ _ _ Hwf _ _ Hc) as (R1 & R2 & (Q & HQ & HR & HQh) & R4).
  pose proof (refs_nonneg a T'). unfold released, table_ref in *. destruct (Z.eqb_spec (c_ref c - 1) 0) as [E0|E0].
  - case_bool_decide as Hm; [lia|]. exists Q. split; [done|]. split; [done|].
    eapply wf_delete; try done. lia.
  - eapply wf_set_ctx; try done; cbn; try done.
    + split; [cbn; unfold table_ref; cbn; lia|]. split; [cbn; lia|]. split; [by exists Q|]. cbn. intros Hi.
      destruct (decide (m !! c_handle c = Some a)) as [E1|]; [|by right]. left. destruct (R4 Hi); [|done]. by eapply Hst.
    + eauto.
    + by apply tokens_set_ctx with c.
Qed.

(** ** The queue store *)

Lemma gq_rep_alloc h gl q : gq_rep h gl -> q ∈ gl -> exists Q, h_queues h !! q = Some Q.
Proof.
  intros [(g & _ & Hch & _) _] Hq. revert Hch. generalize (g_head g). induction gl as [|x gl IH]; intros p; cbn.
  - by apply not_elem_of_nil in Hq.
  - intros [-> (p' & Hp & Hch)]. apply elem_of_cons in Hq as [->|Hq]; [|by eapply IH].
    unfold links in Hp. destruct (h_queues h !! x) as [Q|]; [by exists Q|done].
Qed.

Lemma pushed_app q l k : pushed q (l ++ k) = pushed q l ++ pushed q k.
Proof. apply omap_app. Qed.

Lemma taken_app q l k : taken q (l ++ k) = taken q l ++ taken q k.
Proof. apply omap_app. Qed.

Lemma queue_ok_next ev q Q : queue_ok ev q (set_next None Q) <-> queue_ok ev q Q.
Proof. unfold queue_ok. by setoid_rewrite mq_rep_set_next. Qed.

(** [mq_pop] on a queue of a well-formed configuration. *)
Lemma pop_queue_ok ev q Q : queue_ok ev q Q ->
  exists r Q', mq_pop Q = Ok (r, Q') /\ q_handle Q' = q_handle Q /\ q_release Q' = q_release Q /\ q_next Q' = q_next Q /\
  match r with
  | Some m => q_in_global Q' = q_in_global Q /\
      forall e, e = EvPop q m \/ e = EvDrop q m -> queue_ok (ev ++ [e]) q Q'
  | None => q_in_global Q' = 0 /\ queue_ok ev q Q' /\ pushed q ev = taken q ev
  end.
Proof.
  intros (Hg & Hh & l & Hl & Hev & Hz). destruct l as [|m l].
  - do 2 eexists. split; [by apply mq_pop_empty|]. split_and!; try done. 2:{ by rewrite Hev, app_nil_r. }
    split; [by left|]. split; [done|]. exists []. split; [|done]. eapply mq_rep_ext; [..|exact Hl]; cbn; try done; lia.
  - destruct (mq_pop_rep _ _ _ Hl) as (Q' & E & Hl' & E1 & E2 & E3 & E4). exists (Some m), Q'. split; [done|].
    split_and!; try done. intros e He. unfold queue_ok. rewrite E1, E4. split; [done|]. split; [done|].
    exists l. split; [done|]. rewrite pushed_app, taken_app, Hev.
    split; [|intros E0; by specialize (Hz E0)]. destruct He as [->| ->]; cbn; rewrite Nat.eqb_refl, app_nil_r, <- app_assoc; done.
Qed.

(** An event of [q] is none of the other queues. *)
Lemma event_other x q m ev : x <> q ->
  (pushed x (ev ++ [EvPush q m]) = pushed x ev /\ taken x (ev ++ [EvPush q m]) = taken x ev) /\
  (pushed x (ev ++ [EvPop q m]) = pushed x ev /\ taken x (ev ++ [EvPop q m]) = taken x ev) /\
  (pushed x (ev ++ [EvDrop q m]) = pushed x ev /\ taken x (ev ++ [EvDrop q m]) = taken x ev).
Proof.
  intros Hx. rewrite !pushed_app, !taken_app. cbn. destruct (Nat.eqb_spec q x); [congruence|]. by rewrite !app_nil_r.
Qed.

(** ** Operations of the frames *)

Section Operations.
Context {rep : handle_storage -> node -> gmap Z nat -> Prop} {HT : HandleTable rep}.
Implicit Types (s : sched) (T : list token).

Lemma rep_node H n n' m : rep H n m -> n_ctx n' = n_ctx n -> rep H n' m.
Proof. intros Hr E. eapply ht_ext; [exact Hr|]. intros h a Ha. rewrite E. by eapply ht_ctx. Qed.

(** An operation on the queues alone. *)
Lemma inv_mq s h gl m ev T : gq_rep h gl -> rep (sc_H s) (sc_node s) m ->
  wf gl m (erase h) (n_ctx (sc_node s)) ev T -> n_total (sc_node s) = counted s ->
  inv rep (Sched (World (Node h (n_ctx (sc_node s)) (n_total (sc_node s))) (sc_H s)) (sc_harbor s) (sc_REMOTE s) ev) T.
Proof. intros Hg Hr Hw Ht. split; [|done]. exists gl, m. split; [done|]. split; [|done]. by eapply rep_node. Qed.

Lemma inv_globalmq_pop s T : inv rep s T ->
  exists r h, skynet_globalmq_pop (n_mq (sc_node s)) = Ok (r, h) /\
    inv rep (with_mq h s) (match r with Some q => TOwn q :: T | None => T end).
Proof.
  intros [(gl & m & Hg & Hr & Hw) Ht]. destruct gl as [|q gl].
  - exists None, (n_mq (sc_node s)). split; [by apply globalmq_pop_nil|]. by eapply inv_mq.
  - destruct (globalmq_pop_cons _ _ _ Hg) as (h & E & Hg' & Eh). exists (Some q), h. split; [done|].
    eapply inv_mq; [done..| |done]. rewrite Eh. eapply wf_tokens; [exact Hw|..]; cbn; try done.
    + by rewrite <- Permutation_middle.
    + constructor; [done|]. by eapply wf_tok.
    + intros a c _ _ _. by rewrite starting_cons.
Qed.

(** The owner of a queue may push it. *)
Lemma inv_globalmq_push s T q : inv rep s (TOwn q :: T) ->
  exists h, skynet_globalmq_push q (n_mq (sc_node s)) = Ok h /\ inv rep (with_mq h s) T.
Proof.
  intros [(gl & m & Hg & Hr & Hw) Ht].
  assert (q ∈ gl ++ owned (TOwn q :: T)) as Hq by (apply elem_of_app; right; apply list_elem_of_here).
  pose proof (wf_nodup _ _ _ _ _ _ Hw) as Hnd. cbn in Hnd. rewrite <- Permutation_middle in Hnd.
  apply NoDup_cons in Hnd as [Hnq Hnd].
  apply (wf_own _ _ _ _ _ _ Hw) in Hq as (Q & HQ & _). rewrite erase_lookup in HQ.
  destruct (h_queues (n_mq (sc_node s)) !! q) as [Q0|] eqn:EQ; [|done].
  destruct (globalmq_push_rep _ _ _ _ Hg EQ) as (h & E & Hg' & Eh); [set_solver|]. exists h. split; [done|].
  eapply inv_mq; [done..| |done]. rewrite Eh. eapply wf_tokens; [exact Hw|..]; cbn; try done.
  - rewrite <- app_assoc. done.
  - pose proof (wf_tok _ _ _ _ _ _ Hw) as Htok. by apply Forall_cons in Htok as [_ ?].
  - intros a c _ _ _. by rewrite starting_cons.
Qed.

(** Changing a context without releasing it. *)
Lemma inv_set_ctx s H m m' gl T T' a c c' : gq_rep (n_mq (sc_node s)) gl -> rep H (sc_node s) m' ->
  wf gl m (erase (n_mq (sc_node s))) (n_ctx (sc_node s)) (sc_log s) T ->
  n_total (sc_node s) = counted s ->
  n_ctx (sc_node s) !! a = Some c -> c_handle c' = c_handle c -> 
  wf gl m' (erase (n_mq (sc_node s))) (<[a := c']> (n_ctx (sc_node s))) (sc_log s) T' ->
  inv rep (with_H H (with_node (put_ctx a c' (sc_node s)) s)) T'.
Proof.
  intros Hg Hr Hw Ht Hc Hh Hw'. split; cbn.
  - exists gl, m'. split; [done|]. split; [|done]. eapply ht_ext; [exact Hr|]. intros h b Hb. cbn.
    destruct (wf_reg _ _ _ _ _ _ Hw' _ _ Hb) as (d & Hd & Hdh). by exists d.
  - unfold counted, reserved in *. cbn in *. rewrite map_size_insert_Some; [done|]. by exists c.
Qed.

(** [skynet_handle_grab]: a reference, and the context of a queue somebody
    else owns is initialised. *)
Lemma inv_grab s T h : inv rep s T ->
  exists r n, skynet_handle_grab h (sc_node s) (sc_H s) = Ok (r, n) /\
    match r with
    | Some a => inv rep (with_node n s) (TRef a :: T) /\
        exists c, n_ctx n !! a = Some c /\ forall q, TOwn q ∈ T -> skynet_mq_handle q (n_mq (sc_node s)) = Ok h ->
          c_queue c = q /\ c_init c = true
    | None => inv rep (with_node n s) T
    end.
Proof.
  intros [(gl & m & Hg & Hr & Hw) Ht]. unfold skynet_handle_grab.
  destruct (ht_find _ _ _ h Hr) as (r & -> & Er). cbn [mbind result_bind].
  destruct r as [[a hash]|]; cbn in Er.
  - destruct (ht_ctx _ _ _ _ _ Hr (eq_sym Er)) as (c & Hc & Hch). unfold skynet_context_grab. rewrite Hc. cbn.
    destruct (wf_ctx _ _ _ _ _ _ Hw _ _ Hc) as (R1 & R2 & (Q & R3 & R3' & R3'') & R4).
    do 2 eexists. split; [done|]. split; cycle 1.
    { eexists. cbn. rewrite lookup_insert_eq. split; [done|]. cbn. intros q Hq Hqh.
      unfold skynet_mq_handle in Hqh. destruct (h_queues (n_mq (sc_node s)) !! q) as [Q0|] eqn:EQ; [|done]. cbn in Hqh. inv_res.
      assert (c_queue c = q) as <-.
      { eapply wf_handles; [exact Hw|exact R3|by rewrite erase_lookup, EQ|]. cbn. congruence. }
      split; [done|]. destruct (c_init c) eqn:Ei; [done|].
      pose proof (wf_nodup _ _ _ _ _ _ Hw) as Hnd. apply NoDup_app in Hnd as (_ & _ & Hnd).
      destruct (R4 eq_refl) as [[[Hs|Hs]|[h' Hs]]|Hm]; [..|congruence];
        by pose proof (owned_unique _ _ _ _ Hnd Hq Hs eq_refl eq_refl). }
    eapply (inv_set_ctx s (sc_H s) m m); try done.
    eapply wf_set_ctx; [exact Hw|exact Hc|..]; try done; cbn.
    + unfold ctx_ok, table_ref in *. cbn.
      rewrite (bool_decide_true (Some a = Some a)) by done. rewrite starting_cons by done.
      split; [lia|]. split; [lia|]. split; [by exists Q|done].
    + intros b Hb. rewrite bool_decide_false by (intros [=]; congruence). lia.
    + intros b d Hb _ _ _. by rewrite starting_cons.
    + constructor; [eexists; by rewrite lookup_insert_eq|]. apply tokens_set_ctx with c; try done. by eapply wf_tok.
  - exists None, (sc_node s). split; [done|]. split; [|done]. by exists gl, m.
Qed.

(** The worker that owns the queue of the context it grabbed. *)
Lemma inv_run s T a q c : inv rep s (TRef a :: T) -> n_ctx (sc_node s) !! a = Some c -> c_queue c = q -> c_init c = true ->
  inv rep s (TRun a q :: T).
Proof.
  intros [(gl & m & Hg & Hr & Hw) Ht] Hc Hq Hi. split; [|done]. exists gl, m. split; [done|]. split; [done|].
  eapply wf_tokens; [exact Hw|..]; cbn; try done.
  - constructor; [by exists c|]. pose proof (wf_tok _ _ _ _ _ _ Hw) as Htok. by apply Forall_cons in Htok as [_ ?].
  - intros b d _ _ _. by rewrite !starting_cons.
Qed.

Lemma mark_release_rep h gl q Q : gq_rep h gl -> h_queues h !! q = Some Q -> q_release Q = 0 ->
  (q_in_global Q <> 1 -> q ∉ gl) ->
  exists h', skynet_mq_mark_release q h = Ok h' /\ gq_rep h' (if q_in_global Q =? MQ_IN_GLOBAL then gl else gl ++ [q]) /\
    erase h' = <[q := set_next None (set_release 1 Q)]> (erase h).
Proof.
  intros Hg HQ HR Hn. unfold skynet_mq_mark_release. rewrite HQ. cbn [deref mbind result_bind]. rewrite HR. cbn [Z.eqb assert_ mbind result_bind].
  assert (gq_rep (store q (set_release 1 Q) h) gl) as Hg' by by apply gq_rep_store with Q.
  unfold MQ_IN_GLOBAL in *. destruct (Z.eqb_spec (q_in_global Q) 1) as [E|E]; cbn [negb].
  - eexists. split; [done|]. split; [done|]. apply erase_store.
  - destruct (globalmq_push_rep _ _ q (set_release 1 Q) Hg') as (h' & E' & Hh' & Eh); [cbn; by rewrite lookup_insert_eq|auto|].
    exists h'. split; [done|]. split; [done|]. rewrite Eh. apply erase_store.
Qed.

(** A queue is changed, and nobody gains or loses it. *)
Lemma inv_set_queue s T q Q Q' ev : inv rep s T -> h_queues (n_mq (sc_node s)) !! q = Some Q ->
  q_handle Q' = q_handle Q -> q_release Q' = q_release Q -> q_next Q' = q_next Q -> q_in_global Q' = q_in_global Q ->
  queue_ok ev q Q' -> (forall x, x <> q -> pushed x ev = pushed x (sc_log s) /\ taken x ev = taken x (sc_log s)) ->
  inv rep (Sched (World (Node (store q Q' (n_mq (sc_node s))) (n_ctx (sc_node s)) (n_total (sc_node s))) (sc_H s)) (sc_harbor s) (sc_REMOTE s) ev) T.
Proof.
  intros [(gl & m & Hg & Hr & Hw) Ht] HQ E1 E2 E3 E4 Hok Hev. eapply inv_mq; [|done| |done].
  - by eapply gq_rep_store.
  - rewrite erase_store. eapply wf_set_queue; [exact Hw|by rewrite erase_lookup, HQ|..]; try done.
    + by apply queue_ok_next.
    + by eapply wf_nodup.
    + intros x. destruct (decide (x = q)) as [->|Hne]; [|naive_solver]. rewrite (wf_own _ _ _ _ _ _ Hw), erase_lookup, HQ.
      unfold busy. cbn. rewrite E2, E4. split; [intros (? & [= <-] & ?); by right|]. intros [[? _]|[_ ?]]; [done|].
      by eexists.
    + by eapply wf_tok.
Qed.

(** [skynet_context_release] turns the tokens [T] into [T']. *)
Lemma inv_release s T T' a c : inv rep s T -> n_ctx (sc_node s) !! a = Some c -> refs a T = refs a T' + 1 ->
  (forall b, b <> a -> refs b T' = refs b T) -> owned T' ≡ₚ owned T ->
  (forall E C, Forall (token_ok E C) T -> Forall (token_ok E C) T') ->
  (forall b d, n_ctx (sc_node s) !! b = Some d -> c_init d = false -> starting T b (c_queue d) -> starting T' b (c_queue d)) ->
  exists r n, skynet_context_release a (sc_node s) = Ok (r, n) /\ inv rep (with_node n s) T' /\
    (r = None \/ r = Some a /\ n = put_ctx a (set_ref (c_ref c - 1) c) (sc_node s)).
Proof.
  intros [(gl & m & Hg & Hr & Hw) Ht] Hc Hra Hrb Hown Htok Hst.
  assert (released gl m (erase (n_mq (sc_node s))) (n_ctx (sc_node s)) (sc_log s) T' a c) as Hrel.
  { eapply wf_release; try done; [by eapply Htok, wf_tok|eauto]. }
  unfold skynet_context_release. rewrite Hc. cbn [deref mbind result_bind]. unfold released in Hrel.
  destruct (c_ref c - 1 =? 0).
  - destruct Hrel as (Q & HQ & HR & Hwf). rewrite erase_lookup in HQ.
    destruct (h_queues (n_mq (sc_node s)) !! c_queue c) as [Q0|] eqn:EQ; [|done]. cbn in HQ. injection HQ as <-.
    destruct (mark_release_rep _ _ _ _ Hg EQ HR) as (h' & E & Hg' & Eh).
    { intros Hin Hq. assert (c_queue c ∈ gl ++ owned T) as Hq' by (apply elem_of_app; by left).
      apply (wf_own _ _ _ _ _ _ Hw) in Hq' as (Q & HQ & Hb). rewrite erase_lookup, EQ in HQ. cbn in HQ. injection HQ as <-.
      destruct (wf_queue _ _ _ _ _ _ Hw (c_queue c) (set_next None Q0)) as [Hin' _]; [by rewrite erase_lookup, EQ|].
      unfold busy in Hb. cbn in *. lia. }
    unfold delete_context. cbn. rewrite lookup_insert_eq. cbn. rewrite E. cbn. do 2 eexists. split; [done|].
    split; [|by left]. rewrite delete_insert_eq. split; cbn.
    + eexists _, m. split; [exact Hg'|]. split; [|by rewrite Eh].
      eapply ht_ext; [exact Hr|]. intros h b Hb. cbn. by apply (wf_reg _ _ _ _ _ _ Hwf).
    + rewrite Ht. unfold counted, reserved. cbn. rewrite map_size_delete_Some by (by exists c).
      assert (size (n_ctx (sc_node s)) <> O).
      { apply map_size_non_empty_iff. intros E0. by rewrite E0, lookup_empty in Hc. }
      lia.
  - do 2 eexists. split; [done|]. split; [|by right].
    exact (inv_set_ctx s (sc_H s) m m gl T T' a c (set_ref (c_ref c - 1) c) Hg Hr Hw Ht Hc eq_refl Hrel).
Qed.

(** The usual case: the frame gives up one plain reference. *)
Lemma inv_release_ref s T t a : inv rep s (t :: T) -> t = TRef a \/ (exists q, t = TRun a q) ->
  exists r n, skynet_context_release a (sc_node s) = Ok (r, n) /\ inv rep (with_node n s) T.
Proof.
  intros Hi Ht. assert (token_ref t = Some a /\ token_queue t = None) as [Hta Htq] by (by destruct Ht as [->|[q ->]]).
  assert (exists c, n_ctx (sc_node s) !! a = Some c) as [c Hc].
  { destruct Hi as [(gl & m & _ & _ & Hw) _]. eapply token_ref_alive; [exact Hw|apply list_elem_of_here|done]. }
  destruct (inv_release s (t :: T) T a c) as (r & n & E & Hn & _); cbn; rewrite ?Htq; try done.
  - rewrite bool_decide_true by done. lia.
  - intros b Hb. rewrite bool_decide_false by congruence. lia.
  - intros E C H. by apply Forall_cons in H as [_ ?].
  - intros b d _ _. rewrite starting_cons; [done|]. by destruct Ht as [->|[q ->]].
  - by exists r, n.
Qed.

(** The queue of a token is allocated, and of an initialised context is not released. *)
Lemma inv_owned s T q : inv rep s T -> q ∈ owned T ->
  exists Q, h_queues (n_mq (sc_node s)) !! q = Some Q /\ busy Q /\ queue_ok (sc_log s) q Q.
Proof.
  intros [(gl & m & _ & _ & Hw) _] Hq.
  assert (q ∈ gl ++ owned T) as Hq' by (apply elem_of_app; by right).
  apply (wf_own _ _ _ _ _ _ Hw) in Hq' as (Q & HQ & Hb). pose proof (wf_queue _ _ _ _ _ _ Hw _ _ HQ) as Hok.
  rewrite erase_lookup in HQ. destruct (h_queues (n_mq (sc_node s)) !! q) as [Q0|]; [|done]. cbn in HQ. injection HQ as <-.
  exists Q0. split; [done|]. split; [done|]. by apply queue_ok_next.
Qed.

Lemma inv_ctx_queue s T a c : inv rep s T -> n_ctx (sc_node s) !! a = Some c ->
  exists Q, h_queues (n_mq (sc_node s)) !! c_queue c = Some Q /\ q_release Q = 0 /\ queue_ok (sc_log s) (c_queue c) Q.
Proof.
  intros [(gl & m & _ & _ & Hw) _] Hc.
  destruct (wf_ctx _ _ _ _ _ _ Hw _ _ Hc) as (_ & _ & (Q & HQ & HR & _) & _).
  pose proof (wf_queue _ _ _ _ _ _ Hw _ _ HQ) as Hok. rewrite erase_lookup in HQ.
  destruct (h_queues (n_mq (sc_node s)) !! c_queue c) as [Q0|]; [|done]. cbn in HQ. injection HQ as <-.
  exists Q0. split; [done|]. split; [done|]. by apply queue_ok_next.
Qed.

(** [skynet_mq_pop] by the worker: a message, or the queue is left to the next sender. *)
Lemma inv_mq_pop s T q a : inv rep s (TOwn q :: TRun a q :: T) ->
  exists r h, skynet_mq_pop q (n_mq (sc_node s)) = Ok (r, h) /\
    match r with
    | Some m => inv rep (log_event (EvPop q m) (with_mq h s)) (TOwn q :: TRun a q :: T)
    | None => inv rep (with_mq h s) (TRun a q :: T)
    end.
Proof.
  intros Hi. destruct (inv_owned _ _ q Hi) as (Q & HQ & _ & Hok); [apply list_elem_of_here|].
  destruct (pop_queue_ok _ _ _ Hok) as (r & Q' & E & E1 & E2 & E3 & Hr).
  unfold skynet_mq_pop. rewrite HQ. cbn. rewrite E. cbn. do 2 eexists. split; [done|]. destruct r as [m|].
  - destruct Hr as [E4 Hok']. eapply (inv_set_queue s _ q Q Q'); try done; [apply Hok'; by left|].
    intros x Hx. by apply event_other.
  - destruct Hr as (E4 & Hok' & _). pose proof Hi as [(gl & m & Hg & Hrep & Hw) Ht].
    assert (q_release Q = 0) as HR.
    { pose proof (wf_tok _ _ _ _ _ _ Hw) as Htok. apply Forall_cons in Htok as [_ Htok].
      apply Forall_cons in Htok as [(c & Hc & Hcq & _) _]. destruct (inv_ctx_queue _ _ _ _ Hi Hc) as (Q0 & HQ0 & HR0 & _).
      congruence. }
    pose proof (wf_nodup _ _ _ _ _ _ Hw) as Hnd. cbn in Hnd. rewrite <- Permutation_middle in Hnd. apply NoDup_cons in Hnd as [Hnq Hnd].
    eapply inv_mq; [by eapply gq_rep_store|done| |done].
    rewrite erase_store. eapply wf_set_queue; [exact Hw|by rewrite erase_lookup, HQ|..]; try done.
    + by apply queue_ok_next.
    + intros x. cbn. rewrite <- Permutation_middle, elem_of_cons. unfold busy. cbn. rewrite E2, E4. set_solver.
    + pose proof (wf_tok _ _ _ _ _ _ Hw) as Htok. by apply Forall_cons in Htok as [_ ?].
    + intros b d _ _ _. by rewrite starting_cons.
Qed.

(** [skynet_mq_pop] of [_drop_queue]: a message, or the queue is freed. *)
Lemma inv_mq_drop s T q : inv rep s (TDrop q :: T) ->
  exists r h, skynet_mq_pop q (n_mq (sc_node s)) = Ok (r, h) /\
    match r with
    | Some m => inv rep (log_event (EvDrop q m) (with_mq h s)) (TDrop q :: T)
    | None => exists h', _release q h = Ok h' /\ inv rep (with_mq h' s) T
    end.
Proof.
  intros Hi. destruct (inv_owned _ _ q Hi) as (Q & HQ & Hb & Hok); [apply list_elem_of_here|].
  destruct (pop_queue_ok _ _ _ Hok) as (r & Q' & E & E1 & E2 & E3 & Hr).
  unfold skynet_mq_pop. rewrite HQ. cbn. rewrite E. cbn. do 2 eexists. split; [done|]. destruct r as [m|].
  - destruct Hr as [E4 Hok']. eapply (inv_set_queue s _ q Q Q'); try done; [apply Hok'; by right|].
    intros x Hx. by apply event_other.
  - destruct Hr as (_ & _ & Hev). pose proof Hi as [(gl & m & Hg & Hrep & Hw) Ht].
    assert (q ∉ gl) as Hnq.
    { pose proof (wf_nodup _ _ _ _ _ _ Hw) as Hnd. cbn in Hnd. rewrite <- Permutation_middle in Hnd.
      apply NoDup_cons in Hnd as [Hnq _]. set_solver. }
    unfold _release. cbn. rewrite lookup_insert_eq. cbn. rewrite E3, (gq_out _ _ Hg _ _ HQ Hnq). cbn.
    eexists. split; [done|]. rewrite delete_insert_eq. eapply inv_mq; [|done| |done].
    + eapply gq_rep_ext; [exact Hg|done|..].
      * intros x Hx. unfold links. cbn. rewrite lookup_delete_ne; [done|]. by intros ->.
      * cbn. intros x X [_ HX]%lookup_delete_Some Hx. by eapply gq_out.
    + replace (erase (Heap (delete q (h_queues (n_mq (sc_node s)))) (hQ (n_mq (sc_node s))))) with (delete q (erase (n_mq (sc_node s)))).
      * eapply wf_free; [exact Hw|by rewrite erase_lookup, HQ|done].
      * unfold erase. cbn. by rewrite fmap_delete.
Qed.

(** A released queue is drained. *)
Lemma inv_drop s T q Q : inv rep s (TOwn q :: T) -> h_queues (n_mq (sc_node s)) !! q = Some Q -> q_release Q <> 0 ->
  inv rep s (TDrop q :: T).
Proof.
  intros [(gl & m & Hg & Hr & Hw) Ht] HQ HR. split; [|done]. exists gl, m. split; [done|]. split; [done|].
  eapply wf_tokens; [exact Hw|..]; cbn; try done.
  - constructor; [exists (set_next None Q); by rewrite erase_lookup, HQ|].
    pose proof (wf_tok _ _ _ _ _ _ Hw) as Htok. by apply Forall_cons in Htok as [_ ?].
  - intros b d _ _ _. by rewrite !starting_cons.
Qed.

(** [skynet_mq_push] into the queue of an existing context. *)
Lemma inv_mq_push s T a c m : inv rep s T -> n_ctx (sc_node s) !! a = Some c ->
  (forall Q, h_queues (n_mq (sc_node s)) !! c_queue c = Some Q -> skynet_mq_length Q + 1 < 2 ^ 30) ->
  exists h, skynet_mq_push (c_queue c) m (n_mq (sc_node s)) = Ok h /\
    inv rep (log_event (EvPush (c_queue c) m) (with_mq h s)) T.
Proof.
  intros Hi Hc Hlen. destruct (inv_ctx_queue _ _ _ _ Hi Hc) as (Q & HQ & HR & Hin & Hh & l & Hl & Hev & Hz).
  specialize (Hlen _ HQ). rewrite (mq_length_rep _ _ Hl) in Hlen.
  destruct (mq_put_rep _ _ m Hl Hlen) as (Q' & E & Hl' & E1 & E2 & E3 & E4).
  assert (forall g, g = 1 -> queue_ok (sc_log s ++ [EvPush (c_queue c) m]) (c_queue c) (set_in_global g Q')) as Hok.
  { intros g ->. split; [by right|]. split; [cbn; congruence|]. exists (l ++ [m]). split.
    - eapply mq_rep_ext; [..|exact Hl']; try done. by destruct Hl'.
    - rewrite pushed_app, taken_app, Hev. cbn. rewrite Nat.eqb_refl, app_nil_r, app_assoc. done. }
  unfold skynet_mq_push. rewrite HQ. cbn [deref mbind result_bind]. rewrite E. cbn [mbind result_bind].
  rewrite E1. destruct (Z.eqb_spec (q_in_global Q) 0) as [E0|E0].
  - pose proof Hi as [(gl & tm & Hg & Hrep & Hw) Ht].
    assert (c_queue c ∉ gl ++ owned T) as Hnq.
    { rewrite (wf_own _ _ _ _ _ _ Hw), erase_lookup, HQ. intros (Q0 & [= <-] & [Hb|Hb]); cbn in Hb; lia. }
    assert (gq_rep (store (c_queue c) (set_in_global MQ_IN_GLOBAL Q') (n_mq (sc_node s))) gl) as Hg' by by apply gq_rep_store with Q.
    destruct (globalmq_push_rep _ _ (c_queue c) (set_in_global MQ_IN_GLOBAL Q') Hg') as (h & Eh & Hgh & Hh').
    { cbn. by rewrite lookup_insert_eq. } { set_solver. }
    exists h. split; [done|]. apply (inv_mq s h (gl ++ [c_queue c]) tm (sc_log s ++ [EvPush (c_queue c) m])); [done..| |done].
    rewrite Hh', erase_store.
    eapply wf_set_queue; [exact Hw|by rewrite erase_lookup, HQ|..]; try done.
    + apply queue_ok_next. by apply Hok.
    + intros x Hx. by apply event_other.
    + rewrite <- app_assoc. cbn. rewrite <- Permutation_middle. constructor; [done|]. by eapply wf_nodup.
    + intros x. rewrite <- app_assoc. cbn. rewrite <- Permutation_middle, elem_of_cons. unfold busy. cbn.
      destruct (decide (x = c_queue c)) as [->|Hne]; [|naive_solver]. split; [|by left]. intros _. right. split; [done|]. by left.
    + by eapply wf_tok.
  - eexists. split; [done|]. eapply (inv_set_queue s _ (c_queue c) Q Q'); try done.
    + assert (q_in_global Q = 1) as E5 by lia. specialize (Hok 1 eq_refl). destruct Hok as (_ & Hk1 & l' & Hk2 & Hk3 & _).
      split; [right; congruence|]. split; [done|]. exists l'. split; [|split; [done|congruence]].
      eapply mq_rep_ext; [..|exact Hk2]; try done. by destruct Hl'.
    + intros x Hx. by apply event_other.
Qed.

(** A worker forgets that the context it holds is running. *)
Lemma inv_stop s T a q : inv rep s (TRun a q :: T) -> inv rep s (TRef a :: T).
Proof.
  intros [(gl & m & Hg & Hr & Hw) Ht]. split; [|done]. exists gl, m. split; [done|]. split; [done|].
  eapply wf_tokens; [exact Hw|..]; cbn; try done.
  - pose proof (wf_tok _ _ _ _ _ _ Hw) as Htok. apply Forall_cons in Htok as [(c & Hc & _) ?]. constructor; [by exists c|done].
  - intros b d _ _ _. by rewrite !starting_cons.
Qed.

(** The locked part of [skynet_handle_retire] by a frame whose tokens change
    from [T] to [T'], which may give up starting the context of [h]. *)
Lemma inv_retire s T T' h : inv rep s T -> (forall b, refs b T' = refs b T) -> owned T' = owned T ->
  (forall E C, Forall (token_ok E C) T -> Forall (token_ok E C) T') ->
  (forall b d, n_ctx (sc_node s) !! b = Some d -> c_handle d <> h -> starting T b (c_queue d) -> starting T' b (c_queue d)) ->
  exists r H, retire_locked h (sc_node s) (sc_H s) = Ok (r, H) /\
    match r with
    | Some a => inv rep (with_H H s) (TRef a :: T')
    | None => inv rep (with_H H s) T'
    end.
Proof.
  intros [(gl & m & Hg & Hr & Hw) Ht] Href Hown Htok Hst.
  destruct (ht_retire _ _ _ h Hr) as (H & E & Hr'). exists (m !! h), H. split; [done|].
  assert (forall b d, n_ctx (sc_node s) !! b = Some d -> delete h m !! c_handle d = Some b ->
    starting T b (c_queue d) -> starting T' b (c_queue d)) as Hst'.
  { intros b d Hd [Hne _]%lookup_delete_Some. by apply Hst. }
  destruct (m !! h) as [a|] eqn:Em.
  - destruct (wf_reg _ _ _ _ _ _ Hw _ _ Em) as (c & Hc & Hch).
    destruct (wf_ctx _ _ _ _ _ _ Hw _ _ Hc) as (R1 & R2 & (Q & R3) & R4).
    assert (delete h m !! c_handle c = None) as Edel by (by rewrite Hch, lookup_delete_eq).
    split; [|done]. exists gl, (delete h m). split; [done|]. split; [done|].
    change (wf gl (delete h m) (erase (n_mq (sc_node s))) (n_ctx (sc_node s)) (sc_log s) (TRef a :: T')).
    rewrite <- (insert_id (n_ctx (sc_node s)) a c) by done. eapply wf_set_ctx; [exact Hw|exact Hc|..]; try done; cbn.
    + unfold ctx_ok, table_ref in *. cbn. rewrite Edel, Href, bool_decide_false, bool_decide_true by done.
      rewrite Hch, Em, bool_decide_true in R1 by done.
      split; [lia|]. split; [lia|]. split; [by exists Q|]. by right.
    + change (owned T' ≡ₚ owned T). by rewrite Hown.
    + intros b Hb. rewrite bool_decide_false by (intros [=]; congruence). by rewrite Href.
    + intros h' b Hb. rewrite lookup_delete_Some. split; [naive_solver|]. intros Hb'. split; [|done]. congruence.
    + intros h' [_ ?]%lookup_delete_Some. done.
    + intros b d Hb Hd _ Hm. rewrite starting_cons by done. apply Hst; [done|].
      intros Hdh. rewrite Hdh in Hm. congruence.
    + rewrite insert_id by done. constructor; [by exists c|]. by eapply Htok, wf_tok.
  - rewrite delete_id in Hr', Hst' by done. split; [|done]. exists gl, m. split; [done|]. split; [done|].
    eapply wf_tokens; [exact Hw|..]; try done.
    + by rewrite Hown.
    + by eapply Htok, wf_tok.
    + intros b d Hd _ Hm. by apply Hst'.
Qed.

(** A context and its queue, from the registration to [context_inc]. *)
Lemma inv_create s T a q h H : inv rep s T -> n_ctx (sc_node s) !! a = None -> h_queues (n_mq (sc_node s)) !! q = None ->
  s_slot_size (sc_H s) < 2 ^ 24 -> skynet_handle_register a (put_ctx a (new_context q) (sc_node s)) (sc_H s) = Ok (h, H) ->
  h <> 0 -> (forall q' mq, h_queues (n_mq (sc_node s)) !! q' = Some mq -> q_handle mq <> h) ->
  inv rep (with_H H (with_node (Node (skynet_mq_create q h (n_mq (sc_node s))) (<[a := set_handle h (new_context q)]> (n_ctx (sc_node s)))
                                 (n_total (sc_node s) + 1)) s)) (TInit a q :: T).
Proof.
  intros [(gl & m & Hg & Hr & Hw) Ht] Ha Hq Hroom E Hh0 Hfr.
  set (n1 := put_ctx a (new_context q) (sc_node s)) in *.
  assert (Hna : forall h, m !! h <> Some a).
  { intros h' Hh. destruct (wf_reg _ _ _ _ _ _ Hw _ _ Hh) as (c & Hc & _). congruence. }
  assert (rep (sc_H s) n1 m) as Hr1.
  { eapply ht_ext; [exact Hr|]. intros h' b Hb. destruct (wf_reg _ _ _ _ _ _ Hw _ _ Hb) as (d & Hd & Hdh).
    exists d. cbn. rewrite lookup_insert_ne; [done|]. congruence. }
  destruct (ht_register _ _ _ a (new_context q) Hr1) as (h' & H' & E' & Hmh & Hr2); [cbn; by rewrite lookup_insert_eq|done..|].
  rewrite E in E'. injection E' as <- <-.
  assert (forall x X, erase (n_mq (sc_node s)) !! x = Some X -> q_handle X <> h) as Hfr'.
  { intros x X HX. rewrite erase_lookup in HX. destruct (h_queues (n_mq (sc_node s)) !! x) as [X0|] eqn:EX; [|done].
    cbn in HX. injection HX as <-. cbn. by eapply Hfr. }
  assert (put_ctx a (set_handle h (new_context q)) n1 = put_ctx a (set_handle h (new_context q)) (sc_node s)) as En.
  { unfold n1, put_ctx. cbn. by rewrite insert_insert_eq. }
  rewrite En in Hr2. split; cbn.
  - exists gl, (<[h := a]> m). split; [|split].
    + eapply gq_rep_ext; [exact Hg|done|..].
      * intros x Hx. unfold links. cbn. rewrite lookup_insert_ne; [done|]. intros <-.
        destruct (gq_rep_alloc _ _ _ Hg Hx). congruence.
      * cbn. intros x X [[<- <-]|[_ HX]]%lookup_insert_Some Hx; [done|]. by eapply gq_out.
    + by eapply rep_node.
    + change (wf gl (<[h := a]> m) (erase (store q (mq_new h) (n_mq (sc_node s))))
        (<[a := set_handle h (new_context q)]> (n_ctx (sc_node s))) (sc_log s) (TInit a q :: T)).
      rewrite erase_store. apply wf_create; try done. by rewrite erase_lookup, Hq.
  - unfold counted, reserved in *. cbn in *. rewrite map_size_insert_None by done. lia.
Qed.

(** The context of a token, with its queue. *)
Lemma inv_init_ctx s T a q : inv rep s (TInit a q :: T) -> exists c, n_ctx (sc_node s) !! a = Some c /\ c_queue c = q.
Proof.
  intros [(gl & m & _ & _ & Hw) _]. pose proof (wf_tok _ _ _ _ _ _ Hw) as Htok. by apply Forall_cons in Htok as [? _].
Qed.

(** The init function returned 0: the creator's reference is given up. *)
Lemma inv_started s T a q : inv rep s (TInit a q :: T) ->
  exists r n, skynet_context_release a (sc_node s) = Ok (r, n) /\
    inv rep (with_node n s) ((match r with Some a => TStart a q | None => TOwn q end) :: T).
Proof.
  intros Hi. destruct (inv_init_ctx _ _ _ _ Hi) as (c & Hc & Hcq).
  destruct (inv_release _ _ (TStart a q :: T) a c Hi Hc) as (r & n & E & Hn & Hr); cbn; try done.
  - rewrite bool_decide_true, bool_decide_false by done. lia.
  - intros b Hb. rewrite !bool_decide_false by congruence. lia.
  - intros E C H. apply Forall_cons in H as [_ H]. by constructor.
  - intros b d Hd Hdi Hs. unfold starting in *. set_solver.
  - exists r, n. split; [done|]. destruct Hr as [->|[-> _]]; [|done]. cbn [app] in *.
    destruct Hn as [(gl & m & Hg & Hrep & Hw) Ht]. split; [|done]. exists gl, m. split; [done|]. split; [done|].
    assert (n_ctx n !! a = None) as Hna.
    { unfold skynet_context_release in E. rewrite Hc in E. cbn [deref mbind result_bind] in E.
      destruct (c_ref c - 1 =? 0); [|done]. unfold delete_context in E. cbn in E. rewrite lookup_insert_eq in E. cbn in E.
      destruct (skynet_mq_mark_release (c_queue c) (n_mq (sc_node s))); [|done..]. cbn in E. injection E as <-. cbn. by rewrite lookup_delete_eq. }
    eapply wf_tokens; [exact Hw|..]; cbn; try done.
    + constructor; [done|]. pose proof (wf_tok _ _ _ _ _ _ Hw) as Htok. by apply Forall_cons in Htok as [_ ?].
    + intros b d Hb _ _ Hs. rewrite starting_cons by done. cbn in Hb.
      destruct Hs as [[Hs|Hs]|[h Hs]]; apply elem_of_cons in Hs as [Hs|Hs]; try done; [by left; left| |by left; right|by right; exists h].
      injection Hs as -> _. congruence.
Qed.

(** [ctx->init = true]. *)
Lemma inv_set_init s T a q c : inv rep s (TStart a q :: T) -> n_ctx (sc_node s) !! a = Some c ->
  inv rep (with_node (put_ctx a (set_init true c) (sc_node s)) s) (TOwn q :: T).
Proof.
  intros [(gl & m & Hg & Hr & Hw) Ht] Hc. eapply (inv_set_ctx s (sc_H s) m m gl); try done.
  destruct (wf_ctx _ _ _ _ _ _ Hw _ _ Hc) as (R1 & R2 & R3 & R4).
  eapply wf_set_ctx; [exact Hw|exact Hc|..]; try done.
  - intros b d Hb _ _ _ Hs. rewrite starting_cons by done.
    destruct Hs as [[Hs|Hs]|[h Hs]]; apply elem_of_cons in Hs as [Hs|Hs]; try done; [by left; left|congruence|by left; right|by right; exists h].
  - pose proof (wf_tok _ _ _ _ _ _ Hw) as Htok. apply Forall_cons in Htok as [_ Htok]. constructor; [done|].
    by apply tokens_set_ctx with c.
Qed.

(** The init function failed: the creator's reference is given up. *)
Lemma inv_failed s T a q c : inv rep s (TInit a q :: T) -> n_ctx (sc_node s) !! a = Some c ->
  exists r n, skynet_context_release a (sc_node s) = Ok (r, n) /\ inv rep (with_node n s) (TNew q (c_handle c) :: T).
Proof.
  intros Hi Hc. pose proof Hi as [(gl & m & Hg & Hr & Hw) Ht].
  pose proof (wf_tok _ _ _ _ _ _ Hw) as Htok. apply Forall_cons in Htok as [(c' & Hc' & Hcq) Htok].
  rewrite Hc in Hc'. injection Hc' as <-.
  destruct (wf_ctx _ _ _ _ _ _ Hw _ _ Hc) as (R1 & R2 & (Q & R3 & R5 & R6) & R4).
  assert (inv rep s (TRef a :: TNew q (c_handle c) :: T)) as Hi1.
  { split; [|done]. exists gl, m. split; [done|]. split; [done|]. eapply wf_tokens; [exact Hw|..]; cbn; try done.
    - constructor; [by exists c|]. constructor; [exists Q; rewrite <- Hcq; done|done].
    - intros b d Hd _ _ Hs. rewrite starting_cons by done.
      destruct Hs as [[Hs|Hs]|[h Hs]]; apply elem_of_cons in Hs as [Hs|Hs]; try done.
      + injection Hs as -> <-. right. exists (c_handle c). apply list_elem_of_here.
      + left. left. by apply list_elem_of_further.
      + left. right. by apply list_elem_of_further.
      + right. exists h. by apply list_elem_of_further. }
  destruct (inv_release_ref _ _ (TRef a) a Hi1) as (r & n & E & Hn); [by left|]. by exists r, n.
Qed.

(** What a service does to its context keeps the invariant. *)
Lemma inv_update s T a c u : inv rep s T -> n_ctx (sc_node s) !! a = Some c ->
  inv rep (with_node (put_ctx a (apply_update u c) (sc_node s)) s) T.
Proof.
  intros [(gl & m & Hg & Hr & Hw) Ht] Hc.
  assert (c_handle (apply_update u c) = c_handle c /\ c_queue (apply_update u c) = c_queue c /\
    c_init (apply_update u c) = c_init c /\ c_ref (apply_update u c) = c_ref c) as (U1 & U2 & U3 & U4).
  { destruct u; cbn; try done. unfold skynet_context_newsession. by destruct (s32 (c_session_id c + 1) <=? 0). }
  eapply (inv_set_ctx s (sc_H s) m m gl); try done.
  destruct (wf_ctx _ _ _ _ _ _ Hw _ _ Hc) as (R1 & R2 & R3 & R4).
  eapply wf_set_ctx; [exact Hw|exact Hc|..]; try done.
  - by rewrite U3.
  - unfold ctx_ok, table_ref in *. by rewrite U1, U2, U3, U4.
  - apply tokens_set_ctx with c; try done; [by rewrite U3|]. by eapply wf_tok.
Qed.

(** ** Frames *)

(** [run] does not fault, and hands on the tokens of its frame. *)
Definition runs (run : result (list frame * sched)) (T : list token) : Prop :=
  exists fs s', run = Ok (fs, s') /\ inv rep s' (all_tokens fs ++ T).

Lemma all_tokens_one f T : all_tokens [f] ++ T = tokens f ++ T.
Proof. unfold all_tokens. cbn. by rewrite app_nil_r. Qed.

Lemma runs_one f s T : inv rep s (tokens f ++ T) -> runs (Ok ([f], s)) T.
Proof. intros H. exists [f], s. split; [done|]. by rewrite all_tokens_one. Qed.

Lemma runs_none s T : inv rep s T -> runs (Ok ([], s)) T.
Proof. intros H. by exists [], s. Qed.

Lemma runs_resume k s T : inv rep s T -> runs (Ok (resume k, s)) T.
Proof. intros H. destruct k; [by apply runs_one|by apply runs_none]. Qed.

(** The context of a running frame. *)
Lemma inv_running s T q a : inv rep s (TOwn q :: TRun a q :: T) ->
  exists c, n_ctx (sc_node s) !! a = Some c /\ c_queue c = q /\ c_init c = true.
Proof.
  intros [(gl & m & _ & _ & Hw) _]. pose proof (wf_tok _ _ _ _ _ _ Hw) as Htok.
  apply Forall_cons in Htok as [_ Htok]. by apply Forall_cons in Htok as [? _].
Qed.

Lemma run_entry_ok w q s T : inv rep s (tokens (Dispatch w q) ++ T) -> runs (run_entry (Dispatch w q) s) T.
Proof.
  intros Hi. destruct q as [q|]; [by apply runs_one|]. cbn.
  destruct (inv_globalmq_pop _ _ Hi) as (r & h & -> & Hr). cbn. destruct r; by apply runs_one.
Qed.

Lemma run_have_ok w q s T : inv rep s (TOwn q :: T) -> runs (run_entry (HaveQueue w q) s) T.
Proof.
  intros Hi. cbn [run_entry]. destruct (inv_owned _ _ q Hi) as (Q & HQ & _); [apply list_elem_of_here|].
  unfold skynet_mq_handle. rewrite HQ. cbn [deref mbind result_bind].
  destruct (inv_grab _ _ (q_handle Q) Hi) as (r & n & -> & Hr). cbn [mbind result_bind]. destruct r as [a|].
  - destruct Hr as (Hn & c & Hc & Hrun). apply runs_one. destruct (Hrun q) as [Hcq Hci].
    { apply list_elem_of_here. } { unfold skynet_mq_handle. by rewrite HQ. }
    cbn. rewrite Permutation_swap. eapply inv_run; done.
  - by apply runs_one.
Qed.

Lemma run_loop_ok f w q a i n s T : inv rep s (TOwn q :: TRun a q :: T) ->
  f = Loop w q a i n \/ (exists m, f = Popped w q a i n m \/ f = Callback w q a i n m) -> runs (run_loop f s) T.
Proof.
  intros Hi [->|(m & [->| ->])]; cbn [run_loop].
  - destruct (i <? n); [|by apply runs_one].
    destruct (inv_mq_pop _ _ _ _ Hi) as (r & h & -> & Hr). cbn [mbind result_bind].
    destruct r as [m|]; apply runs_one; [done|]. by apply inv_stop with q.
  - destruct (inv_owned _ _ q Hi) as (Q & HQ & _ & Hok); [apply list_elem_of_here|]. rewrite HQ. cbn [deref mbind result_bind].
    destruct (skynet_mq_overload Q) as [o Q'] eqn:EQ.
    assert (q_handle Q' = q_handle Q /\ q_release Q' = q_release Q /\ q_next Q' = q_next Q /\ q_in_global Q' = q_in_global Q /\
      queue_ok (sc_log s) q Q') as (E1 & E2 & E3 & E4 & Hok').
    { unfold skynet_mq_overload in EQ. destruct (negb (q_overload Q =? 0)); injection EQ as <- <-; [|done].
      split_and!; try done. destruct Hok as (A & B & l & D & F). split; [done|]. split; [done|]. exists l. split; [|done].
      eapply mq_rep_ext; [..|exact D]; try done. by destruct D. }
    pose proof (inv_set_queue s _ q Q Q' (sc_log s) Hi HQ E1 E2 E3 E4 Hok' ltac:(done)) as Hi'.
    destruct (inv_running _ _ _ _ Hi) as (c & Hc & _ & Hci).
    change (n_ctx (sc_node (with_mq (store q Q' (n_mq (sc_node s))) s)) !! a) with (n_ctx (sc_node s) !! a).
    rewrite Hc. cbn [deref mbind result_bind]. destruct (c_cb c); [|by apply runs_one].
    rewrite Hci. cbn [assert_ mbind result_bind]. by apply runs_one.
  - by apply runs_one.
Qed.

Lemma run_end_ok w q a s T : inv rep s (TOwn q :: TRun a q :: T) -> runs (run_return (LoopEnd w q a) s) T.
Proof.
  intros Hi. cbn [run_return]. destruct (inv_running _ _ _ _ Hi) as (c & Hc & Hcq & _).
  rewrite Hc. cbn [deref mbind result_bind]. rewrite Hcq, Nat.eqb_refl. cbn [assert_ mbind result_bind].
  destruct (inv_globalmq_pop _ _ Hi) as (r & h & -> & Hr). cbn [mbind result_bind].
  destruct r as [nq|]; apply runs_one; cbn.
  - by rewrite Permutation_swap.
  - rewrite Permutation_swap. apply inv_stop with q. by rewrite Permutation_swap.
Qed.

Lemma run_push_back_ok w q a nq s T : inv rep s (TOwn q :: TOwn nq :: TRun a q :: T) -> runs (run_return (PushBack w q a nq) s) T.
Proof.
  intros Hi. cbn [run_return]. destruct (inv_globalmq_push _ _ _ Hi) as (h & -> & Hh). cbn [mbind result_bind]. apply runs_one. cbn.
  rewrite Permutation_swap. apply inv_stop with q. by rewrite Permutation_swap.
Qed.

(** A frame that gives up its reference and goes on with the tokens [U]. *)
Lemma runs_release a s T U (fs : option nat -> list frame) : inv rep s (TRef a :: U ++ T) -> (forall r, all_tokens (fs r) = U) ->
  runs ('(r, n) ← skynet_context_release a (sc_node s); Ok (fs r, with_node n s)) T.
Proof.
  intros Hi Hfs. destruct (inv_release_ref _ _ (TRef a) a Hi) as (r & n & -> & Hn); [by left|]. cbn [mbind result_bind].
  exists (fs r), (with_node n s). split; [done|]. by rewrite Hfs.
Qed.

Lemma run_return_ok w a nq s T : inv rep s (TOwn nq :: TRef a :: T) -> runs (run_return (ReturnNext w a nq) s) T.
Proof. intros Hi. rewrite Permutation_swap in Hi. by apply (runs_release a s T [TOwn nq] (fun _ => [Dispatch w (Some nq)])). Qed.

Lemma run_return_pop_ok w s T : inv rep s T -> runs (run_return (ReturnPop w) s) T.
Proof.
  intros Hi. cbn [run_return]. destruct (inv_globalmq_pop _ _ Hi) as (r & h & -> & Hr). cbn [mbind result_bind].
  apply runs_one. by destruct r.
Qed.

Lemma run_release_ok q k s T : inv rep s (TOwn q :: T) -> runs (run_release (MqRelease q k) s) T.
Proof.
  intros Hi. cbn [run_release].
  destruct (inv_owned _ _ q Hi) as (Q & HQ & _); [apply list_elem_of_here|]. rewrite HQ. cbn [deref mbind result_bind].
  destruct (Z.eqb_spec (q_release Q) 0) as [E|E]; cbn [negb].
  - destruct (inv_globalmq_push _ _ _ Hi) as (h & -> & Hh). cbn [mbind result_bind]. by apply runs_resume.
  - apply runs_one. by eapply inv_drop.
Qed.

Lemma run_drop_ok q k s T : inv rep s (TDrop q :: T) -> runs (run_release (MqDrop q k) s) T.
Proof.
  intros Hi. cbn [run_release]. destruct (inv_owned _ _ q Hi) as (Q & HQ & _ & _ & Hh & _); [apply list_elem_of_here|].
  unfold skynet_mq_handle. rewrite HQ. cbn [deref mbind result_bind].
  destruct (inv_mq_drop _ _ _ Hi) as (r & h & -> & Hr). cbn [mbind result_bind]. destruct r as [m|].
  - unfold drop_message. destruct (Z.eqb_spec (q_handle Q) 0) as [|_]; [done|]. cbn [negb assert_ mbind result_bind].
    destruct (m_source m =? 0); [|destruct (skynet_harbor_message_isremote (sc_harbor s) (m_source m))];
      cbn [mbind result_bind]; eexists _, _; (split; [done|]); by rewrite ?app_nil_r.
  - destruct Hr as (h' & -> & Hh'). cbn [mbind result_bind]. by apply runs_resume.
Qed.

Lemma run_grab_ok h ms s T : inv rep s T -> runs (run_push (Grab h ms) s) T.
Proof.
  intros Hi. cbn [run_push]. destruct (inv_grab _ _ h Hi) as (r & n & -> & Hr). cbn [mbind result_bind].
  destruct r as [a|]; [|by apply runs_none]. apply runs_one. apply Hr.
Qed.

(** A message for the context of a reference somebody holds. *)
Lemma runs_push s T a m c fs : inv rep s T -> n_ctx (sc_node s) !! a = Some c -> room a s = true -> all_tokens fs = [] ->
  runs (h ← skynet_mq_push (c_queue c) m (n_mq (sc_node s)); Ok (fs, log_event (EvPush (c_queue c) m) (with_mq h s))) T.
Proof.
  intros Hi Hc Hr Hfs. destruct (inv_mq_push _ _ a c m Hi Hc) as (h & -> & Hh); [intros Q HQ; by eapply room_length|].
  cbn [mbind result_bind]. eexists _, _. split; [done|]. by rewrite Hfs.
Qed.

Lemma run_holding_ok a ms s T : inv rep s (TRef a :: T) -> allowed (Holding a ms) s = true -> runs (run_push (Holding a ms) s) T.
Proof.
  intros Hi Hall. destruct ms as [|m ms]; cbn [run_push]; [by apply (runs_release a s T [] (fun _ => []))|].
  pose proof Hi as [(gl & tm & _ & _ & Hw) _].
  destruct (token_ref_alive _ _ _ _ _ _ (TRef a) a Hw) as [c Hc]; [apply list_elem_of_here|done|].
  rewrite Hc. cbn [deref mbind result_bind].
  destruct (inv_mq_push _ _ a c m Hi Hc) as (h & -> & Hh); [intros Q HQ; by eapply room_length|]. by apply runs_one.
Qed.

Lemma run_harbor_ok m a s T : inv rep s T -> TRef a ∈ T -> sc_REMOTE s = Some a -> allowed (ToHarbor m) s = true ->
  message_type m <> PTYPE_SYSTEM -> message_type m <> PTYPE_HARBOR -> runs (run_push (ToHarbor m) s) T.
Proof.
  intros Hi Ha HR Hall H1 H2. cbn [run_push]. apply Z.eqb_neq in H1, H2. rewrite H1, H2, HR. cbn [negb andb assert_ deref mbind result_bind].
  pose proof Hi as [(gl & tm & _ & _ & Hw) _]. destruct (token_ref_alive _ _ _ _ _ _ (TRef a) a Hw) as [c Hc]; [done..|].
  rewrite Hc. cbn [deref mbind result_bind]. apply (runs_push s T a m c []); try done. unfold allowed in Hall. by rewrite HR in Hall.
Qed.

Lemma run_retire_ok h s T : inv rep s T -> runs (run_retire (Retire h) s) T.
Proof.
  intros Hi. cbn [run_retire]. destruct (inv_retire _ _ T h Hi) as (r & H & -> & Hr); [done..|]. cbn [mbind result_bind].
  destruct r; [by apply runs_one|by apply runs_none].
Qed.

Lemma run_init_ok ok a q s T : inv rep s (TInit a q :: T) -> runs (run_new ok (Init a q) s) T.
Proof.
  intros Hi. cbn [run_new]. destruct ok.
  - destruct (inv_started _ _ _ _ Hi) as (r & n & -> & Hn). cbn [mbind result_bind]. apply runs_one. by destruct r.
  - destruct (inv_init_ctx _ _ _ _ Hi) as (c & Hc & _). destruct (inv_failed _ _ _ _ _ Hi Hc) as (r & n & E & Hn).
    unfold skynet_context_handle. rewrite Hc. cbn [deref mbind result_bind]. rewrite E. cbn [mbind result_bind]. by apply runs_one.
Qed.

Lemma run_launched_ok ok ret q s T : inv rep s (TOwn q :: T) -> runs (run_new ok (Launched ret q) s) T.
Proof.
  intros Hi. cbn [run_new]. destruct (inv_globalmq_push _ _ _ Hi) as (h & -> & Hh). cbn [mbind result_bind].
  eexists _, _. split; [done|]. by destruct ret.
Qed.

Lemma run_failed_ok ok h q s T : inv rep s (TNew q h :: T) -> runs (run_new ok (InitFailed h q) s) T.
Proof.
  intros Hi. cbn [run_new]. destruct (inv_retire _ _ (TOwn q :: T) h Hi) as (r & H & -> & Hr); try done.
  - intros E C HF. apply Forall_cons in HF as [_ HF]. by constructor.
  - intros b d Hd Hne Hs. rewrite starting_cons by done.
    destruct Hs as [[Hs|Hs]|[h' Hs]]; apply elem_of_cons in Hs as [Hs|Hs]; try done; [by left; left|by left; right| |by right; exists h'].
    injection Hs as E ->. destruct Hi as [(gl & tm & _ & _ & Hw) _]. destruct Hne.
    destruct (wf_ctx _ _ _ _ _ _ Hw _ _ Hd) as (_ & _ & (Q & HQ & _ & HQh) & _).
    pose proof (wf_tok _ _ _ _ _ _ Hw) as Htok. apply Forall_cons in Htok as [(Q' & HQ' & HQh') _]. congruence.
  - cbn [mbind result_bind]. destruct r as [a|]; apply runs_one; cbn; [by rewrite Permutation_swap|done].
Qed.

(** A frame of [skynet_context_new] before the init function. *)
Definition unfinished (f : frame) : bool :=
  match f with New _ _ | Registered _ _ _ | Stored _ _ | Queued _ _ => true | _ => false end.

(** What the two racing accesses of a launch and a message for the harbor need. *)
Definition safe (f : frame) (s : sched) (T : list token) : Prop :=
  match f with
  | Started a _ | Report a => exists c, n_ctx (sc_node s) !! a = Some c
  | ToHarbor m => exists a, sc_REMOTE s = Some a /\ TRef a ∈ T /\ message_type m <> PTYPE_SYSTEM /\ message_type m <> PTYPE_HARBOR
  | _ => True
  end.

(** Every other frame runs without a fault whatever the others hold, and keeps the invariant. *)
Lemma run_frame_ok ok f s T : inv rep s (tokens f ++ T) -> allowed f s = true -> unfinished f = false -> safe f s T ->
  runs (run_frame ok f s) T.
Proof.
  intros Hi Hall Hf Hs. destruct f; try done; cbn [run_frame tokens app] in *;
    first [by apply run_entry_ok | by apply run_have_ok | by eapply run_loop_ok; eauto | by apply run_end_ok | by apply run_push_back_ok
      | by apply run_return_ok | by apply run_return_pop_ok | by apply run_release_ok | by apply run_drop_ok | by apply run_grab_ok
      | by apply run_holding_ok | by apply run_retire_ok | by apply run_init_ok | by apply run_launched_ok | by apply run_failed_ok | idtac].
  - by apply (runs_release a s T [] (fun _ => [ReturnPop weight])).
  - destruct Hs as (a & HR & Ha & H1 & H2). by apply run_harbor_ok with a.
  - by apply (runs_release a s T [] (fun _ => [])).
  - destruct Hs as [c Hc]. cbn [run_new]. rewrite Hc. cbn [deref mbind result_bind]. apply runs_one. by apply inv_set_init.
  - destruct Hs as [c Hc]. cbn [run_new]. unfold skynet_context_handle. rewrite Hc. by apply runs_none.
  - rewrite Permutation_swap in Hi. by apply (runs_release a s T [TOwn q] (fun _ => [MqRelease q CDone])).
Qed.

(** [skynet_harbor_start] *)
Lemma inv_harbor_start s T a c : inv rep s T -> n_ctx (sc_node s) !! a = Some c -> sc_REMOTE s = None ->
  exists s', harbor_start a s = Ok s' /\ sc_REMOTE s' = Some a /\ inv rep s' (TRef a :: T).
Proof.
  intros [(gl & m & Hg & Hr & Hw) Ht] Hc HR. unfold harbor_start, skynet_context_reserve, skynet_context_grab. rewrite Hc.
  cbn [deref mbind result_bind]. eexists. split; [done|]. split; [done|].
  destruct (wf_ctx _ _ _ _ _ _ Hw _ _ Hc) as (R1 & R2 & R3 & R4).
  assert (wf gl m (erase (n_mq (sc_node s))) (<[a := set_ref (c_ref c + 1) c]> (n_ctx (sc_node s))) (sc_log s) (TRef a :: T)) as Hw'.
  { eapply wf_set_ctx; [exact Hw|exact Hc|..]; try done; cbn.
    - unfold ctx_ok, table_ref in *. cbn. rewrite (bool_decide_true (Some a = Some a)) by done. rewrite starting_cons by done.
      split; [lia|]. split; [lia|]. split; [done|done].
    - intros b Hb. rewrite bool_decide_false by (intros [=]; congruence). lia.
    - intros b d Hb _ _ _. by rewrite starting_cons.
    - constructor; [eexists; by rewrite lookup_insert_eq|]. apply tokens_set_ctx with c; try done. by eapply wf_tok. }
  split; cbn.
  - exists gl, m. split; [done|]. split; [|done]. eapply ht_ext; [exact Hr|]. intros h b Hb. cbn.
    destruct (wf_reg _ _ _ _ _ _ Hw' _ _ Hb) as (d & Hd & Hdh). by exists d.
  - rewrite Ht. unfold counted, reserved. rewrite HR. cbn. rewrite map_size_insert_Some by (by exists c). change (zlen [TRef a]) with 1. change (zlen []) with 0. lia.
Qed.

Lemma all_tokens_app fs gs : all_tokens (fs ++ gs) = all_tokens fs ++ all_tokens gs.
Proof. apply bind_app. Qed.

Lemma all_tokens_in f fs : f ∈ fs -> exists fs', all_tokens fs ≡ₚ tokens f ++ fs'.
Proof.
  intros Hf. apply list_elem_of_split in Hf as (l & k & ->). exists (all_tokens (l ++ k)).
  rewrite !all_tokens_app. change (all_tokens (f :: k)) with (tokens f ++ all_tokens k).
  by rewrite !app_assoc, (Permutation_app_comm (all_tokens l)).
Qed.

Lemma inv_initial harbor ws : inv rep (snd (initial harbor ws)) [].
Proof.
  split; [|done]. exists [], ∅. split; [|split].
  - constructor; [by exists (GlobalQueue None None)|]. cbn. intros a q Ha. by rewrite lookup_empty in Ha.
  - apply ht_init.
  - assert (erase (skynet_mq_init (Heap ∅ None)) = ∅) as Ee by apply fmap_empty.
    cbn [sc_node sc_world w_node n_mq initial snd n_ctx sc_log]. rewrite Ee. constructor; try (intros *; by rewrite lookup_empty).
    + constructor.
    + intros q. split; [by intros ?%not_elem_of_nil|]. intros (Q & HQ & _). by rewrite lookup_empty in HQ.
    + done.
Qed.

End Operations.
