(* ===== verification/DispatchLaunch.v ===== *)
(** * The dispatcher while services are launched

    A context is in the handle table before it knows its handle and before it has
    a queue. [fill] completes such a state: the handle and the queue that a launch
    is about to store are there already. The invariant of DispatchInv.v holds of
    the completed state; every frame does the same on both, except the launches
    themselves and the accesses [launch_race] names. *)
From S2P Require Import Prelude CString MessageQueue Context Handle HandleTable Server Dispatch DispatchInv.

(** ** Completed states *)

(** The handles that are not stored yet, by context, and those of the queues that
    are not created yet, by queue. *)
Notation pending := (gmap nat Z).

Definition fill_heap (Qm : pending) (h : heap) : heap := Heap ((mq_new <$> Qm) ∪ h_queues h) (hQ h).

Definition fill_context (Hd : pending) (a : nat) (c : skynet_context) : skynet_context :=
  match Hd !! a with Some h => set_handle h c | None => c end.

Definition fill_node (Hd Qm : pending) (k : Z) (n : node) : node :=
  Node (fill_heap Qm (n_mq n)) (map_imap (fun a c => Some (fill_context Hd a c)) (n_ctx n)) (n_total n + k).

Definition fill (Hd Qm : pending) (k : Z) (s : sched) : sched := with_node (fill_node Hd Qm k (sc_node s)) s.

(** What a frame makes of a completed state. *)
Definition fills (Hd Qm : pending) (k : Z) (r : result (list frame * sched)) : result (list frame * sched) :=
  '(fs, s) ← r; Ok (fs, fill Hd Qm k s).

(** The ends of the global list are not queues to be created. *)
Definition ends_ok (Qm : pending) (h : heap) : Prop :=
  forall g x, hQ h = Some g -> g_head g = Some x \/ g_tail g = Some x -> Qm !! x = None.

(** ** Queues *)

Section heaps.
Context (Qm : pending).

Lemma fill_lookup h q : Qm !! q = None -> h_queues (fill_heap Qm h) !! q = h_queues h !! q.
Proof. intros Hq. cbn. apply lookup_union_r. by rewrite lookup_fmap, Hq. Qed.

Lemma fill_store h q Q : Qm !! q = None -> store q Q (fill_heap Qm h) = fill_heap Qm (store q Q h).
Proof. intros Hq. unfold store, fill_heap. cbn. f_equal. apply insert_union_r. by rewrite lookup_fmap, Hq. Qed.

Lemma fill_insert h q Q g : Qm !! q = None ->
  Heap (<[q := Q]> (h_queues (fill_heap Qm h))) g = fill_heap Qm (Heap (<[q := Q]> (h_queues h)) g).
Proof. intros Hq. unfold fill_heap. cbn. f_equal. apply insert_union_r. by rewrite lookup_fmap, Hq. Qed.

Lemma fill_delete h q g : Qm !! q = None ->
  Heap (delete q (h_queues (fill_heap Qm h))) g = fill_heap Qm (Heap (delete q (h_queues h)) g).
Proof. intros Hq. unfold fill_heap. cbn. f_equal. rewrite delete_union. f_equal. apply delete_id. by rewrite lookup_fmap, Hq. Qed.

Lemma fill_globalmq_pop h : ends_ok Qm h ->
  skynet_globalmq_pop (fill_heap Qm h) = '(r, h) ← skynet_globalmq_pop h; Ok (r, fill_heap Qm h).
Proof.
  intros He. unfold skynet_globalmq_pop. cbn [hQ fill_heap]. unfold ends_ok in He. destruct (hQ h) as [g|] eqn:Eg; [|done]. cbn [deref mbind result_bind].
  destruct (g_head g) as [a|] eqn:Ea; [|done]. assert (Qm !! a = None) as Ha by (eapply He; eauto).
  rewrite fill_lookup by done. destruct (h_queues h !! a) as [mq|]; [|done]. cbn [deref mbind result_bind].
  destruct (q_next mq); cbn [mbind result_bind]; [|destruct (assert_ _); [|done..]; cbn [mbind result_bind]]; by rewrite fill_insert.
Qed.

Lemma fill_globalmq_push q h : ends_ok Qm h -> Qm !! q = None ->
  skynet_globalmq_push q (fill_heap Qm h) = h ← skynet_globalmq_push q h; Ok (fill_heap Qm h).
Proof.
  intros He Hq. unfold skynet_globalmq_push. cbn [hQ fill_heap]. unfold ends_ok in He. destruct (hQ h) as [g|] eqn:Eg; [|done]. cbn [deref mbind result_bind].
  rewrite fill_lookup by done. destruct (h_queues h !! q) as [mq|]; [|done]. cbn [deref mbind result_bind].
  destruct (assert_ _); [|done..]. cbn [mbind result_bind].
  destruct (g_tail g) as [t|] eqn:Et; [|done]. assert (Qm !! t = None) as Ht by (eapply He; eauto).
  rewrite fill_lookup by done. destruct (h_queues h !! t) as [tq|]; [|done]. cbn [deref mbind result_bind]. by rewrite fill_insert.
Qed.

Lemma fill_mq_handle q h : Qm !! q = None -> skynet_mq_handle q (fill_heap Qm h) = skynet_mq_handle q h.
Proof. intros Hq. unfold skynet_mq_handle. by rewrite fill_lookup. Qed.

Lemma fill_mq_pop q h : Qm !! q = None ->
  skynet_mq_pop q (fill_heap Qm h) = '(m, h) ← skynet_mq_pop q h; Ok (m, fill_heap Qm h).
Proof.
  intros Hq. unfold skynet_mq_pop. rewrite fill_lookup by done. destruct (h_queues h !! q) as [Q|]; [|done]. cbn [deref mbind result_bind].
  destruct (mq_pop Q) as [[m Q']| |]; [|done..]. cbn [mbind result_bind]. by rewrite fill_store.
Qed.

Lemma fill_release q h : Qm !! q = None -> _release q (fill_heap Qm h) = h ← _release q h; Ok (fill_heap Qm h).
Proof.
  intros Hq. unfold _release. rewrite fill_lookup by done. destruct (h_queues h !! q) as [Q|]; [|done]. cbn [deref mbind result_bind].
  destruct (assert_ _); [|done..]. cbn [mbind result_bind]. by rewrite fill_delete.
Qed.

Lemma fill_mq_push q m h : ends_ok Qm h -> Qm !! q = None ->
  skynet_mq_push q m (fill_heap Qm h) = h ← skynet_mq_push q m h; Ok (fill_heap Qm h).
Proof.
  intros He Hq. unfold skynet_mq_push. rewrite fill_lookup by done. destruct (h_queues h !! q) as [Q|]; [|done]. cbn [deref mbind result_bind].
  destruct (mq_put Q m) as [Q'| |]; [|done..]. cbn [mbind result_bind]. rewrite !fill_store by done.
  destruct (q_in_global Q' =? 0); [|done]. by apply fill_globalmq_push.
Qed.

Lemma fill_mark_release q h : ends_ok Qm h -> Qm !! q = None ->
  skynet_mq_mark_release q (fill_heap Qm h) = h ← skynet_mq_mark_release q h; Ok (fill_heap Qm h).
Proof.
  intros He Hq. unfold skynet_mq_mark_release. rewrite fill_lookup by done. destruct (h_queues h !! q) as [Q|]; [|done]. cbn [deref mbind result_bind].
  destruct (assert_ _); [|done..]. cbn [mbind result_bind]. rewrite fill_store by done.
  destruct (negb (q_in_global Q =? MQ_IN_GLOBAL)); [|done]. by apply fill_globalmq_push.
Qed.

End heaps.

(** ** Contexts *)

Section contexts.
Context (Hd Qm : pending) (k : Z).
Notation filln := (fill_node Hd Qm k).

Lemma fill_ctx_lookup n a : n_ctx (filln n) !! a = fill_context Hd a <$> n_ctx n !! a.
Proof. cbn. rewrite map_lookup_imap. by destruct (n_ctx n !! a). Qed.

Lemma fill_context_queue a c : c_queue (fill_context Hd a c) = c_queue c.
Proof. unfold fill_context. by destruct (Hd !! a). Qed.
Lemma fill_context_ref a c : c_ref (fill_context Hd a c) = c_ref c.
Proof. unfold fill_context. by destruct (Hd !! a). Qed.
Lemma fill_context_init a c : c_init (fill_context Hd a c) = c_init c.
Proof. unfold fill_context. by destruct (Hd !! a). Qed.
Lemma fill_context_cb a c : c_cb (fill_context Hd a c) = c_cb c.
Proof. unfold fill_context. by destruct (Hd !! a). Qed.
Lemma fill_set_ref r a c : set_ref r (fill_context Hd a c) = fill_context Hd a (set_ref r c).
Proof. unfold fill_context. by destruct (Hd !! a). Qed.
Lemma fill_set_init b a c : set_init b (fill_context Hd a c) = fill_context Hd a (set_init b c).
Proof. unfold fill_context. by destruct (Hd !! a). Qed.
Lemma fill_update u a c : apply_update u (fill_context Hd a c) = fill_context Hd a (apply_update u c).
Proof.
  unfold fill_context. destruct (Hd !! a); [|done]. destruct u; try done. cbn. unfold skynet_context_newsession. cbn.
  by destruct (s32 (c_session_id c + 1) <=? 0).
Qed.

Lemma fill_put_ctx a c n : put_ctx a (fill_context Hd a c) (filln n) = filln (put_ctx a c n).
Proof. unfold put_ctx, fill_node. cbn. f_equal. symmetry. by apply map_imap_insert_Some. Qed.

Lemma fill_grab a n : skynet_context_grab a (filln n) = n ← skynet_context_grab a n; Ok (filln n).
Proof.
  unfold skynet_context_grab. rewrite fill_ctx_lookup. destruct (n_ctx n !! a) as [c|]; [|done].
  cbn [fmap option_fmap option_map deref mbind result_bind]. by rewrite fill_context_ref, fill_set_ref, fill_put_ctx.
Qed.

(** The last reference is not that of a context without a queue. *)
Lemma fill_context_release a n : ends_ok Qm (n_mq n) -> (forall c, n_ctx n !! a = Some c -> c_ref c = 1 -> Qm !! c_queue c = None) ->
  skynet_context_release a (filln n) = '(r, n) ← skynet_context_release a n; Ok (r, filln n).
Proof.
  intros He Hq. unfold skynet_context_release. rewrite fill_ctx_lookup. destruct (n_ctx n !! a) as [c|] eqn:Ec; [|done].
  cbn [fmap option_fmap option_map deref mbind result_bind]. rewrite fill_context_ref, fill_set_ref, fill_put_ctx.
  destruct (Z.eqb_spec (c_ref c - 1) 0) as [E|E]; [|done]. unfold delete_context. rewrite fill_ctx_lookup. cbn [put_ctx n_ctx n_mq].
  rewrite lookup_insert_eq. cbn [fmap option_fmap option_map deref mbind result_bind]. rewrite fill_context_queue. cbn [c_queue set_ref].
  cbn [fill_node n_mq put_ctx]. rewrite fill_mark_release; [|done|apply Hq; [done|lia]].
  destruct (skynet_mq_mark_release (c_queue c) (n_mq n)) as [mq| |]; [|done..]. cbn [mbind result_bind].
  unfold context_dec, fill_node. cbn. do 3 f_equal; [by rewrite map_imap_delete|lia].
Qed.

(** The handle of a context that does not know it yet is not found. *)
Lemma fill_find_ctx h n H : h <> 0 -> (forall a x, Hd !! a = Some x -> exists c, n_ctx n !! a = Some c /\ c_handle c = 0) ->
  find_ctx h n H = r ← find_ctx h (filln n) H; Ok (match r with Some (a, hash) => if Hd !! a is Some _ then None else Some (a, hash) | None => None end).
Proof.
  intros Hh Hz. unfold find_ctx. destruct (zget _ _) as [[a|]| |]; [|done..]. cbn [mbind result_bind]. unfold skynet_context_handle.
  rewrite fill_ctx_lookup. destruct (n_ctx n !! a) as [c|] eqn:Ec; [|done]. cbn [fmap option_fmap option_map deref mbind result_bind].
  unfold fill_context. destruct (Hd !! a) as [x|] eqn:Ex.
  - destruct (Hz _ _ Ex) as (c' & Hc' & E0). rewrite Ec in Hc'. injection Hc' as <-. rewrite E0. destruct (Z.eqb_spec 0 h); [congruence|].
    cbn. destruct (x =? h); [|done]. by rewrite Ex.
  - destruct (c_handle c =? h); [|done]. by rewrite Ex.
Qed.

End contexts.

(** ** Frames *)

Section frames.
Context (Hd Qm : pending) (k : Z) (s : sched).
Notation nd := (sc_node s).
Notation v := (fill Hd Qm k s).

(** The handle a frame looks up. *)
Definition target (f : frame) : option Z :=
  match f with
  | Grab h _ | Retire h | InitFailed h _ => Some h
  | HaveQueue _ q => q_handle <$> h_queues (n_mq nd) !! q
  | _ => None
  end.

(** The context into whose queue a frame puts a message. *)
Definition receiver (f : frame) : option nat :=
  match f with Holding a (_ :: _) => Some a | ToHarbor _ => sc_REMOTE s | _ => None end.

(** The frame has nothing to do with what is pending. *)
Record clear (f : frame) : Prop := Clear {
  cl_ends : ends_ok Qm (n_mq nd);
  cl_zero : forall a x, Hd !! a = Some x -> exists c, n_ctx nd !! a = Some c /\ c_handle c = 0;
  cl_queue : forall q, q ∈ owned (tokens f) -> Qm !! q = None;
  cl_ref : forall t a c, t ∈ tokens f -> token_ref t = Some a -> n_ctx nd !! a = Some c -> c_ref c = 1 -> Qm !! c_queue c = None;
  cl_push : forall a c, receiver f = Some a -> n_ctx nd !! a = Some c -> Qm !! c_queue c = None;
  cl_target : forall h, target f = Some h -> h <> 0;
  cl_find : forall h a hash, target f = Some h -> find_ctx h (sc_node v) (sc_H s) = Ok (Some (a, hash)) -> Hd !! a = None
}.

Lemma clear_find f h : clear f -> target f = Some h -> find_ctx h (sc_node v) (sc_H s) = find_ctx h nd (sc_H s).
Proof.
  intros Hc Ht. pose proof (fill_find_ctx Hd Qm k h nd (sc_H s) (cl_target _ Hc h Ht) (cl_zero _ Hc)) as E.
  pose proof (cl_find _ Hc h) as Hf. change (sc_node v) with (fill_node Hd Qm k nd) in *.
  destruct (find_ctx h (fill_node Hd Qm k nd) (sc_H s)) as [[[a hash]|]| |]; cbn in E; [|by rewrite E..].
  rewrite E. by rewrite (Hf a hash Ht eq_refl).
Qed.

Lemma clear_grab f h : clear f -> target f = Some h ->
  skynet_handle_grab h (sc_node v) (sc_H s) = '(r, n) ← skynet_handle_grab h nd (sc_H s); Ok (r, fill_node Hd Qm k n).
Proof.
  intros Hc Ht. unfold skynet_handle_grab. rewrite (clear_find f h Hc Ht).
  destruct (find_ctx h nd (sc_H s)) as [[[a hash]|]| |]; [|done..]. cbn [mbind result_bind].
  change (sc_node v) with (fill_node Hd Qm k nd). rewrite fill_grab. by destruct (skynet_context_grab a nd).
Qed.

Lemma clear_retire f h : clear f -> target f = Some h -> retire_locked h (sc_node v) (sc_H s) = retire_locked h nd (sc_H s).
Proof. intros Hc Ht. unfold retire_locked. by rewrite (clear_find f h Hc Ht). Qed.

Lemma clear_release f t a : clear f -> t ∈ tokens f -> token_ref t = Some a ->
  skynet_context_release a (sc_node v) = '(r, n) ← skynet_context_release a nd; Ok (r, fill_node Hd Qm k n).
Proof.
  intros Hc Ht Ha. apply (fill_context_release Hd Qm k a nd (cl_ends _ Hc)). intros c Hca. by apply (cl_ref _ Hc t a c).
Qed.

Lemma clear_ctx a : n_ctx (sc_node v) !! a = fill_context Hd a <$> n_ctx nd !! a.
Proof. apply fill_ctx_lookup. Qed.

Lemma fill_alive a : n_ctx nd !! a <> None -> exists c, n_ctx (sc_node v) !! a = Some c.
Proof. rewrite clear_ctx. destruct (n_ctx nd !! a); [by eexists|done]. Qed.

Lemma fill_with_mq h : with_mq (fill_heap Qm h) v = fill Hd Qm k (with_mq h s).
Proof. done. Qed.

Lemma fill_run_entry f : clear f -> match f with Dispatch _ _ | HaveQueue _ _ => True | _ => False end ->
  run_entry f v = fills Hd Qm k (run_entry f s).
Proof.
  intros Hc Hf. destruct f as [w q|w q| | | | | | | | | | | | | | | | | | | | | | | | |]; try done; [destruct q as [q|]; [done|]|]; cbn [run_entry].
  - change (n_mq (sc_node v)) with (fill_heap Qm (n_mq nd)). rewrite fill_globalmq_pop by apply Hc.
    destruct (skynet_globalmq_pop (n_mq nd)) as [[r h]| |]; [|done..]. by destruct r.
  - change (n_mq (sc_node v)) with (fill_heap Qm (n_mq nd)). rewrite fill_mq_handle by (apply Hc; apply list_elem_of_here).
    unfold skynet_mq_handle. destruct (h_queues (n_mq nd) !! q) as [Q|] eqn:EQ; [|done]. cbn [deref mbind result_bind].
    change (sc_H v) with (sc_H s). rewrite (clear_grab _ (q_handle Q) Hc) by (cbn; by rewrite EQ).
    destruct (skynet_handle_grab (q_handle Q) nd (sc_H s)) as [[[a|] n']| |]; done.
Qed.

Lemma fill_run_loop f : clear f -> match f with Loop _ _ _ _ _ | Popped _ _ _ _ _ _ | Callback _ _ _ _ _ _ => True | _ => False end ->
  run_loop f v = fills Hd Qm k (run_loop f s).
Proof.
  intros Hc Hf. pose proof (cl_queue _ Hc) as Hq. change (n_mq (sc_node v)) with (fill_heap Qm (n_mq nd)).
  destruct f; try done; cbn [run_loop].
  - destruct (i <? n); [|done]. change (n_mq (sc_node v)) with (fill_heap Qm (n_mq nd)). rewrite fill_mq_pop by (apply Hq; apply list_elem_of_here).
    destruct (skynet_mq_pop q (n_mq nd)) as [[[m|] h]| |]; done.
  - change (n_mq (sc_node v)) with (fill_heap Qm (n_mq nd)). assert (Qm !! q = None) as Hq0 by (apply Hq; apply list_elem_of_here).
    rewrite fill_lookup by done. destruct (h_queues (n_mq nd) !! q) as [Q|]; [|done]. cbn [deref mbind result_bind].
    destruct (skynet_mq_overload Q) as [o Q']. rewrite fill_store, fill_with_mq by done. 
    change (n_ctx (sc_node (fill Hd Qm k ?s)) !! a) with (n_ctx (sc_node v) !! a). rewrite clear_ctx.
    change (n_ctx (sc_node (with_mq ?h s)) !! a) with (n_ctx nd !! a). destruct (n_ctx nd !! a) as [c|]; [|done].
    cbn [fmap option_fmap option_map deref mbind result_bind]. rewrite fill_context_cb, fill_context_init.
    destruct (c_cb c); [|done]. by destruct (assert_ (c_init c)).
Qed.

Lemma fill_run_return f : clear f -> match f with LoopEnd _ _ _ | PushBack _ _ _ _ | ReturnNext _ _ _ | QueueEmpty _ _ | ReturnPop _ => True | _ => False end ->
  run_return f v = fills Hd Qm k (run_return f s).
Proof.
  intros Hc Hf. pose proof (cl_queue _ Hc) as Hq. pose proof (cl_ends _ Hc) as He. destruct f; try done; cbn [run_return].
  - rewrite clear_ctx. destruct (n_ctx nd !! a) as [c|]; [|done]. cbn [fmap option_fmap option_map deref mbind result_bind].
    rewrite fill_context_queue. destruct (assert_ _); [|done..]. cbn [mbind result_bind].
    change (n_mq (sc_node v)) with (fill_heap Qm (n_mq nd)). rewrite fill_globalmq_pop by done.
    destruct (skynet_globalmq_pop (n_mq nd)) as [[[r|] h]| |]; done.
  - change (n_mq (sc_node v)) with (fill_heap Qm (n_mq nd)). rewrite fill_globalmq_push by (try done; apply Hq; apply list_elem_of_here).
    by destruct (skynet_globalmq_push q (n_mq nd)).
  - rewrite (clear_release _ (TRef a) a Hc) by (done || set_solver). by destruct (skynet_context_release a nd) as [[r n']| |].
  - rewrite (clear_release _ (TRef a) a Hc) by (done || set_solver). by destruct (skynet_context_release a nd) as [[r n']| |].
  - change (n_mq (sc_node v)) with (fill_heap Qm (n_mq nd)). rewrite fill_globalmq_pop by done.
    destruct (skynet_globalmq_pop (n_mq nd)) as [[[r|] h]| |]; done.
Qed.

Lemma fill_run_release f : clear f -> match f with MqRelease _ _ | MqDrop _ _ => True | _ => False end ->
  run_release f v = fills Hd Qm k (run_release f s).
Proof.
  intros Hc Hf. assert (forall q, q ∈ owned (tokens f) -> Qm !! q = None) as Hq by apply Hc. pose proof (cl_ends _ Hc) as He.
  destruct f; try done; cbn [run_release]; (assert (Qm !! q = None) as Hq0 by (apply Hq; apply list_elem_of_here));
    change (n_mq (sc_node v)) with (fill_heap Qm (n_mq nd)).
  - rewrite fill_lookup by done. destruct (h_queues (n_mq nd) !! q) as [Q|]; [|done]. cbn [deref mbind result_bind].
    destruct (negb (q_release Q =? 0)); [done|]. rewrite fill_globalmq_push by done. by destruct (skynet_globalmq_push q (n_mq nd)).
  - rewrite fill_mq_handle by done. destruct (skynet_mq_handle q (n_mq nd)) as [h| |]; [|done..]. cbn [mbind result_bind].
    rewrite fill_mq_pop by done. destruct (skynet_mq_pop q (n_mq nd)) as [[[m|] mq]| |]; [|..|done|done]; cbn [mbind result_bind].
    + change (drop_message h m v) with (drop_message h m s). by destruct (drop_message h m s).
    + rewrite fill_release by done. by destruct (_release q mq).
Qed.

Lemma fill_run_push f : clear f -> match f with Grab _ _ | Holding _ _ | ToHarbor _ => True | _ => False end ->
  run_push f v = fills Hd Qm k (run_push f s).
Proof.
  intros Hc Hf. pose proof (cl_ends _ Hc) as He. destruct f as [| | | | | | | | | | | |h ms|a ms|m| | | | | | | | | | | |]; try done; [|destruct ms as [|m ms]|]; cbn [run_push].
  - change (sc_H v) with (sc_H s). rewrite (clear_grab _ h Hc) by done. destruct (skynet_handle_grab h nd (sc_H s)) as [[[a|] n']| |]; done.
  - rewrite (clear_release _ (TRef a) a Hc) by (done || apply list_elem_of_here). by destruct (skynet_context_release a nd) as [[r n']| |].
  - rewrite clear_ctx. pose proof (cl_push _ Hc a) as Hp. destruct (n_ctx nd !! a) as [c|]; [|done]. cbn [fmap option_fmap option_map deref mbind result_bind].
    rewrite fill_context_queue. change (n_mq (sc_node v)) with (fill_heap Qm (n_mq nd)). rewrite fill_mq_push by (try done; by apply Hp).
    by destruct (skynet_mq_push (c_queue c) m (n_mq nd)).
  - destruct (assert_ _) as [[]| |]; [|done..]. cbn [mbind result_bind]. change (sc_REMOTE v) with (sc_REMOTE s). pose proof (cl_push _ Hc) as Hp. cbn in Hp.
    destruct (sc_REMOTE s) as [a|]; [|done]. cbn [deref mbind result_bind].
    rewrite clear_ctx. specialize (Hp a). destruct (n_ctx nd !! a) as [c|]; [|done]. cbn [fmap option_fmap option_map deref mbind result_bind].
    rewrite fill_context_queue. change (n_mq (sc_node v)) with (fill_heap Qm (n_mq nd)). rewrite fill_mq_push by (try done; by apply Hp).
    by destruct (skynet_mq_push (c_queue c) m (n_mq nd)).
Qed.

Lemma fill_run_retire f : clear f -> match f with Retire _ | Retired _ => True | _ => False end ->
  run_retire f v = fills Hd Qm k (run_retire f s).
Proof.
  intros Hc Hf. destruct f; try done; cbn [run_retire]; change (sc_H v) with (sc_H s).
  - rewrite (clear_retire _ h Hc) by done. by destruct (retire_locked h nd (sc_H s)) as [[[a|] H]| |].
  - rewrite (clear_release _ (TRef a) a Hc) by (done || apply list_elem_of_here). by destruct (skynet_context_release a nd) as [[r n']| |].
Qed.

Lemma fill_run_new ok f : clear f -> (forall a q, f = Init a q -> Hd !! a = None) ->
  match f with Init _ _ | Started _ _ | Launched _ _ | InitFailed _ _ | FailRetired _ _ | Report _ => True | _ => False end ->
  run_new ok f v = fills Hd Qm k (run_new ok f s).
Proof.
  intros Hc Hi Hf. pose proof (cl_queue _ Hc) as Hq. pose proof (cl_ends _ Hc) as He. destruct f; try done; cbn [run_new]; change (sc_H v) with (sc_H s).
  - rewrite (clear_release _ (TInit a q) a Hc) by (done || apply list_elem_of_here). destruct ok.
    + by destruct (skynet_context_release a nd) as [[[b|] n']| |].
    + unfold skynet_context_handle. rewrite clear_ctx. destruct (n_ctx nd !! a) as [c|]; [|done].
      cbn [fmap option_fmap option_map deref mbind result_bind]. destruct (skynet_context_release a nd) as [[r n']| |]; [|done..].
      cbn. unfold fill_context. by rewrite (Hi a q).
  - rewrite clear_ctx. destruct (n_ctx nd !! a) as [c|]; [|done]. cbn [fmap option_fmap option_map deref mbind result_bind].
    rewrite fill_set_init. change (sc_node v) with (fill_node Hd Qm k nd). by rewrite fill_put_ctx.
  - change (n_mq (sc_node v)) with (fill_heap Qm (n_mq nd)). rewrite fill_globalmq_push by (try done; apply Hq; apply list_elem_of_here).
    by destruct (skynet_globalmq_push q (n_mq nd)).
  - unfold skynet_context_handle. rewrite clear_ctx. by destruct (n_ctx nd !! ret).
  - rewrite (clear_retire _ h Hc) by done. by destruct (retire_locked h nd (sc_H s)) as [[[a|] H]| |].
  - rewrite (clear_release _ (TRef a) a Hc) by (done || set_solver). by destruct (skynet_context_release a nd) as [[r n']| |].
Qed.

Lemma fill_run_frame ok f : clear f -> (forall a q, f = Init a q -> Hd !! a = None) -> unfinished f = false ->
  run_frame ok f v = fills Hd Qm k (run_frame ok f s).
Proof.
  intros Hc Hi Hf. destruct f; try done; cbn [run_frame];
    first [by apply fill_run_entry | by apply fill_run_loop | by apply fill_run_return | by apply fill_run_release | by apply fill_run_push
      | by apply fill_run_retire | by apply fill_run_new].
Qed.

End frames.

(** ** What no frame does *)

(** No queue and no context appears, handles and queues of contexts stay. *)
Definition heap_keeps (h h' : heap) : Prop := forall q, h_queues h !! q = None -> h_queues h' !! q = None.

Definition node_keeps (n n' : node) : Prop :=
  heap_keeps (n_mq n) (n_mq n') /\
  forall a c', n_ctx n' !! a = Some c' -> exists c, n_ctx n !! a = Some c /\ c_handle c' = c_handle c /\ c_queue c' = c_queue c.

Definition keeps (s s' : sched) : Prop := node_keeps (sc_node s) (sc_node s') /\ sc_REMOTE s' = sc_REMOTE s /\ sc_harbor s' = sc_harbor s.

(** Splits the equation of a computation that returned. *)
Ltac bind_inv H :=
  repeat match type of H with
  | (deref ?x ≫= _) = Ok _ => let E := fresh "E" in destruct x eqn:E; cbn [deref mbind result_bind] in H; [|discriminate H]
  | (?x ≫= _) = Ok _ => let E := fresh "E" in destruct x eqn:E; cbn [mbind result_bind] in H; [|discriminate H..]
  | match ?x with _ => _ end = Ok _ => let E := fresh "E" in destruct x eqn:E; try discriminate H
  | Ok _ = Ok _ => injection H as ?; subst
  end.

Lemma heap_keeps_refl h : heap_keeps h h.
Proof. by intros q. Qed.

Lemma heap_keeps_trans h1 h2 h3 : heap_keeps h1 h2 -> heap_keeps h2 h3 -> heap_keeps h1 h3.
Proof. unfold heap_keeps. auto. Qed.

Lemma heap_keeps_insert h q Q Q' g : h_queues h !! q = Some Q -> heap_keeps h (Heap (<[q := Q']> (h_queues h)) g).
Proof. intros Hq x Hx. cbn. rewrite lookup_insert_ne; [done|]. congruence. Qed.

Lemma globalmq_pop_keeps h r h' : skynet_globalmq_pop h = Ok (r, h') -> heap_keeps h h'.
Proof.
  unfold skynet_globalmq_pop. intros H. bind_inv H; [by eapply heap_keeps_insert|apply heap_keeps_refl].
Qed.

Lemma globalmq_push_keeps q h h' : skynet_globalmq_push q h = Ok h' -> heap_keeps h h'.
Proof.
  unfold skynet_globalmq_push. intros H. bind_inv H; [by eapply heap_keeps_insert|by intros x Hx].
Qed.

Lemma mq_pop_keeps q h r h' : skynet_mq_pop q h = Ok (r, h') -> heap_keeps h h'.
Proof. unfold skynet_mq_pop. intros H. bind_inv H. by eapply heap_keeps_insert. Qed.

Lemma mq_push_keeps q m h h' : skynet_mq_push q m h = Ok h' -> heap_keeps h h'.
Proof.
  unfold skynet_mq_push. intros H. bind_inv H; [|by eapply heap_keeps_insert].
  eapply heap_keeps_trans; [by eapply heap_keeps_insert|by eapply globalmq_push_keeps].
Qed.

Lemma mark_release_keeps q h h' : skynet_mq_mark_release q h = Ok h' -> heap_keeps h h'.
Proof.
  unfold skynet_mq_mark_release. intros H. bind_inv H; [|by eapply heap_keeps_insert].
  eapply heap_keeps_trans; [by eapply heap_keeps_insert|by eapply globalmq_push_keeps].
Qed.

Lemma release_keeps q h h' : _release q h = Ok h' -> heap_keeps h h'.
Proof. unfold _release. intros H. bind_inv H. intros x Hx. cbn. by rewrite lookup_delete_None; right. Qed.

Lemma node_keeps_mq n h : heap_keeps (n_mq n) h -> node_keeps n (Node h (n_ctx n) (n_total n)).
Proof. intros H. split; [done|]. intros a c Hc. by exists c. Qed.

Lemma node_keeps_refl n : node_keeps n n.
Proof. split; [apply heap_keeps_refl|]. intros a c Hc. by exists c. Qed.

Lemma put_ctx_keeps a c c' n : n_ctx n !! a = Some c -> c_handle c' = c_handle c -> c_queue c' = c_queue c -> node_keeps n (put_ctx a c' n).
Proof.
  intros Hc Hh Hq. split; [apply heap_keeps_refl|]. cbn. intros b d [[<- <-]|[_ Hd]]%lookup_insert_Some; [by exists c|by exists d].
Qed.

Lemma grab_keeps h n H r n' : skynet_handle_grab h n H = Ok (r, n') -> node_keeps n n'.
Proof.
  unfold skynet_handle_grab. intros E. bind_inv E; [|apply node_keeps_refl].
  unfold skynet_context_grab in *. match goal with H : _ = Ok n' |- _ => bind_inv H end. by eapply put_ctx_keeps.
Qed.

Lemma context_release_keeps a n r n' : skynet_context_release a n = Ok (r, n') -> node_keeps n n'.
Proof.
  unfold skynet_context_release. intros H. bind_inv H; [|by eapply put_ctx_keeps].
  unfold delete_context in *. match goal with H : _ = Ok n' |- _ => bind_inv H end. cbn in *.
  match goal with H : skynet_mq_mark_release _ _ = _ |- _ => apply mark_release_keeps in H end. split; [done|]. cbn.
  intros b d [_ [[<- <-]|[_ Hd]]%lookup_insert_Some]%lookup_delete_Some; [by exists s|by exists d].
Qed.

Lemma heap_keeps_store h q Q Q' : h_queues h !! q = Some Q -> heap_keeps h (store q Q' h).
Proof. apply heap_keeps_insert. Qed.

Lemma set_init_keeps a c b n : n_ctx n !! a = Some c -> node_keeps n (put_ctx a (set_init b c) n).
Proof. intros Hc. by apply put_ctx_keeps with c. Qed.

Lemma drop_keeps h h' h'' q r : skynet_mq_pop q h = Ok (r, h') -> _release q h' = Ok h'' -> heap_keeps h h''.
Proof. intros H1 H2. eapply heap_keeps_trans; [by eapply mq_pop_keeps|by eapply release_keeps]. Qed.

#[export] Hint Resolve globalmq_pop_keeps globalmq_push_keeps mq_pop_keeps mq_push_keeps release_keeps heap_keeps_refl heap_keeps_store set_init_keeps drop_keeps
  node_keeps_refl node_keeps_mq grab_keeps context_release_keeps : launch.

Lemma with_mq_keeps h s : heap_keeps (n_mq (sc_node s)) h -> keeps s (with_mq h s).
Proof. intros H. split; [|done]. by apply node_keeps_mq. Qed.

Lemma with_node_keeps n s : node_keeps (sc_node s) n -> keeps s (with_node n s).
Proof. by split. Qed.

Lemma log_keeps e h s : heap_keeps (n_mq (sc_node s)) h -> keeps s (log_event e (with_mq h s)).
Proof. intros H. split; [|done]. by apply node_keeps_mq. Qed.

Lemma with_H_keeps H s : keeps s (with_H H s).
Proof. split; [|done]. apply node_keeps_refl. Qed.

Lemma pending_keeps_refl s : keeps s s.
Proof. split; [|done]. apply node_keeps_refl. Qed.

#[export] Hint Resolve with_mq_keeps with_node_keeps log_keeps with_H_keeps pending_keeps_refl : launch.

Lemma run_frame_keeps ok f s fs s' : unfinished f = false -> run_frame ok f s = Ok (fs, s') -> keeps s s'.
Proof.
  intros Hf E. destruct f; try done; cbn [run_frame run_entry run_loop run_return run_release run_push run_retire run_new] in E.
  all: bind_inv E; eauto with launch.
Qed.

(** The calls a settled frame starts look up a handle, and start no launch. *)
Definition addressed (f : frame) : Prop := match f with Grab h _ | Retire h => h <> 0 | _ => True end.

Lemma run_frame_results ok f s gs s' : unfinished f = false -> run_frame ok f s = Ok (gs, s') ->
  Forall (fun g => unfinished g = false /\ addressed g) gs.
Proof.
  intros Hf E. destruct f; try done; cbn [run_frame run_entry run_loop run_return run_release run_push run_retire run_new] in E.
  all: bind_inv E; try (by repeat constructor).
  all: try match goal with |- Forall _ [match ?o with _ => _ end] => destruct o; by repeat constructor end.
  all: try match goal with |- Forall _ (match ?o with _ => _ end) => destruct o; by repeat constructor end.
  all: try (destruct k; by repeat constructor).
  constructor; [done|]. unfold drop_message in *. match goal with H : (assert_ _ ≫= _) = Ok _ |- _ => bind_inv H end; repeat constructor.
  cbn. intros Hz. by rewrite Hz in *.
Qed.

(** ** The invariant of a configuration *)

Section steps.
Context {rep : handle_storage -> node -> gmap Z nat -> Prop} {HT : HandleTable rep}.

(** What is pending is what the frames in [skynet_context_new] are about to store. *)
Record launching (fs : list frame) (s : sched) (Hd Qm : pending) : Prop := Launching {
  ln_handle : forall a h, Hd !! a = Some h <-> exists q, Registered a q h ∈ fs;
  ln_queue : forall q, is_Some (Qm !! q) <-> exists a, (exists h, Registered a q h ∈ fs) \/ Stored a q ∈ fs;
  ln_zero : forall a h, Hd !! a = Some h -> exists c, n_ctx (sc_node s) !! a = Some c /\ c_handle c = 0;
  ln_none : forall q, is_Some (Qm !! q) -> h_queues (n_mq (sc_node s)) !! q = None;
  ln_remote : forall a c, sc_REMOTE s = Some a -> n_ctx (sc_node s) !! a = Some c -> Qm !! c_queue c = None;
  ln_target : Forall addressed fs
}.

(** The contexts [context_inc] has not counted yet. *)
Fixpoint uncounted (fs : list frame) : Z :=
  match fs with
  | [] => 0
  | (Registered _ _ _ | Stored _ _ | Queued _ _) :: fs => 1 + uncounted fs
  | _ :: fs => uncounted fs
  end.

Definition good (cfg : config) : Prop :=
  exists Hd Qm, launching (fst cfg) (snd cfg) Hd Qm /\
    inv rep (fill Hd Qm (uncounted (fst cfg)) (snd cfg)) (reserved (snd cfg) ++ all_tokens (fst cfg)).

Lemma uncounted_perm fs gs : fs ≡ₚ gs -> uncounted fs = uncounted gs.
Proof.
  intros H. induction H as [|f fs gs _ IH|f g fs|]; [done|destruct f; cbn; lia|destruct f, g; cbn; lia|congruence].
Qed.

Lemma uncounted_app fs gs : uncounted (fs ++ gs) = uncounted fs + uncounted gs.
Proof. induction fs as [|f fs IH]; [done|]. destruct f; cbn [uncounted app]; lia. Qed.

Lemma uncounted_settled gs : Forall (fun g => unfinished g = false) gs -> uncounted gs = 0.
Proof. induction 1 as [|g gs Hg _ IH]; [done|]. destruct g; try done. Qed.

Lemma good_perm fs gs s : fs ≡ₚ gs -> good (fs, s) -> good (gs, s).
Proof.
  intros H (Hd & Qm & [L1 L2 L3 L4 L5 L6] & Hi). exists Hd, Qm. cbn [fst snd] in *. split.
  - constructor; try done.
    + intros a h. rewrite L1. by setoid_rewrite H.
    + intros q. rewrite L2. by setoid_rewrite H.
    + by rewrite <- H.
  - rewrite <- (uncounted_perm _ _ H). assert (all_tokens fs ≡ₚ all_tokens gs) as <-; [|done].
    unfold all_tokens. by rewrite H.
Qed.


(** A launching frame owns its context and queue. *)
Lemma launching_token fs f a q : f ∈ fs -> (exists h, f = Registered a q h) \/ f = Stored a q -> TInit a q ∈ all_tokens fs.
Proof.
  intros Hf Hk. apply list_elem_of_bind. exists f. split; [|done].
  destruct Hk as [[h ->]| ->]; apply list_elem_of_here.
Qed.

Lemma pending_queue fs s Hd Qm q : launching fs s Hd Qm -> is_Some (Qm !! q) -> exists a, TInit a q ∈ all_tokens fs.
Proof.
  intros L [a [[h Hf]|Hf]]%(ln_queue _ _ _ _ L); exists a; eapply launching_token; eauto.
Qed.

(** The facts about a settled frame [f] beside the frames [fs]. *)
Section settled.
Context (Hd Qm : pending) (fs : list frame) (f : frame) (s : sched).
Notation v := (fill Hd Qm (uncounted (f :: fs)) s).
Notation T := (reserved s ++ all_tokens fs).
Hypothesis (L : launching (f :: fs) s Hd Qm) (Hi : inv rep v (tokens f ++ T)) (Hf : unfinished f = false).

Lemma settled_frame g : g ∈ f :: fs -> unfinished g = true -> g ∈ fs.
Proof. intros Hg Hu. apply elem_of_cons in Hg as [->|Hg]; [congruence|done]. Qed.

Lemma settled_pending q : is_Some (Qm !! q) -> exists a, TInit a q ∈ T /\ forall c, n_ctx (sc_node s) !! a = Some c -> c_queue c = q.
Proof.
  intros [a Ha]%(ln_queue _ _ _ _ L). exists a.
  assert (TInit a q ∈ T) as Ht.
  { apply elem_of_app. right. destruct Ha as [[h Hg]|Hg]; apply settled_frame in Hg; try done; eapply launching_token; eauto. }
  split; [done|]. intros c Hc. destruct Hi as [(gl & m & _ & _ & Hw) _]. pose proof (wf_tok _ _ _ _ _ _ Hw) as Htok.
  rewrite Forall_forall in Htok. destruct (Htok (TInit a q)) as (d & Hd' & <-); [apply elem_of_app; by right|].
  change (sc_node v) with (fill_node Hd Qm (uncounted (f :: fs)) (sc_node s)) in Hd'. rewrite fill_ctx_lookup, Hc in Hd'.
  injection Hd' as <-. by rewrite fill_context_queue.
Qed.

Lemma settled_owned q : q ∈ owned (tokens f) -> Qm !! q = None.
Proof.
  intros Hq. apply eq_None_not_Some. intros (a & Ht & _)%settled_pending. destruct Hi as [(gl & m & _ & _ & Hw) _].
  pose proof (wf_nodup _ _ _ _ _ _ Hw) as Hnd. rewrite owned_app in Hnd. apply NoDup_app in Hnd as (_ & _ & Hnd).
  apply NoDup_app in Hnd as (_ & Hnd & _). apply (Hnd q Hq). by eapply owned_in.
Qed.

Lemma settled_ends : ends_ok Qm (n_mq (sc_node s)).
Proof.
  intros g x Hg Hx. apply eq_None_not_Some. intros (a & Ht & _)%settled_pending. destruct Hi as [(gl & m & Hgq & _ & Hw) _].
  pose proof (wf_nodup _ _ _ _ _ _ Hw) as Hnd. rewrite owned_app in Hnd. apply NoDup_app in Hnd as (_ & Hnd & _).
  destruct (gq_q _ _ Hgq) as (g' & Hg' & Hch & Htl). cbn in Hg'. rewrite Hg in Hg'. injection Hg' as <-.
  assert (x ∈ gl) as Hin.
  { destruct Hx as [Hx|Hx].
    - rewrite Hx in Hch. destruct gl as [|y gl]; [done|]. destruct Hch as [[= ->] _]. apply list_elem_of_here.
    - rewrite Htl in Hx. by apply last_Some_elem_of in Hx. }
  apply (Hnd _ Hin). apply elem_of_app. right. by eapply owned_in.
Qed.

Lemma settled_ref t a c : t ∈ tokens f -> token_ref t = Some a -> n_ctx (sc_node s) !! a = Some c -> c_ref c = 1 -> Qm !! c_queue c = None.
Proof.
  intros Ht Hta Hc Hr. apply eq_None_not_Some. intros (b & Hb & Hbq)%settled_pending. pose proof Hi as [(gl & m & _ & _ & Hw) _].
  assert (n_ctx (sc_node v) !! a = Some (fill_context Hd a c)) as Hva.
  { change (sc_node v) with (fill_node Hd Qm (uncounted (f :: fs)) (sc_node s)). by rewrite fill_ctx_lookup, Hc. }
  destruct (token_ref_alive _ _ _ _ _ _ (TInit b (c_queue c)) b Hw) as [d Hd']; [apply elem_of_app; by right|done|].
  assert (a = b) as <-.
  { eapply (wf_inj _ _ _ _ _ _ Hw); [done..|]. rewrite fill_context_queue.
    change (sc_node v) with (fill_node Hd Qm (uncounted (f :: fs)) (sc_node s)) in Hd'. rewrite fill_ctx_lookup in Hd'.
    destruct (n_ctx (sc_node s) !! b) as [d0|] eqn:E; [|done]. injection Hd' as <-. rewrite fill_context_queue. symmetry. by apply Hbq. }
  destruct (wf_ctx _ _ _ _ _ _ Hw _ _ Hva) as (R1 & _). rewrite fill_context_ref, refs_app in R1.
  pose proof (refs_pos _ _ _ Ht Hta). pose proof (refs_pos _ _ a Hb eq_refl). unfold table_ref in R1. case_bool_decide; lia.
Qed.

(** A queue with the handle [h] that somebody else owns is not that of a pending context. *)
Lemma settled_find q Q h a hash : q ∈ owned (tokens f) -> h_queues (n_mq (sc_node v)) !! q = Some Q -> q_handle Q = h ->
  find_ctx h (sc_node v) (sc_H s) = Ok (Some (a, hash)) -> Hd !! a = None.
Proof.
  intros Hq HQ Hh Hfind. apply eq_None_not_Some. intros [x [q' Hg]%(ln_handle _ _ _ _ L)].
  apply settled_frame in Hg; [|done]. assert (TInit a q' ∈ T) as Ht.
  { apply elem_of_app. right. eapply launching_token; eauto. }
  pose proof Hi as [(gl & m & _ & Hr & Hw) _]. destruct (ht_find _ _ _ h Hr) as (r & E & Er).
  change (sc_H v) with (sc_H s) in E. rewrite Hfind in E. injection E as <-. cbn in Er.
  destruct (ht_ctx _ _ _ _ _ Hr (eq_sym Er)) as (c & Hc & Hch).
  destruct (wf_ctx _ _ _ _ _ _ Hw _ _ Hc) as (_ & _ & (Q' & HQ' & _ & HQh) & _).
  pose proof (wf_tok _ _ _ _ _ _ Hw) as Htok. rewrite Forall_forall in Htok.
  destruct (Htok (TInit a q')) as (d & Hd' & Hdq); [apply elem_of_app; by right|]. rewrite Hc in Hd'. injection Hd' as <-.
  assert (q = c_queue c) as ->.
  { eapply (wf_handles _ _ _ _ _ _ Hw); [by rewrite erase_lookup, HQ|exact HQ'|]. cbn. congruence. }
  pose proof (wf_nodup _ _ _ _ _ _ Hw) as Hnd. rewrite owned_app in Hnd. apply NoDup_app in Hnd as (_ & _ & Hnd).
  apply NoDup_app in Hnd as (_ & Hnd & _). apply (Hnd _ Hq). rewrite Hdq. by eapply owned_in.
Qed.

(** The queues in the hands of a settled frame are the same in the completed state. *)
Lemma settled_queue q : q ∈ owned (tokens f) -> exists Q, h_queues (n_mq (sc_node v)) !! q = Some Q /\ h_queues (n_mq (sc_node s)) !! q = Some Q /\ q_handle Q <> 0.
Proof.
  intros Hq. destruct (inv_owned _ _ q Hi) as (Q & HQ & _ & _ & Hh & _); [rewrite owned_app; apply elem_of_app; by left|].
  exists Q. split; [done|]. split; [|done]. rewrite <- HQ. symmetry. apply fill_lookup. by apply settled_owned.
Qed.

(** A receiver whose queue exists. *)
Lemma settled_push a c : launch_race f s = false -> receiver s f = Some a -> n_ctx (sc_node s) !! a = Some c -> Qm !! c_queue c = None.
Proof.
  intros Hrace Ha Hc. destruct f as [| | | | | | | | | | | | |b ms|m| | | | | | | | | | | |]; try done; cbn in Ha.
  - destruct ms as [|m ms]; [done|]. injection Ha as ->. cbn in Hrace. rewrite Hc in Hrace. apply bool_decide_eq_false in Hrace.
    apply eq_None_not_Some. intros Hq. by apply Hrace, (ln_none _ _ _ _ L).
  - by apply (ln_remote _ _ _ _ L a).
Qed.

Lemma settled_clear : launch_race f s = false ->
  (forall h a hash, match f with Grab h' _ | Retire h' => h = h' | _ => False end ->
     find_ctx h (sc_node v) (sc_H s) = Ok (Some (a, hash)) -> Hd !! a = None) ->
  clear Hd Qm (uncounted (f :: fs)) s f.
Proof.
  intros Hrace Hfind. pose proof (ln_target _ _ _ _ L) as Haddr. apply Forall_cons in Haddr as [Haddr _]. constructor.
  - apply settled_ends.
  - apply (ln_zero _ _ _ _ L).
  - apply settled_owned.
  - apply settled_ref.
  - intros a c. by apply settled_push.
  - intros h Ht. pose proof settled_queue as HQ. pose proof Hi as [(gl & m & _ & _ & Hw) _].
    pose proof (wf_tok _ _ _ _ _ _ Hw) as Htok. apply Forall_app in Htok as [Htok _].
    destruct f; try done; cbn in Ht; try (injection Ht as <-; done).
    + destruct (HQ q) as (Q & _ & E & Hh); [apply list_elem_of_here|]. rewrite E in Ht. by injection Ht as <-.
    + injection Ht as <-. apply Forall_cons in Htok as [(Q & HQ' & <-) _]. by destruct (wf_queue _ _ _ _ _ _ Hw _ _ HQ') as (_ & ? & _).
  - intros h a hash Ht Hfd. pose proof settled_queue as HQ. pose proof settled_find as Hsf. pose proof Hi as [(gl & m & _ & _ & Hw) _].
    pose proof (wf_tok _ _ _ _ _ _ Hw) as Htok. apply Forall_app in Htok as [Htok _].
    destruct f; try done; cbn in Ht.
    + destruct (HQ q) as (Q & EQ & E & Hh); [apply list_elem_of_here|]. rewrite E in Ht. injection Ht as Ht.
      eapply (Hsf q); [apply list_elem_of_here|exact EQ|exact Ht|exact Hfd].
    + injection Ht as ->. by eapply Hfind.
    + injection Ht as ->. by eapply Hfind.
    + injection Ht as ->. apply Forall_cons in Htok as [(Q & HQ' & Hh) _]. rewrite erase_lookup in HQ'. apply fmap_Some in HQ' as (Q0 & EQ & ->).
      eapply (Hsf q); [apply list_elem_of_here|exact EQ|exact Hh|exact Hfd].
Qed.

Lemma settled_allowed : launch_race f s = false -> allowed f s = true -> allowed f v = true.
Proof.
  intros Hrace Hall. pose proof settled_push as Hp.
  assert (forall a, receiver s f = Some a -> room a s = true -> room a v = true) as Hroom.
  { intros a Ha Hr. unfold room in *. change (sc_node v) with (fill_node Hd Qm (uncounted (f :: fs)) (sc_node s)).
    rewrite fill_ctx_lookup. destruct (n_ctx (sc_node s) !! a) as [c|] eqn:Hc; [|done]. cbn [fmap option_fmap option_map mbind option_bind] in *.
    rewrite fill_context_queue. cbn [fill_node n_mq]. rewrite fill_lookup; [done|]. by eapply Hp. }
  destruct f; try done; cbn [allowed receiver] in *.
  - destruct ms; [done|]. by apply Hroom.
  - change (sc_REMOTE (fill Hd Qm ?k s)) with (sc_REMOTE s). destruct (sc_REMOTE s) as [a|]; [|done]. by apply Hroom.
Qed.

Lemma settled_safe : launch_race f s = false -> safe f v T.
Proof.
  intros Hrace. destruct f; try done; cbn [safe launch_race] in *.
  - apply orb_false_iff in Hrace as [[H1 H2]%orb_false_iff H3]. apply bool_decide_eq_false in H1. apply Z.eqb_neq in H2, H3.
    unfold reserved. destruct (sc_REMOTE s) as [a|] eqn:ER; [|done].
    exists a. split; [done|]. split; [apply list_elem_of_here|done].
  - apply bool_decide_eq_false in Hrace. by apply fill_alive.
  - apply bool_decide_eq_false in Hrace. by apply fill_alive.
Qed.

(** What is pending stays so when a settled frame has run. *)
Lemma settled_launching gs s' : Forall (fun g => unfinished g = false /\ addressed g) gs -> keeps s s' ->
  inv rep (fill Hd Qm (uncounted (f :: fs)) s') (all_tokens gs ++ T) -> launching (gs ++ fs) s' Hd Qm.
Proof.
  intros Hgs [[K1 K2] [K3 K4]] Hi'. pose proof L as [L1 L2 L3 L4 L5 L6].
  assert (forall g, unfinished g = true -> g ∈ gs ++ fs <-> g ∈ f :: fs) as Hmem.
  { intros g Hg. rewrite elem_of_app, elem_of_cons. rewrite Forall_forall in Hgs. split.
    - intros [Hin|]; [|by right]. destruct (Hgs g Hin). congruence.
    - intros [->|]; [congruence|by right]. }
  constructor.
  - intros a h. rewrite L1. by setoid_rewrite Hmem.
  - intros q. rewrite L2. by setoid_rewrite Hmem.
  - intros a h Ha. destruct (L3 _ _ Ha) as (c & Hc & Hz). apply L1 in Ha as [q Hg]. apply settled_frame in Hg; [|done].
    assert (TInit a q ∈ all_tokens gs ++ T) as Ht.
    { apply elem_of_app. right. apply elem_of_app. right. eapply launching_token; eauto. }
    destruct Hi' as [(gl & m & _ & _ & Hw) _]. destruct (token_ref_alive _ _ _ _ _ _ _ a Hw Ht eq_refl) as [d Hd'].
    change (sc_node (fill Hd Qm ?k s')) with (fill_node Hd Qm k (sc_node s')) in Hd'. rewrite fill_ctx_lookup in Hd'.
    destruct (n_ctx (sc_node s') !! a) as [c'|] eqn:Ec'; [|done]. exists c'. split; [done|].
    destruct (K2 _ _ Ec') as (c0 & Hc0 & Hh & _). congruence.
  - intros q Hq. by apply K1, L4.
  - intros a c'. rewrite K3. intros Ha Hc'. destruct (K2 _ _ Hc') as (c & Hc & _ & ->). by apply (L5 a).
  - apply Forall_app. apply Forall_cons in L6 as [_ L6]. split; [|done]. by eapply Forall_impl; [exact Hgs|intros g [_ ?]].
Qed.

Lemma settled_uncounted gs : Forall (fun g => unfinished g = false /\ addressed g) gs -> uncounted (gs ++ fs) = uncounted (f :: fs).
Proof.
  intros Hgs. rewrite uncounted_app, uncounted_settled by (eapply Forall_impl; [exact Hgs|intros g [? _]; done]).
  by destruct f.
Qed.

End settled.

(** A settled frame runs, and keeps the invariant. *)
Lemma settled_step ok f fs s : good (f :: fs, s) -> unfinished f = false -> allowed f s = true -> launch_race f s = false ->
  exists gs s', run_frame ok f s = Ok (gs, s') /\ good (gs ++ fs, s').
Proof.
  intros (Hd & Qm & L & Hi) Hf Hall Hrace. cbn [fst snd] in *.
  assert (inv rep (fill Hd Qm (uncounted (f :: fs)) s) (tokens f ++ reserved s ++ all_tokens fs)) as Hi'.
  { change (all_tokens (f :: fs)) with (tokens f ++ all_tokens fs) in Hi. by rewrite app_assoc, (Permutation_app_comm (reserved s)), <- app_assoc in Hi. }
  assert (Hclear : clear Hd Qm (uncounted (f :: fs)) s f -> exists gs s', run_frame ok f s = Ok (gs, s') /\ good (gs ++ fs, s')).
  { intros Hc. destruct (run_frame_ok ok f _ _ Hi') as (gs & v' & E & Hv); [by apply settled_allowed|done|by apply settled_safe|].
    rewrite (fill_run_frame _ _ _ _ ok f Hc) in E; [|intros a q ->|done].
    2:{ apply eq_None_not_Some. intros [x [q' Hg]%(ln_handle _ _ _ _ L)]. apply (settled_frame fs (Init a q)) in Hg; [|done..].
        assert (TInit a q' ∈ reserved s ++ all_tokens fs) as Ht by (apply elem_of_app; right; eapply launching_token; eauto).
        destruct Hi' as [(gl & m & _ & _ & Hw) _]. pose proof (wf_tok _ _ _ _ _ _ Hw) as Htok. rewrite Forall_forall in Htok.
        destruct (Htok (TInit a q')) as (d & Hd' & <-); [apply elem_of_app; by right|]. destruct (Htok (TInit a q)) as (d' & Hd'' & Hq); [apply list_elem_of_here|].
        rewrite Hd' in Hd''. injection Hd'' as <-. rewrite Hq in Ht. pose proof (wf_nodup _ _ _ _ _ _ Hw) as Hnd. rewrite owned_app in Hnd.
        apply NoDup_app in Hnd as (_ & _ & Hnd). apply NoDup_app in Hnd as (_ & Hnd & _). apply (Hnd q); [apply list_elem_of_here|by eapply owned_in]. }
    destruct (run_frame ok f s) as [[gs' s']| |] eqn:E'; [|done..]. injection E as -> <-. exists gs, s'. split; [done|].
    pose proof (run_frame_keeps _ _ _ _ _ Hf E') as Hk. pose proof (run_frame_results _ _ _ _ _ Hf E') as Hgs.
    exists Hd, Qm. split; cbn [fst snd]; [by eapply settled_launching|].
    assert (uncounted (gs ++ fs) = uncounted (f :: fs)) as -> by (eapply settled_uncounted; eauto). destruct Hk as (_ & HR & _). unfold reserved in *. rewrite HR, all_tokens_app.
    by rewrite app_assoc, (Permutation_app_comm _ (all_tokens gs)), <- app_assoc. }
  assert (Hfind : (exists h a hash x, match f with Grab h' _ | Retire h' => h = h' | _ => False end /\
      find_ctx h (sc_node (fill Hd Qm (uncounted (f :: fs)) s)) (sc_H s) = Ok (Some (a, hash)) /\ Hd !! a = Some x) \/
    forall h a hash, match f with Grab h' _ | Retire h' => h = h' | _ => False end ->
      find_ctx h (sc_node (fill Hd Qm (uncounted (f :: fs)) s)) (sc_H s) = Ok (Some (a, hash)) -> Hd !! a = None).
  { assert (forall h, (exists a hash x, find_ctx h (sc_node (fill Hd Qm (uncounted (f :: fs)) s)) (sc_H s) = Ok (Some (a, hash)) /\ Hd !! a = Some x) \/
      forall a hash, find_ctx h (sc_node (fill Hd Qm (uncounted (f :: fs)) s)) (sc_H s) = Ok (Some (a, hash)) -> Hd !! a = None) as Hh.
    { intros h. destruct (find_ctx h _ _) as [[[a hash]|]| |]; [|by right..].
      destruct (Hd !! a) as [x|] eqn:Ex; [left; by exists a, hash, x|right]. by intros ?? [= <- <-]. }
    destruct f; try (by right).
    all: destruct (Hh h) as [(a & hash & x & H)|H]; [left; exists h, a, hash, x; by split|right; intros ??? ->; apply H]. }
  destruct Hfind as [(h & a & hash & x & Hh & Hfd & Hx)|Hn]; [|apply Hclear; by apply settled_clear].
  pose proof (ln_target _ _ _ _ L) as Haddr. apply Forall_cons in Haddr as [Haddr _].
  assert (h <> 0) as Hh0 by (destruct f; try done; by subst).
  pose proof (fill_find_ctx Hd Qm (uncounted (f :: fs)) h (sc_node s) (sc_H s) Hh0 (ln_zero _ _ _ _ L)) as E.
  change (fill_node Hd Qm (uncounted (f :: fs)) (sc_node s)) with (sc_node (fill Hd Qm (uncounted (f :: fs)) s)) in E.
  rewrite Hfd in E. cbn [mbind result_bind] in E. rewrite Hx in E.
  assert (run_frame ok f s = Ok ([], s)) as Erun.
  { destruct f; try done; subst; cbn [run_frame run_push run_retire].
    - unfold skynet_handle_grab. rewrite E. cbn [mbind result_bind]. by destruct s as [[]].
    - unfold retire_locked. rewrite E. cbn [mbind result_bind]. by destruct s as [[]]. }
  exists [], s. split; [done|]. exists Hd, Qm. cbn [fst snd app]. split.
  - eapply (settled_launching Hd Qm fs f s L Hf [] s); [done|by apply pending_keeps_refl|]. by destruct f.
  - assert (uncounted fs = uncounted (f :: fs)) as -> by (by destruct f). by destruct f.
Qed.


(** ** The steps of a launch *)

Lemma launch_unique Hd Qm k s a q T : inv rep (fill Hd Qm k s) (TInit a q :: T) ->
  (forall b, TInit b q ∉ T) /\ (forall q', TInit a q' ∉ T).
Proof.
  intros [(gl & m & _ & _ & Hw) _]. pose proof (wf_nodup _ _ _ _ _ _ Hw) as Hnd. apply NoDup_app in Hnd as (_ & _ & Hnd).
  cbn in Hnd. apply NoDup_cons in Hnd as [Hnd _]. assert (forall b, TInit b q ∉ T) as H1.
  { intros b Hb. apply Hnd. by eapply owned_in. }
  split; [done|]. intros q' Hq. pose proof (wf_tok _ _ _ _ _ _ Hw) as Htok. apply Forall_cons in Htok as [(c & Hc & Hcq) Htok].
  rewrite Forall_forall in Htok. destruct (Htok _ Hq) as (c' & Hc' & Hcq'). apply (H1 a). congruence.
Qed.

(** The invariant with the tokens of the first frame in front. *)
Lemma good_cons f fs s : good (f :: fs, s) <-> exists Hd Qm, launching (f :: fs) s Hd Qm /\
  inv rep (fill Hd Qm (uncounted (f :: fs)) s) (tokens f ++ reserved s ++ all_tokens fs).
Proof.
  unfold good. cbn [fst snd]. change (all_tokens (f :: fs)) with (tokens f ++ all_tokens fs).
  setoid_rewrite app_assoc. by setoid_rewrite (Permutation_app_comm (tokens f) (reserved s)).
Qed.

Lemma fill_eq Hd Hd' Qm Qm' k k' s s' : sc_H s = sc_H s' -> sc_harbor s = sc_harbor s' -> sc_REMOTE s = sc_REMOTE s' -> sc_log s = sc_log s' ->
  fill_heap Qm (n_mq (sc_node s)) = fill_heap Qm' (n_mq (sc_node s')) ->
  (forall a, fill_context Hd a <$> n_ctx (sc_node s) !! a = fill_context Hd' a <$> n_ctx (sc_node s') !! a) ->
  n_total (sc_node s) + k = n_total (sc_node s') + k' -> fill Hd Qm k s = fill Hd' Qm' k' s'.
Proof.
  intros E1 E2 E3 E4 E5 E6 E7. unfold fill, with_node, fill_node. rewrite E1, E2, E3, E4, E5, E7. do 3 f_equal.
  apply map_eq. intros a. specialize (E6 a). rewrite !map_lookup_imap.
  destruct (n_ctx (sc_node s) !! a), (n_ctx (sc_node s') !! a); cbn in *; congruence.
Qed.

(** [ctx->handle = ...] *)
Lemma registered_step ok a q h fs s : good (Registered a q h :: fs, s) ->
  exists s', run_frame ok (Registered a q h) s = Ok ([Stored a q], s') /\ good (Stored a q :: fs, s').
Proof.
  intros (Hd & Qm & L & Hi)%good_cons. pose proof L as [L1 L2 L3 L4 L5 L6]. pose proof (launch_unique _ _ _ _ _ _ _ Hi) as [U1 U2].
  assert (Hd !! a = Some h) as Ha by (apply L1; exists q; apply list_elem_of_here).
  destruct (L3 _ _ Ha) as (c & Hc & Hz). cbn [run_frame run_new]. rewrite Hc. cbn [deref mbind result_bind].
  eexists. split; [done|]. apply good_cons. exists (delete a Hd), Qm. split.
  - constructor; cbn.
    + intros b x. rewrite lookup_delete_Some, L1. setoid_rewrite elem_of_cons. split.
      * intros [Hne (q' & [[= -> -> ->]|Hin])]; [done|]. exists q'. by right.
      * intros (q' & [|Hin]); [done|]. split; [|exists q'; by right]. intros ->. apply (U2 q').
        apply elem_of_app. right. eapply launching_token; eauto.
    + intros q'. rewrite L2. setoid_rewrite elem_of_cons. naive_solver.
    + intros b x [Hne Hb]%lookup_delete_Some. rewrite lookup_insert_ne by done. by apply (L3 b x).
    + done.
    + intros b d Hb [[<- <-]|[Hne Hbd]]%lookup_insert_Some; [by apply (L5 a c)|by apply (L5 b d)].
    + apply Forall_cons in L6 as [_ L6]. by constructor.
  - cbn [tokens]. erewrite (fill_eq (delete a Hd) Hd Qm Qm _ (uncounted (Registered a q h :: fs)) _ s); try done.
    intros b. cbn. destruct (decide (b = a)) as [->|Hne].
    + rewrite lookup_insert_eq, Hc. cbn. unfold fill_context. by rewrite lookup_delete_eq, Ha.
    + rewrite lookup_insert_ne by done. unfold fill_context. by rewrite lookup_delete_ne.
Qed.

(** [ctx->queue = skynet_mq_create(ctx->handle)] *)
Lemma stored_step ok a q fs s : good (Stored a q :: fs, s) ->
  exists s', run_frame ok (Stored a q) s = Ok ([Queued a q], s') /\ good (Queued a q :: fs, s').
Proof.
  intros (Hd & Qm & L & Hi)%good_cons. pose proof L as [L1 L2 L3 L4 L5 L6]. pose proof (launch_unique _ _ _ _ _ _ _ Hi) as [U1 U2].
  assert (is_Some (Qm !! q)) as [x Hx] by (apply L2; exists a; right; apply list_elem_of_here).
  assert (Hd !! a = None) as Ha.
  { apply eq_None_not_Some. intros [y [q' Hg]%L1]. apply elem_of_cons in Hg as [|Hg]; [done|]. apply (U2 q').
    apply elem_of_app. right. eapply launching_token; eauto. }
  destruct (inv_init_ctx _ _ _ _ Hi) as (d & Hc & Hq). change (sc_node (fill Hd Qm ?k s)) with (fill_node Hd Qm k (sc_node s)) in Hc.
  rewrite fill_ctx_lookup in Hc. destruct (n_ctx (sc_node s) !! a) as [c|] eqn:Ec; [|done]. injection Hc as Hc. unfold fill_context in Hc. rewrite Ha in Hc. subst d.
  assert (c_handle c = x) as Hcx.
  { pose proof Hi as [(gl & m & _ & _ & Hw) _]. destruct (wf_ctx _ _ _ _ _ _ Hw a c) as (_ & _ & (Q & HQ & _ & HQh) & _).
    { change (sc_node (fill Hd Qm ?k s)) with (fill_node Hd Qm k (sc_node s)). rewrite fill_ctx_lookup, Ec. cbn. unfold fill_context. by rewrite Ha. }
    rewrite Hq, erase_lookup in HQ. cbn in HQ. erewrite lookup_union_Some_l in HQ by (rewrite lookup_fmap, Hx; reflexivity).
    injection HQ as <-. by rewrite <- HQh. }
  cbn [run_frame run_new]. unfold skynet_context_handle. rewrite Ec. cbn [deref mbind result_bind]. rewrite Hcx.
  eexists. split; [done|]. apply good_cons. exists Hd, (delete q Qm). split.
  - constructor; cbn.
    + intros b y. rewrite L1. setoid_rewrite elem_of_cons. naive_solver.
    + intros q'. split.
      * intros [y [Hne Hy]%lookup_delete_Some]. destruct (proj1 (L2 q') (ex_intro _ y Hy)) as [b Hb]. exists b.
        setoid_rewrite elem_of_cons. setoid_rewrite elem_of_cons in Hb. naive_solver.
      * intros [b Hb]. assert (is_Some (Qm !! q')) as [y Hy].
        { apply L2. exists b. setoid_rewrite elem_of_cons. setoid_rewrite elem_of_cons in Hb. naive_solver. }
        exists y. apply lookup_delete_Some. split; [|done]. intros <-. apply (U1 b). apply elem_of_app. right.
        destruct Hb as [[h Hb]|Hb]; apply elem_of_cons in Hb as [|Hb]; try done; eapply launching_token; eauto.
    + done.
    + intros q' [y [Hne Hy]%lookup_delete_Some]. rewrite lookup_insert_ne by done. by apply L4.
    + intros b d Hb Hbd. rewrite lookup_delete_None. right. by apply (L5 b).
    + apply Forall_cons in L6 as [_ L6]. by constructor.
  - cbn [tokens]. erewrite (fill_eq Hd Hd (delete q Qm) Qm _ (uncounted (Stored a q :: fs)) _ s); try done.
    unfold fill_heap. cbn. f_equal. rewrite <- (insert_id Qm q x) at 2 by done. rewrite <- (insert_delete_eq Qm q x).
    rewrite !fmap_insert, !fmap_delete. rewrite <- insert_union_l, insert_union_r by by rewrite lookup_delete_eq. done.
Qed.

(** [context_inc()] *)
Lemma queued_step ok a q fs s : good (Queued a q :: fs, s) ->
  exists s', run_frame ok (Queued a q) s = Ok ([Init a q], s') /\ good (Init a q :: fs, s').
Proof.
  intros (Hd & Qm & L & Hi)%good_cons. pose proof L as [L1 L2 L3 L4 L5 L6]. cbn [run_frame run_new].
  eexists. split; [done|]. apply good_cons. exists Hd, Qm. split.
  - constructor; try done.
    + intros b x. rewrite L1. setoid_rewrite elem_of_cons. naive_solver.
    + intros q'. rewrite L2. setoid_rewrite elem_of_cons. naive_solver.
    + apply Forall_cons in L6 as [_ L6]. by constructor.
  - cbn [tokens]. erewrite (fill_eq Hd Hd Qm Qm _ (uncounted (Queued a q :: fs)) _ s); try done. cbn. lia.
Qed.


Lemma unused_new a q fs s : unused (New a q) fs s = true -> forall h H b q' h', Registered b q' h' ∈ fs ->
  skynet_handle_register a (put_ctx a (new_context q) (sc_node s)) (sc_H s) = Ok (h, H) -> h' <> h.
Proof.
  unfold unused. rewrite forallb_forall. intros Hu h H b q' h' Hin E. apply list_elem_of_In in Hin. specialize (Hu _ Hin). cbv beta iota in Hu.
  rewrite E in Hu. by apply negb_true_iff, Z.eqb_neq in Hu.
Qed.

Lemma init_context Hd Qm k s T a q : inv rep (fill Hd Qm k s) T -> TInit a q ∈ T -> exists c, n_ctx (sc_node s) !! a = Some c /\ c_queue c = q.
Proof.
  intros [(gl & m & _ & _ & Hw) _] Ht. pose proof (wf_tok _ _ _ _ _ _ Hw) as Htok. rewrite Forall_forall in Htok.
  destruct (Htok _ Ht) as (d & Hc & <-). change (sc_node (fill Hd Qm k s)) with (fill_node Hd Qm k (sc_node s)) in Hc.
  rewrite fill_ctx_lookup in Hc. destruct (n_ctx (sc_node s) !! a) as [c|]; [|done]. injection Hc as <-. exists c. by rewrite fill_context_queue.
Qed.

(** The registration of a context is the same in the completed state. *)
Lemma register_fill Hd Qm k s T a q : launching T s Hd Qm -> (exists m, rep (sc_H s) (put_ctx a (new_context q) (sc_node (fill Hd Qm k s))) m) ->
  n_ctx (sc_node s) !! a = None -> (free_slot (sc_H s) = true \/ forall b c, n_ctx (sc_node s) !! b = Some c -> c_handle c <> 0) ->
  skynet_handle_register a (put_ctx a (new_context q) (sc_node (fill Hd Qm k s))) (sc_H s) =
  skynet_handle_register a (put_ctx a (new_context q) (sc_node s)) (sc_H s).
Proof.
  intros L [m Hr] Ha [Hf|Hnz]; [by apply (ht_register_free (sc_H s) _ _ m a Hr)|]. apply register_ext.
  change (sc_node (fill Hd Qm k s)) with (fill_node Hd Qm k (sc_node s)). cbn. f_equal. apply map_eq. intros b. rewrite map_lookup_imap.
  destruct (n_ctx (sc_node s) !! b) as [c|] eqn:Ec; [|done]. cbn. unfold fill_context. destruct (Hd !! b) as [x|] eqn:Ex; [|done].
  destruct (ln_zero _ _ _ _ L _ _ Ex) as (c' & Hc' & Hz). rewrite Ec in Hc'. injection Hc' as <-. by destruct (Hnz _ _ Ec).
Qed.

(** The allocation of a context and its registration. *)
Lemma new_step ok a q fs s : good (New a q :: fs, s) -> allowed (New a q) s = true -> unused (New a q) fs s = true ->
  exists gs s', run_frame ok (New a q) s = Ok (gs, s') /\ good (gs ++ fs, s').
Proof.
  intros (Hd & Qm & L & Hi)%good_cons Hall Hun. cbn [fst snd] in L, Hi. pose proof L as [L1 L2 L3 L4 L5 L6].
  apply allowed_new in Hall as (Ha & Hq & Hqs & Hroom & Hfree & Hfresh). set (k := uncounted (New a q :: fs)) in *. cbn [tokens app] in Hi.
  assert (Hd !! a = None) as Hda by (apply eq_None_not_Some; intros [b Hb]; destruct (L3 _ _ Hb) as (c & Hc & _); congruence).
  assert (forall q', is_Some (Qm !! q') -> exists b c, n_ctx (sc_node s) !! b = Some c /\ c_queue c = q' /\ TInit b q' ∈ all_tokens fs) as Hpend.
  { intros q' Hs. destruct (pending_queue _ _ _ _ _ L Hs) as [b Hb]. change (all_tokens (New a q :: fs)) with (all_tokens fs) in Hb.
    destruct (init_context _ _ _ _ _ b q' Hi) as (c & Hc & Hcq); [apply elem_of_app; by right|]. by exists b, c. }
  assert (Qm !! q = None) as HQq by (apply eq_None_not_Some; intros (b & c & Hc & Hcq & _)%Hpend; by apply (Hqs b c)).
  assert (n_ctx (sc_node (fill Hd Qm k s)) !! a = None) as Hva.
  { change (sc_node (fill Hd Qm k s)) with (fill_node Hd Qm k (sc_node s)). by rewrite fill_ctx_lookup, Ha. }
  assert (exists m, rep (sc_H s) (put_ctx a (new_context q) (sc_node (fill Hd Qm k s))) m /\ forall h, m !! h <> Some a) as (m & Hr & Hna).
  { destruct Hi as [(gl & m & _ & Hr & Hw) _]. exists m. split.
    - eapply ht_ext; [exact Hr|]. intros h' b Hb. destruct (wf_reg _ _ _ _ _ _ Hw _ _ Hb) as (d & Hdd & Hdh).
      exists d. split; [|done]. unfold put_ctx. cbn [n_ctx]. rewrite lookup_insert_ne; [exact Hdd|]. intros ->. by rewrite Hva in Hdd.
    - intros h Hh. destruct (wf_reg _ _ _ _ _ _ Hw _ _ Hh) as (c & Hc & _). congruence. }
  destruct (ht_register _ _ _ a (new_context q) Hr) as (h & H & E & _); [cbn; by rewrite lookup_insert_eq|done..|].
  pose proof E as Es. rewrite (register_fill Hd Qm k s _ a q L (ex_intro _ m Hr) Ha Hfree) in Es.
  destruct (Hfresh _ _ Es) as (Hh0 & Hqh & Hch). pose proof (unused_new _ _ _ _ Hun h H) as Hreg.
  cbn [run_frame run_new]. rewrite Es. cbn [mbind result_bind]. eexists _, _. split; [done|]. apply good_cons.
  exists (<[a := h]> Hd), (<[q := h]> Qm). split.
  - constructor; cbn.
    + intros b x. rewrite lookup_insert_Some, L1. setoid_rewrite elem_of_cons. split.
      * intros [[<- <-]|[Hne (q' & [|Hin])]]; [exists q; by left|done|exists q'; by right].
      * intros (q' & [[= -> -> ->]|Hin]); [by left|right]. split; [|exists q'; by right]. intros <-.
        assert (Hd !! a = Some x) as Hx by (apply L1; exists q'; by right). congruence.
    + intros q'. rewrite lookup_insert_is_Some, L2. setoid_rewrite elem_of_cons. split.
      * intros [<-|[Hne [b Hb]]]; [exists a; left; exists h; by left|]. exists b. naive_solver.
      * intros [b [[h' [[= -> -> ->]|Hin]]|[|Hin]]]; [by left| |done|]; (destruct (decide (q = q')) as [->|Hne]; [by left|right]; split; [done|]);
          exists b; naive_solver.
    + intros b x [[<- <-]|[Hne Hb]]%lookup_insert_Some.
      * exists (new_context q). by rewrite lookup_insert_eq.
      * rewrite lookup_insert_ne by done. by apply (L3 b x).
    + intros q' [<-|[Hne Hs]]%lookup_insert_is_Some; [done|]. by apply L4.
    + intros b c Hb [[<- <-]|[Hne Hc]]%lookup_insert_Some.
      * exfalso. destruct Hi as [(gl & m' & _ & _ & Hw) _].
        destruct (token_ref_alive _ _ _ _ _ _ (TRef a) a Hw) as [d Hdd]; [apply elem_of_app; left; unfold reserved; rewrite Hb; apply list_elem_of_here|done|].
        congruence.
      * rewrite lookup_insert_ne by (intros E0; by apply (Hqs b c)). by apply (L5 b).
    + apply Forall_cons in L6 as [_ L6]. by constructor.
  - pose proof (inv_create (fill Hd Qm k s) _ a q h H Hi Hva) as Hcreate. cbn [tokens].
    assert (reserved (with_H H (with_node (put_ctx a (new_context q) (sc_node s)) s)) = reserved s) as -> by done.
    replace (fill (<[a:=h]> Hd) (<[q:=h]> Qm) (uncounted (Registered a q h :: fs)) (with_H H (with_node (put_ctx a (new_context q) (sc_node s)) s)))
      with (with_H H (with_node (Node (skynet_mq_create q h (n_mq (sc_node (fill Hd Qm k s))))
                                   (<[a := set_handle h (new_context q)]> (n_ctx (sc_node (fill Hd Qm k s)))) (n_total (sc_node (fill Hd Qm k s)) + 1)) (fill Hd Qm k s))).
    { apply Hcreate; try done.
      - cbn. rewrite lookup_union_r; [done|]. by rewrite lookup_fmap, HQq.
      - intros q' mq [Hmq|[_ Hmq]]%lookup_union_Some_raw; [|by apply (Hqh q')].
        rewrite lookup_fmap in Hmq. destruct (Qm !! q') as [x|] eqn:Ex; [|done]. injection Hmq as <-. cbn.
        destruct (Hpend q') as (b & c & Hc & Hcq & Ht); [by exists x|]. destruct Hi as [(gl & m' & _ & _ & Hw) _].
        assert (n_ctx (sc_node (fill Hd Qm k s)) !! b = Some (fill_context Hd b c)) as Hvb.
        { change (sc_node (fill Hd Qm k s)) with (fill_node Hd Qm k (sc_node s)). by rewrite fill_ctx_lookup, Hc. }
        destruct (wf_ctx _ _ _ _ _ _ Hw _ _ Hvb) as (_ & _ & (Q & HQ & _ & HQh) & _). rewrite fill_context_queue, Hcq, erase_lookup in HQ.
        cbn in HQ. erewrite lookup_union_Some_l in HQ by (rewrite lookup_fmap, Ex; reflexivity). injection HQ as <-. cbn in HQh.
        rewrite HQh. unfold fill_context. destruct (Hd !! b) as [y|] eqn:Ey; [|by apply (Hch b)]. cbn.
        apply L1 in Ey as [q'' [|Hin]%elem_of_cons]; [done|]. by apply (Hreg b q'' y). }
    transitivity (with_H H (with_node (fill_node (<[a:=h]> Hd) (<[q:=h]> Qm) (uncounted (Registered a q h :: fs)) (put_ctx a (new_context q) (sc_node s))) s)); [|done].
    assert (Node (skynet_mq_create q h (n_mq (sc_node (fill Hd Qm k s)))) (<[a := set_handle h (new_context q)]> (n_ctx (sc_node (fill Hd Qm k s))))
              (n_total (sc_node (fill Hd Qm k s)) + 1) =
            fill_node (<[a:=h]> Hd) (<[q:=h]> Qm) (uncounted (Registered a q h :: fs)) (put_ctx a (new_context q) (sc_node s))) as ->; [|done].
    unfold fill_node. cbn. f_equal.
    + unfold skynet_mq_create, store, fill_heap. cbn. f_equal. by rewrite fmap_insert, insert_union_l.
    + apply map_eq. intros b. rewrite map_lookup_imap. destruct (decide (b = a)) as [->|Hne].
      * rewrite !lookup_insert_eq. cbn. unfold fill_context. by rewrite lookup_insert_eq.
      * rewrite !lookup_insert_ne, map_lookup_imap by done. destruct (n_ctx (sc_node s) !! b); [|done]. cbn. unfold fill_context. by rewrite lookup_insert_ne.
    + unfold k. cbn. lia.
Qed.

(** [skynet_harbor_start] by the code of a service. *)
Lemma harbor_step f a fs s : f ∈ fs -> service f = Some a -> sc_REMOTE s = None -> good (fs, s) ->
  exists s', harbor_start a s = Ok s' /\ good (fs, s').
Proof.
  intros Hf Ha HR Hg. apply elem_of_Permutation in Hf as [gs Hp]. apply (good_perm _ _ _ Hp) in Hg.
  enough (exists s', harbor_start a s = Ok s' /\ good (f :: gs, s')) as (s' & E & Hg').
  { exists s'. split; [done|]. by apply (good_perm _ _ _ (symmetry Hp)). }
  clear Hp fs. rename gs into fs. apply good_cons in Hg as (Hd & Qm & L & Hi). cbn [fst snd] in L, Hi.
  assert (exists q t, t ∈ tokens f /\ token_ref t = Some a /\ unfinished f = false /\ q ∈ owned (tokens f) /\
    forall c, n_ctx (sc_node s) !! a = Some c -> c_queue c = q) as (q & t & Ht & Hta & Hu & Hq & Hcq).
  { pose proof Hi as [(gl & m & _ & _ & Hw) _]. pose proof (wf_tok _ _ _ _ _ _ Hw) as Htok. rewrite Forall_forall in Htok.
    assert (forall q, (exists d, n_ctx (sc_node (fill Hd Qm (uncounted (f :: fs)) s)) !! a = Some d /\ c_queue d = q) ->
      forall c, n_ctx (sc_node s) !! a = Some c -> c_queue c = q) as Hcq.
    { intros q (d & Hda & Hdq) c Hc. change (sc_node (fill Hd Qm ?k s)) with (fill_node Hd Qm k (sc_node s)) in Hda.
      rewrite fill_ctx_lookup, Hc in Hda. injection Hda as <-. by rewrite fill_context_queue in Hdq. }
    destruct f; try done; injection Ha as ->.
    - exists q, (TRun a q). split; [set_solver|]. split_and!; try done; [apply list_elem_of_here|]. apply Hcq.
      destruct (Htok (TRun a q)) as (d & ? & ? & _); [set_solver|by exists d].
    - exists q, (TInit a q). split; [apply list_elem_of_here|]. split_and!; try done; [apply list_elem_of_here|]. apply Hcq.
      apply (Htok (TInit a q)). apply list_elem_of_here. }
  assert (exists d, n_ctx (sc_node (fill Hd Qm (uncounted (f :: fs)) s)) !! a = Some d) as [d Hva].
  { destruct Hi as [(gl & m & _ & _ & Hw) _]. eapply token_ref_alive; [exact Hw|apply elem_of_app; by left|done]. }
  destruct (inv_harbor_start _ _ a d Hi Hva HR) as (v' & E & HR' & Hv').
  assert (Qm !! q = None) as HQq by (by eapply settled_owned; eauto).
  unfold harbor_start in E. change (sc_node (fill Hd Qm ?k s)) with (fill_node Hd Qm k (sc_node s)) in E.
  unfold harbor_start. unfold skynet_context_reserve in *. rewrite fill_grab in E. unfold skynet_context_grab in *.
  destruct (n_ctx (sc_node s) !! a) as [c|] eqn:Ec; [|done]. cbn [deref mbind result_bind] in *. injection E as <-.
  eexists. split; [done|]. apply good_cons. exists Hd, Qm. split.
  - destruct L as [L1 L2 L3 L4 L5 L6]. constructor; cbn; try done.
    + intros b x Hb. destruct (L3 _ _ Hb) as (c0 & Hc0 & Hz). destruct (decide (b = a)) as [->|Hne].
      * rewrite lookup_insert_eq. exists (set_ref (c_ref c + 1) c). split; [done|]. cbn. congruence.
      * rewrite lookup_insert_ne by done. by exists c0.
    + intros b c0 [= <-] Hb. rewrite lookup_insert_eq in Hb. injection Hb as <-. cbn. by rewrite (Hcq c eq_refl).
  - unfold reserved in Hv'. cbn in HR. rewrite HR in Hv'. cbn [app] in Hv'. rewrite Permutation_middle in Hv'.
    unfold reserved. cbn [sc_REMOTE]. cbn [app].
    match goal with |- inv rep ?x _ => match type of Hv' with inv rep ?y _ => assert (x = y) as ->; [|done] end end.
    unfold fill, with_node, context_dec, fill_node. cbn. do 3 f_equal. lia.
Qed.

(** What a service does to its own context. *)
Lemma update_step a c u fs s : good (fs, s) -> n_ctx (sc_node s) !! a = Some c ->
  good (fs, with_node (put_ctx a (apply_update u c) (sc_node s)) s).
Proof.
  intros (Hd & Qm & L & Hi) Hc. cbn [fst snd] in *. exists Hd, Qm. cbn [fst snd].
  assert (c_handle (apply_update u c) = c_handle c /\ c_queue (apply_update u c) = c_queue c) as [U1 U2].
  { destruct u; cbn; try done. unfold skynet_context_newsession. by destruct (s32 (c_session_id c + 1) <=? 0). }
  assert (n_ctx (sc_node (fill Hd Qm (uncounted fs) s)) !! a = Some (fill_context Hd a c)) as Hva.
  { change (sc_node (fill Hd Qm (uncounted fs) s)) with (fill_node Hd Qm (uncounted fs) (sc_node s)). by rewrite fill_ctx_lookup, Hc. }
  split.
  - destruct L as [L1 L2 L3 L4 L5 L6]. constructor; cbn; try done.
    + intros b x Hb. destruct (L3 _ _ Hb) as (c0 & Hc0 & Hz). destruct (decide (b = a)) as [->|Hne].
      * rewrite lookup_insert_eq. exists (apply_update u c). split; [done|]. congruence.
      * rewrite lookup_insert_ne by done. by exists c0.
    + intros b c0 Hb [[<- <-]|[Hne Hc0]]%lookup_insert_Some; [rewrite U2; by apply (L5 a)|by apply (L5 b)].
  - pose proof (inv_update _ _ a _ u Hi Hva) as Hi'. rewrite fill_update in Hi'.
    change (sc_node (fill Hd Qm (uncounted fs) s)) with (fill_node Hd Qm (uncounted fs) (sc_node s)) in Hi'. by rewrite fill_put_ctx in Hi'.
Qed.

Lemma good_call f fs s : call f = true -> good (fs, s) -> good (f :: fs, s).
Proof.
  intros Hf (Hd & Qm & [L1 L2 L3 L4 L5 L6] & Hi). cbn [fst snd] in *. exists Hd, Qm. cbn [fst snd].
  assert (tokens f = [] /\ uncounted (f :: fs) = uncounted fs /\ addressed f /\ (forall a q h, f <> Registered a q h) /\ forall a q, f <> Stored a q) as (E1 & E2 & E3 & E4 & E5).
  { destruct f; try done; cbn in Hf; split_and!; try done; cbn; intros ->; done. }
  rewrite E2. change (all_tokens (f :: fs)) with (tokens f ++ all_tokens fs). rewrite E1. split; [|done].
  constructor; try done.
  - intros a h. rewrite L1. setoid_rewrite elem_of_cons. naive_solver.
  - intros q. rewrite L2. setoid_rewrite elem_of_cons. naive_solver.
  - by constructor.
Qed.

(** A frame runs without a fault unless it races with a launch, and keeps the invariant. *)
Lemma frame_step ok f fs s : good (f :: fs, s) -> allowed f s = true -> unused f fs s = true -> launch_race f s = false ->
  exists gs s', run_frame ok f s = Ok (gs, s') /\ good (gs ++ fs, s').
Proof.
  intros Hg Hall Hun Hrace. destruct (unfinished f) eqn:Hf; [|by apply settled_step].
  destruct f; try done.
  - by apply new_step.
  - destruct (registered_step ok _ _ _ _ _ Hg) as (s' & E & Hg'). by eexists _, s'.
  - destruct (stored_step ok _ _ _ _ Hg) as (s' & E & Hg'). by eexists _, s'.
  - destruct (queued_step ok _ _ _ _ Hg) as (s' & E & Hg'). by eexists _, s'.
Qed.

(** An access that races with a launch is a fault. *)
Lemma race_faults ok f s : launch_race f s = true -> run_frame ok f s = Fault.
Proof.
  intros Hr. destruct f; try done; cbn [launch_race run_frame run_push run_new] in *.
  - destruct ms as [|m ms]; [done|]. destruct (n_ctx (sc_node s) !! a) as [c|]; [|done]. cbn [deref mbind result_bind].
    apply bool_decide_eq_true in Hr. unfold skynet_mq_push. by rewrite Hr.
  - rewrite <- (negb_involutive (message_type m =? PTYPE_SYSTEM)), <- (negb_involutive (message_type m =? PTYPE_HARBOR)) in Hr.
    destruct (negb (message_type m =? PTYPE_SYSTEM)), (negb (message_type m =? PTYPE_HARBOR)); try done.
    cbn [negb andb orb assert_ mbind result_bind] in *. rewrite !orb_false_r in Hr. apply bool_decide_eq_true in Hr. by rewrite Hr.
  - apply bool_decide_eq_true in Hr. by rewrite Hr.
  - apply bool_decide_eq_true in Hr. unfold skynet_context_handle. by rewrite Hr.
Qed.

(** Who creates the queue that a racing message is for. *)
Lemma race_launching a m ms fs s : good (fs, s) -> Holding a (m :: ms) ∈ fs -> launch_race (Holding a (m :: ms)) s = true ->
  exists q, Stored a q ∈ fs \/ exists h, Registered a q h ∈ fs.
Proof.
  intros (Hd & Qm & L & Hi) Hf Hr. cbn [fst snd launch_race] in *. destruct (n_ctx (sc_node s) !! a) as [c|] eqn:Hc; [|done].
  apply bool_decide_eq_true in Hr. pose proof Hi as [(gl & tm & _ & _ & Hw) _].
  assert (n_ctx (sc_node (fill Hd Qm (uncounted fs) s)) !! a = Some (fill_context Hd a c)) as Hva.
  { change (sc_node (fill Hd Qm (uncounted fs) s)) with (fill_node Hd Qm (uncounted fs) (sc_node s)). by rewrite fill_ctx_lookup, Hc. }
  destruct (inv_ctx_queue _ _ _ _ Hi Hva) as (Q & HQ & _). rewrite fill_context_queue in HQ. cbn in HQ.
  apply lookup_union_Some_raw in HQ as [HQ|[_ HQ]]; [|congruence]. rewrite lookup_fmap in HQ.
  destruct (Qm !! c_queue c) as [x|] eqn:Ex; [|done]. destruct (proj1 (ln_queue _ _ _ _ L (c_queue c)) (ex_intro _ x Ex)) as [b Hb].
  assert (TInit b (c_queue c) ∈ all_tokens fs) as Ht by (destruct Hb as [[h Hb]|Hb]; eapply launching_token; eauto).
  destruct (init_context _ _ _ _ _ b (c_queue c) Hi) as (d & Hdb & Hdq); [apply elem_of_app; by right|].
  assert (n_ctx (sc_node (fill Hd Qm (uncounted fs) s)) !! b = Some (fill_context Hd b d)) as Hvb.
  { change (sc_node (fill Hd Qm (uncounted fs) s)) with (fill_node Hd Qm (uncounted fs) (sc_node s)). by rewrite fill_ctx_lookup, Hdb. }
  assert (a = b) as <- by (eapply (wf_inj _ _ _ _ _ _ Hw); [exact Hva|exact Hvb|by rewrite !fill_context_queue]).
  exists (c_queue c). destruct Hb as [Hb|Hb]; auto.
Qed.

Lemma initial_good harbor ws : good (initial harbor ws).
Proof.
  assert (all_tokens (fst (initial harbor ws)) = [] /\ uncounted (fst (initial harbor ws)) = 0 /\
    forall f, f ∈ fst (initial harbor ws) -> exists w, f = Dispatch w None) as (E1 & E2 & E3).
  { cbn. induction ws as [|w ws (H1 & H2 & H3)]; [split_and!; try done; by intros f ?%not_elem_of_nil|]. split_and!; [exact H1|exact H2|].
    intros f [->|Hf]%elem_of_cons; [by exists w|by apply H3]. }
  exists ∅, ∅. split.
  - constructor.
    + intros a h. rewrite lookup_empty. split; [done|]. by intros [q [w [=]]%E3].
    + intros q. rewrite lookup_empty. split; [by intros []|]. by intros [a [[h [w [=]]%E3]|[w [=]]%E3]].
    + intros a h. by rewrite lookup_empty.
    + intros q. rewrite lookup_empty. by intros [].
    + done.
    + apply Forall_forall. by intros f [w ->]%E3.
  - rewrite E1, E2. cbn [app reserved initial snd sc_REMOTE]. change (reserved (snd (initial harbor ws))) with (@nil token). cbn [app].
    replace (fill ∅ ∅ 0 (snd (initial harbor ws))) with (snd (initial harbor ws)); [apply inv_initial|].
    unfold fill, with_node, fill_node, fill_heap. cbn. by rewrite fmap_empty, (left_id_L ∅ (∪)).
Qed.

Lemma step_good cfg cfg' : good cfg -> step cfg cfg' -> good cfg'.
Proof.
  intros Hg Hs. destruct Hs as [fs1 f fs2 s ok fs s' Hall Hun E|fs s f Hf|fs s f a c u Hf Ha Hc|fs s f a s' Hf Ha HR E].
  - apply (good_perm _ (f :: fs1 ++ fs2)) in Hg; [|by rewrite Permutation_middle].
    destruct (launch_race f s) eqn:Er; [by rewrite (race_faults ok f s Er) in E|].
    destruct (frame_step ok f (fs1 ++ fs2) s Hg Hall Hun Er) as (gs & s'' & E' & Hg'). rewrite E in E'. injection E' as <- <-.
    eapply good_perm; [|exact Hg']. by rewrite !app_assoc, (Permutation_app_comm fs fs1).
  - by apply good_call.
  - by apply update_step.
  - destruct (harbor_step f a fs s Hf Ha HR Hg) as (s'' & E' & Hg'). congruence.
Qed.

End steps.
