(* ===== verification/DispatchProps.v ===== *)
(** * What the dispatcher guarantees

    The properties of every configuration the steps of Dispatch.v reach, read
    off the invariant of DispatchInv.v, and the length of a worker's turn. *)
From S2P Require Import Prelude CString MessageQueue Context Handle HandleTable Server Dispatch DispatchInv DispatchLaunch.

(** ** Definitions *)

(** The configurations of a node of this harbor id with workers of these weights. *)
Definition reachable (harbor : Z) (weights : list Z) : config -> Prop := rtc step (initial harbor weights).

(** One call of [skynet_context_message_dispatch] that nothing interrupts, from
    the program point [f] to the next call; one unit of fuel per frame. *)
Fixpoint run_turn (fuel : nat) (f : frame) (s : sched) : result (frame * sched) :=
  match fuel with
  | O => Fault
  | S fuel =>
      '(fs, s) ← run_frame true f s;
      match fs with
      | [Dispatch w q] => Ok (Dispatch w q, s)
      | [f] => run_turn fuel f s
      | _ => Fault
      end
  end.

(** How many of [len] messages a turn of a worker of weight [w] handles. *)
Definition turn_length (w len : Z) : Z := if w <? 0 then 1 else Z.max 1 (Z.shiftr (len - 1) w).

(** The state of a turn: [l] is left in queue [q] of the context [a], [gl] is
    the global list and [lg] the history; the rest is as in [s0]. *)
Record turn_state (s0 : sched) (q : nat) (gl : list nat) (l : list skynet_message) (lg : list event) (s : sched) : Prop := TurnState {
  ts_ctx : n_ctx (sc_node s) = n_ctx (sc_node s0);
  ts_total : n_total (sc_node s) = n_total (sc_node s0);
  ts_H : sc_H s = sc_H s0;
  ts_log : sc_log s = lg;
  ts_gl : gq_rep (n_mq (sc_node s)) gl;
  ts_out : q ∉ gl;
  ts_queue : exists Q, h_queues (n_mq (sc_node s)) !! q = Some Q /\ mq_rep Q l
}.

(** ** Reachable configurations *)

Lemma reachable_good harbor ws cfg : reachable harbor ws cfg -> good (rep := storage_rep) cfg.
Proof.
  unfold reachable. intros H. pose proof (initial_good (rep := storage_rep) harbor ws) as Hg.
  induction H as [|x y z Hs _ IH]; [done|]. apply IH. by eapply step_good.
Qed.

(** ** A turn *)

Lemma run_turn_step fuel f f' s s' : run_frame true f s = Ok ([f'], s') ->
  match f' with Dispatch _ _ => False | _ => True end -> run_turn (S fuel) f s = run_turn fuel f' s'.
Proof. intros E Hf. cbn [run_turn]. rewrite E. cbn [mbind result_bind]. by destruct f'. Qed.

(** The first program points of a turn. *)
Lemma turn_start w q a hash Q c s : h_queues (n_mq (sc_node s)) !! q = Some Q ->
  find_ctx (q_handle Q) (sc_node s) (sc_H s) = Ok (Some (a, hash)) -> n_ctx (sc_node s) !! a = Some c ->
  run_frame true (HaveQueue w q) s = Ok ([Loop w q a 0 1], with_node (put_ctx a (set_ref (c_ref c + 1) c) (sc_node s)) s).
Proof.
  intros HQ Hfind Hc. cbn [run_frame run_entry]. unfold skynet_mq_handle. rewrite HQ. cbn [deref mbind result_bind].
  unfold skynet_handle_grab. rewrite Hfind. cbn [mbind result_bind]. unfold skynet_context_grab. rewrite Hc. reflexivity.
Qed.

Lemma loop_pop w q a i n m h s : i < n -> skynet_mq_pop q (n_mq (sc_node s)) = Ok (Some m, h) ->
  run_frame true (Loop w q a i n) s = Ok ([Popped w q a i n m], log_event (EvPop q m) (with_mq h s)).
Proof. intros Hi E. cbn [run_frame run_loop]. destruct (Z.ltb_spec i n); [|lia]. rewrite E. reflexivity. Qed.

Lemma turn_pop s0 q gl m l lg s : turn_state s0 q gl (m :: l) lg s ->
  exists h, skynet_mq_pop q (n_mq (sc_node s)) = Ok (Some m, h) /\
    turn_state s0 q gl l (lg ++ [EvPop q m]) (log_event (EvPop q m) (with_mq h s)).
Proof.
  intros [H1 H2 H3 H4 H5 H6 (Q & HQ & Hl)]. destruct (mq_pop_rep _ _ _ Hl) as (Q' & E & Hl' & _ & E2 & _).
  unfold skynet_mq_pop. rewrite HQ. cbn. rewrite E. cbn. eexists. split; [done|]. constructor; try done.
  - cbn. by rewrite H4.
  - by eapply gq_rep_store.
  - exists Q'. split; [cbn; by rewrite lookup_insert_eq|done].
Qed.

Lemma mq_overload_rep Q l : mq_rep Q l -> mq_rep (snd (skynet_mq_overload Q)) l /\ q_next (snd (skynet_mq_overload Q)) = q_next Q.
Proof.
  intros H. unfold skynet_mq_overload. destruct (negb (q_overload Q =? 0)); [|done]. split; [|done].
  eapply mq_rep_ext; [..|exact H]; try done. by destruct H.
Qed.

(** One message: its overload report, its callback, and the new bound of the loop. *)
Lemma turn_message fuel s0 w q a c cb i n m gl l lg s : turn_state s0 q gl l lg s ->
  n_ctx (sc_node s0) !! a = Some c -> c_init c = true -> c_cb c = Some cb ->
  exists s', turn_state s0 q gl l lg s' /\
    run_turn (S (S fuel)) (Popped w q a i n m) s =
    run_turn fuel (Loop w q a (i + 1) (if (i =? 0) && (0 <=? w) then Z.shiftr (zlen l) w else n)) s'.
Proof.
  intros [H1 H2 H3 H4 H5 H6 (Q & HQ & Hl)] Hc Hi Hcb. destruct (mq_overload_rep _ _ Hl) as [Hl' En].
  cbn [run_turn run_frame run_loop]. rewrite HQ. cbn [deref mbind result_bind].
  rewrite (mq_length_rep _ _ Hl). destruct (skynet_mq_overload Q) as [o Q']. cbn [snd] in *.
  change (n_ctx (sc_node (with_mq (store q Q' (n_mq (sc_node s))) s)) !! a) with (n_ctx (sc_node s) !! a).
  rewrite H1, Hc. cbn [deref mbind result_bind]. rewrite Hcb, Hi. cbn [assert_ mbind result_bind].
  eexists. split; [|reflexivity]. constructor; try done.
  - by eapply gq_rep_store.
  - exists Q'. split; [cbn; by rewrite lookup_insert_eq|done].
Qed.

(** The rounds of the loop after the first. *)
Lemma turn_loop j : forall fuel s0 w q a c cb i n gl l lg s, turn_state s0 q gl l lg s ->
  n_ctx (sc_node s0) !! a = Some c -> c_init c = true -> c_cb c = Some cb ->
  0 < i -> n - i <= Z.of_nat j -> (0 <= n - i -> n - i = Z.of_nat j) -> (n - i < 0 -> j = 0%nat) -> (j <= length l)%nat ->
  exists s', turn_state s0 q gl (drop j l) (lg ++ (EvPop q <$> take j l)) s' /\
    run_turn (S (3 * j + fuel)) (Loop w q a i n) s = run_turn fuel (LoopEnd w q a) s'.
Proof.
  induction j as [|j IH]; intros fuel s0 w q a c cb i n gl l lg s Hs Hc Hi Hcb Hi0 H1 H2 H3 Hj.
  - exists s. rewrite drop_0, take_0, fmap_nil, app_nil_r. split; [done|]. cbn [run_turn run_frame run_loop].
    destruct (Z.ltb_spec i n); [lia|]. reflexivity.
  - destruct l as [|m l]; [cbn in Hj; lia|]. destruct (turn_pop _ _ _ _ _ _ _ Hs) as (h & E & Hs1).
    destruct (turn_message (3 * j + fuel + 1) s0 w q a c cb i n m gl l _ _ Hs1 Hc Hi Hcb) as (s2 & Hs2 & E2).
    destruct (Z.eqb_spec i 0) as [|_]; [lia|]. cbn [andb] in E2.
    destruct (IH fuel s0 w q a c cb (i + 1) n gl l _ s2 Hs2 Hc Hi Hcb) as (s3 & Hs3 & E3); [lia..|cbn in Hj; lia|].
    exists s3. split; [by rewrite <- app_assoc in Hs3|]. rewrite <- E3.
    replace (3 * S j + fuel)%nat with (S (S (3 * j + fuel + 1))) by lia.
    replace (S (3 * j + fuel)) with (3 * j + fuel + 1)%nat by lia. rewrite <- E2.
    by apply run_turn_step; [apply loop_pop; [lia|]|].
Qed.

(** The end of a turn: the queue goes behind the others, if there are others. *)
Lemma turn_end s0 w q a c gl l lg s : turn_state s0 q gl l lg s ->
  n_ctx (sc_node s0) !! a = Some c -> c_queue c = q -> 1 < c_ref c ->
  exists s', run_turn 4 (LoopEnd w q a) s = Ok (Dispatch w (Some (hd q gl)), s') /\
    sc_log s' = lg /\ gq_rep (n_mq (sc_node s')) (match gl with [] => [] | _ :: gl => gl ++ [q] end) /\
    n_ctx (sc_node s') = <[a := set_ref (c_ref c - 1) c]> (n_ctx (sc_node s0)) /\
    exists Q, h_queues (n_mq (sc_node s')) !! q = Some Q /\ mq_rep Q l.
Proof.
  intros [H1 H2 H3 H4 H5 H6 (Q & HQ & Hl)] Hc Hq Hr. remember 3%nat as f.
  cbn [run_turn run_frame run_return]. rewrite H1, Hc. cbn [deref mbind result_bind]. rewrite Hq, Nat.eqb_refl. cbn [assert_ mbind result_bind].
  assert (Hqq : forall h, erase h = erase (n_mq (sc_node s)) -> exists Q', h_queues h !! q = Some Q' /\ mq_rep Q' l).
  { intros h Eh. assert (erase h !! q = Some (set_next None Q)) as E by (by rewrite Eh, erase_lookup, HQ).
    rewrite erase_lookup in E. destruct (h_queues h !! q) as [Q'|]; [|done]. exists Q'. split; [done|].
    change (Some (set_next None Q') = Some (set_next None Q)) in E. apply (inj Some) in E.
    apply (mq_rep_set_next Q' l None). rewrite E. by apply mq_rep_set_next. }
  destruct gl as [|nq gl].
  - rewrite globalmq_pop_nil by done. cbn [mbind result_bind]. subst f. cbn. unfold skynet_context_release. cbn.
    rewrite H1, Hc. cbn. destruct (Z.eqb_spec (c_ref c - 1) 0); [lia|]. cbn.
    eexists. split; [reflexivity|]. split; [done|]. split; [done|]. split; [done|]. by exists Q.
  - destruct (globalmq_pop_cons _ _ _ H5) as (h & -> & Hg & Eh). cbn [mbind result_bind]. subst f. cbn.
    destruct (Hqq h Eh) as (Q' & HQ' & Hl').
    destruct (globalmq_push_rep _ _ _ _ Hg HQ') as (h' & -> & Hg' & Eh'); [set_solver|]. cbn. unfold skynet_context_release. cbn.
    rewrite H1, Hc. cbn. destruct (Z.eqb_spec (c_ref c - 1) 0); [lia|]. cbn.
    eexists. split; [reflexivity|]. split; [done|]. split; [done|]. split; [done|]. apply (Hqq h'). congruence.
Qed.

Lemma turn_length_range w len : 1 <= len -> 1 <= turn_length w len <= len.
Proof.
  intros H. unfold turn_length. destruct (Z.ltb_spec w 0); [lia|].
  rewrite Z.shiftr_div_pow2 by lia. pose proof (Z.pow_pos_nonneg 2 w).
  assert ((len - 1) / 2 ^ w <= len - 1) by (apply Z.div_le_upper_bound; nia). lia.
Qed.

(** ** Tokens of a configuration *)

Lemma serving_tokens f q a : serving f = Some (q, a) -> tokens f = [TOwn q; TRun a q].
Proof. destruct f; cbn; try done; by intros [= -> ->]. Qed.

Lemma serving_owned fs : (fst <$> omap serving fs) ⊆+ owned (all_tokens fs).
Proof.
  induction fs as [|f fs IH]; [done|]. change (all_tokens (f :: fs)) with (tokens f ++ all_tokens fs).
  rewrite owned_app. cbn. destruct (serving f) as [[q a]|] eqn:E.
  - rewrite (serving_tokens _ _ _ E). cbn. by apply submseteq_skip.
  - by apply submseteq_inserts_l.
Qed.

Lemma serving_in fs f q a : f ∈ fs -> serving f = Some (q, a) -> TRun a q ∈ all_tokens fs.
Proof.
  intros Hf Hs. apply list_elem_of_bind. exists f. split; [|done]. rewrite (serving_tokens _ _ _ Hs). set_solver.
Qed.

(** The context of a worker. *)
Lemma serving_context fs s f q a : good (rep := storage_rep) (fs, s) -> f ∈ fs -> serving f = Some (q, a) ->
  exists c, n_ctx (sc_node s) !! a = Some c /\ c_queue c = q /\ c_init c = true.
Proof.
  intros (Hd & Qm & L & (gl & m & _ & _ & Hw) & _) Hf Hs. pose proof (wf_tok _ _ _ _ _ _ Hw) as Htok. rewrite Forall_forall in Htok.
  destruct (Htok (TRun a q)) as (d & Hda & Hq & Hi); [apply elem_of_app; right; by eapply serving_in|].
  cbn [fst snd] in *.
  change (sc_node (fill Hd Qm (uncounted fs) s)) with (fill_node Hd Qm (uncounted fs) (sc_node s)) in Hda. rewrite fill_ctx_lookup in Hda.
  destruct (n_ctx (sc_node s) !! a) as [c|]; [|done]. injection Hda as <-. exists c.
  by rewrite fill_context_queue, fill_context_init in *.
Qed.

(** The queues of a good configuration and the pairs served. *)
Lemma serving_nodup fs s : good (rep := storage_rep) (fs, s) ->
  NoDup (fst <$> omap serving fs) /\ NoDup (snd <$> omap serving fs).
Proof.
  intros Hg. pose proof Hg as (Hd & Qm & L & (gl & m & _ & _ & Hw) & _). cbn [fst snd] in Hw.
  pose proof (wf_nodup _ _ _ _ _ _ Hw) as Hnd. rewrite owned_app in Hnd. apply NoDup_app in Hnd as (_ & _ & Hnd).
  apply NoDup_app in Hnd as (_ & _ & Hnd).
  assert (NoDup (fst <$> omap serving fs)) as H1.
  { destruct (submseteq_Permutation _ _ (serving_owned fs)) as [k Hk]. rewrite Hk in Hnd. by apply NoDup_app in Hnd as (? & _ & _). }
  split; [done|].
  apply (NoDup_fmap_1 (fun a => default 0%nat (c_queue <$> n_ctx (sc_node s) !! a))).
  rewrite <- list_fmap_compose. erewrite list_fmap_ext; [exact H1|]. intros i [q a] Hi. cbn.
  apply list_elem_of_lookup_2, list_elem_of_omap in Hi as (f & Hf & Hs).
  destruct (serving_context _ _ _ _ _ Hg Hf Hs) as (c & Hc & Hq & _). by rewrite Hc.
Qed.

(** A schedule: two services are launched on a node with two workers, three
    messages are sent, and both workers are in a callback. *)
Definition runs_of (i n : nat) : list choice := replicate n (ChRun i true).
Definition launch (a q : nat) : list choice :=
  ChCall (New a q) :: runs_of 0 4 ++ [ChUpdate 0 (UpCallback 0 (Some 1))] ++ runs_of 0 4.
Definition send (h : Z) (m : skynet_message) : list choice := ChCall (Grab h [m]) :: runs_of 0 3.
Definition demo_schedule : list choice :=
  launch 10 20 ++ launch 11 21 ++
  send 16777217 (sample_message 1) ++ send 16777218 (sample_message 2) ++ send 16777217 (sample_message 3) ++
  runs_of 0 4 ++ runs_of 1 4.
Definition demo_start : config := initial 1 [-1; 0].
Definition demo : config := default demo_start (exec demo_schedule demo_start).
(** The workers finish; in [killed], the first service is killed before its second message. *)
Definition drained : config := default demo_start (exec (demo_schedule ++ runs_of 0 20 ++ runs_of 1 20) demo_start).
Definition killed : config :=
  default demo_start (exec (demo_schedule ++ [ChCall (Retire 16777217); ChRun 0 true; ChRun 0 true] ++ runs_of 0 10 ++ runs_of 1 20) demo_start).

Lemma reach chs harbor ws cfg : exec chs (initial harbor ws) = Some cfg -> reachable harbor ws cfg.
Proof. apply exec_steps. Qed.

(** ** Properties *)

(** C1. One worker per service: in every reachable configuration no two
    workers serve the same message queue or the same context, and the context
    a worker serves is allocated, initialised and the owner of that queue, so
    the callback of a service never runs twice at the same time. *)
Theorem one_worker_per_service (harbor : Z) (ws : list Z) (fs : list frame) (s : sched)
  (Hr : reachable harbor ws (fs, s)) :
  NoDup (fst <$> omap serving fs) /\ NoDup (snd <$> omap serving fs) /\
  forall f q a, f ∈ fs -> serving f = Some (q, a) ->
    exists c, n_ctx (sc_node s) !! a = Some c /\ c_queue c = q /\ c_init c = true.
Proof.
  apply reachable_good in Hr. destruct (serving_nodup _ _ Hr) as [H1 H2].
  split; [done|]. split; [done|]. intros f q a. by apply serving_context.
Qed.

Lemma one_worker_per_service_witness : omap serving (fst demo) = [(20%nat, 10%nat); (21%nat, 11%nat)] /\ NoDup (snd <$> omap serving (fst demo)).
Proof.
  split; [vm_compute; reflexivity|]. apply (one_worker_per_service 1 [-1; 0] (fst demo) (snd demo)).
  apply (reach demo_schedule). vm_compute. reflexivity.
Defined.

(** C3. The dispatcher is memory safe but for the launch of a service: in every
    reachable configuration, whichever frame runs next and whatever the init
    function of a module returns, no assertion of the source fails, no freed or
    unfinished context or queue is accessed and no reference count is wrong,
    except for the accesses [launch_race] names, and these are faults: a message
    is put into a queue that [skynet_context_new] has not created yet (the
    context is in the table already, and a frame is about to create the queue),
    [ctx->init] is written or the report of the launch reads the context after
    somebody else has freed it, or a message goes to the harbor service before
    there is one. What the allocator, the handle counter and the lengths of the
    queues must grant is [allowed] and [unused]. *)
Theorem dispatch_memory_safe (harbor : Z) (ws : list Z) (fs1 fs2 : list frame) (s : sched) (f : frame) (ok : bool)
  (Hr : reachable harbor ws (fs1 ++ f :: fs2, s)) (Hall : allowed f s = true) (Hun : unused f (fs1 ++ fs2) s = true) :
  if launch_race f s then
    run_frame ok f s = Fault /\
    match f with Holding a (_ :: _) => exists q, Stored a q ∈ fs1 ++ fs2 \/ exists h, Registered a q h ∈ fs1 ++ fs2 | _ => True end
  else exists gs s', run_frame ok f s = Ok (gs, s').
Proof.
  apply reachable_good in Hr. assert (fs1 ++ f :: fs2 ≡ₚ f :: fs1 ++ fs2) as Hp by by rewrite Permutation_middle.
  apply (good_perm _ _ _ Hp) in Hr. destruct (launch_race f s) eqn:Er.
  - split; [by apply race_faults|]. destruct f; try done. destruct ms as [|m ms]; [done|].
    destruct (race_launching a m ms _ s Hr) as (q & Hq); [apply list_elem_of_here|done|]. exists q.
    setoid_rewrite elem_of_cons in Hq. naive_solver.
  - destruct (frame_step ok f _ _ Hr Hall Hun Er) as (gs & s' & E & _). by exists gs, s'.
Qed.

(** A worker in a callback; a sender that has found a service whose queue is not there yet. *)
Definition racing_schedule : list choice :=
  ChCall (New 10 20) :: runs_of 0 2 ++ [ChCall (Grab 16777217 [sample_message 1]); ChRun 0 true].
Definition racing : config := default demo_start (exec racing_schedule demo_start).

Lemma dispatch_memory_safe_witness :
  (exists gs s', run_frame true (Callback (-1) 20 10 0 1 (sample_message 1)) (snd demo) = Ok (gs, s')) /\
  run_frame true (Holding 10 [sample_message 1]) (snd racing) = Fault.
Proof.
  split.
  - apply (dispatch_memory_safe 1 [-1; 0] [] [Callback 0 21 11 0 0 (sample_message 2)] (snd demo) (Callback (-1) 20 10 0 1 (sample_message 1))).
    + apply (reach demo_schedule). vm_compute. reflexivity.
    + reflexivity.
    + reflexivity.
  - apply (dispatch_memory_safe 1 [-1; 0] [] [Stored 10 20; Dispatch (-1) None; Dispatch 0 None] (snd racing) (Holding 10 [sample_message 1]) true).
    + apply (reach racing_schedule). vm_compute. reflexivity.
    + vm_compute. reflexivity.
    + reflexivity.
Defined.

(** C2. Every message is handled exactly once and in order: what was taken
    out of a queue, for the callback or to be dropped, is a prefix of what was
    put into it, the rest is exactly what the ring buffer still holds, and a
    queue that was freed had been taken out completely. *)
Theorem delivery_exactly_once (harbor : Z) (ws : list Z) (fs : list frame) (s : sched) (q : nat)
  (Hr : reachable harbor ws (fs, s)) :
  exists l, pushed q (sc_log s) = taken q (sc_log s) ++ l /\
    match h_queues (n_mq (sc_node s)) !! q with
    | Some Q => mq_rep Q l
    | None => l = []
    end.
Proof.
  apply reachable_good in Hr as (Hd & Qm & L & Hi). cbn [fst snd] in L, Hi. pose proof Hi as [(gl & m & _ & _ & Hw) _].
  set (v := fill Hd Qm (uncounted fs) s) in *. change (sc_log v) with (sc_log s) in Hw.
  destruct (h_queues (n_mq (sc_node v)) !! q) as [Q|] eqn:EQ.
  - destruct (wf_queue _ _ _ _ _ _ Hw q (set_next None Q)) as (_ & _ & l & Hl & Hev & _); [by rewrite erase_lookup, EQ|].
    exists l. split; [done|]. apply mq_rep_set_next in Hl. cbn in EQ.
    apply lookup_union_Some_raw in EQ as [EQ|[_ EQ]]; [|by rewrite EQ].
    rewrite lookup_fmap in EQ. destruct (Qm !! q) as [h|] eqn:Eh; [|done]. injection EQ as <-.
    rewrite (ln_none _ _ _ _ L) by by exists h. by apply (rep_empty (mq_new h)).
  - exists []. rewrite app_nil_r. split; [eapply wf_gone; [exact Hw|]; by rewrite erase_lookup, EQ|].
    cbn in EQ. apply lookup_union_None in EQ as [_ EQ]. by rewrite EQ.
Qed.

Lemma delivery_exactly_once_witness :
  taken 20 (sc_log (snd killed)) = [sample_message 1; sample_message 3] /\ h_queues (n_mq (sc_node (snd killed))) !! 20%nat = None /\
  exists l, pushed 20 (sc_log (snd killed)) = taken 20 (sc_log (snd killed)) ++ l.
Proof.
  split; [vm_compute; reflexivity|]. split; [vm_compute; reflexivity|].
  destruct (delivery_exactly_once 1 [-1; 0] (fst killed) (snd killed) 20) as (l & E & _); [|by exists l].
  apply (reach (demo_schedule ++ [ChCall (Retire 16777217); ChRun 0 true; ChRun 0 true] ++ runs_of 0 10 ++ runs_of 1 20)).
  vm_compute. reflexivity.
Defined.

(** Nothing is pending when no frame launches anything. *)
Lemma fill_nothing s : fill ∅ ∅ 0 s = s.
Proof.
  unfold fill, with_node, fill_node, fill_heap. destruct s as [[[[Q g] C t] H] hb R l]. cbn. rewrite fmap_empty, (left_id_L ∅ (∪)), Z.add_0_r.
  do 3 f_equal. apply map_eq. intros a. rewrite map_lookup_imap. by destruct (C !! a).
Qed.

Lemma good_settled fs s : good (rep := storage_rep) (fs, s) -> Forall (fun f => unfinished f = false) fs -> inv storage_rep s (reserved s ++ all_tokens fs).
Proof.
  intros (Hd & Qm & L & Hi) Hu. cbn [fst snd] in *. rewrite (uncounted_settled _ Hu) in Hi. rewrite Forall_forall in Hu.
  assert (Hd = ∅) as ->.
  { apply map_empty. intros a. apply eq_None_not_Some. by intros [h [q Hf%Hu]%(ln_handle _ _ _ _ L)]. }
  assert (Qm = ∅) as ->.
  { apply map_empty. intros q. apply eq_None_not_Some. by intros [a [[h Hf%Hu]|Hf%Hu]]%(ln_queue _ _ _ _ L). }
  by rewrite fill_nothing in Hi.
Qed.

Lemma good_idle fs s : good (rep := storage_rep) (fs, s) -> Forall (fun f => idle f = true) fs -> inv storage_rep s (reserved s).
Proof.
  intros Hg Hidle. assert (all_tokens fs = [] /\ Forall (fun f => unfinished f = false) fs) as [E Hu].
  { clear Hg. induction Hidle as [|f fs Hf _ [H1 H2]]; [done|]. destruct f as [w q| | | | | | | | | | | | | | | | | | | | | | | | | |]; try done.
    destruct q; [done|]. split; [exact H1|by constructor]. }
  pose proof (good_settled _ _ Hg Hu) as Hi. by rewrite E, app_nil_r in Hi.
Qed.

(** C4. No wake-up is lost: when every worker is idle, no call is in progress
    and the global list is empty, every message ever sent was taken, every
    context has its one reference from the handle table, where its handle
    finds it (but for the reservation of the harbor service, which also keeps it
    from being counted), and no queue is left of a context that was deleted. *)
Theorem idle_means_done (harbor : Z) (ws : list Z) (fs : list frame) (s : sched) (h : heap)
  (Hr : reachable harbor ws (fs, s)) (Hidle : Forall (fun f => idle f = true) fs)
  (Hnone : skynet_globalmq_pop (n_mq (sc_node s)) = Ok (None, h)) :
  (forall q, taken q (sc_log s) = pushed q (sc_log s)) /\
  (forall a c, n_ctx (sc_node s) !! a = Some c ->
     if decide (sc_REMOTE s = Some a) then 1 <= c_ref c <= 2
     else c_ref c = 1 /\ c_init c = true /\ exists hash, find_ctx (c_handle c) (sc_node s) (sc_H s) = Ok (Some (a, hash))) /\
  (forall q Q, h_queues (n_mq (sc_node s)) !! q = Some Q -> exists a c, n_ctx (sc_node s) !! a = Some c /\ c_queue c = q) /\
  n_total (sc_node s) = Z.of_nat (size (n_ctx (sc_node s))) - match sc_REMOTE s with Some _ => 1 | None => 0 end.
Proof.
  apply reachable_good in Hr. apply good_idle in Hr as [(gl & m & Hg & Hrep & Hw) Ht]; [|done].
  assert (owned (reserved s) = []) as Eown by (unfold reserved; by destruct (sc_REMOTE s)). destruct gl as [|x gl].
  2:{ destruct (globalmq_pop_cons _ _ _ Hg) as (h' & E & _). congruence. }
  assert (forall q Q, h_queues (n_mq (sc_node s)) !! q = Some Q -> q_in_global Q = 0 /\ q_release Q = 0) as Hidle'.
  { intros q Q HQ. assert (~ busy (set_next None Q)) as Hb.
    { intros Hb. apply (not_elem_of_nil q). rewrite <- Eown. apply (wf_own _ _ _ _ _ _ Hw q). exists (set_next None Q). by rewrite erase_lookup, HQ. }
    unfold busy in Hb. cbn in Hb. lia. }
  split; [|split; [|split]].
  - intros q. destruct (erase (n_mq (sc_node s)) !! q) as [Q|] eqn:EQ; [|by symmetry; eapply wf_gone].
    destruct (wf_queue _ _ _ _ _ _ Hw _ _ EQ) as (_ & _ & l & _ & Hev & Hz). rewrite erase_lookup in EQ.
    destruct (h_queues (n_mq (sc_node s)) !! q) as [Q0|] eqn:EQ0; [|done]. injection EQ as <-.
    rewrite Hev, Hz, app_nil_r; [done|]. apply (Hidle' q Q0 EQ0).
  - intros a c Hc. destruct (wf_ctx _ _ _ _ _ _ Hw _ _ Hc) as (R1 & R2 & _ & R4). unfold table_ref, reserved in *.
    destruct (decide (sc_REMOTE s = Some a)) as [HR|HR].
    + rewrite HR in R1. assert (refs a [TRef a] = 1) as E1 by (cbn; by rewrite bool_decide_true). rewrite E1 in R1. case_bool_decide; lia.
    + assert (refs a (match sc_REMOTE s with Some a => [TRef a] | None => [] end) = 0) as E0.
      { destruct (sc_REMOTE s) as [b|]; [|done]. cbn. rewrite bool_decide_false by congruence. done. }
      rewrite E0 in R1. case_bool_decide as Hm; [|lia]. split; [lia|]. split.
      * destruct (c_init c) eqn:Ei; [done|]. destruct (R4 eq_refl) as [Hs%starting_owned|]; [|done].
        exfalso. unfold reserved in Eown. rewrite Eown in Hs. by apply not_elem_of_nil in Hs.
      * destruct (ht_find _ _ _ (c_handle c) Hrep) as (r & E & Er). rewrite Hm in Er. destruct r as [[b hash]|]; [|done].
        injection Er as ->. by exists hash.
  - intros q Q HQ. eapply wf_live; [exact Hw|by rewrite erase_lookup, HQ|]. apply (Hidle' q Q HQ).
  - rewrite Ht. unfold counted, reserved. by destruct (sc_REMOTE s).
Qed.

Lemma idle_means_done_witness : taken 20 (sc_log (snd drained)) = pushed 20 (sc_log (snd drained)).
Proof.
  destruct (idle_means_done 1 [-1; 0] (fst drained) (snd drained) (n_mq (sc_node (snd drained)))) as [H _].
  - apply (reach (demo_schedule ++ runs_of 0 20 ++ runs_of 1 20)). vm_compute. reflexivity.
  - assert (fst drained = [Dispatch (-1) None; Dispatch 0 None]) as -> by (vm_compute; reflexivity). repeat constructor.
  - vm_compute. reflexivity.
  - exact (H 20%nat).
Defined.

(** C5. A worker's turn: a worker of weight [w] that takes a queue of [n]
    messages returns after at most [3k + 6] atomic sections, having handled
    exactly the [k] oldest: one when [w] is negative, otherwise [n - 1]
    shifted right by [w], and at least one. The queue goes to the end of the
    global list and the worker leaves with the first queue of it, so between
    two turns of a service every other one that waits has a turn; the
    context keeps its reference count. *)
Theorem dispatch_turn (w : Z) (q a : nat) (c : skynet_context) (cb hash : Z) (Q : message_queue)
  (l : list skynet_message) (gl : list nat) (s : sched)
  (Hg : gq_rep (n_mq (sc_node s)) gl) (Hq : q ∉ gl)
  (HQ : h_queues (n_mq (sc_node s)) !! q = Some Q) (Hl : mq_rep Q l) (Hne : l <> [])
  (Hfind : find_ctx (q_handle Q) (sc_node s) (sc_H s) = Ok (Some (a, hash)))
  (Hc : n_ctx (sc_node s) !! a = Some c) (Hcq : c_queue c = q) (Hci : c_init c = true) (Hcb : c_cb c = Some cb)
  (Hcr : 0 < c_ref c) :
  let k := Z.to_nat (turn_length w (zlen l)) in
  (1 <= k <= length l)%nat /\
  exists s', run_turn (3 * k + 6) (HaveQueue w q) s = Ok (Dispatch w (Some (hd q gl)), s') /\
    sc_log s' = sc_log s ++ (EvPop q <$> take k l) /\
    gq_rep (n_mq (sc_node s')) (match gl with [] => [] | _ :: gl => gl ++ [q] end) /\
    n_ctx (sc_node s') = n_ctx (sc_node s) /\
    exists Q', h_queues (n_mq (sc_node s')) !! q = Some Q' /\ mq_rep Q' (drop k l).
Proof.
  intros k. destruct l as [|m l]; [done|]. clear Hne.
  assert (1 <= turn_length w (zlen (m :: l)) <= zlen (m :: l)) as Hk by (apply turn_length_range; unfold zlen; cbn; lia).
  split; [unfold zlen in *; lia|].
  set (s0 := with_node (put_ctx a (set_ref (c_ref c + 1) c) (sc_node s)) s).
  set (c0 := set_ref (c_ref c + 1) c).
  assert (n_ctx (sc_node s0) !! a = Some c0) as Hc0 by (cbn; by rewrite lookup_insert_eq).
  assert (turn_state s0 q gl (m :: l) (sc_log s) s0) as Hs0 by (constructor; try done; by exists Q).
  destruct (turn_pop _ _ _ _ _ _ _ Hs0) as (h & E1 & Hs1). fold s0 in E1.
  set (k' := (k - 1)%nat). set (n := if 0 <=? w then Z.shiftr (zlen l) w else 1).
  destruct (turn_message (S (3 * k' + 4)) s0 w q a c0 cb 0 1 m gl l _ _ Hs1 Hc0 Hci Hcb) as (s2 & Hs2 & E2).
  cbn [Z.eqb andb] in E2. fold n in E2. change (0 + 1) with 1 in E2.
  assert (k' <= length l)%nat as Hk' by (unfold zlen in *; cbn in *; lia).
  assert (n - 1 <= Z.of_nat k' /\ (0 <= n - 1 -> n - 1 = Z.of_nat k') /\ (n - 1 < 0 -> k' = 0%nat)) as (Hn1 & Hn2 & Hn3).
  { subst n k' k. unfold turn_length in *. replace (zlen (m :: l) - 1) with (zlen l) in * by (unfold zlen; cbn; lia).
    destruct (Z.ltb_spec w 0); destruct (Z.leb_spec 0 w); lia. }
  destruct (turn_loop k' 4 s0 w q a c0 cb 1 n gl l _ s2 Hs2 Hc0 Hci Hcb) as (s3 & Hs3 & E3); [lia..|done|].
  destruct (turn_end _ w _ a c0 _ _ _ _ Hs3 Hc0 Hcq) as (s' & E4 & Hlog & Hg' & Hctx & HQ'); [cbn; lia|].
  exists s'. replace k with (S k') in * by lia. split; [|split; [|split; [done|split; [|done]]]].
  - replace (3 * S k' + 6)%nat with (S (S (S (S (S (3 * k' + 4)))))) by lia.
    rewrite (run_turn_step _ _ _ _ _ (turn_start w q a hash Q c s HQ Hfind Hc)) by done. fold s0.
    rewrite (run_turn_step _ _ _ _ _ (loop_pop w q a 0 1 m h s0 ltac:(lia) E1)) by done.
    by rewrite E2, E3, E4.
  - rewrite Hlog. cbn. by rewrite <- app_assoc.
  - rewrite Hctx. cbn. rewrite insert_insert_eq. apply insert_id. rewrite Hc. f_equal.
    destruct c; cbn. unfold set_ref; cbn. f_equal. lia.
Qed.

(** The worker of weight -1 has just taken the queue of the first service, which holds two messages. *)
Definition turn_schedule : list choice :=
  launch 10 20 ++ launch 11 21 ++
  send 16777217 (sample_message 1) ++ send 16777218 (sample_message 2) ++ send 16777217 (sample_message 3) ++ runs_of 0 1.
Definition turn_config : config := default demo_start (exec turn_schedule demo_start).

Lemma dispatch_turn_witness :
  exists Q l gl s', h_queues (n_mq (sc_node (snd turn_config))) !! 20%nat = Some Q /\ mq_rep Q l /\ l = [sample_message 1; sample_message 3] /\
    run_turn 9 (HaveQueue (-1) 20) (snd turn_config) = Ok (Dispatch (-1) (Some (hd 20%nat gl)), s') /\
    sc_log s' = sc_log (snd turn_config) ++ [EvPop 20 (sample_message 1)].
Proof.
  assert (inv storage_rep (snd turn_config) (reserved (snd turn_config) ++ all_tokens (fst turn_config))) as [(gl & m & Hg & _ & Hw) _].
  { apply good_settled.
    - apply reachable_good with 1 [-1; 0]. apply (reach turn_schedule). vm_compute. reflexivity.
    - assert (fst turn_config = [HaveQueue (-1) 20; Dispatch 0 None]) as -> by (vm_compute; reflexivity). by repeat constructor. }
  assert (exists Q, h_queues (n_mq (sc_node (snd turn_config))) !! 20%nat = Some Q /\ q_handle Q = 16777217) as (Q & HQ & Hh).
  { eexists. split; vm_compute; reflexivity. }
  assert (exists c, n_ctx (sc_node (snd turn_config)) !! 10%nat = Some c /\ c_queue c = 20%nat /\ c_init c = true /\ c_cb c = Some 1 /\ c_ref c = 1)
    as (c & Hc & Hcq & Hci & Hcb & Hcr).
  { eexists. split; [vm_compute; reflexivity|]. repeat split. }
  destruct (wf_queue _ _ _ _ _ _ Hw 20%nat (set_next None Q)) as (_ & _ & l & Hl & Hev & _); [by rewrite erase_lookup, HQ|].
  apply mq_rep_set_next in Hl.
  assert (l = [sample_message 1; sample_message 3]) as -> by (vm_compute in Hev; symmetry; exact Hev).
  assert (20%nat ∉ gl) as Hgl.
  { pose proof (wf_nodup _ _ _ _ _ _ Hw) as Hnd. apply NoDup_app in Hnd as (_ & Hnd & _). intros Hin. apply (Hnd _ Hin).
    vm_compute. apply list_elem_of_here. }
  destruct (dispatch_turn (-1) 20 10 c 1 1 Q _ gl (snd turn_config) Hg Hgl HQ Hl) as (_ & s' & E & Elog & _).
  - discriminate.
  - rewrite Hh. vm_compute. reflexivity.
  - exact Hc.
  - exact Hcq.
  - exact Hci.
  - exact Hcb.
  - rewrite Hcr. reflexivity.
  - exists Q, [sample_message 1; sample_message 3], gl, s'. split; [exact HQ|]. split; [exact Hl|]. split; [reflexivity|].
    split; [exact E|exact Elog].
Defined.

(** A service can be killed while it starts: [skynet_context_new] drops
    its reference before it writes [ctx->init]. When another thread retires
    the new handle in between (the init function has already made it known),
    the context is freed by that thread and [ctx->init = true] writes to freed
    memory. So is the read of the report, when the service is killed later. *)
Theorem launch_uses_freed_context :
  let new := ChCall (New 10 20) :: runs_of 0 5 in
  let kill := [ChCall (Retire 16777217); ChRun 0 true; ChRun 0 true] in
  (exists s, exec (new ++ kill) demo_start = Some ([Started 10 20; Dispatch (-1) None; Dispatch 0 None], s) /\
     run_frame true (Started 10 20) s = Fault) /\
  (exists s, exec (new ++ runs_of 0 2 ++ kill) demo_start = Some ([Report 10; Dispatch (-1) None; Dispatch 0 None], s) /\
     run_frame true (Report 10) s = Fault).
Proof. split; eexists; (split; [vm_compute; reflexivity|vm_compute; reflexivity]). Qed.
