(* ===== verification/Socket.v ===== *)
(** * The socket server (skynet-src/socket_server.c)

    The slots of the socket thread, the control pipe the other threads write
    commands to, the poll set, the write buffers of the sockets and the event
    loop. A list of write buffers ([struct wb_list]) is the list of its nodes,
    head first. The results of system calls are arguments of the functions
    that make them; what the kernel keeps is the record [os]. Name lookup and
    formatted addresses are part of these results. *)
From S2P Require Import Prelude.

(** ** Data *)

Definition MAX_SOCKET_P : Z := 16.
Definition MIN_READ_BUFFER : Z := 64.
Definition SOCKET_TYPE_INVALID : Z := 0.
Definition SOCKET_TYPE_RESERVE : Z := 1.
Definition SOCKET_TYPE_PLISTEN : Z := 2.
Definition SOCKET_TYPE_LISTEN : Z := 3.
Definition SOCKET_TYPE_CONNECTING : Z := 4.
Definition SOCKET_TYPE_CONNECTED : Z := 5.
Definition SOCKET_TYPE_HALFCLOSE : Z := 6.
Definition SOCKET_TYPE_PACCEPT : Z := 7.
Definition SOCKET_TYPE_BIND : Z := 8.
Definition MAX_SOCKET : Z := Z.shiftl 1 MAX_SOCKET_P.
Definition PROTOCOL_TCP : Z := 0.
Definition PROTOCOL_UDP : Z := 1.
Definition PROTOCOL_UDPv6 : Z := 2.
Definition UDP_ADDRESS_SIZE : Z := 19.

Definition SOCKET_DATA : Z := 0.
Definition SOCKET_CLOSE : Z := 1.
Definition SOCKET_OPEN : Z := 2.
Definition SOCKET_ACCEPT : Z := 3.
Definition SOCKET_ERROR : Z := 4.
Definition SOCKET_EXIT : Z := 5.
Definition SOCKET_UDP : Z := 6.

Definition HASH_ID (id : Z) : Z := u32 id mod MAX_SOCKET.

(** [wb_buffer] is the block to free, [wb_ptr] the address of the next byte to
    send and [wb_data] the [sz] bytes from there. *)
Record write_buffer : Set := WriteBuffer {
  wb_buffer : Z;
  wb_ptr : Z;
  wb_data : list Z;
  wb_userobject : bool;
  wb_udp_address : list Z
}.

(** The union [p] is two fields. *)
Record socket : Set := Socket {
  s_opaque : Z;
  s_high : list write_buffer;
  s_low : list write_buffer;
  s_wb_size : Z;
  s_fd : Z;
  s_id : Z;
  s_protocol : Z;
  s_type : Z;
  s_size : Z;
  s_udp_address : list Z
}.

(** The kernel and the allocator: the descriptors the server has to close, the
    poll set with the write flag of each descriptor, the bytes taken from each
    stream, the datagrams sent, and the blocks given back. *)
Record os : Set := Os {
  os_open : gset Z;
  os_poll : gmap Z bool;
  os_wire : gmap Z (list Z);
  os_dgram : list (Z * list Z * list Z);
  os_freed : list Z
}.

(** [sz < 0] stands for a user object. [rs_data] is the memory at [rs_buffer]. *)
Record request_send : Set := RequestSend {
  rs_id : Z;
  rs_sz : Z;
  rs_buffer : Z;
  rs_data : list Z
}.

(** The commands of the control pipe, by their letter; a command that creates
    a socket carries what its thread got from the kernel. *)
Inductive command : Set :=
| CmdS (id opaque : Z)
| CmdB (id fd opaque : Z)
| CmdL (id fd opaque : Z)
| CmdK (id shutdown opaque : Z)
| CmdO (id port opaque : Z) (host : list Z)
| CmdX
| CmdD (r : request_send)
| CmdP (r : request_send)
| CmdA (r : request_send) (address : list Z)
| CmdT (id what value : Z)
| CmdU (id fd opaque : Z) (inet6 : bool)
| CmdC (id : Z) (address : list Z).

(** An event of [ss->ev]: the slot of its socket ([None] for the pipe). *)
Record event : Set := Event {
  e_s : option Z;
  e_read : bool;
  e_write : bool
}.

(** [soi] is [None] until [socket_server_userobject]; [ev] are the events from
    [event_index] on; a slot that is missing was never used. *)
Record socket_server : Set := SocketServer {
  ss_alloc_id : Z;
  ss_slot : gmap Z socket;
  ss_soi : option (Z -> Z * list Z);
  ss_os : os;
  ss_pipe : list command;
  ss_checkctrl : bool;
  ss_ev : list event
}.

Inductive sdata : Set :=
| NoData
| Text (msg : string)
| OsText (msg : list Z)
| Received (l : list Z).

Record socket_message : Set := SocketMessage {
  m_type : Z;
  m_id : Z;
  m_opaque : Z;
  m_ud : Z;
  m_data : sdata
}.

(** ** Results of system calls *)

(** [write] and [sendto]: at most [n] bytes, or [errno]. *)
Inductive wres : Set :=
| WSent (n : nat)
| WEintr
| WAgain
| WError.

(** [read] and [recvfrom]. *)
Inductive rres : Set :=
| RData (l : list Z)
| REintr
| RAgain
| RError (msg : list Z).

(** [getaddrinfo], [socket] and [connect] of [open_socket]; [peer] is the printed address. *)
Inductive ores : Set :=
| OFail (msg : list Z)
| OSock (fd : Z) (connected : bool) (peer : option (list Z)).

(** [accept]. *)
Inductive ares : Set :=
| ALimit (msg : list Z)
| AFail
| AFd (fd : Z) (peer : option (list Z)).

(** ** Access *)

Definition empty_socket : socket := Socket 0 [] [] 0 (-1) 0 0 SOCKET_TYPE_INVALID 0 [].

Definition set_type (t : Z) (s : socket) : socket :=
  Socket (s_opaque s) (s_high s) (s_low s) (s_wb_size s) (s_fd s) (s_id s) (s_protocol s) t (s_size s) (s_udp_address s).
Definition set_opaque (o : Z) (s : socket) : socket :=
  Socket o (s_high s) (s_low s) (s_wb_size s) (s_fd s) (s_id s) (s_protocol s) (s_type s) (s_size s) (s_udp_address s).
Definition set_lists (high low : list write_buffer) (wb_size : Z) (s : socket) : socket :=
  Socket (s_opaque s) high low wb_size (s_fd s) (s_id s) (s_protocol s) (s_type s) (s_size s) (s_udp_address s).
Definition set_size (n : Z) (s : socket) : socket :=
  Socket (s_opaque s) (s_high s) (s_low s) (s_wb_size s) (s_fd s) (s_id s) (s_protocol s) (s_type s) n (s_udp_address s).
Definition set_address (a : list Z) (s : socket) : socket :=
  Socket (s_opaque s) (s_high s) (s_low s) (s_wb_size s) (s_fd s) (s_id s) (s_protocol s) (s_type s) (s_size s) a.
Definition set_reserved (id : Z) (s : socket) : socket :=
  Socket (s_opaque s) (s_high s) (s_low s) (s_wb_size s) (-1) id (s_protocol s) SOCKET_TYPE_RESERVE (s_size s) (s_udp_address s).

Definition slot (i : Z) (ss : socket_server) : socket := default empty_socket (ss_slot ss !! i).

(** Store slot [i] and the kernel. *)
Definition put (i : Z) (s : socket) (o : os) (ss : socket_server) : socket_server :=
  SocketServer (ss_alloc_id ss) (<[i := s]> (ss_slot ss)) (ss_soi ss) o (ss_pipe ss) (ss_checkctrl ss) (ss_ev ss).
Definition set_alloc_id (id : Z) (ss : socket_server) : socket_server :=
  SocketServer id (ss_slot ss) (ss_soi ss) (ss_os ss) (ss_pipe ss) (ss_checkctrl ss) (ss_ev ss).
Definition set_os (o : os) (ss : socket_server) : socket_server :=
  SocketServer (ss_alloc_id ss) (ss_slot ss) (ss_soi ss) o (ss_pipe ss) (ss_checkctrl ss) (ss_ev ss).
Definition set_pipe (p : list command) (ss : socket_server) : socket_server :=
  SocketServer (ss_alloc_id ss) (ss_slot ss) (ss_soi ss) (ss_os ss) p (ss_checkctrl ss) (ss_ev ss).
Definition set_events (check : bool) (ev : list event) (ss : socket_server) : socket_server :=
  SocketServer (ss_alloc_id ss) (ss_slot ss) (ss_soi ss) (ss_os ss) (ss_pipe ss) check ev.

Definition os_free (l : list Z) (o : os) : os := Os (os_open o) (os_poll o) (os_wire o) (os_dgram o) (os_freed o ++ l).
Definition os_put (fd : Z) (l : list Z) (o : os) : os :=
  Os (os_open o) (os_poll o) (<[fd := default [] (os_wire o !! fd) ++ l]> (os_wire o)) (os_dgram o) (os_freed o).
Definition os_sendto (fd : Z) (a l : list Z) (o : os) : os :=
  Os (os_open o) (os_poll o) (os_wire o) (os_dgram o ++ [(fd, a, l)]) (os_freed o).

(** [sp_add], which refuses a descriptor that is registered; [ok] is false when the kernel refuses. *)
Definition sp_add (ok : bool) (fd : Z) (o : os) : option os :=
  if ok && bool_decide (os_poll o !! fd = None)
  then Some (Os (os_open o) (<[fd := false]> (os_poll o)) (os_wire o) (os_dgram o) (os_freed o)) else None.

(** [sp_del] and [sp_write] of a descriptor that is registered. *)
Definition sp_del (fd : Z) (o : os) : result os :=
  _ ← deref (os_poll o !! fd);
  Ok (Os (os_open o) (delete fd (os_poll o)) (os_wire o) (os_dgram o) (os_freed o)).
Definition sp_write (fd : Z) (enable : bool) (o : os) : result os :=
  _ ← deref (os_poll o !! fd);
  Ok (Os (os_open o) (<[fd := enable]> (os_poll o)) (os_wire o) (os_dgram o) (os_freed o)).

(** [close] of a descriptor that is open, and a new descriptor, which is not. *)
Definition os_close (fd : Z) (o : os) : result os :=
  _ ← assert_ (bool_decide (fd ∈ os_open o));
  Ok (Os (os_open o ∖ {[fd]}) (os_poll o) (os_wire o) (os_dgram o) (os_freed o)).
Definition os_new (fd : Z) (o : os) : os :=
  Os ({[fd]} ∪ os_open o) (os_poll o) (<[fd := []]> (os_wire o)) (os_dgram o) (os_freed o).

(** ** Slots *)

(** One round of [reserve_id]; the identifier is incremented as an [int] that wraps. *)
Definition reserve_try (ss : socket_server) : option Z * socket_server :=
  let id := s32 (ss_alloc_id ss + 1) in
  let id := if id <? 0 then Z.land (u32 id) 0x7fffffff else id in
  let ss := set_alloc_id id ss in
  let s := slot (HASH_ID id) ss in
  if s_type s =? SOCKET_TYPE_INVALID then (Some id, put (HASH_ID id) (set_reserved id s) (ss_os ss) ss)
  else (None, ss).

Fixpoint reserve_loop (fuel : nat) (ss : socket_server) : Z * socket_server :=
  match fuel with
  | O => (-1, ss)
  | S fuel =>
      match reserve_try ss with
      | (Some id, ss) => (id, ss)
      | (None, ss) => reserve_loop fuel ss
      end
  end.

Definition reserve_id (ss : socket_server) : Z * socket_server := reserve_loop (Z.to_nat MAX_SOCKET) ss.

Definition closed_message (type : Z) (s : socket) : socket_message := SocketMessage type (s_id s) (s_opaque s) 0 NoData.

(** [result] is filled in with [closed_message]. *)
Definition force_close (s : socket) (o : os) : result (socket * os) :=
  if s_type s =? SOCKET_TYPE_INVALID then Ok (s, o)
  else
    _ ← assert_ (negb (s_type s =? SOCKET_TYPE_RESERVE));
    let o := os_free (wb_buffer <$> s_high s) o in
    let o := os_free (wb_buffer <$> s_low s) o in
    o ← (if negb (s_type s =? SOCKET_TYPE_PACCEPT) && negb (s_type s =? SOCKET_TYPE_PLISTEN)
         then sp_del (s_fd s) o else Ok o);
    o ← (if negb (s_type s =? SOCKET_TYPE_BIND) then os_close (s_fd s) o else Ok o);
    Ok (set_type SOCKET_TYPE_INVALID (set_lists [] [] (s_wb_size s) s), o).

(** [None] when the poll set is full; [ok] is the answer of [sp_add]. *)
Definition new_fd (id fd protocol opaque : Z) (add ok : bool) (ss : socket_server) : result (option socket * socket_server) :=
  let s := slot (HASH_ID id) ss in
  _ ← assert_ (s_type s =? SOCKET_TYPE_RESERVE);
  match (if add then sp_add ok fd (ss_os ss) else Some (ss_os ss)) with
  | None => Ok (None, put (HASH_ID id) (set_type SOCKET_TYPE_INVALID s) (ss_os ss) ss)
  | Some o =>
      _ ← assert_ (bool_decide (s_high s = []));
      _ ← assert_ (bool_decide (s_low s = []));
      let s := Socket opaque (s_high s) (s_low s) 0 fd id protocol (s_type s) MIN_READ_BUFFER (s_udp_address s) in
      Ok (Some s, put (HASH_ID id) s o ss)
  end.

(** ** Sending *)

(** The address, the bytes and whether the block is a user object. *)
Definition send_object_init (soi : option (Z -> Z * list Z)) (r : request_send) : result (Z * list Z * bool) :=
  if rs_sz r <? 0 then
    f ← deref soi; Ok (f (rs_buffer r), true)
  else
    _ ← assert_ (zlen (rs_data r) =? rs_sz r);
    Ok (rs_buffer r, rs_data r, false).

(** How a loop over a list ended: the list is empty, the kernel takes no more, the socket failed. *)
Inductive flush : Set := FlushDone | FlushBlocked | FlushError.

(** The loops of [send_list_tcp]: the rest of the list, the bytes written and
    the blocks freed. [ws] are the results of [write]; after the last one the
    call would block. *)
Fixpoint tcp_loop (ws : list wres) (l : list write_buffer) : flush * list write_buffer * list Z * list Z :=
  match l with
  | [] => (FlushDone, [], [], [])
  | b :: l' =>
      match ws with
      | [] | WAgain :: _ => (FlushBlocked, l, [], [])
      | WEintr :: ws => tcp_loop ws l
      | WError :: _ => (FlushError, l, [], [])
      | WSent n :: ws =>
          let sz := Nat.min n (length (wb_data b)) in
          if (sz =? length (wb_data b))%nat then
            let '(f, rest, sent, freed) := tcp_loop ws l' in
            (f, rest, wb_data b ++ sent, wb_buffer b :: freed)
          else
            (FlushBlocked,
             WriteBuffer (wb_buffer b) (wb_ptr b + Z.of_nat sz) (drop sz (wb_data b)) (wb_userobject b) (wb_udp_address b) :: l',
             take sz (wb_data b), [])
      end
  end.

(** The family, port and address for [sendto]; [None] when the family is not that of the socket. *)
Definition udp_socket_address (s : socket) (udp_address : list Z) : option (list Z) :=
  if negb (hd 0 udp_address =? s_protocol s) then None
  else if s_protocol s =? PROTOCOL_UDP then Some (take 6 (drop 1 udp_address))
  else if s_protocol s =? PROTOCOL_UDPv6 then Some (take 18 (drop 1 udp_address))
  else None.

(** The loop of [send_list_udp]: any error keeps the datagram. *)
Fixpoint udp_loop (ws : list wres) (s : socket) (l : list write_buffer) (o : os) : list write_buffer * os :=
  match l with
  | [] => ([], o)
  | b :: l' =>
      match ws with
      | WSent _ :: ws =>
          udp_loop ws s l'
            (os_free [wb_buffer b] (os_sendto (s_fd s) (default [] (udp_socket_address s (wb_udp_address b))) (wb_data b) o))
      | _ => (l, o)
      end
  end.

Definition bytes_of (l : list write_buffer) : list Z := concat (wb_data <$> l).

Definition get_list (high : bool) (s : socket) : list write_buffer := if high then s_high s else s_low s.
Definition set_list (high : bool) (l : list write_buffer) (wb_size : Z) (s : socket) : socket :=
  if high then set_lists l (s_low s) wb_size s else set_lists (s_high s) l wb_size s.

(** [true] for [SOCKET_CLOSE]. *)
Definition send_list_tcp (ws : list wres) (high : bool) (s : socket) (o : os) : result (bool * socket * os) :=
  let '(f, rest, sent, freed) := tcp_loop ws (get_list high s) in
  let s := set_list high rest (s_wb_size s - zlen sent) s in
  let o := os_free freed (os_put (s_fd s) sent o) in
  match f with
  | FlushError => '(s, o) ← force_close s o; Ok (true, s, o)
  | _ => Ok (false, s, o)
  end.

Definition send_list_udp (ws : list wres) (high : bool) (s : socket) (o : os) : result (bool * socket * os) :=
  let '(rest, o) := udp_loop ws s (get_list high s) o in
  Ok (false, set_list high rest (s_wb_size s - (zlen (bytes_of (get_list high s)) - zlen (bytes_of rest))) s, o).

Definition send_list (ws : list wres) (high : bool) (s : socket) (o : os) : result (bool * socket * os) :=
  if s_protocol s =? PROTOCOL_TCP then send_list_tcp ws high s o else send_list_udp ws high s o.

Definition list_uncomplete (l : list write_buffer) : bool :=
  match l with
  | [] => false
  | wb :: _ => negb (wb_ptr wb =? wb_buffer wb)
  end.

Definition raise_uncomplete (s : socket) : result socket :=
  match s_low s with
  | [] => Fault
  | tmp :: low =>
      _ ← assert_ (bool_decide (s_high s = []));
      Ok (set_lists [tmp] low (s_wb_size s) s)
  end.

(** The steps of the comment above [send_buffer]; [ws] and [ws'] are the
    results of the calls for the two lists. *)
Definition send_buffer (ws ws' : list wres) (s : socket) (o : os) : result (option Z * socket * os) :=
  _ ← assert_ (negb (list_uncomplete (s_low s)));
  '(closed, s, o) ← send_list ws true s o;
  if closed : bool then Ok (Some SOCKET_CLOSE, s, o)
  else
    match s_high s, s_low s with
    | [], _ :: _ =>
        '(closed, s, o) ← send_list ws' false s o;
        if closed : bool then Ok (Some SOCKET_CLOSE, s, o)
        else if list_uncomplete (s_low s) then s ← raise_uncomplete s; Ok (None, s, o)
        else Ok (None, s, o)
    | [], [] =>
        o ← sp_write (s_fd s) false o;
        if s_type s =? SOCKET_TYPE_HALFCLOSE
        then '(s, o) ← force_close s o; Ok (Some SOCKET_CLOSE, s, o)
        else Ok (None, s, o)
    | _, _ => Ok (None, s, o)
    end.

(** [append_sendbuffer_] and its callers: [n] bytes were sent already. *)
Definition append_sendbuffer (soi : option (Z -> Z * list Z)) (high : bool) (r : request_send) (n : nat) (address : list Z) (s : socket) :
    result socket :=
  '(p, data, user) ← send_object_init soi r;
  let b := WriteBuffer (rs_buffer r) (p + Z.of_nat n) (drop n data) user address in
  Ok (set_list high (get_list high s ++ [b]) (s_wb_size s + zlen (drop n data)) s).

Definition send_buffer_empty (s : socket) : bool := bool_decide (s_high s = []) && bool_decide (s_low s = []).

(** The call of [write] or [sendto] in [send_socket]: the number of bytes sent, [None] for a fatal error. *)
Definition direct_write (w : wres) (data : list Z) : option nat :=
  match w with
  | WSent n => Some (Nat.min n (length data))
  | WEintr | WAgain => Some 0%nat
  | WError => None
  end.

(** [sendto] returned the size of the datagram. *)
Definition sent_whole (w : wres) (data : list Z) : bool :=
  match w with WSent n => (length data <=? n)%nat | _ => false end.

Definition send_socket (w : wres) (r : request_send) (high : bool) (udp_address : option (list Z)) (ss : socket_server) :
    result (option socket_message * socket_server) :=
  let i := HASH_ID (rs_id r) in
  let s := slot i ss in
  let o := ss_os ss in
  '(_, data, _) ← send_object_init (ss_soi ss) r;
  if (s_type s =? SOCKET_TYPE_INVALID) || negb (s_id s =? rs_id r) || (s_type s =? SOCKET_TYPE_HALFCLOSE)
     || (s_type s =? SOCKET_TYPE_PACCEPT) || (s_type s =? SOCKET_TYPE_PLISTEN) || (s_type s =? SOCKET_TYPE_LISTEN)
  then Ok (None, set_os (os_free [rs_buffer r] o) ss)
  else if send_buffer_empty s && (s_type s =? SOCKET_TYPE_CONNECTED) then
    if s_protocol s =? PROTOCOL_TCP then
      match direct_write w data with
      | None =>
          '(s', o) ← force_close s o;
          Ok (Some (closed_message SOCKET_CLOSE s), put i s' (os_free [rs_buffer r] o) ss)
      | Some n =>
          let o := os_put (s_fd s) (take n data) o in
          if (n =? length data)%nat then Ok (None, set_os (os_free [rs_buffer r] o) ss)
          else
            s ← append_sendbuffer (ss_soi ss) true r n [] s;
            o ← sp_write (s_fd s) true o;
            Ok (None, put i s o ss)
      end
    else
      let address := default (s_udp_address s) udp_address in
      if sent_whole w data then
        let o := os_sendto (s_fd s) (default [] (udp_socket_address s address)) data o in
        Ok (None, set_os (os_free [rs_buffer r] o) ss)
      else
        s ← append_sendbuffer (ss_soi ss) high r 0 address s;
        o ← sp_write (s_fd s) true o;
        Ok (None, put i s o ss)
  else
    let address := if s_protocol s =? PROTOCOL_TCP then [] else default (s_udp_address s) udp_address in
    s ← append_sendbuffer (ss_soi ss) high r 0 address s;
    Ok (None, put i s o ss).

(** ** Commands *)

(** The answers of the kernel to one command: [sp_add] succeeds, [write] or
    [sendto], the two loops of [send_buffer], the connection, the text of [errno]. *)
Record answers : Set := Answers {
  an_add : bool;
  an_write : wres;
  an_high : list wres;
  an_low : list wres;
  an_open : ores;
  an_error : list Z
}.

Definition message (type id opaque : Z) (data : sdata) : socket_message := SocketMessage type id opaque 0 data.

(** [-1] is [None]. *)
Definition open_socket (an : answers) (id opaque : Z) (ss : socket_server) : result (option socket_message * socket_server) :=
  let i := HASH_ID id in
  let failed data ss := Ok (Some (message SOCKET_ERROR id opaque data), put i (set_type SOCKET_TYPE_INVALID (slot i ss)) (ss_os ss) ss) in
  match an_open an with
  | OFail msg => failed (OsText msg) ss
  | OSock fd connected peer =>
      let ss := set_os (os_new fd (ss_os ss)) ss in
      '(ns, ss) ← new_fd id fd PROTOCOL_TCP opaque true (an_add an) ss;
      match ns with
      | None =>
          o ← os_close fd (ss_os ss);
          failed (Text "reach skynet socket number limit") (set_os o ss)
      | Some ns =>
          if connected : bool then
            Ok (Some (message SOCKET_OPEN id opaque (match peer with Some p => OsText p | None => NoData end)),
                put i (set_type SOCKET_TYPE_CONNECTED ns) (ss_os ss) ss)
          else
            o ← sp_write fd true (ss_os ss);
            Ok (None, put i (set_type SOCKET_TYPE_CONNECTING ns) o ss)
      end
  end.

Definition listen_socket (id fd opaque : Z) (ss : socket_server) : result (option socket_message * socket_server) :=
  '(ns, ss) ← new_fd id fd PROTOCOL_TCP opaque false true ss;
  match ns with
  | None => Fault
  | Some s => Ok (None, put (HASH_ID id) (set_type SOCKET_TYPE_PLISTEN s) (ss_os ss) ss)
  end.

Definition close_socket (an : answers) (id shutdown opaque : Z) (ss : socket_server) : result (option socket_message * socket_server) :=
  let i := HASH_ID id in
  let s := slot i ss in
  if (s_type s =? SOCKET_TYPE_INVALID) || negb (s_id s =? id) then Ok (Some (message SOCKET_CLOSE id opaque NoData), ss)
  else
    '(type, s, o) ← (if negb (send_buffer_empty s) then send_buffer (an_high an) (an_low an) s (ss_os ss) else Ok (None, s, ss_os ss));
    match type with
    | Some type => Ok (Some (closed_message type s), put i s o ss)
    | None =>
        if negb (shutdown =? 0) || send_buffer_empty s then
          '(s, o) ← force_close s o;
          Ok (Some (message SOCKET_CLOSE id opaque NoData), put i s o ss)
        else Ok (None, put i (set_type SOCKET_TYPE_HALFCLOSE s) o ss)
    end.

Definition bind_socket (an : answers) (id fd opaque : Z) (ss : socket_server) : result (option socket_message * socket_server) :=
  '(ns, ss) ← new_fd id fd PROTOCOL_TCP opaque true (an_add an) ss;
  match ns with
  | None => Ok (Some (message SOCKET_ERROR id opaque (Text "reach skynet socket number limit")), ss)
  | Some s =>
      Ok (Some (message SOCKET_OPEN id opaque (Text "binding")), put (HASH_ID id) (set_type SOCKET_TYPE_BIND s) (ss_os ss) ss)
  end.

Definition start_socket (an : answers) (id opaque : Z) (ss : socket_server) : result (option socket_message * socket_server) :=
  let i := HASH_ID id in
  let s := slot i ss in
  if (s_type s =? SOCKET_TYPE_INVALID) || negb (s_id s =? id)
  then Ok (Some (message SOCKET_ERROR id opaque (Text "invalid socket")), ss)
  else if (s_type s =? SOCKET_TYPE_PACCEPT) || (s_type s =? SOCKET_TYPE_PLISTEN) then
    match sp_add (an_add an) (s_fd s) (ss_os ss) with
    | None =>
        '(s', o) ← force_close s (ss_os ss);
        Ok (Some (SocketMessage SOCKET_ERROR (s_id s) (s_opaque s) 0 (OsText (an_error an))), put i s' o ss)
    | Some o =>
        let s := set_type (if s_type s =? SOCKET_TYPE_PACCEPT then SOCKET_TYPE_CONNECTED else SOCKET_TYPE_LISTEN) s in
        Ok (Some (message SOCKET_OPEN id opaque (Text "start")), put i (set_opaque opaque s) o ss)
    end
  else if s_type s =? SOCKET_TYPE_CONNECTED
  then Ok (Some (message SOCKET_OPEN id opaque (Text "transfer")), put i (set_opaque opaque s) (ss_os ss) ss)
  else Ok (None, ss).

Definition add_udp_socket (an : answers) (id fd opaque : Z) (inet6 : bool) (ss : socket_server) : result (option socket_message * socket_server) :=
  let protocol := if inet6 then PROTOCOL_UDPv6 else PROTOCOL_UDP in
  '(ns, ss) ← new_fd id fd protocol opaque true (an_add an) ss;
  match ns with
  | None =>
      o ← os_close fd (ss_os ss);
      Ok (None, put (HASH_ID id) (set_type SOCKET_TYPE_INVALID (slot (HASH_ID id) ss)) o ss)
  | Some s =>
      Ok (None, put (HASH_ID id) (set_address (replicate (Z.to_nat UDP_ADDRESS_SIZE) 0) (set_type SOCKET_TYPE_CONNECTED s)) (ss_os ss) ss)
  end.

(** The [n] bytes [memcpy] copies over the old address. *)
Definition set_udp_address (id : Z) (address : list Z) (ss : socket_server) : result (option socket_message * socket_server) :=
  let i := HASH_ID id in
  let s := slot i ss in
  if (s_type s =? SOCKET_TYPE_INVALID) || negb (s_id s =? id) then Ok (None, ss)
  else
    type ← zget address 0;
    if negb (type =? s_protocol s) then Ok (Some (message SOCKET_ERROR (s_id s) (s_opaque s) (Text "protocol mismatch")), ss)
    else
      let n := if type =? PROTOCOL_UDP then 7 else 19 in
      a ← slice address 0 n;
      Ok (None, put i (set_address (a ++ drop (Z.to_nat n) (s_udp_address s)) s) (ss_os ss) ss).

(** The first command of the pipe; the pipe delivers whole commands in order. *)
Definition ctrl_cmd (an : answers) (ss : socket_server) : result (option socket_message * socket_server) :=
  match ss_pipe ss with
  | [] => Fault
  | cmd :: pipe =>
      let ss := set_pipe pipe ss in
      match cmd with
      | CmdS id opaque => start_socket an id opaque ss
      | CmdB id fd opaque => bind_socket an id fd opaque ss
      | CmdL id fd opaque => listen_socket id fd opaque ss
      | CmdK id shutdown opaque => close_socket an id shutdown opaque ss
      | CmdO id _ opaque _ => open_socket an id opaque ss
      | CmdX => Ok (Some (message SOCKET_EXIT 0 0 NoData), ss)
      | CmdD r => send_socket (an_write an) r true None ss
      | CmdP r => send_socket (an_write an) r false None ss
      | CmdA r address => send_socket (an_write an) r true (Some address) ss
      | CmdC id address => set_udp_address id address ss
      | CmdT _ _ _ => Ok (None, ss)
      | CmdU id fd opaque inet6 => add_udp_socket an id fd opaque inet6 ss
      end
  end.

(** ** Events *)

(** The size of the next read doubles after a full buffer and halves when less than half was used. *)
Definition next_size (size n : Z) : Z :=
  if n =? size then size * 2
  else if (MIN_READ_BUFFER <? size) && (n * 2 <? size) then size / 2 else size.

(** At most [s_size] bytes are read. *)
Definition forward_message_tcp (r : rres) (s : socket) (o : os) : result (option socket_message * socket * os) :=
  match r with
  | REintr | RAgain => Ok (None, s, o)
  | RError msg =>
      '(s', o) ← force_close s o;
      Ok (Some (SocketMessage SOCKET_ERROR (s_id s) (s_opaque s) 0 (OsText msg)), s', o)
  | RData l =>
      let l := take (Z.to_nat (s_size s)) l in
      let n := zlen l in
      if n =? 0 then '(s', o) ← force_close s o; Ok (Some (closed_message SOCKET_CLOSE s), s', o)
      else if s_type s =? SOCKET_TYPE_HALFCLOSE then Ok (None, s, o)
      else
        _ ← assert_ ((next_size (s_size s) n) <=? INT_MAX);
        Ok (Some (SocketMessage SOCKET_DATA (s_id s) (s_opaque s) n (Received l)), set_size (next_size (s_size s) n) s, o)
  end.

(** [from] is the address family the kernel reports and the port and address in it. *)
Definition forward_message_udp (r : rres) (from_v4 : bool) (from : list Z) (s : socket) (o : os) : result (option socket_message * socket * os) :=
  match r with
  | REintr | RAgain => Ok (None, s, o)
  | RError msg =>
      '(s', o) ← force_close s o;
      Ok (Some (SocketMessage SOCKET_ERROR (s_id s) (s_opaque s) 0 (OsText msg)), s', o)
  | RData l =>
      let protocol := if from_v4 then PROTOCOL_UDP else PROTOCOL_UDPv6 in
      if negb (s_protocol s =? protocol) then Ok (None, s, o)
      else
        let address := protocol :: take (if from_v4 then 6 else 18) from in
        Ok (Some (SocketMessage SOCKET_UDP (s_id s) (s_opaque s) (zlen l) (Received (l ++ address))), s, o)
  end.

(** [error] is what [SO_ERROR] reports, [peer] the printed peer address. *)
Definition report_connect (error : option (list Z)) (peer : option (list Z)) (s : socket) (o : os) : result (option socket_message * socket * os) :=
  match error with
  | Some msg =>
      '(s', o) ← force_close s o;
      Ok (Some (SocketMessage SOCKET_ERROR (s_id s) (s_opaque s) 0 (OsText msg)), s', o)
  | None =>
      let s := set_type SOCKET_TYPE_CONNECTED s in
      o ← (if send_buffer_empty s then sp_write (s_fd s) false o else Ok o);
      Ok (Some (message SOCKET_OPEN (s_id s) (s_opaque s) (match peer with Some p => OsText p | None => NoData end)), s, o)
  end.

(** [None]: 0, the event is dropped. *)
Definition report_accept (r : ares) (s : socket) (ss : socket_server) : result (option socket_message * socket_server) :=
  match r with
  | ALimit msg => Ok (Some (message SOCKET_ERROR (s_id s) (s_opaque s) (OsText msg)), ss)
  | AFail => Ok (None, ss)
  | AFd fd peer =>
      let ss := set_os (os_new fd (ss_os ss)) ss in
      let '(id, ss) := reserve_id ss in
      if id <? 0 then o ← os_close fd (ss_os ss); Ok (None, set_os o ss)
      else
        '(ns, ss) ← new_fd id fd PROTOCOL_TCP (s_opaque s) false true ss;
        match ns with
        | None => Fault
        | Some ns =>
            Ok (Some (SocketMessage SOCKET_ACCEPT (s_id s) (s_opaque s) id (match peer with Some p => OsText p | None => NoData end)),
                put (HASH_ID id) (set_type SOCKET_TYPE_PACCEPT ns) (ss_os ss) ss)
        end
  end.

(** The first remaining event of the socket a message closed is cleared. *)
Fixpoint clear_events (ss : socket_server) (id : Z) (ev : list event) : list event :=
  match ev with
  | [] => []
  | e :: ev =>
      match e_s e with
      | Some i =>
          if (s_type (slot i ss) =? SOCKET_TYPE_INVALID) && (s_id (slot i ss) =? id)
          then Event None (e_read e) (e_write e) :: ev
          else e :: clear_events ss id ev
      | None => e :: clear_events ss id ev
      end
  end.

Definition clear_closed_event (m : socket_message) (ss : socket_server) : socket_server :=
  if (m_type m =? SOCKET_CLOSE) || (m_type m =? SOCKET_ERROR)
  then set_events (ss_checkctrl ss) (clear_events ss (m_id m) (ss_ev ss)) ss else ss.

(** The answers of the kernel to one event. *)
Record event_answers : Set := EventAnswers {
  ea_error : option (list Z);
  ea_peer : option (list Z);
  ea_accept : ares;
  ea_read : rres;
  ea_from_v4 : bool;
  ea_from : list Z;
  ea_high : list wres;
  ea_low : list wres
}.

(** The [switch] of [socket_server_poll] on the event [e] of slot [i], with the
    events [ev] behind it. [Some] message: [socket_server_poll] returns. *)
Definition dispatch_event (ea : event_answers) (i : Z) (e : event) (ev : list event) (ss : socket_server) :
    result (option socket_message * socket_server) :=
  let s := slot i ss in
  let o := ss_os ss in
  if s_type s =? SOCKET_TYPE_CONNECTING then
    '(m, s, o) ← report_connect (ea_error ea) (ea_peer ea) s o; Ok (m, put i s o ss)
  else if s_type s =? SOCKET_TYPE_LISTEN then report_accept (ea_accept ea) s ss
  else if s_type s =? SOCKET_TYPE_INVALID then Ok (None, ss)
  else if e_read e then
    if s_protocol s =? PROTOCOL_TCP then
      '(m, s, o) ← forward_message_tcp (ea_read ea) s o;
      let ev := if e_write e && (match m with Some m => negb ((m_type m =? SOCKET_CLOSE) || (m_type m =? SOCKET_ERROR)) | None => true end)
                then Event (e_s e) false (e_write e) :: ev else ev in
      Ok (m, set_events (ss_checkctrl ss) ev (put i s o ss))
    else
      '(m, s, o) ← forward_message_udp (ea_read ea) (ea_from_v4 ea) (ea_from ea) s o;
      let ev := match m with
                | Some m' =>
                    if m_type m' =? SOCKET_UDP then e :: ev
                    else if e_write e && negb ((m_type m' =? SOCKET_CLOSE) || (m_type m' =? SOCKET_ERROR))
                         then Event (e_s e) false (e_write e) :: ev else ev
                | None => if e_write e then Event (e_s e) false (e_write e) :: ev else ev
                end in
      Ok (m, set_events (ss_checkctrl ss) ev (put i s o ss))
  else if e_write e then
    '(type, s, o) ← send_buffer (ea_high ea) (ea_low ea) s o;
    Ok (match type with Some type => Some (closed_message type s) | None => None end, put i s o ss)
  else Ok (None, ss).

(** One round of the loop of [socket_server_poll]: the answers to a command,
    what [sp_wait] returns, the answers to an event. [inr m]: the function
    returns, with the message [m] or -1; [inl]: the loop goes on. *)
Definition poll_round (an : answers) (wait : list event) (ea : event_answers) (ss : socket_server) :
    result ((unit + option socket_message) * socket_server) :=
  if ss_checkctrl ss && negb (bool_decide (ss_pipe ss = [])) then
    '(m, ss) ← ctrl_cmd an ss;
    match m with
    | Some m => Ok (inr (Some m), clear_closed_event m ss)
    | None => Ok (inl tt, ss)
    end
  else
    let ss := set_events false (ss_ev ss) ss in
    let ss := match ss_ev ss with [] => set_events true wait ss | _ => ss end in
    match ss_ev ss with
    | [] => Ok (inr None, ss)
    | e :: ev =>
        let ss := set_events (ss_checkctrl ss) ev ss in
        match e_s e with
        | None => Ok (inl tt, ss)
        | Some i =>
            '(m, ss) ← dispatch_event ea i e ev ss;
            Ok (match m with Some m => inr (Some m) | None => inl tt end, ss)
        end
    end.

(** ** Calls of other threads *)

(** [send_request] of a command. *)
Definition send_request (cmd : command) (ss : socket_server) : socket_server := set_pipe (ss_pipe ss ++ [cmd]) ss.

(** [len + sizeof(req->u.open) >= 256] refuses the address. *)
Definition SIZEOF_REQUEST_OPEN : Z := 24.

Definition socket_server_connect (opaque : Z) (addr : list Z) (port : Z) (ss : socket_server) : Z * socket_server :=
  if 256 <=? zlen addr + SIZEOF_REQUEST_OPEN then (-1, ss)
  else
    let '(id, ss) := reserve_id ss in
    if id <? 0 then (-1, ss) else (id, send_request (CmdO id port opaque addr) ss).

(** The block is freed when the identifier names no socket. *)
Definition socket_server_send (high : bool) (r : request_send) (ss : socket_server) : Z * socket_server :=
  let s := slot (HASH_ID (rs_id r)) ss in
  if negb (s_id s =? rs_id r) || (s_type s =? SOCKET_TYPE_INVALID)
  then (-1, set_os (os_free [rs_buffer r] (ss_os ss)) ss)
  else (s_wb_size s, send_request (if high then CmdD r else CmdP r) ss).

Definition socket_server_udp_send (r : request_send) (address : list Z) (ss : socket_server) : result (Z * socket_server) :=
  let s := slot (HASH_ID (rs_id r)) ss in
  if negb (s_id s =? rs_id r) || (s_type s =? SOCKET_TYPE_INVALID)
  then Ok (-1, set_os (os_free [rs_buffer r] (ss_os ss)) ss)
  else
    type ← zget address 0;
    if (type =? PROTOCOL_UDP) || (type =? PROTOCOL_UDPv6) then
      a ← slice address 0 (if type =? PROTOCOL_UDP then 7 else 19);
      Ok (s_wb_size s, send_request (CmdA r a) ss)
    else Ok (-1, set_os (os_free [rs_buffer r] (ss_os ss)) ss).

Definition socket_server_close (opaque id : Z) (ss : socket_server) : socket_server := send_request (CmdK id 0 opaque) ss.
Definition socket_server_shutdown (opaque id : Z) (ss : socket_server) : socket_server := send_request (CmdK id 1 opaque) ss.
Definition socket_server_start (opaque id : Z) (ss : socket_server) : socket_server := send_request (CmdS id opaque) ss.
Definition socket_server_exit (ss : socket_server) : socket_server := send_request CmdX ss.
Definition socket_server_nodelay (id : Z) (ss : socket_server) : socket_server := send_request (CmdT id 1 1) ss.
Definition socket_server_udp_connect (id : Z) (address : list Z) (ss : socket_server) : socket_server :=
  send_request (CmdC id address) ss.

(** [fd] is the result of [do_listen]. *)
Definition socket_server_listen (opaque : Z) (fd : option Z) (ss : socket_server) : result (Z * socket_server) :=
  match fd with
  | None => Ok (-1, ss)
  | Some fd =>
      let ss := set_os (os_new fd (ss_os ss)) ss in
      let '(id, ss) := reserve_id ss in
      if id <? 0 then o ← os_close fd (ss_os ss); Ok (id, set_os o ss)
      else Ok (id, send_request (CmdL id fd opaque) ss)
  end.

(** [fd] belongs to the caller. *)
Definition socket_server_bind (opaque fd : Z) (ss : socket_server) : Z * socket_server :=
  let '(id, ss) := reserve_id ss in
  if id <? 0 then (-1, ss) else (id, send_request (CmdB id fd opaque) ss).

(** [fd] is the result of [do_bind] or [socket]. *)
Definition socket_server_udp (opaque : Z) (fd : option Z) (inet6 : bool) (ss : socket_server) : result (Z * socket_server) :=
  match fd with
  | None => Ok (-1, ss)
  | Some fd =>
      let ss := set_os (os_new fd (ss_os ss)) ss in
      let '(id, ss) := reserve_id ss in
      if id <? 0 then o ← os_close fd (ss_os ss); Ok (-1, set_os o ss)
      else Ok (id, send_request (CmdU id fd opaque inet6) ss)
  end.

Definition socket_server_create (soi : option (Z -> Z * list Z)) : socket_server :=
  SocketServer 0 ∅ soi (Os ∅ ∅ ∅ [] []) [] true [].

Definition socket_server_userobject (soi : Z -> Z * list Z) (ss : socket_server) : socket_server :=
  SocketServer (ss_alloc_id ss) (ss_slot ss) (Some soi) (ss_os ss) (ss_pipe ss) (ss_checkctrl ss) (ss_ev ss).

(** The loop of [socket_server_release] over the slots [i], [i + 1], ...; what
    follows closes the pipe and frees the server. *)
Fixpoint release_loop (n : nat) (i : Z) (ss : socket_server) : result socket_server :=
  match n with
  | O => Ok ss
  | S n =>
      let s := slot i ss in
      ss ← (if negb (s_type s =? SOCKET_TYPE_RESERVE) then '(s, o) ← force_close s (ss_os ss); Ok (put i s o ss) else Ok ss);
      release_loop n (i + 1) ss
  end.

Definition socket_server_release (ss : socket_server) : result socket_server := release_loop (Z.to_nat MAX_SOCKET) 0 ss.

(** ** Histories *)

(** What happens to a server: a round of its loop, or a call of another thread. *)
Inductive input : Type :=
| InRound (an : answers) (wait : list event) (ea : event_answers)
| InConnect (opaque : Z) (addr : list Z) (port : Z)
| InSend (high : bool) (r : request_send)
| InUdpSend (r : request_send) (address : list Z)
| InClose (opaque id : Z)
| InShutdown (opaque id : Z)
| InStart (opaque id : Z)
| InExit
| InNodelay (id : Z)
| InUdpConnect (id : Z) (address : list Z)
| InListen (opaque : Z) (fd : option Z)
| InBind (opaque fd : Z)
| InUdp (opaque : Z) (fd : option Z) (inet6 : bool).

(** [Some] message: what [socket_server_poll] returned. *)
Definition run_input (inp : input) (ss : socket_server) : result (option socket_message * socket_server) :=
  match inp with
  | InRound an wait ea =>
      '(r, ss) ← poll_round an wait ea ss;
      Ok (match r with inr m => m | inl _ => None end, ss)
  | InConnect opaque addr port => Ok (None, snd (socket_server_connect opaque addr port ss))
  | InSend high r => Ok (None, snd (socket_server_send high r ss))
  | InUdpSend r address => '(_, ss) ← socket_server_udp_send r address ss; Ok (None, ss)
  | InClose opaque id => Ok (None, socket_server_close opaque id ss)
  | InShutdown opaque id => Ok (None, socket_server_shutdown opaque id ss)
  | InStart opaque id => Ok (None, socket_server_start opaque id ss)
  | InExit => Ok (None, socket_server_exit ss)
  | InNodelay id => Ok (None, socket_server_nodelay id ss)
  | InUdpConnect id address => Ok (None, socket_server_udp_connect id address ss)
  | InListen opaque fd => '(_, ss) ← socket_server_listen opaque fd ss; Ok (None, ss)
  | InBind opaque fd => Ok (None, snd (socket_server_bind opaque fd ss))
  | InUdp opaque fd inet6 => '(_, ss) ← socket_server_udp opaque fd inet6 ss; Ok (None, ss)
  end.

Definition live (s : socket) : Prop := s_type s <> SOCKET_TYPE_INVALID /\ s_type s <> SOCKET_TYPE_RESERVE.
Definition polled (s : socket) : Prop := live s /\ s_type s <> SOCKET_TYPE_PACCEPT /\ s_type s <> SOCKET_TYPE_PLISTEN.
Definition owner (s : socket) : Prop := live s /\ s_type s <> SOCKET_TYPE_BIND.

(** The kernel returns a descriptor that is not in use. *)
Definition fresh_fd (fd : Z) (ss : socket_server) : Prop :=
  fd ∉ os_open (ss_os ss) /\ forall i, live (slot i ss) -> s_fd (slot i ss) <> fd.

(** A plain block of memory of [rs_sz] bytes, for a socket that was opened and
    is not a bound descriptor. *)
Definition plain_send (r : request_send) (ss : socket_server) : Prop :=
  let s := slot (HASH_ID (rs_id r)) ss in
  zlen (rs_data r) = rs_sz r /\ s_type s <> SOCKET_TYPE_BIND /\ (s_type s <> SOCKET_TYPE_RESERVE \/ s_id s <> rs_id r).

(** What a command may rely on when it is executed. *)
Definition command_ok (an : answers) (cmd : command) (ss : socket_server) : Prop :=
  match cmd with
  | CmdB _ fd _ => fresh_fd fd ss
  | CmdO _ _ _ _ => match an_open an with OSock fd _ _ => fresh_fd fd ss | OFail _ => True end
  | CmdD r | CmdP r | CmdA r _ => plain_send r ss
  | CmdC _ address => zlen address = if hd 0 address =? PROTOCOL_UDP then 7 else 19
  | CmdK id _ _ => s_type (slot (HASH_ID id) ss) <> SOCKET_TYPE_RESERVE \/ s_id (slot (HASH_ID id) ss) <> id
  | _ => True
  end.

(** What [sp_wait] returns: at most one event of each registered socket. *)
Definition events_ok (wait : list event) (ss : socket_server) : Prop :=
  NoDup (omap e_s wait) /\ forall i, i ∈ omap e_s wait -> polled (slot i ss).

(** What the kernel and the callers grant: fresh descriptors, events of
    registered sockets, plain buffers, no user descriptor the server already
    has, no use of an identifier that was not returned yet, read
    buffers below 2^30 bytes. *)
Definition input_ok (inp : input) (ss : socket_server) : Prop :=
  match inp with
  | InRound an wait ea =>
      match ss_pipe ss with
      | cmd :: _ => command_ok an cmd ss
      | [] => True
      end /\
      events_ok wait ss /\
      (forall fd peer, ea_accept ea = AFd fd peer -> fresh_fd fd ss) /\
      (forall i, s_size (slot i ss) < 2 ^ 30)
  | InListen _ (Some fd) | InUdp _ (Some fd) _ => fresh_fd fd ss
  | InUdpSend _ address => zlen address = if hd 0 address =? PROTOCOL_UDP then 7 else 19
  | _ => True
  end.

(** [run_inputs inps ss ss']: the inputs lead from [ss] to [ss'], each granted what it relies on. *)
Inductive run_inputs : list input -> socket_server -> socket_server -> Prop :=
| run_nil ss : run_inputs [] ss ss
| run_cons inp inps ss m ss1 ss2 : input_ok inp ss -> run_input inp ss = Ok (m, ss1) ->
    run_inputs inps ss1 ss2 -> run_inputs (inp :: inps) ss ss2.
