(* ===== verification/SocketInv.v ===== *)
(** * The socket server keeps its sockets in order

    The invariant of the slots, the descriptors, the poll set, the control
    pipe and the pending events, its preservation by every command, event and
    call, and what follows: no assertion fails, no descriptor leaks. *)
From S2P Require Import Prelude Socket.

(** ** The invariant *)

(** The identifiers and descriptors of the commands that create a socket. *)
Definition command_id (c : command) : option Z :=
  match c with CmdB id _ _ | CmdL id _ _ | CmdO id _ _ _ | CmdU id _ _ _ => Some id | _ => None end.
Definition command_fd (c : command) : option Z :=
  match c with CmdL _ fd _ | CmdU _ fd _ _ => Some fd | _ => None end.

Definition sized (s : socket) : Prop := s_wb_size s = zlen (bytes_of (s_high s)) + zlen (bytes_of (s_low s)).

(** The types of the sockets that may hold data to send. *)
Definition sender (s : socket) : bool :=
  (s_type s =? SOCKET_TYPE_CONNECTING) || (s_type s =? SOCKET_TYPE_CONNECTED) || (s_type s =? SOCKET_TYPE_HALFCLOSE).

(** One slot: [o] is the kernel. *)
Record slot_ok (o : os) (i : Z) (s : socket) : Prop := SlotOk {
  sk_type : 0 <= s_type s <= 8;
  sk_empty : sender s = false -> s_high s = [] /\ s_low s = [];
  sk_id : s_type s <> SOCKET_TYPE_INVALID -> HASH_ID (s_id s) = i /\ 0 <= s_id s <= INT_MAX;
  sk_size : live s -> sized s;
  sk_low : Forall (fun b => wb_ptr b = wb_buffer b) (s_low s);
  sk_open : live s -> (s_fd s ∈ os_open o <-> s_type s <> SOCKET_TYPE_BIND);
  sk_poll : live s -> (is_Some (os_poll o !! s_fd s) <-> polled s);
  sk_write : s_high s <> [] \/ s_low s <> [] -> os_poll o !! s_fd s = Some true
}.

(** [pipe] and [ev] are the commands and events to come, [sl] the slots. *)
Record sinv (pipe : list command) (ev : list event) (sl : Z -> socket) (o : os) : Prop := Sinv {
  g_slot : forall i, slot_ok o i (sl i);
  g_conn : forall i, s_type (sl i) = SOCKET_TYPE_CONNECTING -> os_poll o !! s_fd (sl i) = Some true;
  g_fd : forall i j, live (sl i) -> live (sl j) -> s_fd (sl i) = s_fd (sl j) -> i = j;
  g_open : forall fd, fd ∈ os_open o -> (exists i, owner (sl i) /\ s_fd (sl i) = fd) \/ fd ∈ omap command_fd pipe;
  g_poll : forall fd, is_Some (os_poll o !! fd) -> exists i, polled (sl i) /\ s_fd (sl i) = fd;
  g_pipefd : NoDup (omap command_fd pipe);
  g_given : forall fd, fd ∈ omap command_fd pipe -> fd ∈ os_open o /\ forall i, live (sl i) -> s_fd (sl i) <> fd;
  g_ids : NoDup (omap command_id pipe);
  g_id : forall id, id ∈ omap command_id pipe -> s_type (sl (HASH_ID id)) = SOCKET_TYPE_RESERVE /\ s_id (sl (HASH_ID id)) = id;
  g_reserve : forall i, s_type (sl i) = SOCKET_TYPE_RESERVE -> s_id (sl i) ∈ omap command_id pipe;
  g_ev : NoDup (omap e_s ev);
  g_event : forall i, i ∈ omap e_s ev -> polled (sl i)
}.

Definition server_inv (ss : socket_server) : Prop := sinv (ss_pipe ss) (ss_ev ss) (fun i => slot i ss) (ss_os ss).

Definition upd (i : Z) (s : socket) (sl : Z -> socket) (j : Z) : socket := if decide (j = i) then s else sl j.

(** [o'] differs from [o] at most in what it knows of [fd]. *)
Definition os_agree (fd : Z) (o o' : os) : Prop :=
  forall x, x <> fd -> (x ∈ os_open o' <-> x ∈ os_open o) /\ os_poll o' !! x = os_poll o !! x.

(** ** Frame lemmas *)

Lemma slot_upd_same i s sl : upd i s sl i = s.
Proof. unfold upd. by rewrite decide_True. Qed.

Lemma slot_upd_other i s sl j : j <> i -> upd i s sl j = sl j.
Proof. intros. unfold upd. by rewrite decide_False. Qed.

Lemma slot_put i s o ss j : slot j (put i s o ss) = upd i s (fun j => slot j ss) j.
Proof.
  unfold upd, slot, put. cbn. destruct (decide (j = i)) as [->|Hne]; [by rewrite lookup_insert_eq|by rewrite lookup_insert_ne].
Qed.

Lemma sinv_ext pipe ev sl sl' o : (forall i, sl' i = sl i) -> sinv pipe ev sl o -> sinv pipe ev sl' o.
Proof.
  intros E [H1 Hcn H2 H3 H4 H5 H6 H7 H8 H9 H10 H11]. constructor; try done.
  - intros i. by rewrite E.
  - intros i. rewrite E. apply Hcn.
  - intros i j. rewrite !E. apply H2.
  - intros fd Hfd. destruct (H3 fd Hfd) as [(i & Hi)|]; [left; exists i; by rewrite E|by right].
  - intros fd Hfd. destruct (H4 fd Hfd) as (i & Hi). exists i. by rewrite E.
  - intros fd Hfd. destruct (H6 fd Hfd) as [? Hl]. split; [done|]. intros i. rewrite E. apply Hl.
  - intros id Hid. rewrite E. by apply H8.
  - intros i. rewrite E. apply H9.
  - intros i Hi. rewrite E. by apply H11.
Qed.

(** A slot that does not know [fd] does not notice. *)
Lemma slot_ok_agree o o' fd i s : os_agree fd o o' -> (live s -> s_fd s <> fd) -> slot_ok o i s -> slot_ok o' i s.
Proof.
  intros Ho Hfd [H1 H2 H3 H4 H5 H6 H7 H8]. constructor; try done.
  - intros Hl. destruct (Ho _ (Hfd Hl)) as [-> _]. auto.
  - intros Hl. destruct (Ho _ (Hfd Hl)) as [_ ->]. auto.
  - intros Hne. assert (live s) as Hl.
    { destruct (sender s) eqn:Es; [|destruct (H2 eq_refl) as [E1 E2]; rewrite E1, E2 in Hne; by destruct Hne].
      unfold sender in Es. split; intros E; rewrite E in Es; done. }
    destruct (Ho _ (Hfd Hl)) as [_ ->]. auto.
Qed.

Lemma connecting_live s : s_type s = SOCKET_TYPE_CONNECTING -> live s.
Proof. intros E. by split; rewrite E. Qed.

(** A live slot, and what it knows of its descriptor, is changed or closed. *)
Lemma sinv_set pipe ev sl o i s' o' fd : sinv pipe ev sl o -> os_agree fd o o' ->
  s_type (sl i) <> SOCKET_TYPE_RESERVE -> s_type s' <> SOCKET_TYPE_RESERVE ->
  (forall j, j <> i -> live (sl j) -> s_fd (sl j) <> fd) -> fd ∉ omap command_fd pipe -> (live (sl i) -> s_fd (sl i) = fd) ->
  slot_ok o' i s' -> (s_type s' = SOCKET_TYPE_CONNECTING -> os_poll o' !! s_fd s' = Some true) ->
  (live s' -> s_fd s' = fd) -> (fd ∈ os_open o' -> owner s') -> (is_Some (os_poll o' !! fd) -> polled s') ->
  (i ∈ omap e_s ev -> polled s') -> sinv pipe ev (upd i s' sl) o'.
Proof.
  intros [H1 Hcn H2 H3 H4 H5 H6 H7 H8 H9 H10 H11] Ho Hr Hr' Hother Hpipe Hold Hok Hcn' Hfd Hopen Hpoll Hev. constructor; try done.
  - intros j. destruct (decide (j = i)) as [->|Hne]; [by rewrite slot_upd_same|]. rewrite slot_upd_other by done.
    eapply slot_ok_agree; [done|by apply Hother|done].
  - intros j. destruct (decide (j = i)) as [->|Hne]; [by rewrite slot_upd_same|]. rewrite slot_upd_other by done. intros Hj.
    destruct (Ho (s_fd (sl j))) as [_ ->]; [apply Hother; [done|by apply connecting_live]|auto].
  - intros j k. destruct (decide (j = i)) as [->|Hj], (decide (k = i)) as [->|Hk]; rewrite ?slot_upd_same, ?slot_upd_other by done; auto.
    + intros Hl Hl' E. rewrite (Hfd Hl) in E. by destruct (Hother k Hk Hl').
    + intros Hl Hl' E. rewrite (Hfd Hl') in E. by destruct (Hother j Hj Hl).
  - intros x Hx. destruct (decide (x = fd)) as [->|Hne].
    + left. exists i. rewrite slot_upd_same. split; [auto|]. apply Hfd, Hopen, Hx.
    + apply Ho in Hx; [|done]. destruct (H3 x Hx) as [(j & Hj & Ej)|]; [|by right]. left. exists j.
      rewrite slot_upd_other; [done|]. intros ->. apply Hne. rewrite <- Ej. apply Hold, Hj.
  - intros x Hx. destruct (decide (x = fd)) as [->|Hne].
    + exists i. rewrite slot_upd_same. split; [auto|]. apply Hfd, Hpoll, Hx.
    + destruct (Ho x Hne) as [_ E]. rewrite E in Hx. destruct (H4 x Hx) as (j & Hj & Ej). exists j.
      rewrite slot_upd_other; [done|]. intros ->. apply Hne. rewrite <- Ej. apply Hold, Hj.
  - intros x Hx. destruct (H6 x Hx) as [Hxo Hxl]. split.
    + apply Ho; [|done]. by intros ->.
    + intros j. destruct (decide (j = i)) as [->|Hne]; [rewrite slot_upd_same|rewrite slot_upd_other by done; auto].
      intros Hl. rewrite (Hfd Hl). by intros ->.
  - intros id Hid. destruct (H8 id Hid) as [Ht Hi]. rewrite slot_upd_other; [done|]. by intros <-.
  - intros j. destruct (decide (j = i)) as [->|Hne]; [by rewrite slot_upd_same|]. rewrite slot_upd_other by done. auto.
  - intros j Hj. destruct (decide (j = i)) as [->|Hne]; [rewrite slot_upd_same; auto|]. rewrite slot_upd_other by done. auto.
Qed.

(** Neither the slots nor the descriptors change. *)
Lemma sinv_os pipe ev sl o o' : sinv pipe ev sl o -> os_open o' = os_open o -> os_poll o' = os_poll o -> sinv pipe ev sl o'.
Proof.
  intros [H1 Hcn H2 H3 H4 H5 H6 H7 H8 H9 H10 H11] E1 E2. constructor; rewrite ?E1, ?E2; try done.
  intros i. destruct (H1 i) as [A1 A2 A3 A4 A5 A6 A7 A8]. constructor; rewrite ?E1, ?E2; done.
Qed.

Lemma sinv_events pipe ev ev' sl o : sinv pipe ev sl o -> NoDup (omap e_s ev') ->
  (forall i, i ∈ omap e_s ev' -> polled (sl i)) -> sinv pipe ev' sl o.
Proof. intros [H1 Hcn H2 H3 H4 H5 H6 H7 H8 H9 H10 H11] Hn Hp. by constructor. Qed.

(** A command that creates no socket enters or leaves the pipe. *)
Lemma sinv_pipe pipe pipe' ev sl o : sinv pipe ev sl o -> omap command_fd pipe' = omap command_fd pipe ->
  omap command_id pipe' = omap command_id pipe -> sinv pipe' ev sl o.
Proof. intros [H1 Hcn H2 H3 H4 H5 H6 H7 H8 H9 H10 H11] E1 E2. constructor; rewrite ?E1, ?E2; done. Qed.

(** ** Closing *)

Definition closed (s : socket) : Prop := s_type s = SOCKET_TYPE_INVALID /\ s_high s = [] /\ s_low s = [].

(** What closing needs of a socket: its descriptor is open and polled as its type says. *)
Record closable (o : os) (s : socket) : Prop := Closable {
  cl_live : live s;
  cl_open : s_fd s ∈ os_open o <-> s_type s <> SOCKET_TYPE_BIND;
  cl_poll : is_Some (os_poll o !! s_fd s) <-> polled s
}.

(** The socket [s] was closed to [s'] and nothing is left of its descriptor. *)
Record closed_from (o : os) (s : socket) (o' : os) (s' : socket) : Prop := ClosedFrom {
  cf_closed : closed s';
  cf_id : s_id s' = s_id s;
  cf_agree : os_agree (s_fd s) o o';
  cf_open : s_fd s ∉ os_open o';
  cf_poll : os_poll o' !! s_fd s = None
}.

Lemma slot_closable o i s : slot_ok o i s -> live s -> closable o s.
Proof. intros [] Hl. constructor; auto. Qed.

Lemma closed_slot_ok o i s : closed s -> slot_ok o i s.
Proof.
  intros (Ht & Hh & Hl). constructor; rewrite ?Ht, ?Hh, ?Hl; try done; try (intros [E _]; by rewrite Ht in E).
  intros [|]; done.
Qed.

Lemma force_close_ok s o : closable o s -> exists s' o', force_close s o = Ok (s', o') /\ closed_from o s o' s'.
Proof.
  intros [[H0 H1] Hopen Hpoll]. unfold force_close.
  destruct (Z.eqb_spec (s_type s) SOCKET_TYPE_INVALID) as [|_]; [done|].
  destruct (Z.eqb_spec (s_type s) SOCKET_TYPE_RESERVE) as [|_]; [done|]. cbn [negb assert_ mbind result_bind].
  assert (Hp : polled s <-> negb (s_type s =? SOCKET_TYPE_PACCEPT) && negb (s_type s =? SOCKET_TYPE_PLISTEN) = true).
  { rewrite andb_true_iff, !negb_true_iff, !Z.eqb_neq. unfold polled, live. naive_solver. }
  destruct (negb (s_type s =? SOCKET_TYPE_PACCEPT) && negb (s_type s =? SOCKET_TYPE_PLISTEN)) eqn:Ep.
  - destruct (proj2 Hpoll (proj2 Hp eq_refl)) as [b Hb]. unfold sp_del. cbn [os_poll os_free]. rewrite Hb. cbn [deref mbind result_bind].
    destruct (Z.eqb_spec (s_type s) SOCKET_TYPE_BIND) as [Eb|Eb]; cbn [negb].
    + cbn [mbind result_bind]. do 2 eexists. split; [done|]. constructor; cbn; try done.
      * intros x Hx. cbn. by rewrite lookup_delete_ne.
      * intros Hin. by apply Hopen in Hin.
      * by rewrite lookup_delete_eq.
    + unfold os_close. cbn. rewrite bool_decide_true by by apply Hopen. cbn. do 2 eexists. split; [done|].
      constructor; cbn; try done; [|set_solver|by rewrite lookup_delete_eq].
      intros x Hx. cbn. rewrite lookup_delete_ne by done. set_solver.
  - assert (os_poll o !! s_fd s = None) as Hn.
    { apply eq_None_not_Some. intros Hs. apply Hpoll in Hs. apply Hp in Hs. congruence. }
    cbn [mbind result_bind]. assert (s_type s <> SOCKET_TYPE_BIND) as Eb.
    { intros E. rewrite E in Ep. done. }
    destruct (Z.eqb_spec (s_type s) SOCKET_TYPE_BIND) as [|_]; [done|]. cbn [negb].
    unfold os_close. cbn. rewrite bool_decide_true by by apply Hopen. cbn. do 2 eexists. split; [done|].
    constructor; cbn; try done; [|set_solver]. intros x Hx. cbn. set_solver.
Qed.

(** A closed socket leaves its slot. *)
Lemma sinv_closed pipe ev sl o i s s' o' : sinv pipe ev sl o -> live (sl i) -> s_fd s = s_fd (sl i) ->
  closed_from o s o' s' -> i ∉ omap e_s ev -> sinv pipe ev (upd i s' sl) o'.
Proof.
  intros Hi Hl Hfd [[Hc Hc'] Hid Ho Hop Hpo] Hev. rewrite Hfd in *.
  eapply sinv_set; [exact Hi|exact Ho|..].
  - apply Hl.
  - by rewrite Hc.
  - intros j Hj Hlj E. apply Hj. by eapply g_fd.
  - intros Hin. destruct (g_given _ _ _ _ Hi _ Hin) as [_ Hn]. by apply (Hn i).
  - done.
  - by apply closed_slot_ok.
  - by rewrite Hc.
  - intros [E _]. by rewrite Hc in E.
  - done.
  - rewrite Hpo. by intros [? ?].
  - done.
Qed.

(** ** Sending *)

(** What a loop over a list of buffers does. *)
Lemma tcp_loop_spec ws : forall l f rest sent freed, tcp_loop ws l = (f, rest, sent, freed) ->
  bytes_of l = sent ++ bytes_of rest /\ wb_buffer <$> l = freed ++ (wb_buffer <$> rest) /\ (f = FlushDone -> rest = []) /\
  (Forall (fun b => wb_ptr b = wb_buffer b) l -> Forall (fun b => wb_ptr b = wb_buffer b) (tail rest)).
Proof.
  induction ws as [|w ws IH]; intros [|b l] f rest sent freed; cbn.
  - by intros [= <- <- <- <-].
  - intros [= <- <- <- <-]. split_and!; try done. by intros [_ ?]%Forall_cons.
  - by intros [= <- <- <- <-].
  - destruct w as [n| | |].
    + destruct (Nat.eqb_spec (Nat.min n (length (wb_data b))) (length (wb_data b))) as [E|E].
      * destruct (tcp_loop ws l) as [[[f' rest'] sent'] freed'] eqn:El. intros [= <- <- <- <-].
        destruct (IH _ _ _ _ _ El) as (H1 & H2 & H3 & H4). unfold bytes_of in *. cbn. rewrite H1, H2.
        split_and!; try done; [by rewrite app_assoc|]. intros [_ ?]%Forall_cons. auto.
      * intros [= <- <- <- <-]. unfold bytes_of. cbn. rewrite app_assoc, take_drop. split_and!; try done. by intros [_ ?]%Forall_cons.
    + apply IH.
    + intros [= <- <- <- <-]. split_and!; try done. by intros [_ ?]%Forall_cons.
    + intros [= <- <- <- <-]. split_and!; try done. by intros [_ ?]%Forall_cons.
Qed.

Lemma udp_loop_spec ws s : forall l o rest o', udp_loop ws s l o = (rest, o') ->
  (exists sent, l = sent ++ rest) /\ os_open o' = os_open o /\ os_poll o' = os_poll o.
Proof.
  induction ws as [|w ws IH]; intros [|b l] o rest o'; cbn; try (intros [= <- <-]; split; [by exists []|done]).
  destruct w; try (intros [= <- <-]; split; [by exists []|done]).
  intros H. destruct (IH _ _ _ _ H) as ([sent ->] & H2 & H3). split; [by exists (b :: sent)|done].
Qed.

Lemma zlen_bytes_app l k : zlen (bytes_of (l ++ k)) = zlen (bytes_of l) + zlen (bytes_of k).
Proof. unfold bytes_of. rewrite fmap_app, concat_app, zlen_app. done. Qed.

Lemma bytes_of_one b : bytes_of [b] = wb_data b.
Proof. unfold bytes_of. cbn. apply app_nil_r. Qed.

(** [send_list] sends from one list, or closes the socket. *)
Lemma send_list_ok ws high s o : closable o s -> sized s ->
  exists c s' o', send_list ws high s o = Ok (c, s', o') /\
  if c : bool then closed_from o s o' s'
  else exists rest, s' = set_list high rest (s_wb_size s') s /\ sized s' /\ os_open o' = os_open o /\ os_poll o' = os_poll o /\
    (Forall (fun b => wb_ptr b = wb_buffer b) (get_list high s) -> Forall (fun b => wb_ptr b = wb_buffer b) (tail rest)) /\
    (get_list high s = [] -> rest = []).
Proof.
  intros Hc Hs. unfold send_list. destruct (s_protocol s =? PROTOCOL_TCP).
  - unfold send_list_tcp. destruct (tcp_loop ws (get_list high s)) as [[[f rest] sent] freed] eqn:El.
    destruct (tcp_loop_spec _ _ _ _ _ _ El) as (H1 & H2 & H3 & H4).
    cbn zeta. set (s1 := set_list high rest (s_wb_size s - zlen sent) s).
    assert (sized s1) as Hs1.
    { subst s1. unfold sized in *. destruct high; cbn [get_list set_list set_lists s_wb_size s_high s_low] in *; rewrite H1, zlen_app in Hs; lia. }
    assert (get_list high s = [] -> rest = []) as Hnil.
    { intros E. rewrite E in El. destruct ws; cbn in El; by injection El as <- <- <- <-. }
    destruct f; try (do 3 eexists; split; [reflexivity|]; exists rest; split; [by destruct high|]; done).
    destruct (force_close_ok s1 (os_free freed (os_put (s_fd s1) sent o))) as (s' & o' & -> & Hcl).
    { destruct Hc. constructor; by destruct high. }
    cbn [mbind result_bind]. do 3 eexists. split; [done|]. destruct Hcl as [C1 C2 C3 C4 C5]. by constructor; destruct high.
  - unfold send_list_udp. destruct (udp_loop ws s (get_list high s) o) as [rest o'] eqn:El.
    destruct (udp_loop_spec _ _ _ _ _ _ El) as ([sent Hsent] & H2 & H3). do 3 eexists. split; [done|]. exists rest.
    split; [by destruct high|]. split.
    + unfold sized in *. destruct high; cbn [get_list set_list set_lists s_wb_size s_high s_low] in *; rewrite Hsent, zlen_bytes_app in *; lia.
    + split; [done|]. split; [done|]. split; [|intros E; rewrite E in Hsent; by destruct sent].
      rewrite Hsent. intros [_ H]%Forall_app. destruct rest; [done|]. by apply Forall_cons in H as [_ ?].
Qed.

(** [send_buffer] keeps the socket in order or closes it. *)
Lemma send_buffer_ok ws ws' i s o : slot_ok o i s -> polled s ->
  exists r s' o', send_buffer ws ws' s o = Ok (r, s', o') /\
  match r with
  | Some t => t = SOCKET_CLOSE /\ closed_from o s o' s'
  | None => slot_ok o' i s' /\ s_type s' = s_type s /\ s_fd s' = s_fd s /\ s_id s' = s_id s /\ os_agree (s_fd s) o o' /\
      os_open o' = os_open o /\ is_Some (os_poll o' !! s_fd s)
  end.
Proof.
  intros Hok Hp. pose proof (slot_closable _ _ _ Hok (proj1 Hp)) as Hc. destruct Hok as [H1 H2 H3 H4 H5 H6 H7 H8].
  unfold send_buffer. assert (list_uncomplete (s_low s) = false) as Hlow.
  { destruct (s_low s) as [|b l]; [done|]. apply Forall_cons in H5 as [E _]. cbn. by rewrite E, Z.eqb_refl. }
  rewrite Hlow. cbn [negb assert_ mbind result_bind].
  destruct (send_list_ok ws true s o Hc (H4 (proj1 Hp))) as (c & s1 & o1 & -> & Hs1). cbn [mbind result_bind].
  destruct c; [by do 3 eexists|]. destruct Hs1 as (high & Es1 & Hsz1 & Ho1 & Hp1 & _ & Hnil1). rewrite Es1 in Hsz1 |- *.
  set (n1 := s_wb_size s1) in *. clearbody n1. clear Es1 s1. cbn [set_list s_high s_low set_lists].
  assert (Hagree : os_agree (s_fd s) o o1) by (intros x Hx; by rewrite Ho1, Hp1).
  assert (Hkeep : forall high low n, (s_high s = [] -> high = []) -> (s_low s = [] -> low = []) -> sized (set_lists high low n s) ->
    Forall (fun b => wb_ptr b = wb_buffer b) low -> forall o2, os_open o2 = os_open o -> os_poll o2 = os_poll o ->
    slot_ok o2 i (set_lists high low n s)).
  { intros hi lo n Hh Hl Hsz HF o2 E1 E2. constructor; cbn; rewrite ?E1, ?E2; try done.
    - intros E. destruct (H2 E) as [A B]. auto.
    - intros Hne. apply H8. destruct Hne as [Hne|Hne]; [left|right]; intros E; apply Hne; auto. }
  assert (is_Some (os_poll o !! s_fd s)) as Hpo by apply (H7 (proj1 Hp)), Hp.
  destruct high as [|b high]; cycle 1.
  { do 3 eexists. split; [done|]. split; [apply Hkeep; try done; congruence|].
    split_and!; try done. by rewrite Hp1. }
  destruct (s_low s) as [|b low] eqn:El.
  - destruct Hpo as [w Hw]. unfold sp_write. cbn [s_fd s_type set_lists]. rewrite Hp1, Hw. cbn [deref mbind result_bind].
    set (o2 := Os _ _ _ _ _).
    assert (slot_ok o2 i (set_lists [] [] n1 s)) as Hok2.
    { constructor; cbn; try done.
      - intros _. unfold set_list in Hsz1. by rewrite El in Hsz1.
      - intros Hl. rewrite Ho1. auto.
      - intros Hl. rewrite lookup_insert_eq. split; [done|by intros _; eexists].
      - intros [?|?]; congruence. }
    assert (os_agree (s_fd s) o o2) as Hag2.
    { intros x Hx. cbn. rewrite Ho1, lookup_insert_ne by done. done. }
    destruct (Z.eqb_spec (s_type s) SOCKET_TYPE_HALFCLOSE) as [Et|Et].
    + destruct (force_close_ok (set_lists [] [] n1 s) o2) as (s' & o' & -> & [C1 C2 C3 C4 C5]); [by eapply slot_closable, Hp|].
      cbn [mbind result_bind]. do 3 eexists. split; [done|]. split; [done|]. constructor; try done. cbn in C3.
      intros x Hx. destruct (C3 x Hx), (Hag2 x Hx). split; [by etrans|congruence].
    + do 3 eexists. split; [done|]. split; [done|]. split_and!; try done. cbn. by rewrite lookup_insert_eq.
  - set (s2 := set_lists [] (b :: low) n1 s).
    unfold set_list in Hsz1. rewrite El in Hsz1. fold s2 in Hsz1.
    assert (closable o1 s2) as Hc2 by (destruct Hc; constructor; cbn; by rewrite ?Ho1, ?Hp1).
    destruct (send_list_ok ws' false s2 o1 Hc2 Hsz1) as (c & s3 & o3 & -> & Hs3). cbn [mbind result_bind]. destruct c.
    { do 3 eexists. split; [done|]. split; [done|]. destruct Hs3 as [C1 C2 C3 C4 C5]. constructor; try done. cbn in C3.
      intros x Hx. destruct (C3 x Hx), (Hagree x Hx). split; [by etrans|congruence]. }
    destruct Hs3 as (rest & Es3 & Hsz3 & Ho3 & Hp3 & HF & Hnil3). rewrite Es3 in Hsz3 |- *. set (n3 := s_wb_size s3) in *. clearbody n3.
    cbn [set_list s_low set_lists s2 s_high]. specialize (HF H5).
    assert (os_open o3 = os_open o /\ os_poll o3 = os_poll o) as [E3 E4] by (split; congruence).
    assert (os_agree (s_fd s) o o3) as Hag3 by (intros x Hx; by rewrite E3, E4).
    assert (s_high s <> [] \/ s_low s <> []) as Hne by (right; by rewrite El).
    destruct (list_uncomplete rest) eqn:Eu.
    + destruct rest as [|b' rest]; [done|]. unfold raise_uncomplete. cbn. do 3 eexists. split; [done|].
      split; [|split_and!; try done; by rewrite E4].
      constructor; cbn; rewrite ?E3, ?E4; try done.
      * intros E. by destruct (H2 E).
      * unfold sized in *. unfold bytes_of in *. cbn in *. intros _. rewrite app_nil_r. rewrite !zlen_app in *. change (zlen (@nil Z)) with 0 in *. lia.
      * intros _. apply H8. by right.
    + do 3 eexists. split; [done|]. split; [|split_and!; try done; by rewrite E4].
      apply Hkeep; try done.
      destruct rest as [|b' rest]; [done|]. constructor; [|done]. cbn in Eu. by apply negb_false_iff, Z.eqb_eq in Eu.
Qed.

(** ** Commands that create a socket *)

Definition os_agree_opt (F : option Z) (o o' : os) : Prop :=
  forall x, F <> Some x -> (x ∈ os_open o' <-> x ∈ os_open o) /\ os_poll o' !! x = os_poll o !! x.

Lemma hash_id_id pipe ev sl o id j : sinv pipe ev sl o -> id ∈ omap command_id pipe -> s_id (sl j) = id ->
  s_type (sl j) = SOCKET_TYPE_RESERVE -> j = HASH_ID id.
Proof.
  intros Hi Hid Hj Ht. destruct (sk_id _ _ _ (g_slot _ _ _ _ Hi j)) as [Hh _]; [by rewrite Ht|]. by rewrite <- Hj, Hh.
Qed.

(** The first command of the pipe turns its reserved slot into a socket with
    the descriptor of [F], or gives the slot back. *)
Lemma sinv_take cmd pipe ev sl o id s' o' F : sinv (cmd :: pipe) ev sl o -> command_id cmd = Some id ->
  os_agree_opt F o o' -> (command_fd cmd = None \/ command_fd cmd = F) ->
  (forall fd, F = Some fd -> (forall j, live (sl j) -> s_fd (sl j) <> fd) /\ fd ∉ omap command_fd pipe /\
     (fd ∈ os_open o' -> owner s') /\ (is_Some (os_poll o' !! fd) -> polled s')) ->
  s_type s' <> SOCKET_TYPE_RESERVE -> slot_ok o' (HASH_ID id) s' ->
  (s_type s' = SOCKET_TYPE_CONNECTING -> os_poll o' !! s_fd s' = Some true) -> (live s' -> F = Some (s_fd s')) ->
  sinv pipe ev (upd (HASH_ID id) s' sl) o'.
Proof.
  intros Hi Hcid Ho Hcmd HF Ht Hok Hcn' Hlive. pose proof Hi as [H1 Hcn H2 H3 H4 H5 H6 H7 H8 H9 H10 H11].
  set (i := HASH_ID id) in *. cbn in H3, H5, H6, H7, H8, H9. rewrite Hcid in H7, H8, H9.
  apply NoDup_cons in H7 as [Hnid H7].
  assert (Hres : s_type (sl i) = SOCKET_TYPE_RESERVE) by (apply H8, list_elem_of_here).
  assert (Hnl : ~ live (sl i)) by (intros [_ E]; by rewrite Hres in E).
  assert (Hsub : forall fd, fd ∈ omap command_fd pipe -> F <> Some fd /\
    fd ∈ os_open o /\ forall j, live (sl j) -> s_fd (sl j) <> fd).
  { intros fd Hfd. split; [intros E; by destruct (HF fd E) as (_ & Hn & _)|]. apply H6. destruct (command_fd cmd); [by apply list_elem_of_further|done]. }
  assert (Hne : forall j, live (sl j) -> F <> Some (s_fd (sl j))).
  { intros j Hj E. destruct (HF _ E) as [Hn _]. by apply (Hn j). }
  assert (Hji : forall j, live (sl j) -> j <> i) by (intros j Hj ->; done).
  constructor; try done.
  - intros j. destruct (decide (j = i)) as [->|Hj]; [by rewrite slot_upd_same|]. rewrite slot_upd_other by done.
    destruct F as [fd|].
    + apply (slot_ok_agree o o' fd); [|intros Hl E; by apply (Hne j Hl); f_equal|done].
      intros x Hx. apply Ho. congruence.
    + apply (slot_ok_agree o o' (s_fd (sl j) + 1)); [|lia|done]. intros x _. by apply Ho.
  - intros j. destruct (decide (j = i)) as [->|Hj]; [by rewrite slot_upd_same|]. rewrite slot_upd_other by done. intros Hjt.
    destruct (Ho (s_fd (sl j))) as [_ ->]; [by apply Hne, connecting_live|auto].
  - intros j k. destruct (decide (j = i)) as [->|Hj], (decide (k = i)) as [->|Hk]; rewrite ?slot_upd_same, ?slot_upd_other by done; auto.
    + intros Hl Hl' E. destruct (Hne k Hl'). rewrite <- E. by apply Hlive.
    + intros Hl Hl' E. destruct (Hne j Hl). rewrite E. by apply Hlive.
  - intros x Hx. destruct (decide (F = Some x)) as [EF|EF].
    + left. exists i. rewrite slot_upd_same. destruct (HF x EF) as (_ & _ & Hop & _). specialize (Hop Hx). split; [done|].
      specialize (Hlive (proj1 Hop)). congruence.
    + apply Ho in Hx; [|done]. destruct (H3 x Hx) as [(j & Hj & Ej)|Hp].
      * left. exists j. rewrite slot_upd_other; [done|]. apply Hji, Hj.
      * right. destruct (command_fd cmd) as [y|] eqn:Ey; [|done]. apply elem_of_cons in Hp as [->|]; [|done]. by destruct Hcmd.
  - intros x Hx. destruct (decide (F = Some x)) as [EF|EF].
    + exists i. rewrite slot_upd_same. destruct (HF x EF) as (_ & _ & _ & Hop). specialize (Hop Hx). split; [done|].
      specialize (Hlive (proj1 Hop)). congruence.
    + destruct (Ho x EF) as [_ E]. rewrite E in Hx. destruct (H4 x Hx) as (j & Hj & Ej). exists j.
      rewrite slot_upd_other; [done|]. apply Hji, Hj.
  - destruct (command_fd cmd); [by apply NoDup_cons in H5 as [_ ?]|done].
  - intros x Hx. destruct (Hsub x Hx) as (Hn & Hxo & Hxl). split; [by apply Ho|].
    intros j. destruct (decide (j = i)) as [->|Hj]; [rewrite slot_upd_same|rewrite slot_upd_other by done; auto].
    intros Hl E. apply Hn. rewrite <- E. by apply Hlive.
  - intros x Hx. destruct (H8 x) as [Hxt Hxi]; [by apply list_elem_of_further|]. rewrite slot_upd_other; [done|].
    intros E. apply Hnid. assert (id = x) as ->; [|done]. rewrite <- Hxi, E. symmetry. apply H8, list_elem_of_here.
  - intros j. destruct (decide (j = i)) as [->|Hj]; [by rewrite slot_upd_same|]. rewrite slot_upd_other by done. intros Hjt.
    specialize (H9 j Hjt). apply elem_of_cons in H9 as [E|]; [|done]. destruct Hj.
    apply (hash_id_id (cmd :: pipe) ev sl o id j Hi); [cbn; rewrite Hcid; apply list_elem_of_here|done|done].
  - intros j Hj. specialize (H11 j Hj). rewrite slot_upd_other; [done|]. apply Hji, H11.
Qed.

(** A slot is reserved and the command that will use it enters the pipe. *)
Lemma sinv_reserve cmd pipe ev sl o id o' F : sinv pipe ev sl o -> command_id cmd = Some id -> 0 <= id <= INT_MAX ->
  s_type (sl (HASH_ID id)) = SOCKET_TYPE_INVALID -> os_agree_opt F o o' -> command_fd cmd = F ->
  (forall fd, F = Some fd -> (forall j, live (sl j) -> s_fd (sl j) <> fd) /\ fd ∉ os_open o /\ fd ∈ os_open o' /\ os_poll o' !! fd = os_poll o !! fd) ->
  sinv (pipe ++ [cmd]) ev (upd (HASH_ID id) (set_reserved id (sl (HASH_ID id))) sl) o'.
Proof.
  intros Hi Hcid Hid Hinv Ho Hcmd HF. pose proof Hi as [H1 Hcn H2 H3 H4 H5 H6 H7 H8 H9 H10 H11]. set (i := HASH_ID id) in *.
  assert (Hnl : ~ live (sl i)) by (intros [E _]; by rewrite Hinv in E).
  assert (Hji : forall j, live (sl j) -> j <> i) by (intros j Hj ->; done).
  assert (Hnr : ~ live (set_reserved id (sl i))) by (intros [_ E]; done).
  assert (Hfds : omap command_fd (pipe ++ [cmd]) = omap command_fd pipe ++ match F with Some fd => [fd] | None => [] end).
  { rewrite omap_app. cbn. rewrite Hcmd. by destruct F. }
  assert (Hids : omap command_id (pipe ++ [cmd]) = omap command_id pipe ++ [id]) by (rewrite omap_app; cbn; by rewrite Hcid).
  assert (Hpoll : forall x, os_poll o' !! x = os_poll o !! x).
  { intros x. destruct (decide (F = Some x)) as [E|E]; [by apply HF|by apply Ho]. }
  assert (Hopen : forall x, x ∈ os_open o -> x ∈ os_open o').
  { intros x Hx. destruct (decide (F = Some x)) as [E|E]; [by apply HF|by apply Ho]. }
  constructor; try done.
  - intros j. destruct (decide (j = i)) as [->|Hj].
    + rewrite slot_upd_same. destruct (sk_empty _ _ _ (H1 i)) as [E1 E2]; [by unfold sender; rewrite Hinv|].
      constructor; cbn; rewrite ?E1, ?E2; try done. intros [|]; done.
    + rewrite slot_upd_other by done. destruct F as [fd|].
      * apply (slot_ok_agree o o' fd); [|intros Hl; by apply HF|done]. intros x Hx. apply Ho. congruence.
      * apply (slot_ok_agree o o' (s_fd (sl j) + 1)); [|lia|done]. intros x _. by apply Ho.
  - intros j. rewrite Hpoll. destruct (decide (j = i)) as [->|Hj]; [by rewrite slot_upd_same|]. rewrite slot_upd_other by done. auto.
  - intros j k. destruct (decide (j = i)) as [->|Hj], (decide (k = i)) as [->|Hk]; rewrite ?slot_upd_same, ?slot_upd_other by done; auto; done.
  - intros x Hx. rewrite Hfds. destruct (decide (F = Some x)) as [E|E].
    + right. apply elem_of_app. right. rewrite E. apply list_elem_of_here.
    + apply Ho in Hx; [|done]. destruct (H3 x Hx) as [(j & Hj & Ej)|Hp].
      * left. exists j. rewrite slot_upd_other; [done|]. apply Hji, Hj.
      * right. apply elem_of_app. by left.
  - intros x Hx. rewrite Hpoll in Hx. destruct (H4 x Hx) as (j & Hj & Ej). exists j. rewrite slot_upd_other; [done|]. apply Hji, Hj.
  - rewrite Hfds. destruct F as [fd|]; [|by rewrite app_nil_r]. apply NoDup_app. split; [done|]. split.
    + intros x Hx Hx'. apply list_elem_of_singleton in Hx' as ->. destruct (HF fd eq_refl) as (_ & Hn & _). by apply Hn, H6.
    + apply NoDup_singleton.
  - intros x. rewrite Hfds. intros [Hx|Hx]%elem_of_app.
    + destruct (H6 x Hx) as [Hxo Hxl]. split; [auto|]. intros j. destruct (decide (j = i)) as [->|Hj]; [by rewrite slot_upd_same|].
      rewrite slot_upd_other by done. auto.
    + destruct F as [fd|]; [|by apply not_elem_of_nil in Hx]. apply list_elem_of_singleton in Hx as ->.
      destruct (HF fd eq_refl) as (Hl & _ & Hin & _). split; [done|]. intros j.
      destruct (decide (j = i)) as [->|Hj]; [by rewrite slot_upd_same|]. rewrite slot_upd_other by done. auto.
  - rewrite Hids. apply NoDup_app. split; [done|]. split; [|apply NoDup_singleton].
    intros x Hx Hx'. apply list_elem_of_singleton in Hx' as ->. destruct (H8 id Hx) as [E _]. fold i in E. by rewrite Hinv in E.
  - intros x. rewrite Hids. intros [Hx|Hx]%elem_of_app.
    + destruct (H8 x Hx) as [Hxt Hxi]. rewrite slot_upd_other; [done|]. intros E. by rewrite E, Hinv in Hxt.
    + apply list_elem_of_singleton in Hx as ->. fold i. by rewrite slot_upd_same.
  - intros j. rewrite Hids. destruct (decide (j = i)) as [->|Hj].
    + rewrite slot_upd_same. intros _. apply elem_of_app. right. apply list_elem_of_here.
    + rewrite slot_upd_other by done. intros Hjt. apply elem_of_app. left. auto.
  - intros j Hj. specialize (H11 j Hj). rewrite slot_upd_other; [done|]. apply Hji, H11.
Qed.

(** ** Commands *)

Definition slots (ss : socket_server) : Z -> socket := fun i => slot i ss.

Lemma inv_put pipe ev i s o ss : sinv pipe ev (upd i s (slots ss)) o -> sinv pipe ev (slots (put i s o ss)) o.
Proof. apply sinv_ext. intros j. apply slot_put. Qed.

(** The message [m] reports that slot [i] was closed: the invariant holds once
    the events of the slot are gone. *)
Definition closing (ev : list event) (i : Z) (m : socket_message) (ss : socket_server) : Prop :=
  (m_type m = SOCKET_CLOSE \/ m_type m = SOCKET_ERROR) /\ s_type (slot i ss) = SOCKET_TYPE_INVALID /\ s_id (slot i ss) = m_id m /\
  forall ev', NoDup (omap e_s ev') -> (forall j, j ∈ omap e_s ev' -> j ∈ omap e_s ev /\ j <> i) ->
    sinv (ss_pipe ss) ev' (slots ss) (ss_os ss).

(** What a command establishes: the invariant, or a message about a closed slot. *)
Definition command_post (ss : socket_server) (m : option socket_message) (ss' : socket_server) : Prop :=
  ss_pipe ss' = ss_pipe ss /\ ss_ev ss' = ss_ev ss /\
  (server_inv ss' \/ exists msg i, m = Some msg /\ closing (ss_ev ss) i msg ss').

Definition commands (run : result (option socket_message * socket_server)) (ss : socket_server) : Prop :=
  exists m ss', run = Ok (m, ss') /\ command_post ss m ss'.

Lemma commands_ok m ss ss' : ss_pipe ss' = ss_pipe ss -> ss_ev ss' = ss_ev ss -> server_inv ss' -> commands (Ok (m, ss')) ss.
Proof. intros E1 E2 H. exists m, ss'. split; [done|]. split; [done|]. split; [done|]. by left. Qed.

Lemma sinv_sub_events pipe ev ev' sl o : sinv pipe ev sl o -> NoDup (omap e_s ev') ->
  (forall j, j ∈ omap e_s ev' -> j ∈ omap e_s ev) -> sinv pipe ev' sl o.
Proof. intros Hi Hn Hs. eapply sinv_events; [done|done|]. intros j Hj. eapply g_event; [done|auto]. Qed.

(** Slot [i] was closed from [s] to [s']. *)
Lemma commands_closed ss i s s' o' m : server_inv ss -> live (slot i ss) -> s_fd s = s_fd (slot i ss) -> s_id s = s_id (slot i ss) ->
  forall o, closed_from o s o' s' -> os_agree (s_fd s) (ss_os ss) o' ->
  m_type m = SOCKET_CLOSE \/ m_type m = SOCKET_ERROR -> m_id m = s_id s -> commands (Ok (Some m, put i s' o' ss)) ss.
Proof.
  intros Hi Hl Hfd Hid o [C1 C2 C3 C4 C5] Hag Hm Hmid. do 2 eexists. split; [done|]. split; [done|]. split; [done|]. right.
  exists m, i. split; [done|]. split; [done|].
  assert (slot i (put i s' o' ss) = s') as E by (rewrite slot_put; apply slot_upd_same). rewrite E.
  split; [apply C1|]. split; [congruence|]. intros ev' Hn Hs. apply inv_put.
  apply (sinv_closed _ _ (slots ss) (ss_os ss) i s s' o'); try done.
  - eapply sinv_sub_events; [exact Hi|done|]. intros j Hj. by apply Hs.
  - intros Hj. by destruct (Hs i Hj).
Qed.

(** A live slot is changed and stays live. *)
Lemma inv_keep ss i s' o' : server_inv ss -> live (slot i ss) -> live s' -> s_fd s' = s_fd (slot i ss) ->
  os_agree (s_fd (slot i ss)) (ss_os ss) o' -> slot_ok o' i s' ->
  (s_type s' = SOCKET_TYPE_CONNECTING -> os_poll o' !! s_fd s' = Some true) ->
  (polled (slot i ss) -> polled s') -> server_inv (put i s' o' ss).
Proof.
  intros Hi Hl Hl' Hfd Hag Hok Hcn Hp. apply inv_put. set (fd := s_fd (slot i ss)) in *.
  apply (sinv_set _ _ (slots ss) (ss_os ss) i s' o' fd); try done.
  - apply Hl.
  - apply Hl'.
  - intros j Hj Hlj E. apply Hj. by eapply g_fd.
  - intros Hin. destruct (g_given _ _ _ _ Hi _ Hin) as [_ Hn]. by apply (Hn i).
  - intros Hin. split; [done|]. rewrite <- Hfd in Hin. by apply (sk_open _ _ _ Hok).
  - rewrite <- Hfd. intros Hin. by apply (sk_poll _ _ _ Hok).
  - intros Hin. apply Hp. exact (g_event _ _ _ _ Hi i Hin).
Qed.

Lemma agree_refl fd o : os_agree fd o o.
Proof. by intros x _. Qed.

Lemma inv_free ss l : server_inv ss -> server_inv (set_os (os_free l (ss_os ss)) ss).
Proof. intros H. by eapply sinv_os. Qed.

(** A buffer is appended to a socket that can send and is polled for writing. *)
Lemma append_ok ss i s soi high r n address o : server_inv ss -> s = slot i ss ->
  zlen (rs_data r) = rs_sz r -> sender s = true -> high = true \/ n = 0%nat ->
  os_agree (s_fd s) (ss_os ss) o -> os_open o = os_open (ss_os ss) -> os_poll o !! s_fd s = Some true ->
  exists s', append_sendbuffer soi high r n address s = Ok s' /\ s_fd s' = s_fd s /\ server_inv (put i s' o ss).
Proof.
  intros Hi Es Hlen Hs Hn Hag Hopen Hpoll. unfold append_sendbuffer, send_object_init.
  destruct (Z.ltb_spec (rs_sz r) 0) as [|_]; [zlia|]. rewrite Hlen, Z.eqb_refl. cbn [assert_ mbind result_bind].
  eexists. split; [reflexivity|]. set (b := WriteBuffer _ _ _ _ _). split; [by destruct high|].
  assert (live s) as Hl by (unfold sender in Hs; split; intros E; by rewrite E in Hs).
  assert (polled s) as Hp by (unfold sender in Hs; split; [done|split; intros E; by rewrite E in Hs]).
  pose proof (g_slot _ _ _ _ Hi i) as Hok. cbn beta in Hok. rewrite <- Es in Hok. destruct Hok as [K1 K2 K3 K4 K5 K6 K7 K8].
  apply inv_keep; rewrite <- ?Es; try done; try (by destruct high).
  constructor; try (by destruct high).
  - destruct high; cbn; unfold sender in *; cbn in *; congruence.
  - intros _. specialize (K4 Hl). unfold sized in *. destruct high; cbn [set_list set_lists s_wb_size s_high s_low get_list] in *;
      rewrite zlen_bytes_app, bytes_of_one; change (wb_data b) with (drop n (rs_data r)); lia.
  - destruct high; cbn; [done|]. apply Forall_app. split; [done|]. apply Forall_singleton. cbn. destruct Hn as [|E]; [done|]. rewrite E. lia.
  - intros _. rewrite Hopen. destruct high; by apply K6.
Qed.

Lemma send_socket_ok w r high ua ss : server_inv ss -> plain_send r ss -> commands (send_socket w r high ua ss) ss.
Proof.
  intros Hi (Hlen & Hbind & Hres). unfold send_socket. set (i := HASH_ID (rs_id r)) in *. set (s := slot i ss) in *.
  assert (Hinit : send_object_init (ss_soi ss) r = Ok (rs_buffer r, rs_data r, false)).
  { unfold send_object_init. destruct (Z.ltb_spec (rs_sz r) 0) as [|_]; [zlia|]. by rewrite Hlen, Z.eqb_refl. }
  rewrite Hinit. cbn [mbind result_bind].
  destruct (_ || _) eqn:Erej; [apply commands_ok; try done; by apply inv_free|].
  rewrite !orb_false_iff, negb_false_iff, Z.eqb_eq in Erej. destruct Erej as (((((E0 & Eid) & E6) & E7) & E2) & E3).
  pose proof (g_slot _ _ _ _ Hi i) as Hok. cbn beta in Hok. fold s in Hok. pose proof (sk_type _ _ _ Hok) as Ht.
  rewrite !Z.eqb_neq in *.
  assert (sender s = true) as Hs.
  { destruct Hres as [Hres|]; [|done]. unfold sender, SOCKET_TYPE_INVALID, SOCKET_TYPE_RESERVE, SOCKET_TYPE_PLISTEN, SOCKET_TYPE_LISTEN,
      SOCKET_TYPE_CONNECTING, SOCKET_TYPE_CONNECTED, SOCKET_TYPE_HALFCLOSE, SOCKET_TYPE_PACCEPT, SOCKET_TYPE_BIND in *.
    zprune; lia. }
  assert (live s) as Hl by (split; [done|by destruct Hres]).
  assert (polled s) as Hp by (split; done).
  pose proof (proj2 (sk_poll _ _ _ Hok Hl) Hp) as [wf Hwf].
  assert (Hwr : forall o, os_poll o = os_poll (ss_os ss) -> os_open o = os_open (ss_os ss) ->
    exists o', sp_write (s_fd s) true o = Ok o' /\ os_agree (s_fd s) (ss_os ss) o' /\ os_open o' = os_open (ss_os ss) /\ os_poll o' !! s_fd s = Some true).
  { intros o E1 E4. unfold sp_write. rewrite E1, Hwf. cbn. eexists. split; [done|]. split; [|split; [done|cbn; by rewrite lookup_insert_eq]].
    intros x Hx. cbn. by rewrite E4, lookup_insert_ne. }
  destruct (send_buffer_empty s && (s_type s =? SOCKET_TYPE_CONNECTED)) eqn:Edir.
  - destruct (s_protocol s =? PROTOCOL_TCP).
    + destruct (direct_write w (rs_data r)) as [n|].
      * destruct (n =? length (rs_data r))%nat; [apply commands_ok; try done; by eapply sinv_os|].
        destruct (Hwr (os_put (s_fd s) (take n (rs_data r)) (ss_os ss))) as (o' & Ew & Hag & Hop & Hpo); [done..|].
        destruct (append_ok ss i s (ss_soi ss) true r n [] o' Hi eq_refl Hlen Hs) as (s' & -> & Efd & Hinv); [by left|done..|].
        cbn [mbind result_bind]. rewrite Efd, Ew. cbn [mbind result_bind]. by apply commands_ok.
      * destruct (force_close_ok s (ss_os ss)) as (s' & o' & -> & Hcl); [by eapply slot_closable|]. cbn [mbind result_bind].
        pose proof Hcl as [C1 C2 C3 C4 C5].
        apply (commands_closed ss i s s' (os_free [rs_buffer r] o') _ Hi Hl eq_refl eq_refl (ss_os ss)); try done; by left.
    + destruct (sent_whole w (rs_data r)); [apply commands_ok; try done; by eapply sinv_os|].
      destruct (Hwr (ss_os ss)) as (o' & Ew & Hag & Hop & Hpo); [done..|].
      destruct (append_ok ss i s (ss_soi ss) high r 0 (default (s_udp_address s) ua) o' Hi eq_refl Hlen Hs) as (s' & -> & Efd & Hinv); [by right|done..|].
      cbn [mbind result_bind]. rewrite Efd, Ew. cbn [mbind result_bind]. by apply commands_ok.
  - assert (os_poll (ss_os ss) !! s_fd s = Some true) as Hpo.
    { unfold sender in Hs. destruct (Z.eqb_spec (s_type s) SOCKET_TYPE_CONNECTING) as [Ec|]; [by apply (g_conn _ _ _ _ Hi i)|].
      destruct (Z.eqb_spec (s_type s) SOCKET_TYPE_HALFCLOSE) as [|]; [done|].
      rewrite orb_false_r in Hs. cbn [orb] in Hs. rewrite Hs, andb_true_r in Edir.
      apply (sk_write _ _ _ Hok). unfold send_buffer_empty in Edir. apply andb_false_iff in Edir as [E|E];
        apply bool_decide_eq_false in E; auto. }
    set (address := if _ =? _ then _ else _).
    destruct (append_ok ss i s (ss_soi ss) high r 0 address (ss_os ss) Hi eq_refl Hlen Hs) as (s' & -> & _ & Hinv); [by right|done..|].
    cbn [mbind result_bind]. by apply commands_ok.
Qed.
