(* ===== verification/SocketCmd.v ===== *)
(** * The commands of the control pipe keep the sockets in order

    Each command of [ctrl_cmd] under the invariant of [SocketInv]: it succeeds
    and keeps the invariant, or it returns the message of a socket it closed. *)
From S2P Require Import Prelude Socket SocketInv.

(** ** Fields the invariant does not read *)

Definition core (s : socket) : socket := Socket 0 (s_high s) (s_low s) (s_wb_size s) (s_fd s) (s_id s) 0 (s_type s) 0 [].

Lemma slot_ok_core o i s s' : core s = core s' -> slot_ok o i s -> slot_ok o i s'.
Proof.
  intros E. destruct s, s'. injection E as -> -> -> -> -> ->. intros [H1 H2 H3 H4 H5 H6 H7 H8]. by constructor.
Qed.

Lemma sinv_core pipe ev sl sl' o : (forall i, core (sl i) = core (sl' i)) -> sinv pipe ev sl o -> sinv pipe ev sl' o.
Proof.
  intros E [H1 Hcn H2 H3 H4 H5 H6 H7 H8 H9 H10 H11].
  assert (Et : forall i, s_type (sl' i) = s_type (sl i)) by (intros i; exact (f_equal s_type (eq_sym (E i)))).
  assert (Ef : forall i, s_fd (sl' i) = s_fd (sl i)) by (intros i; exact (f_equal s_fd (eq_sym (E i)))).
  assert (Ei : forall i, s_id (sl' i) = s_id (sl i)) by (intros i; exact (f_equal s_id (eq_sym (E i)))).
  unfold owner, polled, live in *. constructor; unfold owner, polled, live; try done.
  - intros i. exact (slot_ok_core o i _ _ (E i) (H1 i)).
  - intros i. rewrite Et, Ef. apply Hcn.
  - intros i j. rewrite !Et, !Ef. apply H2.
  - intros fd Hfd. destruct (H3 fd Hfd) as [(i & Hi)|]; [left; exists i; by rewrite Et, Ef|by right].
  - intros fd Hfd. destruct (H4 fd Hfd) as (i & Hi). exists i. by rewrite Et, Ef.
  - intros fd Hfd. destruct (H6 fd Hfd) as [? Hl]. split; [done|]. intros i. rewrite Et, Ef. apply Hl.
  - intros id Hid. rewrite Et, Ei. by apply H8.
  - intros i. rewrite Et, Ei. apply H9.
  - intros i Hi. rewrite Et. by apply H11.
Qed.

Lemma inv_core ss i s' : server_inv ss -> core s' = core (slot i ss) -> server_inv (put i s' (ss_os ss) ss).
Proof.
  intros Hi E. apply inv_put. eapply sinv_core; [|exact Hi]. intros j. cbn beta. unfold upd, slots.
  destruct (decide (j = i)) as [->|]; done.
Qed.

(** ** Closing and starting *)

Lemma closed_from_trans o s o1 s1 o2 s2 : os_agree (s_fd s) o o1 -> s_fd s1 = s_fd s -> s_id s1 = s_id s ->
  closed_from o1 s1 o2 s2 -> closed_from o s o2 s2.
Proof.
  intros Ha Ef Eid [C1 C2 C3 C4 C5]. rewrite Ef in *. constructor; try done; [congruence|].
  intros x Hx. destruct (C3 x Hx) as [A1 A2], (Ha x Hx) as [B1 B2]. split; [by etrans|congruence].
Qed.

(** Closing the socket of slot [i], whose state is now [s] and [o]. *)
Lemma commands_close ss i s o m : server_inv ss -> live (slot i ss) -> s_fd s = s_fd (slot i ss) -> s_id s = s_id (slot i ss) ->
  closable o s -> os_agree (s_fd s) (ss_os ss) o -> m_type m = SOCKET_CLOSE \/ m_type m = SOCKET_ERROR -> m_id m = s_id s ->
  commands ('(s', o') ← force_close s o; Ok (Some m, put i s' o' ss)) ss.
Proof.
  intros Hi Hl Hf Hid Hc Ha Hm Hmid. destruct (force_close_ok s o Hc) as (s' & o' & -> & Hcl). cbn [mbind result_bind].
  assert (Hcl' : closed_from (ss_os ss) s o' s') by by apply (closed_from_trans (ss_os ss) s o s o' s').
  apply (commands_closed ss i s s' o' m Hi Hl Hf Hid (ss_os ss)); try done. apply Hcl'.
Qed.

Lemma live_of ss i id : server_inv ss -> s_type (slot i ss) <> SOCKET_TYPE_RESERVE \/ s_id (slot i ss) <> id ->
  s_type (slot i ss) <> SOCKET_TYPE_INVALID -> s_id (slot i ss) = id -> live (slot i ss).
Proof. intros Hi [H|H] Ht Hid; [by split|done]. Qed.

Lemma halfclose_slot o i s : slot_ok o i s -> send_buffer_empty s = false -> slot_ok o i (set_type SOCKET_TYPE_HALFCLOSE s).
Proof.
  intros [H1 H2 H3 H4 H5 H6 H7 H8] He. assert (sender s = true) as Hs.
  { destruct (sender s) eqn:E; [done|]. destruct (H2 eq_refl) as [E1 E2]. unfold send_buffer_empty in He. by rewrite E1, E2 in He. }
  assert (live s /\ polled s /\ s_type s <> SOCKET_TYPE_BIND) as (Hl & Hp & Hb).
  { unfold sender in Hs. split_and!; [| |by intros E; rewrite E in Hs]; repeat split; by intros E; rewrite E in Hs. }
  constructor; cbn; try done.
  - intros _. apply H3, Hl.
  - intros _. by apply H4.
  - intros _. split; [done|]. intros _. by apply H6.
  - intros _. split; [by intros _|]. intros _. by apply H7.
Qed.

Lemma close_socket_ok an id shutdown opaque ss : server_inv ss -> command_ok an (CmdK id shutdown opaque) ss ->
  commands (close_socket an id shutdown opaque ss) ss.
Proof.
  intros Hi Hc. unfold close_socket. set (i := HASH_ID id) in *. destruct (_ || _) eqn:Erej; [by apply commands_ok|].
  rewrite orb_false_iff, negb_false_iff, Z.eqb_eq, Z.eqb_neq in Erej. destruct Erej as [Et Eid].
  pose proof (live_of ss i id Hi Hc Et Eid) as Hl. set (s := slot i ss) in *.
  pose proof (g_slot _ _ _ _ Hi i) as Hok. cbn beta in Hok. fold s in Hok.
  assert (Hmain : forall s1 o1, slot_ok o1 i s1 -> s_type s1 = s_type s -> s_fd s1 = s_fd s -> s_id s1 = s_id s ->
    os_agree (s_fd s) (ss_os ss) o1 ->
    commands (if negb (shutdown =? 0) || send_buffer_empty s1
      then '(s, o) ← force_close s1 o1; Ok (Some (message SOCKET_CLOSE id opaque NoData), put i s o ss)
      else Ok (None, put i (set_type SOCKET_TYPE_HALFCLOSE s1) o1 ss)) ss).
  { intros s1 o1 Hok1 Et1 Ef1 Ei1 Ha. assert (live s1) as Hl1 by (unfold live; by rewrite Et1).
    destruct (_ || _) eqn:Ed.
    - apply commands_close; rewrite ?Ef1; try done; [by eapply slot_closable|by left|cbn; congruence].
    - apply orb_false_iff in Ed as [_ He]. apply commands_ok; try done. apply inv_keep; try done. by apply halfclose_slot. }
  destruct (send_buffer_empty s) eqn:Ee; cbn [negb].
  - cbn [mbind result_bind]. by apply Hmain.
  - assert (polled s) as Hp.
    { destruct (sender s) eqn:E; [|destruct (sk_empty _ _ _ Hok E) as [E1 E2]; unfold send_buffer_empty in Ee; by rewrite E1, E2 in Ee].
      unfold sender in E. repeat split; intros E'; by rewrite E' in E. }
    destruct (send_buffer_ok (an_high an) (an_low an) i s (ss_os ss) Hok Hp) as (r & s1 & o1 & -> & Hr). cbn [mbind result_bind].
    destruct r as [t|].
    + destruct Hr as [-> Hcl]. apply (commands_closed ss i s s1 o1 _ Hi Hl eq_refl eq_refl (ss_os ss)); try done; [apply Hcl|by left|apply Hcl].
    + destruct Hr as (Hok1 & Et1 & Ef1 & Ei1 & Ha & _). by apply Hmain.
Qed.

Lemma start_socket_ok an id opaque ss : server_inv ss -> commands (start_socket an id opaque ss) ss.
Proof.
  intros Hi. unfold start_socket. set (i := HASH_ID id) in *. set (s := slot i ss) in *.
  destruct (_ || _) eqn:Erej; [by apply commands_ok|].
  pose proof (g_slot _ _ _ _ Hi i) as Hok. cbn beta in Hok. fold s in Hok.
  destruct ((s_type s =? SOCKET_TYPE_PACCEPT) || (s_type s =? SOCKET_TYPE_PLISTEN)) eqn:Ep.
  - rewrite orb_true_iff, !Z.eqb_eq in Ep.
    assert (live s /\ ~ polled s /\ sender s = false /\ s_type s <> SOCKET_TYPE_BIND) as (Hl & Hp & Hs & Hb).
    { unfold sender, polled, live. destruct Ep as [E|E]; rewrite E; split_and!; try done; naive_solver. }
    assert (os_poll (ss_os ss) !! s_fd s = None) as Hnone.
    { apply eq_None_not_Some. intros H. by apply Hp, (sk_poll _ _ _ Hok Hl). }
    unfold sp_add. rewrite bool_decide_true by done. destruct (an_add an); cbn [andb].
    + apply commands_ok; try done.
      set (t := if _ =? _ then _ else _). assert (t = SOCKET_TYPE_CONNECTED \/ t = SOCKET_TYPE_LISTEN) as Ht.
      { subst t. case_match; [by left|by right]. }
      set (s' := set_opaque opaque (set_type t s)).
      assert (live s' /\ polled s' /\ s_type s' <> SOCKET_TYPE_BIND /\ s_type s' <> SOCKET_TYPE_CONNECTING /\ 0 <= s_type s' <= 8) as (Hl' & Hp' & Hb' & Hcn' & Hr').
      { unfold s', polled, live. cbn. by destruct Ht as [-> | ->]. }
      destruct Hok as [H1 H2 H3 H4 H5 H6 H7 H8]. destruct (H2 Hs) as [E1 E2].
      apply inv_keep; try done.
      * intros x Hx. cbn. rewrite lookup_insert_ne; [done|]. by intros <-.
      * constructor; try done.
        -- intros _. apply H3, Hl.
        -- intros _. apply H4, Hl.
        -- intros _. cbn. specialize (H6 Hl). tauto.
        -- intros _. cbn. rewrite lookup_insert_eq. split; [done|by eexists].
        -- cbn. rewrite E1, E2. intros [|]; done.
    + apply (commands_close ss i s (ss_os ss)); try done; [by eapply slot_closable|by right].
  - destruct (Z.eqb_spec (s_type s) SOCKET_TYPE_CONNECTED); apply commands_ok; try done. by apply inv_core.
Qed.

Lemma set_udp_address_ok an id address ss : server_inv ss -> command_ok an (CmdC id address) ss ->
  commands (set_udp_address id address ss) ss.
Proof.
  intros Hi Hlen. unfold set_udp_address. cbn in Hlen. destruct (_ || _); [by apply commands_ok|].
  destruct address as [|type address]; [cbn in Hlen; vm_compute in Hlen; done|]. cbn [zget deref lookup list_lookup mbind result_bind hd] in *.
  change (zget (type :: address) 0) with (Ok type). cbn [mbind result_bind].
  destruct (negb _); [by apply commands_ok|].
  rewrite slice_Ok by (destruct (type =? PROTOCOL_UDP); lia). cbn [mbind result_bind].
  apply commands_ok; try done. by apply inv_core.
Qed.

(** ** Commands that create a socket *)

Lemma slot_put_put i s s' o o' ss j : slot j (put i s' o' (put i s o ss)) = upd i s' (slots ss) j.
Proof. rewrite slot_put. unfold upd. destruct (decide (j = i)); [done|]. rewrite slot_put. by apply slot_upd_other. Qed.

Lemma inv_put_put pipe ev i s s' o o' o2 ss : sinv pipe ev (upd i s' (slots ss)) o2 -> sinv pipe ev (slots (put i s' o' (put i s o ss))) o2.
Proof. apply sinv_ext. intros j. apply slot_put_put. Qed.

(** A socket that [new_fd] has filled in. *)
Definition new_slot (id fd protocol opaque : Z) (address : list Z) (t : Z) : socket :=
  Socket opaque [] [] 0 fd id protocol t MIN_READ_BUFFER address.

Lemma new_slot_ok o id fd protocol opaque a t : 0 <= id <= INT_MAX -> 0 <= t <= 8 ->
  (live (new_slot id fd protocol opaque a t) -> fd ∈ os_open o <-> t <> SOCKET_TYPE_BIND) ->
  (live (new_slot id fd protocol opaque a t) -> is_Some (os_poll o !! fd) <-> polled (new_slot id fd protocol opaque a t)) ->
  slot_ok o (HASH_ID id) (new_slot id fd protocol opaque a t).
Proof. intros Hid Ht Ho Hp. constructor; try done. by intros [|]. Qed.

Lemma new_fd_reserved id fd protocol opaque add ok ss : let s := slot (HASH_ID id) ss in
  s_type s = SOCKET_TYPE_RESERVE -> s_high s = [] -> s_low s = [] ->
  new_fd id fd protocol opaque add ok ss =
  match (if add then sp_add ok fd (ss_os ss) else Some (ss_os ss)) with
  | None => Ok (None, put (HASH_ID id) (set_type SOCKET_TYPE_INVALID s) (ss_os ss) ss)
  | Some o =>
      let s := new_slot id fd protocol opaque (s_udp_address s) SOCKET_TYPE_RESERVE in
      Ok (Some s, put (HASH_ID id) s o ss)
  end.
Proof.
  intros s Ht Hh Hl. unfold new_fd. fold s. rewrite Ht. cbn [Z.eqb assert_ mbind result_bind SOCKET_TYPE_RESERVE].
  destruct (if add then _ else _); [|done]. by rewrite Hh, Hl, !bool_decide_true.
Qed.

Lemma agree_insert fd b o w d f : os_agree fd o (Os (os_open o) (<[fd := b]> (os_poll o)) w d f).
Proof. intros x Hx. cbn. by rewrite lookup_insert_ne. Qed.

Section creation.
Context (cmd : command) (id : Z) (ss : socket_server).
Context (Hi : sinv (cmd :: ss_pipe ss) (ss_ev ss) (slots ss) (ss_os ss)) (Hid : command_id cmd = Some id).

Lemma creation_reserved : s_type (slot (HASH_ID id) ss) = SOCKET_TYPE_RESERVE /\ 0 <= id <= INT_MAX /\
  s_high (slot (HASH_ID id) ss) = [] /\ s_low (slot (HASH_ID id) ss) = [].
Proof using Hi Hid.
  destruct (g_id _ _ _ _ Hi id) as [Ht Hn]; [cbn; rewrite Hid; apply list_elem_of_here|].
  pose proof (g_slot _ _ _ _ Hi (HASH_ID id)) as Hok. unfold slots in *. split; [done|]. split.
  - rewrite <- Hn. apply (sk_id _ _ _ Hok). by rewrite Ht.
  - apply (sk_empty _ _ _ Hok). unfold sender. by rewrite Ht.
Qed.

Lemma creation_given_up o' a fd : command_fd cmd = None \/ command_fd cmd = Some fd /\ fd ∉ os_open o' /\ os_poll (ss_os ss) !! fd = None ->
  (forall x, x <> fd \/ command_fd cmd = None -> x ∈ os_open o' <-> x ∈ os_open (ss_os ss)) -> os_poll o' = os_poll (ss_os ss) ->
  sinv (ss_pipe ss) (ss_ev ss) (upd (HASH_ID id) (set_type SOCKET_TYPE_INVALID (set_address a (slot (HASH_ID id) ss))) (slots ss)) o'.
Proof using Hi Hid.
  intros Hfd Hopen Hpoll. destruct creation_reserved as (Ht & Hr & Eh & El).
  apply (sinv_take cmd _ _ _ (ss_os ss) id _ o' (command_fd cmd)); try done.
  - intros x Hx. rewrite Hpoll. split; [|done]. apply Hopen. destruct Hfd as [E|[E _]]; [by right|left; congruence].
  - by right.
  - intros x Ex. destruct Hfd as [E|(E & Hno & Hnp)]; [congruence|]. assert (x = fd) as -> by congruence.
    destruct (g_given _ _ _ _ Hi fd) as [_ Hlv]; [cbn; rewrite E; apply list_elem_of_here|]. split; [done|].
    pose proof (g_pipefd _ _ _ _ Hi) as Hn. cbn in Hn. rewrite E in Hn. apply NoDup_cons in Hn as [Hn _].
    split; [done|]. rewrite Hpoll, Hnp. split; [done|]. by intros [? ?].
  - by apply closed_slot_ok.
  - by intros [H _].
Qed.

(** The socket got the descriptor [fd], which was new or came with the command. *)
Lemma creation_done fd s' o' : fresh_fd fd ss /\ command_fd cmd = None \/ command_fd cmd = Some fd ->
  os_agree fd (ss_os ss) o' -> s_fd s' = fd -> owner s' \/ live s' /\ fd ∉ os_open o' -> polled s' \/ os_poll o' !! fd = None ->
  slot_ok o' (HASH_ID id) s' -> (s_type s' = SOCKET_TYPE_CONNECTING -> os_poll o' !! fd = Some true) ->
  sinv (ss_pipe ss) (ss_ev ss) (upd (HASH_ID id) s' (slots ss)) o'.
Proof using Hi Hid.
  intros Hfd Ha Hs Ho Hp Hok Hcn. assert (live s') as [L1 L2] by (destruct Ho as [[H _]|[H _]]; exact H).
  apply (sinv_take cmd _ _ _ (ss_os ss) id _ o' (Some fd)); try done.
  - intros x Hx. apply Ha. congruence.
  - destruct Hfd as [[_ E]|E]; auto.
  - intros x [= <-]. assert ((forall j, live (slots ss j) -> s_fd (slots ss j) <> fd) /\ fd ∉ omap command_fd (ss_pipe ss)) as [H1 H2].
    { destruct Hfd as [[[Hno Hlv] E]|E].
      - split; [done|]. intros Hin. apply Hno. apply (g_given _ _ _ _ Hi fd). cbn. by rewrite E.
      - split; [apply (g_given _ _ _ _ Hi fd); cbn; rewrite E; apply list_elem_of_here|].
        pose proof (g_pipefd _ _ _ _ Hi) as Hn. cbn in Hn. rewrite E in Hn. by apply NoDup_cons in Hn as [Hn _]. }
    split; [done|]. split; [done|]. split.
    + intros Hin. by destruct Ho as [|[_ Hno]].
    + intros [b Hb]. destruct Hp as [|Hn]; [done|congruence].
  - by rewrite Hs.
  - intros _. by rewrite Hs.
Qed.

Lemma unused_poll fd : fresh_fd fd ss \/ command_fd cmd = Some fd -> os_poll (ss_os ss) !! fd = None.
Proof using Hi.
  intros Hfd. apply eq_None_not_Some. intros Hs. destruct (g_poll _ _ _ _ Hi fd Hs) as (j & [Hl _] & Ej).
  destruct Hfd as [[_ H]|E]; [by apply (H j)|].
  destruct (g_given _ _ _ _ Hi fd) as [_ H]; [cbn; rewrite E; apply list_elem_of_here|by apply (H j)].
Qed.

Lemma given_open fd : command_fd cmd = Some fd -> fd ∈ os_open (ss_os ss).
Proof using Hi. intros E. apply (g_given _ _ _ _ Hi). cbn. rewrite E. apply list_elem_of_here. Qed.

End creation.

Lemma listen_socket_ok id fd opaque ss : sinv (CmdL id fd opaque :: ss_pipe ss) (ss_ev ss) (slots ss) (ss_os ss) ->
  commands (listen_socket id fd opaque ss) ss.
Proof.
  intros Hi. destruct (creation_reserved _ id ss Hi eq_refl) as (Ht & Hr & Eh & El).
  pose proof (given_open _ ss Hi fd eq_refl) as Hop. pose proof (unused_poll _ ss Hi fd (or_intror eq_refl)) as Hpo.
  unfold listen_socket. rewrite new_fd_reserved by done. cbn [mbind result_bind]. apply commands_ok; try done.
  apply inv_put_put. cbn [ss_os put].
  apply (creation_done _ id ss Hi eq_refl fd); try done; [by right|by left|by right|].
  apply new_slot_ok; try done.
  intros _. cbn. rewrite Hpo. split; [by intros [? ?]|]. by intros (_ & _ & H).
Qed.

Lemma bind_socket_ok an id fd opaque ss : sinv (CmdB id fd opaque :: ss_pipe ss) (ss_ev ss) (slots ss) (ss_os ss) ->
  fresh_fd fd ss -> commands (bind_socket an id fd opaque ss) ss.
Proof.
  intros Hi Hf. destruct (creation_reserved _ id ss Hi eq_refl) as (Ht & Hr & Eh & El).
  pose proof (unused_poll _ ss Hi fd (or_introl Hf)) as Hpo.
  unfold bind_socket. rewrite new_fd_reserved by done. unfold sp_add. rewrite bool_decide_true by done.
  destruct (an_add an); cbn [andb mbind result_bind]; apply commands_ok; try done.
  - apply inv_put_put. cbn [ss_os put].
    apply (creation_done _ id ss Hi eq_refl fd); try done; [by left|by apply agree_insert|right; split; [done|apply Hf]|by left|].
    apply new_slot_ok; try done; cbn; [|by rewrite lookup_insert_eq].
    intros _. split; [|done]. by intros ?%(proj1 Hf).
  - apply inv_put. apply (creation_given_up _ id ss Hi eq_refl _ (s_udp_address (slot (HASH_ID id) ss)) fd); try done. by left.
Qed.

Lemma os_close_open fd o : fd ∈ os_open o ->
  os_close fd o = Ok (Os (os_open o ∖ {[fd]}) (os_poll o) (os_wire o) (os_dgram o) (os_freed o)).
Proof. intros H. unfold os_close. by rewrite bool_decide_true. Qed.

Lemma slot_put_eq i s o ss : slot i (put i s o ss) = s.
Proof. rewrite slot_put. apply slot_upd_same. Qed.

Lemma add_udp_socket_ok an id fd opaque inet6 ss : sinv (CmdU id fd opaque inet6 :: ss_pipe ss) (ss_ev ss) (slots ss) (ss_os ss) ->
  commands (add_udp_socket an id fd opaque inet6 ss) ss.
Proof.
  intros Hi. destruct (creation_reserved _ id ss Hi eq_refl) as (Ht & Hr & Eh & El).
  pose proof (given_open _ ss Hi fd eq_refl) as Hop. pose proof (unused_poll _ ss Hi fd (or_intror eq_refl)) as Hpo.
  unfold add_udp_socket. rewrite new_fd_reserved by done. unfold sp_add. rewrite bool_decide_true by done.
  destruct (an_add an); cbn [andb mbind result_bind].
  - apply commands_ok; try done. apply inv_put_put. cbn [ss_os put].
    apply (creation_done _ id ss Hi eq_refl fd); try done; [by right|by apply agree_insert|by left|by left|].
    apply (new_slot_ok _ id fd _ opaque (replicate _ 0) SOCKET_TYPE_CONNECTED); try done; cbn. by rewrite lookup_insert_eq.
  - cbn [ss_os put]. rewrite os_close_open by done. cbn [mbind result_bind]. apply commands_ok; try done.
    apply inv_put_put. rewrite slot_put_eq.
    apply (creation_given_up _ id ss Hi eq_refl _ (s_udp_address (slot (HASH_ID id) ss)) fd); try done; cbn.
    + right. split; [done|]. split; [set_solver|done].
    + intros x [Hx|]; [set_solver|done].
Qed.

Lemma open_socket_ok an id port opaque host ss : sinv (CmdO id port opaque host :: ss_pipe ss) (ss_ev ss) (slots ss) (ss_os ss) ->
  command_ok an (CmdO id port opaque host) ss -> commands (open_socket an id opaque ss) ss.
Proof.
  intros Hi Hf. destruct (creation_reserved _ id ss Hi eq_refl) as (Ht & Hr & Eh & El). unfold open_socket. cbn in Hf.
  destruct (an_open an) as [msg|fd connected peer].
  - apply commands_ok; try done. apply inv_put.
    apply (creation_given_up _ id ss Hi eq_refl _ (s_udp_address (slot (HASH_ID id) ss)) 0); try done. by left.
  - pose proof (unused_poll _ ss Hi fd (or_introl Hf)) as Hpo. set (ss1 := set_os _ ss).
    rewrite (new_fd_reserved id fd PROTOCOL_TCP opaque true (an_add an) ss1) by done. unfold sp_add. cbn [ss1 ss_os set_os os_poll os_new].
    rewrite bool_decide_true by done. destruct (an_add an); cbn [andb mbind result_bind].
    + destruct connected.
      * apply commands_ok; try done. apply inv_put_put. cbn [ss_os put].
        apply (creation_done _ id ss Hi eq_refl fd); try done; [by left| |by left|by left|].
        -- intros x Hx. cbn. rewrite lookup_insert_ne by done. set_solver.
        -- apply (new_slot_ok _ id fd _ opaque _ SOCKET_TYPE_CONNECTED); try done; cbn; [set_solver|by rewrite lookup_insert_eq].
      * unfold sp_write. cbn [ss_os put os_poll]. rewrite lookup_insert_eq. cbn [deref mbind result_bind].
        apply commands_ok; try done. apply inv_put_put. cbn [ss_os put].
        apply (creation_done _ id ss Hi eq_refl fd); try done; [by left| |by left|by left| |].
        -- intros x Hx. cbn. rewrite !lookup_insert_ne by done. set_solver.
        -- apply (new_slot_ok _ id fd _ opaque _ SOCKET_TYPE_CONNECTING); try done; cbn; [set_solver|by rewrite lookup_insert_eq].
        -- intros _. cbn. by rewrite lookup_insert_eq.
    + cbn [ss_os put]. rewrite os_close_open by set_solver. cbn [mbind result_bind]. apply commands_ok; try done.
      change (slot (HASH_ID id) (set_os ?o ?x)) with (slot (HASH_ID id) x). rewrite slot_put_eq.
      refine (inv_put_put _ _ _ (set_type SOCKET_TYPE_INVALID (slot (HASH_ID id) ss1)) _ (ss_os ss1) (ss_os ss1) _ ss1 _).
      apply (creation_given_up _ id ss Hi eq_refl _ (s_udp_address (slot (HASH_ID id) ss)) fd); try done; cbn; [by left|].
      intros x _. pose proof (proj1 Hf). set_solver.
Qed.

(** ** Any command *)

Lemma ctrl_cmd_ok an cmd pipe ss : server_inv ss -> ss_pipe ss = cmd :: pipe -> command_ok an cmd ss ->
  commands (ctrl_cmd an ss) (set_pipe pipe ss).
Proof.
  intros Hi Ep Hc. unfold ctrl_cmd. rewrite Ep. set (ss1 := set_pipe pipe ss).
  assert (Hpop : sinv (cmd :: ss_pipe ss1) (ss_ev ss1) (slots ss1) (ss_os ss1)) by (unfold server_inv in Hi; by rewrite Ep in Hi).
  assert (Hinv : command_id cmd = None -> command_fd cmd = None -> server_inv ss1).
  { intros E1 E2. eapply sinv_pipe; [exact Hpop|by cbn; rewrite E2|by cbn; rewrite E1]. }
  destruct cmd.
  - apply start_socket_ok. by apply Hinv.
  - by apply bind_socket_ok.
  - by apply listen_socket_ok.
  - apply close_socket_ok; [by apply Hinv|done].
  - by eapply open_socket_ok.
  - apply commands_ok; try done. by apply Hinv.
  - apply send_socket_ok; [by apply Hinv|done].
  - apply send_socket_ok; [by apply Hinv|done].
  - apply send_socket_ok; [by apply Hinv|done].
  - apply commands_ok; try done. by apply Hinv.
  - by apply add_udp_socket_ok.
  - apply (set_udp_address_ok an); [by apply Hinv|done].
Qed.
