(* ===== verification/SocketSafe.v ===== *)
(** * The socket server is safe

    Events, rounds of the loop and the calls of other threads under the
    invariant of [SocketInv]; then the theorems about every history: no
    assertion fails, every descriptor has one owner, the poll set is exact. *)
From S2P Require Import Prelude Socket SocketInv SocketCmd.

(** ** Events of closed sockets *)

Lemma clear_events_sub ss id ev : omap e_s (clear_events ss id ev) `sublist_of` omap e_s ev.
Proof.
  induction ev as [|e ev IH]; [done|]. cbn. destruct (e_s e) as [i|] eqn:E; cbn; [|by rewrite E].
  destruct (_ && _); cbn; rewrite ?E; [by apply sublist_cons|by apply sublist_skip].
Qed.

Lemma clear_events_gone ss id i ev : NoDup (omap e_s ev) -> s_type (slot i ss) = SOCKET_TYPE_INVALID -> s_id (slot i ss) = id ->
  (forall j, j ∈ omap e_s ev -> j <> i -> s_type (slot j ss) <> SOCKET_TYPE_INVALID) -> i ∉ omap e_s (clear_events ss id ev).
Proof.
  intros Hn Ht Hid Hl. induction ev as [|e ev IH]; [by apply not_elem_of_nil|]. cbn in *. destruct (e_s e) as [k|] eqn:E; cbn.
  - apply NoDup_cons in Hn as [Hk Hn]. destruct (decide (k = i)) as [->|Hki].
    + rewrite Ht, Hid, !Z.eqb_refl. cbn. done.
    + destruct (Z.eqb_spec (s_type (slot k ss)) SOCKET_TYPE_INVALID) as [Ek|_]; cbn.
      * by destruct (Hl k (list_elem_of_here _ _) Hki).
      * rewrite E. apply not_elem_of_cons. split; [done|]. apply IH; [done|]. intros j Hj. apply Hl. by apply list_elem_of_further.
  - rewrite E. by apply IH.
Qed.

(** After the message of a command, [clear_closed_event] restores the invariant. *)
Lemma clear_closed_ok ss m ss' : NoDup (omap e_s (ss_ev ss)) -> (forall i, i ∈ omap e_s (ss_ev ss) -> polled (slot i ss)) ->
  command_post ss (Some m) ss' -> server_inv (clear_closed_event m ss').
Proof.
  intros Hn Hp (Epipe & Eev & H). unfold clear_closed_event. destruct H as [H|(msg & i & [= <-] & [Hm (Ht & Hid & Hc)])].
  - destruct (_ || _); [|done]. unfold server_inv. cbn [set_events ss_ev ss_pipe ss_os]. rewrite Eev.
    eapply sinv_sub_events; [exact H| |].
    + eapply sublist_NoDup; [exact Hn|apply clear_events_sub].
    + rewrite Eev. intros j Hj. eapply elem_of_sublist; [exact Hj|apply clear_events_sub].
  - replace (_ || _) with true by by destruct Hm as [-> | ->].
    unfold server_inv. cbn [set_events ss_ev ss_pipe ss_os]. rewrite Eev. apply Hc.
    + eapply sublist_NoDup; [exact Hn|apply clear_events_sub].
    + intros j Hj. split; [eapply elem_of_sublist; [exact Hj|apply clear_events_sub]|]. intros ->.
      eapply clear_events_gone; [exact Hn|exact Ht|exact Hid| |exact Hj].
      intros j Hj' Hji. assert (sinv (ss_pipe ss') [Event (Some j) false false] (slots ss') (ss_os ss')) as Hs.
      { apply Hc; cbn; [apply NoDup_singleton|]. intros k ->%list_elem_of_singleton. done. }
      apply (g_event _ _ _ _ Hs j). cbn. apply list_elem_of_here.
Qed.

(** ** Events *)

(** What a handler of the event of slot [i] leaves. *)
Definition handled (run : result (option socket_message * socket_server)) : Prop :=
  exists m ss', run = Ok (m, ss') /\ server_inv ss'.

(** Slot [i] was closed, its event is no longer pending. *)
Lemma inv_closed ss i s s' o o' : server_inv ss -> live (slot i ss) -> i ∉ omap e_s (ss_ev ss) -> core s = core (slot i ss) ->
  closed_from o s o' s' -> os_agree (s_fd s) (ss_os ss) o' -> server_inv (put i s' o' ss).
Proof.
  intros Hi Hl Hev E [C1 C2 C3 C4 C5] Ha. apply inv_put.
  apply (sinv_closed _ _ _ (ss_os ss) i s s' o' Hi Hl); try done. exact (f_equal s_fd E).
Qed.

Lemma closable_core o s s' : core s = core s' -> closable o s -> closable o s'.
Proof. intros E. destruct s, s'. injection E as -> -> -> -> -> ->. intros [H1 H2 H3]. by constructor. Qed.

Section event.
Context (ss : socket_server) (i : Z).
Context (Hi : server_inv ss) (Hp : polled (slot i ss)) (Hev : i ∉ omap e_s (ss_ev ss)).

Lemma event_slot : slot_ok (ss_os ss) i (slot i ss).
Proof using Hi. exact (g_slot _ _ _ _ Hi i). Qed.

Lemma event_close (m : socket_message) : exists s' o', force_close (slot i ss) (ss_os ss) = Ok (s', o') /\
  server_inv (put i s' o' ss) /\ s_type s' = SOCKET_TYPE_INVALID.
Proof using Hi Hp Hev.
  destruct (force_close_ok (slot i ss) (ss_os ss)) as (s' & o' & E & Hc); [by eapply slot_closable, Hp; apply event_slot|].
  exists s', o'. split; [done|]. split; [|apply Hc]. eapply inv_closed; try done; [apply Hp|apply Hc].
Qed.

(** The event is put back for slot [i], which is still polled. *)
Lemma event_again s' o' e : server_inv (put i s' o' ss) -> polled s' -> e_s e = Some i ->
  forall b, server_inv (set_events b (e :: ss_ev ss) (put i s' o' ss)).
Proof using Hev.
  intros H Hp' E b. unfold server_inv. cbn [set_events ss_ev ss_pipe ss_os]. eapply sinv_events; [exact H| |].
  - cbn. rewrite E. constructor; [done|]. apply (g_ev _ _ _ _ H).
  - intros j. cbn. rewrite E. intros [->|Hj]%elem_of_cons.
    + change (slot i (set_events b (e :: ss_ev ss) (put i s' o' ss))) with (slot i (put i s' o' ss)). by rewrite slot_put_eq.
    + by apply (g_event _ _ _ _ H j).
Qed.

Lemma inv_set_events b s' o' : server_inv (put i s' o' ss) -> server_inv (set_events b (ss_ev ss) (put i s' o' ss)).
Proof using. done. Qed.

Lemma forward_tcp_ok r : s_size (slot i ss) < 2 ^ 30 -> exists m s' o', forward_message_tcp r (slot i ss) (ss_os ss) = Ok (m, s', o') /\
  server_inv (put i s' o' ss) /\
  (polled s' \/ exists msg, m = Some msg /\ (m_type msg = SOCKET_CLOSE \/ m_type msg = SOCKET_ERROR)).
Proof using Hi Hp Hev.
  intros Hsz. assert (Hsame : forall n, server_inv (put i (set_size n (slot i ss)) (ss_os ss) ss)) by (intros n; by apply inv_core).
  assert (Hsame' : server_inv (put i (slot i ss) (ss_os ss) ss)) by by apply inv_core.
  unfold forward_message_tcp. destruct r as [l| | |msg].
  - destruct (_ =? 0).
    + destruct (event_close (message 0 0 0 NoData)) as (s' & o' & -> & H & _). cbn [mbind result_bind]. do 3 eexists. split; [done|].
      split; [done|]. right. eexists. split; [done|]. by left.
    + destruct (_ =? SOCKET_TYPE_HALFCLOSE); [do 3 eexists; split; [done|]; split; [done|by left]|].
      set (n := zlen _). assert (next_size (s_size (slot i ss)) n <=? INT_MAX = true) as ->.
      { apply Z.leb_le. unfold next_size, INT_MAX. zcases; cbn; try lia. dlia. }
      cbn [assert_ mbind result_bind]. do 3 eexists. split; [done|]. split; [done|by left].
  - do 3 eexists. split; [done|]. split; [done|by left].
  - do 3 eexists. split; [done|]. split; [done|by left].
  - destruct (event_close (message 0 0 0 NoData)) as (s' & o' & -> & H & _). cbn [mbind result_bind]. do 3 eexists. split; [done|].
    split; [done|]. right. eexists. split; [done|]. by right.
Qed.

Lemma forward_udp_ok r v4 from : exists m s' o', forward_message_udp r v4 from (slot i ss) (ss_os ss) = Ok (m, s', o') /\
  server_inv (put i s' o' ss) /\ (polled s' \/ exists msg, m = Some msg /\ m_type msg = SOCKET_ERROR).
Proof using Hi Hp Hev.
  assert (Hsame' : server_inv (put i (slot i ss) (ss_os ss) ss)) by by apply inv_core.
  unfold forward_message_udp. destruct r as [l| | |msg].
  - destruct (negb _); do 3 eexists; (split; [done|]; split; [done|by left]).
  - do 3 eexists. split; [done|]. split; [done|by left].
  - do 3 eexists. split; [done|]. split; [done|by left].
  - destruct (event_close (message 0 0 0 NoData)) as (s' & o' & -> & H & _). cbn [mbind result_bind]. do 3 eexists. split; [done|].
    split; [done|]. right. by eexists.
Qed.

Lemma report_connect_ok error peer : s_type (slot i ss) = SOCKET_TYPE_CONNECTING ->
  exists m s' o', report_connect error peer (slot i ss) (ss_os ss) = Ok (m, s', o') /\ server_inv (put i s' o' ss).
Proof using Hi Hp Hev.
  intros Ht. unfold report_connect. destruct error as [msg|].
  - destruct (event_close (message 0 0 0 NoData)) as (s' & o' & -> & H & _). by do 3 eexists.
  - assert (Hk : forall o', os_agree (s_fd (slot i ss)) (ss_os ss) o' ->
      slot_ok o' i (set_type SOCKET_TYPE_CONNECTED (slot i ss)) -> server_inv (put i (set_type SOCKET_TYPE_CONNECTED (slot i ss)) o' ss)).
    { intros o' Ha Hok. apply inv_keep; try done. apply Hp. }
    destruct event_slot as [H1 H2 H3 H4 H5 H6 H7 H8]. specialize (H4 (proj1 Hp)). specialize (H6 (proj1 Hp)). specialize (H7 (proj1 Hp)).
    assert (Hid : HASH_ID (s_id (slot i ss)) = i /\ 0 <= s_id (slot i ss) <= INT_MAX) by (apply H3; by rewrite Ht).
    assert (Hopen : s_fd (slot i ss) ∈ os_open (ss_os ss)) by (apply H6; by rewrite Ht).
    change (send_buffer_empty (set_type ?t ?s)) with (send_buffer_empty s).
    destruct (send_buffer_empty (slot i ss)) eqn:Ee.
    + destruct (proj2 H7 Hp) as [b Hb]. unfold sp_write. cbn [s_fd set_type]. rewrite Hb. cbn [deref mbind result_bind].
      do 3 eexists. split; [done|]. apply Hk; [by apply agree_insert|]. constructor; try done; cbn.
      * intros _. by rewrite lookup_insert_eq.
      * unfold send_buffer_empty in Ee. apply andb_true_iff in Ee as [E1%bool_decide_eq_true E2%bool_decide_eq_true].
        rewrite E1, E2. intros [|]; done.
    + cbn [mbind result_bind]. do 3 eexists. split; [done|]. apply Hk; [done|]. constructor; try done; cbn.
      intros _. split; [done|]. intros _. by apply H7.
Qed.
End event.

(** ** Reserving a slot *)

(** [reserve_id] gives up, or returns a new identifier and reserves its slot. *)
Definition reserved (ss : socket_server) (id : Z) (ss' : socket_server) : Prop :=
  0 <= id <= INT_MAX /\ s_type (slot (HASH_ID id) ss) = SOCKET_TYPE_INVALID /\
  exists a, ss' = put (HASH_ID id) (set_reserved id (slot (HASH_ID id) ss)) (ss_os ss) (set_alloc_id a ss).

Lemma next_id_range a : let id := s32 (a + 1) in 0 <= (if id <? 0 then Z.land (u32 id) 0x7fffffff else id) <= INT_MAX.
Proof.
  intros id. assert (- 2 ^ 31 <= id < 2 ^ 31) as Hr.
  { unfold id, s32, swrap. pose proof (Z.mod_pos_bound (a + 1 + 2 ^ (32 - 1)) (2 ^ 32)). lia. }
  unfold INT_MAX. destruct (Z.ltb_spec id 0); [|lia].
  change 0x7fffffff with (Z.ones 31). rewrite Z.land_ones by lia. pose proof (Z.mod_pos_bound (u32 id) (2 ^ 31)).
  change (Z.ones 31) with (2 ^ 31 - 1). lia.
Qed.

Lemma reserve_loop_spec fuel : forall ss, let '(id, ss') := reserve_loop fuel ss in
  (id = -1 /\ exists a, ss' = set_alloc_id a ss) \/ reserved ss id ss'.
Proof.
  induction fuel as [|fuel IH]; intros ss; cbn [reserve_loop].
  - left. split; [done|]. exists (ss_alloc_id ss). by destruct ss.
  - destruct (reserve_try ss) as [o ss1] eqn:E. unfold reserve_try in E. cbv zeta in E.
    pose proof (next_id_range (ss_alloc_id ss)) as Hr. cbv zeta in Hr. set (id := if _ <? 0 then _ else _) in *. clearbody id.
    change (slot (HASH_ID id) (set_alloc_id id ss)) with (slot (HASH_ID id) ss) in E.
    destruct (Z.eqb_spec (s_type (slot (HASH_ID id) ss)) SOCKET_TYPE_INVALID) as [Et|Et]; injection E as <- <-.
    + right. split; [done|]. split; [done|]. by exists id.
    + specialize (IH (set_alloc_id id ss)). destruct (reserve_loop fuel _) as [id' ss'].
      destruct IH as [(-> & a & ->)|(H1 & H2 & a & ->)].
      * left. split; [done|]. by exists a.
      * right. split; [done|]. split; [done|]. by exists a.
Qed.

Lemma reserve_id_spec ss : let '(id, ss') := reserve_id ss in (id = -1 /\ exists a, ss' = set_alloc_id a ss) \/ reserved ss id ss'.
Proof. apply reserve_loop_spec. Qed.

Lemma inv_alloc a ss : server_inv ss -> server_inv (set_alloc_id a ss).
Proof. done. Qed.

(** A new descriptor that the server does not keep. *)
Lemma new_then_close fd ss a : server_inv ss -> fresh_fd fd ss ->
  exists o, os_close fd (os_new fd (ss_os ss)) = Ok o /\ server_inv (set_os o (set_alloc_id a (set_os (os_new fd (ss_os ss)) ss))).
Proof.
  intros Hi [Hf _]. rewrite os_close_open by (cbn; set_solver). eexists. split; [done|].
  unfold server_inv. cbn. eapply sinv_os; [exact Hi| |done]. cbn. set_solver.
Qed.

(** The slot is reserved and the command of the socket is sent. *)
Lemma inv_reserve ss id ss' o F cmd : server_inv ss -> reserved (set_os o ss) id ss' ->
  command_id cmd = Some id -> command_fd cmd = F ->
  (F = None /\ o = ss_os ss \/ exists fd, F = Some fd /\ fresh_fd fd ss /\ o = os_new fd (ss_os ss)) ->
  server_inv (send_request cmd ss').
Proof.
  intros Hi (Hid & Ht & a & ->) Hcid Hcfd Ho. unfold server_inv. cbn [send_request set_pipe put set_alloc_id ss_pipe ss_ev ss_os].
  change (slot (HASH_ID id) (set_os o ss)) with (slots ss (HASH_ID id)) in *.
  eapply (sinv_ext _ _ (upd (HASH_ID id) (set_reserved id (slots ss (HASH_ID id))) (slots ss))).
  { intros j. exact (slot_put (HASH_ID id) _ o (set_alloc_id a (set_os o ss)) j). }
  apply (sinv_reserve cmd _ _ _ (ss_os ss) id _ F); try done.
  - destruct Ho as [[-> ->]|(fd & -> & Hf & ->)]; intros x Hx; [done|]. cbn. split; [|done].
    assert (x <> fd) by congruence. set_solver.
  - intros fd ->. destruct Ho as [[E _]|(fd' & [= <-] & [Hf1 Hf2] & ->)]; [done|]. split; [exact Hf2|]. split; [done|].
    cbn. split; [set_solver|done].
Qed.

(** ** Accepting *)

Lemma report_accept_ok r s ss : server_inv ss -> (forall fd peer, r = AFd fd peer -> fresh_fd fd ss) -> handled (report_accept r s ss).
Proof.
  intros Hi Hf. unfold report_accept. destruct r as [msg| |fd peer]; [by do 2 eexists|by do 2 eexists|]. specialize (Hf fd peer eq_refl).
  set (ss1 := set_os (os_new fd (ss_os ss)) ss). pose proof (reserve_id_spec ss1) as Hr. destruct (reserve_id ss1) as [id ss2].
  destruct Hr as [(-> & a & ->)|(Hid & Ht & a & ->)].
  - cbn [Z.ltb Z.compare]. destruct (new_then_close fd ss a Hi Hf) as (o & E & Ho). cbn [ss_os set_alloc_id set_os ss1] in *. rewrite E.
    cbn [mbind result_bind]. by do 2 eexists.
  - destruct (Z.ltb_spec id 0); [lia|]. set (i := HASH_ID id) in *. change (slot i ss1) with (slot i ss) in *.
    pose proof (g_slot _ _ _ _ Hi i) as Hok. cbn beta in Hok.
    destruct (sk_empty _ _ _ Hok) as [Eh El]; [unfold sender; by rewrite Ht|].
    rewrite new_fd_reserved; rewrite ?slot_put_eq; try done. cbn [mbind result_bind]. do 2 eexists. split; [done|].
    apply inv_put_put. cbn [ss_os put ss_pipe ss_ev set_alloc_id set_os ss1].
    set (s' := set_type _ _). eapply (sinv_ext _ _ (upd i s' (slots ss))).
    { intros j. destruct (decide (j = i)) as [->|Hne]; [by rewrite !slot_upd_same|]. rewrite !slot_upd_other by done.
      unfold slots. rewrite slot_put. by apply slot_upd_other. }
    assert (os_poll (ss_os ss) !! fd = None) as Hpo.
    { apply eq_None_not_Some. intros Hs. destruct (g_poll _ _ _ _ Hi fd Hs) as (j & [Hl _] & Ej). by apply (proj2 Hf j). }
    apply (sinv_set _ _ (slots ss) (ss_os ss) i s' _ fd); try done.
    + intros x Hx. cbn. set_solver.
    + unfold slots. by rewrite Ht.
    + intros j _. apply Hf.
    + intros Hin. by apply (proj1 Hf), (g_given _ _ _ _ Hi).
    + intros [Hl _]. unfold slots in Hl. by rewrite Ht in Hl.
    + apply (new_slot_ok _ id fd _ (s_opaque s) _ SOCKET_TYPE_PACCEPT); try done; cbn; [set_solver|].
      intros _. rewrite Hpo. split; [by intros [? ?]|]. by intros (_ & H1 & _).
    + cbn. rewrite Hpo. by intros [? ?].
    + intros Hin. destruct (g_event _ _ _ _ Hi i Hin) as [[Hl _] _]. unfold slots in *. cbn beta in Hl. by rewrite Ht in Hl.
Qed.

(** ** The loop *)

Lemma dispatch_event_ok ea i e ss : server_inv ss -> polled (slot i ss) -> i ∉ omap e_s (ss_ev ss) -> e_s e = Some i ->
  (forall fd peer, ea_accept ea = AFd fd peer -> fresh_fd fd ss) -> s_size (slot i ss) < 2 ^ 30 ->
  handled (dispatch_event ea i e (ss_ev ss) ss).
Proof.
  intros Hi Hp Hev He Hf Hsz. unfold dispatch_event. set (s := slot i ss) in *.
  destruct (Z.eqb_spec (s_type s) SOCKET_TYPE_CONNECTING) as [Ec|Ec].
  { destruct (report_connect_ok ss i Hi Hp Hev (ea_error ea) (ea_peer ea) Ec) as (m & s' & o' & E & H). fold s in E. rewrite E. by do 2 eexists. }
  destruct (Z.eqb_spec (s_type s) SOCKET_TYPE_LISTEN); [by apply report_accept_ok|].
  destruct (Z.eqb_spec (s_type s) SOCKET_TYPE_INVALID); [by do 2 eexists|].
  destruct (e_read e).
  - destruct (s_protocol s =? PROTOCOL_TCP).
    + destruct (forward_tcp_ok ss i Hi Hp Hev (ea_read ea) Hsz) as (m & s' & o' & E & H & Hc). fold s in E. rewrite E. cbn [mbind result_bind].
      do 2 eexists. split; [done|]. destruct (_ && _) eqn:Ea; [|by apply inv_set_events].
      apply event_again; try done. destruct Hc as [Hc|(msg & -> & Hm)]; [done|].
      apply andb_true_iff in Ea as [_ Ea]. by destruct Hm as [Hm|Hm]; rewrite Hm in Ea.
    + destruct (forward_udp_ok ss i Hi Hp Hev (ea_read ea) (ea_from_v4 ea) (ea_from ea)) as (m & s' & o' & E & H & Hc). fold s in E. rewrite E.
      cbn [mbind result_bind]. do 2 eexists. split; [done|]. destruct m as [m|].
      * destruct (Z.eqb_spec (m_type m) SOCKET_UDP) as [Eu|Eu].
        -- apply event_again; try done. destruct Hc as [Hc|(msg & [= <-] & Hm)]; [done|by rewrite Eu in Hm].
        -- destruct (_ && _) eqn:Ea; [|by apply inv_set_events]. apply event_again; try done.
           destruct Hc as [Hc|(msg & [= <-] & Hm)]; [done|]. apply andb_true_iff in Ea as [_ Ea]. by rewrite Hm in Ea.
      * destruct (e_write e); [|by apply inv_set_events]. apply event_again; try done. by destruct Hc as [Hc|(msg & ? & Hm)].
  - destruct (e_write e); [|by do 2 eexists].
    pose proof (event_slot ss i Hi) as Hok. fold s in Hok.
    destruct (send_buffer_ok (ea_high ea) (ea_low ea) i s (ss_os ss) Hok Hp) as (r & s' & o' & -> & Hr). cbn [mbind result_bind].
    do 2 eexists. split; [done|]. destruct r as [t|].
    + destruct Hr as [_ Hcl]. eapply (inv_closed ss i s); try done; [apply Hp|apply Hcl].
    + destruct Hr as (Hok1 & Et1 & Ef1 & Ei1 & Ha & _). apply inv_keep; try done.
      * apply Hp.
      * unfold live. rewrite Et1. apply Hp.
      * by rewrite Et1.
      * intros _. unfold polled, live. rewrite Et1. apply Hp.
Qed.

Lemma poll_round_ok an wait ea ss : server_inv ss -> input_ok (InRound an wait ea) ss ->
  exists r ss', poll_round an wait ea ss = Ok (r, ss') /\ server_inv ss'.
Proof.
  intros Hi (Hc & Hw & Hf & Hsz). unfold poll_round. destruct (_ && _) eqn:Ectrl.
  - apply andb_true_iff in Ectrl as [_ Ep]. apply negb_true_iff, bool_decide_eq_false in Ep.
    destruct (ss_pipe ss) as [|cmd pipe] eqn:E; [done|].
    destruct (ctrl_cmd_ok an cmd pipe ss Hi E Hc) as (m & ss' & -> & Hpost). cbn [mbind result_bind].
    destruct m as [m|].
    + do 2 eexists. split; [done|]. apply (clear_closed_ok (set_pipe pipe ss) m ss'); [apply (g_ev _ _ _ _ Hi)|apply (g_event _ _ _ _ Hi)|done].
    + destruct Hpost as (_ & _ & [H|(msg & i & ? & _)]); [by do 2 eexists|done].
  - cbv zeta. set (ss2 := match ss_ev (set_events false (ss_ev ss) ss) with [] => _ | _ => _ end).
    assert (server_inv ss2 /\ (forall j, slot j ss2 = slot j ss) /\ ss_os ss2 = ss_os ss) as (Hi2 & Hs2 & Ho2).
    { subst ss2. cbn [set_events ss_ev]. destruct (ss_ev ss) eqn:E; [|by unfold server_inv in *; cbn; rewrite E in Hi]. split; [|done].
      unfold server_inv. cbn [set_events ss_ev ss_pipe ss_os]. eapply sinv_events; [exact Hi|apply Hw|apply Hw]. }
    clearbody ss2. destruct (ss_ev ss2) as [|e ev] eqn:Ev; [by do 2 eexists|].
    unfold server_inv in Hi2. rewrite Ev in Hi2.
    assert (Hev : NoDup (omap e_s (e :: ev)) /\ forall j, j ∈ omap e_s (e :: ev) -> polled (slot j ss2)) by (split; apply Hi2).
    destruct Hev as [Hn Hpl]. cbn in Hn, Hpl.
    set (ss3 := set_events (ss_checkctrl ss2) ev ss2).
    destruct (e_s e) as [i|] eqn:Ee.
    + apply NoDup_cons in Hn as [Hni Hn].
      assert (server_inv ss3) as Hi3.
      { unfold server_inv. cbn [ss3 set_events ss_ev ss_pipe ss_os]. eapply sinv_events; [exact Hi2|done|].
        intros j Hj. apply Hpl. by apply list_elem_of_further. }
      destruct (dispatch_event_ok ea i e ss3 Hi3) as (m & ss' & E & H); try done.
      * apply Hpl, list_elem_of_here.
      * intros fd peer Hfd. destruct (Hf fd peer Hfd) as [F1 F2]. unfold fresh_fd. cbn [ss3 set_events ss_os].
        rewrite Ho2. split; [done|]. intros j. change (slot j ss3) with (slot j ss2). rewrite Hs2. apply F2.
      * change (slot i ss3) with (slot i ss2). rewrite Hs2. apply Hsz.
      * change (ss_ev ss3) with ev in E. rewrite E. cbn [mbind result_bind]. by do 2 eexists.
    + do 2 eexists. split; [done|]. unfold server_inv. cbn [ss3 set_events ss_ev ss_pipe ss_os].
      eapply sinv_events; [exact Hi2|done|]. intros j Hj. by apply Hpl.
Qed.

(** ** Calls of other threads *)

(** A command that creates no socket enters the pipe. *)
Lemma inv_request cmd ss : server_inv ss -> command_id cmd = None -> command_fd cmd = None -> server_inv (send_request cmd ss).
Proof.
  intros Hi E1 E2. unfold server_inv. cbn [send_request set_pipe ss_pipe ss_ev ss_os].
  eapply sinv_pipe; [exact Hi|..]; rewrite omap_app; cbn; rewrite ?E1, ?E2; apply app_nil_r.
Qed.

(** A new descriptor is handed to the server with its command, or closed. *)
Lemma inv_create_fd fd ss cmd : server_inv ss -> fresh_fd fd ss -> (forall id, command_id (cmd id) = Some id /\ command_fd (cmd id) = Some fd) ->
  forall (r : Z -> Z), exists k ss', (let ss := set_os (os_new fd (ss_os ss)) ss in
    let '(id, ss) := reserve_id ss in
    if id <? 0 then o ← os_close fd (ss_os ss); Ok (r id, set_os o ss) else Ok (id, send_request (cmd id) ss)) = Ok (k, ss') /\ server_inv ss'.
Proof.
  intros Hi Hf Hcmd r. cbv zeta. set (ss1 := set_os (os_new fd (ss_os ss)) ss). pose proof (reserve_id_spec ss1) as Hr.
  destruct (reserve_id ss1) as [id ss2]. destruct Hr as [(-> & a & ->)|Hr].
  - cbn [Z.ltb Z.compare]. destruct (new_then_close fd ss a Hi Hf) as (o & E & Ho). cbn [ss_os set_alloc_id set_os ss1]. rewrite E.
    cbn [mbind result_bind]. by do 2 eexists.
  - destruct (Z.ltb_spec id 0); [by destruct Hr as [[? _] _]; lia|]. do 2 eexists. split; [done|].
    apply (inv_reserve ss id ss2 (os_new fd (ss_os ss)) (Some fd)); try done; [apply Hcmd..|]. right. by exists fd.
Qed.

Lemma inv_create_socket ss cmd : server_inv ss -> (forall id, command_id (cmd id) = Some id /\ command_fd (cmd id) = None) ->
  server_inv (snd (let '(id, ss) := reserve_id ss in if id <? 0 then (-1, ss) else (id, send_request (cmd id) ss))).
Proof.
  intros Hi Hcmd. pose proof (reserve_id_spec ss) as Hr. destruct (reserve_id ss) as [id ss2]. destruct Hr as [(-> & a & ->)|Hr].
  - cbn. by apply inv_alloc.
  - destruct (Z.ltb_spec id 0); [by destruct Hr as [[? _] _]; lia|]. cbn [snd].
    apply (inv_reserve ss id ss2 (ss_os ss) None); try done; [apply Hcmd..|by left].
Qed.

Lemma udp_send_ok r address ss : server_inv ss -> input_ok (InUdpSend r address) ss ->
  exists k ss', socket_server_udp_send r address ss = Ok (k, ss') /\ server_inv ss'.
Proof.
  intros Hi Hlen. unfold socket_server_udp_send. cbn in Hlen. destruct (_ || _); [do 2 eexists; split; [done|by apply inv_free]|].
  destruct address as [|type address]; [vm_compute in Hlen; done|]. change (zget (type :: address) 0) with (Ok type). cbn [mbind result_bind hd] in *.
  destruct (_ || _); [|do 2 eexists; split; [done|by apply inv_free]].
  rewrite slice_Ok by (destruct (type =? PROTOCOL_UDP); lia). cbn [mbind result_bind]. do 2 eexists. split; [done|]. by apply inv_request.
Qed.

Lemma run_input_ok inp ss : server_inv ss -> input_ok inp ss -> handled (run_input inp ss).
Proof.
  intros Hi Hok. destruct inp; unfold handled, run_input.
  - destruct (poll_round_ok an wait ea ss Hi Hok) as (r & ss' & -> & H). cbn [mbind result_bind]. by do 2 eexists.
  - do 2 eexists. split; [done|]. unfold socket_server_connect. destruct (_ <=? _); [done|].
    by apply (inv_create_socket ss (fun id => CmdO id port opaque addr)).
  - do 2 eexists. split; [done|]. unfold socket_server_send. destruct (_ || _); [by apply inv_free|].
    destruct high; by apply inv_request.
  - destruct (udp_send_ok r address ss Hi Hok) as (k & ss' & -> & H). cbn [mbind result_bind]. by do 2 eexists.
  - do 2 eexists. split; [done|]. by apply inv_request.
  - do 2 eexists. split; [done|]. by apply inv_request.
  - do 2 eexists. split; [done|]. by apply inv_request.
  - do 2 eexists. split; [done|]. by apply inv_request.
  - do 2 eexists. split; [done|]. by apply inv_request.
  - do 2 eexists. split; [done|]. by apply inv_request.
  - destruct fd as [fd|]; [|by do 2 eexists]. unfold socket_server_listen. cbn in Hok.
    destruct (inv_create_fd fd ss (fun id => CmdL id fd opaque) Hi Hok ltac:(done) (fun id => id)) as (k & ss' & E & H).
    cbv beta zeta in E |- *. rewrite E. cbn [mbind result_bind]. by do 2 eexists.
  - do 2 eexists. split; [done|]. by apply (inv_create_socket ss (fun id => CmdB id fd opaque)).
  - destruct fd as [fd|]; [|by do 2 eexists]. cbn in Hok.
    destruct (inv_create_fd fd ss (fun id => CmdU id fd opaque inet6) Hi Hok ltac:(done) (fun _ => -1)) as (k & ss' & E & H).
    unfold socket_server_udp. cbv beta zeta in E |- *. rewrite E. cbn [mbind result_bind]. by do 2 eexists.
Qed.

(** ** Histories *)

Lemma create_inv soi : server_inv (socket_server_create soi).
Proof.
  assert (H : forall i, slot i (socket_server_create soi) = empty_socket) by done.
  constructor; cbn.
  - intros i. rewrite H. by apply closed_slot_ok.
  - intros i. by rewrite H.
  - intros i j. rewrite H. by intros [E _].
  - intros fd Hfd. by apply not_elem_of_empty in Hfd.
  - intros fd. rewrite lookup_empty. by intros [? ?].
  - constructor.
  - intros fd Hfd. by apply not_elem_of_nil in Hfd.
  - constructor.
  - intros id Hid. by apply not_elem_of_nil in Hid.
  - intros i. by rewrite H.
  - constructor.
  - intros i Hi. by apply not_elem_of_nil in Hi.
Qed.

Lemma run_inputs_inv inps ss ss' : run_inputs inps ss ss' -> server_inv ss -> server_inv ss'.
Proof.
  induction 1 as [|inp inps ss m ss1 ss2 Hok Hrun _ IH]; [done|]. intros Hi. apply IH.
  destruct (run_input_ok inp ss Hi Hok) as (m' & ss' & E & H). congruence.
Qed.

(** The descriptors of the commands on their way. *)
Definition waiting_fds (ss : socket_server) : list Z := omap command_fd (ss_pipe ss).

(** The descriptors of the server: every open one belongs to one socket or to
    one command on its way, a closed socket keeps none. *)
Definition descriptors_owned (ss : socket_server) : Prop :=
  (forall fd, fd ∈ os_open (ss_os ss) <->
     (exists i, owner (slot i ss) /\ s_fd (slot i ss) = fd) \/ fd ∈ waiting_fds ss) /\
  (forall i j, live (slot i ss) -> live (slot j ss) -> s_fd (slot i ss) = s_fd (slot j ss) -> i = j) /\
  (forall i, live (slot i ss) -> s_fd (slot i ss) ∉ waiting_fds ss) /\
  NoDup (waiting_fds ss).

(** The poll set is that of the started sockets, the pending events are events
    of these, and what is left to send is counted and polled for. *)
Definition polled_exactly (ss : socket_server) : Prop :=
  (forall fd, is_Some (os_poll (ss_os ss) !! fd) <-> exists i, polled (slot i ss) /\ s_fd (slot i ss) = fd) /\
  (forall i, i ∈ omap e_s (ss_ev ss) -> polled (slot i ss)) /\
  (forall i, live (slot i ss) ->
     s_wb_size (slot i ss) = zlen (bytes_of (s_high (slot i ss))) + zlen (bytes_of (s_low (slot i ss)))) /\
  (forall i, s_high (slot i ss) <> [] \/ s_low (slot i ss) <> [] -> os_poll (ss_os ss) !! s_fd (slot i ss) = Some true).

Lemma inv_descriptors ss : server_inv ss -> descriptors_owned ss.
Proof.
  intros Hi. split_and!.
  - intros fd. split; [apply (g_open _ _ _ _ Hi)|]. intros [(i & [Hl Hb] & <-)|Hin]; [|by apply (g_given _ _ _ _ Hi)].
    by apply (sk_open _ _ _ (g_slot _ _ _ _ Hi i) Hl).
  - intros i j. apply (g_fd _ _ _ _ Hi).
  - intros i Hl Hin. destruct (g_given _ _ _ _ Hi _ Hin) as [_ H]. by apply (H i).
  - apply (g_pipefd _ _ _ _ Hi).
Qed.

Lemma inv_polled ss : server_inv ss -> polled_exactly ss.
Proof.
  intros Hi. split_and!.
  - intros fd. split; [apply (g_poll _ _ _ _ Hi)|]. intros (i & Hp & <-).
    by apply (sk_poll _ _ _ (g_slot _ _ _ _ Hi i) (proj1 Hp)).
  - apply (g_event _ _ _ _ Hi).
  - intros i. apply (sk_size _ _ _ (g_slot _ _ _ _ Hi i)).
  - intros i. apply (sk_write _ _ _ (g_slot _ _ _ _ Hi i)).
Qed.

(** ** Checking a concrete history *)

#[export] Instance live_dec s : Decision (live s).
Proof. unfold live. apply _. Defined.
#[export] Instance polled_dec s : Decision (polled s).
Proof. unfold polled. apply _. Defined.

Lemma slots_forall (P : socket -> Prop) `{!forall s, Decision (P s)} ss :
  bool_decide (P empty_socket) && bool_decide (map_Forall (fun _ s => P s) (ss_slot ss)) = true -> forall i, P (slot i ss).
Proof.
  intros [H1%bool_decide_eq_true H2%bool_decide_eq_true]%andb_true_iff i. unfold slot.
  destruct (ss_slot ss !! i) eqn:E; [exact (H2 i _ E)|done].
Qed.

Definition fresh_fd_b (fd : Z) (ss : socket_server) : bool :=
  bool_decide (fd ∉ os_open (ss_os ss)) &&
  (bool_decide (live empty_socket -> s_fd empty_socket <> fd) && bool_decide (map_Forall (fun _ s => live s -> s_fd s <> fd) (ss_slot ss))).

Lemma fresh_fd_check fd ss : fresh_fd_b fd ss = true -> fresh_fd fd ss.
Proof.
  intros [H1%bool_decide_eq_true H2]%andb_true_iff. split; [done|].
  by apply (slots_forall (fun s => live s -> s_fd s <> fd)).
Qed.

Definition plain_send_b (r : request_send) (ss : socket_server) : bool :=
  let s := slot (HASH_ID (rs_id r)) ss in
  (zlen (rs_data r) =? rs_sz r) && negb (s_type s =? SOCKET_TYPE_BIND) && (negb (s_type s =? SOCKET_TYPE_RESERVE) || negb (s_id s =? rs_id r)).

Lemma neqb_true x y : negb (x =? y) = true <-> x <> y.
Proof. by rewrite negb_true_iff, Z.eqb_neq. Qed.

Lemma plain_send_check r ss : plain_send_b r ss = true -> plain_send r ss.
Proof.
  unfold plain_send_b, plain_send. rewrite !andb_true_iff, orb_true_iff, !neqb_true, Z.eqb_eq. naive_solver.
Qed.

Definition command_ok_b (an : answers) (cmd : command) (ss : socket_server) : bool :=
  match cmd with
  | CmdB _ fd _ => fresh_fd_b fd ss
  | CmdO _ _ _ _ => match an_open an with OSock fd _ _ => fresh_fd_b fd ss | OFail _ => true end
  | CmdD r | CmdP r | CmdA r _ => plain_send_b r ss
  | CmdC _ address => zlen address =? if hd 0 address =? PROTOCOL_UDP then 7 else 19
  | CmdK id _ _ => negb (s_type (slot (HASH_ID id) ss) =? SOCKET_TYPE_RESERVE) || negb (s_id (slot (HASH_ID id) ss) =? id)
  | _ => true
  end.

Lemma command_check an cmd ss : command_ok_b an cmd ss = true -> command_ok an cmd ss.
Proof.
  destruct cmd; cbn; try done; try apply fresh_fd_check; try apply plain_send_check.
  - by rewrite orb_true_iff, !neqb_true.
  - destruct (an_open an); [done|apply fresh_fd_check].
  - by intros ?%Z.eqb_eq.
Qed.

Definition input_ok_b (inp : input) (ss : socket_server) : bool :=
  match inp with
  | InRound an wait ea =>
      match ss_pipe ss with cmd :: _ => command_ok_b an cmd ss | [] => true end &&
      (bool_decide (NoDup (omap e_s wait)) && bool_decide (Forall (fun i => polled (slot i ss)) (omap e_s wait))) &&
      match ea_accept ea with AFd fd _ => fresh_fd_b fd ss | _ => true end &&
      (bool_decide (s_size empty_socket < 2 ^ 30) && bool_decide (map_Forall (fun _ s => s_size s < 2 ^ 30) (ss_slot ss)))
  | InListen _ (Some fd) | InUdp _ (Some fd) _ => fresh_fd_b fd ss
  | InUdpSend _ address => zlen address =? if hd 0 address =? PROTOCOL_UDP then 7 else 19
  | _ => true
  end.

Lemma input_check inp ss : input_ok_b inp ss = true -> input_ok inp ss.
Proof.
  destruct inp; cbn [input_ok_b input_ok]; try done.
  - intros [[[Hc [Hn%bool_decide_eq_true Hp%bool_decide_eq_true]%andb_true_iff]%andb_true_iff Ha]%andb_true_iff Hs]%andb_true_iff.
    split_and!.
    + destruct (ss_pipe ss); [done|by apply command_check].
    + split; [done|]. by apply Forall_forall.
    + intros fd peer E. rewrite E in Ha. by apply fresh_fd_check.
    + exact (slots_forall (fun s => s_size s < 2 ^ 30) ss Hs).
  - by intros ?%Z.eqb_eq.
  - destruct fd; [apply fresh_fd_check|done].
  - destruct fd; [apply fresh_fd_check|done].
Qed.

Fixpoint run_list (inps : list input) (ss : socket_server) : option socket_server :=
  match inps with
  | [] => Some ss
  | inp :: inps =>
      if input_ok_b inp ss then match run_input inp ss with Ok (_, ss) => run_list inps ss | _ => None end else None
  end.

Lemma run_list_run inps : forall ss ss', run_list inps ss = Some ss' -> run_inputs inps ss ss'.
Proof.
  induction inps as [|inp inps IH]; intros ss ss'; cbn [run_list]; [intros [= <-]; constructor|].
  destruct (input_ok_b inp ss) eqn:Eok; [|done]. destruct (run_input inp ss) as [[m ss1]| |] eqn:Erun; [|done..]. intros H.
  eapply run_cons; [by apply input_check|exact Erun|by apply IH].
Qed.

(** ** Properties *)

(** C7. Whatever commands, events and calls of other threads have happened
    since [socket_server_create], in any order and with any results of the
    system calls, the next one completes: no assertion of socket_server.c
    fails, nothing is closed or unregistered twice. Afterwards every open
    descriptor belongs to exactly one live socket that is not a bound one, or to
    one command still in the pipe, and a closed socket keeps none. *)
Theorem socket_server_safe soi inps ss inp : run_inputs inps (socket_server_create soi) ss -> input_ok inp ss ->
  exists m ss', run_input inp ss = Ok (m, ss') /\ descriptors_owned ss'.
Proof.
  intros Hrun Hok. destruct (run_input_ok inp ss (run_inputs_inv _ _ _ Hrun (create_inv soi)) Hok) as (m & ss' & E & Hi).
  exists m, ss'. split; [done|]. by apply inv_descriptors.
Qed.

(** C8. In every history the poll set is exactly the descriptors of the started
    sockets, an event still to be handled belongs to one of them (the events of
    a socket closed in the same batch are gone), [wb_size] is the number of
    bytes waiting, and a socket with bytes waiting is polled for writing, so
    that what was accepted cannot be forgotten. *)
Theorem pending_data_polled soi inps ss : run_inputs inps (socket_server_create soi) ss -> polled_exactly ss.
Proof. intros Hrun. apply inv_polled. eapply run_inputs_inv; [exact Hrun|apply create_inv]. Qed.

(** ** Identifiers *)

Definition free_slot (i : Z) (ss : socket_server) : Prop := s_type (slot i ss) = SOCKET_TYPE_INVALID.

Lemma next_id_hash a : HASH_ID (let id := s32 (a + 1) in if id <? 0 then Z.land (u32 id) 0x7fffffff else id) = (a + 1) mod MAX_SOCKET.
Proof.
  cbv zeta. unfold HASH_ID. change MAX_SOCKET with (2 ^ 16). change 0x7fffffff with (Z.ones 31). rewrite Z.land_ones by lia.
  unfold u32, wrap, s32, swrap. change (2 ^ (32 - 1)) with (2 ^ 31). set (x := a + 1).
  destruct (_ <? 0); Z.to_euclidean_division_equations; lia.
Qed.

Lemma reserve_loop_finds fuel : forall ss k, (k < fuel)%nat -> 
  s_type (slot ((ss_alloc_id ss + 1 + Z.of_nat k) mod MAX_SOCKET) ss) = SOCKET_TYPE_INVALID -> 0 <= fst (reserve_loop fuel ss).
Proof.
  induction fuel as [|fuel IH]; intros ss k Hk Ht; [lia|]. cbn [reserve_loop].
  destruct (reserve_try ss) as [o ss1] eqn:E. unfold reserve_try in E. cbv zeta in E.
  pose proof (next_id_range (ss_alloc_id ss)) as Hr. pose proof (next_id_hash (ss_alloc_id ss)) as Hh. cbv zeta in Hr, Hh.
  set (id := if _ <? 0 then _ else _) in *. clearbody id.
  change (slot (HASH_ID id) (set_alloc_id id ss)) with (slot (HASH_ID id) ss) in E.
  destruct (Z.eqb_spec (s_type (slot (HASH_ID id) ss)) SOCKET_TYPE_INVALID) as [Et|Et]; injection E as <- <-; [apply Hr|].
  destruct k as [|k].
  { destruct Et. rewrite Hh. by rewrite Z.add_0_r in Ht. }
  apply (IH _ k); [lia|]. cbn [set_alloc_id ss_alloc_id]. change (slot ?i (set_alloc_id id ss)) with (slot i ss). rewrite <- Ht. do 2 f_equal.
  assert (id mod MAX_SOCKET = (ss_alloc_id ss + 1) mod MAX_SOCKET) as Hm.
  { rewrite <- Hh. unfold HASH_ID, u32, wrap. change MAX_SOCKET with (2 ^ 16). dlia. }
  replace (id + 1 + Z.of_nat k) with (id + (1 + Z.of_nat k)) by lia.
  rewrite <- Zplus_mod_idemp_l, Hm, Zplus_mod_idemp_l. f_equal. lia.
Qed.

(** C39. [reserve_id] gives up only when all 65536 slots are in use, although it
    stops after 65536 attempts and its counter wraps around at 2^31: an
    identifier that is returned is not negative, its slot was free and is now
    reserved for it. *)
Theorem reserve_id_complete ss : let '(id, ss') := reserve_id ss in
  (id = -1 <-> forall i, 0 <= i < MAX_SOCKET -> ~ free_slot i ss) /\
  (id <> -1 -> 0 <= id <= INT_MAX /\ free_slot (HASH_ID id) ss /\
     slot (HASH_ID id) ss' = set_reserved id (slot (HASH_ID id) ss)).
Proof.
  pose proof (reserve_id_spec ss) as Hs. destruct (reserve_id ss) as [id ss'] eqn:E. split.
  - split.
    + intros -> i Hi Ht. set (k := (i - ss_alloc_id ss - 1) mod MAX_SOCKET).
      assert (0 <= fst (reserve_id ss)) as H.
      { apply (reserve_loop_finds _ ss (Z.to_nat k)).
        - apply Z2Nat.inj_lt; subst k; pose proof (Z.mod_pos_bound (i - ss_alloc_id ss - 1) MAX_SOCKET); unfold MAX_SOCKET in *; cbn in *; lia.
        - rewrite Z2Nat.id by (apply Z.mod_pos_bound; done). unfold k. rewrite Zplus_mod_idemp_r.
          replace (ss_alloc_id ss + 1 + (i - ss_alloc_id ss - 1)) with i by lia. by rewrite Z.mod_small. }
      rewrite E in H. cbn in H. lia.
    + intros Hall. destruct Hs as [[-> _]|(Hid & Ht & _)]; [done|]. destruct (Hall (HASH_ID id)); [|done].
      apply Z.mod_pos_bound. done.
  - intros Hne. destruct Hs as [[-> _]|(Hid & Ht & a & ->)]; [done|]. split; [done|]. split; [done|]. apply slot_put_eq.
Qed.

(** ** Release *)

Definition dropped (ss : socket_server) : Prop := sinv (ss_pipe ss) [] (slots ss) (ss_os ss).

Lemma release_loop_ok n : forall i ss, dropped ss -> (forall j, live (slot j ss) -> i <= j < i + Z.of_nat n) ->
  exists ss', release_loop n i ss = Ok ss' /\ dropped ss' /\ ss_pipe ss' = ss_pipe ss /\ forall j, ~ live (slot j ss').
Proof.
  induction n as [|n IH]; intros i ss Hi Hl; cbn [release_loop].
  { exists ss. split_and!; try done. intros j Hj. specialize (Hl j Hj). lia. }
  assert (Hstep : exists ss1, (if negb (s_type (slot i ss) =? SOCKET_TYPE_RESERVE)
      then '(s, o) ← force_close (slot i ss) (ss_os ss); Ok (put i s o ss) else Ok ss) = Ok ss1 /\
    dropped ss1 /\ ss_pipe ss1 = ss_pipe ss /\ forall j, live (slot j ss1) -> live (slot j ss) /\ j <> i).
  { destruct (Z.eqb_spec (s_type (slot i ss)) SOCKET_TYPE_RESERVE) as [E|E]; cbn [negb].
    { exists ss. split_and!; try done. intros j Hj. split; [done|]. intros ->. by destruct Hj. }
    destruct (decide (live (slot i ss))) as [Hli|Hn].
    - destruct (force_close_ok (slot i ss) (ss_os ss)) as (s' & o' & -> & Hc); [eapply slot_closable; [exact (g_slot _ _ _ _ Hi i)|done]|].
      cbn [mbind result_bind]. eexists. split; [done|]. split; [|split; [done|]].
      + apply inv_put. eapply (sinv_closed _ _ (slots ss) (ss_os ss) i (slot i ss)); try done. apply not_elem_of_nil.
      + intros j. destruct (decide (j = i)) as [->|Hne].
        * rewrite slot_put_eq. intros [Hx _]. destruct Hc as [[Hc _] _ _ _ _]. by rewrite Hc in Hx.
        * rewrite slot_put, slot_upd_other by done. done.
    - unfold force_close. assert (s_type (slot i ss) = SOCKET_TYPE_INVALID) as Et.
      { destruct (decide (s_type (slot i ss) = SOCKET_TYPE_INVALID)); [done|]. by destruct Hn. }
      rewrite Et. cbn [Z.eqb SOCKET_TYPE_INVALID mbind result_bind]. eexists. split; [done|]. split; [|split; [done|]].
      + by apply (inv_core (set_events (ss_checkctrl ss) [] ss) i).
      + intros j Hj. destruct (decide (j = i)) as [->|Hne]; [by rewrite slot_put_eq in Hj|]. rewrite slot_put, slot_upd_other in Hj by done. done. }
  destruct Hstep as (ss1 & -> & Hi1 & Ep & Hl1). cbn [mbind result_bind].
  destruct (IH (i + 1) ss1 Hi1) as (ss' & -> & H1 & H2 & H3).
  { intros j Hj. destruct (Hl1 j Hj) as [Hj' Hne]. specialize (Hl j Hj'). lia. }
  exists ss'. split_and!; try done. congruence.
Qed.

(** After any history [socket_server_release] completes, and the only
    descriptors that stay open are those of the commands nobody executed any
    more: those of every socket were closed, each once. *)
Theorem release_closes_all soi inps ss : run_inputs inps (socket_server_create soi) ss ->
  exists ss', socket_server_release ss = Ok ss' /\ forall fd, fd ∈ os_open (ss_os ss') <-> fd ∈ waiting_fds ss.
Proof.
  intros Hrun. pose proof (run_inputs_inv _ _ _ Hrun (create_inv soi)) as Hi.
  destruct (release_loop_ok (Z.to_nat MAX_SOCKET) 0 ss) as (ss' & E & Hi' & Ep & Hl).
  - eapply sinv_events; [exact Hi|constructor|]. intros i Hin. by apply not_elem_of_nil in Hin.
  - intros j Hj. destruct (sk_id _ _ _ (g_slot _ _ _ _ Hi j) (proj1 Hj)) as [<- _]. rewrite Z2Nat.id by done.
    apply Z.mod_pos_bound. done.
  - exists ss'. split; [done|]. intros fd. unfold waiting_fds. rewrite <- Ep. split.
    + intros Hin. destruct (g_open _ _ _ _ Hi' fd Hin) as [(i & [Hli _] & _)|]; [by destruct (Hl i)|done].
    + intros Hin. by apply (g_given _ _ _ _ Hi').
Qed.

(** *** Witnesses *)

(** A kernel that does nothing, and one without news. *)
Definition no_answers : answers := Answers true WAgain [] [] (OFail []) [].
Definition no_events : event_answers := EventAnswers None None AFail REintr true [] [] [].

(** Service 7 connects, sends twice while the kernel takes three bytes only, and
    closes; service 8 listens. *)
Definition sample_history : list input :=
  [InConnect 7 [49] 80;
   InRound (Answers true WAgain [] [] (OSock 5 true None) []) [] no_events;
   InSend true (RequestSend 1 4 1000 [10; 11; 12; 13]);
   InSend false (RequestSend 1 2 2000 [20; 21]);
   InRound (Answers true (WSent 3) [] [] (OFail []) []) [] no_events;
   InRound no_answers [] no_events;
   InListen 8 (Some 6);
   InClose 7 1;
   InRound no_answers [] no_events].

Definition sample_server : socket_server := default (socket_server_create None) (run_list sample_history (socket_server_create None)).

(** The round that executes the close: the rest is sent and the socket closed. *)
Definition sample_input : input := InRound (Answers true WAgain [WSent 1] [WSent 2] (OFail []) []) [] no_events.

Lemma sample_run : run_list sample_history (socket_server_create None) = Some sample_server.
Proof. vm_compute. reflexivity. Qed.

Lemma socket_server_safe_witness : exists m ss', run_input sample_input sample_server = Ok (m, ss') /\ descriptors_owned ss'.
Proof.
  apply (socket_server_safe None sample_history sample_server sample_input).
  - apply run_list_run, sample_run.
  - apply input_check. vm_compute. reflexivity.
Defined.

Lemma pending_data_polled_witness : polled_exactly sample_server /\ s_wb_size (slot 1 sample_server) = 3.
Proof.
  split; [|vm_compute; reflexivity]. apply (pending_data_polled None sample_history). apply run_list_run, sample_run.
Defined.

Lemma release_closes_all_witness : exists ss', socket_server_release sample_server = Ok ss' /\
  forall fd, fd ∈ os_open (ss_os ss') <-> fd ∈ waiting_fds sample_server.
Proof. apply (release_closes_all None sample_history). apply run_list_run, sample_run. Defined.
