(* ===== verification/SocketStream.v ===== *)
(** * The byte stream of a TCP socket

    What [send_socket] accepts for a socket reaches the kernel as whole
    packages, each priority in its order, through every partial write, queue
    and close that the other operations cause. *)
From S2P Require Import Prelude Socket SocketInv SocketCmd SocketSafe.

(** ** Packages *)

(** [true] is [PRIORITY_HIGH]. *)
Notation package := (bool * list Z)%type.

Definition of_priority (high : bool) (l : list package) : list package := filter (fun p => p.1 = high) l.

(** The tests at the head of [send_socket] for a socket that is not bound. *)
Definition accepts (r : request_send) (ss : socket_server) : bool :=
  let s := slot (HASH_ID (rs_id r)) ss in
  (s_id s =? rs_id r) && ((s_type s =? SOCKET_TYPE_CONNECTING) || (s_type s =? SOCKET_TYPE_CONNECTED)).

(** The slot that takes a package when a command is executed, and the package. *)
Definition accepted_by (cmd : command) (ss : socket_server) : option (Z * package) :=
  match cmd with
  | CmdD r | CmdA r _ => if accepts r ss then Some (HASH_ID (rs_id r), (true, rs_data r)) else None
  | CmdP r => if accepts r ss then Some (HASH_ID (rs_id r), (false, rs_data r)) else None
  | _ => None
  end.

Definition accepted (inp : input) (ss : socket_server) : option (Z * package) :=
  match inp with
  | InRound _ _ _ => if ss_checkctrl ss then match ss_pipe ss with cmd :: _ => accepted_by cmd ss | [] => None end else None
  | _ => None
  end.

(** The packages slot [i] has taken since its socket was created. *)
Definition for_slot (i : Z) (a : option (Z * package)) : list package :=
  match a with Some (j, p) => if j =? i then [p] else [] | None => [] end.

Definition log_next (i : Z) (inp : input) (ss : socket_server) (log : list package) : list package :=
  (if decide (live (slot i ss)) then log else []) ++ for_slot i (accepted inp ss).

Fixpoint packages (i : Z) (inps : list input) (ss : socket_server) (log : list package) : list package :=
  match inps with
  | [] => log
  | inp :: inps =>
      match run_input inp ss with
      | Ok (_, ss') => packages i inps ss' (log_next i inp ss log)
      | _ => log
      end
  end.

Definition wire (o : os) (s : socket) : list Z := default [] (os_wire o !! s_fd s).

(** The packages that are out or begun, and those that wait. *)
Definition stream_ok (o : os) (s : socket) (log : list package) : Prop :=
  owner s -> s_protocol s = PROTOCOL_TCP -> exists out wait,
    wire o s ++ bytes_of (s_high s) = concat (snd <$> out) /\ wb_data <$> s_low s = snd <$> wait /\
    Forall (fun p => p.1 = false) wait /\
    of_priority true out = of_priority true log /\ of_priority false (out ++ wait) = of_priority false log.

Record stream_inv (ss : socket_server) (log : Z -> list package) : Prop := StreamInv {
  si_slot : forall i, stream_ok (ss_os ss) (slot i ss) (log i);
  si_new : forall fd, fd ∈ omap command_fd (ss_pipe ss) -> os_wire (ss_os ss) !! fd = Some []
}.

(** ** Flushing *)

Lemma of_priority_app high l k : of_priority high (l ++ k) = of_priority high l ++ of_priority high k.
Proof. apply filter_app. Qed.

Lemma of_priority_low l : Forall (fun p : package => p.1 = false) l -> of_priority true l = [] /\ of_priority false l = l.
Proof.
  unfold of_priority. induction 1 as [|[b d] l E H [IH1 IH2]]; [done|]. cbn in E. subst b. rewrite !filter_cons. cbn.
  by rewrite IH1, IH2.
Qed.

(** Where the loop over a list of untouched buffers stops: behind [gone] and
    [part] of the next buffer. *)
Definition stopped (l rest : list write_buffer) (sent : list Z) : Prop :=
  exists gone part, sent = concat gone ++ part /\
  match rest with
  | [] => wb_data <$> l = gone /\ part = []
  | b :: tl => wb_data <$> l = gone ++ (part ++ wb_data b) :: (wb_data <$> tl) /\ wb_ptr b = wb_buffer b + zlen part
  end.

Lemma stopped_here l : Forall (fun b => wb_ptr b = wb_buffer b) l -> stopped l l [].
Proof.
  intros Hl. exists [], []. split; [done|]. destruct Hl as [|b l E Hl]; [done|]. split; [done|]. change (zlen []) with 0. lia.
Qed.

Lemma stopped_cons b l rest sent : stopped l rest sent -> stopped (b :: l) rest (wb_data b ++ sent).
Proof.
  intros (gone & part & -> & H). exists (wb_data b :: gone), part. split; [by cbn; rewrite app_assoc|].
  destruct rest; destruct H as [H1 H2]; (split; [by rewrite fmap_cons, H1|done]).
Qed.

Lemma tcp_loop_split ws : forall l f rest sent freed, tcp_loop ws l = (f, rest, sent, freed) ->
  Forall (fun b => wb_ptr b = wb_buffer b) l -> stopped l rest sent.
Proof.
  induction ws as [|w ws IH]; intros [|b l] f rest sent freed E Hl; cbn in E; try (injection E as <- <- <- <-; by apply stopped_here).
  destruct w as [n| | |]; try (injection E as <- <- <- <-; by apply stopped_here); [|by eapply IH].
  pose proof Hl as [Hb Hl']%Forall_cons. destruct (_ =? _)%nat.
  - destruct (tcp_loop ws l) as [[[f' rest'] sent'] freed'] eqn:El. injection E as <- <- <- <-. eapply stopped_cons, IH; done.
  - injection E as <- <- <- <-. exists [], (take (Nat.min n (length (wb_data b))) (wb_data b)). split; [done|]. cbn. split.
    + by rewrite take_drop.
    + unfold zlen. rewrite length_take. lia.
Qed.

Lemma force_close_wire s o s' o' : force_close s o = Ok (s', o') -> os_wire o' = os_wire o /\ s_type s' = SOCKET_TYPE_INVALID.
Proof.
  unfold force_close. destruct (Z.eqb_spec (s_type s) SOCKET_TYPE_INVALID) as [E|_]; [intros; by inv_res|].
  destruct (negb (s_type s =? SOCKET_TYPE_RESERVE)); [|done]. cbn [assert_ mbind result_bind].
  unfold sp_del, os_close. destruct (_ && _); cbn [mbind result_bind].
  - destruct (os_poll _ !! _); [|done]. cbn [deref mbind result_bind].
    destruct (negb _); [destruct (bool_decide _); [|done]|]; cbn [assert_ mbind result_bind]; intros; by inv_res.
  - destruct (negb _); [destruct (bool_decide _); [|done]|]; cbn [assert_ mbind result_bind]; intros; by inv_res.
Qed.

Lemma invalid_stream o s log : s_type s = SOCKET_TYPE_INVALID -> stream_ok o s log.
Proof. intros E [[H _] _]. done. Qed.

(** Only the wire of [fd] may change. *)
Definition wire_agree (fd : Z) (o o' : os) : Prop := forall x, x <> fd -> os_wire o' !! x = os_wire o !! x.

Lemma wire_agree_same fd o o' : os_wire o' = os_wire o -> wire_agree fd o o'.
Proof. intros E x _. by rewrite E. Qed.

Lemma wire_agree_trans fd o o1 o2 : wire_agree fd o o1 -> wire_agree fd o1 o2 -> wire_agree fd o o2.
Proof. intros H1 H2 x Hx. by rewrite H2, H1. Qed.

Lemma os_put_wire fd l o o' : os_wire o' = os_wire (os_put fd l o) ->
  wire_agree fd o o' /\ default [] (os_wire o' !! fd) = default [] (os_wire o !! fd) ++ l.
Proof.
  intros E. split; [|by rewrite E; cbn; rewrite lookup_insert_eq]. intros x Hx. rewrite E. cbn. by rewrite lookup_insert_ne.
Qed.

Lemma udp_loop_wire ws s : forall l o rest o', udp_loop ws s l o = (rest, o') -> os_wire o' = os_wire o.
Proof.
  induction ws as [|w ws IH]; intros [|b l] o rest o'; cbn; try (by intros [= <- <-]).
  destruct w; try (by intros [= <- <-]). intros H. by rewrite (IH _ _ _ _ H).
Qed.

Lemma set_list_fields high l n s : s_fd (set_list high l n s) = s_fd s /\ s_type (set_list high l n s) = s_type s /\
  s_protocol (set_list high l n s) = s_protocol s.
Proof. by destruct high. Qed.

Lemma send_list_stream ws high s o c s' o' : send_list ws high s o = Ok (c, s', o') ->
  wire_agree (s_fd s) o o' /\
  if c : bool then s_type s' = SOCKET_TYPE_INVALID
  else exists rest n, s' = set_list high rest n s /\ (s_protocol s = PROTOCOL_TCP -> exists sent, wire o' s = wire o s ++ sent /\
    bytes_of (get_list high s) = sent ++ bytes_of rest /\
    (Forall (fun b => wb_ptr b = wb_buffer b) (get_list high s) -> stopped (get_list high s) rest sent)).
Proof.
  unfold send_list. destruct (Z.eqb_spec (s_protocol s) PROTOCOL_TCP) as [Ep|Ep].
  - unfold send_list_tcp. destruct (tcp_loop ws (get_list high s)) as [[[f rest] sent] freed] eqn:El.
    destruct (tcp_loop_spec _ _ _ _ _ _ El) as (Hb & _). pose proof (tcp_loop_split _ _ _ _ _ _ El) as Hst.
    destruct (set_list_fields high rest (s_wb_size s - zlen sent) s) as (Ef & _ & _). rewrite Ef.
    destruct (os_put_wire (s_fd s) sent o (os_free freed (os_put (s_fd s) sent o)) eq_refl) as [Ha Hw].
    set (s1 := set_list _ _ _ _) in *. destruct f.
    1,2: intros H; inv_res; split; [done|]; exists rest, (s_wb_size s - zlen sent); split; [done|]; intros _; by exists sent.
    destruct (force_close s1 _) as [[s2 o2]| |] eqn:Ec; try done. cbn [mbind result_bind]. intros H. inv_res.
    destruct (force_close_wire _ _ _ _ Ec) as [Ew Et]. split; [|done]. intros x Hx. rewrite Ew. by apply Ha.
  - unfold send_list_udp. destruct (udp_loop ws s (get_list high s) o) as [rest o1] eqn:El. intros H. inv_res.
    split; [apply wire_agree_same; by eapply udp_loop_wire|]. by do 2 eexists.
Qed.

(** Bytes of the high list go to the wire. *)
Lemma stream_flush_high o s log o1 rest n sent : stream_ok o s log -> wire o1 s = wire o s ++ sent ->
  bytes_of (s_high s) = sent ++ bytes_of rest -> stream_ok o1 (set_lists rest (s_low s) n s) log.
Proof.
  intros H Hw Hb Ho Hp. destruct (H Ho Hp) as (out & wait & H1 & H2). exists out, wait. split; [|done].
  rewrite <- H1, Hb, app_assoc, <- Hw. done.
Qed.

Lemma of_priority_shift out wait log : Forall (fun p : package => p.1 = false) wait ->
  of_priority true out = of_priority true log -> of_priority false (out ++ wait) = of_priority false log -> forall gone wait', wait = gone ++ wait' ->
  of_priority true (out ++ gone) = of_priority true log /\ of_priority false ((out ++ gone) ++ wait') = of_priority false log /\
  Forall (fun p : package => p.1 = false) wait'.
Proof.
  intros Hw H1 H2 gone wait' ->. apply Forall_app in Hw as [Hg Hw']. destruct (of_priority_low gone Hg) as [E1 _].
  rewrite of_priority_app, E1, app_nil_r, <- app_assoc. done.
Qed.

(** Buffers of the low list go to the wire; one that is begun becomes urgent. *)
Lemma stream_flush_low o s log o1 rest n sent : stream_ok o s log -> s_high s = [] -> wire o1 s = wire o s ++ sent -> stopped (s_low s) rest sent ->
  stream_ok o1 (match rest with
                | b :: tl => if negb (wb_ptr b =? wb_buffer b) then set_lists [b] tl n s else set_lists [] rest n s
                | [] => set_lists [] [] n s
                end) log.
Proof.
  intros H Hh Hw (gone & part & -> & Hst). set (s' := match rest with [] => _ | _ :: _ => _ end).
  assert (Hs' : s_fd s' = s_fd s /\ s_protocol s' = s_protocol s /\ s_type s' = s_type s) by (subst s'; destruct rest; [|case_match]; done).
  destruct Hs' as (Ef & Ep & Et). unfold stream_ok, owner, live, wire. rewrite Ef, Ep, Et. intros Ho Hp.
  destruct (H Ho Hp) as (out & wait & H1 & H2 & H3 & H4 & H5). rewrite Hh in H1. unfold bytes_of in H1. cbn in H1. rewrite app_nil_r in H1.
  fold (wire o1 s). rewrite Hw, H1.
  assert (Hsplit : forall l1 l2, wb_data <$> s_low s = l1 ++ l2 -> exists g w', wait = g ++ w' /\ snd <$> g = l1 /\ snd <$> w' = l2).
  { intros l1 l2 E. rewrite H2 in E. apply fmap_app_inv in E as (g & w' & -> & -> & ->). by exists g, w'. }
  destruct rest as [|b tl].
  - destruct Hst as [E ->]. destruct (Hsplit gone []) as (g & w' & Ew & E1 & E2); [by rewrite app_nil_r|].
    destruct (of_priority_shift _ _ _ H3 H4 H5 g w' Ew) as (A & B & C). exists (out ++ g), w'. cbn [s' s_high s_low set_lists].
    rewrite E2, fmap_app, concat_app, E1. unfold bytes_of. cbn. by rewrite !app_nil_r.
  - destruct Hst as [E Eptr]. unfold s'. destruct (Z.eqb_spec (wb_ptr b) (wb_buffer b)) as [Eb|Eb]; cbn [negb s_high s_low set_lists].
    + assert (part = []) as -> by (apply length_zero_iff_nil; unfold zlen in Eptr; lia).
      destruct (Hsplit gone _ E) as (g & w' & Ew & E1 & E2). destruct (of_priority_shift _ _ _ H3 H4 H5 g w' Ew) as (A & B & C).
      exists (out ++ g), w'. rewrite E2, fmap_app, concat_app, E1. unfold bytes_of. cbn. by rewrite !app_nil_r.
    + destruct (Hsplit (gone ++ [part ++ wb_data b]) (wb_data <$> tl)) as (g & w' & Ew & E1 & E2); [by rewrite <- app_assoc|].
      destruct (of_priority_shift _ _ _ H3 H4 H5 g w' Ew) as (A & B & C).
      exists (out ++ g), w'. rewrite E2, fmap_app, !concat_app, E1, bytes_of_one, concat_app. cbn. split; [|done].
      by rewrite app_nil_r, <- !app_assoc.
Qed.

Lemma udp_stream o s log : s_protocol s <> PROTOCOL_TCP -> stream_ok o s log.
Proof. by intros H _ E. Qed.

Lemma stream_wire o o' s log : os_wire o' = os_wire o -> stream_ok o s log -> stream_ok o' s log.
Proof. unfold stream_ok, wire. by intros ->. Qed.

(** [send_buffer] on any socket. *)
Lemma send_buffer_stream ws ws' s o r s' o' log : Forall (fun b => wb_ptr b = wb_buffer b) (s_low s) ->
  send_buffer ws ws' s o = Ok (r, s', o') ->
  wire_agree (s_fd s) o o' /\ (stream_ok o s log -> stream_ok o' s' log) /\
  match r with Some _ => s_type s' = SOCKET_TYPE_INVALID | None => s_type s' = s_type s end.
Proof.
  intros Hlow H. unfold send_buffer in H. destruct (negb _) in H; [|done]. cbn [assert_ mbind result_bind] in H.
  destruct (send_list ws true s o) as [[[c s1] o1]| |] eqn:E1; try done. cbn [mbind result_bind] in H.
  destruct (send_list_stream _ _ _ _ _ _ _ E1) as [Ha1 Hc1]. destruct c.
  { inv_res. split; [done|]. split; [intros _; by apply invalid_stream|done]. }
  destruct Hc1 as (rest1 & n1 & -> & Ht1). cbn [set_list s_high s_low set_lists] in H.
  assert (Hs1 : stream_ok o s log -> stream_ok o1 (set_lists rest1 (s_low s) n1 s) log).
  { intros Hs. destruct (decide (s_protocol s = PROTOCOL_TCP)) as [Ep|Ep]; [|by apply udp_stream].
    destruct (Ht1 Ep) as (sent & Hw & Hb & _). by eapply stream_flush_high. }
  destruct rest1 as [|b1 rest1]; [|by inv_res]. destruct (s_low s) as [|b low] eqn:El.
  - unfold sp_write in H. destruct (os_poll o1 !! _) in H; [|done]. cbn [deref mbind result_bind] in H.
    destruct (_ =? SOCKET_TYPE_HALFCLOSE); [|by inv_res].
    destruct (force_close _ _) as [[s2 o2]| |] eqn:Ec; try done. cbn [mbind result_bind] in H. inv_res.
    destruct (force_close_wire _ _ _ _ Ec) as [Ew Et]. split; [intros x Hx; rewrite Ew; by apply Ha1|]. split; [intros _; by apply invalid_stream|done].
  - set (s2 := set_lists [] (b :: low) n1 s) in *.
    destruct (send_list ws' false s2 o1) as [[[c s3] o3]| |] eqn:E3; try done. cbn [mbind result_bind] in H.
    destruct (send_list_stream _ _ _ _ _ _ _ E3) as [Ha3 Hc3]. cbn [s2 s_fd set_lists] in Ha3.
    assert (wire_agree (s_fd s) o o3) as Ha by by eapply wire_agree_trans. destruct c.
    { inv_res. split; [done|]. split; [intros _; by apply invalid_stream|done]. }
    destruct Hc3 as (rest & n & -> & Ht3). cbn [set_list s_low set_lists s_high s2] in H.
    set (s4 := match rest with
                | b :: tl => if negb (wb_ptr b =? wb_buffer b) then set_lists [b] tl n s2 else set_lists [] rest n s2
                | [] => set_lists [] [] n s2
                end).
    assert (Hs4 : stream_ok o s log -> stream_ok o3 s4 log).
    { intros Hs. destruct (decide (s_protocol s = PROTOCOL_TCP)) as [Ep|Ep].
      - destruct (Ht3 Ep) as (sent & Hw & _ & Hst). eapply stream_flush_low; [exact (Hs1 Hs)|done|exact Hw|]. by apply Hst.
      - apply udp_stream. subst s4. destruct rest; [exact Ep|]. destruct (negb _); exact Ep. }
    assert (H4 : Ok (None, s4, o3) = Ok (r, s', o')).
    { rewrite <- H. subst s4. destruct rest as [|b' tl]; [done|]. cbn [list_uncomplete]. destruct (negb _); [|done].
      unfold raise_uncomplete. cbn [s_low s_high set_lists]. by rewrite bool_decide_true. }
    inv_res. split; [done|]. split; [done|]. subst s4. destruct rest; [done|]. by destruct (negb _).
Qed.

(** ** Operations that send nothing *)

(** The socket is the one it was, as far as its stream goes, or it is closed. *)
Definition quiet (s s' : socket) : Prop :=
  owner s' -> owner s /\ s_fd s' = s_fd s /\ s_protocol s' = s_protocol s /\ s_high s' = s_high s /\ s_low s' = s_low s.

Lemma quiet_stream o s s' log : quiet s s' -> stream_ok o s log -> stream_ok o s' log.
Proof.
  intros Hq H Ho Hp. destruct (Hq Ho) as (Ho' & E1 & E2 & E3 & E4). rewrite E2 in Hp. unfold wire. rewrite E1, E3, E4. by apply H.
Qed.

(** Only slot [i] and the wire of [F] change, and the pipe does not. *)
Record at_slot (i : Z) (F : option Z) (ss ss' : socket_server) : Prop := AtSlot {
  as_slot : forall j, j <> i -> slot j ss' = slot j ss;
  as_wire : forall x, F <> Some x -> os_wire (ss_os ss') !! x = os_wire (ss_os ss) !! x;
  as_pipe : ss_pipe ss' = ss_pipe ss
}.

Definition quiet_at (i : Z) (ss ss' : socket_server) : Prop := at_slot i None ss ss' /\ quiet (slot i ss) (slot i ss').

Lemma at_slot_put i F s o ss : (forall x, F <> Some x -> os_wire o !! x = os_wire (ss_os ss) !! x) -> at_slot i F ss (put i s o ss).
Proof. intros H. constructor; try done. intros j Hj. rewrite slot_put. by apply slot_upd_other. Qed.

Lemma quiet_put i s o ss : os_wire o = os_wire (ss_os ss) -> quiet (slot i ss) s -> quiet_at i ss (put i s o ss).
Proof. intros H Hq. split; [apply at_slot_put; intros x _; by rewrite H|by rewrite slot_put_eq]. Qed.

Lemma quiet_same i ss ss' : ss_slot ss' = ss_slot ss -> os_wire (ss_os ss') = os_wire (ss_os ss) -> ss_pipe ss' = ss_pipe ss -> quiet_at i ss ss'.
Proof.
  intros H1 H2 H3. assert (H : forall j, slot j ss' = slot j ss) by (intros j; unfold slot; by rewrite H1).
  split; [constructor; [done|by rewrite H2|done]|]. rewrite H. by intros Ho.
Qed.

Lemma quiet_invalid s s' : s_type s' = SOCKET_TYPE_INVALID -> quiet s s'.
Proof. by intros E [[H _] _]. Qed.

Lemma quiet_refl s : quiet s s.
Proof. done. Qed.

Lemma quiet_close i (m m0 : option socket_message) s o ss ss' : os_wire o = os_wire (ss_os ss) ->
  ('(s', o') ← force_close s o; Ok (m0, put i s' o' ss)) = Ok (m, ss') -> quiet_at i ss ss'.
Proof.
  intros Hw. destruct (force_close s o) as [[s' o']| |] eqn:E; try done. cbn [mbind result_bind]. intros H. inv_res.
  destruct (force_close_wire _ _ _ _ E) as [Ew Et]. apply quiet_put; [congruence|by apply quiet_invalid].
Qed.

Lemma start_socket_quiet an id opaque ss m ss' : start_socket an id opaque ss = Ok (m, ss') -> quiet_at (HASH_ID id) ss ss'.
Proof.
  unfold start_socket. destruct (_ || _); [intros; inv_res; by apply quiet_same|].
  destruct ((_ =? SOCKET_TYPE_PACCEPT) || _) eqn:Ep.
  - unfold sp_add. destruct (_ && _).
    + intros H. inv_res. apply quiet_put; [done|]. intros _.
      rewrite orb_true_iff, !Z.eqb_eq in Ep. unfold owner, live. split; [|done]. by destruct Ep as [-> | ->].
    + by apply quiet_close.
  - destruct (Z.eqb_spec (s_type (slot (HASH_ID id) ss)) SOCKET_TYPE_CONNECTED); intros; inv_res; [|by apply quiet_same].
    apply quiet_put; [done|]. by intros Ho.
Qed.

Lemma set_udp_address_quiet id address ss m ss' : set_udp_address id address ss = Ok (m, ss') -> quiet_at (HASH_ID id) ss ss'.
Proof.
  unfold set_udp_address. destruct (_ || _); [intros; inv_res; by apply quiet_same|].
  destruct (zget address 0); try done. cbn [mbind result_bind]. destruct (negb _); [intros; inv_res; by apply quiet_same|].
  destruct (slice _ _ _); try done. cbn [mbind result_bind]. intros. inv_res. apply quiet_put; [done|]. by intros Ho.
Qed.

(** ** Operations that send *)

(** The operation turns the log of slot [i] from [log] to [log']. *)
Definition stream_at (i : Z) (F : option Z) (ss ss' : socket_server) (log log' : list package) : Prop :=
  at_slot i F ss ss' /\ (stream_ok (ss_os ss) (slot i ss) log -> stream_ok (ss_os ss') (slot i ss') log').

Lemma stream_at_quiet i F ss ss' log : quiet_at i ss ss' -> stream_at i F ss ss' log log.
Proof.
  intros [[H1 H2 H3] Hq]. split; [constructor; auto|]. intros H Ho Hp. destruct (quiet_stream _ _ _ _ Hq H Ho Hp) as (out & wait & E & ?).
  exists out, wait. split; [|done]. rewrite <- E. unfold wire. by rewrite H2.
Qed.

Lemma stream_at_closed i F s o ss log log' : (forall x, F <> Some x -> os_wire o !! x = os_wire (ss_os ss) !! x) ->
  s_type s = SOCKET_TYPE_INVALID -> stream_at i F ss (put i s o ss) log log'.
Proof.
  intros Hw Ht. split; [by apply at_slot_put|]. intros _. rewrite slot_put_eq. by apply invalid_stream.
Qed.

Lemma agree_some fd o o' : wire_agree fd o o' -> forall x, Some fd <> Some x -> os_wire o' !! x = os_wire o !! x.
Proof. intros H x Hx. apply H. congruence. Qed.

Lemma nonempty_owner o i s : slot_ok o i s -> send_buffer_empty s = false -> owner s.
Proof.
  intros Hok He. destruct (sender s) eqn:Es.
  - unfold sender in Es. split; [split|]; intros E; by rewrite E in Es.
  - destruct (sk_empty _ _ _ Hok Es) as [E1 E2]. unfold send_buffer_empty in He. by rewrite E1, E2 in He.
Qed.

Lemma close_socket_stream an id shutdown opaque ss m ss' log : server_inv ss -> close_socket an id shutdown opaque ss = Ok (m, ss') ->
  stream_at (HASH_ID id) (Some (s_fd (slot (HASH_ID id) ss))) ss ss' log log.
Proof.
  intros Hi. unfold close_socket. set (i := HASH_ID id). set (s := slot i ss).
  pose proof (g_slot _ _ _ _ Hi i) as Hok. cbn beta in Hok. fold s in Hok.
  destruct (_ || _); [intros; inv_res; apply stream_at_quiet; by apply quiet_same|].
  assert (Hmain : forall s1 o1, wire_agree (s_fd s) (ss_os ss) o1 -> (stream_ok (ss_os ss) s log -> stream_ok o1 s1 log) ->
    (send_buffer_empty s1 = false -> owner s1) ->
    (if negb (shutdown =? 0) || send_buffer_empty s1
     then '(s, o) ← force_close s1 o1; Ok (Some (message SOCKET_CLOSE id opaque NoData), put i s o ss)
     else Ok (None, put i (set_type SOCKET_TYPE_HALFCLOSE s1) o1 ss)) = Ok (m, ss') -> stream_at i (Some (s_fd s)) ss ss' log log).
  { intros s1 o1 Ha Hs Hown Hrun. destruct (_ || _) eqn:Ed.
    - destruct (force_close s1 o1) as [[s2 o2]| |] eqn:Ec; try done. cbn [mbind result_bind] in Hrun. inv_res.
      destruct (force_close_wire _ _ _ _ Ec) as [Ew Etc]. apply stream_at_closed; [|done]. apply agree_some. intros x Hx. rewrite Ew. by apply Ha.
    - apply orb_false_iff in Ed as [_ He]. inv_res. split; [by apply at_slot_put, agree_some|]. rewrite slot_put_eq. intros H _.
      apply (Hs H). by apply Hown. }
  destruct (send_buffer_empty s) eqn:Ee; cbn [negb mbind result_bind].
  - apply Hmain; [done..|]. by rewrite Ee.
  - destruct (send_buffer _ _ _ _) as [[[r s1] o1]| |] eqn:Es; try done. cbn [mbind result_bind]. intros Hrun.
    destruct (send_buffer_stream _ _ _ _ _ _ _ log (sk_low _ _ _ Hok) Es) as (Ha & Hs & Et). destruct r as [t|].
    + inv_res. apply stream_at_closed; [by apply agree_some|done].
    + apply (Hmain s1 o1); try done. intros _. pose proof (nonempty_owner _ _ _ Hok Ee) as Hown.
      unfold owner, live in *. by rewrite Et.
Qed.

Lemma bytes_of_app l k : bytes_of (l ++ k) = bytes_of l ++ bytes_of k.
Proof. unfold bytes_of. by rewrite fmap_app, concat_app. Qed.

Lemma of_priority_one high p : of_priority high [p] = if eqb p.1 high then [p] else [].
Proof. destruct p as [[] d], high; done. Qed.

(** A package enters the high list, the empty buffers included. *)
Lemma stream_urgent o s log o' s' p : stream_ok o s log -> owner s' = owner s -> s_protocol s' = s_protocol s -> s_low s' = s_low s ->
  (p.1 = true \/ s_low s = []) -> wire o' s' ++ bytes_of (s_high s') = (wire o s ++ bytes_of (s_high s)) ++ p.2 -> stream_ok o' s' (log ++ [p]).
Proof.
  intros H E1 E2 E3 Hp Hb Ho Hpr. rewrite E1 in Ho. rewrite E2 in Hpr. destruct (H Ho Hpr) as (out & wait & H1 & H2 & H3 & H4 & H5).
  exists (out ++ [p]), wait. rewrite Hb, H1, fmap_app, concat_app, E3, !of_priority_app, H4. cbn [fmap list_fmap concat]. rewrite app_nil_r.
  split_and!; try done. rewrite <- H5, of_priority_app. destruct Hp as [Hp|Hp].
  - rewrite (of_priority_one false p), Hp. by rewrite !app_nil_r.
  - rewrite Hp in H2. destruct wait; [|done]. by rewrite !app_nil_r.
Qed.

(** A package enters the low list. *)
Lemma stream_patient o s log o' s' d : stream_ok o s log -> owner s' = owner s -> s_protocol s' = s_protocol s -> wire o' s' = wire o s ->
  s_high s' = s_high s -> (wb_data <$> s_low s') = (wb_data <$> s_low s) ++ [d] -> stream_ok o' s' (log ++ [(false, d)]).
Proof.
  intros H E1 E2 E3 E4 E5 Ho Hpr. rewrite E1 in Ho. rewrite E2 in Hpr. destruct (H Ho Hpr) as (out & wait & H1 & H2 & H3 & H4 & H5).
  exists out, (wait ++ [(false, d)]). rewrite E3, E4, E5, H1, H2, fmap_app, app_assoc, !of_priority_app, H4, <- H5, of_priority_app.
  split_and!; try done; [|by rewrite app_nil_r]. apply Forall_app. by split; [|apply Forall_singleton].
Qed.

Lemma append_sendbuffer_plain soi high r n address s : zlen (rs_data r) = rs_sz r -> exists b size,
  append_sendbuffer soi high r n address s = Ok (set_list high (get_list high s ++ [b]) size s) /\ wb_data b = drop n (rs_data r).
Proof.
  intros Hlen. unfold append_sendbuffer, send_object_init. destruct (Z.ltb_spec (rs_sz r) 0) as [|_]; [zlia|].
  rewrite Hlen, Z.eqb_refl. cbn [assert_ mbind result_bind]. do 2 eexists. by split.
Qed.

(** The buffer is appended and, maybe, the socket polled for writing. *)
Lemma append_stream high n r o log s b size : wb_data b = drop n (rs_data r) -> high = true \/ n = 0%nat ->
  let s' := set_list high (get_list high s ++ [b]) size s in forall o1 o2,
  wire o1 s = wire o s ++ take n (rs_data r) ->
  os_wire o2 = os_wire o1 -> s_high s = [] \/ n = 0%nat ->
  forall h, (high = true -> h = true \/ s_low s = []) -> (high = false -> h = false) ->
  stream_ok o s log -> stream_ok o2 s' (log ++ [(h, rs_data r)]).
Proof.
  intros Hb Hn s' o1 o2 Hw Ew Hh h Hhigh Hlow H. destruct high.
  - eapply stream_urgent; [exact H|done|done|done|by apply Hhigh|].
    cbn [s' set_list s_high set_lists get_list snd]. rewrite bytes_of_app, bytes_of_one, Hb. unfold wire. cbn [s_fd s' set_list set_lists].
    rewrite Ew. fold (wire o1 s). rewrite Hw. fold (wire o s). destruct Hh as [E | ->]; [rewrite E|].
    + unfold bytes_of. cbn. by rewrite app_nil_r, <- app_assoc, take_drop.
    + by rewrite drop_0, take_0, app_nil_r, app_assoc.
  - destruct Hn as [?| ->]; [done|]. rewrite Hlow by done. rewrite take_0, app_nil_r in Hw.
    eapply stream_patient; [exact H|done|done| |done|].
    + unfold wire. cbn [s_fd s' set_list set_lists]. rewrite Ew. exact Hw.
    + cbn [s' set_list s_low set_lists get_list]. rewrite fmap_app. cbn. by rewrite Hb, drop_0.
Qed.

Lemma accepts_sender r ss : plain_send r ss -> slot_ok (ss_os ss) (HASH_ID (rs_id r)) (slot (HASH_ID (rs_id r)) ss) ->
  let s := slot (HASH_ID (rs_id r)) ss in
  (s_type s =? SOCKET_TYPE_INVALID) || negb (s_id s =? rs_id r) || (s_type s =? SOCKET_TYPE_HALFCLOSE)
    || (s_type s =? SOCKET_TYPE_PACCEPT) || (s_type s =? SOCKET_TYPE_PLISTEN) || (s_type s =? SOCKET_TYPE_LISTEN) = negb (accepts r ss).
Proof.
  intros (_ & Hb & Hr) Hok s. pose proof (sk_type _ _ _ Hok) as Ht. fold s in Hb, Hr, Ht. unfold accepts. fold s.
  destruct (Z.eqb_spec (s_id s) (rs_id r)) as [Eid|Eid]; [|by rewrite orb_true_r].
  assert (s_type s <> SOCKET_TYPE_RESERVE) as Hr' by by destruct Hr.
  cbn [negb andb]. rewrite orb_false_r. unfold SOCKET_TYPE_INVALID, SOCKET_TYPE_RESERVE, SOCKET_TYPE_PLISTEN, SOCKET_TYPE_LISTEN,
    SOCKET_TYPE_CONNECTING, SOCKET_TYPE_CONNECTED, SOCKET_TYPE_HALFCLOSE, SOCKET_TYPE_PACCEPT, SOCKET_TYPE_BIND in *.
  zprune; try done; lia.
Qed.

Definition taken (high : bool) (r : request_send) (ss : socket_server) : list package :=
  if accepts r ss then [(high, rs_data r)] else [].

Lemma sp_write_wire fd b o o' : sp_write fd b o = Ok o' -> os_wire o' = os_wire o.
Proof. unfold sp_write. destruct (os_poll o !! fd); [|done]. cbn. intros. by inv_res. Qed.

Lemma send_socket_stream w r high ua ss m ss' log : server_inv ss -> plain_send r ss -> ua = None \/ high = true ->
  send_socket w r high ua ss = Ok (m, ss') ->
  let i := HASH_ID (rs_id r) in stream_at i (Some (s_fd (slot i ss))) ss ss' log (log ++ taken high r ss).
Proof.
  intros Hi Hsend Hua Hrun i. pose proof (g_slot _ _ _ _ Hi i) as Hok. cbn beta in Hok.
  pose proof (accepts_sender r ss Hsend Hok) as Hacc. destruct Hsend as (Hlen & Hbind & Hres).
  unfold send_socket in Hrun. fold i in Hrun, Hacc. set (s := slot i ss) in *. cbv zeta in Hacc. rewrite Hacc in Hrun.
  assert (Hinit : send_object_init (ss_soi ss) r = Ok (rs_buffer r, rs_data r, false)).
  { unfold send_object_init. destruct (Z.ltb_spec (rs_sz r) 0) as [|_]; [zlia|]. by rewrite Hlen, Z.eqb_refl. }
  rewrite Hinit in Hrun. cbn [mbind result_bind] in Hrun. unfold taken. destruct (accepts r ss); cbn [negb] in Hrun.
  2:{ inv_res. rewrite app_nil_r. apply stream_at_quiet. by apply quiet_same. }
  destruct (send_buffer_empty s && (s_type s =? SOCKET_TYPE_CONNECTED)) eqn:Edir.
  - apply andb_true_iff in Edir as [Eempty _]. unfold send_buffer_empty in Eempty.
    apply andb_true_iff in Eempty as [Eh%bool_decide_eq_true El%bool_decide_eq_true].
    destruct (Z.eqb_spec (s_protocol s) PROTOCOL_TCP) as [Ep|Ep].
    + destruct (direct_write w (rs_data r)) as [n|].
      * destruct (os_put_wire (s_fd s) (take n (rs_data r)) (ss_os ss) _ eq_refl) as [Ha Hw].
        destruct (Nat.eqb_spec n (length (rs_data r))) as [En|Hn].
        -- inv_res. split; [constructor; [done|by apply agree_some|done]|]. intros H.
           change (slot i (set_os ?o ss)) with s. eapply stream_urgent; [exact H|done|done|done|by right|].
           cbn [ss_os set_os]. unfold wire at 1. cbn [os_free os_wire]. rewrite Hw, Eh, take_ge by lia. fold s. rewrite Eh. unfold bytes_of. cbn. by rewrite !app_nil_r.
        -- destruct (append_sendbuffer_plain (ss_soi ss) true r n [] s Hlen) as (b & size & Eap & Hb). rewrite Eap in Hrun.
           cbn [mbind result_bind] in Hrun. destruct (sp_write _ _ _) as [o2| |] eqn:Ew; try done. cbn [mbind result_bind] in Hrun. inv_res.
           apply sp_write_wire in Ew. split; [apply at_slot_put, agree_some; intros x Hx; rewrite Ew; by apply Ha|].
           rewrite slot_put_eq. cbn [ss_os put]. by apply (append_stream true n r (ss_os ss) log s b size Hb (or_introl eq_refl) (os_put (s_fd s) (take n (rs_data r)) (ss_os ss))); auto.
      * destruct (force_close _ _) as [[s2 o2]| |] eqn:Ec; try done. cbn [mbind result_bind] in Hrun. inv_res.
        destruct (force_close_wire _ _ _ _ Ec) as [Ew Et]. apply stream_at_closed; [intros x _; cbn; by rewrite Ew|done].
    + destruct (sent_whole w (rs_data r)).
      * inv_res. split; [constructor; done|]. intros _. by apply udp_stream.
      * destruct (append_sendbuffer_plain (ss_soi ss) high r 0 (default (s_udp_address s) ua) s Hlen) as (b & size & Eap & Hb).
        rewrite Eap in Hrun. cbn [mbind result_bind] in Hrun. destruct (sp_write _ _ _) as [o2| |] eqn:Ew; try done. cbn [mbind result_bind] in Hrun.
        inv_res. apply sp_write_wire in Ew. split; [apply at_slot_put; intros x _; by rewrite Ew|].
        intros _. rewrite slot_put_eq. apply udp_stream. by destruct high.
  - set (address := if _ =? _ then _ else _) in Hrun.
    destruct (append_sendbuffer_plain (ss_soi ss) high r 0 address s Hlen) as (b & size & Eap & Hb). rewrite Eap in Hrun. cbn [mbind result_bind] in Hrun.
    inv_res. split; [by apply at_slot_put|]. rewrite slot_put_eq. cbn [ss_os put].
    apply (append_stream high 0 r (ss_os ss) log s b size Hb (or_intror eq_refl) (ss_os ss)); auto. by rewrite take_0, app_nil_r.
Qed.

(** ** One step of the server *)

(** Slot [i] goes from [log] to [log'], and at most the wire of its own descriptor changes. *)
Definition streams (i : Z) (ss ss' : socket_server) (log log' : list package) : Prop :=
  exists F, (F = None \/ live (slot i ss) /\ F = Some (s_fd (slot i ss))) /\ stream_at i F ss ss' log log'.

Lemma streams_quiet i ss ss' log : quiet_at i ss ss' -> streams i ss ss' log log.
Proof. intros H. exists None. split; [by left|]. by apply stream_at_quiet. Qed.

Lemma close_socket_streams an id shutdown opaque ss m ss' log : server_inv ss -> command_ok an (CmdK id shutdown opaque) ss ->
  close_socket an id shutdown opaque ss = Ok (m, ss') -> streams (HASH_ID id) ss ss' log log.
Proof.
  intros Hi Hc Hrun. destruct (decide (live (slot (HASH_ID id) ss))) as [Hl|Hl].
  - eexists. split; [by right|]. by eapply close_socket_stream.
  - unfold close_socket in Hrun. destruct (_ || _) eqn:E; [inv_res; apply streams_quiet; by apply quiet_same|].
    rewrite orb_false_iff, negb_false_iff, Z.eqb_eq, Z.eqb_neq in E. destruct E as [Et Eid]. destruct Hl. by apply (live_of ss _ id).
Qed.

Lemma send_socket_streams w r high ua ss m ss' log : server_inv ss -> plain_send r ss -> ua = None \/ high = true ->
  send_socket w r high ua ss = Ok (m, ss') -> streams (HASH_ID (rs_id r)) ss ss' log (log ++ taken high r ss).
Proof.
  intros Hi Hs Hua Hrun. destruct (decide (live (slot (HASH_ID (rs_id r)) ss))) as [Hl|Hl].
  - eexists. split; [by right|]. by eapply send_socket_stream.
  - exists None. split; [by left|]. destruct (send_socket_stream _ _ _ _ _ _ _ log Hi Hs Hua Hrun) as [[H1 H2 H3] H4].
    assert (accepts r ss = false) as Ha.
    { unfold accepts. destruct (Z.eqb_spec (s_type (slot (HASH_ID (rs_id r)) ss)) SOCKET_TYPE_CONNECTING) as [E|_];
        [destruct Hl; split; by rewrite E|].
      destruct (Z.eqb_spec (s_type (slot (HASH_ID (rs_id r)) ss)) SOCKET_TYPE_CONNECTED) as [E|_]; [destruct Hl; split; by rewrite E|].
      by rewrite andb_false_r. }
    unfold send_socket in Hrun. pose proof (accepts_sender r ss Hs (g_slot _ _ _ _ Hi _)) as Hacc. cbv zeta in Hacc, Hrun. rewrite Hacc, Ha in Hrun.
    destruct (send_object_init _ _) as [[[? ?] ?]| |]; try done. cbn [mbind result_bind negb] in Hrun. inv_res.
    constructor; [done|exact H4].
Qed.

(** ** Events *)

Section event_stream.
Context (ss : socket_server) (i : Z) (Hi : server_inv ss) (Hp : polled (slot i ss)).

Lemma forward_tcp_quiet r m s' o' : forward_message_tcp r (slot i ss) (ss_os ss) = Ok (m, s', o') -> quiet_at i ss (put i s' o' ss).
Proof using.
  unfold forward_message_tcp. destruct r as [l| | |msg].
  - destruct (_ =? 0).
    + destruct (force_close _ _) as [[s2 o2]| |] eqn:E; try done. cbn [mbind result_bind]. intros. inv_res.
      destruct (force_close_wire _ _ _ _ E). apply quiet_put; [done|by apply quiet_invalid].
    + destruct (_ =? SOCKET_TYPE_HALFCLOSE); [intros; inv_res; by apply quiet_put|].
      destruct (_ <=? INT_MAX); [|done]. cbn [assert_ mbind result_bind]. intros. inv_res. by apply quiet_put.
  - intros. inv_res. by apply quiet_put.
  - intros. inv_res. by apply quiet_put.
  - destruct (force_close _ _) as [[s2 o2]| |] eqn:E; try done. cbn [mbind result_bind]. intros. inv_res.
    destruct (force_close_wire _ _ _ _ E). apply quiet_put; [done|by apply quiet_invalid].
Qed.

Lemma forward_udp_quiet r v4 from m s' o' : forward_message_udp r v4 from (slot i ss) (ss_os ss) = Ok (m, s', o') ->
  quiet_at i ss (put i s' o' ss).
Proof using.
  unfold forward_message_udp. destruct r as [l| | |msg].
  - destruct (negb _); intros; inv_res; by apply quiet_put.
  - intros. inv_res. by apply quiet_put.
  - intros. inv_res. by apply quiet_put.
  - destruct (force_close _ _) as [[s2 o2]| |] eqn:E; try done. cbn [mbind result_bind]. intros. inv_res.
    destruct (force_close_wire _ _ _ _ E). apply quiet_put; [done|by apply quiet_invalid].
Qed.

Lemma report_connect_quiet error peer m s' o' : s_type (slot i ss) = SOCKET_TYPE_CONNECTING ->
  report_connect error peer (slot i ss) (ss_os ss) = Ok (m, s', o') -> quiet_at i ss (put i s' o' ss).
Proof using.
  intros Ht. unfold report_connect. destruct error as [msg|].
  - destruct (force_close _ _) as [[s2 o2]| |] eqn:E; try done. cbn [mbind result_bind]. intros. inv_res.
    destruct (force_close_wire _ _ _ _ E). apply quiet_put; [done|by apply quiet_invalid].
  - assert (Hq : quiet (slot i ss) (set_type SOCKET_TYPE_CONNECTED (slot i ss))).
    { intros _. unfold owner, live. by rewrite Ht. }
    destruct (send_buffer_empty _); cbn [mbind result_bind].
    + destruct (sp_write _ _ _) as [o2| |] eqn:E; try done. cbn [mbind result_bind]. intros. inv_res.
      apply sp_write_wire in E. by apply quiet_put.
    + intros. inv_res. by apply quiet_put.
Qed.
End event_stream.

Lemma streams_events i ss s o b ev log log' : streams i ss (put i s o ss) log log' -> streams i ss (set_events b ev (put i s o ss)) log log'.
Proof. intros (F & HF & [H1 H2 H3] & H4). exists F. split; [done|]. by split. Qed.

Lemma dispatch_event_streams ea i e ev ss m ss' log : server_inv ss -> polled (slot i ss) -> s_type (slot i ss) <> SOCKET_TYPE_LISTEN ->
  dispatch_event ea i e ev ss = Ok (m, ss') -> streams i ss ss' log log.
Proof.
  intros Hi Hp Hnl. unfold dispatch_event. pose proof (g_slot _ _ _ _ Hi i) as Hok. cbn beta in Hok.
  destruct (Z.eqb_spec (s_type (slot i ss)) SOCKET_TYPE_CONNECTING) as [Ec|Ec].
  { destruct (report_connect _ _ _ _) as [[[m1 s1] o1]| |] eqn:E; try done. cbn [mbind result_bind]. intros. inv_res.
    eapply streams_quiet, report_connect_quiet; done. }
  destruct (Z.eqb_spec (s_type (slot i ss)) SOCKET_TYPE_LISTEN); [done|].
  destruct (_ =? SOCKET_TYPE_INVALID); [intros; inv_res; apply streams_quiet; by apply quiet_same|].
  destruct (e_read e).
  - destruct (_ =? PROTOCOL_TCP).
    + destruct (forward_message_tcp _ _ _) as [[[m1 s1] o1]| |] eqn:E; try done. cbn [mbind result_bind]. intros. inv_res.
      eapply streams_events, streams_quiet, forward_tcp_quiet; done.
    + destruct (forward_message_udp _ _ _ _ _) as [[[m1 s1] o1]| |] eqn:E; try done. cbn [mbind result_bind]. intros. inv_res.
      eapply streams_events, streams_quiet, forward_udp_quiet; done.
  - destruct (e_write e); [|intros; inv_res; apply streams_quiet; by apply quiet_same].
    destruct (send_buffer _ _ _ _) as [[[r s1] o1]| |] eqn:E; try done. cbn [mbind result_bind]. intros. inv_res.
    destruct (send_buffer_stream _ _ _ _ _ _ _ log (sk_low _ _ _ Hok) E) as (Ha & Hs & _).
    exists (Some (s_fd (slot i ss))). split; [right; split; [apply Hp|done]|]. split; [by apply at_slot_put, agree_some|].
    by rewrite slot_put_eq.
Qed.

(** ** New sockets *)

(** Slot [i] holds a new socket, whose stream is empty, or none. *)
Definition starts (i : Z) (F : option Z) (ss ss' : socket_server) : Prop :=
  at_slot i F ss ss' /\ stream_ok (ss_os ss') (slot i ss') [].

Lemma empty_stream o s : s_high s = [] -> s_low s = [] -> (owner s -> os_wire o !! s_fd s = Some []) -> stream_ok o s [].
Proof.
  intros E1 E2 Hw Ho _. exists [], []. unfold wire. rewrite E1, E2, (Hw Ho). done.
Qed.

Lemma at_slot_put_put i F s s' o o' ss : (forall x, F <> Some x -> os_wire o' !! x = os_wire (ss_os ss) !! x) ->
  at_slot i F ss (put i s' o' (put i s o ss)).
Proof. intros H. constructor; try done. intros j Hj. rewrite slot_put_put. by apply slot_upd_other. Qed.

Lemma at_slot_trans i F ss ss1 ss2 : at_slot i F ss ss1 -> at_slot i F ss1 ss2 -> at_slot i F ss ss2.
Proof.
  intros [H1 H2 H3] [K1 K2 K3]. constructor; [|intros x Hx; by rewrite K2, H2|congruence]. intros j Hj. by rewrite K1, H1.
Qed.

Lemma at_slot_new i fd ss : at_slot i (Some fd) ss (set_os (os_new fd (ss_os ss)) ss).
Proof. constructor; try done. intros x Hx. cbn. rewrite lookup_insert_ne; [done|]. congruence. Qed.

Section creation_stream.
Context (cmd : command) (id : Z) (ss : socket_server).
Context (Hi : sinv (cmd :: ss_pipe ss) (ss_ev ss) (slots ss) (ss_os ss)) (Hid : command_id cmd = Some id).

Lemma listen_socket_starts fd opaque m ss' : os_wire (ss_os ss) !! fd = Some [] ->
  listen_socket id fd opaque ss = Ok (m, ss') -> starts (HASH_ID id) None ss ss'.
Proof using Hi Hid.
  intros Hw. destruct (creation_reserved _ id ss Hi Hid) as (Ht & Hr & Eh & El). unfold listen_socket.
  rewrite new_fd_reserved by done. cbn [mbind result_bind]. intros. inv_res. split; [by apply at_slot_put_put|].
  rewrite slot_put_eq. by apply empty_stream.
Qed.

Lemma bind_socket_starts an fd opaque m ss' : bind_socket an id fd opaque ss = Ok (m, ss') -> starts (HASH_ID id) None ss ss'.
Proof using Hi Hid.
  destruct (creation_reserved _ id ss Hi Hid) as (Ht & Hr & Eh & El). unfold bind_socket.
  rewrite new_fd_reserved by done. unfold sp_add. destruct (_ && _); cbn [mbind result_bind]; intros; inv_res.
  - split; [by apply at_slot_put_put|]. rewrite slot_put_eq. apply empty_stream; [done..|]. intros [_ E]. by destruct E.
  - split; [by apply at_slot_put|]. rewrite !slot_put_eq. by apply invalid_stream.
Qed.

Lemma add_udp_socket_starts an fd opaque inet6 m ss' : add_udp_socket an id fd opaque inet6 ss = Ok (m, ss') ->
  starts (HASH_ID id) None ss ss'.
Proof using Hi Hid.
  destruct (creation_reserved _ id ss Hi Hid) as (Ht & Hr & Eh & El). unfold add_udp_socket.
  rewrite new_fd_reserved by done. unfold sp_add. destruct (_ && _); cbn [mbind result_bind].
  - intros. inv_res. split; [by apply at_slot_put_put|]. rewrite slot_put_eq. apply udp_stream. by destruct inet6.
  - unfold os_close. destruct (bool_decide _); [|done]. cbn [assert_ mbind result_bind]. intros. inv_res.
    split; [by apply at_slot_put_put|]. rewrite !slot_put_eq. by apply invalid_stream.
Qed.

Lemma open_socket_starts an opaque m ss' : open_socket an id opaque ss = Ok (m, ss') ->
  starts (HASH_ID id) (match an_open an with OSock fd _ _ => Some fd | OFail _ => None end) ss ss'.
Proof using Hi Hid.
  destruct (creation_reserved _ id ss Hi Hid) as (Ht & Hr & Eh & El). unfold open_socket.
  destruct (an_open an) as [msg|fd connected peer].
  - intros. inv_res. split; [by apply at_slot_put|]. rewrite !slot_put_eq. by apply invalid_stream.
  - pose proof (at_slot_new (HASH_ID id) fd ss) as Hnew. set (ss1 := set_os _ ss) in *.
    assert (Hw : os_wire (ss_os ss1) !! fd = Some []) by (cbn; by rewrite lookup_insert_eq).
    rewrite (new_fd_reserved id fd PROTOCOL_TCP opaque true (an_add an) ss1) by done.
    unfold sp_add. destruct (_ && _); cbn [mbind result_bind].
    + destruct connected.
      * intros. inv_res. split; [eapply at_slot_trans; [exact Hnew|by apply at_slot_put_put]|].
        rewrite slot_put_eq. by apply empty_stream.
      * destruct (sp_write _ _ _) as [o2| |] eqn:Ew; try done. cbn [mbind result_bind]. apply sp_write_wire in Ew. intros. inv_res.
        split; [eapply at_slot_trans; [exact Hnew|apply at_slot_put_put; intros x _; by rewrite Ew]|].
        rewrite slot_put_eq. apply empty_stream; [done..|]. intros _. cbn [ss_os put]. by rewrite Ew.
    + unfold os_close. destruct (bool_decide _); [|done]. cbn [assert_ mbind result_bind]. intros. inv_res.
      split; [|rewrite slot_put_eq; by apply invalid_stream]. eapply at_slot_trans; [exact Hnew|].
      refine (at_slot_put_put _ _ (set_type SOCKET_TYPE_INVALID (slot (HASH_ID id) ss1)) _ (ss_os ss1) _ ss1 _). done.
Qed.
End creation_stream.

(** ** All slots *)

(** The logs with those of dead slots dropped. *)
Definition live_log (ss : socket_server) (log : Z -> list package) (i : Z) : list package :=
  if decide (live (slot i ss)) then log i else [].

Lemma live_log_inv ss log : stream_inv ss log -> stream_inv ss (live_log ss log).
Proof.
  intros [H1 H2]. constructor; [|done]. intros i. unfold live_log. destruct (decide (live (slot i ss))) as [Hl|Hl]; [done|].
  intros [Ho _]. done.
Qed.

(** One slot and the wire of one descriptor change, which is that of the slot or new. *)
Lemma stream_step ss ss' i F log tk : stream_inv ss log -> at_slot i F ss ss' ->
  (forall x, F = Some x -> x ∉ omap command_fd (ss_pipe ss) /\ forall j, j <> i -> live (slot j ss) -> s_fd (slot j ss) <> x) ->
  stream_ok (ss_os ss') (slot i ss') (log i ++ tk i) -> (forall j, j <> i -> tk j = []) ->
  stream_inv ss' (fun j => log j ++ tk j).
Proof.
  intros [H1 H2] [A1 A2 A3] HF Hi Htk. constructor.
  - intros j. destruct (decide (j = i)) as [->|Hj]; [done|]. rewrite A1, Htk, app_nil_r by done. intros Ho Hp.
    destruct (H1 j Ho Hp) as (out & wait & E & H). exists out, wait. split; [|done]. rewrite <- E. unfold wire. rewrite A2; [done|].
    intros EF. destruct (HF _ EF) as [_ Hn]. by apply (Hn j Hj (proj1 Ho)).
  - intros fd. rewrite A3. intros Hin. rewrite A2; [by apply H2|]. intros EF. by destruct (HF _ EF).
Qed.

Lemma stream_step_streams ss ss' i log tk : server_inv ss -> stream_inv ss log -> streams i ss ss' (log i) (log i ++ tk i) ->
  (forall j, j <> i -> tk j = []) -> stream_inv ss' (fun j => log j ++ tk j).
Proof.
  intros Hi Hs (F & HF & Ha & Hst) Htk. apply (stream_step ss ss' i F); try done; [|by apply Hst, si_slot].
  intros x ->. destruct HF as [|[Hl [= ->]]]; [done|]. split.
  - intros Hin. destruct (g_given _ _ _ _ Hi _ Hin) as [_ Hn]. by apply (Hn i).
  - intros j Hj Hlj E. apply Hj. by eapply g_fd.
Qed.

Lemma for_slot_other i a j : (forall k p, a = Some (k, p) -> k = i) -> j <> i -> for_slot j a = [].
Proof. intros H Hj. destruct a as [[k p]|]; [|done]. cbn. rewrite (H k p eq_refl). destruct (Z.eqb_spec i j); [by subst|done]. Qed.

Lemma taken_for_slot high r ss : taken high r ss =
  for_slot (HASH_ID (rs_id r)) (if accepts r ss then Some (HASH_ID (rs_id r), (high, rs_data r)) else None).
Proof. unfold taken. destruct (accepts r ss); [|done]. cbn. by rewrite Z.eqb_refl. Qed.

Lemma streams_none ss ss' i log : server_inv ss -> stream_inv ss log -> streams i ss ss' (log i) (log i) -> stream_inv ss' (fun j => log j ++ []).
Proof. intros Hi Hs H. apply (stream_step_streams ss ss' i log (fun _ => [])); [done..| |done]. by rewrite app_nil_r. Qed.

Lemma send_step w r high ua ss m ss' log cmd : server_inv ss -> stream_inv ss log -> plain_send r ss -> ua = None \/ high = true ->
  send_socket w r high ua ss = Ok (m, ss') ->
  accepted_by cmd ss = (if accepts r ss then Some (HASH_ID (rs_id r), (high, rs_data r)) else None) ->
  stream_inv ss' (fun j => log j ++ for_slot j (accepted_by cmd ss)).
Proof.
  intros Hi Hs Hp Hua Hrun E. apply (stream_step_streams ss ss' (HASH_ID (rs_id r)) log (fun j => for_slot j (accepted_by cmd ss))); [done|done| |].
  - rewrite E, <- taken_for_slot. by eapply send_socket_streams.
  - intros j Hj. apply (for_slot_other (HASH_ID (rs_id r))); [|done]. intros k p. rewrite E. destruct (accepts r ss); [|done]. by intros [= -> _].
Qed.

Lemma start_step ss ss' i F log : stream_inv ss log -> starts i F ss ss' -> ~ live (slot i ss) ->
  (forall x, F = Some x -> x ∉ omap command_fd (ss_pipe ss) /\ forall j, live (slot j ss) -> s_fd (slot j ss) <> x) ->
  stream_inv ss' (fun j => live_log ss log j ++ []).
Proof.
  intros Hs [Ha Hst] Hl HF. apply (stream_step ss ss' i F (live_log ss log) (fun _ => [])); try done; [by apply live_log_inv| |].
  - intros x Hx. destruct (HF x Hx) as [H1 H2]. split; [done|]. intros j _. apply H2.
  - unfold live_log. by rewrite decide_False.
Qed.

Lemma ctrl_cmd_stream an cmd pipe ss m ss' log : server_inv ss -> ss_pipe ss = cmd :: pipe -> command_ok an cmd ss -> stream_inv ss log ->
  ctrl_cmd an ss = Ok (m, ss') -> stream_inv ss' (fun j => live_log ss log j ++ for_slot j (accepted_by cmd ss)).
Proof.
  intros Hi Ep Hc Hs. unfold ctrl_cmd. rewrite Ep. set (ss1 := set_pipe pipe ss).
  assert (Hpop : sinv (cmd :: ss_pipe ss1) (ss_ev ss1) (slots ss1) (ss_os ss1)) by (unfold server_inv in Hi; by rewrite Ep in Hi).
  assert (Hinv : command_id cmd = None -> command_fd cmd = None -> server_inv ss1).
  { intros E1 E2. eapply sinv_pipe; [exact Hpop|by cbn; rewrite E2|by cbn; rewrite E1]. }
  assert (Hs1 : stream_inv ss1 log).
  { destruct Hs as [H1 H2]. constructor; [done|]. intros fd Hin. apply H2. rewrite Ep. cbn. destruct (command_fd cmd); [by apply list_elem_of_further|done]. }
  assert (Hl1 : stream_inv ss1 (live_log ss log)) by exact (live_log_inv ss1 log Hs1).
  assert (Hnew : forall id, command_id cmd = Some id -> ~ live (slot (HASH_ID id) ss1)).
  { intros id E. destruct (creation_reserved cmd id ss1 Hpop E) as (Ht & _). intros [_ H]. done. }
  destruct cmd; cbn [accepted_by for_slot].
  - intros H. eapply streams_none; [by apply Hinv|done|]. eapply streams_quiet, start_socket_quiet, H.
  - intros H. eapply (start_step ss1); [done|by eapply bind_socket_starts|by apply Hnew|done].
  - intros H. eapply (start_step ss1); [done|eapply listen_socket_starts; [done|done| |exact H]|by apply Hnew|done].
    apply (si_new _ _ Hs). rewrite Ep. cbn. apply list_elem_of_here.
  - intros H. eapply streams_none; [by apply Hinv|done|]. eapply close_socket_streams; [by apply Hinv|exact Hc|done].
  - intros H. eapply (start_step ss1); [done|by eapply open_socket_starts|by apply Hnew|]. cbn in Hc. intros x Hx.
    destruct (an_open an); [done|]. injection Hx as <-. destruct Hc as [Hc1 Hc2]. split; [|exact Hc2].
    intros Hin. apply Hc1. apply (g_given _ _ _ _ Hi). by rewrite Ep.
  - intros. inv_res. eapply streams_none; [by apply Hinv|done|]. eapply streams_quiet, (quiet_same 0); done.
  - intros H. apply (send_step _ _ _ _ ss1 m ss' (live_log ss log) (CmdD r) (Hinv eq_refl eq_refl) Hl1 Hc (or_introl eq_refl) H eq_refl).
  - intros H. apply (send_step _ _ _ _ ss1 m ss' (live_log ss log) (CmdP r) (Hinv eq_refl eq_refl) Hl1 Hc (or_introl eq_refl) H eq_refl).
  - intros H. apply (send_step _ _ _ _ ss1 m ss' (live_log ss log) (CmdA r address) (Hinv eq_refl eq_refl) Hl1 Hc (or_intror eq_refl) H eq_refl).
  - intros. inv_res. eapply streams_none; [by apply Hinv|done|]. eapply streams_quiet, (quiet_same 0); done.
  - intros H. eapply (start_step ss1); [done|by eapply add_udp_socket_starts|by apply Hnew|done].
  - intros H. eapply streams_none; [by apply Hinv|done|]. eapply streams_quiet, set_udp_address_quiet, H.
Qed.

(** ** Every input *)

Lemma stream_inv_log ss log log' : (forall j, log' j = log j) -> stream_inv ss log -> stream_inv ss log'.
Proof. intros E [H1 H2]. constructor; [|done]. intros i. by rewrite E. Qed.

(** Sockets are as they were or dead; a new descriptor has an empty wire. *)
Lemma stream_call ss ss' F log : stream_inv ss log -> (forall j, owner (slot j ss') -> slot j ss' = slot j ss) ->
  (forall x, F <> Some x -> os_wire (ss_os ss') !! x = os_wire (ss_os ss) !! x) ->
  (forall x, F = Some x -> fresh_fd x ss /\ os_wire (ss_os ss') !! x = Some []) ->
  (forall fd, fd ∈ omap command_fd (ss_pipe ss') -> fd ∈ omap command_fd (ss_pipe ss) \/ F = Some fd) ->
  stream_inv ss' (fun j => live_log ss log j ++ []).
Proof.
  intros Hs Hsl Hw HF Hp. apply live_log_inv in Hs as [H1 H2]. eapply stream_inv_log; [intros j; apply app_nil_r|]. constructor.
  - intros j Ho Hpr. pose proof (Hsl j Ho) as E. rewrite E in Ho, Hpr |- *. destruct (H1 j Ho Hpr) as (out & wait & Eq & H).
    exists out, wait. split; [|done]. rewrite <- Eq. unfold wire. rewrite Hw; [done|]. intros EF. destruct (HF _ EF) as [[_ Hn] _].
    by apply (Hn j (proj1 Ho)).
  - intros fd Hin. destruct (decide (F = Some fd)) as [EF|EF]; [by apply HF|]. rewrite Hw by done. apply H2. by destruct (Hp fd Hin).
Qed.

Lemma stream_request ss cmd log : stream_inv ss log -> command_fd cmd = None -> stream_inv (send_request cmd ss) (fun j => live_log ss log j ++ []).
Proof.
  intros Hs Hc. apply (stream_call ss _ None); try done. intros fd. cbn. rewrite omap_app. cbn. rewrite Hc, app_nil_r. by left.
Qed.

Lemma stream_same ss ss' log : stream_inv ss log -> ss_slot ss' = ss_slot ss -> os_wire (ss_os ss') = os_wire (ss_os ss) ->
  ss_pipe ss' = ss_pipe ss -> stream_inv ss' (fun j => live_log ss log j ++ []).
Proof.
  intros Hs E1 E2 E3. apply (stream_call ss _ None); try done.
  - intros j _. unfold slot. by rewrite E1.
  - intros x _. by rewrite E2.
  - intros fd. rewrite E3. by left.
Qed.

(** A slot is reserved; [o] differs from the kernel of [ss] by a new descriptor. *)
Lemma reserved_owner ss o id ss' : reserved (set_os o ss) id ss' -> forall j, owner (slot j ss') -> slot j ss' = slot j ss.
Proof.
  intros (_ & _ & a & ->) j. destruct (decide (j = HASH_ID id)) as [->|Hj].
  - rewrite slot_put_eq. intros [[_ H] _]. done.
  - rewrite slot_put. rewrite slot_upd_other by done. done.
Qed.

Lemma reserve_stream ss o F cmd log id ss' : stream_inv ss log -> reserved (set_os o ss) id ss' -> command_fd cmd = F ->
  (F = None /\ o = ss_os ss \/ exists fd, F = Some fd /\ fresh_fd fd ss /\ o = os_new fd (ss_os ss)) ->
  stream_inv (send_request cmd ss') (fun j => live_log ss log j ++ []).
Proof.
  intros Hs Hr Hc HF. pose proof (reserved_owner _ _ _ _ Hr) as Ho. destruct Hr as (_ & _ & a & ->).
  apply (stream_call ss _ F); [done|exact Ho|..].
  - intros x Hx. cbn [send_request set_pipe put ss_os set_alloc_id set_os]. destruct HF as [[-> ->]|(fd & -> & _ & ->)]; [done|].
    cbn. rewrite lookup_insert_ne; [done|]. congruence.
  - intros x ->. destruct HF as [[E _]|(fd & [= <-] & Hf & ->)]; [done|]. split; [done|]. cbn. by rewrite lookup_insert_eq.
  - intros fd. cbn [send_request set_pipe ss_pipe put set_alloc_id set_os]. rewrite omap_app. cbn. rewrite Hc.
    intros [Hin|Hin]%elem_of_app; [by left|]. right. destruct F; [|by apply not_elem_of_nil in Hin].
    by apply list_elem_of_singleton in Hin as ->.
Qed.

Lemma create_stream ss cmd log : stream_inv ss log -> (forall id, command_fd (cmd id) = None) ->
  stream_inv (snd (let '(id, ss) := reserve_id ss in if id <? 0 then (-1, ss) else (id, send_request (cmd id) ss)))
    (fun j => live_log ss log j ++ []).
Proof.
  intros Hs Hcmd. pose proof (reserve_id_spec ss) as Hr. destruct (reserve_id ss) as [id ss2]. destruct Hr as [(-> & a & ->)|Hr].
  - cbn. by apply stream_same.
  - destruct (Z.ltb_spec id 0); [by destruct Hr as [[? _] _]; lia|]. cbn [snd].
    eapply (reserve_stream ss (ss_os ss) None); [done|by destruct ss|done|by left].
Qed.

Lemma new_closed_stream fd ss a o log : stream_inv ss log -> fresh_fd fd ss -> os_close fd (os_new fd (ss_os ss)) = Ok o ->
  stream_inv (set_os o (set_alloc_id a (set_os (os_new fd (ss_os ss)) ss))) (fun j => live_log ss log j ++ []).
Proof.
  intros Hs Hf E. assert (os_wire o = <[fd := []]> (os_wire (ss_os ss))) as Ew.
  { unfold os_close in E. destruct (bool_decide _); [|done]. cbn in E. by inv_res. }
  apply (stream_call ss _ (Some fd)); try done; cbn [ss_os set_os]; rewrite ?Ew.
  - intros x Hx. rewrite lookup_insert_ne; [done|]. congruence.
  - intros x [= <-]. split; [done|]. by rewrite lookup_insert_eq.
  - intros x Hx. by left.
Qed.

Lemma listen_stream opaque fd ss k ss' log : stream_inv ss log -> fresh_fd fd ss ->
  socket_server_listen opaque (Some fd) ss = Ok (k, ss') -> stream_inv ss' (fun j => live_log ss log j ++ []).
Proof.
  intros Hs Hf. unfold socket_server_listen. pose proof (reserve_id_spec (set_os (os_new fd (ss_os ss)) ss)) as Hr.
  destruct (reserve_id (set_os (os_new fd (ss_os ss)) ss)) as [id ss2]. destruct Hr as [(-> & a & ->)|Hr].
  - cbn [Z.ltb Z.compare ss_os set_alloc_id set_os]. destruct (os_close _ _) as [o| |] eqn:E; try done. cbn [mbind result_bind]. intros. inv_res.
    by apply new_closed_stream.
  - destruct (Z.ltb_spec id 0); [by destruct Hr as [[? _] _]; lia|]. intros. inv_res.
    eapply (reserve_stream ss (os_new fd (ss_os ss)) (Some fd)); [done|exact Hr|done|]. right. by exists fd.
Qed.

Lemma udp_new_stream opaque fd inet6 ss k ss' log : stream_inv ss log -> fresh_fd fd ss ->
  socket_server_udp opaque (Some fd) inet6 ss = Ok (k, ss') -> stream_inv ss' (fun j => live_log ss log j ++ []).
Proof.
  intros Hs Hf. unfold socket_server_udp. pose proof (reserve_id_spec (set_os (os_new fd (ss_os ss)) ss)) as Hr.
  destruct (reserve_id (set_os (os_new fd (ss_os ss)) ss)) as [id ss2]. destruct Hr as [(-> & a & ->)|Hr].
  - cbn [Z.ltb Z.compare ss_os set_alloc_id set_os]. destruct (os_close _ _) as [o| |] eqn:E; try done. cbn [mbind result_bind]. intros. inv_res.
    by apply new_closed_stream.
  - destruct (Z.ltb_spec id 0); [by destruct Hr as [[? _] _]; lia|]. intros. inv_res.
    eapply (reserve_stream ss (os_new fd (ss_os ss)) (Some fd)); [done|exact Hr|done|]. right. by exists fd.
Qed.

Lemma report_accept_stream r s ss m ss' log : server_inv ss -> stream_inv ss log -> (forall fd peer, r = AFd fd peer -> fresh_fd fd ss) ->
  report_accept r s ss = Ok (m, ss') -> stream_inv ss' (fun j => live_log ss log j ++ []).
Proof.
  intros Hi Hs Hf. unfold report_accept. destruct r as [msg| |fd peer]; [intros; inv_res; by apply stream_same..|]. specialize (Hf fd peer eq_refl).
  pose proof (reserve_id_spec (set_os (os_new fd (ss_os ss)) ss)) as Hr. destruct (reserve_id _) as [id ss2].
  destruct Hr as [(-> & a & ->)|(Hid & Ht & a & ->)].
  - cbn [Z.ltb Z.compare ss_os set_alloc_id set_os]. destruct (os_close _ _) as [o| |] eqn:E; try done. cbn [mbind result_bind]. intros. inv_res.
    by apply new_closed_stream.
  - destruct (Z.ltb_spec id 0); [lia|]. set (i := HASH_ID id) in *. change (slot i (set_os ?o ss)) with (slot i ss) in *.
    destruct (sk_empty _ _ _ (g_slot _ _ _ _ Hi i)) as [Eh El]; [unfold sender; by rewrite Ht|].
    rewrite new_fd_reserved; rewrite ?slot_put_eq; try done. cbn [mbind result_bind]. intros. inv_res.
    apply (start_step ss _ i (Some fd)); [done| |by intros [Hx _]|].
    + split.
      * eapply at_slot_trans; [apply at_slot_new|]. eapply at_slot_trans; [|apply at_slot_put_put; done].
        eapply (at_slot_trans _ _ _ (set_alloc_id a (set_os (os_new fd (ss_os ss)) ss))); [done|]. by apply at_slot_put.
      * rewrite slot_put_eq. apply empty_stream; [done..|]. intros _. cbn. by rewrite lookup_insert_eq.
    + intros x [= <-]. split; [|exact (proj2 Hf)]. intros Hin. by apply (proj1 Hf), (g_given _ _ _ _ Hi).
Qed.

Lemma clear_closed_stream m ss log : stream_inv ss log -> stream_inv (clear_closed_event m ss) log.
Proof. unfold clear_closed_event. destruct (_ || _); [|done]. intros [H1 H2]. by constructor. Qed.

Lemma dispatch_event_stream ea i e ev ss m ss' log : server_inv ss -> polled (slot i ss) -> stream_inv ss log ->
  (forall fd peer, ea_accept ea = AFd fd peer -> fresh_fd fd ss) ->
  dispatch_event ea i e ev ss = Ok (m, ss') -> stream_inv ss' (fun j => live_log ss log j ++ []).
Proof.
  intros Hi Hp Hs Hf Hrun. destruct (decide (s_type (slot i ss) = SOCKET_TYPE_LISTEN)) as [El|El].
  - unfold dispatch_event in Hrun. rewrite El in Hrun. change (report_accept (ea_accept ea) (slot i ss) ss = Ok (m, ss')) in Hrun.
    by eapply report_accept_stream.
  - eapply streams_none; [done|by apply live_log_inv|]. by eapply dispatch_event_streams.
Qed.

(** A round that executes no command. *)
Lemma event_round_stream an wait ea ss r ss' log : server_inv ss -> input_ok (InRound an wait ea) ss -> stream_inv ss log ->
  ss_checkctrl ss && negb (bool_decide (ss_pipe ss = [])) = false ->
  poll_round an wait ea ss = Ok (r, ss') -> stream_inv ss' (fun j => live_log ss log j ++ []).
Proof.
  intros Hi (Hc & Hw & Hf & Hsz) Hs Ectrl. unfold poll_round. rewrite Ectrl. cbv zeta.
  set (ss2 := match ss_ev (set_events false (ss_ev ss) ss) with [] => _ | _ => _ end).
  assert (server_inv ss2 /\ ss_slot ss2 = ss_slot ss /\ ss_os ss2 = ss_os ss /\ ss_pipe ss2 = ss_pipe ss) as (Hi2 & Hs2 & Ho2 & Hp2).
  { subst ss2. cbn [set_events ss_ev]. destruct (ss_ev ss) eqn:E; [|by unfold server_inv in *; cbn; rewrite E in Hi]. split; [|done].
    unfold server_inv. cbn [set_events ss_ev ss_pipe ss_os]. eapply sinv_events; [exact Hi|apply Hw|apply Hw]. }
  clearbody ss2. destruct (ss_ev ss2) as [|e ev] eqn:Ev; [intros; inv_res; apply stream_same; [done|done|by rewrite Ho2|done]|].
  unfold server_inv in Hi2. rewrite Ev in Hi2. set (ss3 := set_events (ss_checkctrl ss2) ev ss2).
  destruct (e_s e) as [i|] eqn:Ee; [|intros; inv_res; apply stream_same; [done|done|cbn; by rewrite Ho2|done]].
  destruct (dispatch_event ea i e ev ss3) as [[m ss4]| |] eqn:E; try done. cbn [mbind result_bind]. intros. inv_res.
  assert (Hsl : forall j, slot j ss3 = slot j ss) by (intros j; unfold slot; cbn [ss3 set_events ss_slot]; by rewrite Hs2).
  assert (Hs3 : stream_inv ss3 log).
  { destruct Hs as [H1 H2]. constructor; cbn [ss3 set_events ss_os ss_pipe]; rewrite Ho2; [|by rewrite Hp2]. intros j. rewrite Hsl. apply H1. }
  eapply stream_inv_log; [|apply (dispatch_event_stream ea i e ev ss3 m ss' log); try done].
  - intros j. unfold live_log. by rewrite Hsl.
  - unfold server_inv. cbn [ss3 set_events ss_ev ss_pipe ss_os]. pose proof (g_ev _ _ _ _ Hi2) as Hn. cbn in Hn. rewrite Ee in Hn.
    apply NoDup_cons in Hn as [_ Hn]. eapply sinv_events; [exact Hi2|done|]. intros j Hj. apply (g_event _ _ _ _ Hi2). cbn. rewrite Ee.
    by apply list_elem_of_further.
  - apply (g_event _ _ _ _ Hi2). cbn. rewrite Ee. apply list_elem_of_here.
  - intros fd peer Hfd. destruct (Hf fd peer Hfd) as [F1 F2]. unfold fresh_fd. cbn [ss3 set_events ss_os]. rewrite Ho2.
    split; [done|]. intros j. rewrite Hsl. apply F2.
Qed.

Lemma poll_round_stream an wait ea ss r ss' log : server_inv ss -> input_ok (InRound an wait ea) ss -> stream_inv ss log ->
  poll_round an wait ea ss = Ok (r, ss') ->
  stream_inv ss' (fun j => live_log ss log j ++ for_slot j (accepted (InRound an wait ea) ss)).
Proof.
  intros Hi Hok Hs Hrun. pose proof Hok as (Hc & _). cbn [accepted]. destruct (ss_checkctrl ss) eqn:Ec; [|].
  - destruct (ss_pipe ss) as [|cmd pipe] eqn:Ep.
    + eapply event_round_stream; try done. by rewrite Ec, Ep.
    + unfold poll_round in Hrun. rewrite Ec, Ep in Hrun. rewrite bool_decide_false in Hrun by done. cbn [negb andb] in Hrun.
      destruct (ctrl_cmd an ss) as [[m ss1]| |] eqn:E; try done. cbn [mbind result_bind] in Hrun.
      pose proof (ctrl_cmd_stream an cmd pipe ss m ss1 log Hi Ep Hc Hs E) as H. destruct m; inv_res; [by apply clear_closed_stream|done].
  - eapply event_round_stream; try done. by rewrite Ec.
Qed.

Lemma run_input_stream inp ss m ss' log : server_inv ss -> input_ok inp ss -> stream_inv ss log -> run_input inp ss = Ok (m, ss') ->
  stream_inv ss' (fun j => log_next j inp ss (log j)).
Proof.
  intros Hi Hok Hs Hrun. unfold log_next.
  destruct inp; unfold run_input in Hrun; cbn [accepted for_slot] in *; fold (live_log ss log).
  - destruct (poll_round an wait ea ss) as [[r ss1]| |] eqn:E; try done. cbn [mbind result_bind] in Hrun. inv_res.
    by eapply poll_round_stream.
  - inv_res. unfold socket_server_connect. destruct (_ <=? _); [by apply stream_same|].
    by apply (create_stream ss (fun id => CmdO id port opaque addr)).
  - inv_res. unfold socket_server_send. destruct (_ || _); [by apply stream_same|]. destruct high; by apply stream_request.
  - unfold socket_server_udp_send in Hrun. destruct (_ || _); [cbn [mbind result_bind] in Hrun; inv_res; by apply stream_same|].
    destruct (zget address 0); try done. cbn [mbind result_bind] in Hrun. destruct (_ || _); [|cbn [mbind result_bind] in Hrun; inv_res; by apply stream_same].
    destruct (slice _ _ _); try done. cbn [mbind result_bind] in Hrun. inv_res. by apply stream_request.
  - inv_res. by apply stream_request.
  - inv_res. by apply stream_request.
  - inv_res. by apply stream_request.
  - inv_res. by apply stream_request.
  - inv_res. by apply stream_request.
  - inv_res. by apply stream_request.
  - destruct fd as [fd|]; [|cbn [socket_server_listen mbind result_bind] in Hrun; inv_res; by apply stream_same].
    destruct (socket_server_listen opaque (Some fd) ss) as [[k ss1]| |] eqn:E; try done. cbn [mbind result_bind] in Hrun. inv_res.
    by eapply listen_stream.
  - inv_res. by apply (create_stream ss (fun id => CmdB id fd opaque)).
  - destruct fd as [fd|]; [|cbn [socket_server_udp mbind result_bind] in Hrun; inv_res; by apply stream_same].
    destruct (socket_server_udp opaque (Some fd) inet6 ss) as [[k ss1]| |] eqn:E; try done. cbn [mbind result_bind] in Hrun. inv_res.
    by eapply udp_new_stream.
Qed.

(** ** Property *)

Lemma run_inputs_stream inps ss ss' log : run_inputs inps ss ss' -> server_inv ss -> stream_inv ss log ->
  stream_inv ss' (fun i => packages i inps ss (log i)).
Proof.
  intros Hrun. revert log. induction Hrun as [|inp inps ss m ss1 ss2 Hok Hrun _ IH]; intros log Hi Hs; [done|].
  cbn [packages]. rewrite Hrun. apply (IH (fun j => log_next j inp ss (log j))); [|by eapply run_input_stream].
  destruct (run_input_ok inp ss Hi Hok) as (m' & ss' & E & H). congruence.
Qed.

(** C6. In every history, for a TCP socket that is open: the bytes the kernel
    took from it, followed by those that wait, are the packages [send_socket]
    accepted for it, each one whole. High priority packages keep their order,
    low priority ones too; only their interleaving may differ from the order of
    the calls. Nothing is lost, duplicated or cut by partial writes, by a
    package becoming urgent half sent, or by anything that happens to other sockets. *)
Theorem tcp_stream soi inps ss i : run_inputs inps (socket_server_create soi) ss ->
  let s := slot i ss in let log := packages i inps (socket_server_create soi) [] in
  owner s -> s_protocol s = PROTOCOL_TCP -> exists order,
    of_priority true order = of_priority true log /\ of_priority false order = of_priority false log /\
    wire (ss_os ss) s ++ bytes_of (s_high s) ++ bytes_of (s_low s) = concat (snd <$> order).
Proof.
  intros Hrun s log Ho Hp.
  assert (Hs : stream_inv ss (fun i => packages i inps (socket_server_create soi) [])).
  { apply (run_inputs_stream inps _ _ (fun _ => []) Hrun); [apply create_inv|]. constructor.
    - intros j [[H _] _]. by destruct H.
    - intros fd Hin. by apply not_elem_of_nil in Hin. }
  destruct (si_slot _ _ Hs i Ho Hp) as (out & wait & H1 & H2 & H3 & H4 & H5). exists (out ++ wait). split_and!; [|done|].
  - rewrite of_priority_app. destruct (of_priority_low wait H3) as [-> _]. by rewrite app_nil_r.
  - unfold bytes_of at 2. fold s in H1, H2. by rewrite app_assoc, H1, H2, fmap_app, concat_app.
Qed.

(** In the sample history: three bytes are out, one is urgent, two wait. *)
Lemma tcp_stream_witness : exists order,
  of_priority true order = [(true, [10; 11; 12; 13])] /\ of_priority false order = [(false, [20; 21])] /\
  wire (ss_os sample_server) (slot 1 sample_server) ++ bytes_of (s_high (slot 1 sample_server)) ++ bytes_of (s_low (slot 1 sample_server))
    = concat (snd <$> order).
Proof.
  destruct (tcp_stream None sample_history sample_server 1) as (order & H1 & H2 & H3).
  - apply run_list_run, sample_run.
  - vm_compute. split; [split|]; discriminate.
  - vm_compute. reflexivity.
  - exists order. split; [exact H1|]. split; [exact H2|exact H3].
Defined.
