(* ===== verification/Timer.v ===== *)
(** * Timing wheel (skynet-src/skynet_timer.c)

    Timers expire in [near], one list per tick of the current block of 256
    ticks, or wait in one of four levels of 64 lists whose lists are moved
    down when their block starts. A [link_list] is the list of its nodes from
    [head.next] to [tail]. The lock of the timer is held except while
    [dispatch_list] runs; what other threads add in these windows is an
    argument of the functions that open them. *)
From S2P Require Import Prelude CString MessageQueue Context Handle Server.

(** ** Data *)

Definition TIME_NEAR_SHIFT : Z := 8.
Definition TIME_NEAR : Z := Z.shiftl 1 TIME_NEAR_SHIFT.
Definition TIME_LEVEL_SHIFT : Z := 6.
Definition TIME_LEVEL : Z := Z.shiftl 1 TIME_LEVEL_SHIFT.
Definition TIME_NEAR_MASK : Z := TIME_NEAR - 1.
Definition TIME_LEVEL_MASK : Z := TIME_LEVEL - 1.

Record timer_event : Set := TimerEvent {
  te_handle : Z;
  te_session : Z
}.

(** A node and the event stored behind it. *)
Record timer_node : Set := TimerNode {
  tn_expire : Z;
  tn_event : timer_event
}.

Notation link_list := (list timer_node).

Record timer : Set := Timer {
  t_near : list link_list;
  t_t : list (list link_list);
  t_time : Z;
  t_starttime : Z;
  t_current : Z;
  t_current_point : Z
}.

Definition set_near (near : list link_list) (T : timer) : timer :=
  Timer near (t_t T) (t_time T) (t_starttime T) (t_current T) (t_current_point T).
Definition set_t (t : list (list link_list)) (T : timer) : timer :=
  Timer (t_near T) t (t_time T) (t_starttime T) (t_current T) (t_current_point T).
Definition set_time (time : Z) (T : timer) : timer :=
  Timer (t_near T) (t_t T) time (t_starttime T) (t_current T) (t_current_point T).
Definition set_clock (current point : Z) (T : timer) : timer :=
  Timer (t_near T) (t_t T) (t_time T) (t_starttime T) current point.

(** ** Operations *)

(** The chain of the list, and the list empty. *)
Definition link_clear (l : link_list) : link_list * link_list := (l, []).
Definition link (l : link_list) (node : timer_node) : link_list := l ++ [node].

(** The level loop of [add_node]: [i] goes up while the times differ above [mask]. *)
Fixpoint level_loop (k : nat) (i mask time current_time : Z) : Z :=
  match k with
  | O => i
  | S k =>
      if Z.lor time (mask - 1) =? Z.lor current_time (mask - 1) then i
      else level_loop k (i + 1) (u32 (Z.shiftl mask TIME_LEVEL_SHIFT)) time current_time
  end.

Definition add_node (T : timer) (node : timer_node) : result timer :=
  let time := tn_expire node in
  let current_time := t_time T in
  if Z.lor time TIME_NEAR_MASK =? Z.lor current_time TIME_NEAR_MASK then
    let idx := Z.land time TIME_NEAR_MASK in
    l ← zget (t_near T) idx;
    near ← zset (t_near T) idx (link l node);
    Ok (set_near near T)
  else
    let i := level_loop 3 0 (Z.shiftl TIME_NEAR TIME_LEVEL_SHIFT) time current_time in
    let idx := Z.land (Z.shiftr time (TIME_NEAR_SHIFT + i * TIME_LEVEL_SHIFT)) TIME_LEVEL_MASK in
    row ← zget (t_t T) i;
    l ← zget row idx;
    row ← zset row idx (link l node);
    t ← zset (t_t T) i row;
    Ok (set_t t T).

Definition timer_add (T : timer) (event : timer_event) (time : Z) : result timer :=
  add_node T (TimerNode (u32 (time + t_time T)) event).

Fixpoint add_nodes (T : timer) (current : link_list) : result timer :=
  match current with
  | [] => Ok T
  | node :: current => T ← add_node T node; add_nodes T current
  end.

Definition move_list (T : timer) (level idx : Z) : result timer :=
  row ← zget (t_t T) level;
  l ← zget row idx;
  let '(current, l) := link_clear l in
  row ← zset row idx l;
  t ← zset (t_t T) level row;
  add_nodes (set_t t T) current.

(** The loop of [timer_shift]; [ct <> 0] ends it within 4 rounds. *)
Fixpoint shift_loop (fuel : nat) (T : timer) (ct mask time i : Z) : result timer :=
  match fuel with
  | O => Fault
  | S fuel =>
      if Z.land ct (mask - 1) =? 0 then
        let idx := Z.land time TIME_LEVEL_MASK in
        if negb (idx =? 0) then move_list T i idx
        else shift_loop fuel T ct (s32 (Z.shiftl mask TIME_LEVEL_SHIFT)) (Z.shiftr time TIME_LEVEL_SHIFT) (i + 1)
      else Ok T
  end.

Definition timer_shift (T : timer) : result timer :=
  let mask := TIME_NEAR in
  let ct := u32 (t_time T + 1) in
  let T := set_time ct T in
  if ct =? 0 then move_list T 3 0
  else shift_loop 5 T ct mask (Z.shiftr ct TIME_NEAR_SHIFT) 0.

(** The message [dispatch_list] and [skynet_timeout] push. *)
Definition timeout_message (session : Z) : skynet_message :=
  SkynetMessage 0 session 0 (u64 (Z.shiftl PTYPE_RESPONSE MESSAGE_TYPE_SHIFT)).

(** The messages go to the queues of the contexts; events of a context that
    is gone are lost. *)
Fixpoint dispatch_list (current : link_list) (w : world) : result world :=
  match current with
  | [] => Ok w
  | node :: current =>
      '(_, w) ← skynet_context_push (te_handle (tn_event node)) (timeout_message (te_session (tn_event node))) w;
      dispatch_list current w
  end.

(** A [skynet_timeout] another thread performs: event and time. *)
Definition request : Set := timer_event * Z.

Fixpoint timer_adds (T : timer) (adds : list request) : result timer :=
  match adds with
  | [] => Ok T
  | (event, time) :: adds => T ← timer_add T event time; timer_adds T adds
  end.

(** The nodes handed to [dispatch_list], in order, and the timer afterwards;
    [adds] is what other threads add each time the lock is released. *)
Fixpoint timer_execute (fuel : nat) (adds : list request) (T : timer) : result (link_list * timer) :=
  match fuel with
  | O => Fault
  | S fuel =>
      let idx := Z.land (t_time T) TIME_NEAR_MASK in
      l ← zget (t_near T) idx;
      match l with
      | [] => Ok ([], T)
      | _ :: _ =>
          let '(current, l) := link_clear l in
          near ← zset (t_near T) idx l;
          T ← timer_adds (set_near near T) adds;
          '(more, T) ← timer_execute fuel [] T;
          Ok (current ++ more, T)
      end
  end.

(** [adds1] and [adds2] are added while the first and the second
    [timer_execute] dispatch. Two rounds of each are always enough. *)
Definition timer_update (adds1 adds2 : list request) (T : timer) : result (link_list * timer) :=
  '(out1, T) ← timer_execute 2 adds1 T;
  T ← timer_shift T;
  '(out2, T) ← timer_execute 2 adds2 T;
  Ok (out1 ++ out2, T).

Definition timer_create_timer : timer :=
  Timer (replicate (Z.to_nat TIME_NEAR) []) (replicate 4 (replicate (Z.to_nat TIME_LEVEL) [])) 0 0 0 0.

(** Immediate delivery for [time <= 0], -1 if there is no such context;
    otherwise the timer. *)
Definition skynet_timeout (handle time session : Z) (T : timer) (w : world) : result (Z * timer * world) :=
  if time <=? 0 then
    '(r, w) ← skynet_context_push handle (timeout_message session) w;
    Ok (if negb (r =? 0) then -1 else session, T, w)
  else
    T ← timer_add T (TimerEvent handle session) time;
    Ok (session, T, w).

(** [k] runs of [timer_update] with their messages delivered. *)
Fixpoint timer_updates (k : nat) (T : timer) (w : world) : result (timer * world) :=
  match k with
  | O => Ok (T, w)
  | S k =>
      '(out, T) ← timer_update [] [] T;
      w ← dispatch_list out w;
      timer_updates k T w
  end.

(** [cp] is what [gettime] returns, in centiseconds. *)
Definition skynet_updatetime (cp : Z) (T : timer) (w : world) : result (timer * world) :=
  if cp <? t_current_point T then Ok (set_clock (t_current T) cp T, w)
  else if negb (cp =? t_current_point T) then
    let diff := u32 (cp - t_current_point T) in
    timer_updates (Z.to_nat diff) (set_clock (u64 (t_current T + diff)) cp T) w
  else Ok (T, w).

Definition skynet_starttime (T : timer) : Z := t_starttime T.
Definition skynet_now (T : timer) : Z := t_current T.

(** [sec], [cs] and [cp] are what [systime] and [gettime] return. *)
Definition skynet_timer_init (sec cs cp : Z) : timer :=
  Timer (t_near timer_create_timer) (t_t timer_create_timer) 0 (u32 sec) cs cp.

(** ** Specification *)

(** Where a node waits. *)
Inductive place : Set :=
| Near (idx : Z)
| Level (i idx : Z).

#[export] Instance place_eq_dec : EqDecision place.
Proof. solve_decision. Defined.

(** The place of expiry [e] seen from time [t]. *)
Definition place_of (e t : Z) : place :=
  if e / 2 ^ 8 =? t / 2 ^ 8 then Near (e mod 2 ^ 8)
  else if e / 2 ^ 14 =? t / 2 ^ 14 then Level 0 ((e / 2 ^ 8) mod 64)
  else if e / 2 ^ 20 =? t / 2 ^ 20 then Level 1 ((e / 2 ^ 14) mod 64)
  else if e / 2 ^ 26 =? t / 2 ^ 26 then Level 2 ((e / 2 ^ 20) mod 64)
  else Level 3 ((e / 2 ^ 26) mod 64).

Definition slot (T : timer) (p : place) : option link_list :=
  match p with
  | Near idx => t_near T !! Z.to_nat idx
  | Level i idx => row ← t_t T !! Z.to_nat i; row !! Z.to_nat idx
  end.

Definition valid_place (p : place) : Prop :=
  match p with
  | Near idx => 0 <= idx < 256
  | Level i idx => 0 <= i < 4 /\ 0 <= idx < 64
  end.

(** [e] is at most 2^31 ticks ahead of [t], wrap-around included. *)
Definition ahead (e t : Z) : Prop := is_u32 e /\ (e - t) mod 2 ^ 32 < 2 ^ 31.

Definition same_expire (e : Z) (l : link_list) : link_list := filter (fun n => tn_expire n = e) l.

(** The wheel [T] holds the pending nodes [l] (in the order they were added):
    each waits at the place its expiry has from the current time, and those
    of equal expiry wait there in order. *)
Record timer_rep (T : timer) (l : link_list) : Prop := TimerRep {
  tr_near : length (t_near T) = 256%nat;
  tr_t : length (t_t T) = 4%nat;
  tr_rows : Forall (fun row => length row = 64%nat) (t_t T);
  tr_time : is_u32 (t_time T);
  tr_ahead : Forall (fun n => ahead (tn_expire n) (t_time T)) l;
  tr_slots : forall p s, valid_place p -> slot T p = Some s ->
    Forall (fun n => place_of (tn_expire n) (t_time T) = p) s /\
    forall e, place_of e (t_time T) = p -> same_expire e s = same_expire e l
}.

(** Expiry [e] is not the tick [t]. *)
Definition not_due (t e : Z) : Prop := e <> t.

#[export] Instance not_due_dec t e : Decision (not_due t e).
Proof. unfold not_due. apply _. Defined.

(** The abstract timer: the time and the pending nodes in the order they were added. *)
Record clock : Set := Clock {
  k_time : Z;
  k_pending : link_list
}.

Definition spec_adds (adds : list request) (k : clock) : clock :=
  Clock (k_time k) (k_pending k ++ ((fun r => TimerNode (u32 (snd r + k_time k)) (fst r)) <$> adds)).

(** All nodes due now leave, in order; the lock was released if there is any. *)
Definition spec_execute (adds : list request) (k : clock) : link_list * clock :=
  let out := same_expire (k_time k) (k_pending k) in
  match out with
  | [] => ([], k)
  | _ :: _ => (out, spec_adds adds (Clock (k_time k) (filter (fun n => not_due (k_time k) (tn_expire n)) (k_pending k))))
  end.

Definition spec_update (adds1 adds2 : list request) (k : clock) : link_list * clock :=
  let '(out1, k) := spec_execute adds1 k in
  let '(out2, k) := spec_execute adds2 (Clock (u32 (k_time k + 1)) (k_pending k)) in
  (out1 ++ out2, k).

(** A run of the timer: requests and ticks, with what comes out. *)
Inductive timer_op : Set :=
| Add (adds : list request)
| Tick (adds1 adds2 : list request).

Fixpoint run_timer (ops : list timer_op) (T : timer) : result (list link_list * timer) :=
  match ops with
  | [] => Ok ([], T)
  | Add adds :: ops => T ← timer_adds T adds; run_timer ops T
  | Tick a1 a2 :: ops => '(out, T) ← timer_update a1 a2 T; '(outs, T) ← run_timer ops T; Ok (out :: outs, T)
  end.

Fixpoint run_clock (ops : list timer_op) (k : clock) : list link_list * clock :=
  match ops with
  | [] => ([], k)
  | Add adds :: ops => run_clock ops (spec_adds adds k)
  | Tick a1 a2 :: ops =>
      let '(out, k) := spec_update a1 a2 k in
      let '(outs, k) := run_clock ops k in (out :: outs, k)
  end.

(** The times [skynet_timeout] passes to [timer_add]: positive [int]s. *)
Definition good_adds (adds : list request) : Prop := Forall (fun r => 0 < snd r <= INT_MAX) adds.
Definition good_op (op : timer_op) : Prop :=
  match op with Add adds => good_adds adds | Tick a1 a2 => good_adds a1 /\ good_adds a2 end.

(** ** Arithmetic of the levels *)

(** The list [timer_shift] moves down when the time becomes [ct]. *)
Definition moved (ct : Z) : option place :=
  if ct =? 0 then Some (Level 3 0)
  else if negb (ct mod 2 ^ 8 =? 0) then None
  else if negb ((ct / 2 ^ 8) mod 64 =? 0) then Some (Level 0 ((ct / 2 ^ 8) mod 64))
  else if negb ((ct / 2 ^ 14) mod 64 =? 0) then Some (Level 1 ((ct / 2 ^ 14) mod 64))
  else if negb ((ct / 2 ^ 20) mod 64 =? 0) then Some (Level 2 ((ct / 2 ^ 20) mod 64))
  else Some (Level 3 ((ct / 2 ^ 26) mod 64)).

Lemma place_of_valid e t : is_u32 e -> valid_place (place_of e t).
Proof.
  intros He. unfold place_of, valid_place.
  repeat case_match; inv_res; simplify_eq; repeat split; try apply Z.mod_pos_bound; lia.
Qed.

(** The digits of a time: 8 bits, then three times 6 bits and the top 6 bits. *)
Record digits (x r ra a rb b rc c d : Z) : Prop := Digits {
  dg_r : 0 <= r < 256; dg_x : x = 256 * a + r;
  dg_ra : 0 <= ra < 64; dg_a : a = 64 * b + ra;
  dg_rb : 0 <= rb < 64; dg_b : b = 64 * c + rb;
  dg_rc : 0 <= rc < 64; dg_c : c = 64 * d + rc;
  dg_d : 0 <= d < 64
}.

Lemma digits_exist x : is_u32 x -> exists r ra a rb b rc c d, digits x r ra a rb b rc c d.
Proof.
  intros Hx. unfold is_u32 in Hx.
  exists (x mod 256), (x / 256 mod 64), (x / 256), (x / 256 / 64 mod 64), (x / 256 / 64),
    (x / 256 / 64 / 64 mod 64), (x / 256 / 64 / 64), (x / 256 / 64 / 64 / 64).
  assert (0 <= x / 256 < 2 ^ 24) by dlia. assert (0 <= x / 256 / 64 < 2 ^ 18) by dlia.
  assert (0 <= x / 256 / 64 / 64 < 2 ^ 12) by dlia.
  constructor; dlia.
Qed.

Lemma digits_div x r ra a rb b rc c d : digits x r ra a rb b rc c d ->
  x / 2 ^ 8 = a /\ x / 2 ^ 14 = b /\ x / 2 ^ 20 = c /\ x / 2 ^ 26 = d /\
  x mod 2 ^ 8 = r /\ a mod 64 = ra /\ b mod 64 = rb /\ c mod 64 = rc /\ d mod 64 = d.
Proof.
  intros []. split_and!; symmetry;
    [apply (Z.div_unique_pos x _ _ r)|apply (Z.div_unique_pos x _ _ (r + 256 * ra))
    |apply (Z.div_unique_pos x _ _ (r + 256 * (ra + 64 * rb)))
    |apply (Z.div_unique_pos x _ _ (r + 256 * (ra + 64 * (rb + 64 * rc))))
    |apply (Z.mod_unique_pos x _ a)|apply (Z.mod_unique_pos a _ b)|apply (Z.mod_unique_pos b _ c)
    |apply (Z.mod_unique_pos c _ d)|apply (Z.mod_unique_pos d _ 0)]; lia.
Qed.

(** The digits of [t + 1]: what a carry out of each digit does. *)
Lemma digits_succ t r ra a rb b rc c d : digits t r ra a rb b rc c d -> t < 2 ^ 32 - 1 ->
  exists r' ra' a' rb' b' rc' c' d', digits (t + 1) r' ra' a' rb' b' rc' c' d' /\
  ((r' <> 0 /\ a' = a /\ b' = b /\ c' = c /\ d' = d) \/
   (r = 255 /\ r' = 0 /\ a' = a + 1 /\ ra' <> 0 /\ b' = b /\ c' = c /\ d' = d) \/
   (r = 255 /\ ra = 63 /\ r' = 0 /\ a' = a + 1 /\ ra' = 0 /\ b' = b + 1 /\ rb' <> 0 /\ c' = c /\ d' = d) \/
   (r = 255 /\ ra = 63 /\ rb = 63 /\ r' = 0 /\ a' = a + 1 /\ ra' = 0 /\ b' = b + 1 /\ rb' = 0 /\ c' = c + 1 /\ rc' <> 0 /\ d' = d) \/
   (r = 255 /\ ra = 63 /\ rb = 63 /\ rc = 63 /\ r' = 0 /\ a' = a + 1 /\ ra' = 0 /\ b' = b + 1 /\ rb' = 0 /\ c' = c + 1 /\ rc' = 0 /\ d' = d + 1)).
Proof.
  intros [] Hlt. destruct (Z.eq_dec r 255) as [->|].
  2:{ exists (r + 1), ra, a, rb, b, rc, c, d. split; [constructor|]; lia. }
  destruct (Z.eq_dec ra 63) as [->|].
  2:{ exists 0, (ra + 1), (a + 1), rb, b, rc, c, d. split; [constructor|]; lia. }
  destruct (Z.eq_dec rb 63) as [->|].
  2:{ exists 0, 0, (a + 1), (rb + 1), (b + 1), rc, c, d. split; [constructor|]; lia. }
  destruct (Z.eq_dec rc 63) as [->|].
  2:{ exists 0, 0, (a + 1), 0, (b + 1), (rc + 1), (c + 1), d. split; [constructor|]; lia. }
  exists 0, 0, (a + 1), 0, (b + 1), 0, (c + 1), (d + 1). split; [constructor|]; lia.
Qed.

(** [ahead] by blocks: [e] is later, or its top block differs. *)
Lemma ahead_later e t : is_u32 t -> ahead e t -> e <> t -> e > t \/ e / 2 ^ 26 <> t / 2 ^ 26.
Proof.
  intros Ht [He Ha] Hne. unfold is_u32 in *. destruct (Z.lt_ge_cases t e); [lia|]. right.
  rewrite <- (Z_mod_plus_full _ 1), Z.mod_small in Ha by lia. intros E.
  pose proof (Z.div_mod e (2 ^ 26)). pose proof (Z.div_mod t (2 ^ 26)).
  pose proof (Z.mod_pos_bound e (2 ^ 26)). pose proof (Z.mod_pos_bound t (2 ^ 26)). lia.
Qed.

(** One tick changes the place of no node but those of the list it moves. *)
Lemma place_step_carry e t : is_u32 t -> is_u32 e -> t < 2 ^ 32 - 1 -> e > t \/ e / 2 ^ 26 <> t / 2 ^ 26 ->
  place_of e (t + 1) = place_of e t \/ moved (t + 1) = Some (place_of e t).
Proof.
  intros Ht He Hlt Hgt.
  destruct (digits_exist e He) as (r & ra & a & rb & b & rc & c & d & De).
  destruct (digits_exist t Ht) as (s & sa & A & sb & B & sc & C & D & Dt).
  destruct (digits_succ _ _ _ _ _ _ _ _ _ Dt Hlt) as (s' & sa' & A' & sb' & B' & sc' & C' & D' & Dt' & Hcarry).
  pose proof (digits_div _ _ _ _ _ _ _ _ _ De) as (E1 & E2 & E3 & E4 & E5 & E6 & E7 & E8 & E9).
  pose proof (digits_div _ _ _ _ _ _ _ _ _ Dt) as (F1 & F2 & F3 & F4 & _).
  pose proof (digits_div _ _ _ _ _ _ _ _ _ Dt') as (G1 & G2 & G3 & G4 & G5 & G6 & G7 & G8 & G9).
  unfold place_of, moved. rewrite E4, F4 in Hgt.
  rewrite E1, E2, E3, E4, E5, F1, F2, F3, F4, G1, G2, G3, G4, G5, E6, E7, E8, E9, G6, G7, G8, G9.
  clear E1 E2 E3 E4 E5 F1 F2 F3 F4 G1 G2 G3 G4 G5 E6 E7 E8 E9 G6 G7 G8 G9.
  destruct De, Dt, Dt'.
  destruct (Z.eqb_spec (t + 1) 0); [lia|].
  destruct Hcarry as [Hc|[Hc|[Hc|[Hc|Hc]]]]; inv_ands; subst A' B' C' D'; subst; zprune;
    first [left; reflexivity | right; do 2 f_equal; lia | left; do 2 f_equal; lia].
Qed.

Lemma place_step e t : is_u32 t -> ahead e t -> e <> t ->
  place_of e (u32 (t + 1)) = place_of e t \/ moved (u32 (t + 1)) = Some (place_of e t).
Proof.
  intros Ht Ha Hne. pose proof (ahead_later e t Ht Ha Hne) as Hgt. destruct Ha as [He Ha].
  destruct (Z.eq_dec t (2 ^ 32 - 1)) as [->|Hlt].
  - change (u32 (2 ^ 32 - 1 + 1)) with 0. change ((2 ^ 32 - 1) / 2 ^ 26) with 63 in Hgt.
    destruct (digits_exist e He) as (r & ra & a & rb & b & rc & c & d & De).
    pose proof (digits_div _ _ _ _ _ _ _ _ _ De) as (E1 & E2 & E3 & E4 & E5 & E6 & E7 & E8 & E9).
    unfold place_of, moved. rewrite E4 in Hgt. rewrite E1, E2, E3, E4, E5, E6, E7, E8, E9.
    change (0 / 2 ^ 8) with 0. change (0 / 2 ^ 14) with 0. change (0 / 2 ^ 20) with 0. change (0 / 2 ^ 26) with 0.
    change ((2 ^ 32 - 1) / 2 ^ 8) with 16777215. change ((2 ^ 32 - 1) / 2 ^ 14) with 262143.
    change ((2 ^ 32 - 1) / 2 ^ 20) with 4095. change ((2 ^ 32 - 1) / 2 ^ 26) with 63.
    unfold is_u32 in *. destruct De. cbn [Z.eqb]. zprune; first [left; reflexivity | right; do 2 f_equal; lia].
  - unfold is_u32 in *. rewrite u32_small by (unfold is_u32; lia). apply place_step_carry; unfold is_u32; lia.
Qed.

(** ** Updating one list of the wheel *)

Definition upd (T : timer) (p : place) (s : link_list) : timer :=
  match p with
  | Near idx => set_near (<[Z.to_nat idx := s]> (t_near T)) T
  | Level i idx => set_t (alter (fun row => <[Z.to_nat idx := s]> row) (Z.to_nat i) (t_t T)) T
  end.

(** The arrays have the sizes of the declaration. *)
Record wheel_ok (T : timer) : Prop := WheelOk {
  wo_near : length (t_near T) = 256%nat;
  wo_t : length (t_t T) = 4%nat;
  wo_rows : Forall (fun row => length row = 64%nat) (t_t T)
}.

Lemma timer_rep_ok T l : timer_rep T l -> wheel_ok T.
Proof. intros []. by constructor. Qed.

Lemma upd_ok T p s : wheel_ok T -> wheel_ok (upd T p s).
Proof.
  intros []. destruct p; constructor; cbn; rewrite ?length_insert, ?length_alter; try done.
  apply Forall_lookup. intros i' row Hr. destruct (decide (Z.to_nat i = i')) as [<-|].
  - rewrite list_lookup_alter_eq in Hr. apply fmap_Some in Hr as (row' & Hr & ->).
    rewrite length_insert. by eapply Forall_lookup_1 in wo_rows0.
  - rewrite list_lookup_alter_ne in Hr by done. by eapply Forall_lookup_1 in wo_rows0.
Qed.

Lemma upd_time T p s : t_time (upd T p s) = t_time T.
Proof. by destruct p. Qed.

Lemma slot_exists T p : wheel_ok T -> valid_place p -> exists s, slot T p = Some s.
Proof.
  intros [] Hv. destruct p as [idx|i idx]; cbn in *.
  - apply lookup_lt_is_Some_2. lia.
  - destruct (lookup_lt_is_Some_2 (t_t T) (Z.to_nat i)) as [row Hr]; [lia|]. rewrite Hr. cbn.
    apply lookup_lt_is_Some_2. eapply Forall_lookup_1 in wo_rows0; [|done]. lia.
Qed.

Lemma slot_upd_eq T p s : wheel_ok T -> valid_place p -> slot (upd T p s) p = Some s.
Proof.
  intros [] Hv. destruct p as [idx|i idx]; cbn in *.
  - apply list_lookup_insert_eq. lia.
  - rewrite list_lookup_alter_eq. destruct (lookup_lt_is_Some_2 (t_t T) (Z.to_nat i)) as [row Hr]; [lia|].
    rewrite Hr. cbn. eapply Forall_lookup_1 in wo_rows0; [|done]. apply list_lookup_insert_eq. lia.
Qed.

Lemma slot_upd_ne T p p' s : valid_place p -> valid_place p' -> p <> p' -> slot (upd T p s) p' = slot T p'.
Proof.
  intros Hv Hv' Hne. destruct p as [idx|i idx], p' as [idx'|i' idx']; cbn in *; try done.
  - apply list_lookup_insert_ne. intros E. apply Hne. f_equal. lia.
  - destruct (decide (i = i')) as [<-|].
    + rewrite list_lookup_alter_eq. destruct (t_t T !! Z.to_nat i) as [row|]; cbn; [|done].
      apply list_lookup_insert_ne. intros E. apply Hne. f_equal. lia.
    + rewrite list_lookup_alter_ne by lia. done.
Qed.

Lemma shiftr_mask z n : 0 <= n -> Z.land (Z.shiftr z n) TIME_LEVEL_MASK = (z / 2 ^ n) mod 64.
Proof. intros. change TIME_LEVEL_MASK with (2 ^ 6 - 1). by rewrite land_pred_pow2, shiftr_div. Qed.

Lemma lor_mask_eqb a b m k : 0 <= k -> m = 2 ^ k - 1 ->
  (Z.lor a m =? Z.lor b m) = (a / 2 ^ k =? b / 2 ^ k).
Proof.
  intros Hk ->. destruct (Z.eqb_spec (a / 2 ^ k) (b / 2 ^ k)) as [E|E].
  - apply Z.eqb_eq. by apply lor_mask_eq.
  - apply Z.eqb_neq. intros E'. apply E. by apply lor_mask_eq.
Qed.

(** The list and the index [add_node] computes. *)
Lemma add_node_place e t :
  (if Z.lor e TIME_NEAR_MASK =? Z.lor t TIME_NEAR_MASK then Near (Z.land e TIME_NEAR_MASK)
   else let i := level_loop 3 0 (Z.shiftl TIME_NEAR TIME_LEVEL_SHIFT) e t in
        Level i (Z.land (Z.shiftr e (TIME_NEAR_SHIFT + i * TIME_LEVEL_SHIFT)) TIME_LEVEL_MASK)) = place_of e t.
Proof.
  unfold place_of, level_loop. rewrite (lor_mask_eqb e t TIME_NEAR_MASK 8) by done.
  change TIME_NEAR_MASK with (2 ^ 8 - 1). rewrite land_pred_pow2 by done.
  case_match; [done|]. rewrite (lor_mask_eqb e t _ 14) by done. case_match; [by rewrite shiftr_mask|].
  rewrite (lor_mask_eqb e t _ 20) by done. case_match; [by rewrite shiftr_mask|].
  rewrite (lor_mask_eqb e t _ 26) by done. case_match; by rewrite shiftr_mask.
Qed.

Lemma list_insert_alter {A} (l : list A) i (f : A -> A) x : l !! i = Some x -> <[i := f x]> l = alter f i l.
Proof.
  revert i. induction l as [|y l IH]; intros [|i] H; cbn in *; simplify_eq; [done|].
  unfold insert, list_insert, alter, list_alter in *. by rewrite IH.
Qed.

Lemma add_node_spec T n s : wheel_ok T -> is_u32 (tn_expire n) ->
  slot T (place_of (tn_expire n) (t_time T)) = Some s ->
  add_node T n = Ok (upd T (place_of (tn_expire n) (t_time T)) (s ++ [n])).
Proof.
  intros [] He. pose proof (place_of_valid _ (t_time T) He) as Hv.
  rewrite <- add_node_place in *. unfold add_node. case_match; cbn in *; intros Hs.
  - rewrite (zget_Some _ _ _ (proj1 Hv) Hs). cbn. rewrite zset_Ok by zlia. done.
  - destruct (t_t T !! _) as [row|] eqn:Hr; [|done]. cbn in Hs. destruct Hv as [Hi Hj].
    rewrite (zget_Some _ _ _ (proj1 Hi) Hr). cbn. rewrite (zget_Some _ _ _ (proj1 Hj) Hs). cbn.
    pose proof (Forall_lookup_1 _ _ _ _ wo_rows0 Hr). rewrite zset_Ok by zlia. cbn.
    rewrite zset_Ok by zlia. cbn. do 2 f_equal. by erewrite list_insert_alter.
Qed.

Lemma move_list_spec T i idx s : wheel_ok T -> valid_place (Level i idx) -> slot T (Level i idx) = Some s ->
  move_list T i idx = add_nodes (upd T (Level i idx) []) s.
Proof.
  intros [] [Hi Hj] Hs. unfold move_list. cbn in Hs. destruct (t_t T !! _) as [row|] eqn:Hr; [|done]. cbn in Hs.
  rewrite (zget_Some _ _ _ (proj1 Hi) Hr). cbn. rewrite (zget_Some _ _ _ (proj1 Hj) Hs). cbn.
  pose proof (Forall_lookup_1 _ _ _ _ wo_rows0 Hr). rewrite zset_Ok by zlia. cbn.
  rewrite zset_Ok by zlia. cbn. f_equal. f_equal. by erewrite list_insert_alter.
Qed.

(** One round of the loop of [timer_shift] at level mask [2 ^ k]. *)
Lemma shift_loop_step fuel T ct k i : 0 <= k ->
  shift_loop (S fuel) T ct (2 ^ k) (Z.shiftr ct k) i =
  if ct mod 2 ^ k =? 0 then
    if negb ((ct / 2 ^ k) mod 64 =? 0) then move_list T i ((ct / 2 ^ k) mod 64)
    else shift_loop fuel T ct (s32 (2 ^ (k + 6))) (Z.shiftr ct (k + 6)) (i + 1)
  else Ok T.
Proof.
  intros Hk. cbn [shift_loop]. rewrite land_pred_pow2, shiftr_mask by done.
  change TIME_LEVEL_SHIFT with 6. rewrite Z.shiftr_shiftr, Z.shiftl_mul_pow2, <- Z.pow_add_r by lia. done.
Qed.

Lemma mod_pow_add x k : 0 <= k -> x mod 2 ^ k = 0 -> (x / 2 ^ k) mod 64 = 0 -> x mod 2 ^ (k + 6) = 0.
Proof.
  intros Hk H1 H2. rewrite Z.pow_add_r by lia. change (2 ^ 6) with 64.
  rewrite Z.rem_mul_r by lia. lia.
Qed.

(** The wheel [timer_shift] moves down: the list [moved] names, if any. *)
Lemma shift_spec T : let ct := u32 (t_time T + 1) in
  timer_shift T = match moved ct with
                  | Some (Level i idx) => move_list (set_time ct T) i idx
                  | _ => Ok (set_time ct T)
                  end.
Proof.
  intros ct. unfold timer_shift. fold ct. unfold moved.
  assert (is_u32 ct) as Hct by apply u32_range. destruct (Z.eqb_spec ct 0); [done|].
  change TIME_NEAR with (2 ^ 8). change TIME_NEAR_SHIFT with 8. rewrite shift_loop_step by done.
  destruct (Z.eqb_spec (ct mod 2 ^ 8) 0) as [E0|]; cbn [negb]; [|done].
  destruct (Z.eqb_spec ((ct / 2 ^ 8) mod 64) 0) as [E1|]; cbn [negb]; [|done].
  change (s32 (2 ^ (8 + 6))) with (2 ^ 14). change (8 + 6) with 14. change (0 + 1) with 1.
  pose proof (mod_pow_add _ 8 ltac:(done) E0 E1 : ct mod 2 ^ 14 = 0) as E3.
  rewrite shift_loop_step, E3 by done. cbn [Z.eqb].
  destruct (Z.eqb_spec ((ct / 2 ^ 14) mod 64) 0) as [E2|]; cbn [negb]; [|done].
  change (s32 (2 ^ (14 + 6))) with (2 ^ 20). change (14 + 6) with 20. change (1 + 1) with 2.
  pose proof (mod_pow_add _ 14 ltac:(done) E3 E2 : ct mod 2 ^ 20 = 0) as E5.
  rewrite shift_loop_step, E5 by done. cbn [Z.eqb].
  destruct (Z.eqb_spec ((ct / 2 ^ 20) mod 64) 0) as [E4|]; cbn [negb]; [|done].
  change (s32 (2 ^ (20 + 6))) with (2 ^ 26). change (20 + 6) with 26. change (2 + 1) with 3.
  pose proof (mod_pow_add _ 20 ltac:(done) E5 E4 : ct mod 2 ^ 26 = 0) as E7.
  rewrite shift_loop_step, E7 by done. cbn [Z.eqb].
  destruct (Z.eqb_spec ((ct / 2 ^ 26) mod 64) 0) as [E6|]; cbn [negb]; [|done].
  exfalso.
  unfold is_u32 in Hct. pose proof (Z.div_mod ct (2 ^ 26)).
  assert (0 <= ct / 2 ^ 26 < 64) by dlia. rewrite Z.mod_small in E6 by done. lia.
Qed.

(** ** Pending nodes up to the order of different expiries *)

(** The same nodes in the same order for every expiry. *)
Definition same_pending (l k : link_list) : Prop := forall e, same_expire e l = same_expire e k.

#[export] Instance same_pending_equiv : Equivalence same_pending.
Proof. split; intros ?; unfold same_pending; [done|intros ? H e; by rewrite H|intros ? ? H1 H2 e; by rewrite H1]. Qed.

Lemma same_expire_app e l k : same_expire e (l ++ k) = same_expire e l ++ same_expire e k.
Proof. apply filter_app. Qed.

#[export] Instance same_pending_app : Proper (same_pending ==> same_pending ==> same_pending) (++).
Proof. intros l l' Hl k k' Hk e. by rewrite !same_expire_app, (Hl e), (Hk e). Qed.

Lemma elem_same_expire n l : n ∈ l <-> n ∈ same_expire (tn_expire n) l.
Proof. unfold same_expire. rewrite list_elem_of_filter. naive_solver. Qed.

Lemma same_pending_elem l k n : same_pending l k -> n ∈ l <-> n ∈ k.
Proof. intros H. by rewrite (elem_same_expire n l), (elem_same_expire n k), (H _). Qed.

Lemma same_expire_nil e l : (forall n, n ∈ l -> tn_expire n <> e) -> same_expire e l = [].
Proof.
  intros H. unfold same_expire. induction l as [|n l IH]; [done|]. rewrite filter_cons_False by (apply H; left).
  apply IH. intros. apply H. by right.
Qed.

Lemma same_expire_all e l : (forall n, n ∈ l -> tn_expire n = e) -> same_expire e l = l.
Proof.
  intros H. unfold same_expire. induction l as [|n l IH]; [done|]. rewrite filter_cons_True by (apply H; left).
  f_equal. apply IH. intros. apply H. by right.
Qed.

(** Keeping nodes by a test on their expiry keeps all or none of each expiry. *)
Lemma same_expire_filter (P : Z -> Prop) `{forall e, Decision (P e)} e l :
  same_expire e (filter (fun n => P (tn_expire n)) l) = if decide (P e) then same_expire e l else [].
Proof.
  unfold same_expire. rewrite list_filter_filter. case_decide as HP.
  - apply list_filter_iff. naive_solver.
  - induction l as [|n l IH]; [done|]. rewrite filter_cons_False by naive_solver. done.
Qed.

#[export] Instance timer_rep_proper : Proper (eq ==> same_pending ==> iff) timer_rep.
Proof.
  assert (forall T l k, same_pending l k -> timer_rep T l -> timer_rep T k) as H.
  { intros T l k E []. constructor; try done.
    - apply Forall_forall. intros n Hn. apply (same_pending_elem l k n E) in Hn.
      by apply (Forall_forall (fun n => ahead (tn_expire n) (t_time T)) l).
    - intros p s Hv Hs. destruct (tr_slots0 p s Hv Hs) as [H1 H2]. split; [done|].
      intros e He. by rewrite H2, (E e). }
  intros T _ <- l k E. split; apply H; [done|by symmetry].
Qed.

(** ** Adding nodes *)

Lemma add_node_rep T l n : timer_rep T l -> ahead (tn_expire n) (t_time T) ->
  exists T', add_node T n = Ok T' /\ timer_rep T' (l ++ [n]) /\ t_time T' = t_time T.
Proof.
  intros HT Ha. pose proof (timer_rep_ok _ _ HT) as Hok.
  pose proof (place_of_valid _ (t_time T) (proj1 Ha)) as Hv.
  destruct (slot_exists T _ Hok Hv) as [s Hs]. eexists. split; [by apply add_node_spec; [|apply Ha|]|].
  split; [|apply upd_time]. destruct HT, (upd_ok T (place_of (tn_expire n) (t_time T)) (s ++ [n]) Hok).
  constructor; rewrite ?upd_time; try done.
  - apply Forall_app. split; [done|]. by constructor.
  - intros p s' Hp Hs'. destruct (decide (p = place_of (tn_expire n) (t_time T))) as [->|Hne].
    + rewrite slot_upd_eq in Hs' by done. inv_res. destruct (tr_slots0 _ _ Hv Hs) as [H1 H2]. split.
      * apply Forall_app. split; [done|]. by constructor.
      * intros e He. by rewrite !same_expire_app, H2.
    + rewrite slot_upd_ne in Hs' by auto. destruct (tr_slots0 _ _ Hp Hs') as [H1 H2]. split; [done|].
      intros e He. rewrite same_expire_app, H2 by done.
      rewrite (same_expire_nil e [n]); [by rewrite app_nil_r|]. intros m ->%list_elem_of_singleton. congruence.
Qed.

Lemma add_nodes_rep k : forall T l, timer_rep T l -> Forall (fun n => ahead (tn_expire n) (t_time T)) k ->
  exists T', add_nodes T k = Ok T' /\ timer_rep T' (l ++ k) /\ t_time T' = t_time T.
Proof.
  induction k as [|n k IH]; intros T l HT Hk; cbn.
  - rewrite app_nil_r. eauto.
  - inversion Hk; subst. destruct (add_node_rep T l n HT) as (T' & -> & HT' & Ht); [done|]. cbn.
    destruct (IH T' _ HT') as (T'' & E & H' & Ht'); [by rewrite Ht|]. rewrite <- app_assoc in H'. cbn in H'.
    exists T''. by rewrite Ht', Ht.
Qed.

(** The node a request makes. *)
Definition request_node (t : Z) (r : request) : timer_node := TimerNode (u32 (snd r + t)) (fst r).

Lemma request_ahead t r : is_u32 t -> 0 < snd r <= INT_MAX ->
  ahead (tn_expire (request_node t r)) t /\ tn_expire (request_node t r) <> t.
Proof.
  intros Ht Hr. unfold request_node, ahead, u32, wrap, is_u32, INT_MAX in *. cbn.
  split; [split; [apply Z.mod_pos_bound; lia|]|dlia].
  rewrite Zminus_mod_idemp_l. rewrite Z.mod_small; lia.
Qed.

Lemma timer_adds_nodes T adds : forall l, timer_rep T l -> good_adds adds ->
  exists T', timer_adds T adds = Ok T' /\ timer_rep T' (l ++ (request_node (t_time T) <$> adds)) /\ t_time T' = t_time T.
Proof.
  revert T. induction adds as [|[ev d] adds IH]; intros T l HT Hg; cbn.
  - rewrite app_nil_r. eauto.
  - inversion Hg; subst. destruct (request_ahead (t_time T) (ev, d) (tr_time _ _ HT)) as [Ha _]; [done|].
    destruct (add_node_rep T l _ HT Ha) as (T' & E & HT' & Ht). unfold timer_add.
    unfold request_node in E. cbn in E. rewrite E. cbn.
    destruct (IH T' _ HT') as (T'' & E' & H' & Ht'); [done|]. rewrite <- app_assoc, Ht in H'. cbn in H'.
    exists T''. by rewrite Ht', Ht.
Qed.

(** ** Ticks *)

Lemma set_time_ok t T : wheel_ok T -> wheel_ok (set_time t T).
Proof. intros []. by constructor. Qed.

Lemma moved_level ct p : is_u32 ct -> moved ct = Some p -> exists i idx, p = Level i idx /\ valid_place p.
Proof.
  intros Hct. unfold moved. pose proof (Z.mod_pos_bound (ct / 2 ^ 8) 64). pose proof (Z.mod_pos_bound (ct / 2 ^ 14) 64).
  pose proof (Z.mod_pos_bound (ct / 2 ^ 20) 64). pose proof (Z.mod_pos_bound (ct / 2 ^ 26) 64).
  repeat case_match; intros; simplify_eq; eexists _, _; (split; [done|]); cbn; lia.
Qed.

Lemma slot_elem T l p s n : timer_rep T l -> valid_place p -> slot T p = Some s ->
  n ∈ s <-> n ∈ l /\ place_of (tn_expire n) (t_time T) = p.
Proof.
  intros HT Hv Hs. destruct (tr_slots _ _ HT p s Hv Hs) as [H1 H2]. split.
  - intros Hn. pose proof (proj1 (Forall_forall _ _) H1 n Hn) as Hp. split; [|done].
    apply elem_same_expire in Hn. rewrite H2 in Hn by done. by apply elem_same_expire in Hn.
  - intros [Hn Hp]. apply elem_same_expire in Hn. rewrite <- (H2 _ Hp) in Hn. by apply elem_same_expire in Hn.
Qed.

(** Expiry [e] is not in the list moved when the time goes from [t] to [ct]. *)
Definition stays (ct t e : Z) : Prop := moved ct <> Some (place_of e t).

#[export] Instance stays_dec ct t e : Decision (stays ct t e).
Proof. unfold stays. apply _. Defined.

Lemma ahead_step e t : ahead e t -> is_u32 t -> e <> t -> ahead e (u32 (t + 1)).
Proof.
  intros [He Ha] Ht Hne. split; [done|]. unfold u32, wrap, is_u32 in *. rewrite Zminus_mod_idemp_r. dlia.
Qed.

(** One tick later, nothing due: the wheel without the list to move holds the
    nodes that are not in that list. *)
Lemma tick_rep T T' l : let t := t_time T in let ct := u32 (t + 1) in
  timer_rep T l -> (forall n, n ∈ l -> tn_expire n <> t) ->
  wheel_ok T' -> t_time T' = ct ->
  (forall p, valid_place p -> slot T' p = if decide (moved ct = Some p) then Some [] else slot T p) ->
  timer_rep T' (filter (fun n => stays ct t (tn_expire n)) l).
Proof.
  intros t ct HT Hnow [] Ht' Hslot.
  pose proof (tr_ahead _ _ HT) as Hahead. rewrite Forall_forall in Hahead.
  assert (is_u32 ct) as Hct by apply u32_range. pose proof (tr_time _ _ HT) as Ht.
  assert (forall n, n ∈ l -> place_of (tn_expire n) ct = place_of (tn_expire n) t \/ moved ct = Some (place_of (tn_expire n) t)) as Hstep.
  { intros n Hn. apply place_step; auto. }
  constructor; try rewrite Ht'; try done.
  - apply Forall_forall. intros n [_ Hn]%list_elem_of_filter. apply ahead_step; auto.
  - intros p s Hv Hs. rewrite Hslot in Hs by done. case_decide as Hm.
    + inv_res. split; [constructor|]. intros e He. symmetry. apply same_expire_nil.
      intros n [Hn1 Hn]%list_elem_of_filter E. subst e. destruct (Hstep n Hn); [|done]. congruence.
    + destruct (tr_slots _ _ HT p s Hv Hs) as [H1 H2]. rewrite Forall_forall in H1. split.
      * apply Forall_forall. intros n Hn. pose proof (H1 n Hn). apply (slot_elem T l p s) in Hn as [Hn _]; try done.
        fold t in H. destruct (Hstep n Hn); congruence.
      * intros e He. rewrite (same_expire_filter (stays ct t)).
        case_decide as Hm'.
        -- destruct (decide (place_of e t = p)) as [Hp|Hp]; [by apply H2|].
           rewrite !same_expire_nil; [done| |].
           ++ intros n Hn E. subst e. destruct (Hstep n Hn); congruence.
           ++ intros n Hn E. subst e. apply Hp. by apply H1.
        -- apply same_expire_nil. intros n Hn E. subst e. unfold stays in Hm'. apply dec_stable in Hm'. apply Hm. rewrite Hm'. f_equal. by apply H1.
Qed.

Lemma timer_shift_rep T l : timer_rep T l -> (forall n, n ∈ l -> tn_expire n <> t_time T) ->
  exists T', timer_shift T = Ok T' /\ timer_rep T' l /\ t_time T' = u32 (t_time T + 1).
Proof.
  intros HT Hnow. pose proof (timer_rep_ok _ _ HT) as Hok. rewrite shift_spec.
  set (ct := u32 (t_time T + 1)). set (T1 := set_time ct T). assert (is_u32 ct) as Hct by apply u32_range.
  assert (forall p, slot T1 p = slot T p) as Hs1 by (by intros []).
  destruct (moved ct) as [p|] eqn:Hm.
  - destruct (moved_level ct p Hct Hm) as (i & idx & -> & Hv).
    destruct (slot_exists T _ Hok Hv) as [s Hs].
    rewrite (move_list_spec T1 i idx s) by (try apply set_time_ok; done).
    assert (timer_rep (upd T1 (Level i idx) []) (filter (fun n => stays ct (t_time T) (tn_expire n)) l)) as H1.
    { apply (tick_rep T); try done; [by apply upd_ok, set_time_ok|]. fold ct. intros p Hp. case_decide as E.
      - rewrite Hm in E. inv_res. apply slot_upd_eq; [by apply set_time_ok|done].
      - rewrite slot_upd_ne; [apply Hs1|done..|congruence]. }
    destruct (add_nodes_rep s _ _ H1) as (T' & -> & H' & Ht'); rewrite upd_time in *.
    { pose proof (tr_time _ _ HT). apply Forall_forall. intros n [Hn _]%(slot_elem T l _ s n HT Hv Hs).
      pose proof (tr_ahead _ _ HT) as Ha. rewrite Forall_forall in Ha. apply ahead_step; auto. }
    exists T'. split_and!; try done. revert H'. apply timer_rep_proper; [done|].
    intros e. rewrite same_expire_app, (same_expire_filter (stays ct (t_time T))).
    destruct (tr_slots _ _ HT _ _ Hv Hs) as [H2 H3]. rewrite Forall_forall in H2. case_decide as E.
    + rewrite (same_expire_nil e s), app_nil_r; [done|]. intros n Hn <-. apply E. rewrite Hm. f_equal. symmetry. by apply H2.
    + unfold stays in E. apply dec_stable in E. symmetry. apply H3. congruence.
  - exists T1. split_and!; try done. assert (timer_rep T1 (filter (fun n => stays ct (t_time T) (tn_expire n)) l)) as H1.
    { apply (tick_rep T); try done; [by apply set_time_ok|]. intros p Hp. fold ct. rewrite Hm. by case_decide. }
    revert H1. apply timer_rep_proper; [done|]. intros e.
    rewrite (same_expire_filter (stays ct (t_time T))). case_decide as E; [done|].
    exfalso. apply E. unfold stays. congruence.
Qed.

(** The list of the current tick holds the nodes due now. *)
Lemma near_slot T l : timer_rep T l -> let p := Near (t_time T mod 2 ^ 8) in
  valid_place p /\ place_of (t_time T) (t_time T) = p /\ slot T p = Some (same_expire (t_time T) l).
Proof.
  intros HT p. pose proof (tr_time _ _ HT) as Ht.
  assert (place_of (t_time T) (t_time T) = p) as Hp by (unfold place_of; by rewrite Z.eqb_refl).
  pose proof (place_of_valid _ (t_time T) Ht) as Hv. rewrite Hp in Hv. split_and!; [done..|].
  destruct (slot_exists T _ (timer_rep_ok _ _ HT) Hv) as [s Hs]. rewrite Hs. f_equal.
  destruct (tr_slots _ _ HT _ _ Hv Hs) as [H1 H2]. rewrite <- (H2 _ Hp). symmetry. apply same_expire_all.
  intros n Hn. rewrite Forall_forall in H1. specialize (H1 n Hn). unfold place_of, p in H1.
  repeat case_match; simplify_eq.
  pose proof (Z.div_mod (tn_expire n) (2 ^ 8)). pose proof (Z.div_mod (t_time T) (2 ^ 8)). lia.
Qed.

Lemma timer_execute_step fuel adds T l : timer_rep T l ->
  timer_execute (S fuel) adds T =
  match same_expire (t_time T) l with
  | [] => Ok ([], T)
  | out => T ← timer_adds (upd T (Near (t_time T mod 2 ^ 8)) []) adds;
           '(more, T) ← timer_execute fuel [] T; Ok (out ++ more, T)
  end.
Proof.
  intros HT. destruct (near_slot T l HT) as (Hv & Hp & Hs).
  cbn [timer_execute]. change TIME_NEAR_MASK with (2 ^ 8 - 1). rewrite land_pred_pow2 by done.
  rewrite (zget_Some _ _ _ (proj1 Hv) Hs). cbn. destruct (same_expire (t_time T) l) as [|n s]; [done|].
  cbn. rewrite zset_Ok; [done|]. destruct HT. cbn in Hv. zlia.
Qed.

(** Taking the nodes due now off the wheel. *)
Lemma take_rep T l : timer_rep T l ->
  timer_rep (upd T (Near (t_time T mod 2 ^ 8)) []) (filter (fun n => not_due (t_time T) (tn_expire n)) l).
Proof.
  intros HT. destruct (near_slot T l HT) as (Hv & Hp & Hs). pose proof (timer_rep_ok _ _ HT) as Hok.
  destruct (upd_ok T (Near (t_time T mod 2 ^ 8)) [] Hok), HT. constructor; rewrite ?upd_time; try done.
  - apply Forall_forall. intros n [_ Hn]%list_elem_of_filter. rewrite Forall_forall in tr_ahead0. auto.
  - intros p s Hp' Hs'. destruct (decide (p = Near (t_time T mod 2 ^ 8))) as [->|Hne].
    + rewrite slot_upd_eq in Hs' by done. inv_res. split; [constructor|]. intros e He.
      rewrite (same_expire_filter (not_due (t_time T))). case_decide as Hd; [|done].
      destruct (tr_slots0 _ _ Hv Hs) as [_ H2]. rewrite <- (H2 e He).
      symmetry. apply same_expire_nil. intros n [E _]%list_elem_of_filter. congruence.
    + rewrite slot_upd_ne in Hs' by auto. destruct (tr_slots0 _ _ Hp' Hs') as [H1 H2]. split; [done|].
      intros e He. rewrite (same_expire_filter (not_due (t_time T))). case_decide as Hd; [by apply H2|].
      exfalso. apply Hne. unfold not_due in Hd. apply dec_stable in Hd. congruence.
Qed.

Lemma same_expire_requests t adds : is_u32 t -> good_adds adds -> same_expire t (request_node t <$> adds) = [].
Proof.
  intros Ht Hg. apply same_expire_nil. intros n (r & -> & Hr)%list_elem_of_fmap.
  apply request_ahead; [done|]. unfold good_adds in Hg. rewrite Forall_forall in Hg. by apply Hg.
Qed.

(** [timer_execute] takes exactly the nodes due now, in order. *)
Lemma timer_execute_rep T l adds : timer_rep T l -> good_adds adds ->
  let '(out, k) := spec_execute adds (Clock (t_time T) l) in
  exists T', timer_execute 2 adds T = Ok (out, T') /\ timer_rep T' (k_pending k) /\ t_time T' = k_time k /\
  same_expire (k_time k) (k_pending k) = [].
Proof.
  intros HT Hg. unfold spec_execute. cbn [k_time k_pending]. rewrite (timer_execute_step 1 adds T l HT).
  destruct (same_expire (t_time T) l) as [|n s] eqn:E; [by eauto|]. cbn [k_time k_pending spec_adds].
  pose proof (take_rep T l HT) as H1.
  destruct (timer_adds_nodes _ adds _ H1 Hg) as (T' & -> & H' & Ht). rewrite upd_time in *. cbn [mbind result_bind].
  assert (same_expire (t_time T) (filter (fun n => not_due (t_time T) (tn_expire n)) l ++ (request_node (t_time T) <$> adds)) = []) as Hnone.
  { rewrite same_expire_app, same_expire_requests by (try done; apply (tr_time _ _ HT)).
    rewrite app_nil_r. apply same_expire_nil. by intros m [? _]%list_elem_of_filter. }
  rewrite (timer_execute_step 0 [] T' _ H'), Ht, Hnone. cbn. rewrite app_nil_r. eauto.
Qed.

Lemma timer_update_rep T l a1 a2 : timer_rep T l -> good_adds a1 -> good_adds a2 ->
  let '(out, k) := spec_update a1 a2 (Clock (t_time T) l) in
  exists T', timer_update a1 a2 T = Ok (out, T') /\ timer_rep T' (k_pending k) /\ t_time T' = k_time k.
Proof.
  intros HT H1 H2. unfold spec_update, timer_update. pose proof (timer_execute_rep T l a1 HT H1) as Hx.
  destruct (spec_execute a1 (Clock (t_time T) l)) as [out1 k1]. destruct Hx as (T1 & -> & HT1 & Ht1 & Hnone). cbn [mbind result_bind].
  destruct (timer_shift_rep T1 _ HT1) as (T2 & -> & HT2 & Ht2).
  { intros n Hn E. rewrite <- Ht1, <- E in Hnone. apply elem_same_expire in Hn. rewrite Hnone in Hn. by apply not_elem_of_nil in Hn. }
  cbn [mbind result_bind]. pose proof (timer_execute_rep T2 _ a2 HT2 H2) as Hy. rewrite Ht2, Ht1 in Hy.
  destruct (spec_execute a2 _) as [out2 k2]. destruct Hy as (T3 & -> & HT3 & Ht3 & _). eauto.
Qed.

Lemma timer_create_rep : timer_rep timer_create_timer [].
Proof.
  constructor; try done.
  - by repeat constructor.
  - intros p s Hv Hs. assert (s = []) as ->; [|by split; [constructor|]].
    destruct p as [idx|i idx]; cbn [slot timer_create_timer t_near t_t] in Hs.
    + by apply lookup_replicate in Hs as [-> _].
    + destruct (replicate 4 _ !! _) as [row|] eqn:Hr; [|done]. cbn in Hs.
      apply lookup_replicate in Hr as [-> _]. by apply lookup_replicate in Hs as [-> _].
Qed.

Lemma run_timer_rep ops : forall T l, timer_rep T l -> Forall good_op ops ->
  let '(outs, k) := run_clock ops (Clock (t_time T) l) in
  exists T', run_timer ops T = Ok (outs, T') /\ timer_rep T' (k_pending k) /\ t_time T' = k_time k.
Proof.
  induction ops as [|op ops IH]; intros T l HT Hg; cbn [run_timer run_clock]; [by eauto|].
  inversion Hg as [|? ? Hop Hops]; subst. destruct op as [adds|a1 a2].
  - destruct (timer_adds_nodes T adds l HT Hop) as (T' & -> & HT' & Ht).
    specialize (IH T' _ HT' Hops). rewrite Ht in IH. exact IH.
  - destruct Hop as [H1 H2]. pose proof (timer_update_rep T l a1 a2 HT H1 H2) as Hx.
    destruct (spec_update a1 a2 _) as [out k]. destruct Hx as (T1 & -> & HT1 & Ht1). cbn [mbind result_bind].
    specialize (IH T1 _ HT1 Hops). rewrite Ht1 in IH. destruct k as [t p]. cbn in IH.
    destruct (run_clock ops (Clock t p)) as [outs k']. destruct IH as (T2 & -> & ?). eauto.
Qed.

(** ** Properties *)

(** C9. The timing wheel implements a plain list of pending timers: for any
    sequence of [skynet_timeout] requests with positive [int] times and of
    ticks (requests of other threads while the lock is released included),
    the wheel hands out at each tick exactly the timers whose expiry is that
    tick, in the order they were added, over all four levels and the wrap of
    the 32-bit time; no index leaves its array, and each round of a loop ends. *)
Theorem timer_refines_clock ops : Forall good_op ops ->
  exists T', run_timer ops timer_create_timer = Ok (fst (run_clock ops (Clock 0 [])), T') /\
  timer_rep T' (k_pending (snd (run_clock ops (Clock 0 [])))) /\ t_time T' = k_time (snd (run_clock ops (Clock 0 []))).
Proof.
  intros Hg. pose proof (run_timer_rep ops _ _ timer_create_rep Hg) as H.
  change (t_time timer_create_timer) with 0 in H. destruct (run_clock ops (Clock 0 [])) as [outs k]. exact H.
Qed.

Example timer_refines_clock_witness :
  let r := (TimerEvent 7 1, 300) in
  let ops := Add [r; (TimerEvent 8 2, 1)] :: replicate 301 (Tick [] []) in
  Forall good_op ops /\
  (exists T', run_timer ops timer_create_timer = Ok (fst (run_clock ops (Clock 0 [])), T') /\
    timer_rep T' (k_pending (snd (run_clock ops (Clock 0 [])))) /\ t_time T' = k_time (snd (run_clock ops (Clock 0 [])))) /\
  fst (run_clock ops (Clock 0 [])) !! 299%nat = Some [TimerNode 300 (TimerEvent 7 1)].
Proof.
  cbv zeta. assert (forall r1 r2 n, 0 < snd r1 <= INT_MAX -> 0 < snd r2 <= INT_MAX ->
    Forall good_op (Add [r1; r2] :: replicate n (Tick [] []))) as Hg.
  { intros r1 r2 n H1 H2. constructor; [apply Forall_cons; split; [done|by apply Forall_singleton]|]. apply Forall_replicate. split; constructor. }
  split_and!; [apply Hg; unfold INT_MAX; cbn; lia| |vm_compute; reflexivity].
  apply timer_refines_clock, Hg; unfold INT_MAX; cbn; lia.
Defined.
