(* ===== verification/Des.v ===== *)
(** * DES (lualib-src/lua-crypt.c)

    The block cipher with its tables, the padding of [desencode] and the
    checks of [desdecode]. Words are [uint32_t]; the key schedule is the list
    [SK] of 32 words the rounds read through the pointer [SK]. *)
From S2P Require Import Prelude.

(** ** Tables *)

Definition SB1 : list Z := [
   0x01010400; 0x00000000; 0x00010000; 0x01010404; 0x01010004; 0x00010404; 0x00000004; 0x00010000;
   0x00000400; 0x01010400; 0x01010404; 0x00000400; 0x01000404; 0x01010004; 0x01000000; 0x00000004;
   0x00000404; 0x01000400; 0x01000400; 0x00010400; 0x00010400; 0x01010000; 0x01010000; 0x01000404;
   0x00010004; 0x01000004; 0x01000004; 0x00010004; 0x00000000; 0x00000404; 0x00010404; 0x01000000;
   0x00010000; 0x01010404; 0x00000004; 0x01010000; 0x01010400; 0x01000000; 0x01000000; 0x00000400;
   0x01010004; 0x00010000; 0x00010400; 0x01000004; 0x00000400; 0x00000004; 0x01000404; 0x00010404;
   0x01010404; 0x00010004; 0x01010000; 0x01000404; 0x01000004; 0x00000404; 0x00010404; 0x01010400;
   0x00000404; 0x01000400; 0x01000400; 0x00000000; 0x00010004; 0x00010400; 0x00000000; 0x01010004].

Definition SB2 : list Z := [
   0x80108020; 0x80008000; 0x00008000; 0x00108020; 0x00100000; 0x00000020; 0x80100020; 0x80008020;
   0x80000020; 0x80108020; 0x80108000; 0x80000000; 0x80008000; 0x00100000; 0x00000020; 0x80100020;
   0x00108000; 0x00100020; 0x80008020; 0x00000000; 0x80000000; 0x00008000; 0x00108020; 0x80100000;
   0x00100020; 0x80000020; 0x00000000; 0x00108000; 0x00008020; 0x80108000; 0x80100000; 0x00008020;
   0x00000000; 0x00108020; 0x80100020; 0x00100000; 0x80008020; 0x80100000; 0x80108000; 0x00008000;
   0x80100000; 0x80008000; 0x00000020; 0x80108020; 0x00108020; 0x00000020; 0x00008000; 0x80000000;
   0x00008020; 0x80108000; 0x00100000; 0x80000020; 0x00100020; 0x80008020; 0x80000020; 0x00100020;
   0x00108000; 0x00000000; 0x80008000; 0x00008020; 0x80000000; 0x80100020; 0x80108020; 0x00108000].

Definition SB3 : list Z := [
   0x00000208; 0x08020200; 0x00000000; 0x08020008; 0x08000200; 0x00000000; 0x00020208; 0x08000200;
   0x00020008; 0x08000008; 0x08000008; 0x00020000; 0x08020208; 0x00020008; 0x08020000; 0x00000208;
   0x08000000; 0x00000008; 0x08020200; 0x00000200; 0x00020200; 0x08020000; 0x08020008; 0x00020208;
   0x08000208; 0x00020200; 0x00020000; 0x08000208; 0x00000008; 0x08020208; 0x00000200; 0x08000000;
   0x08020200; 0x08000000; 0x00020008; 0x00000208; 0x00020000; 0x08020200; 0x08000200; 0x00000000;
   0x00000200; 0x00020008; 0x08020208; 0x08000200; 0x08000008; 0x00000200; 0x00000000; 0x08020008;
   0x08000208; 0x00020000; 0x08000000; 0x08020208; 0x00000008; 0x00020208; 0x00020200; 0x08000008;
   0x08020000; 0x08000208; 0x00000208; 0x08020000; 0x00020208; 0x00000008; 0x08020008; 0x00020200].

Definition SB4 : list Z := [
   0x00802001; 0x00002081; 0x00002081; 0x00000080; 0x00802080; 0x00800081; 0x00800001; 0x00002001;
   0x00000000; 0x00802000; 0x00802000; 0x00802081; 0x00000081; 0x00000000; 0x00800080; 0x00800001;
   0x00000001; 0x00002000; 0x00800000; 0x00802001; 0x00000080; 0x00800000; 0x00002001; 0x00002080;
   0x00800081; 0x00000001; 0x00002080; 0x00800080; 0x00002000; 0x00802080; 0x00802081; 0x00000081;
   0x00800080; 0x00800001; 0x00802000; 0x00802081; 0x00000081; 0x00000000; 0x00000000; 0x00802000;
   0x00002080; 0x00800080; 0x00800081; 0x00000001; 0x00802001; 0x00002081; 0x00002081; 0x00000080;
   0x00802081; 0x00000081; 0x00000001; 0x00002000; 0x00800001; 0x00002001; 0x00802080; 0x00800081;
   0x00002001; 0x00002080; 0x00800000; 0x00802001; 0x00000080; 0x00800000; 0x00002000; 0x00802080].

Definition SB5 : list Z := [
   0x00000100; 0x02080100; 0x02080000; 0x42000100; 0x00080000; 0x00000100; 0x40000000; 0x02080000;
   0x40080100; 0x00080000; 0x02000100; 0x40080100; 0x42000100; 0x42080000; 0x00080100; 0x40000000;
   0x02000000; 0x40080000; 0x40080000; 0x00000000; 0x40000100; 0x42080100; 0x42080100; 0x02000100;
   0x42080000; 0x40000100; 0x00000000; 0x42000000; 0x02080100; 0x02000000; 0x42000000; 0x00080100;
   0x00080000; 0x42000100; 0x00000100; 0x02000000; 0x40000000; 0x02080000; 0x42000100; 0x40080100;
   0x02000100; 0x40000000; 0x42080000; 0x02080100; 0x40080100; 0x00000100; 0x02000000; 0x42080000;
   0x42080100; 0x00080100; 0x42000000; 0x42080100; 0x02080000; 0x00000000; 0x40080000; 0x42000000;
   0x00080100; 0x02000100; 0x40000100; 0x00080000; 0x00000000; 0x40080000; 0x02080100; 0x40000100].

Definition SB6 : list Z := [
   0x20000010; 0x20400000; 0x00004000; 0x20404010; 0x20400000; 0x00000010; 0x20404010; 0x00400000;
   0x20004000; 0x00404010; 0x00400000; 0x20000010; 0x00400010; 0x20004000; 0x20000000; 0x00004010;
   0x00000000; 0x00400010; 0x20004010; 0x00004000; 0x00404000; 0x20004010; 0x00000010; 0x20400010;
   0x20400010; 0x00000000; 0x00404010; 0x20404000; 0x00004010; 0x00404000; 0x20404000; 0x20000000;
   0x20004000; 0x00000010; 0x20400010; 0x00404000; 0x20404010; 0x00400000; 0x00004010; 0x20000010;
   0x00400000; 0x20004000; 0x20000000; 0x00004010; 0x20000010; 0x20404010; 0x00404000; 0x20400000;
   0x00404010; 0x20404000; 0x00000000; 0x20400010; 0x00000010; 0x00004000; 0x20400000; 0x00404010;
   0x00004000; 0x00400010; 0x20004010; 0x00000000; 0x20404000; 0x20000000; 0x00400010; 0x20004010].

Definition SB7 : list Z := [
   0x00200000; 0x04200002; 0x04000802; 0x00000000; 0x00000800; 0x04000802; 0x00200802; 0x04200800;
   0x04200802; 0x00200000; 0x00000000; 0x04000002; 0x00000002; 0x04000000; 0x04200002; 0x00000802;
   0x04000800; 0x00200802; 0x00200002; 0x04000800; 0x04000002; 0x04200000; 0x04200800; 0x00200002;
   0x04200000; 0x00000800; 0x00000802; 0x04200802; 0x00200800; 0x00000002; 0x04000000; 0x00200800;
   0x04000000; 0x00200800; 0x00200000; 0x04000802; 0x04000802; 0x04200002; 0x04200002; 0x00000002;
   0x00200002; 0x04000000; 0x04000800; 0x00200000; 0x04200800; 0x00000802; 0x00200802; 0x04200800;
   0x00000802; 0x04000002; 0x04200802; 0x04200000; 0x00200800; 0x00000000; 0x00000002; 0x04200802;
   0x00000000; 0x00200802; 0x04200000; 0x00000800; 0x04000002; 0x04000800; 0x00000800; 0x00200002].

Definition SB8 : list Z := [
   0x10001040; 0x00001000; 0x00040000; 0x10041040; 0x10000000; 0x10001040; 0x00000040; 0x10000000;
   0x00040040; 0x10040000; 0x10041040; 0x00041000; 0x10041000; 0x00041040; 0x00001000; 0x00000040;
   0x10040000; 0x10000040; 0x10001000; 0x00001040; 0x00041000; 0x00040040; 0x10040040; 0x10041000;
   0x00001040; 0x00000000; 0x00000000; 0x10040040; 0x10000040; 0x10001000; 0x00041040; 0x00040000;
   0x00041040; 0x00040000; 0x10041000; 0x00001000; 0x00000040; 0x10040040; 0x00001000; 0x00041040;
   0x10001000; 0x00000040; 0x10000040; 0x10040000; 0x10040040; 0x10000000; 0x00040000; 0x10001040;
   0x00000000; 0x10041040; 0x00040040; 0x10000040; 0x10040000; 0x10001000; 0x10001040; 0x00000000;
   0x10041040; 0x00041000; 0x00041000; 0x00001040; 0x00001040; 0x00040040; 0x10000000; 0x10041000].

Definition LHs : list Z := [
   0x00000000; 0x00000001; 0x00000100; 0x00000101; 0x00010000; 0x00010001; 0x00010100; 0x00010101;
   0x01000000; 0x01000001; 0x01000100; 0x01000101; 0x01010000; 0x01010001; 0x01010100; 0x01010101].

Definition RHs : list Z := [
   0x00000000; 0x01000000; 0x00010000; 0x01010000; 0x00000100; 0x01000100; 0x00010100; 0x01010100;
   0x00000001; 0x01000001; 0x00010001; 0x01010001; 0x00000101; 0x01000101; 0x00010101; 0x01010101].

(** ** Words *)

(** [x << n] on [uint32_t]. *)
Definition shl (x n : Z) : Z := u32 (Z.shiftl x n).

Definition ors (l : list Z) : Z := foldr Z.lor 0 l.

(** Table lookup; the index is masked to the size of the table. *)
Definition tbl (t : list Z) (i : Z) : Z := nth (Z.to_nat i) t 0.

Definition GET_UINT32 (b : list Z) (i : Z) : result Z :=
  b0 ← zget b i; b1 ← zget b (i + 1); b2 ← zget b (i + 2); b3 ← zget b (i + 3);
  Ok (ors [Z.shiftl b0 24; Z.shiftl b1 16; Z.shiftl b2 8; b3]).

Definition PUT_UINT32 (n : Z) : list Z := [u8 (Z.shiftr n 24); u8 (Z.shiftr n 16); u8 (Z.shiftr n 8); u8 n].

(** ** Permutations *)

(** [T = ((X >> n) ^ Y) & m; Y ^= T; X ^= (T << n);] *)
Definition swap_bits (n m : Z) (xy : Z * Z) : Z * Z :=
  let '(x, y) := xy in
  let t := Z.land (Z.lxor (Z.shiftr x n) y) m in
  (Z.lxor x (shl t n), Z.lxor y t).

Definition rol1 (x : Z) : Z := Z.land (Z.lor (shl x 1) (Z.shiftr x 31)) 0xFFFFFFFF.
Definition ror1 (x : Z) : Z := Z.land (Z.lor (shl x 31) (Z.shiftr x 1)) 0xFFFFFFFF.

Definition flip {A} (xy : A * A) : A * A := (snd xy, fst xy).

Definition DES_IP (xy : Z * Z) : Z * Z :=
  let xy := swap_bits 4 0x0F0F0F0F xy in
  let xy := swap_bits 16 0x0000FFFF xy in
  let xy := flip (swap_bits 2 0x33333333 (flip xy)) in
  let xy := flip (swap_bits 8 0x00FF00FF (flip xy)) in
  let xy := (fst xy, rol1 (snd xy)) in
  let xy := swap_bits 0 0xAAAAAAAA xy in
  (rol1 (fst xy), snd xy).

Definition DES_FP (xy : Z * Z) : Z * Z :=
  let xy := (ror1 (fst xy), snd xy) in
  let xy := swap_bits 0 0xAAAAAAAA xy in
  let xy := (fst xy, ror1 (snd xy)) in
  let xy := flip (swap_bits 8 0x00FF00FF (flip xy)) in
  let xy := flip (swap_bits 2 0x33333333 (flip xy)) in
  let xy := swap_bits 16 0x0000FFFF xy in
  swap_bits 4 0x0F0F0F0F xy.

(** ** Rounds *)

(** What [DES_ROUND] with the key words [k0] and [k1] xors into [Y]. *)
Definition round_mask (k0 k1 x : Z) : Z :=
  let t := Z.lxor k0 x in
  let a := Z.lxor (Z.lxor (Z.lxor (tbl SB8 (Z.land t 0x3F)) (tbl SB6 (Z.land (Z.shiftr t 8) 0x3F)))
                   (tbl SB4 (Z.land (Z.shiftr t 16) 0x3F))) (tbl SB2 (Z.land (Z.shiftr t 24) 0x3F)) in
  let t := Z.lxor k1 (Z.lor (shl x 28) (Z.shiftr x 4)) in
  let b := Z.lxor (Z.lxor (Z.lxor (tbl SB7 (Z.land t 0x3F)) (tbl SB5 (Z.land (Z.shiftr t 8) 0x3F)))
                   (tbl SB3 (Z.land (Z.shiftr t 16) 0x3F))) (tbl SB1 (Z.land (Z.shiftr t 24) 0x3F)) in
  Z.lxor a b.

(** Returns [Y] and the advanced pointer. *)
Definition DES_ROUND (SK : list Z) (x y : Z) : result (Z * list Z) :=
  match SK with
  | k0 :: k1 :: SK => Ok (Z.lxor y (round_mask k0 k1 x), SK)
  | _ => Fault
  end.

(** [n] times [DES_ROUND( Y, X );  DES_ROUND( X, Y );]. *)
Fixpoint des_rounds (n : nat) (SK : list Z) (x y : Z) : result (Z * Z) :=
  match n with
  | O => Ok (x, y)
  | S n =>
      '(x, SK) ← DES_ROUND SK y x;
      '(y, SK) ← DES_ROUND SK x y;
      des_rounds n SK x y
  end.

Definition des_crypt (SK input : list Z) : result (list Z) :=
  x ← GET_UINT32 input 0;
  y ← GET_UINT32 input 4;
  let '(x, y) := DES_IP (x, y) in
  '(x, y) ← des_rounds 8 SK x y;
  let '(y, x) := DES_FP (y, x) in
  Ok (PUT_UINT32 y ++ PUT_UINT32 x).

(** ** Key schedule *)

Definition subkey_0 (x y : Z) : Z := ors [
  Z.land (shl x 4) 0x24000000; Z.land (shl x 28) 0x10000000;
  Z.land (shl x 14) 0x08000000; Z.land (shl x 18) 0x02080000;
  Z.land (shl x 6) 0x01000000; Z.land (shl x 9) 0x00200000;
  Z.land (Z.shiftr x 1) 0x00100000; Z.land (shl x 10) 0x00040000;
  Z.land (shl x 2) 0x00020000; Z.land (Z.shiftr x 10) 0x00010000;
  Z.land (Z.shiftr y 13) 0x00002000; Z.land (Z.shiftr y 4) 0x00001000;
  Z.land (shl y 6) 0x00000800; Z.land (Z.shiftr y 1) 0x00000400;
  Z.land (Z.shiftr y 14) 0x00000200; Z.land y 0x00000100;
  Z.land (Z.shiftr y 5) 0x00000020; Z.land (Z.shiftr y 10) 0x00000010;
  Z.land (Z.shiftr y 3) 0x00000008; Z.land (Z.shiftr y 18) 0x00000004;
  Z.land (Z.shiftr y 26) 0x00000002; Z.land (Z.shiftr y 24) 0x00000001].

Definition subkey_1 (x y : Z) : Z := ors [
  Z.land (shl x 15) 0x20000000; Z.land (shl x 17) 0x10000000;
  Z.land (shl x 10) 0x08000000; Z.land (shl x 22) 0x04000000;
  Z.land (Z.shiftr x 2) 0x02000000; Z.land (shl x 1) 0x01000000;
  Z.land (shl x 16) 0x00200000; Z.land (shl x 11) 0x00100000;
  Z.land (shl x 3) 0x00080000; Z.land (Z.shiftr x 6) 0x00040000;
  Z.land (shl x 15) 0x00020000; Z.land (Z.shiftr x 4) 0x00010000;
  Z.land (Z.shiftr y 2) 0x00002000; Z.land (shl y 8) 0x00001000;
  Z.land (Z.shiftr y 14) 0x00000808; Z.land (Z.shiftr y 9) 0x00000400;
  Z.land y 0x00000200; Z.land (shl y 7) 0x00000100;
  Z.land (Z.shiftr y 7) 0x00000020; Z.land (Z.shiftr y 3) 0x00000011;
  Z.land (shl y 2) 0x00000004; Z.land (Z.shiftr y 21) 0x00000002].

(** Permuted Choice 1 on the words of the key. *)
Definition pc1 (x y : Z) : Z * Z :=
  let t := Z.land (Z.lxor (Z.shiftr y 4) x) 0x0F0F0F0F in
  let '(x, y) := (Z.lxor x t, Z.lxor y (shl t 4)) in
  let t := Z.land (Z.lxor y x) 0x10101010 in
  let '(x, y) := (Z.lxor x t, Z.lxor y t) in
  let lh n k := shl (tbl LHs (Z.land (Z.shiftr x n) 0xF)) k in
  let rh n k := shl (tbl RHs (Z.land (Z.shiftr y n) 0xF)) k in
  (Z.land (ors [lh 0 3; lh 8 2; lh 16 1; lh 24 0; lh 5 7; lh 13 6; lh 21 5; lh 29 4]) 0x0FFFFFFF,
   Z.land (ors [rh 1 3; rh 9 2; rh 17 1; rh 25 0; rh 4 7; rh 12 6; rh 20 5; rh 28 4]) 0x0FFFFFFF).

Definition rol28 (n x : Z) : Z := Z.land (Z.lor (shl x n) (Z.shiftr x (28 - n))) 0x0FFFFFFF.

(** The subkeys of rounds [i], [i + 1], ..., [k] of them. *)
Fixpoint subkeys (k : nat) (i x y : Z) : list Z :=
  match k with
  | O => []
  | S k =>
      let n := if (i <? 2) || (i =? 8) || (i =? 15) then 1 else 2 in
      let x := rol28 n x in
      let y := rol28 n y in
      subkey_0 x y :: subkey_1 x y :: subkeys k (i + 1) x y
  end.

Definition des_main_ks (key : list Z) : result (list Z) :=
  x ← GET_UINT32 key 0;
  y ← GET_UINT32 key 4;
  let '(x, y) := pc1 x y in
  Ok (subkeys 16 0 x y).

(** ** Lua functions *)

Definition des_key (key : list Z) : result (list Z) :=
  if negb (zlen key =? 8) then LuaError "Invalid key size" else des_main_ks key.

(** [for (;i<bound;i+=8) des_crypt(SK, text+i, buffer+i);] *)
Fixpoint crypt_loop (fuel : nat) (SK text : list Z) (i bound : Z) (buffer : list Z) : result (list Z * Z) :=
  match fuel with
  | O => Fault
  | S fuel =>
      if i <? bound then
        block ← slice text i 8;
        out ← des_crypt SK block;
        crypt_loop fuel SK text (i + 8) bound (buffer ++ out)
      else Ok (buffer, i)
  end.

Definition blocks_fuel (text : list Z) : nat := S (length text).

(** The last block: the [bytes] bytes left, 0x80 and zeros. *)
Definition tail_block (text : list Z) (i bytes : Z) : result (list Z) :=
  mapM (fun j => if j <? bytes then zget text (i + j) else Ok (if j =? bytes then 128 else 0)) (seqZ 0 8).

(** The lengths and the index are [int]s, so longer texts are undefined. *)
Definition ldesencode (key text : list Z) : result (list Z) :=
  SK ← des_key key;
  let textsz := zlen text in
  _ ← assert_ (textsz <=? INT_MAX - 8);
  '(buffer, i) ← crypt_loop (blocks_fuel text) SK text 0 (textsz - 7) [];
  tail ← tail_block text i (textsz - i);
  out ← des_crypt SK tail;
  Ok (buffer ++ out).

(** [SK[i] = ESK[30 - i]; SK[i + 1] = ESK[31 - i];] for [i = 0, 2, ..., 30]. *)
Definition reverse_ks (ESK : list Z) : result (list Z) :=
  ks ← mapM (fun i => a ← zget ESK (30 - 2 * i); b ← zget ESK (31 - 2 * i); Ok [a; b]) (seqZ 0 16);
  Ok (concat ks).

(** [for (i=textsz-1;i>=textsz-8;i--)]: the [int] [i] is compared with a
    [size_t], so -1 counts as 2^64 - 1. *)
Fixpoint padding_loop (fuel : nat) (buffer : list Z) (textsz i padding : Z) : result Z :=
  match fuel with
  | O => Fault
  | S fuel =>
      if u64 (textsz - 8) <=? u64 i then
        b ← zget buffer i;
        if b =? 0 then padding_loop fuel buffer textsz (i - 1) (padding + 1)
        else if b =? 128 then Ok padding
        else LuaError "Invalid des crypt text"
      else Ok padding
  end.

Definition ldesdecode (key text : list Z) : result (list Z) :=
  ESK ← des_key key;
  SK ← reverse_ks ESK;
  let textsz := zlen text in
  if negb (Z.land textsz 7 =? 0) || (textsz =? 0) then LuaError "Invalid des crypt text length"
  else
    _ ← assert_ (textsz <=? INT_MAX - 8);
    '(buffer, _) ← crypt_loop (blocks_fuel text) SK text 0 textsz [];
    padding ← padding_loop 10 buffer textsz (textsz - 1) 1;
    if 8 <? padding then LuaError "Invalid des crypt text"
    else slice buffer 0 (textsz - padding).

(** ** Test vector *)

Example des_test_vector :
  (SK ← des_main_ks [0x13; 0x34; 0x57; 0x79; 0x9B; 0xBC; 0xDF; 0xF1];
   des_crypt SK [0x01; 0x23; 0x45; 0x67; 0x89; 0xAB; 0xCD; 0xEF]) =
  Ok [0x85; 0xE8; 0x13; 0x54; 0x0F; 0x0A; 0xB4; 0x05].
Proof. vm_compute. reflexivity. Qed.

(** ** Words *)

(** A word is its four bytes, high byte first. *)
Lemma GET_UINT32_Ok b i b0 b1 b2 b3 : zget b i = Ok b0 -> zget b (i + 1) = Ok b1 -> zget b (i + 2) = Ok b2 ->
  zget b (i + 3) = Ok b3 -> bytes [b0; b1; b2; b3] -> GET_UINT32 b i = Ok (be_val [b0; b1; b2; b3]).
Proof.
  intros E0 E1 E2 E3 Hb. unfold GET_UINT32. rewrite E0, E1, E2, E3. cbn. f_equal.
  repeat (apply Forall_cons in Hb as [? Hb]). unfold is_byte in *.
  rewrite Z.lor_0_r. rewrite (Z.lor_comm (Z.shiftl b2 8)), (lor_shiftl_add b3 b2 8) by lia.
  rewrite (Z.lor_comm (Z.shiftl b1 16)), lor_shiftl_add by lia.
  rewrite (Z.lor_comm (Z.shiftl b0 24)), lor_shiftl_add by lia.
  unfold be_val. cbn. lia.
Qed.

Lemma PUT_UINT32_be n : PUT_UINT32 n = be_bytes 4 n.
Proof.
  unfold PUT_UINT32, be_bytes, u8, wrap. cbn. rewrite !Z.shiftr_div_pow2 by lia.
  rewrite !Z.div_div by lia. done.
Qed.

(** ** The permutations are bijections *)

Definition word_pair (xy : Z * Z) : Prop := is_u32 (fst xy) /\ is_u32 (snd xy).

Lemma swap_bits_involutive n m k xy : 0 <= n -> 0 <= k -> n + k = 32 -> 0 <= m < 2 ^ k ->
  swap_bits n m (swap_bits n m xy) = xy.
Proof.
  intros Hn Hk Hnk Hm. destruct xy as [x y]. unfold swap_bits.
  set (t := Z.land (Z.lxor (Z.shiftr x n) y) m).
  assert (0 <= t < 2 ^ k) as Ht by (by apply land_lt).
  assert (shl t n = Z.shiftl t n) as Es.
  { unfold shl. apply u32_small. unfold is_u32. rewrite Z.shiftl_mul_pow2 by done.
    change (2 ^ 32) with (2 ^ (32)). rewrite <- Hnk, (Z.add_comm n), Z.pow_add_r by done. nia. }
  assert (Z.land (Z.lxor (Z.shiftr (Z.lxor x (shl t n)) n) (Z.lxor y t)) m = t) as ->.
  { rewrite Es, Z.shiftr_lxor, Z.shiftr_shiftl_l, Z.sub_diag, Z.shiftl_0_r by done.
    rewrite (Z.lxor_comm y t), Z.lxor_assoc, <- (Z.lxor_assoc t t y), Z.lxor_nilpotent, Z.lxor_0_l. done. }
  by rewrite !lxor_cancel.
Qed.

Lemma swap_bits_words n m xy : is_u32 m -> word_pair xy -> word_pair (swap_bits n m xy).
Proof.
  intros Hm [Hx Hy]. destruct xy as [x y]. unfold swap_bits, word_pair, shl in *. cbn in *. auto with skynet.
Qed.

Lemma rol1_val x : is_u32 x -> rol1 x = 2 * (x mod 2 ^ 31) + x / 2 ^ 31.
Proof.
  intros Hx. unfold rol1, shl. change 0xFFFFFFFF with (2 ^ 32 - 1). rewrite land_pred_pow2 by done.
  replace (u32 (Z.shiftl x 1)) with (Z.shiftl (x mod 2 ^ 31) 1)
    by (unfold u32, wrap; rewrite !Z.shiftl_mul_pow2 by done; dlia).
  rewrite Z.lor_comm, Z.shiftr_div_pow2 by done. unfold is_u32 in Hx.
  rewrite lor_shiftl_add; [|done|dlia]. rewrite Z.mod_small; dlia.
Qed.

Lemma ror1_val x : is_u32 x -> ror1 x = 2 ^ 31 * (x mod 2) + x / 2.
Proof.
  intros Hx. unfold ror1, shl. change 0xFFFFFFFF with (2 ^ 32 - 1). rewrite land_pred_pow2 by done.
  replace (u32 (Z.shiftl x 31)) with (Z.shiftl (x mod 2) 31)
    by (unfold u32, wrap; rewrite !Z.shiftl_mul_pow2 by done; dlia).
  rewrite Z.lor_comm, Z.shiftr_div_pow2 by done. unfold is_u32 in Hx.
  rewrite lor_shiftl_add; [|done|dlia]. rewrite Z.mod_small; dlia.
Qed.

Lemma rol1_u32 x : is_u32 (rol1 x).
Proof. by apply land_u32. Qed.

Lemma ror1_u32 x : is_u32 (ror1 x).
Proof. by apply land_u32. Qed.

Lemma ror1_rol1 x : is_u32 x -> ror1 (rol1 x) = x.
Proof.
  intros Hx. rewrite ror1_val by apply rol1_u32. rewrite rol1_val by done. unfold is_u32 in Hx. dlia.
Qed.

Lemma rol1_ror1 x : is_u32 x -> rol1 (ror1 x) = x.
Proof.
  intros Hx. rewrite rol1_val by apply ror1_u32. rewrite ror1_val by done. unfold is_u32 in Hx. dlia.
Qed.

Lemma flip_flip {A} (xy : A * A) : flip (flip xy) = xy.
Proof. by destruct xy. Qed.

Lemma flip_words xy : word_pair xy -> word_pair (flip xy).
Proof. intros []. done. Qed.

#[export] Hint Resolve rol1_u32 ror1_u32 flip_words : skynet.

Ltac swap_words := repeat first [ assumption | done | apply flip_words | apply swap_bits_words ].

Lemma DES_IP_words xy : word_pair xy -> word_pair (DES_IP xy).
Proof.
  intros H. unfold DES_IP. cbv zeta. split; cbn [fst snd]; [apply rol1_u32|].
  match goal with |- is_u32 (snd (swap_bits 0 ?m ?p)) => apply (swap_bits_words 0 m p); [done|] end.
  split; cbn [fst snd]; [|apply rol1_u32].
  match goal with |- is_u32 (fst ?p) => enough (word_pair p) as []; [done|] end. swap_words.
Qed.

Lemma DES_FP_words xy : word_pair xy -> word_pair (DES_FP xy).
Proof.
  intros [_ H]. unfold DES_FP. cbv zeta. repeat first [ apply flip_words | apply swap_bits_words; [done|] ].
  split; cbn [fst snd]; [|apply ror1_u32].
  match goal with |- is_u32 (fst (swap_bits 0 ?m ?p)) => apply (swap_bits_words 0 m p); [done|] end.
  split; [apply ror1_u32|done].
Qed.

Lemma DES_FP_IP xy : word_pair xy -> DES_FP (DES_IP xy) = xy.
Proof.
  intros H. unfold DES_IP. cbv zeta.
  set (d := flip (swap_bits 8 _ _)). assert (word_pair d) as [Hd1 Hd2] by (subst d; swap_words).
  set (f := swap_bits 0 _ _). assert (word_pair f) as [Hf1 _].
  { subst f. apply swap_bits_words; [done|]. split; [done|apply rol1_u32]. }
  unfold DES_FP. cbn [fst snd]. rewrite ror1_rol1, <- surjective_pairing by done. subst f.
  rewrite (swap_bits_involutive 0 _ 32) by done. cbn [fst snd].
  rewrite ror1_rol1, <- surjective_pairing by done. subst d.
  rewrite !flip_flip, (swap_bits_involutive 8 _ 24), (swap_bits_involutive 2 _ 30), flip_flip by done.
  by rewrite (swap_bits_involutive 16 _ 16), (swap_bits_involutive 4 _ 28) by done.
Qed.

Lemma DES_IP_FP xy : word_pair xy -> DES_IP (DES_FP xy) = xy.
Proof.
  intros [Hx Hy]. unfold DES_FP. cbv zeta.
  set (d := (ror1 (fst xy), snd xy)). assert (word_pair d) as Hd by (split; [apply ror1_u32|done]).
  set (e := swap_bits 0 _ d). assert (word_pair e) as [He1 He2] by (subst e; by apply swap_bits_words).
  unfold DES_IP. rewrite (swap_bits_involutive 4 _ 28), (swap_bits_involutive 16 _ 16) by done.
  rewrite !flip_flip, (swap_bits_involutive 2 _ 30), (swap_bits_involutive 8 _ 24), flip_flip by done.
  cbn [fst snd]. rewrite rol1_ror1, <- surjective_pairing by done. subst e.
  rewrite (swap_bits_involutive 0 _ 32) by done. subst d. cbn [fst snd].
  by rewrite rol1_ror1, <- surjective_pairing by done.
Qed.

(** ** The rounds *)

Lemma tbl_u32 t i : Forall is_u32 t -> is_u32 (tbl t i).
Proof.
  intros H. unfold tbl. destruct (decide (Z.to_nat i < length t)%nat) as [Hi|Hi].
  - rewrite Forall_forall in H. apply H, list_elem_of_In, nth_In, Hi.
  - rewrite nth_overflow by lia. done.
Qed.

Definition is_u32b (x : Z) : bool := (0 <=? x) && (x <? 2 ^ 32).

Lemma forallb_u32 l : forallb is_u32b l = true -> Forall is_u32 l.
Proof.
  intros H. apply Forall_forall. intros x Hx. apply list_elem_of_In in Hx.
  rewrite forallb_forall in H. specialize (H x Hx). unfold is_u32b in H. unfold is_u32. lia.
Qed.

Lemma round_mask_u32 k0 k1 x : is_u32 (round_mask k0 k1 x).
Proof.
  unfold round_mask. cbv zeta. repeat apply lxor_u32; apply tbl_u32, forallb_u32; vm_compute; reflexivity.
Qed.

(** The key words in pairs, and the pairs in reverse order. *)
Fixpoint pairs (l : list Z) : list (Z * Z) :=
  match l with a :: b :: l => (a, b) :: pairs l | _ => [] end.

(** One round per pair of key words; the halves swap their roles. *)
Fixpoint feistel (ks : list (Z * Z)) (xy : Z * Z) : Z * Z :=
  match ks with
  | [] => xy
  | (k0, k1) :: ks => feistel ks (snd xy, Z.lxor (fst xy) (round_mask k0 k1 (snd xy)))
  end.

Lemma feistel_app ks ks' xy : feistel (ks ++ ks') xy = feistel ks' (feistel ks xy).
Proof. revert xy. induction ks as [|[k0 k1] ks IH]; intros xy; cbn; [done|]. apply IH. Qed.

(** Running the rounds with the keys reversed undoes them on swapped halves. *)
Lemma feistel_rev ks xy : feistel (rev ks) (flip (feistel ks xy)) = flip xy.
Proof.
  revert xy. induction ks as [|[k0 k1] ks IH]; intros [x y]; [done|].
  cbn [rev feistel fst snd]. rewrite feistel_app, IH. cbn. by rewrite lxor_cancel.
Qed.

Lemma feistel_words ks xy : word_pair xy -> word_pair (feistel ks xy).
Proof.
  revert xy. induction ks as [|[k0 k1] ks IH]; intros [x y] [Hx Hy]; cbn; [done|].
  apply IH. split; [done|]. cbn. apply lxor_u32; [done|apply round_mask_u32].
Qed.

Lemma des_rounds_feistel n : forall SK x y, length SK = (4 * n)%nat ->
  des_rounds n SK x y = Ok (feistel (pairs SK) (x, y)).
Proof.
  induction n as [|n IH]; intros SK x y Hlen.
  - by destruct SK.
  - destruct SK as [|k0 [|k1 [|k2 [|k3 SK]]]]; cbn in Hlen; try lia. cbn. by rewrite IH by lia.
Qed.

(** ** Blocks *)

Definition block (b : list Z) : Prop := bytes b /\ length b = 8%nat.

(** The two words of a block. *)
Definition words (b : list Z) : Z * Z := (be_val (take 4 b), be_val (drop 4 b)).
Definition unwords (xy : Z * Z) : list Z := be_bytes 4 (fst xy) ++ be_bytes 4 (snd xy).

Lemma be_val_range l : bytes l -> 0 <= be_val l < 2 ^ (8 * zlen l).
Proof.
  intros H. unfold be_val. pose proof (le_val_range (rev l) (bytes_rev l H)) as Hr.
  unfold zlen in *. by rewrite length_rev in Hr.
Qed.

Lemma words_pair b : block b -> word_pair (words b).
Proof.
  intros [Hb Hl]. split; cbn; unfold is_u32.
  - pose proof (be_val_range (take 4 b) (bytes_take _ _ Hb)) as H. unfold zlen in H.
    rewrite length_take, Hl in H. exact H.
  - pose proof (be_val_range (drop 4 b) (bytes_drop _ _ Hb)) as H. unfold zlen in H.
    rewrite length_drop, Hl in H. exact H.
Qed.

Lemma unwords_block xy : block (unwords xy).
Proof. split; [apply bytes_app; auto with skynet|]. unfold unwords. by rewrite length_app, !length_be_bytes. Qed.

Lemma unwords_words b : block b -> unwords (words b) = b.
Proof.
  intros [Hb Hl]. unfold unwords, words. cbn [fst snd].
  replace 4%nat with (length (take 4 b)) at 1 by (rewrite length_take; lia).
  replace 4%nat with (length (drop 4 b)) at 3 by (rewrite length_drop; lia).
  rewrite !be_bytes_be_val by auto with skynet. apply take_drop.
Qed.

Lemma words_unwords xy : word_pair xy -> words (unwords xy) = xy.
Proof.
  intros [Hx Hy]. destruct xy as [x y]. unfold words, unwords, is_u32 in *. cbn [fst snd] in *.
  rewrite take_app_length', drop_app_length' by (by rewrite length_be_bytes).
  rewrite !be_val_be_bytes. rewrite !Z.mod_small by (cbn; lia). done.
Qed.

Lemma GET_words b : block b -> GET_UINT32 b 0 = Ok (fst (words b)) /\ GET_UINT32 b 4 = Ok (snd (words b)).
Proof.
  intros [Hb Hl]. do 9 (destruct b as [|? b]; cbn in Hl; try lia). clear Hl.
  rewrite (GET_UINT32_Ok _ 0 z z0 z1 z2), (GET_UINT32_Ok _ 4 z3 z4 z5 z6);
    try reflexivity; [done|..]; repeat (apply Forall_cons in Hb as [? Hb]); repeat (constructor; try done).
Qed.

Lemma des_crypt_spec SK b : length SK = 32%nat -> block b ->
  des_crypt SK b = Ok (unwords (DES_FP (flip (feistel (pairs SK) (DES_IP (words b)))))).
Proof.
  intros HK Hb. unfold des_crypt. destruct (GET_words b Hb) as [-> ->]. cbn [mbind result_bind].
  rewrite <- surjective_pairing.
  destruct (DES_IP _) as [x y]. rewrite des_rounds_feistel by done. cbn [mbind result_bind].
  destruct (feistel _ _) as [x' y']. cbn [flip fst snd]. destruct (DES_FP _) as [u v].
  by rewrite !PUT_UINT32_be.
Qed.

(** Decryption with the reversed key words. *)
Lemma des_crypt_inverse SK RK b : length SK = 32%nat -> length RK = 32%nat -> pairs RK = rev (pairs SK) -> block b ->
  exists c, des_crypt SK b = Ok c /\ block c /\ des_crypt RK c = Ok b.
Proof.
  intros HK HR E Hb. eexists. split; [by apply des_crypt_spec|]. split; [apply unwords_block|].
  rewrite des_crypt_spec by (try done; apply unwords_block). rewrite E.
  pose proof (DES_IP_words _ (words_pair b Hb)) as Hw.
  pose proof (flip_words _ (feistel_words (pairs SK) _ Hw)) as Hf.
  rewrite words_unwords by (by apply DES_FP_words). rewrite DES_IP_FP by done.
  rewrite feistel_rev, flip_flip, DES_FP_IP by (by apply words_pair). by rewrite unwords_words.
Qed.

Lemma subkeys_length k : forall i x y, length (subkeys k i x y) = (2 * k)%nat.
Proof. induction k as [|k IH]; intros i x y; cbn; [done|]. rewrite IH. lia. Qed.

Lemma des_key_Ok key : block key -> exists SK, des_key key = Ok SK /\ length SK = 32%nat.
Proof.
  intros Hk. unfold des_key, des_main_ks. destruct (GET_words key Hk) as [-> ->]. destruct Hk as [_ Hl].
  unfold zlen. rewrite Hl. cbn [Z.eqb negb Z.of_nat Pos.of_succ_nat Pos.succ mbind result_bind Pos.eqb].
  destruct (pc1 _ _) as [x y]. eexists. split; [done|].
  apply subkeys_length.
Qed.

Lemma reverse_ks_Ok SK : length SK = 32%nat ->
  exists RK, reverse_ks SK = Ok RK /\ length RK = 32%nat /\ pairs RK = rev (pairs SK).
Proof.
  intros Hl. do 33 (destruct SK as [|? SK]; cbn in Hl; try lia). clear Hl.
  eexists. split; [reflexivity|]. split; reflexivity.
Qed.

(** ** Texts *)

Lemma split_blocks text : bytes text ->
  exists bs rest, text = concat bs ++ rest /\ Forall block bs /\ (length rest < 8)%nat /\ bytes rest.
Proof.
  remember (length text) as n eqn:Hn. revert text Hn.
  induction n as [n IH] using lt_wf_ind. intros text Hn Ht. destruct (decide (n < 8)%nat) as [|Hge].
  - exists [], text. split_and!; [done..|lia|done].
  - destruct (IH (n - 8)%nat ltac:(lia) (drop 8 text)) as (bs & rest & E & Hbs & Hr & Hb).
    + rewrite length_drop. lia.
    + auto with skynet.
    + exists (take 8 text :: bs), rest. split_and!; [|constructor; [|done]|done|done].
      * cbn. rewrite <- app_assoc, <- E. by rewrite take_drop.
      * split; [auto with skynet|]. rewrite length_take. lia.
Qed.

Lemma concat_blocks_length bs : Forall block bs -> length (concat bs) = (8 * length bs)%nat.
Proof. induction 1 as [|b bs [_ Hb] Hbs IH]; cbn; [done|]. rewrite length_app, Hb, IH. lia. Qed.

Lemma crypt_loop_spec SK text bs : forall fuel cs pre rest i bound buffer,
  text = pre ++ concat bs ++ rest -> zlen pre = i -> Forall block bs ->
  Forall2 (fun b c => des_crypt SK b = Ok c) bs cs -> (length bs < fuel)%nat ->
  i + 8 * zlen bs - 8 < bound <= i + 8 * zlen bs ->
  crypt_loop fuel SK text i bound buffer = Ok (buffer ++ concat cs, i + 8 * zlen bs).
Proof.
  induction bs as [|b bs IH]; intros fuel cs pre rest i bound buffer -> Hi Hbs Hm Hf Hb;
    (destruct fuel as [|fuel]; [cbn in Hf; lia|]); cbn [crypt_loop].
  - apply Forall2_nil_inv_l in Hm as ->. change (zlen (@nil (list Z))) with 0 in *. destruct (Z.ltb_spec i bound); [lia|].
    f_equal. f_equal; [by rewrite app_nil_r|cbn; lia].
  - apply Forall_cons in Hbs as [[Hb1 Hb2] Hbs]. unfold zlen in *. cbn [length] in *.
    destruct (Z.ltb_spec i bound); [|lia].
    assert (slice (pre ++ concat (b :: bs) ++ rest) i 8 = Ok b) as ->.
    { rewrite slice_Ok by (unfold zlen; rewrite ?length_app; cbn; rewrite ?length_app; lia).
      replace (Z.to_nat i) with (length pre) by lia. rewrite drop_app_length.
      cbn [concat]. rewrite <- app_assoc. change (Z.to_nat 8) with 8%nat. by rewrite <- Hb2, take_app_length. }
    cbn [mbind result_bind].
    apply Forall2_cons_inv_l in Hm as (c & cs' & Hc & Hm & ->). rewrite Hc. cbn [mbind result_bind].
    rewrite (IH fuel cs' (pre ++ b) rest (i + 8) bound).
    + f_equal. f_equal; [cbn; by rewrite app_assoc|lia].
    + cbn [concat]. by rewrite <- !app_assoc.
    + rewrite length_app. lia.
    + done.
    + done.
    + lia.
    + lia.
Qed.

(** All blocks of a list, encrypted. *)
Lemma blocks_inverse SK RK bs : length SK = 32%nat -> length RK = 32%nat -> pairs RK = rev (pairs SK) -> Forall block bs ->
  exists cs, Forall2 (fun b c => des_crypt SK b = Ok c) bs cs /\ Forall block cs /\
    Forall2 (fun b c => des_crypt RK b = Ok c) cs bs.
Proof.
  intros HK HR E. induction 1 as [|b bs Hb Hbs (cs & E1 & Hc & E2)]; [by exists []|].
  destruct (des_crypt_inverse SK RK b HK HR E Hb) as (c & Ec & Hbc & Ed).
  exists (c :: cs). split_and!; by constructor.
Qed.

Lemma tail_block_spec pre rest : bytes rest -> (length rest < 8)%nat ->
  tail_block (pre ++ rest) (zlen pre) (zlen rest) = Ok (rest ++ 128 :: replicate (7 - length rest) 0) /\
  block (rest ++ 128 :: replicate (7 - length rest) 0).
Proof.
  intros Hb Hl. split.
  - unfold tail_block. rewrite (mapM_result_ext _ (fun j => if j <? zlen rest then zget rest j
      else Ok (if j =? zlen rest then 128 else 0))).
    { do 8 (destruct rest as [|? rest]; [reflexivity|]). cbn in Hl. lia. }
    intros j Hj%elem_of_seqZ. case_match; [|done]. apply zget_app_r. lia.
  - split; [|rewrite length_app; cbn; rewrite length_replicate; lia].
    apply bytes_app. split; [done|]. constructor; [done|]. by apply Forall_replicate.
Qed.

Lemma padding_loop_spec L rest textsz k : forall fuel i p,
  i = zlen L + Z.of_nat k -> (k < fuel)%nat -> 0 <= textsz - 8 <= zlen L -> textsz < 2 ^ 63 -> i < textsz ->
  padding_loop fuel (L ++ 128 :: replicate k 0 ++ rest) textsz i p = Ok (p + Z.of_nat k).
Proof.
  revert rest. induction k as [|k IH]; intros rest fuel i p Hi Hf Ht Hs Hlt;
    (destruct fuel as [|fuel]; [lia|]); cbn [padding_loop]; pose proof (zlen_nonneg L);
    rewrite !u64_small by (unfold is_u64; lia); destruct (Z.leb_spec (textsz - 8) i); try lia.
  - unfold zget. destruct (Z.leb_spec 0 i); [|lia].
    replace (Z.to_nat i) with (length L) by (unfold zlen in *; lia).
    rewrite list_lookup_middle by done. cbn. f_equal. lia.
  - assert (zget (L ++ 128 :: replicate (S k) 0 ++ rest) i = Ok 0) as ->.
    { apply zget_Some; [lia|]. rewrite lookup_app_r by (unfold zlen in *; lia).
      replace (Z.to_nat i - length L)%nat with (S k) by (unfold zlen in *; lia).
      change ((replicate (S k) 0 ++ rest) !! k = Some 0).
      rewrite lookup_app_l by (rewrite length_replicate; lia). apply lookup_replicate. lia. }
    cbn [mbind result_bind Z.eqb]. rewrite replicate_S_end, <- app_assoc.
    rewrite (IH (0 :: rest)); [f_equal; lia|lia..].
Qed.

Lemma ldesencode_spec key SK bs rest cs ct : des_key key = Ok SK -> Forall block bs -> bytes rest -> (length rest < 8)%nat ->
  Forall2 (fun b c => des_crypt SK b = Ok c) bs cs ->
  des_crypt SK (rest ++ 128 :: replicate (7 - length rest) 0) = Ok ct ->
  zlen (concat bs ++ rest) < 2147483624 ->
  ldesencode key (concat bs ++ rest) = Ok (concat cs ++ ct).
Proof.
  intros EK Hbs Hrb Hr E1 E3 Hlen. unfold ldesencode. rewrite EK. cbn [mbind result_bind].
  destruct (tail_block_spec (concat bs) rest Hrb Hr) as [Et _]. pose proof (concat_blocks_length bs Hbs) as Hcb.
  assert (zlen (concat bs) = 8 * zlen bs) as Hz by (unfold zlen; lia).
  assert (zlen (concat bs ++ rest) = 8 * zlen bs + zlen rest) as Hzt by (rewrite zlen_app; lia).
  assert (0 <= zlen rest < 8) as Hr8 by (unfold zlen; lia). unfold assert_, INT_MAX.
  destruct (Z.leb_spec (zlen (concat bs ++ rest)) (2147483647 - 8)); [|lia]. cbn [mbind result_bind].
  rewrite (crypt_loop_spec SK (concat bs ++ rest) bs _ cs [] rest 0) by
    (try done; try lia; unfold blocks_fuel; rewrite ?length_app; lia).
  cbn [mbind result_bind]. replace (0 + 8 * zlen bs) with (zlen (concat bs)) by lia.
  replace (zlen (concat bs ++ rest) - zlen (concat bs)) with (zlen rest) by lia.
  rewrite Et. cbn [mbind result_bind]. by rewrite E3.
Qed.

Lemma ldesdecode_spec key SK RK cs bs rest : des_key key = Ok SK -> reverse_ks SK = Ok RK ->
  Forall block cs -> (length rest < 8)%nat ->
  Forall2 (fun b c => des_crypt RK b = Ok c) cs (bs ++ [rest ++ 128 :: replicate (7 - length rest) 0]) ->
  Forall block bs -> zlen (concat cs) < 2147483632 ->
  ldesdecode key (concat cs) = Ok (concat bs ++ rest).
Proof.
  intros EK ER Hcs Hr E Hbs Hlen. unfold ldesdecode. rewrite EK. cbn [mbind result_bind]. rewrite ER. cbn [mbind result_bind].
  pose proof (concat_blocks_length cs Hcs) as Hcc. pose proof (concat_blocks_length bs Hbs) as Hcb.
  pose proof (Forall2_length _ _ _ E) as Hl. rewrite length_app in Hl. cbn in Hl.
  assert (zlen (concat cs) = 8 * zlen bs + 8) as Hz by (unfold zlen; lia). rewrite Hz in *.
  pose proof (zlen_nonneg bs). change 7 with (2 ^ 3 - 1). rewrite land_pred_pow2 by done.
  destruct (Z.eqb_spec ((8 * zlen bs + 8) mod 2 ^ 3) 0) as [_|E']; [|exfalso; apply E'; dlia].
  destruct (Z.eqb_spec (8 * zlen bs + 8) 0); [lia|]. cbn [negb orb]. unfold assert_, INT_MAX.
  destruct (Z.leb_spec (8 * zlen bs + 8) (2147483647 - 8)); [|lia]. cbn [mbind result_bind].
  rewrite (crypt_loop_spec RK (concat cs) cs _ _ [] [] 0 _ [] ltac:(by rewrite app_nil_r) eq_refl Hcs E) by
    (unfold blocks_fuel, zlen in *; lia).
  cbn [mbind result_bind app]. rewrite concat_app. cbn [concat]. rewrite app_nil_r, app_assoc.
  pose proof (padding_loop_spec (concat bs ++ rest) [] (8 * zlen bs + 8) (7 - length rest) 10 (8 * zlen bs + 8 - 1) 1) as Hp.
  rewrite app_nil_r in Hp. rewrite Hp by (rewrite ?zlen_app; unfold zlen in *; lia). cbn [mbind result_bind].
  destruct (Z.ltb_spec 8 (1 + Z.of_nat (7 - length rest))); [lia|].
  rewrite slice_Ok by (rewrite ?zlen_app; unfold zlen in *; cbn; rewrite ?length_replicate; lia).
  rewrite drop_0. rewrite take_app_length' by (rewrite length_app; unfold zlen in *; lia). done.
Qed.

(** ** Properties *)

(** C37. [desdecode] undoes [desencode]: for every 8-byte key and every text
    (shorter than an [int]), encoding succeeds, yields a whole number of
    blocks, and decoding returns the text: the Feistel network with the key
    words reversed inverts the cipher, and the padding is found again. *)
Theorem des_roundtrip (key text : list Z) (Hkey : block key) (Htext : bytes text) (Hlen : zlen text < 2147483624) :
  exists out, ldesencode key text = Ok out /\ zlen out = 8 * (zlen text / 8 + 1) /\ ldesdecode key out = Ok text.
Proof.
  destruct (des_key_Ok key Hkey) as (SK & EK & HK). destruct (reverse_ks_Ok SK HK) as (RK & ER & HR & Ep).
  destruct (split_blocks text Htext) as (bs & rest & -> & Hbs & Hr & Hrb).
  destruct (tail_block_spec (concat bs) rest Hrb Hr) as [_ Htl].
  destruct (blocks_inverse SK RK bs HK HR Ep Hbs) as (cs & E1 & Hcs & E2).
  destruct (des_crypt_inverse SK RK _ HK HR Ep Htl) as (ct & E3 & Hct & E4).
  assert (Forall block (cs ++ [ct])) as Hcs' by (by apply Forall_app; split; [|constructor]).
  pose proof (concat_blocks_length bs Hbs) as Hcb. pose proof (Forall2_length _ _ _ E1) as Hlcs.
  pose proof (concat_blocks_length _ Hcs') as Hcc. rewrite length_app in Hcc. cbn in Hcc.
  assert (concat cs ++ ct = concat (cs ++ [ct])) as Eo by (rewrite concat_app; cbn; by rewrite app_nil_r).
  rewrite zlen_app in *. exists (concat cs ++ ct). split_and!.
  - apply (ldesencode_spec key SK); try done. by rewrite zlen_app.
  - rewrite Eo. unfold zlen. rewrite Hcc, Hcb. rewrite <- Z.add_comm. unfold zlen in *. dlia.
  - rewrite Eo. apply (ldesdecode_spec key SK RK); try done.
    + apply Forall2_app; [done|by constructor].
    + unfold zlen in *. lia.
Qed.

Definition sample_key : list Z := [1; 2; 3; 4; 5; 6; 7; 8].

Lemma des_roundtrip_witness : exists out, ldesencode sample_key [104; 101; 108; 108; 111; 33; 33; 33; 0; 128] = Ok out /\
  zlen out = 16 /\ ldesdecode sample_key out = Ok [104; 101; 108; 108; 111; 33; 33; 33; 0; 128].
Proof.
  apply (des_roundtrip sample_key [104; 101; 108; 108; 111; 33; 33; 33; 0; 128]);
    [split; [repeat constructor; done|reflexivity]|repeat constructor; done|reflexivity].
Defined.

(** A single block that decrypts to eight zero bytes makes [desdecode]
    read before its buffer: the [int] index -1 is compared as a [size_t] with
    [textsz-8 = 0], so the loop does not stop; such a text exists for every key. *)
Theorem desdecode_underrun (key : list Z) (Hkey : block key) :
  exists text, block text /\ ldesdecode key text = Fault.
Proof.
  destruct (des_key_Ok key Hkey) as (SK & EK & HK). destruct (reverse_ks_Ok SK HK) as (RK & ER & HR & Ep).
  destruct (des_crypt_inverse SK RK (replicate 8 0) HK HR Ep) as (c & Ec & [Hc1 Hc2] & Ed).
  { split; [by apply Forall_replicate|done]. }
  exists c. split; [done|]. unfold ldesdecode. rewrite EK. cbn [mbind result_bind]. rewrite ER. cbn [mbind result_bind].
  unfold zlen. rewrite Hc2.
  pose proof (crypt_loop_spec RK c [c] (blocks_fuel c) [replicate 8 0] [] [] 0 8 []) as Hl.
  change (Z.of_nat 8) with 8. change (negb (Z.land 8 7 =? 0) || (8 =? 0)) with false. cbv beta iota.
  change (assert_ (8 <=? INT_MAX - 8)) with (@Ok unit tt). cbn [mbind result_bind]. rewrite Hl; [reflexivity|cbn; by rewrite !app_nil_r|done|by apply Forall_singleton|by apply Forall2_cons; split| |unfold zlen; cbn; lia].
  unfold blocks_fuel. rewrite Hc2. cbn. lia.
Qed.

Lemma desdecode_underrun_witness : exists text, block text /\ ldesdecode sample_key text = Fault.
Proof. apply (desdecode_underrun sample_key). split; [repeat constructor; done|reflexivity]. Defined.
