(* ===== verification/Crypt.v ===== *)
(** * Encodings, keyed hash and key exchange (lualib-src/lua-crypt.c)

    Hexadecimal and base64 text, the 64-bit hash and keyed hash, the
    Diffie-Hellman exchange modulo the largest 64-bit prime and the xor of
    strings. Lua strings are byte lists. The functions walk their text with an
    [int]: a text longer than [INT_MAX] is undefined. *)
From Stdlib Require Import Zpow_facts.
From S2P Require Import Prelude CString Des.

(** ** Hexadecimal text *)

Definition hex : list Z := of_string "0123456789abcdef".

Fixpoint tohex_loop (text : list Z) : result (list Z) :=
  match text with
  | [] => Ok []
  | b :: text =>
      hi ← zget hex (Z.shiftr b 4);
      low ← zget hex (Z.land b 15);
      buffer ← tohex_loop text;
      Ok (hi :: low :: buffer)
  end.

Definition ltohex (text : list Z) : result (list Z) :=
  _ ← assert_ (zlen text <=? INT_MAX); tohex_loop text.

(** [char] is signed; the value is stored in a [uint8_t]. *)
Definition HEX (c : Z) : Z :=
  let tmp := swrap 8 c in
  if (48 <=? tmp) && (tmp <=? 57) then u8 (tmp - 48) else u8 (tmp - 97 + 10).

Fixpoint fromhex_loop (text : list Z) : result (list Z) :=
  match text with
  | [] => Ok []
  | [_] => Fault
  | c1 :: c2 :: text =>
      let hi := HEX c1 in
      let low := HEX c2 in
      if (16 <? hi) || (16 <? low) then LuaError "Invalid hex text"
      else
        buffer ← fromhex_loop text;
        Ok (u8 (Z.lor (Z.shiftl hi 4) low) :: buffer)
  end.

Definition lfromhex (text : list Z) : result (list Z) :=
  if negb (Z.land (zlen text) 1 =? 0) then LuaError "Invalid hex text size"
  else _ ← assert_ (zlen text <=? INT_MAX); fromhex_loop text.

(** ** Hashes *)

(** One step of [djb_hash] and [js_hash]. *)
Definition hash_step (h : Z * Z) (c : Z) : Z * Z :=
  let '(djb_hash, js_hash) := h in
  (u32 (djb_hash + (shl djb_hash 5 + c)),
   Z.lxor js_hash (u32 (shl js_hash 5 + c + Z.shiftr js_hash 2))).

(** Low byte first. *)
Definition put_le32 (n : Z) : list Z :=
  [Z.land n 255; Z.land (Z.shiftr n 8) 255; Z.land (Z.shiftr n 16) 255; Z.land (Z.shiftr n 24) 255].

Definition Hash (str : list Z) : list Z :=
  let '(djb_hash, js_hash) := fold_left hash_step str (5381, 1315423911) in
  put_le32 djb_hash ++ put_le32 js_hash.

Definition lhashkey (key : list Z) : result (list Z) :=
  _ ← assert_ (zlen key <=? INT_MAX); Ok (Hash key).

Definition k : list Z := [
   0xd76aa478; 0xe8c7b756; 0x242070db; 0xc1bdceee; 0xf57c0faf; 0x4787c62a; 0xa8304613; 0xfd469501;
   0x698098d8; 0x8b44f7af; 0xffff5bb1; 0x895cd7be; 0x6b901122; 0xfd987193; 0xa679438e; 0x49b40821;
   0xf61e2562; 0xc040b340; 0x265e5a51; 0xe9b6c7aa; 0xd62f105d; 0x02441453; 0xd8a1e681; 0xe7d3fbc8;
   0x21e1cde6; 0xc33707d6; 0xf4d50d87; 0x455a14ed; 0xa9e3e905; 0xfcefa3f8; 0x676f02d9; 0x8d2a4c8a;
   0xfffa3942; 0x8771f681; 0x6d9d6122; 0xfde5380c; 0xa4beea44; 0x4bdecfa9; 0xf6bb4b60; 0xbebfbc70;
   0x289b7ec6; 0xeaa127fa; 0xd4ef3085; 0x04881d05; 0xd9d4d039; 0xe6db99e5; 0x1fa27cf8; 0xc4ac5665;
   0xf4292244; 0x432aff97; 0xab9423a7; 0xfc93a039; 0x655b59c3; 0x8f0ccc92; 0xffeff47d; 0x85845dd1;
   0x6fa87e4f; 0xfe2ce6e0; 0xa3014314; 0x4e0811a1; 0xf7537e82; 0xbd3af235; 0x2ad7d2bb; 0xeb86d391].

Definition r : list Z := [
   7; 12; 17; 22; 7; 12; 17; 22; 7; 12; 17; 22; 7; 12; 17; 22;
   5; 9; 14; 20; 5; 9; 14; 20; 5; 9; 14; 20; 5; 9; 14; 20;
   4; 11; 16; 23; 4; 11; 16; 23; 4; 11; 16; 23; 4; 11; 16; 23;
   6; 10; 15; 21; 6; 10; 15; 21; 6; 10; 15; 21; 6; 10; 15; 21].

Definition LEFTROTATE (x c : Z) : Z := Z.lor (shl x c) (Z.shiftr x (32 - c)).
Definition not32 (x : Z) : Z := u32 (Z.lnot x).

(** The words [w]: four times [x[1]; x[0]; y[1]; y[0]]. *)
Definition hmac_words (x y : Z * Z) : list Z :=
  concat (replicate 4 [snd x; fst x; snd y; fst y]).

Definition hmac_round (w : list Z) (i : Z) (s : Z * Z * Z * Z) : result (Z * Z * Z * Z) :=
  let '(a, b, c, d) := s in
  let '(f, g) :=
    if i <? 16 then (Z.lor (Z.land b c) (Z.land (not32 b) d), i)
    else if i <? 32 then (Z.lor (Z.land d b) (Z.land (not32 d) c), (5 * i + 1) mod 16)
    else if i <? 48 then (Z.lxor (Z.lxor b c) d, (3 * i + 5) mod 16)
    else (Z.lxor c (Z.lor b (not32 d)), (7 * i) mod 16) in
  ki ← zget k i;
  wg ← zget w g;
  ri ← zget r i;
  Ok (d, u32 (b + LEFTROTATE (u32 (a + f + ki + wg)) ri), b, c).

Fixpoint hmac_rounds (idx : list Z) (w : list Z) (s : Z * Z * Z * Z) : result (Z * Z * Z * Z) :=
  match idx with
  | [] => Ok s
  | i :: idx => s ← hmac_round w i s; hmac_rounds idx w s
  end.

Definition hmac (x y : Z * Z) : result (Z * Z) :=
  '(a, b, c, d) ← hmac_rounds (seqZ 0 64) (hmac_words x y) (0x67452301, 0xefcdab89, 0x98badcfe, 0x10325476);
  Ok (Z.lxor c d, Z.lxor a b).

(** [x[i] | x[i+1]<<8 | x[i+2]<<16 | x[i+3]<<24] as a [uint32_t]. *)
Definition get_le32 (x : list Z) (i : Z) : result Z :=
  b0 ← zget x i; b1 ← zget x (i + 1); b2 ← zget x (i + 2); b3 ← zget x (i + 3);
  Ok (u32 (ors [b0; Z.shiftl b1 8; Z.shiftl b2 16; Z.shiftl b3 24])).

Definition get_pair (x : list Z) : result (Z * Z) :=
  lo ← get_le32 x 0; hi ← get_le32 x 4; Ok (lo, hi).

Definition read64 (x y : list Z) : result ((Z * Z) * (Z * Z)) :=
  if negb (zlen x =? 8) then LuaError "Invalid uint64 x"
  else if negb (zlen y =? 8) then LuaError "Invalid uint64 y"
  else xx ← get_pair x; yy ← get_pair y; Ok (xx, yy).

Definition pushqword (res : Z * Z) : list Z := put_le32 (fst res) ++ put_le32 (snd res).

Definition lhmac64 (x y : list Z) : result (list Z) :=
  '(xx, yy) ← read64 x y; res ← hmac xx yy; Ok (pushqword res).

Definition lhmac_hash (x text : list Z) : result (list Z) :=
  if negb (zlen x =? 8) then LuaError "Invalid uint64 key"
  else
    key ← get_pair x;
    _ ← assert_ (zlen text <=? INT_MAX);
    htext ← get_pair (Hash text);
    res ← hmac htext key;
    Ok (pushqword res).

(** ** Key exchange *)

Definition P : Z := 0xffffffffffffffc5.

(** The loop of [mul_mod_p]; a 64-bit [b] is 0 after 64 rounds. *)
Fixpoint mul_loop (fuel : nat) (m a b : Z) : result Z :=
  match fuel with
  | O => Fault
  | S fuel =>
      if b =? 0 then Ok m
      else
        let m := if negb (Z.land b 1 =? 0)
                 then let t := u64 (P - a) in if t <=? m then u64 (m - t) else u64 (m + a)
                 else m in
        let a := if u64 (P - a) <=? a then u64 (a * 2 - P) else u64 (a * 2) in
        mul_loop fuel m a (Z.shiftr b 1)
  end.

Definition mul_mod_p (a b : Z) : result Z := mul_loop 65 0 a b.

(** Recurses forever on [b = 0], which the callers exclude. *)
Fixpoint pow_mod_p (fuel : nat) (a b : Z) : result Z :=
  match fuel with
  | O => Fault
  | S fuel =>
      if b =? 1 then Ok a
      else
        t ← pow_mod_p fuel a (Z.shiftr b 1);
        t ← mul_mod_p t t;
        if negb (b mod 2 =? 0) then mul_mod_p t a else Ok t
  end.

Definition powmodp (a b : Z) : result Z :=
  pow_mod_p 64 (if P <? a then a mod P else a) b.

Definition push64 (n : Z) : list Z :=
  put_le32 n ++ [Z.land (Z.shiftr n 32) 255; Z.land (Z.shiftr n 40) 255; Z.land (Z.shiftr n 48) 255; Z.land (Z.shiftr n 56) 255].

Definition join64 (x : Z * Z) : Z := Z.lor (fst x) (u64 (Z.shiftl (snd x) 32)).

Definition ldhsecret (x y : list Z) : result (list Z) :=
  '(x, y) ← read64 x y;
  let xx := join64 x in
  let yy := join64 y in
  if (xx =? 0) || (yy =? 0) then LuaError "Can't be 0"
  else n ← powmodp xx yy; Ok (push64 n).

Definition G : Z := 5.

Definition ldhexchange (x : list Z) : result (list Z) :=
  if negb (zlen x =? 8) then LuaError "Invalid dh uint64 key"
  else
    xx ← get_pair x;
    let x64 := join64 xx in
    if x64 =? 0 then LuaError "Can't be 0"
    else n ← powmodp G x64; Ok (push64 n).

(** [rnd] is what the eight calls of [random] return. *)
Definition lrandomkey (rnd : list Z) : list Z :=
  let tmp := (fun n => Z.land n 255) <$> rnd in
  let x := foldr Z.lxor 0 tmp in
  match tmp with
  | t0 :: tmp => (if x =? 0 then Z.lor t0 1 else t0) :: tmp
  | [] => []
  end.

(** ** Base64 *)

Definition encoding : list Z := of_string "ABCDEFGHIJKLMNOPQRSTUVWXYZabcdefghijklmnopqrstuvwxyz0123456789+/".

Fixpoint b64encode_loop (text : list Z) : result (list Z) :=
  match text with
  | t0 :: t1 :: t2 :: text =>
      let v := ors [Z.shiftl t0 16; Z.shiftl t1 8; t2] in
      c0 ← zget encoding (Z.shiftr v 18);
      c1 ← zget encoding (Z.land (Z.shiftr v 12) 0x3f);
      c2 ← zget encoding (Z.land (Z.shiftr v 6) 0x3f);
      c3 ← zget encoding (Z.land v 0x3f);
      buffer ← b64encode_loop text;
      Ok (c0 :: c1 :: c2 :: c3 :: buffer)
  | [t0; t1] =>
      let v := Z.lor (Z.shiftl t0 8) t1 in
      c0 ← zget encoding (Z.shiftr v 10);
      c1 ← zget encoding (Z.land (Z.shiftr v 4) 0x3f);
      c2 ← zget encoding (Z.shiftl (Z.land v 0xf) 2);
      Ok [c0; c1; c2; 61]
  | [t0] =>
      c0 ← zget encoding (Z.shiftr t0 2);
      c1 ← zget encoding (Z.shiftl (Z.land t0 3) 4);
      Ok [c0; c1; 61; 61]
  | [] => Ok []
  end.

(** [encode_sz] is an [int]. *)
Definition lb64encode (text : list Z) : result (list Z) :=
  let encode_sz := (zlen text + 2) / 3 * 4 in
  _ ← assert_ (encode_sz <=? INT_MAX);
  b64encode_loop text.

Definition decoding : list Z := [
   62; -1; -1; -1; 63; 52; 53; 54; 55; 56; 57; 58; 59; 60; 61; -1; -1; -1; -2; -1;
   -1; -1; 0; 1; 2; 3; 4; 5; 6; 7; 8; 9; 10; 11; 12; 13; 14; 15; 16; 17;
   18; 19; 20; 21; 22; 23; 24; 25; -1; -1; -1; -1; -1; -1; 26; 27; 28; 29; 30; 31;
   32; 33; 34; 35; 36; 37; 38; 39; 40; 41; 42; 43; 44; 45; 46; 47; 48; 49; 50; 51].

Definition b64index (c : Z) : result Z :=
  if c <? 43 then Ok (-1)
  else
    let c := c - 43 in
    if zlen decoding <=? c then Ok (-1) else zget decoding c.

(** The loop over [j]: collects up to [k] more indices in front of [text];
    returns them, the number of '=' among them and the rest of the text. *)
Fixpoint b64group (k : nat) (text : list Z) (c : list Z) (padding : Z) : result (list Z * Z * list Z) :=
  match k with
  | O => Ok (c, padding, text)
  | S k' =>
      match text with
      | [] => LuaError "Invalid base64 text"
      | t :: text =>
          cj ← b64index t;
          if cj =? -1 then b64group k text c padding
          else b64group k' text (c ++ [cj]) (if cj =? -2 then padding + 1 else padding)
      end
  end.

(** What the [switch (padding)] appends to the buffer. *)
Definition b64bytes (c : list Z) (padding : Z) : result (list Z) :=
  c0 ← zget c 0; c1 ← zget c 1; c2 ← zget c 2; c3 ← zget c 3;
  if padding =? 0 then
    let v := u32 (ors [Z.shiftl c0 18; Z.shiftl c1 12; Z.shiftl c2 6; c3]) in
    Ok [u8 (Z.shiftr v 16); Z.land (Z.shiftr v 8) 255; Z.land v 255]
  else if padding =? 1 then
    if negb (c3 =? -2) || negb (Z.land c2 3 =? 0) then LuaError "Invalid base64 text"
    else
      let v := u32 (ors [Z.shiftl c0 10; Z.shiftl c1 4; Z.shiftr c2 2]) in
      Ok [u8 (Z.shiftr v 8); Z.land v 255]
  else if padding =? 2 then
    if negb (c3 =? -2) || negb (c2 =? -2) || negb (Z.land c1 0xf =? 0) then LuaError "Invalid base64 text"
    else
      let v := u32 (Z.lor (Z.shiftl c0 2) (Z.shiftr c1 4)) in
      Ok [u8 v]
  else LuaError "Invalid base64 text".

(** Every round consumes at least four characters, so the length is enough fuel. *)
Fixpoint b64decode_loop (fuel : nat) (text : list Z) : result (list Z) :=
  match text with
  | [] => Ok []
  | _ :: _ =>
      match fuel with
      | O => Fault
      | S fuel =>
          '(c, padding, text) ← b64group 4 text [] 0;
          out ← b64bytes c padding;
          buffer ← b64decode_loop fuel text;
          Ok (out ++ buffer)
      end
  end.

Definition lb64decode (text : list Z) : result (list Z) :=
  _ ← assert_ ((zlen text + 3) / 4 * 3 <=? INT_MAX);
  b64decode_loop (length text) text.

(** ** Xor of strings *)

Definition lxor_str (s1 s2 : list Z) : result (list Z) :=
  if zlen s2 =? 0 then LuaError "Can't xor empty string"
  else
    _ ← assert_ (zlen s1 <=? INT_MAX);
    mapM (fun i => a ← zget s1 i; b ← zget s2 (i mod zlen s2); Ok (Z.lxor a b)) (seqZ 0 (zlen s1)).

(** ** Hexadecimal text *)

Lemma tohex_fromhex b : is_byte b -> exists hi low, zget hex (Z.shiftr b 4) = Ok hi /\ zget hex (Z.land b 15) = Ok low /\
  HEX hi = b / 16 /\ HEX low = b mod 16.
Proof.
  intros Hb. unfold is_byte in Hb.
  assert (forall d, 0 <= d < 16 -> exists c, zget hex d = Ok c /\ HEX c = d) as Hd.
  { intros d Hd. assert (exists n, (n < 16)%nat /\ d = Z.of_nat n) as (n & Hn & ->) by (exists (Z.to_nat d); lia).
    do 16 (destruct n as [|n]; [eexists; split; reflexivity|]). lia. }
  rewrite Z.shiftr_div_pow2 by done. change 15 with (2 ^ 4 - 1). rewrite land_pred_pow2 by done.
  change (2 ^ 4) with 16. destruct (Hd (b / 16)) as (hi & E1 & E2); [dlia|].
  destruct (Hd (b mod 16)) as (low & E3 & E4); [dlia|]. eauto 10.
Qed.

Lemma hex_join b : is_byte b -> u8 (Z.lor (Z.shiftl (b / 16) 4) (b mod 16)) = b.
Proof.
  intros Hb. unfold is_byte in Hb. rewrite Z.lor_comm, lor_shiftl_add by dlia. unfold u8, wrap. dlia.
Qed.

(** Which characters [hexdecode] takes for digits, and their values. *)
Definition hex_value (c : Z) : option Z :=
  if (48 <=? c) && (c <=? 57) then Some (c - 48)
  else if (87 <=? c) && (c <=? 103) then Some (c - 87)
  else None.

Lemma HEX_value c : is_byte c ->
  match hex_value c with Some v => HEX c = v /\ 0 <= v <= 16 | None => 16 < HEX c end.
Proof.
  unfold is_byte, hex_value, HEX. intros Hc. assert (swrap 8 c = if c <? 128 then c else c - 256) as ->.
  { unfold swrap. change (2 ^ (8 - 1)) with 128. change (2 ^ 8) with 256. zcases; dlia. }
  unfold u8, wrap. change (2 ^ 8) with 256. zprune; try (split; [|lia]); dlia.
Qed.

Fixpoint hex_pairs (text : list Z) : option (list Z) :=
  match text with
  | [] => Some []
  | c1 :: c2 :: text =>
      hi ← hex_value c1; low ← hex_value c2; l ← hex_pairs text;
      Some (u8 (Z.lor (Z.shiftl hi 4) low) :: l)
  | _ => None
  end.

Lemma fromhex_spec n : forall text, bytes text -> length text = (2 * n)%nat ->
  fromhex_loop text = match hex_pairs text with Some out => Ok out | None => LuaError "Invalid hex text" end.
Proof.
  induction n as [|n IH]; intros text Ht Hl.
  - by destruct text.
  - destruct text as [|c1 [|c2 text]]; cbn in Hl; try lia. cbn [fromhex_loop hex_pairs].
    apply Forall_cons in Ht as [H1 Ht]. apply Forall_cons in Ht as [H2 Ht].
    pose proof (HEX_value c1 H1) as E1. pose proof (HEX_value c2 H2) as E2.
    destruct (hex_value c1) as [v1|]; cbn; [destruct E1 as [-> E1]|zprune; done].
    destruct (hex_value c2) as [v2|]; cbn; [destruct E2 as [-> E2]|zprune; done].
    destruct (Z.ltb_spec 16 v1), (Z.ltb_spec 16 v2); try lia. cbn [orb].
    rewrite IH by (done || lia). by destruct (hex_pairs text).
Qed.

Lemma tohex_spec text : bytes text ->
  exists h, tohex_loop text = Ok h /\ length h = (2 * length text)%nat /\ fromhex_loop h = Ok text.
Proof.
  induction 1 as [|b text Hb Ht (h & E1 & Hl & E2)]; [by exists []|].
  destruct (tohex_fromhex b Hb) as (hi & low & Eh & El & Vh & Vl).
  exists (hi :: low :: h). cbn [tohex_loop fromhex_loop]. rewrite Eh. cbn [mbind result_bind]. rewrite El. cbn [mbind result_bind].
  rewrite E1. split_and!; [done|cbn; lia|]. rewrite Vh, Vl. unfold is_byte in Hb.
  destruct (Z.ltb_spec 16 (b / 16)); [dlia|]. destruct (Z.ltb_spec 16 (b mod 16)); [dlia|].
  cbn [orb]. rewrite E2. cbn. by rewrite hex_join.
Qed.

(** [hexdecode] undoes [hexencode] on every string; and this is all it
    accepts: an even number of characters 0-9 and a-f, but also the ten
    characters 87 to 96 (W to the backquote) with the values 0 to 9 and g with
    the value 16, because the digit is only compared with 16 after
    [tmp - 'a' + 10]; everything else is an error. *)
Theorem hex_roundtrip (text : list Z) (Htext : bytes text) (Hlen : 2 * zlen text <= INT_MAX) :
  (exists h, ltohex text = Ok h /\ lfromhex h = Ok text) /\
  lfromhex text = if Z.odd (zlen text) then LuaError "Invalid hex text size"
                  else match hex_pairs text with Some out => Ok out | None => LuaError "Invalid hex text" end.
Proof.
  pose proof (zlen_nonneg text) as H0.
  assert (forall t : list Z, Z.land (zlen t) 1 =? 0 = negb (Z.odd (zlen t))) as Hodd.
  { intros t. change 1 with (2 ^ 1 - 1). rewrite land_pred_pow2 by done. rewrite Zmod_odd. by destruct (Z.odd _). }
  split.
  - destruct (tohex_spec text Htext) as (h & E1 & Hl & E2). exists h. unfold ltohex, lfromhex. rewrite Hodd.
    assert (zlen h = 2 * zlen text) as -> by (unfold zlen in *; lia).
    rewrite Z.odd_mul. cbn [Z.odd negb andb]. unfold assert_.
    destruct (Z.leb_spec (zlen text) INT_MAX); [|lia]. destruct (Z.leb_spec (2 * zlen text) INT_MAX); [|lia]. done.
  - unfold lfromhex. rewrite Hodd, negb_involutive. destruct (Z.odd (zlen text)) eqn:E; [done|].
    unfold assert_. destruct (Z.leb_spec (zlen text) INT_MAX); [|lia]. cbn [mbind result_bind].
    apply (fromhex_spec (length text / 2)%nat); [done|].
    rewrite <- Z.negb_even, negb_false_iff, Z.even_spec in E. destruct E as [m E]. unfold zlen in E.
    replace (length text) with (2 * Z.to_nat m)%nat by lia. rewrite (Nat.mul_comm 2), Nat.div_mul; lia.
Qed.

Lemma hex_roundtrip_witness :
  (exists h, ltohex [103; 87] = Ok h /\ lfromhex h = Ok [103; 87]) /\ lfromhex [103; 87] = Ok [0].
Proof. split; [|reflexivity]. apply (hex_roundtrip [103; 87]); [solve_bytes|unfold INT_MAX, zlen; cbn; lia]. Defined.

(** ** Base64 *)

Lemma sextet d : 0 <= d < 64 -> exists c, zget encoding d = Ok c /\ b64index c = Ok d.
Proof.
  intros Hd. assert (exists n, (n < 64)%nat /\ d = Z.of_nat n) as (n & Hn & ->) by (exists (Z.to_nat d); lia).
  do 64 (destruct n as [|n]; [eexists; split; reflexivity|]). lia.
Qed.

(** [c] is the base64 digit of [d]. *)
Definition digit_of (c d : Z) : Prop := b64index c = Ok d /\ 0 <= d < 64.

Lemma b64group_digit kk t text c d padding : digit_of t d ->
  b64group (S kk) (t :: text) c padding = b64group kk text (c ++ [d]) padding.
Proof.
  intros [E Hd]. cbn [b64group]. rewrite E. cbn [mbind result_bind].
  destruct (Z.eqb_spec d (-1)); [lia|]. destruct (Z.eqb_spec d (-2)); [lia|]. done.
Qed.

Lemma b64group_pad kk text c padding :
  b64group (S kk) (61 :: text) c padding = b64group kk text (c ++ [-2]) (padding + 1).
Proof. reflexivity. Qed.

Lemma group24 t0 t1 t2 : is_byte t0 -> is_byte t1 -> is_byte t2 ->
  ors [Z.shiftl t0 16; Z.shiftl t1 8; t2] = t0 * 65536 + t1 * 256 + t2.
Proof.
  unfold is_byte. intros. unfold ors. cbn [foldr]. rewrite Z.lor_0_r, (Z.lor_comm (Z.shiftl t1 8)), lor_shiftl_add by lia.
  rewrite Z.lor_comm, lor_shiftl_add; lia.
Qed.

Lemma ors_sextets a b c d : 0 <= a < 64 -> 0 <= b < 64 -> 0 <= c < 64 -> 0 <= d < 64 ->
  u32 (ors [Z.shiftl a 18; Z.shiftl b 12; Z.shiftl c 6; d]) = a * 2 ^ 18 + b * 2 ^ 12 + c * 2 ^ 6 + d.
Proof.
  intros. unfold ors. cbn [foldr]. rewrite Z.lor_0_r, (Z.lor_comm (Z.shiftl c 6)), lor_shiftl_add by lia.
  rewrite (Z.lor_comm (Z.shiftl b 12)), lor_shiftl_add by lia. rewrite Z.lor_comm, lor_shiftl_add by lia.
  rewrite u32_small; unfold is_u32; lia.
Qed.

Lemma land_63 x : Z.land x 0x3f = x mod 64.
Proof. change 0x3f with (2 ^ 6 - 1). by apply land_pred_pow2. Qed.

Lemma land_15 x : Z.land x 0xf = x mod 16.
Proof. change 0xf with (2 ^ 4 - 1). by apply land_pred_pow2. Qed.

Lemma land_3 x : Z.land x 3 = x mod 4.
Proof. change 3 with (2 ^ 2 - 1). by apply land_pred_pow2. Qed.

Lemma digit_get d : 0 <= d < 64 -> exists c, zget encoding d = Ok c /\ digit_of c d.
Proof. intros Hd. destruct (sextet d Hd) as (c & E1 & E2). exists c. repeat split; try done; lia. Qed.

Lemma b64group_0 text c padding : b64group 0 text c padding = Ok (c, padding, text).
Proof. by destruct text. Qed.

(** The bytes of four sextets that come from the number [v]. *)
Lemma b64bytes_0 v : 0 <= v < 2 ^ 24 ->
  b64bytes [v / 2 ^ 18; (v / 2 ^ 12) mod 64; (v / 2 ^ 6) mod 64; v mod 64] 0 =
  Ok [v / 65536; (v / 256) mod 256; v mod 256].
Proof.
  intros Hv. set (a := v / 2 ^ 18). set (b := (v / 2 ^ 12) mod 64). set (c := (v / 2 ^ 6) mod 64). set (d := v mod 64).
  transitivity (let v' := u32 (ors [Z.shiftl a 18; Z.shiftl b 12; Z.shiftl c 6; d]) in
    Ok [u8 (Z.shiftr v' 16); Z.land (Z.shiftr v' 8) 255; Z.land v' 255]); [reflexivity|].
  rewrite ors_sextets by (subst a b c d; dlia).
  replace (a * 2 ^ 18 + b * 2 ^ 12 + c * 2 ^ 6 + d) with v by (subst a b c d; dlia).
  cbv zeta. rewrite !land_255, !Z.shiftr_div_pow2 by done. unfold u8, wrap. change (2 ^ 16) with 65536.
  rewrite (Z.mod_small (v / 65536)) by dlia. done.
Qed.

Lemma b64bytes_1 v : 0 <= v < 2 ^ 16 ->
  b64bytes [v / 2 ^ 10; (v / 2 ^ 4) mod 64; Z.shiftl (v mod 16) 2; -2] 1 = Ok [v / 256; v mod 256].
Proof.
  intros Hv. set (a := v / 2 ^ 10). set (b := (v / 2 ^ 4) mod 64). set (c := Z.shiftl (v mod 16) 2).
  transitivity (if negb (Z.land c 3 =? 0) then LuaError "Invalid base64 text" else
    let v' := u32 (ors [Z.shiftl a 10; Z.shiftl b 4; Z.shiftr c 2]) in
    Ok [u8 (Z.shiftr v' 8); Z.land v' 255]); [reflexivity|].
  assert (c = v mod 16 * 4) as Ec by (subst c; by rewrite Z.shiftl_mul_pow2). rewrite Ec, land_3.
  rewrite Z.mod_mul by done. cbn [Z.eqb negb]. unfold ors. cbn [foldr]. rewrite Z.lor_0_r.
  rewrite !(Z.shiftr_div_pow2 _ 2), Z.div_mul by done. rewrite (Z.lor_comm (Z.shiftl b 4)), lor_shiftl_add by dlia.
  rewrite Z.lor_comm, lor_shiftl_add by (subst b; dlia).
  replace (v mod 16 + b * 2 ^ 4 + a * 2 ^ 10) with v by (subst a b; dlia).
  rewrite u32_small by (unfold is_u32; lia). rewrite land_255, Z.shiftr_div_pow2 by done. unfold u8, wrap.
  change (2 ^ 8) with 256. rewrite (Z.mod_small (v / 256)) by dlia. done.
Qed.

Lemma b64bytes_2 t : is_byte t -> b64bytes [t / 4; Z.shiftl (t mod 4) 4; -2; -2] 2 = Ok [t].
Proof.
  unfold is_byte. intros Ht. set (a := t / 4). set (b := Z.shiftl (t mod 4) 4).
  transitivity (if negb (Z.land b 0xf =? 0) then LuaError "Invalid base64 text" else
    Ok [u8 (u32 (Z.lor (Z.shiftl a 2) (Z.shiftr b 4)))]); [reflexivity|].
  assert (b = t mod 4 * 16) as Eb by (subst b; by rewrite Z.shiftl_mul_pow2). rewrite Eb, land_15.
  rewrite Z.mod_mul by done. cbn [Z.eqb negb]. rewrite Z.shiftr_div_pow2, Z.div_mul by done.
  rewrite Z.lor_comm, lor_shiftl_add by dlia. replace (t mod 4 + a * 2 ^ 2) with t by (subst a; dlia).
  rewrite u32_small by (unfold is_u32; lia). unfold u8, wrap. by rewrite Z.mod_small.
Qed.

(** Three bytes make four digits, and the four digits the three bytes. *)
Lemma b64_full t0 t1 t2 text : is_byte t0 -> is_byte t1 -> is_byte t2 ->
  exists c0 c1 c2 c3, (forall buffer, b64encode_loop text = Ok buffer ->
    b64encode_loop (t0 :: t1 :: t2 :: text) = Ok (c0 :: c1 :: c2 :: c3 :: buffer)) /\
  forall fuel buffer, b64decode_loop (S fuel) (c0 :: c1 :: c2 :: c3 :: buffer) =
    (rest ← b64decode_loop fuel buffer; Ok ([t0; t1; t2] ++ rest)).
Proof.
  intros H0 H1 H2. pose proof (group24 t0 t1 t2 H0 H1 H2) as Ev. unfold is_byte in *.
  set (v := t0 * 65536 + t1 * 256 + t2) in *. assert (0 <= v < 2 ^ 24) as Hv by (subst v; lia).
  destruct (digit_get (v / 2 ^ 18)) as (c0 & E0 & D0); [dlia|].
  destruct (digit_get ((v / 2 ^ 12) mod 64)) as (c1 & E1 & D1); [dlia|].
  destruct (digit_get ((v / 2 ^ 6) mod 64)) as (c2 & E2 & D2); [dlia|].
  destruct (digit_get (v mod 64)) as (c3 & E3 & D3); [dlia|].
  exists c0, c1, c2, c3. split.
  - intros buffer E. cbn [b64encode_loop]. rewrite Ev, !land_63, !Z.shiftr_div_pow2 by done.
    rewrite E0. rstep. rewrite E1. rstep. rewrite E2. rstep. rewrite E3. rstep. by rewrite E.
  - intros fuel buffer. cbn [b64decode_loop].
    rewrite (b64group_digit _ _ _ _ _ _ D0), (b64group_digit _ _ _ _ _ _ D1),
      (b64group_digit _ _ _ _ _ _ D2), (b64group_digit _ _ _ _ _ _ D3).
    rewrite b64group_0. cbn [app]. rstep. rewrite b64bytes_0 by done. rstep.
    replace (v / 65536) with t0 by (subst v; dlia). replace ((v / 256) mod 256) with t1 by (subst v; dlia).
    replace (v mod 256) with t2 by (subst v; dlia). done.
Qed.

Lemma b64_two t0 t1 : is_byte t0 -> is_byte t1 ->
  exists c0 c1 c2, b64encode_loop [t0; t1] = Ok [c0; c1; c2; 61] /\
  forall fuel, b64decode_loop (S fuel) [c0; c1; c2; 61] = Ok [t0; t1].
Proof.
  intros H0 H1. unfold is_byte in *. assert (Z.lor (Z.shiftl t0 8) t1 = t0 * 256 + t1) as Ev.
  { rewrite Z.lor_comm, lor_shiftl_add; lia. }
  set (v := t0 * 256 + t1) in *. assert (0 <= v < 2 ^ 16) as Hv by (subst v; lia).
  destruct (digit_get (v / 2 ^ 10)) as (c0 & E0 & D0); [dlia|].
  destruct (digit_get ((v / 2 ^ 4) mod 64)) as (c1 & E1 & D1); [dlia|].
  destruct (digit_get (Z.shiftl (v mod 16) 2)) as (c2 & E2 & D2); [rewrite Z.shiftl_mul_pow2 by done; dlia|].
  exists c0, c1, c2. split.
  - cbn [b64encode_loop]. rewrite Ev, land_63, land_15, !Z.shiftr_div_pow2 by done.
    rewrite E0. rstep. rewrite E1. rstep. by rewrite E2.
  - intros fuel. cbn [b64decode_loop].
    rewrite (b64group_digit _ _ _ _ _ _ D0), (b64group_digit _ _ _ _ _ _ D1), (b64group_digit _ _ _ _ _ _ D2), b64group_pad.
    rewrite b64group_0. cbn [app]. rstep. change (0 + 1) with 1. rewrite b64bytes_1 by done. rstep.
    replace (v / 256) with t0 by (subst v; dlia). replace (v mod 256) with t1 by (subst v; dlia). by destruct fuel.
Qed.

Lemma b64_one t0 : is_byte t0 ->
  exists c0 c1, b64encode_loop [t0] = Ok [c0; c1; 61; 61] /\
  forall fuel, b64decode_loop (S fuel) [c0; c1; 61; 61] = Ok [t0].
Proof.
  intros H0. unfold is_byte in *.
  destruct (digit_get (t0 / 4)) as (c0 & E0 & D0); [dlia|].
  destruct (digit_get (Z.shiftl (t0 mod 4) 4)) as (c1 & E1 & D1); [rewrite Z.shiftl_mul_pow2 by done; dlia|].
  exists c0, c1. split.
  - cbn [b64encode_loop]. rewrite land_3, Z.shiftr_div_pow2 by done. change (2 ^ 2) with 4.
    rewrite E0. rstep. by rewrite E1.
  - intros fuel. cbn [b64decode_loop].
    rewrite (b64group_digit _ _ _ _ _ _ D0), (b64group_digit _ _ _ _ _ _ D1), !b64group_pad.
    rewrite b64group_0. cbn [app]. rstep. change (0 + 1 + 1) with 2. rewrite b64bytes_2 by done. rstep. by destruct fuel.
Qed.

Lemma b64_spec n : forall text, (length text < n)%nat -> bytes text ->
  exists buffer, b64encode_loop text = Ok buffer /\ zlen buffer = (zlen text + 2) / 3 * 4 /\
  forall fuel, (length text <= fuel)%nat -> b64decode_loop fuel buffer = Ok text.
Proof.
  induction n as [|n IH]; intros text Hl Ht; [lia|]. destruct text as [|t0 [|t1 [|t2 text]]].
  - exists []. split_and!; [done..|]. by intros [].
  - apply Forall_cons in Ht as [H0 _]. destruct (b64_one t0 H0) as (c0 & c1 & E & D).
    exists [c0; c1; 61; 61]. split_and!; [done..|]. intros [|fuel] Hf; [cbn in Hf; lia|apply D].
  - apply Forall_cons in Ht as [H0 Ht]. apply Forall_cons in Ht as [H1 _].
    destruct (b64_two t0 t1 H0 H1) as (c0 & c1 & c2 & E & D).
    exists [c0; c1; c2; 61]. split_and!; [done..|]. intros [|fuel] Hf; [cbn in Hf; lia|apply D].
  - apply Forall_cons in Ht as [H0 Ht]. apply Forall_cons in Ht as [H1 Ht]. apply Forall_cons in Ht as [H2 Ht].
    cbn [length] in Hl. destruct (IH text ltac:(lia) Ht) as (buffer & E & Hz & D).
    destruct (b64_full t0 t1 t2 text H0 H1 H2) as (c0 & c1 & c2 & c3 & Ee & Ed).
    eexists. split; [by apply Ee|]. split.
    + change (zlen (c0 :: c1 :: c2 :: c3 :: buffer)) with (Z.of_nat (4 + length buffer)).
      change (zlen (t0 :: t1 :: t2 :: text)) with (Z.of_nat (3 + length text)).
      rewrite !Nat2Z.inj_add. unfold zlen in Hz. rewrite Hz. dlia.
    + intros [|fuel] Hf; cbn [length] in Hf; [lia|]. rewrite Ed, D by lia. done.
Qed.

(** [base64decode] undoes [base64encode] on every string whose encoding
    fits an [int], and the encoding has [(sz + 2) / 3 * 4] characters, which is
    the size of the buffer it is written to. *)
Theorem b64_roundtrip (text : list Z) (Htext : bytes text) (Hlen : (zlen text + 2) / 3 * 4 < INT_MAX - 4) :
  exists buffer, lb64encode text = Ok buffer /\ zlen buffer = (zlen text + 2) / 3 * 4 /\ lb64decode buffer = Ok text.
Proof.
  destruct (b64_spec (S (length text)) text ltac:(lia) Htext) as (buffer & E & Hz & D).
  exists buffer. unfold lb64encode, lb64decode, assert_, INT_MAX in *. rewrite Hz.
  destruct (Z.leb_spec ((zlen text + 2) / 3 * 4) 2147483647); [|lia]. rstep.
  destruct (Z.leb_spec (((zlen text + 2) / 3 * 4 + 3) / 4 * 3) 2147483647); [|dlia]. rstep.
  split_and!; [done..|]. apply D. unfold zlen in *. clear - Hz. dlia.
Qed.

Lemma b64_roundtrip_witness : exists buffer, lb64encode [77; 97; 110; 255] = Ok buffer /\ zlen buffer = 8 /\
  lb64decode buffer = Ok [77; 97; 110; 255].
Proof. apply (b64_roundtrip [77; 97; 110; 255]); [solve_bytes|reflexivity]. Defined.

(** ** Little-endian words *)

Lemma put_le32_le n : put_le32 n = le_bytes 4 n.
Proof.
  unfold put_le32. rewrite !land_255, !Z.shiftr_div_pow2 by done. cbn [le_bytes].
  rewrite !Z.div_div by done. done.
Qed.

Lemma push64_le n : push64 n = le_bytes 8 n.
Proof.
  unfold push64. rewrite put_le32_le, !land_255, !Z.shiftr_div_pow2 by done. cbn [le_bytes app].
  rewrite !Z.div_div by done. done.
Qed.

Lemma le_val_app l k : le_val (l ++ k) = le_val l + 2 ^ (8 * zlen l) * le_val k.
Proof.
  induction l as [|b l IH]; [cbn [app le_val]; change (8 * zlen (@nil Z)) with 0; lia|]. unfold zlen in *. cbn [app le_val length]. rewrite IH, pow_8S. ring.
Qed.

Lemma get_le32_Ok x i b0 b1 b2 b3 : zget x i = Ok b0 -> zget x (i + 1) = Ok b1 -> zget x (i + 2) = Ok b2 ->
  zget x (i + 3) = Ok b3 -> bytes [b0; b1; b2; b3] -> get_le32 x i = Ok (le_val [b0; b1; b2; b3]).
Proof.
  intros E0 E1 E2 E3 Hb. unfold get_le32. rewrite E0, E1, E2, E3. cbn. f_equal.
  pose proof (le_val_range _ Hb) as Hr. cbn in Hr. repeat (apply Forall_cons in Hb as [? Hb]). unfold is_byte in *.
  rewrite Z.lor_0_r. rewrite (Z.lor_comm (Z.shiftl b2 16)).
  replace (Z.lor (Z.shiftl b3 24) (Z.shiftl b2 16)) with (Z.shiftl (b2 + b3 * 2 ^ 8) 16).
  2:{ rewrite <- (lor_shiftl_add b2 b3 8), Z.shiftl_lor, Z.shiftl_shiftl, Z.lor_comm by lia. done. }
  replace (Z.lor (Z.shiftl b1 8) (Z.shiftl (b2 + b3 * 2 ^ 8) 16)) with (Z.shiftl (b1 + (b2 + b3 * 2 ^ 8) * 2 ^ 8) 8).
  2:{ rewrite <- (lor_shiftl_add b1 _ 8), Z.shiftl_lor, Z.shiftl_shiftl by lia. done. }
  rewrite lor_shiftl_add by lia. rewrite u32_small by (unfold is_u32; lia). lia.
Qed.

Lemma get_pair_spec x : block x -> exists p, get_pair x = Ok p /\ word_pair p /\ join64 p = le_val x /\
  p = (le_val (take 4 x), le_val (drop 4 x)).
Proof.
  intros [Hb Hl]. do 9 (destruct x as [|? x]; cbn in Hl; try lia).
  assert (bytes [z; z0; z1; z2]) as H1 by exact (bytes_take 4 _ Hb).
  assert (bytes [z3; z4; z5; z6]) as H2 by exact (bytes_drop 4 _ Hb).
  unfold get_pair. rewrite (get_le32_Ok _ 0 z z0 z1 z2), (get_le32_Ok _ 4 z3 z4 z5 z6) by (try reflexivity; done).
  rstep. eexists. split; [reflexivity|]. pose proof (le_val_range _ H1) as R1. pose proof (le_val_range _ H2) as R2.
  change (2 ^ (8 * zlen _)) with (2 ^ 32) in R1. change (2 ^ (8 * zlen _)) with (2 ^ 32) in R2.
  split; [done|]. split; [|done]. unfold join64. cbn [fst snd].
  rewrite u64_small by (unfold is_u64; rewrite Z.shiftl_mul_pow2 by done; lia).
  rewrite lor_shiftl_add by done. change [z; z0; z1; z2; z3; z4; z5; z6] with ([z; z0; z1; z2] ++ [z3; z4; z5; z6]).
  rewrite le_val_app. change (2 ^ (8 * zlen [z; z0; z1; z2])) with (2 ^ 32). lia.
Qed.

Lemma le_val_mod l : bytes l -> (length l <= 8)%nat -> 0 <= le_val l < 2 ^ 64.
Proof.
  intros Hb Hl. pose proof (le_val_range l Hb) as Hr. split; [lia|].
  apply (Z.lt_le_trans _ (2 ^ (8 * zlen l))); [lia|]. apply Z.pow_le_mono_r; unfold zlen; lia.
Qed.

(** ** Multiplication and power modulo [P] *)

Lemma mul_loop_spec fuel : forall m a b, 0 <= m < P -> 0 <= a < P -> 0 <= b < 2 ^ Z.of_nat fuel ->
  mul_loop (S fuel) m a b = Ok ((m + a * b) mod P).
Proof.
  induction fuel as [|fuel IH]; intros m a b Hm Ha Hb.
  - assert (b = 0) as -> by (cbn in Hb; lia). cbn. rewrite Z.mul_0_r, Z.add_0_r, Z.mod_small by lia. done.
  - remember (S fuel) as f eqn:Ef. cbn [mul_loop]. subst f. destruct (Z.eqb_spec b 0) as [->|Hb0].
    { rewrite Z.mul_0_r, Z.add_0_r, Z.mod_small by lia. done. }
    assert (P < 2 ^ 64) as HP by done.
    change 1 with (2 ^ 1 - 1) at 1. rewrite land_pred_pow2, Z.shiftr_div_pow2 by done. change (2 ^ 1) with 2.
    rewrite (u64_small (P - a)) by (unfold is_u64; lia).
    set (m' := if negb (b mod 2 =? 0) then _ else m). set (a' := if P - a <=? a then _ else _).
    assert (0 <= m' < P /\ m' mod P = (m + a * (b mod 2)) mod P) as [Hm' Em].
    { subst m'. destruct (Z.eqb_spec (b mod 2) 0) as [E|E]; cbn [negb].
      - rewrite E, Z.mul_0_r, Z.add_0_r. done.
      - assert (b mod 2 = 1) as -> by dlia. rewrite Z.mul_1_r. destruct (Z.leb_spec (P - a) m).
        + rewrite u64_small by (unfold is_u64; lia). split; [lia|].
          replace (m + a) with (m - (P - a) + 1 * P) by lia. by rewrite Z_mod_plus_full.
        + rewrite u64_small by (unfold is_u64; lia). split; [lia|done]. }
    assert (0 <= a' < P /\ a' mod P = (2 * a) mod P) as [Ha' Ea].
    { subst a'. destruct (Z.leb_spec (P - a) a).
      - rewrite u64_small by (unfold is_u64; lia). split; [lia|].
        replace (2 * a) with (a * 2 - P + 1 * P) by lia. by rewrite Z_mod_plus_full.
      - rewrite u64_small by (unfold is_u64; lia). split; [lia|]. f_equal. lia. }
    rewrite IH; [|done|done|].
    2:{ rewrite Nat2Z.inj_succ, Z.pow_succ_r in Hb by lia. dlia. }
    f_equal. rewrite Zplus_mod, Zmult_mod, Em, Ea, <- Zmult_mod, <- Zplus_mod.
    f_equal. pose proof (Z.div_mod b 2 ltac:(lia)). nia.
Qed.

(** The operands may be [P] itself, which counts as 0. *)
Lemma mul_mod_p_spec a b : 0 <= a < P -> 0 <= b < 2 ^ 64 -> mul_mod_p a b = Ok (a * b mod P).
Proof. intros Ha Hb. unfold mul_mod_p. rewrite (mul_loop_spec 64) by (done || lia). by rewrite Z.add_0_l. Qed.

Lemma P_pos : 0 < P.
Proof. done. Qed.

Lemma P_u64 : P < 2 ^ 64.
Proof. done. Qed.

Lemma mul_mod_p_pow a c : 0 < c -> mul_mod_p (a ^ c mod P) (a ^ c mod P) = Ok (a ^ (c + c) mod P).
Proof.
  intros Hc. pose proof P_u64. pose proof (Z.mod_pos_bound (a ^ c) P P_pos).
  rewrite mul_mod_p_spec by lia. f_equal. by rewrite <- Zmult_mod, <- Z.pow_add_r by lia.
Qed.

Lemma mul_mod_p_l x a : 0 <= a < P -> mul_mod_p (x mod P) a = Ok (x * a mod P).
Proof.
  intros Ha. pose proof P_u64. pose proof (Z.mod_pos_bound x P P_pos). rewrite mul_mod_p_spec by lia.
  f_equal. by rewrite Zmult_mod_idemp_l.
Qed.

Lemma pow_half a b : 0 < b -> a ^ b = a ^ (b / 2 + b / 2) * a ^ (b mod 2).
Proof. intros. rewrite <- Z.pow_add_r by dlia. f_equal. dlia. Qed.

(** The square-and-multiply step, for any multiplication. *)
Lemma square_step (p : result Z) (mul : Z -> Z -> result Z) (k : Z -> result Z) x y z :
  p = Ok x -> mul x x = Ok y -> k y = z -> (t ← p; t ← mul t t; k t) = z.
Proof. intros -> E <-. rstep. by rewrite E. Qed.

Lemma multiply_step a b : 0 < b -> b <> 1 -> 0 <= a < P ->
  (if negb (b mod 2 =? 0) then mul_mod_p (a ^ (b / 2 + b / 2) mod P) a else Ok (a ^ (b / 2 + b / 2) mod P)) =
  Ok (a ^ b mod P).
Proof.
  intros. rewrite (pow_half a b) by lia. destruct (Z.eqb_spec (b mod 2) 0) as [->|E]; cbn [negb].
  - by rewrite Z.pow_0_r, Z.mul_1_r.
  - assert (b mod 2 = 1) as -> by dlia. rewrite Z.pow_1_r. by apply mul_mod_p_l.
Qed.

Lemma pow_mod_p_spec fuel : forall a b, 0 <= a < P -> 0 < b < 2 ^ Z.of_nat fuel ->
  pow_mod_p fuel a b = Ok (a ^ b mod P).
Proof.
  induction fuel as [|fuel IH]; intros a b Ha Hb; [cbn in Hb; lia|]. cbn [pow_mod_p].
  destruct (Z.eqb_spec b 1) as [->|Hb1]; [by rewrite Z.pow_1_r, Z.mod_small by lia|].
  rewrite Z.shiftr_div_pow2 by done. change (2 ^ 1) with 2. rewrite Nat2Z.inj_succ, Z.pow_succ_r in Hb by lia.
  eapply (square_step _ mul_mod_p (fun t => if negb (b mod 2 =? 0) then mul_mod_p t a else Ok t));
    [apply IH; [done|dlia]|apply mul_mod_p_pow; dlia|apply multiply_step; lia].
Qed.

(** [powmodp] computes the power modulo [P], but leaves the base [P] alone:
    its test is [a > P] where [a >= P] is meant. *)
Lemma mul_mod_P_P : mul_mod_p P P = Ok 0 /\ mul_mod_p 0 P = Ok 0 /\ mul_mod_p 0 0 = Ok 0.
Proof. vm_compute. done. Qed.

Lemma pow_mod_P fuel : forall b, 1 < b < 2 ^ Z.of_nat fuel -> pow_mod_p fuel P b = Ok 0.
Proof.
  induction fuel as [|fuel IH]; intros b Hb; [cbn in Hb; lia|]. cbn [pow_mod_p].
  destruct (Z.eqb_spec b 1); [lia|]. rewrite Z.shiftr_div_pow2 by done. change (2 ^ 1) with 2.
  rewrite Nat2Z.inj_succ, Z.pow_succ_r in Hb by lia. destruct mul_mod_P_P as (E1 & E2 & E3).
  assert (forall t, mul_mod_p t t = Ok 0 -> pow_mod_p fuel P (b / 2) = Ok t -> (t ← pow_mod_p fuel P (b / 2);
    t ← mul_mod_p t t; if negb (b mod 2 =? 0) then mul_mod_p t P else Ok t) = Ok 0) as Hstep.
  { intros t Et Ep. eapply (square_step _ mul_mod_p (fun t => if negb (b mod 2 =? 0) then mul_mod_p t P else Ok t));
      [exact Ep|exact Et|]. destruct (b mod 2 =? 0); cbn [negb]; done. }
  destruct (decide (b / 2 = 1)) as [E|E].
  - apply (Hstep P E1). rewrite E. destruct fuel as [|fuel]; [cbn in Hb; dlia|]. done.
  - apply (Hstep 0 E3). apply IH. dlia.
Qed.

Lemma powmodp_spec a b : is_u64 a -> 0 < b < 2 ^ 64 ->
  powmodp a b = Ok (if (a =? P) && (b =? 1) then P else a ^ b mod P).
Proof.
  intros Ha Hb. unfold powmodp, is_u64 in *. destruct (Z.ltb_spec P a) as [H|H].
  - rewrite (pow_mod_p_spec 64) by (try apply Z.mod_pos_bound; done). destruct (Z.eqb_spec a P); [lia|]. cbn [andb].
    by rewrite <- Zpower_mod by done.
  - destruct (Z.eqb_spec a P) as [->|]; [|rewrite (pow_mod_p_spec 64) by (done || lia); done].
    destruct (Z.eqb_spec b 1) as [->|]; [done|]. cbn [andb]. rewrite (pow_mod_P 64) by (cbn; lia).
    f_equal. replace b with (1 + (b - 1)) by lia. rewrite Z.pow_add_r, Z.pow_1_r by lia.
    by rewrite Z.mul_comm, Z.mod_mul by done.
Qed.

(** ** The exchange *)

Lemma G_power_nonzero n : 0 <= n -> 5 ^ n mod P <> 0.
Proof.
  intros Hn E. apply Z.mod_divide in E; [|done]. apply Z.divide_gcd_iff in E; [|done].
  assert (Z.gcd P (5 ^ n) = 1) as E1 by (apply Z.coprime_pow_r; [done|reflexivity]).
  rewrite E1 in E. discriminate E.
Qed.

Lemma ldhexchange_spec x : block x -> le_val x <> 0 -> ldhexchange x = Ok (le_bytes 8 (5 ^ le_val x mod P)).
Proof.
  intros Hx H0. unfold ldhexchange. destruct (get_pair_spec x Hx) as (p & -> & _ & Ej & _).
  pose proof (le_val_mod x (proj1 Hx) ltac:(rewrite (proj2 Hx); lia)) as Hr.
  unfold zlen. rewrite (proj2 Hx). change (negb (Z.of_nat 8 =? 8)) with false. cbv beta iota. rstep.
  rewrite Ej. destruct (Z.eqb_spec (le_val x) 0); [done|].
  rewrite powmodp_spec by (unfold is_u64; done || lia). change ((G =? P) && _) with false. cbv beta iota. rstep.
  by rewrite push64_le.
Qed.

Lemma ldhsecret_spec x y : block x -> block y -> 0 < le_val x < P -> le_val y <> 0 ->
  ldhsecret x y = Ok (le_bytes 8 (le_val x ^ le_val y mod P)).
Proof.
  intros Hx Hy Hxr H0. unfold ldhsecret, read64.
  destruct (get_pair_spec x Hx) as (p & -> & _ & Ep & _). destruct (get_pair_spec y Hy) as (q & -> & _ & Eq & _).
  pose proof (le_val_mod y (proj1 Hy) ltac:(rewrite (proj2 Hy); lia)) as Hr. pose proof P_u64 as HP.
  unfold zlen. rewrite (proj2 Hx), (proj2 Hy). change (negb (Z.of_nat 8 =? 8)) with false. cbv beta iota. rstep.
  rewrite Ep, Eq. destruct (Z.eqb_spec (le_val x) 0); [lia|]. destruct (Z.eqb_spec (le_val y) 0); [done|]. cbn [orb].
  rewrite powmodp_spec by (unfold is_u64; lia). destruct (Z.eqb_spec (le_val x) P); [lia|]. cbn [andb]. rstep.
  by rewrite push64_le.
Qed.

Lemma randomkey_nonzero rnd : length rnd = 8%nat -> block (lrandomkey rnd) /\ le_val (lrandomkey rnd) <> 0.
Proof.
  intros Hl. unfold lrandomkey. destruct rnd as [|r0 rnd]; [done|]. cbn [fmap list_fmap].
  set (tmp := (fun n => Z.land n 255) <$> rnd).
  assert (forall n, is_byte (Z.land n 255)) as Hb by (intros n; by apply (land_lt n 255 8)).
  assert (bytes tmp) as Ht by (apply Forall_forall; intros z (n & -> & _)%list_elem_of_fmap; apply Hb).
  set (t0 := if _ =? 0 then _ else _).
  assert (is_byte t0) as H0 by (subst t0; case_match; [apply (lor_lt _ 1 8); [done|apply Hb|done]|apply Hb]). split.
  - split; [by constructor|]. cbn. subst tmp. rewrite length_fmap. cbn in Hl. lia.
  - cbn [le_val]. pose proof (le_val_range tmp Ht) as Hr. unfold is_byte in H0. intros E.
    assert (t0 = 0 /\ le_val tmp = 0) as [E0 E1] by lia.
    assert (foldr Z.lxor 0 tmp = 0) as E2.
    { clear - Ht E1. induction Ht as [|b l Hb Ht IH]; [done|]. cbn [le_val foldr] in *.
      pose proof (le_val_range l Ht). unfold is_byte in Hb. rewrite IH by lia. replace b with 0 by lia. done. }
    subst t0. cbn [foldr] in E0. rewrite E2, Z.lxor_0_r in E0. destruct (Z.eqb_spec (Z.land r0 255) 0) as [E3|]; [|done].
    rewrite E3 in E0. done.
Qed.

(** Diffie-Hellman: for all nonzero 8-byte keys both sides of [dhexchange]
    and [dhsecret] succeed and compute the same secret, 5^(xy) modulo the
    prime, the 64-bit additions and doublings of the multiplication included;
    and [randomkey] only makes such keys. *)
Theorem dh_agree (x y : list Z) (Hx : block x) (Hy : block y) (Hx0 : le_val x <> 0) (Hy0 : le_val y <> 0) :
  (exists gx gy s, ldhexchange x = Ok gx /\ ldhexchange y = Ok gy /\
    ldhsecret gx y = Ok s /\ ldhsecret gy x = Ok s /\ le_val s = 5 ^ (le_val x * le_val y) mod P) /\
  (forall rnd, length rnd = 8%nat -> block (lrandomkey rnd) /\ le_val (lrandomkey rnd) <> 0).
Proof.
  split; [|exact randomkey_nonzero]. pose proof P_u64 as HP.
  pose proof (le_val_mod x (proj1 Hx) ltac:(rewrite (proj2 Hx); lia)) as Hxr.
  pose proof (le_val_mod y (proj1 Hy) ltac:(rewrite (proj2 Hy); lia)) as Hyr.
  assert (forall n, 0 <= n -> 0 < 5 ^ n mod P < P /\ le_val (le_bytes 8 (5 ^ n mod P)) = 5 ^ n mod P) as Hg.
  { intros n Hn. pose proof (G_power_nonzero n Hn). pose proof (Z.mod_pos_bound (5 ^ n) P P_pos). split; [lia|].
    rewrite le_val_le_bytes. apply Z.mod_small. change (2 ^ (8 * Z.of_nat 8)) with (2 ^ 64). lia. }
  assert (forall z, block (le_bytes 8 z)) as Hb by (intros z; split; [apply bytes_le_bytes|apply length_le_bytes]).
  destruct (Hg (le_val x)) as [Hgx Egx]; [lia|]. destruct (Hg (le_val y)) as [Hgy Egy]; [lia|].
  exists (le_bytes 8 (5 ^ le_val x mod P)), (le_bytes 8 (5 ^ le_val y mod P)), (le_bytes 8 (5 ^ (le_val x * le_val y) mod P)).
  split; [by apply ldhexchange_spec|]. split; [by apply ldhexchange_spec|].
  split; [|split]; [| |apply Hg; nia].
  - rewrite ldhsecret_spec by (rewrite ?Egx; auto; lia). rewrite Egx, <- Zpower_mod, <- Z.pow_mul_r by (done || lia). done.
  - rewrite ldhsecret_spec by (rewrite ?Egy; auto; lia). rewrite Egy, <- Zpower_mod, <- Z.pow_mul_r by (done || lia).
    by rewrite (Z.mul_comm (le_val y)).
Qed.

Lemma dh_agree_witness : exists gx gy s, ldhexchange sample_key = Ok gx /\ ldhexchange (rev sample_key) = Ok gy /\
  ldhsecret gx (rev sample_key) = Ok s /\ ldhsecret gy sample_key = Ok s.
Proof.
  destruct (dh_agree sample_key (rev sample_key)) as [(gx & gy & s & E1 & E2 & E3 & E4 & _) _];
    [split; [solve_bytes|reflexivity]|split; [solve_bytes|reflexivity]|discriminate|discriminate|].
  exists gx, gy, s. auto.
Defined.

(** [powmodp] leaves the base [P] alone: its test is [a > P] where [a >= P] is meant. *)
Lemma powmodp_P : powmodp P 1 = Ok P /\ P mod P = 0.
Proof. split; reflexivity. Qed.

(** ** Keyed hash *)

Lemma block_len x : block x -> (zlen x =? 8) = true.
Proof. intros [_ Hl]. unfold zlen. by rewrite Hl. Qed.

Lemma hmac_bind (f : Z * Z -> Z * Z -> result (Z * Z)) p q :
  (htext ← Ok q; res ← f htext p; Ok (pushqword res)) =
  ('(xx, yy) ← (xx ← Ok q; yy ← Ok p; Ok (xx, yy)); res ← f xx yy; Ok (pushqword res)).
Proof. reflexivity. Qed.

(** [hmac_hash] of a key and a text is [hmac64] of the text's [hashkey]
    and the key, errors for keys of a wrong size aside. *)
Theorem hmac_hash_composes (key text : list Z) (Hkey : block key) (Htext : zlen text <= INT_MAX) :
  exists h, lhashkey text = Ok h /\ block h /\ lhmac_hash key text = lhmac64 h key.
Proof.
  unfold lhashkey, assert_. destruct (Z.leb_spec (zlen text) INT_MAX); [|lia]. rstep. exists (Hash text).
  assert (block (Hash text)) as Hh.
  { unfold Hash. destruct (fold_left _ _ _) as [a b]. rewrite !put_le32_le. split; [apply bytes_app; auto with skynet|done]. }
  split; [done|]. split; [done|]. unfold lhmac_hash, lhmac64, read64, assert_.
  rewrite !block_len by done. cbn [negb]. destruct (Z.leb_spec (zlen text) INT_MAX); [|lia].
  destruct (get_pair_spec key Hkey) as (p & -> & _). destruct (get_pair_spec _ Hh) as (q & -> & _). exact (hmac_bind hmac p q).
Qed.

Lemma hmac_hash_composes_witness : exists h, lhashkey [97; 98; 99] = Ok h /\ block h /\
  lhmac_hash sample_key [97; 98; 99] = lhmac64 h sample_key.
Proof. apply (hmac_hash_composes sample_key [97; 98; 99]); [split; [solve_bytes|reflexivity]|discriminate]. Defined.
