(* ===== verification/Sha1.v ===== *)
(** * SHA-1 and HMAC-SHA-1 (lualib-src/lsha1.c)

    The streaming implementation: a context with the chaining state, the
    64-byte buffer and the bit count in two words, and the block transform on
    a circular schedule of 16 words, on a little-endian machine. It is
    compared with the definition of SHA-1 on padded messages (FIPS 180). *)
From S2P Require Import Prelude CString Des.

(** ** Data *)

(** The five state words. *)
Definition state5 : Set := Z * Z * Z * Z * Z.

Record SHA1_CTX : Set := SHA1_ctx {
  sc_state : state5;
  sc_count0 : Z;
  sc_count1 : Z;
  sc_buffer : list Z
}.

Definition SHA1_DIGEST_SIZE : Z := 20.
Definition BLOCKSIZE : Z := 64.

(** ** The transform *)

Definition rol (value bits : Z) : Z := Z.lor (shl value bits) (Z.shiftr value (32 - bits)).

(** [memcpy(&block, buffer, 64)]: the words [block.l]. *)
Fixpoint load_words (n : nat) (buffer : list Z) : list Z :=
  match n with
  | O => []
  | S n => le_val (take 4 buffer) :: load_words n (drop 4 buffer)
  end.

(** [blk0(i)] and [blk(i)]: the word and the updated schedule. *)
Definition blk0 (l : list Z) (i : Z) : result (Z * list Z) :=
  li ← zget l i;
  let w := Z.lor (Z.land (rol li 24) 0xFF00FF00) (Z.land (rol li 8) 0x00FF00FF) in
  l ← zset l i w;
  Ok (w, l).

Definition blk (l : list Z) (i : Z) : result (Z * list Z) :=
  a ← zget l (Z.land (i + 13) 15);
  b ← zget l (Z.land (i + 8) 15);
  c ← zget l (Z.land (i + 2) 15);
  d ← zget l (Z.land i 15);
  let w := rol (Z.lxor (Z.lxor (Z.lxor a b) c) d) 1 in
  l ← zset l (Z.land i 15) w;
  Ok (w, l).

(** The mixing function and the constant of the macros [R0] to [R4]. *)
Definition round_f (i w x y : Z) : Z :=
  if i <? 20 then Z.lxor (Z.land w (Z.lxor x y)) y
  else if i <? 40 then Z.lxor (Z.lxor w x) y
  else if i <? 60 then Z.lor (Z.land (Z.lor w x) y) (Z.land w x)
  else Z.lxor (Z.lxor w x) y.

Definition round_k (i : Z) : Z :=
  if i <? 20 then 0x5A827999 else if i <? 40 then 0x6ED9EBA1 else if i <? 60 then 0x8F1BBCDC else 0xCA62C1D6.

(** Round [i] on the variables in the order of the macro's parameters; the
    next round's parameters are [z, v, w, x, y]. *)
Definition sha_round (i : Z) (l : list Z) (s : state5) : result (list Z * state5) :=
  let '(v, w, x, y, z) := s in
  '(b, l) ← (if i <? 16 then blk0 l i else blk l i);
  let z := u32 (z + (round_f i w x y + b + round_k i + rol v 5)) in
  let w := rol w 30 in
  Ok (l, (z, v, w, x, y)).

Fixpoint sha_rounds (idx : list Z) (l : list Z) (s : state5) : result (list Z * state5) :=
  match idx with
  | [] => Ok (l, s)
  | i :: idx => '(l, s) ← sha_round i l s; sha_rounds idx l s
  end.

Definition add5 (s t : state5) : state5 :=
  let '(a, b, c, d, e) := s in
  let '(a', b', c', d', e') := t in
  (u32 (a + a'), u32 (b + b'), u32 (c + c'), u32 (d + d'), u32 (e + e')).

Definition SHA1_Transform (state : state5) (buffer : list Z) : result state5 :=
  '(_, s) ← sha_rounds (seqZ 0 80) (load_words 16 buffer) state;
  Ok (add5 state s).

(** ** Streaming *)

Definition sha1_iv : state5 := (0x67452301, 0xEFCDAB89, 0x98BADCFE, 0x10325476, 0xC3D2E1F0).

(** The buffer is not initialised. *)
Definition sat_SHA1_Init (buffer : list Z) : SHA1_CTX := SHA1_ctx sha1_iv 0 0 buffer.

(** [for ( ; i + 63 < len; i += 64) SHA1_Transform(state, data + i);] *)
Fixpoint transform_loop (fuel : nat) (state : state5) (data : list Z) (i : Z) : result (state5 * Z) :=
  match fuel with
  | O => Fault
  | S fuel =>
      if i + 63 <? zlen data then
        b ← slice data i 64;
        state ← SHA1_Transform state b;
        transform_loop fuel state data (i + 64)
      else Ok (state, i)
  end.

(** [len << 3] is a [size_t]; it is compared with the 32-bit count. *)
Definition sat_SHA1_Update (context : SHA1_CTX) (data : list Z) : result SHA1_CTX :=
  let len := zlen data in
  let j := Z.land (Z.shiftr (sc_count0 context) 3) 63 in
  let bits := u64 (Z.shiftl len 3) in
  let count0 := u32 (sc_count0 context + bits) in
  let count1 := if count0 <? bits then u32 (sc_count1 context + 1) else sc_count1 context in
  let count1 := u32 (count1 + Z.shiftr len 29) in
  '(state, buffer, i, j) ←
    (if 63 <? j + len then
       d ← slice data 0 (64 - j);
       buffer ← blit (sc_buffer context) j d;
       state ← SHA1_Transform (sc_state context) buffer;
       '(state, i) ← transform_loop (S (length data)) state data (64 - j);
       Ok (state, buffer, i, 0)
     else Ok (sc_state context, sc_buffer context, 0, j));
  rest ← slice data i (len - i);
  buffer ← blit buffer j rest;
  Ok (SHA1_ctx state count0 count1 buffer).

(** [while ((count[0] & 504) != 448) Update("\0", 1);] *)
Fixpoint pad_loop (fuel : nat) (context : SHA1_CTX) : result SHA1_CTX :=
  match fuel with
  | O => Fault
  | S fuel =>
      if Z.land (sc_count0 context) 504 =? 448 then Ok context
      else context ← sat_SHA1_Update context [0]; pad_loop fuel context
  end.

(** The byte [(w >> ((3-(i & 3)) * 8)) & 255] for [i = 0..3]. *)
Definition word_bytes (w : Z) : list Z :=
  [Z.land (Z.shiftr w 24) 255; Z.land (Z.shiftr w 16) 255; Z.land (Z.shiftr w 8) 255; Z.land w 255].

Definition state_bytes (s : state5) : list Z :=
  let '(a, b, c, d, e) := s in word_bytes a ++ word_bytes b ++ word_bytes c ++ word_bytes d ++ word_bytes e.

Definition sat_SHA1_Final (context : SHA1_CTX) : result (list Z) :=
  let finalcount := word_bytes (sc_count1 context) ++ word_bytes (sc_count0 context) in
  context ← sat_SHA1_Update context [128];
  context ← pad_loop 65 context;
  context ← sat_SHA1_Update context finalcount;
  Ok (state_bytes (sc_state context)).

(** What the uninitialised buffer on the stack holds. *)
Definition stack_buffer : list Z := replicate 64 0xAA.

Definition lsha1 (buffer : list Z) : result (list Z) :=
  ctx ← sat_SHA1_Update (sat_SHA1_Init stack_buffer) buffer;
  sat_SHA1_Final ctx.

(** ** HMAC *)

(** [key] is xored word by word. *)
Fixpoint xor_words (n : nat) (key : list Z) (x : Z) : list Z :=
  match n with
  | O => []
  | S n => le_bytes 4 (Z.lxor (le_val (take 4 key)) x) ++ xor_words n (drop 4 key) x
  end.

Definition xor_key (key : list Z) (x : Z) : list Z := xor_words 16 key x.

Definition lhmac_sha1 (key text : list Z) : result (list Z) :=
  rkey ← (if BLOCKSIZE <? zlen key then
            ctx ← sat_SHA1_Update (sat_SHA1_Init stack_buffer) key;
            d ← sat_SHA1_Final ctx;
            blit (replicate 64 0) 0 d
          else blit (replicate 64 0) 0 key);
  let rkey := xor_key rkey 0x5c5c5c5c in
  ctx1 ← sat_SHA1_Update (sat_SHA1_Init stack_buffer) rkey;
  let rkey := xor_key rkey (Z.lxor 0x5c5c5c5c 0x36363636) in
  ctx2 ← sat_SHA1_Update (sat_SHA1_Init stack_buffer) rkey;
  ctx2 ← sat_SHA1_Update ctx2 text;
  digest2 ← sat_SHA1_Final ctx2;
  ctx1 ← sat_SHA1_Update ctx1 digest2;
  sat_SHA1_Final ctx1.

(** ** Test vectors of the source *)

Example sha1_abc : lsha1 (of_string "abc") =
  Ok (concat (be_bytes 4 <$> [0xA9993E36; 0x4706816A; 0xBA3E2571; 0x7850C26C; 0x9CD0D89D])).
Proof. vm_compute. reflexivity. Qed.

Example sha1_448 : lsha1 (of_string "abcdbcdecdefdefgefghfghighijhijkijkljklmklmnlmnomnopnopq") =
  Ok (concat (be_bytes 4 <$> [0x84983E44; 0x1C3BD26E; 0xBAAE4AA1; 0xF95129E5; 0xE54670F1])).
Proof. vm_compute. reflexivity. Qed.

(** ** Specification: FIPS 180 *)

Definition Ch (x y z : Z) : Z := Z.lxor (Z.land x y) (Z.land (Z.lnot x) z).
Definition Parity (x y z : Z) : Z := Z.lxor (Z.lxor x y) z.
Definition Maj (x y z : Z) : Z := Z.lxor (Z.lxor (Z.land x y) (Z.land x z)) (Z.land y z).

Definition spec_f (t : nat) : Z -> Z -> Z -> Z :=
  if (t <? 20)%nat then Ch else if (t <? 40)%nat then Parity else if (t <? 60)%nat then Maj else Parity.
Definition spec_k (t : nat) : Z :=
  if (t <? 20)%nat then 0x5A827999 else if (t <? 40)%nat then 0x6ED9EBA1 else if (t <? 60)%nat then 0x8F1BBCDC else 0xCA62C1D6.

(** The message schedule: [n] more words after [ws]. *)
Fixpoint schedule (n : nat) (ws : list Z) : list Z :=
  match n with
  | O => ws
  | S n =>
      let t := length ws in
      let W k := nth (t - k) ws 0 in
      schedule n (ws ++ [rol (Z.lxor (Z.lxor (Z.lxor (W 3%nat) (W 8%nat)) (W 14%nat)) (W 16%nat)) 1])
  end.

Definition spec_step (s : state5) (tw : nat * Z) : state5 :=
  let '(a, b, c, d, e) := s in
  let '(t, w) := tw in
  (u32 (rol a 5 + spec_f t b c d + e + spec_k t + w), a, rol b 30, c, d).

Fixpoint block_words (n : nat) (b : list Z) : list Z :=
  match n with O => [] | S n => be_val (take 4 b) :: block_words n (drop 4 b) end.

Definition compress (h : state5) (b : list Z) : state5 :=
  add5 h (fold_left spec_step (combine (seq 0 80) (schedule 64 (block_words 16 b))) h).

(** The state after the whole blocks of [m], and the bytes left. *)
Fixpoint absorb (fuel : nat) (h : state5) (m : list Z) : state5 * list Z :=
  match fuel with
  | O => (h, m)
  | S fuel => if (length m <? 64)%nat then (h, m) else absorb fuel (compress h (take 64 m)) (drop 64 m)
  end.

Definition sha1_pad (m : list Z) : list Z :=
  m ++ 128 :: replicate (Z.to_nat ((55 - zlen m) mod 64)) 0 ++ be_bytes 8 (8 * zlen m).

Definition sha1_spec (m : list Z) : list Z :=
  let '(a, b, c, d, e) := fst (absorb (length (sha1_pad m)) sha1_iv (sha1_pad m)) in
  concat (be_bytes 4 <$> [a; b; c; d; e]).

(** HMAC (RFC 2104). *)
Definition hmac_spec (key text : list Z) : list Z :=
  let key := if 64 <? zlen key then sha1_spec key else key in
  let key := key ++ replicate (64 - length key) 0 in
  sha1_spec ((Z.lxor 0x5c <$> key) ++ sha1_spec ((Z.lxor 0x36 <$> key) ++ text)).

(** ** The transform computes the compression function *)

Lemma schedule_prefix n ws : exists ext, schedule n ws = ws ++ ext /\ length ext = n.
Proof.
  revert ws. induction n as [|n IH]; intros ws; cbn [schedule]; [exists []; by rewrite app_nil_r|].
  destruct (IH (ws ++ [rol (Z.lxor (Z.lxor (Z.lxor (nth (length ws - 3) ws 0) (nth (length ws - 8) ws 0))
    (nth (length ws - 14) ws 0)) (nth (length ws - 16) ws 0)) 1])) as (ext & E & H).
  eexists. rewrite E, <- app_assoc. split; [done|]. cbn. by rewrite H.
Qed.

Lemma length_schedule n ws : length (schedule n ws) = (length ws + n)%nat.
Proof. destruct (schedule_prefix n ws) as (ext & -> & H). rewrite length_app. lia. Qed.

Lemma schedule_nth_prefix n ws t : (t < length ws)%nat -> nth t (schedule n ws) 0 = nth t ws 0.
Proof. destruct (schedule_prefix n ws) as (ext & -> & H). intros. by apply app_nth1. Qed.

(** The recurrence of the message schedule. *)
Lemma schedule_rec n ws t : (16 <= length ws)%nat -> (length ws <= t < length ws + n)%nat ->
  let W := fun j => nth j (schedule n ws) 0 in
  W t = rol (Z.lxor (Z.lxor (Z.lxor (W (t - 3)%nat) (W (t - 8)%nat)) (W (t - 14)%nat)) (W (t - 16)%nat)) 1.
Proof.
  cbv zeta. revert ws. induction n as [|n IH]; intros ws H16 Ht; [lia|]. cbn [schedule].
  set (x := rol _ 1). destruct (decide (t = length ws)) as [->|Hne].
  - rewrite !schedule_nth_prefix by (rewrite length_app; cbn; lia).
    rewrite nth_middle, !app_nth1 by lia. done.
  - apply IH; rewrite length_app; cbn; lia.
Qed.

(** Operations that act bit by bit act byte by byte on little-endian words. *)
Lemma testbit_cons b v i : is_byte b -> 0 <= i ->
  Z.testbit (b + 256 * v) i = if i <? 8 then Z.testbit b i else Z.testbit v (i - 8).
Proof.
  unfold is_byte. intros Hb Hi. replace (b + 256 * v) with (b + v * 2 ^ 8) by lia.
  rewrite <- (lor_shiftl_add b v 8), Z.lor_spec by lia.
  destruct (Z.ltb_spec i 8).
  - by rewrite Z.shiftl_spec_low, orb_false_r by lia.
  - rewrite Z.shiftl_spec by lia. rewrite <- (Z.mod_small b (2 ^ 8)), Z.mod_pow2_bits_high by lia. done.
Qed.

Lemma byte_bit8 b : is_byte b -> Z.testbit b 8 = false.
Proof. intros. by rewrite <- (Z.mod_small b (2 ^ 8)), Z.mod_pow2_bits_high by done. Qed.

Section bitwise.
Context (op : Z -> Z -> Z) (f : bool -> bool -> bool).
Context (Hop : forall x y i, Z.testbit (op x y) i = f (Z.testbit x i) (Z.testbit y i)).
Context (Hbyte : forall x y, is_byte x -> is_byte y -> is_byte (op x y)).

Lemma op_le_val l k : bytes l -> bytes k -> length l = length k ->
  op (le_val l) (le_val k) = le_val (zip_with op l k).
Proof.
  intros Hl. revert k. induction Hl as [|b l Hb Hl IH]; intros [|c k] Hk E; cbn in *; try lia.
  - apply Z.bits_inj'. intros i Hi. rewrite Hop, !Z.bits_0.
    apply (eq_trans (eq_sym (Hop 0 0 8))). by apply byte_bit8, Hbyte.
  - apply Forall_cons in Hk as [Hc Hk]. rewrite <- IH by (done || lia).
    apply Z.bits_inj'. intros i Hi. rewrite Hop, !testbit_cons by auto.
    destruct (i <? 8); by rewrite Hop.
Qed.
End bitwise.

Lemma land_le_val l k : bytes l -> bytes k -> length l = length k ->
  Z.land (le_val l) (le_val k) = le_val (zip_with Z.land l k).
Proof.
  apply (op_le_val Z.land andb Z.land_spec). unfold is_byte. intros x y _ Hy. apply (land_lt x y 8); lia.
Qed.

Lemma lxor_byte x y : is_byte x -> is_byte y -> is_byte (Z.lxor x y).
Proof. unfold is_byte. intros Hx Hy. apply (lxor_lt x y 8); lia. Qed.

Lemma lxor_le_val l k : bytes l -> bytes k -> length l = length k ->
  Z.lxor (le_val l) (le_val k) = le_val (zip_with Z.lxor l k).
Proof. apply (op_le_val Z.lxor xorb Z.lxor_spec), lxor_byte. Qed.

(** A rotation swaps the two parts of a word. *)
Lemma rol_parts k hi lo : 0 <= k < 32 -> 0 <= lo < 2 ^ (32 - k) -> 0 <= hi < 2 ^ k ->
  rol (hi * 2 ^ (32 - k) + lo) k = hi + lo * 2 ^ k.
Proof.
  intros Hk Hlo Hhi. unfold rol, shl. rewrite Z.lor_comm, Z.shiftl_mul_pow2, Z.shiftr_div_pow2 by lia.
  rewrite <- (Z.div_unique (hi * 2 ^ (32 - k) + lo) (2 ^ (32 - k)) hi lo) by lia.
  assert (u32 ((hi * 2 ^ (32 - k) + lo) * 2 ^ k) = Z.shiftl lo k) as ->; [|apply lor_shiftl_add; lia].
  unfold u32, wrap. rewrite Z.shiftl_mul_pow2 by lia.
  assert (2 ^ 32 = 2 ^ (32 - k) * 2 ^ k) as E by (rewrite <- Z.pow_add_r by lia; f_equal; lia).
  rewrite Z.mul_add_distr_r, <- Z.mul_assoc, <- E, Z.add_comm, Z_mod_plus_full. apply Z.mod_small. rewrite E. nia.
Qed.

Lemma land_byte_255 b : is_byte b -> Z.land b 255 = b.
Proof. intros. rewrite land_255. by apply Z.mod_small. Qed.

(** [blk0] reverses the bytes of a word with two rotations. *)
Lemma bswap_word b0 b1 b2 b3 : bytes [b0; b1; b2; b3] ->
  let v := le_val [b0; b1; b2; b3] in
  Z.lor (Z.land (rol v 24) 0xFF00FF00) (Z.land (rol v 8) 0x00FF00FF) = be_val [b0; b1; b2; b3].
Proof.
  intros Hb v. unfold bytes in Hb. rewrite !Forall_cons in Hb. destruct Hb as (H0 & H1 & H2 & H3 & _).
  assert (rol v 24 = le_val [b1; b2; b3; b0]) as ->.
  { unfold is_byte in *. replace v with ((b1 + 256 * (b2 + 256 * b3)) * 2 ^ (32 - 24) + b0) by (unfold v; cbn; lia).
    rewrite rol_parts by lia. cbn [le_val]. lia. }
  assert (rol v 8 = le_val [b3; b0; b1; b2]) as ->.
  { unfold is_byte in *. replace v with (b3 * 2 ^ (32 - 8) + (b0 + 256 * (b1 + 256 * b2))) by (unfold v; cbn; lia).
    rewrite rol_parts by lia. cbn [le_val]. lia. }
  change 0xFF00FF00 with (le_val [0; 255; 0; 255]). change 0x00FF00FF with (le_val [255; 0; 255; 0]).
  rewrite !land_le_val by (done || (repeat (apply Forall_cons; split; [done|]); try apply Forall_nil; try exact I)).
  cbn [zip_with]. rewrite !Z.land_0_r, !land_byte_255 by done.
  rewrite <- Z.lxor_lor, <- Z.add_nocarry_lxor.
  all: try rewrite land_le_val
    by (done || (unfold is_byte in *; repeat (apply Forall_cons; split; [unfold is_byte; lia|]); apply Forall_nil; exact I)).
  all: cbn [zip_with]; rewrite ?Z.land_0_l, ?Z.land_0_r; try done. unfold be_val. cbn. lia.
Qed.

Lemma length_load_words n b : length (load_words n b) = n.
Proof. revert b. induction n as [|n IH]; intros b; cbn; [done|]. by rewrite IH. Qed.

Lemma length_block_words n b : length (block_words n b) = n.
Proof. revert b. induction n as [|n IH]; intros b; cbn; [done|]. by rewrite IH. Qed.

Definition bswap (v : Z) : Z := Z.lor (Z.land (rol v 24) 0xFF00FF00) (Z.land (rol v 8) 0x00FF00FF).

Lemma block_words_bswap n b : bytes b -> length b = (4 * n)%nat -> block_words n b = bswap <$> load_words n b.
Proof.
  revert b. induction n as [|n IH]; intros b Hb Hl; [done|].
  do 4 (destruct b as [|? b]; cbn in Hl; [lia|]).
  change (bswap <$> load_words (S n) (z :: z0 :: z1 :: z2 :: b))
    with (bswap (le_val [z; z0; z1; z2]) :: (bswap <$> load_words n b)).
  cbn [block_words]. unfold bytes in Hb. rewrite !Forall_cons in Hb. destruct Hb as (? & ? & ? & ? & Hb).
  unfold bswap at 1. rewrite bswap_word by (repeat (apply Forall_cons; split; [done|]); by apply Forall_nil).
  f_equal. apply IH; [done|lia].
Qed.

(** The circular schedule before round [i]: the last 16 words of the message
    schedule, in their slots, and the words not yet read as they were loaded. *)
Definition ring (raw ws : list Z) (i : nat) (l : list Z) : Prop :=
  length l = 16%nat
  /\ (forall j, (j < i)%nat -> (i <= j + 16)%nat -> l !! (j mod 16)%nat = Some (nth j ws 0))
  /\ (forall j, (i <= j < 16)%nat -> l !! j = Some (nth j raw 0)).

Lemma land_mod16 x : Z.land x 15 = x mod 16.
Proof. change 15 with (Z.ones 4). by apply Z.land_ones. Qed.

Lemma ring_get raw ws i l k o : ring raw ws i l -> (16 <= i)%nat -> (1 <= k <= 16)%nat -> o = 16 - Z.of_nat k ->
  zget l (Z.land (Z.of_nat i + o) 15) = Ok (nth (i - k) ws 0).
Proof.
  intros (_ & H & _) Hi Hk ->. rewrite land_mod16. apply zget_Some; [apply Z.mod_pos_bound; lia|].
  rewrite <- H by lia. rewrite <- (Nat2Z.id ((i - k) mod 16)), Nat2Z.inj_mod. do 2 f_equal. dlia.
Qed.

(** Storing word [i] in its slot. *)
Lemma ring_set raw ws i l x : ring raw ws i l -> x = nth i ws 0 ->
  ring raw ws (S i) (<[(i mod 16)%nat := x]> l).
Proof.
  intros (Hl & H & Hr) ->. pose proof (Nat.mod_upper_bound i 16).
  split; [by rewrite length_insert|]. split.
  - intros j Hj Hj'. destruct (decide (j = i)) as [->|Hne].
    + apply list_lookup_insert_eq. lia.
    + rewrite list_lookup_insert_ne; [apply H; lia|].
      intros E. apply Hne. apply (f_equal Z.of_nat) in E. rewrite !Nat2Z.inj_mod in E. dlia.
  - intros j Hj. rewrite list_lookup_insert_ne; [apply Hr; lia|]. rewrite Nat.mod_small by lia. lia.
Qed.

Lemma ring_step b i l : bytes b -> length b = 64%nat -> (i < 80)%nat ->
  let raw := load_words 16 b in
  let ws := schedule 64 (block_words 16 b) in
  ring raw ws i l ->
  exists l', (if Z.of_nat i <? 16 then blk0 l (Z.of_nat i) else blk l (Z.of_nat i)) = Ok (nth i ws 0, l')
             /\ ring raw ws (S i) l'.
Proof.
  intros Hb Hlb Hi raw ws HR. assert (length l = 16%nat) as Hl by apply HR. zcases.
  - exists (<[Z.to_nat (Z.of_nat i) := nth i ws 0]> l).
    assert (nth i ws 0 = bswap (nth i raw 0)) as E.
    { unfold ws. rewrite schedule_nth_prefix by (rewrite length_block_words; lia).
      rewrite block_words_bswap by (done || lia).
      change 0 with (bswap 0) at 1. apply map_nth. }
    split.
    + unfold blk0. rewrite (zget_Some l (Z.of_nat i) (nth i raw 0)) by (lia || (rewrite Nat2Z.id; apply HR; lia)).
      rstep. rewrite (zset_Ok l) by zlia. rstep. fold (bswap (nth i raw 0)). by rewrite <- E.
    + rewrite Nat2Z.id. rewrite <- (Nat.mod_small i 16) at 2 by lia. by apply ring_set.
  - exists (<[Z.to_nat (Z.land (Z.of_nat i) 15) := nth i ws 0]> l). split.
    + unfold blk. rewrite (ring_get raw ws i l 3 13 HR), (ring_get raw ws i l 8 8 HR), (ring_get raw ws i l 14 2 HR) by lia.
      pose proof (ring_get raw ws i l 16 0 HR) as G. rewrite Z.add_0_r in G. rewrite G by lia. rstep.
      pose proof (schedule_rec 64 (block_words 16 b) i) as R. cbv zeta in R. fold ws in R.
      rewrite R by (rewrite length_block_words; lia).
      rewrite (zset_Ok l); [done|]. rewrite land_mod16. unfold zlen. rewrite Hl. dlia.
    + assert (Z.to_nat (Z.land (Z.of_nat i) 15) = (i mod 16)%nat) as ->; [|by apply ring_set].
      rewrite land_mod16. change 16 with (Z.of_nat 16). rewrite <- Nat2Z.inj_mod. apply Nat2Z.id.
Qed.

Lemma round_f_spec i w x y : round_f (Z.of_nat i) w x y = spec_f i w x y.
Proof.
  assert (HCh : Z.lxor (Z.land w (Z.lxor x y)) y = Ch w x y).
  { unfold Ch. apply Z.bits_inj'. intros k Hk. rewrite !Z.lxor_spec, !Z.land_spec, Z.lnot_spec, Z.lxor_spec by done.
    by destruct (Z.testbit w k), (Z.testbit x k), (Z.testbit y k). }
  assert (HMaj : Z.lor (Z.land (Z.lor w x) y) (Z.land w x) = Maj w x y).
  { unfold Maj. apply Z.bits_inj'. intros k Hk. rewrite Z.lor_spec, !Z.lxor_spec, !Z.land_spec, Z.lor_spec.
    by destruct (Z.testbit w k), (Z.testbit x k), (Z.testbit y k). }
  unfold round_f, spec_f.
  destruct (Nat.ltb_spec i 20), (Nat.ltb_spec i 40), (Nat.ltb_spec i 60); zprune; done.
Qed.

Lemma round_k_spec i : round_k (Z.of_nat i) = spec_k i.
Proof.
  unfold round_k, spec_k.
  destruct (Nat.ltb_spec i 20), (Nat.ltb_spec i 40), (Nat.ltb_spec i 60); zprune; done.
Qed.

Lemma sha_round_spec b i l s : bytes b -> length b = 64%nat -> (i < 80)%nat ->
  let raw := load_words 16 b in
  let ws := schedule 64 (block_words 16 b) in
  ring raw ws i l ->
  exists l', sha_round (Z.of_nat i) l s = Ok (l', spec_step s (i, nth i ws 0)) /\ ring raw ws (S i) l'.
Proof.
  intros Hb Hlb Hi raw ws HR. destruct (ring_step b i l Hb Hlb Hi HR) as (l' & E & HR'). exists l'.
  split; [|done]. destruct s as [[[[v w] x] y] z]. unfold sha_round. rewrite E. rstep.
  rewrite round_f_spec, round_k_spec. unfold spec_step. fold ws.
  replace (z + (spec_f i w x y + nth i ws 0 + spec_k i + rol v 5))
    with (rol v 5 + spec_f i w x y + z + spec_k i + nth i ws 0) by lia. done.
Qed.

Lemma sha_rounds_spec b n : bytes b -> length b = 64%nat ->
  let raw := load_words 16 b in
  let ws := schedule 64 (block_words 16 b) in
  forall i l s, (i + n = 80)%nat -> ring raw ws i l ->
  exists l', sha_rounds (seqZ (Z.of_nat i) (Z.of_nat n)) l s =
             Ok (l', fold_left spec_step (combine (seq i n) (drop i ws)) s).
Proof.
  intros Hb Hlb raw ws. induction n as [|n IH]; intros i l s Hi HR.
  - exists l. done.
  - rewrite seqZ_cons by lia. cbn [sha_rounds].
    destruct (sha_round_spec b i l s Hb Hlb ltac:(lia) HR) as (l' & E & HR'). rewrite E. rstep. fold ws.
    destruct (IH (S i) l' (spec_step s (i, nth i ws 0)) ltac:(lia) HR') as (l2 & E2). exists l2.
    replace (Z.succ (Z.of_nat i)) with (Z.of_nat (S i)) by lia.
    replace (Z.pred (Z.of_nat (S n))) with (Z.of_nat n) by lia. rewrite E2. cbn [seq].
    assert (length ws = 80%nat) as Hws by (unfold ws; by rewrite length_schedule, length_block_words).
    rewrite (drop_S ws (nth i ws 0) i); [done|]. rewrite nth_lookup.
    destruct (lookup_lt_is_Some_2 ws i) as [x ->]; [lia|done].
Qed.

Lemma SHA1_Transform_spec h b : bytes b -> length b = 64%nat -> SHA1_Transform h b = Ok (compress h b).
Proof.
  intros Hb Hlb. unfold SHA1_Transform.
  destruct (sha_rounds_spec b 80 Hb Hlb 0 (load_words 16 b) h eq_refl) as (l' & E).
  - split; [apply length_load_words|]. split; [lia|]. intros j Hj. rewrite nth_lookup.
    destruct (lookup_lt_is_Some_2 (load_words 16 b) j) as [x ->]; [rewrite length_load_words; lia|done].
  - change (Z.of_nat 0) with 0 in E. change (Z.of_nat 80) with 80 in E. rewrite E. done.
Qed.

(** ** Streaming computes the blocks *)

Lemma length_word5 s : length (state_bytes s) = 20%nat.
Proof. by destruct s as [[[[a b] c] d] e]. Qed.

(** Fuel beyond the number of blocks changes nothing. *)
Lemma absorb_fuel f1 f2 h m : (length m <= f1)%nat -> (length m <= f2)%nat -> absorb f1 h m = absorb f2 h m.
Proof.
  revert f2 h m. induction f1 as [|f1 IH]; intros f2 h m H1 H2; [destruct m; cbn in H1; [by destruct f2|lia]|].
  destruct f2 as [|f2]; [destruct m; cbn in H2; [done|lia]|]. cbn [absorb].
  destruct (Nat.ltb_spec (length m) 64); [done|]. apply IH; rewrite length_drop; lia.
Qed.

(** The blocks of [m] from the state [h], with fuel enough. *)
Definition blocks (h : state5) (m : list Z) : state5 * list Z := absorb (length m) h m.

Lemma blocks_short h m : (length m < 64)%nat -> blocks h m = (h, m).
Proof.
  unfold blocks. intros H. destruct m as [|x m]; [done|]. cbn [absorb length] in *.
  destruct (Nat.ltb_spec (S (length m)) 64); done || lia.
Qed.

Lemma blocks_long h m : (64 <= length m)%nat -> blocks h m = blocks (compress h (take 64 m)) (drop 64 m).
Proof.
  unfold blocks. intros H. destruct m as [|x m]; [cbn in H; lia|]. cbn [absorb length].
  destruct (Nat.ltb_spec (S (length m)) 64); [cbn in *; lia|]. apply absorb_fuel; rewrite length_drop; cbn; lia.
Qed.

(** Induction on the whole blocks of a message. *)
Lemma blocks_ind (P : list Z -> Prop) :
  (forall m, (length m < 64)%nat -> P m) -> (forall b m, length b = 64%nat -> P m -> P (b ++ m)) -> forall m, P m.
Proof.
  intros Hs Hb m. remember (length m) as n eqn:E. assert (length m <= n)%nat as H by lia. clear E. revert m H.
  induction n as [|n IH]; intros m H; [apply Hs; lia|].
  destruct (Nat.ltb_spec (length m) 64); [by apply Hs|].
  rewrite <- (take_drop 64 m). apply Hb; [rewrite length_take; lia|]. apply IH. rewrite length_drop. lia.
Qed.

Lemma blocks_cons h b m : length b = 64%nat -> blocks h (b ++ m) = blocks (compress h b) m.
Proof.
  intros H. rewrite blocks_long by (rewrite length_app; lia).
  by rewrite take_app_length', drop_app_length' by done.
Qed.

(** The bytes left by [m] are its last [length m mod 64] ones. *)
Lemma blocks_rest m : forall h, length (snd (blocks h m)) = (length m mod 64)%nat.
Proof.
  induction m as [m Hm|b m Hb IH] using blocks_ind; intros h.
  - rewrite blocks_short by done. by rewrite Nat.mod_small.
  - rewrite blocks_cons, IH, length_app, Hb by done. rewrite Nat.add_comm.
    rewrite <- (Nat.mul_1_l 64) at 2. by rewrite Nat.Div0.mod_add.
Qed.

Lemma blocks_rest_lt m h : (length (snd (blocks h m)) < 64)%nat.
Proof. rewrite blocks_rest. apply Nat.mod_upper_bound. lia. Qed.

(** Absorbing in two parts. *)
Lemma blocks_app m : forall h k, blocks h (m ++ k) = blocks (fst (blocks h m)) (snd (blocks h m) ++ k).
Proof.
  induction m as [m Hm|b m Hb IH] using blocks_ind; intros h k.
  - by rewrite (blocks_short h m).
  - rewrite <- app_assoc, !(blocks_cons h b) by done. apply IH.
Qed.

(** What the context holds after the bytes [m]. *)
Definition ctx_rep (ctx : SHA1_CTX) (m : list Z) : Prop :=
  sc_state ctx = fst (blocks sha1_iv m)
  /\ length (sc_buffer ctx) = 64%nat /\ bytes (sc_buffer ctx)
  /\ take (length m mod 64) (sc_buffer ctx) = snd (blocks sha1_iv m)
  /\ is_u32 (sc_count0 ctx) /\ is_u32 (sc_count1 ctx)
  /\ sc_count0 ctx + 2 ^ 32 * sc_count1 ctx = (8 * zlen m) mod 2 ^ 64.

Lemma Init_rep buffer : length buffer = 64%nat -> bytes buffer -> ctx_rep (sat_SHA1_Init buffer) [].
Proof. intros. repeat split; cbn; done || lia. Qed.

(** The loop over the whole blocks of [data] from offset [i]. *)
Lemma transform_loop_spec data : bytes data -> forall fuel state i,
  0 <= i <= zlen data -> (length (drop (Z.to_nat i) data) < fuel)%nat ->
  exists i', transform_loop fuel state data i = Ok (fst (blocks state (drop (Z.to_nat i) data)), i')
    /\ i <= i' <= zlen data /\ drop (Z.to_nat i') data = snd (blocks state (drop (Z.to_nat i) data)).
Proof.
  intros Hd. induction fuel as [|fuel IH]; intros state i Hi Hf; [lia|]. cbn [transform_loop].
  rewrite length_drop in Hf. zcases.
  - rewrite slice_Ok by lia. rstep. set (b := take _ _). set (rest := drop (Z.to_nat i) data) in *.
    assert (length b = 64%nat) as Hb by (unfold b, rest; rewrite length_take, length_drop; zlia).
    rewrite SHA1_Transform_spec by (done || (unfold b, rest; auto with skynet)). rstep.
    destruct (IH (compress state b) (i + 64)) as (i' & E & Hr & Hdr); [zlia|rewrite length_drop; zlia|].
    assert (drop (Z.to_nat (i + 64)) data = drop 64 rest) as Ed.
    { unfold rest. rewrite drop_drop. f_equal. lia. }
    rewrite Ed in *. rewrite (blocks_long state rest) by (unfold rest; rewrite length_drop; zlia).
    exists i'. split; [done|]. split; [lia|done].
  - exists i. rewrite (blocks_short state) by (rewrite length_drop; zlia). split; [done|]. split; [lia|done].
Qed.

(** The 64-bit bit count, kept in two words. *)
Lemma count_step c0 c1 L n : is_u32 c0 -> is_u32 c1 -> 0 <= L -> 0 <= n < 2 ^ 29 ->
  c0 + 2 ^ 32 * c1 = (8 * L) mod 2 ^ 64 ->
  let bits := u64 (Z.shiftl n 3) in
  let c0' := u32 (c0 + bits) in
  let c1' := u32 ((if c0' <? bits then u32 (c1 + 1) else c1) + Z.shiftr n 29) in
  c0' + 2 ^ 32 * c1' = (8 * (L + n)) mod 2 ^ 64.
Proof.
  intros H0 H1 HL Hn E bits c0' c1'.
  assert (bits = 8 * n) as Hbits by (unfold bits; rewrite Z.shiftl_mul_pow2 by lia; rewrite u64_small; zlia).
  assert (Z.shiftr n 29 = 0) as E29 by (rewrite Z.shiftr_div_pow2 by lia; apply Z.div_small; lia).
  unfold c1', c0'. rewrite E29, Hbits, Z.add_0_r. clearbody bits. clear c0' c1' E29 Hbits.
  unfold u32, wrap, is_u32 in *. zcases; dlia.
Qed.

Lemma count_index c0 c1 L : is_u32 c0 -> 0 <= L -> c0 + 2 ^ 32 * c1 = (8 * L) mod 2 ^ 64 ->
  Z.land (Z.shiftr c0 3) 63 = L mod 64.
Proof.
  intros H0 HL E. change 63 with (Z.ones 6). rewrite Z.land_ones, Z.shiftr_div_pow2 by lia.
  unfold is_u32 in *. dlia.
Qed.

(** The blocks of one call: the transform of the completed buffer, then of the
    whole blocks of [data]. [t] is what the buffer holds. *)
Lemma Update_blocks state buffer t data :
  length buffer = 64%nat -> bytes buffer -> take (length t) buffer = t -> (length t < 64)%nat -> bytes data ->
  let '(h, r) := blocks state (t ++ data) in
  exists b i j,
    (if 63 <? zlen t + zlen data then
       d ← slice data 0 (64 - zlen t);
       buffer ← blit buffer (zlen t) d;
       state ← SHA1_Transform state buffer;
       '(state, i) ← transform_loop (S (length data)) state data (64 - zlen t);
       Ok (state, buffer, i, 0)
     else Ok (state, buffer, 0, zlen t)) = Ok (h, b, i, j)
    /\ length b = 64%nat /\ bytes b /\ 0 <= i <= zlen data /\ 0 <= j
    /\ take (Z.to_nat j) b ++ drop (Z.to_nat i) data = r.
Proof.
  intros Hlb Hbb Ht Ht64 Hd. destruct (blocks state (t ++ data)) as [h r] eqn:E. zcases.
  - rewrite slice_Ok by zlia. rstep. rewrite drop_0. set (d := take _ data).
    assert (length d = (64 - length t)%nat) as Hld by (unfold d; rewrite length_take; zlia).
    destruct (blit_Ok buffer (zlen t) d) as (b & -> & Hb & Hbytes & Htk);
      [zlia|zlia|done|unfold d; by auto with skynet|]. rstep.
    assert (Z.to_nat (zlen t) = length t) as Et by (unfold zlen; lia). rewrite Et, Ht in Htk.
    rewrite take_ge in Htk by lia. subst b. rewrite SHA1_Transform_spec by (done || lia). rstep.
    destruct (transform_loop_spec data Hd (S (length data)) (compress state (t ++ d)) (64 - zlen t))
      as (i & -> & Hi & Hdr); [zlia|rewrite length_drop; zlia|]. rstep.
    replace (t ++ data) with ((t ++ d) ++ drop (Z.to_nat (64 - zlen t)) data) in E
      by (rewrite <- app_assoc; unfold d; by rewrite take_drop).
    rewrite blocks_cons in E by lia. rewrite E in *.
    exists (t ++ d), i, 0. split; [done|]. split; [lia|]. split; [done|]. split; [zlia|]. split; [lia|]. exact Hdr.
  - rewrite blocks_short in E by (rewrite length_app; zlia). injection E as <- <-.
    exists buffer, 0, (zlen t). split; [done|]. split; [done|]. split; [done|]. split; [zlia|]. split; [zlia|].
    rewrite drop_0. unfold zlen. by rewrite Nat2Z.id, Ht.
Qed.

Lemma Update_rep ctx m data : ctx_rep ctx m -> bytes data -> zlen data < 2 ^ 29 ->
  exists ctx', sat_SHA1_Update ctx data = Ok ctx' /\ ctx_rep ctx' (m ++ data).
Proof.
  intros (Hs & Hlb & Hbb & Ht & H0 & H1 & Hc) Hd Hn.
  pose proof (blocks_rest m sha1_iv) as Hlt. pose proof (blocks_rest_lt m sha1_iv) as Ht64.
  rewrite <- Hlt in Ht. pose proof (blocks_app m sha1_iv data) as Happ. rewrite <- Hs in Happ.
  set (t := snd (blocks sha1_iv m)) in *.
  assert (Z.land (Z.shiftr (sc_count0 ctx) 3) 63 = zlen t) as Hj.
  { rewrite (count_index _ _ _ H0 (zlen_nonneg m) Hc). unfold zlen. rewrite Hlt. symmetry. apply Nat2Z.inj_mod. }
  pose proof (count_step _ _ _ (zlen data) H0 H1 (zlen_nonneg m) (conj (zlen_nonneg data) Hn) Hc) as Hcs.
  unfold sat_SHA1_Update. rewrite Hj. cbv zeta in Hcs. rewrite <- zlen_app in Hcs.
  pose proof (Update_blocks (sc_state ctx) (sc_buffer ctx) t data Hlb Hbb Ht Ht64 Hd) as Hblk.
  rewrite <- Happ in Hblk. destruct (blocks sha1_iv (m ++ data)) as [h r] eqn:Er.
  destruct Hblk as (b & i & j & -> & Hb & Hbb' & Hi & Hj0 & Hr). rstep.
  rewrite slice_Ok by lia. rstep. rewrite take_ge by (rewrite length_drop; zlia).
  assert (length r = (length (m ++ data) mod 64)%nat) as Hlr by (rewrite <- (blocks_rest _ sha1_iv), Er; done).
  assert (j <= 64) as Hj64.
  { pose proof (Nat.mod_upper_bound (length (m ++ data)) 64) as Hm. rewrite <- Hlr, <- Hr, length_app in Hm.
    rewrite length_take in Hm. lia. }
  destruct (blit_Ok b j (drop (Z.to_nat i) data)) as (b' & -> & Hb' & Hbb2 & Htk); [done| |done|by auto with skynet|].
  { pose proof (Nat.mod_upper_bound (length (m ++ data)) 64) as Hm. rewrite <- Hlr, <- Hr, length_app in Hm.
    rewrite length_take in Hm. zlia. }
  eexists. split; [done|]. rewrite Hr in Htk. split; [by rewrite Er|]. cbn [sc_buffer sc_count0 sc_count1].
  split; [lia|]. split; [done|].
  split; [|split; [by auto with skynet|split; [by auto with skynet|exact Hcs]]].
  rewrite Er. cbn [snd]. rewrite <- Htk, <- Hlr. f_equal. rewrite <- Hr, length_app, length_take. lia.
Qed.

(** ** Padding *)

Lemma word_bytes_be w : word_bytes w = be_bytes 4 w.
Proof.
  unfold word_bytes, be_bytes. rewrite !land_255, !Z.shiftr_div_pow2 by lia. cbn [le_bytes rev app].
  rewrite !Z.div_div by lia. done.
Qed.

Lemma state_bytes_be s :
  state_bytes s = let '(a, b, c, d, e) := s in concat (be_bytes 4 <$> [a; b; c; d; e]).
Proof. destruct s as [[[[a b] c] d] e]. unfold state_bytes. rewrite !word_bytes_be. done. Qed.

Lemma be_bytes_app n k z : be_bytes (n + k) z = be_bytes n (z / 2 ^ (8 * Z.of_nat k)) ++ be_bytes k z.
Proof.
  unfold be_bytes. rewrite <- rev_app_distr. f_equal. revert z.
  induction k as [|k IH]; intros z; [by rewrite Nat.add_0_r, Z.mul_0_r, Z.div_1_r|].
  rewrite Nat.add_succ_r. cbn [le_bytes app]. rewrite IH, pow_8S, Z.div_div by lia. done.
Qed.

(** The eight bytes of the bit count. *)
Lemma finalcount_be ctx m : ctx_rep ctx m ->
  word_bytes (sc_count1 ctx) ++ word_bytes (sc_count0 ctx) = be_bytes 8 (8 * zlen m).
Proof.
  intros (_ & _ & _ & _ & H0 & H1 & Hc). rewrite !word_bytes_be. unfold be_bytes at 3.
  rewrite <- (le_bytes_mod 8 _ 64), <- Hc by lia. fold (be_bytes 8 (sc_count0 ctx + 2 ^ 32 * sc_count1 ctx)).
  rewrite (be_bytes_app 4 4). change (8 * Z.of_nat 4) with 32. unfold is_u32 in *. f_equal.
  - f_equal. rewrite Z.mul_comm, Z_div_plus_full, Z.div_small by lia. lia.
  - unfold be_bytes. f_equal. rewrite <- (le_bytes_mod 4 (_ + _) 32) by lia. f_equal.
    rewrite Z.mul_comm, Z_mod_plus_full. symmetry. by apply Z.mod_small.
Qed.

(** The test of the padding loop. *)
Lemma land_504 c : Z.land c 504 = 8 * Z.land (Z.shiftr c 3) 63.
Proof.
  rewrite (Z.div_mod (Z.land c 504) 8) by lia.
  assert (Z.land c 504 mod 8 = 0) as ->.
  { change 8 with (2 ^ 3). rewrite <- Z.land_ones, <- Z.land_assoc by lia. apply Z.land_0_r. }
  change 8 with (2 ^ 3) at 2. rewrite <- Z.shiftr_div_pow2, Z.shiftr_land by lia. change (Z.shiftr 504 3) with 63. lia.
Qed.

Lemma pad_loop_rep fuel : forall ctx m, ctx_rep ctx m -> (56 - zlen m) mod 64 < Z.of_nat fuel ->
  exists ctx', pad_loop fuel ctx = Ok ctx' /\ ctx_rep ctx' (m ++ replicate (Z.to_nat ((56 - zlen m) mod 64)) 0).
Proof.
  induction fuel as [|fuel IH]; intros ctx m HR Hf; [dlia|]. cbn [pad_loop].
  pose proof HR as (_ & _ & _ & _ & H0 & H1 & Hc).
  rewrite land_504, (count_index _ _ _ H0 (zlen_nonneg m) Hc). pose proof (zlen_nonneg m). zcases.
  - replace ((56 - zlen m) mod 64) with 0 by dlia. exists ctx. cbn. by rewrite app_nil_r.
  - destruct (Update_rep ctx m [0] HR) as (ctx1 & -> & HR1); [solve_bytes|done|]. rstep.
    assert ((56 - zlen (m ++ [0%Z])) mod 64 = (56 - zlen m) mod 64 - 1) as E.
    { rewrite zlen_app. unfold zlen at 2. cbn. dlia. }
    destruct (IH ctx1 _ HR1) as (ctx' & -> & HR'); [lia|]. exists ctx'. split; [done|].
    rewrite E, <- app_assoc in HR'.
    replace (Z.to_nat ((56 - zlen m) mod 64)) with (S (Z.to_nat ((56 - zlen m) mod 64 - 1))) by dlia. exact HR'.
Qed.

Lemma Final_rep ctx m : ctx_rep ctx m -> sat_SHA1_Final ctx = Ok (sha1_spec m).
Proof.
  intros HR. unfold sat_SHA1_Final. rewrite (finalcount_be ctx m HR).
  destruct (Update_rep ctx m [128] HR) as (ctx1 & -> & HR1); [solve_bytes|done|]. rstep.
  destruct (pad_loop_rep 65 ctx1 _ HR1) as (ctx2 & -> & HR2); [dlia|]. rstep.
  destruct (Update_rep ctx2 _ (be_bytes 8 (8 * zlen m)) HR2) as (ctx3 & -> & HR3); [by auto with skynet|done|]. rstep.
  unfold sha1_spec, sha1_pad. f_equal. rewrite state_bytes_be. destruct HR3 as (-> & _).
  assert ((m ++ [128]) ++ replicate (Z.to_nat ((56 - zlen (m ++ [128%Z])) mod 64)) 0 ++ be_bytes 8 (8 * zlen m)
    = m ++ 128 :: replicate (Z.to_nat ((55 - zlen m) mod 64)) 0 ++ be_bytes 8 (8 * zlen m)) as E.
  { rewrite <- app_assoc, zlen_app. replace (56 - (zlen m + zlen [128%Z])) with (55 - zlen m); [done|].
    unfold zlen at 3. cbn. lia. }
  rewrite <- app_assoc, E. unfold blocks. destruct (fst _) as [[[[a b] c] d] e]. done.
Qed.

(** Hashing a message into a fresh context. *)
Lemma hash_rep m : bytes m -> zlen m < 2 ^ 29 ->
  exists ctx, sat_SHA1_Update (sat_SHA1_Init stack_buffer) m = Ok ctx /\ ctx_rep ctx m.
Proof.
  intros. apply (Update_rep _ []); [|done..]. apply Init_rep; [done|]. by apply Forall_replicate.
Qed.

(** C38. [lsha1] returns the SHA-1 digest of its argument as FIPS 180 defines it
    on the padded message, for every message shorter than 2^29 bytes: the
    streaming context, its circular schedule of 16 words and the padding loop
    refine the definition, and neither loop runs out. *)
Theorem lsha1_is_sha1 text : bytes text -> zlen text < 2 ^ 29 -> lsha1 text = Ok (sha1_spec text).
Proof.
  intros Hb Hn. unfold lsha1. destruct (hash_rep text Hb Hn) as (ctx & -> & HR). rstep. by apply Final_rep.
Qed.

Lemma lsha1_is_sha1_witness : bytes [97; 98; 99] /\ lsha1 [97; 98; 99] = Ok (sha1_spec [97; 98; 99]).
Proof. split; [solve_bytes|]. apply lsha1_is_sha1; [solve_bytes|reflexivity]. Defined.

(** ** HMAC *)

(** The bytes of a list of known length. *)
Ltac byte_list := repeat (apply Forall_cons; split; [first [done | by apply lxor_byte]|]); by apply Forall_nil.

Lemma xor_words_map n c : is_byte c -> forall key, bytes key -> length key = (4 * n)%nat ->
  xor_words n key (le_val [c; c; c; c]) = Z.lxor c <$> key.
Proof.
  intros Hc. induction n as [|n IH]; intros key Hb Hl; [by destruct key|].
  do 4 (destruct key as [|? key]; cbn in Hl; [lia|]). cbn [xor_words take drop firstn].
  unfold bytes in Hb. rewrite !Forall_cons in Hb. destruct Hb as (? & ? & ? & ? & Hb).
  rewrite lxor_le_val by (done || byte_list).
  cbn [zip_with]. rewrite (le_bytes_le_val [_; _; _; _]) by byte_list.
  cbn [app fmap list_fmap]. rewrite drop_0, IH by (done || lia). by rewrite !(Z.lxor_comm c).
Qed.

Lemma xor_key_map c key : is_byte c -> bytes key -> length key = 64%nat ->
  xor_key key (le_val [c; c; c; c]) = Z.lxor c <$> key.
Proof. intros. by apply xor_words_map. Qed.

Lemma sha1_spec_bytes m : bytes (sha1_spec m) /\ length (sha1_spec m) = 20%nat.
Proof.
  unfold sha1_spec. destruct (fst _) as [[[[a b] c] d] e]. cbn [fmap list_fmap concat].
  split; [|by rewrite !length_app, !length_be_bytes].
  repeat (apply bytes_app; split; [apply bytes_be_bytes|]). by apply Forall_nil.
Qed.

Lemma map_lxor_bytes c l : is_byte c -> bytes l -> bytes (Z.lxor c <$> l).
Proof. intros Hc. induction 1; cbn; constructor; [by apply lxor_byte|done]. Qed.

(** The key as the code prepares it. *)
Lemma rkey_spec key : bytes key -> zlen key < 2 ^ 29 ->
  (if BLOCKSIZE <? zlen key then
     ctx ← sat_SHA1_Update (sat_SHA1_Init stack_buffer) key;
     d ← sat_SHA1_Final ctx;
     blit (replicate 64 0) 0 d
   else blit (replicate 64 0) 0 key) =
  Ok (let key := if 64 <? zlen key then sha1_spec key else key in key ++ replicate (64 - length key) 0).
Proof.
  intros Hb Hn.
  assert (forall d, zlen d <= 64 -> blit (replicate 64 0) 0 d = Ok (d ++ replicate (64 - length d) 0)) as Hblit.
  { intros d Hd. unfold blit. change (zlen (replicate 64 0)) with 64. zcases; [|lia]. cbn [Z.to_nat take firstn app Nat.add].
    by rewrite drop_replicate. }
  unfold BLOCKSIZE. destruct (Z.ltb_spec 64 (zlen key)).
  - destruct (hash_rep key Hb Hn) as (ctx & -> & HR). rstep. rewrite (Final_rep _ _ HR). rstep. apply Hblit. unfold zlen.
    destruct (sha1_spec_bytes key) as [_ ->]. done.
  - by apply Hblit.
Qed.

(** The two interleaved contexts, for any update and final functions. *)
Lemma hmac_flow (upd : SHA1_CTX -> list Z -> result SHA1_CTX) (fin : SHA1_CTX -> result (list Z))
    init k1 k2 text c1 c2 c3 d c4 r :
  upd init k1 = Ok c1 -> upd init k2 = Ok c2 -> upd c2 text = Ok c3 -> fin c3 = Ok d ->
  upd c1 d = Ok c4 -> fin c4 = r ->
  (ctx1 ← upd init k1; ctx2 ← upd init k2; ctx2 ← upd ctx2 text; digest2 ← fin ctx2;
   ctx1 ← upd ctx1 digest2; fin ctx1) = r.
Proof. intros -> H2 H3 H4 H5 H6. rstep. rewrite H2. rstep. rewrite H3. rstep. rewrite H4. rstep. by rewrite H5. Qed.

(** The preparation of the two keys before them. *)
Lemma hmac_keys (upd : SHA1_CTX -> list Z -> result SHA1_CTX) (fin : SHA1_CTX -> result (list Z))
    (xk : list Z -> Z -> list Z) prep k0 x1 x2 k1 k2 init text r :
  prep = Ok k0 -> xk k0 x1 = k1 -> xk (xk k0 x1) x2 = k2 ->
  (ctx1 ← upd init k1; ctx2 ← upd init k2; ctx2 ← upd ctx2 text; digest2 ← fin ctx2;
   ctx1 ← upd ctx1 digest2; fin ctx1) = r ->
  (rkey ← prep;
   let rkey := xk rkey x1 in
   ctx1 ← upd init rkey;
   let rkey := xk rkey x2 in
   ctx2 ← upd init rkey; ctx2 ← upd ctx2 text; digest2 ← fin ctx2;
   ctx1 ← upd ctx1 digest2; fin ctx1) = r.
Proof. intros -> E1 E2 H. rstep. cbv zeta. by rewrite E2, E1. Qed.

(** The keys of the two hashes. *)
Lemma xor_keys k : bytes k -> length k = 64%nat ->
  xor_key k 0x5c5c5c5c = Z.lxor 0x5c <$> k
  /\ xor_key (xor_key k 0x5c5c5c5c) (Z.lxor 0x5c5c5c5c 0x36363636) = Z.lxor 0x36 <$> k.
Proof.
  intros Hb Hl. assert (xor_key k 0x5c5c5c5c = Z.lxor 0x5c <$> k) as E by (by apply (xor_key_map 0x5c)).
  split; [exact E|]. rewrite E. change (Z.lxor 0x5c5c5c5c 0x36363636) with (le_val [0x6a; 0x6a; 0x6a; 0x6a]).
  rewrite (xor_key_map 0x6a); [|done|by apply map_lxor_bytes|by rewrite length_fmap].
  rewrite <- list_fmap_compose. apply list_fmap_ext. intros _ x _. cbn [compose]. by rewrite <- Z.lxor_assoc.
Qed.

(** The prepared key is one block. *)
Lemma hmac_key_block key : bytes key ->
  let k0 := if 64 <? zlen key then sha1_spec key else key in
  bytes (k0 ++ replicate (64 - length k0) 0) /\ length (k0 ++ replicate (64 - length k0) 0) = 64%nat.
Proof.
  intros Hk k0. assert (bytes k0 /\ (length k0 <= 64)%nat) as [? ?].
  { unfold k0. destruct (sha1_spec_bytes key) as [? Hl]. destruct (Z.ltb_spec 64 (zlen key)); (split; [done|zlia]). }
  split; [apply bytes_app; split; [done|by apply Forall_replicate]|]. rewrite length_app, length_replicate. lia.
Qed.

(** The computation on a prepared key. *)
Lemma hmac_block k text : bytes k -> length k = 64%nat -> bytes text -> zlen text < 2 ^ 29 ->
  (ctx1 ← sat_SHA1_Update (sat_SHA1_Init stack_buffer) (Z.lxor 0x5c <$> k);
   ctx2 ← sat_SHA1_Update (sat_SHA1_Init stack_buffer) (Z.lxor 0x36 <$> k);
   ctx2 ← sat_SHA1_Update ctx2 text;
   digest2 ← sat_SHA1_Final ctx2;
   ctx1 ← sat_SHA1_Update ctx1 digest2;
   sat_SHA1_Final ctx1) = Ok (sha1_spec ((Z.lxor 0x5c <$> k) ++ sha1_spec ((Z.lxor 0x36 <$> k) ++ text))).
Proof.
  intros Hkb Hkl Ht Htn.
  assert (forall c, is_byte c -> bytes (Z.lxor c <$> k) /\ zlen (Z.lxor c <$> k) < 2 ^ 29) as HU.
  { intros c Hc. split; [by apply map_lxor_bytes|]. unfold zlen. by rewrite length_fmap, Hkl. }
  destruct (HU 0x5c) as [? ?]; [done|]. destruct (HU 0x36) as [? ?]; [done|].
  destruct (hash_rep (Z.lxor 0x5c <$> k)) as (ctx1 & E1 & HR1); [done..|].
  destruct (hash_rep (Z.lxor 0x36 <$> k)) as (ctx2 & E2 & HR2); [done..|].
  destruct (Update_rep ctx2 _ text HR2 Ht Htn) as (ctx3 & E3 & HR3).
  destruct (sha1_spec_bytes ((Z.lxor 0x36 <$> k) ++ text)) as [Hdb Hdl].
  destruct (Update_rep ctx1 _ _ HR1 Hdb) as (ctx4 & E4 & HR4); [unfold zlen; by rewrite Hdl|].
  exact (hmac_flow _ _ _ _ _ _ _ _ _ _ _ _ E1 E2 E3 (Final_rep _ _ HR3) E4 (Final_rep _ _ HR4)).
Qed.

(** [lhmac_sha1] returns the HMAC (RFC 2104) of its arguments over SHA-1:
    the key, hashed when it is longer than a block, is xored in place with the
    outer pad and then with the xor of the two pads, and the two contexts are
    run interleaved. *)
Theorem lhmac_sha1_is_hmac key text : bytes key -> zlen key < 2 ^ 29 -> bytes text -> zlen text < 2 ^ 29 ->
  lhmac_sha1 key text = Ok (hmac_spec key text).
Proof.
  intros Hk Hkn Ht Htn. destruct (hmac_key_block key Hk) as [Hkb Hkl]. destruct (xor_keys _ Hkb Hkl) as [E1 E2].
  unfold lhmac_sha1. eapply (hmac_keys sat_SHA1_Update sat_SHA1_Final xor_key);
    [by apply rkey_spec|exact E1|exact E2|by apply hmac_block].
Qed.

Lemma lhmac_sha1_is_hmac_witness : bytes [1; 2] /\ lhmac_sha1 [1; 2] [3] = Ok (hmac_spec [1; 2] [3]).
Proof. split; [solve_bytes|]. apply lhmac_sha1_is_hmac; (solve_bytes || reflexivity). Defined.

(** ** Messages of 2^29 bytes and more

    [len << 3] does not fit the 32-bit word it is compared with, and the carry
    is added even when there is none: the count is 2^32 bits too large. *)
Lemma Update_long_count buffer data : length buffer = 64%nat -> bytes buffer -> bytes data -> zlen data = 2 ^ 29 ->
  exists ctx, sat_SHA1_Update (sat_SHA1_Init buffer) data = Ok ctx
    /\ sc_count0 ctx + 2 ^ 32 * sc_count1 ctx = 8 * zlen data + 2 ^ 32.
Proof.
  intros Hl Hb Hd Hn. unfold sat_SHA1_Update, sat_SHA1_Init. cbn [sc_count0 sc_count1 sc_state sc_buffer].
  change (Z.land (Z.shiftr 0 3) 63) with (zlen (A := Z) []).
  pose proof (Update_blocks sha1_iv buffer [] data Hl Hb eq_refl ltac:(cbn; lia) Hd) as H.
  destruct (blocks sha1_iv ([] ++ data)) as [h r] eqn:Er.
  destruct H as (b & i & j & -> & Hlb & Hbb & Hi & Hj & Hr). rstep. rewrite slice_Ok by lia. rstep.
  rewrite take_ge by (rewrite length_drop; zlia).
  assert ((length r < 64)%nat) as Hr64 by (change r with (snd (h, r)); rewrite <- Er; apply blocks_rest_lt).
  assert (j + zlen (drop (Z.to_nat i) data) <= zlen b) as Hfit.
  { unfold zlen. rewrite <- Hr, length_app, length_take in Hr64. rewrite Hlb in *. lia. }
  destruct (blit_Ok b j _ Hj Hfit Hbb (bytes_drop _ _ Hd)) as (b' & -> & _).
  eexists. split; [done|]. rewrite Hn. reflexivity.
Qed.
