(* ===== verification/DataBuffer.v ===== *)
(** * Receive buffers of the gate (service-src/databuffer.h)

    A [databuffer] is a linked list of [message]s, the chunks a socket
    delivered, with an offset into the first one. The nodes come from a
    [messagepool] the connections of a gate share: [mp_mem] is the memory of
    the pool, a store of nodes by address; [mp_pool] lists the addresses of
    its blocks. *)
From S2P Require Import Prelude.

(** ** Data *)

Definition MESSAGEPOOL : nat := 1023.

Record message : Set := Message {
  m_buffer : option (list Z);
  m_size : Z;
  m_next : option nat
}.

Record databuffer : Set := Databuffer {
  db_header : Z;
  db_offset : Z;
  db_size : Z;
  db_head : option nat;
  db_tail : option nat
}.

Record messagepool : Set := Messagepool {
  mp_pool : list nat;
  mp_freelist : option nat;
  mp_mem : gmap nat message
}.

(** The buffer and the pool after [memset]. *)
Definition empty_buffer : databuffer := Databuffer 0 0 0 None None.
Definition empty_pool : messagepool := Messagepool [] None ∅.

Definition set_header (h : Z) (db : databuffer) : databuffer :=
  Databuffer h (db_offset db) (db_size db) (db_head db) (db_tail db).
Definition set_offset (o : Z) (db : databuffer) : databuffer :=
  Databuffer (db_header db) o (db_size db) (db_head db) (db_tail db).
Definition set_size (n : Z) (db : databuffer) : databuffer :=
  Databuffer (db_header db) (db_offset db) n (db_head db) (db_tail db).
Definition set_ends (h t : option nat) (db : databuffer) : databuffer :=
  Databuffer (db_header db) (db_offset db) (db_size db) h t.
Definition set_next (next : option nat) (m : message) : message := Message (m_buffer m) (m_size m) next.

(** ** Operations *)

(** The nodes of a block at [base]: those of its indices [i .. i+k-1]. *)
Fixpoint block_nodes (k i base : nat) (mem : gmap nat message) : gmap nat message :=
  match k with
  | O => mem
  | S k => <[(base + i)%nat := Message None 0 (if Nat.eqb k 0 then None else Some (base + i + 1)%nat)]>
             (block_nodes k (i + 1) base mem)
  end.

(** The address of a fresh block: above all nodes of the pool. *)
Definition fresh_base (mem : gmap nat message) : nat :=
  S (foldr Nat.max O ((fun am => fst am) <$> map_to_list mem)).

Definition messagepool_free (mp : messagepool) : messagepool := empty_pool.

Definition _return_message (db : databuffer) (mp : messagepool) : result (databuffer * messagepool) :=
  m ← deref (db_head db);
  node ← deref (mp_mem mp !! m);
  db ← match m_next node with
       | None => _ ← assert_ (bool_decide (db_tail db = Some m)); Ok (set_ends None None db)
       | Some next => Ok (set_ends (Some next) (db_tail db) db)
       end;
  Ok (db, Messagepool (mp_pool mp) (Some m) (<[m := Message None 0 (mp_freelist mp)]> (mp_mem mp))).

(** The loop [for (;;)] of [databuffer_read]; a round that continues returns
    a node, so the number of nodes is enough fuel. *)
Fixpoint read_loop (fuel : nat) (db : databuffer) (mp : messagepool) (sz : Z) : result (list Z * databuffer * messagepool) :=
  match fuel with
  | O => Fault
  | S fuel =>
      m ← deref (db_head db);
      current ← deref (mp_mem mp !! m);
      data ← deref (m_buffer current);
      let bsz := m_size current - db_offset db in
      if sz <? bsz then
        out ← slice data (db_offset db) sz;
        Ok (out, set_offset (db_offset db + sz) db, mp)
      else if bsz =? sz then
        out ← slice data (db_offset db) sz;
        '(db, mp) ← _return_message (set_offset 0 db) mp;
        Ok (out, db, mp)
      else
        out ← slice data (db_offset db) bsz;
        '(db, mp) ← _return_message db mp;
        '(more, db, mp) ← read_loop fuel (set_offset 0 db) mp (sz - bsz);
        Ok (out ++ more, db, mp)
  end.

Definition databuffer_read (db : databuffer) (mp : messagepool) (sz : Z) : result (list Z * databuffer * messagepool) :=
  _ ← assert_ (sz <=? db_size db);
  read_loop (S (size (mp_mem mp))) (set_size (db_size db - sz) db) mp sz.

(** A free node: the head of the free list, or the first of a new block. *)
Definition take_node (mp : messagepool) : result (nat * messagepool) :=
  match mp_freelist mp with
  | Some m =>
      node ← deref (mp_mem mp !! m);
      Ok (m, Messagepool (mp_pool mp) (m_next node) (mp_mem mp))
  | None =>
      let base := fresh_base (mp_mem mp) in
      Ok (base, Messagepool (base :: mp_pool mp) (Some (base + 1)%nat)
                 (block_nodes (MESSAGEPOOL - 1) 1 base (mp_mem mp)))
  end.

(** [db->size] is an [int]. *)
Definition databuffer_push (db : databuffer) (mp : messagepool) (data : list Z) : result (databuffer * messagepool) :=
  '(m, mp) ← take_node mp;
  let mem := <[m := Message (Some data) (zlen data) None]> (mp_mem mp) in
  _ ← assert_ (db_size db + zlen data <=? INT_MAX);
  let db := set_size (db_size db + zlen data) db in
  match db_head db with
  | None =>
      _ ← assert_ (bool_decide (db_tail db = None));
      Ok (set_ends (Some m) (Some m) db, Messagepool (mp_pool mp) (mp_freelist mp) mem)
  | Some h =>
      t ← deref (db_tail db);
      node ← deref (mem !! t);
      Ok (set_ends (Some h) (Some m) db, Messagepool (mp_pool mp) (mp_freelist mp) (<[t := set_next (Some m) node]> mem))
  end.

(** The header: -1 while it or its payload is incomplete. [int] shifts put
    the high bit of a 4-byte header into the sign. *)
Definition databuffer_readheader (db : databuffer) (mp : messagepool) (header_size : Z) : result (Z * databuffer * messagepool) :=
  if (db_header db =? 0) && (db_size db <? header_size) then Ok (-1, db, mp)
  else
    '(db, mp) ←
      (if db_header db =? 0 then
         '(plen, db, mp) ← databuffer_read db mp header_size;
         p0 ← zget plen 0;
         p1 ← zget plen 1;
         if header_size =? 2 then Ok (set_header (Z.lor (Z.shiftl p0 8) p1) db, mp)
         else
           p2 ← zget plen 2;
           p3 ← zget plen 3;
           Ok (set_header (s32 (Z.lor (Z.lor (Z.lor (Z.shiftl p0 24) (Z.shiftl p1 16)) (Z.shiftl p2 8)) p3)) db, mp)
       else Ok (db, mp));
    Ok (if db_size db <? db_header db then -1 else db_header db, db, mp).

Definition databuffer_reset (db : databuffer) : databuffer := set_header 0 db.

Fixpoint clear_loop (fuel : nat) (db : databuffer) (mp : messagepool) : result messagepool :=
  match fuel with
  | O => Fault
  | S fuel =>
      match db_head db with
      | None => Ok mp
      | Some _ => '(db, mp) ← _return_message db mp; clear_loop fuel db mp
      end
  end.

Definition databuffer_clear (db : databuffer) (mp : messagepool) : result (databuffer * messagepool) :=
  mp ← clear_loop (S (size (mp_mem mp))) db mp; Ok (empty_buffer, mp).

(** ** Specification *)

Definition next_of (mem : gmap nat message) (a : nat) : option (option nat) := m_next <$> mem !! a.

(** Node [a] of [mem] holds the chunk [c]. *)
Definition holds (mem : gmap nat message) (a : nat) (c : list Z) : Prop :=
  exists next, mem !! a = Some (Message (Some c) (zlen c) next).

(** The list from [h] to [t] is the nodes [ds] with the chunks [cs], the free
    list is [fs]; the nodes [X] of the pool belong to others. *)
Record list_rep (X : list nat) (h t : option nat) (mp : messagepool) (ds fs : list nat) (cs : list (list Z)) : Prop := ListRep {
  lr_chain : chain (next_of (mp_mem mp)) h ds;
  lr_tail : t = last ds;
  lr_free : chain (next_of (mp_mem mp)) (mp_freelist mp) fs;
  lr_disj : forall a, a ∈ ds -> a ∉ fs;
  lr_frame : forall a, a ∈ X -> is_Some (mp_mem mp !! a) /\ a ∉ ds /\ a ∉ fs;
  lr_chunks : Forall2 (holds (mp_mem mp)) ds cs
}.

Definition first_chunk (cs : list (list Z)) : list Z := match cs with c :: _ => c | [] => [] end.

(** [db] holds the unread bytes [s]. *)
Definition unread (X : list nat) (db : databuffer) (mp : messagepool) (s : list Z) : Prop :=
  exists ds fs cs, list_rep X (db_head db) (db_tail db) mp ds fs cs /\
    0 <= db_offset db <= zlen (first_chunk cs) /\
    s = drop (Z.to_nat (db_offset db)) (concat cs) /\ db_size db = zlen s.

(** The nodes of the others are as before. *)
Definition frame (X : list nat) (mp mp' : messagepool) : Prop := forall a, a ∈ X -> mp_mem mp' !! a = mp_mem mp !! a.

(** ** Lemmas *)

#[export] Instance frame_preorder X : PreOrder (frame X).
Proof. split; [intros mp a Ha; done|intros m1 m2 m3 H1 H2 a Ha; by rewrite (H2 a Ha), (H1 a Ha)]. Qed.

Lemma next_insert_ne mem a b m : a <> b -> next_of (<[b := m]> mem) a = next_of mem a.
Proof. intros. unfold next_of. by rewrite lookup_insert_ne. Qed.

Lemma next_insert mem a m : next_of (<[a := m]> mem) a = Some (m_next m).
Proof. unfold next_of. by rewrite lookup_insert_eq. Qed.

(** A chain does not see a store to a node that is not on it. *)
Lemma chain_insert mem p l b m : b ∉ l -> chain (next_of mem) p l -> chain (next_of (<[b := m]> mem)) p l.
Proof. intros Hb. apply chain_ext. intros a Ha. rewrite next_insert_ne; [done|]. intros ->. done. Qed.

Lemma holds_agree mem mem' l cs : (forall a, a ∈ l -> mem' !! a = mem !! a) ->
  Forall2 (holds mem) l cs -> Forall2 (holds mem') l cs.
Proof.
  intros Hm H. induction H as [|a c l cs (next & E) H IH]; constructor.
  - exists next. rewrite Hm; [done|left].
  - apply IH. intros. apply Hm. by right.
Qed.

Lemma holds_insert mem l cs b m : b ∉ l -> Forall2 (holds mem) l cs -> Forall2 (holds (<[b := m]> mem)) l cs.
Proof. intros Hb. apply holds_agree. intros a Ha. rewrite lookup_insert_ne; [done|]. intros ->. done. Qed.

Lemma chain_length_size mem p l : chain (next_of mem) p l -> (length l <= size mem)%nat.
Proof.
  intros H. pose proof (chain_nodup _ _ _ H) as Hn.
  rewrite <- size_dom, <- (size_list_to_set (C := gset nat) l Hn). apply subseteq_size.
  intros a Ha%elem_of_list_to_set. destruct (chain_alloc _ _ _ _ H Ha) as [x Hx].
  unfold next_of in Hx. destruct (mem !! a) eqn:E; [|done]. by apply elem_of_dom_2 in E.
Qed.

(** Returning the first node. *)
Lemma return_rep X db mp m ds fs c cs : list_rep X (db_head db) (db_tail db) mp (m :: ds) fs (c :: cs) ->
  exists h t mp', _return_message db mp = Ok (set_ends h t db, mp') /\ list_rep X h t mp' ds (m :: fs) cs /\
  frame X mp mp' /\ size (mp_mem mp') = size (mp_mem mp).
Proof.
  intros []. pose proof (chain_nodup _ _ _ lr_chain0) as [Hmd Hnd]%NoDup_cons.
  destruct lr_chain0 as [Hh (p & Hp & Hc)]. apply Forall2_cons in lr_chunks0 as [(next & Hm) Hcs].
  unfold next_of in Hp. rewrite Hm in Hp. cbn in Hp. inv_res.
  assert (m ∉ fs) as Hmf by (apply lr_disj0; left).
  assert (exists h t, _return_message db mp = Ok (set_ends h t db, Messagepool (mp_pool mp) (Some m)
    (<[m := Message None 0 (mp_freelist mp)]> (mp_mem mp))) /\ t = last ds /\ chain (next_of (mp_mem mp)) h ds) as (h & t & E & Ht & Hch).
  { unfold _return_message. rewrite Hh. cbn [deref]. rstep. rewrite Hm. cbn [deref m_next]. rstep.
    rewrite lr_tail0. destruct p as [a|].
    - destruct ds as [|b ds]; [done|]. exists (Some a), (last (b :: ds)). split_and!; [|done|done].
      cbn [mbind result_bind]. do 2 f_equal.
    - apply chain_none in Hc as ->. exists None, None. split_and!; [|done|done].
      cbn. by rewrite bool_decide_true. }
  exists h, t. eexists. split_and!; [exact E| | |].
  - constructor; cbn [mp_mem mp_freelist].
    + by apply chain_insert.
    + done.
    + split; [done|]. exists (mp_freelist mp). split; [apply next_insert|]. by apply chain_insert.
    + intros a Ha [->|Hf]%elem_of_cons; [done|]. apply (lr_disj0 a); [by right|done].
    + intros a Ha. destruct (lr_frame0 a Ha) as (Hs & Hd & Hf). split_and!.
      * rewrite lookup_insert_ne; [done|]. intros ->. apply Hd. left.
      * intros ?. apply Hd. by right.
      * intros [->|?]%elem_of_cons; [apply Hd; left|done].
    + by apply holds_insert.
  - intros a Ha. cbn. rewrite lookup_insert_ne; [done|]. intros ->. destruct (lr_frame0 a Ha) as (_ & Hd & _). apply Hd. left.
  - cbn. rewrite map_size_insert_Some; [done|]. by eexists.
Qed.

(** Reading [sz] bytes of at least as many. *)
Lemma read_loop_rep X : forall cs fuel db mp ds fs sz,
  list_rep X (db_head db) (db_tail db) mp ds fs cs -> 0 <= db_offset db <= zlen (first_chunk cs) ->
  0 < sz <= zlen (concat cs) - db_offset db -> (length cs < fuel)%nat ->
  exists db' mp' ds' fs' cs', read_loop fuel db mp sz = Ok (take (Z.to_nat sz) (drop (Z.to_nat (db_offset db)) (concat cs)), db', mp') /\
    list_rep X (db_head db') (db_tail db') mp' ds' fs' cs' /\ 0 <= db_offset db' <= zlen (first_chunk cs') /\
    drop (Z.to_nat (db_offset db')) (concat cs') = drop (Z.to_nat (db_offset db + sz)) (concat cs) /\
    db_header db' = db_header db /\ db_size db' = db_size db /\ frame X mp mp'.
Proof.
  induction cs as [|c cs IH]; intros fuel db mp ds fs sz HL Ho Hsz Hf; [change (zlen (concat [])) with 0 in Hsz; lia|].
  destruct fuel as [|fuel]; [lia|]. pose proof HL as []. destruct ds as [|m ds]; [by inversion lr_chunks0|].
  destruct lr_chain0 as [Hh _]. apply Forall2_cons in lr_chunks0 as [(next & Hm) Hcs].
  cbn [read_loop]. rewrite Hh. cbn [deref]. rstep. rewrite Hm. cbn [mbind result_bind deref m_buffer m_size].
  cbn [concat first_chunk] in *. rewrite zlen_app in Hsz. set (o := db_offset db) in *.
  assert (drop (Z.to_nat o) (c ++ concat cs) = drop (Z.to_nat o) c ++ concat cs) as Ed.
  { apply drop_app_le. unfold zlen in *. lia. }
  assert (length (drop (Z.to_nat o) c) = Z.to_nat (zlen c - o)) as El by (rewrite length_drop; unfold zlen; lia).
  destruct (Z.ltb_spec sz (zlen c - o)) as [Hlt|Hge].
  - rewrite slice_Ok by lia. rstep. eexists (set_offset (o + sz) db), mp, (m :: ds), fs, (c :: cs).
    split_and!; try done; cbn; try lia. do 2 f_equal. f_equal. rewrite Ed, take_app_le by lia. done.
  - destruct (Z.eqb_spec (zlen c - o) sz) as [Heq|Hne]; rewrite slice_Ok by lia; rstep.
    + destruct (return_rep X (set_offset 0 db) mp m ds fs c cs HL) as (h & t & mp' & E & HL' & Hfr & _).
      rewrite E. rstep. exists (set_ends h t (set_offset 0 db)), mp', ds, (m :: fs), cs. split_and!; try done; cbn; try (unfold zlen; lia).
      * do 2 f_equal. f_equal. rewrite Ed, take_app_le by lia. done.
      * rewrite drop_app_ge by (unfold zlen in *; lia). f_equal. unfold zlen in *. lia.
    + destruct (return_rep X db mp m ds fs c cs HL) as (h & t & mp' & E & HL' & Hfr & Hsize).
      rewrite E. rstep.
      destruct (IH fuel (set_offset 0 (set_ends h t db)) mp' ds (m :: fs) (sz - (zlen c - o))) as
        (db' & mp'' & ds' & fs' & cs' & E2 & HL2 & Ho2 & Ed2 & Hh2 & Hs2 & Hf2);
        [exact HL'|unfold zlen; cbn; lia|cbn; lia|cbn in Hf; lia|]. cbn [db_offset set_offset set_ends] in E2. rewrite E2. rstep.
      exists db', mp'', ds', fs', cs'. split_and!; try apply Ho2; try done.
      * do 2 f_equal. f_equal. rewrite Ed, drop_0. rewrite (take_ge (drop _ c)) by lia.
        rewrite take_app_ge by lia. do 2 f_equal. lia.
      * rewrite Ed2. cbn. rewrite drop_app_ge by (unfold zlen in *; lia). f_equal. unfold zlen in *. lia.
      * by transitivity mp'.
Qed.

Lemma databuffer_read_rep X db mp s sz : unread X db mp s -> 0 < sz <= zlen s ->
  exists db' mp', databuffer_read db mp sz = Ok (take (Z.to_nat sz) s, db', mp') /\
    unread X db' mp' (drop (Z.to_nat sz) s) /\ db_header db' = db_header db /\ frame X mp mp'.
Proof.
  intros (ds & fs & cs & HL & Ho & -> & Hs) Hsz. unfold databuffer_read, assert_. rewrite Hs.
  destruct (Z.leb_spec sz (zlen (drop (Z.to_nat (db_offset db)) (concat cs)))); [|lia]. rstep.
  assert (zlen (drop (Z.to_nat (db_offset db)) (concat cs)) = zlen (concat cs) - db_offset db) as Hz.
  { unfold zlen. rewrite length_drop. destruct cs as [|c cs]; unfold zlen in *; cbn in *; [lia|]. rewrite length_app in *. lia. }
  destruct (read_loop_rep X cs (S (size (mp_mem mp))) (set_size (zlen (drop (Z.to_nat (db_offset db)) (concat cs)) - sz) db) mp ds fs sz)
    as (db' & mp' & ds' & fs' & cs' & E & HL' & Ho' & Ed & Hh & Hs' & Hf); try done; [cbn; lia|..].
  { pose proof (chain_length_size _ _ _ (lr_chain _ _ _ _ _ _ _ HL)). pose proof (Forall2_length _ _ _ (lr_chunks _ _ _ _ _ _ _ HL)). lia. }
  exists db', mp'. cbn [db_offset set_size] in E. rewrite E. split_and!; try done.
  exists ds', fs', cs'. split_and!; try apply Ho'; try done.
  - rewrite Ed. cbn. rewrite drop_drop. f_equal. lia.
  - rewrite Hs'. cbn. unfold zlen. rewrite (length_drop (drop _ _)). unfold zlen in *. lia.
Qed.

(** ** Taking a node *)

Lemma block_nodes_outside k : forall i base mem a, (a < base + i \/ base + i + k <= a)%nat ->
  block_nodes k i base mem !! a = mem !! a.
Proof.
  induction k as [|k IH]; intros i base mem a Ha; cbn [block_nodes]; [done|].
  rewrite lookup_insert_ne by lia. apply IH. lia.
Qed.

Lemma block_nodes_chain k : forall i base mem,
  chain (next_of (block_nodes k i base mem)) (if Nat.eqb k 0 then None else Some (base + i)%nat) (seq (base + i) k).
Proof.
  induction k as [|k IH]; intros i base mem; [done|]. cbn [block_nodes Nat.eqb seq]. split; [done|].
  eexists. split; [apply next_insert|]. cbn [m_next].
  apply chain_insert; [rewrite elem_of_seq; lia|].
  replace (S (base + i)) with (base + (i + 1))%nat by lia. rewrite <- Nat.add_assoc. apply IH.
Qed.

Lemma fresh_base_above mem a : is_Some (mem !! a) -> (a < fresh_base mem)%nat.
Proof.
  intros [m Hm]. unfold fresh_base. apply elem_of_map_to_list in Hm.
  induction (map_to_list mem) as [|[b n] l IH]; [by apply not_elem_of_nil in Hm|].
  cbn [fmap list_fmap foldr fst]. apply elem_of_cons in Hm as [Hm|Hm]; [simplify_eq; lia|]. specialize (IH Hm). lia.
Qed.

Lemma chain_some mem p l a : chain (next_of mem) p l -> a ∈ l -> is_Some (mem !! a).
Proof. intros H Ha. destruct (chain_alloc _ _ _ _ H Ha) as [x Hx]. unfold next_of in Hx. by destruct (mem !! a). Qed.

(** Storing new nodes above all others keeps what is there. *)
Lemma list_rep_grow X h t mp ds fs cs mem : list_rep X h t mp ds fs cs ->
  (forall a, (a < fresh_base (mp_mem mp))%nat -> mem !! a = mp_mem mp !! a) ->
  chain (next_of mem) h ds /\ Forall2 (holds mem) ds cs /\ (forall a, a ∈ X -> is_Some (mem !! a)).
Proof.
  intros [] Hm.
  assert (forall a, a ∈ ds -> mem !! a = mp_mem mp !! a) as Hds.
  { intros a Ha. apply Hm, fresh_base_above. exact (chain_some _ _ _ _ lr_chain0 Ha). }
  split_and!.
  - eapply chain_ext; [|exact lr_chain0]. intros a Ha. unfold next_of. by rewrite Hds.
  - by apply (holds_agree (mp_mem mp)).
  - intros a Ha. destruct (lr_frame0 a Ha) as [Hs _]. rewrite Hm by (by apply fresh_base_above). done.
Qed.

Lemma take_node_rep X h t mp ds fs cs : list_rep X h t mp ds fs cs ->
  exists m mp' fs', take_node mp = Ok (m, mp') /\ list_rep X h t mp' ds fs' cs /\
    m ∉ ds /\ m ∉ fs' /\ m ∉ X /\ frame X mp mp'.
Proof.
  intros HL. pose proof HL as []. unfold take_node. destruct fs as [|m fs].
  - rewrite lr_free0. set (base := fresh_base (mp_mem mp)).
    set (mem := block_nodes (MESSAGEPOOL - 1) 1 base (mp_mem mp)).
    assert (forall a, (a < base + 1)%nat -> mem !! a = mp_mem mp !! a) as Hold.
    { intros a Ha. apply block_nodes_outside. lia. }
    destruct (list_rep_grow X h t mp ds [] cs mem HL) as (Hc & Hh & Hx); [intros; apply Hold; lia|].
    assert (forall a, is_Some (mp_mem mp !! a) -> a <> base /\ a ∉ seq (base + 1) (MESSAGEPOOL - 1)) as Hnew.
    { intros a Ha%fresh_base_above. fold base in Ha. rewrite elem_of_seq. lia. }
    eexists base, _, (seq (base + 1) (MESSAGEPOOL - 1)). split_and!; [done|constructor; cbn [mp_mem mp_freelist]| | | |].
    + done.
    + done.
    + exact (block_nodes_chain (MESSAGEPOOL - 1) 1 base (mp_mem mp)).
    + intros a Ha. apply Hnew. exact (chain_some _ _ _ _ lr_chain0 Ha).
    + intros a Ha. destruct (lr_frame0 a Ha) as (Hs & Hd & _). split_and!; [by apply Hx|done|by apply Hnew].
    + done.
    + intros Hd. by destruct (Hnew base) as [? _]; [exact (chain_some _ _ _ _ lr_chain0 Hd)|].
    + rewrite elem_of_seq. lia.
    + intros Hd. destruct (lr_frame0 base Hd) as (Hs & _). by destruct (Hnew base Hs).
    + intros a Ha. cbn [mp_mem]. apply Hold. destruct (lr_frame0 a Ha) as (Hs%fresh_base_above & _). fold base in Hs. lia.
  - pose proof (chain_nodup _ _ _ lr_free0) as [Hmf Hnf]%NoDup_cons. destruct lr_free0 as [Hf (p & Hp & Hc)].
    rewrite Hf. unfold next_of in Hp. destruct (mp_mem mp !! m) as [node|] eqn:Hm; [|done]. cbn in Hp. inv_res. cbn.
    eexists m, _, fs. split_and!; [done|constructor; cbn [mp_mem mp_freelist]| | | |]; try done.
    + intros a Ha Hfs. apply (lr_disj0 a Ha). by right.
    + intros a Ha. destruct (lr_frame0 a Ha) as (Hs & Hd & Hfs). split_and!; [done..|]. intros ?. apply Hfs. by right.
    + intros Hd. apply (lr_disj0 m Hd). left.
    + intros Hx. destruct (lr_frame0 m Hx) as (_ & _ & Hfs). apply Hfs. left.
Qed.

(** ** Pushing, headers, clearing *)

(** Node [m] with a new chunk becomes the only one. *)
Lemma link_first X t mp fs m c : list_rep X None t mp [] fs [] -> m ∉ fs -> m ∉ X ->
  let mem1 := <[m := Message (Some c) (zlen c) None]> (mp_mem mp) in
  list_rep X (Some m) (Some m) (Messagepool (mp_pool mp) (mp_freelist mp) mem1) [m] fs [c].
Proof.
  intros [] Hmf Hmx mem1. assert (forall a, a ∈ X -> a <> m) as Hxm by (intros a Ha ->; done).
  constructor; cbn [mp_mem mp_freelist]; try done.
  - split; [done|]. exists None. split; [apply next_insert|done].
  - by apply chain_insert.
  - intros a ->%list_elem_of_singleton. done.
  - intros a Ha. destruct (lr_frame0 a Ha) as (Hs & _ & Hf). specialize (Hxm a Ha).
    split_and!; [unfold mem1; by rewrite lookup_insert_ne by done|by intros ->%list_elem_of_singleton|done].
  - constructor; [|constructor]. exists None. apply lookup_insert_eq.
Qed.

(** Node [m] with a new chunk is linked behind the last node [d]. *)
Lemma link_last X h t mp ds d fs cs m c : list_rep X h t mp (ds ++ [d]) fs cs -> m ∉ ds ++ [d] -> m ∉ fs -> m ∉ X ->
  let mem1 := <[m := Message (Some c) (zlen c) None]> (mp_mem mp) in
  exists node, mem1 !! d = Some node /\
  list_rep X h (Some m) (Messagepool (mp_pool mp) (mp_freelist mp) (<[d := set_next (Some m) node]> mem1))
    ((ds ++ [d]) ++ [m]) fs (cs ++ [c]).
Proof.
  intros [] Hmd Hmf Hmx mem1. assert (forall a, a ∈ X -> a <> m) as Hxm by (intros a Ha ->; done).
  assert (d <> m) as Hdm by (intros ->; apply Hmd, elem_of_app; right; left).
  pose proof (proj1 (Forall2_app_inv_l _ _ _ _) lr_chunks0) as (cs1 & cs2 & Hc1 & Hc2 & ->).
  apply Forall2_cons_inv_l in Hc2 as (cd & cs3 & (next & Hd) & Hn & ->). inversion Hn; subst.
  exists (Message (Some cd) (zlen cd) next). split; [unfold mem1; by rewrite lookup_insert_ne|].
  set (mem2 := <[d := _]> mem1).
  assert (forall a, a <> d -> a <> m -> mem2 !! a = mp_mem mp !! a) as Hold.
  { intros a H1 H2. unfold mem2, mem1. by rewrite !lookup_insert_ne by done. }
  assert (forall a, a ∈ ds -> a <> d) as Hnd.
  { intros a Ha ->. pose proof (chain_nodup _ _ _ lr_chain0) as (_ & Hn' & _)%NoDup_app. apply (Hn' d Ha). left. }
  constructor; cbn [mp_mem mp_freelist]; try done.
  - eapply chain_snoc; [exact lr_chain0|..].
    + unfold mem2. by rewrite next_insert.
    + unfold mem2. rewrite next_insert_ne by done. unfold mem1. by rewrite next_insert.
    + intros b Hb. unfold next_of. rewrite Hold; [done|by apply Hnd|]. intros ->. apply Hmd, elem_of_app. by left.
  - by rewrite last_snoc.
  - unfold mem2, mem1. apply chain_insert; [|by apply chain_insert]. apply lr_disj0, elem_of_app. right. left.
  - intros a [Ha| ->%list_elem_of_singleton]%elem_of_app; [by apply lr_disj0|done].
  - intros a Ha. destruct (lr_frame0 a Ha) as (Hs & Hd' & Hf). specialize (Hxm a Ha). split_and!; [|set_solver|done].
    rewrite Hold; [done| |done]. intros ->. set_solver.
  - apply Forall2_app; [apply Forall2_app|].
    + apply (holds_agree (mp_mem mp)); [|done]. intros a Ha. apply Hold; [by apply Hnd|]. intros ->. set_solver.
    + constructor; [|constructor]. exists (Some m). unfold mem2. by rewrite lookup_insert_eq.
    + constructor; [|constructor]. exists None. unfold mem2. rewrite lookup_insert_ne by done. unfold mem1. by rewrite lookup_insert_eq.
Qed.

Lemma databuffer_push_rep X db mp s c : unread X db mp s -> zlen s + zlen c <= INT_MAX ->
  exists db' mp', databuffer_push db mp c = Ok (db', mp') /\ unread X db' mp' (s ++ c) /\
    db_header db' = db_header db /\ frame X mp mp'.
Proof.
  intros (ds & fs & cs & HL & Ho & -> & Hs) Hsz. set (s := drop _ _) in *.
  destruct (take_node_rep _ _ _ _ _ _ _ HL) as (m & mp1 & fs1 & E & HL1 & Hmd & Hmf & Hmx & Hfr).
  unfold databuffer_push. rewrite E. rstep. unfold assert_. rewrite Hs.
  destruct (Z.leb_spec (zlen s + zlen c) INT_MAX); [|lia]. rstep.
  assert (Forall2 (holds (mp_mem mp1)) ds cs) as Hcs by apply HL1.
  assert (frame X mp1 (Messagepool (mp_pool mp1) (mp_freelist mp1) (<[m := Message (Some c) (zlen c) None]> (mp_mem mp1)))) as Hfr1.
  { intros a Ha. cbn. rewrite lookup_insert_ne; [done|]. by intros <-. }
  destruct ds as [|d ds] using rev_ind; [|clear IHds].
  - inversion Hcs; subst. pose proof (lr_chain _ _ _ _ _ _ _ HL1 : db_head db = None) as Hh.
    pose proof (lr_tail _ _ _ _ _ _ _ HL1 : db_tail db = None) as Ht. cbn [db_head set_size db_tail]. rewrite Hh, Ht.
    rewrite bool_decide_true by done. rstep. rewrite Hh in HL1.
    eexists _, _. split; [done|]. split_and!; [|done|by transitivity mp1].
    exists [m], fs1, [c]. cbn [db_head db_tail set_ends db_offset set_size].
    change (zlen (first_chunk [])) with 0 in Ho. assert (db_offset db = 0) as Eo by lia.
    split_and!; [by apply (link_first _ _ _ _ _ _ HL1)|rewrite Eo; cbn; unfold zlen; lia|rewrite Eo; unfold zlen; lia| |by rewrite zlen_app].
    subst s. rewrite Eo. cbn. by rewrite app_nil_r.
  - destruct (link_last _ _ _ _ _ _ _ _ _ c HL1 Hmd Hmf Hmx) as (node & Hn & HL2).
    pose proof (lr_tail _ _ _ _ _ _ _ HL1) as Ht. rewrite last_snoc in Ht.
    assert (exists h, db_head db = Some h) as [h Hh] by (destruct ds; eexists; apply (lr_chain _ _ _ _ _ _ _ HL1)).
    cbn [db_head set_size db_tail]. rewrite Hh, Ht. cbn [deref mbind result_bind]. rewrite Hn. cbn [deref mbind result_bind].
    eexists _, _. split; [done|]. split_and!; [|done|].
    + exists ((ds ++ [d]) ++ [m]), fs1, (cs ++ [c]). cbn [db_head db_tail set_ends db_offset set_size].
      rewrite Hh in HL2. destruct cs as [|c0 cs]; [apply Forall2_nil_inv_r in Hcs; by destruct ds|].
      split_and!; [done|apply Ho|apply Ho| |by rewrite zlen_app].
      rewrite concat_app, drop_app_le; [cbn; by rewrite app_nil_r|]. cbn in *. rewrite length_app. unfold zlen in *. lia.
    + transitivity mp1; [done|]. intros a Ha. cbn [mp_mem].
      destruct (lr_frame _ _ _ _ _ _ _ HL1 a Ha) as (_ & Hd & _).
      rewrite lookup_insert_ne; [by apply Hfr1|]. intros <-. apply Hd, elem_of_app. right. left.
Qed.

Lemma unread_set_header X h db mp s : unread X (set_header h db) mp s <-> unread X db mp s.
Proof. done. Qed.

Lemma unread_bytes_size X db mp s : unread X db mp s -> db_size db = zlen s.
Proof. by intros (? & ? & ? & _ & _ & _ & ?). Qed.

(** The header of [hs] big-endian bytes, an [int]. *)
Definition header_of (hs : Z) (p : list Z) : Z := if hs =? 2 then be_val p else s32 (be_val p).

(** The header as [readheader] leaves it, and the unread bytes. *)
Definition header_step (hs header : Z) (s : list Z) : Z * list Z :=
  if (header =? 0) && negb (zlen s <? hs) then (header_of hs (take (Z.to_nat hs) s), drop (Z.to_nat hs) s)
  else (header, s).

(** What [readheader] returns. *)
Definition header_result (hs header : Z) (s : list Z) : Z :=
  if (header =? 0) && (zlen s <? hs) then -1
  else let '(h, s) := header_step hs header s in if zlen s <? h then -1 else h.

Lemma readheader_rep X db mp s hs : unread X db mp s -> bytes s -> hs = 2 \/ hs = 4 ->
  exists db' mp', databuffer_readheader db mp hs = Ok (header_result hs (db_header db) s, db', mp') /\
    db_header db' = fst (header_step hs (db_header db) s) /\
    unread X db' mp' (snd (header_step hs (db_header db) s)) /\ frame X mp mp'.
Proof.
  intros Hu Hb Hhs. unfold databuffer_readheader, header_result, header_step.
  pose proof (unread_bytes_size _ _ _ _ Hu) as Hs. rewrite Hs.
  destruct (Z.eqb_spec (db_header db) 0) as [H0|H0]; cbn [andb].
  2:{ rstep. rewrite Hs. eexists _, _. split_and!; done. }
  destruct (Z.ltb_spec (zlen s) hs) as [Hlt|Hge]; cbn [negb]; [eexists _, _; split_and!; done|].
  destruct (databuffer_read_rep X db mp s hs Hu) as (db1 & mp1 & E & Hu1 & _ & Hf1); [lia|].
  rewrite E. rstep. set (p := take (Z.to_nat hs) s).
  assert (length p = Z.to_nat hs) as Hp by (subst p; rewrite length_take; unfold zlen in *; lia).
  assert (bytes p) as Hpb by (subst p; auto with skynet). unfold header_of. cbn [fst snd].
  assert (exists h, ((p0 ← zget p 0; p1 ← zget p 1;
      if hs =? 2 then Ok (set_header (Z.lor (Z.shiftl p0 8) p1) db1, mp1)
      else p2 ← zget p 2; p3 ← zget p 3;
        Ok (set_header (s32 (Z.lor (Z.lor (Z.lor (Z.shiftl p0 24) (Z.shiftl p1 16)) (Z.shiftl p2 8)) p3)) db1, mp1)) =
      Ok (set_header h db1, mp1)) /\ h = (if hs =? 2 then be_val p else s32 (be_val p))) as (h & -> & ->).
  { clearbody p. destruct Hhs as [-> | ->]; cbn in Hp.
    - do 3 (destruct p as [|? p]; cbn in Hp; try lia). repeat (apply Forall_cons in Hpb as [? Hpb]). unfold is_byte in *.
      eexists. split; [reflexivity|]. cbn. rewrite Z.lor_comm, lor_shiftl_add; lia.
    - do 5 (destruct p as [|? p]; cbn in Hp; try lia). repeat (apply Forall_cons in Hpb as [? Hpb]). unfold is_byte in *.
      eexists. split; [reflexivity|]. cbn [Z.eqb Pos.eqb]. f_equal.
      rewrite <- !Z.lor_assoc, (Z.lor_comm (Z.shiftl z1 8)), lor_shiftl_add by lia.
      rewrite (Z.lor_comm (Z.shiftl z0 16)), lor_shiftl_add by lia. rewrite Z.lor_comm, lor_shiftl_add by lia.
      unfold be_val. cbn. lia. }
  rstep. rewrite (unread_bytes_size X (set_header _ db1) mp1 (drop (Z.to_nat hs) s)) by done.
  eexists _, _. split_and!; done.
Qed.

Lemma clear_loop_rep X cs : forall fuel db mp ds fs, list_rep X (db_head db) (db_tail db) mp ds fs cs -> (length cs < fuel)%nat ->
  exists mp' fs', clear_loop fuel db mp = Ok mp' /\ list_rep X None None mp' [] fs' [] /\ frame X mp mp'.
Proof.
  induction cs as [|c cs IH]; intros fuel db mp ds fs HL Hf; (destruct fuel as [|fuel]; [lia|]); cbn [clear_loop].
  - pose proof (lr_chunks _ _ _ _ _ _ _ HL) as Hc. apply Forall2_nil_inv_r in Hc as ->.
    pose proof (lr_chain _ _ _ _ _ _ _ HL : _ = None) as Hh. pose proof (lr_tail _ _ _ _ _ _ _ HL : _ = None) as Ht.
    rewrite Hh, Ht in *. exists mp, fs. split_and!; done.
  - pose proof (lr_chunks _ _ _ _ _ _ _ HL) as Hc. apply Forall2_cons_inv_r in Hc as (m & ds' & _ & _ & ->).
    pose proof (lr_chain _ _ _ _ _ _ _ HL) as [Hh _]. rewrite Hh.
    destruct (return_rep X db mp m ds' fs c cs HL) as (h & t & mp1 & E & HL1 & Hf1 & _). rewrite E. rstep.
    destruct (IH fuel (set_ends h t db) mp1 ds' (m :: fs) HL1) as (mp2 & fs2 & E2 & HL2 & Hf2); [cbn in Hf; lia|].
    exists mp2, fs2. split_and!; [done..|]. by transitivity mp1.
Qed.

Lemma databuffer_clear_rep X db mp s : unread X db mp s ->
  exists mp', databuffer_clear db mp = Ok (empty_buffer, mp') /\ unread X empty_buffer mp' [] /\ frame X mp mp'.
Proof.
  intros (ds & fs & cs & HL & _). unfold databuffer_clear.
  destruct (clear_loop_rep X cs (S (size (mp_mem mp))) db mp ds fs HL) as (mp' & fs' & -> & HL' & Hf).
  { pose proof (chain_length_size _ _ _ (lr_chain _ _ _ _ _ _ _ HL)).
    pose proof (Forall2_length _ _ _ (lr_chunks _ _ _ _ _ _ _ HL)). lia. }
  exists mp'. split_and!; [done| |done]. by exists [], fs', [].
Qed.

Lemma unread_empty X mp fs : list_rep X None None mp [] fs [] -> unread X empty_buffer mp [].
Proof. intros H. by exists [], fs, []. Qed.

Lemma empty_pool_rep : unread [] empty_buffer empty_pool [].
Proof.
  apply (unread_empty [] empty_pool []). constructor; [done..| | |constructor];
    intros a Ha; by apply not_elem_of_nil in Ha.
Qed.
