(* ===== verification/HashId.v ===== *)
(** * Connection table of the gate (service-src/hashid.h)

    A fixed array of nodes, one per connection, threaded into hash chains by
    their socket id. A pointer to a node is its index in the array. *)
From S2P Require Import Prelude.

(** ** Data *)

Record hashid_node : Set := HashidNode {
  hn_id : Z;
  hn_next : option nat
}.

Record hashid : Set := Hashid {
  hi_hashmod : Z;
  hi_cap : Z;
  hi_count : Z;
  hi_id : list hashid_node;
  hi_hash : list (option nat)
}.

Definition set_id (id : list hashid_node) (hi : hashid) : hashid :=
  Hashid (hi_hashmod hi) (hi_cap hi) (hi_count hi) id (hi_hash hi).
Definition set_hash (hash : list (option nat)) (hi : hashid) : hashid :=
  Hashid (hi_hashmod hi) (hi_cap hi) (hi_count hi) (hi_id hi) hash.
Definition set_count (n : Z) (hi : hashid) : hashid :=
  Hashid (hi_hashmod hi) (hi_cap hi) n (hi_id hi) (hi_hash hi).

(** ** Operations *)

(** [while (hashcap < max) hashcap *= 2;]; an [int] holds 2^30. *)
Fixpoint hashcap_loop (fuel : nat) (hashcap max : Z) : result Z :=
  match fuel with
  | O => Fault
  | S fuel => if hashcap <? max then hashcap_loop fuel (hashcap * 2) max else Ok hashcap
  end.

Definition hashid_init (max : Z) : result hashid :=
  hashcap ← hashcap_loop 27 16 max;
  Ok (Hashid (hashcap - 1) max 0 (replicate (Z.to_nat max) (HashidNode (-1) None)) (replicate (Z.to_nat hashcap) None)).

Definition hashid_clear (hi : hashid) : hashid := Hashid 1 0 0 [] [].

(** The walk along a chain; a chain has at most [cap] nodes. *)
Fixpoint lookup_loop (fuel : nat) (hi : hashid) (c : option nat) (id : Z) : result Z :=
  match fuel with
  | O => Fault
  | S fuel =>
      match c with
      | None => Ok (-1)
      | Some c =>
          node ← zget (hi_id hi) (Z.of_nat c);
          if hn_id node =? id then Ok (Z.of_nat c) else lookup_loop fuel hi (hn_next node) id
      end
  end.

Definition walk_fuel (hi : hashid) : nat := S (length (hi_id hi)).

Definition hashid_lookup (hi : hashid) (id : Z) : result Z :=
  c ← zget (hi_hash hi) (Z.land id (hi_hashmod hi));
  lookup_loop (walk_fuel hi) hi c id.

(** The label [_clear]. *)
Definition clear_node (hi : hashid) (c : nat) : result (Z * hashid) :=
  ids ← zset (hi_id hi) (Z.of_nat c) (HashidNode (-1) None);
  Ok (Z.of_nat c, set_count (hi_count hi - 1) (set_id ids hi)).

(** [while(c->next)] from the node [c]. *)
Fixpoint remove_loop (fuel : nat) (hi : hashid) (c : nat) (id : Z) : result (Z * hashid) :=
  match fuel with
  | O => Fault
  | S fuel =>
      node ← zget (hi_id hi) (Z.of_nat c);
      match hn_next node with
      | None => Ok (-1, hi)
      | Some temp =>
          next ← zget (hi_id hi) (Z.of_nat temp);
          if hn_id next =? id then
            ids ← zset (hi_id hi) (Z.of_nat c) (HashidNode (hn_id node) (hn_next next));
            clear_node (set_id ids hi) temp
          else remove_loop fuel hi temp id
      end
  end.

Definition hashid_remove (hi : hashid) (id : Z) : result (Z * hashid) :=
  let h := Z.land id (hi_hashmod hi) in
  c ← zget (hi_hash hi) h;
  match c with
  | None => Ok (-1, hi)
  | Some c =>
      node ← zget (hi_id hi) (Z.of_nat c);
      if hn_id node =? id then
        hash ← zset (hi_hash hi) h (hn_next node);
        clear_node (set_hash hash hi) c
      else remove_loop (walk_fuel hi) hi c id
  end.

(** The first free node among [(i+id) % cap] for the indices [idx]; the sum is an [int]. *)
Fixpoint find_free (idx : list Z) (hi : hashid) (id : Z) : result (option nat) :=
  match idx with
  | [] => Ok None
  | i :: idx =>
      _ ← assert_ (i + id <=? INT_MAX);
      let index := (i + id) mod hi_cap hi in
      node ← zget (hi_id hi) index;
      if hn_id node =? -1 then Ok (Some (Z.to_nat index)) else find_free idx hi id
  end.

Definition hashid_insert (hi : hashid) (id : Z) : result (Z * hashid) :=
  r ← find_free (seqZ 0 (hi_cap hi)) hi id;
  c ← deref r;
  node ← zget (hi_id hi) (Z.of_nat c);
  _ ← assert_ (bool_decide (hn_next node = None));
  let h := Z.land id (hi_hashmod hi) in
  head ← zget (hi_hash hi) h;
  ids ← zset (hi_id hi) (Z.of_nat c) (HashidNode id head);
  hash ← zset (hi_hash hi) h (Some c);
  Ok (Z.of_nat c, set_count (hi_count hi + 1) (set_id ids (set_hash hash hi))).

Definition hashid_full (hi : hashid) : bool := hi_count hi =? hi_cap hi.

(** ** Specification *)

Definition next_in (ids : list hashid_node) (a : nat) : option (option nat) := hn_next <$> ids !! a.

(** [hi] is the finite map [m] from socket ids to nodes. *)
Record hashid_rep (hi : hashid) (m : gmap Z nat) : Prop := HashidRep {
  hr_cap : zlen (hi_id hi) = hi_cap hi;
  hr_mod : exists k, 0 <= k /\ hi_hashmod hi = 2 ^ k - 1;
  hr_hash : zlen (hi_hash hi) = hi_hashmod hi + 1;
  hr_count : hi_count hi = Z.of_nat (size m);
  hr_map : forall v i, m !! v = Some i <-> 0 <= v /\ exists next, hi_id hi !! i = Some (HashidNode v next);
  hr_free : forall i node, hi_id hi !! i = Some node -> -1 <= hn_id node /\ (hn_id node = -1 -> hn_next node = None);
  hr_chain : forall h c, hi_hash hi !! h = Some c ->
    exists l, chain (next_in (hi_id hi)) c l /\
      forall i, i ∈ l <-> exists v, m !! v = Some i /\ Z.land v (hi_hashmod hi) = Z.of_nat h
}.

(** ** Lemmas *)

Lemma hash_index hi m v : hashid_rep hi m -> 0 <= Z.land v (hi_hashmod hi) < zlen (hi_hash hi).
Proof.
  intros []. destruct hr_mod0 as (k & Hk & E). rewrite hr_hash0, E, land_pred_pow2 by done.
  pose proof (Z.mod_pos_bound v (2 ^ k)). lia.
Qed.

(** The chain of the ids that hash like [v]. *)
Lemma hash_chain hi m v : hashid_rep hi m -> exists c l, zget (hi_hash hi) (Z.land v (hi_hashmod hi)) = Ok c /\
  chain (next_in (hi_id hi)) c l /\ (length l <= length (hi_id hi))%nat /\
  forall i, i ∈ l <-> exists w, m !! w = Some i /\ Z.land w (hi_hashmod hi) = Z.land v (hi_hashmod hi).
Proof.
  intros HR. pose proof (hash_index hi m v HR) as Hh. destruct (zget_in_range _ _ Hh) as [c Hc].
  apply zget_Ok in Hc as Hc'. destruct Hc' as [_ Hc']. destruct (hr_chain _ _ HR _ _ Hc') as (l & Hl & Hi).
  exists c, l. split_and!; [done|done| |].
  - assert (l ⊆ seq 0 (length (hi_id hi))) as Hsub.
    { intros a Ha. destruct (chain_alloc _ _ _ _ Hl Ha) as [x Hx]. unfold next_in in Hx.
      destruct (hi_id hi !! a) eqn:E; [|done]. apply lookup_lt_Some in E. apply elem_of_seq. lia. }
    pose proof (submseteq_length _ _ (NoDup_submseteq _ _ (chain_nodup _ _ _ Hl) Hsub)) as Hlen. by rewrite length_seq in Hlen.
  - intros i. rewrite Hi, Z2Nat.id by lia. done.
Qed.

Lemma lookup_loop_spec hi m v l : hashid_rep hi m -> forall c fuel, chain (next_in (hi_id hi)) c l -> (length l < fuel)%nat ->
  (forall i, i ∈ l -> exists w, m !! w = Some i) ->
  lookup_loop fuel hi c v = Ok (match m !! v with Some i => if bool_decide (i ∈ l) then Z.of_nat i else -1 | None => -1 end).
Proof.
  intros HR. induction l as [|a l IH]; intros c fuel Hc Hf Hl; (destruct fuel as [|fuel]; [lia|]); cbn [lookup_loop].
  - cbn in Hc. subst c. f_equal. destruct (m !! v) as [i|]; [|done]. by rewrite bool_decide_false by apply not_elem_of_nil.
  - destruct Hc as [-> (p & Hp & Hc)]. unfold next_in in Hp.
    destruct (hi_id hi !! a) as [[w next]|] eqn:Ea; [|done]. cbn in Hp. assert (next = p) as -> by congruence.
    rewrite (zget_Some _ _ (HashidNode w p)) by (rewrite ?Nat2Z.id; done || lia). cbn [mbind result_bind hn_id hn_next].
    destruct (Hl a ltac:(left)) as (w' & Hw'). apply (hr_map _ _ HR) in Hw' as Hw''. destruct Hw'' as (Hw0 & n' & E').
    rewrite Ea in E'. injection E' as -> _. destruct (Z.eqb_spec w' v) as [->|Hne].
    + rewrite Hw'. by rewrite bool_decide_true by left.
    + rewrite (IH p fuel Hc); [|cbn in Hf; lia|intros; apply Hl; by right].
      destruct (m !! v) as [i|] eqn:Ev; [|done]. assert (i <> a) as Hia.
      { intros ->. apply (hr_map _ _ HR) in Ev as (_ & n2 & E2). rewrite Ea in E2. by simplify_eq. }
      f_equal. do 2 case_bool_decide; set_solver.
Qed.

Lemma hashid_lookup_spec hi m v : hashid_rep hi m ->
  hashid_lookup hi v = Ok (match m !! v with Some i => Z.of_nat i | None => -1 end).
Proof.
  intros HR. destruct (hash_chain hi m v HR) as (c & l & Hc & Hl & Hlen & Hi).
  unfold hashid_lookup. rewrite Hc. rstep.
  rewrite (lookup_loop_spec hi m v l HR); [|exact Hl|unfold walk_fuel; lia|intros i Hw; apply Hi in Hw as (w & Hw & _); eauto].
  destruct (m !! v) as [i|] eqn:E; [|done]. rewrite bool_decide_true; [done|]. apply Hi. eauto.
Qed.

(** A node of the map, and its node of the array. *)
Lemma map_node hi m v i : hashid_rep hi m -> m !! v = Some i -> exists next, hi_id hi !! i = Some (HashidNode v next).
Proof. intros HR Hv. by apply (hr_map _ _ HR) in Hv as [_ Hn]. Qed.

Lemma map_inj hi m v w i : hashid_rep hi m -> m !! v = Some i -> m !! w = Some i -> v = w.
Proof.
  intros HR Hv Hw. destruct (map_node _ _ _ _ HR Hv) as [n1 E1]. destruct (map_node _ _ _ _ HR Hw) as [n2 E2]. congruence.
Qed.

(** Unlinking a node that is not the first of its chain. *)
Lemma chain_unlink nx nx' p l1 b a l2 : chain nx p (l1 ++ b :: a :: l2) ->
  nx' b = nx a -> (forall i, i <> a -> i <> b -> nx' i = nx i) -> chain nx' p (l1 ++ b :: l2).
Proof.
  intros H Hb Ho. pose proof (chain_nodup _ _ _ H) as Hn. apply chain_app in H as (q & H1 & -> & pb & Hpb & -> & pa & Hpa & H2).
  apply NoDup_app in Hn as (_ & Hd & Hn). apply NoDup_cons in Hn as [Hba Hn]. apply NoDup_cons in Hn as [Hal _].
  apply chain_app. exists (Some b). split.
  - eapply seg_ext; [|exact H1]. intros i Hi. symmetry. apply Ho; intros ->; apply (Hd _ Hi); [right; left|left].
  - split; [done|]. exists pa. split; [congruence|]. eapply chain_ext; [|exact H2].
    intros i Hi. symmetry. apply Ho; intros ->; [done|]. apply Hba. by right.
Qed.

(** The walk of [hashid_remove]: it stops at the predecessor [b] of the node
    [a] with the id, or at the end of the chain. *)
Lemma remove_loop_spec hi m v l : hashid_rep hi m -> forall c fuel,
  chain (next_in (hi_id hi)) (Some c) (c :: l) -> (length l < fuel)%nat ->
  match m !! v with
  | Some a => a ∈ l -> exists l1 b l2 nb na, c :: l = l1 ++ b :: a :: l2 /\ hi_id hi !! b = Some nb /\ hi_id hi !! a = Some na /\
      remove_loop fuel hi c v = clear_node (set_id (<[b := HashidNode (hn_id nb) (hn_next na)]> (hi_id hi)) hi) a
  | None => (forall i, i ∈ l -> exists w, m !! w = Some i) -> remove_loop fuel hi c v = Ok (-1, hi)
  end.
Proof.
  intros HR. induction l as [|a l IH]; intros c fuel [_ (p & Hp & Hc)] Hf; (destruct fuel as [|fuel]; [lia|]); cbn [remove_loop];
    unfold next_in in Hp; destruct (hi_id hi !! c) as [nc|] eqn:Ec; try done; cbn in Hp; injection Hp as Hp;
    rewrite (zget_Some _ _ nc) by (rewrite ?Nat2Z.id; done || lia); rstep; rewrite Hp.
  - cbn in Hc. rewrite Hc. destruct (m !! v); [intros Ha; by apply not_elem_of_nil in Ha|intros _; reflexivity].
  - destruct Hc as [-> Hc]. assert (chain (next_in (hi_id hi)) (Some a) (a :: l)) as Hca by done.
    destruct Hc as (q & Hq & _). unfold next_in in Hq. destruct (hi_id hi !! a) as [na|] eqn:Ea; [|done].
    rewrite (zget_Some _ _ na) by (rewrite ?Nat2Z.id; done || lia). rstep. specialize (IH a fuel Hca ltac:(cbn in Hf; lia)).
    destruct (m !! v) as [b|] eqn:Ev.
    + intros Hb. destruct (map_node _ _ _ _ HR Ev) as [nb Eb]. destruct (Z.eqb_spec (hn_id na) v) as [Hid|Hid].
      * assert (b = a) as ->.
        { destruct na as [w n]. cbn in Hid. subst w. assert (m !! v = Some a) as E2.
          { apply (hr_map _ _ HR). split; [by apply (hr_map _ _ HR) in Ev as [? _]|eauto]. } congruence. }
        rewrite zset_Ok by (apply lookup_lt_Some in Ec; unfold zlen; lia). rstep. rewrite Nat2Z.id.
        exists [], c, l, nc, na. split_and!; done.
      * assert (b ∈ l) as Hbl by (apply elem_of_cons in Hb as [->|]; [rewrite Ea in Eb; injection Eb as ->; done|done]).
        destruct (IH Hbl) as (l1 & b' & l2 & nb' & na' & E & E1 & E2 & E3).
        exists (c :: l1), b', l2, nb', na'. split_and!; [by rewrite E|done..].
    + intros Hall. destruct (Hall a ltac:(left)) as [w Hw]. destruct (map_node _ _ _ _ HR Hw) as [n En].
      rewrite Ea in En. injection En as ->. cbn [hn_id]. destruct (Z.eqb_spec w v) as [->|]; [congruence|].
      apply IH. intros i Hi. apply Hall. by right.
Qed.

(** ** Removing and inserting *)

Lemma removed_rep hi m v a ids hash c (l l' : list nat) : hashid_rep hi m -> m !! v = Some a ->
  zget (hi_hash hi) (Z.land v (hi_hashmod hi)) = Ok c ->
  (forall i, i ∈ l <-> exists w, m !! w = Some i /\ Z.land w (hi_hashmod hi) = Z.land v (hi_hashmod hi)) ->
  length ids = length (hi_id hi) -> length hash = length (hi_hash hi) ->
  (forall i, i <> a -> hn_id <$> ids !! i = hn_id <$> hi_id hi !! i) -> ids !! a = Some (HashidNode (-1) None) ->
  (forall i, i ∉ l -> ids !! i = hi_id hi !! i) ->
  (forall h, h <> Z.to_nat (Z.land v (hi_hashmod hi)) -> hash !! h = hi_hash hi !! h) ->
  (forall c', hash !! Z.to_nat (Z.land v (hi_hashmod hi)) = Some c' -> chain (next_in ids) c' l') ->
  (forall i, i ∈ l' <-> i ∈ l /\ i <> a) ->
  hashid_rep (Hashid (hi_hashmod hi) (hi_cap hi) (hi_count hi - 1) ids hash) (delete v m).
Proof.
  intros HR Hv Hc Hl Hli Hlh Hid Ha Hnx Hh Hch Hl'. pose proof (hash_index hi m v HR) as Hidx. pose proof HR as [].
  constructor; cbn [hi_id hi_cap hi_hashmod hi_hash hi_count]; try done.
  - unfold zlen. by rewrite Hli.
  - unfold zlen. by rewrite Hlh.
  - rewrite hr_count0, map_size_delete, Hv. assert (size m <> 0%nat) by (apply map_size_ne_0_lookup; eauto). lia.
  - intros w i. rewrite lookup_delete_Some. destruct (decide (i = a)) as [->|Hia].
    + split; [intros [Hne Hw]; by destruct (Hne (map_inj _ _ _ _ _ HR Hv Hw))|]. intros [H0 [n En]]. rewrite Ha in En. injection En as <- _. lia.
    + rewrite hr_map0. specialize (Hid i Hia). split.
      * intros (Hne & H0 & n & En). rewrite En in Hid. destruct (ids !! i) as [[w' n']|]; [|done]. cbn in Hid. injection Hid as ->. eauto.
      * intros (H0 & n & En). rewrite En in Hid. destruct (hi_id hi !! i) as [[w' n']|] eqn:E; [|done]. cbn in Hid. injection Hid as <-.
        split; [|eauto]. intros ->. apply Hia. assert (m !! w = Some i) as Hw by (apply hr_map0; eauto). congruence.
  - intros i node Hn. destruct (decide (i ∈ l)) as [Hi|Hi]; [|rewrite Hnx in Hn by done; by apply (hr_free0 i)].
    destruct (decide (i = a)) as [->|Hia]; [rewrite Ha in Hn; injection Hn as <-; cbn; split; [lia|done]|].
    apply Hl in Hi as (w & Hw & _). apply hr_map0 in Hw as (H0 & n & En). specialize (Hid i Hia). rewrite En, Hn in Hid.
    cbn in Hid. injection Hid as Hid. lia.
  - intros h c1 Hc1. destruct (decide (h = Z.to_nat (Z.land v (hi_hashmod hi)))) as [->|Hne].
    + exists l'. split; [by apply Hch|]. intros i. rewrite Hl', Hl, Z2Nat.id by lia. split.
      * intros [(w & Hw & Hm) Hia]. exists w. rewrite lookup_delete_Some. split_and!; [|done|done]. intros ->. congruence.
      * intros (w & Hw & Hm). apply lookup_delete_Some in Hw as [Hne Hw]. split; [eauto|]. intros ->.
        by destruct (Hne (map_inj _ _ _ _ _ HR Hv Hw)).
    + rewrite Hh in Hc1 by done. destruct (hr_chain0 h c1 Hc1) as (l1 & Hl1 & Hi1). exists l1. split.
      * eapply chain_ext; [|exact Hl1]. intros i Hi. unfold next_in. rewrite Hnx; [done|]. intros Hil.
        apply Hi1 in Hi as (w & Hw & Hm). apply Hl in Hil as (w' & Hw' & Hm'). pose proof (map_inj _ _ _ _ _ HR Hw Hw'). subst w'. lia.
      * intros i. rewrite Hi1. split.
        -- intros (w & Hw & Hm). exists w. rewrite lookup_delete_Some. split_and!; [|done|done]. intros <-. lia.
        -- intros (w & Hw & Hm). apply lookup_delete_Some in Hw as [_ Hw]. eauto.
Qed.

(** Two updates of the array, seen from one index. *)
Lemma insert_id (ids : list hashid_node) (b a : nat) nb next : ids !! b = Some nb -> b <> a ->
  forall i, i <> a -> hn_id <$> <[a := HashidNode (-1) None]> (<[b := HashidNode (hn_id nb) next]> ids) !! i = hn_id <$> ids !! i.
Proof.
  intros Hb Hba i Hi. rewrite list_lookup_insert_ne by done. destruct (decide (i = b)) as [->|Hib].
  - rewrite list_lookup_insert_eq by (by eapply lookup_lt_Some). by rewrite Hb.
  - by rewrite list_lookup_insert_ne by done.
Qed.

(** The node with the id is the first of its chain. *)
Lemma remove_first hi m v c n l : hashid_rep hi m -> m !! v = Some c -> hi_id hi !! c = Some (HashidNode v n) ->
  zget (hi_hash hi) (Z.land v (hi_hashmod hi)) = Ok (Some c) -> chain (next_in (hi_id hi)) (Some c) (c :: l) ->
  (forall i, i ∈ c :: l <-> exists w, m !! w = Some i /\ Z.land w (hi_hashmod hi) = Z.land v (hi_hashmod hi)) ->
  hashid_rep (Hashid (hi_hashmod hi) (hi_cap hi) (hi_count hi - 1) (<[c := HashidNode (-1) None]> (hi_id hi))
    (<[Z.to_nat (Z.land v (hi_hashmod hi)) := n]> (hi_hash hi))) (delete v m).
Proof.
  intros HR Hv En Hc Hl Hi. pose proof (hash_index hi m v HR) as Hidx.
  assert (c ∉ l) as Hcl by (apply NoDup_cons, (chain_nodup _ _ _ Hl)).
  apply (removed_rep hi m v c _ _ (Some c) (c :: l) l); try done; try (by rewrite length_insert).
  - intros i Hic. by rewrite list_lookup_insert_ne by done.
  - apply list_lookup_insert_eq. by eapply lookup_lt_Some.
  - intros i Hil. rewrite list_lookup_insert_ne; [done|]. intros <-. apply Hil. left.
  - intros h Hh. by rewrite list_lookup_insert_ne by done.
  - intros c' Hc2. rewrite list_lookup_insert_eq in Hc2 by (unfold zlen in *; lia). injection Hc2 as <-.
    destruct Hl as [_ (p & Hp & Hl)]. unfold next_in in Hp. rewrite En in Hp. injection Hp as <-.
    eapply chain_ext; [|exact Hl]. intros i Hil. unfold next_in. rewrite list_lookup_insert_ne; [done|]. by intros <-.
  - intros i. rewrite elem_of_cons. split; [|naive_solver]. intros Hil. split; [by right|]. by intros ->.
Qed.

(** The node [a] with the id has the predecessor [b]. *)
Lemma remove_inner hi m v c a b nb na l1 l2 : hashid_rep hi m -> m !! v = Some a ->
  hi_id hi !! b = Some nb -> hi_id hi !! a = Some na ->
  zget (hi_hash hi) (Z.land v (hi_hashmod hi)) = Ok (Some c) -> chain (next_in (hi_id hi)) (Some c) (l1 ++ b :: a :: l2) ->
  (forall i, i ∈ l1 ++ b :: a :: l2 <-> exists w, m !! w = Some i /\ Z.land w (hi_hashmod hi) = Z.land v (hi_hashmod hi)) ->
  hashid_rep (Hashid (hi_hashmod hi) (hi_cap hi) (hi_count hi - 1)
    (<[a := HashidNode (-1) None]> (<[b := HashidNode (hn_id nb) (hn_next na)]> (hi_id hi))) (hi_hash hi)) (delete v m).
Proof.
  intros HR Hv Eb Ea Hc Hl Hi. apply zget_Ok in Hc as Hc'. destruct Hc' as [_ Hc'].
  pose proof (chain_nodup _ _ _ Hl) as (_ & Hd & Hnd)%NoDup_app.
  apply NoDup_cons in Hnd as [Hba Hnd]. apply NoDup_cons in Hnd as [Hal2 _].
  assert (b <> a) as Hne2 by (intros ->; apply Hba; left).
  set (ids := <[a := _]> _). assert (forall i, i <> a -> i <> b -> ids !! i = hi_id hi !! i) as Hsame.
  { intros i H1 H2. unfold ids. by rewrite !list_lookup_insert_ne by done. }
  apply (removed_rep hi m v a _ _ (Some c) (l1 ++ b :: a :: l2) (l1 ++ b :: l2)); try done.
  - unfold ids. by rewrite !length_insert.
  - by apply insert_id.
  - apply list_lookup_insert_eq. rewrite length_insert. by eapply lookup_lt_Some.
  - intros i Hil. apply Hsame; intros ->; apply Hil, elem_of_app; right; [right; left|left].
  - intros c' Hc2. rewrite Hc' in Hc2. injection Hc2 as <-. eapply chain_unlink; [exact Hl| |].
    + unfold next_in, ids. rewrite list_lookup_insert_ne, list_lookup_insert_eq by (done || by eapply lookup_lt_Some). by rewrite Ea.
    + intros i H1 H2. unfold next_in. by rewrite Hsame.
  - intros i. rewrite !elem_of_app, !elem_of_cons. split; [|naive_solver].
    intros [H1|[->|H1]]; (split; [by auto 6|]); [intros ->; apply (Hd a H1); right; left|done|by intros ->].
Qed.

Lemma hashid_remove_spec hi m v : hashid_rep hi m ->
  match m !! v with
  | None => hashid_remove hi v = Ok (-1, hi)
  | Some i => exists hi', hashid_remove hi v = Ok (Z.of_nat i, hi') /\ hashid_rep hi' (delete v m) /\ hi_cap hi' = hi_cap hi
  end.
Proof.
  intros HR. destruct (hash_chain hi m v HR) as (c & l & Hc & Hl & Hlen & Hi). pose proof (hash_index hi m v HR) as Hidx.
  unfold hashid_remove. rewrite Hc. rstep.
  assert (forall i, m !! v = Some i -> i ∈ l) as Hin by (intros i Hv; apply Hi; eauto).
  destruct c as [c|].
  2:{ rewrite (chain_none _ _ Hl) in Hin. destruct (m !! v) as [i|]; [|done]. exfalso. by apply (not_elem_of_nil i), Hin. }
  destruct l as [|c0 l]; [done|]. assert (c0 = c) as -> by (destruct Hl as [E _]; congruence).
  destruct (proj1 (Hi c) ltac:(left)) as (w & Hw & Hwv). destruct (map_node _ _ _ _ HR Hw) as [n En].
  rewrite (zget_Some _ _ (HashidNode w n)) by (rewrite ?Nat2Z.id; done || lia). cbn [mbind result_bind hn_id hn_next].
  pose proof (lookup_lt_Some _ _ _ En) as Hclt. destruct (Z.eqb_spec w v) as [->|Hne].
  - rewrite Hw, zset_Ok by done. rstep. unfold clear_node. cbn [hi_id set_hash].
    rewrite zset_Ok by (unfold zlen; lia). rstep. rewrite Nat2Z.id. eexists. split; [done|]. split; [|done].
    by apply (remove_first hi m v c n l).
  - pose proof (remove_loop_spec hi m v l HR c (walk_fuel hi) Hl ltac:(unfold walk_fuel; cbn in Hlen; lia)) as HL.
    destruct (m !! v) as [a|] eqn:Ev.
    2:{ apply HL. intros i Hil. destruct (proj1 (Hi i) ltac:(by right)) as (w' & Hw' & _). eauto. }
    assert (a ∈ l) as Hal.
    { pose proof (Hin a eq_refl) as Ha. apply elem_of_cons in Ha as [->|]; [|done]. destruct (Hne (map_inj _ _ _ _ _ HR Hw Ev)). }
    destruct (HL Hal) as (l1 & b & l2 & nb & na & E & Eb & Ea & ->). unfold clear_node. cbn [hi_id set_id].
    rewrite zset_Ok by (apply lookup_lt_Some in Ea; unfold zlen; rewrite length_insert; lia). rstep. rewrite Nat2Z.id.
    eexists. split; [done|]. split; [|done]. rewrite E in Hl, Hi. by apply (remove_inner hi m v c a b nb na l1 l2).
Qed.

(** An array with fewer ids than nodes has a free node. *)
Lemma free_node_exists hi m : hashid_rep hi m -> Z.of_nat (size m) < hi_cap hi ->
  exists j, hi_id hi !! j = Some (HashidNode (-1) None).
Proof.
  intros HR Hlt. pose proof HR as [].
  destruct (decide (Exists (fun n => hn_id n = -1) (hi_id hi))) as [He|Hn].
  - apply Exists_exists in He as (node & Hnode & E). apply list_elem_of_lookup in Hnode as [j Hj]. exists j.
    rewrite Hj. destruct (hr_free0 j node Hj) as [_ Hf]. destruct node as [w n]. cbn in *. subst w. by rewrite Hf.
  - exfalso. rewrite <- Forall_Exists_neg in Hn. rewrite Forall_lookup in Hn.
    assert (NoDup (hn_id <$> hi_id hi)) as Hnd.
    { apply NoDup_alt. intros i j w Hi Hj. rewrite list_lookup_fmap in Hi, Hj.
      destruct (hi_id hi !! i) as [[w1 n1]|] eqn:E1; [|done]. destruct (hi_id hi !! j) as [[w2 n2]|] eqn:E2; [|done].
      cbn in Hi, Hj. injection Hi as ->. injection Hj as ->.
      destruct (hr_free0 i _ E1) as [Hge _]. specialize (Hn i _ E1). cbn in *.
      assert (m !! w = Some i) by (apply hr_map0; split; [lia|eauto]).
      assert (m !! w = Some j) by (apply hr_map0; split; [lia|eauto]). congruence. }
    assert (list_to_set (hn_id <$> hi_id hi) ⊆ dom m) as Hsub.
    { intros w Hw. apply elem_of_list_to_set, list_elem_of_fmap in Hw as ([w' n] & -> & Hw).
      apply list_elem_of_lookup in Hw as [i Hi]. apply elem_of_dom. exists i. apply hr_map0.
      destruct (hr_free0 i _ Hi) as [Hge _]. specialize (Hn i _ Hi). cbn in *. split; [lia|eauto]. }
    apply subseteq_size in Hsub. rewrite size_list_to_set, length_fmap, size_dom in Hsub by done. unfold zlen in hr_cap0. lia.
Qed.

Lemma find_free_spec hi m v idx : hashid_rep hi m -> 0 < hi_cap hi -> 0 <= v ->
  (forall i, i ∈ idx -> 0 <= i /\ i + v <= INT_MAX) ->
  (exists c, find_free idx hi v = Ok (Some c) /\ hi_id hi !! c = Some (HashidNode (-1) None)) \/
  (find_free idx hi v = Ok None /\ forall i, i ∈ idx -> hi_id hi !! Z.to_nat ((i + v) mod hi_cap hi) <> Some (HashidNode (-1) None)).
Proof.
  intros HR Hcap Hv. induction idx as [|i idx IH]; intros Hidx; cbn [find_free].
  - right. split; [done|]. intros i Hi. by apply not_elem_of_nil in Hi.
  - destruct (Hidx i ltac:(left)) as [Hi0 Hi]. unfold assert_. destruct (Z.leb_spec (i + v) INT_MAX); [|lia]. rstep.
    pose proof (Z.mod_pos_bound (i + v) (hi_cap hi) Hcap) as Hm.
    destruct (zget_in_range (hi_id hi) ((i + v) mod hi_cap hi)) as [node Hnode]; [rewrite (hr_cap _ _ HR); done|].
    rewrite Hnode. rstep. apply zget_Ok in Hnode as [_ Hnode].
    destruct (Z.eqb_spec (hn_id node) (-1)) as [E|E].
    + left. eexists. split; [done|]. destruct (hr_free _ _ HR _ _ Hnode) as [_ Hf]. rewrite Hnode. destruct node; cbn in *. subst. by rewrite Hf.
    + destruct IH as [IH|[IH1 IH2]]; [intros; apply Hidx; by right|by left|]. right. split; [done|].
      intros i' [->|Hi']%elem_of_cons; [|by apply IH2]. rewrite Hnode. intros E'. injection E' as ->. done.
Qed.

Lemma inserted_rep hi m v c head : hashid_rep hi m -> 0 <= v -> m !! v = None ->
  hi_id hi !! c = Some (HashidNode (-1) None) -> zget (hi_hash hi) (Z.land v (hi_hashmod hi)) = Ok head ->
  hashid_rep (Hashid (hi_hashmod hi) (hi_cap hi) (hi_count hi + 1) (<[c := HashidNode v head]> (hi_id hi))
    (<[Z.to_nat (Z.land v (hi_hashmod hi)) := Some c]> (hi_hash hi))) (<[v := c]> m).
Proof.
  intros HR Hv Hnone Hc Hh. pose proof (hash_index hi m v HR) as Hidx. pose proof HR as [].
  pose proof (lookup_lt_Some _ _ _ Hc) as Hclt.
  assert (forall w, m !! w <> Some c) as Hfree by (intros w Hw; destruct (map_node _ _ _ _ HR Hw) as [n E]; apply hr_map0 in Hw as [Hw _]; rewrite Hc in E; injection E as <-; lia).
  assert (forall p l, chain (next_in (hi_id hi)) p l -> (forall i, i ∈ l -> exists w, m !! w = Some i) ->
    chain (next_in (<[c := HashidNode v head]> (hi_id hi))) p l) as Hext.
  { intros p l Hl Hw. eapply chain_ext; [|exact Hl]. intros i Hi. unfold next_in.
    rewrite list_lookup_insert_ne; [done|]. intros <-. destruct (Hw c Hi) as [w Hwc]. by apply (Hfree w). }
  constructor; cbn [hi_id hi_cap hi_hashmod hi_hash hi_count]; try done.
  - unfold zlen. by rewrite length_insert.
  - unfold zlen. by rewrite length_insert.
  - rewrite map_size_insert, Hnone. lia.
  - intros w i. rewrite lookup_insert_Some. destruct (decide (c = i)) as [<-|Hne].
    + rewrite list_lookup_insert_eq by done. split.
      * intros [[<- _]|[_ Hw]]; [eauto|by destruct (Hfree w)].
      * intros (Hw & n & E). injection E as <- _. by left.
    + rewrite list_lookup_insert_ne by done. rewrite <- hr_map0. split; [naive_solver|]. intros Hw. right. split; [|done]. intros ->. congruence.
  - intros i node Hn. destruct (decide (c = i)) as [<-|Hne].
    + rewrite list_lookup_insert_eq in Hn by done. injection Hn as <-. cbn. lia.
    + rewrite list_lookup_insert_ne in Hn by done. by apply (hr_free0 i).
  - intros h c1 Hc1. destruct (decide (Z.to_nat (Z.land v (hi_hashmod hi)) = h)) as [<-|Hne].
    + rewrite list_lookup_insert_eq in Hc1 by (unfold zlen in *; lia). injection Hc1 as <-.
      apply zget_Ok in Hh as [_ Hh]. destruct (hr_chain0 _ _ Hh) as (l & Hl & Hi). exists (c :: l). split.
      * split; [done|]. exists head. split; [unfold next_in; by rewrite list_lookup_insert_eq|].
        apply Hext; [done|]. intros i Hil. apply Hi in Hil as (w & Hw & _). eauto.
      * intros i. rewrite elem_of_cons, Hi, Z2Nat.id by lia. setoid_rewrite lookup_insert_Some. split.
        -- intros [->|(w & Hw & Hm)]; [by exists v; auto|]. exists w. split; [right; split; [|done]|done]. intros ->. congruence.
        -- intros (w & [[<- <-]|[_ Hw]] & Hm); [by left|right; eauto].
    + rewrite list_lookup_insert_ne in Hc1 by done. destruct (hr_chain0 _ _ Hc1) as (l & Hl & Hi). exists l. split.
      * apply Hext; [done|]. intros i Hil. apply Hi in Hil as (w & Hw & _). eauto.
      * intros i. rewrite Hi. setoid_rewrite lookup_insert_Some. split.
        -- intros (w & Hw & Hm). exists w. split; [right; split; [|done]|done]. intros ->. congruence.
        -- intros (w & [[<- _]|[_ Hw]] & Hm); [lia|eauto].
Qed.

Lemma hashid_insert_spec hi m v : hashid_rep hi m -> 0 <= v -> v + hi_cap hi <= INT_MAX -> m !! v = None ->
  hashid_full hi = false ->
  exists c hi', hashid_insert hi v = Ok (Z.of_nat c, hi') /\ hashid_rep hi' (<[v := c]> m) /\ hi_cap hi' = hi_cap hi /\
    (forall w, m !! w <> Some c) /\ Z.of_nat c < hi_cap hi.
Proof.
  intros HR Hv Hmax Hnone Hfull. pose proof HR as []. unfold hashid_full in Hfull. apply Z.eqb_neq in Hfull.
  assert (Z.of_nat (size m) < hi_cap hi) as Hlt.
  { assert (size m <= length (hi_id hi))%nat; [|unfold zlen in *; lia].
    assert (NoDup (snd <$> map_to_list m)) as Hnd.
    { apply NoDup_fmap_2_strong; [|apply NoDup_map_to_list]. intros [v1 i1] [v2 i2] H1 H2 E. cbn in E. subst i2.
      apply elem_of_map_to_list in H1, H2. by rewrite (map_inj _ _ _ _ _ HR H1 H2). }
    assert (snd <$> map_to_list m ⊆ seq 0 (length (hi_id hi))) as Hsub.
    { intros i ([v1 i1] & -> & H1)%list_elem_of_fmap. apply elem_of_map_to_list in H1.
      destruct (map_node _ _ _ _ HR H1) as [n E]. apply lookup_lt_Some in E. apply elem_of_seq. cbn. lia. }
    pose proof (submseteq_length _ _ (NoDup_submseteq _ _ Hnd Hsub)) as H. rewrite length_fmap, length_seq, length_map_to_list in H. done. }
  assert (0 < hi_cap hi) as Hcap by lia.
  destruct (find_free_spec hi m v (seqZ 0 (hi_cap hi)) HR Hcap Hv) as [(c & Ef & Hc)|[_ Hno]].
  { intros i Hi%elem_of_seqZ. lia. }
  2:{ exfalso. destruct (free_node_exists hi m HR Hlt) as [j Hj]. pose proof (lookup_lt_Some _ _ _ Hj).
      apply (Hno ((Z.of_nat j - v) mod hi_cap hi)).
      - apply elem_of_seqZ. pose proof (Z.mod_pos_bound (Z.of_nat j - v) _ Hcap). lia.
      - rewrite Zplus_mod_idemp_l, Z.sub_add, Z.mod_small, Nat2Z.id by (unfold zlen in *; lia). done. }
  pose proof (lookup_lt_Some _ _ _ Hc) as Hclt. pose proof (hash_index hi m v HR) as Hidx.
  destruct (zget_in_range _ _ Hidx) as [head Hh]. unfold hashid_insert. rewrite Ef. cbn [mbind result_bind deref].
  rewrite (zget_Some _ _ (HashidNode (-1) None)) by (rewrite ?Nat2Z.id; done || lia). rstep.
  cbn [hn_next]. rewrite bool_decide_true by done. cbn [assert_ mbind result_bind]. rewrite Hh. rstep.
  rewrite (zset_Ok (hi_id hi)) by (unfold zlen; lia). rstep. rewrite zset_Ok by done. rstep. rewrite Nat2Z.id.
  eexists c, _. split; [done|]. split; [exact (inserted_rep hi m v c head HR Hv Hnone Hc Hh)|]. split_and!; [done| |unfold zlen in *; lia].
  intros w Hw. destruct (map_node _ _ _ _ HR Hw) as [n E]. apply hr_map0 in Hw as [Hw _]. rewrite Hc in E. injection E as <-. lia.
Qed.

(** ** Initialisation *)

Lemma hashcap_loop_spec max : max <= 2 ^ 30 -> forall n k, (30 <= k + n)%nat -> (k <= 30)%nat ->
  exists k', hashcap_loop (S n) (2 ^ Z.of_nat k) max = Ok (2 ^ Z.of_nat k') /\ max <= 2 ^ Z.of_nat k'.
Proof.
  intros Hmax. induction n as [|n IH]; intros k Hk Hk30; cbn [hashcap_loop].
  - assert (k = 30)%nat as -> by lia. destruct (Z.ltb_spec (2 ^ Z.of_nat 30) max); [exfalso; change (2 ^ Z.of_nat 30) with (2 ^ 30) in H; lia|].
    exists 30%nat. done.
  - destruct (Z.ltb_spec (2 ^ Z.of_nat k) max) as [Hlt|Hge]; [|by exists k].
    assert (k <> 30)%nat by (intros ->; change (2 ^ Z.of_nat 30) with (2 ^ 30) in Hlt; lia).
    replace (2 ^ Z.of_nat k * 2) with (2 ^ Z.of_nat (S k)) by (rewrite Nat2Z.inj_succ, Z.pow_succ_r; lia).
    apply IH; lia.
Qed.

Lemma hashid_init_spec max : 0 < max <= 2 ^ 30 ->
  exists hi, hashid_init max = Ok hi /\ hashid_rep hi ∅ /\ hi_cap hi = max.
Proof.
  intros Hmax. unfold hashid_init. destruct (hashcap_loop_spec max ltac:(lia) 26 4 ltac:(lia) ltac:(lia)) as (k & E & Hk).
  change (2 ^ Z.of_nat 4) with 16 in E. rewrite E. rstep. eexists. split; [done|]. split; [|done].
  assert (0 < 2 ^ Z.of_nat k) by lia. constructor; cbn [hi_id hi_cap hi_hashmod hi_hash hi_count].
  - unfold zlen. rewrite length_replicate. lia.
  - exists (Z.of_nat k). lia.
  - unfold zlen. rewrite length_replicate. lia.
  - by rewrite map_size_empty.
  - intros v i. rewrite lookup_empty. split; [done|]. intros (Hv & n & E'). apply lookup_replicate in E' as [E' _]. injection E' as -> _. lia.
  - intros i node Hn. apply lookup_replicate in Hn as [-> _]. cbn. split; [lia|done].
  - intros h c Hc. apply lookup_replicate in Hc as [-> _]. exists []. split; [done|]. intros i. setoid_rewrite lookup_empty.
    split; [intros Hi; by apply not_elem_of_nil in Hi|naive_solver].
Qed.

(** ** Property *)

(** C33. The connection table is a finite map from socket ids to distinct
    nodes of the array: [hashid_init] makes the empty map; lookup and remove
    agree with the map on every id; as long as the table is not full, insert
    finds a node that no other id has; and the chains walked end. *)
Theorem hashid_is_a_map (hi : hashid) (m : gmap Z nat) (v : Z) (HR : hashid_rep hi m) (Hv : 0 <= v <= INT_MAX - hi_cap hi) :
  (forall max, 0 < max <= 2 ^ 30 -> exists hi0, hashid_init max = Ok hi0 /\ hashid_rep hi0 ∅) /\
  hashid_lookup hi v = Ok (match m !! v with Some i => Z.of_nat i | None => -1 end) /\
  (match m !! v with
   | None => hashid_remove hi v = Ok (-1, hi)
   | Some i => exists hi', hashid_remove hi v = Ok (Z.of_nat i, hi') /\ hashid_rep hi' (delete v m)
   end) /\
  (m !! v = None -> hashid_full hi = false ->
   exists i hi', hashid_insert hi v = Ok (Z.of_nat i, hi') /\ hashid_rep hi' (<[v := i]> m) /\ (forall w, m !! w <> Some i)).
Proof.
  split_and!.
  - intros max Hmax. destruct (hashid_init_spec max Hmax) as (hi0 & E & H & _). eauto.
  - by apply hashid_lookup_spec.
  - pose proof (hashid_remove_spec hi m v HR) as H. destruct (m !! v); [|done]. destruct H as (hi' & E & H & _). eauto.
  - intros Hn Hf. destruct (hashid_insert_spec hi m v HR ltac:(lia) ltac:(lia) Hn Hf) as (c & hi' & E & H & _ & Hfree & _). eauto.
Qed.

Definition sample_table : hashid := Hashid 15 2 0 (replicate 2 (HashidNode (-1) None)) (replicate 16 None).

Lemma hashid_is_a_map_witness : hashid_lookup sample_table 7 = Ok (-1) /\
  exists i hi', hashid_insert sample_table 7 = Ok (Z.of_nat i, hi') /\ hashid_rep hi' {[7 := i]}.
Proof.
  assert (hashid_rep sample_table ∅) as HR.
  { destruct (hashid_init_spec 2 ltac:(lia)) as (hi & E & H & _). vm_compute in E. injection E as <-. exact H. }
  destruct (hashid_is_a_map sample_table ∅ 7 HR) as (_ & H1 & _ & H2); [split; discriminate|].
  split; [exact H1|]. destruct (H2 eq_refl eq_refl) as (i & hi' & E & H & _). exists i, hi'. split; [exact E|exact H].
Defined.
