(* ===== verification/Gate.v ===== *)
(** * The gate service (service-src/service_gate.c)

    The connections of a gate: the table from socket ids to connections, the
    receive buffer of each, the cutting of the byte stream into messages with
    a 2- or 4-byte length, and what is sent to whom. What the gate asks of the
    socket layer and of other services is the list of actions an operation
    returns; log lines are left out. *)
From S2P Require Import Prelude CString MessageQueue Context Handle Server DataBuffer HashId.

(** ** Data *)

Record connection : Set := Connection {
  cn_id : Z;
  cn_agent : Z;
  cn_client : Z;
  cn_remote_name : list Z;
  cn_buffer : databuffer
}.

Record gate : Set := Gate {
  g_listen_id : Z;
  g_watchdog : Z;
  g_broker : Z;
  g_client_tag : Z;
  g_header_size : Z;
  g_max_connection : Z;
  g_hash : hashid;
  g_conn : list connection;
  g_mp : messagepool
}.

Definition set_conn (conn : list connection) (mp : messagepool) (g : gate) : gate :=
  Gate (g_listen_id g) (g_watchdog g) (g_broker g) (g_client_tag g) (g_header_size g) (g_max_connection g) (g_hash g) conn mp.
Definition set_table (hash : hashid) (g : gate) : gate :=
  Gate (g_listen_id g) (g_watchdog g) (g_broker g) (g_client_tag g) (g_header_size g) (g_max_connection g) hash (g_conn g) (g_mp g).
Definition set_listen (id : Z) (g : gate) : gate :=
  Gate id (g_watchdog g) (g_broker g) (g_client_tag g) (g_header_size g) (g_max_connection g) (g_hash g) (g_conn g) (g_mp g).
Definition set_buffer (db : databuffer) (c : connection) : connection :=
  Connection (cn_id c) (cn_agent c) (cn_client c) (cn_remote_name c) db.

(** What the gate does to the outside: [skynet_send] with source,
    destination, type and data, and the socket commands. *)
Inductive action : Set :=
| Send (source destination type : Z) (data : list Z)
| SocketClose (id : Z)
| SocketStart (id : Z)
| SocketSend (id : Z) (data : list Z).

(** [gate_create] and the part of [gate_init] after the parameters are read. *)
Definition gate_setup (header_size watchdog client_tag max : Z) : result gate :=
  hash ← hashid_init max;
  Ok (Gate (-1) watchdog 0 (if client_tag =? 0 then PTYPE_CLIENT else client_tag) header_size max hash
        (replicate (Z.to_nat max) (Connection (-1) 0 0 [] empty_buffer)) empty_pool).

(** ** Data from a socket *)

(** Reads [size] bytes out of the buffer of connection [k]. *)
Definition read_data (g : gate) (k size : Z) : result (list Z * gate) :=
  c ← zget (g_conn g) k;
  '(temp, db, mp) ← databuffer_read (cn_buffer c) (g_mp g) size;
  conn ← zset (g_conn g) k (set_buffer db c);
  Ok (temp, set_conn conn mp g).

(** With no broker, agent or watchdog the message stays in the buffer. *)
Definition _forward (g : gate) (k size : Z) : result (list action * gate) :=
  c ← zget (g_conn g) k;
  if negb (g_broker g =? 0) then
    '(temp, g') ← read_data g k size;
    Ok ([Send 0 (g_broker g) (Z.lor (g_client_tag g) PTYPE_TAG_DONTCOPY) temp], g')
  else if negb (cn_agent c =? 0) then
    '(temp, g') ← read_data g k size;
    Ok ([Send (cn_client c) (cn_agent c) (Z.lor (g_client_tag g) PTYPE_TAG_DONTCOPY) temp], g')
  else if negb (g_watchdog g =? 0) then
    '(temp, g') ← read_data g k size;
    Ok ([Send 0 (g_watchdog g) (Z.lor PTYPE_TEXT PTYPE_TAG_DONTCOPY) (dec (cn_id c) ++ of_string " data " ++ temp)], g')
  else Ok ([], g).

(** [databuffer_reset(&c->buffer)]. *)
Definition reset_conn (g : gate) (k : Z) : result gate :=
  c ← zget (g_conn g) k;
  conn ← zset (g_conn g) k (set_buffer (databuffer_reset (cn_buffer c)) c);
  Ok (set_conn conn (g_mp g) g).

(** The loop of [dispatch_message]; a round that goes on takes a header off
    the buffer, so the number of bytes is enough fuel. *)
Fixpoint dispatch_loop (fuel : nat) (g : gate) (k id : Z) : result (list action * gate) :=
  match fuel with
  | O => Fault
  | S fuel =>
      c ← zget (g_conn g) k;
      '(size, db, mp) ← databuffer_readheader (cn_buffer c) (g_mp g) (g_header_size g);
      conn ← zset (g_conn g) k (set_buffer db c);
      let g := set_conn conn mp g in
      if size <? 0 then Ok ([], g)
      else if 0 <? size then
        if 0x1000000 <=? size then
          '(db, mp) ← databuffer_clear db mp;
          conn ← zset (g_conn g) k (set_buffer db c);
          Ok ([SocketClose id], set_conn conn mp g)
        else
          '(acts, g) ← _forward g k size;
          g ← reset_conn g k;
          '(more, g) ← dispatch_loop fuel g k id;
          Ok (acts ++ more, g)
      else dispatch_loop fuel g k id
  end.

Definition dispatch_message (g : gate) (k id : Z) (data : list Z) : result (list action * gate) :=
  c ← zget (g_conn g) k;
  '(db, mp) ← databuffer_push (cn_buffer c) (g_mp g) data;
  conn ← zset (g_conn g) k (set_buffer db c);
  dispatch_loop (S (Z.to_nat (db_size db))) (set_conn conn mp g) k id.

(** ** Socket events *)

Inductive socket_message : Set :=
| SocketData (id : Z) (buffer : list Z)
| SocketConnect (id : Z)
| SocketClosed (id : Z)
| SocketAccept (id ud : Z) (name : list Z).

Definition _report (g : gate) (data : list Z) : list action :=
  if g_watchdog g =? 0 then [] else [Send 0 (g_watchdog g) PTYPE_TEXT data].

(** Closed stands for the types CLOSE and ERROR; the types WARNING and
    others only log. *)
Definition dispatch_socket_message (g : gate) (message : socket_message) : result (list action * gate) :=
  match message with
  | SocketData id buffer =>
      k ← hashid_lookup (g_hash g) id;
      if 0 <=? k then dispatch_message g k id buffer else Ok ([SocketClose id], g)
  | SocketConnect id =>
      if id =? g_listen_id g then Ok ([], g)
      else k ← hashid_lookup (g_hash g) id; Ok (if k <? 0 then [SocketClose id] else [], g)
  | SocketClosed id =>
      '(k, hash) ← hashid_remove (g_hash g) id;
      let g := set_table hash g in
      if 0 <=? k then
        c ← zget (g_conn g) k;
        '(_, mp) ← databuffer_clear (cn_buffer c) (g_mp g);
        conn ← zset (g_conn g) k (Connection (-1) 0 0 [] empty_buffer);
        Ok (_report g (dec id ++ of_string " close"), set_conn conn mp g)
      else Ok ([], g)
  | SocketAccept id ud name =>
      _ ← assert_ (g_listen_id g =? id);
      if hashid_full (g_hash g) then Ok ([SocketClose ud], g)
      else
        '(k, hash) ← hashid_insert (g_hash g) ud;
        c ← zget (g_conn g) k;
        let name := take 31 name in
        conn ← zset (g_conn g) k (Connection ud (cn_agent c) (cn_client c) name (cn_buffer c));
        let g := set_conn conn (g_mp g) (set_table hash g) in
        Ok (_report g (dec ud ++ of_string " open " ++ dec ud ++ of_string " " ++ name ++ of_string ":0"), g)
  end.

Definition _forward_agent (g : gate) (fd agentaddr clientaddr : Z) : result gate :=
  k ← hashid_lookup (g_hash g) fd;
  if 0 <=? k then
    c ← zget (g_conn g) k;
    conn ← zset (g_conn g) k (Connection (cn_id c) agentaddr clientaddr (cn_remote_name c) (cn_buffer c));
    Ok (set_conn conn (g_mp g) g)
  else Ok g.

(** The commands of [_ctrl], parsed: kick, forward, broker, start, close. *)
Inductive command : Set :=
| Kick (uid : Z)
| Forward (id agent client : Z)
| Broker (handle : Z)
| Start (uid : Z)
| Close.

Definition _ctrl (g : gate) (cmd : command) : result (list action * gate) :=
  match cmd with
  | Kick uid => k ← hashid_lookup (g_hash g) uid; Ok (if 0 <=? k then [SocketClose uid] else [], g)
  | Forward id agent client => g ← _forward_agent g id agent client; Ok ([], g)
  | Broker handle => Ok ([], Gate (g_listen_id g) (g_watchdog g) handle (g_client_tag g) (g_header_size g) (g_max_connection g) (g_hash g) (g_conn g) (g_mp g))
  | Start uid => k ← hashid_lookup (g_hash g) uid; Ok (if 0 <=? k then [SocketStart uid] else [], g)
  | Close => Ok (if 0 <=? g_listen_id g then ([SocketClose (g_listen_id g)], set_listen (-1) g) else ([], g))
  end.

(** PTYPE_CLIENT in [_cb]: the last four bytes name the socket. *)
Definition client_message (g : gate) (msg : list Z) : result (list action * bool) :=
  if zlen msg <=? 4 then Ok ([], false)
  else
    idbuf ← slice msg (zlen msg - 4) 4;
    let uid := le_val idbuf in
    k ← hashid_lookup (g_hash g) (s32 uid);
    if 0 <=? k then data ← slice msg 0 (zlen msg - 4); Ok ([SocketSend (s32 uid) data], true)
    else Ok ([], false).

(** ** Specification of the framing *)

(** What the gate sends for a payload from the connection [c]. *)
Definition forward_action (g : gate) (c : connection) (payload : list Z) : action :=
  if negb (g_broker g =? 0) then Send 0 (g_broker g) (Z.lor (g_client_tag g) PTYPE_TAG_DONTCOPY) payload
  else if negb (cn_agent c =? 0) then Send (cn_client c) (cn_agent c) (Z.lor (g_client_tag g) PTYPE_TAG_DONTCOPY) payload
  else Send 0 (g_watchdog g) (Z.lor PTYPE_TEXT PTYPE_TAG_DONTCOPY) (dec (cn_id c) ++ of_string " data " ++ payload).

(** Somebody receives the messages of [c]. *)
Definition has_receiver (g : gate) (c : connection) : Prop :=
  g_broker g <> 0 \/ cn_agent c <> 0 \/ g_watchdog g <> 0.

(** The loop on the header and the unread bytes: the payloads, whether the
    connection is closed for its size, and the header and bytes left. *)
Fixpoint parse (fuel : nat) (hs h : Z) (s : list Z) : list (list Z) * bool * (Z * list Z) :=
  match fuel with
  | O => ([], false, (h, s))
  | S fuel =>
      let n := header_result hs h s in
      let '(h, s) := header_step hs h s in
      if n <? 0 then ([], false, (h, s))
      else if 0 <? n then
        if 0x1000000 <=? n then ([], true, (0, []))
        else let '(out, closed, st) := parse fuel hs 0 (drop (Z.to_nat n) s) in
             (take (Z.to_nat n) s :: out, closed, st)
      else parse fuel hs h s
  end.

(** The byte stream of one connection arriving in chunks. *)
Fixpoint receive (g : gate) (k id : Z) (chunks : list (list Z)) : result (list action * gate) :=
  match chunks with
  | [] => Ok ([], g)
  | chunk :: chunks =>
      '(acts, g) ← dispatch_message g k id chunk;
      '(more, g) ← receive g k id chunks;
      Ok (acts ++ more, g)
  end.

(** A message with its length in front. *)
Definition encode (hs : Z) (p : list Z) : list Z := be_bytes (Z.to_nat hs) (zlen p) ++ p.
Definition frame_limit (hs : Z) : Z := if hs =? 2 then 65536 else 0x1000000.
Definition nonempty (p : list Z) : Prop := p <> [].

#[export] Instance nonempty_dec p : Decision (nonempty p).
Proof. unfold nonempty. apply _. Defined.

(** Only the buffer of connection [k] and the free nodes of the pool changed. *)
Definition evolves (X : list nat) (k : Z) (g g' : gate) : Prop :=
  exists c db mp, g_conn g !! Z.to_nat k = Some c /\
    g' = set_conn (<[Z.to_nat k := set_buffer db c]> (g_conn g)) mp g /\ frame X (g_mp g) mp.

(** Connection [k] of [g] is [c] up to its buffer, which has header [h] and unread bytes [s]. *)
Definition conn_rep (X : list nat) (g : gate) (k : Z) (c : connection) (h : Z) (s : list Z) : Prop :=
  0 <= k /\ exists db, g_conn g !! Z.to_nat k = Some (set_buffer db c) /\ db_header db = h /\ unread X db (g_mp g) s.

(** ** The loop implements [parse] *)

Lemma set_conn_set_conn a b c d g : set_conn a b (set_conn c d g) = set_conn a b g.
Proof. done. Qed.

Lemma evolves_trans X k g1 g2 g3 : evolves X k g1 g2 -> evolves X k g2 g3 -> evolves X k g1 g3.
Proof.
  intros (c & db & mp & Hc & -> & Hf) (c2 & db2 & mp2 & Hc2 & -> & Hf2). cbn in Hc2.
  rewrite list_lookup_insert_eq in Hc2 by (by eapply lookup_lt_Some). injection Hc2 as <-.
  exists c, db2, mp2. split_and!; [done| |by transitivity mp]. cbn [g_conn set_conn]. by rewrite set_conn_set_conn, list_insert_insert_eq.
Qed.

(** Storing a new buffer of connection [k]. *)
Lemma store_buffer X g k c h s db mp h' s' : conn_rep X g k c h s -> unread X db mp s' -> db_header db = h' -> frame X (g_mp g) mp ->
  let g' := set_conn (<[Z.to_nat k := set_buffer db c]> (g_conn g)) mp g in
  conn_rep X g' k c h' s' /\ evolves X k g g'.
Proof.
  intros (Hk & db0 & Hc & _ & _) Hu Hh Hf g'. split.
  - split; [done|]. exists db. cbn. rewrite list_lookup_insert_eq by (by eapply lookup_lt_Some). done.
  - by exists (set_buffer db0 c), db, mp.
Qed.

Lemma conn_get X g k c h s : conn_rep X g k c h s ->
  exists db, zget (g_conn g) k = Ok (set_buffer db c) /\ db_header db = h /\ unread X db (g_mp g) s /\
    forall c', zset (g_conn g) k c' = Ok (<[Z.to_nat k := c']> (g_conn g)).
Proof.
  intros (Hk & db & Hc & Hh & Hu). exists db. split; [by apply zget_Some|]. split_and!; [done..|].
  intros c'. apply zset_Ok. apply lookup_lt_Some in Hc. unfold zlen. lia.
Qed.

Lemma set_buffer_set_buffer a b c : set_buffer a (set_buffer b c) = set_buffer a c.
Proof. done. Qed.

Lemma read_data_rep X g k c h s n : conn_rep X g k c h s -> 0 < n <= zlen s ->
  exists g', read_data g k n = Ok (take (Z.to_nat n) s, g') /\ conn_rep X g' k c h (drop (Z.to_nat n) s) /\ evolves X k g g'.
Proof.
  intros HR Hn. destruct (conn_get _ _ _ _ _ _ HR) as (db & Hget & Hh & Hu & Hset). unfold read_data. rewrite Hget. rstep.
  destruct (databuffer_read_rep X db (g_mp g) s n Hu Hn) as (db' & mp' & E & Hu' & Hh' & Hf). cbn [cn_buffer set_buffer].
  rewrite E. rstep. rewrite Hset. rstep. eexists. split; [done|]. rewrite set_buffer_set_buffer.
  apply (store_buffer X g k c h s); congruence || done.
Qed.

(** The receivers of a payload depend on the configuration only. *)
Lemma forward_action_evolves X k g g' c p : evolves X k g g' -> forward_action g' c p = forward_action g c p.
Proof. by intros (c0 & db & mp & _ & -> & _). Qed.

Lemma has_receiver_evolves X k g g' c : evolves X k g g' -> has_receiver g c -> has_receiver g' c.
Proof. by intros (c0 & db & mp & _ & -> & _). Qed.

Lemma header_size_evolves X k g g' : evolves X k g g' -> g_header_size g' = g_header_size g.
Proof. by intros (c0 & db & mp & _ & -> & _). Qed.

Lemma _forward_rep X g k c h s n : conn_rep X g k c h s -> has_receiver g c -> 0 < n <= zlen s ->
  exists g', _forward g k n = Ok ([forward_action g c (take (Z.to_nat n) s)], g') /\
    conn_rep X g' k c h (drop (Z.to_nat n) s) /\ evolves X k g g'.
Proof.
  intros HR Hr Hn. destruct (conn_get _ _ _ _ _ _ HR) as (db & Hget & _). destruct (read_data_rep X g k c h s n HR Hn) as (g' & E & HR' & Hev).
  unfold _forward, forward_action. rewrite Hget. rstep. cbn [cn_agent cn_client cn_id set_buffer].
  destruct (Z.eqb_spec (g_broker g) 0) as [Eb|]; cbn [negb]; [|rewrite E; rstep; exists g'; split; [reflexivity|split; assumption]].
  destruct (Z.eqb_spec (cn_agent c) 0) as [Ea|]; cbn [negb]; [|rewrite E; rstep; exists g'; split; [reflexivity|split; assumption]].
  destruct (Z.eqb_spec (g_watchdog g) 0) as [Ew|]; cbn [negb]; [|rewrite E; rstep; exists g'; split; [reflexivity|split; assumption]].
  exfalso. destruct Hr as [|[|]]; congruence.
Qed.

Lemma reset_conn_rep X g k c h s : conn_rep X g k c h s ->
  exists g', reset_conn g k = Ok g' /\ conn_rep X g' k c 0 s /\ evolves X k g g'.
Proof.
  intros HR. destruct (conn_get _ _ _ _ _ _ HR) as (db & Hget & Hh & Hu & Hset). unfold reset_conn. rewrite Hget. rstep.
  rewrite Hset. rstep. eexists. split; [done|]. apply (store_buffer X g k c h s); done.
Qed.

Lemma header_facts hs h s : hs = 2 \/ hs = 4 -> bytes s ->
  let n := header_result hs h s in let s1 := snd (header_step hs h s) in
  bytes s1 /\ (length s1 <= length s)%nat /\ (n = 0 -> (length s1 < length s)%nat) /\
  (0 <= n -> n = fst (header_step hs h s) /\ n <= zlen s1).
Proof.
  intros Hhs Hb. unfold header_result, header_step.
  destruct (Z.eqb_spec h 0) as [->|], (Z.ltb_spec (zlen s) hs); cbn [andb negb fst snd];
    split_and!; auto with skynet; try (rewrite length_drop); try (unfold zlen in *; case_match; lia); try lia;
    case_match; try lia.
Qed.

Lemma dispatch_loop_rep X k id c hs : hs = 2 \/ hs = 4 -> forall fuel g h s,
  conn_rep X g k c h s -> has_receiver g c -> g_header_size g = hs -> bytes s -> (length s < fuel)%nat ->
  let '(out, closed, (h', s')) := parse fuel hs h s in
  exists g', dispatch_loop fuel g k id = Ok ((forward_action g c <$> out) ++ (if closed then [SocketClose id] else []), g') /\
    conn_rep X g' k c h' s' /\ evolves X k g g'.
Proof.
  intros Hhs. induction fuel as [|fuel IH]; intros g h s HR Hr Hg Hb Hf; [lia|]. cbn [dispatch_loop parse].
  destruct (conn_get _ _ _ _ _ _ HR) as (db & Hget & Hh & Hu & Hset). rewrite Hget. rstep. cbn [cn_buffer set_buffer]. rewrite Hg.
  destruct (readheader_rep X db (g_mp g) s hs Hu Hb Hhs) as (db1 & mp1 & E & Hh1 & Hu1 & Hf1). rewrite Hh in *.
  rewrite E. rstep. rewrite Hset. rstep. rewrite set_buffer_set_buffer. clear E Hget Hset.
  pose proof (header_facts hs h s Hhs Hb) as (Hb1 & Hl1 & Hl0 & Hn1).
  set (n := header_result hs h s) in *. destruct (header_step hs h s) as [h1 s1] eqn:Es. cbn [fst snd] in *.
  set (g1 := set_conn _ mp1 g). destruct (store_buffer X g k c h s db1 mp1 h1 s1 HR Hu1 Hh1 Hf1) as [HR1 Hev1]. fold g1 in HR1, Hev1.
  destruct (Z.ltb_spec n 0) as [Hneg|Hge]; [by exists g1|]. destruct (Hn1 Hge) as [Eh Hns].
  destruct (Z.ltb_spec 0 n) as [Hpos|Hz].
  - destruct (Z.leb_spec 16777216 n) as [Hbig|Hsmall].
    + destruct (conn_get _ _ _ _ _ _ HR1) as (_ & _ & _ & _ & Hset1).
      destruct (databuffer_clear_rep X db1 mp1 s1 Hu1) as (mp2 & E & Hu2 & Hf2). rewrite E. rstep. rewrite Hset1. rstep.
      eexists. split; [done|]. destruct (store_buffer X g1 k c h1 s1 empty_buffer mp2 0 [] HR1 Hu2 eq_refl Hf2) as [HR2 Hev2].
      split; [exact HR2|]. exact (evolves_trans _ _ _ _ _ Hev1 Hev2).
    + pose proof (has_receiver_evolves _ _ _ _ _ Hev1 Hr) as Hr1.
      destruct (_forward_rep X g1 k c h1 s1 n HR1 Hr1 ltac:(lia)) as (g2 & E2 & HR2 & Hev2). rewrite E2. rstep.
      destruct (reset_conn_rep X g2 k c h1 _ HR2) as (g3 & E3 & HR3 & Hev3). rewrite E3. rstep.
      pose proof (evolves_trans _ _ _ _ _ (evolves_trans _ _ _ _ _ Hev1 Hev2) Hev3) as Hev.
      specialize (IH g3 0 (drop (Z.to_nat n) s1) HR3 (has_receiver_evolves _ _ _ _ _ Hev Hr)
        (eq_trans (header_size_evolves _ _ _ _ Hev) Hg) (bytes_drop _ _ Hb1) ltac:(rewrite length_drop; unfold zlen in Hns; lia)).
      destruct (parse fuel hs 0 (drop (Z.to_nat n) s1)) as [[out closed] [h' s']].
      destruct IH as (g4 & E4 & HR4 & Hev4). rewrite E4. rstep. exists g4. split; [|split; [done|by eapply evolves_trans]].
      do 2 f_equal. cbn [fmap list_fmap app]. rewrite (forward_action_evolves _ _ _ _ _ _ Hev1). f_equal. f_equal.
      apply list_fmap_ext. intros _ p _. by apply forward_action_evolves with X k.
  - assert (n = 0) as Hn0 by lia. specialize (IH g1 h1 s1 HR1 (has_receiver_evolves _ _ _ _ _ Hev1 Hr)
      (eq_trans (header_size_evolves _ _ _ _ Hev1) Hg) Hb1 ltac:(specialize (Hl0 Hn0); lia)).
    destruct (parse fuel hs h1 s1) as [[out closed] [h' s']]. destruct IH as (g4 & E4 & HR4 & Hev4). rewrite E4.
    exists g4. split; [reflexivity|split; [done|by eapply evolves_trans]].
Qed.

(** One chunk. *)
Lemma dispatch_message_rep X g k id c hs h s chunk : hs = 2 \/ hs = 4 -> conn_rep X g k c h s -> has_receiver g c ->
  g_header_size g = hs -> bytes s -> bytes chunk -> zlen s + zlen chunk <= INT_MAX ->
  let '(out, closed, (h', s')) := parse (S (length (s ++ chunk))) hs h (s ++ chunk) in
  exists g', dispatch_message g k id chunk = Ok ((forward_action g c <$> out) ++ (if closed then [SocketClose id] else []), g') /\
    conn_rep X g' k c h' s' /\ evolves X k g g'.
Proof.
  intros Hhs HR Hr Hg Hb Hc Hlen. unfold dispatch_message.
  destruct (conn_get _ _ _ _ _ _ HR) as (db & Hget & Hh & Hu & Hset). rewrite Hget. rstep. cbn [cn_buffer set_buffer].
  destruct (databuffer_push_rep X db (g_mp g) s chunk Hu Hlen) as (db1 & mp1 & E & Hu1 & Hh1 & Hf1). rewrite E. rstep.
  rewrite Hset. rstep. rewrite set_buffer_set_buffer, (unread_bytes_size _ _ _ _ Hu1).
  destruct (store_buffer X g k c h s db1 mp1 h (s ++ chunk) HR Hu1 ltac:(congruence) Hf1) as [HR1 Hev1].
  set (g1 := set_conn _ mp1 g) in *. replace (Z.to_nat (zlen (s ++ chunk))) with (length (s ++ chunk)) by (unfold zlen; lia).
  pose proof (dispatch_loop_rep X k id c hs Hhs (S (length (s ++ chunk))) g1 h (s ++ chunk) HR1 (has_receiver_evolves _ _ _ _ _ Hev1 Hr)
    (eq_trans (header_size_evolves _ _ _ _ Hev1) Hg) ltac:(by apply bytes_app) ltac:(lia)) as Hd.
  destruct (parse _ _ _ _) as [[out closed] [h' s']]. destruct Hd as (g2 & E2 & HR2 & Hev2). exists g2.
  split; [exact E2|split; [done|by eapply evolves_trans]].
Qed.

(** ** Framing *)

Definition good_frames (hs : Z) (fs : list (list Z)) : Prop := Forall (fun p => bytes p /\ zlen p < frame_limit hs) fs.

(** The stream the state still has to account for. *)
Definition pending (hs h : Z) (s : list Z) : list Z := if h =? 0 then s else be_bytes (Z.to_nat hs) h ++ s.

Lemma frame_limit_pow hs : hs = 2 \/ hs = 4 -> 0 < frame_limit hs <= 2 ^ (8 * Z.of_nat (Z.to_nat hs)) /\ frame_limit hs <= 0x1000000.
Proof. intros [-> | ->]; (split; [split|]); first [reflexivity|discriminate]. Qed.

Lemma header_of_encode hs n : hs = 2 \/ hs = 4 -> 0 <= n < frame_limit hs -> header_of hs (be_bytes (Z.to_nat hs) n) = n.
Proof.
  intros Hhs Hn. unfold header_of. rewrite be_val_be_bytes. pose proof (frame_limit_pow hs Hhs).
  rewrite Z.mod_small by lia. destruct (hs =? 2); [done|]. apply s32_small. lia.
Qed.

(** The next header of the stream is the length of the next frame. *)
Lemma next_frame hs n l fs : hs = 2 \/ hs = 4 -> 0 <= n < frame_limit hs -> good_frames hs fs ->
  be_bytes (Z.to_nat hs) n ++ l = concat (encode hs <$> fs) ->
  exists p fs', fs = p :: fs' /\ zlen p = n /\ l = p ++ concat (encode hs <$> fs').
Proof.
  intros Hhs Hn Hg E. destruct fs as [|p fs].
  - apply (f_equal length) in E. rewrite length_app, length_be_bytes in E. cbn in E. destruct Hhs; subst hs; cbn in E; lia.
  - apply Forall_cons in Hg as [[_ Hp] Hg]. cbn [fmap list_fmap concat] in E. unfold encode at 1 in E. rewrite <- app_assoc in E.
    apply app_inj_1 in E as [E1 E2]; [|by rewrite !length_be_bytes]. exists p, fs. split; [done|]. split; [|done].
    apply (f_equal (header_of hs)) in E1. rewrite !header_of_encode in E1 by (done || (split; [apply zlen_nonneg|done])). done.
Qed.

(** The outcome [r] of the loop on a stream that is the frames [fs], of which
    the bytes [R] are still to come. *)
Definition parsed (hs : Z) (R : list Z) (fs : list (list Z)) (r : list (list Z) * bool * (Z * list Z)) : Prop :=
  exists out h s fs', r = (out, false, (h, s)) /\ filter nonempty fs = out ++ filter nonempty fs' /\
    good_frames hs fs' /\ 0 <= h < frame_limit hs /\ pending hs h s ++ R = concat (encode hs <$> fs') /\
    (R = [] -> fs' = [] /\ h = 0 /\ s = []) /\ zlen s < 0x1000000.

(** The header [h > 0] is known; the payload may be incomplete. *)
Lemma parse_payload hs fuel h s R fs : hs = 2 \/ hs = 4 ->
  (forall s R fs, (length s < fuel)%nat -> good_frames hs fs -> s ++ R = concat (encode hs <$> fs) -> parsed hs R fs (parse fuel hs 0 s)) ->
  0 < h < frame_limit hs -> good_frames hs fs -> be_bytes (Z.to_nat hs) h ++ s ++ R = concat (encode hs <$> fs) -> (length s <= fuel)%nat ->
  parsed hs R fs (if zlen s <? h then ([], false, (h, s)) else
    let '(out, closed, st) := parse fuel hs 0 (drop (Z.to_nat h) s) in (take (Z.to_nat h) s :: out, closed, st)).
Proof.
  intros Hhs IH Hh Hg E Hf. pose proof (frame_limit_pow hs Hhs) as Hlim.
  destruct (next_frame hs h (s ++ R) fs Hhs ltac:(lia) Hg E) as (p & fs1 & -> & Hp & E1).
  apply Forall_cons in Hg as Hg1. destruct Hg1 as [_ Hg1]. destruct (Z.ltb_spec (zlen s) h) as [Hlt|Hge].
  - exists [], h, s, (p :: fs1). split_and!; try done; try lia.
    + unfold pending. destruct (Z.eqb_spec h 0); [lia|]. by rewrite <- app_assoc.
    + intros ->. exfalso. rewrite app_nil_r in E1. apply (f_equal length) in E1. rewrite length_app in E1. unfold zlen in *. lia.
  - assert (take (Z.to_nat h) s = p /\ drop (Z.to_nat h) s ++ R = concat (encode hs <$> fs1)) as [Et Ed].
    { pose proof (f_equal (take (Z.to_nat h)) E1) as Et. pose proof (f_equal (drop (Z.to_nat h)) E1) as Ed. unfold zlen in *.
      rewrite take_app_le, take_app_length' in Et by lia. rewrite drop_app_le, drop_app_length' in Ed by lia. done. }
    destruct (IH (drop (Z.to_nat h) s) R fs1) as (out & h' & s' & fs' & Ep & Eo & Hrest); [rewrite length_drop; unfold zlen in *; lia|done|done|].
    rewrite Ep, Et. exists (p :: out), h', s', fs'. split; [done|]. split; [|exact Hrest].
    rewrite filter_cons_True by (intros ->; unfold zlen in Hp; cbn in Hp; lia). cbn [app]. by rewrite Eo.
Qed.

(** One round of the loop in these terms. *)
Lemma parse_step fuel hs h s : 0 < h < frame_limit hs -> hs = 2 \/ hs = 4 ->
  parse (S fuel) hs h s = if zlen s <? h then ([], false, (h, s)) else
    let '(out, closed, st) := parse fuel hs 0 (drop (Z.to_nat h) s) in (take (Z.to_nat h) s :: out, closed, st).
Proof.
  intros Hh Hhs. pose proof (frame_limit_pow hs Hhs). cbn [parse]. unfold header_result, header_step.
  destruct (Z.eqb_spec h 0); [lia|]. cbn [andb]. destruct (Z.ltb_spec (zlen s) h); [done|].
  zprune. done.
Qed.

Lemma parse_frames hs : hs = 2 \/ hs = 4 -> forall fuel h s R fs,
  0 <= h < frame_limit hs -> good_frames hs fs -> pending hs h s ++ R = concat (encode hs <$> fs) -> (length s < fuel)%nat ->
  parsed hs R fs (parse fuel hs h s).
Proof.
  intros Hhs. pose proof (frame_limit_pow hs Hhs) as Hlim. induction fuel as [|fuel IH]; intros h s R fs Hh Hg E Hf; [lia|].
  assert (forall s R fs, (length s < fuel)%nat -> good_frames hs fs -> s ++ R = concat (encode hs <$> fs) -> parsed hs R fs (parse fuel hs 0 s)) as IH0.
  { intros s0 R0 fs0 H1 H2 H3. apply IH; [lia|done|exact H3|done]. }
  unfold pending in E. destruct (Z.eqb_spec h 0) as [->|Hne].
  2:{ rewrite parse_step by lia. rewrite <- app_assoc in E. apply parse_payload; done || lia. }
  cbn [parse]. unfold header_result, header_step. cbn [Z.eqb andb].
  destruct (Z.ltb_spec (zlen s) hs) as [Hlt|Hge]; cbn [negb].
  - cbn. exists [], 0, s, fs. split_and!; try done; try lia.
    intros ->. rewrite app_nil_r in E. subst s. destruct fs as [|p fs]; [done|]. exfalso. cbn [fmap list_fmap concat] in Hlt.
    unfold encode at 1 in Hlt. rewrite !zlen_app in Hlt. unfold zlen at 1 in Hlt. rewrite length_be_bytes in Hlt.
    pose proof (zlen_nonneg p). pose proof (zlen_nonneg (concat (encode hs <$> fs))). lia.
  - destruct fs as [|p fs]; [apply (f_equal length) in E; rewrite length_app in E; unfold zlen in *; cbn in E; lia|].
    apply Forall_cons in Hg as Hg1. destruct Hg1 as [[Hpb Hp] Hg1]. pose proof (zlen_nonneg p) as Hp0.
    assert (take (Z.to_nat hs) s = be_bytes (Z.to_nat hs) (zlen p) /\ drop (Z.to_nat hs) s ++ R = p ++ concat (encode hs <$> fs)) as [Et Ed].
    { cbn [fmap list_fmap concat] in E. unfold encode at 1 in E. rewrite <- app_assoc in E.
      pose proof (f_equal (take (Z.to_nat hs)) E) as Et. pose proof (f_equal (drop (Z.to_nat hs)) E) as Ed. unfold zlen in *.
      rewrite take_app_le, take_app_length' in Et by (rewrite ?length_be_bytes; lia).
      rewrite drop_app_le, drop_app_length' in Ed by (rewrite ?length_be_bytes; lia). done. }
    rewrite Et, header_of_encode by (done || lia). set (s1 := drop (Z.to_nat hs) s) in *.
    assert (length s1 < fuel)%nat as Hs1 by (subst s1; rewrite length_drop; unfold zlen in *; lia).
    destruct (Z.eq_dec (zlen p) 0) as [Hz|Hz].
    + rewrite Hz. pose proof (zlen_nonneg s1). destruct (Z.ltb_spec (zlen s1) 0); [lia|]. cbn [Z.ltb Z.compare].
      assert (p = []) as -> by (destruct p; [done|unfold zlen in Hz; cbn in Hz; lia]).
      destruct (IH0 s1 R fs Hs1 Hg1 Ed) as (out & h' & s' & fs' & Ep & Eo & Hrest). exists out, h', s', fs'.
      split; [done|]. split; [|exact Hrest]. rewrite filter_cons_False by (intros Hne; by apply Hne). done.
    + pose proof (parse_payload hs fuel (zlen p) s1 R (p :: fs) Hhs IH0 ltac:(lia) Hg) as Hpay.
      cbn [fmap list_fmap concat] in Hpay. unfold encode at 1 in Hpay. rewrite <- app_assoc, <- Ed in Hpay.
      specialize (Hpay eq_refl ltac:(lia)). destruct (Z.ltb_spec (zlen s1) (zlen p)); [exact Hpay|]. zprune. exact Hpay.
Qed.

Lemma bytes_encode hs fs : good_frames hs fs -> bytes (concat (encode hs <$> fs)).
Proof.
  induction 1 as [|p fs [Hp _] Hg IH]; [constructor|]. cbn [fmap list_fmap concat]. apply bytes_app. split; [|exact IH].
  apply bytes_app. split; [apply bytes_be_bytes|done].
Qed.

Lemma bytes_concat (l : list (list Z)) b : bytes (concat l) -> b ∈ l -> bytes b.
Proof.
  induction l as [|a l IH]; intros Hb Hin; [by apply not_elem_of_nil in Hin|].
  apply bytes_app in Hb as [Ha Hl]. apply elem_of_cons in Hin as [->|Hin]; auto.
Qed.

Lemma bytes_pending hs h s R fs : good_frames hs fs -> pending hs h s ++ R = concat (encode hs <$> fs) -> bytes s.
Proof.
  intros Hg E. pose proof (bytes_encode hs fs Hg) as Hb. rewrite <- E in Hb. apply bytes_app in Hb as [Hb _].
  unfold pending in Hb. destruct (h =? 0); [done|]. by apply bytes_app in Hb as [_ Hb].
Qed.

Lemma evolves_refl X g k c h s : conn_rep X g k c h s -> evolves X k g g.
Proof.
  intros (Hk & db & Hc & _ & Hu). exists (set_buffer db c), db, (g_mp g). split_and!; [done| |done].
  rewrite set_buffer_set_buffer, list_insert_id by done. by destruct g.
Qed.

Lemma receive_frames X k id c hs : hs = 2 \/ hs = 4 -> forall chunks g h s fs,
  conn_rep X g k c h s -> has_receiver g c -> g_header_size g = hs -> 0 <= h < frame_limit hs -> good_frames hs fs ->
  pending hs h s ++ concat chunks = concat (encode hs <$> fs) -> Forall (fun ch => bytes ch /\ zlen ch <= 2 ^ 30) chunks ->
  zlen s < 0x1000000 -> (chunks = [] -> fs = [] /\ h = 0 /\ s = []) ->
  exists g', receive g k id chunks = Ok (forward_action g c <$> filter nonempty fs, g') /\
    conn_rep X g' k c 0 [] /\ evolves X k g g'.
Proof.
  intros Hhs. induction chunks as [|ch chunks IH]; intros g h s fs HR Hr Hg Hh Hgood E Hc Hs Hend.
  { destruct (Hend eq_refl) as (-> & -> & ->). exists g. split; [done|]. split; [done|]. by eapply evolves_refl. }
  apply Forall_cons in Hc as [[Hcb Hcl] Hc]. cbn [receive concat] in *. pose proof (bytes_pending _ _ _ _ _ Hgood E) as Hsb.
  assert (pending hs h (s ++ ch) ++ concat chunks = concat (encode hs <$> fs)) as E1.
  { rewrite <- E. unfold pending. destruct (h =? 0); by rewrite <- !app_assoc. }
  pose proof (parse_frames hs Hhs (S (length (s ++ ch))) h (s ++ ch) (concat chunks) fs Hh Hgood E1 ltac:(lia)) as Hp.
  pose proof (dispatch_message_rep X g k id c hs h s ch Hhs HR Hr Hg Hsb Hcb ltac:(unfold INT_MAX; lia)) as Hd.
  destruct Hp as (out & h1 & s1 & fs1 & Ep & Eo & Hg1 & Hh1 & E2 & Hend1 & Hs1). rewrite Ep in Hd.
  destruct Hd as (g1 & Ed & HR1 & Hev1). rewrite Ed. rstep. rewrite app_nil_r.
  destruct (IH g1 h1 s1 fs1 HR1 (has_receiver_evolves _ _ _ _ _ Hev1 Hr) (eq_trans (header_size_evolves _ _ _ _ Hev1) Hg)
    Hh1 Hg1 E2 Hc Hs1) as (g2 & E3 & HR2 & Hev2).
  { intros ->. by apply Hend1. }
  rewrite E3. rstep. exists g2. split; [|split; [done|by eapply evolves_trans]]. rewrite Eo, fmap_app. do 3 f_equal.
  apply list_fmap_ext. intros ? p _. by apply (forward_action_evolves X k g g1).
Qed.

(** ** Properties *)

(** C32. Framing does not depend on how the network cuts the stream: when the
    bytes of a connection are the encodings of any messages shorter than 64K
    (2-byte header) or 16M (4-byte header), received in chunks of any sizes,
    the gate sends exactly the nonempty messages, whole and in order, to the
    broker, the agent or the watchdog; afterwards the buffer is empty, and
    the nodes [X] of the other connections in the shared pool are untouched. *)
Theorem gate_framing (X : list nat) (g : gate) (k id hs : Z) (c : connection) (frames chunks : list (list Z))
  (Hhs : g_header_size g = hs /\ (hs = 2 \/ hs = 4)) (HR : conn_rep X g k c 0 []) (Hr : has_receiver g c)
  (Hframes : good_frames hs frames) (Hchunks : Forall (fun ch => zlen ch <= 2 ^ 30) chunks)
  (Hstream : concat chunks = concat (encode hs <$> frames)) :
  exists g', receive g k id chunks = Ok (forward_action g c <$> filter nonempty frames, g') /\
    conn_rep X g' k c 0 [] /\ evolves X k g g'.
Proof.
  destruct Hhs as [Hg Hhs]. pose proof (frame_limit_pow hs Hhs).
  apply (receive_frames X k id c hs Hhs chunks g 0 [] frames); try done; try lia.
  - apply Forall_forall. intros ch Hch. rewrite Forall_forall in Hchunks. split; [|by apply Hchunks].
    pose proof (bytes_encode hs frames Hframes) as Hb. rewrite <- Hstream in Hb. by eapply bytes_concat.
  - intros ->. cbn in Hstream. destruct frames as [|p frames]; [done|]. exfalso. apply (f_equal length) in Hstream.
    cbn [fmap list_fmap concat] in Hstream. unfold encode at 1 in Hstream. rewrite !length_app, length_be_bytes in Hstream.
    cbn [length] in Hstream. destruct Hhs as [-> | ->]; cbn in Hstream; lia.
Qed.

(** A gate with a watchdog and one free connection. *)
Definition sample_gate : gate :=
  Gate (-1) 16 0 3 2 1 sample_table [Connection 7 0 0 [] empty_buffer] empty_pool.

Lemma gate_framing_witness : exists g', receive sample_gate 0 7 [[0]; [2; 65]; [66; 0; 0; 0; 1; 67]] =
  Ok ([Send 0 16 PTYPE_TAG_DONTCOPY (of_string "7 data AB"); Send 0 16 PTYPE_TAG_DONTCOPY (of_string "7 data C")], g').
Proof.
  destruct (gate_framing [] sample_gate 0 7 2 (Connection 7 0 0 [] empty_buffer) [[65; 66]; []; [67]] [[0]; [2; 65]; [66; 0; 0; 0; 1; 67]])
    as (g' & E & _).
  - split; [reflexivity|by left].
  - split; [lia|]. exists empty_buffer. split; [reflexivity|]. split; [reflexivity|]. exact empty_pool_rep.
  - right. right. discriminate.
  - repeat (apply Forall_cons; split; [split; [solve_bytes|reflexivity]|]). apply Forall_nil. exact I.
  - repeat (apply Forall_cons; split; [discriminate|]). apply Forall_nil. exact I.
  - reflexivity.
  - exists g'. exact E.
Defined.

(** A gate with one open connection 7 and no broker, agent or watchdog. *)
Definition silent_gate : gate :=
  Gate (-1) 0 0 3 2 1 (Hashid 15 1 1 [HashidNode 7 None] (<[7%nat := Some 0%nat]> (replicate 16 None)))
    [Connection 7 0 0 [] empty_buffer] empty_pool.

(** The first message arrives before the agent 32 is set, the second one after. *)
Definition late_agent (first second : list Z) : result (list action) :=
  r ← receive silent_gate 0 7 [first];
  g ← _forward_agent (snd r) 7 32 7;
  r ← receive g 0 7 [second];
  Ok (fst r).

(** Without a receiver [_forward] leaves the payload in the buffer while
    [databuffer_reset] forgets its header, so the payload [0; 1] of the first
    message is taken for a header: the agent gets the first byte of the second
    frame instead of its payload. *)
Theorem silent_gate_loses_framing :
  late_agent (encode 2 [0; 1]) (encode 2 [65]) = Ok [Send 7 32 (Z.lor 3 PTYPE_TAG_DONTCOPY) [0]].
Proof. vm_compute. reflexivity. Qed.
