(* ===== verification/Seri.v ===== *)
(** * Serialisation of Lua values (lualib-src/lua-seri.c)

    [luaseri_pack] writes its arguments to a chain of 128-byte blocks and
    copies the chain to one buffer; [luaseri_unpack] reads values from a
    buffer until it is exhausted. The blocks, the reading pointer and the
    limits of both are modelled; memory is not limited. Light userdata are
    their 64-bit addresses, floats the 64 bits of a [double], both stored
    little-endian. *)
From S2P Require Import Prelude.

Definition TYPE_NIL : Z := 0.
Definition TYPE_BOOLEAN : Z := 1.
Definition TYPE_NUMBER : Z := 2.
Definition TYPE_NUMBER_ZERO : Z := 0.
Definition TYPE_NUMBER_BYTE : Z := 1.
Definition TYPE_NUMBER_WORD : Z := 2.
Definition TYPE_NUMBER_DWORD : Z := 4.
Definition TYPE_NUMBER_QWORD : Z := 6.
Definition TYPE_NUMBER_REAL : Z := 8.
Definition TYPE_USERDATA : Z := 3.
Definition TYPE_SHORT_STRING : Z := 4.
Definition TYPE_LONG_STRING : Z := 5.
Definition TYPE_TABLE : Z := 6.
Definition MAX_COOKIE : Z := 32.
Definition COMBINE_TYPE (t v : Z) : Z := Z.lor t (Z.shiftl v 3).
Definition BLOCK_SIZE : Z := 128.
Definition MAX_DEPTH : Z := 32.

(** ** Lua values

    A table to be packed is what the C code sees of it: the length
    [lua_rawlen] returns, its entries in the order of [lua_next], and, if its
    metatable has [__pairs], the pairs the iterator returns. [LOther] stands
    for the types that cannot be packed. *)
Inductive lua_value : Set :=
| LNil
| LBoolean (b : bool)
| LInteger (v : Z)
| LNumber (bits : Z)
| LLightuserdata (p : Z)
| LString (s : list Z)
| LTable (len : Z) (entries : list (lua_value * lua_value)) (metapairs : option (list (lua_value * lua_value)))
| LOther.

(** A value built by unpacking; a table is the assignments [lua_rawseti] and
    [lua_rawset] made to a new one. *)
Inductive built : Set :=
| BNil
| BBoolean (b : bool)
| BInteger (v : Z)
| BNumber (bits : Z)
| BLightuserdata (p : Z)
| BString (s : list Z)
| BTable (sets : list (built * built)).

(** ** Writing *)

(** The chain of blocks: the full ones, the buffer of the current one, the
    offset [ptr] in it and the length of all that was written. *)
Record write_block : Set := WB {
  wb_done : list (list Z);
  wb_cur : list Z;
  wb_len : Z;
  wb_ptr : Z
}.

(** What [skynet_malloc] leaves in a new block. *)
Definition blk_alloc : list Z := replicate (Z.to_nat BLOCK_SIZE) 0xCD.

Definition wb_init (b : list Z) : write_block := WB [] b 0 0.

(** [b->len += n] *)
Definition add_len (len n : Z) : result Z := if INT_MAX <? len + n then Fault else Ok (len + n).

(** From [_again], and before it when the current block is full. *)
Fixpoint wb_push_loop (fuel : nat) (b : write_block) (buf : list Z) : result write_block :=
  match fuel with
  | O => Fault
  | S fuel =>
      let b := if wb_ptr b =? BLOCK_SIZE then WB (wb_done b ++ [wb_cur b]) blk_alloc (wb_len b) 0 else b in
      let sz := zlen buf in
      if wb_ptr b <=? BLOCK_SIZE - sz then
        cur ← blit (wb_cur b) (wb_ptr b) buf;
        len ← add_len (wb_len b) sz;
        Ok (WB (wb_done b) cur len (wb_ptr b + sz))
      else
        let copy := BLOCK_SIZE - wb_ptr b in
        part ← slice buf 0 copy;
        cur ← blit (wb_cur b) (wb_ptr b) part;
        len ← add_len (wb_len b) copy;
        wb_push_loop fuel (WB (wb_done b) cur len BLOCK_SIZE) (drop (Z.to_nat copy) buf)
  end.

Definition wb_push (b : write_block) (buf : list Z) : result write_block := wb_push_loop (S (length buf)) b buf.

Definition wb_nil (wb : write_block) : result write_block := wb_push wb [TYPE_NIL].

Definition wb_boolean (wb : write_block) (boolean : bool) : result write_block :=
  wb_push wb [COMBINE_TYPE TYPE_BOOLEAN (if boolean then 1 else 0)].

Definition wb_integer (wb : write_block) (v : Z) : result write_block :=
  let type := TYPE_NUMBER in
  if v =? 0 then wb_push wb [COMBINE_TYPE type TYPE_NUMBER_ZERO]
  else if negb (v =? s32 v) then
    wb ← wb_push wb [COMBINE_TYPE type TYPE_NUMBER_QWORD];
    wb_push wb (le_bytes 8 v)
  else if v <? 0 then
    wb ← wb_push wb [COMBINE_TYPE type TYPE_NUMBER_DWORD];
    wb_push wb (le_bytes 4 v)
  else if v <? 0x100 then
    wb ← wb_push wb [COMBINE_TYPE type TYPE_NUMBER_BYTE];
    wb_push wb (le_bytes 1 v)
  else if v <? 0x10000 then
    wb ← wb_push wb [COMBINE_TYPE type TYPE_NUMBER_WORD];
    wb_push wb (le_bytes 2 v)
  else
    wb ← wb_push wb [COMBINE_TYPE type TYPE_NUMBER_DWORD];
    wb_push wb (le_bytes 4 v).

Definition wb_real (wb : write_block) (v : Z) : result write_block :=
  wb ← wb_push wb [COMBINE_TYPE TYPE_NUMBER TYPE_NUMBER_REAL];
  wb_push wb (le_bytes 8 v).

Definition wb_pointer (wb : write_block) (v : Z) : result write_block :=
  wb ← wb_push wb [TYPE_USERDATA];
  wb_push wb (le_bytes 8 v).

(** [len] is the [int] the size is converted to; shifting a negative one is
    undefined. *)
Definition wb_string (wb : write_block) (str : list Z) (len : Z) : result write_block :=
  if len <? 0 then Fault
  else if len <? MAX_COOKIE then
    wb ← wb_push wb [COMBINE_TYPE TYPE_SHORT_STRING len];
    if 0 <? len then s ← slice str 0 len; wb_push wb s else Ok wb
  else
    wb ← (if len <? 0x10000 then
            wb ← wb_push wb [COMBINE_TYPE TYPE_LONG_STRING 2];
            wb_push wb (le_bytes 2 len)
          else
            wb ← wb_push wb [COMBINE_TYPE TYPE_LONG_STRING 4];
            wb_push wb (le_bytes 4 len));
    s ← slice str 0 len;
    wb_push wb s.

(** [lua_rawgeti], in any list of what belongs to keys; [nil] is [d]. *)
Fixpoint rawgeti {A} (d : A) (entries : list (lua_value * A)) (i : Z) : A :=
  match entries with
  | [] => d
  | (LInteger k, v) :: entries => if k =? i then v else rawgeti d entries i
  | _ :: entries => rawgeti d entries i
  end.

(** The keys [wb_table_hash] skips. *)
Definition in_array (k : lua_value) (array_size : Z) : bool :=
  match k with LInteger x => (0 <? x) && (x <=? array_size) | _ => false end.

(** The table functions, with the packing of one value as [pack1]. *)
Section tables.
Context (pack1 : write_block -> lua_value -> result write_block).

Fixpoint pack_all (wb : write_block) (l : list lua_value) : result write_block :=
  match l with
  | [] => Ok wb
  | v :: l => wb ← pack1 wb v; pack_all wb l
  end.

Definition wb_table_array (wb : write_block) (len : Z) (entries : list (lua_value * lua_value)) : result (write_block * Z) :=
  let array_size := s32 len in
  wb ← (if MAX_COOKIE - 1 <=? array_size then
          wb ← wb_push wb [COMBINE_TYPE TYPE_TABLE (MAX_COOKIE - 1)];
          wb_integer wb array_size
        else if array_size <? 0 then Fault
        else wb_push wb [COMBINE_TYPE TYPE_TABLE array_size]);
  wb ← pack_all wb (rawgeti LNil entries <$> seqZ 1 array_size);
  Ok (wb, array_size).

Fixpoint wb_hash_loop (wb : write_block) (entries : list (lua_value * lua_value)) (array_size : Z) : result write_block :=
  match entries with
  | [] => Ok wb
  | (k, v) :: entries =>
      if in_array k array_size then wb_hash_loop wb entries array_size
      else
        wb ← pack1 wb k;
        wb ← pack1 wb v;
        wb_hash_loop wb entries array_size
  end.

Definition wb_table_hash (wb : write_block) (entries : list (lua_value * lua_value)) (array_size : Z) : result write_block :=
  wb ← wb_hash_loop wb entries array_size;
  wb_nil wb.

(** The iterator is called until it returns [nil] as a key. *)
Fixpoint wb_pairs_loop (wb : write_block) (pairs : list (lua_value * lua_value)) : result write_block :=
  match pairs with
  | [] | (LNil, _) :: _ => Ok wb
  | (k, v) :: pairs =>
      wb ← pack1 wb k;
      wb ← pack1 wb v;
      wb_pairs_loop wb pairs
  end.

Definition wb_table_metapairs (wb : write_block) (pairs : list (lua_value * lua_value)) : result write_block :=
  wb ← wb_push wb [COMBINE_TYPE TYPE_TABLE 0];
  wb ← wb_pairs_loop wb pairs;
  wb_nil wb.

Definition wb_table (wb : write_block) (len : Z) (entries : list (lua_value * lua_value))
    (metapairs : option (list (lua_value * lua_value))) : result write_block :=
  match metapairs with
  | Some pairs => wb_table_metapairs wb pairs
  | None =>
      '(wb, array_size) ← wb_table_array wb len entries;
      wb_table_hash wb entries array_size
  end.
End tables.

Fixpoint pack_one (fuel : nat) (depth : Z) (b : write_block) (v : lua_value) : result write_block :=
  match fuel with
  | O => Fault
  | S fuel =>
      if MAX_DEPTH <? depth then LuaError "serialize can't pack too depth table"
      else
        match v with
        | LNil => wb_nil b
        | LInteger x => wb_integer b x
        | LNumber n => wb_real b n
        | LBoolean x => wb_boolean b x
        | LString str => wb_string b str (s32 (zlen str))
        | LLightuserdata p => wb_pointer b p
        | LTable len entries metapairs => wb_table (pack_one fuel (depth + 1)) b len entries metapairs
        | LOther => LuaError "Unsupport type"
        end
  end.

(** The depth is at most [MAX_DEPTH + 1] when the recursion stops. *)
Definition pack_fuel : nat := Z.to_nat (MAX_DEPTH + 2).

Definition pack_from (b : write_block) (args : list lua_value) : result write_block :=
  pack_all (pack_one pack_fuel 0) b args.

(** [seri]: the chain from its first block, until [len] bytes are copied. *)
Fixpoint seri_loop (blocks : list (list Z)) (len : Z) : result (list Z) :=
  if 0 <? len then
    match blocks with
    | [] => Fault
    | b :: blocks =>
        if BLOCK_SIZE <=? len then
          p ← slice b 0 BLOCK_SIZE;
          rest ← seri_loop blocks (len - BLOCK_SIZE);
          Ok (p ++ rest)
        else slice b 0 len
    end
  else Ok [].

Definition seri (wb : write_block) : result (list Z) := seri_loop (wb_done wb ++ [wb_cur wb]) (wb_len wb).

(** The buffer and its size. *)
Definition luaseri_pack (args : list lua_value) : result (list Z * Z) :=
  wb ← pack_from (wb_init blk_alloc) args;
  buffer ← seri wb;
  Ok (buffer, wb_len wb).

(** ** Reading *)

Record read_block : Set := RB {
  rb_buffer : list Z;
  rb_len : Z;
  rb_ptr : Z
}.

Definition rball_init (buffer : list Z) (size : Z) : read_block := RB buffer size 0.

(** The new state and the address returned, or [NULL]. *)
Definition rb_read (rb : read_block) (sz : Z) : option (read_block * Z) :=
  if rb_len rb <? sz then None
  else Some (RB (rb_buffer rb) (rb_len rb - sz) (rb_ptr rb + sz), rb_ptr rb).

Definition invalid_stream {A} : result A := LuaError "Invalid serialize stream".

(** A field of [sz] bytes copied from the stream. *)
Definition read_field (rb : read_block) (sz : Z) : result (list Z * read_block) :=
  match rb_read rb sz with
  | None => invalid_stream
  | Some (rb', p) => f ← slice (rb_buffer rb) p sz; Ok (f, rb')
  end.

Definition get_integer (rb : read_block) (cookie : Z) : result (Z * read_block) :=
  if cookie =? TYPE_NUMBER_ZERO then Ok (0, rb)
  else if cookie =? TYPE_NUMBER_BYTE then '(f, rb) ← read_field rb 1; Ok (le_val f, rb)
  else if cookie =? TYPE_NUMBER_WORD then '(f, rb) ← read_field rb 2; Ok (le_val f, rb)
  else if cookie =? TYPE_NUMBER_DWORD then '(f, rb) ← read_field rb 4; Ok (s32 (le_val f), rb)
  else if cookie =? TYPE_NUMBER_QWORD then '(f, rb) ← read_field rb 8; Ok (s64 (le_val f), rb)
  else invalid_stream.

Definition get_real (rb : read_block) : result (Z * read_block) :=
  '(f, rb) ← read_field rb 8; Ok (le_val f, rb).

Definition get_pointer (rb : read_block) : result (Z * read_block) :=
  '(f, rb) ← read_field rb 8; Ok (le_val f, rb).

(** [len] is an [int]; a negative one passes the test of [rb_read] and is a
    size Lua refuses. *)
Definition get_buffer (rb : read_block) (len : Z) : result (list Z * read_block) :=
  match rb_read rb len with
  | None => invalid_stream
  | Some (rb', p) =>
      if len <? 0 then LuaError "memory allocation error: block too big"
      else f ← slice (rb_buffer rb) p len; Ok (f, rb')
  end.

(** [lua_rawset] refuses a NaN as a key. *)
Definition is_nan (bits : Z) : bool :=
  (Z.land (Z.shiftr bits 52) 0x7FF =? 0x7FF) && negb (Z.land bits (2 ^ 52 - 1) =? 0).

Definition bad_key (k : built) : bool := match k with BNumber n => is_nan n | _ => false end.

Section unpack_tables.
Context (unpack1 : read_block -> result (built * read_block)).

(** [for (i=1;i<=array_size;i++)]: the assignments, last first. *)
Fixpoint array_loop (fuel : nat) (rb : read_block) (i array_size : Z) (sets : list (built * built)) :
    result (list (built * built) * read_block) :=
  match fuel with
  | O => Fault
  | S fuel =>
      if i <=? array_size then
        '(v, rb) ← unpack1 rb;
        array_loop fuel rb (i + 1) array_size ((BInteger i, v) :: sets)
      else Ok (sets, rb)
  end.

Fixpoint hash_loop (fuel : nat) (rb : read_block) (sets : list (built * built)) :
    result (list (built * built) * read_block) :=
  match fuel with
  | O => Fault
  | S fuel =>
      '(k, rb) ← unpack1 rb;
      match k with
      | BNil => Ok (sets, rb)
      | _ =>
          '(v, rb) ← unpack1 rb;
          if bad_key k then LuaError "table index is NaN"
          else hash_loop fuel rb ((k, v) :: sets)
      end
  end.

Definition unpack_table (fuel : nat) (rb : read_block) (array_size : Z) : result (built * read_block) :=
  '(array_size, rb) ←
    (if array_size =? MAX_COOKIE - 1 then
       '(t, rb) ← read_field rb 1;
       let type := le_val t in
       let cookie := Z.shiftr type 3 in
       if negb (Z.land type 7 =? TYPE_NUMBER) || (cookie =? TYPE_NUMBER_REAL) then invalid_stream
       else '(n, rb) ← get_integer rb cookie; Ok (s32 n, rb)
     else Ok (array_size, rb));
  '(sets, rb) ← array_loop fuel rb 1 array_size [];
  '(sets, rb) ← hash_loop fuel rb sets;
  Ok (BTable (rev sets), rb).

Definition push_value (fuel : nat) (rb : read_block) (type cookie : Z) : result (built * read_block) :=
  if type =? TYPE_NIL then Ok (BNil, rb)
  else if type =? TYPE_BOOLEAN then Ok (BBoolean (negb (cookie =? 0)), rb)
  else if type =? TYPE_NUMBER then
    if cookie =? TYPE_NUMBER_REAL then '(n, rb) ← get_real rb; Ok (BNumber n, rb)
    else '(n, rb) ← get_integer rb cookie; Ok (BInteger n, rb)
  else if type =? TYPE_USERDATA then '(p, rb) ← get_pointer rb; Ok (BLightuserdata p, rb)
  else if type =? TYPE_SHORT_STRING then '(s, rb) ← get_buffer rb cookie; Ok (BString s, rb)
  else if type =? TYPE_LONG_STRING then
    if cookie =? 2 then
      '(n, rb) ← read_field rb 2;
      '(s, rb) ← get_buffer rb (le_val n);
      Ok (BString s, rb)
    else if negb (cookie =? 4) then invalid_stream
    else
      '(n, rb) ← read_field rb 4;
      '(s, rb) ← get_buffer rb (s32 (le_val n));
      Ok (BString s, rb)
  else if type =? TYPE_TABLE then unpack_table fuel rb cookie
  else invalid_stream.
End unpack_tables.

Fixpoint unpack_one (fuel : nat) (rb : read_block) : result (built * read_block) :=
  match fuel with
  | O => Fault
  | S fuel =>
      '(t, rb) ← read_field rb 1;
      let type := le_val t in
      push_value (unpack_one fuel) fuel rb (Z.land type 7) (Z.shiftr type 3)
  end.

(** The loop of [luaseri_unpack]: one fuel for the values it reads, one for
    the nesting and the loops of each. *)
Fixpoint unpack_loop (fuel deep : nat) (rb : read_block) : result (list built) :=
  match fuel with
  | O => Fault
  | S fuel =>
      match rb_read rb 1 with
      | None => Ok []
      | Some (rb', p) =>
          t ← slice (rb_buffer rb) p 1;
          let type := le_val t in
          '(v, rb) ← push_value (unpack_one deep) deep rb' (Z.land type 7) (Z.shiftr type 3);
          vs ← unpack_loop fuel deep rb;
          Ok (v :: vs)
      end
  end.

(** The arguments: none, a string, or a pointer and a size. *)
Inductive stream : Set :=
| NoStream
| StreamString (s : list Z)
| StreamBlock (buffer : option (list Z)) (len : Z).

Definition luaseri_unpack (arg : stream) : result (list built) :=
  match arg with
  | NoStream => Ok []
  | _ =>
      let '(buffer, len) :=
        match arg with
        | StreamString s => (Some s, s32 (zlen s))
        | StreamBlock b n => (b, s32 n)
        | NoStream => (None, 0)
        end in
      if len =? 0 then Ok []
      else
        match buffer with
        | None => LuaError "deserialize null pointer"
        | Some buffer =>
            let rb := rball_init buffer len in
            unpack_loop (S (length buffer)) (S (length buffer)) rb
        end
  end.

Example seri_example : luaseri_pack [LInteger 5; LTable 2 [(LInteger 1, LNumber 7); (LInteger 2, LNil); (LString [97], LInteger (-1))] None]
  = Ok ([10; 5; 22; 66; 7; 0; 0; 0; 0; 0; 0; 0; 0; 12; 97; 34; 255; 255; 255; 255; 0], 21).
Proof. vm_compute. reflexivity. Qed.

Example unseri_example : luaseri_unpack (StreamString [10; 5; 22; 66; 7; 0; 0; 0; 0; 0; 0; 0; 0; 12; 97; 34; 255; 255; 255; 255; 0])
  = Ok [BInteger 5; BTable [(BInteger 1, BNumber 7); (BInteger 2, BNil); (BString [97], BInteger (-1))]].
Proof. vm_compute. reflexivity. Qed.

(** ** The encoding

    What the packing writes, as a function of the value alone. *)

Definition enc_integer (v : Z) : list Z :=
  if v =? 0 then [2]
  else if negb (v =? s32 v) then 50 :: le_bytes 8 v
  else if v <? 0 then 34 :: le_bytes 4 v
  else if v <? 0x100 then 10 :: le_bytes 1 v
  else if v <? 0x10000 then 18 :: le_bytes 2 v
  else 34 :: le_bytes 4 v.

Definition enc_string (s : list Z) : list Z :=
  if zlen s <? 32 then (4 + 8 * zlen s) :: s
  else if zlen s <? 0x10000 then 21 :: le_bytes 2 (zlen s) ++ s
  else 37 :: le_bytes 4 (zlen s) ++ s.

Definition enc_array_size (n : Z) : list Z :=
  if 31 <=? n then 254 :: enc_integer n else [6 + 8 * n].

(** The entries outside the array, and the pairs up to the end. *)
Definition hash_part {A} (n : Z) (entries : list (lua_value * A)) : list (lua_value * A) :=
  List.filter (fun kv => negb (in_array (fst kv) n)) entries.

Fixpoint until_nil {A} (pairs : list (lua_value * A)) : list (lua_value * A) :=
  match pairs with
  | [] | (LNil, _) :: _ => []
  | kv :: pairs => kv :: until_nil pairs
  end.

Fixpoint encode (v : lua_value) : list Z :=
  match v with
  | LNil => [0]
  | LBoolean b => [if b then 9 else 1]
  | LInteger v => enc_integer v
  | LNumber n => 66 :: le_bytes 8 n
  | LLightuserdata p => 3 :: le_bytes 8 p
  | LString s => enc_string s
  | LTable n entries None =>
      let vs := List.map (fun kv => (fst kv, encode (snd kv))) entries in
      let kvs := List.map (fun kv => (fst kv, encode (fst kv) ++ encode (snd kv))) entries in
      enc_array_size n ++ concat (rawgeti [0] vs <$> seqZ 1 n) ++ concat (List.map snd (hash_part n kvs)) ++ [0]
  | LTable _ _ (Some pairs) =>
      let kvs := List.map (fun kv => (fst kv, encode (fst kv) ++ encode (snd kv))) pairs in
      [6] ++ concat (List.map snd (until_nil kvs)) ++ [0]
  | LOther => []
  end.

(** What unpacking it builds. *)
Fixpoint image (v : lua_value) : built :=
  match v with
  | LNil => BNil
  | LBoolean b => BBoolean b
  | LInteger v => BInteger v
  | LNumber n => BNumber n
  | LLightuserdata p => BLightuserdata p
  | LString s => BString s
  | LTable n entries None =>
      let vs := List.map (fun kv => (fst kv, image (snd kv))) entries in
      let kvs := List.map (fun kv => (fst kv, (image (fst kv), image (snd kv)))) entries in
      BTable (((fun i => (BInteger i, rawgeti BNil vs i)) <$> seqZ 1 n) ++ List.map snd (hash_part n kvs))
  | LTable _ _ (Some pairs) =>
      let kvs := List.map (fun kv => (fst kv, (image (fst kv), image (snd kv)))) pairs in
      BTable (List.map snd (until_nil kvs))
  | LOther => BNil
  end.

(** The keys a table can have. *)
Definition key_ok (k : lua_value) : Prop :=
  match k with LNil => False | LNumber n => is_nan n = false | _ => True end.

(** Values with less than [d] levels, made of the types that are packed, with
    the ranges Lua gives them; the length of a table is a border of it. *)
Fixpoint packable (d : nat) (v : lua_value) : Prop :=
  match d with
  | O => False
  | S d =>
      match v with
      | LNil | LBoolean _ => True
      | LInteger v => - 2 ^ 63 <= v < 2 ^ 63
      | LNumber n => is_u64 n
      | LLightuserdata p => is_u64 p
      | LString s => bytes s /\ zlen s <= INT_MAX
      | LTable n entries None =>
          0 <= n <= INT_MAX /\ (0 < n -> rawgeti LNil entries n <> LNil)
          /\ Forall (fun kv => packable d (fst kv) /\ packable d (snd kv) /\ key_ok (fst kv)) entries
      | LTable _ _ (Some pairs) =>
          Forall (fun kv => packable d (fst kv) /\ packable d (snd kv) /\ key_ok (fst kv)) (until_nil pairs)
      | LOther => False
      end
  end.

(** ** Writing appends the encoding *)

(** The chain holds the bytes [data]. *)
Definition holds (wb : write_block) (data : list Z) : Prop :=
  Forall (fun b => length b = 128%nat) (wb_done wb) /\ length (wb_cur wb) = 128%nat
  /\ 0 <= wb_ptr wb <= 128 /\ wb_len wb = zlen data
  /\ concat (wb_done wb) ++ take (Z.to_nat (wb_ptr wb)) (wb_cur wb) = data.

(** The errors that may end a packing. *)
Section writing.
Context (Err : string -> Prop).

(** [m] appends [bs], as long as the length fits an [int], or ends with an error
    of [Err]. *)
Definition writes (m : write_block -> result write_block) (bs : list Z) : Prop :=
  forall wb data, holds wb data -> zlen data + zlen bs <= INT_MAX ->
  (exists wb', m wb = Ok wb' /\ holds wb' (data ++ bs)) \/ (exists e, m wb = LuaError e /\ Err e).

Lemma writes_nil : writes Ok [].
Proof. intros wb data H _. left. exists wb. by rewrite app_nil_r. Qed.

Lemma writes_error e m bs : Err e -> (forall wb, m wb = LuaError e) -> writes m bs.
Proof. intros He Hm wb data _ _. right. by exists e. Qed.

Lemma writes_bind m1 m2 b1 b2 : writes m1 b1 -> writes m2 b2 -> writes (fun wb => wb ← m1 wb; m2 wb) (b1 ++ b2).
Proof.
  intros H1 H2 wb data H Hl. pose proof (zlen_nonneg b1). pose proof (zlen_nonneg b2). rewrite zlen_app in Hl.
  destruct (H1 wb data H) as [(wb1 & E1 & R1)|(e & E1 & He)]; [lia| |right; exists e; by rewrite E1].
  destruct (H2 wb1 _ R1) as [(wb2 & E2 & R2)|(e & E2 & He)]; [rewrite zlen_app; lia|left; exists wb2|right; exists e]; rewrite E1; rstep; [by rewrite app_assoc|done].
Qed.

Lemma holds_len wb data : holds wb data -> zlen data = 128 * zlen (wb_done wb) + wb_ptr wb.
Proof.
  intros (Hd & Hc & Hp & _ & <-). rewrite zlen_app. unfold zlen. rewrite length_take, Hc.
  assert (length (concat (wb_done wb)) = (128 * length (wb_done wb))%nat) as ->; [|lia].
  induction Hd as [|b l Hb Hl IH]; cbn; [done|]. rewrite length_app, IH, Hb. lia.
Qed.

(** Copying what fits into the current block. *)
Lemma holds_blit wb data part : holds wb data -> wb_ptr wb + zlen part <= 128 -> zlen data + zlen part <= INT_MAX ->
  exists cur, blit (wb_cur wb) (wb_ptr wb) part = Ok cur
    /\ add_len (wb_len wb) (zlen part) = Ok (wb_len wb + zlen part)
    /\ holds (WB (wb_done wb) cur (wb_len wb + zlen part) (wb_ptr wb + zlen part)) (data ++ part).
Proof.
  intros (Hd & Hc & Hp & Hlen & Hdata) Hfit Hmax. pose proof (zlen_nonneg part).
  destruct (blit_spec (wb_cur wb) (wb_ptr wb) part) as (cur & E & Hl & Ht & _); [lia|unfold zlen in *; lia|].
  exists cur. split; [done|]. split; [unfold add_len; rewrite Hlen; zcases; [lia|done]|].
  split; [done|]. split; [cbn; lia|]. split; [cbn; lia|]. split; [cbn; rewrite zlen_app; lia|].
  cbn [wb_done wb_cur wb_ptr]. rewrite Z2Nat.inj_add by lia. unfold zlen. rewrite Nat2Z.id, Ht, <- Hdata.
  by rewrite app_assoc.
Qed.

(** A new block. *)
Lemma holds_next wb data : holds wb data -> wb_ptr wb = 128 ->
  holds (WB (wb_done wb ++ [wb_cur wb]) blk_alloc (wb_len wb) 0) data.
Proof.
  intros (Hd & Hc & Hp & Hlen & Hdata) Hptr. split; [apply Forall_app; split; [done|by constructor]|].
  split; [done|]. split; [cbn; lia|]. split; [done|]. cbn. rewrite concat_app. cbn. rewrite !app_nil_r, <- Hdata.
  f_equal. rewrite Hptr, take_ge; [done|]. lia.
Qed.

Lemma wb_push_loop_spec fuel : forall buf wb data, (length buf < fuel)%nat ->
  holds wb data -> zlen data + zlen buf <= INT_MAX ->
  exists wb', wb_push_loop fuel wb buf = Ok wb' /\ holds wb' (data ++ buf).
Proof.
  induction fuel as [|fuel IH]; intros buf wb data Hf H Hmax; [lia|]. cbn [wb_push_loop]. unfold BLOCK_SIZE in *.
  set (b := if wb_ptr wb =? 128 then _ else wb).
  assert (holds b data /\ 0 <= wb_ptr b < 128) as [Hb Hp].
  { unfold b. destruct (Z.eqb_spec (wb_ptr wb) 128); [split; [by apply holds_next|cbn; lia]|].
    split; [done|]. destruct H as (_ & _ & ? & _). lia. }
  clearbody b. clear H wb. zcases.
  - destruct (holds_blit b data buf) as (cur & -> & E & H'); [done|lia|done|]. rstep. rewrite E. rstep. eauto.
  - pose proof (zlen_nonneg data). set (part := take (Z.to_nat (128 - wb_ptr b)) buf).
    assert (zlen part = 128 - wb_ptr b) as Hpl by (unfold part, zlen in *; rewrite length_take; lia).
    rewrite slice_Ok by lia. rstep. rewrite drop_0. fold part.
    destruct (holds_blit b data part) as (cur & -> & E & H'); [done|lia|lia|]. rstep. rewrite Hpl in *.
    rewrite E. rstep. replace (wb_ptr b + (128 - wb_ptr b)) with 128 in H' by lia.
    destruct (IH (drop (Z.to_nat (128 - wb_ptr b)) buf) _ _ ltac:(rewrite length_drop; zlia) H') as (wb' & -> & Hw).
    { rewrite zlen_app, Hpl. unfold zlen in *. rewrite length_drop. lia. }
    exists wb'. split; [done|]. rewrite <- app_assoc in Hw. unfold part in Hw. by rewrite take_drop in Hw.
Qed.

Lemma wb_push_spec buf : writes (fun wb => wb_push wb buf) buf.
Proof. intros wb data H Hl. left. apply wb_push_loop_spec; [lia|done|done]. Qed.

Lemma writes_ext m m' b : (forall wb, m wb = m' wb) -> writes m b -> writes m' b.
Proof. intros Em H wb data R Hl. rewrite <- Em. by apply H. Qed.

Lemma push2_spec a b : writes (fun wb => wb ← wb_push wb a; wb_push wb b) (a ++ b).
Proof. apply (writes_bind (fun wb => wb_push wb a) (fun wb => wb_push wb b)); apply wb_push_spec. Qed.

Lemma wb_integer_spec v : writes (fun wb => wb_integer wb v) (enc_integer v).
Proof.
  unfold wb_integer, enc_integer.
  destruct (v =? 0); [apply wb_push_spec|]. destruct (negb _); [apply (push2_spec [_])|].
  destruct (v <? 0); [apply (push2_spec [_])|]. destruct (v <? 0x100); [apply (push2_spec [_])|].
  destruct (v <? 0x10000); apply (push2_spec [_]).
Qed.

(** A type and a cookie in one byte. *)
Lemma combine_type t v : 0 <= t < 8 -> 0 <= v -> COMBINE_TYPE t v = t + 8 * v.
Proof. intros Ht Hv. unfold COMBINE_TYPE. rewrite lor_shiftl_add by lia. lia. Qed.

Lemma wb_string_spec s : bytes s -> zlen s <= INT_MAX -> writes (fun wb => wb_string wb s (s32 (zlen s))) (enc_string s).
Proof.
  intros Hb Hl. pose proof (zlen_nonneg s). rewrite s32_small by (unfold INT_MAX in *; lia).
  assert (slice s 0 (zlen s) = Ok s) as Es.
  { rewrite slice_Ok by lia. rewrite drop_0, take_ge; [done|zlia]. }
  unfold wb_string, enc_string, MAX_COOKIE. destruct (Z.ltb_spec (zlen s) 0); [lia|].
  destruct (Z.ltb_spec (zlen s) 32).
  - rewrite combine_type by (unfold TYPE_SHORT_STRING; lia). unfold TYPE_SHORT_STRING. destruct (Z.ltb_spec 0 (zlen s)).
    + rewrite Es. rstep. apply (push2_spec [_]).
    + destruct s; [|unfold zlen in *; cbn in *; lia].
      apply (writes_ext (fun wb => wb_push wb [4 + 8 * 0])); [|apply wb_push_spec]. intros wb. by destruct (wb_push wb _).
  - rewrite Es. destruct (zlen s <? 0x10000).
    + apply (writes_bind (fun wb => wb ← wb_push wb [21]; wb_push wb (le_bytes 2 (zlen s))) (fun wb => wb_push wb s) (21 :: _));
        [apply (push2_spec [_])|apply wb_push_spec].
    + apply (writes_bind (fun wb => wb ← wb_push wb [37]; wb_push wb (le_bytes 4 (zlen s))) (fun wb => wb_push wb s) (37 :: _));
        [apply (push2_spec [_])|apply wb_push_spec].
Qed.

(** ** Tables *)

Lemma rawgeti_map {A B} (f : A -> B) d (entries : list (lua_value * A)) i :
  rawgeti (f d) (List.map (fun kv => (fst kv, f (snd kv))) entries) i = f (rawgeti d entries i).
Proof.
  induction entries as [|[k v] entries IH]; cbn; [done|]. destruct k; try apply IH. by destruct (_ =? _).
Qed.

Lemma rawgeti_case {A} d (entries : list (lua_value * A)) i :
  rawgeti d entries i = d \/ exists k, (k, rawgeti d entries i) ∈ entries.
Proof.
  induction entries as [|[k v] entries IH]; cbn; [by left|].
  assert (rawgeti d entries i = d \/ exists k0, (k0, rawgeti d entries i) ∈ (k, v) :: entries) as IH'.
  { destruct IH as [|[k0 H]]; [by left|right]. exists k0. by right. }
  destruct k; try exact IH'. destruct (_ =? _); [|exact IH']. right. eexists. by left.
Qed.

Lemma pack_all_spec pack1 l enc : Forall (fun v => writes (fun wb => pack1 wb v) (enc v)) l ->
  writes (fun wb => pack_all pack1 wb l) (concat (enc <$> l)).
Proof.
  induction 1 as [|v l Hv Hl IH]; [apply writes_nil|]. cbn [pack_all fmap list_fmap concat]. by apply writes_bind.
Qed.

(** A key and its value. *)
Definition writes_pair (pack1 : write_block -> lua_value -> result write_block) (kv : lua_value * lua_value) : Prop :=
  writes (fun wb => pack1 wb (fst kv)) (encode (fst kv)) /\ writes (fun wb => pack1 wb (snd kv)) (encode (snd kv)).

Definition enc_pair (kv : lua_value * lua_value) : lua_value * list Z := (fst kv, encode (fst kv) ++ encode (snd kv)).

Lemma wb_hash_loop_spec pack1 n entries : Forall (writes_pair pack1) entries ->
  writes (fun wb => wb_hash_loop pack1 wb entries n) (concat (List.map snd (hash_part n (List.map enc_pair entries)))).
Proof.
  induction 1 as [|[k v] l [Hk Hv] Hl IH]; [apply writes_nil|]. cbn [wb_hash_loop List.map hash_part List.filter enc_pair fst snd].
  destruct (in_array k n); cbn [negb]; [exact IH|]. cbn [List.map concat]. cbn [enc_pair snd fst]. rewrite <- app_assoc.
  apply (writes_bind (fun wb => pack1 wb k)); [done|]. by apply (writes_bind (fun wb => pack1 wb v)).
Qed.

Lemma nil_dec (k : lua_value) : {k = LNil} + {k <> LNil}.
Proof. destruct k; by (left + right). Qed.

Lemma until_nil_cons {A} k (v : A) l : k <> LNil -> until_nil ((k, v) :: l) = (k, v) :: until_nil l.
Proof. by destruct k. Qed.

Lemma pairs_loop_cons pack1 wb k v l : k <> LNil ->
  wb_pairs_loop pack1 wb ((k, v) :: l) = (wb ← pack1 wb k; wb ← pack1 wb v; wb_pairs_loop pack1 wb l).
Proof. by destruct k. Qed.

Lemma wb_pairs_loop_spec pack1 pairs : Forall (writes_pair pack1) (until_nil pairs) ->
  writes (fun wb => wb_pairs_loop pack1 wb pairs) (concat (List.map snd (until_nil (List.map enc_pair pairs)))).
Proof.
  induction pairs as [|[k v] l IH]; intros H; [apply writes_nil|]. cbn [List.map]. unfold enc_pair at 1. cbn [fst snd].
  destruct (nil_dec k) as [->|Hk]; [apply writes_nil|].
  rewrite until_nil_cons by done. rewrite until_nil_cons in H by done. apply Forall_cons in H as [[Hkw Hvw] H].
  eapply writes_ext; [intros wb; symmetry; by apply pairs_loop_cons|]. cbn [List.map concat snd]. rewrite <- app_assoc.
  apply (writes_bind (fun wb => pack1 wb k)); [done|]. apply (writes_bind (fun wb => pack1 wb v)); auto.
Qed.

Lemma wb_table_spec pack1 n entries metapairs :
  match metapairs with
  | None => 0 <= n <= INT_MAX /\ Forall (writes_pair pack1) entries
            /\ (0 < n -> writes (fun wb => pack1 wb LNil) [0])
  | Some pairs => Forall (writes_pair pack1) (until_nil pairs)
  end ->
  writes (fun wb => wb_table pack1 wb n entries metapairs) (encode (LTable n entries metapairs)).
Proof.
  destruct metapairs as [pairs|].
  - intros H. apply (writes_bind (fun wb => wb_push wb [6])); [apply wb_push_spec|].
    apply (writes_bind (fun wb => wb_pairs_loop pack1 wb pairs)); [by apply wb_pairs_loop_spec|]. apply wb_push_spec.
  - intros (Hn & H & Hnil). unfold wb_table, wb_table_array, wb_table_hash, MAX_COOKIE.
    rewrite s32_small by (unfold INT_MAX in *; lia). cbn [encode].
    set (hdr := fun wb : write_block => if 32 - 1 <=? n then wb ← wb_push wb [COMBINE_TYPE TYPE_TABLE (32 - 1)]; wb_integer wb n
      else if n <? 0 then Fault else wb_push wb [COMBINE_TYPE TYPE_TABLE n]).
    assert (writes hdr (enc_array_size n)) as Hh.
    { unfold hdr, enc_array_size. change (32 - 1) with 31. zprune.
      - apply (writes_bind (fun wb => wb_push wb [254]) _ [254]); [apply wb_push_spec|apply wb_integer_spec].
      - rewrite combine_type by (unfold TYPE_TABLE; lia). apply wb_push_spec. }
    eapply (writes_ext (fun wb => wb ← hdr wb; wb ← pack_all pack1 wb (rawgeti LNil entries <$> seqZ 1 n);
      wb ← wb_hash_loop pack1 wb entries n; wb_nil wb)).
    { intros wb. fold (hdr wb). destruct (hdr wb) as [wb1| |]; try done. rstep. by destruct (pack_all _ _ _). }
    apply (writes_bind hdr); [exact Hh|].
    apply (writes_bind (fun wb => pack_all pack1 wb _)); [|apply (writes_bind (fun wb => wb_hash_loop pack1 wb entries n));
      [by apply wb_hash_loop_spec|apply wb_push_spec]].
    assert (rawgeti [0] (List.map (fun kv => (fst kv, encode (snd kv))) entries) <$> seqZ 1 n
      = encode <$> (rawgeti LNil entries <$> seqZ 1 n)) as ->.
    { rewrite <- list_fmap_compose. apply list_fmap_ext. intros _ i _. apply (rawgeti_map encode LNil). }
    apply pack_all_spec, Forall_fmap, Forall_forall. intros i Hi%elem_of_seqZ. cbn [compose].
    destruct (rawgeti_case LNil entries i) as [->|(k & Hk)]; [apply Hnil; lia|].
    rewrite Forall_forall in H. apply H in Hk. apply Hk.
Qed.

Notation too_deep := "serialize can't pack too depth table"%string.

(** Packing one value appends its encoding, if the tables in it are not too deep
    or the error this gives is allowed. *)
Lemma pack_one_spec d : forall fuel depth v, packable d v -> MAX_DEPTH + 1 - depth < Z.of_nat fuel ->
  0 <= depth <= MAX_DEPTH + 1 -> depth + Z.of_nat d <= MAX_DEPTH + 1 \/ Err too_deep ->
  writes (fun wb => pack_one fuel depth wb v) (encode v).
Proof.
  unfold MAX_DEPTH. induction d as [|d IH]; intros fuel depth v Hv Hf H0 Hd; [done|].
  destruct fuel as [|fuel]; [lia|]. cbn [pack_one]. unfold MAX_DEPTH. destruct (Z.ltb_spec 32 depth); [apply (writes_error too_deep); [destruct Hd; [lia|done]|done]|].
  destruct v as [|b|x|n|p|s|n entries mp|]; cbn [packable] in Hv; try done.
  - apply wb_push_spec.
  - destruct b; apply wb_push_spec.
  - apply wb_integer_spec.
  - apply (push2_spec [_]).
  - apply (push2_spec [_]).
  - destruct Hv. by apply wb_string_spec.
  - apply wb_table_spec.
    assert (forall l, Forall (fun kv => packable d (fst kv) /\ packable d (snd kv) /\ key_ok (fst kv)) l ->
      Forall (writes_pair (pack_one fuel (depth + 1))) l) as Hl.
    { intros l Hl. eapply Forall_impl; [exact Hl|]. intros [k v] (? & ? & _). split; (apply IH; [done|lia|lia|destruct Hd; [left; lia|by right]]). }
    destruct mp as [pairs|]; [by apply Hl|]. destruct Hv as (Hn & Hborder & He).
    split; [done|]. split; [by apply Hl|]. intros Hpos.
    destruct d as [|d]; [|apply (IH fuel (depth + 1) LNil); [done|lia|lia|destruct Hd; [left; lia|by right]]].
    destruct entries as [|[k v] entries]; [by destruct (Hborder Hpos)|]. apply Forall_cons in He as [[[] _] _].
Qed.

End writing.

Notation too_deep := "serialize can't pack too depth table"%string.

(** ** The buffer *)

Lemma seri_loop_spec done cur ptr : Forall (fun b => length b = 128%nat) done -> length cur = 128%nat ->
  0 <= ptr <= 128 ->
  seri_loop (done ++ [cur]) (128 * zlen done + ptr) = Ok (concat done ++ take (Z.to_nat ptr) cur).
Proof.
  intros Hd Hc Hp. induction Hd as [|b l Hb Hl IH]; cbn [app seri_loop concat]; unfold BLOCK_SIZE.
  - change (128 * zlen (@nil (list Z)) + ptr) with ptr. destruct (Z.ltb_spec 0 ptr).
    + destruct (Z.leb_spec 128 ptr).
      * assert (ptr = 128) as -> by lia. rewrite slice_Ok by zlia. cbn [Z.to_nat]. rewrite drop_0. rstep.
        change (0 <? 128 - 128) with false. rstep. by rewrite app_nil_r.
      * rewrite slice_Ok by zlia. by rewrite drop_0.
    + assert (ptr = 0) as -> by lia. done.
  - assert (128 * zlen (b :: l) + ptr = 128 + (128 * zlen l + ptr)) as -> by (unfold zlen; cbn [length]; lia).
    pose proof (zlen_nonneg l). destruct (Z.ltb_spec 0 (128 + (128 * zlen l + ptr))); [|lia].
    destruct (Z.leb_spec 128 (128 + (128 * zlen l + ptr))); [|lia].
    rewrite slice_Ok by zlia. rstep. rewrite drop_0, take_ge by (rewrite Hb; done).
    replace (128 + (128 * zlen l + ptr) - 128) with (128 * zlen l + ptr) by lia. rewrite IH. rstep. by rewrite app_assoc.
Qed.

Lemma seri_holds wb data : holds wb data -> seri wb = Ok data.
Proof.
  intros H. pose proof (holds_len wb data H) as Hl. destruct H as (Hd & Hc & Hp & Hlen & <-).
  unfold seri. rewrite Hlen, Hl. by apply seri_loop_spec.
Qed.

Lemma holds_init : holds (wb_init blk_alloc) [].
Proof. split; [done|]. split; [done|]. split; [cbn; lia|]. done. Qed.

(** The encoding of the arguments. *)
Definition encoding (args : list lua_value) : list Z := concat (encode <$> args).

(** What can be packed: at most [MAX_DEPTH] tables inside one another. *)
Definition args_ok (args : list lua_value) : Prop := Forall (packable 33) args /\ zlen (encoding args) <= INT_MAX.

(** [luaseri_pack] returns the encoding of its arguments and its length:
    the chain of blocks, which are filled across their ends, and the copy of
    the chain refine the concatenation of the values' encodings. *)
Theorem pack_refines_encoding args : args_ok args ->
  luaseri_pack args = Ok (encoding args, zlen (encoding args)).
Proof.
  intros [Ha Hl]. unfold luaseri_pack, pack_from.
  assert (writes (fun _ => False) (fun wb => pack_all (pack_one pack_fuel 0) wb args) (encoding args)) as Hw.
  { apply pack_all_spec. eapply Forall_impl; [exact Ha|]. intros v Hv. apply (pack_one_spec _ 33); [done|by vm_compute|done|by left]. }
  destruct (Hw _ _ holds_init Hl) as [(wb & -> & Hwb)|(e & _ & [])]. rstep. rewrite (seri_holds _ _ Hwb). rstep.
  destruct Hwb as (_ & _ & _ & -> & _). done.
Qed.

(** ** Reading consumes the encoding *)

(** The stream after the bytes [pre], with [post] to come. *)
Definition at_ (pre post : list Z) : read_block := RB (pre ++ post) (zlen post) (zlen pre).

(** [m] reads [bs] and returns [a]. *)
Definition reads {A} (m : read_block -> result (A * read_block)) (bs : list Z) (a : A) : Prop :=
  forall pre post, m (at_ pre (bs ++ post)) = Ok (a, at_ (pre ++ bs) post).

Lemma reads_ret {A} (a : A) : reads (fun rb => Ok (a, rb)) [] a.
Proof. intros pre post. cbn [app]. by rewrite app_nil_r. Qed.

Lemma reads_bind {A B} (m : read_block -> result (A * read_block)) (k : A -> read_block -> result (B * read_block)) b c a r :
  reads m b a -> reads (k a) c r -> reads (fun rb => '(x, rb) ← m rb; k x rb) (b ++ c) r.
Proof.
  intros Hm Hk pre post. rewrite <- app_assoc, Hm. rstep. rewrite Hk. by rewrite app_assoc.
Qed.

Lemma reads_map {A B} (m : read_block -> result (A * read_block)) (f : A -> B) b a :
  reads m b a -> reads (fun rb => '(x, rb) ← m rb; Ok (f x, rb)) b (f a).
Proof. intros H. rewrite <- (app_nil_r b). apply (reads_bind m (fun x rb => Ok (f x, rb)) b [] a); [done|]. apply reads_ret. Qed.

Lemma rb_read_at pre bs post n : n = zlen bs ->
  rb_read (at_ pre (bs ++ post)) n = Some (at_ (pre ++ bs) post, zlen pre).
Proof.
  intros ->. unfold rb_read, at_. cbn [rb_len rb_ptr rb_buffer]. rewrite !zlen_app. pose proof (zlen_nonneg post).
  destruct (Z.ltb_spec (zlen bs + zlen post) (zlen bs)); [lia|]. rewrite <- app_assoc. do 2 f_equal. f_equal; lia.
Qed.

Lemma slice_at_ pre bs post n : n = zlen bs -> slice (rb_buffer (at_ pre (bs ++ post))) (zlen pre) n = Ok bs.
Proof.
  intros ->. cbn [at_ rb_buffer]. rewrite slice_Ok by (rewrite ?zlen_app; zlia). unfold zlen. rewrite !Nat2Z.id.
  by rewrite drop_app_length, take_app_length.
Qed.

Lemma read_field_reads f n : n = zlen f -> reads (fun rb => read_field rb n) f f.
Proof. intros -> pre post. unfold read_field. rewrite rb_read_at, slice_at_ by done. done. Qed.

Lemma get_buffer_reads s n : n = zlen s -> reads (fun rb => get_buffer rb n) s s.
Proof.
  intros -> pre post. unfold get_buffer. rewrite rb_read_at, slice_at_ by done. pose proof (zlen_nonneg s).
  by destruct (Z.ltb_spec (zlen s) 0); [lia|].
Qed.

Lemma length_bytes_z n z k : k = Z.of_nat n -> k = zlen (le_bytes n z).
Proof. intros ->. unfold zlen. by rewrite length_le_bytes. Qed.

(** A little-endian field, as what it is converted to. *)
Lemma get_field_reads {A} (conv : Z -> A) n z k : k = Z.of_nat n ->
  reads (fun rb => '(f, rb) ← read_field rb k; Ok (conv (le_val f), rb)) (le_bytes n z) (conv (z mod 2 ^ (8 * Z.of_nat n))).
Proof.
  intros Hk. rewrite <- le_val_le_bytes.
  apply (reads_map (fun rb => read_field rb k) (fun f => conv (le_val f))), read_field_reads, length_bytes_z, Hk.
Qed.

Lemma swrap_mod w z : 0 < w -> - 2 ^ (w - 1) <= z < 2 ^ (w - 1) -> swrap w (z mod 2 ^ w) = z.
Proof. intros Hw Hz. fold (wrap w z). rewrite swrap_wrap by done. by apply swrap_small. Qed.

(** The cookie of an integer and its bytes. *)
Definition int_cookie (v : Z) : Z :=
  if v =? 0 then 0 else if negb (v =? s32 v) then 6 else if v <? 0 then 4 else if v <? 0x100 then 1
  else if v <? 0x10000 then 2 else 4.

Definition int_bytes (v : Z) : list Z :=
  if v =? 0 then [] else if negb (v =? s32 v) then le_bytes 8 v else if v <? 0 then le_bytes 4 v
  else if v <? 0x100 then le_bytes 1 v else if v <? 0x10000 then le_bytes 2 v else le_bytes 4 v.

Ltac if_cases := repeat match goal with |- context [if ?b then _ else _] => destruct b end.

Lemma enc_integer_split v : enc_integer v = (2 + 8 * int_cookie v) :: int_bytes v.
Proof. unfold enc_integer, int_cookie, int_bytes. by if_cases. Qed.

Lemma int_cookie_range v : 0 <= int_cookie v < 8.
Proof. unfold int_cookie. if_cases; lia. Qed.

Lemma get_integer_reads v : - 2 ^ 63 <= v < 2 ^ 63 -> reads (fun rb => get_integer rb (int_cookie v)) (int_bytes v) v.
Proof.
  intros Hv. unfold int_cookie, int_bytes.
  destruct (Z.eqb_spec v 0) as [->|]; [apply reads_ret|].
  destruct (Z.eqb_spec v (s32 v)) as [E|]; cbn [negb].
  2: { pose proof (get_field_reads s64 8 v 8 eq_refl) as H. unfold s64 in H at 2. by rewrite swrap_mod in H. }
  pose proof (swrap_range 32 v) as Hr. fold (s32 v) in Hr. rewrite <- E in Hr.
  assert (reads (fun rb => get_integer rb 4) (le_bytes 4 v) v) as H4.
  { pose proof (get_field_reads s32 4 v 4 eq_refl) as H. unfold s32 in H at 2. rewrite swrap_mod in H by lia. exact H. }
  destruct (Z.ltb_spec v 0); [exact H4|]. destruct (Z.ltb_spec v 0x100).
  - pose proof (get_field_reads id 1 v 1 eq_refl) as H'. rewrite Z.mod_small in H' by (cbn; lia). exact H'.
  - destruct (Z.ltb_spec v 0x10000); [|exact H4].
    pose proof (get_field_reads id 2 v 2 eq_refl) as H'. rewrite Z.mod_small in H' by (cbn; lia). exact H'.
Qed.

Lemma type_byte ty c : 0 <= ty < 8 -> 0 <= c < 32 ->
  Z.land (le_val [ty + 8 * c]) 7 = ty /\ Z.shiftr (le_val [ty + 8 * c]) 3 = c.
Proof.
  intros Ht Hc. cbn [le_val]. rewrite Z.add_0_r. change 7 with (Z.ones 3).
  rewrite Z.land_ones, Z.shiftr_div_pow2 by lia. split; dlia.
Qed.

(** A value that starts with a type and a cookie. *)
Lemma unpack_one_reads f ty c tl v : 0 <= ty < 8 -> 0 <= c < 32 ->
  reads (fun rb => push_value (unpack_one f) f rb ty c) tl v -> reads (unpack_one (S f)) ((ty + 8 * c) :: tl) v.
Proof.
  intros Ht Hc H. destruct (type_byte ty c Ht Hc) as [E1 E2].
  apply (reads_bind (fun rb => read_field rb 1)
    (fun t rb => push_value (unpack_one f) f rb (Z.land (le_val t) 7) (Z.shiftr (le_val t) 3)) [ty + 8 * c] tl [ty + 8 * c] v);
    [by apply read_field_reads|]. by rewrite E1, E2.
Qed.

(** ** Reading tables *)

Lemma seqZ_S i k : seqZ i (Z.of_nat (S k)) = i :: seqZ (i + 1) (Z.of_nat k).
Proof. rewrite seqZ_cons by lia. f_equal. f_equal; lia. Qed.

Lemma array_loop_reads u (g : Z -> lua_value) n :
  (forall i, 1 <= i <= n -> reads u (encode (g i)) (image (g i))) ->
  forall k i sets fuel, i + Z.of_nat k = n + 1 -> 1 <= i -> (k < fuel)%nat ->
  reads (fun rb => array_loop u fuel rb i n sets) (concat (encode <$> (g <$> seqZ i (Z.of_nat k))))
    (rev ((fun j => (BInteger j, image (g j))) <$> seqZ i (Z.of_nat k)) ++ sets).
Proof.
  intros Hg. induction k as [|k IH]; intros i sets fuel Hi H1 Hf; (destruct fuel as [|fuel]; [lia|]).
  - intros pre post. cbn [array_loop]. destruct (Z.leb_spec i n); [lia|]. apply reads_ret.
  - rewrite seqZ_S. cbn [fmap list_fmap concat rev].
    assert (forall rb, array_loop u (S fuel) rb i n sets =
      '(v, rb) ← u rb; array_loop u fuel rb (i + 1) n ((BInteger i, v) :: sets)) as E.
    { intros rb. cbn [array_loop]. by destruct (Z.leb_spec i n); [|lia]. }
    rewrite <- app_assoc. cbn [app]. intros pre post. rewrite E.
    apply (reads_bind u (fun v rb => array_loop u fuel rb (i + 1) n ((BInteger i, v) :: sets)) _ _ (image (g i))); [apply Hg; lia|].
    apply IH; lia.
Qed.

Lemma hash_loop_reads u (ps : list (lua_value * lua_value)) : reads u [0] BNil ->
  Forall (fun kv => reads u (encode (fst kv)) (image (fst kv)) /\ reads u (encode (snd kv)) (image (snd kv))
                    /\ key_ok (fst kv) /\ image (fst kv) <> BNil) ps ->
  forall sets fuel, (length ps < fuel)%nat ->
  reads (fun rb => hash_loop u fuel rb sets)
    (concat (List.map (fun kv => encode (fst kv) ++ encode (snd kv)) ps) ++ [0])
    (rev (List.map (fun kv => (image (fst kv), image (snd kv))) ps) ++ sets).
Proof.
  intros Hnil. induction 1 as [|[k v] ps (Hk & Hv & Hok & Hne) Hps IH]; intros sets fuel Hf; (destruct fuel as [|fuel]; [cbn in Hf; lia|]).
  - intros pre post. cbn [hash_loop]. rewrite Hnil. done.
  - cbn [List.map concat rev fst snd] in *. rewrite <- !app_assoc. cbn [app].
    assert (bad_key (image k) = false) as Hb by (by destruct k as [| | | | | |? ? []|]).
    intros pre post. cbn [hash_loop]. rewrite <- (app_assoc (encode k)), Hk. rstep.
    transitivity ((('(v, rb) ← u (at_ (pre ++ encode k) ((encode v ++ concat (List.map (fun kv => encode (fst kv) ++ encode (snd kv)) ps) ++ [0]) ++ post));
        hash_loop u fuel rb ((image k, v) :: sets))));
      [destruct (image k); try done; rewrite Hb; done|].
    rewrite (reads_bind u (fun v rb => hash_loop u fuel rb ((image k, v) :: sets)) _ _ _ _ Hv (IH ((image k, image v) :: sets) fuel ltac:(cbn in Hf; lia))).
    by rewrite !app_assoc.
Qed.

(** ** Reading one value *)

Lemma encode_nonempty d v : packable d v -> (1 <= length (encode v))%nat.
Proof.
  destruct d as [|d]; [done|]. destruct v as [| | | | | |n es [ps|]|]; cbn [packable]; intros H; try done;
    cbn [encode]; rewrite ?enc_integer_split; unfold enc_string, enc_array_size; rewrite ?length_app; if_cases; cbn; lia.
Qed.

Lemma hash_part_map {A B} (f : lua_value * A -> B) n es :
  List.map snd (hash_part n (List.map (fun kv => (fst kv, f kv)) es)) = List.map f (hash_part n es).
Proof.
  unfold hash_part. induction es as [|[k v] es IH]; cbn; [done|]. destruct (negb _); cbn; by rewrite IH.
Qed.

Lemma until_nil_map {A B} (f : lua_value * A -> B) ps :
  List.map snd (until_nil (List.map (fun kv => (fst kv, f kv)) ps)) = List.map f (until_nil ps).
Proof.
  induction ps as [|[k v] ps IH]; cbn; [done|]. destruct k; cbn; by rewrite ?IH.
Qed.

Definition pair_bytes (kv : lua_value * lua_value) : list Z := encode (fst kv) ++ encode (snd kv).
Definition pair_image (kv : lua_value * lua_value) : built * built := (image (fst kv), image (snd kv)).

(** The encoding and the image of a table, on its values. *)
Lemma encode_table n es : encode (LTable n es None) =
  enc_array_size n ++ concat (encode <$> (rawgeti LNil es <$> seqZ 1 n)) ++ concat (List.map pair_bytes (hash_part n es)) ++ [0].
Proof.
  cbn [encode]. f_equal. f_equal.
  - rewrite <- list_fmap_compose. f_equal. apply list_fmap_ext. intros _ i _. apply (rawgeti_map encode LNil).
  - by rewrite (hash_part_map pair_bytes).
Qed.

Lemma encode_pairs n es ps : encode (LTable n es (Some ps)) = [6] ++ concat (List.map pair_bytes (until_nil ps)) ++ [0].
Proof. cbn [encode]. by rewrite (until_nil_map pair_bytes). Qed.

Lemma image_table n es : image (LTable n es None) =
  BTable (((fun i => (BInteger i, image (rawgeti LNil es i))) <$> seqZ 1 n) ++ List.map pair_image (hash_part n es)).
Proof.
  cbn [image]. f_equal. f_equal; [|by rewrite (hash_part_map pair_image)].
  apply list_fmap_ext. intros _ i _. f_equal. apply (rawgeti_map image LNil).
Qed.

Lemma image_pairs n es ps : image (LTable n es (Some ps)) = BTable (List.map pair_image (until_nil ps)).
Proof. cbn [image]. by rewrite (until_nil_map pair_image). Qed.

(** The part of [unpack_table] after the size is known. *)
Lemma unpack_parts u fuel n g ps :
  0 <= n -> (Z.to_nat n < fuel)%nat -> (length ps < fuel)%nat ->
  (forall i, 1 <= i <= n -> reads u (encode (g i)) (image (g i))) -> reads u [0] BNil ->
  Forall (fun kv => reads u (encode (fst kv)) (image (fst kv)) /\ reads u (encode (snd kv)) (image (snd kv))
                    /\ key_ok (fst kv) /\ image (fst kv) <> BNil) ps ->
  reads (fun rb => '(sets, rb) ← array_loop u fuel rb 1 n [];
                   '(sets, rb) ← hash_loop u fuel rb sets; Ok (BTable (rev sets), rb))
    (concat (encode <$> (g <$> seqZ 1 n)) ++ concat (List.map pair_bytes ps) ++ [0])
    (BTable (((fun i => (BInteger i, image (g i))) <$> seqZ 1 n) ++ List.map pair_image ps)).
Proof.
  intros Hn Hf Hp Hg Hnil Hps. pose proof (array_loop_reads u g n Hg (Z.to_nat n) 1 [] fuel) as Ha.
  rewrite Z2Nat.id in Ha by done. rewrite app_nil_r in Ha.
  apply (reads_bind (fun rb => array_loop u fuel rb 1 n []) (fun sets rb => '(sets, rb) ← hash_loop u fuel rb sets; Ok (BTable (rev sets), rb))
    _ _ (rev ((fun j => (BInteger j, image (g j))) <$> seqZ 1 n))); [apply Ha; lia|].
  set (a := (fun j => (BInteger j, image (g j))) <$> seqZ 1 n).
  replace (a ++ List.map pair_image ps) with (rev (rev (List.map pair_image ps) ++ rev a))
    by (by rewrite rev_app_distr, !rev_involutive).
  apply (reads_map (fun rb => hash_loop u fuel rb (rev a)) (fun sets => BTable (rev sets))).
  by apply hash_loop_reads.
Qed.

(** The size of the array part. *)
Lemma unpack_table_array u fuel n bs v : 0 <= n <= INT_MAX ->
  reads (fun rb => '(sets, rb) ← array_loop u fuel rb 1 n [];
                   '(sets, rb) ← hash_loop u fuel rb sets; Ok (BTable (rev sets), rb)) bs v ->
  exists c tl, enc_array_size n = (6 + 8 * c) :: tl /\ 0 <= c < 32
    /\ reads (fun rb => unpack_table u fuel rb c) (tl ++ bs) v.
Proof.
  intros Hn H. unfold enc_array_size. destruct (Z.leb_spec 31 n).
  - exists 31, (enc_integer n). split; [done|]. split; [lia|].
    apply (reads_bind (fun rb => '(t, rb) ← read_field rb 1;
       let type := le_val t in
       let cookie := Z.shiftr type 3 in
       if negb (Z.land type 7 =? TYPE_NUMBER) || (cookie =? TYPE_NUMBER_REAL) then invalid_stream
       else '(n, rb) ← get_integer rb cookie; Ok (s32 n, rb))
      (fun n rb => '(sets, rb) ← array_loop u fuel rb 1 n [];
                   '(sets, rb) ← hash_loop u fuel rb sets; Ok (BTable (rev sets), rb)) _ _ n); [|exact H].
    rewrite enc_integer_split. pose proof (int_cookie_range n) as Hc.
    destruct (type_byte 2 (int_cookie n)) as [E1 E2]; [lia|lia|].
    apply (reads_bind (fun rb => read_field rb 1) _ [2 + 8 * int_cookie n] (int_bytes n) [2 + 8 * int_cookie n] n);
      [by apply read_field_reads|].
    cbv zeta. rewrite E1, E2. unfold TYPE_NUMBER, TYPE_NUMBER_REAL. cbn [Z.eqb Pos.eqb negb orb].
    destruct (Z.eqb_spec (int_cookie n) 8); [lia|].
    assert (- 2 ^ 63 <= n < 2 ^ 63) as H63 by (unfold INT_MAX in *; lia).
    pose proof (reads_map (fun rb => get_integer rb (int_cookie n)) s32 _ _ (get_integer_reads n H63)) as Hx.
    rewrite (s32_small n) in Hx by (unfold INT_MAX in *; lia). exact Hx.
  - exists n, []. split; [done|]. split; [lia|]. cbn [app].
    intros pre post. unfold unpack_table, MAX_COOKIE. destruct (Z.eqb_spec n (32 - 1)); [lia|]. rstep. apply H.
Qed.

(** The encoding of [v] is a type, a cookie and what [push_value] reads. *)
Definition pushes (f : nat) (v : lua_value) : Prop :=
  exists ty c tl, encode v = (ty + 8 * c) :: tl /\ 0 <= ty < 8 /\ 0 <= c < 32
    /\ reads (fun rb => push_value (unpack_one f) f rb ty c) tl (image v).

Lemma pushes_reads f v : pushes f v -> reads (unpack_one (S f)) (encode v) (image v).
Proof. intros (ty & c & tl & -> & Ht & Hc & H). by apply unpack_one_reads. Qed.

Lemma reads_nil f : reads (unpack_one (S f)) [0] BNil.
Proof. apply (unpack_one_reads f 0 0 []); [lia|lia|]. apply reads_ret. Qed.

Lemma push_string f s : bytes s -> zlen s <= INT_MAX -> pushes f (LString s).
Proof.
  intros Hb Hl. pose proof (zlen_nonneg s). unfold pushes. cbn [encode]. unfold enc_string, INT_MAX in *.
  destruct (Z.ltb_spec (zlen s) 32); [|destruct (Z.ltb_spec (zlen s) 0x10000)].
  - exists 4, (zlen s), s. repeat split; try lia.
    by apply (reads_map (fun rb => get_buffer rb (zlen s)) BString), get_buffer_reads.
  - exists 5, 2, (le_bytes 2 (zlen s) ++ s). repeat split; try lia.
    apply (reads_bind (fun rb => read_field rb 2) (fun n rb => '(s, rb) ← get_buffer rb (le_val n); Ok (BString s, rb))
      _ _ (le_bytes 2 (zlen s))); [by apply read_field_reads|].
    rewrite le_val_le_bytes, Z.mod_small by (cbn; lia).
    by apply (reads_map (fun rb => get_buffer rb (zlen s)) BString), get_buffer_reads.
  - exists 5, 4, (le_bytes 4 (zlen s) ++ s). repeat split; try lia.
    apply (reads_bind (fun rb => read_field rb 4) (fun n rb => '(s, rb) ← get_buffer rb (s32 (le_val n)); Ok (BString s, rb))
      _ _ (le_bytes 4 (zlen s))); [by apply read_field_reads|].
    rewrite le_val_le_bytes, Z.mod_small, s32_small by (cbn; lia).
    by apply (reads_map (fun rb => get_buffer rb (zlen s)) BString), get_buffer_reads.
Qed.

Lemma concat_length_ge {A} (f : A -> list Z) l : Forall (fun x => (1 <= length (f x))%nat) l ->
  (length l <= length (concat (List.map f l)))%nat.
Proof. induction 1 as [|x l Hx Hl IH]; cbn; [lia|]. rewrite length_app. lia. Qed.

Lemma concat_length_in {A} (f : A -> list Z) l x : x ∈ l -> (length (f x) <= length (concat (List.map f l)))%nat.
Proof. induction 1; cbn; rewrite length_app; lia. Qed.

(** The pairs of a table whose values can be read. *)
Lemma pairs_read d f ps : (forall f v, packable d v -> (length (encode v) <= S f)%nat -> pushes f v) ->
  Forall (fun kv => packable d (fst kv) /\ packable d (snd kv) /\ key_ok (fst kv)) ps ->
  (length (concat (List.map pair_bytes ps)) <= S f)%nat ->
  Forall (fun kv => reads (unpack_one (S f)) (encode (fst kv)) (image (fst kv))
                    /\ reads (unpack_one (S f)) (encode (snd kv)) (image (snd kv))
                    /\ key_ok (fst kv) /\ image (fst kv) <> BNil) ps
  /\ (length ps <= length (concat (List.map pair_bytes ps)))%nat.
Proof.
  intros IH Hps Hlen. split.
  - rewrite Forall_forall in *. intros [k v] Hin. destruct (Hps _ Hin) as (Hk & Hv & Hok). cbn [fst snd] in *.
    pose proof (concat_length_in pair_bytes ps (k, v) Hin) as H. unfold pair_bytes in H at 1. cbn [fst snd] in H. rewrite length_app in H.
    split; [apply pushes_reads, IH; [done|lia]|]. split; [apply pushes_reads, IH; [done|lia]|]. split; [done|].
    destruct d; [done|]. destruct k as [| | | | | |? ? []|]; done.
  - apply concat_length_ge. eapply Forall_impl; [exact Hps|]. intros [k v] (Hk & _). unfold pair_bytes. rewrite length_app.
    pose proof (encode_nonempty d k Hk). cbn [fst]. lia.
Qed.

Lemma hash_part_forall {A} (P : lua_value * A -> Prop) n es : Forall P es -> Forall P (hash_part n es).
Proof. induction 1 as [|x l Hx Hl IH]; cbn; [done|]. destruct (negb _); [by constructor|done]. Qed.

(** Reading a table. *)
Lemma push_table d f n es mp : (forall f v, packable d v -> (length (encode v) <= S f)%nat -> pushes f v) ->
  packable (S d) (LTable n es mp) -> (length (encode (LTable n es mp)) <= S f)%nat -> pushes f (LTable n es mp).
Proof.
  intros IH Hv Hl. cbn [packable] in Hv. unfold pushes. destruct mp as [ps|].
  - rewrite encode_pairs, image_pairs in *. rewrite !length_app in Hl. cbn [length] in Hl. destruct f as [|f]; [lia|].
    destruct (pairs_read d f (until_nil ps) IH Hv) as [Hr Hps]; [lia|].
    exists 6, 0, (concat (List.map pair_bytes (until_nil ps)) ++ [0]). repeat split; try lia.
    apply (unpack_parts (unpack_one (S f)) (S f) 0 (fun _ => LNil) (until_nil ps)); try lia; [|done]. apply reads_nil.
  - destruct Hv as (Hn & Hborder & He). rewrite encode_table, image_table in *.
    set (g := rawgeti LNil es) in *. set (arr := concat (encode <$> (g <$> seqZ 1 n))) in *.
    set (ps := hash_part n es) in *. rewrite !length_app in Hl. cbn [length] in Hl.
    assert (1 <= length (enc_array_size n))%nat as Hh by (unfold enc_array_size; if_cases; cbn; lia).
    destruct f as [|f]; [lia|].
    destruct (pairs_read d f ps IH) as [Hr Hps]; [by apply hash_part_forall|lia|].
    assert (forall i, 1 <= i <= n -> g i = LNil \/ packable d (g i)) as Hg.
    { intros i Hi. unfold g. destruct (rawgeti_case LNil es i) as [->|(k & Hk)]; [by left|right].
      rewrite Forall_forall in He. apply He in Hk. apply Hk. }
    assert (Z.to_nat n <= length arr)%nat as Hcount.
    { unfold arr. rewrite <- (length_seqZ 1 n), <- (length_fmap g (seqZ 1 n)). apply concat_length_ge, Forall_fmap, Forall_forall.
      intros i Hi%elem_of_seqZ. cbn [compose]. destruct (Hg i) as [->|Hp]; [lia|cbn; lia|by eapply encode_nonempty]. }
    assert (forall i, 1 <= i <= n -> reads (unpack_one (S f)) (encode (g i)) (image (g i))) as Hgr.
    { intros i Hi. destruct (Hg i Hi) as [->|Hp]; [apply reads_nil|]. apply pushes_reads, IH; [done|].
      assert (g i ∈ g <$> seqZ 1 n) as Hin by (apply list_elem_of_fmap_2, elem_of_seqZ; lia).
      assert (length (encode (g i)) <= length arr)%nat as Hle by exact (concat_length_in encode _ _ Hin). lia. }
    destruct (unpack_table_array (unpack_one (S f)) (S f) n _ _ Hn
      (unpack_parts (unpack_one (S f)) (S f) n g ps (proj1 Hn) ltac:(lia) ltac:(lia) Hgr (reads_nil f) Hr))
      as (c & tl & E & Hc & H).
    exists 6, c, (tl ++ arr ++ concat (List.map pair_bytes ps) ++ [0]). rewrite E. repeat split; try lia. exact H.
Qed.

Lemma push_spec d : forall f v, packable d v -> (length (encode v) <= S f)%nat -> pushes f v.
Proof.
  induction d as [|d IH]; intros f v Hv Hl; [done|].
  destruct v as [|b|x|n|p|s|n es mp|]; cbn [packable] in Hv; try done.
  - exists 0, 0, []. repeat split; try lia. apply reads_ret.
  - exists 1, (if b then 1 else 0), []. destruct b; (repeat split; try lia; apply reads_ret).
  - pose proof (int_cookie_range x). exists 2, (int_cookie x), (int_bytes x). rewrite <- enc_integer_split. repeat split; try lia.
    eapply (fun H => H). intros pre post. unfold push_value. change (2 =? TYPE_NIL) with false. change (2 =? TYPE_BOOLEAN) with false.
    change (2 =? TYPE_NUMBER) with true. unfold TYPE_NUMBER_REAL. destruct (Z.eqb_spec (int_cookie x) 8); [lia|].
    cbn iota. by apply (reads_map (fun rb => get_integer rb (int_cookie x)) BInteger), get_integer_reads.
  - exists 2, 8, (le_bytes 8 n). repeat split; try lia.
    pose proof (get_field_reads id 8 n 8 eq_refl) as H. rewrite Z.mod_small in H by (unfold is_u64 in Hv; cbn; lia).
    by apply (reads_map get_real BNumber).
  - exists 3, 0, (le_bytes 8 p). repeat split; try lia.
    pose proof (get_field_reads id 8 p 8 eq_refl) as H. rewrite Z.mod_small in H by (unfold is_u64 in Hv; cbn; lia).
    by apply (reads_map get_pointer BLightuserdata).
  - destruct Hv. by apply push_string.
  - by apply (push_table d).
Qed.

(** ** The round trip *)

Lemma unpack_loop_spec deep args : Forall (pushes deep) args -> forall fuel pre, (length args < fuel)%nat ->
  unpack_loop fuel deep (at_ pre (encoding args)) = Ok (image <$> args).
Proof.
  induction 1 as [|v args (ty & c & tl & E & Ht & Hc & Hv) Ha IH]; intros fuel pre Hf;
    (destruct fuel as [|fuel]; [lia|]); cbn [unpack_loop].
  - done.
  - unfold encoding. cbn [fmap list_fmap concat]. rewrite E. fold (encoding args).
    change (((ty + 8 * c) :: tl) ++ encoding args) with ([ty + 8 * c] ++ (tl ++ encoding args)).
    rewrite rb_read_at, slice_at_ by done. rstep. cbv zeta. destruct (type_byte ty c Ht Hc) as [-> ->].
    rewrite Hv. rstep. rewrite IH by (cbn in Hf; lia). done.
Qed.

(** C31. What [luaseri_pack] returns for values of the packed types, nested at
    most 32 deep, [luaseri_unpack] reads back, as a string or as a block: the
    same scalars, and for a table the assignments of its array part in order
    and of its other entries (or of the pairs [__pairs] returned). *)
Theorem seri_roundtrip args : args_ok args ->
  exists buffer len,
    luaseri_pack args = Ok (buffer, len)
    /\ luaseri_unpack (StreamBlock (Some buffer) len) = Ok (image <$> args)
    /\ luaseri_unpack (StreamString buffer) = Ok (image <$> args).
Proof.
  intros H. exists (encoding args), (zlen (encoding args)). split; [by apply pack_refines_encoding|].
  destruct H as [Ha Hl]. set (bs := encoding args) in *. pose proof (zlen_nonneg bs).
  assert (Forall (fun v => (1 <= length (encode v))%nat) args) as H1.
  { eapply Forall_impl; [exact Ha|]. intros v. apply encode_nonempty. }
  assert (Forall (pushes (S (length bs))) args) as Hp.
  { rewrite Forall_forall in *. intros v Hv. apply (push_spec 33); [by apply Ha|].
    assert (length (encode v) <= length bs)%nat by exact (concat_length_in encode _ _ Hv). lia. }
  assert (length args <= length bs)%nat as Hn by exact (concat_length_ge encode args H1).
  assert (s32 (zlen bs) = zlen bs) as Es by (apply s32_small; unfold INT_MAX in *; lia).
  pose proof (unpack_loop_spec (S (length bs)) args Hp (S (length bs)) [] ltac:(lia)) as Hu.
  change (at_ [] (encoding args)) with (rball_init bs (zlen bs)) in Hu.
  assert (zlen bs = 0 -> args = []) as Hempty by (unfold zlen; intros E; apply length_zero_iff_nil; lia).
  unfold luaseri_unpack. rewrite Es, Hu. destruct (Z.eqb_spec (zlen bs) 0) as [E|]; [|done].
  by rewrite (Hempty E).
Qed.

Definition sample_args : list lua_value :=
  [LInteger (-5); LTable 1 [(LInteger 1, LString [104; 105]); (LString [97], LNil)] None].

(** Packable values, one constructor at a time. *)
Lemma packable_integer d v : - 2 ^ 63 <= v < 2 ^ 63 -> packable (S d) (LInteger v).
Proof. done. Qed.

Lemma packable_string d s : bytes s -> zlen s <= INT_MAX -> packable (S d) (LString s).
Proof. done. Qed.

Lemma packable_table d n es : 0 <= n <= INT_MAX -> (0 < n -> rawgeti LNil es n <> LNil) ->
  Forall (fun kv => packable d (fst kv) /\ packable d (snd kv) /\ key_ok (fst kv)) es -> packable (S d) (LTable n es None).
Proof. done. Qed.

Lemma sample_args_ok : args_ok sample_args.
Proof.
  split; [|discriminate].
  apply Forall_cons; split; [apply packable_integer; lia|]. apply Forall_cons; split; [|by apply Forall_nil].
  apply packable_table; [unfold INT_MAX; lia|discriminate|].
  apply Forall_cons; split; [|apply Forall_cons; split; [|by apply Forall_nil]]; cbn [fst snd].
  - split; [apply packable_integer; lia|]. split; [apply packable_string; [solve_bytes|discriminate]|done].
  - split; [apply packable_string; [solve_bytes|discriminate]|done].
Qed.

Lemma seri_roundtrip_witness : args_ok sample_args /\ exists buffer len,
  luaseri_pack sample_args = Ok (buffer, len)
  /\ luaseri_unpack (StreamBlock (Some buffer) len) = Ok (image <$> sample_args)
  /\ luaseri_unpack (StreamString buffer) = Ok (image <$> sample_args).
Proof. split; [exact sample_args_ok|]. apply (seri_roundtrip sample_args). exact sample_args_ok. Defined.

Lemma pack_refines_encoding_witness : args_ok sample_args /\
  luaseri_pack sample_args = Ok (encoding sample_args, zlen (encoding sample_args)).
Proof. split; [exact sample_args_ok|]. apply (pack_refines_encoding sample_args). exact sample_args_ok. Defined.

(** ** Tables that are too deep *)

(** The values [wb_table] packs for a table: those of the array part, and keys
    and values of the other entries, or of the pairs of the iterator. *)
Definition visited (len : Z) (entries : list (lua_value * lua_value)) (metapairs : option (list (lua_value * lua_value))) (v : lua_value) : Prop :=
  match metapairs with
  | None => (exists i, 0 < i <= s32 len /\ v = rawgeti LNil entries i) \/ exists kv, kv ∈ hash_part (s32 len) entries /\ (v = fst kv \/ v = snd kv)
  | Some pairs => exists kv, kv ∈ until_nil pairs /\ (v = fst kv \/ v = snd kv)
  end.

(** A value inside [n] tables, each in one of the parts of the one around it. *)
Fixpoint nested (n : nat) (v : lua_value) : Prop :=
  match n with
  | O => True
  | S n => match v with LTable len entries metapairs => exists v', visited len entries metapairs v' /\ nested n v' | _ => False end
  end.

(** A computation that does not return. *)
Definition fails {A} (r : result A) : Prop := forall a, r <> Ok a.

Lemma fails_error {A} e : fails (LuaError e : result A).
Proof. done. Qed.

Lemma fails_bind {A B} (r : result A) (f : A -> result B) : (forall a, r = Ok a -> fails (f a)) -> fails (r ≫= f).
Proof. intros H b. destruct r as [a| |]; rstep; [by apply H|done|done]. Qed.

Section failing.
Context (pack1 : write_block -> lua_value -> result write_block) (v : lua_value) (Hv : forall wb, fails (pack1 wb v)).

Lemma pack_all_fails l wb : v ∈ l -> fails (pack_all pack1 wb l).
Proof using Hv.
  intros Hl. revert wb. induction l as [|x l IH]; intros wb; [by apply not_elem_of_nil in Hl|]. cbn [pack_all]. apply fails_bind. intros wb' E.
  apply elem_of_cons in Hl as [<-|Hl]; [by destruct (Hv wb wb')|by apply IH].
Qed.

Lemma two_fail k x wb (f : write_block -> result write_block) : v = k \/ v = x \/ (forall wb, fails (f wb)) -> fails (wb ← pack1 wb k; wb ← pack1 wb x; f wb).
Proof using Hv.
  intros H. apply fails_bind. intros wb1 E1. apply fails_bind. intros wb2 E2. destruct H as [->|[->|H]]; [by destruct (Hv wb wb1)|by destruct (Hv wb1 wb2)|apply H].
Qed.

Lemma hash_loop_fails n entries wb kv : kv ∈ hash_part n entries -> v = fst kv \/ v = snd kv -> fails (wb_hash_loop pack1 wb entries n).
Proof using Hv.
  intros Hin Hkv. revert wb. induction entries as [|[k x] entries IH]; intros wb; cbn in Hin; [by apply not_elem_of_nil in Hin|]. cbn [wb_hash_loop].
  destruct (in_array k n); cbn in Hin; [by apply IH|]. apply two_fail. apply elem_of_cons in Hin as [->|Hin]; [cbn in Hkv; tauto|right; right; by apply IH].
Qed.

Lemma pairs_loop_fails pairs wb kv : kv ∈ until_nil pairs -> v = fst kv \/ v = snd kv -> fails (wb_pairs_loop pack1 wb pairs).
Proof using Hv.
  intros Hin Hkv. revert wb. induction pairs as [|[k x] pairs IH]; intros wb; [by apply not_elem_of_nil in Hin|].
  destruct (nil_dec k) as [->|Hk]; [by apply not_elem_of_nil in Hin|]. rewrite until_nil_cons in Hin by done. rewrite pairs_loop_cons by done.
  apply two_fail. apply elem_of_cons in Hin as [->|Hin]; [cbn in Hkv; tauto|right; right; by apply IH].
Qed.

Lemma wb_table_fails len entries metapairs wb : visited len entries metapairs v -> fails (wb_table pack1 wb len entries metapairs).
Proof using Hv.
  destruct metapairs as [pairs|]; cbn [visited wb_table].
  - intros (kv & Hin & Hkv). unfold wb_table_metapairs. apply fails_bind. intros wb1 _. apply fails_bind. intros wb2 E2. by destruct (pairs_loop_fails pairs wb1 kv Hin Hkv wb2).
  - intros H. apply fails_bind. intros [wb1 size] E1. unfold wb_table_array in E1. cbn zeta in E1.
    destruct (if MAX_COOKIE - 1 <=? s32 len then _ else _) as [wb0| |]; [|done|done]. cbn [mbind result_bind] in E1.
    destruct (pack_all pack1 wb0 _) as [wb2| |] eqn:E2; [|done|done]. cbn [mbind result_bind] in E1. injection E1 as -> <-. destruct H as [(i & Hi & Ev)|(kv & Hin & Hkv)].
    + exfalso. apply (pack_all_fails (rawgeti LNil entries <$> seqZ 1 (s32 len)) wb0) in E2; [done|]. rewrite Ev. apply list_elem_of_fmap_2, elem_of_seqZ. lia.
    + unfold wb_table_hash. apply fails_bind. intros wb3 E3. by destruct (hash_loop_fails (s32 len) entries wb1 kv Hin Hkv wb3).
Qed.

End failing.

Lemma pack_nested n : forall fuel depth v wb, nested n v -> depth + Z.of_nat n = MAX_DEPTH + 1 -> fails (pack_one fuel depth wb v).
Proof.
  unfold MAX_DEPTH. induction n as [|n IH]; intros fuel depth v wb Hv Hd; (destruct fuel as [|fuel]; [done|]); cbn [pack_one]; unfold MAX_DEPTH;
    (destruct (Z.ltb_spec 32 depth); [done|]); [lia|]. cbn [nested] in Hv. destruct v as [| | | | | |len entries mp|]; try done. destruct Hv as (v' & Hvis & Hn).
  apply (wb_table_fails _ v'); [|done]. intros wb'. apply IH; [done|lia].
Qed.

(** C40. A value inside more than 32 tables is refused, whether the tables are in
    the array part, are keys or values of the other entries, or come from the
    iterator of [__pairs]: packing never returns, whatever the arguments are; and
    when they are otherwise fit to be packed, of any depth, and not too large, it
    ends with the error that says so. *)
Theorem pack_too_deep (args : list lua_value) (v : lua_value) (Hin : v ∈ args) (Hdeep : nested 33 v) :
  (forall r, luaseri_pack args <> Ok r) /\
  forall d, Forall (packable d) args -> zlen (encoding args) <= INT_MAX -> luaseri_pack args = LuaError "serialize can't pack too depth table".
Proof.
  assert (Hf : forall wb, fails (pack_all (pack_one pack_fuel 0) wb args)) by (intros wb; apply (pack_all_fails _ v); [intros wb'; by apply (pack_nested 33)|done]).
  unfold luaseri_pack, pack_from. split; [apply fails_bind; intros wb E; by destruct (Hf (wb_init blk_alloc) wb)|]. intros d Hp Hl.
  assert (writes (eq too_deep) (fun wb => pack_all (pack_one pack_fuel 0) wb args) (encoding args)) as Hw.
  { apply pack_all_spec. eapply Forall_impl; [exact Hp|]. intros x Hx. apply (pack_one_spec _ d); [done|by vm_compute|done|by right]. }
  destruct (Hw _ _ holds_init Hl) as [(wb & E & _)|(e & -> & <-)]; [by destruct (Hf (wb_init blk_alloc) wb)|done].
Qed.

(** 11 tables in array parts, 11 as keys and 11 returned by an iterator. *)
Fixpoint tower (n : nat) (v : lua_value) : lua_value :=
  match n with
  | O => v
  | S n => LTable 1 [(LInteger 1, LTable 0 [(LTable 0 [] (Some [(LBoolean true, tower n v)]), LBoolean false)] None)] None
  end.

Lemma tower_nested k n v : nested k v -> nested (3 * n + k) (tower n v).
Proof.
  intros Hv. induction n as [|n IH]; [done|]. replace (3 * S n + k)%nat with (S (S (S (3 * n + k)))) by lia. cbn [tower].
  eexists. split; [left; exists 1; split; [split; [lia|by vm_compute]|reflexivity]|]. eexists. split; [right; eexists; split; [left|by left]|].
  eexists. split; [eexists; split; [left|by right]|exact IH].
Qed.

Lemma tower_packable k n v : (0 < k)%nat -> v <> LNil -> packable k v -> packable (3 * n + k) (tower n v).
Proof.
  intros Hk Hnil Hv. induction n as [|n IH]; [done|]. replace (3 * S n + k)%nat with (S (S (S (3 * n + k)))) by lia. cbn [tower].
  assert (exists j, (3 * n + k)%nat = S j) as [j Ej] by (exists (3 * n + k - 1)%nat; lia). rewrite Ej in *. cbn [packable until_nil].
  repeat first [exact I|exact IH|discriminate|lia|intros _; discriminate|split|apply Forall_cons|apply Forall_nil]; try done.
Qed.

Lemma pack_too_deep_witness : luaseri_pack [LInteger 1; tower 11 (LInteger 7)] = LuaError "serialize can't pack too depth table".
Proof.
  destruct (pack_too_deep [LInteger 1; tower 11 (LInteger 7)] (tower 11 (LInteger 7))) as [_ H].
  - right. left.
  - apply (tower_nested 0 11). exact I.
  - apply (H (3 * 11 + 1)%nat).
    + apply Forall_cons. split; [by cbn|]. apply Forall_cons. split; [|by apply Forall_nil]. apply tower_packable; [lia|done|by cbn].
    + vm_compute. discriminate.
Defined.

(** ** Reading any stream *)

Definition rb_ok (rb : read_block) : Prop := 0 <= rb_ptr rb /\ 0 <= rb_len rb /\ rb_ptr rb + rb_len rb <= zlen (rb_buffer rb).

(** A read that returns or raises an error, and consumes at least [n] bytes
    when it returns. *)
Definition safe {A} (n : Z) (rb : read_block) (r : result (A * read_block)) : Prop :=
  match r with
  | Ok (_, rb') => rb_ok rb' /\ rb_len rb' + n <= rb_len rb
  | LuaError _ => True
  | Fault => False
  end.

Lemma safe_bind {A B} n k rb (r : result (A * read_block)) (f : A -> read_block -> result (B * read_block)) :
  safe n rb r -> (forall a rb', rb_ok rb' -> rb_len rb' + n <= rb_len rb -> safe k rb' (f a rb')) ->
  safe (n + k) rb ('(a, rb') ← r; f a rb').
Proof.
  destruct r as [[a rb']| |]; cbn; try done. intros [Hok Hl] H. specialize (H a rb' Hok Hl).
  destruct (f a rb') as [[b rb2]| |]; cbn in *; try done. destruct H. split; [done|lia].
Qed.

Lemma safe_weaken {A} n k rb (r : result (A * read_block)) : safe n rb r -> k <= n -> safe k rb r.
Proof. destruct r as [[a rb']| |]; cbn; try done. intros [? ?] ?. split; [done|lia]. Qed.

Lemma safe_ok {A} (a : A) rb : rb_ok rb -> safe 0 rb (Ok (a, rb)).
Proof. intros. split; [done|lia]. Qed.

Lemma read_field_safe rb n : rb_ok rb -> 0 <= n -> safe n rb (read_field rb n).
Proof.
  intros (Hp & Hl & Hb) Hn. unfold read_field, rb_read. zcases; [done|]. rewrite slice_Ok by lia. cbn.
  split; [|lia]. split; [cbn; lia|]. split; cbn; lia.
Qed.

Lemma get_buffer_safe rb n : rb_ok rb -> safe 0 rb (get_buffer rb n).
Proof.
  intros (Hp & Hl & Hb). unfold get_buffer, rb_read. zcases; try done. rewrite slice_Ok by lia. cbn.
  split; [|lia]. split; [cbn; lia|]. split; cbn; lia.
Qed.

Lemma field_map_safe {A} rb n (f : list Z -> A) : rb_ok rb -> 0 <= n ->
  safe 0 rb ('(x, rb) ← read_field rb n; Ok (f x, rb)).
Proof.
  intros Hr Hn. apply (safe_weaken (n + 0)); [|lia].
  apply (safe_bind n 0 rb (read_field rb n) (fun x rb => Ok (f x, rb))); [by apply read_field_safe|]. intros. by apply safe_ok.
Qed.

Lemma get_integer_safe rb c : rb_ok rb -> safe 0 rb (get_integer rb c).
Proof.
  intros Hr. unfold get_integer. destruct (_ =? _); [by apply safe_ok|].
  destruct (_ =? _); [by apply field_map_safe|]. destruct (_ =? _); [by apply field_map_safe|].
  destruct (_ =? _); [by apply (field_map_safe _ _ (fun f => s32 (le_val f)))|].
  destruct (_ =? _); [by apply (field_map_safe _ _ (fun f => s64 (le_val f)))|done].
Qed.

(** Loops and tables, when reading one value from any state with at most [m]
    bytes left is safe and consumes at least one. *)
Section safe_tables.
Context (u : read_block -> result (built * read_block)) (m : Z).
Context (Hu : forall rb, rb_ok rb -> rb_len rb <= m -> safe 1 rb (u rb)).

Lemma array_loop_safe fuel : forall rb i n sets, rb_ok rb -> rb_len rb <= m -> rb_len rb < Z.of_nat fuel ->
  safe 0 rb (array_loop u fuel rb i n sets).
Proof using Hu.
  induction fuel as [|fuel IH]; intros rb i n sets Hr Hm Hf; [destruct Hr; lia|]. cbn [array_loop].
  destruct (i <=? n); [|by apply safe_ok]. apply (safe_weaken (1 + 0)); [|lia].
  apply (safe_bind 1 0 rb (u rb) (fun v rb => array_loop u fuel rb (i + 1) n ((BInteger i, v) :: sets))); [by apply Hu|].
  intros v rb' Hr' Hl. apply IH; [done|lia|lia].
Qed.

Lemma hash_loop_safe fuel : forall rb sets, rb_ok rb -> rb_len rb <= m -> rb_len rb < Z.of_nat fuel ->
  safe 0 rb (hash_loop u fuel rb sets).
Proof using Hu.
  induction fuel as [|fuel IH]; intros rb sets Hr Hm Hf; [destruct Hr; lia|]. cbn [hash_loop].
  set (body := fun (k : built) (rb : read_block) => match k with
    | BNil => Ok (sets, rb)
    | _ => '(v, rb) ← u rb; if bad_key k then LuaError "table index is NaN" else hash_loop u fuel rb ((k, v) :: sets)
    end). apply (safe_weaken (1 + 0)); [|lia]. apply (safe_bind 1 0 rb (u rb) body); [by apply Hu|].
  intros k rb' Hr' Hl. assert (safe 0 rb' ('(v, rb2) ← u rb';
    if bad_key k then LuaError "table index is NaN" else hash_loop u fuel rb2 ((k, v) :: sets))) as H.
  { apply (safe_weaken (1 + 0)); [|lia]. apply (safe_bind 1 0 rb' (u rb')
      (fun v rb2 => if bad_key k then LuaError "table index is NaN" else hash_loop u fuel rb2 ((k, v) :: sets)));
      [apply Hu; [done|lia]|].
    intros v rb2 Hr2 Hl2. destruct (bad_key k); [done|]. apply IH; [done|lia|lia]. }
  destruct k; try exact H. by apply safe_ok.
Qed.

Lemma unpack_table_safe fuel rb c : rb_ok rb -> rb_len rb <= m -> rb_len rb < Z.of_nat fuel ->
  safe 0 rb (unpack_table u fuel rb c).
Proof using Hu.
  intros Hr Hm Hf. unfold unpack_table.
  apply (safe_bind 0 0 rb _ (fun n rb => '(sets, rb) ← array_loop u fuel rb 1 n [];
    '(sets, rb) ← hash_loop u fuel rb sets; Ok (BTable (rev sets), rb))).
  - destruct (_ =? _); [|by apply safe_ok]. apply (safe_weaken (1 + 0)); [|lia].
    apply (safe_bind 1 0 rb (read_field rb 1)); [by apply read_field_safe|]. intros t rb' Hr' Hl. cbv zeta.
    destruct (_ || _); [done|].
    apply (safe_bind 0 0 rb' _ (fun n rb => Ok (s32 n, rb))); [by apply get_integer_safe|]. intros. by apply safe_ok.
  - intros n rb1 Hr1 Hl1. apply (safe_bind 0 0 rb1 _ (fun sets rb =>
      '(sets, rb) ← hash_loop u fuel rb sets; Ok (BTable (rev sets), rb))); [apply array_loop_safe; [done|lia|lia]|].
    intros sets rb2 Hr2 Hl2. apply (safe_bind 0 0 rb2 _ (fun sets rb => Ok (BTable (rev sets), rb)));
      [apply hash_loop_safe; [done|lia|lia]|]. intros. by apply safe_ok.
Qed.

Lemma push_value_safe fuel rb ty c : rb_ok rb -> rb_len rb <= m -> rb_len rb < Z.of_nat fuel ->
  safe 0 rb (push_value u fuel rb ty c).
Proof using Hu.
  intros Hr Hm Hf. unfold push_value, get_real, get_pointer.
  destruct (_ =? _); [by apply safe_ok|]. destruct (_ =? _); [by apply safe_ok|].
  destruct (_ =? _).
  { destruct (_ =? _).
    - apply (safe_bind 0 0 rb _ (fun n rb => Ok (BNumber n, rb))); [by apply field_map_safe|]. intros. by apply safe_ok.
    - apply (safe_bind 0 0 rb _ (fun n rb => Ok (BInteger n, rb))); [by apply get_integer_safe|]. intros. by apply safe_ok. }
  destruct (_ =? _).
  { apply (safe_bind 0 0 rb _ (fun n rb => Ok (BLightuserdata n, rb))); [by apply field_map_safe|]. intros. by apply safe_ok. }
  assert (forall rb' n, rb_ok rb' -> safe 0 rb' ('(s, rb) ← get_buffer rb' n; Ok (BString s, rb))) as Hs.
  { intros rb' n Hr'. apply (safe_bind 0 0 rb' _ (fun s rb => Ok (BString s, rb))); [by apply get_buffer_safe|].
    intros. by apply safe_ok. }
  destruct (_ =? _); [by apply Hs|].
  destruct (_ =? _).
  { destruct (_ =? _); [|destruct (negb _); [done|]].
    - apply (safe_weaken (2 + 0)); [|lia]. apply (safe_bind 2 0 rb _ (fun n rb => '(s, rb) ← get_buffer rb (le_val n); Ok (BString s, rb)));
        [by apply read_field_safe|]. intros. by apply Hs.
    - apply (safe_weaken (4 + 0)); [|lia]. apply (safe_bind 4 0 rb _ (fun n rb => '(s, rb) ← get_buffer rb (s32 (le_val n)); Ok (BString s, rb)));
        [by apply read_field_safe|]. intros. by apply Hs. }
  destruct (_ =? _); [by apply unpack_table_safe|done].
Qed.
End safe_tables.

Lemma unpack_one_safe fuel : forall rb, rb_ok rb -> rb_len rb < Z.of_nat fuel -> safe 1 rb (unpack_one fuel rb).
Proof.
  induction fuel as [|fuel IH]; intros rb Hr Hf; [destruct Hr; lia|]. cbn [unpack_one].
  apply (safe_bind 1 0 rb (read_field rb 1)); [by apply read_field_safe|]. intros t rb' Hr' Hl. cbv zeta.
  apply (push_value_safe (unpack_one fuel) (rb_len rb')); [|done|lia|lia].
  intros rb2 Hr2 Hl2. apply IH; [done|lia].
Qed.

Lemma unpack_loop_safe deep fuel : forall rb, rb_ok rb -> rb_len rb < Z.of_nat fuel -> rb_len rb < Z.of_nat deep ->
  unpack_loop fuel deep rb <> Fault.
Proof.
  induction fuel as [|fuel IH]; intros rb Hr Hf Hd; [destruct Hr; lia|]. cbn [unpack_loop].
  destruct (rb_read rb 1) as [[rb' p]|] eqn:E; [|done].
  pose proof (read_field_safe rb 1 Hr ltac:(lia)) as Hrd. unfold read_field in Hrd. rewrite E in Hrd.
  destruct (slice (rb_buffer rb) p 1) as [t| |]; [|done..]. destruct Hrd as [Hr' Hl]. rstep. cbv zeta.
  assert (safe 0 rb' (push_value (unpack_one deep) deep rb' (Z.land (le_val t) 7) (Z.shiftr (le_val t) 3))) as H.
  { apply (push_value_safe (unpack_one deep) (rb_len rb')); [|done|lia|lia].
    intros rb2 Hr2 Hl2. apply unpack_one_safe; [done|lia]. }
  destruct (push_value _ _ _ _ _) as [[v rb2]| |]; [|done..]. destruct H as [Hr2 Hl2]. rstep.
  specialize (IH rb2 Hr2 ltac:(lia) ltac:(lia)). by destruct (unpack_loop fuel deep rb2).
Qed.

(** C34. Unpacking any string terminates within the string: it returns values
    or raises a Lua error, however malformed the string is, and the loops and
    the recursion are bounded by its length. *)
Theorem unpack_any_string buffer : luaseri_unpack (StreamString buffer) <> Fault.
Proof.
  unfold luaseri_unpack. destruct (Z.eqb_spec (s32 (zlen buffer)) 0) as [|Hne]; [done|].
  assert (s32 (zlen buffer) <= zlen buffer) as Hle.
  { pose proof (swrap_range 32 (zlen buffer)) as Hr. fold (s32 (zlen buffer)) in Hr. pose proof (zlen_nonneg buffer).
    destruct (Z.ltb_spec (zlen buffer) (2 ^ 31)); [rewrite s32_small; lia|lia]. }
  unfold rball_init. destruct (Z.ltb_spec (s32 (zlen buffer)) 0).
  - cbn [unpack_loop]. unfold rb_read. cbn [rb_len]. by destruct (Z.ltb_spec (s32 (zlen buffer)) 1); [|lia].
  - apply unpack_loop_safe; [split; [|split]; cbn; lia|cbn [rb_len]; unfold zlen in *; lia..].
Qed.
