(* ===== verification/Cluster.v ===== *)
(** * Cluster messages (lualib-src/lua-cluster.c)

    Requests and responses between the nodes of a cluster: a frame is a
    big-endian 16-bit size and a body; a message of 32K or more is announced
    with its size and cut into parts. [lpackrequest] and [lpackresponse] build
    the frames, [lunpackrequest] and [lunpackresponse] read the body of one
    frame, [lconcat] puts the parts together again. The bounds of the buffer on
    the stack and of the packed message are modelled: an access outside faults. *)
From S2P Require Import Prelude CString.

(** ** Values exchanged with Lua; the numbers of this module are integers. *)
Inductive value : Set :=
| VNil
| VBool (b : bool)
| VInt (n : Z)
| VStr (s : list Z).

Definition TEMP_LENGTH : Z := 0x8200.
Definition MULTI_PART : Z := 0x8000.

Definition fill_uint32 (n : Z) : list Z :=
  [Z.land n 0xff; Z.land (Z.shiftr n 8) 0xff; Z.land (Z.shiftr n 16) 0xff; Z.land (Z.shiftr n 24) 0xff].

Definition fill_header (sz : Z) : result (list Z) :=
  _ ← assert_ (sz <? 0x10000);
  Ok [Z.land (Z.shiftr sz 8) 0xff; Z.land sz 0xff].

(** [lua_pushlstring] of the bytes written to [buf], which has [TEMP_LENGTH]
    bytes. *)
Definition pushbuf (buf : list Z) : result (list Z) :=
  _ ← assert_ (zlen buf <=? TEMP_LENGTH);
  Ok buf.

(** [memcpy(.., msg, sz)] *)
Definition copy (msg : list Z) (sz : Z) : result (list Z) := slice msg 0 sz.

(** The number of parts, computed on [uint32_t] and kept in an [int]. *)
Definition part_count (sz : Z) : Z := s32 (u32 (u32 (sz - 1) / MULTI_PART + 1)).

(** ** Requests *)

(** The request and the number of parts that follow. *)
Definition packreq_number (addr session : Z) (msg : list Z) (sz : Z) : result (list Z * Z) :=
  let addr := u32 addr in
  if sz <? MULTI_PART then
    h ← fill_header (sz + 9);
    m ← copy msg sz;
    s ← pushbuf (h ++ [0] ++ fill_uint32 addr ++ fill_uint32 (u32 session) ++ m);
    Ok (s, 0)
  else
    let part := part_count sz in
    h ← fill_header 13;
    s ← pushbuf (h ++ [1] ++ fill_uint32 addr ++ fill_uint32 (u32 session) ++ fill_uint32 sz);
    Ok (s, part).

(** [name]: [None] when [lua_tolstring] returns [NULL]. *)
Definition packreq_string (name : option (list Z)) (session : Z) (msg : list Z) (sz : Z) : result (list Z * Z) :=
  match name with
  | None => LuaError "name is too long"
  | Some name =>
      let namelen := zlen name in
      if (namelen <? 1) || (255 <? namelen) then LuaError "name is too long"
      else if sz <? MULTI_PART then
        h ← fill_header (sz + 6 + namelen);
        m ← copy msg sz;
        s ← pushbuf (h ++ [0x80; u8 namelen] ++ name ++ fill_uint32 (u32 session) ++ m);
        Ok (s, 0)
      else
        let part := part_count sz in
        h ← fill_header (10 + namelen);
        s ← pushbuf (h ++ [0x81; u8 namelen] ++ name ++ fill_uint32 (u32 session) ++ fill_uint32 sz);
        Ok (s, part)
  end.

(** The loop of [packreq_multi]; [ptr] is the rest of the message. *)
Fixpoint packreq_multi (part : nat) (session : Z) (ptr : list Z) (sz : Z) : result (list (list Z)) :=
  match part with
  | O => Ok []
  | S part =>
      let '(s, t) := if MULTI_PART <? sz then (MULTI_PART, 2) else (sz, 3) in
      h ← fill_header (s + 5);
      m ← copy ptr s;
      f ← pushbuf (h ++ [t] ++ fill_uint32 (u32 session) ++ m);
      fs ← packreq_multi part session (drop (Z.to_nat s) ptr) (sz - s);
      Ok (f :: fs)
  end.

(** The first argument: a number, a string, or neither. *)
Inductive address : Set :=
| AddrNumber (n : Z)
| AddrString (s : list Z)
| AddrOther.

Definition addr_name (a : address) : option (list Z) :=
  match a with AddrString s => Some s | _ => None end.

(** [++session < 0]: the C standard leaves the increment of [INT_MAX] undefined. *)
Definition next_session (session : Z) : result Z :=
  if session =? INT_MAX then Fault else if session + 1 <? 0 then Ok 1 else Ok (session + 1).

(** The request, the next session and the table of parts, if there is one; and
    whether the message has been freed. *)
Definition lpackrequest (addr : address) (session : Z) (msg : option (list Z)) (sz : Z) :
    result (list Z * Z * option (list (list Z))) * bool :=
  match msg with
  | None => (LuaError "Invalid request message", false)
  | Some msg =>
      let sz := u32 sz in
      let session := s32 session in
      if session <=? 0 then (LuaError "Invalid request session", true)
      else
        ('(req, multipak) ←
           match addr with
           | AddrNumber n => packreq_number n session msg sz
           | _ => packreq_string (addr_name addr) session msg sz
           end;
         let current_session := session in
         next ← next_session session;
         if multipak =? 0 then Ok (req, next, None)
         else
           ps ← packreq_multi (Z.to_nat multipak) current_session msg sz;
           Ok (req, next, Some ps), true)
  end.

(** [buf + i] *)
Definition unpack_uint32 (buf : list Z) (i : Z) : result Z :=
  b0 ← zget buf i;
  b1 ← zget buf (i + 1);
  b2 ← zget buf (i + 2);
  b3 ← zget buf (i + 3);
  Ok (u32 (Z.lor (Z.lor (Z.lor b0 (Z.shiftl b1 8)) (Z.shiftl b2 16)) (Z.shiftl b3 24))).

Definition unpackreq_number (buf : list Z) (sz : Z) : result (list value) :=
  if sz <? 9 then LuaError "Invalid cluster message"
  else
    address ← unpack_uint32 buf 1;
    session ← unpack_uint32 buf 5;
    msg ← slice buf 9 (sz - 9);
    Ok [VInt address; VInt session; VStr msg].

Definition unpackmreq_number (buf : list Z) (sz : Z) : result (list value) :=
  if negb (sz =? 13) then LuaError "Invalid cluster message size"
  else
    address ← unpack_uint32 buf 1;
    session ← unpack_uint32 buf 5;
    size ← unpack_uint32 buf 9;
    Ok [VInt address; VInt session; VInt size; VBool true].

Definition unpackmreq_part (buf : list Z) (sz : Z) : result (list value) :=
  if sz <? 5 then LuaError "Invalid cluster multi part message"
  else
    b0 ← zget buf 0;
    let padding := b0 =? 2 in
    session ← unpack_uint32 buf 1;
    msg ← slice buf 5 (sz - 5);
    Ok [VBool false; VInt session; VStr msg; VBool padding].

Definition unpackreq_string (buf : list Z) (sz : Z) : result (list value) :=
  if sz <? 2 then LuaError "Invalid cluster message"
  else
    namesz ← zget buf 1;
    if sz <? namesz + 6 then LuaError "Invalid cluster message"
    else
      name ← slice buf 2 namesz;
      session ← unpack_uint32 buf (namesz + 2);
      msg ← slice buf (2 + namesz + 4) (sz - namesz - 6);
      Ok [VStr name; VInt session; VStr msg].

Definition unpackmreq_string (buf : list Z) (sz : Z) : result (list value) :=
  if sz <? 2 then LuaError "Invalid cluster message"
  else
    namesz ← zget buf 1;
    if sz <? namesz + 10 then LuaError "Invalid cluster message"
    else
      name ← slice buf 2 namesz;
      session ← unpack_uint32 buf (namesz + 2);
      size ← unpack_uint32 buf (namesz + 6);
      Ok [VStr name; VInt session; VInt size; VBool true].

(** [msg[0]] of a Lua string, which ends with a NUL that is not counted. *)
Definition lunpackrequest (msg : list Z) : result (list value) :=
  let sz := s32 (zlen msg) in
  c ← zget (msg ++ [0]) 0;
  if c =? 0 then unpackreq_number msg sz
  else if c =? 1 then unpackmreq_number msg sz
  else if (c =? 2) || (c =? 3) then unpackmreq_part msg sz
  else if c =? 0x80 then unpackreq_string msg sz
  else if c =? 0x81 then unpackmreq_string msg sz
  else LuaError "Invalid req package type".

(** ** Responses *)

(** The parts that follow the first frame of a long response. *)
Fixpoint packresp_multi (part : nat) (session : Z) (ptr : list Z) (sz : Z) : result (list (list Z)) :=
  match part with
  | O => Ok []
  | S part =>
      let '(s, t) := if MULTI_PART <? sz then (MULTI_PART, 3) else (s32 sz, 4) in
      h ← fill_header (s + 5);
      m ← copy ptr s;
      f ← pushbuf (h ++ fill_uint32 session ++ [t] ++ m);
      fs ← packresp_multi part session (drop (Z.to_nat s) ptr) (sz - s);
      Ok (f :: fs)
  end.

(** The third and fourth arguments: a Lua string, or a block and a size. *)
Inductive payload : Set :=
| PString (s : list Z)
| PBlock (block : list Z) (sz : Z).

Inductive response : Set :=
| RString (s : list Z)
| RTable (l : list (list Z)).

Definition lpackresponse (session : Z) (ok : bool) (p : payload) : result response :=
  let session := u32 session in
  let '(msg, sz) := match p with PString s => (s, zlen s) | PBlock b sz => (b, u64 sz) end in
  if ok && (MULTI_PART <? sz) then
    let part := s32 ((sz - 1) / MULTI_PART + 1) in
    h ← fill_header 9;
    f ← pushbuf (h ++ fill_uint32 session ++ [2] ++ fill_uint32 (u32 sz));
    fs ← packresp_multi (Z.to_nat part) session msg sz;
    Ok (RTable (f :: fs))
  else
    let sz := if negb ok && (MULTI_PART <? sz) then MULTI_PART else sz in
    h ← fill_header (sz + 5);
    m ← copy msg sz;
    f ← pushbuf (h ++ fill_uint32 session ++ [if ok then 1 else 0] ++ m);
    Ok (RString f).

Definition lunpackresponse (buf : list Z) : result (list value) :=
  let sz := zlen buf in
  if sz <? 5 then Ok []
  else
    session ← unpack_uint32 buf 0;
    t ← zget buf 4;
    if t =? 0 then msg ← slice buf 5 (sz - 5); Ok [VInt session; VBool false; VStr msg]
    else if (t =? 1) || (t =? 4) then msg ← slice buf 5 (sz - 5); Ok [VInt session; VBool true; VStr msg]
    else if t =? 2 then
      if negb (sz =? 9) then Ok []
      else sz ← unpack_uint32 buf 5; Ok [VInt session; VBool true; VInt sz; VBool true]
    else if t =? 3 then msg ← slice buf 5 (sz - 5); Ok [VInt session; VBool true; VStr msg; VBool true]
    else Ok [].

(** ** Putting parts together *)

(** The loop over the strings of the table; [buff] holds the [offset] bytes
    written. [None]: the function returns nothing. *)
Fixpoint concat_loop (l : list value) (sz : Z) (buff : list Z) : option (list Z) :=
  match l with
  | VStr str :: l =>
      if sz <? zlen str + zlen buff then None else concat_loop l sz (buff ++ str)
  | _ => if zlen buff =? sz then Some buff else None
  end.

(** [skynet_malloc] does not return when the size, a negative [int], is
    converted to a [size_t]. *)
Definition lconcat (table : option (list value)) : result (option (list Z)) :=
  match table with
  | Some (VInt n :: l) =>
      let sz := s32 n in
      if sz <? 0 then Fault else Ok (concat_loop l sz [])
  | _ => Ok None
  end.

(** ** Lemmas on the fields *)

Lemma fill_uint32_le n : fill_uint32 n = le_bytes 4 n.
Proof.
  unfold fill_uint32. change 0xff with 255. rewrite !land_255, !Z.shiftr_div_pow2 by lia. cbn [le_bytes].
  rewrite !Z.div_div by lia. done.
Qed.

Lemma fill_header_be sz : sz < 0x10000 -> fill_header sz = Ok (be_bytes 2 sz).
Proof.
  intros H. unfold fill_header, assert_. zcases; [|lia]. rstep. change 0xff with 255.
  rewrite !land_255, Z.shiftr_div_pow2 by lia. done.
Qed.

Lemma pushbuf_Ok b : zlen b <= TEMP_LENGTH -> pushbuf b = Ok b.
Proof. intros. unfold pushbuf, assert_. zcases; [done|lia]. Qed.

Lemma zget_app_l {A} (l k : list A) i : i < zlen l -> zget (l ++ k) i = zget l i.
Proof.
  unfold zget, zlen. intros. zcases; [|done]. f_equal. apply lookup_app_l. lia.
Qed.

Lemma unpack_uint32_bytes buf i b0 b1 b2 b3 : bytes [b0; b1; b2; b3] ->
  zget buf i = Ok b0 -> zget buf (i + 1) = Ok b1 -> zget buf (i + 2) = Ok b2 -> zget buf (i + 3) = Ok b3 ->
  unpack_uint32 buf i = Ok (le_val [b0; b1; b2; b3]).
Proof.
  intros Hb E0 E1 E2 E3. unfold unpack_uint32. rewrite E0, E1, E2, E3. rstep. f_equal.
  pose proof (le_val_range _ Hb) as Hr. unfold bytes, is_byte in Hb. rewrite !Forall_cons in Hb. inv_ands.
  rewrite (lor_shiftl_add b0 b1 8), (lor_shiftl_add _ b2 16), (lor_shiftl_add _ b3 24) by lia.
  transitivity (u32 (le_val [b0; b1; b2; b3])); [f_equal; cbn; lia|]. by apply u32_small.
Qed.

(** Reading a field behind a prefix of known length. *)
Lemma unpack_uint32_at pre n post i : is_u32 n -> i = zlen pre ->
  unpack_uint32 (pre ++ le_bytes 4 n ++ post) i = Ok n.
Proof.
  intros Hn ->. pose proof (bytes_le_bytes 4 n) as Hb. pose proof (le_val_le_bytes 4 n) as Hv.
  rewrite Z.mod_small in Hv by (unfold is_u32 in Hn; lia). cbn [le_bytes] in *.
  rewrite <- Hv at 5. apply unpack_uint32_bytes; [done|rewrite <- (Z.add_0_r (zlen pre))|..];
    by rewrite zget_app_r.
Qed.

Lemma copy_prefix (m r : list Z) n : n = zlen m -> copy (m ++ r) n = Ok m.
Proof. intros. unfold copy. by apply (slice_app []). Qed.

(** ** Frames and parts *)

(** A frame: the size of the body and the body. *)
Definition frame (body : list Z) : list Z := be_bytes 2 (zlen body) ++ body.

(** The parts of a message cut by [n] rounds of the loop. *)
Fixpoint chunks (n : nat) (m : list Z) : list (list Z) :=
  match n with
  | O => []
  | S n =>
      if MULTI_PART <? zlen m
      then take (Z.to_nat MULTI_PART) m :: chunks n (drop (Z.to_nat MULTI_PART) m)
      else [m]
  end.

(** [f true] on every element but the last, [f false] on it. *)
Fixpoint mark_last {A B} (f : bool -> A -> B) (l : list A) : list B :=
  match l with
  | [] => []
  | [x] => [f false x]
  | x :: l => f true x :: mark_last f l
  end.

Lemma mark_last_cons {A B} (f : bool -> A -> B) x l : l <> [] -> mark_last f (x :: l) = f true x :: mark_last f l.
Proof. by destruct l. Qed.

Lemma fmap_mark_last {A B C} (g : B -> C) (f : bool -> A -> B) l :
  g <$> mark_last f l = mark_last (fun b x => g (f b x)) l.
Proof.
  induction l as [|x l IH]; [done|]. destruct l as [|y l]; [done|].
  rewrite !mark_last_cons by done. by rewrite fmap_cons, IH.
Qed.

Lemma mapM_mark_last {A B C} (g : B -> result C) (f : bool -> A -> B) (h : bool -> A -> C) l :
  (forall b x, x ∈ l -> g (f b x) = Ok (h b x)) -> mapM g (mark_last f l) = Ok (mark_last h l).
Proof.
  induction l as [|x l IH]; intros H; [done|]. destruct l as [|y l].
  - cbn. by rewrite H by left.
  - rewrite !mark_last_cons by done. cbn [mapM]. rewrite H by left. rstep. rewrite IH; [done|].
    intros. apply H. by right.
Qed.

Definition MP : nat := Z.to_nat MULTI_PART.

Lemma MP_Z : Z.of_nat MP = MULTI_PART.
Proof. reflexivity. Qed.

#[local] Arguments MP : simpl never.

(** What [n] rounds cut: [n] is the number of parts of [m]. *)
Definition parts_of (n : nat) (m : list Z) : Prop :=
  0 < zlen m /\ (Z.of_nat n - 1) * MULTI_PART < zlen m <= Z.of_nat n * MULTI_PART.

Lemma chunks_concat n : forall m, parts_of n m -> concat (chunks n m) = m.
Proof.
  induction n as [|n IH]; intros m [H0 Hm]; unfold MULTI_PART in *; [lia|]. cbn [chunks].
  unfold MULTI_PART. zcases; cbn [concat]; [|by rewrite app_nil_r].
  rewrite IH; [by rewrite take_drop|]. unfold parts_of, zlen, MULTI_PART in *. rewrite length_drop. lia.
Qed.

Lemma chunks_nonempty n m : (0 < n)%nat -> chunks n m <> [].
Proof. destruct n; [lia|]. cbn [chunks]. by destruct (_ <? _). Qed.

Lemma chunks_length n : forall m c, c ∈ chunks n m -> zlen c <= MULTI_PART.
Proof.
  induction n as [|n IH]; intros m c Hc; cbn [chunks] in Hc; [by apply elem_of_nil in Hc|].
  destruct (Z.ltb_spec MULTI_PART (zlen m)).
  - apply elem_of_cons in Hc as [->|Hc]; [|by eapply IH]. unfold zlen, MULTI_PART in *. rewrite length_take. lia.
  - apply elem_of_cons in Hc as [->|Hc]; [done|]. by apply elem_of_nil in Hc.
Qed.

(** A loop that sends the parts of [m] one by one. *)
Lemma chunk_loop (loop : nat -> list Z -> Z -> result (list (list Z))) (fr : bool -> list Z -> list Z) :
  (forall p sz, loop 0%nat p sz = Ok []) ->
  (forall n c p sz, zlen c = MULTI_PART -> MULTI_PART < sz ->
    loop (S n) (c ++ p) sz = (fs ← loop n p (sz - MULTI_PART); Ok (fr true c :: fs))) ->
  (forall n c p, zlen c <= MULTI_PART ->
    loop (S n) (c ++ p) (zlen c) = (fs ← loop n p 0; Ok (fr false c :: fs))) ->
  forall n m slack, parts_of n m -> loop n (m ++ slack) (zlen m) = Ok (mark_last fr (chunks n m)).
Proof.
  intros H0 Hmore Hlast. induction n as [|n IH]; intros m slack [Hpos Hm]; [unfold MULTI_PART in *; lia|].
  cbn [chunks]. fold MP. destruct (Z.ltb_spec MULTI_PART (zlen m)) as [Hlt|Hge].
  - assert (zlen (take MP m) = MULTI_PART) as Ht by (rewrite <- MP_Z in *; unfold zlen in *; rewrite length_take; lia).
    rewrite <- (take_drop MP m) at 1. rewrite <- app_assoc, Hmore by done.
    assert (zlen m - MULTI_PART = zlen (drop MP m)) as Hd
      by (rewrite <- MP_Z in *; unfold zlen in *; rewrite length_drop; lia).
    rewrite Hd. rewrite IH by (split; unfold MULTI_PART in *; lia). rstep.
    rewrite mark_last_cons; [done|]. apply chunks_nonempty. unfold MULTI_PART in *. destruct n; lia.
  - assert (n = 0%nat) as -> by (unfold MULTI_PART in *; lia). rewrite Hlast by done. by rewrite H0.
Qed.

Lemma part_count_parts m : MULTI_PART <= zlen m < 2 ^ 32 ->
  parts_of (Z.to_nat (part_count (zlen m))) m /\ 0 < part_count (zlen m).
Proof.
  intros H. unfold part_count, parts_of, MULTI_PART in *.
  assert (u32 (u32 (zlen m - 1) / 32768 + 1) = (zlen m - 1) / 32768 + 1) as ->.
  { rewrite (u32_small (zlen m - 1)) by zlia. apply u32_small. unfold is_u32. dlia. }
  rewrite s32_small by dlia. split; [split; [lia|]|]; [rewrite Z2Nat.id by dlia|]; dlia.
Qed.

Lemma zlen_nil {A} : zlen (A := A) [] = 0.
Proof. done. Qed.

(** ** Requests are read back *)

(** The side conditions of reading a field: the split of the buffer, the
    range of the value and the offset. *)
Ltac field := first [done | by rewrite ?app_nil_r, <- ?app_assoc | autorewrite with zlen in *; lia].

#[local] Hint Rewrite @zlen_app @zlen_cons zlen_le_bytes @zlen_nil : zlen.
Ltac zl := autorewrite with zlen in *.

Lemma unpack_at buf pre n post i : buf = pre ++ le_bytes 4 n ++ post -> is_u32 n -> i = zlen pre ->
  unpack_uint32 buf i = Ok n.
Proof. intros ->. apply unpack_uint32_at. Qed.

Lemma slice_at {A} (buf pre mid post : list A) i n : buf = pre ++ mid ++ post -> i = zlen pre -> n = zlen mid ->
  slice buf i n = Ok mid.
Proof. intros ->. apply slice_app. Qed.

Lemma zget_head (b : Z) l : zget (b :: l) 0 = Ok b.
Proof. done. Qed.

Lemma zget_second (b c : Z) l : zget (b :: c :: l) 1 = Ok c.
Proof. done. Qed.

Definition addr_ok (a : address) : Prop :=
  match a with
  | AddrNumber n => is_u32 n
  | AddrString s => bytes s /\ 1 <= zlen s <= 255
  | AddrOther => False
  end.

Definition addr_value (a : address) : value :=
  match a with AddrNumber n => VInt n | AddrString s => VStr s | AddrOther => VNil end.

(** The bodies of the frames. *)
Definition addr_body (tn ts : Z) (a : address) : list Z :=
  match a with
  | AddrNumber n => tn :: le_bytes 4 n
  | AddrString s => ts :: zlen s :: s
  | AddrOther => []
  end.

Definition req_body (a : address) (session : Z) (m : list Z) : list Z :=
  addr_body 0 0x80 a ++ le_bytes 4 session ++ m.
Definition mreq_body (a : address) (session size : Z) : list Z :=
  addr_body 1 0x81 a ++ le_bytes 4 session ++ le_bytes 4 size.
Definition part_body (session : Z) (more : bool) (c : list Z) : list Z :=
  (if more then 2 else 3) :: le_bytes 4 session ++ c.

(** The frame of a message whose size and body are computed separately. *)
Lemma frame_run sz body :
  sz = zlen body -> zlen body < 0x10000 -> zlen body + 2 <= TEMP_LENGTH ->
  exists h, fill_header sz = Ok h /\ pushbuf (h ++ body) = Ok (frame body).
Proof.
  intros -> H1 H2. exists (be_bytes 2 (zlen body)). split; [by apply fill_header_be|].
  apply pushbuf_Ok. unfold frame. rewrite zlen_app. unfold zlen at 1. rewrite length_be_bytes. lia.
Qed.

Lemma pack_short a session m slack : addr_ok a -> is_u32 session -> zlen m < MULTI_PART ->
  (match a with
   | AddrNumber n => packreq_number n session (m ++ slack) (zlen m)
   | _ => packreq_string (addr_name a) session (m ++ slack) (zlen m)
   end) = Ok (frame (req_body a session m), 0).
Proof.
  intros Ha Hs Hm. pose proof (zlen_nonneg m). unfold MULTI_PART in *.
  destruct a as [n|s|]; cbn [addr_ok addr_name] in *; [| |done].
  - unfold packreq_number, MULTI_PART. rewrite !u32_small by done. zcases; [|lia].
    destruct (frame_run (zlen m + 9) ([0] ++ le_bytes 4 n ++ le_bytes 4 session ++ m)) as (h & -> & E);
      [unfold TEMP_LENGTH; zl; lia..|]. rstep.
    rewrite copy_prefix by done. rstep. rewrite !fill_uint32_le, E. done.
  - destruct Ha as [Hb Hl]. unfold packreq_string, MULTI_PART. zprune.
    destruct (frame_run (zlen m + 6 + zlen s) ([0x80; zlen s] ++ s ++ le_bytes 4 session ++ m)) as (h & -> & E);
      [unfold TEMP_LENGTH; zl; lia..|]. rstep.
    rewrite copy_prefix by done. rstep. rewrite !fill_uint32_le, u32_small by done.
    unfold u8. rewrite wrap_small, E by lia. done.
Qed.

Lemma pack_long a session m slack : addr_ok a -> is_u32 session -> MULTI_PART <= zlen m < 2 ^ 32 ->
  (match a with
   | AddrNumber n => packreq_number n session (m ++ slack) (zlen m)
   | _ => packreq_string (addr_name a) session (m ++ slack) (zlen m)
   end) = Ok (frame (mreq_body a session (zlen m)), part_count (zlen m)).
Proof.
  intros Ha Hs Hm. destruct a as [n|s|]; cbn [addr_ok addr_name] in *; [| |done].
  - unfold packreq_number. rewrite !u32_small by done. zcases; [lia|].
    destruct (frame_run 13 ([1] ++ le_bytes 4 n ++ le_bytes 4 session ++ le_bytes 4 (zlen m))) as (h & -> & E);
      [unfold TEMP_LENGTH; zl; lia..|]. rstep. rewrite !fill_uint32_le, E. done.
  - destruct Ha as [Hb Hl]. unfold packreq_string. zprune.
    destruct (frame_run (10 + zlen s) ([0x81; zlen s] ++ s ++ le_bytes 4 session ++ le_bytes 4 (zlen m))) as (h & -> & E);
      [unfold TEMP_LENGTH; zl; lia..|]. rstep. rewrite !fill_uint32_le, u32_small by done.
    unfold u8. rewrite wrap_small, E by lia. done.
Qed.

Lemma packreq_multi_spec session m slack n : is_u32 session -> parts_of n m ->
  packreq_multi n session (m ++ slack) (zlen m) = Ok (mark_last (fun more c => frame (part_body session more c)) (chunks n m)).
Proof.
  intros Hs. apply (chunk_loop (fun n p sz => packreq_multi n session p sz)); [done|..]; clear n m slack.
  - intros n c p sz Hc Hsz. cbn [packreq_multi]. zcases; [|lia]. rewrite <- Hc.
    destruct (frame_run (zlen c + 5) ([2] ++ le_bytes 4 session ++ c)) as (h & -> & E);
      [unfold TEMP_LENGTH, MULTI_PART in *; zl; lia..|]. rstep.
    rewrite copy_prefix by done. rstep. rewrite fill_uint32_le, u32_small, E by done. rstep.
    unfold zlen at 1. rewrite Nat2Z.id, drop_app_length. done.
  - intros n c p Hc. cbn [packreq_multi]. zcases; [lia|].
    destruct (frame_run (zlen c + 5) ([3] ++ le_bytes 4 session ++ c)) as (h & -> & E);
      [unfold TEMP_LENGTH, MULTI_PART in *; zl; lia..|]. rstep.
    rewrite copy_prefix by done. rstep. rewrite fill_uint32_le, u32_small, E by done. rstep.
    unfold zlen at 1. rewrite Nat2Z.id, drop_app_length, Z.sub_diag. done.
Qed.

(** What the reading side returns for each body. *)

Lemma read_short a session m : addr_ok a -> is_u32 session -> zlen m < MULTI_PART ->
  lunpackrequest (req_body a session m) = Ok [addr_value a; VInt session; VStr m].
Proof.
  intros Ha Hs Hm. pose proof (zlen_nonneg m). unfold MULTI_PART in *. unfold lunpackrequest, req_body.
  destruct a as [n|s|]; cbn [addr_ok addr_body addr_value] in *; [| |done].
  - rewrite s32_small by (cbn [app]; zl; lia). cbn [app]. rewrite zget_head. rstep. cbn [Z.eqb].
    unfold unpackreq_number. zprune; [zl; lia|].
    rewrite (unpack_at _ [0] n (le_bytes 4 session ++ m) 1) by field. rstep.
    rewrite (unpack_at _ ([0] ++ le_bytes 4 n) session m 5) by field. rstep.
    by rewrite (slice_at _ ([0] ++ le_bytes 4 n ++ le_bytes 4 session) m []) by field.
  - destruct Ha as [Hb Hl]. rewrite s32_small by (cbn [app]; zl; lia). cbn [app].
    rewrite zget_head. rstep. cbn [Z.eqb orb Pos.eqb].
    unfold unpackreq_string. zprune; [zl; lia|]. rewrite zget_second. rstep.
    zprune; [zl; lia|].
    rewrite (slice_at _ [0x80; zlen s] s (le_bytes 4 session ++ m) 2) by field. rstep.
    rewrite (unpack_at _ ([0x80; zlen s] ++ s) session m) by field. rstep.
    by rewrite (slice_at _ ([0x80; zlen s] ++ s ++ le_bytes 4 session) m []) by field.
Qed.

Lemma read_long a session size : addr_ok a -> is_u32 session -> is_u32 size ->
  lunpackrequest (mreq_body a session size) = Ok [addr_value a; VInt session; VInt size; VBool true].
Proof.
  intros Ha Hs Hz. unfold lunpackrequest, mreq_body.
  destruct a as [n|s|]; cbn [addr_ok addr_body addr_value] in *; [| |done].
  - rewrite s32_small by (cbn [app]; zl; lia). cbn [app]. rewrite zget_head. rstep. cbn [Z.eqb Pos.eqb].
    unfold unpackmreq_number. zl. cbn [Z.eqb negb Z.add Z.of_nat Pos.of_succ_nat Pos.succ Pos.add Pos.eqb].
    rewrite (unpack_at _ [1] n (le_bytes 4 session ++ le_bytes 4 size) 1) by field. rstep.
    rewrite (unpack_at _ ([1] ++ le_bytes 4 n) session (le_bytes 4 size) 5) by field. rstep.
    by rewrite (unpack_at _ ([1] ++ le_bytes 4 n ++ le_bytes 4 session) size [] 9) by field.
  - destruct Ha as [Hb Hl]. rewrite s32_small by (cbn [app]; zl; lia). cbn [app].
    rewrite zget_head. rstep. cbn [Z.eqb orb Pos.eqb].
    unfold unpackmreq_string. zprune; [zl; lia|]. rewrite zget_second. rstep.
    zprune; [zl; lia|].
    rewrite (slice_at _ [0x81; zlen s] s (le_bytes 4 session ++ le_bytes 4 size) 2) by field. rstep.
    rewrite (unpack_at _ ([0x81; zlen s] ++ s) session (le_bytes 4 size) (zlen s + 2)) by field. rstep.
    by rewrite (unpack_at _ ([0x81; zlen s] ++ s ++ le_bytes 4 session) size [] (zlen s + 6)) by field.
Qed.

Lemma read_part session more c : is_u32 session -> zlen c <= MULTI_PART ->
  lunpackrequest (part_body session more c) = Ok [VBool false; VInt session; VStr c; VBool more].
Proof.
  intros Hs Hc. pose proof (zlen_nonneg c). unfold MULTI_PART in *. unfold lunpackrequest, part_body.
  cbn [app]. rewrite zget_head. rstep. rewrite s32_small by (zl; lia).
  transitivity (unpackmreq_part ((if more then 2 else 3) :: le_bytes 4 session ++ c)
    (zlen ((if more then 2 else 3) :: le_bytes 4 session ++ c))); [by destruct more|].
  set (t := if more then 2 else 3). assert ((t =? 2) = more) as Ht by (by destruct more). clearbody t.
  unfold unpackmreq_part. zprune; [zl; lia|]. rewrite zget_head. rstep. rewrite Ht.
  rewrite (unpack_at _ [t] session c 1) by field. rstep.
  by rewrite (slice_at _ ([t] ++ le_bytes 4 session) c []) by field.
Qed.

(** ** Theorems on requests *)

Lemma concat_loop_strings cs : forall buff sz, zlen buff + zlen (concat cs) = sz ->
  concat_loop (VStr <$> cs) sz buff = Some (buff ++ concat cs).
Proof.
  induction cs as [|c cs IH]; intros buff sz H; cbn [concat_loop fmap list_fmap concat] in *.
  - rewrite app_nil_r. zprune; [done|]. zl. lia.
  - pose proof (zlen_nonneg (concat cs)). zl. zprune. rewrite IH; [by rewrite app_assoc|]. zl. lia.
Qed.

Lemma lconcat_strings cs : zlen (concat cs) <= INT_MAX ->
  lconcat (Some (VInt (zlen (concat cs)) :: (VStr <$> cs))) = Ok (Some (concat cs)).
Proof.
  intros H. pose proof (zlen_nonneg (concat cs)). unfold lconcat, INT_MAX in *. rewrite s32_small by lia. zprune.
  by rewrite (concat_loop_strings cs []).
Qed.

Lemma session_ok session : 0 < session < INT_MAX ->
  s32 session = session /\ is_u32 session /\ (session <=? 0) = false /\ next_session session = Ok (session + 1).
Proof.
  unfold INT_MAX. intros H. rewrite s32_small by lia. unfold next_session, INT_MAX, is_u32. zprune. repeat split; lia.
Qed.

(** A request of less than 32K, to an id or to a name, is packed in one
    frame whose size field is the length of its body, the message is freed,
    and [lunpackrequest] reads the address, the session and the message back
    from the body; the next session is the successor. *)
Theorem request_roundtrip a session m slack :
  addr_ok a -> 0 < session < INT_MAX -> zlen m < MULTI_PART ->
  exists body,
    lpackrequest a session (Some (m ++ slack)) (zlen m) = (Ok (frame body, session + 1, None), true)
    /\ zlen body < 2 ^ 16
    /\ lunpackrequest body = Ok [addr_value a; VInt session; VStr m].
Proof.
  intros Ha Hs Hm. destruct (session_ok session Hs) as (E1 & Hs32 & E2 & E3). exists (req_body a session m).
  split; [|split; [|by apply read_short]].
  - pose proof (zlen_nonneg m). unfold lpackrequest. rewrite u32_small by (unfold is_u32, MULTI_PART in *; lia).
    rewrite E1, E2. pose proof (pack_short a session m slack Ha Hs32 Hm) as E. destruct a; rewrite E; rstep; by rewrite E3.
  - unfold MULTI_PART in *. destruct a; cbn [addr_ok] in Ha; unfold req_body, addr_body; zl; lia.
Qed.

Lemma request_roundtrip_witness : addr_ok (AddrString [97; 98]) /\ exists body,
  lpackrequest (AddrString [97; 98]) 7 (Some ([1; 2; 3] ++ [0])) (zlen [1; 2; 3]) = (Ok (frame body, 8, None), true)
  /\ zlen body < 2 ^ 16
  /\ lunpackrequest body = Ok [VStr [97; 98]; VInt 7; VStr [1; 2; 3]].
Proof.
  split; [split; [solve_bytes|unfold zlen; cbn; lia]|].
  apply (request_roundtrip (AddrString [97; 98]) 7 [1; 2; 3] [0]);
    [split; [solve_bytes|unfold zlen; cbn; lia]|unfold INT_MAX; lia|reflexivity].
Defined.



(** ** Responses are read back *)

Definition resp_body (session t : Z) (m : list Z) : list Z := le_bytes 4 session ++ t :: m.

Lemma zget_at {A} (buf pre : list A) x post i : buf = pre ++ x :: post -> i = zlen pre -> zget buf i = Ok x.
Proof. intros -> ->. rewrite <- (Z.add_0_r (zlen pre)), zget_app_r by done. done. Qed.

(** Reading a body of type [t]: the branch of the switch. *)
Lemma read_resp session t m : is_u32 session -> is_byte t ->
  lunpackresponse (resp_body session t m) =
  if t =? 0 then Ok [VInt session; VBool false; VStr m]
  else if (t =? 1) || (t =? 4) then Ok [VInt session; VBool true; VStr m]
  else if t =? 2 then
    if negb (zlen m =? 4) then Ok []
    else sz ← unpack_uint32 (resp_body session t m) 5; Ok [VInt session; VBool true; VInt sz; VBool true]
  else if t =? 3 then Ok [VInt session; VBool true; VStr m; VBool true]
  else Ok [].
Proof.
  intros Hs Ht. pose proof (zlen_nonneg m). unfold lunpackresponse.
  assert (zlen (resp_body session t m) = 5 + zlen m) as El by (unfold resp_body; zl; lia). rewrite El.
  zprune. all: unfold resp_body in *.
  all: rewrite (unpack_at _ [] session (t :: m) 0) by field; rstep.
  all: rewrite (zget_at _ (le_bytes 4 session) t m 4) by field; rstep.
  all: rewrite ?(slice_at _ (le_bytes 4 session ++ [t]) m []) by field; rstep; subst; cbn [Z.eqb Pos.eqb orb].
  all: zprune; done.
Qed.

Lemma read_resp_begin session size : is_u32 session -> is_u32 size ->
  lunpackresponse (resp_body session 2 (le_bytes 4 size)) = Ok [VInt session; VBool true; VInt size; VBool true].
Proof.
  intros Hs Hz. rewrite read_resp by done. cbn [Z.eqb Pos.eqb orb]. rewrite zlen_le_bytes. cbn [Z.eqb Z.of_nat Pos.of_succ_nat Pos.succ Pos.eqb negb].
  unfold resp_body. by rewrite (unpack_at _ (le_bytes 4 session ++ [2]) size [] 5) by field.
Qed.

Lemma packresp_multi_spec session m slack n : is_u32 session -> parts_of n m ->
  packresp_multi n session (m ++ slack) (zlen m) =
  Ok (mark_last (fun more c => frame (resp_body session (if more then 3 else 4) c)) (chunks n m)).
Proof.
  intros Hs. apply (chunk_loop (fun n p sz => packresp_multi n session p sz)); [done|..]; clear n m slack.
  - intros n c p sz Hc Hsz. cbn [packresp_multi]. zcases; [|lia]. rewrite <- Hc.
    destruct (frame_run (zlen c + 5) (le_bytes 4 session ++ [3] ++ c)) as (h & -> & E);
      [unfold TEMP_LENGTH, MULTI_PART in *; zl; lia..|]. rstep.
    rewrite copy_prefix by done. rstep. rewrite fill_uint32_le, E by done. rstep.
    unfold zlen at 1. rewrite Nat2Z.id, drop_app_length. done.
  - intros n c p Hc. cbn [packresp_multi]. zcases; [lia|]. pose proof (zlen_nonneg c).
    rewrite s32_small by (unfold MULTI_PART in *; lia).
    destruct (frame_run (zlen c + 5) (le_bytes 4 session ++ [4] ++ c)) as (h & -> & E);
      [unfold TEMP_LENGTH, MULTI_PART in *; zl; lia..|]. rstep.
    rewrite copy_prefix by done. rstep. rewrite fill_uint32_le, E by done. rstep.
    unfold zlen at 1. rewrite Nat2Z.id, drop_app_length, Z.sub_diag. done.
Qed.

Definition payload_of (p : payload) (m : list Z) : Prop :=
  p = PString m \/ exists slack, p = PBlock (m ++ slack) (zlen m).

(** The arguments as the code reads them. *)
Lemma payload_slack p m : payload_of p m -> zlen m <= INT_MAX -> exists slack,
  match p with PString s => (s, zlen s) | PBlock b sz => (b, u64 sz) end = (m ++ slack, zlen m).
Proof.
  pose proof (zlen_nonneg m). intros [->|(slack & ->)] H'; [exists []; by rewrite app_nil_r|exists slack].
  rewrite u64_small by (unfold is_u64, INT_MAX in *; lia). done.
Qed.

(** A response in one frame. *)
Lemma pack_resp_short session ok p m slack t : is_u32 session -> zlen m <= INT_MAX ->
  match p with PString s => (s, zlen s) | PBlock b sz => (b, u64 sz) end = (m ++ slack, zlen m) ->
  ok && (MULTI_PART <? zlen m) = false -> t = (if ok then 1 else 0) ->
  lpackresponse session ok p = Ok (RString (frame (resp_body session t (if ok then m else take MP m)))).
Proof.
  intros Hs Hm E Hok ->. unfold lpackresponse. rewrite E, Hok, u32_small by done.
  set (m' := if ok then m else take MP m).
  assert (exists slack', m ++ slack = m' ++ slack') as [slack' Es].
  { unfold m'. destruct ok; [by eexists|]. exists (drop MP m ++ slack). by rewrite app_assoc, take_drop. }
  assert (zlen m' <= MULTI_PART /\ (if negb ok && (MULTI_PART <? zlen m) then MULTI_PART else zlen m) = zlen m') as [Hl ->].
  { unfold m'. pose proof MP_Z. destruct ok; cbn [andb negb] in *; [split; [|done]; zcases_in Hok; lia|].
    unfold zlen in *. rewrite length_take. zcases; lia. }
  destruct (frame_run (zlen m' + 5) (le_bytes 4 session ++ [if ok then 1 else 0] ++ m')) as (h & -> & E');
    [unfold TEMP_LENGTH, MULTI_PART in *; zl; lia..|]. rstep.
  rewrite Es, copy_prefix by done. rstep. by rewrite fill_uint32_le, E'.
Qed.

(** A response is read back: an error or a message of at most 32K from one
    frame, errors being cut to 32K; a longer message from an announcement and
    parts, of which all but the last say that more follow, and whose contents
    [lconcat] puts together to the message. *)
Theorem response_roundtrip session ok p m :
  is_u32 session -> payload_of p m -> zlen m <= INT_MAX ->
  if ok && (MULTI_PART <? zlen m) then
    exists body bodies cs,
      lpackresponse session ok p = Ok (RTable (frame body :: (frame <$> bodies)))
      /\ lunpackresponse body = Ok [VInt session; VBool true; VInt (zlen m); VBool true]
      /\ mapM lunpackresponse bodies =
         Ok (mark_last (fun more c => [VInt session; VBool true; VStr c] ++ (if more then [VBool true] else [])) cs)
      /\ lconcat (Some (VInt (zlen m) :: (VStr <$> cs))) = Ok (Some m)
  else
    exists body,
      lpackresponse session ok p = Ok (RString (frame body))
      /\ lunpackresponse body = Ok [VInt session; VBool ok; VStr (if ok then m else take MP m)].
Proof.
  intros Hs Hp Hm. destruct (payload_slack p m Hp Hm) as (slack & E). destruct (ok && (MULTI_PART <? zlen m)) eqn:Hok.
  - apply andb_true_iff in Hok as [-> Hlt%Z.ltb_lt].
    assert (MULTI_PART <= zlen m < 2 ^ 32) as Hm32 by (unfold INT_MAX in *; lia).
    destruct (part_count_parts m Hm32) as [Hparts Hpos]. set (n := Z.to_nat (part_count (zlen m))) in *.
    assert (part_count (zlen m) = s32 ((zlen m - 1) / MULTI_PART + 1)) as Epc.
    { unfold part_count, MULTI_PART in *. rewrite (u32_small (zlen m - 1)), u32_small by (unfold is_u32; dlia). done. }
    exists (resp_body session 2 (le_bytes 4 (zlen m))), (mark_last (fun b => resp_body session (if b then 3 else 4)) (chunks n m)), (chunks n m).
    split; [|split; [|split]].
    + unfold lpackresponse. rewrite E, (u32_small session) by done.
      rewrite (proj2 (Z.ltb_lt _ _) Hlt). cbn [andb].
      destruct (frame_run 9 (le_bytes 4 session ++ [2] ++ le_bytes 4 (zlen m))) as (h & -> & E');
        [unfold TEMP_LENGTH; zl; lia..|]. rstep. rewrite (u32_small (zlen m)) by (unfold is_u32, MULTI_PART in *; lia).
      rewrite !fill_uint32_le, E', <- Epc. rstep. fold n.
      rewrite packresp_multi_spec by done. by rewrite fmap_mark_last.
    + apply read_resp_begin; [done|]. unfold is_u32, MULTI_PART in *. lia.
    + apply mapM_mark_last. intros more c Hc. rewrite read_resp; [|done|by destruct more]. by destruct more.
    + rewrite <- (chunks_concat n m Hparts) at 1 3. apply lconcat_strings. by rewrite chunks_concat.
  - exists (resp_body session (if ok then 1 else 0) (if ok then m else take MP m)).
    split; [by eapply pack_resp_short|]. rewrite read_resp; [|done|by destruct ok]. by destruct ok.
Qed.

Lemma response_roundtrip_witness : is_u32 9 /\ exists body,
  lpackresponse 9 false (PString [1; 2]) = Ok (RString (frame body))
  /\ lunpackresponse body = Ok [VInt 9; VBool false; VStr (take MP [1; 2])].
Proof.
  split; [unfold is_u32; lia|].
  apply (response_roundtrip 9 false (PString [1; 2]) [1; 2]); [unfold is_u32; lia|by left|unfold zlen, INT_MAX; cbn; lia].
Defined.

(** ** Reading never leaves the message *)

Lemma unpack_uint32_defined buf i : 0 <= i -> i + 4 <= zlen buf -> exists v, unpack_uint32 buf i = Ok v.
Proof.
  intros Hi Hl. unfold unpack_uint32.
  destruct (zget_in_range buf i) as [b0 ->]; [lia|]. destruct (zget_in_range buf (i + 1)) as [b1 ->]; [lia|].
  destruct (zget_in_range buf (i + 2)) as [b2 ->]; [lia|]. destruct (zget_in_range buf (i + 3)) as [b3 ->]; [lia|].
  by eexists.
Qed.

(** One read of a field or a slice that is within the buffer. *)
Ltac defined_step :=
  match goal with
  | |- context [unpack_uint32 ?b ?i] =>
      destruct (unpack_uint32_defined b i) as [? ->]; [lia|lia|rstep]
  | |- context [slice ?b ?i ?n] => rewrite (slice_Ok b i n) by lia; rstep
  end.

(** Whatever bytes another node sends, reading a request or a response
    stays within the message: it returns values or raises a Lua error. *)
Theorem unpack_in_bounds buf : bytes buf -> lunpackrequest buf <> Fault /\ lunpackresponse buf <> Fault.
Proof.
  intros Hb. split.
  - unfold lunpackrequest. destruct (zget_in_range (buf ++ [0]) 0) as [c ->]; [unfold zlen; rewrite length_app; cbn; lia|].
    rstep. pose proof (swrap_range 32 (zlen buf)) as Hr. fold (s32 (zlen buf)) in Hr.
    assert (s32 (zlen buf) <= zlen buf) as Hle.
    { destruct (Z.ltb_spec (zlen buf) (2 ^ 31)); [rewrite s32_small; pose proof (zlen_nonneg buf); lia|lia]. }
    set (sz := s32 (zlen buf)) in *. clearbody sz.
    assert (forall i, 0 <= i < sz -> exists b, zget buf i = Ok b /\ 0 <= b) as Hget.
    { intros i Hi. destruct (zget_in_range buf i) as [b E]; [lia|]. exists b. split; [done|].
      apply zget_Ok in E as [_ E]. pose proof (Forall_lookup_1 _ _ _ _ Hb E) as H. unfold is_byte in H. lia. }
    destruct (c =? 0); [|destruct (c =? 1); [|destruct ((c =? 2) || (c =? 3)); [|destruct (c =? 0x80); [|destruct (c =? 0x81); [|done]]]]].
    + unfold unpackreq_number. zcases; [done|]. by repeat defined_step.
    + unfold unpackmreq_number. zcases; [|done]. by repeat defined_step.
    + unfold unpackmreq_part. zcases; [done|]. destruct (Hget 0) as (b & -> & _); [lia|]. rstep. by repeat defined_step.
    + unfold unpackreq_string. zcases; [done|]. destruct (Hget 1) as (b & -> & ?); [lia|]. rstep.
      zcases; [done|]. by repeat defined_step.
    + unfold unpackmreq_string. zcases; [done|]. destruct (Hget 1) as (b & -> & ?); [lia|]. rstep.
      zcases; [done|]. by repeat defined_step.
  - unfold lunpackresponse. zcases; try done.
    all: destruct (unpack_uint32_defined buf 0) as [? ->]; [lia|lia|rstep].
    all: destruct (zget_in_range buf 4) as [t ->]; [lia|rstep].
    all: zcases; try done; by repeat defined_step.
Qed.

Lemma unpack_in_bounds_witness : bytes [128; 200; 1] /\
  (lunpackrequest [128; 200; 1] <> Fault /\ lunpackresponse [128; 200; 1] <> Fault).
Proof. split; [solve_bytes|]. apply unpack_in_bounds. solve_bytes. Defined.
