(* ===== verification/NetPack.v ===== *)
(** * Packages of a Lua gate (lualib-src/lua-netpack.c)

    The socket messages of many connections, cut into packages of a big-endian
    16-bit size and the data. What a connection has received of its next
    package waits in a hash table of lists of [uncomplete]s, keyed by the
    connection; complete packages are returned at once or wait in a ring that
    grows. The lists of the table are Coq lists, first node first, and a block
    of memory is its bytes; what [skynet_malloc] leaves in a block is 0xCD. The
    capacity of the ring is bounded by memory only. *)
From S2P Require Import Prelude.

Definition QUEUESIZE : Z := 1024.
Definition HASHSIZE : Z := 4096.

(** ** Data *)

Record netpack : Set := Netpack {
  np_id : Z;
  np_size : Z;
  np_buffer : list Z
}.

Record uncomplete : Set := Uncomplete {
  uc_pack : netpack;
  uc_read : Z;
  uc_header : Z
}.

Record queue : Set := Queue {
  q_cap : Z;
  q_head : Z;
  q_tail : Z;
  q_hash : list (list uncomplete);
  q_queue : list (option netpack)
}.

Definition set_hash (h : list (list uncomplete)) (q : queue) : queue :=
  Queue (q_cap q) (q_head q) (q_tail q) h (q_queue q).

Definition skynet_malloc (size : Z) : list Z := replicate (Z.to_nat size) 0xCD.

(** ** The table of uncomplete packages *)

Definition hash_fd (fd : Z) : Z :=
  let a := Z.shiftr fd 24 in
  let b := Z.shiftr fd 12 in
  let c := fd in
  u32 (a + b + c) mod HASHSIZE.

(** The first node of [fd] and the list without it. *)
Fixpoint unlink (l : list uncomplete) (fd : Z) : option (uncomplete * list uncomplete) :=
  match l with
  | [] => None
  | uc :: l =>
      if np_id (uc_pack uc) =? fd then Some (uc, l)
      else '(r, l) ← unlink l fd; Some (r, uc :: l)
  end.

(** The queue is the userdata at index 1, [None] before there is one. *)
Definition find_uncomplete (q : option queue) (fd : Z) : result (option uncomplete * option queue) :=
  match q with
  | None => Ok (None, q)
  | Some qu =>
      let h := hash_fd fd in
      l ← zget (q_hash qu) h;
      match unlink l fd with
      | None => Ok (None, q)
      | Some (uc, l) => hash ← zset (q_hash qu) h l; Ok (Some uc, Some (set_hash hash qu))
      end
  end.

Definition new_queue : queue :=
  Queue QUEUESIZE 0 0 (replicate (Z.to_nat HASHSIZE) []) (replicate (Z.to_nat QUEUESIZE) None).

Definition get_queue (q : option queue) : queue := match q with None => new_queue | Some q => q end.

(** [uc] becomes the first node of its list. *)
Definition link (q : queue) (fd : Z) (uc : uncomplete) : result queue :=
  let h := hash_fd fd in
  l ← zget (q_hash q) h;
  hash ← zset (q_hash q) h (uc :: l);
  Ok (set_hash hash q).

(** [fill] sets the fields of the new node, which is zeroed. *)
Definition save_uncomplete (q : option queue) (fd : Z) (fill : uncomplete -> uncomplete) : result (option queue) :=
  let uc := Uncomplete (Netpack fd 0 []) 0 0 in
  q ← link (get_queue q) fd (fill uc);
  Ok (Some q).

(** [uc->read = -1; uc->header = *buffer;] *)
Definition fill_header (header : Z) (uc : uncomplete) : uncomplete := Uncomplete (uc_pack uc) (-1) header.

(** [uc->read], [uc->pack.size] and the block with the bytes [data]. *)
Definition fill_part (pack_size : Z) (block : list Z) (read : Z) (uc : uncomplete) : uncomplete :=
  Uncomplete (Netpack (np_id (uc_pack uc)) pack_size block) read (uc_header uc).

(** ** The ring *)

Definition expand_queue (q : queue) : result queue :=
  l ← mapM (fun i => zget (q_queue q) ((q_head q + i) mod q_cap q)) (seqZ 0 (q_cap q));
  Ok (Queue (q_cap q + QUEUESIZE) 0 (q_cap q) (q_hash q) (l ++ replicate (Z.to_nat QUEUESIZE) None)).

(** [buffer]: the first [size] bytes are copied if [clone], else the block is
    taken over. *)
Definition push_data (q : option queue) (fd : Z) (buffer : list Z) (size : Z) (clone : bool) : result (option queue) :=
  buffer ← (if clone then slice buffer 0 size else Ok buffer);
  let q := get_queue q in
  l ← zset (q_queue q) (q_tail q) (Some (Netpack fd size buffer));
  let tail := if q_cap q <=? q_tail q + 1 then q_tail q + 1 - q_cap q else q_tail q + 1 in
  let q := Queue (q_cap q) (q_head q) tail (q_hash q) l in
  if q_head q =? q_tail q then q ← expand_queue q; Ok (Some q) else Ok (Some q).

(** ** Filtering *)

Definition read_size (buffer : list Z) : result Z :=
  b0 ← zget buffer 0;
  b1 ← zget buffer 1;
  Ok (Z.lor (Z.shiftl b0 8) b1).

(** A new block of [pack_size] bytes with [data] first. *)
Definition part_block (pack_size : Z) (data : list Z) : result (list Z) := blit (skynet_malloc pack_size) 0 data.

Fixpoint push_more (fuel : nat) (q : option queue) (fd : Z) (buffer : list Z) : result (option queue) :=
  match fuel with
  | O => Fault
  | S fuel =>
      let size := zlen buffer in
      if size =? 1 then
        b ← zget buffer 0;
        save_uncomplete q fd (fill_header b)
      else
        pack_size ← read_size buffer;
        let buffer := drop 2 buffer in
        let size := size - 2 in
        if size <? pack_size then
          block ← part_block pack_size buffer;
          save_uncomplete q fd (fill_part pack_size block size)
        else
          q ← push_data q fd buffer pack_size true;
          let buffer := drop (Z.to_nat pack_size) buffer in
          let size := size - pack_size in
          if 0 <? size then push_more fuel q fd buffer else Ok q
  end.

(** What [lfilter] pushes after the queue. *)
Inductive filtered : Set :=
| FNone
| FData (fd : Z) (buffer : list Z) (size : Z)
| FMore
| FError (id : Z) (msg : list Z)
| FOpen (fd : Z) (msg : list Z)
| FClose (id : Z)
| FWarning (id ud : Z).

(** The branch of [filter_data_] where [fd] has an uncomplete package. *)
Definition fill_uncomplete (q : option queue) (fd : Z) (uc : uncomplete) (buffer : list Z) : result (option queue * filtered) :=
  '(uc, buffer) ←
    (if uc_read uc <? 0 then
       _ ← assert_ (uc_read uc =? -1);
       b ← zget buffer 0;
       let pack_size := Z.lor b (Z.shiftl (uc_header uc) 8) in
       Ok (fill_part pack_size (skynet_malloc pack_size) 0 uc, drop 1 buffer)
     else Ok (uc, buffer));
  let size := zlen buffer in
  let need := np_size (uc_pack uc) - uc_read uc in
  if size <? need then
    block ← blit (np_buffer (uc_pack uc)) (uc_read uc) buffer;
    qu ← deref q;
    qu ← link qu fd (fill_part (np_size (uc_pack uc)) block (uc_read uc + size) uc);
    Ok (Some qu, FNone)
  else
    part ← slice buffer 0 need;
    block ← blit (np_buffer (uc_pack uc)) (uc_read uc) part;
    let buffer := drop (Z.to_nat need) buffer in
    let size := size - need in
    if size =? 0 then Ok (q, FData fd block (np_size (uc_pack uc)))
    else
      q ← push_data q fd block (np_size (uc_pack uc)) false;
      q ← push_more (S (length buffer)) q fd buffer;
      Ok (q, FMore).

(** The branch where it has none. *)
Definition fill_fresh (q : option queue) (fd : Z) (buffer : list Z) : result (option queue * filtered) :=
  let size := zlen buffer in
  if size =? 1 then
    b ← zget buffer 0;
    q ← save_uncomplete q fd (fill_header b);
    Ok (q, FNone)
  else
    pack_size ← read_size buffer;
    let buffer := drop 2 buffer in
    let size := size - 2 in
    if size <? pack_size then
      block ← part_block pack_size buffer;
      q ← save_uncomplete q fd (fill_part pack_size block size);
      Ok (q, FNone)
    else if size =? pack_size then
      Ok (q, FData fd buffer size)
    else
      q ← push_data q fd buffer pack_size true;
      let buffer := drop (Z.to_nat pack_size) buffer in
      q ← push_more (S (length buffer)) q fd buffer;
      Ok (q, FMore).

Definition filter_data (q : option queue) (fd : Z) (buffer : list Z) : result (option queue * filtered) :=
  '(uc, q) ← find_uncomplete q fd;
  match uc with
  | Some uc => fill_uncomplete q fd uc buffer
  | None => fill_fresh q fd buffer
  end.

Definition close_uncomplete (q : option queue) (fd : Z) : result (option queue) :=
  '(_, q) ← find_uncomplete q fd;
  Ok q.

(** [pushstring]: the strings follow the message in its block, and a size of
    -1 is one Lua refuses. *)
Definition pushstring (buffer : option (list Z)) (padding : list Z) : result (list Z) :=
  match buffer with
  | Some _ => LuaError "memory allocation error: block too big"
  | None => Ok padding
  end.

Definition SKYNET_SOCKET_TYPE_DATA : Z := 1.
Definition SKYNET_SOCKET_TYPE_CONNECT : Z := 2.
Definition SKYNET_SOCKET_TYPE_CLOSE : Z := 3.
Definition SKYNET_SOCKET_TYPE_ACCEPT : Z := 4.
Definition SKYNET_SOCKET_TYPE_ERROR : Z := 5.
Definition SKYNET_SOCKET_TYPE_WARNING : Z := 7.

(** A message of the socket threads: [sm_buffer] is [None] when the text is in
    [sm_padding], behind the message. The data of a connection are [sm_ud]
    bytes. *)
Record skynet_socket_message : Set := SocketMessage {
  sm_type : Z;
  sm_id : Z;
  sm_ud : Z;
  sm_buffer : option (list Z);
  sm_padding : list Z
}.

Definition lfilter (q : option queue) (message : skynet_socket_message) : result (option queue * filtered) :=
  let t := sm_type message in
  if t =? SKYNET_SOCKET_TYPE_DATA then
    buffer ← deref (sm_buffer message);
    buffer ← slice buffer 0 (sm_ud message);
    filter_data q (sm_id message) buffer
  else if t =? SKYNET_SOCKET_TYPE_CONNECT then Ok (q, FNone)
  else if t =? SKYNET_SOCKET_TYPE_CLOSE then
    q ← close_uncomplete q (sm_id message);
    Ok (q, FClose (sm_id message))
  else if t =? SKYNET_SOCKET_TYPE_ACCEPT then
    s ← pushstring (sm_buffer message) (sm_padding message);
    Ok (q, FOpen (sm_ud message) s)
  else if t =? SKYNET_SOCKET_TYPE_ERROR then
    q ← close_uncomplete q (sm_id message);
    s ← pushstring (sm_buffer message) (sm_padding message);
    Ok (q, FError (sm_id message) s)
  else if t =? SKYNET_SOCKET_TYPE_WARNING then Ok (q, FWarning (sm_id message) (sm_ud message))
  else Ok (q, FNone).

Definition lpop (q : option queue) : result (option netpack * option queue) :=
  match q with
  | None => Ok (None, q)
  | Some qu =>
      if q_head qu =? q_tail qu then Ok (None, q)
      else
        slot ← zget (q_queue qu) (q_head qu);
        np ← deref slot;
        let head := if q_cap qu <=? q_head qu + 1 then 0 else q_head qu + 1 in
        Ok (Some np, Some (Queue (q_cap qu) head (q_tail qu) (q_hash qu) (q_queue qu)))
  end.

(** The blocks [lclear] frees, and the emptied queue. *)
Definition lclear (q : option queue) : result (list (list Z) * option queue) :=
  match q with
  | None => Ok ([], q)
  | Some q =>
      let tail := if q_tail q <? q_head q then q_tail q + q_cap q else q_tail q in
      l ← mapM (fun i => slot ← zget (q_queue q) (i mod q_cap q); np ← deref slot; Ok (np_buffer np))
            (seqZ (q_head q) (tail - q_head q));
      Ok (((fun uc => np_buffer (uc_pack uc)) <$> concat (q_hash q)) ++ l,
          Some (Queue (q_cap q) 0 0 (replicate (Z.to_nat HASHSIZE) []) (q_queue q)))
  end.

(** ** Packing *)

Definition write_size (len : Z) : list Z := [Z.land (Z.shiftr len 8) 0xff; Z.land len 0xff].

Definition lpack (ptr : list Z) (len : Z) : result (list Z * Z) :=
  if 0x10000 <=? len then LuaError "Invalid size (too long) of data"
  else
    data ← slice ptr 0 len;
    Ok (write_size len ++ data, len + 2).

(** [ptr] is [None] for [NULL]. *)
Definition ltostring (ptr : option (list Z)) (size : Z) : result (list Z) :=
  match ptr with
  | None => Ok []
  | Some p => if size <? 0 then LuaError "memory allocation error: block too big" else slice p 0 size
  end.

(** ** Specification: the packages of a stream *)

(** The complete packages of [s] and what is left. *)
Fixpoint parse (fuel : nat) (s : list Z) : list (list Z) * list Z :=
  match fuel with
  | O => ([], s)
  | S fuel =>
      match s with
      | b0 :: b1 :: d =>
          let n := b0 * 256 + b1 in
          if zlen d <? n then ([], s)
          else let '(fs, r) := parse fuel (drop (Z.to_nat n) d) in (take (Z.to_nat n) d :: fs, r)
      | _ => ([], s)
      end
  end.

Definition pieces (s : list Z) : list (list Z) * list Z := parse (S (length s)) s.

Lemma parse_fuel f1 f2 s : (length s < f1)%nat -> (length s < f2)%nat -> parse f1 s = parse f2 s.
Proof.
  revert f2 s. induction f1 as [|f1 IH]; intros f2 s H1 H2; [lia|]. destruct f2 as [|f2]; [lia|]. cbn [parse].
  destruct s as [|b0 [|b1 d]]; [done..|]. destruct (_ <? _); [done|].
  rewrite (IH f2); [done|rewrite length_drop; cbn in *; lia..].
Qed.

Lemma pieces_short s : (length s < 2)%nat -> pieces s = ([], s).
Proof. destruct s as [|b0 [|b1 d]]; cbn [length]; intros; [done..|lia]. Qed.

Lemma pieces_wait b0 b1 d : zlen d < b0 * 256 + b1 -> pieces (b0 :: b1 :: d) = ([], b0 :: b1 :: d).
Proof. intros. unfold pieces. cbn [parse]. destruct (Z.ltb_spec (zlen d) (b0 * 256 + b1)); [done|lia]. Qed.

Lemma pieces_take b0 b1 p d : zlen p = b0 * 256 + b1 ->
  pieces (b0 :: b1 :: p ++ d) = (p :: fst (pieces d), snd (pieces d)).
Proof.
  intros Hp. unfold pieces at 1. cbn [parse]. rewrite <- Hp.
  destruct (Z.ltb_spec (zlen (p ++ d)) (zlen p)) as [H|H]; [rewrite zlen_app in H; pose proof (zlen_nonneg d); lia|].
  unfold zlen. rewrite Nat2Z.id, drop_app_length, take_app_length.
  rewrite (parse_fuel _ (S (length d))) by (rewrite ?length_app; cbn; rewrite ?length_app; lia). fold (pieces d). by destruct (pieces d).
Qed.

(** Every stream of bytes is a short one, an incomplete package, or a package
    and a shorter stream. *)
Lemma pieces_ind (P : list Z -> Prop) :
  (forall s, (length s < 2)%nat -> P s) ->
  (forall b0 b1 d, zlen d < b0 * 256 + b1 -> P (b0 :: b1 :: d)) ->
  (forall b0 b1 p d, zlen p = b0 * 256 + b1 -> P d -> P (b0 :: b1 :: p ++ d)) ->
  forall s, bytes s -> P s.
Proof.
  intros H1 H2 H3 s. remember (length s) as n eqn:E. assert (length s <= n)%nat as Hn by lia. clear E. revert s Hn.
  induction n as [|n IH]; intros s Hn Hb; [apply H1; lia|].
  destruct s as [|b0 [|b1 d]]; [apply H1; cbn; lia..|].
  destruct (Z.ltb_spec (zlen d) (b0 * 256 + b1)); [by apply H2|].
  unfold bytes in Hb. rewrite !Forall_cons in Hb. destruct Hb as (Hb0 & Hb1 & Hd). unfold is_byte in *.
  rewrite <- (take_drop (Z.to_nat (b0 * 256 + b1)) d). apply H3.
  - unfold zlen in *. rewrite length_take. lia.
  - apply IH; [rewrite length_drop; cbn in Hn; lia|by apply bytes_drop].
Qed.

(** Cutting a longer stream resumes where the shorter one was left. *)
Lemma pieces_app s t : bytes s ->
  pieces (s ++ t) = (fst (pieces s) ++ fst (pieces (snd (pieces s) ++ t)), snd (pieces (snd (pieces s) ++ t))).
Proof.
  revert s. apply pieces_ind.
  - intros s Hs. rewrite (pieces_short s Hs). cbn [fst snd app]. by destruct (pieces (s ++ t)).
  - intros b0 b1 d Hd. rewrite (pieces_wait b0 b1 d Hd). cbn [fst snd app]. by destruct (pieces _).
  - intros b0 b1 p d Hp IH. rewrite pieces_take by done. cbn [fst snd]. cbn [app]. rewrite <- app_assoc, pieces_take by done.
    by rewrite IH.
Qed.

Lemma pieces_rest s : bytes s -> pieces (snd (pieces s)) = ([], snd (pieces s)).
Proof.
  revert s. apply pieces_ind.
  - intros s Hs. rewrite (pieces_short s Hs). by apply pieces_short.
  - intros b0 b1 d Hd. rewrite (pieces_wait b0 b1 d Hd). by apply pieces_wait.
  - intros b0 b1 p d Hp IH. by rewrite pieces_take.
Qed.

Lemma pieces_bytes s : bytes s -> bytes (snd (pieces s)).
Proof.
  intros Hs. revert s Hs Hs. apply (pieces_ind (fun s => bytes s -> bytes (snd (pieces s)))).
  - intros s Hs Hb. by rewrite (pieces_short s Hs).
  - intros b0 b1 d Hd Hb. by rewrite (pieces_wait b0 b1 d Hd).
  - intros b0 b1 p d Hp IH Hb. rewrite pieces_take by done. apply IH. unfold bytes in Hb. rewrite !Forall_cons in Hb.
    destruct Hb as (_ & _ & Hb). by apply bytes_app in Hb as [_ Hb].
Qed.

(** ** What the queue holds *)

(** The ring holds the packages [l], oldest first. *)
Record ring_rep (q : queue) (l : list netpack) : Prop := RingRep {
  ring_size : zlen (q_queue q) = q_cap q;
  ring_head : 0 <= q_head q < q_cap q;
  ring_len : zlen l < q_cap q;
  ring_tail : q_tail q = (q_head q + zlen l) mod q_cap q;
  ring_slots : forall i np, l !! i = Some np ->
    q_queue q !! Z.to_nat ((q_head q + Z.of_nat i) mod q_cap q) = Some (Some np)
}.

(** A node that waits for the rest of the package that starts with [r]. *)
Definition waits (r : list Z) (uc : uncomplete) : Prop :=
  (exists b, r = [b] /\ uc_read uc = -1 /\ uc_header uc = b)
  \/ (exists b0 b1 d, r = b0 :: b1 :: d /\ np_size (uc_pack uc) = b0 * 256 + b1 /\ zlen d < b0 * 256 + b1
      /\ uc_read uc = zlen d /\ zlen (np_buffer (uc_pack uc)) = b0 * 256 + b1
      /\ take (length d) (np_buffer (uc_pack uc)) = d).

Definition ids (l : list uncomplete) : list Z := (fun uc => np_id (uc_pack uc)) <$> l.

(** The table holds, for each connection [fd], what it received and was not
    delivered, [P fd]. *)
Record hash_rep (q : queue) (P : Z -> list Z) : Prop := HashRep {
  hash_size : zlen (q_hash q) = HASHSIZE;
  hash_nodup : forall h l, q_hash q !! h = Some l -> NoDup (ids l);
  hash_waits : forall fd l, q_hash q !! Z.to_nat (hash_fd fd) = Some l ->
    match unlink l fd with
    | None => P fd = []
    | Some (uc, _) => waits (P fd) uc
    end;
  hash_bytes : forall fd, bytes (P fd)
}.

Definition rep (q : option queue) (P : Z -> list Z) (l : list netpack) : Prop :=
  hash_rep (get_queue q) P /\ ring_rep (get_queue q) l.

Definition upd (P : Z -> list Z) (fd : Z) (r : list Z) : Z -> list Z := fun x => if x =? fd then r else P x.

Lemma hash_fd_range fd : 0 <= hash_fd fd < HASHSIZE.
Proof. apply Z.mod_pos_bound. done. Qed.

Lemma hash_ext q P P' : (forall x, P x = P' x) -> hash_rep q P -> hash_rep q P'.
Proof.
  intros E [H1 H2 H3 H4]. constructor; [done|done| |].
  - intros fd l Hl. specialize (H3 fd l Hl). destruct (unlink l fd) as [[uc l']|]; by rewrite <- E.
  - intros fd. by rewrite <- E.
Qed.

Lemma unlink_spec l fd : NoDup (ids l) ->
  match unlink l fd with
  | None => fd ∉ ids l
  | Some (uc, l') => np_id (uc_pack uc) = fd /\ fd ∉ ids l' /\ NoDup (ids l') /\ (forall x, x ∈ ids l' -> x ∈ ids l)
      /\ (forall x, x <> fd -> fst <$> unlink l' x = fst <$> unlink l x)
  end.
Proof.
  induction l as [|uc l IH]; intros Hn; cbn [unlink]; [apply not_elem_of_nil|].
  apply NoDup_cons in Hn as [Hni Hn]. destruct (Z.eqb_spec (np_id (uc_pack uc)) fd) as [<-|Hne].
  - split; [done|]. split; [done|]. split; [done|]. split; [by right|]. intros x Hx. cbn.
    destruct (Z.eqb_spec (np_id (uc_pack uc)) x); [congruence|]. by destruct (unlink l x) as [[]|].
  - specialize (IH Hn). destruct (unlink l fd) as [[r l']|]; cbn.
    + destruct IH as (Hid & Hni' & Hn' & Hsub & Hx). split; [done|].
      split; [intros [?|?]%elem_of_cons; [congruence|done]|]. split; [constructor; [|done]; intros ?; by apply Hni, Hsub|].
      split; [intros x [->|?]%elem_of_cons; [by left|right; auto]|].
      intros x Hxf. destruct (_ =? x); [done|]. specialize (Hx x Hxf).
      destruct (unlink l' x) as [[]|], (unlink l x) as [[]|]; cbn in *; congruence.
    + intros [?|?]%elem_of_cons; [congruence|done].
Qed.

(** ** The operations on the table *)

Lemma hash_bucket q P fd : hash_rep q P -> exists l,
  zget (q_hash q) (hash_fd fd) = Ok l /\ q_hash q !! Z.to_nat (hash_fd fd) = Some l.
Proof.
  intros H. pose proof (hash_fd_range fd). destruct (zget_in_range (q_hash q) (hash_fd fd)) as [l E]; [rewrite (hash_size _ _ H); lia|].
  exists l. split; [done|]. by apply zget_Ok in E as [_ E].
Qed.

(** Replacing the list of [fd]'s bucket by one that differs only on [fd]. *)
Lemma hash_store q P fd l l' hash : hash_rep q P ->
  q_hash q !! Z.to_nat (hash_fd fd) = Some l -> hash = <[Z.to_nat (hash_fd fd) := l']> (q_hash q) ->
  NoDup (ids l') -> (forall x, x <> fd -> fst <$> unlink l' x = fst <$> unlink l x) ->
  forall r, bytes r -> match unlink l' fd with None => r = [] | Some (uc, _) => waits r uc end ->
  hash_rep (set_hash hash q) (upd P fd r).
Proof.
  intros [H1 H2 H3 H4] Hl -> Hn Hx r Hr Hw. pose proof (hash_fd_range fd).
  assert (Z.to_nat (hash_fd fd) < length (q_hash q))%nat as Hlt by (unfold zlen, HASHSIZE in *; lia).
  constructor; cbn [set_hash q_hash].
  - unfold zlen. by rewrite length_insert.
  - intros h k Hk. apply list_lookup_insert_Some in Hk as [(<- & <- & _)|(_ & Hk)]; [done|]. by eapply H2.
  - intros x k Hk. unfold upd. apply list_lookup_insert_Some in Hk as [(E & -> & _)|(Hne & Hk)].
    + destruct (Z.eqb_spec x fd) as [->|Hxf]; [exact Hw|]. rewrite E in Hl. specialize (H3 x l Hl). specialize (Hx x Hxf).
      destruct (unlink k x) as [[]|], (unlink l x) as [[]|]; cbn in *; congruence.
    + destruct (Z.eqb_spec x fd) as [->|Hxf]; [done|]. by apply H3.
  - intros x. unfold upd. by destruct (x =? fd).
Qed.

Lemma set_hash_ring hash q l : ring_rep q l -> ring_rep (set_hash hash q) l.
Proof. intros []. by constructor. Qed.

(** Taking out the node of [fd]. *)
Lemma find_uncomplete_rep q P l fd : rep q P l ->
  match P fd with
  | [] => find_uncomplete q fd = Ok (None, q)
  | r => exists uc qu, find_uncomplete q fd = Ok (Some uc, Some qu) /\ np_id (uc_pack uc) = fd /\ waits r uc
                       /\ rep (Some qu) (upd P fd []) l
  end.
Proof.
  intros [HH HR]. destruct (hash_bucket (get_queue q) P fd HH) as (b & E & Hb).
  pose proof (hash_waits _ _ HH fd b Hb) as Hw. pose proof (unlink_spec b fd (hash_nodup _ _ HH _ _ Hb)) as Hu.
  destruct (unlink b fd) as [[uc b']|] eqn:Eu.
  - destruct q as [qu|]; [|cbn in Hb; apply lookup_replicate in Hb as [-> _]; done].
    assert (P fd <> []) as Hne.
    { intros Hnil. rewrite Hnil in Hw. destruct Hw as [(b0 & ? & _)|(b0 & b1 & d & ? & _)]; done. }
    destruct Hu as (Hid & Hni & Hn & _ & Hx). cbn [get_queue] in *.
    assert (find_uncomplete (Some qu) fd = Ok (Some uc, Some (set_hash (<[Z.to_nat (hash_fd fd) := b']> (q_hash qu)) qu))) as Ef.
    { unfold find_uncomplete. rewrite E. rstep. rewrite Eu, zset_Ok; [done|].
      rewrite (hash_size _ _ HH). apply hash_fd_range. }
    destruct (P fd) as [|r0 rs] eqn:EP; [done|]. rewrite Ef. do 2 eexists. split; [done|]. split; [done|]. split; [done|].
    split; [|by apply set_hash_ring].
    eapply hash_store; [done|exact Hb|done|done|exact Hx|by apply Forall_nil|].
    pose proof (unlink_spec b' fd Hn) as Hu'. destruct (unlink b' fd) as [[uc' b2]|] eqn:E2; [|done].
    destruct Hu' as (Hid' & _). exfalso. apply Hni. clear -E2 Hid'. revert uc' b2 Hid' E2.
    induction b' as [|x b' IH]; intros uc' b2 Hid' E2; [done|]. cbn in *. destruct (Z.eqb_spec (np_id (uc_pack x)) fd) as [Hx|Hx].
    + rewrite <- Hx. by left.
    + right. destruct (unlink b' fd) as [[r l']|] eqn:E; [|done]. cbn in E2. injection E2 as -> _. by eapply IH.
  - rewrite Hw. destruct q as [qu|]; [|done]. cbn [get_queue] in *. unfold find_uncomplete. rewrite E. rstep. by rewrite Eu.
Qed.

(** Adding a node for a connection that has none. *)
Lemma link_rep q P l fd uc r : rep q P l -> P fd = [] -> np_id (uc_pack uc) = fd -> waits r uc -> bytes r ->
  exists qu, link (get_queue q) fd uc = Ok qu /\ rep (Some qu) (upd P fd r) l.
Proof.
  intros [HH HR] HP Hid Hw Hr. destruct (hash_bucket (get_queue q) P fd HH) as (b & E & Hb).
  pose proof (hash_waits _ _ HH fd b Hb) as Hwb. pose proof (unlink_spec b fd (hash_nodup _ _ HH _ _ Hb)) as Hu.
  destruct (unlink b fd) as [[uc' b']|].
  { rewrite HP in Hwb. by destruct Hwb as [(b0 & ? & _)|(b0 & b1 & d & ? & _)]. }
  unfold link. rewrite E. rstep. rewrite zset_Ok by (rewrite (hash_size _ _ HH); apply hash_fd_range). rstep.
  eexists. split; [done|]. split; [|by apply set_hash_ring].
  eapply (hash_store _ _ _ b (uc :: b)); [done|done|done| | |done|].
  - constructor; [by rewrite Hid|]. by eapply hash_nodup.
  - intros x Hx. cbn. destruct (Z.eqb_spec (np_id (uc_pack uc)) x); [congruence|]. by destruct (unlink b x) as [[]|].
  - cbn. by rewrite (proj2 (Z.eqb_eq _ _) Hid).
Qed.

Lemma save_uncomplete_rep q P l fd fill r : rep q P l -> P fd = [] ->
  np_id (uc_pack (fill (Uncomplete (Netpack fd 0 []) 0 0))) = fd -> waits r (fill (Uncomplete (Netpack fd 0 []) 0 0)) -> bytes r ->
  exists q', save_uncomplete q fd fill = Ok q' /\ rep q' (upd P fd r) l.
Proof.
  intros. unfold save_uncomplete. destruct (link_rep q P l fd (fill (Uncomplete (Netpack fd 0 []) 0 0)) r) as (qu & -> & Hqu); [done..|].
  rstep. eauto.
Qed.

(** ** The ring *)

Lemma expand_queue_ring q l : q_cap q = zlen l -> zlen (q_queue q) = q_cap q -> 0 <= q_head q < q_cap q ->
  (forall i np, l !! i = Some np -> q_queue q !! Z.to_nat ((q_head q + Z.of_nat i) mod q_cap q) = Some (Some np)) ->
  exists q', expand_queue q = Ok q' /\ ring_rep q' l /\ q_hash q' = q_hash q.
Proof.
  intros Hc Hs Hh Hslots. unfold expand_queue.
  destruct l as [|np0 l0] eqn:El; [unfold zlen in Hc; cbn in Hc; lia|]. rewrite <- El in *. clear El l0.
  assert (Hg : forall i, i ∈ seqZ 0 (q_cap q) ->
    zget (q_queue q) ((q_head q + i) mod q_cap q) = Ok (Some (default np0 (l !! Z.to_nat i)))).
  { intros i Hi%elem_of_seqZ. destruct (lookup_lt_is_Some_2 l (Z.to_nat i)) as [np Hnp]; [zlia|].
    pose proof (Hslots _ _ Hnp) as H. rewrite Z2Nat.id in H by lia. rewrite Hnp. cbn.
    apply zget_Some; [apply Z.mod_pos_bound; lia|done]. }
  rewrite (mapM_ok _ _ _ Hg). rstep. eexists. split; [done|]. split; [|done].
  unfold QUEUESIZE. constructor; cbn [q_cap q_head q_tail q_queue]; try lia.
  - unfold zlen. rewrite length_app, length_fmap, length_seqZ, length_replicate. lia.
  - rewrite Z.mod_small; lia.
  - intros i np Hi. assert (Hi' := lookup_lt_Some _ _ _ Hi). unfold zlen in *.
    rewrite Z.mod_small by lia. rewrite lookup_app_l by (rewrite length_fmap, length_seqZ; lia).
    rewrite list_lookup_fmap, lookup_seqZ_lt by lia. cbn.
    replace (Z.to_nat (0 + Z.of_nat (Z.to_nat (0 + Z.of_nat i)))) with i by lia. by rewrite Hi.
Qed.

Lemma push_data_rep q P l fd buffer p (clone : bool) : rep q P l ->
  (if clone then exists rest, buffer = p ++ rest else buffer = p) ->
  exists q', push_data q fd buffer (zlen p) clone = Ok q' /\ rep q' P (l ++ [Netpack fd (zlen p) p]).
Proof.
  intros [HH [R1 R2 R3 R4 R5]] Hb. unfold push_data.
  assert ((if clone then slice buffer 0 (zlen p) else Ok buffer) = Ok p) as ->.
  { destruct clone; [|by subst]. destruct Hb as [rest ->]. rewrite slice_Ok by (rewrite ?zlen_app; zlia).
    unfold zlen. by rewrite Nat2Z.id, drop_0, take_app_length. }
  rstep. set (qu := get_queue q) in *. set (np := Netpack fd (zlen p) p). pose proof (zlen_nonneg l).
  assert (0 <= q_tail qu < q_cap qu) as Ht by (rewrite R4; apply Z.mod_pos_bound; lia).
  rewrite zset_Ok by lia. rstep. set (ql := <[_ := _]> (q_queue qu)).
  set (tl := if q_cap qu <=? q_tail qu + 1 then _ else _).
  assert (tl = (q_head qu + (zlen l + 1)) mod q_cap qu) as Etl.
  { subst tl. pose proof R4 as T. rewrite mod_wrap in T by lia. rewrite mod_wrap by lia. revert T. zcases; lia. }
  assert (Hslots : forall i m, (l ++ [np]) !! i = Some m -> ql !! Z.to_nat ((q_head qu + Z.of_nat i) mod q_cap qu) = Some (Some m)).
  { intros i m Hi. subst ql. apply lookup_snoc_Some in Hi as [[Hi Hm]|[-> <-]].
    - rewrite list_lookup_insert_ne; [by apply R5|]. rewrite R4. unfold zlen in *. rewrite !mod_wrap by lia. zcases; lia.
    - rewrite R4. apply list_lookup_insert_eq. unfold zlen in *. rewrite <- R4. lia. }
  assert (zlen ql = q_cap qu) as Hql by (unfold zlen, ql in *; rewrite length_insert; lia).
  assert (zlen (l ++ [np]) = zlen l + 1) as Hlm by (rewrite zlen_app; done).
  cbn [q_head q_tail q_cap]. destruct (Z.eqb_spec (q_head qu) tl) as [Ef|Ef].
  - assert (zlen l + 1 = q_cap qu) as Hfull by (rewrite Etl, mod_wrap in Ef by lia; revert Ef; zcases; lia).
    destruct (expand_queue_ring (Queue (q_cap qu) (q_head qu) tl (q_hash qu) ql) (l ++ [np])) as (q' & -> & HR & Hh);
      [cbn; lia|done|cbn; lia|done|]. rstep. exists (Some q'). split; [done|]. split; [|done].
    destruct HH as [? ? ? ?]. constructor; cbn [get_queue]; by rewrite ?Hh.
  - exists (Some (Queue (q_cap qu) (q_head qu) tl (q_hash qu) ql)). split; [done|]. split; [by destruct HH|].
    constructor; cbn [get_queue q_cap q_head q_tail q_queue]; rewrite ?Hlm; try done.
    rewrite Etl, mod_wrap in Ef by lia. revert Ef. zcases; lia.
Qed.

(** Popping the oldest package. *)
Lemma lpop_rep q P l : rep q P l ->
  match l with
  | [] => lpop q = Ok (None, q)
  | np :: l' => exists q', lpop q = Ok (Some np, q') /\ rep q' P l'
  end.
Proof.
  intros [HH [R1 R2 R3 R4 R5]]. destruct q as [qu|]; cbn [get_queue lpop] in *.
  2: { destruct l as [|np l]; [done|]. specialize (R5 O np eq_refl). rewrite Z.add_0_r in R5. by vm_compute in R5. }
  pose proof (zlen_nonneg l). rewrite mod_wrap in R4 by lia. destruct l as [|np l].
  - unfold zlen in R4. cbn in R4. destruct (Z.eqb_spec (q_head qu) (q_tail qu)); [done|]. revert R4. zcases; lia.
  - assert (zlen (np :: l) = 1 + zlen l) as El by (unfold zlen; cbn [length]; lia). pose proof (zlen_nonneg l).
    destruct (Z.eqb_spec (q_head qu) (q_tail qu)) as [E|_]; [revert R4; zcases; lia|].
    pose proof (R5 O np eq_refl) as H0'. rewrite Z.add_0_r, Z.mod_small in H0' by lia.
    rewrite (zget_Some _ _ (Some np)) by (done || lia). rstep. cbn [deref]. rstep. eexists. split; [done|].
    split; [by destruct HH|]. constructor; cbn [get_queue q_cap q_head q_tail q_queue]; try done.
    + zcases; lia.
    + lia.
    + rewrite R4, mod_wrap by (zcases; lia). zcases; lia.
    + intros i m Hi. specialize (R5 (S i) m Hi). rewrite <- R5. f_equal. f_equal.
      apply lookup_lt_Some in Hi. unfold zlen in *. cbn [length] in *. rewrite !mod_wrap by (zcases; lia). zcases; lia.
Qed.

(** ** Cutting the data of a connection *)

Definition packs (fd : Z) (fs : list (list Z)) : list netpack := (fun p => Netpack fd (zlen p) p) <$> fs.

Lemma rep_ext q P P' l : (forall x, P x = P' x) -> rep q P l -> rep q P' l.
Proof. intros E [H1 H2]. split; [|done]. by eapply hash_ext. Qed.

Lemma upd_upd P fd r r' x : upd (upd P fd r) fd r' x = upd P fd r' x.
Proof. unfold upd. by destruct (x =? fd). Qed.

Lemma upd_eq P fd r : upd P fd r fd = r.
Proof. unfold upd. by rewrite Z.eqb_refl. Qed.

Lemma upd_same P fd r x : P fd = r -> upd P fd r x = P x.
Proof. unfold upd. intros <-. by destruct (Z.eqb_spec x fd) as [->|]. Qed.

Lemma size_bytes b0 b1 : is_byte b0 -> is_byte b1 -> Z.lor (Z.shiftl b0 8) b1 = b0 * 256 + b1.
Proof. unfold is_byte. intros. rewrite Z.lor_comm, lor_shiftl_add by lia. lia. Qed.

Lemma read_size_bytes b0 b1 d : is_byte b0 -> is_byte b1 -> read_size (b0 :: b1 :: d) = Ok (b0 * 256 + b1).
Proof. intros. unfold read_size. change (zget (b0 :: b1 :: d) 0) with (Ok b0). change (zget (b0 :: b1 :: d) 1) with (Ok b1). rstep. by rewrite size_bytes. Qed.

Lemma zlen_malloc n : 0 <= n -> zlen (skynet_malloc n) = n.
Proof. intros. unfold zlen, skynet_malloc. rewrite length_replicate. lia. Qed.

Lemma drop_zlen (p d : list Z) : drop (Z.to_nat (zlen p)) (p ++ d) = d.
Proof. unfold zlen. by rewrite Nat2Z.id, drop_app_length. Qed.

(** Writing behind the [j] bytes a block holds. *)
Lemma block_append block d part : take (length d) block = d -> zlen d + zlen part <= zlen block ->
  exists b, blit block (zlen d) part = Ok b /\ zlen b = zlen block /\ take (length (d ++ part)) b = d ++ part.
Proof.
  intros Hd Hl. destruct (blit_spec block (zlen d) part) as (b & E & Hlb & Ht & _); [apply zlen_nonneg|done|].
  exists b. split; [done|]. split; [unfold zlen; by rewrite Hlb|]. unfold zlen in Ht. rewrite Nat2Z.id, Hd in Ht. by rewrite length_app.
Qed.

Lemma part_block_spec n d : 0 <= n -> zlen d <= n ->
  exists b, part_block n d = Ok b /\ zlen b = n /\ take (length d) b = d.
Proof.
  intros Hn Hd. destruct (block_append (skynet_malloc n) [] d) as (b & E & Hl & Ht); [done|rewrite zlen_malloc by done; change (zlen (@nil Z)) with 0; lia|].
  exists b. rewrite zlen_malloc in Hl by done. done.
Qed.

Lemma waits_part b0 b1 d block uc : zlen d < b0 * 256 + b1 -> zlen block = b0 * 256 + b1 -> take (length d) block = d ->
  waits (b0 :: b1 :: d) (fill_part (b0 * 256 + b1) block (zlen d) uc).
Proof. intros. right. exists b0, b1, d. done. Qed.

(** Saving the rest of a stream that holds no complete package. *)
Lemma save_header q P l fd b : rep q P l -> P fd = [] -> is_byte b ->
  exists q', save_uncomplete q fd (fill_header b) = Ok q' /\ rep q' (upd P fd [b]) l.
Proof.
  intros. apply save_uncomplete_rep; [done..| |by apply Forall_singleton]. left. by exists b.
Qed.

Lemma save_part q P l fd b0 b1 d : rep q P l -> P fd = [] -> bytes (b0 :: b1 :: d) -> zlen d < b0 * 256 + b1 ->
  exists q', (block ← part_block (b0 * 256 + b1) d; save_uncomplete q fd (fill_part (b0 * 256 + b1) block (zlen d))) = Ok q'
    /\ rep q' (upd P fd (b0 :: b1 :: d)) l.
Proof.
  intros HR HP Hb Hd. pose proof (zlen_nonneg d). destruct (part_block_spec (b0 * 256 + b1) d) as (b & -> & Hl & Ht); [lia|lia|].
  rstep. apply save_uncomplete_rep; [done..| |done]. by apply waits_part.
Qed.

Lemma push_more_rep fd buffer : bytes buffer -> buffer <> [] -> forall fuel q P l, (length buffer < fuel)%nat ->
  rep q P l -> P fd = [] ->
  exists q', push_more fuel q fd buffer = Ok q'
    /\ rep q' (upd P fd (snd (pieces buffer))) (l ++ packs fd (fst (pieces buffer))).
Proof.
  intros Hb. pose proof Hb as Hb'. revert Hb'. pattern buffer. revert buffer Hb. apply pieces_ind.
  - intros s Hs Hb Hne fuel q P l Hf HR HP. destruct fuel as [|fuel]; [lia|].
    destruct s as [|b [|? ?]]; [done| |cbn in Hs; lia]. rewrite pieces_short by done. cbn [push_more].
    change (l ++ packs fd (fst (@nil (list Z), [b]))) with (l ++ []). rewrite app_nil_r. apply save_header; [done..|]. by inversion Hb.
  - intros b0 b1 d Hd Hb _ fuel q P l Hf HR HP. destruct fuel as [|fuel]; [lia|]. rewrite pieces_wait by done. cbn [push_more].
    assert (zlen (b0 :: b1 :: d) = 2 + zlen d) as El by (unfold zlen; cbn [length]; lia). pose proof (zlen_nonneg d).
    rewrite El. destruct (Z.eqb_spec (2 + zlen d) 1); [lia|]. pose proof Hb as Hb'.
    unfold bytes in Hb'. rewrite !Forall_cons in Hb'. destruct Hb' as (? & ? & _). rewrite read_size_bytes by done. rstep.
    change (drop 2 (b0 :: b1 :: d)) with d. replace (2 + zlen d - 2) with (zlen d) by lia.
    destruct (Z.ltb_spec (zlen d) (b0 * 256 + b1)); [|lia].
    change (l ++ packs fd (fst (@nil (list Z), b0 :: b1 :: d))) with (l ++ []). rewrite app_nil_r. by apply save_part.
  - intros b0 b1 p d Hp IH Hb _ fuel q P l Hf HR HP. destruct fuel as [|fuel]; [lia|]. rewrite pieces_take by done. cbn [push_more].
    assert (zlen (b0 :: b1 :: p ++ d) = 2 + (zlen p + zlen d)) as El by (unfold zlen; cbn [length]; rewrite length_app; lia).
    pose proof (zlen_nonneg d). pose proof (zlen_nonneg p). rewrite El. destruct (Z.eqb_spec (2 + (zlen p + zlen d)) 1); [lia|].
    unfold bytes in Hb. rewrite !Forall_cons in Hb. destruct Hb as (? & ? & Hb). apply bytes_app in Hb as [_ Hbd].
    rewrite read_size_bytes by done. rstep. change (drop 2 (b0 :: b1 :: p ++ d)) with (p ++ d). rewrite <- Hp.
    destruct (Z.ltb_spec (2 + (zlen p + zlen d) - 2) (zlen p)); [lia|].
    destruct (push_data_rep q P l fd (p ++ d) p true HR) as (q1 & -> & HR1); [by eexists|]. rstep.
    rewrite drop_zlen. cbn [fst snd packs fmap list_fmap]. rewrite cons_middle, app_assoc.
    destruct (Z.ltb_spec 0 (2 + (zlen p + zlen d) - 2 - zlen p)).
    + apply IH; [done| |cbn in Hf; rewrite length_app in Hf; lia|done|done]. intros ->. unfold zlen in *. cbn in *. lia.
    + assert (d = []) as -> by (apply length_zero_iff_nil; unfold zlen in *; lia).
      exists q1. split; [done|]. rewrite pieces_short by (cbn; lia). rewrite app_nil_r. eapply rep_ext; [|exact HR1].
      intros x. symmetry. by apply upd_same.
Qed.

(** What [filter_data] returns, and what it leaves in the ring. *)
Definition deliver (fd : Z) (fs : list (list Z)) (r : list Z) : list netpack * filtered :=
  match fs, r with
  | [], _ => ([], FNone)
  | [p], [] => ([], FData fd p (zlen p))
  | _, _ => (packs fd fs, FMore)
  end.

Lemma deliver_more fd p s : s <> [] -> bytes s ->
  deliver fd (p :: fst (pieces s)) (snd (pieces s)) = (packs fd (p :: fst (pieces s)), FMore).
Proof.
  intros Hne Hb. unfold deliver. destruct (fst (pieces s)) as [|f fs] eqn:E; [|done].
  destruct (snd (pieces s)) as [|b r] eqn:Er; [|done]. exfalso. revert Hne E Er. pattern s. revert s Hb. apply pieces_ind.
  - intros s Hs. rewrite pieces_short by done. done.
  - intros b0 b1 d Hd. rewrite pieces_wait by done. done.
  - intros b0 b1 q d Hq _. rewrite pieces_take by done. done.
Qed.

(** The result of filtering the stream [s] of [fd] for a function that returns
    the new queue and what it pushes. *)
Definition filters (P : Z -> list Z) (l : list netpack) (fd : Z) (s : list Z) (res : result (option queue * filtered)) : Prop :=
  exists q', res = Ok (q', snd (deliver fd (fst (pieces s)) (snd (pieces s))))
    /\ rep q' (upd P fd (snd (pieces s))) (l ++ fst (deliver fd (fst (pieces s)) (snd (pieces s)))).

(** A package in hand, and more of the stream behind it. *)
Lemma push_rest q P l fd b0 b1 p d buffer clone : rep q P l -> P fd = [] -> zlen p = b0 * 256 + b1 -> bytes d -> d <> [] ->
  (if clone : bool then exists rest, buffer = p ++ rest else buffer = p) ->
  filters P l fd (b0 :: b1 :: p ++ d)
    (q ← push_data q fd buffer (zlen p) clone; q ← push_more (S (length d)) q fd d; Ok (q, FMore)).
Proof.
  intros HR HP Hp Hd Hne Hbuf. unfold filters. rewrite pieces_take by done. cbn [fst snd].
  destruct (push_data_rep q P l fd buffer p clone HR Hbuf) as (q1 & -> & HR1). rstep.
  destruct (push_more_rep fd d Hd Hne (S (length d)) q1 P (l ++ [Netpack fd (zlen p) p])) as (q2 & -> & HR2); [lia|done|done|].
  rstep. exists q2. rewrite deliver_more by done. cbn [fst snd]. split; [done|].
  cbn [packs fmap list_fmap]. by rewrite cons_middle, app_assoc.
Qed.

Lemma fill_fresh_rep q P l fd buffer : rep q P l -> P fd = [] -> bytes buffer -> buffer <> [] ->
  filters P l fd buffer (fill_fresh q fd buffer).
Proof.
  intros HR HP Hb. pose proof Hb as Hb'. revert Hb'. pattern buffer. revert buffer Hb. apply pieces_ind.
  - intros s Hs Hb Hne. destruct s as [|b [|? ?]]; [done| |cbn in Hs; lia].
    destruct (save_header q P l fd b HR HP) as (q' & E & HR'); [by inversion Hb|].
    exists q'. rewrite pieces_short by done. cbn [fst snd deliver]. rewrite app_nil_r. split; [|done].
    unfold fill_fresh. change (zlen [b] =? 1) with true. cbn iota. change (zget [b] 0) with (Ok b). rstep. by rewrite E.
  - intros b0 b1 d Hd Hb _. destruct (save_part q P l fd b0 b1 d HR HP Hb Hd) as (q' & E & HR').
    exists q'. rewrite pieces_wait by done. cbn [fst snd deliver]. rewrite app_nil_r. split; [|done]. unfold fill_fresh.
    assert (zlen (b0 :: b1 :: d) = 2 + zlen d) as El by (unfold zlen; cbn [length]; lia). pose proof (zlen_nonneg d).
    rewrite El. destruct (Z.eqb_spec (2 + zlen d) 1); [lia|].
    unfold bytes in Hb. rewrite !Forall_cons in Hb. destruct Hb as (? & ? & _). rewrite read_size_bytes by done. rstep.
    change (drop 2 (b0 :: b1 :: d)) with d. replace (2 + zlen d - 2) with (zlen d) by lia.
    destruct (Z.ltb_spec (zlen d) (b0 * 256 + b1)); [|lia].
    destruct (part_block (b0 * 256 + b1) d) as [block| |]; [|done..]. revert E. rstep. intros ->. done.
  - intros b0 b1 p d Hp _ Hb _.
    assert (zlen (b0 :: b1 :: p ++ d) = 2 + (zlen p + zlen d)) as El by (unfold zlen; cbn [length]; rewrite length_app; lia).
    pose proof (zlen_nonneg d). pose proof (zlen_nonneg p).
    unfold bytes in Hb. rewrite !Forall_cons in Hb. destruct Hb as (? & ? & Hb). apply bytes_app in Hb as [_ Hbd].
    unfold fill_fresh. rewrite El. destruct (Z.eqb_spec (2 + (zlen p + zlen d)) 1); [lia|].
    rewrite read_size_bytes by done. rstep. change (drop 2 (b0 :: b1 :: p ++ d)) with (p ++ d). rewrite <- Hp.
    destruct (Z.ltb_spec (2 + (zlen p + zlen d) - 2) (zlen p)); [lia|].
    destruct (Z.eqb_spec (2 + (zlen p + zlen d) - 2) (zlen p)) as [E|].
    + assert (d = []) as -> by (apply length_zero_iff_nil; unfold zlen in *; lia). rewrite app_nil_r.
      exists q. pose proof (pieces_take b0 b1 p [] Hp) as Ep. rewrite app_nil_r in Ep. rewrite Ep.
      rewrite (pieces_short []) by (cbn; lia). cbn [fst snd deliver]. rewrite app_nil_r. split; [do 3 f_equal; lia|].
      eapply rep_ext; [|exact HR]. intros x. symmetry. by apply upd_same.
    + rewrite drop_zlen. apply push_rest; try done; [|by eexists]. intros ->. change (zlen (@nil Z)) with 0 in *. lia.
Qed.

(** A node whose size is known receives [buffer]. *)
Lemma fill_tail q P l fd uc b0 b1 d buffer : rep (Some q) P l -> P fd = [] -> bytes (b0 :: b1 :: d) -> bytes buffer ->
  np_id (uc_pack uc) = fd -> np_size (uc_pack uc) = b0 * 256 + b1 -> uc_read uc = zlen d -> zlen d <= b0 * 256 + b1 ->
  zlen (np_buffer (uc_pack uc)) = b0 * 256 + b1 -> take (length d) (np_buffer (uc_pack uc)) = d ->
  filters P l fd (b0 :: b1 :: d ++ buffer) (fill_uncomplete (Some q) fd uc buffer).
Proof.
  intros HR HP Hbd Hb Hid Hsz Hrd Hle Hbl Htk. pose proof (zlen_nonneg d). pose proof (zlen_nonneg buffer).
  unfold fill_uncomplete. rewrite Hrd. destruct (Z.ltb_spec (zlen d) 0); [lia|]. rstep. cbv zeta. rewrite Hsz, Hrd.
  destruct (Z.ltb_spec (zlen buffer) (b0 * 256 + b1 - zlen d)).
  - destruct (block_append (np_buffer (uc_pack uc)) d buffer Htk) as (b & -> & Hlb & Ht); [lia|]. rstep. cbn [deref]. rstep.
    assert (zlen (d ++ buffer) < b0 * 256 + b1) as Hw by (rewrite zlen_app; lia).
    destruct (link_rep (Some q) P l fd (fill_part (b0 * 256 + b1) b (zlen d + zlen buffer) uc) (b0 :: b1 :: d ++ buffer))
      as (qu & E & HR'); [done|done|done| | |].
    { rewrite <- zlen_app. apply waits_part; [done|lia|done]. }
    { unfold bytes in *. rewrite !Forall_cons in *. destruct Hbd as (? & ? & ?). split; [done|]. split; [done|]. by apply Forall_app. }
    cbn [get_queue] in E. rewrite E. rstep. exists (Some qu). rewrite pieces_wait by done. cbn [fst snd deliver]. by rewrite app_nil_r.
  - set (need := b0 * 256 + b1 - zlen d) in *. rewrite slice_Ok by lia. rstep. rewrite drop_0.
    set (part := take (Z.to_nat need) buffer).
    assert (zlen part = need) as Hpl by (unfold part, zlen in *; rewrite length_take; lia).
    destruct (block_append (np_buffer (uc_pack uc)) d part Htk) as (b & -> & Hlb & Ht); [lia|]. rstep.
    assert (zlen (d ++ part) = b0 * 256 + b1) as Hp by (rewrite zlen_app; lia).
    assert (b = d ++ part) as -> by (rewrite <- Ht, take_ge; [done|unfold zlen in *; lia]).
    set (rest := drop (Z.to_nat need) buffer).
    assert (b0 :: b1 :: d ++ buffer = b0 :: b1 :: (d ++ part) ++ rest) as ->.
    { rewrite <- app_assoc. unfold part, rest. by rewrite take_drop. }
    assert (zlen buffer - need = zlen rest) as Hlr by (unfold rest, zlen in *; rewrite length_drop; lia). rewrite Hlr.
    assert (bytes rest) as Hbr by (unfold rest; auto with skynet).
    destruct (Z.eqb_spec (zlen rest) 0).
    + assert (rest = []) as Er by (apply length_zero_iff_nil; unfold zlen in *; lia). rewrite Er.
      exists (Some q). rewrite pieces_take by done. rewrite (pieces_short []) by (cbn; lia).
      cbn [fst snd deliver]. rewrite app_nil_r, Hp. split; [done|].
      eapply rep_ext; [|exact HR]. intros x. symmetry. by apply upd_same.
    + rewrite <- Hp. apply push_rest; try done. intros E. rewrite E in *. change (zlen (@nil Z)) with 0 in *. lia.
Qed.

Lemma filter_data_rep q P l fd buffer : rep q P l -> bytes buffer -> buffer <> [] ->
  filters P l fd (P fd ++ buffer) (filter_data q fd buffer).
Proof.
  intros HR Hb Hne. pose proof (find_uncomplete_rep q P l fd HR) as Hf. unfold filter_data.
  destruct (P fd) as [|r0 rs] eqn:EP; [rewrite Hf; rstep; by apply fill_fresh_rep|].
  destruct Hf as (uc & qu & -> & Hid & Hw & HR1). rstep. pose proof (hash_bytes _ _ (proj1 HR) fd) as Hbr. rewrite EP in Hbr.
  assert (filters (upd P fd []) l fd ((r0 :: rs) ++ buffer) (fill_uncomplete (Some qu) fd uc buffer)) as (q' & E & HR').
  { destruct Hw as [(b & [= -> ->] & Hr & Hh)|(b0 & b1 & d & [= -> ->] & Hsz & Hlt & Hrd & Hbl & Htk)].
    - destruct buffer as [|b1 buffer]; [done|]. apply Forall_cons in Hbr as [Hbr _]. apply Forall_cons in Hb as [Hb1 Hb].
      assert (fill_uncomplete (Some qu) fd uc (b1 :: buffer) =
        fill_uncomplete (Some qu) fd (fill_part (b * 256 + b1) (skynet_malloc (b * 256 + b1)) 0 uc) buffer) as ->.
      { unfold fill_uncomplete. rewrite Hr, Hh. change (zget (b1 :: buffer) 0) with (Ok b1). cbn [Z.ltb Z.compare Z.eqb assert_ Pos.eqb].
        rstep. rewrite Z.lor_comm, size_bytes by done. done. }
      unfold is_byte in *. apply (fill_tail qu (upd P fd []) l fd _ b b1 [] buffer);
        [done|apply upd_eq|repeat (apply Forall_cons; split; [done|]); by apply Forall_nil|done|done|done|done| | |done].
      + change (zlen (@nil Z)) with 0. lia.
      + cbn. apply zlen_malloc. lia.
    - apply (fill_tail qu (upd P fd []) l fd uc b0 b1 d buffer); try done; [apply upd_eq|lia]. }
  exists q'. split; [exact E|]. eapply rep_ext; [|exact HR']. intros x. apply upd_upd.
Qed.

(** ** A gate over its events *)

(** The data of a connection, or its end. *)
Inductive event : Set :=
| EvData (fd : Z) (data : list Z)
| EvClose (fd : Z).

Definition event_message (e : event) : skynet_socket_message :=
  match e with
  | EvData fd data => SocketMessage SKYNET_SOCKET_TYPE_DATA fd (zlen data) (Some data) []
  | EvClose fd => SocketMessage SKYNET_SOCKET_TYPE_CLOSE fd 0 (Some []) []
  end.

(** Popping until the ring is empty, as the gate does after [more]. *)
Fixpoint drain (fuel : nat) (q : option queue) : result (list netpack * option queue) :=
  match fuel with
  | O => Fault
  | S fuel =>
      '(np, q) ← lpop q;
      match np with
      | None => Ok ([], q)
      | Some np => '(l, q) ← drain fuel q; Ok (np :: l, q)
      end
  end.

(** The packages the gate delivers for a sequence of events. *)
Fixpoint run (evs : list event) (q : option queue) : result (list netpack * option queue) :=
  match evs with
  | [] => Ok ([], q)
  | e :: evs =>
      '(q, f) ← lfilter q (event_message e);
      '(l, q) ←
        match f with
        | FData fd buffer size => Ok ([Netpack fd size buffer], q)
        | FMore => drain (S (length (q_queue (get_queue q)))) q
        | _ => Ok ([], q)
        end;
      '(rest, q) ← run evs q;
      Ok (l ++ rest, q)
  end.

(** Specification: what each connection is delivered, and has pending. *)
Fixpoint spec_run (evs : list event) (fd : Z) (pending : list Z) : list (list Z) :=
  match evs with
  | [] => []
  | EvData x data :: evs =>
      if x =? fd then
        fst (pieces (pending ++ data)) ++ spec_run evs fd (snd (pieces (pending ++ data)))
      else spec_run evs fd pending
  | EvClose x :: evs => spec_run evs fd (if x =? fd then [] else pending)
  end.

Definition of_fd (fd : Z) (np : netpack) : bool := np_id np =? fd.
Definition delivered (fd : Z) (l : list netpack) : list (list Z) := List.map np_buffer (List.filter (of_fd fd) l).

Definition event_ok (e : event) : Prop :=
  match e with EvData _ data => bytes data /\ data <> [] | EvClose _ => True end.

Lemma drain_rep fuel : forall q P l, rep q P l -> (length l < fuel)%nat -> exists q', drain fuel q = Ok (l, q') /\ rep q' P [].
Proof.
  induction fuel as [|fuel IH]; intros q P l HR Hf; [lia|]. cbn [drain]. pose proof (lpop_rep q P l HR) as Hp.
  destruct l as [|np l]; [rewrite Hp; rstep; eauto|]. destruct Hp as (q1 & -> & HR1). rstep.
  destruct (IH q1 P l HR1) as (q' & -> & HR'); [cbn in Hf; lia|]. rstep. eauto.
Qed.

Lemma deliver_packs fd fs r :
  match snd (deliver fd fs r) with
  | FData x buffer size => [Netpack x size buffer] = packs fd fs /\ fst (deliver fd fs r) = []
  | FMore => fst (deliver fd fs r) = packs fd fs
  | FNone => fs = [] /\ fst (deliver fd fs r) = []
  | _ => False
  end.
Proof. destruct fs as [|p [|p' fs]]; [done| |done]. by destruct r. Qed.

Lemma delivered_app fd l k : delivered fd (l ++ k) = delivered fd l ++ delivered fd k.
Proof. unfold delivered. by rewrite List.filter_app, map_app. Qed.

Lemma delivered_packs fd x fs : delivered fd (packs x fs) = if x =? fd then fs else [].
Proof.
  induction fs as [|p fs IH]; [by destruct (x =? fd)|].
  change (packs x (p :: fs)) with ([Netpack x (zlen p) p] ++ packs x fs). rewrite delivered_app, IH.
  unfold delivered, of_fd. cbn. by destruct (x =? fd).
Qed.

Lemma lfilter_data q P fd data : rep q P [] -> bytes data -> data <> [] ->
  exists q', lfilter q (event_message (EvData fd data)) =
      Ok (q', snd (deliver fd (fst (pieces (P fd ++ data))) (snd (pieces (P fd ++ data)))))
    /\ rep q' (upd P fd (snd (pieces (P fd ++ data)))) (fst (deliver fd (fst (pieces (P fd ++ data))) (snd (pieces (P fd ++ data))))).
Proof.
  intros HR Hb Hne. destruct (filter_data_rep q P [] fd data HR Hb Hne) as (q' & E & HR'). exists q'.
  split; [|exact HR']. rewrite <- E. unfold lfilter. cbn [event_message sm_type sm_buffer sm_ud sm_id deref].
  change (SKYNET_SOCKET_TYPE_DATA =? SKYNET_SOCKET_TYPE_DATA) with true. cbn iota. rstep.
  rewrite slice_Ok by zlia. rstep. unfold zlen. by rewrite Nat2Z.id, drop_0, take_ge.
Qed.

Lemma lfilter_close q P l fd : rep q P l ->
  exists q', lfilter q (event_message (EvClose fd)) = Ok (q', FClose fd) /\ rep q' (upd P fd []) l.
Proof.
  intros HR. unfold lfilter, close_uncomplete. cbn [event_message sm_type sm_id].
  change (SKYNET_SOCKET_TYPE_CLOSE =? SKYNET_SOCKET_TYPE_DATA) with false.
  change (SKYNET_SOCKET_TYPE_CLOSE =? SKYNET_SOCKET_TYPE_CONNECT) with false.
  change (SKYNET_SOCKET_TYPE_CLOSE =? SKYNET_SOCKET_TYPE_CLOSE) with true. cbn iota.
  pose proof (find_uncomplete_rep q P l fd HR) as Hf. destruct (P fd) as [|b r] eqn:E.
  - rewrite Hf. rstep. exists q. split; [done|]. eapply rep_ext; [|exact HR]. intros x. symmetry. by apply upd_same.
  - destruct Hf as (uc & qu & -> & _ & _ & HR'). rstep. eauto.
Qed.

Lemma ring_capacity q P l : rep q P l -> (length l < S (length (q_queue (get_queue q))))%nat.
Proof. intros [_ []]. unfold zlen in *. lia. Qed.

Lemma run_rep evs : Forall event_ok evs -> forall q P, rep q P [] ->
  exists out q', run evs q = Ok (out, q') /\ forall fd, delivered fd out = spec_run evs fd (P fd).
Proof.
  induction 1 as [|e evs He Hevs IH]; intros q P HR; [by exists [], q|]. cbn [run].
  destruct e as [x data|x].
  - destruct He as [Hb Hne]. destruct (lfilter_data q P x data HR Hb Hne) as (q1 & -> & HR1). rstep.
    set (fs := fst (pieces (P x ++ data))) in *. set (r := snd (pieces (P x ++ data))) in *.
    assert (exists q2, match snd (deliver x fs r) with
        | FData fd buffer size => Ok ([Netpack fd size buffer], q1)
        | FMore => drain (S (length (q_queue (get_queue q1)))) q1
        | _ => Ok ([], q1)
        end = Ok (packs x fs, q2) /\ rep q2 (upd P x r) []) as (q2 & -> & HR2).
    { pose proof (deliver_packs x fs r) as Hd. destruct (snd (deliver x fs r)); try done.
      - destruct Hd as [-> Hd]. rewrite Hd in HR1. by exists q1.
      - destruct Hd as [-> Hd]. rewrite Hd in HR1. by exists q1.
      - rewrite Hd in HR1. apply drain_rep; [done|]. by eapply ring_capacity. }
    rstep. destruct (IH q2 _ HR2) as (out & q3 & -> & Hout). rstep. do 2 eexists. split; [done|].
    intros fd. rewrite delivered_app, delivered_packs, Hout. cbn [spec_run]. unfold upd.
    rewrite (Z.eqb_sym fd x). destruct (Z.eqb_spec x fd) as [->|]; done.
  - destruct (lfilter_close q P [] x HR) as (q1 & -> & HR1). rstep.
    destruct (IH q1 _ HR1) as (out & q2 & -> & Hout). rstep. do 2 eexists. split; [done|].
    intros fd. cbn [app]. rewrite Hout. cbn [spec_run]. unfold upd. by rewrite Z.eqb_sym.
Qed.

Lemma empty_rep : rep None (fun _ => []) [].
Proof.
  split; constructor; cbn [get_queue new_queue q_hash q_queue q_cap q_head q_tail]; try done.
  - intros h l Hl. apply lookup_replicate in Hl as [-> _]. apply NoDup_nil_2.
  - intros fd l Hl. apply lookup_replicate in Hl as [-> _]. done.
  - intros fd. by apply Forall_nil.
Qed.

(** C26. Whatever data the connections of a gate receive, cut in whatever way
    and interleaved with one another and with closings, each connection is
    delivered, in order and each once, the packages its own data contain since
    its last closing: the table of uncomplete packages and the growing ring
    never mix, lose or repeat them. *)
Theorem netpack_delivers evs : Forall event_ok evs ->
  exists out q, run evs None = Ok (out, q) /\ forall fd, delivered fd out = spec_run evs fd [].
Proof. intros H. destruct (run_rep evs H None (fun _ => []) empty_rep) as (out & q & E & Hout). eauto. Qed.

Lemma netpack_delivers_witness : Forall event_ok [EvData 3 [0]; EvData 4099 [0; 1; 9; 0]; EvData 3 [2; 7]; EvData 3 [8; 0; 0]; EvClose 3] /\
  exists out q, run [EvData 3 [0]; EvData 4099 [0; 1; 9; 0]; EvData 3 [2; 7]; EvData 3 [8; 0; 0]; EvClose 3] None = Ok (out, q)
    /\ forall fd, delivered fd out = spec_run [EvData 3 [0]; EvData 4099 [0; 1; 9; 0]; EvData 3 [2; 7]; EvData 3 [8; 0; 0]; EvClose 3] fd [].
Proof.
  assert (Forall event_ok [EvData 3 [0]; EvData 4099 [0; 1; 9; 0]; EvData 3 [2; 7]; EvData 3 [8; 0; 0]; EvClose 3]) as H
    by (repeat (apply Forall_cons; split; [first [done | split; [solve_bytes|done]]|]); by apply Forall_nil).
  split; [exact H|]. apply netpack_delivers, H.
Defined.

(** ** Packing and cutting *)

Lemma lpack_spec p : zlen p < 0x10000 -> lpack p (zlen p) = Ok (be_bytes 2 (zlen p) ++ p, zlen p + 2).
Proof.
  intros H. unfold lpack. destruct (Z.leb_spec 0x10000 (zlen p)); [lia|]. rewrite slice_Ok by zlia. rstep.
  unfold zlen at 2. rewrite Nat2Z.id, drop_0, take_ge by done. unfold write_size. change 0xff with 255.
  rewrite !land_255, Z.shiftr_div_pow2 by lia. done.
Qed.

Lemma pieces_frames fs s : Forall (fun p => zlen p < 0x10000) fs ->
  pieces (concat ((fun p => be_bytes 2 (zlen p) ++ p) <$> fs) ++ s) = (fs ++ fst (pieces s), snd (pieces s)).
Proof.
  induction 1 as [|p fs Hp Hfs IH]; cbn [fmap list_fmap concat app]; [by destruct (pieces s)|].
  rewrite <- !app_assoc. change (be_bytes 2 (zlen p)) with [zlen p / 256 mod 256; zlen p mod 256]. cbn [app].
  rewrite pieces_take by (pose proof (zlen_nonneg p); dlia). by rewrite IH.
Qed.

(** The data a connection receives. *)
Definition data_of (fd : Z) (e : event) : list Z := match e with EvData x d => if x =? fd then d else [] | EvClose _ => [] end.

Lemma spec_run_stream fd evs : Forall event_ok evs -> Forall (fun e => e <> EvClose fd) evs -> forall s, bytes s ->
  pieces s = ([], s) ->
  spec_run evs fd s = fst (pieces (s ++ concat (data_of fd <$> evs))).
Proof.
  intros Hok. induction Hok as [|e evs He Hevs IH]; intros Hc s Hs E.
  - cbn [fmap list_fmap concat spec_run]. by rewrite app_nil_r, E.
  - apply Forall_cons in Hc as [Hx Hc]. cbn [fmap list_fmap concat]. destruct e as [x d|x]; cbn [spec_run data_of].
    + destruct He as [Hb _]. destruct (x =? fd); [|by apply IH].
      assert (bytes (s ++ d)) as Hsd by (by apply bytes_app). rewrite app_assoc, (pieces_app (s ++ d)) by done. cbn [fst].
      rewrite IH; [done|done|by apply pieces_bytes|by apply pieces_rest].
    + destruct (Z.eqb_spec x fd) as [->|]; [done|]. by apply IH.
Qed.

(** C29. The packages one side packs with [lpack] are what the gate of the
    other side delivers for the connection, however the stream of their
    concatenation is cut and interleaved with other connections. *)
Theorem netpack_roundtrip fd evs fs packed :
  Forall event_ok evs -> Forall (fun e => e <> EvClose fd) evs ->
  mapM (fun p => fst <$> lpack p (zlen p)) fs = Ok packed ->
  concat (data_of fd <$> evs) = concat packed ->
  exists out q, run evs None = Ok (out, q) /\ delivered fd out = fs.
Proof.
  intros Hok Hc Hp Hs. destruct (run_rep evs Hok None (fun _ => []) empty_rep) as (out & q & E & Hout).
  exists out, q. split; [exact E|]. rewrite Hout.
  assert (bytes []) as Hb0 by (by apply Forall_nil). rewrite (spec_run_stream fd evs Hok Hc [] Hb0 eq_refl). cbn [app].
  assert (Forall (fun p => zlen p < 0x10000) fs /\ packed = (fun p => be_bytes 2 (zlen p) ++ p) <$> fs) as [Hf ->].
  { clear -Hp. revert packed Hp. induction fs as [|p fs IH]; intros packed Hp; cbn in Hp; [injection Hp as <-; split; [by apply Forall_nil|done]|].
    destruct (Z.ltb_spec (zlen p) 0x10000) as [Hlt|Hge].
    - rewrite lpack_spec in Hp by done. cbn in Hp. destruct (mapM _ fs) as [ps| |]; cbn in Hp; [|done..]. injection Hp as <-.
      destruct (IH ps eq_refl) as [H1 ->]. split; [by constructor|done].
    - unfold lpack in Hp. destruct (Z.leb_spec 0x10000 (zlen p)); [done|lia]. }
  rewrite Hs, <- (app_nil_r (concat _)), pieces_frames by done. rewrite (pieces_short []) by (cbn; lia). cbn [fst]. apply app_nil_r.
Qed.

Lemma netpack_roundtrip_witness :
  mapM (fun p => fst <$> lpack p (zlen p)) [[7; 8]; []] = Ok [[0; 2; 7; 8]; [0; 0]] /\
  exists out q, run [EvData 3 [0]; EvData 5 [1]; EvData 3 [2; 7]; EvData 3 [8; 0; 0]] None = Ok (out, q) /\ delivered 3 out = [[7; 8]; []].
Proof.
  split; [reflexivity|].
  apply (netpack_roundtrip 3 [EvData 3 [0]; EvData 5 [1]; EvData 3 [2; 7]; EvData 3 [8; 0; 0]] [[7; 8]; []] [[0; 2; 7; 8]; [0; 0]]);
    [|repeat (apply Forall_cons; split; [discriminate|]); by apply Forall_nil|reflexivity|reflexivity].
  repeat (apply Forall_cons; split; [split; [solve_bytes|discriminate]|]). by apply Forall_nil.
Defined.
