(* ===== verification/Harbor.v ===== *)
(** * The harbor service (service-src/service_harbor.c)

    The messages between the nodes of a cluster: the table of global names,
    the queues of messages that wait for a name or a connection, the framing of
    the streams between the harbors. What the service asks of the node and of
    the socket layer is the list of effects an operation returns, in order;
    log lines are left out. A linked list of the hash table is the list of
    its nodes, head first. *)
From S2P Require Import Prelude CString Handle Server NetPack.

(** ** Data *)

Definition HASH_SIZE : Z := 4096.
Definition DEFAULT_QUEUE_SIZE : Z := 1024.
Definition HEADER_COOKIE_LENGTH : Z := 12.
Definition REMOTE_MAX : Z := 256.
Definition STATUS_WAIT : Z := 0.
Definition STATUS_HANDSHAKE : Z := 1.
Definition STATUS_HEADER : Z := 2.
Definition STATUS_CONTENT : Z := 3.
Definition STATUS_DOWN : Z := 4.

Record remote_message_header : Set := RemoteHeader {
  rh_source : Z;
  rh_destination : Z;
  rh_session : Z
}.

(** [hm_buffer] is the address of the block and [hm_data] its [size] bytes. *)
Record harbor_msg : Set := HarborMsg {
  hm_header : remote_message_header;
  hm_buffer : Z;
  hm_data : list Z
}.

Record harbor_msg_queue : Set := HarborQueue {
  hq_size : Z;
  hq_head : Z;
  hq_tail : Z;
  hq_data : list (option harbor_msg)
}.

Record keyvalue : Set := KeyValue {
  kv_key : list Z;
  kv_hash : Z;
  kv_value : Z;
  kv_queue : option harbor_msg_queue
}.

(** [sl_size] is [size[4]]; [sl_recv] the block of [length] bytes being filled. *)
Record slave : Set := Slave {
  sl_fd : Z;
  sl_queue : option harbor_msg_queue;
  sl_status : Z;
  sl_length : Z;
  sl_read : Z;
  sl_size : list Z;
  sl_recv : option (list Z)
}.

(** A bucket or a slave that is missing is all zero. *)
Record harbor : Set := Harbor {
  hb_id : Z;
  hb_slave : Z;
  hb_map : gmap Z (list keyvalue);
  hb_s : gmap Z slave
}.

(** [Send] is [skynet_send]: with [Some] address the block is given away, with
    [None] the data is copied or is a block of the service itself. *)
Inductive effect : Set :=
| Send (source destination type session : Z) (buffer : option Z) (data : list Z)
| SocketSend (fd : Z) (data : list Z)
| SocketClose (fd : Z)
| SocketStart (fd : Z)
| Free (buffer : Z).

Definition new_slave : slave := Slave 0 None STATUS_WAIT 0 0 [0; 0; 0; 0] None.

Definition get_slave (h : harbor) (id : Z) : slave := default new_slave (hb_s h !! id).
Definition set_slave (id : Z) (s : slave) (h : harbor) : harbor := Harbor (hb_id h) (hb_slave h) (hb_map h) (<[id := s]> (hb_s h)).
Definition set_map (m : gmap Z (list keyvalue)) (h : harbor) : harbor := Harbor (hb_id h) (hb_slave h) m (hb_s h).
Definition set_squeue (q : option harbor_msg_queue) (s : slave) : slave :=
  Slave (sl_fd s) q (sl_status s) (sl_length s) (sl_read s) (sl_size s) (sl_recv s).
Definition set_status (st : Z) (s : slave) : slave :=
  Slave (sl_fd s) (sl_queue s) st (sl_length s) (sl_read s) (sl_size s) (sl_recv s).
Definition set_fd (fd : Z) (s : slave) : slave :=
  Slave fd (sl_queue s) (sl_status s) (sl_length s) (sl_read s) (sl_size s) (sl_recv s).
Definition set_input (length read : Z) (size : list Z) (recv : option (list Z)) (s : slave) : slave :=
  Slave (sl_fd s) (sl_queue s) (sl_status s) length read size recv.
Definition set_kqueue (q : option harbor_msg_queue) (kv : keyvalue) : keyvalue :=
  KeyValue (kv_key kv) (kv_hash kv) (kv_value kv) q.
Definition set_value (v : Z) (kv : keyvalue) : keyvalue := KeyValue (kv_key kv) (kv_hash kv) v (kv_queue kv).

(** ** Queues *)

(** One slot stays free; a full ring is copied into one twice as large. *)
Definition push_queue_msg (q : harbor_msg_queue) (m : harbor_msg) : result harbor_msg_queue :=
  q ← (if (hq_tail q + 1) mod hq_size q =? hq_head q then
         _ ← assert_ (hq_size q * 2 <=? INT_MAX);
         new_buffer ← mapM (fun i => zget (hq_data q) ((i + hq_head q) mod hq_size q)) (seqZ 0 (hq_size q - 1));
         Ok (HarborQueue (hq_size q * 2) 0 (hq_size q - 1) (new_buffer ++ replicate (Z.to_nat (hq_size q + 1)) None))
       else Ok q);
  data ← zset (hq_data q) (hq_tail q) (Some m);
  Ok (HarborQueue (hq_size q) (hq_head q) ((hq_tail q + 1) mod hq_size q) data).

Definition push_queue (q : harbor_msg_queue) (buffer : Z) (data : list Z) (header : remote_message_header) : result harbor_msg_queue :=
  push_queue_msg q (HarborMsg header buffer data).

Definition pop_queue (q : harbor_msg_queue) : result (option harbor_msg * harbor_msg_queue) :=
  if hq_head q =? hq_tail q then Ok (None, q)
  else
    slot ← zget (hq_data q) (hq_head q);
    m ← deref slot;
    Ok (Some m, HarborQueue (hq_size q) ((hq_head q + 1) mod hq_size q) (hq_tail q) (hq_data q)).

Definition new_queue : harbor_msg_queue := HarborQueue DEFAULT_QUEUE_SIZE 0 0 (replicate (Z.to_nat DEFAULT_QUEUE_SIZE) None).

(** [while ((m = pop_queue(queue)) != NULL)]: the messages, in order; a ring of
    [size] slots holds less than [size]. *)
Fixpoint pop_all (fuel : nat) (q : harbor_msg_queue) : result (list harbor_msg * harbor_msg_queue) :=
  match fuel with
  | O => Fault
  | S fuel =>
      '(m, q) ← pop_queue q;
      match m with
      | None => Ok ([], q)
      | Some m => '(l, q) ← pop_all fuel q; Ok (m :: l, q)
      end
  end.

Definition drain (q : harbor_msg_queue) : result (list harbor_msg * harbor_msg_queue) := pop_all (Z.to_nat (hq_size q)) q.

Fixpoint push_all (q : harbor_msg_queue) (l : list harbor_msg) : result harbor_msg_queue :=
  match l with
  | [] => Ok q
  | m :: l => q ← push_queue_msg q m; push_all q l
  end.

Definition free_all (l : list harbor_msg) : list effect := (fun m => Free (hm_buffer m)) <$> l.

Definition release_queue (q : option harbor_msg_queue) : result (list effect) :=
  match q with
  | None => Ok []
  | Some q => '(l, _) ← drain q; Ok (free_all l)
  end.

(** ** The table of names *)

Definition name_hash (name : list Z) : Z :=
  let ptr i := le_val (take 4 (drop (4 * i) name)) in
  Z.lxor (Z.lxor (Z.lxor (ptr 0%nat) (ptr 1%nat)) (ptr 2%nat)) (ptr 3%nat).

(** [strncmp(a, b, n) == 0] *)
Fixpoint strneq (n : nat) (a b : list Z) : bool :=
  match n with
  | O => true
  | S n =>
      match a, b with
      | x :: a, y :: b => (x =? y) && ((x =? 0) || strneq n a b)
      | _, _ => false
      end
  end.

Definition same_node (name : list Z) (kv : keyvalue) : bool :=
  (kv_hash kv =? name_hash name) && strneq (Z.to_nat GLOBALNAME_LENGTH) (kv_key kv) name.

Fixpoint search_list (name : list Z) (l : list keyvalue) : option keyvalue :=
  match l with
  | [] => None
  | kv :: l => if same_node name kv then Some kv else search_list name l
  end.

Definition bucket (hash : gmap Z (list keyvalue)) (name : list Z) : list keyvalue :=
  default [] (hash !! (name_hash name mod HASH_SIZE)).

Definition hash_search (hash : gmap Z (list keyvalue)) (name : list Z) : option keyvalue :=
  search_list name (bucket hash name).

Definition hash_insert (hash : gmap Z (list keyvalue)) (name : list Z) : keyvalue * gmap Z (list keyvalue) :=
  let node := KeyValue name (name_hash name) 0 None in
  (node, <[name_hash name mod HASH_SIZE := node :: bucket hash name]> hash).

(** Writes through the pointer [hash_search] or [hash_insert] returned. *)
Fixpoint store_list (name : list Z) (kv : keyvalue) (l : list keyvalue) : list keyvalue :=
  match l with
  | [] => []
  | kv' :: l => if same_node name kv' then kv :: l else kv' :: store_list name kv l
  end.

Definition hash_store (name : list Z) (kv : keyvalue) (hash : gmap Z (list keyvalue)) : gmap Z (list keyvalue) :=
  <[name_hash name mod HASH_SIZE := store_list name kv (bucket hash name)]> hash.

(** The search that inserts the name when it is missing. *)
Definition hash_node (hash : gmap Z (list keyvalue)) (name : list Z) : keyvalue * gmap Z (list keyvalue) :=
  match hash_search hash name with
  | Some node => (node, hash)
  | None => hash_insert hash name
  end.

(** ** Sending *)

Definition header_to_message (hd : remote_message_header) : list Z :=
  be_bytes 4 (rh_source hd) ++ be_bytes 4 (rh_destination hd) ++ be_bytes 4 (rh_session hd).

Definition message_to_header (m : list Z) : remote_message_header :=
  RemoteHeader (be_val (take 4 m)) (be_val (take 4 (drop 4 m))) (be_val (take 4 (drop 8 m))).

Definition UINT32_MAX : Z := 4294967295.

(** A message that is too large is dropped. *)
Definition send_remote (fd : Z) (data : list Z) (cookie : remote_message_header) : list effect :=
  let sz_header := zlen data + HEADER_COOKIE_LENGTH in
  if UINT32_MAX <? sz_header then []
  else [SocketSend fd (be_bytes 4 sz_header ++ data ++ header_to_message cookie)].

Definition harbor_of (handle : Z) : Z := Z.shiftr handle HANDLE_REMOTE_SHIFT.

Definition close_harbor (h : harbor) (id : Z) : result (list effect * harbor) :=
  let s := get_slave h id in
  let closing := if negb (sl_fd s =? 0) then [SocketClose (sl_fd s)] else [] in
  freed ← release_queue (sl_queue s);
  Ok (closing ++ freed, set_slave id (set_squeue None (set_status STATUS_DOWN s)) h).

Definition report_harbor_down (h : harbor) (id : Z) : list effect :=
  [Send 0 (hb_slave h) PTYPE_TEXT 0 None (of_string "D " ++ dec id)].

Definition send_queued (fd : Z) (m : harbor_msg) : list effect := send_remote fd (hm_data m) (hm_header m) ++ [Free (hm_buffer m)].

(** The message with the handle of its destination added. *)
Definition with_handle (handle : Z) (m : harbor_msg) : harbor_msg :=
  HarborMsg (RemoteHeader (rh_source (hm_header m)) (Z.lor (rh_destination (hm_header m)) (Z.land handle HANDLE_MASK)) (rh_session (hm_header m)))
    (hm_buffer m) (hm_data m).

Definition send_local (handle : Z) (m : harbor_msg) : effect :=
  Send (rh_source (hm_header m)) handle (Z.lor (harbor_of (rh_destination (hm_header m))) PTYPE_TAG_DONTCOPY)
    (s32 (rh_session (hm_header m))) (Some (hm_buffer m)) (hm_data m).

Definition send_all (fd : Z) (l : list harbor_msg) : list effect := concat (send_queued fd <$> l).
Definition send_all_local (handle : Z) (l : list harbor_msg) : list effect := send_local handle <$> l.

Definition dispatch_name_queue (h : harbor) (node : keyvalue) : result (list effect * harbor * keyvalue) :=
  queue ← deref (kv_queue node);
  let handle := kv_value node in
  let harbor_id := harbor_of handle in
  let s := get_slave h harbor_id in
  if sl_fd s =? 0 then
    if sl_status s =? STATUS_DOWN then Ok ([], h, node)
    else
      '(squeue, node) ←
        match sl_queue s with
        | None => Ok (queue, set_kqueue None node)
        | Some sq => '(l, queue) ← drain queue; sq ← push_all sq l; Ok (sq, set_kqueue (Some queue) node)
        end;
      if harbor_id =? harbor_of (hb_slave h) then
        '(l, _) ← drain squeue;
        Ok (send_all_local handle l, set_slave harbor_id (set_squeue None s) h, node)
      else Ok ([], set_slave harbor_id (set_squeue (Some squeue) s) h, node)
  else
    '(l, queue) ← drain queue;
    Ok (send_all (sl_fd s) (with_handle handle <$> (l : list harbor_msg)), h, set_kqueue (Some queue) node).

Definition dispatch_queue (h : harbor) (id : Z) : result (list effect * harbor) :=
  let s := get_slave h id in
  _ ← assert_ (negb (sl_fd s =? 0));
  match sl_queue s with
  | None => Ok ([], h)
  | Some queue =>
      '(l, _) ← drain queue;
      Ok (send_all (sl_fd s) l, set_slave id (set_squeue None s) h)
  end.

(** ** Data from another harbor *)

(** What [skynet_send] returns: the session, or -1 when nobody has the handle;
    [known] tells which handles it can deliver to. *)
Definition send_result (known : Z -> bool) (destination session : Z) : Z := if known destination then session else -1.

Definition forward_local_messsage (known : Z -> bool) (h : harbor) (msg : list Z) : result (list effect) :=
  let sz := zlen msg in
  cookie ← slice msg (sz - HEADER_COOKIE_LENGTH) HEADER_COOKIE_LENGTH;
  let header := message_to_header cookie in
  let type := Z.shiftr (rh_destination header) HANDLE_REMOTE_SHIFT in
  let destination := Z.lor (Z.land (rh_destination header) HANDLE_MASK) (u32 (Z.shiftl (hb_id h) HANDLE_REMOTE_SHIFT)) in
  let session := s32 (rh_session header) in
  let send := Send (rh_source header) destination (Z.lor type PTYPE_TAG_DONTCOPY) session None
                (take (Z.to_nat (sz - HEADER_COOKIE_LENGTH)) msg) in
  if 0 <=? send_result known destination session then Ok [send]
  else if negb (type =? PTYPE_ERROR) then Ok [send; Send destination (rh_source header) PTYPE_ERROR session None []]
  else Ok [send].

(** The first slave above [i] whose [fd] is [fd], 0 if there is none. *)
Fixpoint find_slave (n : nat) (i : Z) (h : harbor) (fd : Z) : Z :=
  match n with
  | O => 0
  | S n => if sl_fd (get_slave h i) =? fd then i else find_slave n (i + 1) h fd
  end.

Definition harbor_id (h : harbor) (fd : Z) : Z := find_slave (Z.to_nat (REMOTE_MAX - 1)) 1 h fd.

(** The cases of the [switch] of [push_socket_data]. [None]: the function
    returns; [Some] rest of the data: [break], or the next case for the first two. *)
Definition step : Type := result (list effect * harbor * option (list Z)).

Definition content_case (known : Z -> bool) (h : harbor) (id : Z) (buffer : list Z) : step :=
  let s := get_slave h id in
  let need := sl_length s - sl_read s in
  recv ← deref (sl_recv s);
  if zlen buffer <? need then
    recv ← blit recv (sl_read s) buffer;
    Ok ([], set_slave id (set_input (sl_length s) (sl_read s + zlen buffer) (sl_size s) (Some recv) s) h, None)
  else
    chunk ← slice buffer 0 need;
    recv ← blit recv (sl_read s) chunk;
    e ← forward_local_messsage known h recv;
    let rest := drop (Z.to_nat need) buffer in
    let h := set_slave id (set_status STATUS_HEADER (set_input 0 0 (sl_size s) None s)) h in
    Ok (e, h, if zlen rest =? 0 then None else Some rest).

Definition header_case (known : Z -> bool) (h : harbor) (id : Z) (buffer : list Z) : step :=
  let s := get_slave h id in
  let need := 4 - sl_read s in
  if zlen buffer <? need then
    size ← blit (sl_size s) (sl_read s) buffer;
    Ok ([], set_slave id (set_input (sl_length s) (sl_read s + zlen buffer) size (sl_recv s) s) h, None)
  else
    chunk ← slice buffer 0 need;
    size ← blit (sl_size s) (sl_read s) chunk;
    let rest := drop (Z.to_nat need) buffer in
    b0 ← zget size 0; b1 ← zget size 1; b2 ← zget size 2; b3 ← zget size 3;
    if negb (b0 =? 0) then
      '(e, h) ← close_harbor (set_slave id (set_input (sl_length s) (sl_read s) size (sl_recv s) s) h) id;
      Ok (e, h, None)
    else
      let length := Z.lor (Z.lor (Z.shiftl b1 16) (Z.shiftl b2 8)) b3 in
      let recv := replicate (Z.to_nat length) 0 in
      let h := set_slave id (set_status STATUS_CONTENT (set_input length 0 size (Some recv) s)) h in
      if zlen rest =? 0 then Ok ([], h, None) else content_case known h id rest.

Definition handshake_case (known : Z -> bool) (h : harbor) (id : Z) (buffer : list Z) : step :=
  remote_id ← zget buffer 0;
  if negb (remote_id =? id) then '(e, h) ← close_harbor h id; Ok (e, h, None)
  else
    let rest := drop 1 buffer in
    '(e, h) ← dispatch_queue (set_slave id (set_status STATUS_HEADER (get_slave h id)) h) id;
    if zlen rest =? 0 then Ok (e, h, Some rest)
    else '(e', h, r) ← header_case known h id rest; Ok (e ++ e', h, r).

Definition data_case (known : Z -> bool) (h : harbor) (id : Z) (buffer : list Z) : step :=
  let st := sl_status (get_slave h id) in
  if st =? STATUS_HANDSHAKE then handshake_case known h id buffer
  else if st =? STATUS_HEADER then header_case known h id buffer
  else if st =? STATUS_CONTENT then content_case known h id buffer
  else Ok ([], h, None).

Fixpoint data_loop (fuel : nat) (known : Z -> bool) (h : harbor) (id : Z) (buffer : list Z) : result (list effect * harbor) :=
  match fuel with
  | O => Fault
  | S fuel =>
      '(e, h, r) ← data_case known h id buffer;
      match r with
      | None => Ok (e, h)
      | Some rest => '(e', h) ← data_loop fuel known h id rest; Ok (e ++ e', h)
      end
  end.

(** A round that goes on has taken a byte, but for one that completes an empty message. *)
Definition push_socket_data (known : Z -> bool) (h : harbor) (fd ud address : Z) (data : list Z) : result (list effect * harbor) :=
  let id := harbor_id h fd in
  if id =? 0 then Ok ([Free address], h)
  else
    buffer ← slice data 0 ud;
    data_loop (S (S (length buffer))) known h id buffer.

(** ** Messages of this node *)

Definition update_name (h : harbor) (name : list Z) (handle : Z) : result (list effect * harbor) :=
  let '(node, map) := hash_node (hb_map h) name in
  let node := set_value handle node in
  let h := set_map (hash_store name node map) h in
  match kv_queue node with
  | None => Ok ([], h)
  | Some _ =>
      '(e, h, node) ← dispatch_name_queue h node;
      freed ← release_queue (kv_queue node);
      Ok (e ++ freed, set_map (hash_store name (set_kqueue None node) (hb_map h)) h)
  end.

(** [true]: the message is kept or given away. *)
Definition remote_send_handle (h : harbor) (source destination type session address : Z) (data : list Z) : result (bool * list effect * harbor) :=
  let id := harbor_of destination in
  if id =? hb_id h then Ok (true, [Send source destination (Z.lor type PTYPE_TAG_DONTCOPY) session (Some address) data], h)
  else
    let s := get_slave h id in
    let cookie := RemoteHeader source (Z.lor (u32 (Z.shiftl type HANDLE_REMOTE_SHIFT)) (Z.land destination HANDLE_MASK)) (u32 session) in
    if (sl_fd s =? 0) || (sl_status s =? STATUS_HANDSHAKE) then
      if sl_status s =? STATUS_DOWN then Ok (false, [Send destination source PTYPE_ERROR 0 None []], h)
      else
        q ← push_queue (default new_queue (sl_queue s)) address data cookie;
        Ok (true, [], set_slave id (set_squeue (Some q) s) h)
    else Ok (false, send_remote (sl_fd s) data cookie, h).

(** The bytes of a name up to its NUL. *)
Fixpoint cstr (l : list Z) : list Z :=
  match l with
  | [] => []
  | b :: l => if b =? 0 then [] else b :: cstr l
  end.

Definition remote_send_name (h : harbor) (source : Z) (name : list Z) (type session address : Z) (data : list Z) : result (bool * list effect * harbor) :=
  let '(node, map) := hash_node (hb_map h) name in
  if kv_value node =? 0 then
    let header := RemoteHeader source (u32 (Z.shiftl type HANDLE_REMOTE_SHIFT)) (u32 session) in
    q ← push_queue (default new_queue (kv_queue node)) address data header;
    let h := set_map (hash_store name (set_kqueue (Some q) node) map) h in
    Ok (true, [Send 0 (hb_slave h) PTYPE_TEXT 0 None (of_string "Q " ++ cstr name)], h)
  else remote_send_handle (set_map map h) source (kv_value node) type session address data.

Definition handshake (h : harbor) (id : Z) : list effect := [SocketSend (sl_fd (get_slave h id)) [u8 (hb_id h)]].

(** [%d] of [sscanf]: white space, a sign, digits; [None] without a digit. *)
(** [sscanf(buffer, "%d %d", &fd, &id)] with both 0 before. *)
Definition scan_two (l : list Z) : Z * Z :=
  match scan_int l with
  | None => (0, 0)
  | Some (fd, l) => match scan_int l with None => (fd, 0) | Some (id, _) => (fd, id) end
  end.

Definition harbor_command (h : harbor) (msg : list Z) (source : Z) : result (list effect * harbor) :=
  let s := zlen msg - 2 in
  c ← zget msg 0;
  let name := drop 2 msg in
  if c =? 78 then
    if (s <=? 0) || (GLOBALNAME_LENGTH <=? s) then Ok ([], h)
    else update_name h (name ++ replicate (Z.to_nat (GLOBALNAME_LENGTH - s)) 0) source
  else if (c =? 83) || (c =? 65) then
    _ ← assert_ (0 <=? s);
    let '(fd, id) := scan_two (cstr name) in
    if (fd =? 0) || (id <=? 0) || (REMOTE_MAX <=? id) then Ok ([], h)
    else if negb (sl_fd (get_slave h id) =? 0) then Ok ([], h)
    else
      let h := set_slave id (set_fd fd (get_slave h id)) h in
      let e := SocketStart fd :: handshake h id in
      if c =? 83 then Ok (e, set_slave id (set_status STATUS_HANDSHAKE (get_slave h id)) h)
      else
        '(e', h) ← dispatch_queue (set_slave id (set_status STATUS_HEADER (get_slave h id)) h) id;
        Ok (e ++ e', h)
  else Ok ([], h).

(** ** The service *)

(** [struct remote_message]: [handle = 0] stands for the name. *)
Record remote_message : Set := RemoteMessage {
  rm_handle : Z;
  rm_name : list Z;
  rm_address : Z;
  rm_data : list Z
}.

(** The messages by their [type]: [PTYPE_SOCKET] with the block at [address],
    [PTYPE_HARBOR], anything else. *)
Inductive message : Set :=
| SocketMsg (address : Z) (m : skynet_socket_message)
| HarborMessage (msg : list Z) (source : Z)
| RemoteMsg (type session source : Z) (rmsg : remote_message).

Definition remote_out (h : harbor) (type session source : Z) (rmsg : remote_message) : result (list effect * harbor) :=
  '(kept, e, h) ←
    (if rm_handle rmsg =? 0 then remote_send_name h source (rm_name rmsg) type session (rm_address rmsg) (rm_data rmsg)
     else remote_send_handle h source (rm_handle rmsg) type session (rm_address rmsg) (rm_data rmsg));
  Ok (if kept : bool then e else e ++ [Free (rm_address rmsg)], h).

Definition mainloop (known : Z -> bool) (m : message) (h : harbor) : result (list effect * harbor) :=
  match m with
  | SocketMsg address m =>
      let t := sm_type m in
      if t =? SKYNET_SOCKET_TYPE_DATA then
        data ← deref (sm_buffer m);
        '(e, h) ← push_socket_data known h (sm_id m) (sm_ud m) address data;
        Ok (e ++ [Free address], h)
      else if (t =? SKYNET_SOCKET_TYPE_ERROR) || (t =? SKYNET_SOCKET_TYPE_CLOSE) then
        let id := harbor_id h (sm_id m) in
        Ok (if negb (id =? 0) then report_harbor_down h id else [], h)
      else Ok ([], h)
  | HarborMessage msg source => harbor_command h msg source
  | RemoteMsg type session source rmsg => remote_out h type session source rmsg
  end.

Definition harbor_create : harbor := Harbor 0 0 ∅ ∅.

(** [false]: the initialisation fails; [id] and [slave] are the parameters read. *)
Definition harbor_init (h : harbor) (id slave : Z) : bool * harbor :=
  if slave =? 0 then (false, h) else (true, Harbor id slave (hb_map h) (hb_s h)).

(** The loops of [harbor_release] and [hash_delete]. *)
Fixpoint close_loop (n : nat) (i : Z) (h : harbor) : result (list effect * harbor) :=
  match n with
  | O => Ok ([], h)
  | S n =>
      let s := get_slave h i in
      '(e, h) ← (if negb (sl_fd s =? 0) && negb (sl_status s =? STATUS_DOWN) then close_harbor h i else Ok ([], h));
      '(e', h) ← close_loop n (i + 1) h;
      Ok (e ++ e', h)
  end.

Fixpoint delete_list (l : list keyvalue) : result (list effect) :=
  match l with
  | [] => Ok []
  | kv :: l => e ← release_queue (kv_queue kv); e' ← delete_list l; Ok (e ++ e')
  end.

Fixpoint delete_loop (n : nat) (i : Z) (hash : gmap Z (list keyvalue)) : result (list effect) :=
  match n with
  | O => Ok []
  | S n => e ← delete_list (default [] (hash !! i)); e' ← delete_loop n (i + 1) hash; Ok (e ++ e')
  end.

Definition hash_delete (hash : gmap Z (list keyvalue)) : result (list effect) := delete_loop (Z.to_nat HASH_SIZE) 0 hash.

Definition harbor_release (h : harbor) : result (list effect) :=
  '(e, h) ← close_loop (Z.to_nat (REMOTE_MAX - 1)) 1 h;
  e' ← hash_delete (hb_map h);
  Ok (e ++ e').
