(* ===== verification/HarborProps.v ===== *)
(** * The harbors deliver what they are given

    The queues of the harbor service are FIFO queues, its table of names is a
    map, and two harbors that are connected hand every remote message over
    unchanged, however the stream between them is cut. *)
From S2P Require Import Prelude CString Handle Server NetPack Harbor.

(** ** Queues *)

(** The ring [q] holds the messages [l]. *)
Record ring (q : harbor_msg_queue) (l : list harbor_msg) : Prop := Ring {
  ri_head : 0 <= hq_head q < hq_size q;
  ri_len : zlen l < hq_size q;
  ri_tail : hq_tail q = (hq_head q + zlen l) mod hq_size q;
  ri_data : zlen (hq_data q) = hq_size q;
  ri_get : forall i m, l !! i = Some m -> hq_data q !! Z.to_nat ((hq_head q + Z.of_nat i) mod hq_size q) = Some (Some m)
}.

Lemma new_queue_ring : ring new_queue [].
Proof. constructor; try done. Qed.

Lemma ring_zget q l i m : ring q l -> l !! i = Some m -> zget (hq_data q) ((hq_head q + Z.of_nat i) mod hq_size q) = Ok (Some m).
Proof.
  intros [H1 H2 H3 H4 H5] Hi. apply zget_Some; [apply Z.mod_pos_bound; lia|by apply H5].
Qed.

(** Writing the slot at the tail of a ring that is not full. *)
Lemma ring_put q l m : ring q l -> zlen l + 1 < hq_size q -> exists data,
  zset (hq_data q) (hq_tail q) (Some m) = Ok data /\
  ring (HarborQueue (hq_size q) (hq_head q) ((hq_tail q + 1) mod hq_size q) data) (l ++ [m]).
Proof.
  intros [H1 H2 H3 H4 H5] Hlen. assert (0 <= hq_tail q < hq_size q) as Ht by (rewrite H3; apply Z.mod_pos_bound; lia).
  pose proof (zlen_nonneg l). eexists. split; [apply zset_Ok; lia|]. constructor; cbn.
  - done.
  - rewrite zlen_app. change (zlen [m]) with 1. lia.
  - rewrite H3, Zplus_mod_idemp_l, zlen_app. f_equal. change (zlen [m]) with 1. lia.
  - unfold zlen. rewrite length_insert. exact H4.
  - intros i m' Hi. destruct (decide (i < length l)%nat) as [Hlt|Hge].
    + rewrite lookup_app_l in Hi by done. rewrite list_lookup_insert_ne; [by apply H5|].
      rewrite H3. intros E. apply Z2Nat.inj in E; [|apply Z.mod_pos_bound; lia..].
      rewrite !mod_wrap in E by (unfold zlen in *; lia). unfold zlen in *. zcases_in E; lia.
    + apply lookup_lt_Some in Hi as Hl. rewrite length_app in Hl. cbn in Hl. assert (i = length l) as -> by lia.
      rewrite list_lookup_middle in Hi by done. injection Hi as <-. change (Z.of_nat (length l)) with (zlen l). rewrite <- H3.
      apply list_lookup_insert_eq. unfold zlen in *. lia.
Qed.

Lemma push_queue_msg_ring q l m : ring q l -> zlen l < 2 ^ 30 - 1 -> exists q', push_queue_msg q m = Ok q' /\ ring q' (l ++ [m]).
Proof.
  intros Hr Hb. pose proof Hr as [H1 H2 H3 H4 H5]. pose proof (zlen_nonneg l). unfold push_queue_msg.
  assert (Hfull : (hq_tail q + 1) mod hq_size q = hq_head q <-> zlen l + 1 = hq_size q).
  { rewrite H3, Zplus_mod_idemp_l, <- Z.add_assoc, mod_wrap by lia. zcases; lia. }
  destruct (Z.eqb_spec ((hq_tail q + 1) mod hq_size q) (hq_head q)) as [E|E].
  - apply Hfull in E. assert (hq_size q * 2 <=? INT_MAX = true) as -> by (apply Z.leb_le; unfold INT_MAX; lia). cbn [assert_ mbind result_bind].
    set (f := fun i => zget (hq_data q) ((i + hq_head q) mod hq_size q)).
    assert (Hmap : mapM f (seqZ 0 (hq_size q - 1)) = Ok (Some <$> l)).
    { rewrite (mapM_ok f (fun i => l !! Z.to_nat i)).
      - f_equal. apply list_eq. intros i. rewrite !list_lookup_fmap. destruct (decide (i < length l)%nat) as [Hi|Hi].
        + destruct (lookup_lt_is_Some_2 l i Hi) as [x Hx]. rewrite Hx. rewrite lookup_seqZ_lt by (unfold zlen in *; lia). cbn.
          by rewrite Z.add_0_l, Nat2Z.id, Hx.
        + rewrite (lookup_ge_None_2 l i) by lia. rewrite lookup_seqZ_ge by (unfold zlen in *; lia). done.
      - intros i Hi. apply elem_of_seqZ in Hi. destruct (lookup_lt_is_Some_2 l (Z.to_nat i)) as [x Hx]; [unfold zlen in *; lia|].
        rewrite Hx. unfold f. rewrite Z.add_comm. replace i with (Z.of_nat (Z.to_nat i)) at 1 by lia. by apply (ring_zget q l). }
    rewrite Hmap. cbn [mbind result_bind hq_size hq_head hq_tail hq_data].
    set (q' := HarborQueue (hq_size q * 2) 0 (hq_size q - 1) ((Some <$> l) ++ replicate (Z.to_nat (hq_size q + 1)) None)).
    assert (Hr' : ring q' l).
    { constructor; cbn; try lia.
      - rewrite Z.mod_small by lia. lia.
      - rewrite zlen_app. unfold zlen. rewrite length_fmap, length_replicate. unfold zlen in *. lia.
      - intros i x Hx. apply lookup_lt_Some in Hx as Hl. rewrite Z.mod_small by (unfold zlen in *; lia). rewrite Z.add_0_l, Nat2Z.id.
        rewrite lookup_app_l by (by rewrite length_fmap). by rewrite list_lookup_fmap, Hx. }
    destruct (ring_put q' l m Hr') as (data & Ed & Hd); [cbn; lia|]. cbn [hq_data hq_tail hq_size hq_head q'] in Ed, Hd. rewrite Ed. cbn [mbind result_bind].
    eexists. split; [done|exact Hd].
  - cbn [mbind result_bind]. destruct (ring_put q l m Hr) as (data & -> & Hd); [|cbn [mbind result_bind]; by eexists].
    destruct (Z.eq_dec (zlen l + 1) (hq_size q)) as [E'|]; [by apply Hfull in E'|lia].
Qed.

Lemma pop_queue_ring q l : ring q l -> exists q', pop_queue q = Ok (head l, q') /\ hq_size q' = hq_size q /\ ring q' (tail l).
Proof.
  intros Hr. pose proof Hr as [H1 H2 H3 H4 H5]. unfold pop_queue. destruct l as [|m l].
  - change (zlen []) with 0 in H3. rewrite Z.add_0_r, Z.mod_small in H3 by lia. rewrite H3, Z.eqb_refl. by exists q.
  - pose proof (zlen_nonneg l). assert (zlen (m :: l) = zlen l + 1) as Hz by (unfold zlen; cbn; lia). rewrite Hz in *.
    destruct (Z.eqb_spec (hq_head q) (hq_tail q)) as [E|E].
    { rewrite H3, mod_wrap in E by lia. zcases_in E; lia. }
    pose proof (ring_zget q (m :: l) 0 m Hr eq_refl) as Hg. rewrite Z.add_0_r, Z.mod_small in Hg by lia. rewrite Hg. cbn [mbind result_bind deref].
    eexists. split; [done|]. split; [done|]. constructor; cbn.
    + apply Z.mod_pos_bound. lia.
    + lia.
    + rewrite Zplus_mod_idemp_l, H3. f_equal. lia.
    + done.
    + intros i x Hx. rewrite Zplus_mod_idemp_l. replace (hq_head q + 1 + Z.of_nat i) with (hq_head q + Z.of_nat (S i)) by lia. by apply H5.
Qed.

Lemma pop_all_ring fuel : forall q l, ring q l -> (length l < fuel)%nat -> exists q', pop_all fuel q = Ok (l, q') /\ ring q' [].
Proof.
  induction fuel as [|fuel IH]; intros q l Hr Hf; [lia|]. cbn [pop_all].
  destruct (pop_queue_ring q l Hr) as (q' & -> & _ & Hr'). cbn [mbind result_bind]. destruct l as [|m l]; [by exists q'|]. cbn [head].
  destruct (IH q' l Hr') as (q'' & -> & Hr''); [cbn in Hf; lia|]. by exists q''.
Qed.

Lemma drain_ring q l : ring q l -> exists q', drain q = Ok (l, q') /\ ring q' [].
Proof. intros Hr. apply pop_all_ring; [done|]. destruct Hr as [_ H _ _ _]. unfold zlen in H. lia. Qed.

Lemma push_all_ring k : forall q l, ring q l -> zlen l + zlen k < 2 ^ 30 -> exists q', push_all q k = Ok q' /\ ring q' (l ++ k).
Proof.
  induction k as [|m k IH]; intros q l Hr Hb; cbn [push_all]; [exists q; by rewrite app_nil_r|].
  assert (zlen (m :: k) = zlen k + 1) as Hz by (unfold zlen; cbn; lia). pose proof (zlen_nonneg k).
  destruct (push_queue_msg_ring q l m Hr) as (q1 & -> & Hr1); [lia|]. cbn [mbind result_bind].
  destruct (IH q1 (l ++ [m]) Hr1) as (q2 & -> & Hr2); [rewrite zlen_app; change (zlen [m]) with 1; lia|]. exists q2. split; [done|]. by rewrite <- app_assoc in Hr2.
Qed.

(** ** Requests of the services of this node *)

(** A message for a service of another node, as [skynet_harbor_send] hands it over. *)
Record request : Set := Request {
  r_type : Z;
  r_session : Z;
  r_source : Z;
  r_destination : Z;
  r_address : Z;
  r_data : list Z
}.

Definition message_of (r : request) : message :=
  RemoteMsg (r_type r) (r_session r) (r_source r) (RemoteMessage (r_destination r) [] (r_address r) (r_data r)).

(** A request for node [id] that fits the 24 bits of the length. *)
Record request_to (id : Z) (r : request) : Prop := RequestTo {
  rt_type : 0 <= r_type r < 256;
  rt_session : - 2 ^ 31 <= r_session r < 2 ^ 31;
  rt_source : is_u32 (r_source r);
  rt_destination : is_u32 (r_destination r);
  rt_harbor : harbor_of (r_destination r) = id;
  rt_data : zlen (r_data r) + HEADER_COOKIE_LENGTH < 2 ^ 24
}.

Definition cookie_of (r : request) : remote_message_header :=
  RemoteHeader (r_source r) (Z.lor (u32 (Z.shiftl (r_type r) HANDLE_REMOTE_SHIFT)) (Z.land (r_destination r) HANDLE_MASK)) (u32 (r_session r)).

Definition payload_of (r : request) : list Z := r_data r ++ header_to_message (cookie_of r).

Definition framed (p : list Z) : list Z := be_bytes 4 (zlen p) ++ p.

Definition frame_of (r : request) : list Z := framed (payload_of r).

Definition waiting_msg (r : request) : harbor_msg := HarborMsg (cookie_of r) (r_address r) (r_data r).

Fixpoint run (known : Z -> bool) (ms : list message) (h : harbor) : result (list effect * harbor) :=
  match ms with
  | [] => Ok ([], h)
  | m :: ms => '(e, h) ← mainloop known m h; '(e', h) ← run known ms h; Ok (e ++ e', h)
  end.

Lemma run_app known ms ms' h e h1 e' h2 : run known ms h = Ok (e, h1) -> run known ms' h1 = Ok (e', h2) ->
  run known (ms ++ ms') h = Ok (e ++ e', h2).
Proof.
  revert h e. induction ms as [|m ms IH]; intros h e; cbn [run app]; intros H1 H2; [by inv_res|].
  destruct (mainloop known m h) as [[e0 h0]| |]; cbn [mbind result_bind] in *; try done.
  destruct (run known ms h0) as [[e3 h3]| |] eqn:E; cbn [mbind result_bind] in *; try done. inv_res.
  rewrite (IH h0 e3 E H2). cbn [mbind result_bind]. by rewrite app_assoc.
Qed.

Lemma run_cons known m ms h e h1 e' h2 : mainloop known m h = Ok (e, h1) -> run known ms h1 = Ok (e', h2) ->
  run known (m :: ms) h = Ok (e ++ e', h2).
Proof. intros H1 H2. cbn [run]. rewrite H1. cbn [mbind result_bind]. by rewrite H2. Qed.

Lemma zlen_header hd : zlen (header_to_message hd) = HEADER_COOKIE_LENGTH.
Proof. unfold header_to_message, zlen. by rewrite !length_app, !length_be_bytes. Qed.

Lemma zlen_payload r : zlen (payload_of r) = zlen (r_data r) + HEADER_COOKIE_LENGTH.
Proof. unfold payload_of. by rewrite zlen_app, zlen_header. Qed.

(** ** Slaves *)

Lemma get_set_eq id s h : get_slave (set_slave id s h) id = s.
Proof. unfold get_slave, set_slave. cbn. by rewrite lookup_insert_eq. Qed.

Lemma get_set_ne id id' s h : id <> id' -> get_slave (set_slave id s h) id' = get_slave h id'.
Proof. intros. unfold get_slave, set_slave. cbn. by rewrite lookup_insert_ne. Qed.

Definition queued (q : option harbor_msg_queue) (l : list harbor_msg) : Prop :=
  match q with None => l = [] | Some q => ring q l end.

Lemma queued_default q l : queued q l -> ring (default new_queue q) l.
Proof. destruct q; cbn; [done|]. intros ->. apply new_queue_ring. Qed.

(** There is no connection to node [id] yet and the messages [l] wait for it. *)
Record waiting (id : Z) (l : list harbor_msg) (h : harbor) : Prop := Waiting {
  wt_id : hb_id h <> id;
  wt_fd : sl_fd (get_slave h id) = 0;
  wt_status : sl_status (get_slave h id) = STATUS_WAIT;
  wt_queue : queued (sl_queue (get_slave h id)) l
}.

(** Node [id] is connected by socket [fd]. *)
Record up (id fd : Z) (h : harbor) : Prop := Up {
  up_id : hb_id h <> id;
  up_fd : sl_fd (get_slave h id) = fd;
  up_open : fd <> 0;
  up_status : sl_status (get_slave h id) <> STATUS_HANDSHAKE
}.

Lemma remote_handle known id r h : request_to id r -> 0 < id ->
  mainloop known (message_of r) h =
  '(kept, e, h) ← remote_send_handle h (r_source r) (r_destination r) (r_type r) (r_session r) (r_address r) (r_data r);
  Ok (if kept : bool then e else e ++ [Free (r_address r)], h).
Proof.
  intros Hr Hid. unfold mainloop, message_of, remote_out. cbn [rm_handle rm_name rm_address rm_data].
  destruct (Z.eqb_spec (r_destination r) 0) as [E|]; [|done].
  apply rt_harbor in Hr. rewrite E in Hr. change (harbor_of 0) with 0 in Hr. lia.
Qed.

(** Before the connection messages wait, in order. *)
Lemma request_waits known id r l h : waiting id l h -> request_to id r -> 0 < id -> zlen l < 2 ^ 30 - 1 ->
  exists h', mainloop known (message_of r) h = Ok ([], h') /\ waiting id (l ++ [waiting_msg r]) h' /\ hb_id h' = hb_id h.
Proof.
  intros [Hi Hf Hs Hq] Hr Hid Hl. rewrite (remote_handle _ id) by done. unfold remote_send_handle. rewrite (rt_harbor _ _ Hr).
  destruct (Z.eqb_spec id (hb_id h)) as [->|]; [done|]. rewrite Hf, Hs. cbn [Z.eqb orb].
  change (STATUS_WAIT =? STATUS_DOWN) with false. cbn iota.
  destruct (push_queue_msg_ring _ _ (waiting_msg r) (queued_default _ _ Hq) Hl) as (q & Eq & Hring).
  unfold push_queue. fold (cookie_of r). fold (waiting_msg r). rewrite Eq. cbn [mbind result_bind]. eexists. split; [done|].
  split; [|done]. constructor; rewrite ?get_set_eq; done.
Qed.

Lemma requests_wait known id rs : forall l h, waiting id l h -> Forall (request_to id) rs -> 0 < id -> zlen l + zlen rs < 2 ^ 30 ->
  exists h', run known (message_of <$> rs) h = Ok ([], h') /\ waiting id (l ++ (waiting_msg <$> rs)) h' /\ hb_id h' = hb_id h.
Proof.
  induction rs as [|r rs IH]; intros l h Hw Hrs Hid Hl; cbn [run fmap list_fmap].
  { exists h. by rewrite app_nil_r. }
  inversion_clear Hrs as [|? ? Hr Hrs']. assert (zlen (r :: rs) = zlen rs + 1) as E by (unfold zlen; cbn; lia). pose proof (zlen_nonneg rs).
  destruct (request_waits known id r l h Hw Hr Hid) as (h1 & E1 & Hw1 & Hb1); [lia|].
  destruct (IH _ _ Hw1 Hrs' Hid) as (h2 & E2 & Hw2 & Hb2). { rewrite zlen_app. change (zlen [_]) with 1. lia. }
  exists h2. rewrite E1. cbn [mbind result_bind]. rewrite E2. split; [done|]. split; [|congruence]. by rewrite <- app_assoc in Hw2.
Qed.

(** What the socket [fd] gets of a request. *)
Lemma send_request fd id r : request_to id r -> send_remote fd (r_data r) (cookie_of r) = [SocketSend fd (frame_of r)].
Proof.
  intros Hr. unfold send_remote. apply rt_data in Hr. destruct (Z.ltb_spec UINT32_MAX (zlen (r_data r) + HEADER_COOKIE_LENGTH)) as [H|_].
  { unfold UINT32_MAX in H. lia. }
  unfold frame_of, framed. by rewrite zlen_payload.
Qed.

Definition sent (fd : Z) (rs : list request) : list effect := concat ((fun r => [SocketSend fd (frame_of r); Free (r_address r)]) <$> rs).

Lemma send_all_sent fd id rs : Forall (request_to id) rs -> send_all fd (waiting_msg <$> rs) = sent fd rs.
Proof.
  induction 1 as [|r rs Hr Hrs IH]; [done|]. unfold send_all, sent in *. cbn. unfold send_queued at 1. cbn [hm_data hm_header hm_buffer waiting_msg].
  rewrite (send_request fd id r Hr). cbn. by rewrite IH.
Qed.

Lemma requests_sent known id fd rs h : up id fd h -> Forall (request_to id) rs -> 0 < id -> run known (message_of <$> rs) h = Ok (sent fd rs, h).
Proof.
  intros [Hi Hf Ho Hs] Hrs Hid. induction Hrs as [|r rs Hr Hrs IH]; [done|]. cbn [fmap list_fmap].
  change (sent fd (r :: rs)) with ([SocketSend fd (frame_of r); Free (r_address r)] ++ sent fd rs).
  apply run_cons with h; [|exact IH]. rewrite (remote_handle _ id) by done. unfold remote_send_handle. rewrite (rt_harbor _ _ Hr).
  destruct (Z.eqb_spec id (hb_id h)) as [->|]; [done|]. rewrite Hf.
  destruct (Z.eqb_spec fd 0); [done|]. destruct (Z.eqb_spec (sl_status (get_slave h id)) STATUS_HANDSHAKE); [done|]. cbn [orb mbind result_bind].
  fold (cookie_of r). by rewrite (send_request fd id r Hr).
Qed.

(** ** Commands *)

Lemma scan_digits_spec ds : Forall digit ds -> forall acc l, (forall c l', l = c :: l' -> ~ digit c) ->
  scan_digits (ds ++ l) acc = (fold_left (fun a c => a * 10 + (c - 48)) ds acc, l).
Proof.
  induction 1 as [|d ds Hd Hds IH]; intros acc l Hl; cbn.
  - destruct l as [|c l]; [done|]. cbn. specialize (Hl c l eq_refl). unfold digit in Hl. zprune; done || lia.
  - unfold digit in Hd. zprune. by apply IH.
Qed.

(** [sscanf] reads back what [%d] prints. *)
Lemma scan_dec n l : 0 <= n <= INT_MAX -> (forall c l', l = c :: l' -> ~ digit c) -> scan_int (dec n ++ l) = Some (n, l).
Proof.
  intros Hn Hl. unfold dec. destruct (Z.ltb_spec n 0); [lia|]. unfold INT_MAX in Hn.
  destruct (dec_digits_spec 10 n []) as (d & ds & -> & Hd & Hv); [lia|lia|]. rewrite app_nil_r.
  pose proof (scan_digits_spec _ Hd 0 l Hl) as E. inversion_clear Hd as [|? ? Hd' _]. unfold digit in Hd'.
  unfold scan_int. cbn [app skip_space]. zprune. unfold scan_unsigned. zprune.
  rewrite app_comm_cons, E. f_equal. f_equal. exact Hv.
Qed.

Lemma cstr_id l : Forall (fun c => c <> 0) l -> cstr l = l.
Proof. induction 1 as [|c l Hc Hl IH]; cbn; [done|]. destruct (Z.eqb_spec c 0); [done|]. by rewrite IH. Qed.

(** The commands [A fd id] and [S fd id]. *)
Definition link_command (c fd id : Z) : list Z := c :: 32 :: dec fd ++ 32 :: dec id.

Lemma scan_link fd id : 0 <= fd <= INT_MAX -> 0 <= id <= INT_MAX -> scan_two (cstr (dec fd ++ 32 :: dec id)) = (fd, id).
Proof.
  intros Hf Hi. rewrite cstr_id.
  2:{ apply Forall_app. split; [by apply dec_nonzero|]. constructor; [done|by apply dec_nonzero]. }
  unfold scan_two. rewrite scan_dec; [|done|intros ? ? [= <- <-]; unfold digit; lia].
  replace (scan_int (32 :: dec id)) with (scan_int (dec id ++ [])) by (rewrite app_nil_r; reflexivity).
  by rewrite scan_dec.
Qed.

Lemma link_command_eq c fd id h source : c = 83 \/ c = 65 -> 0 < fd <= INT_MAX -> 0 < id < REMOTE_MAX -> sl_fd (get_slave h id) = 0 ->
  harbor_command h (link_command c fd id) source =
  let h := set_slave id (set_fd fd (get_slave h id)) h in
  let e := SocketStart fd :: handshake h id in
  if c =? 83 then Ok (e, set_slave id (set_status STATUS_HANDSHAKE (get_slave h id)) h)
  else '(e', h) ← dispatch_queue (set_slave id (set_status STATUS_HEADER (get_slave h id)) h) id; Ok (e ++ e', h).
Proof.
  intros Hc Hf Hi H0. unfold harbor_command, link_command. set (t := dec fd ++ 32 :: dec id).
  assert (Hs : scan_two (cstr t) = (fd, id)) by (apply scan_link; unfold REMOTE_MAX, INT_MAX in *; lia).
  change (zget (c :: 32 :: t) 0) with (Ok c : result Z). change (drop 2 (c :: 32 :: t)) with t. cbn zeta. rstep. rewrite Hs.
  assert (0 <=? zlen (c :: 32 :: t) - 2 = true) as -> by (apply Z.leb_le; unfold zlen; cbn [length]; lia). cbn [assert_]. rstep.
  destruct (Z.eqb_spec fd 0), (Z.leb_spec id 0), (Z.leb_spec REMOTE_MAX id); try lia. rewrite H0.
  by destruct Hc as [-> | ->].
Qed.

Lemma dispatch_queue_flush h id l : sl_fd (get_slave h id) <> 0 -> queued (sl_queue (get_slave h id)) l ->
  exists h', dispatch_queue h id = Ok (send_all (sl_fd (get_slave h id)) l, h') /\ hb_id h' = hb_id h /\ hb_map h' = hb_map h /\
    (forall i, i <> id -> get_slave h' i = get_slave h i) /\ get_slave h' id = set_squeue None (get_slave h id).
Proof.
  intros Hf Hq. unfold dispatch_queue. destruct (Z.eqb_spec (sl_fd (get_slave h id)) 0); [done|]. cbn [negb assert_ mbind result_bind].
  destruct (sl_queue (get_slave h id)) as [q|] eqn:E; cbn in Hq.
  - destruct (drain_ring q l Hq) as (q' & -> & _). cbn [mbind result_bind]. eexists. split; [done|]. split; [done|]. split; [done|].
    split; [intros i Hi; by rewrite get_set_ne|by rewrite get_set_eq].
  - subst l. exists h. split; [done|]. split; [done|]. split; [done|]. split; [done|]. unfold set_squeue. destruct (get_slave h id). cbn in *. by subst.
Qed.

(** [A fd id] sends the id of this node and then what has waited. *)
Lemma accept_link h fd id source l : waiting id l h -> 0 < fd <= INT_MAX -> 0 < id < REMOTE_MAX ->
  exists h', harbor_command h (link_command 65 fd id) source = Ok (SocketStart fd :: SocketSend fd [u8 (hb_id h)] :: send_all fd l, h')
    /\ up id fd h' /\ hb_id h' = hb_id h.
Proof.
  intros [Hi Hf Hs Hq] Hfd Hid. rewrite link_command_eq by auto. cbn zeta. change (65 =? 83) with false. cbn iota.
  unfold handshake. rewrite !get_set_eq.
  set (h1 := set_slave id (set_fd fd (get_slave h id)) h). set (h2 := set_slave id _ h1).
  assert (get_slave h2 id = set_status STATUS_HEADER (set_fd fd (get_slave h id))) as E2 by (unfold h2; by rewrite get_set_eq).
  destruct (dispatch_queue_flush h2 id l) as (h' & -> & Eb & _ & _ & Eg).
  { rewrite E2. cbn. lia. } { by rewrite E2. }
  rewrite E2 in Eg |- *. cbn [sl_fd set_status set_fd mbind result_bind app]. eexists. split; [done|]. split; [|done].
  constructor; rewrite ?Eg; cbn; [by rewrite Eb|done|lia|done].
Qed.

(** ** Receiving *)

(** The effects of a request at its node: delivery, and an error to the source
    when [skynet_send] returns a negative number, unless the request is an error:
    nobody has the handle, or the session it returns is negative. *)
Definition delivered (known : Z -> bool) (r : request) : list effect :=
  Send (r_source r) (r_destination r) (Z.lor (r_type r) PTYPE_TAG_DONTCOPY) (r_session r) None (r_data r) ::
  (if known (r_destination r) && (0 <=? r_session r) || (r_type r =? PTYPE_ERROR) then []
   else [Send (r_destination r) (r_source r) PTYPE_ERROR (r_session r) None []]).

Lemma header_roundtrip hd : is_u32 (rh_source hd) -> is_u32 (rh_destination hd) -> is_u32 (rh_session hd) ->
  message_to_header (header_to_message hd) = hd.
Proof.
  intros H1 H2 H3. destruct hd as [a b c]. unfold message_to_header, header_to_message. cbn [rh_source rh_destination rh_session] in *.
  assert (forall z, length (be_bytes 4 z) = 4%nat) as Hl by (intros; apply length_be_bytes).
  rewrite take_app_length' by done. rewrite drop_app_length' by done. rewrite take_app_length' by done.
  rewrite app_assoc, drop_app_length' by (by rewrite length_app, !Hl). rewrite (take_ge (be_bytes 4 c)) by (by rewrite Hl).
  unfold is_u32 in *. rewrite !be_val_be_bytes. change (2 ^ (8 * Z.of_nat 4)) with (2 ^ 32). by rewrite !Z.mod_small by lia.
Qed.

Lemma handle_split z : is_u32 z -> Z.lor (Z.land z HANDLE_MASK) (u32 (Z.shiftl (harbor_of z) HANDLE_REMOTE_SHIFT)) = z.
Proof.
  unfold is_u32, harbor_of, HANDLE_REMOTE_SHIFT. intros Hz. change HANDLE_MASK with (2 ^ 24 - 1). rewrite land_pred_pow2 by lia.
  rewrite shiftr_div by lia. rewrite u32_small by (unfold is_u32; rewrite Z.shiftl_mul_pow2 by lia; dlia).
  rewrite lor_shiftl_add by dlia. dlia.
Qed.

Lemma type_split t d : 0 <= t < 256 -> let z := Z.lor (u32 (Z.shiftl t HANDLE_REMOTE_SHIFT)) (Z.land d HANDLE_MASK) in
  is_u32 z /\ Z.shiftr z HANDLE_REMOTE_SHIFT = t /\ Z.land z HANDLE_MASK = Z.land d HANDLE_MASK.
Proof.
  intros Ht. cbn zeta. change HANDLE_MASK with (2 ^ 24 - 1). unfold HANDLE_REMOTE_SHIFT. rewrite !land_pred_pow2, Z.lor_comm by lia.
  rewrite u32_small by (unfold is_u32; rewrite Z.shiftl_mul_pow2 by lia; lia). rewrite lor_shiftl_add by dlia.
  rewrite shiftr_div by lia. unfold is_u32. dlia.
Qed.

Lemma forward_payload known h r : request_to (hb_id h) r -> forward_local_messsage known h (payload_of r) = Ok (delivered known r).
Proof.
  intros [Ht Hs Hso Hd Hh Hz]. unfold forward_local_messsage. rewrite zlen_payload.
  replace (zlen (r_data r) + HEADER_COOKIE_LENGTH - HEADER_COOKIE_LENGTH) with (zlen (r_data r)) by lia.
  pose proof (zlen_nonneg (r_data r)). rewrite slice_Ok; [|done|done|by rewrite zlen_payload]. rstep.
  assert (Z.to_nat (zlen (r_data r)) = length (r_data r)) as -> by (unfold zlen; lia). unfold payload_of.
  rewrite drop_app_length, take_app_length. rewrite take_ge by (unfold header_to_message; rewrite !length_app, !length_be_bytes; done).
  destruct (type_split (r_type r) (r_destination r) Ht) as (Hc & Etype & Emask).
  rewrite header_roundtrip; [|done|done|apply u32_range]. unfold cookie_of. cbn [rh_source rh_destination rh_session].
  rewrite Etype, Emask, <- Hh, handle_split by done.
  assert (s32 (u32 (r_session r)) = r_session r) as ->.
  { unfold s32, u32. rewrite swrap_wrap by lia. by apply swrap_small. }
  unfold delivered, send_result. destruct (known (r_destination r)); cbn [andb]; [destruct (0 <=? r_session r); cbn [orb]; [done|]|]; by destruct (Z.eqb_spec (r_type r) PTYPE_ERROR).
Qed.

(** A length below 2^24 in its 4 bytes. *)
Lemma header_bytes L : 0 <= L < 2 ^ 24 -> be_bytes 4 L = [0; L / 65536; L / 256 mod 256; L mod 256].
Proof.
  intros HL. unfold be_bytes. cbn [le_bytes rev app].
  assert (L / 256 / 256 / 256 mod 256 = 0) as -> by dlia. by assert (L / 256 / 256 mod 256 = L / 65536) as -> by dlia.
Qed.

Lemma header_length L : 0 <= L < 2 ^ 24 ->
  Z.lor (Z.lor (Z.shiftl (L / 65536) 16) (Z.shiftl (L / 256 mod 256) 8)) (L mod 256) = L.
Proof.
  intros HL. rewrite (Z.lor_comm (Z.shiftl _ 16)), lor_shiftl_add by (rewrite ?Z.shiftl_mul_pow2 by lia; dlia).
  rewrite Z.lor_comm. replace (_ + _ * _) with (Z.shiftl (L / 256 mod 256 + L / 65536 * 256) 8) by (rewrite !Z.shiftl_mul_pow2 by lia; lia).
  rewrite lor_shiftl_add by dlia. dlia.
Qed.

(** The slave has read the bytes [p] of a message and waits for the rest. *)
Definition reading_header (p : list Z) (s : slave) : Prop :=
  sl_status s = STATUS_HEADER /\ zlen (sl_size s) = 4 /\ sl_read s = zlen p /\ zlen p < 4 /\ take (length p) (sl_size s) = p.

Definition reading_content (L : Z) (d : list Z) (s : slave) : Prop :=
  sl_status s = STATUS_CONTENT /\ zlen (sl_size s) = 4 /\ 0 <= L < 2 ^ 24 /\ sl_length s = L /\ sl_read s = zlen d /\ zlen d < L /\
  exists recv, sl_recv s = Some recv /\ zlen recv = L /\ take (length d) recv = d.

Definition holds (p : list Z) (s : slave) : Prop :=
  reading_header p s \/ exists L d, p = be_bytes 4 L ++ d /\ reading_content L d s.

(** What receiving leaves alone: the id and the sockets. *)
Definition keeps (h h' : harbor) : Prop := hb_id h' = hb_id h /\ forall i, sl_fd (get_slave h' i) = sl_fd (get_slave h i).

Lemma keeps_trans h1 h2 h3 : keeps h1 h2 -> keeps h2 h3 -> keeps h1 h3.
Proof. intros [H1 H2] [H3 H4]. split; [congruence|]. intros i. by rewrite H4, H2. Qed.

Lemma keeps_set id s h : sl_fd s = sl_fd (get_slave h id) -> keeps h (set_slave id s h).
Proof. intros Hs. split; [done|]. intros i. destruct (decide (i = id)) as [->|]; [by rewrite get_set_eq|by rewrite get_set_ne]. Qed.

(** [memcpy] to the end of what is there. *)
Lemma blit_extend buffer d d' : take (length d) buffer = d -> zlen d + zlen d' <= zlen buffer ->
  exists b, blit buffer (zlen d) d' = Ok b /\ zlen b = zlen buffer /\ take (length (d ++ d')) b = d ++ d'.
Proof.
  intros Hd Hl. destruct (blit_spec buffer (zlen d) d') as (b & E & H1 & H2 & _); [apply zlen_nonneg|done|].
  exists b. split; [done|]. split; [unfold zlen; lia|]. rewrite length_app. unfold zlen in H2. by rewrite Nat2Z.id, Hd in H2.
Qed.

Lemma content_more known h id L d buffer : reading_content L d (get_slave h id) -> zlen d + zlen buffer < L ->
  exists h', content_case known h id buffer = Ok ([], h', None) /\ keeps h h' /\ reading_content L (d ++ buffer) (get_slave h' id).
Proof.
  intros (Hs & Hz & HL & Hl & Hr & Hd & recv & Hrecv & Hzr & Ht) Hb. unfold content_case. rewrite Hl, Hr, Hrecv. cbn [deref]. rstep.
  destruct (Z.ltb_spec (zlen buffer) (L - zlen d)); [|lia].
  destruct (blit_extend recv d buffer Ht) as (b & -> & Hzb & Htb); [lia|]. rstep. eexists. split; [done|].
  split; [by apply keeps_set|]. rewrite get_set_eq. repeat split; cbn; try done; try lia.
  - by rewrite zlen_app.
  - rewrite zlen_app. lia.
  - exists b. split; [done|]. split; [lia|done].
Qed.

Lemma content_last known h id d r buffer tl : reading_content (zlen (payload_of r)) d (get_slave h id) ->
  d ++ buffer = payload_of r ++ tl -> request_to (hb_id h) r ->
  exists h', content_case known h id buffer = Ok (delivered known r, h', if zlen tl =? 0 then None else Some tl) /\
    keeps h h' /\ reading_header [] (get_slave h' id).
Proof.
  intros (Hs & Hz & HL & Hl & Hr & Hd & recv & Hrecv & Hzr & Ht) Hb Hreq. set (m := payload_of r) in *.
  assert (exists d', m = d ++ d' /\ buffer = d' ++ tl) as (d' & Em & ->).
  { exists (drop (length d) m). assert (m = d ++ drop (length d) m) as E.
    { rewrite <- (take_drop (length d) m) at 1. f_equal. rewrite <- (take_app_le m tl) by (unfold zlen in *; lia). rewrite <- Hb. apply take_app_length. }
    split; [done|]. rewrite E, <- app_assoc in Hb at 1. by apply app_inv_head in Hb. }
  assert (zlen m = zlen d + zlen d') as Hzm by (rewrite Em; apply zlen_app). pose proof (zlen_nonneg tl). pose proof (zlen_nonneg d').
  unfold content_case. rewrite Hl, Hr, Hrecv. cbn [deref]. rstep. rewrite zlen_app.
  replace (zlen m - zlen d) with (zlen d') by lia. destruct (Z.ltb_spec (zlen d' + zlen tl) (zlen d')); [lia|].
  rewrite slice_Ok by (rewrite ?zlen_app; lia). rstep. change (Z.to_nat 0) with 0%nat. rewrite drop_0.
  assert (Z.to_nat (zlen d') = length d') as -> by (unfold zlen; lia). rewrite take_app_length, drop_app_length.
  destruct (blit_extend recv d d' Ht) as (b & -> & Hzb & Htb); [lia|]. rstep.
  rewrite take_ge in Htb by (rewrite length_app; unfold zlen in *; lia). rewrite Htb, <- Em. unfold m. rewrite forward_payload by done. rstep.
  eexists. split; [done|]. split; [by apply keeps_set|]. rewrite get_set_eq. by repeat split.
Qed.

Lemma header_more known h id p buffer : reading_header p (get_slave h id) -> zlen p + zlen buffer < 4 ->
  exists h', header_case known h id buffer = Ok ([], h', None) /\ keeps h h' /\ reading_header (p ++ buffer) (get_slave h' id).
Proof.
  intros (Hs & Hz & Hr & Hp & Ht) Hb. unfold header_case. rewrite Hr. destruct (Z.ltb_spec (zlen buffer) (4 - zlen p)); [|lia].
  destruct (blit_extend (sl_size (get_slave h id)) p buffer Ht) as (b & -> & Hzb & Htb); [lia|]. rstep. eexists. split; [done|].
  split; [by apply keeps_set|]. rewrite get_set_eq. repeat split; cbn; try done; rewrite ?zlen_app; lia.
Qed.

Lemma header_last known h id L p buffer tl : reading_header p (get_slave h id) -> p ++ buffer = be_bytes 4 L ++ tl -> 0 < L < 2 ^ 24 ->
  exists h', header_case known h id buffer = (if zlen tl =? 0 then Ok ([], h', None) else content_case known h' id tl) /\
    keeps h h' /\ reading_content L [] (get_slave h' id).
Proof.
  intros (Hs & Hz & Hr & Hp & Ht) Hb HL.
  assert (exists p', be_bytes 4 L = p ++ p' /\ buffer = p' ++ tl) as (p' & Em & ->).
  { pose proof (length_be_bytes 4 L). exists (drop (length p) (be_bytes 4 L)). assert (be_bytes 4 L = p ++ drop (length p) (be_bytes 4 L)) as E.
    { rewrite <- (take_drop (length p) (be_bytes 4 L)) at 1. f_equal. rewrite <- (take_app_le (be_bytes 4 L) tl) by (unfold zlen in *; lia).
      rewrite <- Hb. apply take_app_length. }
    split; [done|]. rewrite E, <- app_assoc in Hb at 1. by apply app_inv_head in Hb. }
  assert (zlen p + zlen p' = 4) as Hzm by (rewrite <- zlen_app, <- Em; unfold zlen; by rewrite length_be_bytes).
  pose proof (zlen_nonneg tl). pose proof (zlen_nonneg p').
  unfold header_case. rewrite Hr, zlen_app. replace (4 - zlen p) with (zlen p') by lia. destruct (Z.ltb_spec (zlen p' + zlen tl) (zlen p')); [lia|].
  rewrite slice_Ok by (rewrite ?zlen_app; lia). rstep. change (Z.to_nat 0) with 0%nat. rewrite drop_0.
  assert (Z.to_nat (zlen p') = length p') as -> by (unfold zlen; lia). rewrite take_app_length, drop_app_length.
  destruct (blit_extend (sl_size (get_slave h id)) p p' Ht) as (b & -> & Hzb & Htb); [lia|]. rstep.
  rewrite take_ge in Htb by (rewrite length_app; unfold zlen in *; lia). rewrite <- Em, header_bytes in Htb by lia. subst b.
  assert (forall a b c d : Z, zget [a; b; c; d] 0 = Ok a /\ zget [a; b; c; d] 1 = Ok b /\ zget [a; b; c; d] 2 = Ok c /\ zget [a; b; c; d] 3 = Ok d) as Hget by done.
  destruct (Hget 0 (L / 65536) (L / 256 mod 256) (L mod 256)) as (-> & -> & -> & ->). rstep. cbn [Z.eqb negb].
  rewrite header_length by lia. eexists. split; [done|]. split; [by apply keeps_set|].
  rewrite get_set_eq. change (zlen []) with 0 in *. repeat split; cbn -[zlen]; try done; try (change (zlen (A:=Z) []) with 0; lia). eexists. split; [done|]. split; [|done]. unfold zlen. rewrite length_replicate. lia.
Qed.

Lemma app_split_le {A} (p b c d : list A) : p ++ b = c ++ d -> (length c <= length p)%nat -> exists q, p = c ++ q /\ d = q ++ b.
Proof.
  intros H Hl. exists (drop (length c) p). assert (p = c ++ drop (length c) p) as E.
  { rewrite <- (take_drop (length c) p) at 1. f_equal. rewrite <- (take_app_le p b) by lia. rewrite H. apply take_app_length. }
  split; [done|]. rewrite E, <- app_assoc in H at 1. by apply app_inv_head in H.
Qed.

Lemma header_inj L L' d d' : 0 <= L < 2 ^ 24 -> 0 <= L' < 2 ^ 24 -> be_bytes 4 L ++ d = be_bytes 4 L' ++ d' -> L = L' /\ d = d'.
Proof.
  intros HL HL' H. apply app_inj_1 in H as [H ->]; [|by rewrite !length_be_bytes]. split; [|done].
  apply (f_equal be_val) in H. rewrite !be_val_be_bytes in H. change (2 ^ (8 * Z.of_nat 4)) with (2 ^ 32) in H. rewrite !Z.mod_small in H by lia. done.
Qed.

Lemma payload_range id r : request_to id r -> 0 < zlen (payload_of r) < 2 ^ 24.
Proof. intros Hr. rewrite zlen_payload. apply rt_data in Hr. pose proof (zlen_nonneg (r_data r)). unfold HEADER_COOKIE_LENGTH in *. lia. Qed.

Lemma data_case_header known h id p buffer : reading_header p (get_slave h id) -> data_case known h id buffer = header_case known h id buffer.
Proof. intros [Hs _]. unfold data_case. by rewrite Hs. Qed.

Lemma data_case_content known h id L d buffer : reading_content L d (get_slave h id) -> data_case known h id buffer = content_case known h id buffer.
Proof. intros [Hs _]. unfold data_case. by rewrite Hs. Qed.

(** The bytes that end a message deliver it. *)
Lemma data_frame known h id p r buffer tl : holds p (get_slave h id) -> request_to (hb_id h) r -> zlen p < zlen (frame_of r) ->
  p ++ buffer = frame_of r ++ tl ->
  exists h', data_case known h id buffer = Ok (delivered known r, h', if zlen tl =? 0 then None else Some tl) /\ keeps h h' /\ reading_header [] (get_slave h' id).
Proof.
  intros Hh Hr Hl Hb. pose proof (payload_range _ _ Hr) as HL. unfold frame_of, framed in Hb. rewrite <- app_assoc in Hb. destruct Hh as [Hh|(L & d & -> & Hh)].
  - rewrite (data_case_header _ _ _ p) by done. destruct (header_last known h id _ p buffer _ Hh Hb HL) as (h1 & -> & Hk1 & Hc1).
    destruct (Z.eqb_spec (zlen (payload_of r ++ tl)) 0) as [E|_]. { rewrite zlen_app in E. pose proof (zlen_nonneg tl). lia. }
    rewrite <- (proj1 Hk1) in Hr. destruct (content_last known h1 id [] r _ tl Hc1 eq_refl Hr) as (h2 & -> & Hk2 & Hh2). exists h2.
    split; [done|]. split; [by eapply keeps_trans|done].
  - rewrite (data_case_content _ _ _ L d) by done. rewrite <- app_assoc in Hb. pose proof Hh as (_ & _ & HL' & _).
    apply header_inj in Hb as [-> Hb]; [|lia..]. by apply (content_last known h id d).
Qed.

(** Fewer bytes are kept. *)
Lemma data_part known h id p r buffer rest tl : holds p (get_slave h id) -> request_to (hb_id h) r ->
  p ++ buffer ++ rest = frame_of r ++ tl -> zlen (p ++ buffer) < zlen (frame_of r) ->
  exists h', data_case known h id buffer = Ok ([], h', None) /\ keeps h h' /\ holds (p ++ buffer) (get_slave h' id).
Proof.
  intros Hh Hr Hb Hl. pose proof (payload_range _ _ Hr) as HL. unfold frame_of, framed in Hb, Hl. rewrite <- app_assoc in Hb.
  rewrite !zlen_app in Hl. assert (zlen (be_bytes 4 (zlen (payload_of r))) = 4) as H4 by (unfold zlen; by rewrite length_be_bytes).
  destruct Hh as [Hh|(L & d & -> & Hh)].
  - rewrite (data_case_header _ _ _ p) by done. destruct (Z.ltb_spec (zlen p + zlen buffer) 4) as [Hs|Hs].
    { destruct (header_more known h id p buffer Hh Hs) as (h' & E & Hk & Hh'). exists h'. split; [done|]. split; [done|]. by left. }
    rewrite app_assoc in Hb. apply app_split_le in Hb as (q & Eq & Hq); [|unfold zlen in *; rewrite length_app; lia].
    destruct (header_last known h id _ p buffer q Hh Eq HL) as (h1 & -> & Hk1 & Hc1). rewrite Eq.
    destruct (Z.eqb_spec (zlen q) 0) as [E|_].
    { exists h1. split; [done|]. split; [done|]. right. eexists _, []. split; [|exact Hc1]. destruct q; [done|]. unfold zlen in E. cbn in E. lia. }
    destruct (content_more known h1 id _ [] q Hc1) as (h2 & -> & Hk2 & Hc2).
    { apply (f_equal zlen) in Eq. rewrite !zlen_app in Eq. change (zlen []) with 0. lia. }
    exists h2. split; [done|]. split; [by eapply keeps_trans|]. right. by eexists _, q.
  - rewrite (data_case_content _ _ _ L d) by done. rewrite <- app_assoc in Hb. pose proof Hh as (_ & _ & HL' & _).
    apply header_inj in Hb as [-> Hb]; [|lia..]. rewrite zlen_app in Hl.
    destruct (content_more known h id _ d buffer Hh) as (h' & E & Hk & Hc); [lia|]. exists h'. split; [done|]. split; [done|].
    right. eexists _, (d ++ buffer). split; [by rewrite <- app_assoc|done].
Qed.

Lemma holds_short p s r id : holds p s -> request_to id r -> (exists b tl, p ++ b = frame_of r ++ tl) -> zlen p < zlen (frame_of r).
Proof.
  intros Hh Hr (b & tl & E). pose proof (payload_range _ _ Hr) as HL. unfold frame_of, framed in *. rewrite zlen_app.
  assert (forall z, zlen (be_bytes 4 z) = 4) as H4 by (intros; unfold zlen; by rewrite length_be_bytes).
  destruct Hh as [(_ & _ & _ & Hp & _)|(L & d & -> & _ & _ & HL' & _ & _ & Hd & _)]; rewrite ?zlen_app, !H4; [lia|].
  rewrite <- !app_assoc in E. apply header_inj in E as [-> _]; lia.
Qed.

Definition frames (rs : list request) : list Z := concat (frame_of <$> rs).

(** One chunk of a stream of messages. *)
Lemma feed known id rest fuel : forall rs h p buffer, (length buffer < fuel)%nat -> holds p (get_slave h id) -> Forall (request_to (hb_id h)) rs ->
  p ++ buffer ++ rest = frames rs ->
  exists rs1 rs2 p' h', rs = rs1 ++ rs2 /\ data_loop fuel known h id buffer = Ok (concat (delivered known <$> rs1), h') /\ keeps h h' /\
    holds p' (get_slave h' id) /\ p' ++ rest = frames rs2.
Proof.
  induction fuel as [|fuel IH]; intros rs h p buffer Hf Hh Hrs E; [lia|]. cbn [data_loop]. destruct rs as [|r rs].
  - apply app_eq_nil in E as [-> [-> ->]%app_eq_nil]. destruct Hh as [Hh|(L & d & Ed & _)].
    2:{ apply (f_equal length) in Ed. rewrite length_app, length_be_bytes in Ed. discriminate Ed. }
    rewrite (data_case_header _ _ _ []) by done. destruct (header_more known h id [] [] Hh) as (h' & -> & Hk & Hh'); [done|]. rstep.
    exists [], [], [], h'. split; [done|]. split; [done|]. split; [done|]. split; [by left|done].
  - inversion_clear Hrs as [|? ? Hr Hrs']. change (frames (r :: rs)) with (frame_of r ++ frames rs) in E.
    assert (zlen p < zlen (frame_of r)) as Hp by (eapply holds_short; eauto).
    destruct (Z.ltb_spec (zlen (p ++ buffer)) (zlen (frame_of r))) as [Hlt|Hge].
    { destruct (data_part known h id p r buffer rest _ Hh Hr E Hlt) as (h' & -> & Hk & Hh'). rstep.
      exists [], (r :: rs), (p ++ buffer), h'. split; [done|]. split; [done|]. split; [done|]. split; [done|]. by rewrite <- app_assoc. }
    rewrite app_assoc in E. apply app_split_le in E as (tl & Etl & E); [|unfold zlen in Hge; lia].
    destruct (data_frame known h id p r buffer tl Hh Hr Hp Etl) as (h1 & -> & Hk1 & Hh1). rstep. destruct (Z.eqb_spec (zlen tl) 0) as [E0|_].
    { assert (tl = []) as -> by (destruct tl; [done|unfold zlen in E0; cbn in E0; lia]). exists [r], rs, [], h1.
      split; [done|]. split; [cbn; by rewrite app_nil_r|]. split; [done|]. split; [by left|done]. }
    destruct (IH rs h1 [] tl) as (rs1 & rs2 & p' & h2 & -> & -> & Hk2 & Hh2 & E2); [|by left|by rewrite (proj1 Hk1)|done|].
    { apply (f_equal length) in Etl. rewrite !length_app in Etl. unfold zlen in Hp. lia. }
    rstep. exists (r :: rs1), rs2, p', h2. split; [done|]. split; [done|]. split; [by eapply keeps_trans|]. by split.
Qed.

(** ** A link *)

(** What the effects deliver, free and write to a socket. *)
Definition sends (es : list effect) : list effect := omap (fun e => match e with Send _ _ _ _ _ _ => Some e | _ => None end) es.
Definition freed (es : list effect) : list Z := omap (fun e => match e with Free a => Some a | _ => None end) es.
Definition written (fd : Z) (es : list effect) : list Z :=
  concat (omap (fun e => match e with SocketSend fd' d => if fd' =? fd then Some d else None | _ => None end) es).

Lemma sends_app e e' : sends (e ++ e') = sends e ++ sends e'.
Proof. apply omap_app. Qed.
Lemma freed_app e e' : freed (e ++ e') = freed e ++ freed e'.
Proof. apply omap_app. Qed.
Lemma written_app fd e e' : written fd (e ++ e') = written fd e ++ written fd e'.
Proof. unfold written. by rewrite omap_app, concat_app. Qed.

Lemma sent_written fd rs : written fd (sent fd rs) = frames rs.
Proof.
  induction rs as [|r rs IH]; [done|]. change (sent fd (r :: rs)) with ([SocketSend fd (frame_of r); Free (r_address r)] ++ sent fd rs).
  rewrite written_app, IH. unfold written. cbn. rewrite Z.eqb_refl. cbn. by rewrite app_nil_r.
Qed.

Lemma sent_freed fd rs : freed (sent fd rs) = r_address <$> rs.
Proof.
  induction rs as [|r rs IH]; [done|]. change (sent fd (r :: rs)) with ([SocketSend fd (frame_of r); Free (r_address r)] ++ sent fd rs).
  by rewrite freed_app, IH.
Qed.

Lemma sent_sends fd rs : sends (sent fd rs) = [].
Proof. by induction rs. Qed.

Lemma send_all_effects fd l : sends (send_all fd l) = [] /\ freed (send_all fd l) = hm_buffer <$> l.
Proof.
  induction l as [|m l [IH1 IH2]]; [done|]. change (send_all fd (m :: l)) with (send_queued fd m ++ send_all fd l).
  rewrite sends_app, freed_app, IH1, IH2. unfold send_queued, send_remote. by destruct (UINT32_MAX <? zlen (hm_data m) + HEADER_COOKIE_LENGTH).
Qed.

Lemma delivered_sends known rs : sends (concat (delivered known <$> rs)) = concat (delivered known <$> rs) /\ freed (concat (delivered known <$> rs)) = [].
Proof.
  induction rs as [|r rs [IH1 IH2]]; [done|]. cbn [fmap list_fmap concat]. rewrite sends_app, freed_app, IH1, IH2.
  unfold delivered. by destruct (_ || _).
Qed.

Lemma find_slave_ext n h h' fd : (forall i, sl_fd (get_slave h' i) = sl_fd (get_slave h i)) -> forall i, find_slave n i h' fd = find_slave n i h fd.
Proof. intros H. induction n as [|n IH]; intros i; cbn; [done|]. by rewrite H, IH. Qed.

Lemma find_slave_unique n h fd id : sl_fd (get_slave h id) = fd -> (forall i, i <> id -> sl_fd (get_slave h i) <> fd) ->
  forall i, i <= id < i + Z.of_nat n -> find_slave n i h fd = id.
Proof.
  intros Hid Hne. induction n as [|n IH]; intros i Hi; [lia|]. cbn [find_slave].
  destruct (Z.eqb_spec (sl_fd (get_slave h i)) fd) as [E|E].
  - destruct (Z.eq_dec i id); [done|]. by apply Hne in E.
  - apply IH. assert (i <> id) by (intros ->; done). lia.
Qed.

Lemma keeps_harbor_id h h' fd : keeps h h' -> harbor_id h' fd = harbor_id h fd.
Proof. intros [_ H]. unfold harbor_id. by apply find_slave_ext. Qed.

(** A chunk of data from socket [fd] in the block at address [fst c]. *)
Definition chunk (fd : Z) (c : Z * list Z) : message := SocketMsg (fst c) (SocketMessage SKYNET_SOCKET_TYPE_DATA fd (zlen (snd c)) (Some (snd c)) []).

Lemma chunk_step known h fd id c : harbor_id h fd = id -> 0 < id ->
  mainloop known (chunk fd c) h = '(e, h) ← data_loop (S (S (length (snd c)))) known h id (snd c); Ok (e ++ [Free (fst c)], h).
Proof.
  intros Hid Hpos. unfold chunk, mainloop. cbn [sm_type sm_buffer sm_id sm_ud]. change (SKYNET_SOCKET_TYPE_DATA =? SKYNET_SOCKET_TYPE_DATA) with true.
  cbn [deref]. rstep. unfold push_socket_data. rewrite Hid. destruct (Z.eqb_spec id 0); [lia|].
  rewrite slice_Ok by (pose proof (zlen_nonneg (snd c)); lia). rstep. rewrite take_ge; [done|]. rewrite drop_0. unfold zlen. lia.
Qed.

Lemma frames_rest p s id rs : holds p s -> Forall (request_to id) rs -> p = frames rs -> rs = [].
Proof.
  intros Hh Hrs E. destruct rs as [|r rs]; [done|]. inversion_clear Hrs. change (frames (r :: rs)) with (frame_of r ++ frames rs) in E.
  assert (zlen p < zlen (frame_of r)) as Hl by (eapply holds_short; eauto; exists [], (frames rs); by rewrite app_nil_r).
  rewrite E, zlen_app in Hl. pose proof (zlen_nonneg (frames rs)). lia.
Qed.

(** However the stream is cut, the messages come out. *)
Lemma chunks_deliver known id fd cs : forall h p rs, harbor_id h fd = id -> 0 < id -> holds p (get_slave h id) -> Forall (request_to (hb_id h)) rs ->
  p ++ concat (snd <$> cs) = frames rs ->
  exists es h', run known (chunk fd <$> cs) h = Ok (es, h') /\ sends es = concat (delivered known <$> rs) /\ freed es = fst <$> cs.
Proof.
  induction cs as [|c cs IH]; intros h p rs Hid Hpos Hh Hrs E.
  - cbn in E. rewrite app_nil_r in E. assert (rs = []) as -> by (eapply frames_rest; eauto). by exists [], h.
  - cbn [fmap list_fmap concat] in E. destruct (feed known id (concat (snd <$> cs)) (S (S (length (snd c)))) rs h p (snd c)) as (rs1 & rs2 & p' & h1 & -> & E1 & Hk & Hh1 & E2); [lia|done..|].
    apply Forall_app in Hrs as [_ Hrs2].
    destruct (IH h1 p' rs2) as (es & h2 & E3 & Hs & Hf); [by rewrite (keeps_harbor_id _ _ _ Hk)|done|done|by rewrite (proj1 Hk)|done|].
    eexists _, h2. split; [cbn [fmap list_fmap]; eapply run_cons; [|exact E3]; rewrite (chunk_step known h fd id c Hid Hpos), E1; done|].
    destruct (delivered_sends known rs1) as [D1 D2]. rewrite !sends_app, !freed_app, D1, D2, Hs, Hf. cbn. by rewrite app_nil_r, fmap_app, concat_app.
Qed.

(** The slave [id] waits for the id of the node behind socket [fd]; nothing was read yet. *)
Record shaking (id fd : Z) (l : list harbor_msg) (h : harbor) : Prop := Shaking {
  sh_fd : sl_fd (get_slave h id) = fd;
  sh_open : fd <> 0;
  sh_found : harbor_id h fd = id;
  sh_status : sl_status (get_slave h id) = STATUS_HANDSHAKE;
  sh_read : sl_read (get_slave h id) = 0;
  sh_size : zlen (sl_size (get_slave h id)) = 4;
  sh_queue : queued (sl_queue (get_slave h id)) l
}.

(** The right id opens the stream and flushes the queue. *)
Lemma handshake_opens h id fd l : shaking id fd l h ->
  let h0 := set_slave id (set_status STATUS_HEADER (get_slave h id)) h in
  exists h1, dispatch_queue h0 id = Ok (send_all fd l, h1) /\ keeps h h1 /\ reading_header [] (get_slave h1 id).
Proof.
  intros [Hf Ho Hfo Hs Hr Hz Hq] h0. assert (get_slave h0 id = set_status STATUS_HEADER (get_slave h id)) as E0 by (unfold h0; by rewrite get_set_eq).
  destruct (dispatch_queue_flush h0 id l) as (h1 & -> & Eb & _ & Ene & Eg); [rewrite E0; cbn; congruence|by rewrite E0|].
  rewrite E0 in *. cbn [sl_fd set_status]. rewrite Hf. exists h1. split; [done|]. split.
  - split; [done|]. intros i. destruct (decide (i = id)) as [->|Hi]; [by rewrite Eg|rewrite Ene by done; unfold h0; by rewrite get_set_ne by done].
  - rewrite Eg. by repeat split.
Qed.

Lemma data_loop_S known fuel h id buffer : data_loop (S fuel) known h id buffer =
  '(e, h, r) ← data_case known h id buffer;
  match r with
  | None => Ok (e, h)
  | Some rest => '(e', h) ← data_loop fuel known h id rest; Ok (e ++ e', h)
  end.
Proof. done. Qed.

(** In the first chunk the id is followed by messages. *)
Lemma handshake_feed known id fd l h c rest rs : shaking id fd l h -> Forall (request_to (hb_id h)) rs -> c ++ rest = frames rs ->
  exists rs1 rs2 p' h', rs = rs1 ++ rs2 /\ data_loop (S (S (length (id :: c)))) known h id (id :: c) = Ok (send_all fd l ++ concat (delivered known <$> rs1), h') /\
    keeps h h' /\ holds p' (get_slave h' id) /\ p' ++ rest = frames rs2.
Proof.
  intros Hsh Hrs E. destruct (handshake_opens h id fd l Hsh) as (h1 & Eq & Hk & Hh).
  set (fuel := if zlen c =? 0 then S (S (length c)) else S (S (S (length c)))).
  destruct (feed known id rest fuel rs h1 [] c) as (rs1 & rs2 & p' & h2 & -> & E1 & Hk2 & Hh2 & E2);
    [unfold fuel; destruct (zlen c =? 0); lia|by left|by rewrite (proj1 Hk)|done|].
  exists rs1, rs2, p', h2. split; [done|]. split; [|split; [by eapply keeps_trans|done]].
  change (S (S (length (id :: c)))) with (S (S (S (length c)))). rewrite data_loop_S. unfold data_case. rewrite (sh_status _ _ _ _ Hsh).
  change (STATUS_HANDSHAKE =? STATUS_HANDSHAKE) with true. cbn iota. unfold handshake_case.
  change (zget (id :: c) 0) with (Ok id : result Z). rstep. rewrite Z.eqb_refl. cbn [negb]. rewrite Eq. rstep. change (drop 1 (id :: c)) with c.
  unfold fuel in E1. destruct (Z.eqb_spec (zlen c) 0) as [E0|E0]; [rstep; by rewrite E1|].
  rewrite data_loop_S, (data_case_header known h1 id []) in E1 by done. destruct (header_case known h1 id c) as [[[e3 h3] r3]| |]; rstep; try done.
  cbn [mbind result_bind] in E1. destruct r3 as [r3|]; [|by inv_res].
  destruct (data_loop (S (S (length c))) known h3 id r3) as [[e4 h4]| |]; try done. cbn [mbind result_bind] in *. inv_res. by rewrite <- app_assoc, H0.
Qed.

(** A node without a connection to [id]. *)
Record offline (id : Z) (l : list harbor_msg) (h : harbor) : Prop := Offline {
  of_waiting : waiting id l h;
  of_read : sl_read (get_slave h id) = 0;
  of_size : zlen (sl_size (get_slave h id)) = 4
}.

(** [S fd id] connects to the node [id] with a fresh socket. *)
Lemma connect_link h fd id source l : offline id l h -> 0 < fd <= INT_MAX -> 0 < id < REMOTE_MAX -> (forall i, sl_fd (get_slave h i) <> fd) ->
  exists h', harbor_command h (link_command 83 fd id) source = Ok ([SocketStart fd; SocketSend fd [u8 (hb_id h)]], h') /\ shaking id fd l h' /\ hb_id h' = hb_id h.
Proof.
  intros [[Hi Hf Hs Hq] Hr Hz] Hfd Hid Hfresh. rewrite link_command_eq by auto. cbn zeta. change (83 =? 83) with true. cbn iota.
  unfold handshake. rewrite !get_set_eq. eexists. split; [done|]. split; [|done].
  constructor; rewrite ?get_set_eq; try done; [lia|]. apply find_slave_unique.
  - by rewrite get_set_eq.
  - intros i Hne. rewrite !get_set_ne by done. apply Hfresh.
  - unfold REMOTE_MAX in *. lia.
Qed.

Lemma link_receives known id fd l h cs rs : shaking id fd l h -> 0 < id -> Forall (request_to (hb_id h)) rs ->
  Forall (fun c => snd c <> []) cs -> concat (snd <$> cs) = id :: frames rs ->
  exists es h', run known (chunk fd <$> cs) h = Ok (es, h') /\ sends es = concat (delivered known <$> rs) /\ freed es = (hm_buffer <$> l) ++ (fst <$> cs).
Proof.
  intros Hsh Hpos Hrs Hne E. destruct cs as [|[a c] cs]; [done|]. inversion_clear Hne as [|? ? Hc Hcs]. cbn [snd] in Hc.
  destruct c as [|x c]; [done|]. cbn in E. injection E as -> E.
  destruct (handshake_feed known id fd l h c _ rs Hsh Hrs E) as (rs1 & rs2 & p' & h1 & -> & E1 & Hk & Hh1 & E2).
  apply Forall_app in Hrs as [_ Hrs2]. pose proof (sh_found _ _ _ _ Hsh) as Hid.
  destruct (chunks_deliver known id fd cs h1 p' rs2) as (es & h2 & E3 & Hs & Hf); [by rewrite (keeps_harbor_id _ _ _ Hk)|done|done|by rewrite (proj1 Hk)|done|].
  eexists _, h2. split; [cbn [fmap list_fmap]; eapply run_cons; [|exact E3]; rewrite (chunk_step known h fd id _ Hid Hpos); cbn [fst snd]; rewrite E1; done|].
  destruct (delivered_sends known rs1) as [D1 D2]. destruct (send_all_effects fd l) as [S1 S2].
  rewrite !sends_app, !freed_app, D1, D2, S1, S2, Hs, Hf. cbn. by rewrite !app_nil_r, <- app_assoc, fmap_app, concat_app.
Qed.


Definition node1 : harbor := Harbor 1 9 ∅ ∅.
Definition node2 : harbor := Harbor 2 9 ∅ ∅.
Definition hello : request := Request 0 5 0x01000007 0x02000008 77 (of_string "hello").

Lemma offline_new id ida slave : ida <> id -> offline id [] (Harbor ida slave ∅ ∅).
Proof. intros. by repeat constructor. Qed.


(** ** Names *)

(** The 16 bytes of a name: a C string padded with zeros. *)
Definition padded (name : list Z) : Prop :=
  exists s, name = s ++ replicate (Z.to_nat (GLOBALNAME_LENGTH - zlen s)) 0 /\ Forall (fun c => c <> 0) s /\ zlen s < GLOBALNAME_LENGTH.

Definition table_ok (map : gmap Z (list keyvalue)) : Prop :=
  forall i l, map !! i = Some l -> Forall (fun kv => padded (kv_key kv) /\ kv_hash kv = name_hash (kv_key kv)) l.

Lemma strneq_refl n : forall s, (n <= length s)%nat -> strneq n s s = true.
Proof.
  induction n as [|n IH]; intros s Hs; cbn; [done|]. destruct s as [|c s]; [cbn in Hs; lia|]. rewrite Z.eqb_refl. cbn.
  destruct (c =? 0); [done|]. apply IH. cbn in Hs. lia.
Qed.

Lemma strneq_strings s : Forall (fun c => c <> 0) s -> forall t n i j, Forall (fun c => c <> 0) t -> (length s < n)%nat -> (length t < n)%nat ->
  strneq n (s ++ replicate i 0) (t ++ replicate j 0) = true -> s = t.
Proof.
  induction 1 as [|c s Hc Hs IH]; intros [|d t] n i j Ht Hn Hm H; (destruct n as [|n]; [lia|]); cbn [app strneq length] in *; try done.
  - inversion_clear Ht. destruct i as [|i]; cbn [replicate strneq] in H; [discriminate H|]. destruct (Z.eqb_spec 0 d); [congruence|discriminate H].
  - destruct j as [|j]; cbn [replicate strneq] in H; [discriminate H|]. destruct (Z.eqb_spec c 0); [congruence|discriminate H].
  - inversion_clear Ht. destruct (Z.eqb_spec c d) as [->|]; [|discriminate H]. destruct (Z.eqb_spec d 0); [done|]. cbn [andb orb] in H.
    f_equal. apply (IH t n i j); first [done|lia].
Qed.

Lemma padded_length name : padded name -> length name = Z.to_nat GLOBALNAME_LENGTH.
Proof. intros (s & -> & _ & Hs). rewrite length_app, length_replicate. unfold zlen, GLOBALNAME_LENGTH in *. lia. Qed.

Lemma same_node_eq name kv : padded name -> padded (kv_key kv) -> kv_hash kv = name_hash (kv_key kv) -> same_node name kv = true <-> kv_key kv = name.
Proof.
  intros Hn Hk Hh. unfold same_node. rewrite andb_true_iff, Z.eqb_eq. split.
  - intros [_ H]. destruct Hn as (s & -> & Hs & Ls), Hk as (t & Et & Ht & Lt). rewrite Et in H |- *.
    unfold zlen, GLOBALNAME_LENGTH in *. apply strneq_strings in H as ->; [done|done|done|lia|lia].
  - intros E. rewrite Hh, E. split; [done|]. apply strneq_refl. by rewrite padded_length.
Qed.

Lemma search_store name kv l : padded name -> kv_key kv = name -> kv_hash kv = name_hash name ->
  Forall (fun kv => padded (kv_key kv) /\ kv_hash kv = name_hash (kv_key kv)) l -> is_Some (search_list name l) ->
  search_list name (store_list name kv l) = Some kv /\ (forall n', padded n' -> n' <> name -> search_list n' (store_list name kv l) = search_list n' l) /\
  Forall (fun kv => padded (kv_key kv) /\ kv_hash kv = name_hash (kv_key kv)) (store_list name kv l).
Proof.
  intros Hn Hk Hh Hl. assert (same_node name kv = true) as Hsame by (apply same_node_eq; [done|by rewrite Hk|by rewrite Hk|done]).
  assert (forall n' kv', padded n' -> n' <> name -> padded (kv_key kv') -> kv_hash kv' = name_hash (kv_key kv') -> same_node name kv' = true -> same_node n' kv' = false) as Hother.
  { intros n' kv' Hn' Hne Hk' Hh' H. apply (same_node_eq name kv') in H; [|done..]. apply not_true_is_false. intros H'.
    apply (same_node_eq n' kv') in H'; [congruence|done..]. }
  induction Hl as [|kv' l [Hk' Hh'] Hl IH]; cbn; [intros [? [=]]|]. destruct (same_node name kv') eqn:E; intros Hs.
  - cbn. rewrite Hsame. split; [done|]. split; [|constructor; [rewrite Hk; done|done]].
    intros n' Hn' Hne. rewrite (Hother n' kv), (Hother n' kv') by (rewrite ?Hk; done). done.
  - destruct (IH Hs) as (I1 & I2 & I3). cbn. rewrite E. split; [done|]. split; [|by constructor].
    intros n' Hn' Hne. destruct (same_node n' kv'); [done|]. by apply I2.
Qed.

(** Storing through the pointer a search returned updates the map at that name only. *)
Lemma hash_update map name kv : table_ok map -> padded name -> kv_key kv = name -> kv_hash kv = name_hash name ->
  let map' := hash_store name kv (hash_node map name).2 in
  table_ok map' /\ hash_search map' name = Some kv /\ forall n', padded n' -> n' <> name -> hash_search map' n' = hash_search map n'.
Proof.
  intros Hok Hn Hk Hh. cbn zeta. set (i := name_hash name mod HASH_SIZE).
  assert (table_ok (hash_node map name).2 /\ is_Some (search_list name (bucket (hash_node map name).2 name)) /\
    forall n', padded n' -> n' <> name -> hash_search (hash_node map name).2 n' = hash_search map n') as (Hok1 & Hs & Ho).
  { unfold hash_node. destruct (hash_search map name) as [kv0|] eqn:E; cbn [snd]; [by split; [|split; [unfold hash_search in E; rewrite E|]]|].
    unfold hash_insert. set (node := KeyValue name (name_hash name) 0 None). cbn [snd]. fold i.
    assert (same_node name node = true) as Hsame by (by apply same_node_eq). split; [|split].
    - intros j l. destruct (decide (j = i)) as [->|Hj]; [rewrite lookup_insert_eq; intros [= <-]|rewrite lookup_insert_ne by done; apply Hok].
      constructor; [by split|]. unfold bucket. fold i. destruct (map !! i) as [l|] eqn:El; cbn; [by eapply Hok|constructor].
    - unfold bucket at 1. fold i. rewrite lookup_insert_eq. cbn. rewrite Hsame. by eexists.
    - intros n' Hn' Hne. unfold hash_search, bucket. fold i. destruct (decide (i = name_hash n' mod HASH_SIZE)) as [<-|Hj]; [|by rewrite lookup_insert_ne].
      rewrite lookup_insert_eq. cbn. destruct (same_node n' node) eqn:E'; [|done]. by apply same_node_eq in E'; [|done..]. }
  assert (Forall (fun kv => padded (kv_key kv) /\ kv_hash kv = name_hash (kv_key kv)) (bucket (hash_node map name).2 name)) as Hb.
  { unfold bucket. destruct (_ !! _) as [l|] eqn:El; cbn; [by eapply Hok1|constructor]. }
  destruct (search_store name kv _ Hn Hk Hh Hb Hs) as (S1 & S2 & S3). unfold hash_store. fold i. split; [|split].
  - intros j l. destruct (decide (j = i)) as [->|Hj]; [rewrite lookup_insert_eq; by intros [= <-]|rewrite lookup_insert_ne by done; apply Hok1].
  - unfold hash_search, bucket at 1. fold i. by rewrite lookup_insert_eq.
  - intros n' Hn' Hne. rewrite <- Ho by done. unfold hash_search at 1, bucket at 1. destruct (decide (i = name_hash n' mod HASH_SIZE)) as [Hi|Hj].
    + rewrite <- Hi, lookup_insert_eq. cbn. rewrite S2 by done. unfold hash_search, bucket. fold i. by rewrite <- Hi.
    + by rewrite lookup_insert_ne.
Qed.

(** What the table knows of a name. *)
Definition lookup_name (map : gmap Z (list keyvalue)) (name : list Z) : keyvalue := default (KeyValue name (name_hash name) 0 None) (hash_search map name).

Lemma search_list_spec name l kv : Forall (fun kv => padded (kv_key kv) /\ kv_hash kv = name_hash (kv_key kv)) l -> padded name ->
  search_list name l = Some kv -> kv_key kv = name /\ kv_hash kv = name_hash name.
Proof.
  intros Hl Hn. induction Hl as [|kv' l [Hk Hh] Hl IH]; cbn; [done|]. destruct (same_node name kv') eqn:E; [|done].
  intros [= <-]. apply same_node_eq in E; [|done..]. by rewrite <- E.
Qed.

Lemma hash_node_eq map name : table_ok map -> padded name ->
  (hash_node map name).1 = lookup_name map name /\ kv_key (lookup_name map name) = name /\ kv_hash (lookup_name map name) = name_hash name.
Proof.
  intros Hok Hn. unfold hash_node, lookup_name. destruct (hash_search map name) as [kv|] eqn:E; cbn; [|done]. split; [done|].
  unfold hash_search, bucket in E. destruct (_ !! _) as [l|] eqn:El; cbn in E; [|done]. by eapply search_list_spec; [eapply Hok|..].
Qed.

(** A request that names its destination instead. *)
Definition named_of (name : list Z) (r : request) : message :=
  RemoteMsg (r_type r) (r_session r) (r_source r) (RemoteMessage 0 name (r_address r) (r_data r)).

Definition named_msg (r : request) : harbor_msg :=
  HarborMsg (RemoteHeader (r_source r) (u32 (Z.shiftl (r_type r) HANDLE_REMOTE_SHIFT)) (u32 (r_session r))) (r_address r) (r_data r).

Definition query (slave : Z) (name : list Z) : effect := Send 0 slave PTYPE_TEXT 0 None (of_string "Q " ++ cstr name).

(** Nothing but the entry of [name] differs. *)
Record same_but (name : list Z) (h h' : harbor) : Prop := SameBut {
  sb_id : hb_id h' = hb_id h;
  sb_slave : hb_slave h' = hb_slave h;
  sb_s : hb_s h' = hb_s h;
  sb_names : forall n', padded n' -> n' <> name -> hash_search (hb_map h') n' = hash_search (hb_map h) n'
}.

Lemma same_but_trans name h1 h2 h3 : same_but name h1 h2 -> same_but name h2 h3 -> same_but name h1 h3.
Proof. intros [A1 A2 A3 A4] [B1 B2 B3 B4]. constructor; [congruence..|]. intros n' Hn Hne. by rewrite B4, A4. Qed.

Lemma same_but_refl name h : same_but name h h.
Proof. by constructor. Qed.

Lemma same_but_up name h h' id fd : same_but name h h' -> up id fd h -> up id fd h'.
Proof. intros [S1 _ S3 _] [U1 U2 U3 U4]. unfold get_slave in *. constructor; unfold get_slave; rewrite ?S1, ?S3; done. Qed.

(** [name] has no handle yet and the messages [l] wait for it. *)
Record pending (name : list Z) (l : list harbor_msg) (h : harbor) : Prop := Pending {
  pd_table : table_ok (hb_map h);
  pd_value : kv_value (lookup_name (hb_map h) name) = 0;
  pd_queue : queued (kv_queue (lookup_name (hb_map h) name)) l
}.

(** Writing the entry of [name] in place. *)
Lemma name_stored h name kv : table_ok (hb_map h) -> padded name -> kv_key kv = name -> kv_hash kv = name_hash name ->
  let h' := set_map (hash_store name kv (hash_node (hb_map h) name).2) h in
  same_but name h h' /\ table_ok (hb_map h') /\ hash_search (hb_map h') name = Some kv /\ lookup_name (hb_map h') name = kv.
Proof.
  intros Hok Hn Hk Hh. destruct (hash_update _ name kv Hok Hn Hk Hh) as (H1 & H2 & H3). cbn [set_map hb_map].
  split; [by constructor|]. split; [done|]. split; [done|]. unfold lookup_name. by rewrite H2.
Qed.

Lemma named_waits known name r l h : pending name l h -> padded name -> zlen l < 2 ^ 30 - 1 ->
  exists h', mainloop known (named_of name r) h = Ok ([query (hb_slave h) name], h') /\ pending name (l ++ [named_msg r]) h' /\ same_but name h h'.
Proof.
  intros [Hok Hv Hq] Hn Hl. destruct (hash_node_eq _ name Hok Hn) as (E1 & Ek & Eh).
  unfold mainloop, named_of, remote_out, remote_send_name. cbn [rm_handle rm_name rm_address rm_data Z.eqb].
  pose proof (name_stored h name) as Hst. destruct (hash_node (hb_map h) name) as [node map] eqn:En. cbn [fst snd] in *. subst node.
  rewrite Hv. cbn [Z.eqb]. destruct (push_queue_msg_ring _ _ (named_msg r) (queued_default _ _ Hq) Hl) as (q & Eq & Hring).
  unfold push_queue. fold (named_msg r). rewrite Eq. cbn [mbind result_bind].
  destruct (Hst (set_kqueue (Some q) (lookup_name (hb_map h) name)) Hok Hn Ek Eh) as (S1 & S2 & S3 & S4).
  eexists. split; [done|]. split; [|done]. constructor; [done|by rewrite S4|by rewrite S4].
Qed.

Lemma names_wait known name rs : forall l h, pending name l h -> padded name -> zlen l + zlen rs < 2 ^ 30 ->
  exists h', run known (named_of name <$> rs) h = Ok ((fun _ => query (hb_slave h) name) <$> rs, h') /\ pending name (l ++ (named_msg <$> rs)) h' /\ same_but name h h'.
Proof.
  induction rs as [|r rs IH]; intros l h Hp Hn Hl; cbn [run fmap list_fmap].
  { exists h. rewrite app_nil_r. split; [done|]. split; [done|apply same_but_refl]. }
  assert (zlen (r :: rs) = zlen rs + 1) as E by (unfold zlen; cbn; lia). pose proof (zlen_nonneg rs).
  destruct (named_waits known name r l h Hp Hn) as (h1 & E1 & Hp1 & Hb1); [lia|].
  destruct (IH _ _ Hp1 Hn) as (h2 & E2 & Hp2 & Hb2). { rewrite zlen_app. change (zlen [_]) with 1. lia. }
  exists h2. rewrite E1. cbn [mbind result_bind]. rewrite E2. rewrite (sb_slave _ _ _ Hb1). split; [done|].
  split; [by rewrite <- app_assoc in Hp2|by eapply same_but_trans].
Qed.

Lemma with_handle_named handle rs : Forall (fun r => r_destination r = handle) rs -> with_handle handle <$> (named_msg <$> rs) = waiting_msg <$> rs.
Proof. induction 1 as [|r rs <- Hrs IH]; [done|]. cbn. by rewrite IH. Qed.

(** [name] is the handle [handle]. *)
Definition resolved (name : list Z) (handle : Z) (h : harbor) : Prop :=
  table_ok (hb_map h) /\ exists kv, hash_search (hb_map h) name = Some kv /\ kv_value kv = handle /\ kv_queue kv = None.

Lemma name_found name handle rs id fd h : pending name (named_msg <$> rs) h -> padded name -> up id fd h -> harbor_of handle = id ->
  Forall (request_to id) rs -> Forall (fun r => r_destination r = handle) rs ->
  exists h', update_name h name handle = Ok (sent fd rs, h') /\ resolved name handle h' /\ same_but name h h'.
Proof.
  intros [Hok Hv Hq] Hn Hup Hid Hrs Hd. destruct (hash_node_eq _ name Hok Hn) as (E1 & Ek & Eh).
  unfold update_name. pose proof (name_stored h name) as Hst. destruct (hash_node (hb_map h) name) as [node map] eqn:En. cbn [fst snd] in *. subst node.
  set (kv := lookup_name (hb_map h) name) in *. destruct (Hst (set_value handle kv) Hok Hn Ek Eh) as (S1 & S2 & S3 & S4).
  set (h1 := set_map _ h) in *. cbn [set_value kv_queue]. destruct (kv_queue kv) as [q|] eqn:Eq; cbn [queued] in Hq.
  2:{ apply fmap_nil_inv in Hq as ->. exists h1. split; [done|]. split; [|done]. split; [done|]. by eexists. }
  unfold dispatch_name_queue. cbn [set_value kv_queue kv_value]. rewrite Eq. cbn [deref]. rstep.
  destruct (same_but_up _ _ _ _ _ S1 Hup) as [U1 U2 U3 U4]. rewrite Hid, U2. destruct (Z.eqb_spec fd 0); [done|].
  destruct (drain_ring q _ Hq) as (q1 & -> & Hq1). rstep. cbn [kv_queue set_kqueue set_value release_queue].
  destruct (drain_ring q1 _ Hq1) as (q2 & -> & _). rstep. cbn [free_all fmap list_fmap]. rewrite app_nil_r, with_handle_named, (send_all_sent _ id) by done.
  pose proof (name_stored h1 name (set_kqueue None (set_kqueue (Some q1) (set_value handle kv))) S2 Hn Ek Eh) as (T1 & T2 & T3 & T4).
  assert ((hash_node (hb_map h1) name).2 = hb_map h1) as En1 by (unfold hash_node; by rewrite S3). rewrite En1 in *.
  eexists. split; [done|]. split; [|by eapply same_but_trans]. split; [done|]. by eexists.
Qed.

(** A name that is resolved stands for its handle. *)
Lemma named_direct known name handle r h : resolved name handle h -> r_destination r = handle -> handle <> 0 ->
  mainloop known (named_of name r) h = mainloop known (message_of r) h.
Proof.
  intros (Hok & kv & Ekv & Hv & _) Hd H0. unfold mainloop, named_of, message_of, remote_out, remote_send_name, hash_node.
  cbn [rm_handle rm_name rm_address rm_data]. change (0 =? 0) with true. cbn iota. rewrite Ekv, Hv, Hd. destruct (Z.eqb_spec handle 0); [done|].
  assert (set_map (hb_map h) h = h) as -> by by destruct h. done.
Qed.

Lemma named_sent known name handle id fd rs h : resolved name handle h -> up id fd h -> handle <> 0 -> Forall (request_to id) rs ->
  Forall (fun r => r_destination r = handle) rs -> 0 < id -> run known (named_of name <$> rs) h = Ok (sent fd rs, h).
Proof.
  intros Hres Hup H0 Hrs Hd Hid. induction Hd as [|r rs Hr Hd IH]; [done|]. inversion_clear Hrs as [|? ? Hreq Hrs'].
  change (sent fd (r :: rs)) with (sent fd [r] ++ sent fd rs). apply run_cons with h; [|by apply IH].
  rewrite (named_direct known name handle) by done. pose proof (requests_sent known id fd [r] h Hup) as E. cbn [run fmap list_fmap] in E.
  destruct (mainloop known (message_of r) h) as [[e h']| |]; cbn [mbind result_bind] in E; specialize (E ltac:(by constructor) Hid); inv_res; try done. rewrite app_nil_r in *. by subst e.
Qed.

(** [N name] *)
Definition name_command (s : list Z) : list Z := 78 :: 32 :: s.
Definition pad_name (s : list Z) : list Z := s ++ replicate (Z.to_nat (GLOBALNAME_LENGTH - zlen s)) 0.

Lemma name_command_eq s h handle : 0 < zlen s < GLOBALNAME_LENGTH -> harbor_command h (name_command s) handle = update_name h (pad_name s) handle.
Proof.
  intros Hs. unfold harbor_command, name_command. change (zget (78 :: 32 :: s) 0) with (Ok 78 : result Z). change (drop 2 (78 :: 32 :: s)) with s.
  rstep. assert (zlen (78 :: 32 :: s) - 2 = zlen s) as -> by (unfold zlen; cbn [length]; lia). cbn [Z.eqb Pos.eqb].
  destruct (Z.leb_spec (zlen s) 0), (Z.leb_spec GLOBALNAME_LENGTH (zlen s)); try lia. done.
Qed.



(** ** A flaw *)

(** A message that waits for a name whose node is not connected when the name
    is announced moves to the queue of the node without the handle: it is
    delivered to handle 0 of that node. *)
Example name_before_link_loses_handle :
  exists e h', run (fun _ => true) [named_of (pad_name (of_string "db")) hello; HarborMessage (of_string "N db") 0x02000008; HarborMessage (of_string "A 5 2") 9] node1 = Ok (e, h') /\
    written 5 e = 1 :: framed (of_string "hello" ++ header_to_message (RemoteHeader 0x01000007 0 5)).
Proof. eexists _, _. split; vm_compute; reflexivity. Qed.
