(* ===== verification/LuaSocket.v ===== *)
(** * Receive buffers of a Lua service (lualib-src/lua-socket.c)

    The data of a connection as the socket library of a service keeps them: a
    list of the blocks received, linked by nodes from a pool all connections of
    the service share, and a position in the first block. Nodes are addresses
    in a store; a block is its address and its bytes. Arguments are taken to
    have the Lua types the functions ask for. *)
From S2P Require Import Prelude CString.

(** ** Data *)

Definition LARGE_PAGE_NODE : Z := 12.

Record buffer_node : Set := BufferNode {
  bn_msg : option (Z * list Z);
  bn_sz : Z;
  bn_next : option nat
}.

Record socket_buffer : Set := SocketBuffer {
  sb_size : Z;
  sb_offset : Z;
  sb_head : option nat;
  sb_tail : option nat
}.

(** The nodes of all chunks, the first address not in use, and the Lua table of
    the pool: its first entry, the free list, and its length. *)
Record pool : Set := Pool {
  pl_nodes : gmap nat buffer_node;
  pl_top : nat;
  pl_free : option nat;
  pl_len : Z
}.

Definition set_nodes (nodes : gmap nat buffer_node) (p : pool) : pool := Pool nodes (pl_top p) (pl_free p) (pl_len p).
Definition set_free (f : option nat) (p : pool) : pool := Pool (pl_nodes p) (pl_top p) f (pl_len p).
Definition set_next (n : option nat) (b : buffer_node) : buffer_node := BufferNode (bn_msg b) (bn_sz b) n.

(** The pool of a new service, and [lnewbuffer]. *)
Definition new_pool : pool := Pool ∅ 0 None 0.
Definition lnewbuffer : socket_buffer := SocketBuffer 0 0 None None.

(** ** The pool *)

(** The [sz] nodes of a chunk at address [a], each linked to the next. *)
Fixpoint chunk_nodes (sz : nat) (a : nat) (nodes : gmap nat buffer_node) : gmap nat buffer_node :=
  match sz with
  | O => nodes
  | S sz => <[a := BufferNode None 0 (match sz with O => None | _ => Some (S a) end)]> (chunk_nodes sz (S a) nodes)
  end.

Definition lnewpool (sz : nat) (p : pool) : nat * pool :=
  (pl_top p, Pool (chunk_nodes sz (pl_top p) (pl_nodes p)) (pl_top p + sz) (pl_free p) (pl_len p)).

(** [__gc] of the chunk of [sz] nodes at address [a]: the blocks freed. *)
Fixpoint lfreepool (sz : nat) (a : nat) (p : pool) : result (list Z * pool) :=
  match sz with
  | O => Ok ([], p)
  | S sz =>
      n ← deref (pl_nodes p !! a);
      match bn_msg n with
      | Some (m, _) =>
          '(f, p) ← lfreepool sz (S a) (set_nodes (<[a := BufferNode None (bn_sz n) (bn_next n)]> (pl_nodes p)) p);
          Ok (m :: f, p)
      | None => lfreepool sz (S a) p
      end
  end.

(** ** Pushing *)

(** The free node to use; a new chunk when there is none. *)
Definition take_free (p : pool) : nat * pool :=
  match pl_free p with
  | Some a => (a, p)
  | None =>
      let tsz := if pl_len p =? 0 then 1 else pl_len p in
      let size := if tsz <=? LARGE_PAGE_NODE - 3 then Z.shiftl 8 tsz else Z.shiftl 8 (LARGE_PAGE_NODE - 3) in
      let '(a, p) := lnewpool (Z.to_nat size) p in
      (a, Pool (pl_nodes p) (pl_top p) (pl_free p) (tsz + 1))
  end.

(** The [sz] bytes [data] in the block at [msg]; the value is the new size. The
    argument, an integer of Lua, is narrowed to an [int]. *)
Definition lpushbuffer (sb : socket_buffer) (p : pool) (msg : Z) (data : list Z) (sz : Z) : result (Z * socket_buffer * pool) :=
  let sz := s32 sz in
  let '(free_node, p) := take_free p in
  n ← deref (pl_nodes p !! free_node);
  let p := set_nodes (<[free_node := BufferNode (Some (msg, data)) sz None]> (set_free (bn_next n) p).(pl_nodes)) (set_free (bn_next n) p) in
  '(sb, p) ←
    match sb_head sb with
    | None =>
        _ ← assert_ (bool_decide (sb_tail sb = None));
        Ok (SocketBuffer (sb_size sb) (sb_offset sb) (Some free_node) (Some free_node), p)
    | Some h =>
        t ← deref (sb_tail sb);
        tn ← deref (pl_nodes p !! t);
        Ok (SocketBuffer (sb_size sb) (sb_offset sb) (Some h) (Some free_node),
            set_nodes (<[t := set_next (Some free_node) tn]> (pl_nodes p)) p)
    end;
  _ ← assert_ (sb_size sb + sz <=? INT_MAX);
  Ok (sb_size sb + sz, SocketBuffer (sb_size sb + sz) (sb_offset sb) (sb_head sb) (sb_tail sb), p).

(** ** Popping *)

(** The block freed, the buffer and the pool. *)
Definition return_free_node (sb : socket_buffer) (p : pool) : result (Z * socket_buffer * pool) :=
  free_node ← deref (sb_head sb);
  n ← deref (pl_nodes p !! free_node);
  let head := bn_next n in
  let sb := SocketBuffer (sb_size sb) 0 head (match head with None => None | _ => sb_tail sb end) in
  m ← deref (bn_msg n);
  Ok (fst m, sb, Pool (<[free_node := BufferNode None 0 (pl_free p)]> (pl_nodes p)) (pl_top p) (Some free_node) (pl_len p)).

(** The [n] bytes at offset [i] of the block of a node. *)
Definition node_bytes (b : buffer_node) (i n : Z) : result (list Z) := m ← deref (bn_msg b); slice (snd m) i n.

Definition at_offset (o : Z) (sb : socket_buffer) : socket_buffer := SocketBuffer (sb_size sb) o (sb_head sb) (sb_tail sb).

(** The loop [for (;;)] of [pop_lstring]. Results of a pop: the string, the blocks freed. *)
Fixpoint pop_loop (fuel : nat) (sb : socket_buffer) (p : pool) (sz skip : Z) : result (list Z * list Z * socket_buffer * pool) :=
  match fuel with
  | O => Fault
  | S fuel =>
      current ← deref (sb_head sb);
      n ← deref (pl_nodes p !! current);
      let bytes := bn_sz n - sb_offset sb in
      if sz <=? bytes then
        s ← (if skip <? sz then node_bytes n (sb_offset sb) (sz - skip) else Ok []);
        let sb := at_offset (sb_offset sb + sz) sb in
        if bytes =? sz then '(f, sb, p) ← return_free_node sb p; Ok (s, [f], sb, p)
        else Ok (s, [], sb, p)
      else
        let real_sz := sz - skip in
        s ← (if 0 <? real_sz then node_bytes n (sb_offset sb) (if real_sz <? bytes then real_sz else bytes) else Ok []);
        '(f, sb, p) ← return_free_node sb p;
        if sz - bytes =? 0 then Ok (s, [f], sb, p)
        else '(s', f', sb, p) ← pop_loop fuel sb p (sz - bytes) skip; Ok (s ++ s', f :: f', sb, p)
  end.

(** A loop visits each node at most once. *)
Definition node_fuel (p : pool) : nat := S (size (pl_nodes p)).

Definition pop_lstring (sb : socket_buffer) (p : pool) (sz skip : Z) : result (list Z * list Z * socket_buffer * pool) :=
  current ← deref (sb_head sb);
  n ← deref (pl_nodes p !! current);
  if sz <? bn_sz n - sb_offset sb then
    s ← node_bytes n (sb_offset sb) (sz - skip);
    Ok (s, [], at_offset (sb_offset sb + sz) sb, p)
  else if sz =? bn_sz n - sb_offset sb then
    s ← node_bytes n (sb_offset sb) (sz - skip);
    '(f, sb, p) ← return_free_node sb p;
    Ok (s, [f], sb, p)
  else pop_loop (node_fuel p) sb p sz skip.

Definition add_size (d : Z) (sb : socket_buffer) : socket_buffer := SocketBuffer (sb_size sb + d) (sb_offset sb) (sb_head sb) (sb_tail sb).
Definition set_size (s : Z) (sb : socket_buffer) : socket_buffer := SocketBuffer s (sb_offset sb) (sb_head sb) (sb_tail sb).

(** [None] for [nil]; the second result is the size left. The size asked for, an
    integer of Lua, is narrowed to an [int]; when that is negative the bytes of a
    block are taken with a negative length, or the head of an empty buffer is
    read, both a [Fault]. *)
Definition lpopbuffer (sb : socket_buffer) (p : pool) (sz : Z) : result (option (list Z) * Z * list Z * socket_buffer * pool) :=
  let sz := s32 sz in
  if (sb_size sb <? sz) || (sz =? 0) then Ok (None, sb_size sb, [], sb, p)
  else
    '(s, f, sb, p) ← pop_lstring sb p sz 0;
    let sb := add_size (- sz) sb in
    Ok (Some s, sb_size sb, f, sb, p).

Fixpoint clear_loop (fuel : nat) (sb : socket_buffer) (p : pool) : result (list Z * socket_buffer * pool) :=
  match fuel with
  | O => Fault
  | S fuel =>
      match sb_head sb with
      | None => Ok ([], sb, p)
      | Some _ => '(f, sb, p) ← return_free_node sb p; '(f', sb, p) ← clear_loop fuel sb p; Ok (f :: f', sb, p)
      end
  end.

Definition lclearbuffer (sb : socket_buffer) (p : pool) : result (list Z * socket_buffer * pool) :=
  '(f, sb, p) ← clear_loop (node_fuel p) sb p; Ok (f, set_size 0 sb, p).

Fixpoint readall_loop (fuel : nat) (sb : socket_buffer) (p : pool) : result (list Z * list Z * socket_buffer * pool) :=
  match fuel with
  | O => Fault
  | S fuel =>
      match sb_head sb with
      | None => Ok ([], [], sb, p)
      | Some current =>
          n ← deref (pl_nodes p !! current);
          s ← node_bytes n (sb_offset sb) (bn_sz n - sb_offset sb);
          '(f, sb, p) ← return_free_node sb p;
          '(s', f', sb, p) ← readall_loop fuel sb p;
          Ok (s ++ s', f :: f', sb, p)
      end
  end.

Definition lreadall (sb : socket_buffer) (p : pool) : result (list Z * list Z * socket_buffer * pool) :=
  '(s, f, sb, p) ← readall_loop (node_fuel p) sb p; Ok (s, f, set_size 0 sb, p).

(** ** Lines *)

Fixpoint check_sep (fuel : nat) (p : pool) (node : option nat) (from : Z) (sep : list Z) : result bool :=
  match fuel with
  | O => Fault
  | S fuel =>
      a ← deref node;
      n ← deref (pl_nodes p !! a);
      let sz := bn_sz n - from in
      if zlen sep <=? sz then s ← node_bytes n from (zlen sep); Ok (bool_decide (s = sep))
      else
        same ← (if 0 <? sz then s ← node_bytes n from sz; sep' ← slice sep 0 sz; Ok (bool_decide (s = sep')) else Ok true);
        if negb same then Ok false
        else check_sep fuel p (bn_next n) 0 (drop (Z.to_nat sz) sep)
  end.

(** The loop of [lreadline] for the [k] values of [i] that are left: where the separator is. *)
Fixpoint sep_loop (k : nat) (p : pool) (current : nat) (from bytes i : Z) (sep : list Z) : result (option Z) :=
  match k with
  | O => Ok None
  | S k =>
      found ← check_sep (node_fuel p) p (Some current) from sep;
      if found : bool then Ok (Some i)
      else if bytes - 1 =? 0 then
        n ← deref (pl_nodes p !! current);
        match bn_next n with
        | None => Ok None
        | Some next => n' ← deref (pl_nodes p !! next); sep_loop k p next 0 (bn_sz n') (i + 1) sep
        end
      else sep_loop k p current (from + 1) (bytes - 1) (i + 1) sep
  end.

(** [check]: only look whether there is a line. [None]: no result, [Some None]:
    [true], [Some (Some s)]: the line. The length of the separator is cast to an
    [int]: one that does not fit is a [Fault] here. *)
Definition lreadline (sb : socket_buffer) (p : pool) (check : bool) (sep : list Z) :
    result (option (option (list Z)) * list Z * socket_buffer * pool) :=
  match sb_head sb with
  | None => Ok (None, [], sb, p)
  | Some current =>
      n ← deref (pl_nodes p !! current);
      _ ← assert_ (zlen sep <=? INT_MAX);
      let from := sb_offset sb in
      at_ ← sep_loop (Z.to_nat (sb_size sb - zlen sep + 1)) p current from (bn_sz n - from) 0 sep;
      match at_ with
      | None => Ok (None, [], sb, p)
      | Some i =>
          if check then Ok (Some None, [], sb, p)
          else
            '(s, f, sb, p) ← pop_lstring sb p (i + zlen sep) (zlen sep);
            Ok (Some (Some s), f, add_size (- (i + zlen sep)) sb, p)
      end
  end.

(** ** Other arguments *)

Definition lheader (s : list Z) : result Z :=
  if (4 <? zlen s) || (zlen s <? 1) then LuaError "Invalid read"
  else Ok (foldl (fun sz b => Z.lor (u64 (Z.shiftl sz 8)) b) 0 s).

(** [strchr(s, c)]: what follows [c], and how many bytes precede it. *)
Fixpoint strchr (s : list Z) (c : Z) : option (nat * list Z) :=
  match s with
  | [] => None
  | b :: s => if b =? c then Some (O, s) else match strchr s c with Some (n, r) => Some (S n, r) | None => None end
  end.

(** [strtoul10] stands for [strtoul(s, NULL, 10)] stored in an [int]. *)
Definition address_port (strtoul10 : list Z -> Z) (addr : list Z) (port : option Z) : result (list Z * Z) :=
  match port with
  | Some port => Ok (addr, port)
  | None =>
      match strchr addr 91 with
      | Some (i, _) =>
          let host := Z.of_nat i + 1 in
          match strchr addr 93 with
          | None => LuaError "Invalid address"
          | Some (j, rest) =>
              tmp ← slice addr host (Z.of_nat j - host);
              match strchr rest 58 with
              | None => LuaError "Invalid address"
              | Some (_, p) => Ok (tmp, strtoul10 p)
              end
          end
      | None =>
          match strchr addr 58 with
          | None => LuaError "Invalid address"
          | Some (i, p) => tmp ← slice addr 0 (Z.of_nat i); Ok (tmp, strtoul10 p)
          end
      end
  end.

(** The strings of a Lua array: [Some s] for a string (or a number), [None] for another value. *)
Fixpoint count_size (l : list (option (list Z))) : result Z :=
  match l with
  | [] => Ok 0
  | None :: _ => LuaError "bad argument"
  | Some s :: l => n ← count_size l; Ok (zlen s + n)
  end.

(** The bytes copied to [buffer] at offset [o], and [tlen] after the loop. *)
Fixpoint concat_loop (l : list (option (list Z))) (buffer : list Z) (o tlen : Z) : result (list Z * Z) :=
  match l with
  | [] => Ok (buffer, tlen)
  | None :: _ => Ok (buffer, tlen)
  | Some s :: l =>
      if tlen <? zlen s then Ok (buffer, tlen)
      else buffer ← blit buffer o s; concat_loop l buffer (o + zlen s) (tlen - zlen s)
  end.

Definition concat_table (l : list (option (list Z))) (buffer : list Z) (tlen : Z) : result (list Z) :=
  '(buffer, tlen) ← concat_loop l buffer 0 tlen;
  if negb (tlen =? 0) then LuaError "Invalid strings table" else Ok buffer.

(** What to send: a block with its size, a table of strings, a string. *)
Inductive sendable : Set :=
| Userdata (block : list Z) (sz : Z)
| Table (l : list (option (list Z)))
| Str (s : list Z).

Definition get_buffer (v : sendable) : result (list Z * Z) :=
  match v with
  | Userdata block sz => Ok (block, sz)
  | Table l => len ← count_size l; buffer ← concat_table l (replicate (Z.to_nat len) 0) len; Ok (buffer, s32 len)
  | Str s => Ok (s, s32 (zlen s))
  end.
