(* ===== verification/LuaSocketProps.v ===== *)
(** * The receive buffers are byte streams

    Each buffer of LuaSocket.v stands for the bytes received and not yet read;
    all buffers of a service share one pool of nodes, and a block is freed when
    its last byte was read. *)
From S2P Require Import Prelude CString LuaSocket.

(** ** Representation *)

Definition links (p : pool) (a : nat) : option (option nat) := bn_next <$> pl_nodes p !! a.

Definition free_node (p : pool) (a : nat) : Prop := exists n, pl_nodes p !! a = Some n /\ bn_msg n = None.

Definition holds (p : pool) (a : nat) (m : Z * list Z) : Prop := exists n, pl_nodes p !! a = Some n /\ bn_msg n = Some m /\ bn_sz n = zlen (snd m).

(** The free nodes of [p] are [F]; the buffer [sb] holds the blocks [ms] in the
    nodes [l]. *)
Record rep (p : pool) (sb : socket_buffer) (F l : list nat) (ms : list (Z * list Z)) : Prop := Rep {
  rp_free : chain (links p) (pl_free p) F;
  rp_free_nodes : Forall (free_node p) F;
  rp_top : forall a, (pl_top p <= a)%nat -> pl_nodes p !! a = None;
  rp_len : 0 <= pl_len p;
  rp_chain : chain (links p) (sb_head sb) l;
  rp_tail : sb_tail sb = last l;
  rp_nodes : Forall2 (holds p) l ms;
  rp_nonempty : Forall (fun m => snd m <> []) ms;
  rp_offset : 0 <= sb_offset sb;
  rp_inside : match ms with [] => sb_offset sb = 0 | m :: _ => sb_offset sb < zlen (snd m) end;
  rp_nodup : NoDup (F ++ l)
}.

(** What is left of the blocks from position [off] of the first. *)
Definition remaining (off : Z) (ms : list (Z * list Z)) : list (Z * list Z) :=
  match ms with [] => [] | (a, d) :: ms => (a, drop (Z.to_nat off) d) :: ms end.

Definition stream (c : list (Z * list Z)) : list Z := concat (snd <$> c).

(** Reading [n] bytes: the blocks read to the end, and what is left. *)
Fixpoint consume (n : Z) (c : list (Z * list Z)) : list Z * list (Z * list Z) :=
  match c with
  | [] => ([], [])
  | (a, d) :: c => if n <? zlen d then ([], (a, drop (Z.to_nat n) d) :: c) else let '(f, k) := consume (n - zlen d) c in (a :: f, k)
  end.

(** The position of the separator. *)
Fixpoint find_sep (sep s : list Z) : option nat :=
  match s with
  | [] => None
  | _ :: s' => if bool_decide (take (length sep) s = sep) then Some O else S <$> find_sep sep s'
  end.

Lemma node_links_insert_ne p a b n : a <> b -> links (set_nodes (<[a := n]> (pl_nodes p)) p) b = links p b.
Proof. intros. unfold links. cbn. by rewrite lookup_insert_ne. Qed.

Lemma rep_fuel p sb F l ms : rep p sb F l ms -> (length l < node_fuel p)%nat.
Proof.
  intros Hr. unfold node_fuel. destruct Hr. apply NoDup_app in rp_nodup0 as (_ & _ & Hnd).
  rewrite <- size_dom. rewrite <- (size_list_to_set (C := gset nat) l Hnd). apply Nat.lt_succ_r, subseteq_size.
  intros a Ha. apply elem_of_list_to_set in Ha. apply elem_of_dom. apply list_elem_of_lookup_1 in Ha as [i Hi].
  destruct (Forall2_lookup_l _ _ _ _ _ rp_nodes0 Hi) as (m & _ & n & Hn & _). by rewrite Hn.
Qed.

Lemma consume_0 c : Forall (fun m => snd m <> []) c -> consume 0 c = ([], c).
Proof.
  intros H. destruct c as [|[a d] c]; [done|]. inversion_clear H as [|? ? Hd _]. cbn in *. destruct d; [done|].
  destruct (Z.ltb_spec 0 (zlen (z :: d))) as [|H]; [done|]. unfold zlen in H. cbn in H. lia.
Qed.

Lemma zlen_nonempty {A} (l : list A) : l <> [] -> 0 < zlen l.
Proof. destruct l; [done|]. unfold zlen. cbn. lia. Qed.

Lemma zlen_drop {A} (l : list A) n : 0 <= n <= zlen l -> zlen (drop (Z.to_nat n) l) = zlen l - n.
Proof. unfold zlen. intros. rewrite length_drop. lia. Qed.

Lemma remaining_0 ms : remaining 0 ms = ms.
Proof. by destruct ms as [|[a d] ms]. Qed.

Lemma holds_ext p p' l ms : Forall2 (holds p) l ms -> (forall x, x ∈ l -> pl_nodes p' !! x = pl_nodes p !! x) -> Forall2 (holds p') l ms.
Proof.
  induction 1 as [|x m l ms (n & Hn & Hm) H IH]; intros E; [done|]. constructor; [exists n; rewrite E by left; done|].
  apply IH. intros y Hy. apply E. by right.
Qed.

(** ** Returning a node *)

Lemma return_node_rep p sb F a l m ms : rep p sb F (a :: l) (m :: ms) ->
  exists sb' p', return_free_node sb p = Ok (fst m, sb', p') /\ rep p' sb' (a :: F) l ms /\ sb_offset sb' = 0 /\ sb_size sb' = sb_size sb /\
    (forall x, x <> a -> pl_nodes p' !! x = pl_nodes p !! x).
Proof.
  intros [R1 R2 R3 R4 R5 R6 R7 R8 R9 R10 R11]. destruct R5 as [Eh (p' & Ep & Hc)]. apply Forall2_cons in R7 as [(n & Hn & Hm & Hz) R7].
  unfold links in Ep. rewrite Hn in Ep. injection Ep as <-. inversion_clear R8 as [|? ? _ R8'].
  apply NoDup_app in R11 as (HF & Hd & Hl). apply NoDup_cons in Hl as [Hal Hl]. assert (a ∉ F) as HaF by (intros Ha; apply (Hd a Ha); left).
  unfold return_free_node. rewrite Eh. cbn [deref]. rstep. rewrite Hn. cbn [deref]. rstep. rewrite Hm. cbn [deref]. rstep.
  eexists _, _. split; [done|].
  assert (forall x, x <> a -> <[a := BufferNode None 0 (pl_free p)]> (pl_nodes p) !! x = pl_nodes p !! x) as Hne by (intros; by rewrite lookup_insert_ne).
  split; [|by split]. constructor; cbn [pl_nodes pl_top pl_free pl_len sb_head sb_tail sb_offset].
  - split; [done|]. exists (pl_free p). unfold links at 1. cbn. rewrite lookup_insert_eq. split; [done|].
    eapply chain_ext; [|exact R1]. intros x Hx. unfold links. cbn. rewrite Hne; [done|]. by intros ->.
  - constructor; [eexists; cbn; by rewrite lookup_insert_eq|]. apply Forall_forall. intros x Hx. rewrite Forall_forall in R2.
    destruct (R2 x Hx) as (n' & Hn' & Hm'). exists n'. cbn. rewrite Hne; [done|]. by intros ->.
  - intros x Hx. rewrite Hne; [by apply R3|]. intros ->. by rewrite R3 in Hn.
  - done.
  - eapply chain_ext; [|exact Hc]. intros x Hx. unfold links. cbn. rewrite Hne; [done|]. by intros ->.
  - destruct l as [|b l]; cbn in Hc; [by rewrite Hc|]. destruct Hc as [-> _]. rewrite R6. done.
  - eapply holds_ext; [exact R7|]. intros x Hx. apply Hne. by intros ->.
  - done.
  - done.
  - destruct ms as [|m' ms]; [done|]. inversion_clear R8'. by apply zlen_nonempty.
  - cbn. constructor.
    + intros [Ha|Ha]%elem_of_app; done.
    + apply NoDup_app. split; [done|]. split; [|done]. intros x Hx Hx'. apply (Hd x Hx). by right.
Qed.

(** ** Popping *)

(** The nodes of the buffer and the pool stay theirs. *)
Definition keeps (p p' : pool) (F l F' l' : list nat) : Prop :=
  F' ++ l' ≡ₚ F ++ l /\ forall x, x ∉ F ++ l -> pl_nodes p' !! x = pl_nodes p !! x.

Lemma keeps_refl p F l : keeps p p F l F l.
Proof. done. Qed.

Lemma pool_keeps_trans p1 p2 p3 F1 l1 F2 l2 F3 l3 : keeps p1 p2 F1 l1 F2 l2 -> keeps p2 p3 F2 l2 F3 l3 -> keeps p1 p3 F1 l1 F3 l3.
Proof. intros [A1 A2] [B1 B2]. split; [by rewrite B1|]. intros x Hx. rewrite B2; [by apply A2|]. by rewrite A1. Qed.

Lemma keeps_return p p' F a l : (forall x, x <> a -> pl_nodes p' !! x = pl_nodes p !! x) -> keeps p p' F (a :: l) (a :: F) l.
Proof. intros H. split; [cbn; by rewrite Permutation_middle|]. intros x Hx. apply H. intros ->. apply Hx. apply elem_of_app. right. left. Qed.

Lemma node_bytes_ok p a m n i k : pl_nodes p !! a = Some n -> bn_msg n = Some m -> 0 <= i -> 0 <= k -> i + k <= zlen (snd m) ->
  node_bytes n i k = Ok (take (Z.to_nat k) (drop (Z.to_nat i) (snd m))).
Proof. intros _ Hm Hi Hk Hl. unfold node_bytes. rewrite Hm. cbn [deref]. rstep. by apply slice_Ok. Qed.

(** What a pop of [sz] bytes that yields [s] leaves. *)
Definition popped (p : pool) (sb : socket_buffer) (F l : list nat) (ms : list (Z * list Z)) (sz skip : Z)
    (r : result (list Z * list Z * socket_buffer * pool)) : Prop :=
  let c := remaining (sb_offset sb) ms in
  exists sb' p' F' l' ms', r = Ok (take (Z.to_nat (sz - skip)) (stream c), fst (consume sz c), sb', p') /\
    rep p' sb' F' l' ms' /\ remaining (sb_offset sb') ms' = snd (consume sz c) /\ sb_size sb' = sb_size sb /\ keeps p p' F l F' l'.

Lemma rep_at_offset p sb F l m ms o : rep p sb F l (m :: ms) -> 0 <= o < zlen (snd m) -> rep p (at_offset o sb) F l (m :: ms).
Proof. intros [] Ho. constructor; cbn; try done; lia. Qed.

(** Reading part of the first block. *)
Lemma pop_part p sb F a l m ms sz skip : rep p sb F (a :: l) (m :: ms) -> 0 <= sz -> sz < zlen (snd m) - sb_offset sb ->
  popped p sb F (a :: l) (m :: ms) sz skip (Ok (take (Z.to_nat (sz - skip)) (stream (remaining (sb_offset sb) (m :: ms))), [], at_offset (sb_offset sb + sz) sb, p)).
Proof.
  intros Hr Hsz Hlt. pose proof Hr as [_ _ _ _ _ _ _ _ R9 R10 _]. destruct m as [x d]. cbn [snd] in *. unfold popped. cbn zeta. cbn [remaining consume].
  rewrite zlen_drop by lia. destruct (Z.ltb_spec sz (zlen d - sb_offset sb)); [|lia].
  eexists _, _, F, (a :: l), ((x, d) :: ms). split; [done|]. split; [apply rep_at_offset; [done|cbn; lia]|]. cbn [remaining sb_offset at_offset snd].
  split; [|by split]. rewrite drop_drop. do 3 f_equal. lia.
Qed.

(** Reading the first block to its end. *)
Lemma pop_whole p sb F a l m ms sz : rep p sb F (a :: l) (m :: ms) -> sz = zlen (snd m) - sb_offset sb ->
  exists sb' p', return_free_node sb p = Ok (fst m, sb', p') /\ forall skip,
    popped p sb F (a :: l) (m :: ms) sz skip (Ok (take (Z.to_nat (sz - skip)) (stream (remaining (sb_offset sb) (m :: ms))), [fst m], sb', p')).
Proof.
  intros Hr ->. pose proof Hr as [_ _ _ _ _ _ _ R8 R9 R10 _]. destruct (return_node_rep _ _ _ _ _ _ _ Hr) as (sb' & p' & E & Hr' & Ho & Hs & Hk).
  exists sb', p'. split; [done|]. intros skip. destruct m as [x d]. cbn [snd fst] in *. inversion_clear R8 as [|? ? _ R8'].
  unfold popped. cbn zeta. cbn [remaining consume]. rewrite zlen_drop by lia. rewrite Z.ltb_irrefl, Z.sub_diag, consume_0 by done.
  exists sb', p', (a :: F), l, ms. split; [done|]. split; [done|]. rewrite Ho, remaining_0. split; [done|]. split; [done|]. by apply keeps_return.
Qed.

Lemma pop_loop_ok fuel : forall p sb F l ms sz skip, rep p sb F l ms -> (length l < fuel)%nat -> 0 < sz <= zlen (stream (remaining (sb_offset sb) ms)) -> 0 <= skip ->
  popped p sb F l ms sz skip (pop_loop fuel sb p sz skip).
Proof.
  induction fuel as [|fuel IH]; intros p sb F l ms sz skip Hr Hf Hsz Hskip; [lia|]. destruct ms as [|m ms]; [change (zlen (stream _)) with 0 in Hsz; lia|].
  pose proof Hr as [_ _ _ _ R5 _ R7 R8 R9 R10 _]. destruct l as [|a l]; [by apply Forall2_nil_cons_inv in R7|].
  pose proof R7 as R7'. apply Forall2_cons in R7' as [(n & Hn & Hm & Hz) _]. destruct R5 as [Eh _].
  cbn [pop_loop]. rewrite Eh. cbn [deref]. rstep. rewrite Hn. cbn [deref]. rstep. rewrite Hz.
  set (off := sb_offset sb) in *. set (bytes := zlen (snd m) - off) in *.
  assert (stream (remaining off (m :: ms)) = drop (Z.to_nat off) (snd m) ++ stream ms) as Es by by destruct m.
  assert (zlen (drop (Z.to_nat off) (snd m)) = bytes) as Ezd by (apply zlen_drop; lia). rewrite Es in Hsz. rewrite zlen_app, Ezd in Hsz.
  destruct (Z.leb_spec sz bytes) as [Hle|Hgt].
  - assert ((if skip <? sz then node_bytes n off (sz - skip) else Ok []) = Ok (take (Z.to_nat (sz - skip)) (stream (remaining off (m :: ms))))) as ->.
    { rewrite Es, take_app_le by (unfold zlen in *; lia). destruct (Z.ltb_spec skip sz).
      - by rewrite (node_bytes_ok p a m n) by (done || lia).
      - by replace (Z.to_nat (sz - skip)) with 0%nat by lia. }
    rstep. destruct (Z.eqb_spec bytes sz) as [E|E].
    + assert (sz = zlen (snd m) - sb_offset (at_offset off sb)) as Esz by (cbn; lia). destruct (pop_whole p sb F a l m ms sz Hr) as (sb' & p' & Ert & Hp); [lia|].
      assert (return_free_node (at_offset (off + sz) sb) p = return_free_node sb p) as -> by done. rewrite Ert. rstep. apply Hp.
    + apply pop_part; [done|lia|]. unfold bytes in *. lia.
  - assert ((if 0 <? sz - skip then node_bytes n off (if sz - skip <? bytes then sz - skip else bytes) else Ok []) = Ok (take (Z.to_nat (sz - skip)) (drop (Z.to_nat off) (snd m)))) as ->.
    { destruct (Z.ltb_spec 0 (sz - skip)); [|by replace (Z.to_nat (sz - skip)) with 0%nat by lia]. destruct (Z.ltb_spec (sz - skip) bytes).
      - by rewrite (node_bytes_ok p a m n) by (done || lia).
      - rewrite (node_bytes_ok p a m n off bytes) by (done || lia). f_equal. rewrite !take_ge; [done|unfold zlen in *; lia..]. }
    rstep. destruct (return_node_rep _ _ _ _ _ _ _ Hr) as (sb1 & p1 & -> & Hr1 & Ho & Hs & Hk). rstep. destruct (Z.eqb_spec (sz - bytes) 0); [lia|].
    destruct (IH p1 sb1 (a :: F) l ms (sz - bytes) skip Hr1) as (sb2 & p2 & F2 & l2 & ms2 & -> & Hr2 & Hrem & Hs2 & Hk2);
      [cbn in Hf; lia|rewrite Ho, remaining_0; lia|done|]. rewrite Ho, remaining_0 in *. rstep.
    exists sb2, p2, F2, l2, ms2. fold off. rewrite Es. destruct m as [x d]. cbn [remaining consume fst snd] in *. rewrite Ezd.
    destruct (Z.ltb_spec sz bytes); [lia|]. destruct (consume (sz - bytes) ms) as [f k]. cbn [fst snd] in *. split; [|split; [done|split; [done|split]]].
    + do 4 f_equal. rewrite take_app. f_equal. f_equal. unfold zlen in *. lia.
    + congruence.
    + eapply pool_keeps_trans; [by apply keeps_return|done].
Qed.

Lemma pop_lstring_ok p sb F l ms sz skip : rep p sb F l ms -> 0 <= skip <= sz -> (ms = [] -> False) -> sz <= zlen (stream (remaining (sb_offset sb) ms)) ->
  popped p sb F l ms sz skip (pop_lstring sb p sz skip).
Proof.
  intros Hr Hskip Hne Hsz. destruct ms as [|m ms]; [done|]. pose proof Hr as [_ _ _ _ R5 _ R7 _ R9 R10 _].
  destruct l as [|a l]; [by apply Forall2_nil_cons_inv in R7|]. apply Forall2_cons in R7 as [(n & Hn & Hm & Hz) _]. destruct R5 as [Eh _].
  unfold pop_lstring. rewrite Eh. cbn [deref]. rstep. rewrite Hn. cbn [deref]. rstep. rewrite Hz.
  assert (stream (remaining (sb_offset sb) (m :: ms)) = drop (Z.to_nat (sb_offset sb)) (snd m) ++ stream ms) as Es by by destruct m.
  assert (forall k, 0 <= k <= zlen (snd m) - sb_offset sb -> node_bytes n (sb_offset sb) k = Ok (take (Z.to_nat k) (stream (remaining (sb_offset sb) (m :: ms))))) as Hb.
  { intros k Hk. rewrite (node_bytes_ok p a m) by (done || lia). f_equal. rewrite Es, take_app_le; [done|]. unfold zlen in *. rewrite length_drop. lia. }
  destruct (Z.ltb_spec sz (zlen (snd m) - sb_offset sb)); [|destruct (Z.eqb_spec sz (zlen (snd m) - sb_offset sb))].
  - rewrite Hb by lia. rstep. apply pop_part; [done|lia..].
  - rewrite Hb by lia. rstep. destruct (pop_whole p sb F a l m ms sz Hr) as (sb' & p' & -> & Hp); [done|]. rstep. apply Hp.
  - apply pop_loop_ok; [done|by eapply rep_fuel|lia|lia].
Qed.

Lemma stream_remaining off m ms : stream (remaining off (m :: ms)) = drop (Z.to_nat off) (snd m) ++ stream ms.
Proof. by destruct m. Qed.

Lemma remaining_fst off ms : fst <$> remaining off ms = fst <$> ms.
Proof. by destruct ms as [|[a d] ms]. Qed.

(** Emptying a buffer. *)
Lemma clear_loop_ok fuel : forall p sb F l ms, rep p sb F l ms -> (length l < fuel)%nat ->
  exists sb' p' F', clear_loop fuel sb p = Ok (fst <$> ms, sb', p') /\ rep p' sb' F' [] [] /\ keeps p p' F l F' [].
Proof.
  induction fuel as [|fuel IH]; intros p sb F l ms Hr Hf; [lia|]. pose proof Hr as [_ _ _ _ R5 _ R7 _ _ _ _]. cbn [clear_loop].
  destruct ms as [|m ms], l as [|a l]; try by inversion R7.
  - rewrite R5. by exists sb, p, F.
  - destruct R5 as [Eh _]. rewrite Eh. destruct (return_node_rep _ _ _ _ _ _ _ Hr) as (sb1 & p1 & -> & Hr1 & _ & _ & Hk). rstep.
    destruct (IH p1 sb1 (a :: F) l ms Hr1) as (sb2 & p2 & F2 & -> & Hr2 & Hk2); [cbn in Hf; lia|]. rstep.
    exists sb2, p2, F2. split; [done|]. split; [done|]. eapply pool_keeps_trans; [by apply keeps_return|done].
Qed.

Lemma readall_loop_ok fuel : forall p sb F l ms, rep p sb F l ms -> (length l < fuel)%nat ->
  exists sb' p' F', readall_loop fuel sb p = Ok (stream (remaining (sb_offset sb) ms), fst <$> ms, sb', p') /\ rep p' sb' F' [] [] /\ keeps p p' F l F' [].
Proof.
  induction fuel as [|fuel IH]; intros p sb F l ms Hr Hf; [lia|]. pose proof Hr as [_ _ _ _ R5 _ R7 _ R9 R10 _]. cbn [readall_loop].
  destruct ms as [|m ms], l as [|a l]; try by inversion R7.
  - rewrite R5. by exists sb, p, F.
  - destruct R5 as [Eh _]. rewrite Eh. apply Forall2_cons in R7 as [(n & Hn & Hm & Hz) _]. rewrite Hn. cbn [deref]. rstep.
    rewrite (node_bytes_ok p a m n) by (done || lia). rstep. rewrite take_ge by (rewrite length_drop; unfold zlen in *; lia).
    destruct (return_node_rep _ _ _ _ _ _ _ Hr) as (sb1 & p1 & -> & Hr1 & Ho & _ & Hk). rstep.
    destruct (IH p1 sb1 (a :: F) l ms Hr1) as (sb2 & p2 & F2 & -> & Hr2 & Hk2); [cbn in Hf; lia|]. rstep. rewrite Ho, remaining_0, stream_remaining.
    exists sb2, p2, F2. split; [done|]. split; [done|]. eapply pool_keeps_trans; [by apply keeps_return|done].
Qed.

(** ** Lines *)

(** The node [a] and those behind it. *)
Definition suffix (p : pool) (l : list nat) (ms : list (Z * list Z)) : Prop :=
  chain (links p) (head l) l /\ Forall2 (holds p) l ms /\ Forall (fun m => snd m <> []) ms.

Lemma suffix_next p a l m ms : suffix p (a :: l) (m :: ms) -> exists n, pl_nodes p !! a = Some n /\ bn_msg n = Some m /\ bn_sz n = zlen (snd m) /\
  bn_next n = head l /\ suffix p l ms.
Proof.
  intros ([_ (p' & Ep & Hc)] & H2 & H3). apply Forall2_cons in H2 as [(n & Hn & Hm & Hz) H2]. inversion_clear H3. exists n.
  unfold links in Ep. rewrite Hn in Ep. injection Ep as <-. split; [done|]. split; [done|]. split; [done|].
  assert (bn_next n = head l) as E by (destruct l as [|b l]; cbn in Hc; [done|by destruct Hc]). split; [done|]. split; [by rewrite <- E|done].
Qed.

Lemma rep_suffix p sb F l ms : rep p sb F l ms -> suffix p l ms /\ sb_head sb = head l.
Proof.
  intros [_ _ _ _ R5 _ R7 R8 _ _ _]. assert (sb_head sb = head l) as E by (destruct l as [|b l]; cbn in R5; [done|by destruct R5]).
  split; [|done]. split; [by rewrite <- E|done].
Qed.

Lemma check_sep_ok fuel : forall p l ms from sep, suffix p l ms -> (length l < fuel)%nat ->
  match ms with [] => False | m :: _ => 0 <= from <= zlen (snd m) end ->
  zlen sep <= zlen (stream (remaining from ms)) ->
  check_sep fuel p (head l) from sep = Ok (bool_decide (take (length sep) (stream (remaining from ms)) = sep)).
Proof.
  induction fuel as [|fuel IH]; intros p l ms from sep Hs Hf Hfrom Hsep; [lia|]. destruct ms as [|m ms]; [done|].
  destruct l as [|a l]; [by destruct Hs as (_ & H & _); inversion H|]. destruct (suffix_next _ _ _ _ _ Hs) as (n & Hn & Hm & Hz & Enx & Hs').
  cbn [check_sep head]. cbn [deref]. rstep. rewrite Hn. cbn [deref]. rstep. rewrite Hz, stream_remaining in *.
  set (r := drop (Z.to_nat from) (snd m)) in *. assert (zlen r = zlen (snd m) - from) as Er by (apply zlen_drop; lia). rewrite <- Er, zlen_app in *.
  pose proof (zlen_nonneg sep). destruct (Z.leb_spec (zlen sep) (zlen r)) as [Hle|Hgt].
  - rewrite (node_bytes_ok p a m n) by (done || lia). rstep. fold r. rewrite take_app_le by (unfold zlen in *; lia). do 3 f_equal. unfold zlen. by rewrite Nat2Z.id.
  - assert ((if 0 <? zlen r then s ← node_bytes n from (zlen r); sep' ← slice sep 0 (zlen r); Ok (bool_decide (s = sep')) else Ok true) =
      Ok (bool_decide (r = take (length r) sep))) as ->.
    { destruct (Z.ltb_spec 0 (zlen r)) as [Hp|Hp].
      - rewrite (node_bytes_ok p a m n) by (done || lia). rstep. fold r. rewrite slice_Ok by lia. rstep. rewrite take_ge by (unfold zlen; lia).
        change (Z.to_nat 0) with 0%nat. rewrite drop_0. do 3 f_equal. unfold zlen. by rewrite Nat2Z.id.
      - destruct r; [by rewrite bool_decide_true|unfold zlen in Hp; cbn in Hp; lia]. }
    rstep. assert (Z.to_nat (zlen r) = length r) as Elr by (unfold zlen; lia). rewrite Elr, Enx. rewrite take_app_ge by (unfold zlen in *; lia).
    case_bool_decide as Hsame; cbn [negb].
    + assert (Forall (fun m => snd m <> []) ms) as Hne by by destruct Hs' as (_ & _ & ?).
      rewrite (IH p l ms 0 (drop (length r) sep)) by
        (first [done | cbn in Hf; lia | destruct ms; [cbn in Hsep; unfold zlen in *; cbn in *; lia|pose proof (zlen_nonneg (snd p0)); lia]
               | rewrite remaining_0; unfold zlen in *; rewrite length_drop; lia]).
      f_equal. rewrite remaining_0, length_drop. apply bool_decide_ext. split.
      * intros ->. rewrite <- (take_drop (length r) sep) at 2. by f_equal.
      * intros E. rewrite <- E at 2. by rewrite drop_app_length.
    + f_equal. symmetry. apply bool_decide_eq_false. intros E. apply Hsame. rewrite <- E at 1. rewrite take_app_length. done.
Qed.

Lemma suffix_fuel p l ms : suffix p l ms -> (length l < node_fuel p)%nat.
Proof.
  intros (Hc & H2 & _). unfold node_fuel. apply chain_nodup in Hc. rewrite <- size_dom, <- (size_list_to_set (C := gset nat) l Hc).
  apply Nat.lt_succ_r, subseteq_size. intros a Ha. apply elem_of_list_to_set, list_elem_of_lookup_1 in Ha as [i Hi].
  destruct (Forall2_lookup_l _ _ _ _ _ H2 Hi) as (m & _ & n & Hn & _). apply elem_of_dom. by rewrite Hn.
Qed.

Lemma find_sep_short sep s : (length s < length sep)%nat -> find_sep sep s = None.
Proof.
  induction s as [|b s IH]; intros H; cbn [find_sep]; [done|]. rewrite bool_decide_false.
  - by rewrite IH by (cbn in H; lia).
  - intros E. apply (f_equal length) in E. rewrite length_take in E. lia.
Qed.

Lemma sep_loop_ok k : forall p a l m ms from i sep, suffix p (a :: l) (m :: ms) -> 0 <= from < zlen (snd m) ->
  k = Z.to_nat (zlen (stream (remaining from (m :: ms))) - zlen sep + 1) ->
  sep_loop k p a from (zlen (snd m) - from) i sep = Ok ((fun n => i + Z.of_nat n) <$> find_sep sep (stream (remaining from (m :: ms)))).
Proof.
  induction k as [|k IH]; intros p a l m ms from i sep Hs Hfrom Hk; cbn [sep_loop].
  { rewrite find_sep_short; [done|]. unfold zlen in *. lia. }
  change (Some a) with (head (a :: l)). rewrite (check_sep_ok _ p (a :: l) (m :: ms)) by (first [done|by eapply suffix_fuel|lia]). rstep.
  rewrite stream_remaining in *. set (d := snd m) in *.
  assert (exists b, drop (Z.to_nat from) d = b :: drop (Z.to_nat (from + 1)) d) as [b Eb].
  { destruct (lookup_lt_is_Some_2 d (Z.to_nat from)) as [b Hb]; [unfold zlen in Hfrom; lia|]. exists b.
    replace (Z.to_nat (from + 1)) with (S (Z.to_nat from)) by lia. by apply drop_S. }
  rewrite Eb in *. cbn [app find_sep]. case_bool_decide as Hfound; [cbn; f_equal; f_equal; lia|].
  assert (forall o : option nat, (fun n => i + Z.of_nat n) <$> (S <$> o) = (fun n => (i + 1) + Z.of_nat n) <$> o) as Hmap.
  { intros [n|]; [|done]. cbn. f_equal. lia. }
  rewrite Hmap. assert (zlen (b :: drop (Z.to_nat (from + 1)) d ++ stream ms) = zlen (drop (Z.to_nat (from + 1)) d ++ stream ms) + 1) as Elen by (unfold zlen; cbn; lia).
  cbn [app] in Hk. destruct (Z.eqb_spec (zlen d - from - 1) 0) as [E|E].
  - destruct (suffix_next _ _ _ _ _ Hs) as (n & Hn & _ & _ & Enx & Hs'). rewrite Hn. cbn [deref]. rstep. rewrite Enx.
    assert (drop (Z.to_nat (from + 1)) d = []) as Ed by (apply drop_ge; unfold zlen in *; lia). rewrite Ed in *. cbn [app] in *.
    destruct l as [|a' l]; cbn [head].
    { destruct ms as [|m' ms]; [done|]. by destruct Hs' as (_ & H & _); inversion H. }
    destruct ms as [|m' ms]; [by destruct Hs' as (_ & H & _); inversion H|].
    destruct (suffix_next _ _ _ _ _ Hs') as (n' & Hn' & _ & Hz' & _). rewrite Hn'. cbn [deref]. rstep. rewrite Hz'.
    assert (0 < zlen (snd m')) by (destruct Hs' as (_ & _ & H); inversion_clear H; by apply zlen_nonempty).
    rewrite <- (Z.sub_0_r (zlen (snd m'))), (IH p a' l m' ms 0) by (first [done|lia|rewrite remaining_0; lia]). by rewrite remaining_0.
  - subst d. rewrite <- stream_remaining. replace (zlen (snd m) - from - 1) with (zlen (snd m) - (from + 1)) by lia. apply (IH p a l); [done|lia|].
    rewrite stream_remaining. lia.
Qed.

(** ** Pushing *)

(** The nodes of a new chunk. *)
Lemma chunk_nodes_spec sz : forall a nodes x, chunk_nodes sz a nodes !! x =
  if decide (a <= x < a + sz)%nat then Some (BufferNode None 0 (if decide (S x = a + sz)%nat then None else Some (S x))) else nodes !! x.
Proof.
  induction sz as [|sz IH]; intros a nodes x; cbn [chunk_nodes]; [rewrite decide_False by lia; done|].
  destruct (decide (x = a)) as [->|Hne].
  - rewrite lookup_insert_eq, decide_True by lia. do 2 f_equal. destruct sz; [by rewrite decide_True by lia|by rewrite decide_False by lia].
  - rewrite lookup_insert_ne, IH by done. repeat case_decide; (done || lia).
Qed.

Lemma chain_seq (nx : nat -> option (option nat)) sz : forall a, (forall x, (a <= x < a + sz)%nat -> nx x = Some (if decide (S x = a + sz)%nat then None else Some (S x))) ->
  (0 < sz)%nat -> chain nx (Some a) (seq a sz).
Proof.
  induction sz as [|sz IH]; intros a H Hsz; [lia|]. cbn [seq chain]. split; [done|]. eexists. split; [apply H; lia|].
  destruct sz as [|sz]; [by rewrite decide_True by lia|]. rewrite decide_False by lia. apply IH; [|lia]. intros x Hx. rewrite H by lia.
  do 2 f_equal. destruct (decide (S x = a + S (S sz))%nat); [by rewrite decide_True by lia|by rewrite decide_False by lia].
Qed.

(** A free node: the first of the list, or of a chunk of new nodes. *)
Lemma take_free_ok p sb F l ms : rep p sb F l ms ->
  exists a F' p', take_free p = (a, p') /\
    rep (set_free (Some a) p') sb (a :: F') l ms /\
    (forall x, is_Some (pl_nodes p !! x) -> pl_nodes p' !! x = pl_nodes p !! x) /\
    (forall x, x ∈ a :: F' -> x ∈ F \/ pl_nodes p !! x = None).
Proof.
  intros Hr. pose proof Hr as [R1 R2 R3 R4 R5 R6 R7 R8 R9 R10 R11]. unfold take_free. destruct (pl_free p) as [f|] eqn:Ef.
  - destruct F as [|f' F]; [done|]. destruct R1 as [[= ->] (nx & Enx & R1)]. exists f', F, p. split; [done|]. split; [|split; [done|by left]].
    assert (set_free (Some f') p = p) as -> by (destruct p; cbn in *; by subst). done.
  - destruct F as [|f' F]; [|by destruct R1]. set (tsz := if pl_len p =? 0 then 1 else pl_len p).
    set (size := Z.to_nat (if tsz <=? LARGE_PAGE_NODE - 3 then _ else _)).
    assert (1 <= tsz) as Htsz by (unfold tsz; destruct (Z.eqb_spec (pl_len p) 0); lia).
    assert (0 < size)%nat as Hsize.
    { unfold size. destruct (tsz <=? LARGE_PAGE_NODE - 3); [|vm_compute; lia]. rewrite Z.shiftl_mul_pow2 by lia. pose proof (Z.pow_pos_nonneg 2 tsz). lia. }
    clearbody size. unfold lnewpool. cbn [pl_nodes pl_top pl_free pl_len]. set (top := pl_top p). set (nodes := chunk_nodes size top (pl_nodes p)).
    assert (Hn : forall x, nodes !! x = if decide (top <= x < top + size)%nat then Some (BufferNode None 0 (if decide (S x = top + size)%nat then None else Some (S x))) else pl_nodes p !! x)
      by (intros; apply chunk_nodes_spec).
    assert (Hold : forall x, is_Some (pl_nodes p !! x) -> nodes !! x = pl_nodes p !! x).
    { intros x [n Hx]. rewrite Hn, decide_False; [done|]. intros [H _]. by rewrite R3 in Hx. }
    assert (Hl : forall x, x ∈ l -> nodes !! x = pl_nodes p !! x).
    { intros x [i Hi]%list_elem_of_lookup_1. apply Hold. destruct (Forall2_lookup_l _ _ _ _ _ R7 Hi) as (m & _ & n & E & _). by rewrite E. }
    exists top, (tail (seq top size)), (Pool nodes (top + size) None (tsz + 1)). split; [by rewrite Ef|].
    assert (top :: tail (seq top size) = seq top size) as Eseq by (destruct size; [lia|reflexivity]). rewrite Eseq. split; [|split; [done|]].
    + constructor; cbn [set_free pl_nodes pl_top pl_free pl_len]; try done.
      * apply chain_seq; [|done]. intros x Hx. unfold links. cbn. by rewrite Hn, decide_True.
      * apply Forall_forall. intros x Hx. apply elem_of_seq in Hx. eexists. cbn. rewrite Hn.
        destruct (decide (top <= x < top + size)%nat); [by split|lia].
      * intros x Hx. rewrite Hn, decide_False by lia. apply R3. unfold top in *. lia.
      * lia.
      * eapply chain_ext; [|exact R5]. intros x Hx. unfold links. cbn. by rewrite Hl.
      * by eapply holds_ext.
      * apply NoDup_app. split; [apply NoDup_seq|]. split; [|by apply NoDup_app in R11 as (_ & _ & ?)].
        intros x Hx [i Hi]%list_elem_of_lookup_1. apply elem_of_seq in Hx. destruct (Forall2_lookup_l _ _ _ _ _ R7 Hi) as (m & _ & n & E & _). rewrite R3 in E; [done|unfold top in *; lia].
    + intros x Hx. right. apply elem_of_seq in Hx. apply R3. unfold top in *. lia.
Qed.

(** What an operation on one buffer leaves to the others. *)
Definition frame (p p' : pool) (F l F' l' : list nat) : Prop :=
  (forall x, is_Some (pl_nodes p !! x) -> x ∉ F ++ l -> pl_nodes p' !! x = pl_nodes p !! x) /\
  (forall x, x ∈ F' ++ l' -> x ∈ F ++ l \/ pl_nodes p !! x = None).

Lemma keeps_frame p p' F l F' l' : keeps p p' F l F' l' -> frame p p' F l F' l'.
Proof. intros [H1 H2]. split; [auto|]. intros x Hx. left. by rewrite <- H1. Qed.

Lemma rep_lookup p sb F l ms x : rep p sb F l ms -> x ∈ F ++ l -> is_Some (pl_nodes p !! x).
Proof.
  intros [_ R2 _ _ _ _ R7 _ _ _ _] [Hx|Hx]%elem_of_app.
  - rewrite Forall_forall in R2. destruct (R2 x Hx) as (n & E & _). by rewrite E.
  - apply list_elem_of_lookup_1 in Hx as [i Hi]. destruct (Forall2_lookup_l _ _ _ _ _ R7 Hi) as (m & _ & n & E & _). by rewrite E.
Qed.

(** Linking node [a], which was free, behind the last node. *)
Lemma link_node p sb F l ms a m : rep p sb (a :: F) l ms -> snd m <> [] -> exists n, pl_nodes p !! a = Some n /\
  let p1 := set_nodes (<[a := BufferNode (Some m) (zlen (snd m)) None]> (pl_nodes p)) (set_free (bn_next n) p) in
  match l with
  | [] => rep p1 (SocketBuffer (sb_size sb) (sb_offset sb) (Some a) (Some a)) F [a] [m]
  | b :: _ => exists t tn, sb_tail sb = Some t /\ pl_nodes p1 !! t = Some tn /\
      rep (set_nodes (<[t := set_next (Some a) tn]> (pl_nodes p1)) p1) (SocketBuffer (sb_size sb) (sb_offset sb) (Some b) (Some a)) F (l ++ [a]) (ms ++ [m]) /\ t ∈ l
  end.
Proof.
  intros [R1 R2 R3 R4 R5 R6 R7 R8 R9 R10 R11] Hm. destruct R1 as [Ef (nx & Enx & R1)]. apply Forall_cons in R2 as [(n & Hn & Hmn) R2'].
  unfold links in Enx. rewrite Hn in Enx. injection Enx as <-. exists n. split; [done|]. cbn zeta.
  set (p1 := set_nodes _ _). cbn in R11. apply NoDup_cons in R11 as [HaF Hnd]. rewrite not_elem_of_app in HaF. destruct HaF as [HaF Hal].
  assert (Hne : forall x, x <> a -> pl_nodes p1 !! x = pl_nodes p !! x) by (intros; unfold p1; cbn; by rewrite lookup_insert_ne).
  assert (Ha : pl_nodes p1 !! a = Some (BufferNode (Some m) (zlen (snd m)) None)) by (unfold p1; cbn; by rewrite lookup_insert_eq).
  assert (Hfree : forall q, (forall x, x ∈ F -> pl_nodes q !! x = pl_nodes p !! x) -> pl_free q = bn_next n -> chain (links q) (pl_free q) F /\ Forall (free_node q) F).
  { intros q Hq ->. split; [eapply chain_ext; [|exact R1]; intros x Hx; unfold links; by rewrite Hq|]. rewrite Forall_forall in R2' |- *.
    intros x Hx. destruct (R2' x Hx) as (n' & E & Em). exists n'. by rewrite Hq. }
  assert (Htop : forall x, (pl_top p <= x)%nat -> pl_nodes p1 !! x = None).
  { intros x Hx. rewrite Hne; [by apply R3|]. intros ->. by rewrite R3 in Hn. }
  assert (forall x, x ∈ F -> x <> a) as HF by (intros x Hx ->; done).
  destruct l as [|b l].
  - inversion R7; subst. destruct (Hfree p1) as [C1 C2]; [by intros x Hx; apply Hne, HF|done|]. constructor; try done; cbn.
    + split; [done|]. exists None. unfold links. by rewrite Ha.
    + repeat constructor. eexists. by rewrite Ha.
    + by repeat constructor.
    + rewrite R10. by apply zlen_nonempty.
    + apply NoDup_app in Hnd as (Hnd & _). apply NoDup_app. split; [done|]. split; [|apply NoDup_singleton]. intros x Hx Hx'. apply list_elem_of_singleton in Hx' as ->. done.
  - destruct (last (b :: l)) as [t|] eqn:El; [|by apply last_None in El]. apply last_Some in El as [l0 El]. rewrite El in *.
    assert (t <> a) as Hta by (intros ->; apply Hal, elem_of_app; right; left).
    apply Forall2_app_inv_l in R7 as (ms0 & mt & R70 & R7t & Ems). inversion R7t as [|? mt' ? ? (tn & Htn & Htm & Htz) Hnil]; subst. inversion Hnil; subst.
    exists t, tn. split; [done|]. split; [by rewrite Hne|]. split; [|apply elem_of_app; right; left].
    set (p2 := set_nodes (<[t := set_next (Some a) tn]> (pl_nodes p1)) p1).
    assert (Hne2 : forall x, x <> a -> x <> t -> pl_nodes p2 !! x = pl_nodes p !! x) by (intros; unfold p2; cbn; rewrite lookup_insert_ne by done; by apply Hne).
    assert (Ht2 : pl_nodes p2 !! t = Some (set_next (Some a) tn)) by (unfold p2; cbn; by rewrite lookup_insert_eq).
    assert (Ha2 : pl_nodes p2 !! a = Some (BufferNode (Some m) (zlen (snd m)) None)) by (unfold p2; cbn; by rewrite lookup_insert_ne).
    apply NoDup_app in Hnd as (Hnd1 & Hnd2 & Hnd3). pose proof Hnd3 as Hnd4. apply NoDup_app in Hnd4 as (_ & Hl0t & _).
    destruct (Hfree p2) as [C1 C2]; [|done|].
    { intros x Hx. apply Hne2; [by apply HF|]. intros ->. apply (Hnd2 t Hx), elem_of_app. right. left. }
    constructor; try done; cbn [sb_head sb_tail sb_offset].
    + intros x Hx. unfold p2. cbn. rewrite lookup_insert_ne; [by apply Htop|]. intros <-. change (pl_top p1) with (pl_top p) in Hx. by rewrite R3 in Htn.
    + eapply chain_snoc.
      * assert (sb_head sb = Some b) as <- by (rewrite <- El in R5; by destruct R5). exact R5.
      * unfold links. by rewrite Ht2.
      * unfold links. by rewrite Ha2.
      * intros x Hx. unfold links. rewrite Hne2; [done|intros ->; apply Hal, elem_of_app; by left|]. intros ->. apply (Hl0t t Hx). left.
    + by rewrite last_snoc.
    + apply Forall2_app; [|constructor; [eexists; by rewrite Ha2|constructor]]. apply Forall2_app.
      * eapply holds_ext; [exact R70|]. intros x Hx. apply Hne2; [intros ->; apply Hal, elem_of_app; by left|]. intros ->. apply (Hl0t t Hx). left.
      * constructor; [|constructor]. exists (set_next (Some a) tn). by rewrite Ht2.
    + apply Forall_app. split; [done|by repeat constructor].
    + by destruct ms0.
    + apply NoDup_app. split; [done|]. split.
      * intros x Hx [Hx'|Hx'%list_elem_of_singleton]%elem_of_app; [by apply (Hnd2 x Hx)|by subst].
      * apply NoDup_app. split; [done|]. split; [|apply NoDup_singleton]. intros x Hx Hx'. apply list_elem_of_singleton in Hx' as ->. done.
Qed.

(** Another buffer with nodes [lo]. *)
Lemma rep_other p p' sb sb' so F l ms F' l' ms' lo mso : rep p sb F l ms -> rep p so F lo mso -> rep p' sb' F' l' ms' -> frame p p' F l F' l' -> lo ## l ->
  rep p' so F' lo mso /\ lo ## l'.
Proof.
  intros H Ho [R1 R2 R3 R4 _ _ _ _ _ _ R11] [K1 K2] Hd. pose proof Ho as [_ _ _ _ O5 O6 O7 O8 O9 O10 O11].
  assert (Hin : forall x, x ∈ lo -> pl_nodes p' !! x = pl_nodes p !! x).
  { intros x Hx. apply K1; [eapply rep_lookup; [exact Ho|]; apply elem_of_app; by right|]. intros [Hf|Hl]%elem_of_app; [|by apply (Hd x)].
    apply NoDup_app in O11 as (_ & O11 & _). by apply (O11 x). }
  assert (Hout : forall x, x ∈ F' ++ l' -> x ∉ lo).
  { intros x Hx Hx'. destruct (K2 x Hx) as [[Hf|Hl]%elem_of_app|Hn].
    - apply NoDup_app in O11 as (_ & O11 & _). by apply (O11 x).
    - by apply (Hd x).
    - destruct (rep_lookup p so F lo mso x Ho) as [n E]; [apply elem_of_app; by right|congruence]. }
  split.
  - constructor; try done.
    + eapply chain_ext; [|exact O5]. intros x Hx. unfold links. by rewrite Hin.
    + by eapply holds_ext.
    + apply NoDup_app. apply NoDup_app in R11 as (R11 & _). split; [done|]. split; [|by apply NoDup_app in O11 as (_ & _ & ?)].
      intros x Hx. apply Hout, elem_of_app. by left.
  - intros x Hx Hx'. apply (Hout x); [apply elem_of_app; by right|done].
Qed.

Lemma push_ok p sb F l ms msg data : rep p sb F l ms -> data <> [] -> zlen data <= INT_MAX -> sb_size sb + zlen data <= INT_MAX ->
  exists sb' p' F' l', lpushbuffer sb p msg data (zlen data) = Ok (sb_size sb + zlen data, sb', p') /\
    rep p' sb' F' l' (ms ++ [(msg, data)]) /\ sb_offset sb' = sb_offset sb /\ sb_size sb' = sb_size sb + zlen data /\ frame p p' F l F' l'.
Proof.
  intros Hr Hd Hi Hs. destruct (take_free_ok p sb F l ms Hr) as (a & F1 & p1 & Et & Hr1 & K1 & K2). unfold lpushbuffer. rewrite (s32_small (zlen data)) by (pose proof (zlen_nonneg data); unfold INT_MAX in *; lia). cbn zeta. rewrite Et.
  destruct (link_node _ _ _ _ _ _ (msg, data) Hr1 Hd) as (n & Hn & Hlink). cbn [pl_nodes set_free] in Hn. rewrite Hn. cbn [deref]. rstep.
  assert (Haf : a ∈ F \/ pl_nodes p !! a = None) by (apply K2; left). assert (INT_MAX <? sb_size sb + zlen data = false) as Hle by (apply Z.ltb_ge; lia).
  assert (sb_size sb + zlen data <=? INT_MAX = true) as Hle' by (apply Z.leb_le; lia).
  assert (Hold : forall x, is_Some (pl_nodes p !! x) -> x ∉ F ++ l -> x <> a /\ x ∉ l).
  { intros x Hx Hn'. split; [|intros Hl; apply Hn', elem_of_app; by right]. intros ->. destruct Haf as [Ha|Ha]; [apply Hn', elem_of_app; by left|by destruct Hx; congruence]. }
  assert (Hnew : forall x, x ∈ F1 ++ l ++ [a] -> x ∈ F ++ l \/ pl_nodes p !! x = None).
  { intros x [Hx|[Hx|Hx%list_elem_of_singleton]%elem_of_app]%elem_of_app.
    - destruct (K2 x) as [H|H]; [by right|left; apply elem_of_app; by left|by right].
    - left. apply elem_of_app. by right.
    - subst x. destruct Haf as [H|H]; [left; apply elem_of_app; by left|by right]. }
  pose proof Hr as [_ _ _ _ R5 R6 R7 _ _ _ _]. destruct l as [|b l].
  - cbn in R5. rewrite R5. cbn in R6. rewrite R6. cbn [bool_decide]. rewrite bool_decide_true by done. cbn [assert_]. rstep. cbn [sb_size]. rewrite Hle'. cbn [assert_]. rstep.
    eexists _, _, F1, [a]. split; [done|]. assert (ms = []) as -> by by inversion R7. split.
    { destruct Hlink. by constructor. }
    split; [done|]. split; [done|]. split; [|done]. intros x Hx Hxn. destruct (Hold x Hx Hxn) as [Hxa _]. cbn. rewrite lookup_insert_ne by done. by apply K1.
  - destruct R5 as [-> _]. destruct Hlink as (t & tn & Etl & Htn & Hr2 & Htl). rewrite Etl. cbn [deref]. rstep. cbn [pl_nodes set_nodes set_free snd] in Htn |- *. rewrite Htn. cbn [deref]. rstep.
    cbn [sb_size]. rewrite Hle'. cbn [assert_]. rstep. eexists _, _, F1, ((b :: l) ++ [a]). split; [done|]. split.
    { destruct Hr2. by constructor. }
    split; [done|]. split; [done|]. split; [|done]. intros x Hx Hxn. destruct (Hold x Hx Hxn) as [Hxa Hxl]. cbn.
    rewrite lookup_insert_ne by (intros ->; done). rewrite lookup_insert_ne by done. by apply K1.
Qed.

(** ** Any sequence of operations *)

Inductive op : Set :=
| Push (id msg : Z) (data : list Z)
| Pop (id n : Z)
| ReadAll (id : Z)
| Clear (id : Z)
| ReadLine (id : Z) (check : bool) (sep : list Z).

Inductive value : Set :=
| VSize (n : Z)
| VPop (s : option (list Z)) (n : Z)
| VString (s : list Z)
| VNone
| VLine (r : option (option (list Z))).

(** The operations on the buffers of a service by connection; results are the
    value and the blocks freed. *)
Definition run_op (o : op) (p : pool) (bufs : gmap Z socket_buffer) : result (value * list Z * pool * gmap Z socket_buffer) :=
  let get id := default lnewbuffer (bufs !! id) in
  match o with
  | Push id msg data => '(n, sb, p) ← lpushbuffer (get id) p msg data (zlen data); Ok (VSize n, [], p, <[id := sb]> bufs)
  | Pop id n => '(s, n, f, sb, p) ← lpopbuffer (get id) p n; Ok (VPop s n, f, p, <[id := sb]> bufs)
  | ReadAll id => '(s, f, sb, p) ← lreadall (get id) p; Ok (VString s, f, p, <[id := sb]> bufs)
  | Clear id => '(f, sb, p) ← lclearbuffer (get id) p; Ok (VNone, f, p, <[id := sb]> bufs)
  | ReadLine id check sep => '(r, f, sb, p) ← lreadline (get id) p check sep; Ok (VLine r, f, p, <[id := sb]> bufs)
  end.

Fixpoint run (ops : list op) (p : pool) (bufs : gmap Z socket_buffer) : result (list (value * list Z)) :=
  match ops with
  | [] => Ok []
  | o :: ops => '(v, f, p, bufs) ← run_op o p bufs; l ← run ops p bufs; Ok ((v, f) :: l)
  end.

(** The same on streams. *)
Definition spec_op (o : op) (cs : gmap Z (list (Z * list Z))) : value * list Z * gmap Z (list (Z * list Z)) :=
  let get id := default [] (cs !! id) in
  match o with
  | Push id msg data => (VSize (zlen (stream (get id)) + zlen data), [], <[id := get id ++ [(msg, data)]]> cs)
  | Pop id n =>
      let s := stream (get id) in
      if (zlen s <? n) || (n =? 0) then (VPop None (zlen s), [], <[id := get id]> cs)
      else (VPop (Some (take (Z.to_nat n) s)) (zlen s - n), fst (consume n (get id)), <[id := snd (consume n (get id))]> cs)
  | ReadAll id => (VString (stream (get id)), fst <$> get id, <[id := []]> cs)
  | Clear id => (VNone, fst <$> get id, <[id := []]> cs)
  | ReadLine id check sep =>
      match find_sep sep (stream (get id)) with
      | None => (VLine None, [], <[id := get id]> cs)
      | Some i =>
          if check then (VLine (Some None), [], <[id := get id]> cs)
          else let n := Z.of_nat i + zlen sep in
               (VLine (Some (Some (take i (stream (get id))))), fst (consume n (get id)), <[id := snd (consume n (get id))]> cs)
      end
  end.

Fixpoint spec (ops : list op) (cs : gmap Z (list (Z * list Z))) : list (value * list Z) :=
  match ops with
  | [] => []
  | o :: ops => let '(v, f, cs) := spec_op o cs in (v, f) :: spec ops cs
  end.

(** The bytes pushed; received blocks are not empty, sizes asked for are not
    negative and fit an [int], and so do the lengths of separators. *)
Definition op_bytes (o : op) : Z := match o with Push _ _ d => zlen d | _ => 0 end.
Definition total (ops : list op) : Z := foldr (fun o n => op_bytes o + n) 0 ops.
Definition op_ok (o : op) : Prop := match o with Push _ _ d => d <> [] | Pop _ n => 0 <= n <= INT_MAX | ReadLine _ _ sep => zlen sep <= INT_MAX | _ => True end.

(** One buffer holds the chunks [c]. *)
Definition buffer_rep (p : pool) (sb : socket_buffer) (F l : list nat) (c : list (Z * list Z)) : Prop :=
  exists ms, rep p sb F l ms /\ c = remaining (sb_offset sb) ms /\ sb_size sb = zlen (stream c).

Record inv (p : pool) (bufs : gmap Z socket_buffer) (cs : gmap Z (list (Z * list Z))) (F : list nat) (N : Z -> list nat) : Prop := Inv {
  iv_buf : forall id, buffer_rep p (default lnewbuffer (bufs !! id)) F (N id) (default [] (cs !! id));
  iv_disj : forall id id', id <> id' -> N id ## N id'
}.

(** Putting the result of an operation on [id] back. *)
Lemma owned_update p bufs cs F N id p' sb' F' l' c' : inv p bufs cs F N -> buffer_rep p' sb' F' l' c' -> frame p p' F (N id) F' l' ->
  exists N', inv p' (<[id := sb']> bufs) (<[id := c']> cs) F' N'.
Proof.
  intros [I1 I2] Hr Hk. exists (fun x => if decide (x = id) then l' else N x). destruct (I1 id) as (ms & Hm & _). destruct Hr as (ms' & Hr & Hc & Hz).
  assert (forall x, x <> id -> buffer_rep p' (default lnewbuffer (bufs !! x)) F' (N x) (default [] (cs !! x)) /\ N x ## l') as Hother.
  { intros x Hx. destruct (I1 x) as (mx & Hmx & Hcx & Hzx). destruct (rep_other _ _ _ _ _ _ _ _ _ _ _ _ _ Hm Hmx Hr Hk) as [H1 H2]; [by apply I2|].
    split; [by exists mx|done]. }
  constructor.
  - intros x. destruct (decide (x = id)) as [->|Hx]; [rewrite !lookup_insert_eq; by exists ms'|]. rewrite !lookup_insert_ne by done. by apply Hother.
  - intros x y Hxy. destruct (decide (x = id)) as [->|Hx], (decide (y = id)) as [->|Hy]; try done; [|by apply Hother|by apply I2].
    intros z Hzx Hzy. destruct (Hother y Hy) as [_ Hd]. by apply (Hd z).
Qed.

Lemma consume_total n c : Forall (fun m => snd m <> []) c -> 0 <= n <= zlen (stream c) -> zlen (stream (snd (consume n c))) = zlen (stream c) - n.
Proof.
  intros Hc. revert n. induction Hc as [|[a d] c Hd Hc IH]; intros n Hn; cbn [consume]; [change (zlen (stream [])) with 0 in *; cbn; unfold zlen; cbn; lia|].
  change (stream ((a, d) :: c)) with (d ++ stream c) in *. rewrite zlen_app in *. destruct (Z.ltb_spec n (zlen d)).
  - cbn [snd]. change (stream ((a, ?x) :: c)) with (x ++ stream c). rewrite zlen_app, zlen_drop by lia. lia.
  - specialize (IH (n - zlen d)). destruct (consume (n - zlen d) c) as [f k]. cbn [snd] in *. lia.
Qed.

Lemma remaining_nonempty p sb F l ms : rep p sb F l ms -> Forall (fun m => snd m <> []) (remaining (sb_offset sb) ms).
Proof.
  intros [_ _ _ _ _ _ _ R8 R9 R10 _]. destruct ms as [|[a d] ms]; [done|]. inversion_clear R8 as [|? ? Hd R8']. constructor; [|done]. cbn in *.
  intros E. apply (f_equal zlen) in E. rewrite zlen_drop in E by lia. change (zlen []) with 0 in E. lia.
Qed.

Lemma find_sep_bound sep s i : find_sep sep s = Some i -> Z.of_nat i + zlen sep <= zlen s.
Proof.
  revert i. induction s as [|b s IH]; intros i; cbn [find_sep]; [done|]. case_bool_decide as E.
  - intros [= <-]. apply (f_equal length) in E. rewrite length_take in E. unfold zlen. lia.
  - destruct (find_sep sep s) as [j|]; [|done]. intros [= <-]. specialize (IH j eq_refl). unfold zlen in *. cbn [length]. lia.
Qed.

(** A pop as both functions that take bytes away use it. *)
Lemma pop_buffer p sb F l c sz skip : buffer_rep p sb F l c -> 0 <= skip <= sz -> c <> [] -> sz <= zlen (stream c) ->
  exists sb' p' F' l', pop_lstring sb p sz skip = Ok (take (Z.to_nat (sz - skip)) (stream c), fst (consume sz c), sb', p') /\
    buffer_rep p' (add_size (- sz) sb') F' l' (snd (consume sz c)) /\ sb_size sb' = sb_size sb /\ frame p p' F l F' l'.
Proof.
  intros (ms & Hr & -> & Hz) Hs Hc Hl. destruct (pop_lstring_ok p sb F l ms sz skip Hr Hs) as (sb' & p' & F' & l' & ms' & E & Hr' & Hrem & Hs' & Hk);
    [by intros ->|done|]. exists sb', p', F', l'. split; [done|]. split; [|split; [done|by apply keeps_frame]]. exists ms'. split; [by destruct Hr'|].
  split; [done|]. cbn [add_size sb_size]. rewrite consume_total by (first [by eapply remaining_nonempty|lia]). lia.
Qed.

Lemma step_refines o p bufs cs F N : inv p bufs cs F N -> op_ok o -> (forall id, zlen (stream (default [] (cs !! id))) + op_bytes o <= INT_MAX) ->
  let '(v, f, cs') := spec_op o cs in
  exists p' bufs' F' N', run_op o p bufs = Ok (v, f, p', bufs') /\ inv p' bufs' cs' F' N' /\
    forall id, zlen (stream (default [] (cs' !! id))) <= zlen (stream (default [] (cs !! id))) + op_bytes o.
Proof.
  intros Hi Hok Hb.
  assert (Hgrow : forall id c' d, 0 <= d -> zlen (stream c') <= zlen (stream (default [] (cs !! id))) + d ->
    forall x, zlen (stream (default [] (<[id := c']> cs !! x))) <= zlen (stream (default [] (cs !! x))) + d).
  { intros id c' d Hd Hc x. destruct (decide (x = id)) as [->|Hx]; [by rewrite lookup_insert_eq|rewrite lookup_insert_ne by done; lia]. }
  destruct o as [id msg data|id n|id|id|id check sep]; cbn [spec_op run_op op_ok op_bytes] in *;
    pose proof (iv_buf _ _ _ _ _ Hi id) as Hbuf; set (sb := default lnewbuffer (bufs !! id)) in *; set (c := default [] (cs !! id)) in *;
    pose proof Hbuf as (ms & Hr & Ec & Hz).
  - destruct (push_ok p sb F (N id) ms msg data Hr Hok) as (sb' & p' & F' & l' & -> & Hr' & Ho & Hs & Hk); [specialize (Hb id); pose proof (zlen_nonneg (stream (default [] (cs !! id)))); lia|rewrite Hz; apply Hb|]. rstep.
    assert (stream (c ++ [(msg, data)]) = stream c ++ data) as Est by (unfold stream; rewrite fmap_app, concat_app; cbn; by rewrite app_nil_r).
    destruct (owned_update p bufs cs F N id p' sb' F' l' (c ++ [(msg, data)]) Hi) as [N' Hi'].
    { exists (ms ++ [(msg, data)]). split; [done|]. rewrite Est, zlen_app, Hs, Hz. split; [|done]. rewrite Ec, Ho.
      destruct ms as [|[a d] ms]; [|done]. cbn. destruct Hr as [_ _ _ _ _ _ _ _ _ R10 _]. by rewrite R10. }
    { done. }
    rewrite Hz. eexists p', _, F', N'. split; [done|]. split; [done|]. apply Hgrow; [apply zlen_nonneg|]. rewrite Est, zlen_app. fold c. lia.
  - unfold lpopbuffer. rewrite s32_small by (unfold INT_MAX in *; lia). cbn zeta. rewrite Hz. destruct ((zlen (stream c) <? n) || (n =? 0)) eqn:E.
    + rstep. destruct (owned_update p bufs cs F N id p sb F (N id) c Hi Hbuf) as [N' Hi']; [by apply keeps_frame|].
      eexists p, _, F, N'. split; [done|]. split; [done|]. apply Hgrow; [lia|]. fold c. lia.
    + apply orb_false_iff in E as [E1 E2]. apply Z.ltb_ge in E1. apply Z.eqb_neq in E2.
      destruct (pop_buffer p sb F (N id) c n 0 Hbuf) as (sb' & p' & F' & l' & -> & Hr' & Hs & Hk); [lia|intros ->; change (zlen (stream [])) with 0 in E1; lia|done|]. rstep.
      destruct (owned_update p bufs cs F N id p' _ F' l' _ Hi Hr' Hk) as [N' Hi']. eexists p', _, F', N'. rewrite Z.sub_0_r. cbn [sb_size add_size]. rewrite Hs, Hz.
      split; [by rewrite Z.add_opp_r|]. split; [done|]. apply Hgrow; [lia|]. rewrite consume_total by (first [rewrite Ec; by eapply remaining_nonempty|lia]). fold c. lia.
  - unfold lreadall. destruct (readall_loop_ok (node_fuel p) p sb F (N id) ms Hr) as (sb' & p' & F' & -> & Hr' & Hk); [by eapply rep_fuel|]. rstep.
    destruct (owned_update p bufs cs F N id p' (set_size 0 sb') F' [] [] Hi) as [N' Hi']; [exists []; split; [by destruct Hr'|done]|by apply keeps_frame|].
    eexists p', _, F', N'. rewrite Ec, remaining_fst. split; [done|]. split; [done|]. apply Hgrow; [lia|]. change (zlen (stream [])) with 0. pose proof (zlen_nonneg (stream (default [] (cs !! id)))). lia.
  - unfold lclearbuffer. destruct (clear_loop_ok (node_fuel p) p sb F (N id) ms Hr) as (sb' & p' & F' & -> & Hr' & Hk); [by eapply rep_fuel|]. rstep.
    destruct (owned_update p bufs cs F N id p' (set_size 0 sb') F' [] [] Hi) as [N' Hi']; [exists []; split; [by destruct Hr'|done]|by apply keeps_frame|].
    eexists p', _, F', N'. rewrite Ec, remaining_fst. split; [done|]. split; [done|]. apply Hgrow; [lia|]. change (zlen (stream [])) with 0. pose proof (zlen_nonneg (stream (default [] (cs !! id)))). lia.
  - assert (Hsame : exists N', inv p (<[id := sb]> bufs) (<[id := c]> cs) F N') by (apply (owned_update p bufs cs F N id p sb F (N id) c Hi Hbuf); by apply keeps_frame).
    assert (Hsep : match sb_head sb with
      | None => stream c = []
      | Some a => exists n, pl_nodes p !! a = Some n /\
          sep_loop (Z.to_nat (sb_size sb - zlen sep + 1)) p a (sb_offset sb) (bn_sz n - sb_offset sb) 0 sep = Ok (Z.of_nat <$> find_sep sep (stream c))
      end).
    { destruct (rep_suffix _ _ _ _ _ Hr) as [Hsuf Eh]. rewrite Eh. pose proof Hr as [_ _ _ _ _ _ R7 _ R9 R10 _]. destruct (N id) as [|a l], ms as [|m ms]; try by inversion R7.
      { by rewrite Ec. }
      cbn [head]. destruct (suffix_next _ _ _ _ _ Hsuf) as (n & Hn & _ & Hnz & _). exists n. split; [done|]. rewrite Hnz, Hz, Ec.
      rewrite (sep_loop_ok _ p a l m ms) by (done || lia). by destruct (find_sep _ _). }
    unfold lreadline. destruct (sb_head sb) as [a|].
    2:{ rewrite Hsep. cbn [find_sep]. rstep. destruct Hsame as [N' Hi']. eexists p, _, F, N'. split; [done|]. split; [done|]. apply Hgrow; [lia|]. fold c. lia. }
    destruct Hsep as (n & -> & Eloop). cbn [deref]. rstep. rewrite (proj2 (Z.leb_le (zlen sep) INT_MAX) Hok). cbn [assert_]. rstep. rewrite Eloop. rstep. destruct (find_sep sep (stream c)) as [i|] eqn:Ef; cbn [fmap option_fmap option_map].
    2:{ destruct Hsame as [N' Hi']. eexists p, _, F, N'. split; [done|]. split; [done|]. apply Hgrow; [lia|]. fold c. lia. }
    destruct check; [destruct Hsame as [N' Hi']; eexists p, _, F, N'; split; [done|]; split; [done|]; apply Hgrow; [lia|]; fold c; lia|].
    pose proof (find_sep_bound _ _ _ Ef) as Hbound. pose proof (zlen_nonneg sep).
    destruct (pop_buffer p sb F (N id) c (Z.of_nat i + zlen sep) (zlen sep) Hbuf) as (sb' & p' & F' & l' & -> & Hr' & Hs & Hk); [lia|by intros ->|done|]. rstep.
    destruct (owned_update p bufs cs F N id p' _ F' l' _ Hi Hr' Hk) as [N' Hi']. eexists p', _, F', N'.
    replace (Z.of_nat i + zlen sep - zlen sep) with (Z.of_nat i) by lia. rewrite Nat2Z.id. split; [done|]. split; [done|]. apply Hgrow; [lia|]. rewrite consume_total by (first [rewrite Ec; by eapply remaining_nonempty|lia]). fold c. lia.
Qed.

Lemma op_bytes_nonneg o : 0 <= op_bytes o.
Proof. destruct o; cbn [op_bytes]; try lia. apply zlen_nonneg. Qed.

Lemma total_nonneg ops : 0 <= total ops.
Proof. induction ops as [|o ops IH]; cbn; [lia|]. fold (total ops). pose proof (op_bytes_nonneg o). lia. Qed.

Lemma run_refines ops : forall p bufs cs F N, inv p bufs cs F N -> Forall op_ok ops -> (forall id, zlen (stream (default [] (cs !! id))) + total ops <= INT_MAX) ->
  run ops p bufs = Ok (spec ops cs).
Proof.
  induction ops as [|o ops IH]; intros p bufs cs F N Hi Hok Hb; cbn [run spec]; [done|]. inversion_clear Hok as [|? ? Ho Hops].
  pose proof (total_nonneg ops). pose proof (op_bytes_nonneg o).
  cbn [total foldr] in Hb. fold (total ops) in Hb. pose proof (step_refines o p bufs cs F N Hi Ho) as Hstep.
  destruct (spec_op o cs) as [[v f] cs']. destruct Hstep as (p' & bufs' & F' & N' & -> & Hi' & Hb'); [intros id; specialize (Hb id); lia|]. rstep.
  rewrite (IH p' bufs' cs' F' N') by (first [done|intros id; specialize (Hb id); specialize (Hb' id); lia]). done.
Qed.

Lemma inv_init : inv new_pool ∅ ∅ [] (fun _ => []).
Proof.
  constructor; [|intros id id' _ x Hx; inversion Hx]. intros id. rewrite !lookup_empty. exists []. split; [|done]. constructor; try done. constructor.
Qed.

(** C30. The receive buffers of a Lua service are byte streams: for any
    sequence of pushes, pops, reads of lines and of everything and clears on any
    number of connections that share the pool of nodes (blocks that are not
    empty, up to 2^31 - 1 bytes, sizes and separators within an [int] and not
    negative, see [op_ok] and [negative_pop_faults]), every operation returns what it would on the connection's bytes as one
    list, wherever blocks and the separator are cut, without touching freed
    memory or another connection; a block is freed exactly when its last byte
    was taken. *)
Theorem buffers_refine_streams (ops : list op) (Hok : Forall op_ok ops) (Hsize : total ops <= INT_MAX) :
  run ops new_pool ∅ = Ok (spec ops ∅).
Proof.
  apply (run_refines ops new_pool ∅ ∅ [] (fun _ => [])); [apply inv_init|done|]. intros id. rewrite lookup_empty. exact Hsize.
Qed.

Definition sample_ops : list op :=
  [Push 1 100 (of_string "GET /"); Push 2 200 (of_string "x"); Push 1 300 (of_string " A\r"); ReadLine 1 false [13; 10];
   Push 1 400 (13 :: 10 :: of_string "body"); ReadLine 1 true [13; 10]; ReadLine 1 false [13; 10]; Pop 1 2; ReadAll 1; Pop 2 3; Clear 2].

Lemma buffers_refine_streams_witness : run sample_ops new_pool ∅ = Ok (spec sample_ops ∅).
Proof. apply buffers_refine_streams; [|vm_compute; discriminate].
  repeat (constructor; [first [discriminate|exact I|vm_compute; intuition discriminate]|]). constructor.
Defined.

(** A size of 2^31 is negative as an [int] and taken from the buffer all the same. *)
Lemma negative_pop_faults : run [Push 1 100 [65]; Pop 1 (2 ^ 31)] new_pool ∅ = Fault /\ run [Pop 1 (-1)] new_pool ∅ = Fault.
Proof. by vm_compute. Qed.
