(* ===== verification/SprotoPack.v ===== *)
(** * The 0-packing of sproto (lualib-src/sproto/sproto.c)

    [sproto_pack] removes the zero bytes of a message: 8 bytes become a bitmap
    and the non-zero ones, and runs of segments with few zeros are copied behind
    an 0xff byte and their number. Both functions also measure: they return the
    size needed when the buffer is too small, and write only inside it. A
    buffer is a list of [bufsz] bytes and pointers are positions in it. *)
From S2P Require Import Prelude.

(** ** Packing *)

(** The loop of [pack_seg] over the bytes of [src] from number [i]: header,
    number of non-zero bytes, buffer. *)
Fixpoint seg_loop (k : nat) (i : Z) (src buffer : list Z) (pos sz header notzero : Z) : result (Z * Z * list Z) :=
  match k with
  | O => Ok (header, notzero, buffer)
  | S k =>
      b ← zget src i;
      if negb (b =? 0) then
        let header := Z.lor header (Z.shiftl 1 i) in
        if 0 <? sz then
          buffer ← zset buffer pos b;
          seg_loop k (i + 1) src buffer (pos + 1) (sz - 1) header (notzero + 1)
        else seg_loop k (i + 1) src buffer pos sz header (notzero + 1)
      else seg_loop k (i + 1) src buffer pos sz header notzero
  end.

Definition pack_seg (src buffer : list Z) (pos sz n : Z) : result (Z * list Z) :=
  '(header, notzero, buffer) ← seg_loop 8 0 src buffer (pos + 1) (sz - 1) 0 0;
  let notzero := if ((notzero =? 7) || (notzero =? 6)) && (0 <? n) then 8 else notzero in
  if notzero =? 8 then Ok (if 0 <? n then 8 else 10, buffer)
  else
    buffer ← (if 0 <=? sz - 1 then zset buffer pos header else Ok buffer);
    Ok (notzero + 1, buffer).

(** The [n] bytes of [srcv] at [src] are written at [des]. *)
Definition write_ff (srcv : list Z) (src : Z) (buffer : list Z) (des n : Z) : result (list Z) :=
  let align8_n := Z.land (n + 7) (Z.lnot 7) in
  buffer ← zset buffer des 0xff;
  buffer ← zset buffer (des + 1) (u8 (align8_n / 8 - 1));
  data ← slice srcv src n;
  buffer ← blit buffer (des + 2) data;
  blit buffer (des + 2 + n) (replicate (Z.to_nat (align8_n - n)) 0).

(** The locals of [sproto_pack]; [pk_src] and [pk_des] are [ff_srcstart] and
    [ff_desstart] as positions. The segment a run starts with has no zero byte,
    so it is never the padded copy [tmp]. *)
Record packer : Set := Packer {
  pk_buffer : list Z;
  pk_pos : Z;
  pk_bufsz : Z;
  pk_size : Z;
  pk_src : Z;
  pk_des : Z;
  pk_n : Z
}.

Definition set_buffer (b : list Z) (p : packer) : packer := Packer b (pk_pos p) (pk_bufsz p) (pk_size p) (pk_src p) (pk_des p) (pk_n p).
Definition set_run (src des n : Z) (p : packer) : packer := Packer (pk_buffer p) (pk_pos p) (pk_bufsz p) (pk_size p) src des n.

(** The segment at [i], padded with zeros in [tmp]. *)
Definition segment (srcv : list Z) (i : Z) : result (list Z) :=
  let padding := i + 8 - zlen srcv in
  if 0 <? padding then s ← slice srcv i (8 - padding); Ok (s ++ replicate (Z.to_nat padding) 0)
  else slice srcv i 8.

Definition flush_run (srcv : list Z) (n : Z) (p : packer) : result packer :=
  if 0 <=? pk_bufsz p then b ← write_ff srcv (pk_src p) (pk_buffer p) (pk_des p) n; Ok (set_buffer b p) else Ok p.

Definition pack_step (srcv : list Z) (i : Z) (p : packer) : result packer :=
  seg ← segment srcv i;
  '(n, buffer) ← pack_seg seg (pk_buffer p) (pk_pos p) (pk_bufsz p) (pk_n p);
  let p := Packer buffer (pk_pos p) (pk_bufsz p - n) (pk_size p) (pk_src p) (pk_des p) (pk_n p) in
  p ← (if n =? 10 then Ok (set_run i (pk_pos p) 1 p)
       else if (n =? 8) && (0 <? pk_n p) then
         let p := set_run (pk_src p) (pk_des p) (pk_n p + 1) p in
         if pk_n p =? 256 then p ← flush_run srcv (256 * 8) p; Ok (set_run (pk_src p) (pk_des p) 0 p) else Ok p
       else if 0 <? pk_n p then
         p ← flush_run srcv (pk_n p * 8) p; Ok (set_run (pk_src p) (pk_des p) 0 p)
       else Ok p);
  Ok (Packer (pk_buffer p) (pk_pos p + n) (pk_bufsz p) (pk_size p + n) (pk_src p) (pk_des p) (pk_n p)).

(** [for (i=0;i<srcsz;i+=8)] with [k] segments left. *)
Fixpoint pack_loop (k : nat) (srcv : list Z) (i : Z) (p : packer) : result packer :=
  match k with
  | O => Ok p
  | S k => p ← pack_step srcv i p; pack_loop k srcv (i + 8) p
  end.

Definition segments (srcsz : Z) : nat := Z.to_nat ((srcsz + 7) / 8).

(** The size needed, and the buffer. *)
Definition sproto_pack (srcv buffer : list Z) : result (Z * list Z) :=
  p ← pack_loop (segments (zlen srcv)) srcv 0 (Packer buffer 0 (zlen buffer) 0 0 0 0);
  p ← (if 0 <=? pk_bufsz p then
         if pk_n p =? 1 then b ← write_ff srcv (pk_src p) (pk_buffer p) (pk_des p) 8; Ok (set_buffer b p)
         else if 1 <? pk_n p then b ← write_ff srcv (pk_src p) (pk_buffer p) (pk_des p) (zlen srcv - pk_src p); Ok (set_buffer b p)
         else Ok p
       else Ok p);
  Ok (pk_size p, pk_buffer p).

(** ** Unpacking *)

(** The bits of [header] from number [i]: [None] when the function returns -1,
    else position and size of the source, and the buffer. *)
Fixpoint bits_loop (k : nat) (i header : Z) (srcv : list Z) (src srcsz : Z) (buffer : list Z) (pos bufsz : Z) :
    result (option (Z * Z * list Z * Z * Z)) :=
  match k with
  | O => Ok (Some (src, srcsz, buffer, pos, bufsz))
  | S k =>
      let nz := Z.land (Z.shiftr header i) 1 in
      if negb (nz =? 0) then
        if srcsz <? 0 then Ok None
        else
          b ← (if 0 <? bufsz then b ← zget srcv src; Ok (Some b) else Ok None);
          match b with
          | Some b =>
              buffer ← zset buffer pos b;
              bits_loop k (i + 1) header srcv (src + 1) (srcsz - 1) buffer (pos + 1) (bufsz - 1)
          | None => bits_loop k (i + 1) header srcv (src + 1) (srcsz - 1) buffer pos bufsz
          end
      else if 0 <? bufsz then
        buffer ← zset buffer pos 0;
        bits_loop k (i + 1) header srcv src srcsz buffer (pos + 1) (bufsz - 1)
      else bits_loop k (i + 1) header srcv src srcsz buffer pos bufsz
  end.

(** -1 for a bad source. Every round reads a byte. *)
Fixpoint unpack_loop (fuel : nat) (srcv : list Z) (src srcsz : Z) (buffer : list Z) (pos bufsz size : Z) : result (Z * list Z) :=
  match fuel with
  | O => Fault
  | S fuel =>
      if 0 <? srcsz then
        header ← zget srcv src;
        let srcsz := srcsz - 1 in
        let src := src + 1 in
        if header =? 0xff then
          if srcsz <? 0 then Ok (-1, buffer)
          else
            c ← zget srcv src;
            let n := (c + 1) * 8 in
            if srcsz <? n + 1 then Ok (-1, buffer)
            else
              let srcsz := srcsz - (n + 1) in
              let src := src + 1 in
              buffer ← (if n <=? bufsz then d ← slice srcv src n; blit buffer pos d else Ok buffer);
              unpack_loop fuel srcv (src + n) srcsz buffer (pos + n) (bufsz - n) (size + n)
        else
          r ← bits_loop 8 0 header srcv src srcsz buffer pos bufsz;
          match r with
          | None => Ok (-1, buffer)
          | Some (src, srcsz, buffer, pos, bufsz) => unpack_loop fuel srcv src srcsz buffer pos bufsz (size + 8)
          end
      else Ok (size, buffer)
  end.

Definition sproto_unpack (srcv buffer : list Z) : result (Z * list Z) :=
  unpack_loop (S (length srcv)) srcv 0 (zlen srcv) buffer 0 (zlen buffer) 0.

(** ** The Lua functions (lsproto.c)

    [lpack] and [lunpack] are closures with a buffer, of 2050 bytes at first,
    that they replace when it is too small. *)
Definition ENCODE_BUFFERSIZE : Z := 2050.

Definition ENCODE_MAXSIZE : Z := 0x1000000.

(** [do osz *= 2; while (osz < nsz)] *)
Fixpoint grow (fuel : nat) (osz nsz : Z) : result Z :=
  match fuel with
  | O => Fault
  | S fuel =>
      _ ← assert_ (osz * 2 <=? INT_MAX);
      if osz * 2 <? nsz then grow fuel (osz * 2) nsz else Ok (osz * 2)
  end.

Section lsproto.
(** A new block of memory with whatever is in it. *)
Context (lua_newuserdata : Z -> list Z).

Definition expand_buffer (osz nsz : Z) : result (list Z) :=
  osz ← grow 32 osz nsz;
  if ENCODE_MAXSIZE <? osz then LuaError "object is too large" else Ok (lua_newuserdata osz).

(** Room for the longest packing of [sz] bytes. *)
Definition maxsz (sz : Z) : Z := (sz + 2047) / 2048 * 2 + sz + 2.

(** The string returned and the closure's buffer. [sproto_pack] is told of
    [maxsz] bytes of it. *)
Definition lpack (src output : list Z) : result (list Z * list Z) :=
  let maxsz := maxsz (zlen src) in
  let osz := zlen output in
  output ← (if osz <? maxsz then expand_buffer osz (s32 maxsz) else Ok output);
  room ← slice output 0 maxsz;
  '(n, room) ← sproto_pack src room;
  let output := room ++ drop (Z.to_nat maxsz) output in
  if maxsz <? n then LuaError "packing error, return size = "
  else s ← slice output 0 n; Ok (s, output).

Definition lunpack (src output : list Z) : result (list Z * list Z) :=
  let osz := zlen output in
  '(r, output) ← sproto_unpack src output;
  if r <? 0 then LuaError "Invalid unpack stream"
  else if osz <? r then
    output ← expand_buffer osz r;
    room ← slice output 0 r;
    '(r', room) ← sproto_unpack src room;
    let output := room ++ drop (Z.to_nat r) output in
    if r' <? 0 then LuaError "Invalid unpack stream" else s ← slice output 0 r'; Ok (s, output)
  else s ← slice output 0 r; Ok (s, output).

End lsproto.

(** ** Specification *)

(** What a packed message consists of: segments copied as they are, or a
    segment with its zeros left out. *)
Inductive item : Set :=
| Raw (d : list Z)
| Sparse (s : list Z).

Definition nonzero (s : list Z) : list Z := filter (fun b => b <> 0) s.

(** The bitmap of the non-zero bytes, lowest bit first. *)
Fixpoint bitmap (s : list Z) : Z :=
  match s with
  | [] => 0
  | b :: s => (if b =? 0 then 0 else 1) + 2 * bitmap s
  end.

Definition item_bytes (it : item) : list Z :=
  match it with
  | Raw d => 0xff :: (zlen d / 8 - 1) :: d
  | Sparse s => bitmap s :: nonzero s
  end.

Definition item_data (it : item) : list Z := match it with Raw d => d | Sparse s => s end.

(** The items of the segments [segs] when the segments [run] wait to be copied. *)
Fixpoint items (run : list Z) (segs : list (list Z)) : list item :=
  match segs with
  | [] => if zlen run =? 0 then [] else [Raw run]
  | s :: segs =>
      if zlen run =? 0 then
        if zlen (nonzero s) =? 8 then items s segs else Sparse s :: items [] segs
      else if 6 <=? zlen (nonzero s) then
        let run := run ++ s in
        if zlen run =? 2048 then Raw run :: items [] segs else items run segs
      else Raw run :: Sparse s :: items [] segs
  end.

Definition packed (its : list item) : list Z := concat (item_bytes <$> its).

Fixpoint chop (k : nat) (s : list Z) : list (list Z) :=
  match k with
  | O => []
  | S k => take 8 s :: chop k (drop 8 s)
  end.

(** A message padded to whole segments. *)
Definition padded (s : list Z) : list Z := s ++ replicate (Z.to_nat (8 * Z.of_nat (segments (zlen s)) - zlen s)) 0.

Definition pack_spec (s : list Z) : list Z := packed (items [] (chop (segments (zlen s)) (padded s))).
