(* ===== verification/SprotoPackProps.v ===== *)
(** * Packing is lossless

    [sproto_pack] writes its specification and never outside the buffer, and
    [sproto_unpack] restores the message, padded with zeros to whole segments. *)
From S2P Require Import Prelude SprotoPack.

(** ** Segments *)

Lemma take_add {A} (l : list A) p m : 0 <= p -> 0 <= m -> take (Z.to_nat (p + m)) l = take (Z.to_nat p) l ++ take (Z.to_nat m) (drop (Z.to_nat p) l).
Proof. intros. rewrite take_take_drop. f_equal. lia. Qed.

(** Equal up to position [n]. *)
Definition agree (n : Z) (b b' : list Z) : Prop := zlen b' = zlen b /\ take (Z.to_nat n) b' = take (Z.to_nat n) b.

Lemma agree_upto_refl n b : agree n b b.
Proof. done. Qed.

Lemma agree_le n m b b' : agree n b b' -> m <= n -> agree m b b'.
Proof.
  intros [H1 H2] Hm. split; [done|]. apply (f_equal (take (Z.to_nat m))) in H2. rewrite !take_take in H2. by rewrite !Nat.min_l in H2 by lia.
Qed.

Lemma agree_trans n b1 b2 b3 : agree n b1 b2 -> agree n b2 b3 -> agree n b1 b3.
Proof. intros [A1 A2] [B1 B2]. split; congruence. Qed.

Lemma zset_agree b i x : 0 <= i < zlen b -> exists b', zset b i x = Ok b' /\ agree i b b' /\ take (Z.to_nat (i + 1)) b' = take (Z.to_nat i) b ++ [x] /\
  drop (Z.to_nat (i + 1)) b' = drop (Z.to_nat (i + 1)) b.
Proof.
  intros Hi. rewrite zset_Ok by done. eexists. split; [done|]. split; [split|split].
  - unfold zlen. by rewrite length_insert.
  - by rewrite take_insert_ge by lia.
  - replace (Z.to_nat (i + 1)) with (S (Z.to_nat i)) by lia. rewrite (take_S_r _ _ x); [by rewrite take_insert_ge by lia|]. apply list_lookup_insert_eq. unfold zlen in Hi. lia.
  - by rewrite drop_insert_lt by lia.
Qed.

Lemma bitmap_range s : 0 <= bitmap s < 2 ^ zlen s.
Proof.
  induction s as [|b s IH]; cbn [bitmap]; [done|]. assert (zlen (b :: s) = Z.succ (zlen s)) as -> by (unfold zlen; cbn [length]; lia).
  rewrite Z.pow_succ_r by apply zlen_nonneg. destruct (b =? 0); lia.
Qed.

Lemma nonzero_cons b s : nonzero (b :: s) = if b =? 0 then nonzero s else b :: nonzero s.
Proof. unfold nonzero. rewrite filter_cons. destruct (Z.eqb_spec b 0), (decide (b <> 0)); try lia; done. Qed.

Lemma nonzero_le s : zlen (nonzero s) <= zlen s.
Proof. unfold nonzero, zlen. pose proof (length_filter (fun b : Z => b <> 0) s). lia. Qed.

Lemma seg_loop_ok s : forall pre b pos header notzero, 0 <= pos -> 0 <= header < 2 ^ zlen pre ->
  exists b', seg_loop (length s) (zlen pre) (pre ++ s) b pos (zlen b - pos) header notzero =
      Ok (header + 2 ^ zlen pre * bitmap s, notzero + zlen (nonzero s), b') /\
    agree pos b b' /\ (pos + zlen (nonzero s) <= zlen b -> take (Z.to_nat (pos + zlen (nonzero s))) b' = take (Z.to_nat pos) b ++ nonzero s).
Proof.
  induction s as [|c s IH]; intros pre b pos header notzero Hpos Hh; cbn [seg_loop length bitmap].
  { exists b. change (zlen (nonzero [])) with 0. rewrite Z.mul_0_r, !Z.add_0_r. split; [done|]. split; [done|]. intros _. by rewrite app_nil_r. }
  assert (zget (pre ++ c :: s) (zlen pre) = Ok c) as -> by (rewrite <- (Z.add_0_r (zlen pre)), zget_app_r by done; done). rstep.
  rewrite nonzero_cons. assert (zlen (pre ++ [c]) = zlen pre + 1) as Ez by by rewrite zlen_app. pose proof (zlen_nonneg pre).
  assert (2 ^ zlen (pre ++ [c]) = 2 * 2 ^ zlen pre) as Ep by (rewrite Ez, Z.add_1_r; apply Z.pow_succ_r; lia).
  replace (pre ++ c :: s) with ((pre ++ [c]) ++ s) by (by rewrite <- app_assoc). rewrite <- Ez. destruct (Z.eqb_spec c 0) as [->|Hc]; cbn [negb].
  - destruct (IH (pre ++ [0]) b pos header notzero) as (b' & -> & Ha & Ht); [done|rewrite Ep; lia|]. exists b'. split; [|by split].
    rewrite Ep. f_equal. f_equal. f_equal; lia.
  - rewrite lor_shiftl_add, Z.mul_1_l by lia. assert (zlen (c :: nonzero s) = zlen (nonzero s) + 1) as Ec by (unfold zlen; cbn [length]; lia). rewrite Ec.
    destruct (Z.ltb_spec 0 (zlen b - pos)) as [Hlt|Hge].
    + destruct (zset_agree b pos c) as (b1 & -> & Ha1 & Ht1 & _); [lia|]. rstep. replace (zlen b - pos - 1) with (zlen b1 - (pos + 1)) by (destruct Ha1; lia).
      destruct (IH (pre ++ [c]) b1 (pos + 1) (header + 2 ^ zlen pre) (notzero + 1)) as (b' & -> & Ha & Ht); [lia|rewrite Ep; lia|]. exists b'. split; [|split].
      * rewrite Ep. f_equal. f_equal. f_equal; lia.
      * eapply agree_trans; [exact Ha1|]. eapply agree_le; [exact Ha|lia].
      * intros Hl. replace (pos + (zlen (nonzero s) + 1)) with (pos + 1 + zlen (nonzero s)) by lia. rewrite Ht by (destruct Ha1; lia). rewrite Ht1. by rewrite <- app_assoc.
    + destruct (IH (pre ++ [c]) b pos (header + 2 ^ zlen pre) (notzero + 1)) as (b' & -> & Ha & Ht); [lia|rewrite Ep; lia|]. exists b'. split; [|split; [done|]].
      * rewrite Ep. f_equal. f_equal. f_equal; lia.
      * pose proof (zlen_nonneg (nonzero s)). lia.
Qed.

(** A segment that joins a run, or starts one. *)
Definition joins (s : list Z) (n : Z) : bool := if 0 <? n then 6 <=? zlen (nonzero s) else zlen (nonzero s) =? 8.

Lemma pack_seg_ok s b pos n : length s = 8%nat -> 0 <= pos ->
  exists b', agree pos b b' /\
    if joins s n then pack_seg s b pos (zlen b - pos) n = Ok (if 0 <? n then 8 else 10, b')
    else pack_seg s b pos (zlen b - pos) n = Ok (zlen (item_bytes (Sparse s)), b') /\
      (pos + zlen (item_bytes (Sparse s)) <= zlen b -> take (Z.to_nat (pos + zlen (item_bytes (Sparse s)))) b' = take (Z.to_nat pos) b ++ item_bytes (Sparse s)).
Proof.
  intros Hs Hpos. unfold pack_seg. destruct (seg_loop_ok s [] b (pos + 1) 0 0) as (b1 & E & Ha & Ht); [lia|done|].
  cbn [app] in E. rewrite Hs in E. change (zlen []) with 0 in E. replace (zlen b - pos - 1) with (zlen b - (pos + 1)) by lia. rewrite E. rstep.
  rewrite !Z.add_0_l, Z.pow_0_r, Z.mul_1_l. pose proof (nonzero_le s) as Hm. pose proof (zlen_nonneg (nonzero s)) as Hm0. assert (zlen s = 8) as H8 by (unfold zlen; by rewrite Hs).
  set (m := zlen (nonzero s)) in *. assert (zlen (item_bytes (Sparse s)) = m + 1) as -> by (cbn [item_bytes]; unfold m, zlen; cbn [length]; lia).
  assert (agree pos b b1) as Ha' by (eapply agree_le; [exact Ha|lia]).
  assert (Hj : ((if ((m =? 7) || (m =? 6)) && (0 <? n) then 8 else m) =? 8) = joins s n).
  { unfold joins. fold m. destruct (Z.ltb_spec 0 n), (Z.eqb_spec m 7), (Z.eqb_spec m 6); cbn [andb orb]; zcases; done || lia. }
  rewrite Hj. destruct (joins s n) eqn:Ej; [exists b1; by split|].
  assert ((if ((m =? 7) || (m =? 6)) && (0 <? n) then 8 else m) = m) as ->.
  { destruct (((m =? 7) || (m =? 6)) && (0 <? n)); [|done]. by rewrite Z.eqb_refl in Hj. }
  destruct (Z.leb_spec 0 (zlen b - (pos + 1))) as [Hle|Hgt].
  - destruct Ha as [Hz Ha]. destruct (zset_agree b1 pos (bitmap s)) as (b2 & -> & Ha2 & Ht2 & Hd2); [lia|]. rstep. exists b2. split; [by eapply agree_trans|]. split; [done|].
    intros Hl. cbn [item_bytes]. specialize (Ht ltac:(lia)).
    replace (pos + (m + 1)) with (pos + 1 + m) by lia. rewrite take_add, Ht2, Hd2 by lia. destruct Ha' as [_ ->]. rewrite <- app_assoc. cbn [app]. do 2 f_equal.
    rewrite take_add, Ha in Ht by lia. by apply app_inv_head in Ht.
  - rstep. exists b1. split; [done|]. split; [done|]. lia.
Qed.

(** ** Runs *)

Lemma align8 n : Z.land (n + 7) (Z.lnot 7) = 8 * ((n + 7) / 8).
Proof.
  change (Z.land (n + 7) (Z.lnot 7)) with (Z.land (n + 7) (Z.lnot (Z.ones 3))). rewrite <- Z.ldiff_land, Z.ldiff_ones_r by lia.
  rewrite Z.shiftl_mul_pow2, Z.shiftr_div_pow2 by lia. change (2 ^ 3) with 8. lia.
Qed.

Lemma take_zlen_app {A} (l k : list A) n : n = zlen l -> take (Z.to_nat n) (l ++ k) = l.
Proof. intros ->. unfold zlen. rewrite Nat2Z.id. apply take_app_length. Qed.

Lemma drop_zlen_app {A} (l k : list A) n : n = zlen l -> drop (Z.to_nat n) (l ++ k) = k.
Proof. intros ->. unfold zlen. rewrite Nat2Z.id. apply drop_app_length. Qed.

Lemma zlen_take_le {A} (l : list A) n : 0 <= n <= zlen l -> zlen (take (Z.to_nat n) l) = n.
Proof. intros. unfold zlen in *. rewrite length_take. lia. Qed.

Lemma blit_eq b j d : 0 <= j -> j + zlen d <= zlen b -> blit b j d = Ok (take (Z.to_nat j) b ++ d ++ drop (Z.to_nat (j + zlen d)) b).
Proof. intros Hj Hl. unfold blit. destruct (Z.leb_spec (j + zlen d) (zlen b)); [|lia]. do 4 f_equal. unfold zlen. lia. Qed.

Lemma write_ff_ok srcv src b des n : 0 <= src -> src + n <= zlen srcv -> 0 < n <= 2048 -> 0 <= des ->
  let a := 8 * ((n + 7) / 8) in des + 2 + a <= zlen b ->
  write_ff srcv src b des n = Ok (take (Z.to_nat des) b ++ item_bytes (Raw (take (Z.to_nat n) (drop (Z.to_nat src) srcv) ++ replicate (Z.to_nat (a - n)) 0)) ++ drop (Z.to_nat (des + 2 + a)) b).
Proof.
  intros Hs Hn Hr Hd a Hl. unfold write_ff. rewrite align8. fold a. assert (n <= a <= 2048) as Ha by (unfold a; dlia).
  destruct (zset_agree b des 0xff) as (b1 & -> & [Hz1 _] & Ht1 & Hd1); [lia|]. rstep.
  destruct (zset_agree b1 (des + 1) (u8 (a / 8 - 1))) as (b2 & -> & [Hz2 _] & Ht2 & Hd2); [lia|]. rstep. rewrite slice_Ok by lia. rstep.
  set (data := take (Z.to_nat n) (drop (Z.to_nat src) srcv)).
  assert (zlen data = n) as Hzd by (apply zlen_take_le; unfold zlen in *; rewrite length_drop; lia).
  assert (Hpre : take (Z.to_nat (des + 2)) b2 = take (Z.to_nat des) b ++ [0xff; a / 8 - 1]).
  { replace (des + 2) with (des + 1 + 1) by lia. rewrite Ht2, Ht1, <- app_assoc. cbn [app]. do 3 f_equal. unfold u8. apply wrap_small. unfold a. dlia. }
  assert (Hpost : forall k, 0 <= k -> drop (Z.to_nat (des + 2 + k)) b2 = drop (Z.to_nat (des + 2 + k)) b).
  { intros k Hk. replace (Z.to_nat (des + 2 + k)) with (Z.to_nat (des + 1 + 1) + Z.to_nat k)%nat by lia. rewrite <- !drop_drop, Hd2, !drop_drop.
    replace (Z.to_nat (des + 1 + 1) + Z.to_nat k)%nat with (Z.to_nat (des + 1) + Z.to_nat (k + 1))%nat by lia. by rewrite <- !drop_drop, Hd1. }
  rewrite (blit_eq b2 (des + 2)) by lia. rstep. rewrite Hzd, Hpost, Hpre by lia. set (b3 := _ ++ data ++ _).
  assert (zlen (take (Z.to_nat des) b ++ [0xff; a / 8 - 1]) = des + 2) as Hzp by (rewrite zlen_app, zlen_take_le by lia; done).
  assert (zlen (replicate (Z.to_nat (a - n)) 0) = a - n) as Hzr by (unfold zlen; rewrite length_replicate; lia).
  assert (zlen b3 = zlen b) as Hz3. { unfold b3. rewrite !zlen_app, Hzd. rewrite zlen_app in Hzp. rewrite Hzp. unfold zlen at 1. rewrite length_drop. unfold zlen in *. lia. }
  rewrite blit_eq by lia. rewrite Hzr. f_equal. replace (des + 2 + n + (a - n)) with (des + 2 + a) by lia.
  assert (take (Z.to_nat (des + 2 + n)) b3 = (take (Z.to_nat des) b ++ [0xff; a / 8 - 1]) ++ data) as ->.
  { unfold b3. rewrite app_assoc. apply take_zlen_app. rewrite zlen_app. lia. }
  assert (drop (Z.to_nat (des + 2 + a)) b3 = drop (Z.to_nat (des + 2 + a)) b) as ->.
  { unfold b3. rewrite app_assoc. replace (Z.to_nat (des + 2 + a)) with (Z.to_nat (des + 2 + n) + Z.to_nat (a - n))%nat by lia.
    rewrite <- !drop_drop, drop_zlen_app; [done|]. rewrite zlen_app. lia. }
  cbn [item_bytes]. rewrite zlen_app, Hzr, Hzd. replace (n + (a - n)) with a by lia. rewrite <- !app_assoc. cbn [app]. by rewrite <- app_assoc.
Qed.

(** ** The padded message *)

Lemma zlen_padded s : zlen (padded s) = 8 * Z.of_nat (segments (zlen s)).
Proof.
  unfold padded. rewrite zlen_app. unfold zlen at 2. rewrite length_replicate. pose proof (zlen_nonneg s).
  unfold segments. dlia.
Qed.

Lemma segment_ok srcv i : 0 <= i < zlen srcv -> i mod 8 = 0 ->
  segment srcv i = Ok (take 8 (drop (Z.to_nat i) (padded srcv))) /\ i + 8 <= zlen (padded srcv).
Proof.
  intros Hi Hm. assert (i + 8 <= zlen (padded srcv)) as Hp by (rewrite zlen_padded; unfold segments; dlia). split; [|done]. unfold segment, padded.
  assert (Z.to_nat i <= length srcv)%nat as Hil by (unfold zlen in *; lia). rewrite drop_app_le by done. destruct (Z.ltb_spec 0 (i + 8 - zlen srcv)).
  - rewrite slice_Ok by lia. rstep. f_equal. rewrite (take_ge (drop _ _)) by (rewrite length_drop; unfold zlen in *; lia).
    rewrite take_ge; [|rewrite length_app, length_drop, length_replicate; unfold segments, zlen in *; dlia]. do 2 f_equal. unfold segments. dlia.
  - rewrite slice_Ok by lia. by rewrite take_app_le by (rewrite length_drop; unfold zlen in *; lia).
Qed.

Lemma chop_S k s : chop (S k) s = take 8 s :: chop k (drop 8 s).
Proof. done. Qed.

(** Full segments have no padding. *)
Lemma full_no_padding srcv i : 0 <= i < zlen srcv -> i mod 8 = 0 -> zlen (nonzero (take 8 (drop (Z.to_nat i) (padded srcv)))) = 8 -> i + 8 <= zlen srcv.
Proof.
  intros Hi Hm Hf. destruct (Z.le_gt_cases (i + 8) (zlen srcv)) as [|Hgt]; [done|]. exfalso.
  assert (Hin : 0 ∈ take 8 (drop (Z.to_nat i) (padded srcv))).
  { apply list_elem_of_lookup. exists 7%nat. rewrite lookup_take_lt, lookup_drop by lia. unfold padded. rewrite lookup_app_r by (unfold zlen in *; lia).
    apply lookup_replicate. split; [done|]. unfold segments, zlen in *. dlia. }
  assert (forall l : list Z, 0 ∈ l -> zlen (nonzero l) < zlen l) as Hlt.
  { induction l as [|b l IH]; intros Hl; [by apply not_elem_of_nil in Hl|]. rewrite nonzero_cons. apply elem_of_cons in Hl as [<-|Hl].
    - cbn. pose proof (nonzero_le l). unfold zlen in *. cbn [length]. lia.
    - specialize (IH Hl). destruct (b =? 0); unfold zlen in *; cbn [length]; lia. }
  apply Hlt in Hin. rewrite Hf in Hin. unfold zlen in Hin. rewrite length_take in Hin. lia.
Qed.

(** ** The loop *)

(** Before the segment at [i] the bytes [out] are final and the segments [run]
    wait to be copied behind them, in a buffer of [B] bytes. *)
Record packing (srcv : list Z) (B i : Z) (p : packer) (out run : list Z) : Prop := Packing {
  pg_n : zlen run = 8 * pk_n p;
  pg_range : 0 <= pk_n p < 256;
  pg_pos : pk_pos p = zlen out + (if pk_n p =? 0 then 0 else 2 + 8 * pk_n p);
  pg_size : pk_size p = pk_pos p;
  pg_bufsz : pk_bufsz p = B - pk_pos p;
  pg_buf : zlen (pk_buffer p) = B;
  pg_run : 0 < pk_n p -> pk_des p = zlen out /\ pk_src p = i - 8 * pk_n p /\ 0 <= pk_src p /\ pk_src p + 8 <= zlen srcv /\
    run = take (Z.to_nat (8 * pk_n p)) (drop (Z.to_nat (pk_src p)) (padded srcv));
  pg_out : zlen out <= B -> take (Z.to_nat (zlen out)) (pk_buffer p) = out
}.

Lemma take_padded srcv src n : 0 <= src -> 0 <= n -> src + n <= zlen srcv ->
  take (Z.to_nat n) (drop (Z.to_nat src) (padded srcv)) = take (Z.to_nat n) (drop (Z.to_nat src) srcv).
Proof. intros. unfold padded. rewrite drop_app_le by (unfold zlen in *; lia). rewrite take_app_le; [done|]. rewrite length_drop. unfold zlen in *. lia. Qed.

(** Copying a run of whole segments. *)
Lemma write_run srcv src b des n run : 0 <= src -> src + 8 * n <= zlen srcv -> 0 < n <= 256 -> 0 <= des -> des + 2 + 8 * n <= zlen b ->
  run = take (Z.to_nat (8 * n)) (drop (Z.to_nat src) (padded srcv)) ->
  write_ff srcv src b des (8 * n) = Ok (take (Z.to_nat des) b ++ item_bytes (Raw run) ++ drop (Z.to_nat (des + 2 + 8 * n)) b).
Proof.
  intros Hs Hl Hn Hd Hb ->. assert (8 * ((8 * n + 7) / 8) = 8 * n) as E by dlia.
  rewrite write_ff_ok by (rewrite ?E; lia). rewrite E, Z.sub_diag. change (replicate (Z.to_nat 0) 0) with (@nil Z). by rewrite app_nil_r, take_padded by lia.
Qed.

Lemma zlen_raw run : zlen (item_bytes (Raw run)) = 2 + zlen run.
Proof. unfold zlen. cbn [item_bytes length]. lia. Qed.

Lemma packed_cons it its : packed (it :: its) = item_bytes it ++ packed its.
Proof. done. Qed.

Lemma packed_one it : packed [it] = item_bytes it.
Proof. apply app_nil_r. Qed.

Lemma packed_app its jts : packed (its ++ jts) = packed its ++ packed jts.
Proof. unfold packed. by rewrite fmap_app, concat_app. Qed.

(** The last item is not a run of 256 segments. *)
Definition no_full_run (its : list item) : Prop := match last its with Some (Raw d) => zlen d <> 2048 | _ => True end.

Lemma no_full_run_app its jts : no_full_run (its ++ jts) -> no_full_run jts.
Proof. unfold no_full_run. rewrite last_app. by destruct (last jts). Qed.


(** One round of the loop, case by case. *)
Section step.
Context (srcv : list Z) (B i : Z) (p : packer) (out run b' : list Z).
Context (Hp : packing srcv B i p out run) (Hi : 0 <= i < zlen srcv) (Hm : i mod 8 = 0) (Hb : agree (pk_pos p) (pk_buffer p) b').
Let seg := take 8 (drop (Z.to_nat i) (padded srcv)).
Let pack := pack_seg seg (pk_buffer p) (pk_pos p) (pk_bufsz p) (pk_n p).
Let after := exists p' out' run', pack_step srcv i p = Ok p' /\ packing srcv B (i + 8) p' out' run' /\
  exists its, out' = out ++ packed its /\ forall segs, items run (seg :: segs) = its ++ items run' segs.

Lemma step_seg : segment srcv i = Ok seg /\ zlen seg = 8.
Proof using Hi Hm.
  destruct (segment_ok srcv i Hi Hm) as [E Hl]. split; [exact E|]. unfold seg, zlen in *. rewrite length_take, length_drop. lia.
Qed.

Lemma step_len : zlen b' = B /\ (zlen out <= B -> take (Z.to_nat (zlen out)) b' = out) /\ zlen out <= pk_pos p.
Proof using Hp Hb.
  destruct Hp as [P1 P2 P3 P4 P5 P6 P7 P8], Hb as [Hz Hb']. pose proof (zlen_nonneg out) as Ho.
  assert (zlen out <= pk_pos p) as Hle by (rewrite P3; destruct (Z.eqb_spec (pk_n p) 0); lia). split; [lia|]. split; [|done].
  intros H. rewrite <- (P8 H) at 2. apply (f_equal (take (Z.to_nat (zlen out)))) in Hb'. rewrite !take_take, !Nat.min_l in Hb' by lia. exact Hb'.
Qed.

(** A run starts. *)
Lemma step_start : pack = Ok (10, b') -> pk_n p = 0 -> zlen (nonzero seg) = 8 -> after.
Proof using Hp Hi Hm Hb.
  intros Hpack En Hf. destruct step_seg as [Eseg Hz], step_len as (Hzb & Hout & _). unfold after, pack_step. rewrite Eseg. rstep. fold pack. rewrite Hpack. rstep.
  cbn [Z.eqb Pos.eqb]. rstep. destruct Hp as [P1 P2 P3 P4 P5 P6 P7 P8]. rewrite En in *. cbn [Z.eqb] in P3.
  assert (run = []) as -> by (destruct run; [done|unfold zlen in P1; cbn in P1; lia]).
  eexists _, out, seg. split; [done|]. split.
  - constructor; cbn [pk_n pk_pos pk_size pk_bufsz pk_buffer set_run pk_des pk_src Z.eqb Pos.eqb]; try lia; try done.
    intros _. split; [lia|]. split; [lia|]. split; [lia|]. split; [by apply full_no_padding|done].
  - exists []. split; [by rewrite app_nil_r|]. intros segs. cbn [items]. change (zlen [] =? 0) with true. cbn iota. by rewrite Hf.
Qed.

(** A segment is packed on its own. *)
Lemma step_sparse : let m := zlen (item_bytes (Sparse seg)) in pack = Ok (m, b') ->
  (pk_pos p + m <= B -> take (Z.to_nat (pk_pos p + m)) b' = take (Z.to_nat (pk_pos p)) (pk_buffer p) ++ item_bytes (Sparse seg)) ->
  pk_n p = 0 -> zlen (nonzero seg) <> 8 -> after.
Proof using Hp Hi Hm Hb.
  intros m Hpack Hsp En Hf. destruct step_seg as [Eseg Hz], step_len as (Hzb & Hout & _). unfold after, pack_step. rewrite Eseg. rstep. fold pack. rewrite Hpack. rstep.
  assert (m = zlen (nonzero seg) + 1) as Em by (unfold m, zlen; cbn [item_bytes length]; lia). pose proof (nonzero_le seg). pose proof (zlen_nonneg (nonzero seg)).
  destruct Hp as [P1 P2 P3 P4 P5 P6 P7 P8]. destruct (Z.eqb_spec m 10); [lia|]. cbn [pk_n]. rewrite En in *. cbn [Z.eqb] in P3. rewrite andb_false_r. rstep.
  assert (run = []) as -> by (destruct run; [done|unfold zlen in P1; cbn in P1; lia]).
  eexists _, (out ++ item_bytes (Sparse seg)), []. split; [done|]. split.
  - constructor; cbn [pk_n pk_pos pk_size pk_bufsz pk_buffer Z.eqb]; rewrite ?zlen_app; fold m; try lia; try done.
    intros Hle. replace (zlen out + m) with (pk_pos p + m) by lia. rewrite Hsp by lia. rewrite P3, Z.add_0_r, P8 by lia. done.
  - exists [Sparse seg]. split; [by rewrite packed_one|]. intros segs. cbn [items]. change (zlen [] =? 0) with true. cbn iota. by destruct (Z.eqb_spec (zlen (nonzero seg)) 8).
Qed.

Context (Hn : 0 < pk_n p).

Lemma step_run : (zlen run =? 0) = false /\ (0 <? pk_n p) = true /\ pk_pos p = zlen out + 2 + 8 * pk_n p.
Proof using Hp Hn.
  destruct Hp as [P1 P2 P3 _ _ _ _ _]. split; [apply Z.eqb_neq; lia|]. split; [apply Z.ltb_lt; lia|]. destruct (Z.eqb_spec (pk_n p) 0); lia.
Qed.

Lemma step_joined : run ++ seg = take (Z.to_nat (8 * (pk_n p + 1))) (drop (Z.to_nat (pk_src p)) (padded srcv)) /\ zlen (run ++ seg) = 8 * (pk_n p + 1).
Proof using Hp Hi Hm Hn.
  destruct step_seg as [_ Hz]. destruct Hp as [P1 P2 _ _ _ _ P7 _]. destruct (P7 Hn) as (D1 & D2 & D3 & D4 & D5). split; [|rewrite zlen_app; lia].
  rewrite D5. replace (8 * (pk_n p + 1)) with (8 * pk_n p + 8) by lia. rewrite take_add, drop_drop by lia. f_equal. unfold seg. f_equal. f_equal. lia.
Qed.

(** A segment joins the run. *)
Lemma step_join : pack = Ok (8, b') -> 6 <= zlen (nonzero seg) -> pk_n p + 1 <> 256 -> after.
Proof using Hp Hi Hm Hb Hn.
  intros Hpack Hj E. destruct step_seg as [Eseg Hz], step_len as (Hzb & Hout & _), step_run as (Erun & En & Epos), step_joined as [Hj1 Hj2].
  unfold after, pack_step. rewrite Eseg. rstep. fold pack. rewrite Hpack. rstep. cbn [Z.eqb Pos.eqb andb pk_n]. rewrite En. cbn [pk_n set_run].
  destruct (Z.eqb_spec (pk_n p + 1) 256); [done|]. rstep. destruct Hp as [P1 P2 P3 P4 P5 P6 P7 P8]. destruct (P7 Hn) as (D1 & D2 & D3 & D4 & D5).
  eexists _, out, (run ++ seg). split; [done|]. split.
  - constructor; cbn [pk_n pk_pos pk_size pk_bufsz pk_buffer set_run pk_des pk_src]; try lia; try done; [destruct (Z.eqb_spec (pk_n p + 1) 0); lia|].
    intros _. split; [done|]. split; [lia|]. by split.
  - exists []. split; [by rewrite app_nil_r|]. intros segs. cbn [items]. rewrite Erun. destruct (Z.leb_spec 6 (zlen (nonzero seg))); [|lia]. destruct (Z.eqb_spec (zlen (run ++ seg)) 2048); [lia|done].
Qed.

(** The run [r] of [k] segments is written in its place. *)
Lemma step_flush k r bufsz : 0 < k <= 256 -> pk_src p + 8 * k <= zlen srcv -> r = take (Z.to_nat (8 * k)) (drop (Z.to_nat (pk_src p)) (padded srcv)) ->
  (0 <= bufsz -> zlen out + 2 + 8 * k <= B) -> forall pos size n,
  exists b2, flush_run srcv (8 * k) (Packer b' pos bufsz size (pk_src p) (pk_des p) n) = Ok (Packer b2 pos bufsz size (pk_src p) (pk_des p) n) /\
    zlen b2 = B /\ (0 <= bufsz -> b2 = out ++ item_bytes (Raw r) ++ drop (Z.to_nat (zlen out + 2 + 8 * k)) b').
Proof using Hp Hb Hn.
  intros Hk Hs Hr Hroom pos size n. destruct step_len as (Hzb & Hout & _). destruct Hp as [P1 P2 P3 P4 P5 P6 P7 P8]. destruct (P7 Hn) as (D1 & D2 & D3 & D4 & D5).
  pose proof (zlen_nonneg out). unfold flush_run. cbn [pk_bufsz pk_src pk_buffer pk_des]. destruct (Z.leb_spec 0 bufsz) as [H0|H0]; [|exists b'; split; [done|]; split; [done|lia]].
  specialize (Hroom H0). rewrite D1, (write_run srcv (pk_src p) b' (zlen out) k r) by (done || lia). rstep. rewrite Hout by lia.
  eexists. split; [done|]. split; [|done]. rewrite !zlen_app, zlen_raw.
  assert (zlen r = 8 * k) as Hzr by (rewrite Hr, take_padded by lia; apply zlen_take_le; unfold zlen in *; rewrite length_drop; lia).
  rewrite Hzr. unfold zlen in *. rewrite length_drop. lia.
Qed.

(** The run is as long as it may be. *)
Lemma step_full : pack = Ok (8, b') -> 6 <= zlen (nonzero seg) -> pk_n p + 1 = 256 -> i + 8 <= zlen srcv -> after.
Proof using Hp Hi Hm Hb Hn.
  intros Hpack Hj E Hl. destruct step_seg as [Eseg Hz], step_len as (Hzb & Hout & _), step_run as (Erun & En & Epos), step_joined as [Hj1 Hj2].
  unfold after, pack_step. rewrite Eseg. rstep. fold pack. rewrite Hpack. rstep. cbn [Z.eqb Pos.eqb andb pk_n]. rewrite En. cbn [pk_n set_run].
  rewrite E. cbn [Z.eqb Pos.eqb]. change (256 * 8) with (8 * 256). pose proof Hp as [P1 P2 P3 P4 P5 P6 P7 P8]. destruct (P7 Hn) as (D1 & D2 & D3 & D4 & D5). rewrite E in Hj1, Hj2.
  unfold set_run. cbn [pk_buffer pk_pos pk_bufsz pk_size pk_src pk_des].
  destruct (step_flush 256 (run ++ seg) (pk_bufsz p - 8)) with (pos := pk_pos p) (size := pk_size p) (n := 256) as (b2 & -> & Hz2 & Hb2); [lia|lia|done|lia|]. rstep.
  pose proof (zlen_raw (run ++ seg)) as Hraw. eexists _, (out ++ item_bytes (Raw (run ++ seg))), []. split; [done|]. split.
  - constructor; cbn [pk_n pk_pos pk_size pk_bufsz pk_buffer Z.eqb]; rewrite ?zlen_app; try lia; try done.
    intros Hle. rewrite Hb2 by lia. rewrite app_assoc, take_zlen_app by by rewrite zlen_app. done.
  - exists [Raw (run ++ seg)]. split; [by rewrite packed_one|]. intros segs. cbn [items]. rewrite Erun. destruct (Z.leb_spec 6 (zlen (nonzero seg))); [|lia]. by rewrite Hj2.
Qed.

(** A segment that does not join ends the run. *)
Lemma step_end : let m := zlen (item_bytes (Sparse seg)) in pack = Ok (m, b') ->
  (pk_pos p + m <= B -> take (Z.to_nat (pk_pos p + m)) b' = take (Z.to_nat (pk_pos p)) (pk_buffer p) ++ item_bytes (Sparse seg)) ->
  zlen (nonzero seg) < 6 -> after.
Proof using Hp Hi Hm Hb Hn.
  intros m Hpack Hsp Hj. destruct step_seg as [Eseg Hz], step_len as (Hzb & Hout & _), step_run as (Erun & En & Epos). unfold after, pack_step. rewrite Eseg. rstep.
  fold pack. rewrite Hpack. rstep. assert (m = zlen (nonzero seg) + 1) as Em by (unfold m, zlen; cbn [item_bytes length]; lia). pose proof (zlen_nonneg (nonzero seg)).
  destruct (Z.eqb_spec m 10); [lia|]. destruct (Z.eqb_spec m 8); [lia|]. cbn [andb pk_n]. rewrite En. rewrite (Z.mul_comm (pk_n p)).
  pose proof Hp as [P1 P2 P3 P4 P5 P6 P7 P8]. destruct (P7 Hn) as (D1 & D2 & D3 & D4 & D5).
  destruct (step_flush (pk_n p) run (pk_bufsz p - m)) with (pos := pk_pos p) (size := pk_size p) (n := pk_n p) as (b2 & -> & Hz2 & Hb2); [lia|lia|done|lia|]. rstep.
  pose proof (zlen_raw run) as Hraw. eexists _, (out ++ item_bytes (Raw run) ++ item_bytes (Sparse seg)), []. split; [done|]. split.
  - constructor; cbn [pk_n pk_pos pk_size pk_bufsz pk_buffer set_run Z.eqb]; rewrite ?zlen_app; fold m; try lia; try done.
    intros Hle. rewrite Hb2 by lia. specialize (Hsp ltac:(lia)). rewrite app_assoc. replace (zlen out + (zlen (item_bytes (Raw run)) + m)) with (zlen (out ++ item_bytes (Raw run)) + m) by (rewrite zlen_app; lia).
    rewrite take_add, take_zlen_app, drop_zlen_app by (done || apply zlen_nonneg || lia). rewrite <- app_assoc. do 2 f_equal.
    replace (zlen out + 2 + 8 * pk_n p) with (pk_pos p) by lia. destruct Hb as [_ Hb']. pose proof (zlen_nonneg out). rewrite take_add, Hb' in Hsp by lia. by apply app_inv_head in Hsp.
  - exists [Raw run; Sparse seg]. split; [by rewrite packed_cons, packed_one|]. intros segs. cbn [items]. rewrite Erun. by destruct (Z.leb_spec 6 (zlen (nonzero seg))); [lia|].
Qed.

End step.

Lemma pack_step_ok srcv B i p out run (seg := take 8 (drop (Z.to_nat i) (padded srcv))) :
  packing srcv B i p out run -> 0 <= i < zlen srcv -> i mod 8 = 0 -> i + 8 <= zlen srcv \/ no_full_run (items run [seg]) ->
  exists p' out' run', pack_step srcv i p = Ok p' /\ packing srcv B (i + 8) p' out' run' /\
    exists its, out' = out ++ packed its /\ forall segs, items run (seg :: segs) = its ++ items run' segs.
Proof.
  intros Hp Hi Hm Hpad. destruct (step_seg srcv i Hi Hm) as [_ Hz]. fold seg in Hz.
  pose proof Hp as [P1 P2 P3 P4 P5 P6 P7 P8]. pose proof (zlen_nonneg out).
  assert (0 <= pk_pos p) as Hpos by (rewrite P3; destruct (Z.eqb_spec (pk_n p) 0); lia).
  destruct (pack_seg_ok seg (pk_buffer p) (pk_pos p) (pk_n p)) as (b' & Ha & Hr); [unfold zlen in Hz; lia|done|]. rewrite P6, <- P5 in Hr. unfold joins in Hr.
  destruct (Z.ltb_spec 0 (pk_n p)) as [Hn|Hn].
  - destruct (Z.leb_spec 6 (zlen (nonzero seg))) as [Hj|Hj].
    + destruct (Z.eq_dec (pk_n p + 1) 256) as [E|E]; [|by eapply step_join].
      eapply step_full; try done. destruct Hpad as [|Hpad]; [done|]. exfalso. revert Hpad. destruct (step_joined srcv B i p out run Hp Hi Hm Hn) as [_ Hl]. fold seg in Hl.
      unfold no_full_run. cbn [items]. destruct (Z.eqb_spec (zlen run) 0); [lia|]. destruct (Z.leb_spec 6 (zlen (nonzero seg))); [|lia]. destruct (Z.eqb_spec (zlen (run ++ seg)) 2048); [|lia]. by intros [].
    + destruct Hr as [Hr1 Hr2]. by eapply step_end.
  - assert (pk_n p = 0) by lia. destruct (Z.eqb_spec (zlen (nonzero seg)) 8) as [Hf|Hf]; [by eapply step_start|]. destruct Hr as [Hr1 Hr2]. by eapply step_sparse.
Qed.

Lemma pack_loop_ok srcv B k : forall i p out run, packing srcv B i p out run -> 0 <= i -> i mod 8 = 0 -> i + 8 * Z.of_nat k = zlen (padded srcv) ->
  zlen srcv mod 8 = 0 \/ no_full_run (items run (chop k (drop (Z.to_nat i) (padded srcv)))) ->
  exists p' out' run', pack_loop k srcv i p = Ok p' /\ packing srcv B (zlen (padded srcv)) p' out' run' /\
    out ++ packed (items run (chop k (drop (Z.to_nat i) (padded srcv)))) = out' ++ packed (items run' []).
Proof.
  induction k as [|k IH]; intros i p out run Hp Hi Hm Hk Hpad; cbn [pack_loop].
  - exists p, out, run. replace (zlen (padded srcv)) with i by lia. done.
  - assert (i < zlen srcv) as Hlt by (rewrite zlen_padded in Hk; unfold segments in Hk; dlia). rewrite chop_S, drop_drop in Hpad |- *. replace (Z.to_nat i + 8)%nat with (Z.to_nat (i + 8)) in Hpad |- * by lia.
    destruct (pack_step_ok srcv B i p out run Hp ltac:(lia) Hm) as (p1 & out1 & run1 & -> & Hp1 & its & Eo & Ei).
    { destruct Hpad as [|Hpad]; [left; dlia|]. destruct k; [by right|left]. rewrite zlen_padded in Hk. unfold segments in Hk. dlia. }
    rstep. rewrite Ei in *. destruct (IH (i + 8) p1 out1 run1 Hp1) as (p2 & out2 & run2 & E2 & Hp2 & E3); [lia|dlia|lia|destruct Hpad as [|Hpad]; [by left|right; by eapply no_full_run_app]|].
    exists p2, out2, run2. split; [done|]. split; [done|]. by rewrite packed_app, app_assoc, <- Eo.
Qed.

(** When the 256th segment of a run is the last one and padded, [write_ff]
    copies its padding from behind the source (sproto.c:1255). *)
Definition inside (src : list Z) : Prop := zlen src mod 8 = 0 \/ no_full_run (items [] (chop (segments (zlen src)) (padded src))).

(** What [sproto_pack] does with any buffer. *)
Lemma pack_ok src buffer : inside src ->
  exists b, sproto_pack src buffer = Ok (zlen (pack_spec src), b) /\ zlen b = zlen buffer /\
    (zlen (pack_spec src) <= zlen buffer -> take (length (pack_spec src)) b = pack_spec src).
Proof.
  intros Hpad. unfold sproto_pack. set (B := zlen buffer).
  assert (packing src B 0 (Packer buffer 0 B 0 0 0 0) [] []) as H0 by (constructor; cbn; try done; lia).
  destruct (pack_loop_ok src B (segments (zlen src)) 0 _ [] [] H0) as (p & out & run & -> & Hp & E); [done|done|by rewrite zlen_padded|done|]. rstep.
  cbn [app Z.to_nat] in E. rewrite drop_0 in E. fold (pack_spec src) in E. destruct Hp as [P1 P2 P3 P4 P5 P6 P7 P8]. pose proof (zlen_nonneg out) as Ho.
  assert (zlen (pack_spec src) = pk_size p) as Esz.
  { rewrite E, P4, P3, zlen_app. cbn [items]. rewrite P1. destruct (Z.eqb_spec (pk_n p) 0) as [->|H]; [done|]. destruct (Z.eqb_spec (8 * pk_n p) 0); [lia|].
    rewrite packed_cons, zlen_app, zlen_raw. change (zlen (packed [])) with 0. lia. }
  destruct (Z.eq_dec (pk_n p) 0) as [En|En].
  - rewrite En. cbn [Z.eqb Z.ltb Z.compare]. assert ((if 0 <=? pk_bufsz p then Ok p else Ok p) = Ok p) as -> by by destruct (0 <=? pk_bufsz p). rstep.
    exists (pk_buffer p). rewrite Esz. split; [done|]. split; [done|]. cbn [items] in E. rewrite P1, En in E. cbn in E. rewrite app_nil_r in E. rewrite E.
    intros Hle. rewrite P4, P3, En in Hle. cbn [Z.eqb] in Hle. specialize (P8 ltac:(lia)). unfold zlen in P8. by rewrite Nat2Z.id in P8.
  - assert (0 < pk_n p) as Hn by lia. destruct (P7 Hn) as (D1 & D2 & D3 & D4 & D5). destruct (Z.eqb_spec (pk_n p) 0) as [|_]; [lia|].
    assert (items run [] = [Raw run]) as Eit by (cbn [items]; rewrite P1; destruct (Z.eqb_spec (8 * pk_n p) 0); [lia|done]).
    rewrite Eit, packed_cons in E. change (packed []) with (@nil Z) in E. rewrite app_nil_r in E.
    destruct (Z.leb_spec 0 (pk_bufsz p)) as [Hb|Hb].
    2:{ rstep. exists (pk_buffer p). rewrite Esz. split; [done|]. split; [done|]. lia. }
    set (n := if pk_n p =? 1 then 8 else zlen src - pk_src p).
    assert (8 * ((n + 7) / 8) = 8 * pk_n p /\ 0 < n <= 2048 /\ pk_src p + n <= zlen src) as (Ea & Hnr & Hns).
    { rewrite zlen_padded in D2. unfold segments in D2. unfold n. destruct (Z.eqb_spec (pk_n p) 1); dlia. }
    assert (take (Z.to_nat n) (drop (Z.to_nat (pk_src p)) src) ++ replicate (Z.to_nat (8 * pk_n p - n)) 0 = run) as Erun.
    { rewrite D5, <- Ea. rewrite zlen_padded in D2. pose proof (zlen_padded src) as Hzp. unfold n. destruct (Z.eqb_spec (pk_n p) 1) as [E1|E1].
      - change (8 * ((8 + 7) / 8)) with 8. by rewrite take_padded, app_nil_r by lia.
      - fold n. rewrite Ea, !take_ge by (rewrite length_drop; unfold zlen in *; lia). unfold padded. rewrite drop_app_le by (unfold zlen in *; lia). do 2 f_equal. lia. }
    assert (write_ff src (pk_src p) (pk_buffer p) (pk_des p) n = Ok (out ++ item_bytes (Raw run) ++ drop (Z.to_nat (zlen out + 2 + 8 * pk_n p)) (pk_buffer p))) as Eff.
    { rewrite D1, write_ff_ok by (rewrite ?Ea; lia). rewrite Ea, Erun, P8 by lia. done. }
    exists (out ++ item_bytes (Raw run) ++ drop (Z.to_nat (zlen out + 2 + 8 * pk_n p)) (pk_buffer p)).
    split; [|split].
    + rewrite Esz. unfold n in Eff. destruct (Z.eqb_spec (pk_n p) 1); [rewrite Eff; by rstep|]. assert (1 <? pk_n p = true) as -> by (apply Z.ltb_lt; lia). rewrite Eff. by rstep.
    + rewrite !zlen_app, zlen_raw, P1. unfold zlen at 2. rewrite length_drop. unfold zlen in *. lia.
    + intros _. rewrite app_assoc, <- E. apply take_app_length.
Qed.

(** ** What a packed message consists of *)

(** The items [sproto_pack] makes. *)
Definition proper (it : item) : Prop :=
  match it with
  | Raw d => exists k, 0 < k <= 256 /\ zlen d = 8 * k
  | Sparse s => length s = 8%nat /\ bitmap s <> 255
  end.

Lemma bitmap_full s : zlen (nonzero s) <> zlen s -> bitmap s <> 2 ^ zlen s - 1.
Proof.
  induction s as [|b s IH]; [done|]. rewrite nonzero_cons. cbn [bitmap]. assert (zlen (b :: s) = Z.succ (zlen s)) as -> by (unfold zlen; cbn [length]; lia).
  rewrite Z.pow_succ_r by apply zlen_nonneg. pose proof (bitmap_range s) as Hr. destruct (b =? 0); [lia|]. intros H.
  assert (zlen (nonzero s) <> zlen s) as H' by (unfold zlen in *; cbn [length] in H; lia). specialize (IH H'). lia.
Qed.

Lemma sparse_proper s : length s = 8%nat -> zlen (nonzero s) <> 8 -> proper (Sparse s).
Proof. intros Hl Hn. split; [done|]. assert (zlen s = 8) as H8 by (unfold zlen; by rewrite Hl). pose proof (bitmap_full s) as Hf. rewrite H8 in Hf. exact (Hf Hn). Qed.

Lemma items_ok segs : forall run n, zlen run = 8 * n -> 0 <= n < 256 -> Forall (fun s => length s = 8%nat) segs ->
  Forall proper (items run segs) /\ concat (item_data <$> items run segs) = run ++ concat segs.
Proof.
  induction segs as [|s segs IH]; intros run n Hz Hn Hs; cbn [items].
  - destruct (Z.eqb_spec (zlen run) 0) as [E|E]; [destruct run; [by split|unfold zlen in E; cbn in E; lia]|]. split; [|done].
    apply Forall_singleton. exists n. lia.
  - apply Forall_cons in Hs as [Hs Hss]. assert (zlen s = 8) as H8 by (unfold zlen; by rewrite Hs). pose proof (IH [] 0 eq_refl ltac:(lia) Hss) as [F0 C0].
    destruct (Z.eqb_spec (zlen run) 0) as [E|E].
    + assert (run = []) as -> by (destruct run; [done|unfold zlen in E; cbn in E; lia]). destruct (Z.eqb_spec (zlen (nonzero s)) 8).
      * by apply (IH s 1); [|lia|].
      * split; [apply Forall_cons; split; [by apply sparse_proper|done]|]. rewrite fmap_cons. cbn [concat item_data]. by rewrite C0.
    + assert (zlen (run ++ s) = 8 * (n + 1)) as Hzr by (rewrite zlen_app; lia). destruct (Z.leb_spec 6 (zlen (nonzero s))).
      * destruct (Z.eqb_spec (zlen (run ++ s)) 2048).
        -- split; [apply Forall_cons; split; [exists (n + 1); lia|done]|]. rewrite fmap_cons. cbn [concat item_data]. by rewrite C0, <- app_assoc.
        -- destruct (IH (run ++ s) (n + 1)) as [F C]; [done|lia|done|]. split; [done|]. by rewrite C, <- app_assoc.
      * split; [apply Forall_cons; split; [exists n; lia|apply Forall_cons; split; [apply sparse_proper; [done|lia]|done]]|].
        rewrite !fmap_cons. cbn [concat item_data]. by rewrite C0.
Qed.

Lemma chop_ok k : forall s, zlen s = 8 * Z.of_nat k -> Forall (fun s => length s = 8%nat) (chop k s) /\ concat (chop k s) = s.
Proof.
  induction k as [|k IH]; intros s Hs; cbn [chop].
  - destruct s; [by split|unfold zlen in Hs; cbn in Hs; lia].
  - destruct (IH (drop 8 s)) as [F C]; [unfold zlen in *; rewrite length_drop; lia|]. split.
    + apply Forall_cons. split; [rewrite length_take; unfold zlen in Hs; lia|done].
    + cbn [concat]. by rewrite C, take_drop.
Qed.

(** ** Unpacking *)

Lemma bitmap_bit b s : Z.land (bitmap (b :: s)) 1 = (if b =? 0 then 0 else 1) /\ Z.shiftr (bitmap (b :: s)) 1 = bitmap s.
Proof.
  change 1 with (Z.ones 1) at 1. rewrite Z.land_ones, Z.shiftr_div_pow2 by lia. change (2 ^ 1) with 2. cbn [bitmap]. destruct (b =? 0); split; dlia.
Qed.

Lemma zget_mid (pre : list Z) x post : zget (pre ++ x :: post) (zlen pre) = Ok x.
Proof. rewrite <- (Z.add_0_r (zlen pre)), zget_app_r by done. done. Qed.

(** [zlen data] bytes at [pos] are set to [data] when there is room. *)
Definition stored (b : list Z) (pos : Z) (data b' : list Z) : Prop :=
  zlen b' = zlen b /\ (pos + zlen data <= zlen b -> take (Z.to_nat (pos + zlen data)) b' = take (Z.to_nat pos) b ++ data).

Lemma stored_trans b pos d1 b1 d2 b2 pos1 : 0 <= pos -> stored b pos d1 b1 -> (pos + zlen d1 <= zlen b -> pos1 = pos + zlen d1) -> stored b1 pos1 d2 b2 -> stored b pos (d1 ++ d2) b2.
Proof.
  intros Hp [Hz1 H1] Hpos [Hz2 H2]. split; [congruence|]. rewrite zlen_app. intros Hl. pose proof (zlen_nonneg d2). rewrite (Hpos ltac:(lia)) in H2.
  rewrite Z.add_assoc, H2, H1 by lia. by rewrite app_assoc.
Qed.

Lemma bits_ok s : forall i header pre rest b pos, 0 <= i -> 0 <= pos -> Z.shiftr header i = bitmap s ->
  exists b' pos', bits_loop (length s) i header (pre ++ nonzero s ++ rest) (zlen pre) (zlen (nonzero s ++ rest)) b pos (zlen b - pos) =
      Ok (Some (zlen (pre ++ nonzero s), zlen rest, b', pos', zlen b' - pos')) /\
    stored b pos s b' /\ 0 <= pos' /\ (pos + zlen s <= zlen b -> pos' = pos + zlen s).
Proof.
  induction s as [|c s IH]; intros i header pre rest b pos Hi Hpos Hh; cbn [bits_loop length].
  { exists b, pos. change (nonzero []) with (@nil Z). cbn [app]. rewrite app_nil_r. split; [done|]. split; [|change (zlen []) with 0; lia].
    split; [done|]. change (zlen []) with 0. by rewrite Z.add_0_r, app_nil_r. }
  rewrite Hh. destruct (bitmap_bit c s) as [-> Hs]. assert (Z.shiftr header (i + 1) = bitmap s) as Hh' by (rewrite <- Z.shiftr_shiftr, Hh by lia; exact Hs).
  rewrite zlen_cons, nonzero_cons.
  assert (Hset : pos < zlen b -> exists b1, zset b pos c = Ok b1 /\ stored b pos [c] b1).
  { intros Hlt. destruct (zset_agree b pos c) as (b1 & E & [Hz _] & Ht & _); [lia|]. exists b1. split; [done|]. split; [done|]. intros _. change (zlen [c]) with 1. done. }
  destruct (Z.eqb_spec c 0) as [->|Hc]; cbn [negb Z.eqb].
  - destruct (Z.ltb_spec 0 (zlen b - pos)) as [Hlt|Hge].
    + destruct (Hset ltac:(lia)) as (b1 & -> & Hst). rstep. replace (zlen b - pos - 1) with (zlen b1 - (pos + 1)) by (destruct Hst; lia).
      destruct (IH (i + 1) header pre rest b1 (pos + 1)) as (b' & pos' & -> & H1 & H2 & H3); [lia..|done|]. exists b', pos'. split; [done|].
      split; [by eapply (stored_trans _ _ [0])|]. destruct Hst. lia.
    + destruct (IH (i + 1) header pre rest b pos) as (b' & pos' & -> & H1 & H2 & H3); [lia..|done|]. exists b', pos'. split; [done|].
      pose proof (zlen_nonneg s). split; [|lia]. split; [by destruct H1|rewrite zlen_cons; lia].
  - pose proof (zlen_nonneg (nonzero s ++ rest)). cbn [app]. rewrite zlen_cons. destruct (Z.ltb_spec (1 + zlen (nonzero s ++ rest)) 0); [lia|].
    rewrite zget_mid. replace (pre ++ c :: nonzero s ++ rest) with ((pre ++ [c]) ++ nonzero s ++ rest) by by rewrite <- app_assoc.
    replace (pre ++ c :: nonzero s) with ((pre ++ [c]) ++ nonzero s) by by rewrite <- app_assoc.
    replace (zlen pre + 1) with (zlen (pre ++ [c])) by (by rewrite zlen_app). replace (1 + zlen (nonzero s ++ rest) - 1) with (zlen (nonzero s ++ rest)) by lia.
    destruct (Z.ltb_spec 0 (zlen b - pos)) as [Hlt|Hge]; rstep.
    + destruct (Hset ltac:(lia)) as (b1 & -> & Hst). rstep. replace (zlen b - pos - 1) with (zlen b1 - (pos + 1)) by (destruct Hst; lia).
      destruct (IH (i + 1) header (pre ++ [c]) rest b1 (pos + 1)) as (b' & pos' & -> & H1 & H2 & H3); [lia..|done|]. exists b', pos'. split; [done|].
      split; [by eapply (stored_trans _ _ [c])|]. destruct Hst. lia.
    + destruct (IH (i + 1) header (pre ++ [c]) rest b pos) as (b' & pos' & -> & H1 & H2 & H3); [lia..|done|]. exists b', pos'. split; [done|].
      pose proof (zlen_nonneg s). split; [|lia]. split; [by destruct H1|rewrite zlen_cons; lia].
Qed.

Lemma unpack_items its : forall fuel pre b pos size, Forall proper its -> (length (packed its) < fuel)%nat -> 0 <= pos ->
  exists b', unpack_loop fuel (pre ++ packed its) (zlen pre) (zlen (packed its)) b pos (zlen b - pos) size =
      Ok (size + zlen (concat (item_data <$> its)), b') /\ stored b pos (concat (item_data <$> its)) b'.
Proof.
  induction its as [|it its IH]; intros fuel pre b pos size Hits Hf Hpos; (destruct fuel as [|fuel]; [lia|]).
  { exists b. change (concat (item_data <$> [])) with (@nil Z). change (packed []) with (@nil Z). cbn [unpack_loop]. change (zlen (@nil Z)) with 0.
    change (0 <? 0) with false. rewrite Z.add_0_r. split; [done|]. split; [done|]. change (zlen (@nil Z)) with 0. by rewrite Z.add_0_r, app_nil_r. }
  apply Forall_cons in Hits as [Hit Hits]. rewrite fmap_cons, packed_cons in *. cbn [concat unpack_loop]. rewrite length_app in Hf.
  destruct it as [d|s]; cbn [item_bytes item_data proper length] in *.
  - destruct Hit as (k & Hk & Hd). assert (zlen d / 8 - 1 = k - 1) as -> by dlia. cbn [app]. rewrite !zlen_cons, zlen_app.
    pose proof (zlen_nonneg (packed its)). destruct (Z.ltb_spec 0 (1 + (1 + (zlen d + zlen (packed its))))); [|lia]. rewrite zget_mid. rstep. cbn [Z.eqb Pos.eqb].
    destruct (Z.ltb_spec (1 + (1 + (zlen d + zlen (packed its))) - 1) 0); [lia|].
    replace (pre ++ 255 :: k - 1 :: d ++ packed its) with ((pre ++ [255]) ++ (k - 1) :: d ++ packed its) by by rewrite <- app_assoc.
    replace (zlen pre + 1) with (zlen (pre ++ [255])) by by rewrite zlen_app. rewrite zget_mid. rstep. replace ((k - 1 + 1) * 8) with (zlen d) by lia.
    destruct (Z.ltb_spec (1 + (1 + (zlen d + zlen (packed its))) - 1) (zlen d + 1)); [lia|].
    replace ((pre ++ [255]) ++ (k - 1) :: d ++ packed its) with ((pre ++ [255; k - 1]) ++ d ++ packed its) by by rewrite <- !app_assoc.
    replace (zlen (pre ++ [255]) + 1) with (zlen (pre ++ [255; k - 1])) by (rewrite !zlen_app; change (zlen [255; k - 1]) with 2; change (zlen [255]) with 1; lia).
    replace (1 + (1 + (zlen d + zlen (packed its))) - 1 - (zlen d + 1)) with (zlen (packed its)) by lia. set (pre2 := pre ++ [255; k - 1]).
    assert (exists b1, (if zlen d <=? zlen b - pos then d0 ← slice (pre2 ++ d ++ packed its) (zlen pre2) (zlen d); blit b pos d0 else Ok b) = Ok b1 /\ stored b pos d b1) as (b1 & -> & Hb1).
    { destruct (Z.leb_spec (zlen d) (zlen b - pos)); [|exists b; split; [done|]; split; [done|lia]].
      rewrite slice_Ok by (rewrite ?zlen_app; pose proof (zlen_nonneg pre2); pose proof (zlen_nonneg d); lia). rstep. rewrite drop_zlen_app, take_zlen_app by done. rewrite blit_eq by lia.
      eexists. split; [done|]. split.
      - rewrite !zlen_app, zlen_take_le by lia. unfold zlen in *. rewrite length_drop. lia.
      - intros _. rewrite app_assoc. apply take_zlen_app. rewrite zlen_app, zlen_take_le by lia. done. }
    rstep. destruct (IH fuel (pre2 ++ d) b1 (pos + zlen d) (size + zlen d)) as (b' & E & Hb'); [done|lia|lia|].
    rewrite <- app_assoc, zlen_app in E. destruct Hb1 as [Hz1 Hb1]. replace (zlen b - pos - zlen d) with (zlen b1 - (pos + zlen d)) by lia. rewrite E.
    exists b'. rewrite zlen_app. split; [f_equal; f_equal; lia|]. by eapply stored_trans.
  - destruct Hit as [Hs Hb]. pose proof (bits_ok s 0 (bitmap s) (pre ++ [bitmap s]) (packed its) b pos ltac:(lia) Hpos (Z.shiftr_0_r _)) as (b1 & pos1 & E & Hst & Hp1 & Hp2).
    cbn [app]. rewrite zlen_cons, zlen_app. pose proof (zlen_nonneg (packed its)). pose proof (zlen_nonneg (nonzero s)).
    destruct (Z.ltb_spec 0 (1 + (zlen (nonzero s) + zlen (packed its)))); [|lia]. rewrite zget_mid. rstep. destruct (Z.eqb_spec (bitmap s) 255); [done|].
    rewrite Hs, zlen_app in E. change (zlen [bitmap s]) with 1 in E. rewrite <- app_assoc, zlen_app in E. cbn [app] in E.
    replace (1 + (zlen (nonzero s) + zlen (packed its)) - 1) with (zlen (nonzero s) + zlen (packed its)) by lia. rewrite E. rstep.
    destruct (IH fuel ((pre ++ [bitmap s]) ++ nonzero s) b1 pos1 (size + 8)) as (b' & E' & Hb'); [done|lia|lia|].
    rewrite <- !app_assoc in E'. cbn [app] in E'. rewrite <- app_assoc. cbn [app]. rewrite E'. exists b'. rewrite zlen_app.
    assert (zlen s = 8) as H8 by (unfold zlen; by rewrite Hs). split; [f_equal; f_equal; lia|]. by eapply stored_trans.
Qed.

(** The specification of packing is undone, whatever the buffer. *)
Lemma unpack_ok src buffer : exists b, sproto_unpack (pack_spec src) buffer = Ok (zlen (padded src), b) /\ zlen b = zlen buffer /\
  (zlen (padded src) <= zlen buffer -> take (length (padded src)) b = padded src).
Proof.
  destruct (chop_ok (segments (zlen src)) (padded src)) as [F C]; [apply zlen_padded|].
  destruct (items_ok (chop (segments (zlen src)) (padded src)) [] 0) as [Fi Ci]; [done|lia|done|]. cbn [app] in Ci. rewrite C in Ci.
  unfold sproto_unpack, pack_spec. destruct (unpack_items _ (S (length (pack_spec src))) [] buffer 0 0 Fi) as (b & E & Hz & Hb); [unfold pack_spec; lia|lia|].
  change (zlen []) with 0 in E. cbn [app] in E. unfold pack_spec in E. rewrite Z.sub_0_r in E. rewrite E. exists b. rewrite Ci in *. split; [done|]. split; [done|].
  intros Hl. specialize (Hb Hl). cbn [Z.to_nat take app] in Hb. unfold zlen in Hb. by rewrite Z.add_0_l, Nat2Z.id in Hb.
Qed.

(** ** Space *)

Lemma zlen_sparse s : zlen (item_bytes (Sparse s)) = 1 + zlen (nonzero s).
Proof. apply zlen_cons. Qed.

(** Two bytes for every 2048 that are copied, and two more when the last
    segment has no padding; [z] bytes of padding. *)
Definition excess (segs : list (list Z)) (z : Z) : Z := match segs with [] => 0 | _ => 2 - z end.

Lemma items_bound z segs : 0 <= z < 8 -> forall run n, zlen run = 8 * n -> 0 <= n < 256 -> Forall (fun s => length s = 8%nat) segs ->
  (forall s, last segs = Some s -> zlen (nonzero s) <= 8 - z) ->
  let T := 8 * (n + Z.of_nat (length segs)) in
  zlen (packed (items run segs)) <= T + (T + 2047) / 2048 * 2 + excess segs z.
Proof.
  intros Hz. induction segs as [|s segs IH]; intros run n Hr Hn Hs Hl; cbn [items excess length].
  - rewrite Hr. destruct (Z.eqb_spec (8 * n) 0); [change (zlen (packed [])) with 0; dlia|]. rewrite packed_cons, zlen_app, zlen_raw. change (zlen (packed [])) with 0. dlia.
  - apply Forall_cons in Hs as [Hs Hss]. assert (zlen s = 8) as H8 by (unfold zlen; by rewrite Hs). pose proof (nonzero_le s) as Hm. pose proof (zlen_nonneg (nonzero s)) as Hm0.
    assert (Hl' : forall x, last segs = Some x -> zlen (nonzero x) <= 8 - z).
    { intros x Hx. apply Hl. destruct segs; [done|exact Hx]. }
    assert (Hex : excess segs z = 2 - z \/ excess segs z = 0 /\ zlen (nonzero s) <= 8 - z /\ Z.of_nat (length segs) = 0).
    { destruct segs; [right|by left]. split; [done|]. split; [by apply Hl|done]. }
    pose proof (IH [] 0 eq_refl ltac:(lia) Hss Hl') as I0. rewrite Z.add_0_l in I0. cbn zeta in I0. rewrite Hr. replace (Z.of_nat (S (length segs))) with (1 + Z.of_nat (length segs)) by lia.
    set (k := Z.of_nat (length segs)) in *. assert (0 <= k) by (unfold k; lia). destruct (Z.eqb_spec (8 * n) 0) as [E|E].
    + assert (run = []) as -> by (destruct run; [done|unfold zlen in Hr; cbn [length] in Hr; lia]). destruct (Z.eqb_spec (zlen (nonzero s)) 8).
      * pose proof (IH s 1 ltac:(lia) ltac:(lia) Hss Hl') as I1. cbn zeta in I1. replace (n + (1 + k)) with (1 + k) by lia. dlia.
      * rewrite packed_cons, zlen_app, zlen_sparse. dlia.
    + destruct (Z.leb_spec 6 (zlen (nonzero s))).
      * rewrite zlen_app, Hr, H8. destruct (Z.eqb_spec (8 * n + 8) 2048).
        -- rewrite packed_cons, zlen_app, zlen_raw, zlen_app. dlia.
        -- pose proof (IH (run ++ s) (n + 1) ltac:(rewrite zlen_app; lia) ltac:(lia) Hss Hl') as I1. cbn zeta in I1. replace (n + (1 + k)) with (n + 1 + k) by lia. dlia.
      * rewrite !packed_cons, !zlen_app, zlen_raw, zlen_sparse. dlia.
Qed.

Lemma nonzero_app s t : nonzero (s ++ t) = nonzero s ++ nonzero t.
Proof. apply filter_app. Qed.

Lemma nonzero_zeros n : nonzero (replicate n 0) = [].
Proof. induction n as [|n IH]; [done|]. cbn [replicate]. by rewrite nonzero_cons. Qed.

Lemma length_chop k s : length (chop k s) = k.
Proof. revert s. induction k as [|k IH]; intros s; [done|]. cbn [chop length]. by rewrite IH. Qed.

Lemma last_chop k : forall s t, last (chop (S k) s) = Some t -> t = take 8 (drop (8 * k) s).
Proof.
  induction k as [|k IH]; intros s t; [by intros [= <-]|]. change (chop (S (S k)) s) with (take 8 s :: chop (S k) (drop 8 s)).
  change (last (take 8 s :: chop (S k) (drop 8 s))) with (last (chop (S k) (drop 8 s))). intros H. apply IH in H. rewrite H, drop_drop. do 2 f_equal. lia.
Qed.

Lemma pack_spec_bound s : zlen (pack_spec s) <= maxsz (zlen s).
Proof.
  unfold pack_spec. pose proof (zlen_nonneg s) as H0. set (k := segments (zlen s)). set (z := 8 * Z.of_nat k - zlen s).
  assert (0 <= z < 8) as Hz by (unfold z, k, segments; dlia).
  destruct (chop_ok k (padded s)) as [F _]; [apply zlen_padded|].
  pose proof (items_bound z (chop k (padded s)) Hz [] 0 eq_refl ltac:(lia) F) as Hb. rewrite length_chop, Z.add_0_l in Hb. cbn zeta in Hb.
  assert (excess (chop k (padded s)) z <= 2 - z) as He.
  { destruct k eqn:Ek; [|cbn [chop excess]; lia]. cbn [chop excess]. unfold z. lia. }
  unfold maxsz. transitivity (8 * Z.of_nat k + (8 * Z.of_nat k + 2047) / 2048 * 2 + excess (chop k (padded s)) z).
  - apply Hb. intros t Ht. destruct k as [|k'] eqn:Ek; [done|]. apply last_chop in Ht. subst t.
    assert (8 * k' <= length s)%nat as Hk by (unfold zlen in *; lia). unfold padded. rewrite drop_app_le by done.
    rewrite take_ge; [|rewrite length_app, length_drop, length_replicate; fold k; rewrite Ek; unfold zlen in *; lia].
    rewrite nonzero_app, nonzero_zeros, app_nil_r. pose proof (nonzero_le (drop (8 * k') s)). unfold zlen in *. rewrite length_drop in *. lia.
  - generalize dependent (excess (chop k (padded s)) z). intros x _ He. unfold z, k, segments in He |- *. dlia.
Qed.

(** ** The Lua functions *)

(** The buffers of the closures: 2050 bytes, doubled up to twelve times. *)
Definition closure_buffer (out : list Z) : Prop := exists j, 0 <= j <= 12 /\ zlen out = ENCODE_BUFFERSIZE * 2 ^ j.

Lemma grow_ok nsz fuel : forall j, 0 <= j -> j + Z.of_nat fuel = 19 -> ENCODE_BUFFERSIZE * 2 ^ j < nsz <= 2 ^ 30 -> forall more, (0 < fuel)%nat ->
  exists j', j < j' <= 19 /\ grow (fuel + more) (ENCODE_BUFFERSIZE * 2 ^ j) nsz = Ok (ENCODE_BUFFERSIZE * 2 ^ j') /\
    ENCODE_BUFFERSIZE * 2 ^ (j' - 1) < nsz <= ENCODE_BUFFERSIZE * 2 ^ j'.
Proof.
  unfold ENCODE_BUFFERSIZE. induction fuel as [|fuel IH]; intros j Hj Hf Hn more Hfuel; [lia|]. cbn [grow Nat.add].
  assert (2050 * 2 ^ j * 2 = 2050 * 2 ^ (j + 1)) as -> by (rewrite Z.add_1_r, Z.pow_succ_r by lia; lia).
  assert (2 ^ (j + 1) <= 2 ^ 19) by (apply Z.pow_le_mono_r; lia).
  destruct (Z.leb_spec (2050 * 2 ^ (j + 1)) INT_MAX) as [_|H1]; [|unfold INT_MAX in H1; lia]. cbn [assert_]. rstep.
  destruct (Z.ltb_spec (2050 * 2 ^ (j + 1)) nsz) as [Hlt|Hge].
  - destruct fuel as [|fuel]; [replace (j + 1) with 19 in Hlt by lia; lia|]. destruct (IH (j + 1)) with (more := more) as (j' & H2 & H3 & H4); [lia..|]. exists j'. split; [lia|]. by split.
  - exists (j + 1). split; [lia|]. split; [done|]. replace (j + 1 - 1) with j by lia. lia.
Qed.

Section lua.
Context (lua_newuserdata : Z -> list Z) (Hnew : forall n, 0 <= n -> zlen (lua_newuserdata n) = n).

Lemma expand_ok out nsz : closure_buffer out -> zlen out < nsz <= 2 ^ 30 ->
  if nsz <=? ENCODE_BUFFERSIZE * 2 ^ 12 then exists out', expand_buffer lua_newuserdata (zlen out) nsz = Ok out' /\ closure_buffer out' /\ nsz <= zlen out'
  else expand_buffer lua_newuserdata (zlen out) nsz = LuaError "object is too large".
Proof using Hnew.
  intros (j & Hj & Ho) Hn. unfold expand_buffer. rewrite Ho in *. destruct (grow_ok nsz (Z.to_nat (19 - j)) j) with (more := Z.to_nat (13 + j)) as (j' & H1 & E & H2); [lia..|].
  replace (Z.to_nat (19 - j) + Z.to_nat (13 + j))%nat with 32%nat in E by lia. rewrite E. rstep. unfold ENCODE_BUFFERSIZE, ENCODE_MAXSIZE in *.
  destruct (Z.leb_spec nsz (2050 * 2 ^ 12)).
  - assert (j' <= 12) as Hj' by (destruct (Z.le_gt_cases j' 12); [done|]; assert (2 ^ 12 <= 2 ^ (j' - 1)) by (apply Z.pow_le_mono_r; lia); lia).
    assert (2 ^ j' <= 2 ^ 12) by (apply Z.pow_le_mono_r; lia). assert (0 < 2 ^ j') by (apply Z.pow_pos_nonneg; lia). destruct (Z.ltb_spec 0x1000000 (2050 * 2 ^ j')); [lia|].
    eexists. split; [done|]. rewrite Hnew by lia. split; [|lia]. exists j'. rewrite Hnew by lia. split; [lia|done].
  - assert (13 <= j') by (destruct (Z.le_gt_cases 13 j'); [done|]; assert (2 ^ j' <= 2 ^ 12) by (apply Z.pow_le_mono_r; lia); lia).
    assert (2 ^ 13 <= 2 ^ j') by (apply Z.pow_le_mono_r; lia). destruct (Z.ltb_spec 0x1000000 (2050 * 2 ^ j')); [done|lia].
Qed.

(** The first bytes of the closure's buffer. *)
Lemma room_ok (out : list Z) n : 0 <= n <= zlen out -> slice out 0 n = Ok (take (Z.to_nat n) out) /\ zlen (take (Z.to_nat n) out) = n.
Proof. intros H. split; [by rewrite slice_Ok by lia|by apply zlen_take_le]. Qed.

Lemma closure_buffer_zlen out out' : zlen out' = zlen out -> closure_buffer out -> closure_buffer out'.
Proof. intros H (j & Hj & E). exists j. split; [done|congruence]. Qed.

Lemma zlen_rest (b out : list Z) n : 0 <= n <= zlen out -> zlen b = n -> zlen (b ++ drop (Z.to_nat n) out) = zlen out.
Proof. intros H Hb. rewrite zlen_app, Hb. unfold zlen in *. rewrite length_drop. lia. Qed.

Lemma lpack_ok src out : closure_buffer out -> inside src -> maxsz (zlen src) <= 2 ^ 30 ->
  if maxsz (zlen src) <=? ENCODE_BUFFERSIZE * 2 ^ 12 then exists out', lpack lua_newuserdata src out = Ok (pack_spec src, out') /\ closure_buffer out'
  else lpack lua_newuserdata src out = LuaError "object is too large".
Proof using Hnew.
  intros Ho Hs Hm. unfold lpack. pose proof (zlen_nonneg src) as H0. set (m := maxsz (zlen src)) in *. assert (2 <= m) as H2 by (unfold m, maxsz; dlia).
  rewrite s32_small by lia. pose proof (expand_ok out m Ho) as He.
  assert (Hbody : forall out, closure_buffer out -> m <= zlen out -> exists out',
    (room ← slice out 0 m; '(n, room) ← sproto_pack src room; let out := room ++ drop (Z.to_nat m) out in
     if m <? n then LuaError "packing error, return size = " else s ← slice out 0 n; Ok (s, out)) = Ok (pack_spec src, out') /\ closure_buffer out').
  { clear out Ho He. intros out Ho Hle. destruct (room_ok out m) as [-> Hz]; [lia|]. rstep. destruct (pack_ok src (take (Z.to_nat m) out) Hs) as (b & -> & Hzb & Hb). rstep.
    pose proof (pack_spec_bound src) as Hbd. fold m in Hbd. pose proof (zlen_nonneg (pack_spec src)) as Hp0. destruct (Z.ltb_spec m (zlen (pack_spec src))); [lia|]. rewrite Hz in *.
    pose proof (zlen_rest b out m ltac:(lia) Hzb) as Hzr. destruct (room_ok (b ++ drop (Z.to_nat m) out) (zlen (pack_spec src))) as [-> _]; [lia|]. rstep.
    eexists. split; [|by eapply closure_buffer_zlen]. do 2 f_equal. rewrite take_app_le by (unfold zlen in *; lia). specialize (Hb Hbd). unfold zlen. by rewrite Nat2Z.id. }
  destruct (Z.ltb_spec (zlen out) m) as [Hlt|Hge].
  - specialize (He ltac:(lia)). destruct (Z.leb_spec m (ENCODE_BUFFERSIZE * 2 ^ 12)); [|by rewrite He].
    destruct He as (out' & -> & Ho' & Hle). rstep. by apply Hbody.
  - rstep. destruct Ho as (j & Hj & E). assert (2 ^ j <= 2 ^ 12) by (apply Z.pow_le_mono_r; lia). unfold ENCODE_BUFFERSIZE in *.
    destruct (Z.leb_spec m (2050 * 2 ^ 12)); [|lia]. apply Hbody; [|done]. exists j. by split.
Qed.

Lemma lunpack_ok src out : closure_buffer out -> zlen (padded src) <= ENCODE_BUFFERSIZE * 2 ^ 12 ->
  exists out', lunpack lua_newuserdata (pack_spec src) out = Ok (padded src, out') /\ closure_buffer out'.
Proof using Hnew.
  intros Ho Hl. unfold lunpack. pose proof (zlen_nonneg (padded src)) as H0. destruct (unpack_ok src out) as (b & -> & Hz & Hb). rstep.
  destruct (Z.ltb_spec (zlen (padded src)) 0); [lia|]. destruct (Z.ltb_spec (zlen out) (zlen (padded src))) as [Hlt|Hge].
  - pose proof (expand_ok out (zlen (padded src)) Ho) as He. unfold ENCODE_BUFFERSIZE in *. specialize (He ltac:(lia)).
    destruct (Z.leb_spec (zlen (padded src)) (2050 * 2 ^ 12)); [|lia]. destruct He as (out' & -> & Ho' & Hle). rstep.
    destruct (room_ok out' (zlen (padded src))) as [-> Hzr]; [lia|]. rstep. destruct (unpack_ok src (take (Z.to_nat (zlen (padded src))) out')) as (b' & -> & Hz' & Hb'). rstep.
    destruct (Z.ltb_spec (zlen (padded src)) 0); [lia|]. rewrite Hzr in *. pose proof (zlen_rest b' out' (zlen (padded src)) ltac:(lia) Hz') as Hzo.
    destruct (room_ok (b' ++ drop (Z.to_nat (zlen (padded src))) out') (zlen (padded src))) as [-> _]; [lia|]. rstep. eexists. split; [|by eapply closure_buffer_zlen].
    do 2 f_equal. rewrite take_app_le by (unfold zlen in *; lia). specialize (Hb' ltac:(lia)). unfold zlen. by rewrite Nat2Z.id.
  - destruct (room_ok b (zlen (padded src))) as [-> _]; [lia|]. rstep. eexists. split; [|by eapply closure_buffer_zlen]. do 2 f_equal. specialize (Hb ltac:(lia)). unfold zlen. by rewrite Nat2Z.id.
Qed.

End lua.

(** C35. [lpack] and [lunpack] are inverse, up to the zeros that fill the last
    segment: for any contents of the closures' buffers and of new memory, a
    message is packed into its specification, never longer than the room [lpack]
    reserves for it, and unpacked into the padded message. Neither function leaves
    its buffers. A message that needs more than 2050 * 2^12 bytes is refused with
    an error. Excluded are only the messages whose last segment is padded and the
    256th of a run ([inside]; [write_ff_behind_source] for what happens then), and
    those of about 2^30 bytes and more, whose sizes do not fit the counters. *)
Theorem lpack_roundtrip (lua_newuserdata : Z -> list Z) (Hnew : forall n, 0 <= n -> zlen (lua_newuserdata n) = n) src out1 out2
    (Hout1 : closure_buffer out1) (Hout2 : closure_buffer out2) (Hsrc : inside src) (Hsize : maxsz (zlen src) <= 2 ^ 30) :
  zlen (pack_spec src) <= maxsz (zlen src) /\
  if maxsz (zlen src) <=? ENCODE_BUFFERSIZE * 2 ^ 12 then
    exists out1' out2', lpack lua_newuserdata src out1 = Ok (pack_spec src, out1') /\ closure_buffer out1' /\
      lunpack lua_newuserdata (pack_spec src) out2 = Ok (padded src, out2') /\ closure_buffer out2'
  else lpack lua_newuserdata src out1 = LuaError "object is too large".
Proof.
  split; [apply pack_spec_bound|]. pose proof (lpack_ok _ Hnew src out1 Hout1 Hsrc Hsize) as H. pose proof (zlen_nonneg src). unfold ENCODE_BUFFERSIZE in *.
  destruct (Z.leb_spec (maxsz (zlen src)) (2050 * 2 ^ 12)) as [Hle|]; [|done]. destruct H as (out1' & H1 & H2).
  destruct (lunpack_ok _ Hnew src out2 Hout2) as (out2' & H3 & H4); [|by eauto 10]. rewrite zlen_padded. unfold segments, maxsz, ENCODE_BUFFERSIZE in *. dlia.
Qed.

Lemma closure_buffer_new n : n = 2050%nat -> closure_buffer (replicate n 0).
Proof. intros ->. exists 0. split; [lia|]. unfold zlen. by rewrite length_replicate. Qed.

(** 255 segments without zeros and 7 bytes: the code copies 2048 bytes from a
    source of 2047. *)
Lemma write_ff_behind_source (src := replicate 2047 1) : ~ inside src /\ lpack (fun n => replicate (Z.to_nat n) 0) src (replicate 2050 0) = Fault.
Proof. split; [|by vm_compute]. intros [H|H]; vm_compute in H; [lia|by apply H]. Qed.

(** A message of 17 bytes, from the buffers the closures start with. *)
Theorem lpack_roundtrip_witness : exists out1' out2',
  lpack (fun n => replicate (Z.to_nat n) 0) [8; 0; 0; 0; 3; 0; 2; 0; 1; 2; 3; 4; 5; 6; 7; 8; 9] (replicate 2050 0) = Ok ([0x51; 8; 3; 2; 0xff; 0; 1; 2; 3; 4; 5; 6; 7; 8; 1; 9], out1') /\
  lunpack (fun n => replicate (Z.to_nat n) 0) [0x51; 8; 3; 2; 0xff; 0; 1; 2; 3; 4; 5; 6; 7; 8; 1; 9] (replicate 2050 0) =
    Ok ([8; 0; 0; 0; 3; 0; 2; 0; 1; 2; 3; 4; 5; 6; 7; 8; 9; 0; 0; 0; 0; 0; 0; 0], out2').
Proof.
  destruct (lpack_roundtrip (fun n => replicate (Z.to_nat n) 0)) with (src := [8; 0; 0; 0; 3; 0; 2; 0; 1; 2; 3; 4; 5; 6; 7; 8; 9]) (out1 := replicate 2050 0) (out2 := replicate 2050 0) as [_ (o1 & o2 & H1 & _ & H2 & _)].
  - intros n Hn. unfold zlen. rewrite length_replicate. lia.
  - by apply closure_buffer_new.
  - by apply closure_buffer_new.
  - right. by vm_compute.
  - vm_compute. discriminate.
  - exists o1, o2. split; [exact H1|exact H2].
Defined.
