(* ===== verification/Lock.v ===== *)
(** * Locks (skynet-src/spinlock.h, skynet-src/rwlock.h)

    The spin lock and the readers-writer lock on the compiler's atomic builtins,
    for any number of threads. A thread is where it is in the functions of the
    lock; each access to the lock's words is one step, and threads take steps in
    any order (the builtins are full barriers). The readers-writer lock refines
    an abstract one, which is what its clients may rely on. *)
From S2P Require Import Prelude.

(** ** Sums over threads *)

Fixpoint sum_of {A} (f : A -> Z) (l : list A) : Z :=
  match l with
  | [] => 0
  | x :: l => f x + sum_of f l
  end.

Section sum_of.
Context {A : Type} (f : A -> Z).

Lemma sum_of_insert l i x y : l !! i = Some x -> sum_of f (<[i := y]> l) = sum_of f l - f x + f y.
Proof.
  revert i. induction l as [|a l IH]; intros [|i] Hi; cbn in *; [done..|injection Hi as ->; lia|]. rewrite IH by done. lia.
Qed.

Context (Hf : forall x, 0 <= f x).

Lemma sum_of_nonneg l : 0 <= sum_of f l.
Proof using Hf. induction l as [|a l IH]; cbn; [lia|]. specialize (Hf a). lia. Qed.

Lemma sum_of_lookup l i x : l !! i = Some x -> f x <= sum_of f l.
Proof using Hf.
  revert i. induction l as [|a l IH]; intros [|i] Hi; cbn in *; [done..| |]; pose proof (sum_of_nonneg l); specialize (Hf a) as Ha; [injection Hi as ->; lia|]. specialize (IH i Hi). lia.
Qed.

Lemma sum_of_two l i j x y : l !! i = Some x -> l !! j = Some y -> i <> j -> f x + f y <= sum_of f l.
Proof using Hf.
  revert i j. induction l as [|a l IH]; intros [|i] [|j] Hi Hj Hij; cbn in *; try done; pose proof (Hf a) as Ha.
  - injection Hi as ->. apply sum_of_lookup in Hj. lia.
  - injection Hj as ->. apply sum_of_lookup in Hi. lia.
  - specialize (IH i j Hi Hj). lia.
Qed.

Lemma sum_of_zero l : (forall i x, l !! i = Some x -> f x = 0) -> sum_of f l = 0.
Proof using.
  induction l as [|a l IH]; intros H; cbn; [done|]. rewrite (H O a eq_refl), IH; [done|]. intros i x Hx. by apply (H (S i)).
Qed.

Lemma sum_of_bound l b : (forall x, f x <= b) -> sum_of f l <= b * zlen l.
Proof using.
  intros Hb. induction l as [|a l IH]; cbn [sum_of]; [change (zlen (@nil A)) with 0; lia|]. rewrite zlen_cons. specialize (Hb a). lia.
Qed.

End sum_of.

(** ** The spin lock *)

Inductive spc : Set := SOut | SSpin | SHeld.

(** [spinlock_lock] is one [__sync_lock_test_and_set] a step, [spinlock_unlock]
    one [__sync_lock_release]. *)
Definition spin_step (lock : Z) (p : spc) : Z * spc :=
  match p with
  | SOut => (lock, SSpin)
  | SSpin => (1, if lock =? 0 then SHeld else SSpin)
  | SHeld => (0, SOut)
  end.

Definition spinlock_trylock (lock : Z) : Z * bool := (1, lock =? 0).

Inductive spin_reach (n : nat) : Z -> list spc -> Prop :=
| spin_init : spin_reach n 0 (replicate n SOut)
| spin_next lock l i p : spin_reach n lock l -> l !! i = Some p -> spin_reach n (fst (spin_step lock p)) (<[i := snd (spin_step lock p)]> l).

Definition holds (p : spc) : Z := match p with SHeld => 1 | _ => 0 end.

Lemma sum_of_replicate {A} (f : A -> Z) n x : sum_of f (replicate n x) = Z.of_nat n * f x.
Proof. induction n as [|n IH]; [done|]. cbn [replicate sum_of]. rewrite IH. lia. Qed.

(** The word of the lock is the number of its holders. *)
Lemma spin_inv n lock l : spin_reach n lock l -> lock = sum_of holds l /\ (lock = 0 \/ lock = 1).
Proof.
  assert (forall p, 0 <= holds p) as H0 by by intros [].
  induction 1 as [|lock l i p Hr [IH1 IH2] Hi]; [rewrite sum_of_replicate; cbn [holds]; lia|].
  rewrite (sum_of_insert _ _ _ _ _ Hi). pose proof (sum_of_lookup _ H0 _ _ _ Hi). destruct p; cbn [spin_step fst snd holds] in *; [lia| |lia].
  destruct (Z.eqb_spec lock 0); cbn [holds]; lia.
Qed.

Lemma spin_exclusive n lock l i j : spin_reach n lock l -> l !! i = Some SHeld -> l !! j = Some SHeld -> i = j.
Proof.
  intros Hr Hi Hj. destruct (spin_inv _ _ _ Hr) as [H1 H2]. destruct (decide (i = j)) as [|Hij]; [done|].
  assert (forall p, 0 <= holds p) as H0 by by intros []. pose proof (sum_of_two _ H0 _ _ _ _ _ Hi Hj Hij) as H. cbn in H. lia.
Qed.

(** ** The readers-writer lock *)

Record rwlock : Set := RwLock {
  rw_write : Z;
  rw_read : Z
}.

Definition rwlock_init : rwlock := RwLock 0 0.

(** Where a thread is: outside; in [rwlock_rlock] before its inner loop, its
    addition, its test and its subtraction; in a section it reads in; in
    [rwlock_wlock] in its two loops; in a section it writes in. *)
Inductive rpc : Set := Out | RSpin | RAdd | RCheck | RBack | Reading | WSet | WWait | Writing.

Definition add_read (n : Z) (l : rwlock) : rwlock := RwLock (rw_write l) (s32 (rw_read l + n)).

(** One access; [w] tells which lock a thread that is outside takes. Leaving
    a section is [rwlock_runlock] and [rwlock_wunlock]. *)
Definition rw_step (w : bool) (l : rwlock) (p : rpc) : rwlock * rpc :=
  match p with
  | Out => (l, if w then WSet else RSpin)
  | RSpin => (l, if rw_write l =? 0 then RAdd else RSpin)
  | RAdd => (add_read 1 l, RCheck)
  | RCheck => (l, if rw_write l =? 0 then Reading else RBack)
  | RBack => (add_read (-1) l, RSpin)
  | Reading => (add_read (-1) l, Out)
  | WSet => (RwLock 1 (rw_read l), if rw_write l =? 0 then WWait else WSet)
  | WWait => (l, if rw_read l =? 0 then Writing else WWait)
  | Writing => (RwLock 0 (rw_read l), Out)
  end.

Record rwstate : Set := RwState {
  rs_lock : rwlock;
  rs_threads : list rpc
}.

Inductive rw_next (s : rwstate) : rwstate -> Prop :=
| RwNext w i p : rs_threads s !! i = Some p ->
    rw_next s (RwState (fst (rw_step w (rs_lock s) p)) (<[i := snd (rw_step w (rs_lock s) p)]> (rs_threads s))).

Inductive rw_reach (n : nat) : rwstate -> Prop :=
| rw_init : rw_reach n (RwState rwlock_init (replicate n Out))
| rw_more s s' : rw_reach n s -> rw_next s s' -> rw_reach n s'.

(** ** The abstract lock *)

(** Who is in a section. *)
Record sections : Set := Sections {
  sc_readers : Z;
  sc_writers : Z
}.

Inductive section_step (s : sections) : sections -> Prop :=
| NoChange : section_step s s
| EnterRead : sc_writers s = 0 -> section_step s (Sections (sc_readers s + 1) (sc_writers s))
| LeaveRead : 0 < sc_readers s -> section_step s (Sections (sc_readers s - 1) (sc_writers s))
| EnterWrite : sc_readers s = 0 -> sc_writers s = 0 -> section_step s (Sections 0 1)
| LeaveWrite : sc_writers s = 1 -> section_step s (Sections (sc_readers s) 0).

Definition is_reading (p : rpc) : Z := match p with Reading => 1 | _ => 0 end.
Definition is_writing (p : rpc) : Z := match p with Writing => 1 | _ => 0 end.

Definition sections_of (s : rwstate) : sections := Sections (sum_of is_reading (rs_threads s)) (sum_of is_writing (rs_threads s)).

(** ** The invariant *)

(** Threads counted in [read]; threads that hold [write]. *)
Definition counted (p : rpc) : Z := match p with RCheck | RBack | Reading => 1 | _ => 0 end.
Definition has_write (p : rpc) : Z := match p with WWait | Writing => 1 | _ => 0 end.

Record rw_inv (s : rwstate) : Prop := RwInv {
  ri_read : rw_read (rs_lock s) = sum_of counted (rs_threads s);
  ri_write : rw_write (rs_lock s) = sum_of has_write (rs_threads s);
  ri_one : rw_write (rs_lock s) = 0 \/ rw_write (rs_lock s) = 1;
  ri_excl : sum_of is_writing (rs_threads s) = 0 \/ sum_of is_reading (rs_threads s) = 0
}.

Lemma rpc_nonneg : (forall p, 0 <= is_reading p) /\ (forall p, 0 <= is_writing p) /\ (forall p, 0 <= counted p) /\ (forall p, 0 <= has_write p).
Proof. repeat split; by intros []. Qed.

Lemma sum_of_le {A} (f g : A -> Z) l : (forall x, f x <= g x) -> sum_of f l <= sum_of g l.
Proof. intros H. induction l as [|a l IH]; cbn; [lia|]. specialize (H a). lia. Qed.

Ltac use_all H :=
  refine (H _ _ _ _ _ _ _); unfold add_read; cbn [rw_read rw_write is_reading is_writing counted has_write] in *; rewrite ?Z.sub_0_r, ?Z.add_0_r; try lia.

Lemma rw_inv_next s s' : zlen (rs_threads s) < INT_MAX -> rw_inv s -> rw_next s s' -> rw_inv s' /\ section_step (sections_of s) (sections_of s') /\ zlen (rs_threads s') = zlen (rs_threads s).
Proof.
  intros Hn [I1 I2 I3 I4] [w i p Hi]. destruct s as [[wr rd] l]. cbn [rs_lock rs_threads rw_read rw_write] in *. destruct rpc_nonneg as (N1 & N2 & N3 & N4).
  pose proof (sum_of_lookup _ N1 _ _ _ Hi) as L1. pose proof (sum_of_lookup _ N2 _ _ _ Hi) as L2. pose proof (sum_of_lookup _ N3 _ _ _ Hi) as L3. pose proof (sum_of_lookup _ N4 _ _ _ Hi) as L4.
  assert (0 <= rd < INT_MAX) as Hrd. { rewrite I1. split; [by apply sum_of_nonneg|]. pose proof (sum_of_bound counted l 1 ltac:(by intros [])). lia. }
  pose proof (sum_of_le is_reading counted l ltac:(by intros [])) as M1. pose proof (sum_of_le is_writing has_write l ltac:(by intros [])) as M2.
  pose proof (sum_of_nonneg _ N1 l). pose proof (sum_of_nonneg _ N2 l).
  assert (forall q, zlen (<[i := q]> l) = zlen l) as Hz by (intros q; unfold zlen; by rewrite length_insert).
  assert (s32 (rd + -1) = rd - 1) as S1 by (rewrite s32_small by (unfold INT_MAX in *; lia); lia).
  assert (s32 (rd + 1) = rd + 1) as S2 by (apply s32_small; unfold INT_MAX in *; lia).
  assert (Hall : forall q lock, rw_read lock = sum_of counted l - counted p + counted q -> rw_write lock = sum_of has_write l - has_write p + has_write q ->
    (rw_write lock = 0 \/ rw_write lock = 1) -> (sum_of is_writing l - is_writing p + is_writing q = 0 \/ sum_of is_reading l - is_reading p + is_reading q = 0) ->
    section_step (Sections (sum_of is_reading l) (sum_of is_writing l)) (Sections (sum_of is_reading l - is_reading p + is_reading q) (sum_of is_writing l - is_writing p + is_writing q)) ->
    rw_inv (RwState lock (<[i := q]> l)) /\ section_step (sections_of (RwState (RwLock wr rd) l)) (sections_of (RwState lock (<[i := q]> l))) /\ zlen (<[i := q]> l) = zlen l).
  { intros q lock H1 H2 H3 H4 H5. unfold sections_of. cbn [rs_threads]. rewrite !(sum_of_insert _ _ _ _ _ Hi). split; [|by split].
    constructor; cbn [rs_threads rs_lock]; rewrite ?(sum_of_insert _ _ _ _ _ Hi); done. }
  destruct p; cbn [rw_step fst snd rs_lock add_read rw_read rw_write is_reading is_writing counted has_write] in *; rewrite ?S1, ?S2.
  - destruct w; use_all Hall; constructor.
  - destruct (Z.eqb_spec wr 0); use_all Hall; constructor.
  - use_all Hall; constructor.
  - destruct (Z.eqb_spec wr 0); use_all Hall; constructor; cbn; lia.
  - use_all Hall; constructor.
  - use_all Hall; constructor; cbn; lia.
  - destruct (Z.eqb_spec wr 0); use_all Hall; constructor.
  - destruct (Z.eqb_spec rd 0); use_all Hall; try constructor.
    pose proof (sum_of_le is_writing has_write (<[i := Writing]> l) ltac:(by intros [])) as M3. rewrite !(sum_of_insert _ _ _ _ _ Hi) in M3. cbn [is_writing has_write] in M3.
    replace (sum_of is_reading l) with 0 by lia. replace (sum_of is_writing l) with 0 by lia. by apply (EnterWrite (Sections 0 0)).
  - use_all Hall.
    replace (sum_of is_writing l) with 1 by lia. by apply (LeaveWrite (Sections (sum_of is_reading l) 1)).
Qed.

Lemma rw_reach_inv n s : 0 <= Z.of_nat n < INT_MAX -> rw_reach n s -> rw_inv s /\ zlen (rs_threads s) = Z.of_nat n.
Proof.
  intros Hn. induction 1 as [|s s' Hr [IH1 IH2] Hs].
  - split; [|unfold zlen; cbn [rs_threads]; by rewrite length_replicate]. constructor; cbn [rs_lock rs_threads rwlock_init rw_read rw_write]; rewrite ?sum_of_replicate; cbn; lia.
  - destruct (rw_inv_next s s') as (H1 & _ & H3); [lia|done|done|]. split; [done|lia].
Qed.

(** C13. The readers-writer lock refines the abstract lock: for any number of
    threads and any interleaving of their accesses to its two words, every step
    leaves the sections as they are, or is one that the abstract lock allows. So
    a thread that writes is alone. *)
Theorem rwlock_refines_sections (n : nat) (s : rwstate) (Hn : 0 <= Z.of_nat n < INT_MAX) (Hs : rw_reach n s) :
  (forall s', rw_next s s' -> section_step (sections_of s) (sections_of s')) /\
  (forall i j p, rs_threads s !! i = Some Writing -> rs_threads s !! j = Some p -> p = Writing \/ p = Reading -> i = j).
Proof.
  destruct (rw_reach_inv n s Hn Hs) as [Hi Hz]. split; [intros s' Hn'; apply rw_inv_next; [lia|done|done]|].
  intros i j p Hw Hj Hp. destruct (decide (i = j)) as [|Hij]; [done|]. destruct Hi as [I1 I2 I3 I4]. destruct rpc_nonneg as (N1 & N2 & N3 & N4).
  pose proof (sum_of_two _ N4 _ _ _ _ _ Hw Hj Hij) as H2. pose proof (sum_of_lookup _ N2 _ _ _ Hw) as H1. pose proof (sum_of_lookup _ N1 _ _ _ Hj) as H3.
  destruct Hp as [-> | ->]; cbn in *; lia.
Qed.

Theorem rwlock_refines_sections_witness : exists s s', rw_reach 2 s /\ rs_threads s = [Writing; RAdd] /\ rw_next s s' /\ section_step (sections_of s) (sections_of s').
Proof.
  assert (rw_reach 2 (RwState (RwLock 1 0) [Writing; RAdd])) as H.
  { eapply rw_more; [|exact (RwNext (RwState (RwLock 1 0) [WWait; RAdd]) false 0 WWait eq_refl)]. eapply rw_more; [|exact (RwNext (RwState (RwLock 0 0) [WSet; RAdd]) false 0 WSet eq_refl)].
    eapply rw_more; [|exact (RwNext (RwState (RwLock 0 0) [WSet; RSpin]) false 1 RSpin eq_refl)]. eapply rw_more; [|exact (RwNext (RwState (RwLock 0 0) [WSet; Out]) false 1 Out eq_refl)].
    eapply rw_more; [|exact (RwNext (RwState (RwLock 0 0) [Out; Out]) true 0 Out eq_refl)]. constructor. }
  eexists _, _. split; [exact H|]. split; [done|]. pose proof (RwNext (RwState (RwLock 1 0) [Writing; RAdd]) false 1 RAdd eq_refl) as Hn. split; [exact Hn|].
  refine (proj1 (rwlock_refines_sections 2 _ _ H) _ Hn). unfold INT_MAX. lia.
Defined.

(** ** Progress *)

Lemma sum_of_pos {A} (f : A -> Z) l : 0 < sum_of f l -> exists i x, l !! i = Some x /\ 0 < f x.
Proof.
  induction l as [|a l IH]; cbn [sum_of]; [lia|]. intros H. destruct (Z.lt_ge_cases 0 (f a)) as [Ha|Ha]; [by exists O, a|].
  destruct IH as (i & x & Hi & Hx); [lia|]. by exists (S i), x.
Qed.

(** A schedule: steps that keep the invariant. *)
Record leads (s s' : rwstate) : Prop := Leads {
  ld_steps : rtc rw_next s s';
  ld_inv : rw_inv s';
  ld_len : zlen (rs_threads s') = zlen (rs_threads s)
}.

Lemma leads_refl s : rw_inv s -> leads s s.
Proof. intros H. by constructor. Qed.

Lemma leads_trans s1 s2 s3 : leads s1 s2 -> leads s2 s3 -> leads s1 s3.
Proof. intros [A1 A2 A3] [B1 B2 B3]. constructor; [by etransitivity|done|congruence]. Qed.

Lemma leads_step w s i p : zlen (rs_threads s) < INT_MAX -> rw_inv s -> rs_threads s !! i = Some p ->
  leads s (RwState (fst (rw_step w (rs_lock s) p)) (<[i := snd (rw_step w (rs_lock s) p)]> (rs_threads s))).
Proof.
  intros Hn Hi Hp. pose proof (RwNext s w i p Hp) as H. destruct (rw_inv_next _ _ Hn Hi H) as (H1 & _ & H3). constructor; [by apply rtc_once|done|done].
Qed.

(** The step of thread [i], in the state it leads to. *)
Lemma leads_to s i p l q : zlen (rs_threads s) < INT_MAX -> rw_inv s -> rs_threads s !! i = Some p -> rw_step false (rs_lock s) p = (l, q) ->
  leads s (RwState l (<[i := q]> (rs_threads s))).
Proof. intros Hn Hi Hp E. pose proof (leads_step false s i p Hn Hi Hp) as H. by rewrite E in H. Qed.

Lemma counted_leaves s i p : zlen (rs_threads s) < INT_MAX -> rw_inv s -> rs_threads s !! i = Some p -> 0 < counted p ->
  exists l q, leads s (RwState l (<[i := q]> (rs_threads s))) /\ counted q = 0 /\ has_write q = 0.
Proof.
  intros Hn Hi Hp Hc.
  assert (forall p, p = Reading \/ p = RBack -> forall s, zlen (rs_threads s) < INT_MAX -> rw_inv s -> rs_threads s !! i = Some p ->
    exists l q, leads s (RwState l (<[i := q]> (rs_threads s))) /\ counted q = 0 /\ has_write q = 0) as H1.
  { clear. intros p Hp s Hn Hi Hs. destruct Hp as [-> | ->]; (eexists _, _; split; [by eapply leads_to|done]). }
  destruct p; cbn in Hc; try lia; [|by apply (H1 RBack); auto|by apply (H1 Reading); auto].
  set (q := if rw_write (rs_lock s) =? 0 then Reading else RBack). pose proof (leads_to s i RCheck (rs_lock s) q Hn Hi Hp eq_refl) as Hl.
  destruct (H1 q) with (s := RwState (rs_lock s) (<[i := q]> (rs_threads s))) as (l & r & H2 & H3); cbn [rs_threads].
  - unfold q. destruct (_ =? 0); auto.
  - pose proof (ld_len _ _ Hl) as E. cbn [rs_threads] in E. lia.
  - apply Hl.
  - apply list_lookup_insert_eq. by apply lookup_lt_Some in Hp.
  - exists l, r. split; [|done]. cbn [rs_threads] in H2. rewrite list_insert_insert_eq in H2. by eapply leads_trans.
Qed.

Lemma drain_readers k : forall s, sum_of counted (rs_threads s) = Z.of_nat k -> zlen (rs_threads s) < INT_MAX -> rw_inv s ->
  exists s', leads s s' /\ sum_of counted (rs_threads s') = 0 /\ forall i p, rs_threads s !! i = Some p -> counted p = 0 -> rs_threads s' !! i = Some p.
Proof.
  destruct rpc_nonneg as (_ & _ & N3 & _). induction k as [|k IH]; intros s Hk Hn Hi; [exists s; split; [by apply leads_refl|]; by split|].
  destruct (sum_of_pos counted (rs_threads s)) as (i & p & Hp & Hc); [lia|]. destruct (counted_leaves s i p Hn Hi Hp Hc) as (l & q & Hl & Hq & _).
  assert (counted p = 1) as Hc1 by (destruct p; cbn in *; lia).
  destruct (IH (RwState l (<[i := q]> (rs_threads s)))) as (s' & Hl' & Hs' & Hkeep); cbn [rs_threads] in *.
  - rewrite (sum_of_insert _ _ _ _ _ Hp). lia.
  - pose proof (ld_len _ _ Hl) as E. cbn [rs_threads] in E. lia.
  - apply Hl.
  - exists s'. split; [by eapply leads_trans|]. split; [done|]. intros j r Hj Hr. apply Hkeep; [|done]. rewrite list_lookup_insert_ne; [done|]. intros ->. rewrite Hj in Hp. injection Hp as ->. lia.
Qed.

(** Nobody is in a section or about to be, but for the thread [t] in [p]. *)
Lemma drain_all s t p : zlen (rs_threads s) < INT_MAX -> rw_inv s -> rs_threads s !! t = Some p -> counted p = 0 -> has_write p = 0 ->
  exists s', leads s s' /\ rs_lock s' = RwLock 0 0 /\ rs_threads s' !! t = Some p.
Proof.
  intros Hn Hi Hp Hc Hw. destruct rpc_nonneg as (_ & _ & N3 & N4). pose proof (sum_of_nonneg _ N3 (rs_threads s)) as H0.
  destruct (drain_readers (Z.to_nat (sum_of counted (rs_threads s))) s) as (s1 & Hl & Hs & Hkeep); [lia|done|done|]. specialize (Hkeep _ _ Hp Hc).
  pose proof (ld_inv _ _ Hl) as Hi1. pose proof (ld_len _ _ Hl) as Hn1. destruct s1 as [[wr rd] l1]. cbn [rs_threads rs_lock] in *. pose proof Hi1 as [I1 I2 I3 I4]. cbn in I1, I2, I3.
  assert (rd = 0) as -> by lia. destruct (Z.eq_dec wr 0) as [->|Hwr]; [by exists (RwState (RwLock 0 0) l1)|].
  destruct (sum_of_pos has_write l1) as (i & q & Hq & Hqw); [lia|]. assert (i <> t) as Hit by (intros ->; rewrite Hkeep in Hq; injection Hq as ->; lia).
  assert (forall s, rs_lock s = RwLock wr 0 -> rs_threads s !! i = Some Writing -> rs_threads s !! t = Some p -> zlen (rs_threads s) < INT_MAX -> rw_inv s ->
    exists s', leads s s' /\ rs_lock s' = RwLock 0 0 /\ rs_threads s' !! t = Some p) as Hfin.
  { intros s2 E2 Hi2 Ht2 Hn2 Hv2. pose proof (leads_to s2 i Writing _ _ Hn2 Hv2 Hi2 eq_refl) as H. eexists. split; [exact H|]. cbn [rs_lock rs_threads]. rewrite E2. split; [done|].
    by rewrite list_lookup_insert_ne. }
  destruct q; cbn in Hqw; try lia.
  - pose proof (leads_to (RwState (RwLock wr 0) l1) i WWait (RwLock wr 0) Writing ltac:(cbn; lia) Hi1 Hq eq_refl) as Hl2. pose proof (ld_len _ _ Hl2) as Hn2. cbn [rs_threads] in Hn2, Hl2.
    destruct (Hfin (RwState (RwLock wr 0) (<[i := Writing]> l1))) as (s3 & Hl3 & H3); cbn [rs_threads].
    + done.
    + apply list_lookup_insert_eq. by apply lookup_lt_Some in Hq.
    + by rewrite list_lookup_insert_ne.
    + lia.
    + apply Hl2.
    + exists s3. split; [|done]. eapply leads_trans; [exact Hl|]. by eapply leads_trans.
  - destruct (Hfin (RwState (RwLock wr 0) l1)) as (s3 & Hl3 & H3); try done; [cbn; lia|]. exists s3. split; [|done]. by eapply leads_trans.
Qed.

(** A thread that wants the lock. *)
Definition wants_read (p : rpc) : Prop := p = RSpin \/ p = RAdd \/ p = RCheck \/ p = RBack.
Definition wants_write (p : rpc) : Prop := p = WSet \/ p = WWait.

(** The thread [t] of a free lock goes on. *)
Lemma free_enter s t p q : zlen (rs_threads s) < INT_MAX -> rw_inv s -> rs_lock s = RwLock 0 0 -> rs_threads s !! t = Some p ->
  (p = RSpin \/ p = RAdd) /\ q = Reading \/ p = WSet /\ q = Writing -> exists s', leads s s' /\ rs_threads s' !! t = Some q.
Proof.
  intros Hn Hi El Hp Hq. pose proof (lookup_lt_Some _ _ _ Hp) as Ht.
  assert (forall s p l r, zlen (rs_threads s) < INT_MAX -> rw_inv s -> rs_threads s !! t = Some p -> rw_step false (rs_lock s) p = (l, r) ->
    (t < length (rs_threads s))%nat -> exists s', leads s s' /\ rs_lock s' = l /\ rs_threads s' !! t = Some r /\ zlen (rs_threads s') < INT_MAX /\ (t < length (rs_threads s'))%nat) as Hgo.
  { clear. intros s p l r Hn Hi Hp E Ht. pose proof (leads_to s t p l r Hn Hi Hp E) as H. eexists. split; [exact H|]. split; [done|]. cbn [rs_threads].
    split; [by apply list_lookup_insert_eq|]. pose proof (ld_len _ _ H) as E'. cbn [rs_threads] in E'. split; [lia|]. by rewrite length_insert. }
  assert (forall s, zlen (rs_threads s) < INT_MAX -> rw_inv s -> rs_lock s = RwLock 0 0 -> rs_threads s !! t = Some RAdd -> (t < length (rs_threads s))%nat ->
    exists s', leads s s' /\ rs_threads s' !! t = Some Reading) as Hadd.
  { clear -Hgo. intros s Hn Hi El Hp Ht. destruct (Hgo s RAdd (RwLock 0 1) RCheck Hn Hi Hp) as (s1 & H1 & E1 & P1 & N1 & T1); [by rewrite El|done|].
    destruct (Hgo s1 RCheck (RwLock 0 1) Reading N1 (ld_inv _ _ H1) P1) as (s2 & H2 & _ & P2 & _); [by rewrite E1|done|]. exists s2. split; [by eapply leads_trans|done]. }
  destruct Hq as [[[-> | ->] ->]|[-> ->]].
  - destruct (Hgo s RSpin (RwLock 0 0) RAdd Hn Hi Hp) as (s1 & H1 & E1 & P1 & N1 & T1); [by rewrite El|done|].
    destruct (Hadd s1 N1 (ld_inv _ _ H1) E1 P1 T1) as (s2 & H2 & P2). exists s2. split; [by eapply leads_trans|done].
  - by apply Hadd.
  - destruct (Hgo s WSet (RwLock 1 0) WWait Hn Hi Hp) as (s1 & H1 & E1 & P1 & N1 & T1); [by rewrite El|done|].
    destruct (Hgo s1 WWait (RwLock 1 0) Writing N1 (ld_inv _ _ H1) P1) as (s2 & H2 & _ & P2 & _); [by rewrite E1|done|]. exists s2. split; [by eapply leads_trans|done].
Qed.

Lemma quiet_enter s t p q : zlen (rs_threads s) < INT_MAX -> rw_inv s -> rs_threads s !! t = Some p ->
  (p = RSpin \/ p = RAdd) /\ q = Reading \/ p = WSet /\ q = Writing -> exists s', leads s s' /\ rs_threads s' !! t = Some q.
Proof.
  intros Hn Hi Hp Hq. destruct (drain_all s t p Hn Hi Hp) as (s1 & H1 & E1 & P1).
  - by destruct Hq as [[[-> | ->] _]|[-> _]].
  - by destruct Hq as [[[-> | ->] _]|[-> _]].
  - destruct (free_enter s1 t p q) as (s2 & H2 & P2); [by rewrite (ld_len _ _ H1)|apply H1|done..|]. exists s2. split; [by eapply leads_trans|done].
Qed.

Lemma enter s t p q : zlen (rs_threads s) < INT_MAX -> rw_inv s -> rs_threads s !! t = Some p ->
  wants_read p /\ q = Reading \/ wants_write p /\ q = Writing -> exists s', leads s s' /\ rs_threads s' !! t = Some q.
Proof.
  intros Hn Hi Hp Hq. pose proof (lookup_lt_Some _ _ _ Hp) as Ht.
  assert (Hback : forall s, zlen (rs_threads s) < INT_MAX -> rw_inv s -> rs_threads s !! t = Some RBack -> (t < length (rs_threads s))%nat -> exists s', leads s s' /\ rs_threads s' !! t = Some Reading).
  { clear. intros s Hn Hi Hp Ht. pose proof (leads_to s t RBack _ _ Hn Hi Hp eq_refl) as H. pose proof (ld_len _ _ H) as E.
    destruct (quiet_enter _ t RSpin Reading ltac:(rewrite E; exact Hn) (ld_inv _ _ H)) as (s2 & H2 & P2); [by apply list_lookup_insert_eq|auto|].
    exists s2. split; [by eapply leads_trans|done]. }
  destruct Hq as [[[-> | [-> | [-> | ->]]] ->]|[[-> | ->] ->]].
  - apply (quiet_enter s t RSpin); auto.
  - apply (quiet_enter s t RAdd); auto.
  - pose proof (leads_to s t RCheck (rs_lock s) (if rw_write (rs_lock s) =? 0 then Reading else RBack) Hn Hi Hp eq_refl) as H. pose proof (ld_len _ _ H) as E.
    destruct (rw_write (rs_lock s) =? 0).
    + eexists. split; [exact H|]. by apply list_lookup_insert_eq.
    + destruct (Hback _ ltac:(rewrite E; exact Hn) (ld_inv _ _ H)) as (s2 & H2 & P2); [by apply list_lookup_insert_eq|cbn [rs_threads]; by rewrite length_insert|].
      exists s2. split; [by eapply leads_trans|done].
  - by apply Hback.
  - apply (quiet_enter s t WSet); auto.
  - pose proof (sum_of_nonneg _ (proj1 (proj2 (proj2 rpc_nonneg))) (rs_threads s)) as H0.
    destruct (drain_readers (Z.to_nat (sum_of counted (rs_threads s))) s) as (s1 & H1 & Hs & Hkeep); [lia|done|done|]. specialize (Hkeep _ _ Hp eq_refl).
    pose proof (ld_len _ _ H1) as E1. pose proof (ld_inv _ _ H1) as Hi1. destruct (leads_to s1 t WWait (rs_lock s1) Writing ltac:(lia) Hi1 Hkeep) as [A B C].
    { cbn [rw_step]. by rewrite (ri_read _ Hi1), Hs. }
    eexists. split; [eapply leads_trans; [exact H1|by constructor]|]. apply list_lookup_insert_eq. by apply lookup_lt_Some in Hkeep.
Qed.

(** C14. The readers-writer lock does not deadlock: from every state the threads
    can reach, and wherever in [rwlock_rlock] or [rwlock_wlock] a thread is,
    there is a schedule after which it has the lock. *)
Theorem rwlock_no_deadlock (n : nat) (s : rwstate) (t : nat) (p : rpc) (Hn : 0 <= Z.of_nat n < INT_MAX) (Hs : rw_reach n s) (Ht : rs_threads s !! t = Some p) :
  (wants_read p -> exists s', rtc rw_next s s' /\ rs_threads s' !! t = Some Reading) /\
  (wants_write p -> exists s', rtc rw_next s s' /\ rs_threads s' !! t = Some Writing).
Proof.
  destruct (rw_reach_inv n s Hn Hs) as [Hi Hz].
  split; intros Hp; [destruct (enter s t p Reading) as (s' & [H1 _ _] & H2)|destruct (enter s t p Writing) as (s' & [H1 _ _] & H2)]; auto; try lia; by exists s'.
Qed.

(** A reader that has to go back while a writer waits for another reader. *)
Theorem rwlock_no_deadlock_witness : exists s, rw_reach 3 s /\ rs_threads s = [WWait; Reading; RBack] /\ exists s', rtc rw_next s s' /\ rs_threads s' !! 2%nat = Some Reading.
Proof.
  assert (rw_reach 3 (RwState (RwLock 1 2) [WWait; Reading; RBack])) as H.
  { eapply rw_more; [|exact (RwNext (RwState (RwLock 1 2) [WWait; Reading; RCheck]) false 2 RCheck eq_refl)]. eapply rw_more; [|exact (RwNext (RwState (RwLock 0 2) [WSet; Reading; RCheck]) false 0 WSet eq_refl)].
    eapply rw_more; [|exact (RwNext (RwState (RwLock 0 1) [WSet; Reading; RAdd]) false 2 RAdd eq_refl)]. eapply rw_more; [|exact (RwNext (RwState (RwLock 0 1) [WSet; Reading; RSpin]) false 2 RSpin eq_refl)].
    eapply rw_more; [|exact (RwNext (RwState (RwLock 0 1) [WSet; Reading; Out]) false 2 Out eq_refl)]. eapply rw_more; [|exact (RwNext (RwState (RwLock 0 1) [WSet; RCheck; Out]) false 1 RCheck eq_refl)].
    eapply rw_more; [|exact (RwNext (RwState (RwLock 0 0) [WSet; RAdd; Out]) false 1 RAdd eq_refl)]. eapply rw_more; [|exact (RwNext (RwState (RwLock 0 0) [WSet; RSpin; Out]) false 1 RSpin eq_refl)].
    eapply rw_more; [|exact (RwNext (RwState (RwLock 0 0) [WSet; Out; Out]) false 1 Out eq_refl)]. eapply rw_more; [|exact (RwNext (RwState (RwLock 0 0) [Out; Out; Out]) true 0 Out eq_refl)]. constructor. }
  eexists. split; [exact H|]. split; [done|]. refine (proj1 (rwlock_no_deadlock 3 _ 2 RBack _ H eq_refl) _); [unfold INT_MAX; lia|by right; right; right].
Defined.
