(* ===== verification/Stm.v ===== *)
(** * Shared objects (lualib-src/lua-stm.c)

    A writer service publishes versions of a message, reader services of other
    threads take the newest one: a reference-counted object under a
    readers-writer lock with a reference-counted copy. The functions are cut
    where they touch shared memory: each access and each passage of the lock is
    one step. The lock is the abstract one of Lock.v. One object is modelled;
    objects share nothing. *)
From S2P Require Import Prelude Lock.

(** ** Data *)

Record stm_copy : Set := StmCopy {
  cp_reference : Z;
  cp_sz : Z;
  cp_msg : Z
}.

Record stm_object : Set := StmObject {
  ob_lock : sections;
  ob_reference : Z;
  ob_copy : option nat
}.

(** Memory: the object and the copies that are not freed; the messages that are
    freed; the number of pointers [lcopy] returned that wait for [lnewreader]. *)
Record mem : Set := Mem {
  m_obj : option stm_object;
  m_copies : gmap nat stm_copy;
  m_freed : list Z;
  m_sent : Z
}.

Definition set_obj (o : option stm_object) (m : mem) : mem := Mem o (m_copies m) (m_freed m) (m_sent m).
Definition set_copies (c : gmap nat stm_copy) (m : mem) : mem := Mem (m_obj m) c (m_freed m) (m_sent m).
Definition set_sent (n : Z) (m : mem) : mem := Mem (m_obj m) (m_copies m) (m_freed m) n.

(** ** Where a thread is

    [Release c k]: in [stm_releasecopy], to go on with [k]; [Freeing]: its
    reference was the last. A reader's first argument is [box->lastcopy]. *)
Inductive pc : Set :=
(* the service with the writer's box *)
| Writer
| GrabLock | GrabIn | GrabOut (ref : Z)
| UpdateLock (copy : nat) | UpdateIn (copy : nat) | UpdateOut (oldcopy : option nat)
| Delete | DeleteLock | DeleteIn | DeleteEnd | DeleteOut | DeleteFree
(* a service with a reader's box *)
| Reader (last : option nat)
| ReadLock (last : option nat) | ReadIn (last : option nat) | ReadRef (last : option nat) (ret : nat)
| ReadOut (last ret : option nat)
| CloseLock (last : option nat) | CloseIn (last : option nat) | CloseOut (last : option nat) | CloseFree (last : option nat)
(* both *)
| Release (copy : option nat) (k : pc) | Freeing (copy : nat) (k : pc)
| Gone.

(** What an idle thread calls; [Update c msg sz]: [stm_newcopy] returned [c]. *)
Inductive call : Set := Grab | Update (c : nat) (msg sz : Z) | Drop | Read | Close.

(** ** The lock *)

Definition with_obj (m : mem) (f : stm_object -> option (result (mem * pc))) : option (result (mem * pc)) :=
  match m_obj m with None => Some Fault | Some o => f o end.

Definition set_lock (r w : Z) (o : stm_object) : stm_object := StmObject (Sections r w) (ob_reference o) (ob_copy o).

(** [None]: the thread waits. *)
Definition rlock (m : mem) (k : pc) : option (result (mem * pc)) :=
  with_obj m (fun o =>
    if sc_writers (ob_lock o) =? 0 then Some (Ok (set_obj (Some (set_lock (sc_readers (ob_lock o) + 1) 0 o)) m, k)) else None).

Definition wlock (m : mem) (k : pc) : option (result (mem * pc)) :=
  with_obj m (fun o =>
    if (sc_readers (ob_lock o) =? 0) && (sc_writers (ob_lock o) =? 0) then Some (Ok (set_obj (Some (set_lock 0 1 o)) m, k)) else None).

Definition runlock (m : mem) (k : pc) : option (result (mem * pc)) :=
  with_obj m (fun o => Some (Ok (set_obj (Some (set_lock (sc_readers (ob_lock o) - 1) (sc_writers (ob_lock o)) o)) m, k))).

Definition wunlock (m : mem) (k : pc) : option (result (mem * pc)) :=
  with_obj m (fun o => Some (Ok (set_obj (Some (set_lock (sc_readers (ob_lock o)) 0 o)) m, k))).

(** ** The functions *)

Definition stm_newcopy (c : nat) (msg sz : Z) (m : mem) : mem := set_copies (<[c := StmCopy 1 (u32 sz) msg]> (m_copies m)) m.

Definition stm_new (c : nat) (msg sz : Z) : mem :=
  stm_newcopy c msg sz (Mem (Some (StmObject (Sections 0 0) 1 (Some c))) ∅ [] 0).

Definition add_reference (n : Z) (x : stm_copy) : stm_copy := StmCopy (cp_reference x + n) (cp_sz x) (cp_msg x).

Definition stm_releasecopy (m : mem) (copy : option nat) (k : pc) : option (result (mem * pc)) :=
  match copy with
  | None => Some (Ok (m, k))
  | Some c =>
      Some (x ← deref (m_copies m !! c);
            let m := set_copies (<[c := add_reference (-1) x]> (m_copies m)) m in
            Ok (m, if cp_reference x - 1 =? 0 then Freeing c k else k))
  end.

(** [skynet_free(copy->msg); skynet_free(copy)] *)
Definition free_copy (m : mem) (c : nat) (k : pc) : option (result (mem * pc)) :=
  Some (x ← deref (m_copies m !! c);
        Ok (Mem (m_obj m) (delete c (m_copies m)) (m_freed m ++ [cp_msg x]) (m_sent m), k)).

Definition add_ref (n : Z) (o : stm_object) : stm_object := StmObject (ob_lock o) (ob_reference o + n) (ob_copy o).
Definition set_copy (c : option nat) (o : stm_object) : stm_object := StmObject (ob_lock o) (ob_reference o) c.

Definition stm_grab (m : mem) (p : pc) : option (result (mem * pc)) :=
  match p with
  | GrabLock => rlock m GrabIn
  | GrabIn => with_obj m (fun o => Some (Ok (set_obj (Some (add_ref 1 o)) m, GrabOut (ob_reference o))))
  | GrabOut ref => if 0 <? ref then runlock (set_sent (m_sent m + 1) m) Writer else Some Fault
  | _ => None
  end.

Definition stm_update (m : mem) (p : pc) : option (result (mem * pc)) :=
  match p with
  | UpdateLock c => wlock m (UpdateIn c)
  | UpdateIn c => with_obj m (fun o => Some (Ok (set_obj (Some (set_copy (Some c) o)) m, UpdateOut (ob_copy o))))
  | UpdateOut old => wunlock m (Release old Writer)
  | _ => None
  end.

Definition stm_release (m : mem) (p : pc) : option (result (mem * pc)) :=
  match p with
  | Delete => with_obj m (fun o => match ob_copy o with Some _ => Some (Ok (m, DeleteLock)) | None => Some Fault end)
  | DeleteLock => wlock m DeleteIn
  | DeleteIn => with_obj m (fun o => Some (Ok (m, Release (ob_copy o) DeleteEnd)))
  | DeleteEnd => with_obj m (fun o =>
      let o := add_ref (-1) (set_copy None o) in
      Some (Ok (set_obj (Some o) m, if 0 <? ob_reference o then DeleteOut else DeleteFree)))
  | DeleteOut => wunlock m Gone
  | DeleteFree => with_obj m (fun _ => Some (Ok (set_obj None m, Gone)))
  | _ => None
  end.

Definition stm_releasereader (m : mem) (p : pc) : option (result (mem * pc)) :=
  match p with
  | CloseLock last => rlock m (CloseIn last)
  | CloseIn last => with_obj m (fun o =>
      Some (Ok (set_obj (Some (add_ref (-1) o)) m, if ob_reference o - 1 =? 0 then CloseFree last else CloseOut last)))
  | CloseOut last => runlock m (Release last Gone)
  | CloseFree last => with_obj m (fun o =>
      match ob_copy o with None => Some (Ok (set_obj None m, Release last Gone)) | Some _ => Some Fault end)
  | _ => None
  end.

(** [stm_copy], then the comparison with [box->lastcopy] in [lread]. *)
Definition stm_read (m : mem) (p : pc) : option (result (mem * pc)) :=
  match p with
  | ReadLock last => rlock m (ReadIn last)
  | ReadIn last => with_obj m (fun o =>
      Some (Ok (m, match ob_copy o with Some c => ReadRef last c | None => ReadOut last None end)))
  | ReadRef last c =>
      Some (x ← deref (m_copies m !! c);
            _ ← assert_ (0 <? cp_reference x);
            Ok (set_copies (<[c := add_reference 1 x]> (m_copies m)) m, ReadOut last (Some c)))
  | ReadOut last ret =>
      runlock m (if bool_decide (ret = last) then Release ret (Reader last) else Release last (Reader ret))
  | _ => None
  end.

Definition step (ch : call) (m : mem) (p : pc) : option (result (mem * pc)) :=
  match p with
  | Writer =>
      match ch with
      | Grab => Some (Ok (m, GrabLock))
      | Update c msg sz => if bool_decide (m_copies m !! c = None) then Some (Ok (stm_newcopy c msg sz m, UpdateLock c)) else None
      | Drop => Some (Ok (m, Delete))
      | _ => None
      end
  | Reader last =>
      match ch with
      | Read => Some (Ok (m, ReadLock last))
      | Close => Some (Ok (m, CloseLock last))
      | _ => None
      end
  | GrabLock | GrabIn | GrabOut _ => stm_grab m p
  | UpdateLock _ | UpdateIn _ | UpdateOut _ => stm_update m p
  | Delete | DeleteLock | DeleteIn | DeleteEnd | DeleteOut | DeleteFree => stm_release m p
  | ReadLock _ | ReadIn _ | ReadRef _ _ | ReadOut _ _ => stm_read m p
  | CloseLock _ | CloseIn _ | CloseOut _ | CloseFree _ => stm_releasereader m p
  | Release c k => stm_releasecopy m c k
  | Freeing c k => free_copy m c k
  | Gone => None
  end.

(** ** Threads *)

Record stm : Set := Stm {
  st_mem : mem;
  st_threads : list pc
}.

(** A thread takes a step, or a service makes a reader of a pointer it got. *)
Inductive stm_next (s : stm) : stm -> Prop :=
| Step i p ch m q : st_threads s !! i = Some p -> step ch (st_mem s) p = Some (Ok (m, q)) -> stm_next s (Stm m (<[i := q]> (st_threads s)))
| NewReader : 0 < m_sent (st_mem s) -> stm_next s (Stm (set_sent (m_sent (st_mem s) - 1) (st_mem s)) (st_threads s ++ [Reader None])).

Inductive stm_reach : stm -> Prop :=
| stm_start c msg sz : stm_reach (Stm (stm_new c msg sz) [Writer])
| stm_more s s' : stm_reach s -> stm_next s s' -> stm_reach s'.

(** The next step of thread [i] touches memory that is freed or fails an assertion. *)
Definition stm_faults (s : stm) (i : nat) : Prop := exists p ch, st_threads s !! i = Some p /\ step ch (st_mem s) p = Some Fault.

(** ** What a thread owns *)

(** The threads of the writer's service; references to the object; the writer's
    one among them. *)
Fixpoint of_writer (p : pc) : Z :=
  match p with
  | Writer | GrabLock | GrabIn | GrabOut _ | UpdateLock _ | UpdateIn _ | UpdateOut _ | Delete | DeleteLock | DeleteIn | DeleteEnd | DeleteOut | DeleteFree => 1
  | Release _ k | Freeing _ k => of_writer k
  | _ => 0
  end.

Fixpoint obj_refs (p : pc) : Z :=
  match p with
  | GrabOut _ => 2
  | DeleteOut | DeleteFree | CloseOut _ | CloseFree _ | Gone => 0
  | Release _ k | Freeing _ k => obj_refs k
  | _ => 1
  end.

Fixpoint writer_refs (p : pc) : Z :=
  match p with
  | Writer | GrabLock | GrabIn | GrabOut _ | UpdateLock _ | UpdateIn _ | UpdateOut _ | Delete | DeleteLock | DeleteIn | DeleteEnd => 1
  | Release _ k | Freeing _ k => writer_refs k
  | _ => 0
  end.

(** Threads in a section; those that may still use the object although they
    have no reference to it are left out of [needs_obj]. *)
Fixpoint in_read (p : pc) : Z :=
  match p with
  | GrabIn | GrabOut _ | ReadIn _ | ReadRef _ _ | ReadOut _ _ | CloseIn _ | CloseOut _ | CloseFree _ => 1
  | Release _ k | Freeing _ k => in_read k
  | _ => 0
  end.

Fixpoint in_write (p : pc) : Z :=
  match p with
  | UpdateIn _ | UpdateOut _ | DeleteIn | DeleteEnd | DeleteOut | DeleteFree => 1
  | Release _ k | Freeing _ k => in_write k
  | _ => 0
  end.

Fixpoint closing (p : pc) : Z := match p with CloseOut _ => 1 | Release _ k | Freeing _ k => closing k | _ => 0 end.
Definition needs_obj (p : pc) : Z := in_read p + in_write p - closing p.

(** The thread that found the last reference to the object. *)
Fixpoint frees_obj (p : pc) : Z := match p with DeleteFree | CloseFree _ => 1 | Release _ k | Freeing _ k => frees_obj k | _ => 0 end.

(** Between the release of [obj->copy] and its reset. *)
Fixpoint deleting (p : pc) : Z :=
  match p with DeleteEnd => 1 | Release _ k | Freeing _ k => deleting k | _ => 0 end.

Definition held (o : option nat) (c : nat) : Z := if decide (o = Some c) then 1 else 0.

(** References to the copy [c], and threads that free it. *)
Fixpoint copy_refs (c : nat) (p : pc) : Z :=
  match p with
  | UpdateLock x | UpdateIn x => held (Some x) c
  | UpdateOut old => held old c
  | Reader l | ReadLock l | ReadIn l | ReadRef l _ | CloseLock l | CloseIn l | CloseOut l | CloseFree l => held l c
  | ReadOut l r => held l c + held r c
  | Release x k => held x c + copy_refs c k
  | Freeing _ k => copy_refs c k
  | _ => 0
  end.

Fixpoint frees_copy (c : nat) (p : pc) : Z :=
  match p with
  | Freeing x k => held (Some x) c + frees_copy c k
  | Release _ k => frees_copy c k
  | _ => 0
  end.

Lemma held_nonneg o c : 0 <= held o c.
Proof. unfold held. destruct (decide _); lia. Qed.

Lemma held_None c : held None c = 0.
Proof. done. Qed.

Lemma weights_nonneg : (forall p, 0 <= of_writer p) /\ (forall p, 0 <= obj_refs p) /\ (forall p, 0 <= writer_refs p) /\ (forall p, 0 <= in_read p) /\ (forall p, 0 <= in_write p) /\
  (forall p, 0 <= needs_obj p) /\ (forall p, 0 <= frees_obj p) /\ (forall p, 0 <= deleting p) /\ (forall c p, 0 <= copy_refs c p) /\ (forall c p, 0 <= frees_copy c p) /\ (forall p, 0 <= closing p).
Proof.
  repeat match goal with |- _ /\ _ => split end; intros; try (unfold needs_obj; induction p; cbn in *; lia).
  - induction p; cbn; repeat match goal with |- context [held ?a ?b] => pose proof (held_nonneg a b); set (held a b) in * end; lia.
  - induction p; cbn; try lia. pose proof (held_nonneg (Some copy) c). lia.
Qed.

(** [f] is at most [g], with room at the thread [x]. *)
Lemma sum_of_le_at {A} (f g : A -> Z) l i x : (forall x, f x <= g x) -> l !! i = Some x -> sum_of f l + (g x - f x) <= sum_of g l.
Proof.
  intros H. revert i. induction l as [|a l IH]; intros [|i] Hi; cbn in *; [done..|injection Hi as ->; pose proof (sum_of_le f g l H); lia|]. specialize (H a). specialize (IH i Hi). lia.
Qed.

Lemma refs_le : (forall p, deleting p <= in_write p) /\ (forall p, in_write p <= of_writer p) /\ (forall p, writer_refs p <= of_writer p) /\ (forall p, writer_refs p <= obj_refs p) /\
  (forall p, frees_obj p <= in_read p + in_write p - closing p) /\ (forall p, in_read p - closing p <= obj_refs p + frees_obj p).
Proof.
  repeat match goal with |- _ /\ _ => split end; intros p; induction p; cbn; lia.
Qed.

(** ** The invariant *)

Definition obj_ok (o : option stm_object) (sent : Z) (l : list pc) : Prop :=
  match o with
  | Some o =>
      sum_of in_read l = sc_readers (ob_lock o) /\ sum_of in_write l = sc_writers (ob_lock o) /\ (sc_readers (ob_lock o) = 0 \/ sc_writers (ob_lock o) = 0) /\
      ob_reference o = sent + sum_of obj_refs l /\ sum_of writer_refs l = (if ob_copy o then 1 else 0) /\ sum_of frees_obj l = (if ob_reference o =? 0 then 1 else 0)
  | None => sent = 0 /\ sum_of obj_refs l = 0 /\ sum_of needs_obj l = 0
  end.

(** The copy new readers get. *)
Definition published (m : mem) (l : list pc) : option nat :=
  match m_obj m with Some o => if sum_of deleting l =? 0 then ob_copy o else None | None => None end.

(** A copy counts its references; without any it is being freed. *)
Definition copy_ok (x : option stm_copy) (n f : Z) : Prop :=
  match x with Some x => cp_reference x = n /\ f = (if n =? 0 then 1 else 0) | None => n = 0 /\ f = 0 end.

Definition copies_ok (m : mem) (l : list pc) : Prop :=
  forall c, copy_ok (m_copies m !! c) (held (published m l) c + sum_of (copy_refs c) l) (sum_of (frees_copy c) l).

(** What a function goes on with after [stm_releasecopy]. *)
Definition resumes (k : pc) : Prop := match k with Writer | DeleteEnd | Reader _ | Gone => True | _ => False end.

Definition local (o : option stm_object) (p : pc) : Prop :=
  match p with
  | ReadRef _ c => exists x, o = Some x /\ ob_copy x = Some c
  | GrabOut r => 0 < r
  | Release _ k | Freeing _ k => resumes k
  | _ => True
  end.

Record inv (s : stm) : Prop := Inv {
  iv_sent : 0 <= m_sent (st_mem s);
  iv_writer : sum_of of_writer (st_threads s) <= 1;
  iv_obj : obj_ok (m_obj (st_mem s)) (m_sent (st_mem s)) (st_threads s);
  iv_copies : copies_ok (st_mem s) (st_threads s);
  iv_local : forall i p, st_threads s !! i = Some p -> local (m_obj (st_mem s)) p
}.

Lemma local_resumes o k : resumes k -> local o k.
Proof. by destruct k. Qed.

(** The object is still there, with the same copy. *)
Definition same_copy (o o' : option stm_object) : Prop :=
  match o with Some x => exists x', o' = Some x' /\ ob_copy x' = ob_copy x | None => True end.

Lemma local_same o o' p : same_copy o o' -> local o p -> local o' p.
Proof. destruct p; try done. intros Hs (x & -> & Hx). destruct Hs as (x' & -> & Hx'). exists x'. split; [done|congruence]. Qed.

Lemma local_no_reader o o' l : sum_of in_read l = 0 -> (forall i p, l !! i = Some p -> local o p) -> forall i p, l !! i = Some p -> local o' p.
Proof.
  destruct weights_nonneg as (_ & _ & _ & N & _). intros H0 H i p Hi. specialize (H i p Hi). destruct p; try done. pose proof (sum_of_lookup _ N _ _ _ Hi) as H1. cbn in H1. lia.
Qed.

Section step.
Context (s : stm) (i : nat) (p : pc) (H : inv s) (Hi : st_threads s !! i = Some p).
Let l := st_threads s.

Lemma inv_thread m q : 0 <= m_sent m -> of_writer q <= of_writer p -> obj_ok (m_obj m) (m_sent m) (<[i := q]> l) -> copies_ok m (<[i := q]> l) ->
  local (m_obj m) q -> (forall j p', l !! j = Some p' -> j <> i -> local (m_obj m) p') -> inv (Stm m (<[i := q]> l)).
Proof using H Hi.
  intros H1 H2 H3 H4 H5 H6. constructor; cbn [st_mem st_threads]; try done.
  - unfold l. rewrite (sum_of_insert _ _ _ _ _ Hi). pose proof (iv_writer _ H). lia.
  - intros j p' Hj. destruct (decide (j = i)) as [->|Hne].
    + rewrite list_lookup_insert_eq in Hj; [by injection Hj as <-|]. by apply lookup_lt_Some in Hi.
    + rewrite list_lookup_insert_ne in Hj by done. by apply (H6 j).
Qed.

(** The other copies, and this one when nothing about it changes. *)
Lemma copy_same m q c : m_copies m !! c = m_copies (st_mem s) !! c ->
  held (published m (<[i := q]> l)) c + copy_refs c q = held (published (st_mem s) l) c + copy_refs c p -> frees_copy c q = frees_copy c p ->
  copy_ok (m_copies m !! c) (held (published m (<[i := q]> l)) c + sum_of (copy_refs c) (<[i := q]> l)) (sum_of (frees_copy c) (<[i := q]> l)).
Proof using H Hi.
  intros E1 E2 E3. unfold l in *. rewrite !(sum_of_insert _ _ _ _ _ Hi), E1. pose proof (iv_copies _ H c) as Hc.
  replace (held (published m (<[i:=q]> (st_threads s))) c + (sum_of (copy_refs c) (st_threads s) - copy_refs c p + copy_refs c q)) with (held (published (st_mem s) (st_threads s)) c + sum_of (copy_refs c) (st_threads s)) by lia.
  by replace (sum_of (frees_copy c) (st_threads s) - frees_copy c p + frees_copy c q) with (sum_of (frees_copy c) (st_threads s)) by lia.
Qed.

Lemma copies_same m q : m_copies m = m_copies (st_mem s) ->
  (forall c, held (published m (<[i := q]> l)) c + copy_refs c q = held (published (st_mem s) l) c + copy_refs c p) -> (forall c, frees_copy c q = frees_copy c p) ->
  copies_ok m (<[i := q]> l).
Proof using H Hi. intros E1 E2 E3 c. apply copy_same; [by rewrite E1|done..]. Qed.

(** A step that leaves the object alone. *)
Definition same_weight (q : pc) : Prop :=
  of_writer q = of_writer p /\ in_read q = in_read p /\ in_write q = in_write p /\ obj_refs q = obj_refs p /\ writer_refs q = writer_refs p /\ frees_obj q = frees_obj p /\ closing q = closing p.

Lemma obj_same q sent : same_weight q -> sent = m_sent (st_mem s) -> obj_ok (m_obj (st_mem s)) sent (<[i := q]> l).
Proof using H Hi.
  intros (E1 & E2 & E3 & E4 & E5 & E6 & E7) ->. pose proof (iv_obj _ H) as Ho. unfold l, obj_ok in *. destruct (m_obj (st_mem s)); rewrite !(sum_of_insert _ _ _ _ _ Hi); unfold needs_obj in *.
  - rewrite E2, E3, E4, E5, E6. repeat split; try apply Ho; lia.
  - rewrite E2, E3, E4, E7. lia.
Qed.

Lemma published_same m q : m_obj m = m_obj (st_mem s) -> deleting q = deleting p -> published m (<[i := q]> l) = published (st_mem s) l.
Proof using H Hi.
  intros E Ed. unfold published, l. rewrite E, (sum_of_insert _ _ _ _ _ Hi), Ed. by replace (sum_of deleting (st_threads s) - deleting p + deleting p) with (sum_of deleting (st_threads s)) by lia.
Qed.

(** Such a step between two points of a function. *)
Lemma inv_idle q : same_weight q -> deleting q = deleting p -> (forall c, copy_refs c q = copy_refs c p) -> (forall c, frees_copy c q = frees_copy c p) ->
  local (m_obj (st_mem s)) q -> inv (Stm (st_mem s) (<[i := q]> l)).
Proof using H Hi.
  intros Hw Hd Hc Hf Hl. apply inv_thread; [apply H|destruct Hw; lia|by apply obj_same| |done|intros j p' Hj _; by apply (iv_local _ H j)].
  apply copies_same; [done| |done]. intros c. by rewrite published_same, Hc.
Qed.

End step.

(** The facts about the thread [i] in [p] and the sums over all threads. *)
Ltac facts Hi :=
  let N := fresh "N" in pose proof weights_nonneg as N; destruct N as (N1 & N2 & N3 & N4 & N5 & N6 & N7 & N8 & N9 & N10 & N11);
  let L := fresh "L" in pose proof refs_le as L; destruct L as (L1 & L2 & L3 & L4 & L5 & L6);
  pose proof (sum_of_lookup _ N1 _ _ _ Hi); pose proof (sum_of_lookup _ N2 _ _ _ Hi); pose proof (sum_of_lookup _ N3 _ _ _ Hi); pose proof (sum_of_lookup _ N4 _ _ _ Hi);
  pose proof (sum_of_lookup _ N5 _ _ _ Hi); pose proof (sum_of_lookup _ N6 _ _ _ Hi); pose proof (sum_of_lookup _ N7 _ _ _ Hi); pose proof (sum_of_lookup _ N8 _ _ _ Hi);
  pose proof (sum_of_le_at _ _ _ _ _ L1 Hi); pose proof (sum_of_le_at _ _ _ _ _ L2 Hi); pose proof (sum_of_le_at _ _ _ _ _ L3 Hi); pose proof (sum_of_le_at _ _ _ _ _ L4 Hi);
  match type of Hi with ?l !! _ = Some ?p =>
    pose proof (L1 p); pose proof (L2 p); pose proof (L3 p); pose proof (L4 p); pose proof (L5 p); pose proof (L6 p); pose proof (N8 p);
    pose proof (sum_of_nonneg _ N2 l); pose proof (sum_of_nonneg _ N3 l); pose proof (sum_of_nonneg _ N4 l); pose proof (sum_of_nonneg _ N5 l); pose proof (sum_of_nonneg _ N6 l);
    pose proof (sum_of_nonneg _ N7 l); pose proof (sum_of_nonneg _ N8 l) end.

Section moves.
Context (s : stm) (i : nat) (p : pc) (H : inv s) (Hi : st_threads s !! i = Some p).
Let l := st_threads s.

(** The object stays, with its copy. *)
Lemma inv_some m q o o' : m_obj (st_mem s) = Some o -> m_obj m = Some o' -> m_copies m = m_copies (st_mem s) -> 0 <= m_sent m -> of_writer q <= of_writer p ->
  sc_readers (ob_lock o') = sc_readers (ob_lock o) + in_read q - in_read p -> sc_writers (ob_lock o') = sc_writers (ob_lock o) + in_write q - in_write p ->
  sc_readers (ob_lock o') = 0 \/ sc_writers (ob_lock o') = 0 -> ob_reference o' = ob_reference o + (m_sent m - m_sent (st_mem s)) + obj_refs q - obj_refs p ->
  ob_copy o' = ob_copy o -> writer_refs q = writer_refs p ->
  frees_obj q - frees_obj p = (if ob_reference o' =? 0 then 1 else 0) - (if ob_reference o =? 0 then 1 else 0) -> deleting q = deleting p ->
  (forall c, copy_refs c q = copy_refs c p) -> (forall c, frees_copy c q = frees_copy c p) -> local (m_obj m) q -> inv (Stm m (<[i := q]> l)).
Proof using H Hi.
  intros Eo Em Ec Hs Hw Hr Hwr Hx Href Hcp Hwref Hf Hd Hcr Hfc Hl. apply (inv_thread s i p H Hi); try done.
  - pose proof (iv_obj _ H) as Ho. rewrite Eo in Ho. rewrite Em. unfold l, obj_ok in *. rewrite !(sum_of_insert _ _ _ _ _ Hi), Hcp. destruct Ho as (A1 & A2 & A3 & A4 & A5 & A6). repeat split; try done; lia.
  - apply (copies_same s i p H Hi); [done| |done]. intros c. rewrite Hcr. f_equal. unfold published, l. rewrite Eo, Em, Hcp, (sum_of_insert _ _ _ _ _ Hi), Hd.
    by replace (sum_of deleting (st_threads s) - deleting p + deleting p) with (sum_of deleting (st_threads s)) by lia.
  - intros j p' Hj _. eapply local_same; [|by apply (iv_local _ H j)]. rewrite Eo, Em. cbn. by exists o'.
Qed.

(** A thread with a reference finds the object. *)
Lemma obj_there : 0 < obj_refs p \/ 0 < needs_obj p -> exists o, m_obj (st_mem s) = Some o.
Proof using H Hi.
  intros Hp. pose proof (iv_obj _ H) as Ho. pose proof (iv_sent _ H). destruct (m_obj (st_mem s)) as [o|]; [by exists o|]. cbn in Ho. facts Hi. lia.
Qed.

(** The reference count of the object is not 0 yet. *)
Lemma obj_referenced o : m_obj (st_mem s) = Some o -> 0 < obj_refs p -> 0 < ob_reference o.
Proof using H Hi. intros Eo Hp. pose proof (iv_obj _ H) as Ho. pose proof (iv_sent _ H). rewrite Eo in Ho. cbn in Ho. facts Hi. lia. Qed.

(** A copy somebody refers to is there. *)
Lemma copy_there c : 0 < held (published (st_mem s) l) c + copy_refs c p ->
  exists x, m_copies (st_mem s) !! c = Some x /\ cp_reference x = held (published (st_mem s) l) c + sum_of (copy_refs c) l /\ 0 < cp_reference x /\ sum_of (frees_copy c) l = 0.
Proof using H Hi.
  intros Hp. pose proof (iv_copies _ H c) as Hc. fold l in Hc. destruct weights_nonneg as (_ & _ & _ & _ & _ & _ & _ & _ & N9 & _). pose proof (sum_of_lookup _ (N9 c) _ _ _ Hi) as H1. fold l in H1.
  pose proof (held_nonneg (published (st_mem s) l) c). destruct (m_copies (st_mem s) !! c) as [x|]; cbn in Hc; [|lia]. exists x. destruct Hc as [E1 E2]. split; [done|]. split; [done|]. split; [lia|].
  destruct (Z.eqb_spec (held (published (st_mem s) l) c + sum_of (copy_refs c) l) 0); [lia|done].
Qed.

(** Nobody else is in the middle of deleting the object. *)
Lemma not_deleting : in_write p = 0 -> closing p = 0 -> 0 < in_read p -> sum_of deleting l = 0.
Proof using H Hi.
  intros Hw Hc Hr. destruct obj_there as [o Eo]; [unfold needs_obj; lia|].
  pose proof (iv_obj _ H) as Ho. rewrite Eo in Ho. cbn in Ho. unfold l. facts Hi. lia.
Qed.

End moves.

(** The conditions of [inv_some] for concrete points of a function. *)
Ltac move_some := cbn [m_obj m_copies m_sent set_obj set_sent ob_lock ob_reference ob_copy sc_readers sc_writers set_lock add_ref of_writer in_read in_write obj_refs writer_refs frees_obj
  deleting copy_refs frees_copy local resumes]; first [done|lia|(right; lia)|(left; lia)|idtac].

Section functions.
Context (s : stm) (i : nat) (p : pc) (H : inv s) (Hi : st_threads s !! i = Some p).
Let l := st_threads s.

Lemma lock_ok o : m_obj (st_mem s) = Some o -> sum_of in_read l = sc_readers (ob_lock o) /\ sum_of in_write l = sc_writers (ob_lock o) /\ (sc_readers (ob_lock o) = 0 \/ sc_writers (ob_lock o) = 0).
Proof using H Hi. intros Eo. pose proof (iv_obj _ H) as Ho. rewrite Eo in Ho. cbn in Ho. tauto. Qed.

Lemma inv_rlock m q k : rlock (st_mem s) k = Some (Ok (m, q)) -> of_writer k = of_writer p -> in_read k = in_read p + 1 -> in_write k = in_write p -> obj_refs k = obj_refs p ->
  writer_refs k = writer_refs p -> frees_obj k = frees_obj p -> deleting k = deleting p -> (forall c, copy_refs c k = copy_refs c p) -> (forall c, frees_copy c k = frees_copy c p) ->
  (forall o, local o k) -> inv (Stm m (<[i := q]> l)).
Proof using H Hi.
  unfold rlock, with_obj. destruct (m_obj (st_mem s)) as [o|] eqn:Eo; [|done]. destruct (Z.eqb_spec (sc_writers (ob_lock o)) 0) as [E|]; [|done]. intros [= <- <-].
  intros. pose proof (iv_sent _ H). eapply (inv_some s i p H Hi _ _ o); try done; move_some. all: by destruct (_ =? 0); lia.
Qed.

Lemma inv_runlock m0 m q k : runlock m0 k = Some (Ok (m, q)) -> m_obj m0 = m_obj (st_mem s) -> m_copies m0 = m_copies (st_mem s) -> m_sent (st_mem s) <= m_sent m0 ->
  of_writer k = of_writer p -> in_read k = in_read p - 1 -> in_write k = in_write p -> obj_refs k = obj_refs p - (m_sent m0 - m_sent (st_mem s)) ->
  writer_refs k = writer_refs p -> frees_obj k = frees_obj p -> deleting k = deleting p -> (forall c, copy_refs c k = copy_refs c p) -> (forall c, frees_copy c k = frees_copy c p) ->
  (forall o, local o k) -> inv (Stm m (<[i := q]> l)).
Proof using H Hi.
  unfold runlock, with_obj. intros Hs Em Ec Hsent. rewrite Em in Hs. destruct (m_obj (st_mem s)) as [o|] eqn:Eo; [|done]. injection Hs as <- <-.
  intros. pose proof (iv_sent _ H). pose proof (lock_ok o Eo) as (A1 & A2 & A3). destruct weights_nonneg as (_ & _ & _ & N4 & _). pose proof (sum_of_lookup _ N4 _ _ _ Hi) as Hr. pose proof (N4 k).
  eapply (inv_some s i p H Hi _ _ o); try done; unfold l in *; move_some. all: by destruct (_ =? 0); lia.
Qed.

Lemma inv_wlock m q k : wlock (st_mem s) k = Some (Ok (m, q)) -> of_writer k = of_writer p -> in_read k = in_read p -> in_write k = in_write p + 1 -> obj_refs k = obj_refs p ->
  writer_refs k = writer_refs p -> frees_obj k = frees_obj p -> deleting k = deleting p -> (forall c, copy_refs c k = copy_refs c p) -> (forall c, frees_copy c k = frees_copy c p) ->
  (forall o, local o k) -> inv (Stm m (<[i := q]> l)).
Proof using H Hi.
  unfold wlock, with_obj. destruct (m_obj (st_mem s)) as [o|] eqn:Eo; [|done]. destruct (Z.eqb_spec (sc_readers (ob_lock o)) 0) as [E|]; [|done]. destruct (Z.eqb_spec (sc_writers (ob_lock o)) 0) as [E'|]; [|done]. intros [= <- <-].
  intros. pose proof (iv_sent _ H). eapply (inv_some s i p H Hi _ _ o); try done; move_some. all: by destruct (_ =? 0); lia.
Qed.

Lemma inv_wunlock m q k : wunlock (st_mem s) k = Some (Ok (m, q)) -> of_writer k <= of_writer p -> in_read k = in_read p -> in_write p = 1 -> in_write k = 0 -> obj_refs k = obj_refs p ->
  writer_refs k = writer_refs p -> frees_obj k = frees_obj p -> deleting k = deleting p -> (forall c, copy_refs c k = copy_refs c p) -> (forall c, frees_copy c k = frees_copy c p) ->
  (forall o, local o k) -> inv (Stm m (<[i := q]> l)).
Proof using H Hi.
  unfold wunlock, with_obj. destruct (m_obj (st_mem s)) as [o|] eqn:Eo; [|done]. intros [= <- <-].
  intros. pose proof (iv_sent _ H). pose proof (lock_ok o Eo) as (A1 & A2 & A3). pose proof (iv_writer _ H). facts Hi. unfold l in *.
  eapply (inv_some s i p H Hi _ _ o); try done; move_some. all: by destruct (_ =? 0); lia.
Qed.

End functions.

Lemma stm_inv_grab s i p m q : inv s -> st_threads s !! i = Some p -> stm_grab (st_mem s) p = Some (Ok (m, q)) -> inv (Stm m (<[i := q]> (st_threads s))).
Proof.
  intros H Hi Hs. destruct p; try discriminate Hs; cbn [stm_grab] in Hs.
  - by eapply (inv_rlock s i _ H Hi).
  - unfold with_obj in Hs. destruct (m_obj (st_mem s)) as [o|] eqn:Eo; [|done]. injection Hs as <- <-. pose proof (obj_referenced s i _ H Hi o Eo eq_refl) as Hr. pose proof (iv_sent _ H).
    destruct (lock_ok s i _ H Hi o Eo) as (_ & _ & A3). eapply (inv_some s i _ H Hi _ _ o); try done; move_some. by zprune.
  - pose proof (iv_local _ H i _ Hi) as Hl. cbn in Hl. destruct (Z.ltb_spec 0 ref) as [_|]; [|done]. eapply (inv_runlock s i _ H Hi); try done; cbn; lia.
Qed.

Lemma sum_of_add {A} (f g : A -> Z) l : sum_of (fun x => f x + g x) l = sum_of f l + sum_of g l.
Proof. induction l as [|a l IH]; cbn; lia. Qed.

Lemma needs_le p : needs_obj p <= in_read p + in_write p /\ needs_obj p <= obj_refs p + (frees_obj p + in_write p).
Proof. destruct weights_nonneg as (_ & _ & _ & _ & _ & _ & _ & _ & _ & _ & N). destruct refs_le as (_ & _ & _ & _ & _ & L). specialize (N p). specialize (L p). unfold needs_obj. lia. Qed.

(** The thread that found the last reference frees the object. *)
Lemma inv_gone s i p m q o : inv s -> st_threads s !! i = Some p -> m_obj (st_mem s) = Some o -> ob_copy o = None -> frees_obj p = 1 -> obj_refs p = 0 -> needs_obj p = 1 ->
  m_obj m = None -> m_copies m = m_copies (st_mem s) -> m_sent m = m_sent (st_mem s) -> of_writer q <= of_writer p -> obj_refs q = 0 -> needs_obj q = 0 ->
  (forall c, copy_refs c q = copy_refs c p) -> (forall c, frees_copy c q = frees_copy c p) -> (forall o, local o q) -> inv (Stm m (<[i := q]> (st_threads s))).
Proof.
  intros H Hi Eo Ecp Hf Hr Hn Em Ec Es Hw Hq1 Hq2 Hcr Hfc Hl. pose proof (iv_obj _ H) as Ho. pose proof (iv_sent _ H). pose proof (iv_writer _ H). rewrite Eo in Ho. cbn in Ho. destruct Ho as (A1 & A2 & A3 & A4 & A5 & A6).
  facts Hi. assert (ob_reference o = 0) as E0 by (destruct (Z.eqb_spec (ob_reference o) 0); lia).
  assert (sum_of obj_refs (st_threads s) = 0) as Hr0 by lia. apply (inv_thread s i p H Hi); [lia|done| | |by apply Hl|].
  - rewrite Em. cbn. rewrite !(sum_of_insert _ _ _ _ _ Hi). split; [lia|]. split; [lia|].
    pose proof (sum_of_le _ _ (st_threads s) (fun p => proj1 (needs_le p))) as B1. pose proof (sum_of_le _ _ (st_threads s) (fun p => proj2 (needs_le p))) as B2. rewrite sum_of_add in B1. rewrite (sum_of_add obj_refs), (sum_of_add frees_obj) in B2. rewrite E0 in A6. cbn in A6. lia.
  - apply (copies_same s i p H Hi); [done| |done]. intros c. rewrite Hcr. f_equal. unfold published. rewrite Em, Eo, Ecp. by destruct (sum_of deleting (st_threads s) =? 0).
  - intros j p' Hj _. rewrite Em. pose proof (iv_local _ H j p' Hj) as Hj'. destruct p'; try done. pose proof (sum_of_lookup _ N2 _ _ _ Hj) as B. cbn in B. lia.
Qed.

Lemma inv_releasereader s i p m q : inv s -> st_threads s !! i = Some p -> stm_releasereader (st_mem s) p = Some (Ok (m, q)) -> inv (Stm m (<[i := q]> (st_threads s))).
Proof.
  intros H Hi Hs. destruct p; try discriminate Hs; cbn [stm_releasereader] in Hs.
  - by eapply (inv_rlock s i _ H Hi).
  - unfold with_obj in Hs. destruct (m_obj (st_mem s)) as [o|] eqn:Eo; [|done]. injection Hs as <- <-. pose proof (obj_referenced s i _ H Hi o Eo eq_refl) as Hr. pose proof (iv_sent _ H).
    destruct (lock_ok s i _ H Hi o Eo) as (_ & _ & A3). destruct (Z.eqb_spec (ob_reference o - 1) 0);
      (eapply (inv_some s i _ H Hi _ _ o); try done; move_some; try by zprune).
  - eapply (inv_runlock s i _ H Hi); try done; move_some; intros c; cbn; lia.
  - unfold with_obj in Hs. destruct (m_obj (st_mem s)) as [o|] eqn:Eo; [|done]. destruct (ob_copy o) eqn:Ecp; [done|]. injection Hs as <- <-.
    eapply (inv_gone s i _ _ _ o H Hi); try done; intros c; cbn; lia.
Qed.

(** In the writer's section nobody reads. *)
Lemma writing_alone s i p o : inv s -> st_threads s !! i = Some p -> m_obj (st_mem s) = Some o -> in_write p = 1 -> sum_of in_read (st_threads s) = 0.
Proof. intros H Hi Eo Hw. destruct (lock_ok s i p H Hi o Eo) as (A1 & A2 & A3). facts Hi. lia. Qed.

Lemma stm_inv_update s i p m q : inv s -> st_threads s !! i = Some p -> stm_update (st_mem s) p = Some (Ok (m, q)) -> inv (Stm m (<[i := q]> (st_threads s))).
Proof.
  intros H Hi Hs. destruct p; try discriminate Hs; cbn [stm_update] in Hs.
  - by eapply (inv_wlock s i _ H Hi).
  - unfold with_obj in Hs. destruct (m_obj (st_mem s)) as [o|] eqn:Eo; [|done]. injection Hs as <- <-. pose proof (iv_obj _ H) as Ho. pose proof (iv_writer _ H). rewrite Eo in Ho. cbn in Ho.
    destruct Ho as (A1 & A2 & A3 & A4 & A5 & A6). pose proof (writing_alone s i _ o H Hi Eo eq_refl) as Hr. facts Hi. cbn in *.
    apply (inv_thread s i _ H Hi); try done; [apply H|cbn; rewrite !(sum_of_insert _ _ _ _ _ Hi); cbn; destruct (ob_copy o); repeat split; try lia; done| |].
    + apply (copies_same s i _ H Hi); [done| |done]. intros x. unfold published. cbn [m_obj set_obj ob_copy set_copy]. rewrite Eo, (sum_of_insert _ _ _ _ _ Hi). cbn [deleting].
      replace (sum_of deleting (st_threads s)) with 0 by lia. change (0 - 0 + 0 =? 0) with true. change (0 =? 0) with true. cbn [copy_refs]. lia.
    + intros j p' Hj _. eapply local_no_reader; [exact Hr|apply (iv_local _ H)|done].
  - eapply (inv_wunlock s i _ H Hi); try done. intros c. cbn. lia.
Qed.

Lemma stm_inv_release s i p m q : inv s -> st_threads s !! i = Some p -> stm_release (st_mem s) p = Some (Ok (m, q)) -> inv (Stm m (<[i := q]> (st_threads s))).
Proof.
  intros H Hi Hs. pose proof (iv_obj _ H) as Ho. pose proof (iv_writer _ H). destruct p; try discriminate Hs; cbn [stm_release] in Hs.
  - unfold with_obj in Hs. destruct (m_obj (st_mem s)) as [o|] eqn:Eo; [|done]. destruct (ob_copy o); [|done]. injection Hs as <- <-. by apply (inv_idle s i _ H Hi).
  - by eapply (inv_wlock s i _ H Hi).
  - unfold with_obj in Hs. destruct (m_obj (st_mem s)) as [o|] eqn:Eo; [|done]. injection Hs as <- <-. cbn in Ho. facts Hi. cbn in *.
    apply (inv_thread s i _ H Hi); try done; [apply H| | |].
    + by apply (obj_same s i _ H Hi).
    + apply (copies_same s i _ H Hi); [done| |done]. intros x. unfold published. rewrite Eo, (sum_of_insert _ _ _ _ _ Hi). cbn [deleting copy_refs].
      replace (sum_of deleting (st_threads s)) with 0 by lia. change (0 - 0 + 1 =? 0) with false. change (0 =? 0) with true. cbn [deleting copy_refs]. rewrite held_None. lia.
    + intros j p' Hj _. by apply (iv_local _ H j).
  - unfold with_obj in Hs. destruct (m_obj (st_mem s)) as [o|] eqn:Eo; [|done]. injection Hs as <- <-. cbn in Ho. destruct Ho as (A1 & A2 & A3 & A4 & A5 & A6).
    pose proof (writing_alone s i _ o H Hi Eo eq_refl) as Hr. pose proof (obj_referenced s i _ H Hi o Eo eq_refl) as Href. facts Hi. cbn in *.
    apply (inv_thread s i _ H Hi); try done; [apply H|by destruct (0 <? _)| | |by destruct (0 <? _)|].
    + cbn. rewrite !(sum_of_insert _ _ _ _ _ Hi). destruct (Z.eqb_spec (ob_reference o) 0); [lia|]. destruct (Z.ltb_spec 0 (ob_reference o + -1)), (Z.eqb_spec (ob_reference o + -1) 0); cbn; try lia; repeat split; lia.
    + apply (copies_same s i _ H Hi); [done| |intros c; by destruct (0 <? _)]. intros x. unfold published. cbn [m_obj set_obj ob_copy set_copy add_ref]. rewrite Eo.
      assert (0 < sum_of deleting (st_threads s)) by lia. destruct (Z.eqb_spec (sum_of deleting (st_threads s)) 0); [lia|].
      assert (forall b : bool, (if b then None else None) = @None nat) as -> by by intros []. by destruct (0 <? _).
    + intros j p' Hj _. eapply local_no_reader; [exact Hr|apply (iv_local _ H)|done].
  - by eapply (inv_wunlock s i _ H Hi).
  - unfold with_obj in Hs. destruct (m_obj (st_mem s)) as [o|] eqn:Eo; [|done]. injection Hs as <- <-. eapply (inv_gone s i _ _ _ o H Hi); try done.
    cbn in Ho. facts Hi. cbn in *. destruct (ob_copy o); [|done]. exfalso. lia.
Qed.

Lemma held_eq c : held (Some c) c = 1.
Proof. unfold held. by rewrite decide_True. Qed.

Lemma held_ne c x : c <> x -> held (Some c) x = 0.
Proof. intros Hn. unfold held. rewrite decide_False; [done|congruence]. Qed.

(** A step that changes only the copy [c]. *)
Lemma inv_copy s i p m q c : inv s -> st_threads s !! i = Some p -> m_obj m = m_obj (st_mem s) -> m_sent m = m_sent (st_mem s) -> same_weight p q -> deleting q = deleting p ->
  (forall x, x <> c -> m_copies m !! x = m_copies (st_mem s) !! x /\ copy_refs x q = copy_refs x p /\ frees_copy x q = frees_copy x p) ->
  copy_ok (m_copies m !! c) (held (published (st_mem s) (st_threads s)) c + sum_of (copy_refs c) (st_threads s) - copy_refs c p + copy_refs c q) (sum_of (frees_copy c) (st_threads s) - frees_copy c p + frees_copy c q) ->
  local (m_obj m) q -> inv (Stm m (<[i := q]> (st_threads s))).
Proof.
  intros H Hi Eo Es Hw Hd Hne Hc Hl. pose proof (published_same s i p H Hi m q Eo Hd) as Ep.
  apply (inv_thread s i p H Hi); [rewrite Es; apply H|destruct Hw; lia|rewrite Eo; by apply (obj_same s i p H Hi)| |done|intros j p' Hj _; rewrite Eo; by apply (iv_local _ H j)].
  intros x. destruct (decide (x = c)) as [->|Hx].
  - rewrite Ep, !(sum_of_insert _ _ _ _ _ Hi). by replace (held (published (st_mem s) (st_threads s)) c + (sum_of (copy_refs c) (st_threads s) - copy_refs c p + copy_refs c q)) with
      (held (published (st_mem s) (st_threads s)) c + sum_of (copy_refs c) (st_threads s) - copy_refs c p + copy_refs c q) by lia.
  - destruct (Hne x Hx) as (E1 & E2 & E3). apply (copy_same s i p H Hi); [done| |done]. by rewrite Ep, E2.
Qed.

Lemma inv_read s i p m q : inv s -> st_threads s !! i = Some p -> stm_read (st_mem s) p = Some (Ok (m, q)) -> inv (Stm m (<[i := q]> (st_threads s))).
Proof.
  intros H Hi Hs. destruct p; try discriminate Hs; cbn [stm_read] in Hs.
  - by eapply (inv_rlock s i _ H Hi).
  - unfold with_obj in Hs. destruct (m_obj (st_mem s)) as [o|] eqn:Eo; [|done]. injection Hs as <- <-.
    apply (inv_idle s i _ H Hi); destruct (ob_copy o) as [c|] eqn:Ec; try done; [intros x; cbn; rewrite held_None; lia|]. cbn. rewrite Eo. by exists o.
  - destruct (iv_local _ H i _ Hi) as (o & Eo & Ec). pose proof (not_deleting s i _ H Hi eq_refl eq_refl eq_refl) as Hd.
    assert (published (st_mem s) (st_threads s) = Some ret) as Ep by (unfold published; by rewrite Eo, Hd).
    destruct (copy_there s i _ H Hi ret) as (x & Ex & Er & Hr & Hf); [rewrite Ep, held_eq; cbn; pose proof (held_nonneg last0 ret); lia|].
    rewrite Ex in Hs. cbn [deref mbind result_bind] in Hs. destruct (Z.ltb_spec 0 (cp_reference x)); [|done]. cbn [assert_ mbind result_bind] in Hs. injection Hs as <- <-.
    eapply (inv_copy s i _ _ _ ret H Hi); try done.
    + intros y Hy. cbn. rewrite lookup_insert_ne by done. rewrite held_ne by done. split; [done|lia].
    + cbn. rewrite lookup_insert_eq, held_eq. cbn. split; [lia|]. rewrite Hf. zprune; lia.
  - eapply (inv_runlock s i _ H Hi); try done; try (by case_bool_decide); try (intros; case_bool_decide; subst; cbn; lia).
Qed.

Lemma inv_releasecopy s i c k m q : inv s -> st_threads s !! i = Some (Release c k) -> stm_releasecopy (st_mem s) c k = Some (Ok (m, q)) -> inv (Stm m (<[i := q]> (st_threads s))).
Proof.
  intros H Hi Hs. pose proof (iv_local _ H i _ Hi) as Hl. cbn in Hl. destruct c as [c|]; cbn [stm_releasecopy] in Hs.
  - destruct weights_nonneg as (_ & _ & _ & _ & _ & _ & _ & _ & N9 & _). pose proof (N9 c k). destruct (copy_there s i _ H Hi c) as (x & Ex & Er & Hr & Hf).
    { cbn. rewrite held_eq. pose proof (held_nonneg (published (st_mem s) (st_threads s)) c). lia. }
    rewrite Ex in Hs. cbn [deref mbind result_bind] in Hs. injection Hs as <- <-. eapply (inv_copy s i _ _ _ c H Hi); try done.
    + by destruct (_ =? 0).
    + by destruct (_ =? 0).
    + intros y Hy. cbn. rewrite lookup_insert_ne, held_ne by done. split; [done|]. destruct (_ =? 0); cbn; rewrite ?held_ne by done; lia.
    + cbn. rewrite lookup_insert_eq, held_eq, Hf. cbn. destruct (Z.eqb_spec (cp_reference x - 1) 0); cbn; rewrite ?held_eq; (split; [lia|]); zprune; lia.
    + destruct (_ =? 0); [done|by apply local_resumes].
  - injection Hs as <- <-. apply (inv_idle s i _ H Hi); try done; try (by apply local_resumes).
Qed.

Lemma stm_inv_free s i c k m q : inv s -> st_threads s !! i = Some (Freeing c k) -> free_copy (st_mem s) c k = Some (Ok (m, q)) -> inv (Stm m (<[i := q]> (st_threads s))).
Proof.
  intros H Hi Hs. pose proof (iv_local _ H i _ Hi) as Hl. cbn in Hl. unfold free_copy in Hs. destruct (m_copies (st_mem s) !! c) as [x|] eqn:Ex; [|done]. cbn [deref mbind result_bind] in Hs. injection Hs as <- <-.
  pose proof (iv_copies _ H c) as Hc. rewrite Ex in Hc. destruct Hc as [Hc1 Hc2]. destruct weights_nonneg as (_ & _ & _ & _ & _ & _ & _ & _ & _ & N10 & _). pose proof (sum_of_lookup _ (N10 c) _ _ _ Hi) as Hf. cbn in Hf. rewrite held_eq in Hf.
  pose proof (N10 c k). eapply (inv_copy s i _ _ _ c H Hi); try done.
  - intros y Hy. cbn. rewrite lookup_delete_ne, held_ne by done. split; [done|lia].
  - cbn. rewrite lookup_delete_eq, held_eq. cbn. destruct (Z.eqb_spec (held (published (st_mem s) (st_threads s)) c + sum_of (copy_refs c) (st_threads s)) 0); lia.
  - by apply local_resumes.
Qed.

Lemma inv_newcopy s i c msg sz : inv s -> st_threads s !! i = Some Writer -> m_copies (st_mem s) !! c = None ->
  inv (Stm (stm_newcopy c msg sz (st_mem s)) (<[i := UpdateLock c]> (st_threads s))).
Proof.
  intros H Hi Hc. pose proof (iv_copies _ H c) as Hok. rewrite Hc in Hok. destruct Hok as [H1 H2]. eapply (inv_copy s i _ _ _ c H Hi); try done.
  - intros x Hx. cbn. rewrite lookup_insert_ne, held_ne by done. done.
  - cbn. rewrite lookup_insert_eq, held_eq. cbn. zprune; lia.
Qed.

Lemma inv_step s i p ch m q : inv s -> st_threads s !! i = Some p -> step ch (st_mem s) p = Some (Ok (m, q)) -> inv (Stm m (<[i := q]> (st_threads s))).
Proof.
  intros H Hi Hs. destruct p; cbn [step] in Hs; try (by eapply stm_inv_grab); try (by eapply stm_inv_update); try (by eapply stm_inv_release); try (by eapply inv_read); try (by eapply inv_releasereader); try done.
  - destruct ch; try discriminate Hs.
    + injection Hs as <- <-. by apply (inv_idle s i _ H Hi).
    + case_bool_decide; [|done]. injection Hs as <- <-. by apply inv_newcopy.
    + injection Hs as <- <-. by apply (inv_idle s i _ H Hi).
  - destruct ch; try discriminate Hs; injection Hs as <- <-; by apply (inv_idle s i _ H Hi).
  - by eapply inv_releasecopy.
  - by eapply stm_inv_free.
Qed.

Lemma sum_of_app {A} (f : A -> Z) l k : sum_of f (l ++ k) = sum_of f l + sum_of f k.
Proof. induction l as [|a l IH]; cbn; lia. Qed.

Lemma inv_newreader s : inv s -> 0 < m_sent (st_mem s) -> inv (Stm (set_sent (m_sent (st_mem s) - 1) (st_mem s)) (st_threads s ++ [Reader None])).
Proof.
  intros [H1 H2 H3 H4 H5] Hp. constructor; cbn [st_mem st_threads m_sent m_obj set_sent]; rewrite ?sum_of_app; cbn [sum_of of_writer]; try lia.
  - unfold obj_ok in *. destruct (m_obj (st_mem s)); rewrite !sum_of_app; cbn; [|lia]. repeat split; try apply H3; lia.
  - intros c. specialize (H4 c). cbn [m_copies set_sent]. assert (published (set_sent (m_sent (st_mem s) - 1) (st_mem s)) (st_threads s ++ [Reader None]) = published (st_mem s) (st_threads s)) as ->.
    { unfold published. cbn [m_obj set_sent]. rewrite sum_of_app. cbn. by rewrite Z.add_0_r. }
    rewrite !sum_of_app. cbn [sum_of copy_refs frees_copy]. rewrite held_None, !Z.add_0_r. done.
  - intros i p Hi. apply lookup_app_Some in Hi as [Hi|[_ Hi]]; [by apply (H5 i)|]. apply list_lookup_singleton_Some in Hi as [_ <-]. done.
Qed.

Lemma stm_inv_init c msg sz : inv (Stm (stm_new c msg sz) [Writer]).
Proof.
  constructor; cbn; try lia.
  - intros x. unfold published. cbn [st_mem st_threads stm_new stm_newcopy m_copies m_obj set_copies sum_of deleting copy_refs frees_copy ob_copy]. change (0 + 0 =? 0) with true.
    destruct (decide (x = c)) as [->|Hx]; [by rewrite lookup_insert_eq, held_eq|by rewrite lookup_insert_ne, held_ne by done].
  - intros i p Hi. destruct i; [|done]. by injection Hi as <-.
Qed.

Lemma inv_reach s : stm_reach s -> inv s.
Proof.
  induction 1 as [c msg sz|s s' Hr IH Hs]; [apply stm_inv_init|]. destruct Hs as [i p ch m q Hi Hs|Hp]; [by eapply inv_step|by apply inv_newreader].
Qed.

(** ** Safety *)

Lemma fault_only_close s i p ch : inv s -> st_threads s !! i = Some p -> step ch (st_mem s) p = Some Fault -> m_obj (st_mem s) = None /\ exists last, p = CloseOut last.
Proof.
  intros H Hi Hs. pose proof (iv_local _ H i _ Hi) as Hl.
  assert (Hobj : 0 < obj_refs p \/ 0 < needs_obj p -> exists o, m_obj (st_mem s) = Some o) by by apply (obj_there s i p H Hi).
  assert (Hlock : forall f, (forall o, m_obj (st_mem s) = Some o -> f o <> Some Fault) -> 0 < obj_refs p \/ 0 < needs_obj p -> with_obj (st_mem s) f = Some Fault -> False).
  { intros f Hf Hp E. destruct (Hobj Hp) as [o Eo]. unfold with_obj in E. rewrite Eo in E. by apply (Hf o). }
  assert (Hr : forall m k, m_obj m = m_obj (st_mem s) -> 0 < obj_refs p \/ 0 < needs_obj p -> runlock m k = Some Fault -> False).
  { intros m k E Hp Hf. destruct (Hobj Hp) as [o Eo]. unfold runlock, with_obj in Hf. by rewrite E, Eo in Hf. }
  pose proof (iv_obj _ H) as Ho. destruct p; cbn [step stm_grab stm_update stm_release stm_read stm_releasereader] in Hs; try discriminate Hs;
    try (exfalso; eapply Hlock; [|(left + right); reflexivity|exact Hs]; intros o Eo; cbv beta; try discriminate; by repeat case_match).
  - destruct ch; try discriminate Hs. by case_bool_decide.
  - cbn in Hl. destruct (Z.ltb_spec 0 ref); [|lia]. exfalso. eapply Hr; [|left; reflexivity|exact Hs]. done.
  - exfalso. eapply Hlock; [|left; reflexivity|exact Hs]. intros o Eo. cbv beta. rewrite Eo in Ho. cbn in Ho. facts Hi. cbn in *. destruct (ob_copy o); [done|lia].
  - by destruct ch.
  - destruct Hl as (o & Eo & Ec). pose proof (not_deleting s i _ H Hi eq_refl eq_refl eq_refl) as Hd.
    destruct (copy_there s i _ H Hi ret) as (x & Ex & _ & Hx & _); [unfold published; rewrite Eo, Hd; cbn; rewrite Ec, held_eq; pose proof (held_nonneg last0 ret); lia|].
    rewrite Ex in Hs. cbn in Hs. by destruct (Z.ltb_spec 0 (cp_reference x)); [|lia].
  - unfold runlock, with_obj in Hs. destruct (m_obj (st_mem s)); [done|]. split; [done|]. by exists last0.
  - exfalso. eapply Hlock; [|right; reflexivity|exact Hs]. intros o Eo. cbv beta. rewrite Eo in Ho. cbn in Ho. pose proof (iv_sent _ H). facts Hi. cbn in *.
    destruct (ob_copy o); [|done]. destruct (Z.eqb_spec (ob_reference o) 0); lia.
  - destruct copy as [c|]; [|done]. destruct weights_nonneg as (_ & _ & _ & _ & _ & _ & _ & _ & N9 & _). pose proof (N9 c p).
    destruct (copy_there s i _ H Hi c) as (x & Ex & _); [cbn; rewrite held_eq; pose proof (held_nonneg (published (st_mem s) (st_threads s)) c); lia|]. cbn in Hs. by rewrite Ex in Hs.
  - pose proof (iv_copies _ H copy) as Hc. destruct weights_nonneg as (_ & _ & _ & _ & _ & _ & _ & _ & _ & N10 & _). pose proof (sum_of_lookup _ (N10 copy) _ _ _ Hi) as Hf. cbn in Hf. rewrite held_eq in Hf.
    pose proof (N10 copy p). unfold free_copy in Hs. destruct (m_copies (st_mem s) !! copy) as [x|]; [done|]. cbn in Hc. lia.
Qed.

(** ** Messages *)

(** A step keeps the message of every copy but the one it frees. *)
Lemma step_keeps ch m p m' q c x : step ch m p = Some (Ok (m', q)) -> m_copies m !! c = Some x ->
  (exists x', m_copies m' !! c = Some x' /\ cp_msg x' = cp_msg x /\ cp_sz x' = cp_sz x) \/ exists k, p = Freeing c k.
Proof.
  intros Hs Hx. assert (Hsame : m_copies m' = m_copies m -> (exists x', m_copies m' !! c = Some x' /\ cp_msg x' = cp_msg x /\ cp_sz x' = cp_sz x) \/ exists k, p = Freeing c k).
  { intros ->. left. by exists x. }
  assert (Href : forall y z n, m_copies m !! y = Some z -> m_copies m' = <[y := add_reference n z]> (m_copies m) -> exists x', m_copies m' !! c = Some x' /\ cp_msg x' = cp_msg x /\ cp_sz x' = cp_sz x).
  { intros y z n Hy ->. destruct (decide (c = y)) as [->|Hne]; [rewrite Hx in Hy; injection Hy as <-; rewrite lookup_insert_eq; by eexists|]. rewrite lookup_insert_ne by done. by exists x. }
  destruct p; cbn [step stm_grab stm_update stm_release stm_read stm_releasereader] in Hs; unfold rlock, wlock, runlock, wunlock, with_obj in Hs; try discriminate Hs;
    try (repeat case_match; simplify_eq; by apply Hsame).
  - destruct ch; try discriminate Hs; [|case_bool_decide as Hc; [|done]|]; injection Hs as <- <-; try by apply Hsame. left. cbn. rewrite lookup_insert_ne by congruence. by exists x.
  - left. destruct (m_copies m !! ret) as [y|] eqn:Ey; [|done]. cbn in Hs. destruct (0 <? cp_reference y); [|done]. injection Hs as <- <-. by eapply (Href _ _ _ Ey).
  - destruct copy as [y|]; [|injection Hs as <- <-; by apply Hsame]. left. cbn in Hs. destruct (m_copies m !! y) as [z|] eqn:Ey; [|done]. injection Hs as <- <-. by eapply (Href _ _ _ Ey).
  - destruct (decide (c = copy)) as [->|Hne]; [right; by eexists|]. left. unfold free_copy in Hs. destruct (m_copies m !! copy); [|done]. injection Hs as <- <-. cbn. rewrite lookup_delete_ne by done. by exists x.
Qed.

(** C15. Shared objects are safe, but for one race. After any interleaving of a
    writer that publishes, hands out and finally drops an object and of any
    number of readers that read and close it: a copy somebody refers to keeps
    its message; the copy a reader got last is such a copy; when all services are
    done everything is freed; and the only step that can touch freed memory or
    fail an assertion is the last one of [stm_releasereader], the release of the
    lock of an object that another reader has freed. *)
Theorem stm_safe (s : stm) (Hs : stm_reach s) :
  (forall i, stm_faults s i -> m_obj (st_mem s) = None /\ exists last, st_threads s !! i = Some (CloseOut last)) /\
  (forall s' c x, stm_next s s' -> m_copies (st_mem s) !! c = Some x -> 0 < cp_reference x ->
    exists x', m_copies (st_mem s') !! c = Some x' /\ cp_msg x' = cp_msg x /\ cp_sz x' = cp_sz x) /\
  (forall i c, st_threads s !! i = Some (Reader (Some c)) -> exists x, m_copies (st_mem s) !! c = Some x /\ 0 < cp_reference x) /\
  ((forall i p, st_threads s !! i = Some p -> p = Gone) -> m_sent (st_mem s) = 0 -> m_obj (st_mem s) = None /\ m_copies (st_mem s) = ∅).
Proof.
  pose proof (inv_reach s Hs) as H. split; [|split; [|split]].
  - intros i (p & ch & Hi & Hf). destruct (fault_only_close s i p ch H Hi Hf) as [Ho [la ->]]. split; [done|]. by exists la.
  - intros s' c x [i p ch m q Hi Hp|Hp] Hx Hr; [|by exists x]. destruct (step_keeps _ _ _ _ _ _ _ Hp Hx) as [Hk|[k ->]]; [done|]. exfalso.
    pose proof (iv_copies _ H c) as Hc. rewrite Hx in Hc. destruct Hc as [H1 H2]. destruct weights_nonneg as (_ & _ & _ & _ & _ & _ & _ & _ & _ & N10 & _). pose proof (sum_of_lookup _ (N10 c) _ _ _ Hi) as Hf. cbn in Hf.
    rewrite held_eq in Hf. pose proof (N10 c k). destruct (Z.eqb_spec (held (published (st_mem s) (st_threads s)) c + sum_of (copy_refs c) (st_threads s)) 0); lia.
  - intros i c Hi. destruct (copy_there s i _ H Hi c) as (x & Hx & _ & Hr & _); [|by exists x]. cbn. rewrite held_eq. pose proof (held_nonneg (published (st_mem s) (st_threads s)) c). lia.
  - intros Hall H0. assert (forall f : pc -> Z, f Gone = 0 -> sum_of f (st_threads s) = 0) as Hz by (intros f Hf; apply sum_of_zero; intros i p Hi; by rewrite (Hall i p Hi)).
    pose proof (iv_obj _ H) as Ho. assert (m_obj (st_mem s) = None) as E.
    { destruct (m_obj (st_mem s)) as [o|]; [|done]. cbn in Ho. rewrite !Hz in Ho by done. destruct Ho as (_ & _ & _ & -> & _ & A6). rewrite H0 in A6. done. }
    split; [done|]. apply map_empty. intros c. pose proof (iv_copies _ H c) as Hc. unfold published in Hc. rewrite E, held_None, !Hz in Hc by done.
    destruct (m_copies (st_mem s) !! c); [|done]. by destruct Hc.
Qed.

(** ** Schedules *)

(** Thread [i] makes the call or goes on; [Arrive]: a reader is made. *)
Inductive event : Set := Go (i : nat) (ch : call) | Arrive.

Definition run_event (e : event) (s : stm) : option stm :=
  match e with
  | Go i ch =>
      p ← st_threads s !! i;
      match step ch (st_mem s) p with
      | Some (Ok (m, q)) => Some (Stm m (<[i := q]> (st_threads s)))
      | _ => None
      end
  | Arrive => if 0 <? m_sent (st_mem s) then Some (Stm (set_sent (m_sent (st_mem s) - 1) (st_mem s)) (st_threads s ++ [Reader None])) else None
  end.

Fixpoint run_events (l : list event) (s : stm) : option stm :=
  match l with
  | [] => Some s
  | e :: l => s ← run_event e s; run_events l s
  end.

Lemma run_events_reach l : forall s s', stm_reach s -> run_events l s = Some s' -> stm_reach s'.
Proof.
  induction l as [|e l IH]; intros s s' Hr; cbn [run_events]; [by intros [= <-]|]. destruct (run_event e s) as [s1|] eqn:E; [|done]. cbn. apply IH. eapply stm_more; [exact Hr|].
  destruct e as [i ch|]; cbn in E.
  - destruct (st_threads s !! i) as [p|] eqn:Hi; [|done]. cbn in E. destruct (step ch (st_mem s) p) as [[[m q]| |]|] eqn:Hs; try done. injection E as <-. by eapply Step.
  - destruct (Z.ltb_spec 0 (m_sent (st_mem s))); [|done]. injection E as <-. by constructor.
Qed.

(** The writer hands the object to two readers and drops it. *)
Definition two_readers : list event :=
  [Go 0 Grab; Go 0 Grab; Go 0 Grab; Go 0 Grab; Arrive; Go 0 Grab; Go 0 Grab; Go 0 Grab; Go 0 Grab; Arrive;
   Go 0 Drop; Go 0 Drop; Go 0 Drop; Go 0 Drop; Go 0 Drop; Go 0 Drop; Go 0 Drop; Go 0 Drop].

Definition closing_race : list event := [Go 1 Close; Go 1 Close; Go 1 Close; Go 2 Close; Go 2 Close; Go 2 Close; Go 2 Close].

Definition closing_in_turn : list event :=
  [Go 1 Read; Go 1 Read; Go 1 Read; Go 1 Read; Go 1 Read] ++ repeat (Go 1 Close) 5 ++ repeat (Go 2 Close) 5.

(** Two readers that close an object the writer has dropped race: between
    the decrement and the unlocking of the first, the second finds the last
    reference and frees the object; the first then writes to freed memory. *)
Theorem stm_close_race : exists s, stm_reach s /\ stm_faults s 1.
Proof.
  destruct (run_events (two_readers ++ closing_race) (Stm (stm_new 0 100 8) [Writer])) as [s|] eqn:E; [|by vm_compute in E].
  exists s. split; [eapply run_events_reach; [apply (stm_start 0 100 8)|exact E]|]. vm_compute in E. injection E as <-. exists (CloseOut None), Close. done.
Qed.

(** The same services one after the other: everything is freed. *)
Theorem stm_safe_witness : exists s, stm_reach s /\ m_freed (st_mem s) = [100] /\ m_obj (st_mem s) = None /\ m_copies (st_mem s) = ∅.
Proof.
  assert (exists s, run_events (two_readers ++ closing_in_turn) (Stm (stm_new 0 100 8) [Writer]) = Some s) as [s E] by (eexists; vm_compute; reflexivity).
  assert (stm_reach s) as Hr by (eapply run_events_reach; [apply (stm_start 0 100 8)|exact E]). exists s. split; [exact Hr|].
  destruct (stm_safe s Hr) as (_ & _ & _ & Hend). vm_compute in E. injection E as <-. split; [done|]. apply Hend; [|done].
  intros i p Hi. destruct i as [|[|[|i]]]; try done; by injection Hi as <-.
Defined.
