(* ===== verification/SocketService.v ===== *)
(** * Between the socket thread and the services

    skynet-src/skynet_socket.c: what the socket server reports becomes a message
    in the queue of the service that owns the socket; lua-socket.c [unpack]: what
    the service reads from it. skynet-src/skynet_monitor.c: the watch over the
    workers. A pointer of the socket server is [NULL], a text that is not on the
    heap, or the address of a block. *)
From S2P Require Import Prelude CString MessageQueue Context Handle HandleTable Server Send Socket.

(** ** Messages of sockets *)

Definition SKYNET_SOCKET_TYPE_DATA : Z := 1.
Definition SKYNET_SOCKET_TYPE_CONNECT : Z := 2.
Definition SKYNET_SOCKET_TYPE_CLOSE : Z := 3.
Definition SKYNET_SOCKET_TYPE_ACCEPT : Z := 4.
Definition SKYNET_SOCKET_TYPE_ERROR : Z := 5.
Definition SKYNET_SOCKET_TYPE_UDP : Z := 6.
Definition SKYNET_SOCKET_TYPE_WARNING : Z := 7.

Inductive pointer : Set :=
| Null
| Static (a : Z) (s : list Z)
| Heap (a : Z).

Definition address_of (d : pointer) : Z := match d with Null => 0 | Static a _ => a | Heap a => a end.

(** [struct socket_message] *)
Record socket_report : Set := SocketReport {
  sr_id : Z;
  sr_opaque : Z;
  sr_ud : Z;
  sr_data : pointer
}.

(** The layout of [struct skynet_socket_message]: three [int]s, four bytes
    [pad] nobody writes, a pointer. *)
Definition sizeof_socket_message : Z := 24.

Definition socket_message_bytes (pad : list Z) (type id ud buffer : Z) : list Z :=
  le_bytes 4 (u32 type) ++ le_bytes 4 (u32 id) ++ le_bytes 4 (u32 ud) ++ pad ++ le_bytes 8 (u64 buffer).

(** ** Forwarding (skynet_socket.c) *)

Section forward.
Context (alloc : gmap Z block -> Z) (pad : list Z).

(** The bytes of a text up to its NUL. *)
Fixpoint until_nul (s : list Z) : option (list Z) :=
  match s with
  | [] => None
  | c :: s => if c =? 0 then Some [] else l ← until_nul s; Some (c :: l)
  end.

(** The text copied behind the message, at most 128 bytes of it. *)
Definition padding_text (d : pointer) (p : process) : result (list Z) :=
  match d with
  | Null => Ok []
  | Static _ s => Ok (take 128 s)
  | Heap a =>
      b ← deref (p_mem p !! a);
      match b with Bytes l => s ← deref (until_nul l); Ok (take 128 s) | Remote _ => Fault end
  end.

Definition forward_message (type : Z) (padding : bool) (r : socket_report) (p : process) : result process :=
  text ← (if padding then padding_text (sr_data r) p else Ok []);
  let sz := sizeof_socket_message + zlen text in
  let buffer := if padding then 0 else address_of (sr_data r) in
  let '(sm, p) := skynet_malloc alloc (Bytes (socket_message_bytes pad type (sr_id r) (sr_ud r) buffer ++ text)) p in
  '(res, w) ← skynet_context_push (u32 (sr_opaque r)) (SkynetMessage 0 0 sm (pack_sz PTYPE_SOCKET sz)) (p_world p);
  let p := with_world w p in
  if negb (res =? 0) then p ← skynet_free buffer p; skynet_free sm p else Ok p.

(** [None]: a type the socket server does not have. *)
Definition socket_type (type : Z) : option (Z * bool) :=
  if type =? SOCKET_DATA then Some (SKYNET_SOCKET_TYPE_DATA, false)
  else if type =? SOCKET_CLOSE then Some (SKYNET_SOCKET_TYPE_CLOSE, false)
  else if type =? SOCKET_OPEN then Some (SKYNET_SOCKET_TYPE_CONNECT, true)
  else if type =? SOCKET_ERROR then Some (SKYNET_SOCKET_TYPE_ERROR, true)
  else if type =? SOCKET_ACCEPT then Some (SKYNET_SOCKET_TYPE_ACCEPT, true)
  else if type =? SOCKET_UDP then Some (SKYNET_SOCKET_TYPE_UDP, false)
  else None.

(** [socket_server_poll] returned [type], filled in [r] and left [more]. *)
Definition skynet_socket_poll (type : Z) (r : socket_report) (more : bool) (p : process) : result (Z * process) :=
  if type =? SOCKET_EXIT then Ok (0, p)
  else
    match socket_type type with
    | None => Ok (-1, p)
    | Some (t, padding) => p ← forward_message t padding r p; Ok (if more then -1 else 1, p)
    end.

(** The warning is copied from the stack. *)
Definition check_wsz (ctx : nat) (id wsz : Z) (p : process) : result (Z * process) :=
  if wsz <? 0 then Ok (-1, p)
  else if 1024 * 1024 <? wsz then
    handle ← skynet_context_handle ctx (p_node p);
    let '(tmp, p) := skynet_malloc alloc (Bytes (socket_message_bytes pad SKYNET_SOCKET_TYPE_WARNING id (s32 (wsz / 1024)) 0)) p in
    '(_, p) ← skynet_send alloc ctx 0 handle PTYPE_SOCKET 0 tmp sizeof_socket_message p;
    p ← skynet_free tmp p;
    Ok (0, p)
  else Ok (0, p).

End forward.

(** ** Reading (lua-socket.c) *)

(** [socket_server_udp_address]: the address behind the [ud] bytes of a datagram. *)
Definition udp_address (l : list Z) (ud : Z) : result (option (list Z)) :=
  type ← zget l ud;
  if type =? PROTOCOL_UDP then a ← slice l ud (1 + 2 + 4); Ok (Some a)
  else if type =? PROTOCOL_UDPv6 then a ← slice l ud (1 + 2 + 16); Ok (Some a)
  else Ok None.

Definition skynet_socket_udp_address (type ud buffer : Z) (p : process) : result (option (list Z)) :=
  if negb (type =? SKYNET_SOCKET_TYPE_UDP) then Ok None
  else
    b ← deref (p_mem p !! buffer);
    match b with Bytes l => udp_address l ud | Remote _ => Fault end.

(** The values the service gets: type, id, ud; the text, or the pointer that is
    now its own; the address of a datagram. *)
Definition lunpack (message size : Z) (p : process) : result (Z * Z * Z * (list Z + Z) * option (list Z)) :=
  b ← deref (p_mem p !! message);
  match b with
  | Remote _ => Fault
  | Bytes l =>
      type ← slice l 0 4; id ← slice l 4 4; ud ← slice l 8 4; buffer ← slice l 16 8;
      let type := s32 (le_val type) in
      let ud := s32 (le_val ud) in
      let buffer := le_val buffer in
      data ← (if buffer =? 0 then s ← slice l sizeof_socket_message (size - sizeof_socket_message); Ok (inl s) else Ok (inr buffer));
      a ← skynet_socket_udp_address type ud buffer p;
      Ok (type, s32 (le_val id), ud, data, if type =? SKYNET_SOCKET_TYPE_UDP then a else None)
  end.

(** ** The monitor (skynet_monitor.c, skynet_server.c) *)

Record skynet_monitor : Set := SkynetMonitor {
  mn_version : Z;
  mn_check_version : Z;
  mn_source : Z;
  mn_destination : Z
}.

Definition skynet_monitor_new : skynet_monitor := SkynetMonitor 0 0 0 0.

(** [ATOM_INC] of an [int] wraps. *)
Definition skynet_monitor_trigger (source destination : Z) (sm : skynet_monitor) : skynet_monitor :=
  SkynetMonitor (s32 (mn_version sm + 1)) (mn_check_version sm) source destination.

Definition skynet_context_endless (handle : Z) (w : world) : result world :=
  '(ctx, n) ← skynet_handle_grab handle (w_node w) (w_H w);
  match ctx with
  | None => Ok (World n (w_H w))
  | Some a =>
      c ← deref (n_ctx n !! a);
      '(_, n) ← skynet_context_release a (put_ctx a (set_endless true c) n);
      Ok (World n (w_H w))
  end.

Definition skynet_monitor_check (sm : skynet_monitor) (w : world) : result (skynet_monitor * world) :=
  if mn_version sm =? mn_check_version sm then
    if negb (mn_destination sm =? 0) then w ← skynet_context_endless (mn_destination sm) w; Ok (sm, w)
    else Ok (sm, w)
  else Ok (SkynetMonitor (mn_version sm) (mn_version sm) (mn_source sm) (mn_destination sm), w).

Definition is_int (z : Z) : Prop := - 2 ^ 31 <= z < 2 ^ 31.

(** ** The monitor catches a worker that does not move *)

Lemma swrap_add_l w a b : 0 < w -> swrap w (swrap w a + b) = swrap w (a + b).
Proof.
  intros. unfold swrap. f_equal.
  replace ((a + 2 ^ (w - 1)) mod 2 ^ w - 2 ^ (w - 1) + b + 2 ^ (w - 1)) with ((a + 2 ^ (w - 1)) mod 2 ^ w + b) by lia.
  rewrite Zplus_mod_idemp_l. f_equal. lia.
Qed.

Lemma swrap_add_ne w v k : 0 < k < 2 ^ w -> swrap w (v + k) <> v.
Proof.
  intros Hk E. unfold swrap in E. pose proof (Z.div_mod (v + k + 2 ^ (w - 1)) (2 ^ w) ltac:(lia)) as H.
  assert (k = 2 ^ w * ((v + k + 2 ^ (w - 1)) / 2 ^ w)) as E' by lia.
  assert (0 < (v + k + 2 ^ (w - 1)) / 2 ^ w) by nia. nia.
Qed.

Definition trigger_all (l : list (Z * Z)) (sm : skynet_monitor) : skynet_monitor :=
  fold_left (fun sm '(source, destination) => skynet_monitor_trigger source destination sm) l sm.

Lemma trigger_all_version l sm : is_int (mn_version sm) ->
  mn_version (trigger_all l sm) = s32 (mn_version sm + zlen l) /\ mn_check_version (trigger_all l sm) = mn_check_version sm.
Proof.
  revert sm. induction l as [|[a b] l IH]; intros sm Hv.
  - change (zlen (@nil (Z * Z))) with 0. rewrite Z.add_0_r. unfold s32. by rewrite swrap_small.
  - destruct (IH (skynet_monitor_trigger a b sm)) as [E1 E2]; [apply (swrap_range 32); lia|].
    change (trigger_all ((a, b) :: l) sm) with (trigger_all l (skynet_monitor_trigger a b sm)). rewrite E1, E2. split; [|done].
    cbn [skynet_monitor_trigger mn_version]. rewrite zlen_cons. unfold s32. rewrite swrap_add_l by lia. f_equal. lia.
Qed.

(** Two checks with fewer than 2^32 messages between them: the second marks the
    service the worker is in if and only if the worker did nothing in between. *)
Lemma monitor_check_stuck sm l w : is_int (mn_version sm) -> mn_check_version sm = mn_version sm -> zlen l < 2 ^ 32 ->
  skynet_monitor_check (trigger_all l sm) w =
    if decide (l = [] /\ mn_destination sm <> 0) then w ← skynet_context_endless (mn_destination sm) w; Ok (sm, w)
    else Ok (SkynetMonitor (mn_version (trigger_all l sm)) (mn_version (trigger_all l sm)) (mn_source (trigger_all l sm)) (mn_destination (trigger_all l sm)), w).
Proof.
  intros Hv Hc Hl. destruct (trigger_all_version l sm Hv) as [E1 E2]. unfold skynet_monitor_check. rewrite E2, Hc.
  destruct l as [|x l].
  - cbn [trigger_all fold_left]. rewrite Z.eqb_refl. destruct (Z.eqb_spec (mn_destination sm) 0) as [E|E]; cbn [negb].
    + rewrite decide_False by tauto. f_equal. f_equal. destruct sm; cbn in *. by rewrite Hc.
    + by rewrite decide_True.
  - rewrite decide_False by (intros [H _]; discriminate). destruct (Z.eqb_spec (mn_version (trigger_all (x :: l) sm)) (mn_version sm)) as [E|]; [|done].
    exfalso. rewrite E1 in E. rewrite zlen_cons in Hl, E. pose proof (zlen_nonneg l). revert E. apply swrap_add_ne. lia.
Qed.

(** ** What is forwarded is what is read *)

Lemma int_round_trip z : is_int z -> s32 (le_val (le_bytes 4 (u32 z))) = z.
Proof.
  intros Hz. rewrite le_val_le_bytes. change (2 ^ (8 * Z.of_nat 4)) with (2 ^ 32). rewrite Z.mod_small by (apply u32_range).
  unfold s32, u32. rewrite swrap_wrap by lia. by apply swrap_small.
Qed.

Lemma message_read pad type id ud buffer text : length pad = 4%nat -> is_int type -> is_int id -> is_int ud -> is_u64 buffer ->
  let l := socket_message_bytes pad type id ud buffer ++ text in
  slice l 0 4 = Ok (le_bytes 4 (u32 type)) /\ slice l 4 4 = Ok (le_bytes 4 (u32 id)) /\ slice l 8 4 = Ok (le_bytes 4 (u32 ud)) /\ slice l 16 8 = Ok (le_bytes 8 (u64 buffer)) /\
  slice l 24 (zlen text) = Ok text /\ zlen l = 24 + zlen text.
Proof.
  intros Hp Ht Hi Hu Hb. cbn zeta. unfold socket_message_bytes. rewrite <- !app_assoc.
  set (b1 := le_bytes 4 (u32 type)). set (b2 := le_bytes 4 (u32 id)). set (b3 := le_bytes 4 (u32 ud)). set (b4 := le_bytes 8 (u64 buffer)).
  assert (zlen b1 = 4 /\ zlen b2 = 4 /\ zlen b3 = 4 /\ zlen b4 = 8 /\ zlen pad = 4) as (L1 & L2 & L3 & L4 & L5) by (unfold zlen, b1, b2, b3, b4; rewrite !length_le_bytes, Hp; done).
  clearbody b1 b2 b3 b4. repeat split.
  - by apply (slice_app []).
  - apply (slice_app b1); lia.
  - rewrite app_assoc. apply (slice_app (b1 ++ b2)); rewrite ?zlen_app; lia.
  - rewrite (app_assoc b1), (app_assoc _ b3), (app_assoc _ pad). apply (slice_app (((b1 ++ b2) ++ b3) ++ pad)); rewrite ?zlen_app; lia.
  - rewrite (app_assoc b1), (app_assoc _ b3), (app_assoc _ pad), (app_assoc _ b4). apply slice_tail; rewrite ?zlen_app; lia.
  - rewrite !zlen_app. lia.
Qed.

(** What the socket server may report. *)
Definition report_ok (type : Z) (r : socket_report) (mem : gmap Z block) : Prop :=
  is_int (sr_id r) /\ is_int (sr_ud r) /\
  match socket_type type with
  | Some (_, true) => sr_data r = Null \/ exists a s, sr_data r = Static a s
  | Some (t, false) => t <> SKYNET_SOCKET_TYPE_UDP /\ sr_data r = Null \/
      exists a l, sr_data r = Heap a /\ 0 < a < 2 ^ 64 /\ mem !! a = Some (Bytes l) /\ (t = SKYNET_SOCKET_TYPE_UDP -> exists ad, udp_address l (sr_ud r) = Ok ad)
  | None => False
  end.

(** What the service shall get. *)
Definition report_data (r : socket_report) : list Z + Z :=
  match sr_data r with Null => inl [] | Static _ s => inl (take 128 s) | Heap a => inr a end.

Definition report_address (type : Z) (r : socket_report) (mem : gmap Z block) : option (list Z) :=
  match sr_data r with
  | Heap a => match mem !! a with
              | Some (Bytes l) => if type =? SOCKET_UDP then match udp_address l (sr_ud r) with Ok ad => ad | _ => None end else None
              | _ => None
              end
  | _ => None
  end.

Lemma socket_type_range type t padding : socket_type type = Some (t, padding) ->
  is_int t /\ (t = SKYNET_SOCKET_TYPE_UDP <-> type = SOCKET_UDP) /\ type <> SOCKET_EXIT /\ (padding = true -> t <> SKYNET_SOCKET_TYPE_UDP).
Proof.
  unfold socket_type, SOCKET_DATA, SOCKET_CLOSE, SOCKET_OPEN, SOCKET_ERROR, SOCKET_ACCEPT, SOCKET_UDP, SOCKET_EXIT, is_int. intros H.
  repeat case_match; try discriminate; injection H as <- <-; unfold SKYNET_SOCKET_TYPE_DATA, SKYNET_SOCKET_TYPE_CLOSE, SKYNET_SOCKET_TYPE_CONNECT, SKYNET_SOCKET_TYPE_ERROR, SKYNET_SOCKET_TYPE_ACCEPT, SKYNET_SOCKET_TYPE_UDP;
    (split; [lia|split; [lia|split; [lia|done]]]).
Qed.

(** The message as the service reads it. *)
Lemma socket_lunpack_ok pad t id ud buffer text sm p : length pad = 4%nat -> is_int t -> is_int id -> is_int ud -> is_u64 buffer ->
  p_mem p !! sm = Some (Bytes (socket_message_bytes pad t id ud buffer ++ text)) ->
  (buffer = 0 -> t <> SKYNET_SOCKET_TYPE_UDP) -> forall ad, (t = SKYNET_SOCKET_TYPE_UDP -> exists l, p_mem p !! buffer = Some (Bytes l) /\ udp_address l ud = Ok ad) ->
  lunpack sm (sizeof_socket_message + zlen text) p = Ok (t, id, ud, if buffer =? 0 then inl text else inr buffer, if t =? SKYNET_SOCKET_TYPE_UDP then ad else None).
Proof.
  intros Hp Ht Hi Hu Hb Hm H0 ad Had. destruct (message_read pad t id ud buffer text Hp Ht Hi Hu Hb) as (E1 & E2 & E3 & E4 & E5 & _). unfold lunpack. rewrite Hm. cbn [deref]. rstep.
  rewrite E1. rstep. rewrite E2. rstep. rewrite E3. rstep. rewrite E4. rstep. rewrite !int_round_trip by done.
  assert (le_val (le_bytes 8 (u64 buffer)) = buffer) as ->. { rewrite le_val_le_bytes. change (2 ^ (8 * Z.of_nat 8)) with (2 ^ 64). rewrite Z.mod_small by apply u64_range. by apply u64_small. }
  replace (sizeof_socket_message + zlen text - sizeof_socket_message) with (zlen text) by lia. change sizeof_socket_message with 24. unfold skynet_socket_udp_address.
  destruct (Z.eqb_spec buffer 0) as [->|Hne].
  - rewrite E5. rstep. destruct (Z.eqb_spec t SKYNET_SOCKET_TYPE_UDP); [by destruct H0|done].
  - rstep. destruct (Z.eqb_spec t SKYNET_SOCKET_TYPE_UDP) as [Hudp|]; cbn [negb]; [|done]. destruct (Had Hudp) as (l & -> & El). cbn [deref]. rstep. by rewrite El.
Qed.

Section delivered.
Context (rep : handle_storage -> node -> gmap Z nat -> Prop) {HT : HandleTable rep}.

(** Pushing the message [sm] of a report, or giving it up. *)
Lemma push_report (alloc : gmap Z block -> Z) p m gl Q handle buffer sz b sm :
  p_mem p !! sm = None -> sm <> 0 -> node_ok rep (w_H (p_world p)) (p_node p) m gl Q -> (forall q, zlen (Q q) + 1 < 2 ^ 30) ->
  p_mem p !! 0 = None -> buffer = 0 \/ is_Some (p_mem p !! buffer) ->
  let msg := SkynetMessage 0 0 sm (pack_sz PTYPE_SOCKET sz) in
  let push := '(res, w) ← skynet_context_push handle msg (p_world p);
    let p := with_world w (with_mem (<[sm := b]> (p_mem p)) p) in
    if negb (res =? 0) then p ← skynet_free buffer p; skynet_free sm p else Ok p in
  match queue_of m (p_node p) handle with
  | Some q => exists p' gl', push = Ok p' /\ node_ok rep (w_H (p_world p')) (p_node p') m gl' (post (Some (q, msg)) Q) /\ p_mem p' = <[sm := b]> (p_mem p)
  | None => exists p', push = Ok p' /\ node_ok rep (w_H (p_world p')) (p_node p') m gl Q /\ p_mem p' = delete buffer (p_mem p)
  end.
Proof using HT.
  intros Ha Ha0 Hok Hroom H0 Hb msg push.
  pose proof (context_push_ok rep _ _ _ _ _ handle msg Hok ltac:(intros; apply Hroom)) as Hpush. unfold p_node in Hpush.
  assert (World (w_node (p_world p)) (w_H (p_world p)) = p_world p) as Ew by by destruct (p_world p). unfold push, queue_of. rewrite Ew in Hpush.
  destruct (m !! handle) as [a|]; cbn [mbind option_bind].
  - destruct Hpush as (c & n' & gl' & Hc & -> & _ & Hok'). rstep. cbn [Z.eqb negb]. fold (p_node p) in Hc. rewrite Hc. eexists _, gl'. split; [done|]. split; [exact Hok'|done].
  - rewrite Hpush. rstep. cbn [Z.eqb negb]. assert (buffer <> sm) as Hne by (intros ->; destruct Hb as [|[x Hx]]; [done|congruence]).
    rewrite free_ok; cbn [p_mem with_world with_mem].
    + rstep. rewrite free_ok; cbn [p_mem with_world with_mem].
      * eexists. split; [done|]. split; [exact Hok|]. cbn. rewrite delete_insert_ne by done. rewrite delete_insert_id; [done|]. by rewrite lookup_delete_ne.
      * apply lookup_delete_None. rewrite lookup_insert_ne by done. auto.
      * right. rewrite lookup_delete_ne, lookup_insert_eq by done. by eexists.
    + by rewrite lookup_insert_ne.
    + destruct Hb as [|[x Hx]]; [by left|right]. rewrite lookup_insert_ne by done. by eexists.
Qed.

(** C20. Every report of the socket server reaches its service: for a report of
    any kind the message is put at the end of the queue of the service that owns
    the socket, and no other, and reading it gives the type, the socket, the
    number, the text (cut to 128 bytes) or the block of data, and the address of a
    datagram; without such a service the block is freed and nothing is left
    behind. *)
Theorem socket_message_delivered (alloc : gmap Z block -> Z) (pad : list Z) (p : process) (m : gmap Z nat) (gl : list nat) (Q : nat -> list skynet_message)
  (type t : Z) (padding : bool) (r : socket_report) (more : bool)
  (Halloc : forall mem, mem !! alloc mem = None /\ alloc mem <> 0) (Hpad : length pad = 4%nat) (Hok : node_ok rep (w_H (p_world p)) (p_node p) m gl Q)
  (Hroom : forall q, zlen (Q q) + 1 < 2 ^ 30) (H0 : p_mem p !! 0 = None) (Ht : socket_type type = Some (t, padding)) (Hr : report_ok type r (p_mem p)) :
  match queue_of m (p_node p) (u32 (sr_opaque r)) with
  | Some q => exists p' gl' b sz, skynet_socket_poll alloc pad type r more p = Ok (if more then -1 else 1, p') /\
      node_ok rep (w_H (p_world p')) (p_node p') m gl' (post (Some (q, SkynetMessage 0 0 (alloc (p_mem p)) (pack_sz PTYPE_SOCKET sz))) Q) /\
      p_mem p' = <[alloc (p_mem p) := b]> (p_mem p) /\
      lunpack (alloc (p_mem p)) sz p' = Ok (t, sr_id r, sr_ud r, report_data r, report_address type r (p_mem p))
  | None => exists p', skynet_socket_poll alloc pad type r more p = Ok (if more then -1 else 1, p') /\ node_ok rep (w_H (p_world p')) (p_node p') m gl Q /\
      p_mem p' = match sr_data r with Heap a => delete a (p_mem p) | _ => p_mem p end
  end.
Proof using HT.
  destruct (socket_type_range _ _ _ Ht) as (Hti & Hudp & Hexit & Hpudp). destruct Hr as (Hid & Hud & Hdata). rewrite Ht in Hdata. destruct (Halloc (p_mem p)) as [Ha Ha0].
  set (text := if padding then match sr_data r with Static _ s => take 128 s | _ => [] end else []). set (buffer := if padding then 0 else address_of (sr_data r)).
  assert ((if padding then padding_text (sr_data r) p else Ok []) = Ok text) as Etext.
  { unfold text. destruct padding; [|done]. by destruct Hdata as [->|(a & s & ->)]. }
  assert (Hbuf : (buffer = 0 \/ is_Some (p_mem p !! buffer)) /\ is_u64 buffer /\ (buffer = 0 -> t <> SKYNET_SOCKET_TYPE_UDP) /\
    (if buffer =? 0 then inl text else inr buffer) = report_data r /\ delete buffer (p_mem p) = match sr_data r with Heap a => delete a (p_mem p) | _ => p_mem p end).
  { unfold buffer, text, report_data, is_u64. destruct padding.
    - specialize (Hpudp eq_refl). destruct Hdata as [->|(a & s & ->)]; (split; [by left|]; split; [lia|]; split; [done|]; split; [done|by apply delete_id]).
    - destruct Hdata as [[Hn ->]|(a & l & -> & Har & Hl & _)]; cbn [address_of]; [split; [by left|]; split; [lia|]; split; [done|]; split; [done|by apply delete_id]|].
      split; [right; by eexists|]. split; [lia|]. split; [lia|]. split; [|done]. destruct (Z.eqb_spec a 0); [lia|done]. }
  destruct Hbuf as (Hb1 & Hb2 & Hb3 & Hb4 & Hb5).
  unfold skynet_socket_poll. destruct (Z.eqb_spec type SOCKET_EXIT); [done|]. rewrite Ht. unfold forward_message. rewrite Etext. rstep. unfold skynet_malloc. fold buffer. cbn [p_world with_mem].
  set (b := Bytes (socket_message_bytes pad t (sr_id r) (sr_ud r) buffer ++ text)).
  pose proof (push_report alloc p m gl Q (u32 (sr_opaque r)) buffer (sizeof_socket_message + zlen text) b (alloc (p_mem p)) Ha Ha0 Hok Hroom H0 Hb1) as Hpush. cbn zeta in Hpush.
  destruct (queue_of m (p_node p) (u32 (sr_opaque r))) as [q|].
  - destruct Hpush as (p' & gl' & E & Hok' & Em). rewrite E. rstep. exists p', gl', b, (sizeof_socket_message + zlen text). split; [done|]. split; [done|]. split; [done|].
    rewrite <- Hb4. assert (report_address type r (p_mem p) = if t =? SKYNET_SOCKET_TYPE_UDP then report_address type r (p_mem p) else None) as ->.
    { destruct (Z.eqb_spec t SKYNET_SOCKET_TYPE_UDP) as [|Hn]; [done|]. unfold report_address. destruct (sr_data r); [done..|]. destruct (p_mem p !! a) as [[l|]|]; [|done..]. destruct (Z.eqb_spec type SOCKET_UDP); [tauto|done]. }
    apply (socket_lunpack_ok pad); try done; [rewrite Em, lookup_insert_eq; done|]. intros E1. destruct padding; [by destruct (Hpudp eq_refl)|].
    destruct Hdata as [[Hn _]|(a & l & Ed & Har & Hl & Hadr)]; [done|]. destruct (Hadr E1) as [ad Ead]. exists l. unfold report_address, buffer. rewrite Ed. cbn [address_of]. rewrite Hl, Ead, (proj1 Hudp E1). cbn.
    split; [|done]. rewrite Em, lookup_insert_ne; [done|]. congruence.
  - destruct Hpush as (p' & E & Hok' & Em). rewrite E. rstep. exists p'. split; [done|]. split; [done|]. by rewrite Em.
Qed.

End delivered.

(** A service registered as [0x01000001], and data of a socket on the heap. *)
Definition served_storage : handle_storage :=
  match skynet_handle_register 0 (p_node sample_process) (skynet_handle_init 1) with Ok (_, s) => s | _ => skynet_handle_init 1 end.
Definition served_process : process := with_world (World (p_node sample_process) served_storage) sample_process.

Lemma served_process_ok : node_ok storage_rep (w_H (p_world served_process)) (p_node served_process) {[ 0x01000001 := 0%nat ]} [] (fun _ => []).
Proof.
  destruct sample_process_ok as [Hrep H1 H2]. constructor; [|exact H1|exact H2].
  destruct (ht_register (skynet_handle_init 1) (p_node sample_process) ∅ 0%nat sample_ctx Hrep) as (h & s & E & _ & Hs); [reflexivity|by intros|reflexivity|].
  assert (skynet_handle_register 0 (p_node sample_process) (skynet_handle_init 1) = Ok (0x01000001, served_storage)) as E' by reflexivity.
  rewrite E' in E. injection E as <- <-. exact Hs.
Qed.

Lemma socket_message_delivered_witness :
  exists p' gl' b sz, skynet_socket_poll fresh_address [0; 0; 0; 0] SOCKET_DATA (SocketReport 3 0x01000001 2 (Heap 5)) false served_process = Ok (1, p') /\
    node_ok storage_rep (w_H (p_world p')) (p_node p') {[ 0x01000001 := 0%nat ]} gl'
      (post (Some (0%nat, SkynetMessage 0 0 (fresh_address {[ 5 := Bytes [104; 105] ]}) (pack_sz PTYPE_SOCKET sz))) (fun _ => [])) /\
    p_mem p' = <[fresh_address {[ 5 := Bytes [104; 105] ]} := b]> {[ 5 := Bytes [104; 105] ]} /\
    lunpack (fresh_address {[ 5 := Bytes [104; 105] ]}) sz p' = Ok (SKYNET_SOCKET_TYPE_DATA, 3, 2, inr 5, None).
Proof.
  pose proof (socket_message_delivered storage_rep fresh_address [0; 0; 0; 0] served_process {[ 0x01000001 := 0%nat ]} [] (fun _ => [])
    SOCKET_DATA SKYNET_SOCKET_TYPE_DATA false (SocketReport 3 0x01000001 2 (Heap 5)) false fresh_address_ok eq_refl served_process_ok) as H.
  assert (queue_of {[ 0x01000001 := 0%nat ]} (p_node served_process) (u32 0x01000001) = Some 0%nat) as E by reflexivity.
  cbn [sr_opaque] in H. rewrite E in H. apply H; [intros; vm_compute; reflexivity|reflexivity|reflexivity|].
  split; [unfold is_int; cbn; lia|]. split; [unfold is_int; cbn; lia|]. right. exists 5, [104; 105].
  split; [reflexivity|]. split; [lia|]. split; [reflexivity|]. discriminate.
Defined.
