(* ===== verification/Sproto.v ===== *)
(** * Messages with a schema (lualib-src/sproto/sproto.c, lsproto.c)

    [sproto_encode] asks a callback for the values of the fields of a type and
    writes them to a buffer; [sproto_decode] reads a message and hands the values
    to a callback. The callbacks [encode] and [decode] of lsproto.c read and build
    Lua tables, which live in a heap, and call the two functions again for
    structures inside. A pointer to a type is its index in the schema; a pointer
    into a buffer is a position. *)
From S2P Require Import Prelude SprotoPack.

Definition SPROTO_TARRAY : Z := 0x80.
Definition SIZEOF_LENGTH : Z := 4.
Definition SIZEOF_HEADER : Z := 2.
Definition SIZEOF_FIELD : Z := 2.
Definition SPROTO_TINTEGER : Z := 0.
Definition SPROTO_TBOOLEAN : Z := 1.
Definition SPROTO_TSTRING : Z := 2.
Definition SPROTO_TSTRUCT : Z := 3.
Definition SPROTO_CB_ERROR : Z := -1.
Definition SPROTO_CB_NIL : Z := -2.
Definition SPROTO_CB_NOARRAY : Z := -3.

(** ** The schema *)

Record field : Set := Field {
  f_tag : Z;
  f_type : Z;
  f_name : list Z;
  f_st : option nat;
  f_key : Z
}.

Record sproto_type : Set := SprotoType {
  t_name : list Z;
  t_n : Z;
  t_base : Z;
  t_maxn : Z;
  t_f : list field
}.

Definition is_array (f : field) : bool := negb (Z.land (f_type f) SPROTO_TARRAY =? 0).
Definition base_type (f : field) : Z := Z.land (f_type f) (Z.lnot SPROTO_TARRAY).

(** The binary search of [findtag] and [query_proto]. *)
Section bisect.
Context {A : Type} (key : A -> Z) (l : list A) (tag : Z).

Fixpoint bisect (fuel : nat) (begin end_ : Z) : result (option A) :=
  match fuel with
  | O => Fault
  | S fuel =>
      if begin <? end_ then
        let mid := (begin + end_) / 2 in
        f ← zget l mid;
        let t := key f in
        if t =? tag then Ok (Some f)
        else if t <? tag then bisect fuel (mid + 1) end_
        else bisect fuel begin mid
      else Ok None
  end.

End bisect.

Definition findtag (st : sproto_type) (tag : Z) : result (option field) :=
  if 0 <=? t_base st then
    let tag := tag - t_base st in
    if (tag <? 0) || (t_n st <=? tag) then Ok None else f ← zget (t_f st) tag; Ok (Some f)
  else bisect f_tag (t_f st) tag (S (Z.to_nat (t_n st))) 0 (t_n st).

(** [struct sproto_arg] without [ud] and [value]. *)
Record sproto_arg : Set := SprotoArg {
  a_tagname : list Z;
  a_tagid : Z;
  a_type : Z;
  a_subtype : option nat;
  a_length : Z;
  a_index : Z;
  a_mainindex : Z
}.

Definition field_args (f : field) (type : Z) : sproto_arg := SprotoArg (f_name f) (f_tag f) type (f_st f) 0 0 (f_key f).
Definition at_value (length index : Z) (a : sproto_arg) : sproto_arg :=
  SprotoArg (a_tagname a) (a_tagid a) (a_type a) (a_subtype a) length index (a_mainindex a).

(** ** Encoding (sproto.c) *)

Definition fill_size (b : list Z) (data sz : Z) : result (Z * list Z) :=
  b ← blit b data (le_bytes 4 sz);
  Ok (sz + SIZEOF_LENGTH, b).

Definition encode_integer (v : Z) (b : list Z) (data size : Z) : result (Z * list Z) :=
  if size <? SIZEOF_LENGTH + 4 then Ok (-1, b)
  else b ← blit b (data + 4) (le_bytes 4 v); fill_size b data 4.

Definition encode_uint64 (v : Z) (b : list Z) (data size : Z) : result (Z * list Z) :=
  if size <? SIZEOF_LENGTH + 8 then Ok (-1, b)
  else b ← blit b (data + 4) (le_bytes 8 v); fill_size b data 8.

Definition uint32_to_uint64 (negative : bool) (b : list Z) (buffer : Z) : result (list Z) :=
  blit b (buffer + 4) (replicate 4 (if negative then 0xff else 0)).

(** The loop that widens the integers [0 .. n - 1] already written, the last
    one first. *)
Fixpoint rearrange (n : nat) (header : Z) (b : list Z) : result (list Z) :=
  match n with
  | O => Ok b
  | S i =>
      let i' := Z.of_nat i in
      d ← slice b (header + 1 + i' * 4) 4;
      b ← blit b (header + 1 + i' * 8) d;
      top ← zget b (header + 1 + i' * 8 + 3);
      b ← uint32_to_uint64 (negb (Z.land top 0x80 =? 0)) b (header + 1 + i' * 8);
      rearrange i header b
  end.

Section encode.
(** The callback gets the address of [value], which for integers and booleans
    is a local variable, and returns a size, what it has stored in that variable,
    and the buffer. *)
Context {U : Type} (cb : sproto_arg -> Z -> U -> list Z -> result (Z * Z * U * list Z)).

(** The end of the integers, their width and [*noarray]; [None] is [NULL].
    [size] is an [int] that is compared as a [size_t]. *)
Fixpoint integers_loop (fuel : nat) (args : sproto_arg) (header buffer size intlen index : Z) (ud : U) (b : list Z) : result (option (Z * Z * bool) * U * list Z) :=
  match fuel with
  | O => Fault
  | S fuel =>
      '(sz, u, ud, b) ← cb (at_value 8 index args) 0 ud b;
      if sz <=? 0 then
        if sz =? SPROTO_CB_NIL then Ok (Some (buffer, intlen, false), ud, b)
        else if sz =? SPROTO_CB_NOARRAY then Ok (Some (buffer, intlen, true), ud, b)
        else Ok (None, ud, b)
      else if u64 size <? 8 then Ok (None, ud, b)
      else if sz =? 4 then
        b ← blit b buffer (le_bytes 4 u);
        b ← (if intlen =? 8 then uint32_to_uint64 (negb (Z.land u 0x80000000 =? 0)) b buffer else Ok b);
        integers_loop fuel args header (buffer + intlen) (size - intlen) intlen (index + 1) ud b
      else if negb (sz =? 8) then Ok (None, ud, b)
      else if intlen =? 4 then
        let size := s32 (size - (index - 1) * 4) in
        if u64 size <? 8 then Ok (None, ud, b)
        else
          let buffer := buffer + (index - 1) * 4 in
          b ← rearrange (Z.to_nat (index - 1)) header b;
          b ← blit b buffer (le_bytes 8 u);
          integers_loop fuel args header (buffer + 8) (size - 8) 8 (index + 1) ud b
      else
        b ← blit b buffer (le_bytes 8 u);
        integers_loop fuel args header (buffer + intlen) (size - intlen) intlen (index + 1) ud b
  end.

Definition encode_integer_array (args : sproto_arg) (buffer size : Z) (ud : U) (b : list Z) : result (option (Z * bool) * U * list Z) :=
  if size <? 1 then Ok (None, ud, b)
  else
    '(r, ud, b) ← integers_loop (S (Z.to_nat size)) args buffer (buffer + 1) (size - 1) 4 1 ud b;
    match r with
    | None => Ok (None, ud, b)
    | Some (pos, intlen, noarray) =>
        if pos =? buffer + 1 then Ok (Some (buffer, noarray), ud, b)
        else b ← zset b buffer intlen; Ok (Some (pos, noarray), ud, b)
    end.

(** [inl r]: the function returns [r]; [inr]: the end of the elements. *)
Fixpoint booleans_loop (fuel : nat) (args : sproto_arg) (buffer size index : Z) (ud : U) (b : list Z) : result ((Z + Z) * U * list Z) :=
  match fuel with
  | O => Fault
  | S fuel =>
      '(sz, v, ud, b) ← cb (at_value 4 index args) 0 ud b;
      if sz <? 0 then
        if sz =? SPROTO_CB_NIL then Ok (inr buffer, ud, b)
        else if sz =? SPROTO_CB_NOARRAY then Ok (inl 0, ud, b)
        else Ok (inl (-1), ud, b)
      else if size <? 1 then Ok (inl (-1), ud, b)
      else
        b ← zset b buffer (if negb (v =? 0) then 1 else 0);
        booleans_loop fuel args (buffer + 1) (size - 1) (index + 1) ud b
  end.

Fixpoint objects_loop (fuel : nat) (args : sproto_arg) (buffer size index : Z) (ud : U) (b : list Z) : result ((Z + Z) * U * list Z) :=
  match fuel with
  | O => Fault
  | S fuel =>
      if size <? SIZEOF_LENGTH then Ok (inl (-1), ud, b)
      else
        let size := size - SIZEOF_LENGTH in
        '(sz, _, ud, b) ← cb (at_value size index args) (buffer + SIZEOF_LENGTH) ud b;
        if sz <? 0 then
          if sz =? SPROTO_CB_NIL then Ok (inr buffer, ud, b)
          else if sz =? SPROTO_CB_NOARRAY then Ok (inl 0, ud, b)
          else Ok (inl (-1), ud, b)
        else
          '(_, b) ← fill_size b buffer sz;
          objects_loop fuel args (buffer + SIZEOF_LENGTH + sz) (size - sz) (index + 1) ud b
  end.

Definition encode_array (args : sproto_arg) (data size : Z) (ud : U) (b : list Z) : result (Z * U * list Z) :=
  if size <? SIZEOF_LENGTH then Ok (-1, ud, b)
  else
    let size := size - SIZEOF_LENGTH in
    let buffer := data + SIZEOF_LENGTH in
    '(r, ud, b) ← (
      if a_type args =? SPROTO_TINTEGER then
        '(r, ud, b) ← encode_integer_array args buffer size ud b;
        match r with
        | None => Ok (inl (-1), ud, b)
        | Some (pos, noarray) => Ok (if noarray : bool then inl 0 else inr pos, ud, b)
        end
      else if a_type args =? SPROTO_TBOOLEAN then booleans_loop (S (S (Z.to_nat size))) args buffer size 1 ud b
      else objects_loop (S (S (Z.to_nat size))) args buffer size 1 ud b);
    match r with
    | inl r => Ok (r, ud, b)
    | inr pos => '(sz, b) ← fill_size b data (pos - (data + SIZEOF_LENGTH)); Ok (sz, ud, b)
    end.

Definition encode_object (args : sproto_arg) (data size : Z) (ud : U) (b : list Z) : result (Z * U * list Z) :=
  if size <? SIZEOF_LENGTH then Ok (-1, ud, b)
  else
    '(sz, _, ud, b) ← cb (at_value (size - SIZEOF_LENGTH) 0 args) (data + SIZEOF_LENGTH) ud b;
    if sz <? 0 then Ok (if sz =? SPROTO_CB_NIL then 0 else -1, ud, b)
    else
      _ ← assert_ (sz <=? size - SIZEOF_LENGTH);
      '(sz, b) ← fill_size b data sz; Ok (sz, ud, b).

(** What the body of the loop over the fields comes to. *)
Inductive encoded : Set :=
| Return (r : Z)
| Continue
| Record_ (sz value : Z).

Definition encode_field (f : field) (data size : Z) (ud : U) (b : list Z) : result (encoded * U * list Z) :=
  if is_array f then
    '(sz, ud, b) ← encode_array (field_args f (base_type f)) data size ud b;
    Ok (Record_ sz 0, ud, b)
  else
    let args := field_args f (f_type f) in
    if (f_type f =? SPROTO_TINTEGER) || (f_type f =? SPROTO_TBOOLEAN) then
      '(sz, u, ud, b) ← cb (at_value 8 0 args) 0 ud b;
      if sz <? 0 then
        Ok (if sz =? SPROTO_CB_NIL then Continue else if sz =? SPROTO_CB_NOARRAY then Return 0 else Return (-1), ud, b)
      else if sz =? 4 then
        if u <? 0x7fff then Ok (Record_ 2 ((u + 1) * 2), ud, b)
        else '(sz, b) ← encode_integer u b data size; Ok (Record_ sz 0, ud, b)
      else if sz =? 8 then '(sz, b) ← encode_uint64 u b data size; Ok (Record_ sz 0, ud, b)
      else Ok (Return (-1), ud, b)
    else if (f_type f =? SPROTO_TSTRUCT) || (f_type f =? SPROTO_TSTRING) then
      '(sz, ud, b) ← encode_object args data size ud b; Ok (Record_ sz 0, ud, b)
    else Ok (Record_ (-1) 0, ud, b).

(** The records of a field, and of the tags it skips: the new [index]. *)
Definition put_record (tag lasttag value header index : Z) (b : list Z) : result (option (Z * list Z)) :=
  let record := header + SIZEOF_HEADER + SIZEOF_FIELD * index in
  let tag := tag - lasttag - 1 in
  if 0 <? tag then
    let tag := (tag - 1) * 2 + 1 in
    if 0xffff <? tag then Ok None
    else
      b ← blit b record (le_bytes 2 tag);
      b ← blit b (record + SIZEOF_FIELD) (le_bytes 2 value);
      Ok (Some (index + 2, b))
  else
    b ← blit b record (le_bytes 2 value);
    Ok (Some (index + 1, b)).

(** [inr (data, index)]: all fields are done. *)
Fixpoint fields_loop (l : list field) (header data size index lasttag : Z) (ud : U) (b : list Z) : result ((Z + Z * Z) * U * list Z) :=
  match l with
  | [] => Ok (inr (data, index), ud, b)
  | f :: l =>
      '(e, ud, b) ← encode_field f data size ud b;
      match e with
      | Return r => Ok (inl r, ud, b)
      | Continue => fields_loop l header data size index lasttag ud b
      | Record_ sz value =>
          if sz <? 0 then Ok (inl (-1), ud, b)
          else if 0 <? sz then
            let '(data, size) := if value =? 0 then (data + sz, size - sz) else (data, size) in
            o ← put_record (f_tag f) lasttag value header index b;
            match o with
            | None => Ok (inl (-1), ud, b)
            | Some (index, b) => fields_loop l header data size index (f_tag f) ud b
            end
          else fields_loop l header data size index lasttag ud b
      end
  end.

Definition sproto_encode (st : sproto_type) (header size : Z) (ud : U) (b : list Z) : result (Z * U * list Z) :=
  let header_sz := SIZEOF_HEADER + t_maxn st * SIZEOF_FIELD in
  if size <? header_sz then Ok (-1, ud, b)
  else
    '(r, ud, b) ← fields_loop (t_f st) header (header + header_sz) (size - header_sz) 0 (-1) ud b;
    match r with
    | inl r => Ok (r, ud, b)
    | inr (data, index) =>
        b ← blit b header (le_bytes 2 index);
        let datasz := data - (header + header_sz) in
        b ← (if negb (index =? t_maxn st) then d ← slice b (header + header_sz) datasz; blit b (header + SIZEOF_HEADER + index * SIZEOF_FIELD) d else Ok b);
        Ok (SIZEOF_HEADER + index * SIZEOF_FIELD + datasz, ud, b)
    end.

End encode.

(** ** Decoding (sproto.c) *)

Definition toword (l : list Z) (p : Z) : result Z := w ← slice l p 2; Ok (le_val w).
Definition todword (l : list Z) (p : Z) : result Z := d ← slice l p 4; Ok (le_val d).

Definition expand64 (v : Z) : Z := if negb (Z.land v 0x80000000 =? 0) then Z.lor v (Z.shiftl (2 ^ 32 - 1) 32) else v.

(** What [args->value] points to: an integer, a position in the message. *)
Inductive decode_value : Set :=
| Number (v : Z)
| Position (p : Z)
| NoValue.

Section decode.
Context {U : Type} (l : list Z) (cb : sproto_arg -> decode_value -> U -> result (Z * U)).

Fixpoint array_object_loop (fuel : nat) (args : sproto_arg) (stream sz index : Z) (ud : U) : result (Z * U) :=
  match fuel with
  | O => Fault
  | S fuel =>
      if 0 <? sz then
        if sz <? SIZEOF_LENGTH then Ok (-1, ud)
        else
          hsz ← todword l stream;
          let stream := stream + SIZEOF_LENGTH in
          let sz := sz - SIZEOF_LENGTH in
          if u32 sz <? hsz then Ok (-1, ud)
          else
            '(r, ud) ← cb (at_value (s32 hsz) index args) (Position stream) ud;
            if negb (r =? 0) then Ok (-1, ud)
            else array_object_loop fuel args (stream + hsz) (s32 (sz - hsz)) (index + 1) ud
      else Ok (0, ud)
  end.

Definition decode_array_object (args : sproto_arg) (stream sz : Z) (ud : U) : result (Z * U) :=
  array_object_loop (S (Z.to_nat sz)) args stream sz 1 ud.

(** The three loops over the elements of a fixed width; [read] gets element
    [i], the first of the [n] that are left. *)
Fixpoint elements_loop (n : nat) (read : Z -> result Z) (args : sproto_arg) (i : Z) (ud : U) : result U :=
  match n with
  | O => Ok ud
  | S n =>
      v ← read i;
      '(_, ud) ← cb (at_value 8 (i + 1) args) (Number v) ud;
      elements_loop n read args (i + 1) ud
  end.

(** The elements of an array of [sz] bytes. *)
Definition decode_elements (args : sproto_arg) (stream sz : Z) (ud : U) : result (Z * U) :=
  if a_type args =? SPROTO_TINTEGER then
    len ← zget l stream;
    let stream := stream + 1 in
    let sz := sz - 1 in
    if len =? 4 then
      if negb (sz mod 4 =? 0) then Ok (-1, ud)
      else
        ud ← elements_loop (Z.to_nat (sz / 4)) (fun i => d ← todword l (stream + i * 4); Ok (expand64 d)) args 0 ud;
        Ok (0, ud)
    else if len =? 8 then
      if negb (sz mod 8 =? 0) then Ok (-1, ud)
      else
        ud ← elements_loop (Z.to_nat (sz / 8))
          (fun i => low ← todword l (stream + i * 8); hi ← todword l (stream + i * 8 + 4); Ok (Z.lor low (Z.shiftl hi 32))) args 0 ud;
        Ok (0, ud)
    else Ok (-1, ud)
  else if a_type args =? SPROTO_TBOOLEAN then
    ud ← elements_loop (Z.to_nat sz) (fun i => zget l (stream + i)) args 0 ud;
    Ok (0, ud)
  else if (a_type args =? SPROTO_TSTRING) || (a_type args =? SPROTO_TSTRUCT) then decode_array_object args stream (s32 sz) ud
  else Ok (-1, ud).

Definition decode_array (args : sproto_arg) (stream : Z) (ud : U) : result (Z * U) :=
  sz ← todword l stream;
  if sz =? 0 then '(_, ud) ← cb (at_value 0 (-1) args) NoValue ud; Ok (0, ud)
  else decode_elements args (stream + SIZEOF_LENGTH) sz ud.

(** A field with its data at [currentdata] ([value < 0]) or in its record. *)
Definition decode_field (f : field) (value currentdata : Z) (ud : U) : result (Z * U) :=
  let args := field_args f (base_type f) in
  if value <? 0 then
    if is_array f then '(r, ud) ← decode_array args currentdata ud; Ok (if negb (r =? 0) then -1 else 0, ud)
    else if f_type f =? SPROTO_TINTEGER then
      sz ← todword l currentdata;
      if sz =? 4 then
        d ← todword l (currentdata + SIZEOF_LENGTH);
        '(_, ud) ← cb (at_value 8 0 args) (Number (expand64 d)) ud; Ok (0, ud)
      else if negb (sz =? 8) then Ok (-1, ud)
      else
        low ← todword l (currentdata + SIZEOF_LENGTH);
        hi ← todword l (currentdata + SIZEOF_LENGTH + 4);
        '(_, ud) ← cb (at_value 8 0 args) (Number (Z.lor low (Z.shiftl hi 32))) ud; Ok (0, ud)
    else if (f_type f =? SPROTO_TSTRING) || (f_type f =? SPROTO_TSTRUCT) then
      sz ← todword l currentdata;
      '(r, ud) ← cb (at_value (s32 sz) 0 args) (Position (currentdata + SIZEOF_LENGTH)) ud;
      Ok (if negb (r =? 0) then -1 else 0, ud)
    else Ok (-1, ud)
  else if negb (f_type f =? SPROTO_TINTEGER) && negb (f_type f =? SPROTO_TBOOLEAN) then Ok (-1, ud)
  else '(_, ud) ← cb (at_value 8 0 args) (Number value) ud; Ok (0, ud).

(** The loop over the [n] records that are left, at [stream]; [inl]: the
    function returns; [inr]: the [size] that is left. The sum [sz +
    SIZEOF_LENGTH] is a [uint32_t]. *)
Fixpoint records_loop (n : nat) (st : sproto_type) (stream datastream size tag : Z) (ud : U) : result ((Z + Z) * U) :=
  match n with
  | O => Ok (inr size, ud)
  | S n =>
      value ← toword l stream;
      let stream := stream + SIZEOF_FIELD in
      let tag := tag + 1 in
      if Z.odd value then records_loop n st stream datastream size (tag + value / 2) ud
      else
        let value := value / 2 - 1 in
        '(bad, datastream', size) ← (
          if value <? 0 then
            if size <? SIZEOF_LENGTH then Ok (true, datastream, size)
            else
              sz ← todword l datastream;
              let need := u32 (sz + SIZEOF_LENGTH) in
              if u32 size <? need then Ok (true, datastream, size) else Ok (false, datastream + need, s32 (size - need))
          else Ok (false, datastream, size));
        if bad : bool then Ok (inl (-1), ud)
        else
          f ← findtag st tag;
          match f with
          | None => records_loop n st stream datastream' size tag ud
          | Some f =>
              '(r, ud) ← decode_field f value datastream ud;
              if r <? 0 then Ok (inl (-1), ud) else records_loop n st stream datastream' size tag ud
          end
  end.

Definition sproto_decode (st : sproto_type) (data size : Z) (ud : U) : result (Z * U) :=
  if size <? SIZEOF_HEADER then Ok (-1, ud)
  else
    fn ← toword l data;
    let stream := data + SIZEOF_HEADER in
    let size' := size - SIZEOF_HEADER in
    if size' <? fn * SIZEOF_FIELD then Ok (-1, ud)
    else
      '(r, ud) ← records_loop (Z.to_nat fn) st stream (stream + fn * SIZEOF_FIELD) (size' - fn * SIZEOF_FIELD) (-1) ud;
      match r with
      | inl r => Ok (r, ud)
      | inr size' => Ok (size - size', ud)
      end.

End decode.

(** ** Lua tables *)

(** [LOther]: floats, functions, userdata. *)
Inductive lua_value : Set :=
| LNil
| LBoolean (b : bool)
| LInteger (v : Z)
| LString (s : list Z)
| LTable (t : nat)
| LOther (n : Z).

#[export] Instance lua_value_eq_dec : EqDecision lua_value.
Proof. solve_decision. Defined.

(** A table without metatable: its entries in the order of [lua_next]. *)
Definition table : Type := list (lua_value * lua_value).
Notation heap := (gmap nat table).

Fixpoint rawget (t : table) (k : lua_value) : lua_value :=
  match t with
  | [] => LNil
  | (k', v) :: t => if decide (k = k') then v else rawget t k
  end.

(** The entry after the one of [k], the first one for [nil]; a key that is not
    in the table is an error of Lua. *)
Fixpoint after_key (t : table) (k : lua_value) : option table :=
  match t with
  | [] => None
  | (k', _) :: t => if decide (k = k') then Some t else after_key t k
  end.

Definition lua_next (t : table) (k : lua_value) : result (option (lua_value * lua_value)) :=
  if decide (k = LNil) then Ok (head t)
  else match after_key t k with Some t => Ok (head t) | None => LuaError "invalid key to 'next'" end.

Section tables.
(** Where the traversal of a table comes to a new key is up to Lua. *)
Context (place : table -> lua_value -> nat).

Definition has_key (t : table) (k : lua_value) : bool := bool_decide (k ∈ t.*1).

(** [v] is not nil. *)
Definition rawset (t : table) (k v : lua_value) : table :=
  if has_key t k then (fun '(k', v') => (k', if decide (k = k') then v else v')) <$> t
  else take (place t k) t ++ (k, v) :: drop (place t k) t.

Definition set_table (h : heap) (a : nat) (k v : lua_value) : result heap :=
  t ← deref (h !! a);
  Ok (<[a := rawset t k v]> h).

End tables.

Definition ENCODE_DEEPLEVEL : nat := 64.

(** ** The callbacks (lsproto.c)

    Inside one [sproto_encode] or [sproto_decode] the pointers [tagname] of two
    fields differ as their tags do: [array_tag] is a tag. The level that is left
    is [ENCODE_DEEPLEVEL - self->deep]. Slots of the Lua stack are components of
    the state. *)
Section lsproto.
Context (T : list sproto_type).
(** How Lua converts values that are not integers to integers, and values
    that are not strings to strings. *)
Context (cvt_integer : lua_value -> option Z) (cvt_string : lua_value -> option (list Z)).

Definition lua_tointegerx (v : lua_value) : option Z :=
  match v with LInteger z => Some z | LString _ | LOther _ => cvt_integer v | _ => None end.
Definition lua_tolstring (v : lua_value) : option (list Z) :=
  match v with LString s => Some s | LInteger _ | LOther _ => cvt_string v | _ => None end.

(** *** Reading tables *)

Record encode_ud : Set := EncodeUd {
  e_table : nat;
  e_array_tag : option Z;
  e_array : option nat;
  e_iter : lua_value
}.

Section reading.
Context (h : heap).

Definition getfield (a : nat) (name : list Z) : result lua_value := t ← deref (h !! a); Ok (rawget t (LString name)).

(** [inl]: the callback returns; [inr]: the value pushed. *)
Definition select (args : sproto_arg) (self : encode_ud) : result ((Z + lua_value) * encode_ud) :=
  if 0 <? a_index args then
    '(r, self) ← (
      if decide (e_array_tag self = Some (a_tagid args)) then Ok (None, self)
      else
        v ← getfield (e_table self) (a_tagname args);
        match v with
        | LNil => Ok (Some SPROTO_CB_NOARRAY, EncodeUd (e_table self) (Some (a_tagid args)) None (e_iter self))
        | LTable a => Ok (None, EncodeUd (e_table self) (Some (a_tagid args)) (Some a) (e_iter self))
        | _ => LuaError "should be a table"
        end);
    match r with
    | Some r => Ok (inl r, self)
    | None =>
        a ← deref (e_array self);
        t ← deref (h !! a);
        if 0 <=? a_mainindex args then
          e ← lua_next t (e_iter self);
          match e with
          | None => Ok (inl SPROTO_CB_NIL, EncodeUd (e_table self) (e_array_tag self) (e_array self) LNil)
          | Some (k, v) => Ok (inr v, EncodeUd (e_table self) (e_array_tag self) (e_array self) k)
          end
        else Ok (inr (rawget t (LInteger (a_index args))), self)
    end
  else v ← getfield (e_table self) (a_tagname args); Ok (inr v, self).

Fixpoint encode (lv : nat) (args : sproto_arg) (value : Z) (self : encode_ud) (b : list Z) : result (Z * Z * encode_ud * list Z) :=
  match lv with
  | O => LuaError "The table is too deep"
  | S lv =>
      '(r, self) ← select args self;
      match r with
      | inl r => Ok (r, 0, self, b)
      | inr LNil => Ok (SPROTO_CB_NIL, 0, self, b)
      | inr v =>
          if a_type args =? SPROTO_TINTEGER then
            match lua_tointegerx v with
            | None => LuaError "is not an integer"
            | Some v =>
                let vh := Z.shiftr v 31 in
                if (vh =? 0) || (vh =? -1) then Ok (4, u32 v, self, b) else Ok (8, u64 v, self, b)
            end
          else if a_type args =? SPROTO_TBOOLEAN then
            match v with
            | LBoolean v => Ok (4, if v then 1 else 0, self, b)
            | _ => LuaError "is not a boolean"
            end
          else if a_type args =? SPROTO_TSTRING then
            match lua_tolstring v with
            | None => LuaError "is not a string"
            | Some str =>
                if u64 (a_length args) <? zlen str then Ok (SPROTO_CB_ERROR, 0, self, b)
                else b ← blit b value str; Ok (zlen str, 0, self, b)
            end
          else if a_type args =? SPROTO_TSTRUCT then
            match v with
            | LTable a =>
                st ← deref (a_subtype args ≫= fun i => T !! i);
                '(r, _, b) ← sproto_encode (encode lv) st value (a_length args) (EncodeUd a None None LNil) b;
                Ok (if r <? 0 then SPROTO_CB_ERROR else r, 0, self, b)
            | _ => LuaError "is not a table"
            end
          else LuaError "Invalid field type"
      end
  end.

(** The string returned and the closure's buffer, which is [sz] bytes long. *)
Context (lua_newuserdata : Z -> list Z).

Fixpoint lencode_loop (fuel : nat) (st : sproto_type) (source : nat) (buffer : list Z) (sz : Z) : result (list Z * list Z) :=
  match fuel with
  | O => Fault
  | S fuel =>
      '(r, _, buffer) ← sproto_encode (encode ENCODE_DEEPLEVEL) st 0 sz (EncodeUd source None None LNil) buffer;
      if r <? 0 then
        buffer ← expand_buffer lua_newuserdata sz (sz * 2);
        lencode_loop fuel st source buffer (sz * 2)
      else s ← slice buffer 0 r; Ok (s, buffer)
  end.

Definition lencode (st : sproto_type) (source : nat) (buffer : list Z) : result (list Z * list Z) :=
  lencode_loop 32 st source buffer (zlen buffer).

End reading.

(** *** Building tables *)

Context (lua_newtable : heap -> nat) (place : table -> lua_value -> nat).

(** [d_mainindex_tag] is [mainindex_tag], [d_key] the slot [key_index]. *)
Record decode_ud : Set := DecodeUd {
  d_array_tag : option Z;
  d_array : option nat;
  d_result : nat;
  d_mainindex_tag : Z;
  d_key : lua_value
}.

Definition set_array (tag : Z) (a : nat) (self : decode_ud) : decode_ud :=
  DecodeUd (Some tag) (Some a) (d_result self) (d_mainindex_tag self) (d_key self).
Definition set_key (k : lua_value) (self : decode_ud) : decode_ud :=
  DecodeUd (d_array_tag self) (d_array self) (d_result self) (d_mainindex_tag self) k.

Definition new_table (h : heap) : nat * heap := (lua_newtable h, <[lua_newtable h := []]> h).

(** The value on the top of the stack goes into its place. *)
Definition store (args : sproto_arg) (v : lua_value) (self : decode_ud) (h : heap) : result (Z * (decode_ud * heap)) :=
  if 0 <? a_index args then
    a ← deref (d_array self);
    h ← set_table place h a (LInteger (a_index args)) v;
    Ok (0, (self, h))
  else
    let self := if d_mainindex_tag self =? a_tagid args then set_key v self else self in
    h ← set_table place h (d_result self) (LString (a_tagname args)) v;
    Ok (0, (self, h)).

Section building.
Context (l : list Z).

(** [sizeof(TString)] *)
Definition sizeof_TString : Z := 24.

Definition lua_pushlstring (p len : Z) : result lua_value :=
  if 2 ^ 63 - 1 - sizeof_TString <=? len then LuaError "memory allocation error: block too big" else s ← slice l p len; Ok (LString s).

(** The structure at [p]. *)
Definition decode_struct (decode : sproto_arg -> decode_value -> decode_ud * heap -> result (Z * (decode_ud * heap))) (args : sproto_arg) (p : Z) (self : decode_ud) (h : heap) :
  result (Z * (decode_ud * heap)) :=
  let '(a, h) := new_table h in
  st ← deref (a_subtype args ≫= fun i => T !! i);
  let sub := DecodeUd None None a (if 0 <=? a_mainindex args then a_mainindex args else -1) LNil in
  '(r, (sub, h)) ← sproto_decode l decode st p (a_length args) (sub, h);
  if r <? 0 then Ok (SPROTO_CB_ERROR, (self, h))
  else if negb (r =? a_length args) then Ok (r, (self, h))
  else if 0 <=? a_mainindex args then
    if decide (d_key sub = LNil) then LuaError "Can't find main index"
    else
      array ← deref (d_array self);
      h ← set_table place h array (d_key sub) (LTable a);
      Ok (0, (self, h))
  else store args (LTable a) self h.

Fixpoint decode (lv : nat) (args : sproto_arg) (value : decode_value) (ud : decode_ud * heap) : result (Z * (decode_ud * heap)) :=
  match lv with
  | O => LuaError "The table is too deep"
  | S lv =>
      let '(self, h) := ud in
      '(empty, (self, h)) ← (
        if negb (a_index args =? 0) && bool_decide (d_array_tag self <> Some (a_tagid args)) then
          let '(a, h) := new_table h in
          h ← set_table place h (d_result self) (LString (a_tagname args)) (LTable a);
          Ok (a_index args <? 0, (set_array (a_tagid args) a self, h))
        else Ok (false, (self, h)));
      if empty : bool then Ok (0, (self, h))
      else if a_type args =? SPROTO_TINTEGER then
        match value with Number v => store args (LInteger (s64 v)) self h | _ => Fault end
      else if a_type args =? SPROTO_TBOOLEAN then
        match value with Number v => store args (LBoolean (negb (s32 v =? 0))) self h | _ => Fault end
      else if a_type args =? SPROTO_TSTRING then
        match value with
        | Position p => v ← lua_pushlstring p (u64 (a_length args)); store args v self h
        | _ => Fault
        end
      else if a_type args =? SPROTO_TSTRUCT then
        match value with Position p => decode_struct (decode lv) args p self h | _ => Fault end
      else LuaError "Invalid type"
  end.

(** The table and the number of bytes read; [target]: a table of the caller. *)
Definition ldecode (st : sproto_type) (target : option nat) (h : heap) : result (nat * Z * heap) :=
  let '(result, h) := match target with Some a => (a, h) | None => new_table h end in
  '(r, (_, h)) ← sproto_decode l (decode ENCODE_DEEPLEVEL) st 0 (s32 (zlen l)) (DecodeUd None None result (-1) LNil, h);
  if r <? 0 then LuaError "decode error" else Ok (result, r, h).

End building.
End lsproto.
