(* ===== verification/SprotoSchema.v ===== *)
(** * Messages: well-formed schemas, contents and their encoding

    What sproto.c is about, without buffers and tables: the types a schema may
    have, the contents of a message of a type and the bytes that stand for it;
    and when a Lua table carries such contents. *)
From S2P Require Import Prelude Sproto.

(** ** Schemas *)

(** Records that the fields need when all are present: one for each field and
    one for each gap between tags. *)
Fixpoint records_room (last : Z) (l : list field) : Z :=
  match l with
  | [] => 0
  | f :: l => 1 + (if last + 1 <? f_tag f then 1 else 0) + records_room (f_tag f) l
  end.

Fixpoint tags_ascend (last : Z) (l : list field) : Prop :=
  match l with
  | [] => True
  | f :: l => last < f_tag f < 0x8000 /\ tags_ascend (f_tag f) l
  end.

Definition scalar_type (ty : Z) : Prop := ty = SPROTO_TINTEGER \/ ty = SPROTO_TBOOLEAN \/ ty = SPROTO_TSTRING.

(** A field: one of the four types, perhaps in an array; a structure has a type
    of the schema. With a main index it is an array of structures, and the index
    is not the tag of an array or a structure. *)
Record field_wf (T : list sproto_type) (f : field) : Prop := FieldWf {
  fw_type : scalar_type (base_type f) \/ base_type f = SPROTO_TSTRUCT;
  fw_range : 0 <= f_type f < 256;
  fw_st : base_type f = SPROTO_TSTRUCT -> exists i st, f_st f = Some i /\ T !! i = Some st;
  fw_key : 0 <= f_key f -> is_array f = true /\ base_type f = SPROTO_TSTRUCT /\
    forall i st g, f_st f = Some i -> T !! i = Some st -> g ∈ t_f st -> f_tag g = f_key f -> is_array g = false /\ scalar_type (base_type g)
}.

Record type_wf (T : list sproto_type) (st : sproto_type) : Prop := TypeWf {
  tw_n : t_n st = zlen (t_f st);
  tw_tags : tags_ascend (-1) (t_f st);
  tw_maxn : t_maxn st = records_room (-1) (t_f st);
  tw_base : 0 <= t_base st -> forall i f, t_f st !! i = Some f -> f_tag f = t_base st + Z.of_nat i;
  tw_fields : Forall (field_wf T) (t_f st)
}.

Definition schema_wf (T : list sproto_type) : Prop := Forall (type_wf T) T.

(** ** Contents *)

Inductive content : Set :=
| CInt (z : Z)
| CBool (b : bool)
| CStr (s : list Z)
| CMsg (fs : list (Z * content))
| CArr (l : list content).

Section content_ind'.
Context (P : content -> Prop) (HInt : forall z, P (CInt z)) (HBool : forall b, P (CBool b)) (HStr : forall s, P (CStr s))
  (HMsg : forall fs, Forall (fun p => P p.2) fs -> P (CMsg fs)) (HArr : forall l, Forall P l -> P (CArr l)).

Fixpoint content_ind' (c : content) : P c :=
  match c with
  | CInt z => HInt z
  | CBool b => HBool b
  | CStr s => HStr s
  | CMsg fs => HMsg fs ((fix go fs : Forall (fun p => P p.2) fs := match fs with [] => @List.Forall_nil _ _ | p :: fs => @List.Forall_cons _ _ p fs (content_ind' p.2) (go fs) end) fs)
  | CArr l => HArr l ((fix go l : Forall P l := match l with [] => @List.Forall_nil _ _ | c :: l => @List.Forall_cons _ _ c l (content_ind' c) (go l) end) l)
  end.
End content_ind'.

(** ** The bytes of a message *)

(** An integer of 32 bits. *)
Definition fits32 (z : Z) : bool := (- 2 ^ 31 <=? z) && (z <? 2 ^ 31).

(** The value of a record, for small integers and booleans. *)
Definition inline (c : content) : option Z :=
  match c with
  | CInt z => if fits32 z && (u32 z <? 0x7fff) then Some ((u32 z + 1) * 2) else None
  | CBool b => Some (((if b then 1 else 0) + 1) * 2)
  | _ => None
  end.

Definition block (p : list Z) : list Z := le_bytes 4 (zlen p) ++ p.
Definition int_bytes (wide : bool) (z : Z) : list Z := if wide then le_bytes 8 (u64 z) else le_bytes 4 (u32 z).
Definition ints_of (l : list content) : list Z := omap (fun c => match c with CInt z => Some z | _ => None end) l.

Definition int_array (zs : list Z) : list Z :=
  let wide := negb (forallb fits32 zs) in
  (if wide then 8 else 4) :: concat (int_bytes wide <$> zs).

(** The records of fields, each with its tag, the value of its record if that
    has one and its data: before a field the tags that are skipped. *)
Fixpoint records (last : Z) (ps : list (Z * option Z * list Z)) : list Z :=
  match ps with
  | [] => []
  | (tag, v, _) :: ps => (if 0 <? tag - last - 1 then [(tag - last - 1 - 1) * 2 + 1] else []) ++ default 0 v :: records tag ps
  end.

Definition field_data (v : option Z) (p : list Z) : list Z := match v with Some _ => [] | None => block p end.
Definition datas (ps : list (Z * option Z * list Z)) : list Z := concat ((fun '(_, v, p) => field_data v p) <$> ps).

Definition message (ps : list (Z * option Z * list Z)) : list Z :=
  le_bytes 2 (zlen (records (-1) ps)) ++ concat (le_bytes 2 <$> records (-1) ps) ++ datas ps.

Fixpoint payload (c : content) : list Z :=
  match c with
  | CInt z => int_bytes (negb (fits32 z)) z
  | CBool b => [if b then 1 else 0]
  | CStr s => s
  | CMsg fs => message (map (fun '(tag, c) => (tag, inline c, payload c)) fs)
  | CArr l =>
      match l with
      | [] => []
      | CInt _ :: _ => int_array (ints_of l)
      | CBool _ :: _ => concat (map payload l)
      | _ => concat (map (fun c => block (payload c)) l)
      end
  end.

Definition parts (fs : list (Z * content)) : list (Z * option Z * list Z) := (fun '(tag, c) => (tag, inline c, payload c)) <$> fs.

(** ** Tables that carry contents *)

Section carries.
Context (T : list sproto_type).
(** How the entries of a map are listed, compared to its traversal. *)
Context (order : table -> table -> Prop).

(** Relative to the relation between values and contents one level down. *)
Section level.
Context (R : Z -> option nat -> lua_value -> content -> Prop) (h : heap).

Definition seq_ok (f : field) (t : table) (l : list content) : Prop :=
  (forall i c, l !! i = Some c -> R (base_type f) (f_st f) (rawget t (LInteger (Z.of_nat i + 1))) c) /\
  rawget t (LInteger (zlen l + 1)) = LNil.

(** The value of the main index. *)
Definition key_value (c : content) : lua_value :=
  match c with CInt z => LInteger z | CBool b => LBoolean b | CStr s => LString s | _ => LNil end.

Definition keyed (key : Z) (k : lua_value) (c : content) : Prop :=
  exists fs x, c = CMsg fs /\ (key, x) ∈ fs /\ k = key_value x /\ k <> LNil.

Definition map_ok (f : field) (t : table) (l : list content) : Prop :=
  NoDup t.*1 /\ exists es, order es t /\ Forall2 (fun e c => R (base_type f) (f_st f) e.2 c /\ keyed (f_key f) e.1 c) es l.

Definition field_ok (f : field) (v : lua_value) (c : content) : Prop :=
  if is_array f then
    exists a t l, v = LTable a /\ h !! a = Some t /\ c = CArr l /\ if f_key f <? 0 then seq_ok f t l else map_ok f t l
  else R (f_type f) (f_st f) v c.

Fixpoint fields_ok (l : list field) (t : table) (fs : list (Z * content)) : Prop :=
  match l with
  | [] => fs = []
  | f :: l =>
      (rawget t (LString (f_name f)) = LNil /\ fields_ok l t fs) \/
      exists c fs', fs = (f_tag f, c) :: fs' /\ field_ok f (rawget t (LString (f_name f))) c /\ fields_ok l t fs'
  end.

End level.

(** A value of type [ty] with at most [lv] structures inside each other. *)
Fixpoint item_ok (lv : nat) (h : heap) (ty : Z) (sub : option nat) (v : lua_value) (c : content) : Prop :=
  match v, c with
  | LInteger z, CInt z' => ty = SPROTO_TINTEGER /\ z' = z /\ - 2 ^ 63 <= z < 2 ^ 63
  | LBoolean b, CBool b' => ty = SPROTO_TBOOLEAN /\ b' = b
  | LString s, CStr s' => ty = SPROTO_TSTRING /\ s' = s /\ bytes s
  | LTable a, CMsg fs =>
      ty = SPROTO_TSTRUCT /\
      match lv with
      | O => False
      | S lv => exists t i st, h !! a = Some t /\ sub = Some i /\ T !! i = Some st /\ fields_ok (item_ok lv h) h (t_f st) t fs
      end
  | _, _ => False
  end.

(** The table [a] is a message of type [st]. *)
Definition carries (lv : nat) (h : heap) (st : sproto_type) (a : nat) (fs : list (Z * content)) : Prop :=
  exists t, h !! a = Some t /\ fields_ok (item_ok lv h) h (t_f st) t fs.

End carries.

(** ** Room *)

(** Space in the buffer that is enough for the encoder, which wants some in
    advance; [M] is the largest [maxn] of the schema. *)
Fixpoint need (M : Z) (c : content) : Z :=
  match c with
  | CInt _ => 12
  | CBool _ => 4
  | CStr s => 4 + zlen s
  | CMsg fs => 4 + (2 + 2 * M + foldr Z.add 0 (map (fun '(_, c) => need M c) fs) + 16)
  | CArr l => 16 + foldr Z.add 0 (map (need M) l)
  end.

(** No array starts with 32-bit integers and goes on with wider ones. *)
Definition narrow_ints (l : list content) : bool :=
  match ints_of l with [] => true | z :: zs => negb (fits32 z) || forallb fits32 zs end.

Fixpoint narrow (c : content) : bool :=
  match c with
  | CMsg fs => forallb (fun '(_, c) => narrow c) fs
  | CArr l => narrow_ints l && forallb narrow l
  | _ => true
  end.

Lemma sum_nonneg l : Forall (fun z => 0 <= z) l -> 0 <= foldr Z.add 0 l.
Proof. induction 1 as [|z l Hz _ IH]; cbn; lia. Qed.

Lemma need_pos M c : 0 <= M -> 4 <= need M c.
Proof.
  intros HM. induction c as [z|b|s|fs IH|l IH] using content_ind'; cbn [need]; [lia|lia|pose proof (zlen_nonneg s); lia| |].
  - pose proof (sum_nonneg (map (fun '(_, c) => need M c) fs)) as H. specialize (H ltac:(apply List.Forall_map; eapply Forall_impl; [exact IH|]; intros [? ?]; cbn; lia)). lia.
  - pose proof (sum_nonneg (map (need M) l)) as H. specialize (H ltac:(apply List.Forall_map; eapply Forall_impl; [exact IH|]; cbn; lia)). lia.
Qed.

Lemma needs_nonneg M l : 0 <= M -> 0 <= foldr Z.add 0 (map (need M) l).
Proof. intros HM. apply sum_nonneg, List.Forall_map, Forall_true. intros c. pose proof (need_pos M c HM). lia. Qed.

(** ** An example *)

Definition Phone : sproto_type := SprotoType [1] 2 0 2 [Field 0 2 [110] None (-1); Field 1 0 [116] None (-1)].
Definition Person : sproto_type :=
  SprotoType [2] 4 (-1) 6 [Field 0 2 [110] None (-1); Field 1 0 [105] None (-1); Field 3 131 [112] (Some 1%nat) 0; Field 5 128 [115] None (-1)].
Definition schema : list sproto_type := [Person; Phone].

Definition people : heap :=
  <[0%nat := [(LString [110], LString [65; 108]); (LString [105], LInteger (-3)); (LString [112], LTable 1); (LString [115], LTable 2)]]>
  (<[1%nat := [(LString [49; 50], LTable 3); (LString [52], LTable 4)]]>
  (<[2%nat := [(LInteger 1, LInteger 7); (LInteger 2, LInteger (2 ^ 40))]]>
  (<[3%nat := [(LString [110], LString [49; 50]); (LString [116], LInteger 9)]]>
  (<[4%nat := [(LString [110], LString [52])]]> ∅)))).

Definition person : list (Z * content) :=
  [(0, CStr [65; 108]); (1, CInt (-3)); (3, CArr [CMsg [(0, CStr [49; 50]); (1, CInt 9)]; CMsg [(0, CStr [52])]]); (5, CArr [CInt 7; CInt (2 ^ 40)])].

Lemma scalar_wf T f : scalar_type (base_type f) -> 0 <= f_type f < 256 -> f_key f < 0 -> field_wf T f.
Proof. intros Hs Hr Hk. constructor; [by left|done| |lia]. intros E. rewrite E in Hs. by destruct Hs as [?|[?|?]]. Qed.

Lemma schema_ok : schema_wf schema.
Proof.
  assert (Hs : forall f, scalar_type (base_type f) /\ 0 <= f_type f < 256 /\ f_key f < 0 -> field_wf schema f) by (intros f (? & ? & ?); by apply scalar_wf).
  constructor; [|constructor; [|constructor]]; constructor.
  - done.
  - cbn. lia.
  - done.
  - intros H. by exfalso; apply H.
  - constructor; [apply Hs; cbn; split; [right; by right|lia]|]. constructor; [apply Hs; cbn; split; [by left|lia]|]. constructor; [|constructor; [apply Hs; cbn; split; [by left|lia]|constructor]].
    constructor; [by right|cbn; lia|intros _; by exists 1%nat, Phone|]. intros _. split; [done|]. split; [done|]. intros i st g [= <-] [= <-] Hg Et. cbn in Hg. rewrite !elem_of_cons in Hg.
    destruct Hg as [->|[->|Hg]]; [split; [done|]; right; by right|done|by apply not_elem_of_nil in Hg].
  - done.
  - cbn. lia.
  - done.
  - intros _ i f Hi. destruct i as [|[|i]]; cbn in Hi; [by injection Hi as <-|by injection Hi as <-|discriminate Hi].
  - constructor; [apply Hs; cbn; split; [right; by right|lia]|]. constructor; [apply Hs; cbn; split; [by left|lia]|constructor].
Qed.

Section example_items.
Context (order : table -> table -> Prop) (lv : nat) (h : heap) (sub : option nat).

Lemma int_item z : (- 2 ^ 63 <=? z) && (z <? 2 ^ 63) = true -> item_ok schema order lv h SPROTO_TINTEGER sub (LInteger z) (CInt z).
Proof. intros H. destruct lv; cbn [item_ok]; (split; [done|split; [done|lia]]). Qed.

Lemma str_item s : forallb (fun b => (0 <=? b) && (b <? 256)) s = true -> item_ok schema order lv h SPROTO_TSTRING sub (LString s) (CStr s).
Proof.
  rewrite forallb_forall. intros H. assert (bytes s) by (apply Forall_forall; intros x Hx%list_elem_of_In%H; unfold is_byte; lia). destruct lv; cbn [item_ok]; done.
Qed.

Lemma phone_item a t fs : h !! a = Some t -> fields_ok order (item_ok schema order lv h) h (t_f Phone) t fs -> item_ok schema order (S lv) h SPROTO_TSTRUCT (Some 1%nat) (LTable a) (CMsg fs).
Proof. intros Ha Hf. split; [done|]. by exists t, 1%nat, Phone. Qed.

End example_items.

Lemma person_carries lv : carries schema eq (S lv) people Person 0 person.
Proof.
  eexists. split; [reflexivity|]. cbn [t_f Person fields_ok f_tag].
  right. eexists _, _. split; [reflexivity|]. split; [by apply str_item|].
  right. eexists _, _. split; [reflexivity|]. split; [by apply int_item|].
  right. eexists _, _. split; [reflexivity|]. split.
  { eexists 1%nat, _, _. split; [reflexivity|]. split; [reflexivity|]. split; [reflexivity|]. split; [by apply (bool_decide_unpack _); vm_compute|]. eexists. split; [reflexivity|].
    repeat apply List.Forall2_cons; try apply List.Forall2_nil; split.
    - eapply phone_item; [reflexivity|]. right. eexists _, _. split; [reflexivity|]. split; [by apply str_item|]. right. eexists _, _. split; [reflexivity|]. split; [by apply int_item|done].
    - eexists _, _. split; [reflexivity|]. split; [by left|]. done.
    - eapply phone_item; [reflexivity|]. right. eexists _, _. split; [reflexivity|]. split; [by apply str_item|]. left. done.
    - eexists _, _. split; [reflexivity|]. split; [by left|]. done. }
  right. eexists _, _. split; [reflexivity|]. split; [|reflexivity]. eexists 2%nat, _, _. split; [reflexivity|]. split; [reflexivity|]. split; [reflexivity|]. split; [|done].
  intros [|[|i]] c Hc; [injection Hc as <-..|discriminate Hc]; by apply int_item.
Qed.

(** The examples of the wire protocol in lualib-src/sproto/README.md. *)
Definition child (name : list Z) (age : Z) : content := CMsg [(0, CStr name); (1, CInt age)].

Example readme_1 : payload (CMsg [(0, CStr [0x41; 0x6c; 0x69; 0x63; 0x65]); (1, CInt 13); (2, CBool false)]) =
  [3; 0; 0; 0; 0x1c; 0; 2; 0; 5; 0; 0; 0; 0x41; 0x6c; 0x69; 0x63; 0x65].
Proof. reflexivity. Qed.

Example readme_2 : payload (CMsg [(0, CStr [0x42; 0x6f; 0x62]); (1, CInt 40); (3, CArr [child [0x41; 0x6c; 0x69; 0x63; 0x65] 13; child [0x43; 0x61; 0x72; 0x6f; 0x6c] 5])]) =
  [4; 0; 0; 0; 0x52; 0; 1; 0; 0; 0; 3; 0; 0; 0; 0x42; 0x6f; 0x62; 0x26; 0; 0; 0; 0x0f; 0; 0; 0; 2; 0; 0; 0; 0x1c; 0; 5; 0; 0; 0; 0x41; 0x6c; 0x69; 0x63; 0x65;
   0x0f; 0; 0; 0; 2; 0; 0; 0; 0x0c; 0; 5; 0; 0; 0; 0x43; 0x61; 0x72; 0x6f; 0x6c].
Proof. reflexivity. Qed.

Example readme_3 : payload (CMsg [(0, CArr (CInt <$> [1; 2; 3; 4; 5]))]) =
  [1; 0; 0; 0; 0x15; 0; 0; 0; 4; 1; 0; 0; 0; 2; 0; 0; 0; 3; 0; 0; 0; 4; 0; 0; 0; 5; 0; 0; 0].
Proof. reflexivity. Qed.

Example readme_4 : payload (CMsg [(0, CArr (CInt <$> [2 ^ 32 + 1; 2 ^ 32 + 2; 2 ^ 32 + 3]))]) =
  [1; 0; 0; 0; 0x19; 0; 0; 0; 8; 1; 0; 0; 0; 1; 0; 0; 0; 2; 0; 0; 0; 1; 0; 0; 0; 3; 0; 0; 0; 1; 0; 0; 0].
Proof. reflexivity. Qed.

Example readme_5 : payload (CMsg [(1, CArr (CBool <$> [false; true; false]))]) = [2; 0; 1; 0; 0; 0; 3; 0; 0; 0; 0; 1; 0].
Proof. reflexivity. Qed.

Example readme_6 : payload (CMsg [(2, CInt 100000); (3, CInt (-10000000000))]) =
  [3; 0; 3; 0; 0; 0; 0; 0; 4; 0; 0; 0; 0xa0; 0x86; 1; 0; 8; 0; 0; 0; 0; 0x1c; 0xf4; 0xab; 0xfd; 0xff; 0xff; 0xff].
Proof. reflexivity. Qed.
