(* ===== verification/SprotoEncode.v ===== *)
(** * Encoding messages (sproto.c, lsproto.c): correctness

    [sproto_encode] with the callback [encode] writes the bytes of the contents
    the table carries, or reports that the buffer is too small. *)
From S2P Require Import Prelude SprotoPack Sproto SprotoSchema.

(** ** Bytes in a buffer *)

(** The buffer has [w] at position [i]. *)
Definition has (b : list Z) (i : Z) (w : list Z) : Prop := forall k x, w !! k = Some x -> b !! (Z.to_nat i + k)%nat = Some x.

(** What is before position [p] is kept. *)
Definition keep (p : Z) (b b' : list Z) : Prop := length b' = length b /\ forall k, Z.of_nat k < p -> b' !! k = b !! k.

Lemma has_app b i w1 w2 : 0 <= i -> has b i (w1 ++ w2) <-> has b i w1 /\ has b (i + zlen w1) w2.
Proof.
  intros Hi. unfold has, zlen. split.
  - intros H. split; intros k x Hk; [apply H; by apply lookup_app_l_Some|].
    replace (Z.to_nat (i + Z.of_nat (length w1)) + k)%nat with (Z.to_nat i + (length w1 + k))%nat by lia.
    apply H. rewrite lookup_app_r by lia. by replace (length w1 + k - length w1)%nat with k by lia.
  - intros [H1 H2] k x Hk. apply lookup_app_Some in Hk as [Hk|[Hl Hk]]; [by apply H1|].
    replace (Z.to_nat i + k)%nat with (Z.to_nat (i + Z.of_nat (length w1)) + (k - length w1))%nat by lia. by apply H2.
Qed.

Lemma has_nil b i : has b i [].
Proof. intros k x Hk. done. Qed.

Lemma keep_refl p b : keep p b b.
Proof. done. Qed.

Lemma keep_trans p b1 b2 b3 : keep p b1 b2 -> keep p b2 b3 -> keep p b1 b3.
Proof. intros [L1 H1] [L2 H2]. split; [congruence|]. intros k Hk. rewrite H2, H1; done. Qed.

Lemma keep_le p q b b' : keep q b b' -> p <= q -> keep p b b'.
Proof. intros [L H] Hpq. split; [done|]. intros k Hk. apply H. lia. Qed.

Lemma keep_zlen p b b' : keep p b b' -> zlen b' = zlen b.
Proof. intros [L _]. unfold zlen. by rewrite L. Qed.

Lemma has_keep b b' i w p : has b i w -> keep p b b' -> 0 <= i -> i + zlen w <= p -> has b' i w.
Proof.
  intros H [_ Hk] Hi Hp k x Hx. rewrite Hk; [by apply H|]. apply lookup_lt_Some in Hx. unfold zlen in Hp. lia.
Qed.

(** [memcpy] into the buffer. *)
Lemma blit_has b i d : 0 <= i -> i + zlen d <= zlen b ->
  exists b', blit b i d = Ok b' /\ keep i b b' /\ has b' i d /\ forall k, i + zlen d <= Z.of_nat k -> b' !! k = b !! k.
Proof.
  intros Hi Hl. unfold blit. zcases; [|lia]. eexists. split; [done|]. unfold zlen in *.
  assert (length (take (Z.to_nat i) b) = Z.to_nat i) as Ht by (rewrite length_take; lia). split; [split|split].
  - rewrite !length_app, length_take, length_drop. lia.
  - intros k Hk. rewrite lookup_app_l by lia. apply lookup_take_lt. lia.
  - intros k x Hx. rewrite lookup_app_r by lia. rewrite Ht. replace (Z.to_nat i + k - Z.to_nat i)%nat with k by lia. by apply lookup_app_l_Some.
  - intros k Hk. rewrite !lookup_app_r by lia. rewrite lookup_drop. f_equal. lia.
Qed.

Lemma zset_has b i x : 0 <= i < zlen b -> exists b', zset b i x = Ok b' /\ keep i b b' /\ has b' i [x] /\ forall k, i + 1 <= Z.of_nat k -> b' !! k = b !! k.
Proof.
  intros Hi. unfold zset. zcases; try lia. eexists. split; [done|]. split; [split|split].
  - apply length_insert.
  - intros k Hk. apply list_lookup_insert_ne. lia.
  - intros [|k] y Hy; [|done]. injection Hy as <-. rewrite Nat.add_0_r. apply list_lookup_insert_eq. unfold zlen in *. lia.
  - intros k Hk. apply list_lookup_insert_ne. lia.
Qed.

(** Bytes behind a write are kept as well. *)
Lemma has_after b b' i w p : has b i w -> 0 <= p <= i -> (forall k, p <= Z.of_nat k -> b' !! k = b !! k) -> has b' i w.
Proof. intros H Hp Hk k x Hx. rewrite Hk; [by apply H|]. lia. Qed.

Lemma has_slice b i w : has b i w -> 0 <= i -> i + zlen w <= zlen b -> slice b i (zlen w) = Ok w.
Proof.
  intros H Hi Hl. rewrite slice_Ok by (try done; apply zlen_nonneg). f_equal. apply list_eq. intros k. unfold zlen in *. rewrite Nat2Z.id.
  destruct (decide (k < length w)%nat) as [Hk|Hk].
  - destruct (lookup_lt_is_Some_2 w k Hk) as [x Hx]. rewrite Hx, lookup_take_lt, lookup_drop by done. by apply H.
  - rewrite lookup_take_ge by lia. symmetry. apply lookup_ge_None_2. lia.
Qed.

Lemma has_range b i w : has b i w -> 0 <= i -> w <> [] -> i + zlen w <= zlen b.
Proof.
  intros H Hi Hw. destruct (lookup_lt_is_Some_2 w (length w - 1)) as [x Hx]; [destruct w; [done|cbn; lia]|]. apply H, lookup_lt_Some in Hx. unfold zlen. destruct w; [done|cbn in *; lia].
Qed.

Lemma fill_size_ok b data p : 0 <= data -> data + 4 + zlen p <= zlen b -> has b (data + 4) p ->
  exists b', fill_size b data (zlen p) = Ok (zlen (block p), b') /\ keep data b b' /\ has b' data (block p).
Proof.
  intros Hd Hl Hp. unfold fill_size. pose proof (zlen_nonneg p). destruct (blit_has b data (le_bytes 4 (zlen p))) as (b' & E & Hk & Hh & Ha); [done|rewrite zlen_le_bytes; lia|].
  rewrite E. rstep. exists b'. unfold block. rewrite zlen_app, zlen_le_bytes. split; [do 2 f_equal; unfold SIZEOF_LENGTH; lia|]. split; [done|].
  apply has_app; [done|]. split; [done|]. rewrite zlen_le_bytes. eapply has_after; [exact Hp| |]; [|exact Ha]. rewrite zlen_le_bytes. lia.
Qed.

(** ** Integers *)

Lemma fits32_spec z : fits32 z = true <-> - 2 ^ 31 <= z < 2 ^ 31.
Proof. unfold fits32. rewrite andb_true_iff, Z.leb_le, Z.ltb_lt. done. Qed.

Lemma shiftr_31 z : - 2 ^ 63 <= z < 2 ^ 63 -> (Z.shiftr z 31 =? 0) || (Z.shiftr z 31 =? -1) = fits32 z.
Proof.
  intros _. rewrite shiftr_div by lia. unfold fits32. pose proof (Z.div_mod z (2 ^ 31) ltac:(lia)) as E. pose proof (Z.mod_pos_bound z (2 ^ 31) ltac:(lia)) as Hr.
  generalize dependent (z / 2 ^ 31). intros q E. generalize dependent (z mod 2 ^ 31). intros r E Hr.
  destruct (Z.eqb_spec q 0), (Z.eqb_spec q (-1)), (Z.leb_spec (- 2 ^ 31) z), (Z.ltb_spec z (2 ^ 31)); cbn [andb orb]; try done; exfalso; lia.
Qed.

Lemma le_bytes_sign n z : - 2 ^ (8 * Z.of_nat n) <= z < 0 -> forall m, le_bytes m (z / 2 ^ (8 * Z.of_nat n)) = replicate m 0xff.
Proof.
  intros Hz m. assert (z / 2 ^ (8 * Z.of_nat n) = -1) as ->.
  { symmetry. apply Z.div_unique with (z + 2 ^ (8 * Z.of_nat n)); lia. }
  induction m as [|m IH]; [done|]. cbn [le_bytes replicate]. change (-1 / 256) with (-1). by rewrite IH.
Qed.

Lemma le_bytes_zero m : le_bytes m 0 = replicate m 0.
Proof. induction m as [|m IH]; [done|]. cbn [le_bytes replicate]. change (0 / 256) with 0. by rewrite IH. Qed.

(** A 32-bit integer widened by its sign. *)
Lemma widen_bytes z : fits32 z = true -> int_bytes true z = int_bytes false z ++ replicate 4 (if z <? 0 then 0xff else 0).
Proof.
  intros Hz. apply fits32_spec in Hz. unfold int_bytes, u64, u32, wrap. rewrite !le_bytes_mod by lia.
  change 8%nat with (4 + 4)%nat. rewrite (le_bytes_app 4 4). f_equal. destruct (Z.ltb_spec z 0).
  - apply (le_bytes_sign 4). lia.
  - rewrite Z.div_small by lia. apply le_bytes_zero.
Qed.

Lemma sign_bit z : fits32 z = true -> negb (Z.land (u32 z) 0x80000000 =? 0) = (z <? 0).
Proof.
  intros Hz. apply fits32_spec in Hz. assert (Z.land (u32 z) 0x80000000 = u32 z / 2 ^ 31 * 2 ^ 31) as ->.
  { pose proof (u32_range z) as Hr. unfold is_u32 in Hr. apply Z.bits_inj'. intros i Hi. rewrite Z.land_spec. change 0x80000000 with (Z.shiftl 1 31).
    rewrite Z.shiftl_spec by done. rewrite <- Z.shiftl_mul_pow2, <- Z.shiftr_div_pow2 by lia. rewrite Z.shiftl_spec by done. destruct (Z.ltb_spec i 31); [rewrite !(fun a => Z.testbit_neg_r a (i - 31)) by lia; apply andb_false_r|].
    rewrite Z.shiftr_spec by lia. replace (i - 31 + 31) with i by lia. destruct (Z.eq_dec i 31) as [->|]; [by rewrite andb_true_r|].
    rewrite (Z.bits_above_log2 (u32 z)); [done|lia|]. destruct (Z.eq_dec (u32 z) 0) as [->|]; [cbn; lia|]. apply Z.log2_lt_pow2; [lia|]. apply Z.lt_le_trans with (2 ^ 32); [lia|]. apply Z.pow_le_mono_r; lia. }
  unfold u32, wrap. destruct (Z.ltb_spec z 0).
  - replace (z mod 2 ^ 32) with (z + 2 ^ 32) by (symmetry; rewrite <- (Z.mod_small (z + 2 ^ 32) (2 ^ 32)), <- (Z_mod_plus_full z 1) by lia; f_equal; lia).
    assert ((z + 2 ^ 32) / 2 ^ 31 = 1) as -> by (symmetry; apply Z.div_unique with (z + 2 ^ 31); lia). done.
  - rewrite Z.mod_small, Z.div_small by lia. done.
Qed.

(** The highest byte has the sign. *)
Lemma sign_byte z : fits32 z = true -> negb (Z.land (u32 z / 2 ^ 24) 0x80 =? 0) = (z <? 0).
Proof.
  intros Hz. rewrite <- (sign_bit z Hz). rewrite <- Z.shiftr_div_pow2 by lia. change 0x80 with (Z.shiftr 0x80000000 24). rewrite <- Z.shiftr_land. f_equal.
  assert (exists q, Z.land (u32 z) 0x80000000 = q * 2 ^ 31) as [q ->].
  { exists (Z.shiftr (Z.land (u32 z) 0x80000000) 31). rewrite <- Z.shiftl_mul_pow2 by lia. apply Z.bits_inj'. intros i Hi. rewrite Z.shiftl_spec, Z.land_spec by done. destruct (Z.ltb_spec i 31).
    - rewrite (Z.testbit_neg_r _ (i - 31)) by lia. change 0x80000000 with (Z.shiftl 1 31). rewrite Z.shiftl_spec by done. rewrite (Z.testbit_neg_r 1) by lia. apply andb_false_r.
    - rewrite Z.shiftr_spec, Z.land_spec by lia. by replace (i - 31 + 31) with i by lia. }
  rewrite Z.shiftr_div_pow2 by lia. replace (q * 2 ^ 31) with (q * 2 ^ 7 * 2 ^ 24) by lia. rewrite Z.div_mul by lia.
  destruct (Z.eqb_spec (q * 2 ^ 7) 0), (Z.eqb_spec (q * 2 ^ 7 * 2 ^ 24) 0); try done; lia.
Qed.

Lemma zlen_ints wide zs : zlen (concat (int_bytes wide <$> zs)) = (if wide then 8 else 4) * zlen zs.
Proof.
  induction zs as [|z zs IH]; [by destruct wide|]. cbn [fmap list_fmap concat]. rewrite zlen_app, IH, zlen_cons. unfold int_bytes. destruct wide; rewrite zlen_le_bytes; lia.
Qed.

Lemma ints_snoc wide zs z : concat (int_bytes wide <$> (zs ++ [z])) = concat (int_bytes wide <$> zs) ++ int_bytes wide z.
Proof. rewrite fmap_app, concat_app. cbn [fmap list_fmap concat]. by rewrite app_nil_r. Qed.

Lemma top_byte z : fits32 z = true -> exists b0 b1 b2, int_bytes false z = [b0; b1; b2; u32 z / 2 ^ 24].
Proof.
  intros Hz. unfold int_bytes. cbn [le_bytes]. pose proof (u32_range z) as Hr. unfold is_u32 in Hr. do 3 eexists. do 4 f_equal.
  rewrite !Z.div_div by lia. change (256 * 256 * 256) with (2 ^ 24). apply Z.mod_small. split; [apply Z.div_pos; lia|]. apply Z.div_lt_upper_bound; lia.
Qed.

(** Integers already written are widened in place. *)
Lemma rearrange_ok header zs : forall b, 0 <= header -> header + 1 + 8 * zlen zs <= zlen b -> forallb fits32 zs = true ->
  has b (header + 1) (concat (int_bytes false <$> zs)) ->
  exists b', rearrange (length zs) header b = Ok b' /\ keep (header + 1) b b' /\ has b' (header + 1) (concat (int_bytes true <$> zs)) /\
    forall k, header + 1 + 8 * zlen zs <= Z.of_nat k -> b' !! k = b !! k.
Proof.
  induction zs as [|z zs IH] using rev_ind; intros b Hh Hl Hf Hb.
  { exists b. split; [done|]. split; [apply keep_refl|]. split; [apply has_nil|done]. }
  rewrite forallb_app in Hf. apply andb_true_iff in Hf as [Hf Hz]. cbn [forallb] in Hz. rewrite andb_true_r in Hz.
  rewrite ints_snoc in Hb. apply has_app in Hb as [Hb1 Hb2]; [|lia]. rewrite zlen_ints in Hb2. rewrite zlen_app in Hl |- *. change (zlen [z]) with 1 in *.
  pose proof (zlen_nonneg zs) as Hn. replace (length (zs ++ [z])) with (S (length zs)) by (rewrite length_app; cbn; lia). cbn [rearrange].
  change (Z.of_nat (length zs)) with (zlen zs). rewrite (Z.mul_comm _ 4), (Z.mul_comm _ 8).
  assert (zlen (int_bytes false z) = 4) as L4 by (unfold int_bytes; by rewrite zlen_le_bytes).
  pose proof (has_slice b (header + 1 + 4 * zlen zs) (int_bytes false z) Hb2 ltac:(lia) ltac:(lia)) as Es. rewrite L4 in Es. rewrite Es. rstep.
  destruct (blit_has b (header + 1 + 8 * zlen zs) (int_bytes false z)) as (b1 & -> & K1 & H1 & A1); [lia|lia|]. rstep.
  destruct (top_byte z Hz) as (x0 & x1 & x2 & Et). assert (zget b1 (header + 1 + 8 * zlen zs + 3) = Ok (u32 z / 2 ^ 24)) as ->.
  { apply zget_Some; [lia|]. replace (Z.to_nat (header + 1 + 8 * zlen zs + 3)) with (Z.to_nat (header + 1 + 8 * zlen zs) + 3)%nat by lia. apply H1. by rewrite Et. }
  rstep. rewrite sign_byte by done. unfold uint32_to_uint64. destruct (blit_has b1 (header + 1 + 8 * zlen zs + 4) (replicate 4 (if z <? 0 then 255 else 0))) as (b2 & -> & K2 & H2 & A2).
  { lia. } { rewrite (keep_zlen _ _ _ K1). unfold zlen at 2. rewrite length_replicate. lia. }
  rstep. assert (keep (header + 1 + 8 * zlen zs) b b2) as K by (eapply keep_trans; [exact K1|eapply keep_le; [exact K2|lia]]).
  destruct (IH b2) as (b3 & E3 & K3 & H3 & A3); [done|rewrite (keep_zlen _ _ _ K); lia|done|eapply has_keep; [exact Hb1|exact K|lia|rewrite zlen_ints; lia]|].
  exists b3. split; [exact E3|]. split; [eapply keep_trans; [eapply keep_le; [exact K|lia]|done]|]. split.
  - rewrite ints_snoc. apply has_app; [lia|]. split; [done|]. rewrite zlen_ints. eapply (has_after b2); [|split; [|reflexivity]; lia|exact A3].
    rewrite (widen_bytes z Hz). apply has_app; [lia|]. rewrite L4. split; [|exact H2]. eapply has_keep; [exact H1|exact K2|lia|lia].
  - intros k Hk. rewrite A3 by lia. rewrite A2 by (unfold zlen at 2; rewrite length_replicate; lia). apply A1. lia.
Qed.

(** ** The callback *)

Section encode_ok.
Context (T : list sproto_type) (cvt_integer : lua_value -> option Z) (cvt_string : lua_value -> option (list Z)) (h : heap).
Notation select := (Sproto.select h).
Notation encode := (Sproto.encode T cvt_integer cvt_string h).

(** What one call at element [index] of an array selects, for all of them:
    the values [vs] from [index] on, then the end. *)
Fixpoint delivers (args : sproto_arg) (vs : list lua_value) (index : Z) (self : encode_ud) : Prop :=
  match vs with
  | [] => exists self', (forall len, select (at_value len index args) self = Ok (inl SPROTO_CB_NIL, self') \/ select (at_value len index args) self = Ok (inr LNil, self')) /\
      e_table self' = e_table self /\ e_array_tag self' = Some (a_tagid args) /\ e_iter self' = LNil
  | v :: vs => exists self', (forall len, select (at_value len index args) self = Ok (inr v, self')) /\ e_table self' = e_table self /\ delivers args vs (index + 1) self'
  end.

(** The first call of an array finds its table. *)
Lemma select_start f ty len i self t a at_ : e_array_tag self <> Some (f_tag f) -> 0 < i -> h !! e_table self = Some t -> rawget t (LString (f_name f)) = LTable a -> h !! a = Some at_ ->
  select (at_value len i (field_args f ty)) self = select (at_value len i (field_args f ty)) (EncodeUd (e_table self) (Some (f_tag f)) (Some a) (e_iter self)).
Proof.
  intros Ht Hi Ha Hg Hat. unfold Sproto.select, getfield. cbn [at_value field_args a_index a_tagid a_tagname e_array_tag e_table e_array e_iter a_mainindex]. destruct (Z.ltb_spec 0 i); [|lia].
  rewrite decide_False by done. rewrite decide_True by done. rewrite Ha. cbn [deref]. rstep. by rewrite Hg.
Qed.

(** The later calls go on in it. *)
Lemma select_in f ty len k self a t : e_array_tag self = Some (f_tag f) -> e_array self = Some a -> h !! a = Some t -> 0 < k ->
  select (at_value len k (field_args f ty)) self =
    if 0 <=? f_key f then
      e ← lua_next t (e_iter self);
      match e with
      | None => Ok (inl SPROTO_CB_NIL, EncodeUd (e_table self) (Some (f_tag f)) (Some a) LNil)
      | Some (key, v) => Ok (inr v, EncodeUd (e_table self) (Some (f_tag f)) (Some a) key)
      end
    else Ok (inr (rawget t (LInteger k)), self).
Proof.
  intros Ht Ha Hat Hk. unfold Sproto.select. cbn [at_value field_args a_index a_tagid a_mainindex]. destruct (Z.ltb_spec 0 k); [|lia]. rewrite decide_True by done. rstep.
  rewrite Ha. cbn [deref]. rstep. rewrite Hat. cbn [deref]. rstep. by rewrite Ht.
Qed.

Lemma delivers_seq f ty self a t vs k : e_array_tag self = Some (f_tag f) -> e_array self = Some a -> e_iter self = LNil -> h !! a = Some t -> f_key f < 0 ->
  (forall i v, vs !! i = Some v -> rawget t (LInteger (k + Z.of_nat i)) = v) -> rawget t (LInteger (k + zlen vs)) = LNil -> 0 < k -> delivers (field_args f ty) vs k self.
Proof.
  intros Ht Ha Hi Hat Hk. revert k. induction vs as [|v vs IH]; intros k Hv Hend Hk0; cbn [delivers]; exists self.
  - split; [|done]. intros len. right. rewrite (select_in f ty len k self a t) by done. destruct (Z.leb_spec 0 (f_key f)); [lia|]. change (zlen (@nil lua_value)) with 0 in Hend. rewrite Z.add_0_r in Hend. by rewrite Hend.
  - split; [|split; [done|]].
    + intros len. rewrite (select_in f ty len k self a t) by done. destruct (Z.leb_spec 0 (f_key f)); [lia|]. pose proof (Hv O v eq_refl) as E. rewrite Z.add_0_r in E. by rewrite E.
    + apply IH; [|rewrite zlen_cons in Hend; by replace (k + 1 + zlen vs) with (k + (1 + zlen vs)) by lia|lia].
      intros i w Hw. specialize (Hv (S i) w Hw). by replace (k + 1 + Z.of_nat i) with (k + Z.of_nat (S i)) by lia.
Qed.

(** [lua_next] goes through the entries in order. *)
Lemma next_after (t1 t2 : table) k v : NoDup (t1 ++ (k, v) :: t2).*1 -> k <> LNil -> lua_next (t1 ++ (k, v) :: t2) k = Ok (head t2).
Proof.
  intros Hnd Hk. unfold lua_next. rewrite decide_False by done. assert (after_key (t1 ++ (k, v) :: t2) k = Some t2) as ->; [|done].
  induction t1 as [|[k' v'] t1 IH]; cbn; [by rewrite decide_True|]. cbn in Hnd. apply NoDup_cons in Hnd as [Hnot Hnd]. rewrite decide_False; [by apply IH|].
  intros ->. apply Hnot. rewrite fmap_app. set_solver.
Qed.

Lemma delivers_map f ty a t : h !! a = Some t -> 0 <= f_key f -> NoDup t.*1 -> LNil ∉ t.*1 ->
  forall t2 t1 self k, t = t1 ++ t2 -> e_array_tag self = Some (f_tag f) -> e_array self = Some a -> lua_next t (e_iter self) = Ok (head t2) -> 0 < k -> delivers (field_args f ty) t2.*2 k self.
Proof.
  intros Hat Hk Hnd Hnil. assert ((0 <=? f_key f) = true) as Ek by by apply Z.leb_le.
  induction t2 as [|[key v] t2 IH]; intros t1 self k Et Ht Ha Hn Hk0; cbn [delivers fmap list_fmap snd].
  - exists (EncodeUd (e_table self) (Some (f_tag f)) (Some a) LNil). split; [|done]. intros len. left. by rewrite (select_in f ty len k self a t), Ek, Hn by done.
  - exists (EncodeUd (e_table self) (Some (f_tag f)) (Some a) key). split; [|split; [done|]].
    + intros len. by rewrite (select_in f ty len k self a t), Ek, Hn by done.
    + apply (IH (t1 ++ [(key, v)])); cbn [e_array_tag e_array e_iter]; [by rewrite <- app_assoc|done|done| |lia].
      rewrite Et. apply next_after; [by rewrite <- Et|]. intros ->. apply Hnil. rewrite Et, fmap_app. set_solver.
Qed.

Context (M : Z) (HM : 0 <= M).

(** The callback's state behind an array. *)
Definition ended (args : sproto_arg) (self self' : encode_ud) : Prop :=
  e_table self' = e_table self /\ e_array_tag self' = Some (a_tagid args) /\ e_iter self' = LNil.

Lemma ended_trans args self self1 self2 : e_table self1 = e_table self -> ended args self1 self2 -> ended args self self2.
Proof. intros E [H1 H2]. split; [congruence|done]. Qed.

Lemma encode_select lv args p self self' b r : select args self = Ok (r, self') ->
  encode (S lv) args p self b =
    match r with
    | inl r => Ok (r, 0, self', b)
    | inr LNil => Ok (SPROTO_CB_NIL, 0, self', b)
    | inr v => encode (S lv) args p self b
    end.
Proof. intros E. cbn [Sproto.encode]. rewrite E. rstep. by destruct r as [|[]]. Qed.

Lemma encode_nil lv args p self self' b : select args self = Ok (inl SPROTO_CB_NIL, self') \/ select args self = Ok (inr LNil, self') ->
  encode (S lv) args p self b = Ok (SPROTO_CB_NIL, 0, self', b).
Proof. intros [E|E]; by rewrite (encode_select _ _ _ _ _ _ _ E). Qed.

Lemma encode_int lv args p self self' b z : select args self = Ok (inr (LInteger z), self') -> a_type args = SPROTO_TINTEGER -> - 2 ^ 63 <= z < 2 ^ 63 ->
  encode (S lv) args p self b = Ok (if fits32 z then (4, u32 z, self', b) else (8, u64 z, self', b)).
Proof.
  intros E Ht Hz. cbn [Sproto.encode]. rewrite E. rstep. rewrite Ht. cbn [Z.eqb SPROTO_TINTEGER lua_tointegerx]. cbv zeta. rewrite shiftr_31 by done. by destruct (fits32 z).
Qed.

Lemma encode_bool lv args p self self' b v : select args self = Ok (inr (LBoolean v), self') -> a_type args = SPROTO_TBOOLEAN ->
  encode (S lv) args p self b = Ok (4, if v then 1 else 0, self', b).
Proof. intros E Ht. cbn [Sproto.encode]. rewrite E. rstep. by rewrite Ht. Qed.

Lemma item_not_nil lv ty sub v c : item_ok T eq lv h ty sub v c -> v <> LNil.
Proof. intros H ->. by destruct lv. Qed.

Lemma items_int lv sub vs cs : Forall2 (item_ok T eq lv h SPROTO_TINTEGER sub) vs cs -> exists zs, vs = LInteger <$> zs /\ cs = CInt <$> zs /\ Forall (fun z => - 2 ^ 63 <= z < 2 ^ 63) zs.
Proof.
  induction 1 as [|v c vs cs H _ (zs & -> & -> & IH)]; [by exists []|]. destruct lv, v, c; cbn in H; try done; try (destruct H as [H _]; discriminate H).
  all: destruct H as (_ & -> & Hz); exists (v :: zs); split; [done|]; split; [done|by constructor].
Qed.

Lemma items_bool lv sub vs cs : Forall2 (item_ok T eq lv h SPROTO_TBOOLEAN sub) vs cs -> exists bs, vs = LBoolean <$> bs /\ cs = CBool <$> bs.
Proof.
  induction 1 as [|v c vs cs H _ (bs & -> & ->)]; [by exists []|]. destruct lv, v, c; cbn in H; try done; try (destruct H as [H _]; discriminate H).
  all: destruct H as (_ & ->); by exists (b :: bs).
Qed.

(** ** Arrays *)

Lemma booleans_ok lv args : a_type args = SPROTO_TBOOLEAN -> forall bs fuel buffer size index self b, delivers args (LBoolean <$> bs) index self ->
  0 <= buffer -> 0 <= size < Z.of_nat fuel -> buffer + size <= zlen b ->
  exists r self' b', booleans_loop (encode (S lv)) fuel args buffer size index self b = Ok (r, self', b') /\ keep buffer b b' /\
    ((r = inr (buffer + zlen bs) /\ zlen bs <= size /\ has b' buffer ((fun v : bool => if v then 1 else 0) <$> bs) /\ ended args self self') \/ (r = inl (-1) /\ size < zlen bs)).
Proof.
  intros Ht. induction bs as [|v bs IH]; intros fuel buffer size index self b Hd Hb Hs Hl; (destruct fuel as [|fuel]; [lia|]); cbn [booleans_loop delivers fmap list_fmap] in *.
  - destruct Hd as (self' & Hd & He). rewrite (encode_nil lv (at_value 4 index args) 0 self self' b (Hd 4)). rstep. cbn [Z.ltb Z.compare SPROTO_CB_NIL Z.eqb Pos.eqb].
    eexists _, self', b. split; [done|]. split; [apply keep_refl|]. left. change (zlen (@nil bool)) with 0. rewrite Z.add_0_r. split; [done|]. split; [lia|]. split; [apply has_nil|done].
  - destruct Hd as (self1 & Hd1 & Et & Hd). rewrite (encode_bool lv (at_value 4 index args) 0 self self1 b v (Hd1 4)) by done. rstep. cbn [Z.ltb Z.compare]. rewrite zlen_cons. pose proof (zlen_nonneg bs).
    destruct (Z.ltb_spec size 1); [eexists _, self1, b; split; [done|]; split; [apply keep_refl|]; right; split; [done|lia]|].
    destruct (zset_has b buffer (if v then 1 else 0)) as (b1 & E1 & K1 & H1 & _); [lia|]. replace (if negb ((if v then 1 else 0) =? 0) then 1 else 0) with (if v then 1 else 0) by by destruct v. rewrite E1. rstep.
    destruct (IH fuel (buffer + 1) (size - 1) (index + 1) self1 b1) as (r & self' & b' & E & K & H2); [done|lia|lia|rewrite (keep_zlen _ _ _ K1); lia|]. eexists r, self', b'. split; [exact E|].
    split; [eapply keep_trans; [exact K1|eapply keep_le; [exact K|lia]]|]. destruct H2 as [(-> & H2 & H3 & H4)|[-> H2]]; [left|right; split; [done|lia]].
    split; [f_equal; lia|]. split; [lia|]. split; [|by eapply ended_trans]. apply (has_app b' buffer [_]); [done|]. split; [|done]. eapply has_keep; [exact H1|exact K|lia|]. change (zlen [if v then 1 else 0]) with 1. lia.
Qed.

Definition narrow_list (zs : list Z) : bool := match zs with [] => true | z :: zs => negb (fits32 z) || forallb fits32 zs end.

Lemma encode_int_elem lv args p index z self self' b : (forall len, select (at_value len index args) self = Ok (inr (LInteger z), self')) -> a_type args = SPROTO_TINTEGER -> - 2 ^ 63 <= z < 2 ^ 63 ->
  encode (S lv) (at_value 8 index args) p self b = Ok (if fits32 z then (4, u32 z, self', b) else (8, u64 z, self', b)).
Proof. intros H Ht Hz. by apply encode_int. Qed.

(** When the integers are already stored in 8 bytes. *)
Lemma wide_ok lv args header : a_type args = SPROTO_TINTEGER -> forall zs fuel buffer size index self b, delivers args (LInteger <$> zs) index self -> Forall (fun z => - 2 ^ 63 <= z < 2 ^ 63) zs ->
  0 <= buffer -> 0 <= size < Z.of_nat fuel -> size < 2 ^ 31 -> buffer + size <= zlen b ->
  exists r self' b', integers_loop (encode (S lv)) fuel args header buffer size 8 index self b = Ok (r, self', b') /\ keep buffer b b' /\
    ((r = Some (buffer + 8 * zlen zs, 8, false) /\ 8 * zlen zs <= size /\ has b' buffer (concat (int_bytes true <$> zs)) /\ ended args self self') \/ (r = None /\ size < 8 * zlen zs)).
Proof.
  intros Ht. induction zs as [|z zs IH]; intros fuel buffer size index self b Hd Hz Hb Hs Hs2 Hl; (destruct fuel as [|fuel]; [lia|]); cbn [integers_loop delivers fmap list_fmap] in *.
  - destruct Hd as (self' & Hd & He). rewrite (encode_nil lv (at_value 8 index args) 0 self self' b (Hd 8)). rstep. cbn [Z.leb Z.compare SPROTO_CB_NIL Z.eqb Pos.eqb].
    eexists _, self', b. split; [done|]. split; [apply keep_refl|]. left. change (zlen (@nil Z)) with 0. rewrite Z.mul_0_r, Z.add_0_r. split; [done|]. split; [lia|]. split; [apply has_nil|done].
  - destruct Hd as (self1 & Hd1 & Et & Hd). apply Forall_cons in Hz as [Hz Hzs]. rewrite (encode_int_elem lv args 0 index z self self1 b) by done. rewrite zlen_cons. pose proof (zlen_nonneg zs).
    assert (u64 size = size) as Eu by (apply u64_small; unfold is_u64; lia).
    assert (Hgo : forall b1, size >= 8 -> keep buffer b b1 -> has b1 buffer (int_bytes true z) -> exists r self' b', integers_loop (encode (S lv)) fuel args header (buffer + 8) (size - 8) 8 (index + 1) self1 b1 = Ok (r, self', b') /\ keep buffer b b' /\
      ((r = Some (buffer + 8 * (1 + zlen zs), 8, false) /\ 8 * (1 + zlen zs) <= size /\ has b' buffer (int_bytes true z ++ concat (int_bytes true <$> zs)) /\ ended args self self') \/ (r = None /\ size < 8 * (1 + zlen zs)))).
    { intros b1 Hs8 K1 H1. destruct (IH fuel (buffer + 8) (size - 8) (index + 1) self1 b1) as (r & self' & b' & E & K & H2); [done|done|lia|lia|lia|rewrite (keep_zlen _ _ _ K1); lia|]. exists r, self', b'. split; [exact E|].
      split; [eapply keep_trans; [exact K1|eapply keep_le; [exact K|lia]]|]. destruct H2 as [(-> & H2 & H3 & H4)|[-> H2]]; [left|right; split; [done|lia]].
      split; [f_equal; f_equal; f_equal; lia|]. split; [lia|]. split; [|by eapply ended_trans]. apply has_app; [done|]. assert (zlen (int_bytes true z) = 8) as -> by (unfold int_bytes; by rewrite zlen_le_bytes). split; [|done].
      eapply has_keep; [exact H1|exact K|lia|]. unfold int_bytes. rewrite zlen_le_bytes. lia. }
    destruct (fits32 z) eqn:Ef; rstep; cbn [Z.leb Z.compare]; rewrite Eu; (destruct (Z.ltb_spec size 8); [eexists _, self1, b; split; [done|]; split; [apply keep_refl|]; right; split; [done|lia]|]); cbn [Z.eqb Pos.eqb negb].
    + destruct (blit_has b buffer (le_bytes 4 (u32 z))) as (b1 & -> & K1 & H1 & A1); [lia|rewrite zlen_le_bytes; lia|]. rstep. unfold uint32_to_uint64. rewrite sign_bit by done.
      destruct (blit_has b1 (buffer + 4) (replicate 4 (if z <? 0 then 255 else 0))) as (b2 & -> & K2 & H2 & _); [lia|rewrite (keep_zlen _ _ _ K1); unfold zlen at 1; rewrite length_replicate; lia|]. rstep.
      apply Hgo; [lia|eapply keep_trans; [exact K1|eapply keep_le; [exact K2|lia]]|]. rewrite widen_bytes by done. apply has_app; [done|]. unfold int_bytes. rewrite zlen_le_bytes. split; [|exact H2].
      eapply has_keep; [exact H1|exact K2|lia|rewrite zlen_le_bytes; lia].
    + destruct (blit_has b buffer (le_bytes 8 (u64 z))) as (b1 & -> & K1 & H1 & _); [lia|rewrite zlen_le_bytes; lia|]. rstep. apply Hgo; [lia|done|done].
Qed.

(** From the first element on; [zs0] are written already. *)
Lemma integers_ok lv args header S0 : a_type args = SPROTO_TINTEGER -> 0 <= header -> S0 < 2 ^ 31 ->
  forall zs zs0 fuel self b, delivers args (LInteger <$> zs) (zlen zs0 + 1) self -> Forall (fun z => - 2 ^ 63 <= z < 2 ^ 63) zs ->
  forallb fits32 zs0 = true -> has b (header + 1) (concat (int_bytes false <$> zs0)) -> 0 <= S0 - 4 * zlen zs0 < Z.of_nat fuel -> header + 1 + S0 <= zlen b ->
  narrow_list (zs0 ++ zs) = true \/ 8 * zlen (zs0 ++ zs) <= S0 ->
  let wide := negb (forallb fits32 (zs0 ++ zs)) in let w := if wide then 8 else 4 in
  exists r self' b', integers_loop (encode (S lv)) fuel args header (header + 1 + 4 * zlen zs0) (S0 - 4 * zlen zs0) 4 (zlen zs0 + 1) self b = Ok (r, self', b') /\ keep (header + 1) b b' /\
    ((r = Some (header + 1 + w * zlen (zs0 ++ zs), w, false) /\ w * zlen (zs0 ++ zs) <= S0 /\ has b' (header + 1) (concat (int_bytes wide <$> zs0 ++ zs)) /\ ended args self self') \/
     (r = None /\ S0 < 8 * zlen (zs0 ++ zs))).
Proof.
  intros Ht Hh HS. induction zs as [|z zs IH]; intros zs0 fuel self b Hd Hz Hf Hb Hs Hl Hn; cbn zeta; (destruct fuel as [|fuel]; [lia|]); pose proof (zlen_nonneg zs0) as H0; cbn [integers_loop delivers fmap list_fmap] in *.
  - destruct Hd as (self' & Hd & He). rewrite (encode_nil lv (at_value 8 (zlen zs0 + 1) args) 0 self self' b (Hd 8)). rstep. cbn [Z.leb Z.compare SPROTO_CB_NIL Z.eqb Pos.eqb].
    eexists _, self', b. split; [done|]. split; [apply keep_refl|]. left. rewrite !app_nil_r, Hf. cbn [negb]. split; [done|]. split; [lia|]. by split.
  - destruct Hd as (self1 & Hd1 & Et & Hd). apply Forall_cons in Hz as [Hz Hzs]. rewrite (encode_int_elem lv args 0 (zlen zs0 + 1) z self self1 b) by done. pose proof (zlen_nonneg zs).
    assert (zlen (zs0 ++ z :: zs) = zlen zs0 + 1 + zlen zs) as Ez by (rewrite zlen_app, zlen_cons; lia).
    assert (u64 (S0 - 4 * zlen zs0) = S0 - 4 * zlen zs0) as Eu by (apply u64_small; unfold is_u64; lia).
    destruct (fits32 z) eqn:Ef; rstep; cbn [Z.leb Z.compare]; rewrite Eu; (destruct (Z.ltb_spec (S0 - 4 * zlen zs0) 8); [eexists _, self1, b; split; [done|]; split; [apply keep_refl|]; right; split; [done|lia]|]); cbn [Z.eqb Pos.eqb negb].
    + destruct (blit_has b (header + 1 + 4 * zlen zs0) (le_bytes 4 (u32 z))) as (b1 & -> & K1 & W1 & _); [lia|rewrite zlen_le_bytes; lia|]. rstep.
      replace (zs0 ++ z :: zs) with ((zs0 ++ [z]) ++ zs) in * by by rewrite <- app_assoc. assert (zlen (zs0 ++ [z]) = zlen zs0 + 1) as Ez0 by (by rewrite zlen_app).
      destruct (IH (zs0 ++ [z]) fuel self1 b1) as (r & self' & b' & E & K & H2); rewrite ?Ez0; [exact Hd|done|by rewrite forallb_app, Hf; cbn; rewrite Ef| |lia|rewrite (keep_zlen _ _ _ K1); lia|done|].
      { rewrite ints_snoc. apply has_app; [lia|]. rewrite zlen_ints. split; [|exact W1]. eapply has_keep; [exact Hb|exact K1|lia|]. rewrite zlen_ints. lia. }
      rewrite Ez0 in E. exists r, self', b'. replace (header + 1 + 4 * zlen zs0 + 4) with (header + 1 + 4 * (zlen zs0 + 1)) by lia. replace (S0 - 4 * zlen zs0 - 4) with (S0 - 4 * (zlen zs0 + 1)) by lia. split; [exact E|].
      split; [eapply keep_trans; [eapply keep_le; [exact K1|lia]|exact K]|]. destruct H2 as [(-> & H2 & H3 & H4)|H2]; [left|by right]. split; [done|]. split; [done|]. split; [done|]. by eapply ended_trans.
    + replace (zlen zs0 + 1 - 1) with (zlen zs0) by lia. rewrite (Z.mul_comm (zlen zs0) 4). rewrite Ez in *.
      assert (8 <= S0 - 8 * zlen zs0) as Hroom.
      { destruct Hn as [Hn|Hn]; [|lia]. destruct zs0 as [|y zs0]; [change (zlen (@nil Z)) with 0 in *; lia|]. cbn in Hn, Hf. apply andb_true_iff in Hf as [Hy _]. rewrite Hy, forallb_app in Hn. cbn in Hn. rewrite Ef, andb_false_r in Hn. done. }
      replace (S0 - 4 * zlen zs0 - 4 * zlen zs0) with (S0 - 8 * zlen zs0) by lia. rewrite s32_small by lia. assert (u64 (S0 - 8 * zlen zs0) = S0 - 8 * zlen zs0) as -> by (apply u64_small; unfold is_u64; lia).
      destruct (Z.ltb_spec (S0 - 8 * zlen zs0) 8); [lia|]. replace (header + 1 + 4 * zlen zs0 + 4 * zlen zs0) with (header + 1 + 8 * zlen zs0) by lia.
      destruct (rearrange_ok header zs0 b Hh ltac:(lia) Hf Hb) as (b1 & E1 & K1 & W1 & _). replace (Z.to_nat (zlen zs0)) with (length zs0) by (unfold zlen; lia). rewrite E1. rstep.
      destruct (blit_has b1 (header + 1 + 8 * zlen zs0) (le_bytes 8 (u64 z))) as (b2 & -> & K2 & W2 & _); [lia|rewrite (keep_zlen _ _ _ K1), zlen_le_bytes; lia|]. rstep.
      destruct (wide_ok lv args header Ht zs fuel (header + 1 + 8 * zlen zs0 + 8) (S0 - 8 * zlen zs0 - 8) (zlen zs0 + 1 + 1) self1 b2) as (r & self' & b' & E & K & H3); [exact Hd|done|lia|lia|lia|rewrite (keep_zlen _ _ _ K2), (keep_zlen _ _ _ K1); lia|].
      exists r, self', b'. split; [exact E|]. split; [eapply keep_trans; [exact K1|]; eapply keep_trans; [eapply keep_le; [exact K2|lia]|eapply keep_le; [exact K|lia]]|].
      assert (forallb fits32 (zs0 ++ z :: zs) = false) as -> by (rewrite forallb_app; cbn [forallb]; rewrite Ef; cbn; apply andb_false_r). cbn [negb].
      destruct H3 as [(-> & H3 & H4 & H5)|[-> H3]]; [left|right; split; [done|lia]]. split; [do 3 f_equal; lia|]. split; [lia|]. split; [|by eapply ended_trans].
      rewrite fmap_app, concat_app. cbn [fmap list_fmap concat]. apply has_app; [lia|]. rewrite zlen_ints. split.
      * eapply has_keep; [eapply has_keep; [exact W1|exact K2|lia|rewrite zlen_ints; lia]|exact K|lia|rewrite zlen_ints; lia].
      * apply has_app; [lia|]. change (zlen (int_bytes true z)) with (zlen (le_bytes 8 (u64 z))). rewrite zlen_le_bytes. split; [|exact H4]. eapply (has_keep _ _ _ (le_bytes 8 (u64 z))); [exact W2|exact K|lia|]. rewrite zlen_le_bytes. lia.
Qed.

(** The bytes of an array of integers, or its absence. *)
Lemma integer_array_ok lv args zs self b buffer size : a_type args = SPROTO_TINTEGER -> delivers args (LInteger <$> zs) 1 self -> Forall (fun z => - 2 ^ 63 <= z < 2 ^ 63) zs ->
  0 <= buffer -> 0 <= size < 2 ^ 31 -> buffer + size <= zlen b -> narrow_list zs = true \/ 8 * zlen zs + 1 <= size ->
  let w := match zs with [] => [] | _ => int_array zs end in
  exists r self' b', encode_integer_array (encode (S lv)) args buffer size self b = Ok (r, self', b') /\ keep buffer b b' /\
    ((r = Some (buffer + zlen w, false) /\ zlen w <= size /\ has b' buffer w /\ ended args self self') \/ (r = None /\ size < 8 * zlen zs + 1)).
Proof.
  intros Ht Hd Hz Hb Hs Hl Hn w. unfold encode_integer_array. pose proof (zlen_nonneg zs). destruct (Z.ltb_spec size 1); [eexists _, self, b; split; [done|]; split; [apply keep_refl|]; right; split; [done|lia]|].
  destruct (integers_ok lv args buffer (size - 1) Ht Hb ltac:(lia) zs [] (S (Z.to_nat size)) self b) as (r & self' & b' & E & K & H2).
  { exact Hd. } { done. } { done. } { apply has_nil. } { change (zlen (@nil Z)) with 0. lia. } { lia. } { destruct Hn; [by left|right; cbn [app]; lia]. }
  cbn [app] in *. change (zlen (@nil Z)) with 0 in E. rewrite Z.mul_0_r, Z.add_0_r, Z.sub_0_r in E. change (0 + 1) with 1 in E. rewrite E. rstep.
  destruct H2 as [(-> & H2 & H3 & H4)|[-> H2]]; [|eexists _, self', b'; split; [done|]; split; [eapply keep_le; [exact K|lia]|]; right; split; [done|lia]].
  set (wd := if negb (forallb fits32 zs) then 8 else 4) in *. assert (wd = 4 \/ wd = 8) as Hwd by (unfold wd; destruct (forallb fits32 zs); auto).
  destruct zs as [|z zs]; [subst w|].
  - change (zlen (@nil Z)) with 0 in *. rewrite Z.mul_0_r, Z.add_0_r, Z.eqb_refl. eexists _, self', b'. split; [done|]. split; [eapply keep_le; [exact K|lia]|]. left. change (zlen (@nil Z)) with 0. rewrite Z.add_0_r. split; [done|]. split; [lia|]. split; [apply has_nil|done].
  - pose proof (zlen_nonneg zs). destruct (Z.eqb_spec (buffer + 1 + wd * zlen (z :: zs)) (buffer + 1)); [rewrite zlen_cons in *; lia|].
    destruct (zset_has b' buffer wd) as (b2 & -> & K2 & H5 & A2); [rewrite (keep_zlen _ _ _ K); lia|]. rstep.
    assert (zlen w = 1 + wd * zlen (z :: zs)) as Ew. { unfold w, int_array. rewrite zlen_cons, zlen_ints. unfold wd. by destruct (negb (forallb fits32 (z :: zs))). }
    eexists _, self', b2. split; [done|]. split; [eapply keep_trans; [eapply keep_le; [exact K|lia]|done]|]. left. split; [do 2 f_equal; lia|]. split; [lia|]. split; [|done].
    apply (has_app b2 buffer [wd]); [done|]. change (zlen [wd]) with 1. split; [done|]. eapply has_after; [exact H3| |exact A2]. lia.
Qed.

(** Strings and structures are written at [p], where [L] bytes are left. *)
Definition object_written (b b' : list Z) (p L r : Z) (c : content) : Prop :=
  keep p b b' /\ ((r = zlen (payload c) /\ r <= L /\ has b' p (payload c) /\ r + 4 <= need M c) \/ (r = -1 /\ L + 4 < need M c)).

Definition roomy (c : content) (L : Z) : Prop := narrow c = true \/ need M c <= L + 4.

Definition object_enc (lv : nat) (ty : Z) : Prop := forall args self self' v c p b, a_type args = ty -> item_ok T eq lv h ty (a_subtype args) v c -> select args self = Ok (inr v, self') ->
  0 <= p -> 0 <= a_length args -> p + a_length args <= zlen b -> zlen b < 2 ^ 31 -> roomy c (a_length args) ->
  exists r b', encode (S lv) args p self b = Ok (r, 0, self', b') /\ object_written b b' p (a_length args) r c.

Lemma string_enc lv : object_enc lv SPROTO_TSTRING.
Proof.
  intros args self self' v c p b Ht Hi Hs Hp HL Hb Hb2 _. assert (exists s, v = LString s /\ c = CStr s) as (s & -> & ->).
  { destruct lv, v, c; cbn in Hi; try done; try (destruct Hi as [Hi _]; discriminate Hi); destruct Hi as (_ & -> & _); by eexists. }
  cbn [Sproto.encode]. rewrite Hs. rstep. rewrite Ht. cbn [Z.eqb Pos.eqb SPROTO_TINTEGER SPROTO_TBOOLEAN SPROTO_TSTRING lua_tolstring].
  rewrite u64_small by (unfold is_u64; lia). destruct (Z.ltb_spec (a_length args) (zlen s)).
  - eexists _, b. split; [done|]. split; [apply keep_refl|]. right. split; [done|]. cbn [need]. lia.
  - destruct (blit_has b p s) as (b' & -> & K & Hh & _); [done|lia|]. rstep. eexists _, b'. split; [done|]. split; [done|]. left. cbn [payload need]. split; [done|]. split; [done|]. split; [done|lia].
Qed.

Lemma objects_ok lv args : object_enc lv (a_type args) -> forall vs cs, Forall2 (item_ok T eq lv h (a_type args) (a_subtype args)) vs cs ->
  forall fuel buffer size index self b, delivers args vs index self -> 0 <= buffer -> 0 <= size < Z.of_nat fuel -> buffer + size <= zlen b -> zlen b < 2 ^ 31 ->
  forallb narrow cs = true \/ foldr Z.add 0 (map (need M) cs) + 4 <= size ->
  let w := concat (map (fun c => block (payload c)) cs) in
  exists r self' b', objects_loop (encode (S lv)) fuel args buffer size index self b = Ok (r, self', b') /\ keep buffer b b' /\
    ((r = inr (buffer + zlen w) /\ zlen w <= size /\ has b' buffer w /\ ended args self self' /\ zlen w <= foldr Z.add 0 (map (need M) cs)) \/ (r = inl (-1) /\ size < foldr Z.add 0 (map (need M) cs) + 4)).
Proof.
  intros He vs cs Hvs. induction Hvs as [|v c vs cs Hv Hvs IH]; intros fuel buffer size index self b Hd Hb Hs Hl Hl2 Hn w; (destruct fuel as [|fuel]; [lia|]); cbn [objects_loop delivers] in *; change SIZEOF_LENGTH with 4.
  - destruct (Z.ltb_spec size 4); [eexists _, self, b; split; [done|]; split; [apply keep_refl|]; right; cbn; split; [done|lia]|]. destruct Hd as (self' & Hd & He').
    rewrite (encode_nil lv (at_value (size - 4) index args) (buffer + 4) self self' b (Hd _)). rstep. cbn [Z.ltb Z.compare SPROTO_CB_NIL Z.eqb Pos.eqb].
    eexists _, self', b. split; [done|]. split; [apply keep_refl|]. left. unfold w. cbn [map concat foldr]. change (zlen (@nil Z)) with 0. rewrite Z.add_0_r. split; [done|]. split; [lia|]. split; [apply has_nil|]. by split.
  - cbn [map foldr forallb] in *. destruct Hd as (self1 & Hd1 & Et & Hd). pose proof (needs_nonneg M cs HM). pose proof (need_pos M c HM).
    destruct (Z.ltb_spec size 4); [eexists _, self, b; split; [done|]; split; [apply keep_refl|]; right; split; [done|lia]|].
    destruct (He (at_value (size - 4) index args) self self1 v c (buffer + 4) b) as (r & b1 & E1 & K1 & W1); cbn [at_value a_length a_type a_subtype]; [done|done|apply Hd1|lia|lia|lia|done| |].
    { destruct Hn as [Hn|Hn]; [left; by apply andb_true_iff in Hn as [-> _]|right; lia]. }
    cbn [at_value a_length] in W1. rewrite E1. rstep. destruct W1 as [(-> & Hr & Hh & Hnd)|[-> Hnd]].
    + pose proof (zlen_nonneg (payload c)). destruct (Z.ltb_spec (zlen (payload c)) 0); [lia|].
      destruct (fill_size_ok b1 buffer (payload c)) as (b2 & E2 & K2 & W2); [done|rewrite (keep_zlen _ _ _ K1); lia|done|]. rewrite E2. rstep.
      assert (zlen (block (payload c)) = 4 + zlen (payload c)) as Ebl by (unfold block; by rewrite zlen_app, zlen_le_bytes).
      assert (keep buffer b b2) as K by (eapply keep_trans; [eapply keep_le; [exact K1|lia]|done]).
      destruct (IH fuel (buffer + 4 + zlen (payload c)) (size - 4 - zlen (payload c)) (index + 1) self1 b2) as (r & self' & b' & E & K3 & W3); [done|lia|lia|rewrite (keep_zlen _ _ _ K); lia|by rewrite (keep_zlen _ _ _ K)| |].
      { destruct Hn as [Hn|Hn]; [left; by apply andb_true_iff in Hn as [_ Hn]|right; lia]. }
      exists r, self', b'. split; [exact E|]. split; [eapply keep_trans; [exact K|eapply keep_le; [exact K3|lia]]|].
      destruct W3 as [(-> & W3 & W4 & W5 & W6)|[-> W3]]; [left|right; split; [done|lia]]. unfold w. cbn [map concat]. rewrite zlen_app, Ebl. split; [f_equal; lia|]. split; [lia|]. split; [|split; [by eapply ended_trans|lia]].
      apply has_app; [done|]. rewrite Ebl. replace (buffer + (4 + zlen (payload c))) with (buffer + 4 + zlen (payload c)) by lia. split; [|done]. eapply has_keep; [exact W2|exact K3|lia|lia].
    + cbn [Z.ltb Z.compare Z.eqb Pos.eqb SPROTO_CB_NIL SPROTO_CB_NOARRAY]. eexists _, self1, b1. split; [done|]. split; [eapply keep_le; [exact K1|lia]|]. right. split; [done|lia].
Qed.

(** ** Fields *)

(** The elements of the array a field has. *)
Lemma field_delivers lv f ty self t a at_ cs : e_array_tag self <> Some (f_tag f) -> e_iter self = LNil -> h !! e_table self = Some t -> rawget t (LString (f_name f)) = LTable a -> h !! a = Some at_ ->
  (if f_key f <? 0 then seq_ok (item_ok T eq lv h) f at_ cs else map_ok eq (item_ok T eq lv h) f at_ cs) ->
  exists vs, Forall2 (item_ok T eq lv h (base_type f) (f_st f)) vs cs /\ delivers (field_args f ty) vs 1 self.
Proof.
  intros Ht Hit Hst Hg Hat Hok.
  assert (exists vs, Forall2 (item_ok T eq lv h (base_type f) (f_st f)) vs cs /\ delivers (field_args f ty) vs 1 (EncodeUd (e_table self) (Some (f_tag f)) (Some a) (e_iter self))) as (vs & Hvs & Hd).
  - destruct (Z.ltb_spec (f_key f) 0) as [Hk|Hk].
    + destruct Hok as [H1 H2]. exists ((fun i => rawget at_ (LInteger (Z.of_nat i + 1))) <$> seq 0 (length cs)). split.
      * apply Forall2_same_length_lookup. rewrite length_fmap, length_seq. split; [done|]. intros i v c Hv Hc. apply list_lookup_fmap_Some in Hv as (j & -> & Hj). apply lookup_seq in Hj as [-> _]. by apply H1.
      * apply (delivers_seq f ty _ a at_); try done; [|unfold zlen in *; rewrite length_fmap, length_seq, Z.add_comm; done].
        intros i v Hv. apply list_lookup_fmap_Some in Hv as (j & -> & Hj). apply lookup_seq in Hj as [-> _]. do 2 f_equal. lia.
    + destruct Hok as (Hnd & es & -> & Hes). exists at_.*2. split.
      * clear -Hes. induction Hes as [|e c es cs [H _] _ IH]; constructor; done.
      * assert (LNil ∉ at_.*1) as Hnil.
        { intros Hin. apply list_elem_of_fmap in Hin as (e & He & Hin). apply list_elem_of_lookup in Hin as [i Hi]. destruct (Forall2_lookup_l _ _ _ _ _ Hes Hi) as (c & _ & _ & fs & x & _ & _ & _ & Hne). congruence. }
        apply (delivers_map f ty a at_ Hat Hk Hnd Hnil at_ [] _ 1); try done. cbn [e_iter]. by rewrite Hit.
  - exists vs. split; [done|]. destruct vs as [|v vs]; cbn [delivers] in *.
    + destruct Hd as (self' & Hd & He). exists self'. split; [|done]. intros len. rewrite (select_start f ty len 1 self t a at_) by done. apply Hd.
    + destruct Hd as (self' & Hd & He). exists self'. split; [|done]. intros len. rewrite (select_start f ty len 1 self t a at_) by done. apply Hd.
Qed.

Lemma ints_of_fmap zs : ints_of (CInt <$> zs) = zs.
Proof. unfold ints_of. induction zs as [|z zs IH]; [done|]. cbn. by f_equal. Qed.

Lemma item_payload_int zs : payload (CArr (CInt <$> zs)) = match zs with [] => [] | _ => int_array zs end.
Proof. destruct zs as [|z zs]; [done|]. change (payload (CArr (CInt <$> z :: zs))) with (int_array (ints_of (CInt <$> z :: zs))). by rewrite ints_of_fmap. Qed.

Lemma item_payload_bool bs : payload (CArr (CBool <$> bs)) = (fun v : bool => if v then 1 else 0) <$> bs.
Proof.
  destruct bs as [|v bs]; [done|]. change (payload (CArr (CBool <$> v :: bs))) with (concat (map payload (CBool <$> v :: bs))). generalize (v :: bs). intros l. induction l as [|x l IH]; [done|]. cbn. by f_equal.
Qed.

Lemma item_payload_obj lv ty sub vs cs : ty = SPROTO_TSTRING \/ ty = SPROTO_TSTRUCT -> Forall2 (item_ok T eq lv h ty sub) vs cs -> payload (CArr cs) = concat (map (fun c => block (payload c)) cs).
Proof.
  intros Hty Hvs. destruct Hvs as [|v c vs cs Hv _]; [done|]. destruct c; try done; exfalso; destruct lv, v; cbn in Hv; try done; destruct Hv as [-> _]; by destruct Hty.
Qed.

Lemma needs_int zs : foldr Z.add 0 (map (need M) (CInt <$> zs)) = 12 * zlen zs.
Proof. induction zs as [|z zs IH]; [done|]. rewrite zlen_cons. cbn [fmap list_fmap map foldr]. change (list_fmap _ _ CInt zs) with (CInt <$> zs). rewrite IH. cbn [need]. lia. Qed.

Lemma needs_bool bs : foldr Z.add 0 (map (need M) (CBool <$> bs)) = 4 * zlen bs.
Proof. induction bs as [|z bs IH]; [done|]. rewrite zlen_cons. cbn [fmap list_fmap map foldr]. change (list_fmap _ _ CBool bs) with (CBool <$> bs). rewrite IH. cbn [need]. lia. Qed.

Lemma zlen_block p : zlen (block p) = 4 + zlen p.
Proof. unfold block. by rewrite zlen_app, zlen_le_bytes. Qed.

(** A block at [data], [size] bytes to the end. *)
Definition block_written (b b' : list Z) (data size r : Z) (c : content) : Prop :=
  keep data b b' /\ ((r = zlen (block (payload c)) /\ r <= size /\ has b' data (block (payload c)) /\ r <= need M c) \/ (r = -1 /\ size < need M c)).

(** How [encode_array] ends. *)
Definition array_result (f : field) (self : encode_ud) (b : list Z) (data size : Z) (cs : list content) (x : result (Z * encode_ud * list Z)) : Prop :=
  exists r self' b', x = Ok (r, self', b') /\ block_written b b' data size r (CArr cs) /\ (r = -1 \/ ended (field_args f (base_type f)) self self').

Lemma array_finish f self self' b b' data size cs w pos : w = payload (CArr cs) -> pos = data + 4 + zlen w -> keep (data + 4) b b' -> 0 <= data -> data + size <= zlen b ->
  zlen w <= size - 4 -> zlen w <= 12 + foldr Z.add 0 (map (need M) cs) -> has b' (data + 4) w -> ended (field_args f (base_type f)) self self' ->
  array_result f self b data size cs ('(sz, b) ← fill_size b' data (pos - (data + 4)); Ok (sz, self', b)).
Proof.
  intros Ew -> K Hd Hl Hw Hw2 Hh He. replace (data + 4 + zlen w - (data + 4)) with (zlen w) by lia. destruct (fill_size_ok b' data w) as (b2 & E & K2 & H2); [done|rewrite (keep_zlen _ _ _ K); lia|done|]. rewrite E. rstep.
  eexists _, self', b2. split; [done|]. split; [|by right]. split; [eapply keep_trans; [eapply keep_le; [exact K|lia]|done]|]. left. rewrite <- Ew, zlen_block. cbn [need]. split; [done|]. split; [lia|]. split; [done|lia].
Qed.

Lemma array_fail f self self' b b' data size cs : keep (data + 4) b b' -> size < 16 + foldr Z.add 0 (map (need M) cs) -> array_result f self b data size cs (Ok (-1, self', b')).
Proof. intros K Hs. exists (-1), self', b'. split; [done|]. split; [|by left]. split; [eapply keep_le; [exact K|lia]|]. by right. Qed.

Lemma array_ok lv f self t a at_ cs data size b : (base_type f = SPROTO_TSTRING \/ base_type f = SPROTO_TSTRUCT -> object_enc lv (base_type f)) -> scalar_type (base_type f) \/ base_type f = SPROTO_TSTRUCT ->
  e_array_tag self <> Some (f_tag f) -> e_iter self = LNil -> h !! e_table self = Some t -> rawget t (LString (f_name f)) = LTable a -> h !! a = Some at_ ->
  (if f_key f <? 0 then seq_ok (item_ok T eq lv h) f at_ cs else map_ok eq (item_ok T eq lv h) f at_ cs) ->
  0 <= data -> 0 <= size -> data + size <= zlen b -> zlen b < 2 ^ 31 -> narrow (CArr cs) = true \/ need M (CArr cs) <= size ->
  array_result f self b data size cs (encode_array (encode (S lv)) (field_args f (base_type f)) data size self b).
Proof.
  intros Hobj Hty Ht Hit Hst Hg Hat Hok Hd Hs Hl Hl2 Hn. destruct (field_delivers lv f (base_type f) self t a at_ cs Ht Hit Hst Hg Hat Hok) as (vs & Hvs & Hdel).
  unfold encode_array. change SIZEOF_LENGTH with 4. cbn [need] in Hn. pose proof (needs_nonneg M cs HM).
  destruct (Z.ltb_spec size 4); [apply array_fail; [apply keep_refl|lia]|]. cbn [narrow] in Hn. rewrite andb_true_iff in Hn.
  assert (Hobjs : base_type f = SPROTO_TSTRING \/ base_type f = SPROTO_TSTRUCT -> array_result f self b data size cs
    ('(r, self, b) ← objects_loop (encode (S lv)) (S (S (Z.to_nat (size - 4)))) (field_args f (base_type f)) (data + 4) (size - 4) 1 self b;
     match r with inl r => Ok (r, self, b) | inr pos => '(sz, b) ← fill_size b data (pos - (data + 4)); Ok (sz, self, b) end)).
  { intros Ho. destruct (objects_ok lv (field_args f (base_type f)) (Hobj Ho) vs cs Hvs (S (S (Z.to_nat (size - 4)))) (data + 4) (size - 4) 1 self b) as (r & self' & b' & E & K & H2); try done; try lia.
    { destruct Hn as [[_ Hn]|Hn]; [by left|right; lia]. }
    rewrite E. rstep. destruct H2 as [(-> & H2 & H3 & H4 & H5)|[-> H2]]; [|apply array_fail; [done|lia]].
    eapply array_finish; [|reflexivity|done..|lia|lia|done|done]. by rewrite (item_payload_obj lv (base_type f) (f_st f) vs cs Ho Hvs). }
  cbn [a_type field_args]. destruct Hty as [[Ety|[Ety|Ety]]|Ety]; rewrite Ety in *; cbn [Z.eqb Pos.eqb SPROTO_TINTEGER SPROTO_TBOOLEAN SPROTO_TSTRING SPROTO_TSTRUCT].
  - destruct (items_int _ _ _ _ Hvs) as (zs & -> & -> & Hz). rewrite needs_int in *.
    destruct (integer_array_ok lv (field_args f SPROTO_TINTEGER) zs self b (data + 4) (size - 4)) as (r & self' & b' & E & K & H2); try done; try lia.
    { destruct Hn as [[Hn _]|Hn]; [left|right; lia]. unfold narrow_ints in Hn. by rewrite ints_of_fmap in Hn. }
    rewrite E. rstep. destruct H2 as [(-> & H2 & H3 & H4)|[-> H2]]; rstep; [|apply array_fail; [done|rewrite needs_int; lia]].
    eapply array_finish; [by rewrite item_payload_int|reflexivity|done..|lia| |done|by rewrite Ety]. rewrite needs_int.
    destruct zs as [|z zs]; [change (zlen (@nil Z)) with 0; lia|]. unfold int_array. rewrite zlen_cons, zlen_ints. pose proof (zlen_nonneg (z :: zs)). destruct (negb (forallb fits32 (z :: zs))); lia.
  - destruct (items_bool _ _ _ _ Hvs) as (bs & -> & ->). rewrite needs_bool in *. pose proof (zlen_nonneg bs).
    destruct (booleans_ok lv (field_args f SPROTO_TBOOLEAN) eq_refl bs (S (S (Z.to_nat (size - 4)))) (data + 4) (size - 4) 1 self b) as (r & self' & b' & E & K & H2); try done; try lia.
    rewrite E. rstep. destruct H2 as [(-> & H2 & H3 & H4)|[-> H2]]; rstep; [|apply array_fail; [done|rewrite needs_bool; lia]].
    assert (zlen ((fun v : bool => if v then 1 else 0) <$> bs) = zlen bs) as Ez by (unfold zlen; by rewrite length_fmap).
    eapply (array_finish _ _ _ _ _ _ _ _ ((fun v : bool => if v then 1 else 0) <$> bs)); [by rewrite item_payload_bool|by rewrite Ez|done..|lia|rewrite needs_bool; lia|done|by rewrite Ety].
  - apply Hobjs; auto.
  - apply Hobjs; auto.
Qed.

Lemma base_nonarray f : is_array f = false -> 0 <= f_type f < 256 -> base_type f = f_type f.
Proof.
  unfold is_array, base_type. intros H _. apply negb_false_iff, Z.eqb_eq in H. change (Z.lnot SPROTO_TARRAY) with (-129). rewrite <- (Z.lor_ldiff_and (f_type f) SPROTO_TARRAY) at 2. rewrite H, Z.lor_0_r. by rewrite Z.ldiff_land.
Qed.

Lemma select_field f ty len self t : h !! e_table self = Some t -> select (at_value len 0 (field_args f ty)) self = Ok (inr (rawget t (LString (f_name f))), self).
Proof. intros Ht. unfold Sproto.select, getfield. cbn [at_value field_args a_index a_tagname Z.ltb Z.compare]. by rewrite Ht. Qed.

(** An array that is not there. *)
Lemma array_nil lv f self t data size b : e_array_tag self <> Some (f_tag f) -> h !! e_table self = Some t -> rawget t (LString (f_name f)) = LNil ->
  exists r, encode_array (encode (S lv)) (field_args f (base_type f)) data size self b =
    Ok (r, if r =? 0 then EncodeUd (e_table self) (Some (f_tag f)) None (e_iter self) else self, b) /\ (r = 0 \/ (r = -1 /\ size < 8)).
Proof.
  intros Ht Hst Hg. set (self' := EncodeUd (e_table self) (Some (f_tag f)) None (e_iter self)).
  assert (forall len p b, encode (S lv) (at_value len 1 (field_args f (base_type f))) p self b = Ok (SPROTO_CB_NOARRAY, 0, self', b)) as Ecb.
  { intros len p b'. assert (select (at_value len 1 (field_args f (base_type f))) self = Ok (inl SPROTO_CB_NOARRAY, self')) as Es; [|by rewrite (encode_select _ _ _ _ _ _ _ Es)].
    unfold Sproto.select, getfield. cbn [at_value field_args a_index a_tagid a_tagname Z.ltb Z.compare]. rewrite decide_False by done. rewrite Hst. cbn [deref]. rstep. by rewrite Hg. }
  unfold encode_array. change SIZEOF_LENGTH with 4. destruct (Z.ltb_spec size 4); [exists (-1); split; [done|right; lia]|]. cbn [a_type field_args].
  destruct (base_type f =? SPROTO_TINTEGER).
  - unfold encode_integer_array. destruct (Z.ltb_spec (size - 4) 1); [exists (-1); split; [done|right; lia]|]. cbn [integers_loop]. rewrite Ecb. rstep.
    cbn [Z.leb Z.compare Z.eqb Pos.eqb SPROTO_CB_NIL SPROTO_CB_NOARRAY]. rstep. rewrite Z.eqb_refl. rstep. exists 0. split; [done|by left].
  - destruct (base_type f =? SPROTO_TBOOLEAN).
    + cbn [booleans_loop]. rewrite Ecb. rstep. cbn [Z.ltb Z.compare Z.eqb Pos.eqb SPROTO_CB_NIL SPROTO_CB_NOARRAY]. exists 0. split; [done|by left].
    + cbn [objects_loop]. change SIZEOF_LENGTH with 4. destruct (Z.ltb_spec (size - 4) 4); [exists (-1); split; [done|right; lia]|]. rewrite Ecb. rstep.
      cbn [Z.ltb Z.compare Z.eqb Pos.eqb SPROTO_CB_NIL SPROTO_CB_NOARRAY]. exists 0. split; [done|by left].
Qed.

(** What the loop over the fields learns about a field. *)
Definition field_written (oc : option content) (e : encoded) (b' : list Z) (data size : Z) : Prop :=
  match oc with
  | None => e = Continue \/ e = Record_ 0 0
  | Some c =>
      let d := field_data (inline c) (payload c) in
      e = match inline c with Some v => Record_ 2 v | None => Record_ (zlen d) 0 end /\ zlen d <= size /\ has b' data d /\ zlen d <= need M c
  end.

Definition field_need (oc : option content) : Z := match oc with Some c => need M c | None => 0 end.

Definition field_result (f : field) (self : encode_ud) (b : list Z) (data size : Z) (oc : option content) (x : result (encoded * encode_ud * list Z)) : Prop :=
  exists e self' b', x = Ok (e, self', b') /\ keep data b b' /\
    ((field_written oc e b' data size /\ e_table self' = e_table self /\ e_iter self' = LNil /\ (e_array_tag self' = e_array_tag self \/ e_array_tag self' = Some (f_tag f))) \/
     (e = Record_ (-1) 0 /\ size < 16 + field_need oc)).

Definition field_is (lv : nat) (f : field) (v : lua_value) (oc : option content) : Prop :=
  match oc with None => v = LNil | Some c => field_ok eq (item_ok T eq lv h) h f v c end.

Definition field_roomy (oc : option content) (size : Z) : Prop := match oc with None => True | Some c => narrow c = true \/ need M c <= size end.

Lemma array_field_ok lv f self t data size b oc : is_array f = true -> field_wf T f -> (base_type f = SPROTO_TSTRING \/ base_type f = SPROTO_TSTRUCT -> object_enc lv (base_type f)) ->
  e_array_tag self <> Some (f_tag f) -> e_iter self = LNil -> h !! e_table self = Some t -> field_is lv f (rawget t (LString (f_name f))) oc ->
  0 <= data -> 0 <= size -> data + size <= zlen b -> zlen b < 2 ^ 31 -> field_roomy oc size ->
  field_result f self b data size oc (encode_field (encode (S lv)) f data size self b).
Proof.
  intros Ha Hwf Hobj Ht Hit Hst Hc Hd Hs Hl Hl2 Hn. unfold encode_field. rewrite Ha. destruct oc as [c|]; cbn [field_is field_roomy] in *.
  - unfold field_ok in Hc. rewrite Ha in Hc. destruct Hc as (a & at_ & cs & Hg & Hat & -> & Hok).
    destruct (array_ok lv f self t a at_ cs data size b Hobj (fw_type _ _ Hwf) Ht Hit Hst Hg Hat Hok Hd Hs Hl Hl2 Hn) as (r & self' & b' & E & [K Hw] & He). rewrite E. rstep.
    eexists _, self', b'. split; [done|]. split; [done|]. destruct Hw as [(-> & H2 & H3 & H4)|[-> H2]]; [left|right; split; [done|cbn [field_need]; lia]].
    destruct He as [He|(He1 & He2 & He3)]; [pose proof (zlen_nonneg (block (payload (CArr cs)))); lia|]. split; [by repeat split|]. split; [done|]. split; [done|by right].
  - destruct (array_nil lv f self t data size b Ht Hst Hc) as (r & E & Hr). rewrite E. rstep. eexists _, _, b. split; [done|]. split; [apply keep_refl|].
    destruct Hr as [->|[-> Hr]]; [left|right; split; [done|cbn; lia]]. split; [by right|]. split; [done|]. split; [done|by right].
Qed.

(** [encode_integer] and [encode_uint64]. *)
Lemma number_written b data p : 0 <= data -> data + 4 + zlen p <= zlen b ->
  exists b', (b ← blit b (data + 4) p; fill_size b data (zlen p)) = Ok (zlen (block p), b') /\ keep data b b' /\ has b' data (block p).
Proof.
  intros Hd Hl. destruct (blit_has b (data + 4) p) as (b1 & -> & K1 & H1 & _); [lia|lia|]. rstep. destruct (fill_size_ok b1 data p) as (b2 & E & K2 & H2); [done|rewrite (keep_zlen _ _ _ K1); lia|done|].
  exists b2. split; [done|]. split; [|done]. eapply keep_trans; [eapply keep_le; [exact K1|lia]|done].
Qed.

Lemma number_field_ok lv f self t data size b oc : f_type f = SPROTO_TINTEGER \/ f_type f = SPROTO_TBOOLEAN -> is_array f = false ->
  e_iter self = LNil -> h !! e_table self = Some t -> field_is lv f (rawget t (LString (f_name f))) oc -> 0 <= data -> 0 <= size -> data + size <= zlen b ->
  field_result f self b data size oc (encode_field (encode (S lv)) f data size self b).
Proof.
  intros Hty Ha Hit Hst Hc Hd Hs Hl. unfold encode_field. rewrite Ha. pose proof (select_field f (f_type f) 8 self t Hst) as Hsel.
  assert ((f_type f =? SPROTO_TINTEGER) || (f_type f =? SPROTO_TBOOLEAN) = true) as -> by (destruct Hty as [-> | ->]; done).
  assert (Hok : forall e, field_written oc e b data size -> field_result f self b data size oc (Ok (e, self, b))).
  { intros e He. eexists _, self, b. split; [done|]. split; [apply keep_refl|]. left. split; [done|]. split; [done|]. split; [done|by left]. }
  assert (Hnum : forall z, oc = Some (CInt z) -> inline (CInt z) = None -> let p := payload (CInt z) in zlen p <= 8 ->
    field_result f self b data size oc ('(sz, b) ← (if size <? SIZEOF_LENGTH + zlen p then Ok (-1, b) else b ← blit b (data + 4) p; fill_size b data (zlen p)); Ok (Record_ sz 0, self, b))).
  { intros z -> Ein p Hp. change SIZEOF_LENGTH with 4. destruct (Z.ltb_spec size (4 + zlen p)).
    - eexists _, self, b. split; [done|]. split; [apply keep_refl|]. right. split; [done|cbn; lia].
    - destruct (number_written b data p Hd ltac:(lia)) as (b' & E & K & Hh). rewrite E. rstep. eexists _, self, b'. split; [done|]. split; [done|]. left. split; [|split; [done|split; [done|by left]]].
      unfold field_written. rewrite Ein. cbn [field_data need]. fold p. rewrite zlen_block. split; [done|]. split; [lia|]. split; [done|lia]. }
  destruct oc as [c|]; cbn [field_is] in Hc.
  - unfold field_ok in Hc. rewrite Ha in Hc. destruct Hty as [Hty|Hty]; rewrite Hty in Hc.
    + destruct (items_int lv (f_st f) [rawget t (LString (f_name f))] [c]) as (zs & Ev & Ec & Hz); [by repeat constructor|]. destruct zs as [|z [|? ?]]; try done. injection Ev as Ev. injection Ec as ->. apply Forall_cons in Hz as [Hz _].
      rewrite Ev in Hsel. rewrite (encode_int lv _ 0 self self b z Hsel Hty Hz). destruct (fits32 z) eqn:Ef; rstep; cbn [Z.ltb Z.compare Z.eqb Pos.eqb].
      * destruct (Z.ltb_spec (u32 z) 0x7fff) as [Hsm|Hsm].
        -- apply Hok. unfold field_written. cbn [inline]. rewrite Ef. destruct (Z.ltb_spec (u32 z) 0x7fff); [|lia]. cbn [andb field_data]. split; [done|]. change (zlen (@nil Z)) with 0. split; [lia|]. split; [apply has_nil|cbn; lia].
        -- pose proof (Hnum z eq_refl) as Hn. cbn [inline payload] in Hn. rewrite Ef in Hn. destruct (Z.ltb_spec (u32 z) 0x7fff); [lia|]. apply Hn; [done|]. cbn [negb]. unfold int_bytes. by rewrite zlen_le_bytes.
      * pose proof (Hnum z eq_refl) as Hn. cbn [inline payload] in Hn. rewrite Ef in Hn. apply Hn; [done|]. cbn [negb]. unfold int_bytes. by rewrite zlen_le_bytes.
    + destruct (items_bool lv (f_st f) [rawget t (LString (f_name f))] [c]) as (bs & Ev & Ec); [by repeat constructor|]. destruct bs as [|v [|? ?]]; try done. injection Ev as Ev. injection Ec as ->.
      rewrite Ev in Hsel. rewrite (encode_bool lv _ 0 self self b v Hsel Hty). rstep. cbn [Z.ltb Z.compare Z.eqb Pos.eqb]. destruct (Z.ltb_spec (if v then 1 else 0) 0x7fff); [|destruct v; lia].
      apply Hok. unfold field_written. cbn [inline field_data]. split; [done|]. change (zlen (@nil Z)) with 0. split; [lia|]. split; [apply has_nil|cbn; lia].
  - rewrite Hc in Hsel. rewrite (encode_nil lv _ 0 self self b (or_intror Hsel)). rstep. cbn [Z.ltb Z.compare Z.eqb Pos.eqb SPROTO_CB_NIL]. apply Hok. by left.
Qed.

Lemma object_field_ok lv f self t data size b oc : f_type f = SPROTO_TSTRING \/ f_type f = SPROTO_TSTRUCT -> is_array f = false -> object_enc lv (f_type f) ->
  e_iter self = LNil -> h !! e_table self = Some t -> field_is lv f (rawget t (LString (f_name f))) oc -> 0 <= data -> 0 <= size -> data + size <= zlen b -> zlen b < 2 ^ 31 -> field_roomy oc size ->
  field_result f self b data size oc (encode_field (encode (S lv)) f data size self b).
Proof.
  intros Hty Ha Hobj Hit Hst Hc Hd Hs Hl Hl2 Hn. unfold encode_field. rewrite Ha.
  assert ((f_type f =? SPROTO_TINTEGER) || (f_type f =? SPROTO_TBOOLEAN) = false) as -> by (destruct Hty as [-> | ->]; done).
  assert ((f_type f =? SPROTO_TSTRUCT) || (f_type f =? SPROTO_TSTRING) = true) as -> by (destruct Hty as [-> | ->]; done).
  unfold encode_object. change SIZEOF_LENGTH with 4. destruct (Z.ltb_spec size 4).
  { eexists _, self, b. split; [done|]. split; [apply keep_refl|]. right. split; [done|]. destruct oc as [c|]; cbn [field_need]; [pose proof (need_pos M c HM); lia|lia]. }
  pose proof (select_field f (f_type f) (size - 4) self t Hst) as Hsel. destruct oc as [c|]; cbn [field_is field_roomy] in *.
  - unfold field_ok in Hc. rewrite Ha in Hc.
    destruct (Hobj (at_value (size - 4) 0 (field_args f (f_type f))) self self _ c (data + 4) b eq_refl Hc Hsel) as (r & b1 & E & [K H2]); cbn [at_value a_length]; try lia; [destruct Hn; [by left|right; cbn [a_length at_value]; lia]|].
    rewrite E. rstep. cbn [at_value a_length] in H2. destruct H2 as [(-> & Hr & Hh & Hnd)|[-> Hnd]].
    + pose proof (zlen_nonneg (payload c)). destruct (Z.ltb_spec (zlen (payload c)) 0); [lia|]. destruct (Z.leb_spec (zlen (payload c)) (size - 4)); [|lia]. cbn [assert_]. rstep.
      destruct (fill_size_ok b1 data (payload c)) as (b2 & E2 & K2 & H4); [done|rewrite (keep_zlen _ _ _ K); lia|done|]. rewrite E2. rstep. eexists _, self, b2. split; [done|].
      split; [eapply keep_trans; [eapply keep_le; [exact K|lia]|done]|]. left. split; [|split; [done|split; [done|by left]]]. assert (inline c = None) as Ein.
      { destruct c; try done; exfalso; destruct lv, (rawget t (LString (f_name f))); cbn in Hc; try done; destruct Hc as [Hc _]; rewrite Hc in Hty; by destruct Hty. }
      unfold field_written. rewrite Ein. cbn [field_data]. rewrite zlen_block. split; [done|]. split; [lia|]. split; [done|lia].
    + cbn [Z.ltb Z.compare Z.eqb Pos.eqb SPROTO_CB_NIL]. rstep. eexists _, self, b1. split; [done|]. split; [eapply keep_le; [exact K|lia]|]. right. split; [done|cbn; lia].
  - rewrite Hc in Hsel. rewrite (encode_nil lv _ (data + 4) self self b (or_intror Hsel)). rstep. cbn [Z.ltb Z.compare Z.eqb Pos.eqb SPROTO_CB_NIL]. rstep.
    eexists _, self, b. split; [done|]. split; [apply keep_refl|]. left. split; [by right|]. split; [done|]. split; [done|by left].
Qed.

Lemma field_enc lv f self t data size b oc : field_wf T f -> (base_type f = SPROTO_TSTRUCT -> object_enc lv SPROTO_TSTRUCT) ->
  e_array_tag self <> Some (f_tag f) -> e_iter self = LNil -> h !! e_table self = Some t -> field_is lv f (rawget t (LString (f_name f))) oc ->
  0 <= data -> 0 <= size -> data + size <= zlen b -> zlen b < 2 ^ 31 -> field_roomy oc size ->
  field_result f self b data size oc (encode_field (encode (S lv)) f data size self b).
Proof.
  intros Hwf Hobj Ht Hit Hst Hc Hd Hs Hl Hl2 Hn. assert (base_type f = SPROTO_TSTRING \/ base_type f = SPROTO_TSTRUCT -> object_enc lv (base_type f)) as Hobj'.
  { intros [E|E]; rewrite E; [apply string_enc|by apply Hobj]. }
  destruct (is_array f) eqn:Ha; [by apply (array_field_ok lv f self t)|]. pose proof (base_nonarray f Ha (fw_range _ _ Hwf)) as Eb. destruct (fw_type _ _ Hwf) as [[E|[E|E]]|E].
  - apply (number_field_ok lv f self t); try done. left. congruence.
  - apply (number_field_ok lv f self t); try done. right. congruence.
  - apply (object_field_ok lv f self t); try done; [left; congruence|]. rewrite <- Eb. by apply Hobj'; left.
  - apply (object_field_ok lv f self t); try done; [right; congruence|]. rewrite <- Eb. by apply Hobj'; right.
Qed.

(** ** Messages *)

Definition words (ws : list Z) : list Z := concat (le_bytes 2 <$> ws).

Lemma words_app ws ws' : words (ws ++ ws') = words ws ++ words ws'.
Proof. unfold words. by rewrite fmap_app, concat_app. Qed.

Lemma zlen_words ws : zlen (words ws) = 2 * zlen ws.
Proof. induction ws as [|w ws IH]; [done|]. unfold words in *. cbn [fmap list_fmap concat]. rewrite zlen_app, IH, zlen_le_bytes, zlen_cons. lia. Qed.

Definition record_words (tag lasttag value : Z) : list Z := (if 0 <? tag - lasttag - 1 then [(tag - lasttag - 1 - 1) * 2 + 1] else []) ++ [value].

Lemma zlen_record_words tag lasttag value : zlen (record_words tag lasttag value) = if 0 <? tag - lasttag - 1 then 2 else 1.
Proof. unfold record_words. by destruct (0 <? tag - lasttag - 1). Qed.

Lemma put_record_ok tag lasttag value header index b : -1 <= lasttag -> tag < 0x8000 -> 0 <= header -> 0 <= index ->
  let ws := record_words tag lasttag value in header + 2 + 2 * (index + zlen ws) <= zlen b ->
  exists b', put_record tag lasttag value header index b = Ok (Some (index + zlen ws, b')) /\ keep (header + 2 + 2 * index) b b' /\ has b' (header + 2 + 2 * index) (words ws) /\
    forall k, header + 2 + 2 * (index + zlen ws) <= Z.of_nat k -> b' !! k = b !! k.
Proof.
  intros Hl Ht Hh Hi. cbn zeta. unfold record_words, put_record. change SIZEOF_HEADER with 2. change SIZEOF_FIELD with 2. destruct (Z.ltb_spec 0 (tag - lasttag - 1)); cbn [app].
  - set (w := (tag - lasttag - 1 - 1) * 2 + 1). change (zlen [w; value]) with 2. intros Hb. destruct (Z.ltb_spec 0xffff w); [lia|].
    destruct (blit_has b (header + 2 + 2 * index) (le_bytes 2 w)) as (b1 & -> & K1 & H1 & A1); [lia|rewrite zlen_le_bytes; lia|]. rstep.
    destruct (blit_has b1 (header + 2 + 2 * index + 2) (le_bytes 2 value)) as (b2 & -> & K2 & H2 & A2); [lia|rewrite (keep_zlen _ _ _ K1), zlen_le_bytes; lia|]. rstep. rewrite zlen_le_bytes in A1, A2.
    exists b2. split; [done|]. split; [eapply keep_trans; [exact K1|eapply keep_le; [exact K2|lia]]|]. split; [|intros k Hk; rewrite A2, A1 by lia; done].
    unfold words. cbn [fmap list_fmap concat]. apply has_app; [lia|]. rewrite zlen_le_bytes. split; [eapply has_keep; [exact H1|exact K2|lia|rewrite zlen_le_bytes; lia]|]. by rewrite app_nil_r.
  - change (zlen [value]) with 1. intros Hb. destruct (blit_has b (header + 2 + 2 * index) (le_bytes 2 value)) as (b1 & -> & K1 & H1 & A1); [lia|rewrite zlen_le_bytes; lia|]. rstep. rewrite zlen_le_bytes in A1.
    exists b1. split; [done|]. split; [done|]. split; [|intros k Hk; apply A1; lia]. unfold words. cbn [fmap list_fmap concat]. by rewrite app_nil_r.
Qed.

(** The buffer while the fields are written: [rs] records and [ds] bytes of data,
    [S] is the room behind the header. *)
Record progress (header hsz S : Z) (rs ds : list Z) (b : list Z) : Prop := Progress {
  pg_records : has b (header + 2) (words rs);
  pg_data : has b (header + hsz) ds;
  pg_header : 2 + 2 * zlen rs <= hsz;
  pg_room : zlen ds <= S
}.

Lemma progress_data header hsz S rs ds b b' d : 0 <= header -> 0 <= hsz -> progress header hsz S rs ds b -> keep (header + hsz + zlen ds) b b' -> has b' (header + hsz + zlen ds) d -> zlen d <= S - zlen ds -> progress header hsz S rs (ds ++ d) b'.
Proof.
  intros Hh Hz [P1 P2 P3 P4] K H Hd. pose proof (zlen_nonneg ds). constructor; [|apply has_app; [lia|split; [|done]]|done|rewrite zlen_app; lia].
  - eapply has_keep; [exact P1|exact K|lia|]. rewrite zlen_words. lia.
  - eapply has_keep; [exact P2|exact K|lia|lia].
Qed.

Lemma progress_record header hsz S rs ds b tag lasttag value : 0 <= header -> progress header hsz S rs ds b -> -1 <= lasttag -> tag < 0x8000 -> header + hsz + S <= zlen b ->
  2 + 2 * (zlen rs + zlen (record_words tag lasttag value)) <= hsz ->
  exists b', put_record tag lasttag value header (zlen rs) b = Ok (Some (zlen (rs ++ record_words tag lasttag value), b')) /\ keep header b b' /\ progress header hsz S (rs ++ record_words tag lasttag value) ds b'.
Proof.
  intros Hh [P1 P2 P3 P4] Hl Ht Hb Hr. pose proof (zlen_nonneg rs). pose proof (zlen_nonneg ds). destruct (put_record_ok tag lasttag value header (zlen rs) b Hl Ht Hh ltac:(lia) ltac:(lia)) as (b' & E & K & H1 & A).
  exists b'. rewrite zlen_app. split; [exact E|]. split; [eapply keep_le; [exact K|lia]|]. constructor; [|eapply has_after; [exact P2|split; [|reflexivity]; lia|intros k Hk; apply A; lia]|rewrite zlen_app; lia|done].
  rewrite words_app. apply has_app; [lia|]. rewrite zlen_words. replace (header + 2 + 2 * zlen rs) with (header + 2 + 2 * zlen rs) by lia. split; [|done]. eapply has_keep; [exact P1|exact K|lia|]. rewrite zlen_words. lia.
Qed.

(** What the loop over the fields does. *)
Definition needs (fs : list (Z * content)) : Z := foldr Z.add 0 (map (fun '(_, c) => need M c) fs).

Lemma inline_pos c v : inline c = Some v -> 0 < v.
Proof.
  destruct c as [z|v'| | |]; cbn [inline]; try done; [|intros [= <-]; destruct v'; lia]. pose proof (u32_range z) as Hz. unfold is_u32 in Hz. destruct (_ && _); [|done]. intros [= <-]. lia.
Qed.

Lemma needs_fs_nonneg fs : 0 <= needs fs.
Proof. unfold needs. apply sum_nonneg, List.Forall_map, Forall_true. intros [? c]. pose proof (need_pos M c HM). lia. Qed.

Lemma fields_ok_cases lv f l t fs : fields_ok eq (item_ok T eq lv h) h (f :: l) t fs -> exists oc fs', field_is lv f (rawget t (LString (f_name f))) oc /\ fields_ok eq (item_ok T eq lv h) h l t fs' /\
  fs = match oc with None => fs' | Some c => (f_tag f, c) :: fs' end.
Proof. intros [[H1 H2]|(c & fs' & -> & H1 & H2)]; [by exists None, fs|by exists (Some c), fs']. Qed.

Lemma records_room_nonneg last l : 0 <= records_room last l.
Proof. revert last. induction l as [|f l IH]; intros la; cbn [records_room]; [lia|]. specialize (IH (f_tag f)). destruct (la + 1 <? f_tag f); lia. Qed.

(** Everything the loop keeps track of. *)
Definition fields_result (lv : nat) (header hsz S : Z) (l : list field) (lasttag : Z) (rs ds : list Z) (fs : list (Z * content)) (self : encode_ud) (b : list Z) : Prop :=
  exists self' b', keep header b b' /\
    let x := fields_loop (encode lv) l header (header + hsz + zlen ds) (S - zlen ds) (zlen rs) lasttag self b in
    ((let rs' := rs ++ records lasttag (parts fs) in let ds' := ds ++ datas (parts fs) in
      x = Ok (inr (header + hsz + zlen ds', zlen rs'), self', b') /\ progress header hsz S rs' ds' b' /\ zlen (datas (parts fs)) <= needs fs) \/
     (x = Ok (inl (-1), self', b') /\ S - zlen ds < needs fs + 16)).

(** A field that is there, and the rest. *)
Lemma field_step lv header hsz S rs ds b b1 self self1 f l lasttag c fs : 0 <= header -> 0 <= hsz -> progress header hsz S rs ds b -> keep (header + hsz + zlen ds) b b1 -> header + hsz + S <= zlen b ->
  encode_field (encode lv) f (header + hsz + zlen ds) (S - zlen ds) self b = Ok (match inline c with Some v => Record_ 2 v | None => Record_ (zlen (field_data (inline c) (payload c))) 0 end, self1, b1) ->
  has b1 (header + hsz + zlen ds) (field_data (inline c) (payload c)) -> zlen (field_data (inline c) (payload c)) <= S - zlen ds -> zlen (field_data (inline c) (payload c)) <= need M c ->
  -1 <= lasttag -> f_tag f < 0x8000 -> 2 + 2 * (zlen rs + zlen (record_words (f_tag f) lasttag (default 0 (inline c)))) <= hsz ->
  (forall b2, keep header b b2 -> progress header hsz S (rs ++ record_words (f_tag f) lasttag (default 0 (inline c))) (ds ++ field_data (inline c) (payload c)) b2 ->
    fields_result lv header hsz S l (f_tag f) (rs ++ record_words (f_tag f) lasttag (default 0 (inline c))) (ds ++ field_data (inline c) (payload c)) fs self1 b2) ->
  fields_result lv header hsz S (f :: l) lasttag rs ds ((f_tag f, c) :: fs) self b.
Proof.
  intros Hh Hz Hp K Hb E Hhas Hd Hdn Hlt Htag Hroom IH. set (d := field_data (inline c) (payload c)) in *. set (v := default 0 (inline c)) in *. pose proof (zlen_nonneg ds).
  assert (progress header hsz S rs (ds ++ d) b1) as Hp1 by (by apply (progress_data header hsz S rs ds b)).
  destruct (progress_record header hsz S rs (ds ++ d) b1 (f_tag f) lasttag v Hh Hp1 Hlt Htag) as (b2 & Er & K2 & Hp2); [by rewrite (keep_zlen _ _ _ K)|done|].
  assert (keep header b b2) as Kb by (eapply keep_trans; [eapply keep_le; [exact K|lia]|exact K2]). destruct (IH b2 Kb Hp2) as (self' & b' & K' & Hx). exists self', b'. split; [by eapply keep_trans|]. cbn zeta in *.
  set (x' := fields_loop (encode lv) l header (header + hsz + zlen (ds ++ d)) (S - zlen (ds ++ d)) (zlen (rs ++ record_words (f_tag f) lasttag v)) (f_tag f) self1 b2) in *.
  assert (fields_loop (encode lv) (f :: l) header (header + hsz + zlen ds) (S - zlen ds) (zlen rs) lasttag self b = x') as ->.
  { cbn [fields_loop]. rewrite E. rstep. unfold x', d, v in *. rewrite zlen_app in *. destruct (inline c) as [u|] eqn:Ei; cbn [field_data default from_option id] in *.
    - cbn [Z.ltb Z.compare]. pose proof (inline_pos c u Ei). destruct (Z.eqb_spec u 0); [lia|]. rewrite Er. rstep. change (zlen (@nil Z)) with 0. rewrite zlen_app, Z.add_0_r. done.
    - pose proof (zlen_nonneg (payload c)). rewrite zlen_block in *. destruct (Z.ltb_spec (4 + zlen (payload c)) 0); [lia|]. destruct (Z.ltb_spec 0 (4 + zlen (payload c))); [|lia]. cbn [Z.eqb]. rewrite Er. rstep.
      rewrite zlen_app. f_equal; lia. }
  assert (Hparts : parts ((f_tag f, c) :: fs) = (f_tag f, inline c, payload c) :: parts fs) by done. rewrite Hparts.
  assert (records lasttag ((f_tag f, inline c, payload c) :: parts fs) = record_words (f_tag f) lasttag v ++ records (f_tag f) (parts fs)) as -> by (unfold record_words; cbn [records]; by rewrite <- app_assoc).
  assert (datas ((f_tag f, inline c, payload c) :: parts fs) = d ++ datas (parts fs)) as -> by done.
  assert (needs ((f_tag f, c) :: fs) = need M c + needs fs) as -> by done. rewrite (zlen_app d). rewrite <- !app_assoc in Hx. destruct Hx as [(-> & H2 & H3)|[-> H2]]; [left|right; rewrite zlen_app in *; split; [done|lia]].
  rewrite <- ?app_assoc. split; [done|]. split; [done|lia].
Qed.

Lemma fields_enc lv : object_enc lv SPROTO_TSTRUCT -> forall header hsz S t a l, 0 <= header -> 0 <= hsz -> h !! a = Some t ->
  forall fs prev lasttag rs ds self b, Forall (field_wf T) l -> tags_ascend prev l -> fields_ok eq (item_ok T eq lv h) h l t fs -> -1 <= lasttag <= prev ->
  2 + 2 * (zlen rs + records_room prev l + if lasttag <? prev then 1 else 0) <= hsz -> progress header hsz S rs ds b -> header + hsz + S <= zlen b -> zlen b < 2 ^ 31 ->
  e_table self = a -> e_iter self = LNil -> (forall tag, e_array_tag self = Some tag -> tag <= prev) ->
  forallb (fun '(_, c) => narrow c) fs = true \/ needs fs + 16 <= S - zlen ds ->
  fields_result (Datatypes.S lv) header hsz S l lasttag rs ds fs self b.
Proof.
  intros Hobj header hsz S t a l Hh Hz Hat. induction l as [|f l IH]; intros fs prev lasttag rs ds self b Hwf Hasc Hfs Hlt Hroom Hp Hb Hb2 Ea Ei Etag Hn.
  { cbn in Hfs. subst fs. exists self, b. split; [apply keep_refl|]. left. cbn zeta. cbn [parts fmap list_fmap records datas concat]. rewrite !app_nil_r. split; [done|]. split; [done|]. change (zlen (@nil Z)) with 0. cbn. lia. }
  apply Forall_cons in Hwf as [Hwf Hwfs]. cbn [tags_ascend records_room] in *. destruct Hasc as [Ht Hasc]. pose proof (pg_room _ _ _ _ _ _ Hp). pose proof (zlen_nonneg ds).
  apply fields_ok_cases in Hfs as (oc & fs' & Hoc & Hfs & ->). pose proof (needs_fs_nonneg fs') as Hnn.
  destruct (field_enc lv f self t (header + hsz + zlen ds) (S - zlen ds) b oc Hwf (fun _ => Hobj)) as (e & self1 & b1 & E & K & Hw); try done; try lia; [|by rewrite Ea| |].
  { intros E. apply Etag in E. lia. }
  { destruct oc as [c|]; [|done]. cbn [field_roomy]. destruct Hn as [Hn|Hn]; [left; by apply andb_true_iff in Hn as [-> _]|right]. unfold needs in Hn. cbn in Hn. fold (needs fs') in Hn. lia. }
  destruct Hw as [(Hw & Et1 & Ei1 & Etag1)|[-> Hw]].
  - assert (forall tag, e_array_tag self1 = Some tag -> tag <= f_tag f) as Htags.
    { intros tag Htag. destruct Etag1 as [Eq|Eq]; rewrite Eq in Htag; [apply Etag in Htag; lia|by injection Htag as ->]. }
    destruct oc as [c|].
    + destruct Hw as (-> & Hd & Hhas & Hdn). assert (zlen rs + zlen (record_words (f_tag f) lasttag (default 0 (inline c))) + records_room (f_tag f) l <= zlen rs + (1 + (if prev + 1 <? f_tag f then 1 else 0) + records_room (f_tag f) l) + (if lasttag <? prev then 1 else 0)) as Hw.
      { rewrite zlen_record_words. destruct (Z.ltb_spec 0 (f_tag f - lasttag - 1)), (Z.ltb_spec (prev + 1) (f_tag f)), (Z.ltb_spec lasttag prev); lia. }
      pose proof (records_room_nonneg (f_tag f) l). apply (field_step (Datatypes.S lv) header hsz S rs ds b b1 self self1); try done; try lia.
      intros b2 Kb Hp2. apply (IH fs' (f_tag f) (f_tag f)); try done; try lia; rewrite ?Et1, ?(keep_zlen _ _ _ Kb); try done; [rewrite zlen_app, Z.ltb_irrefl; lia|].
      destruct Hn as [Hn|Hn]; [left; by apply andb_true_iff in Hn as [_ Hn]|right]. rewrite zlen_app. unfold needs in Hn. cbn in Hn. fold (needs fs') in Hn. lia.
    + assert (progress header hsz S rs ds b1) as Hp1 by (rewrite <- (app_nil_r ds); apply (progress_data header hsz S rs ds b b1 []); try done; change (zlen (@nil Z)) with 0; lia).
      assert (fields_loop (encode (Datatypes.S lv)) (f :: l) header (header + hsz + zlen ds) (S - zlen ds) (zlen rs) lasttag self b = fields_loop (encode (Datatypes.S lv)) l header (header + hsz + zlen ds) (S - zlen ds) (zlen rs) lasttag self1 b1) as El.
      { cbn [fields_loop]. rewrite E. rstep. by destruct Hw as [-> | ->]. }
      unfold fields_result. rewrite El. destruct (IH fs' (f_tag f) lasttag rs ds self1 b1) as (self' & b' & K' & Hx); try done; try lia; rewrite ?Et1, ?(keep_zlen _ _ _ K); try done.
      * destruct (Z.ltb_spec lasttag (f_tag f)), (Z.ltb_spec (prev + 1) (f_tag f)), (Z.ltb_spec lasttag prev); lia.
      * exists self', b'. split; [|done]. eapply keep_trans; [eapply keep_le; [exact K|lia]|done].
  - exists self1, b1. split; [eapply keep_le; [exact K|lia]|]. right. cbn [fields_loop]. rewrite E. rstep. split; [done|].
    destruct oc as [c|]; cbn [field_need] in Hw; [|lia]. unfold needs. cbn. fold (needs fs'). lia.
Qed.

(** The count of the records is put in front and the data are moved up to them. *)
Lemma finish_ok header maxn S rs ds b : 0 <= header -> 0 <= maxn -> progress header (2 + maxn * 2) S rs ds b -> header + (2 + maxn * 2) + S <= zlen b ->
  let w := le_bytes 2 (zlen rs) ++ words rs ++ ds in
  exists b', (b ← blit b header (le_bytes 2 (zlen rs));
    b ← (if negb (zlen rs =? maxn) then d ← slice b (header + (2 + maxn * 2)) (zlen ds); blit b (header + 2 + zlen rs * 2) d else Ok b); Ok b) = Ok b' /\
    keep header b b' /\ has b' header w /\ zlen w = 2 + 2 * zlen rs + zlen ds.
Proof.
  intros Hh Hm [P1 P2 P3 P4] Hb w. pose proof (zlen_nonneg rs). pose proof (zlen_nonneg ds). destruct (blit_has b header (le_bytes 2 (zlen rs))) as (b1 & E1 & K1 & H1 & A1); [done|rewrite zlen_le_bytes; lia|]. rewrite E1. rstep. rewrite zlen_le_bytes in A1.
  assert (has b1 (header + 2) (words rs)) as H2 by (eapply has_after; [exact P1|split; [|reflexivity]; lia|intros k Hk; apply A1; lia]).
  assert (has b1 (header + (2 + maxn * 2)) ds) as H3 by (eapply has_after; [exact P2|split; [|reflexivity]; lia|intros k Hk; apply A1; lia]).
  assert (zlen w = 2 + 2 * zlen rs + zlen ds) as Ew by (unfold w; rewrite !zlen_app, zlen_le_bytes, zlen_words; lia).
  assert (Hw : forall b2, has b2 header (le_bytes 2 (zlen rs)) -> has b2 (header + 2) (words rs) -> has b2 (header + 2 + 2 * zlen rs) ds -> has b2 header w).
  { intros b2 W1 W2 W3. unfold w. apply has_app; [done|]. rewrite zlen_le_bytes. split; [done|]. apply has_app; [lia|]. rewrite zlen_words. by split. }
  destruct (Z.eqb_spec (zlen rs) maxn) as [Eq|Hne]; cbn [negb].
  - exists b1. split; [done|]. split; [done|]. split; [|done]. apply Hw; [done|done|]. by replace (header + 2 + 2 * zlen rs) with (header + (2 + maxn * 2)) by lia.
  - rewrite (has_slice b1 _ ds H3) by (rewrite ?(keep_zlen _ _ _ K1); lia). rstep. destruct (blit_has b1 (header + 2 + zlen rs * 2) ds) as (b2 & E2 & K2 & H4 & _); [lia|rewrite (keep_zlen _ _ _ K1); lia|]. rewrite E2. rstep.
    exists b2. split; [done|]. split; [eapply keep_trans; [exact K1|eapply keep_le; [exact K2|lia]]|]. split; [|done]. apply Hw.
    + eapply has_keep; [exact H1|exact K2|lia|rewrite zlen_le_bytes; lia].
    + eapply has_keep; [exact H2|exact K2|lia|rewrite zlen_words; lia].
    + by replace (header + 2 + 2 * zlen rs) with (header + 2 + zlen rs * 2) by lia.
Qed.

Lemma payload_msg fs : payload (CMsg fs) = le_bytes 2 (zlen (records (-1) (parts fs))) ++ words (records (-1) (parts fs)) ++ datas (parts fs).
Proof. done. Qed.

Lemma sproto_encode_ok lv st t fs header size self b : object_enc lv SPROTO_TSTRUCT -> type_wf T st -> t_maxn st <= M -> h !! e_table self = Some t -> fields_ok eq (item_ok T eq lv h) h (t_f st) t fs ->
  e_array_tag self = None -> e_iter self = LNil -> 0 <= header -> 0 <= size -> header + size <= zlen b -> zlen b < 2 ^ 31 -> roomy (CMsg fs) size ->
  exists r self' b', sproto_encode (encode (S lv)) st header size self b = Ok (r, self', b') /\ object_written b b' header size r (CMsg fs).
Proof.
  intros Hobj Hwf HM' Ht Hfs Etag Ei Hh Hs Hb Hb2 Hn. pose proof (records_room_nonneg (-1) (t_f st)) as Hroom. rewrite <- (tw_maxn _ _ Hwf) in Hroom. pose proof (needs_fs_nonneg fs) as Hnn.
  assert (need M (CMsg fs) = 22 + 2 * M + needs fs) as En by (cbn [need]; fold (needs fs); lia).
  unfold sproto_encode. change SIZEOF_HEADER with 2. change SIZEOF_FIELD with 2. set (hsz := 2 + t_maxn st * 2). destruct (Z.ltb_spec size hsz).
  { eexists _, self, b. split; [done|]. split; [apply keep_refl|]. right. split; [done|lia]. }
  destruct (fields_enc lv Hobj header hsz (size - hsz) t (e_table self) (t_f st) Hh ltac:(lia) Ht fs (-1) (-1) [] [] self b) as (self' & b' & K & Hx); try done; try lia.
  { apply (tw_fields _ _ Hwf). } { apply (tw_tags _ _ Hwf). } { rewrite <- (tw_maxn _ _ Hwf), Z.ltb_irrefl. change (zlen (@nil Z)) with 0. lia. }
  { constructor; [apply has_nil|apply has_nil|change (zlen (@nil Z)) with 0; lia|change (zlen (@nil Z)) with 0; lia]. }
  { intros tag E. by rewrite Etag in E. }
  { destruct Hn as [Hn|Hn]; [left; exact Hn|right]. rewrite En in Hn. change (zlen (@nil Z)) with 0. lia. }
  cbn zeta in Hx. change (zlen (@nil Z)) with 0 in Hx. rewrite Z.add_0_r, Z.sub_0_r in Hx. cbn [app] in Hx. destruct Hx as [(E & Hp & Hd)|[E Hx]]; rewrite E; rstep; [|eexists _, self', b'; split; [done|]; split; [done|]; right; split; [done|lia]].
  set (rs := records (-1) (parts fs)) in *. set (ds := datas (parts fs)) in *. replace (header + hsz + zlen ds - (header + hsz)) with (zlen ds) by lia.
  destruct (finish_ok header (t_maxn st) (size - hsz) rs ds b' Hh Hroom Hp) as (b2 & E2 & K2 & H2 & Ew); [rewrite (keep_zlen _ _ _ K); lia|].
  pose proof (zlen_nonneg rs). pose proof (pg_header _ _ _ _ _ _ Hp). pose proof (pg_room _ _ _ _ _ _ Hp).
  exists (2 + zlen rs * 2 + zlen ds), self', b2. split.
  - destruct (blit b' header (le_bytes 2 (zlen rs))) as [b1| |]; cbn [mbind result_bind] in E2 |- *; try done. unfold hsz.
    destruct (if negb (zlen rs =? t_maxn st) then _ else _) as [b3| |]; cbn [mbind result_bind] in E2 |- *; try done. by injection E2 as ->.
  - split; [by eapply keep_trans|]. left. rewrite payload_msg. fold rs ds. rewrite Ew. split; [lia|]. split; [lia|]. split; [done|]. lia.
Qed.

Lemma encode_struct lv args p self self' b a : select args self = Ok (inr (LTable a), self') -> a_type args = SPROTO_TSTRUCT ->
  encode (S lv) args p self b =
    (st ← deref (a_subtype args ≫= fun i => T !! i);
     '(r, _, b) ← sproto_encode (encode lv) st p (a_length args) (EncodeUd a None None LNil) b;
     Ok (if r <? 0 then SPROTO_CB_ERROR else r, 0, self', b)).
Proof. intros E Ht. cbn [Sproto.encode]. rewrite E. rstep. by rewrite Ht. Qed.

(** So the callback encodes structures, at every depth. *)
Lemma struct_enc (Hwf : schema_wf T) (HM' : Forall (fun st => t_maxn st <= M) T) lv : object_enc lv SPROTO_TSTRUCT.
Proof.
  induction lv as [|lv IH]; intros args self self' v c p b Ht Hi Hs Hp HL Hb Hb2 Hn.
  { destruct v, c; cbn in Hi; try done; try (destruct Hi as [Hi _]; discriminate Hi). by destruct Hi as [_ Hi]. }
  assert (exists a fs, v = LTable a /\ c = CMsg fs /\ exists t i st, h !! a = Some t /\ a_subtype args = Some i /\ T !! i = Some st /\ fields_ok eq (item_ok T eq lv h) h (t_f st) t fs) as (a & fs & -> & -> & t & i & st & Ha & Ei & Est & Hfs).
  { destruct v, c; cbn in Hi; try done; try (destruct Hi as [Hi _]; discriminate Hi). destruct Hi as (_ & Hi). by exists t, fs. }
  rewrite (encode_struct _ _ _ _ _ _ _ Hs Ht), Ei. cbn [mbind option_bind]. rewrite Est. cbn [deref]. rstep.
  destruct (sproto_encode_ok lv st t fs p (a_length args) (EncodeUd a None None LNil) b IH) as (r & self2 & b' & E & K & Hw); try done.
  { by apply (Forall_lookup_1 _ _ _ _ Hwf Est). } { by apply (Forall_lookup_1 _ _ _ _ HM' Est). }
  rewrite E. rstep. eexists _, b'. split; [done|]. split; [done|]. destruct Hw as [(-> & H)|[-> H]]; [|by right]. pose proof (zlen_nonneg (payload (CMsg fs))). destruct (Z.ltb_spec (zlen (payload (CMsg fs))) 0); [lia|]. by left.
Qed.

End encode_ok.

(** ** The whole message *)

Lemma expand_double lua_newuserdata sz : 0 < sz <= ENCODE_MAXSIZE ->
  expand_buffer lua_newuserdata sz (sz * 2) = if ENCODE_MAXSIZE <? sz * 2 then LuaError "object is too large" else Ok (lua_newuserdata (sz * 2)).
Proof.
  intros Hs. unfold ENCODE_MAXSIZE in Hs. unfold expand_buffer. change 32%nat with (Datatypes.S 31). cbn [grow]. unfold assert_, INT_MAX. destruct (Z.leb_spec (sz * 2) 2147483647); [|lia]. rstep. by rewrite Z.ltb_irrefl.
Qed.

(** The largest [maxn] of a schema. *)
Definition largest_maxn (T : list sproto_type) : Z := foldr Z.max 0 (t_maxn <$> T).

Lemma largest_maxn_ok T : 0 <= largest_maxn T /\ Forall (fun st => t_maxn st <= largest_maxn T) T.
Proof.
  unfold largest_maxn. induction T as [|st T [IH1 IH2]]; [by split|]. cbn [fmap list_fmap foldr]. split; [lia|]. constructor; [lia|]. eapply Forall_impl; [exact IH2|]. cbn. lia.
Qed.

Section lencode.
Context (T : list sproto_type) (cvt_integer : lua_value -> option Z) (cvt_string : lua_value -> option (list Z)) (lua_newuserdata : Z -> list Z) (h : heap).
Context (Hwf : schema_wf T) (Hblock : forall n, 0 <= n -> zlen (lua_newuserdata n) = n).
Context (st : sproto_type) (source : nat) (fs : list (Z * content)) (Hst : st ∈ T) (Hcarries : carries T eq 63 h st source fs).
Notation M := (largest_maxn T).

(** The string is the payload, or no buffer that is allowed has the room. *)
Definition lencode_done (x : result (list Z * list Z)) : Prop :=
  (exists buffer, x = Ok (payload (CMsg fs), buffer) /\ zlen (payload (CMsg fs)) <= zlen buffer <= ENCODE_MAXSIZE) \/
  (x = LuaError "object is too large" /\ ENCODE_MAXSIZE < 2 * need M (CMsg fs)).

Lemma lencode_loop_ok fuel : forall b, 0 < zlen b <= ENCODE_MAXSIZE -> 2 ^ 32 <= zlen b * 2 ^ Z.of_nat fuel -> roomy M (CMsg fs) (zlen b) ->
  lencode_done (lencode_loop T cvt_integer cvt_string h lua_newuserdata fuel st source b (zlen b)).
Proof.
  destruct Hcarries as (t & Ht & Hfs). unfold ENCODE_MAXSIZE. induction fuel as [|fuel IH]; intros b Hb Hf Hn; [change (2 ^ Z.of_nat 0) with 1 in Hf; lia|]. cbn [lencode_loop]. change ENCODE_DEEPLEVEL with (Datatypes.S 63).
  destruct (largest_maxn_ok T) as [HM HM']. pose proof Hwf as Hwf'. unfold schema_wf in Hwf'. pose proof HM' as HM2. rewrite Forall_forall in Hwf', HM2.
  destruct (sproto_encode_ok T cvt_integer cvt_string h M HM 63 st t fs 0 (zlen b) (EncodeUd source None None LNil) b) as (r & self & b' & E & K & Hw); try done; try lia.
  { by apply struct_enc. } { by apply Hwf'. } { by apply HM2. }
  rewrite E. rstep. pose proof (keep_zlen _ _ _ K) as Eb. destruct Hw as [(-> & Hr & Hhas & Hnd)|[-> Hr]].
  - pose proof (zlen_nonneg (payload (CMsg fs))). destruct (Z.ltb_spec (zlen (payload (CMsg fs))) 0); [lia|]. rewrite (has_slice b' 0 _ Hhas) by lia. rstep. left. exists b'. split; [done|]. unfold ENCODE_MAXSIZE. lia.
  - cbn [Z.ltb Z.compare]. rewrite expand_double by (unfold ENCODE_MAXSIZE; lia). unfold ENCODE_MAXSIZE. destruct (Z.ltb_spec 16777216 (zlen b * 2)); [right; split; [done|unfold ENCODE_MAXSIZE; lia]|]. rstep.
    assert (zlen (lua_newuserdata (zlen b * 2)) = zlen b * 2) as El by (apply Hblock; lia). set (b2 := lua_newuserdata (zlen b * 2)) in *. clearbody b2. rewrite <- El. apply IH; rewrite ?El; [lia| |destruct Hn; [by left|right; lia]].
    rewrite Nat2Z.inj_succ, Z.pow_succ_r in Hf by lia. lia.
Qed.

(** C21. [lencode] writes the specified bytes: a table that carries a message of a
    type of the schema is encoded as the payload of the message, whatever the
    buffer is at the start, which is doubled as often as it takes; the only error
    is that the message does not surely fit half of the largest buffer. The code
    stays inside its buffer as long as no array of integers has a wide integer
    behind narrow ones, or the buffer has room for everything. *)
Theorem lencode_payload (buffer : list Z) (Hb : 0 < zlen buffer <= ENCODE_MAXSIZE) (Hn : roomy M (CMsg fs) (zlen buffer)) :
  lencode_done (lencode T cvt_integer cvt_string h lua_newuserdata st source buffer).
Proof. unfold lencode. apply lencode_loop_ok; [done| |done]. change (2 ^ Z.of_nat 32) with (2 ^ 32). lia. Qed.

End lencode.

Lemma lencode_payload_witness : lencode_done schema person (lencode schema (fun _ => None) (fun _ => None) people (fun n => replicate (Z.to_nat n) 0) Person 0 (replicate 256 0)).
Proof.
  apply lencode_payload.
  - exact schema_ok.
  - intros n Hn. unfold zlen. rewrite length_replicate. lia.
  - by left.
  - apply person_carries.
  - by vm_compute.
  - right. by vm_compute.
Defined.

(** *** A buffer that is too small *)

(** Four hundred integers of 32 bits and one that is wider: with the buffer of
    the size it has at first the room for the narrow ones is there, but not for
    the wide ones, and the check compares a negative [int] with a [size_t]. *)
Definition many_scores : heap :=
  <[0%nat := [(LString [115], LTable 1)]]> (<[1%nat := imap (fun i z => (LInteger (Z.of_nat i + 1), LInteger z)) (replicate 400 7 ++ [2 ^ 40])]> ∅).

Theorem wide_integer_overflows (cvt_integer : lua_value -> option Z) (cvt_string : lua_value -> option (list Z)) (lua_newuserdata : Z -> list Z) :
  lencode schema cvt_integer cvt_string many_scores lua_newuserdata Person 0 (replicate (Z.to_nat ENCODE_BUFFERSIZE) 0) = Fault.
Proof. by vm_compute. Qed.
