(* ===== verification/SprotoDecode.v ===== *)
(** * Decoding messages (sproto.c, lsproto.c): correctness

    [sproto_decode] with the callback [decode] builds tables that carry the
    contents of a message. *)
From S2P Require Import Prelude SprotoPack Sproto SprotoSchema SprotoEncode.

(** ** Tables *)

Lemma rawget_app t1 t2 k : k ∉ t1.*1 -> rawget (t1 ++ t2) k = rawget t2 k.
Proof.
  induction t1 as [|[k' v] t1 IH]; intros Hk; [done|]. cbn in *. rewrite decide_False by set_solver. apply IH. set_solver.
Qed.

Lemma rawget_none t k : k ∉ t.*1 -> rawget t k = LNil.
Proof. intros Hk. rewrite <- (app_nil_r t). by rewrite rawget_app. Qed.

Lemma rawget_elem t k v : NoDup t.*1 -> (k, v) ∈ t -> rawget t k = v.
Proof.
  intros Hnd Hin. apply list_elem_of_split in Hin as (t1 & t2 & ->). rewrite fmap_app in Hnd. apply NoDup_app in Hnd as (_ & Hnd & _).
  rewrite rawget_app; [cbn; by rewrite decide_True|]. intros Hk. apply (Hnd k Hk). cbn. set_solver.
Qed.

Section tables.
Context (place : table -> lua_value -> nat).
Notation rawset := (Sproto.rawset place).

Lemma rawget_rawset t k v : rawget (rawset t k v) k = v.
Proof.
  unfold Sproto.rawset, has_key. case_bool_decide as Hk.
  - induction t as [|[k' v'] t IH]; [by apply not_elem_of_nil in Hk|]. cbn in *. destruct (decide (k = k')); [done|]. apply IH. set_solver.
  - rewrite rawget_app; [cbn; by rewrite decide_True|]. intros Hin. apply Hk. assert (t.*1 = (take (place t k) t).*1 ++ (drop (place t k) t).*1) as -> by by rewrite <- fmap_app, take_drop. apply elem_of_app. by left.
Qed.

Lemma rawget_rawset_ne t k k' v : k' <> k -> rawget (rawset t k v) k' = rawget t k'.
Proof.
  intros Hne. unfold Sproto.rawset, has_key. case_bool_decide as Hk.
  - clear Hk. induction t as [|[k1 v1] t IH]; [done|]. cbn. destruct (decide (k' = k1)) as [<-|]; [|apply IH]. by rewrite decide_False.
  - transitivity (rawget (take (place t k) t ++ drop (place t k) t) k'); [|by rewrite take_drop]. generalize (take (place t k) t) (drop (place t k) t). intros t1 t2. induction t1 as [|[k1 v1] t1 IH]; cbn; [by rewrite decide_False|]. by rewrite IH.
Qed.

Lemma rawset_new t k v : k ∉ t.*1 -> rawset t k v ≡ₚ (k, v) :: t.
Proof.
  intros Hk. unfold Sproto.rawset, has_key. rewrite bool_decide_false by done. etransitivity; [symmetry; apply Permutation_middle|by rewrite take_drop].
Qed.

Lemma rawset_nodup t k v : NoDup t.*1 -> NoDup (rawset t k v).*1.
Proof.
  intros Hnd. destruct (decide (k ∈ t.*1)) as [Hk|Hk].
  - unfold Sproto.rawset, has_key. rewrite bool_decide_true by done. rewrite <- list_fmap_compose. erewrite list_fmap_ext; [exact Hnd|]. by intros i [k' v'] _.
  - rewrite (rawset_new t k v Hk). cbn. by constructor.
Qed.

End tables.

(** ** Reading *)

(** The message has [w] at position [p]. *)
Definition reads (l : list Z) (p : Z) (w : list Z) : Prop := has l p w /\ 0 <= p /\ p + zlen w <= zlen l.

Lemma reads_app l p w1 w2 : reads l p (w1 ++ w2) <-> reads l p w1 /\ reads l (p + zlen w1) w2.
Proof.
  unfold reads. rewrite zlen_app. pose proof (zlen_nonneg w1). pose proof (zlen_nonneg w2). split.
  - intros (H1 & H2 & H3). apply has_app in H1 as [H1 H4]; [|done]. repeat split; done || lia.
  - intros [(H1 & H2 & H3) (H4 & H5 & H6)]. split; [|lia]. by apply has_app.
Qed.

Lemma reads_slice l p w n : reads l p w -> n = zlen w -> slice l p n = Ok w.
Proof. intros (H1 & H2 & H3) ->. by apply has_slice. Qed.

Lemma lua_pushlstring_ok l p w : reads l p w -> zlen w < 2 ^ 32 -> lua_pushlstring l p (zlen w) = Ok (LString w).
Proof. intros H Hw. unfold lua_pushlstring, sizeof_TString. destruct (Z.leb_spec (2 ^ 63 - 1 - 24) (zlen w)); [lia|]. by rewrite (reads_slice _ _ _ _ H). Qed.

Lemma toword_ok l p v : reads l p (le_bytes 2 v) -> 0 <= v < 0x10000 -> toword l p = Ok v.
Proof. intros H Hv. unfold toword. rewrite (reads_slice _ _ _ _ H) by by rewrite zlen_le_bytes. rstep. rewrite le_val_le_bytes. f_equal. by apply Z.mod_small. Qed.

Lemma todword_ok l p v : reads l p (le_bytes 4 v) -> 0 <= v < 2 ^ 32 -> todword l p = Ok v.
Proof. intros H Hv. unfold todword. rewrite (reads_slice _ _ _ _ H) by by rewrite zlen_le_bytes. rstep. rewrite le_val_le_bytes. f_equal. by apply Z.mod_small. Qed.

Lemma zget_ok l p v : reads l p [v] -> zget l p = Ok v.
Proof. intros (H & Hp & _). apply zget_Some; [done|]. specialize (H 0%nat v eq_refl). by rewrite Nat.add_0_r in H. Qed.

Lemma todword_block l p w : reads l p (block w) -> zlen w < 2 ^ 32 -> todword l p = Ok (zlen w) /\ reads l (p + 4) w.
Proof.
  intros H Hw. unfold block in H. apply reads_app in H as [H1 H2]. rewrite zlen_le_bytes in H2. split; [|done]. apply todword_ok; [done|]. pose proof (zlen_nonneg w). lia.
Qed.

(** ** Integers *)

Lemma expand64_ok z : fits32 z = true -> s64 (expand64 (u32 z)) = z.
Proof.
  intros Hz. unfold expand64. rewrite (sign_bit z Hz). apply fits32_spec in Hz. pose proof (u32_range z) as Hr. unfold is_u32 in Hr. destruct (Z.ltb_spec z 0).
  - rewrite lor_shiftl_add by lia. unfold u32, wrap in *. assert (z mod 2 ^ 32 = z + 2 ^ 32) as -> by (rewrite <- (Z.mod_small (z + 2 ^ 32) (2 ^ 32)), <- (Z_mod_plus_full z 1) by lia; f_equal; lia).
    replace (z + 2 ^ 32 + (2 ^ 32 - 1) * 2 ^ 32) with (z + 2 ^ 64) by lia. unfold s64, swrap. replace (z + 2 ^ 64 + 2 ^ (64 - 1)) with (z + 2 ^ 63 + 1 * 2 ^ 64) by lia. rewrite Z_mod_plus_full, Z.mod_small by lia. lia.
  - rewrite u32_small by (unfold is_u32; lia). apply s64_small. lia.
Qed.

Lemma u64_halves z : Z.lor (le_val (le_bytes 4 (u64 z))) (Z.shiftl (le_val (le_bytes 4 (u64 z / 2 ^ 32))) 32) = u64 z.
Proof.
  pose proof (u64_range z) as Hr. unfold is_u64 in Hr. rewrite !le_val_le_bytes. change (8 * Z.of_nat 4) with 32. rewrite lor_shiftl_add by (try apply Z.mod_pos_bound; lia).
  rewrite (Z.mod_small (u64 z / 2 ^ 32)); [|split; [apply Z.div_pos; lia|apply Z.div_lt_upper_bound; lia]]. pose proof (Z.div_mod (u64 z) (2 ^ 32)). lia.
Qed.

Lemma s64_u64 z : - 2 ^ 63 <= z < 2 ^ 63 -> s64 (u64 z) = z.
Proof. intros Hz. unfold s64, u64. rewrite swrap_wrap by lia. by apply swrap_small. Qed.

(** Eight bytes read as two halves. *)
Lemma halves_ok l p z : reads l p (int_bytes true z) -> (low ← todword l p; hi ← todword l (p + 4); Ok (Z.lor low (Z.shiftl hi 32))) = Ok (u64 z).
Proof.
  intros H. unfold int_bytes in H. change 8%nat with (4 + 4)%nat in H. rewrite (le_bytes_app 4 4) in H. change (8 * Z.of_nat 4) with 32 in H. apply reads_app in H as [H1 H2]. rewrite zlen_le_bytes in H2.
  unfold todword. rewrite (reads_slice _ _ _ _ H1) by by rewrite zlen_le_bytes. rstep. rewrite (reads_slice _ _ _ _ H2) by by rewrite zlen_le_bytes. rstep. by rewrite u64_halves.
Qed.

(** ** Search for a tag *)

Lemma tags_ascend_head last l : tags_ascend last l -> Forall (fun f => last < f_tag f < 0x8000) l.
Proof.
  revert last. induction l as [|f l IH]; intros la H; [constructor|]. destruct H as [H1 H2]. constructor; [done|]. eapply Forall_impl; [by apply IH|]. cbn. lia.
Qed.

Lemma tags_ascend_lt last l i j f g : tags_ascend last l -> l !! i = Some f -> l !! j = Some g -> (i < j)%nat -> f_tag f < f_tag g.
Proof.
  revert last i j. induction l as [|x l IH]; intros la [|i] [|j] H Hi Hj Hij; try done; try lia; destruct H as [_ H]; cbn in *.
  - injection Hi as ->. apply tags_ascend_head in H. apply (Forall_lookup_1 _ _ _ _ H) in Hj. lia.
  - eapply IH; [exact H|done|done|lia].
Qed.

Section bisect.
Context {A : Type} (key : A -> Z) (l : list A) (tag : Z).

(** The keys increase. *)
Definition ascending : Prop := forall i j f g, l !! i = Some f -> l !! j = Some g -> (i < j)%nat -> key f < key g.

Lemma find_spec o : ascending -> (forall f, o = Some f -> f ∈ l /\ key f = tag) -> (o = None -> forall f, f ∈ l -> key f <> tag) -> List.find (fun f => key f =? tag) l = o.
Proof.
  intros Ha Hs Hn. destruct (List.find _ l) as [g|] eqn:E.
  - apply List.find_some in E as [Hg Et]. apply Z.eqb_eq in Et. apply list_elem_of_In in Hg. destruct o as [f|]; [|by destruct (Hn eq_refl g Hg)]. destruct (Hs f eq_refl) as [Hf Ef]. f_equal.
    apply list_elem_of_lookup in Hg as [i Hi]. apply list_elem_of_lookup in Hf as [j Hj]. destruct (Nat.lt_total i j) as [Hij|[->|Hij]]; [|congruence|].
    + pose proof (Ha _ _ _ _ Hi Hj Hij). lia.
    + pose proof (Ha _ _ _ _ Hj Hi Hij). lia.
  - destruct o as [f|]; [|done]. destruct (Hs f eq_refl) as [Hf Ef]. apply list_elem_of_In in Hf. apply (List.find_none _ _ E) in Hf. by rewrite Ef, Z.eqb_refl in Hf.
Qed.

Lemma bisect_find : ascending -> forall fuel begin end_, 0 <= begin <= end_ -> end_ <= zlen l -> end_ - begin < Z.of_nat fuel ->
  (forall i f, l !! i = Some f -> Z.of_nat i < begin -> key f < tag) -> (forall i f, l !! i = Some f -> end_ <= Z.of_nat i -> tag < key f) ->
  bisect key l tag fuel begin end_ = Ok (List.find (fun f => key f =? tag) l).
Proof.
  intros Ha. induction fuel as [|fuel IH]; intros begin end_ Hbe Hen Hf Hlo Hhi; [lia|]. cbn [bisect]. destruct (Z.ltb_spec begin end_).
  - set (mid := (begin + end_) / 2). assert (begin <= mid < end_) as Hmid by (unfold mid; split; [apply Z.div_le_lower_bound; lia|apply Z.div_lt_upper_bound; lia]).
    destruct (zget_in_range l mid) as [f Ef]; [lia|]. rewrite Ef. rstep. apply zget_Ok in Ef as [_ Ef]. destruct (Z.eqb_spec (key f) tag) as [Et|Et].
    + f_equal. symmetry. apply (find_spec (Some f) Ha); [|done]. intros g [= <-]. split; [by eapply list_elem_of_lookup_2|done].
    + destruct (Z.ltb_spec (key f) tag).
      * apply IH; [lia|lia|lia| |done]. intros i g Hi Hlt. destruct (decide (i = Z.to_nat mid)) as [->|]; [rewrite Ef in Hi; by injection Hi as <-|]. pose proof (Ha i (Z.to_nat mid) g f Hi Ef ltac:(lia)). lia.
      * apply IH; [lia|lia|lia|done|]. intros i g Hi Hlt. destruct (decide (i = Z.to_nat mid)) as [->|]; [rewrite Ef in Hi; injection Hi as <-; lia|]. pose proof (Ha (Z.to_nat mid) i f g Ef Hi ltac:(lia)). lia.
  - f_equal. symmetry. apply (find_spec None Ha); [done|]. intros _ f Hin. apply list_elem_of_lookup in Hin as [i Hi]. destruct (Z.lt_ge_cases (Z.of_nat i) begin) as [Hl|Hl]; [specialize (Hlo _ _ Hi Hl); lia|].
    specialize (Hhi _ _ Hi ltac:(lia)). lia.
Qed.

Lemma bisect_all : ascending -> bisect key l tag (S (length l)) 0 (zlen l) = Ok (List.find (fun f => key f =? tag) l).
Proof. intros Ha. apply bisect_find; [done|pose proof (zlen_nonneg l); lia|lia|unfold zlen; lia|lia|]. intros i f Hi Hle. apply lookup_lt_Some in Hi. unfold zlen in *. lia. Qed.

End bisect.

(** The search for the field of a tag, by index when the tags of a type are
    consecutive and else by bisection, is the linear search: it terminates, stays
    inside the array of fields and finds the field exactly when there is one. *)
Lemma findtag_find (T : list sproto_type) (st : sproto_type) (tag : Z) (Hwf : type_wf T st) :
  findtag st tag = Ok (List.find (fun f => f_tag f =? tag) (t_f st)).
Proof.
  destruct Hwf as [Hn Ha' _ Hbase _]. assert (ascending f_tag (t_f st)) as Ha by (intros i j f g; by apply (tags_ascend_lt (-1))). unfold findtag. rewrite Hn. destruct (Z.leb_spec 0 (t_base st)) as [Hb|Hb].
  - specialize (Hbase Hb). assert (Hnone : (tag - t_base st < 0 \/ zlen (t_f st) <= tag - t_base st) -> List.find (fun f => f_tag f =? tag) (t_f st) = None).
    { intros Hout. apply (find_spec f_tag _ tag None Ha); [done|]. intros _ f Hin. apply list_elem_of_lookup in Hin as [i Hi]. rewrite (Hbase _ _ Hi). apply lookup_lt_Some in Hi. unfold zlen in *. lia. }
    destruct (Z.ltb_spec (tag - t_base st) 0); cbn [orb]; [by rewrite Hnone by lia|]. destruct (Z.leb_spec (zlen (t_f st)) (tag - t_base st)); cbn [orb]; [by rewrite Hnone by lia|].
    destruct (zget_in_range (t_f st) (tag - t_base st)) as [f Ef]; [lia|]. rewrite Ef. rstep. apply zget_Ok in Ef as [_ Ef]. f_equal. symmetry. apply (find_spec f_tag _ tag (Some f) Ha); [|done].
    intros g [= <-]. split; [by eapply list_elem_of_lookup_2|]. rewrite (Hbase _ _ Ef). lia.
  - unfold zlen at 1. rewrite Nat2Z.id. by apply bisect_all.
Qed.

(** ** Heaps *)

(** All but table [a] stay. *)
Definition ext (a : nat) (h h' : heap) : Prop := forall x, x <> a -> is_Some (h !! x) -> h' !! x = h !! x.

Lemma ext_trans a h1 h2 h3 : ext a h1 h2 -> ext a h2 h3 -> ext a h1 h3.
Proof. intros H1 H2 x Hx Hs. rewrite H2; [by apply H1|done|]. by rewrite H1. Qed.

Lemma sub_ext a h h' : h ⊆ h' -> ext a h h'.
Proof. intros H x _ [t Ht]. rewrite Ht. by eapply lookup_weaken. Qed.

Lemma ext_insert a h t : ext a h (<[a := t]> h).
Proof. intros x Hx _. by rewrite lookup_insert_ne. Qed.

Lemma diff_lookup (h hb : heap) a t : (h ∖ hb) !! a = Some t <-> h !! a = Some t /\ hb !! a = None.
Proof. apply lookup_difference_Some. Qed.

(** What is new since [hb] stays. *)
Lemma diff_ext a h h' hb : ext a h h' -> is_Some (hb !! a) -> h ∖ hb ⊆ h' ∖ hb.
Proof.
  intros He [ta Ha]. apply map_subseteq_spec. intros x t Hx. apply diff_lookup in Hx as [Hx Hb]. apply diff_lookup. split; [|done]. rewrite He; [done| |by eexists]. intros ->. congruence.
Qed.

(** What is new since [hb'] is new since [hb]. *)
Lemma diff_base (h hb hb' : heap) : (forall x, is_Some (hb !! x) -> is_Some (hb' !! x)) -> h ∖ hb' ⊆ h ∖ hb.
Proof.
  intros Hd. apply map_subseteq_spec. intros x t Hx. apply diff_lookup in Hx as [Hx Hb]. apply diff_lookup. split; [done|]. apply eq_None_not_Some. intros Hs. apply Hd in Hs. rewrite Hb in Hs. by destruct Hs.
Qed.

Lemma ext_dom a h h' x : ext a h h' -> is_Some (h' !! a) -> is_Some (h !! x) -> is_Some (h' !! x).
Proof. intros He Ha Hx. destruct (decide (x = a)) as [->|Hne]; [done|]. by rewrite He. Qed.

(** Tables carry the same in a larger heap. *)
Section mono.
Context (T : list sproto_type) (order : table -> table -> Prop).

Lemma field_ok_mono R R' h h' f v c : (forall ty sub v c, R ty sub v c -> R' ty sub v c) -> h ⊆ h' -> field_ok order R h f v c -> field_ok order R' h' f v c.
Proof.
  intros HR Hh. unfold field_ok. destruct (is_array f); [|apply HR]. intros (a & t & l & -> & Ht & -> & H). exists a, t, l. split; [done|]. split; [by eapply lookup_weaken|]. split; [done|].
  destruct (f_key f <? 0).
  - destruct H as [H1 H2]. split; [|done]. intros i c Hc. by apply HR, H1.
  - destruct H as (H1 & es & H2 & H3). split; [done|]. exists es. split; [done|]. eapply Forall2_impl; [exact H3|]. intros e c [H4 H5]. split; [by apply HR|done].
Qed.

Lemma fields_ok_mono R R' h h' l t fs : (forall ty sub v c, R ty sub v c -> R' ty sub v c) -> h ⊆ h' -> fields_ok order R h l t fs -> fields_ok order R' h' l t fs.
Proof.
  intros HR Hh. revert fs. induction l as [|f l IH]; intros fs H; [done|]. destruct H as [[H1 H2]|(c & fs' & -> & H1 & H2)]; [left; auto|right]. exists c, fs'. split; [done|]. split; [by eapply field_ok_mono|auto].
Qed.

Lemma item_ok_mono lv h h' ty sub v c : h ⊆ h' -> item_ok T order lv h ty sub v c -> item_ok T order lv h' ty sub v c.
Proof.
  revert ty sub v c. induction lv as [|lv IH]; intros ty sub v c Hh H; destruct v, c; try done. destruct H as [-> (t' & i & st & H1 & H2 & H3 & H4)]. split; [done|]. exists t', i, st.
  split; [by eapply lookup_weaken|]. split; [done|]. split; [done|]. eapply fields_ok_mono; [|done|exact H4]. intros. by apply IH.
Qed.

End mono.

(** ** The callback *)

Section decode_ok.
Context (T : list sproto_type) (lua_newtable : heap -> nat) (place : table -> lua_value -> nat) (Hnew : forall h, h !! lua_newtable h = None).
Context (l : list Z) (Hlen : zlen l < 2 ^ 31).
Notation decode := (Sproto.decode T lua_newtable place l).
Notation P := (@Permutation (lua_value * lua_value)).

(** What the callback is given for contents [c]. *)
Definition shows (c : content) (value : decode_value) (len : Z) : Prop :=
  match c with
  | CInt z => exists v, value = Number v /\ s64 v = z
  | CBool b => value = Number (if b then 1 else 0)
  | CStr s => exists p, value = Position p /\ len = zlen s /\ reads l p s
  | CMsg fs => exists p, value = Position p /\ len = zlen (payload c) /\ reads l p (payload c)
  | CArr _ => False
  end.

(** Decoding a structure into an empty table. *)
Definition struct_dec (lv : nat) : Prop := forall st p sub h1 a fs h0 t0, type_wf T st -> NoDup (f_name <$> t_f st) -> fields_ok eq (item_ok T eq lv h0) h0 (t_f st) t0 fs -> reads l p (payload (CMsg fs)) ->
  d_result sub = a -> h1 !! a = Some [] -> d_array_tag sub = None -> d_key sub = LNil ->
  exists sub' h2 t, sproto_decode l (decode (S lv)) st p (zlen (payload (CMsg fs))) (sub, h1) = Ok (zlen (payload (CMsg fs)), (sub', h2)) /\ ext a h1 h2 /\ h2 !! a = Some t /\
    fields_ok P (item_ok T P lv (h2 ∖ h1)) (h2 ∖ h1) (t_f st) t fs /\ (forall x, (d_mainindex_tag sub, x) ∈ fs -> key_value x <> LNil -> d_key sub' = key_value x).

(** A value and where it goes: an item of an array of a map has its key. *)
Definition item_placed (args : sproto_arg) (c : content) (v : lua_value) (self : decode_ud) (h' : heap) (x : result (Z * (decode_ud * heap))) : Prop :=
  (a_mainindex args < 0 -> x = store place args v self h') /\
  (0 <= a_mainindex args -> forall k, keyed (a_mainindex args) k c -> x = (array ← deref (d_array self); h ← set_table place h' array k v; Ok (0, (self, h)))).

Lemma decode_ready lv args value self h : a_index args = 0 \/ d_array_tag self = Some (a_tagid args) ->
  decode (S lv) args value (self, h) =
    if a_type args =? SPROTO_TINTEGER then match value with Number v => store place args (LInteger (s64 v)) self h | _ => Fault end
    else if a_type args =? SPROTO_TBOOLEAN then match value with Number v => store place args (LBoolean (negb (s32 v =? 0))) self h | _ => Fault end
    else if a_type args =? SPROTO_TSTRING then
      match value with Position p => v ← lua_pushlstring l p (u64 (a_length args)); store place args v self h | _ => Fault end
    else if a_type args =? SPROTO_TSTRUCT then
      match value with Position p => decode_struct T lua_newtable place l (decode lv) args p self h | _ => Fault end
    else LuaError "Invalid type".
Proof.
  intros H. cbn [Sproto.decode]. assert (negb (a_index args =? 0) && bool_decide (d_array_tag self <> Some (a_tagid args)) = false) as ->; [|done].
  destruct H as [->|H]; [done|]. rewrite bool_decide_false by tauto. apply andb_false_r.
Qed.

(** The first element of an array makes the table. *)
Lemma decode_start lv args value self h t : 0 < a_index args -> d_array_tag self <> Some (a_tagid args) -> h !! d_result self = Some t ->
  let a := lua_newtable h in
  decode (S lv) args value (self, h) = decode (S lv) args value (set_array (a_tagid args) a self, <[d_result self := rawset place t (LString (a_tagname args)) (LTable a)]> (<[a := []]> h)).
Proof.
  intros Hi Ht Hr a. rewrite (decode_ready lv args value (set_array (a_tagid args) a self)) by by right. cbn [Sproto.decode]. unfold new_table. fold a.
  assert (negb (a_index args =? 0) && bool_decide (d_array_tag self <> Some (a_tagid args)) = true) as -> by (rewrite bool_decide_true by done; destruct (Z.eqb_spec (a_index args) 0); [lia|done]).
  unfold set_table. rewrite lookup_insert_ne by (unfold a; intros E; rewrite <- E, Hnew in Hr; done). rewrite Hr. cbn [deref]. rstep. destruct (Z.ltb_spec (a_index args) 0); [lia|]. done.
Qed.

Lemma item_dec lv ty sub : (forall lv', lv = S lv' -> struct_dec lv') -> schema_wf T -> Forall (fun st => NoDup (f_name <$> t_f st)) T ->
  forall args value self h c v0 h0, a_type args = ty -> a_subtype args = sub -> item_ok T eq lv h0 ty sub v0 c -> shows c value (a_length args) -> a_index args = 0 \/ d_array_tag self = Some (a_tagid args) ->
  exists v h', h ⊆ h' /\ item_ok T P lv (h' ∖ h) ty sub v c /\ (key_value c <> LNil -> v = key_value c) /\ item_placed args c v self h' (decode (S lv) args value (self, h)).
Proof.
  intros Hst Hwf Hnames args value self h c v0 h0 Ety Esub Hi Hs Hr. rewrite decode_ready by done. rewrite Ety.
  assert (Hscalar : forall v, key_value c = v -> v <> LNil -> item_ok T P lv (h ∖ h) ty sub v c -> (forall fs, c <> CMsg fs) -> exists v' h', h ⊆ h' /\ item_ok T P lv (h' ∖ h) ty sub v' c /\ (key_value c <> LNil -> v' = key_value c) /\ item_placed args c v' self h' (store place args v self h)).
  { intros v Ek Hv Hok Hc. exists v, h. split; [done|]. split; [done|]. split; [done|]. split; [done|]. intros _ k (fs & x & -> & _). by destruct (Hc fs). }
  destruct c as [z|b|s|fs|]; [..|by destruct Hs].
  - assert (ty = SPROTO_TINTEGER /\ - 2 ^ 63 <= z < 2 ^ 63) as [-> Hz] by (destruct lv, v0; cbn in Hi; try done; destruct Hi as (-> & -> & Hz); done). destruct Hs as (v & -> & <-).
    cbn [Z.eqb SPROTO_TINTEGER]. apply Hscalar; try done. by destruct lv.
  - assert (ty = SPROTO_TBOOLEAN) as -> by (destruct lv, v0; cbn in Hi; try done; by destruct Hi). cbn in Hs. subst value.
    cbn [Z.eqb Pos.eqb SPROTO_TINTEGER SPROTO_TBOOLEAN]. replace (negb (s32 (if b then 1 else 0) =? 0)) with b by by destruct b. apply Hscalar; try done. by destruct lv.
  - assert (ty = SPROTO_TSTRING /\ bytes s) as [-> Hb] by (destruct lv, v0; cbn in Hi; try done; by destruct Hi as (-> & -> & Hb)). destruct Hs as (p & -> & El & Hp).
    cbn [Z.eqb Pos.eqb SPROTO_TINTEGER SPROTO_TBOOLEAN SPROTO_TSTRING]. pose proof Hp as (_ & Hp1 & Hp2). pose proof (zlen_nonneg s).
    rewrite El, u64_small by (unfold is_u64; lia). rewrite (lua_pushlstring_ok l p s) by (done || lia).
    rstep. apply Hscalar; try done. by destruct lv.
  - destruct Hs as (p & -> & El & Hp). destruct lv as [|lv]; [destruct v0; cbn in Hi; try done; by destruct Hi|]. assert (ty = SPROTO_TSTRUCT /\ exists t i st, sub = Some i /\ T !! i = Some st /\ fields_ok eq (item_ok T eq lv h0) h0 (t_f st) t fs) as [-> (t0 & i & st & Ei & Est & Hfs)].
    { destruct v0; cbn in Hi; try done. destruct Hi as (-> & t' & i & st & _ & ? & ? & ?). split; [done|]. by exists t', i, st. }
    cbn [Z.eqb Pos.eqb SPROTO_TINTEGER SPROTO_TBOOLEAN SPROTO_TSTRING SPROTO_TSTRUCT]. unfold decode_struct, new_table. rewrite Esub, Ei. cbn [mbind option_bind]. rewrite Est. cbn [deref]. rstep.
    set (a := lua_newtable h). set (h1 := <[a := []]> h). set (sb := DecodeUd None None a (if 0 <=? a_mainindex args then a_mainindex args else -1) LNil).
    destruct (Hst lv eq_refl st p sb h1 a fs h0 t0) as (sub' & h2 & t & E & Hext & Ht & Hok & Hkey); try done.
    { by apply (Forall_lookup_1 _ _ _ _ Hwf Est). } { by apply (Forall_lookup_1 _ _ _ _ Hnames Est). } { apply lookup_insert_eq. }
    assert (h !! a = None) as Ha by apply Hnew. assert (h ⊆ h2) as Hsub.
    { apply map_subseteq_spec. intros x tx Hx. assert (x <> a) by congruence. rewrite Hext; [by unfold h1; rewrite lookup_insert_ne by done|done|]. unfold h1. rewrite lookup_insert_ne by done. by eexists. }
    exists (LTable a), h2. split; [done|]. split; [|split; [done|]].
    + split; [done|]. exists t, i, st. split; [by apply diff_lookup|]. split; [done|]. split; [done|].
      assert (h2 ∖ h1 ⊆ h2 ∖ h) as Hd. { apply diff_base. intros x [tx Hx]. unfold h1. destruct (decide (x = a)) as [->|]; [rewrite lookup_insert_eq; by eexists|]. rewrite lookup_insert_ne by done. by eexists. }
      eapply fields_ok_mono; [|exact Hd|exact Hok]. intros. by eapply item_ok_mono.
    + rewrite El. rewrite E. rstep. pose proof (zlen_nonneg (payload (CMsg fs))). destruct (Z.ltb_spec (zlen (payload (CMsg fs))) 0); [lia|]. rewrite Z.eqb_refl. cbn [negb]. unfold item_placed. split; intros Hm.
      * destruct (Z.leb_spec 0 (a_mainindex args)); [lia|done].
      * destruct (Z.leb_spec 0 (a_mainindex args)); [|lia]. intros k (fs' & x & [= <-] & Hin & -> & Hk). rewrite (Hkey x); [|cbn [sb d_mainindex_tag]; destruct (Z.leb_spec 0 (a_mainindex args)); [done|lia]|done]. by rewrite decide_False.
Qed.

(** ** Arrays *)

Section array.
Context (lv : nat) (f : field) (keys : list lua_value) (self0 : decode_ud) (h0 : heap) (t0 : table).
Context (Hst : forall lv', lv = S lv' -> struct_dec lv') (Hwf : schema_wf T) (Hnames : Forall (fun st => NoDup (f_name <$> t_f st)) T).
Context (Hr : h0 !! d_result self0 = Some t0) (Htag : d_array_tag self0 <> Some (f_tag f)) (Hkeys : 0 <= f_key f -> NoDup keys).
Notation arr := (lua_newtable h0).
Notation args := (field_args f (base_type f)).

(** The heap and the state once the array's table is made. *)
Definition heap1 : heap := <[d_result self0 := rawset place t0 (LString (f_name f)) (LTable arr)]> (<[arr := []]> h0).
Definition self1 : decode_ud := set_array (f_tag f) arr self0.

Lemma arr_result : d_result self0 <> arr.
Proof. intros E. rewrite E, Hnew in Hr. done. Qed.

Lemma heap1_arr : heap1 !! arr = Some [].
Proof. unfold heap1. rewrite lookup_insert_ne by apply arr_result. apply lookup_insert_eq. Qed.

(** The table [ta] has the elements [done]. *)
Definition has_elements (H : heap) (ta : table) (dn : list content) : Prop :=
  if f_key f <? 0 then
    (forall i c, dn !! i = Some c -> item_ok T P lv H (base_type f) (f_st f) (rawget ta (LInteger (Z.of_nat i + 1))) c) /\ (forall k, zlen dn < k -> rawget ta (LInteger k) = LNil)
  else
    NoDup ta.*1 /\ exists es, P es ta /\ Forall2 (fun e c => item_ok T P lv H (base_type f) (f_st f) e.2 c /\ keyed (f_key f) e.1 c) es dn /\ es.*1 = take (length dn) keys.

Lemma has_elements_mono H H' ta dn : H ⊆ H' -> has_elements H ta dn -> has_elements H' ta dn.
Proof.
  intros HH. unfold has_elements. destruct (f_key f <? 0).
  - intros [H1 H2]. split; [|done]. intros i c Hc. eapply item_ok_mono; [exact HH|by apply H1].
  - intros (H1 & es & H2 & H3 & H4). split; [done|]. exists es. split; [done|]. split; [|done]. eapply Forall2_impl; [exact H3|]. intros e c [H5 H6]. split; [by eapply item_ok_mono|done].
Qed.

Lemma has_elements_nil H : has_elements H [] [].
Proof. unfold has_elements. destruct (f_key f <? 0); [done|]. split; [constructor|]. exists []. by repeat split. Qed.

(** One more. *)
Lemma has_elements_snoc H ta dn v c : has_elements H ta dn -> item_ok T P lv H (base_type f) (f_st f) v c ->
  (f_key f < 0 -> has_elements H (rawset place ta (LInteger (zlen dn + 1)) v) (dn ++ [c])) /\
  (0 <= f_key f -> forall k, keys !! length dn = Some k -> keyed (f_key f) k c -> has_elements H (rawset place ta k v) (dn ++ [c])).
Proof.
  intros He Hv. unfold has_elements in *. destruct (Z.ltb_spec (f_key f) 0) as [Hk|Hk]; (split; intros Hk'; [|try (exfalso; lia)]); try lia.
  - destruct He as [H1 H2]. split.
    + intros i c' Hc. destruct (decide (i < length dn)%nat) as [Hi|Hi].
      * rewrite lookup_app_l in Hc by done. rewrite rawget_rawset_ne by (unfold zlen; intros [=]; lia). by apply H1.
      * pose proof (lookup_lt_Some _ _ _ Hc) as Hlt. rewrite length_app in Hlt. cbn in Hlt. assert (i = length dn) as -> by lia. rewrite lookup_app_r, Nat.sub_diag in Hc by lia. injection Hc as <-. unfold zlen. by rewrite rawget_rawset.
    + intros k Hlt. rewrite zlen_app in Hlt. change (zlen [c]) with 1 in Hlt. rewrite rawget_rawset_ne by (intros [=]; lia). apply H2. lia.
  - intros k Hkk Hkc. destruct He as (H1 & es & H2 & H3 & H4). split; [by apply rawset_nodup|]. exists (es ++ [(k, v)]). split; [|split].
    + rewrite rawset_new; [rewrite <- H2; symmetry; apply Permutation_cons_append|]. rewrite <- H2, H4. specialize (Hkeys Hk). rewrite <- (take_drop_middle _ _ _ Hkk) in Hkeys. apply NoDup_app in Hkeys as (_ & Hn & _). intros Hin. apply (Hn k Hin). set_solver.
    + apply Forall2_app; [done|]. by repeat constructor.
    + rewrite fmap_app, length_app, H4. cbn [length fmap list_fmap fst]. rewrite Nat.add_1_r. symmetry. by apply take_S_r.
Qed.

(** The state of the callback between the elements. *)
Definition ready (ud : decode_ud * heap) (dn : list content) : Prop :=
  (dn = [] /\ ud = (self0, h0)) \/ exists h ta, ud = (self1, h) /\ h !! arr = Some ta /\ ext arr heap1 h /\ has_elements (h ∖ heap1) ta dn.

Lemma elem_dec ud dn c value len hs v0 : ready ud dn -> item_ok T eq lv hs (base_type f) (f_st f) v0 c -> shows c value len -> (0 <= f_key f -> exists k, keys !! length dn = Some k /\ keyed (f_key f) k c) ->
  exists ud', decode (S lv) (at_value len (zlen dn + 1) args) value ud = Ok (0, ud') /\ exists h ta, ud' = (self1, h) /\ h !! arr = Some ta /\ ext arr heap1 h /\ has_elements (h ∖ heap1) ta (dn ++ [c]).
Proof.
  intros Hrd Hi Hs Hk. pose proof (zlen_nonneg dn) as Hz. set (a := at_value len (zlen dn + 1) args).
  assert (exists h ta, decode (S lv) a value ud = decode (S lv) a value (self1, h) /\ h !! arr = Some ta /\ ext arr heap1 h /\ has_elements (h ∖ heap1) ta dn) as (h & ta & -> & Hta & Hext & Hel).
  { destruct Hrd as [[-> ->]|(h & ta & -> & Hta & Hext & Hel)]; [|by exists h, ta]. exists heap1, []. split; [|split; [apply heap1_arr|split; [by intros x _ _|apply has_elements_nil]]].
    apply (decode_start lv a value self0 h0 t0); [cbn; lia|done|done]. }
  destruct (item_dec lv (base_type f) (f_st f) Hst Hwf Hnames a value self1 h c v0 hs eq_refl eq_refl Hi Hs) as (v & hm & Hsub & Hok & _ & Hpl1 & Hpl2); [by right|].
  assert (hm !! arr = Some ta) as Hta' by (by eapply lookup_weaken). assert (is_Some (heap1 !! arr)) as Hs1 by (exists []; apply heap1_arr).
  assert (Hfin : forall k, has_elements (<[arr := rawset place ta k v]> hm ∖ heap1) (rawset place ta k v) (dn ++ [c]) -> exists h' ta', <[arr := rawset place ta k v]> hm = h' /\ h' !! arr = Some ta' /\ ext arr heap1 h' /\ has_elements (h' ∖ heap1) ta' (dn ++ [c])).
  { intros k Hn. eexists _, (rawset place ta k v). split; [done|]. split; [apply lookup_insert_eq|]. split; [|done]. eapply ext_trans; [exact Hext|]. eapply ext_trans; [by apply sub_ext|apply ext_insert]. }
  assert (Hgrow : forall k, h ∖ heap1 ⊆ <[arr := rawset place ta k v]> hm ∖ heap1).
  { intros k. apply (diff_ext arr); [|done]. eapply ext_trans; [by apply sub_ext|apply ext_insert]. }
  assert (Hitem : forall k, item_ok T P lv (<[arr := rawset place ta k v]> hm ∖ heap1) (base_type f) (f_st f) v c).
  { intros k. eapply item_ok_mono; [|exact Hok]. apply map_subseteq_spec. intros x tx Hx. apply diff_lookup in Hx as [Hx Hxh]. apply diff_lookup. assert (x <> arr) by congruence. split; [by rewrite lookup_insert_ne|].
    apply eq_None_not_Some. intros Hs2. rewrite (Hext x) in Hxh by done. rewrite Hxh in Hs2. by destruct Hs2. }
  destruct (Z.ltb_spec (f_key f) 0) as [Hneg|Hpos].
  - rewrite Hpl1 by done. unfold store. cbn [a at_value a_index]. destruct (Z.ltb_spec 0 (zlen dn + 1)); [|lia]. cbn [self1 set_array d_array deref]. rstep. unfold set_table. rewrite Hta'. cbn [deref]. rstep.
    eexists. split; [done|]. destruct (Hfin (LInteger (zlen dn + 1))) as (h' & ta' & <- & Hfn); [|by eexists _, ta']. apply (proj1 (has_elements_snoc _ ta dn v c (has_elements_mono _ _ _ _ (Hgrow _) Hel) (Hitem _)) Hneg).
  - destruct (Hk Hpos) as (k & Hkk & Hkc). rewrite (Hpl2 Hpos k Hkc). cbn [self1 set_array d_array deref]. rstep. unfold set_table. rewrite Hta'. cbn [deref]. rstep.
    eexists. split; [done|]. destruct (Hfin k) as (h' & ta' & <- & Hfn); [|by eexists _, ta']. apply (proj2 (has_elements_snoc _ ta dn v c (has_elements_mono _ _ _ _ (Hgrow _) Hel) (Hitem _)) Hpos k Hkk Hkc).
Qed.

(** The elements that are left to read. *)
Definition typed (dn rest : list content) : Prop := forall i c, rest !! i = Some c -> (exists hs v0, item_ok T eq lv hs (base_type f) (f_st f) v0 c) /\ (0 <= f_key f -> exists k, keys !! (length dn + i)%nat = Some k /\ keyed (f_key f) k c).

Lemma typed_cons dn c rest : typed dn (c :: rest) -> (exists hs v0, item_ok T eq lv hs (base_type f) (f_st f) v0 c) /\ (0 <= f_key f -> exists k, keys !! length dn = Some k /\ keyed (f_key f) k c) /\ typed (dn ++ [c]) rest.
Proof.
  intros H. split; [by apply (H O)|]. split; [intros Hk; destruct (proj2 (H O c eq_refl) Hk) as (k & E & Hc); exists k; by rewrite Nat.add_0_r in E|].
  intros i c' Hc. rewrite length_app. cbn [length]. replace (length dn + 1 + i)%nat with (length dn + S i)%nat by lia. by apply (H (S i)).
Qed.

Definition finished (ud : decode_ud * heap) (dn : list content) : Prop := exists h ta, ud = (self1, h) /\ h !! arr = Some ta /\ ext arr heap1 h /\ has_elements (h ∖ heap1) ta dn.

Lemma elements_ok read rest : forall dn ud, ready ud dn -> rest <> [] \/ finished ud dn -> typed dn rest ->
  (forall i c, rest !! i = Some c -> exists v, read (zlen dn + Z.of_nat i) = Ok v /\ shows c (Number v) 8) ->
  exists ud', elements_loop (decode (S lv)) (length rest) read args (zlen dn) ud = Ok ud' /\ finished ud' (dn ++ rest).
Proof.
  induction rest as [|c rest IH]; intros dn ud Hrd Hf Ht Hread; cbn [elements_loop length].
  - exists ud. split; [done|]. rewrite app_nil_r. by destruct Hf.
  - apply typed_cons in Ht as ((hs & v0 & Hc) & Hk & Ht). destruct (Hread O c eq_refl) as (v & E & Hs). rewrite Z.add_0_r in E. rewrite E. rstep.
    destruct (elem_dec ud dn c (Number v) 8 hs v0 Hrd Hc Hs Hk) as (ud' & -> & Hud). rstep. assert (zlen (dn ++ [c]) = zlen dn + 1) as Ez by by rewrite zlen_app. rewrite <- Ez.
    destruct (IH (dn ++ [c]) ud') as (ud2 & E2 & Hf2); [by right|by right|done| |exists ud2; split; [done|by rewrite <- app_assoc in Hf2]].
    intros i c' Hc'. destruct (Hread (S i) c' Hc') as (v' & E' & Hs'). exists v'. split; [|done]. rewrite Ez. by replace (zlen dn + 1 + Z.of_nat i) with (zlen dn + Z.of_nat (S i)) by lia.
Qed.

Lemma objects_dec rest : base_type f = SPROTO_TSTRING \/ base_type f = SPROTO_TSTRUCT -> forall fuel dn stream ud, ready ud dn -> rest <> [] \/ finished ud dn -> typed dn rest ->
  let w := concat (map (fun c => block (payload c)) rest) in reads l stream w -> zlen w < Z.of_nat fuel ->
  exists ud', array_object_loop l (decode (S lv)) fuel args stream (zlen w) (zlen dn + 1) ud = Ok (0, ud') /\ finished ud' (dn ++ rest).
Proof.
  intros Hty. induction rest as [|c rest IH]; intros fuel dn stream ud Hrd Hf Ht w Hw Hfuel; (destruct fuel as [|fuel]; [pose proof (zlen_nonneg w); lia|]); cbn [array_object_loop].
  - exists ud. split; [done|]. rewrite app_nil_r. by destruct Hf.
  - apply typed_cons in Ht as ((hs & v0 & Hc) & Hk & Ht). unfold w in *. cbn [map concat] in *. set (w' := concat (map (fun c => block (payload c)) rest)) in *. apply reads_app in Hw as [Hw1 Hw2]. rewrite zlen_block in Hw2. rewrite zlen_app, zlen_block in *.
    pose proof (zlen_nonneg (payload c)). pose proof (zlen_nonneg w'). pose proof Hw1 as (_ & Hs0 & _). pose proof Hw2 as (_ & _ & Hw4). destruct (todword_block l stream (payload c) Hw1) as [E1 Hp]; [lia|].
    destruct (Z.ltb_spec 0 (4 + zlen (payload c) + zlen w')); [|lia]. change SIZEOF_LENGTH with 4. destruct (Z.ltb_spec (4 + zlen (payload c) + zlen w') 4); [lia|]. rewrite E1. rstep.
    rewrite u32_small by (unfold is_u32; lia). destruct (Z.ltb_spec (4 + zlen (payload c) + zlen w' - 4) (zlen (payload c))); [lia|]. rewrite !s32_small by lia.
    assert (shows c (Position (stream + 4)) (zlen (payload c))) as Hs.
    { destruct c; cbn [shows]; [..|exfalso]; [| |by exists (stream + 4)..|]; exfalso; destruct lv, v0; cbn in Hc; try done; destruct Hc as [Hc _]; rewrite Hc in Hty; by destruct Hty. }
    destruct (elem_dec ud dn c (Position (stream + 4)) (zlen (payload c)) hs v0 Hrd Hc Hs Hk) as (ud' & -> & Hud). rstep. cbn [Z.eqb negb].
    replace (4 + zlen (payload c) + zlen w' - 4 - zlen (payload c)) with (zlen w') by lia. assert (zlen (dn ++ [c]) = zlen dn + 1) as Ez by by rewrite zlen_app. rewrite <- Ez.
    destruct (IH fuel (dn ++ [c]) (stream + 4 + zlen (payload c)) ud') as (ud2 & E2 & Hf2); [by right|by right|done| |lia|exists ud2; split; [done|by rewrite <- app_assoc in Hf2]].
    by replace (stream + 4 + zlen (payload c)) with (stream + (4 + zlen (payload c))) by lia.
Qed.

(** No element: the table is made all the same. *)
Lemma empty_dec : decode (S lv) (at_value 0 (-1) args) NoValue (self0, h0) = Ok (0, (self1, heap1)) /\ finished (self1, heap1) [].
Proof.
  split; [|exists heap1, []; split; [done|split; [apply heap1_arr|split; [by intros x _ _|apply has_elements_nil]]]].
  cbn [Sproto.decode at_value a_index a_tagid a_tagname field_args]. rewrite bool_decide_true by done. cbn [Z.eqb negb andb]. unfold new_table, set_table.
  rewrite lookup_insert_ne by (intros E; apply arr_result; by rewrite E). rewrite Hr. cbn [deref]. rstep. done.
Qed.

Lemma ints_at wide zs i z p : reads l p (concat (int_bytes wide <$> zs)) -> zs !! i = Some z -> reads l (p + (if wide then 8 else 4) * Z.of_nat i) (int_bytes wide z).
Proof.
  intros H Hi. rewrite <- (take_drop_middle _ _ _ Hi), fmap_app, concat_app in H. cbn [fmap list_fmap concat] in H. apply reads_app in H as [_ H]. rewrite zlen_ints in H. apply reads_app in H as [H _].
  unfold zlen in H. rewrite length_take, Nat.min_l in H by (apply lookup_lt_Some in Hi; lia). done.
Qed.

Lemma bytes_at w i x p : reads l p w -> w !! i = Some x -> reads l (p + Z.of_nat i) [x].
Proof.
  intros H Hi. rewrite <- (take_drop_middle _ _ _ Hi) in H. apply reads_app in H as [_ H]. apply (reads_app _ _ [x]) in H as [H _].
  unfold zlen in H. rewrite length_take, Nat.min_l in H by (apply lookup_lt_Some in Hi; lia). done.
Qed.

Lemma typed_int rest dn : base_type f = SPROTO_TINTEGER -> typed dn rest -> exists zs, rest = CInt <$> zs /\ Forall (fun z => - 2 ^ 63 <= z < 2 ^ 63) zs.
Proof.
  intros Hty. revert dn. induction rest as [|c rest IH]; intros dn H; [by exists []|]. apply typed_cons in H as ((hs & v0 & Hc) & _ & H). destruct (IH _ H) as (zs & -> & Hz). rewrite Hty in Hc.
  destruct (items_int T hs lv (f_st f) [v0] [c]) as (zs' & _ & E & Hz'); [by repeat constructor|]. destruct zs' as [|z [|? ?]]; try done. injection E as ->. exists (z :: zs). split; [done|]. apply Forall_cons in Hz' as [? _]. by constructor.
Qed.

Lemma typed_bool rest dn : base_type f = SPROTO_TBOOLEAN -> typed dn rest -> exists bs, rest = CBool <$> bs.
Proof.
  intros Hty. revert dn. induction rest as [|c rest IH]; intros dn H; [by exists []|]. apply typed_cons in H as ((hs & v0 & Hc) & _ & H). destruct (IH _ H) as (bs & ->). rewrite Hty in Hc.
  destruct (items_bool T hs lv (f_st f) [v0] [c]) as (bs' & _ & E); [by repeat constructor|]. destruct bs' as [|b [|? ?]]; try done. injection E as ->. by exists (b :: bs).
Qed.

Lemma typed_obj c rest dn : base_type f = SPROTO_TSTRING \/ base_type f = SPROTO_TSTRUCT -> typed dn (c :: rest) -> payload (CArr (c :: rest)) = concat (map (fun c => block (payload c)) (c :: rest)).
Proof.
  intros Hty H. apply typed_cons in H as ((hs & v0 & Hc) & _). destruct c; try done; exfalso; destruct lv, v0; cbn in Hc; try done; destruct Hc as [Hc _]; rewrite Hc in Hty; by destruct Hty.
Qed.

(** The three cases of [decode_array], behind its length. *)
Definition array_decoded (p : Z) (c : content) (cs : list content) : Prop :=
  typed [] (c :: cs) -> reads l p (payload (CArr (c :: cs))) ->
  exists ud', (if zlen (payload (CArr (c :: cs))) =? 0 then '(_, ud) ← decode (S lv) (at_value 0 (-1) args) NoValue (self0, h0); Ok (0, ud)
    else decode_elements l (decode (S lv)) args p (zlen (payload (CArr (c :: cs)))) (self0, h0)) = Ok (0, ud') /\ finished ud' (c :: cs).

Lemma integers_dec p c cs : base_type f = SPROTO_TINTEGER -> array_decoded p c cs.
Proof.
  intros Ety Ht Hp. destruct (typed_int _ _ Ety Ht) as (zs & Ezs & Hz). rewrite Ezs in *. rewrite item_payload_int in *. destruct zs as [|z zs]; [done|]. set (zs' := z :: zs) in *. unfold int_array in *. set (wide := negb (forallb fits32 zs')) in *.
  set (wd := if wide then 8 else 4) in *. assert (wd = 4 \/ wd = 8) as Hwd by (unfold wd; destruct wide; auto). pose proof (zlen_nonneg zs') as Hn. pose proof Hp as (_ & Hp0 & Hp1).
  change (wd :: concat (int_bytes wide <$> zs')) with ([wd] ++ concat (int_bytes wide <$> zs')) in *. apply reads_app in Hp as [H1 H2]. change (zlen [wd]) with 1 in H2. rewrite zlen_app in *. change (zlen [wd]) with 1 in *. rewrite zlen_ints in *. fold wd in Hp1 |- *.
  destruct (Z.eqb_spec (1 + wd * zlen zs') 0); [lia|]. unfold decode_elements. cbn [a_type field_args]. replace (base_type f =? SPROTO_TINTEGER) with true by by rewrite Ety. rewrite (zget_ok _ _ _ H1). rstep. replace (1 + wd * zlen zs' - 1) with (wd * zlen zs') by lia.
  assert (Hgo : forall read, (forall i z, zs' !! i = Some z -> exists v, read (Z.of_nat i) = Ok v /\ s64 v = z) -> exists ud', (ud ← elements_loop (decode (S lv)) (Z.to_nat (zlen zs')) read args 0 (self0, h0); Ok (0, ud)) = Ok (0, ud') /\ finished ud' (CInt <$> zs')).
  { intros read Hread. destruct (elements_ok read (CInt <$> zs') [] (self0, h0)) as (ud' & E & Hf); [by left|by left|done| |].
    { intros i x Hx. apply list_lookup_fmap_Some in Hx as (z' & -> & Hx). destruct (Hread i z' Hx) as (v & Ev & Es). exists v. change (zlen (@nil content)) with 0. split; [done|]. by exists v. }
    rewrite length_fmap in E. change (zlen (@nil content)) with 0 in E. replace (Z.to_nat (zlen zs')) with (length zs') by (unfold zlen; lia). rewrite E. rstep. by exists ud'. }
  destruct wide eqn:Ew; cbn [Z.eqb Pos.eqb wd].
  - rewrite Z.mul_comm, Z.mod_mul, Z.div_mul by lia. cbn [Z.eqb negb]. apply Hgo. intros i z' Hi. pose proof (ints_at _ _ _ _ _ H2 Hi) as H3. cbv iota in H3. rewrite Z.mul_comm in H3. rewrite (halves_ok _ _ _ H3). exists (u64 z'). split; [done|]. apply s64_u64. by apply (Forall_lookup_1 _ _ _ _ Hz Hi).
  - rewrite Z.mul_comm, Z.mod_mul, Z.div_mul by lia. cbn [Z.eqb negb]. apply Hgo. intros i z' Hi. pose proof (ints_at _ _ _ _ _ H2 Hi) as H3. cbv iota in H3. rewrite Z.mul_comm in H3. unfold int_bytes in H3. rewrite (todword_ok _ _ _ H3) by apply u32_range. rstep.
    eexists. split; [done|]. apply expand64_ok. apply negb_false_iff in Ew. rewrite forallb_forall in Ew. apply Ew. apply list_elem_of_In. by eapply list_elem_of_lookup_2.
Qed.

Lemma booleans_dec p c cs : base_type f = SPROTO_TBOOLEAN -> array_decoded p c cs.
Proof.
  intros Ety Ht Hp. destruct (typed_bool _ _ Ety Ht) as (bs & Ebs). rewrite Ebs in *. rewrite item_payload_bool in *. assert (zlen ((fun v : bool => if v then 1 else 0) <$> bs) = zlen bs) as Ez by (unfold zlen; by rewrite length_fmap). rewrite Ez.
  destruct bs as [|b bs]; [done|]. set (bs' := b :: bs) in *. assert (0 < zlen bs') as Hn by (unfold bs'; rewrite zlen_cons; pose proof (zlen_nonneg bs); lia). destruct (Z.eqb_spec (zlen bs') 0); [lia|]. unfold decode_elements. cbn [a_type field_args]. replace (base_type f =? SPROTO_TINTEGER) with false by by rewrite Ety. replace (base_type f =? SPROTO_TBOOLEAN) with true by by rewrite Ety.
  destruct (elements_ok (fun i => zget l (p + i)) (CBool <$> bs') [] (self0, h0)) as (ud' & E & Hf); [by left|by left|done| |].
  { intros i x Hx. apply list_lookup_fmap_Some in Hx as (v & -> & Hx). exists (if v then 1 else 0). split; [|done]. change (zlen (@nil content)) with 0. apply zget_ok. apply (bytes_at _ i _ _ Hp). by rewrite list_lookup_fmap, Hx. }
  rewrite length_fmap in E. change (zlen (@nil content)) with 0 in E. replace (Z.to_nat (zlen bs')) with (length bs') by (unfold zlen; lia). rewrite E. rstep. by exists ud'.
Qed.

Lemma objects_array_dec p c cs : base_type f = SPROTO_TSTRING \/ base_type f = SPROTO_TSTRUCT -> array_decoded p c cs.
Proof.
  intros Ety Ht Hp. rewrite (typed_obj c cs [] Ety Ht) in *. set (w := concat (map (fun c => block (payload c)) (c :: cs))) in *. pose proof Hp as (_ & Hp0 & Hp1). pose proof (zlen_nonneg w) as Hn.
  assert (0 < zlen w) as Hpos. { unfold w. cbn [map concat]. rewrite zlen_app, zlen_block. pose proof (zlen_nonneg (payload c)). pose proof (zlen_nonneg (concat (map (fun c => block (payload c)) cs))). lia. }
  destruct (Z.eqb_spec (zlen w) 0); [lia|]. unfold decode_elements, decode_array_object. cbn [a_type field_args].
  assert (base_type f =? SPROTO_TINTEGER = false) as -> by (destruct Ety as [-> | ->]; done). assert (base_type f =? SPROTO_TBOOLEAN = false) as -> by (destruct Ety as [-> | ->]; done).
  assert ((base_type f =? SPROTO_TSTRING) || (base_type f =? SPROTO_TSTRUCT) = true) as -> by (destruct Ety as [-> | ->]; done). rewrite s32_small by lia.
  destruct (objects_dec (c :: cs) Ety (S (Z.to_nat (zlen w))) [] p (self0, h0)) as (ud' & E & Hf); [by left|by left|done|done|fold w; lia|]. fold w in E. change (zlen (@nil content)) with 0 in E. change (0 + 1) with 1 in E. rewrite E. by exists ud'.
Qed.

Lemma array_dec cs p : scalar_type (base_type f) \/ base_type f = SPROTO_TSTRUCT -> typed [] cs -> reads l p (block (payload (CArr cs))) ->
  exists ud', decode_array l (decode (S lv)) args p (self0, h0) = Ok (0, ud') /\ finished ud' cs.
Proof.
  intros Hty Ht Hp. pose proof Hp as (_ & Hp0 & Hp1). rewrite zlen_block in Hp1. unfold decode_array. destruct (todword_block l p _ Hp) as [-> Hw]; [lia|]. rstep.
  destruct cs as [|c cs]; [cbn [payload]; change (zlen (@nil Z) =? 0) with true; cbv iota; destruct empty_dec as [E Hf]; rewrite E; rstep; by exists (self1, heap1)|].
  assert (ready (self0, h0) []) as Hrd by by left. change SIZEOF_LENGTH with 4. cbn [a_type field_args].
  destruct Hty as [[Ety|[Ety|Ety]]|Ety].
  - by apply integers_dec.
  - by apply booleans_dec.
  - apply objects_array_dec; auto.
  - apply objects_array_dec; auto.
Qed.


End array.

(** ** Fields *)

(** The array of a field as the contents of the message it was read from. *)
Lemma field_typed lv f v0 hs cs : field_ok eq (item_ok T eq lv hs) hs f v0 (CArr cs) -> is_array f = true -> exists keys, (0 <= f_key f -> NoDup keys) /\ typed lv f keys [] cs /\ (0 <= f_key f -> keys = take (length cs) keys).
Proof.
  intros H Ha. unfold field_ok in H. rewrite Ha in H. destruct H as (a & t & l' & _ & _ & [= <-] & H). destruct (Z.ltb_spec (f_key f) 0) as [Hk|Hk].
  - exists []. split; [lia|]. split; [|lia]. intros i c Hc. destruct H as [H _]. split; [|lia]. eexists hs, _. by apply H.
  - destruct H as (Hnd & es & -> & Hes). exists t.*1. split; [done|]. split; [|intros _; rewrite take_ge; [done|rewrite length_fmap, (Forall2_length _ _ _ Hes); done]].
    intros i c Hc. destruct (Forall2_lookup_r _ _ _ _ _ Hes Hc) as (e & He & H1 & H2). split; [by exists hs, e.2|]. intros _. exists e.1. split; [|done]. cbn [length Nat.add]. by rewrite list_lookup_fmap, He.
Qed.

Lemma finished_field lv f keys self h0 t0 ud cs : is_array f = true -> h0 !! d_result self = Some t0 -> finished lv f keys self h0 t0 ud cs ->
  exists h', ud = (set_array (f_tag f) (lua_newtable h0) self, h') /\ ext (d_result self) h0 h' /\ h' !! d_result self = Some (rawset place t0 (LString (f_name f)) (LTable (lua_newtable h0))) /\
    field_ok P (item_ok T P lv (h' ∖ h0)) (h' ∖ h0) f (LTable (lua_newtable h0)) (CArr cs).
Proof.
  intros Ha Hr (h' & ta & -> & Hta & Hext & Hel). exists h'. split; [done|]. assert (d_result self <> lua_newtable h0) as Hne by (intros E; rewrite E, Hnew in Hr; done).
  assert (forall x, x <> d_result self -> is_Some (h0 !! x) -> x <> lua_newtable h0) as Hold by (intros x _ [tx Hx] ->; rewrite Hnew in Hx; done).
  split; [|split].
  - intros x Hx Hs. pose proof (Hold x Hx Hs). rewrite Hext; [|done|]; unfold heap1; rewrite !lookup_insert_ne by done; done.
  - rewrite Hext; [unfold heap1; by rewrite lookup_insert_eq|done|]. unfold heap1. rewrite lookup_insert_eq. by eexists.
  - unfold field_ok. rewrite Ha. exists (lua_newtable h0), ta, cs. split; [done|]. split; [apply diff_lookup; split; [done|apply Hnew]|]. split; [done|].
    assert (h' ∖ heap1 f self h0 t0 ⊆ h' ∖ h0) as Hd.
    { apply diff_base. intros x [tx Hx]. unfold heap1. destruct (decide (x = d_result self)) as [->|]; [rewrite lookup_insert_eq; by eexists|]. rewrite lookup_insert_ne by done. destruct (decide (x = lua_newtable h0)) as [->|]; [rewrite lookup_insert_eq; by eexists|].
      rewrite lookup_insert_ne by done. by eexists. }
    apply (has_elements_mono lv f keys _ _ _ _ Hd) in Hel. unfold has_elements in Hel. destruct (f_key f <? 0).
    + destruct Hel as [H1 H2]. split; [done|]. apply H2. lia.
    + destruct Hel as (H1 & es & H2 & H3 & _). split; [done|]. by exists es.
Qed.

(** What decoding a field does. *)
Definition field_decoded (lv : nat) (f : field) (c : content) (self : decode_ud) (h : heap) (t : table) (x : result (Z * (decode_ud * heap))) : Prop :=
  exists self' h' v, x = Ok (0, (self', h')) /\ ext (d_result self) h h' /\ h' !! d_result self = Some (rawset place t (LString (f_name f)) v) /\
    field_ok P (item_ok T P lv (h' ∖ h)) (h' ∖ h) f v c /\ d_result self' = d_result self /\ d_mainindex_tag self' = d_mainindex_tag self /\
    (d_array_tag self' = d_array_tag self \/ d_array_tag self' = Some (f_tag f)) /\
    (d_mainindex_tag self <> f_tag f -> d_key self' = d_key self) /\ (d_mainindex_tag self = f_tag f -> key_value c <> LNil -> d_key self' = key_value c).

Section fields.
Context (lv : nat) (Hst : forall lv', lv = S lv' -> struct_dec lv') (Hwf : schema_wf T) (Hnames : Forall (fun st => NoDup (f_name <$> t_f st)) T).

Lemma item_field f c self h t hs v0 value len : is_array f = false -> f_key f < 0 -> h !! d_result self = Some t -> item_ok T eq lv hs (f_type f) (f_st f) v0 c -> shows c value len ->
  field_decoded lv f c self h t (decode (S lv) (at_value len 0 (field_args f (f_type f))) value (self, h)).
Proof.
  intros Ha Hk Hr Hi Hs. destruct (item_dec lv (f_type f) (f_st f) Hst Hwf Hnames (at_value len 0 (field_args f (f_type f))) value self h c v0 hs) as (v & hm & Hsub & Hok & Hkey & Hpl & _); try done; [by left|].
  rewrite Hpl by done. unfold store. cbn [at_value field_args a_index a_tagid a_tagname Z.ltb Z.compare]. set (self' := if d_mainindex_tag self =? f_tag f then set_key v self else self).
  assert (d_result self' = d_result self) as Er by (unfold self'; by destruct (_ =? _)). unfold set_table. rewrite Er. assert (hm !! d_result self = Some t) as Ht by by eapply lookup_weaken. rewrite Ht. cbn [deref]. rstep.
  eexists self', _, v. split; [done|]. split; [eapply ext_trans; [by apply sub_ext|apply ext_insert]|]. split; [apply lookup_insert_eq|]. split.
  - unfold field_ok. rewrite Ha. eapply item_ok_mono; [|exact Hok]. apply map_subseteq_spec. intros x tx Hx. apply diff_lookup in Hx as [Hx Hxh]. apply diff_lookup. split; [|done]. rewrite lookup_insert_ne; [done|congruence].
  - split; [done|]. unfold self'. destruct (Z.eqb_spec (d_mainindex_tag self) (f_tag f)); cbn [set_key d_mainindex_tag d_array_tag d_key]; (split; [done|]; split; [by left|]; split; [done|]); [intros _ Hc; by apply Hkey|done].
Qed.

Lemma inline_shows c v : inline c = Some v -> (forall z, c = CInt z -> - 2 ^ 63 <= z < 2 ^ 63) -> 0 <= v / 2 - 1 /\ 0 < v < 0x10000 /\ Z.even v = true /\ shows c (Number (v / 2 - 1)) 8.
Proof.
  intros H Hz. destruct c as [z|b| | |]; try done; cbn [inline shows] in *.
  - destruct (fits32 z) eqn:Ef; [|done]. cbn [andb] in H. destruct (Z.ltb_spec (u32 z) 0x7fff) as [Hs|]; [|done]. injection H as <-. pose proof (u32_range z) as Hr. unfold is_u32 in Hr. rewrite Z.div_mul by lia.
    split; [lia|]. split; [lia|]. split; [rewrite Z.even_mul; apply orb_true_r|]. exists (u32 z + 1 - 1). split; [done|]. replace (u32 z + 1 - 1) with (u32 z) by lia.
    assert (u32 z = z) as ->; [|apply s64_small; apply fits32_spec in Ef; lia]. apply fits32_spec in Ef. unfold u32, wrap in *. destruct (Z.lt_ge_cases z 0); [|apply Z.mod_small; lia].
    rewrite <- (Z_mod_plus_full z 1), Z.mod_small in Hs by lia. lia.
  - injection H as <-. destruct b; (split; [by vm_compute|split; [split; by vm_compute|split; by vm_compute]]).
Qed.

(** A field in its record or with its data at [p]. *)
Lemma field_dec f c self h t hs v0 p : field_wf T f -> field_ok eq (item_ok T eq lv hs) hs f v0 c -> h !! d_result self = Some t -> d_array_tag self <> Some (f_tag f) -> reads l p (field_data (inline c) (payload c)) ->
  field_decoded lv f c self h t (decode_field l (decode (S lv)) f (default 0 (inline c) / 2 - 1) p (self, h)).
Proof.
  intros Hfw Hok Hr Ht Hp. unfold decode_field. destruct (is_array f) eqn:Ha.
  - assert (exists cs, c = CArr cs) as [cs ->] by (unfold field_ok in Hok; rewrite Ha in Hok; destruct Hok as (? & ? & cs & _ & _ & -> & _); by exists cs). cbn [inline default from_option id field_data] in *. change (0 / 2 - 1) with (-1). cbn [Z.ltb Z.compare].
    destruct (field_typed lv f v0 hs cs Hok Ha) as (keys & Hnd & Hty & _). destruct (array_dec lv f keys self h t Hst Hwf Hnames Hr Ht Hnd cs p (fw_type _ _ Hfw) Hty Hp) as (ud' & E & Hf). rewrite E. rstep. cbn [Z.eqb negb].
    destruct (finished_field lv f keys self h t ud' cs Ha Hr Hf) as (h' & -> & Hext & Hr' & Hok'). eexists _, h', _. split; [done|]. split; [done|]. split; [done|]. split; [done|]. cbn. split; [done|]. split; [done|]. split; [by right|]. split; [done|]. by intros _ [].
  - assert (f_key f < 0) as Hk by (destruct (Z.lt_ge_cases (f_key f) 0) as [|Hk]; [done|]; destruct (fw_key _ _ Hfw Hk) as [E _]; congruence).
    unfold field_ok in Hok. rewrite Ha in Hok. pose proof (base_nonarray f Ha (fw_range _ _ Hfw)) as Eb. rewrite Eb. pose proof (fw_type _ _ Hfw) as Hty. rewrite Eb in Hty.
    destruct (inline c) as [v|] eqn:Ein; cbn [default from_option id field_data] in *.
    + destruct (inline_shows c v Ein) as (Hv & _ & _ & Hs).
      { intros z ->. destruct lv, v0; cbn in Hok; try done; by destruct Hok as (_ & -> & ?). }
      destruct (Z.ltb_spec (v / 2 - 1) 0); [lia|]. assert (f_type f = SPROTO_TINTEGER \/ f_type f = SPROTO_TBOOLEAN) as Hnum. { destruct c; try done; destruct lv, v0; cbn in Hok; try done; destruct Hok as [-> _]; auto. }
      assert (negb (f_type f =? SPROTO_TINTEGER) && negb (f_type f =? SPROTO_TBOOLEAN) = false) as -> by (destruct Hnum as [-> | ->]; done).
      destruct (item_field f c self h t hs v0 (Number (v / 2 - 1)) 8 Ha Hk Hr Hok Hs) as (self' & h' & v' & E & H'). rewrite E. rstep. by exists self', h', v'.
    + change (0 / 2 - 1) with (-1). cbn [Z.ltb Z.compare]. pose proof Hp as (_ & Hp0 & Hp1). rewrite zlen_block in Hp1. destruct (todword_block l p _ Hp) as [Esz Hw]; [lia|]. pose proof (zlen_nonneg (payload c)). change SIZEOF_LENGTH with 4.
      assert (Hobj : f_type f = SPROTO_TSTRING \/ f_type f = SPROTO_TSTRUCT -> field_decoded lv f c self h t
        (if f_type f =? SPROTO_TINTEGER then Fault else if (f_type f =? SPROTO_TSTRING) || (f_type f =? SPROTO_TSTRUCT) then
          sz ← todword l p; '(r, ud) ← decode (S lv) (at_value (s32 sz) 0 (field_args f (f_type f))) (Position (p + 4)) (self, h); Ok (if negb (r =? 0) then -1 else 0, ud) else Ok (-1, (self, h)))).
      { intros Ho. replace (f_type f =? SPROTO_TINTEGER) with false by (destruct Ho as [-> | ->]; done). replace ((f_type f =? SPROTO_TSTRING) || (f_type f =? SPROTO_TSTRUCT)) with true by (destruct Ho as [-> | ->]; done).
        rewrite Esz. rstep. rewrite s32_small by lia. destruct (item_field f c self h t hs v0 (Position (p + 4)) (zlen (payload c)) Ha Hk Hr Hok) as (self' & h' & v' & E & H'); [|rewrite E; rstep; by exists self', h', v'].
        destruct c; cbn [shows]; try (by exists (p + 4)); exfalso; destruct lv, v0; cbn in Hok; try done; destruct Hok as [Hok _]; rewrite Hok in Ho; by destruct Ho. }
      destruct Hty as [[Ety|[Ety|Ety]]|Ety].
      * replace (f_type f =? SPROTO_TINTEGER) with true by by rewrite Ety. assert (exists z, c = CInt z /\ - 2 ^ 63 <= z < 2 ^ 63) as (z & -> & Hz).
        { rewrite Ety in Hok. destruct lv, v0, c; cbn in Hok; try done; try (destruct Hok as [Hok _]; discriminate Hok); destruct Hok as (_ & -> & Hz); by eexists. }
        cbn [payload] in *. rewrite Esz. rstep. destruct (fits32 z) eqn:Ef; cbn [negb] in *.
        -- change (zlen (int_bytes false z) =? 4) with true. cbv iota. unfold int_bytes in Hw. rewrite (todword_ok _ _ _ Hw) by apply u32_range. rstep.
           destruct (item_field f (CInt z) self h t hs v0 (Number (expand64 (u32 z))) 8 Ha Hk Hr Hok) as (self' & h' & v' & E & H'); [eexists; split; [done|by apply expand64_ok]|]. rewrite E. rstep. by exists self', h', v'.
        -- change (zlen (int_bytes true z) =? 4) with false. change (zlen (int_bytes true z) =? 8) with true. cbn [negb]. cbv iota. pose proof (halves_ok _ _ _ Hw) as Eh.
           destruct (todword l (p + 4)) as [low| |]; try done. cbn [mbind result_bind] in Eh |- *. destruct (todword l (p + 4 + 4)) as [hi| |]; try done. cbn [mbind result_bind] in Eh |- *. injection Eh as ->.
           destruct (item_field f (CInt z) self h t hs v0 (Number (u64 z)) 8 Ha Hk Hr Hok) as (self' & h' & v' & E & H'); [eexists; split; [done|by apply s64_u64]|]. rewrite E. rstep. by exists self', h', v'.
      * exfalso. rewrite Ety in Hok. destruct lv, v0, c; cbn in Hok; try done; destruct Hok as [Hok _]; discriminate Hok.
      * rewrite Ety in *. apply Hobj. by left.
      * rewrite Ety in *. apply Hobj. by right.
Qed.

(** *** The records of a message *)

Section message.
Context (st : sproto_type) (Hst_wf : type_wf T st) (Hnd : NoDup (f_name <$> t_f st)) (r : nat) (hb : heap) (mi : Z).

Fixpoint typed_fields (last : Z) (fs : list (Z * content)) : Prop :=
  match fs with
  | [] => True
  | (tag, c) :: fs => last < tag < 0x8000 /\ (exists f hs v0, f ∈ t_f st /\ f_tag f = tag /\ field_ok eq (item_ok T eq lv hs) hs f v0 c) /\ typed_fields tag fs
  end.

Lemma typed_fields_le last last' fs : last' <= last -> typed_fields last fs -> typed_fields last' fs.
Proof. destruct fs as [|[tag c] fs]; [done|]. intros Hl [H1 H2]. split; [lia|done]. Qed.

Lemma fields_typed hs t0 k fs last : (forall f, f ∈ k -> f ∈ t_f st) -> tags_ascend last k -> fields_ok eq (item_ok T eq lv hs) hs k t0 fs -> typed_fields last fs.
Proof.
  revert fs last. induction k as [|f k IH]; intros fs la Hin Ha H; [cbn in H; by subst fs|]. destruct Ha as [Ht Ha]. apply fields_ok_cases in H as (oc & fs' & Hoc & Hfs & ->). assert (typed_fields (f_tag f) fs') as Hty by (apply IH; [set_solver|done|done]).
  destruct oc as [c|]; [|eapply typed_fields_le; [|exact Hty]; lia]. split; [done|]. split; [|done]. exists f, hs, (rawget t0 (LString (f_name f))). split; [set_solver|]. by split.
Qed.

(** The tables and the state after the fields [fs]. *)
Record fields_done (self : decode_ud) (h : heap) (fs : list (Z * content)) (last : Z) : Prop := FieldsDone {
  fd_result : d_result self = r;
  fd_ext : ext r hb h;
  fd_index : d_mainindex_tag self = mi;
  fd_key : forall x, (mi, x) ∈ fs -> key_value x <> LNil -> d_key self = key_value x;
  fd_array : forall tag, d_array_tag self = Some tag -> tag <= last;
  fd_tags : forall tag c, (tag, c) ∈ fs -> tag <= last;
  fd_table : exists t, h !! r = Some t /\
    (forall f c, f ∈ t_f st -> (f_tag f, c) ∈ fs -> field_ok P (item_ok T P lv (h ∖ hb)) (h ∖ hb) f (rawget t (LString (f_name f))) c) /\
    (forall f, f ∈ t_f st -> f_tag f ∉ fs.*1 -> rawget t (LString (f_name f)) = LNil)
}.

Lemma same_field f g : f ∈ t_f st -> g ∈ t_f st -> f_tag f = f_tag g \/ f_name f = f_name g -> f = g.
Proof.
  intros Hf Hg H. apply list_elem_of_lookup in Hf as [i Hi]. apply list_elem_of_lookup in Hg as [j Hj]. destruct H as [H|H].
  - destruct (Nat.lt_total i j) as [Hij|[->|Hij]]; [|congruence|]; exfalso.
    + pose proof (tags_ascend_lt _ _ _ _ _ _ (tw_tags _ _ Hst_wf) Hi Hj Hij). lia.
    + pose proof (tags_ascend_lt _ _ _ _ _ _ (tw_tags _ _ Hst_wf) Hj Hi Hij). lia.
  - assert (i = j) as ->; [|congruence]. eapply NoDup_lookup; [exact Hnd| |]; rewrite list_lookup_fmap; [by rewrite Hi|]. by rewrite Hj, H.
Qed.

(** One field more. *)
Lemma fields_done_step self h fs last f c x t : fields_done self h fs last -> last < f_tag f -> f ∈ t_f st -> is_Some (hb !! r) -> h !! r = Some t -> field_decoded lv f c self h t x ->
  exists self' h', x = Ok (0, (self', h')) /\ fields_done self' h' (fs ++ [(f_tag f, c)]) (f_tag f).
Proof.
  intros [D1 D2 D3 D4 D5 D6 (t' & Ht & D7 & D8)] Hl Hf Hb Ht' (self' & h' & v & -> & Hext & Hr' & Hok & E1 & E2 & E3 & E4 & E5). rewrite Ht in Ht'. injection Ht' as ->. rewrite D1 in *. exists self', h'. split; [done|].
  assert (Hgrow : h ∖ hb ⊆ h' ∖ hb) by (by apply (diff_ext r)). assert (Hnewer : h' ∖ h ⊆ h' ∖ hb) by (apply diff_base; intros y Hy; eapply ext_dom; [exact D2|by eexists|done]).
  assert (Hold : forall g d, (f_tag g, d) ∈ fs -> g <> f) by (intros g d Hg ->; apply D6 in Hg; lia). constructor; [done|by eapply ext_trans|congruence|..].
  - intros y Hy Hk. apply elem_of_app in Hy as [Hy|Hy].
    + rewrite E4; [by apply D4|]. rewrite D3. apply D6 in Hy. lia.
    + apply list_elem_of_singleton in Hy as [= Em ->]. apply E5; [by rewrite D3|done].
  - intros tag Htag. destruct E3 as [E3|E3]; rewrite E3 in Htag; [apply D5 in Htag; lia|by injection Htag as ->].
  - intros tag d Hd. apply elem_of_app in Hd as [Hd|Hd]; [apply D6 in Hd; lia|]. apply list_elem_of_singleton in Hd as [= -> ->]. done.
  - exists (rawset place t (LString (f_name f)) v). split; [done|]. split.
    + intros g d Hg Hd. apply elem_of_app in Hd as [Hd|Hd].
      * rewrite rawget_rawset_ne by (intros [= E]; apply (Hold g d Hd), same_field; [done|done|by right]). eapply field_ok_mono; [|exact Hgrow|by apply D7]. intros ty sub x y Hx. eapply item_ok_mono; [exact Hgrow|exact Hx].
      * apply list_elem_of_singleton in Hd as [= Et ->]. rewrite (same_field g f Hg Hf) in * by by left. rewrite rawget_rawset. eapply field_ok_mono; [|exact Hnewer|exact Hok]. intros ty sub x y Hx. eapply item_ok_mono; [exact Hnewer|exact Hx].
    + intros g Hg Hn. rewrite fmap_app, not_elem_of_app in Hn. destruct Hn as [Hn1 Hn2]. rewrite rawget_rawset_ne; [by apply D8|]. intros [= E]. apply Hn2. rewrite (same_field g f Hg Hf) by by right. cbn. set_solver.
Qed.

Lemma records_dec fs2 : forall fs1 last stream datastream size self h, typed_fields last fs2 -> fields_done self h fs1 last -> is_Some (hb !! r) -> -1 <= last ->
  reads l stream (words (records last (parts fs2))) -> reads l datastream (datas (parts fs2)) -> zlen (datas (parts fs2)) <= size < 2 ^ 31 ->
  exists self' h' last', records_loop l (decode (S lv)) (length (records last (parts fs2))) st stream datastream size last (self, h) = Ok (inr (size - zlen (datas (parts fs2))), (self', h')) /\ fields_done self' h' (fs1 ++ fs2) last'.
Proof.
  induction fs2 as [|[tag c] fs2 IH]; intros fs1 la stream datastream size self h Hty Hd Hb Hl Hs Hds Hsz.
  { exists self, h, la. rewrite app_nil_r. split; [|done]. cbn. change (zlen (@nil Z)) with 0. by rewrite Z.sub_0_r. }
  destruct Hty as (Ht & (f & hs & v0 & Hf & Etag & Hok) & Hty). set (v := default 0 (inline c)). set (d := field_data (inline c) (payload c)).
  assert (records la (parts ((tag, c) :: fs2)) = record_words tag la v ++ records tag (parts fs2)) as Er by (unfold record_words; cbn [parts fmap list_fmap records]; by rewrite <- app_assoc).
  assert (datas (parts ((tag, c) :: fs2)) = d ++ datas (parts fs2)) as Ed by done. rewrite Er, Ed in *. rewrite words_app in Hs. apply reads_app in Hs as [Hs1 Hs2]. apply reads_app in Hds as [Hds1 Hds2]. rewrite zlen_words in Hs2. rewrite zlen_app in *.
  pose proof (zlen_nonneg d) as Hd0. pose proof (zlen_nonneg (datas (parts fs2))) as Hd1. destruct (fd_table _ _ _ _ Hd) as (t & Htab & _).
  assert (Hz : forall z, c = CInt z -> - 2 ^ 63 <= z < 2 ^ 63). { intros z ->. unfold field_ok in Hok. destruct (is_array f); [by destruct Hok as (? & ? & ? & _ & _ & [=] & _)|]. destruct lv, v0; cbn in Hok; try done; by destruct Hok as (_ & -> & ?). }
  assert (Hfwf : field_wf T f) by (pose proof (tw_fields _ _ Hst_wf) as H; rewrite Forall_forall in H; by apply H).
  destruct (fields_done_step self h fs1 la f c (decode_field l (decode (S lv)) f (v / 2 - 1) datastream (self, h)) t Hd ltac:(lia) Hf Hb Htab) as (self' & h' & Ef & Hd').
  { apply (field_dec f c self h t hs v0); try done; [rewrite (fd_result _ _ _ _ Hd); done|]. intros E. apply (fd_array _ _ _ _ Hd) in E. lia. }
  rewrite Etag in Hd'. destruct (IH (fs1 ++ [(tag, c)]) tag (stream + 2 * zlen (record_words tag la v)) (datastream + zlen d) (size - zlen d) self' h' Hty Hd' Hb ltac:(lia) Hs2 Hds2 ltac:(lia)) as (self2 & h2 & la2 & E & Hdone).
  exists self2, h2, la2. split; [|by rewrite <- app_assoc in Hdone]. rewrite length_app.
  (* the record with the value *)
  assert (Hone : forall stream', reads l stream' (le_bytes 2 v) -> stream' + 2 = stream + 2 * zlen (record_words tag la v) ->
    records_loop l (decode (S lv)) (S (length (records tag (parts fs2)))) st stream' datastream size (tag - 1) (self, h) = Ok (inr (size - (zlen d + zlen (datas (parts fs2)))), (self2, h2))).
  { intros stream' Hv Estr. assert (0 <= v < 0x10000 /\ Z.odd v = false) as [Hvr Hodd].
    { unfold v. destruct (inline c) as [w|] eqn:Ei; [|done]. destruct (inline_shows c w Ei Hz) as (_ & ? & He & _). cbn. rewrite <- Z.negb_even, He. split; [lia|done]. }
    cbn [records_loop]. rewrite (toword_ok _ _ _ Hv Hvr). rstep. rewrite Hodd. replace (tag - 1 + 1) with tag by lia. change SIZEOF_FIELD with 2. rewrite Estr.
    assert (findtag st tag = Ok (Some f)) as Efind. { rewrite (findtag_find T st tag Hst_wf). f_equal. apply find_spec; [intros i j x y; apply (tags_ascend_lt (-1)), Hst_wf| |done]. by intros g [= <-]. }
    assert (forall n, zlen d = n -> (f0 ← findtag st tag; match f0 with
      | None => records_loop l (decode (S lv)) (length (records tag (parts fs2))) st (stream + 2 * zlen (record_words tag la v)) (datastream + n) (size - n) tag (self, h)
      | Some f0 => '(r0, ud) ← decode_field l (decode (S lv)) f0 (v / 2 - 1) datastream (self, h);
          if r0 <? 0 then Ok (inl (-1), ud) else records_loop l (decode (S lv)) (length (records tag (parts fs2))) st (stream + 2 * zlen (record_words tag la v)) (datastream + n) (size - n) tag ud
      end) = Ok (inr (size - (zlen d + zlen (datas (parts fs2)))), (self2, h2))) as Hgo.
    { intros n <-. rewrite Efind. rstep. rewrite Ef. rstep. cbn [Z.ltb Z.compare]. rewrite E. do 3 f_equal. lia. }
    destruct (inline c) as [w|] eqn:Ei.
    - destruct (inline_shows c w Ei Hz) as (Hw & _). unfold v in *. cbn [default from_option id] in *. destruct (Z.ltb_spec (w / 2 - 1) 0); [lia|]. rstep. specialize (Hgo 0 eq_refl). by rewrite Z.add_0_r, Z.sub_0_r in Hgo.
    - unfold v, d in *. cbn [default from_option id field_data] in *. change (0 / 2 - 1) with (-1) in *. cbn [Z.ltb Z.compare]. change SIZEOF_LENGTH with 4. rewrite zlen_block in *. pose proof (zlen_nonneg (payload c)). destruct (Z.ltb_spec size 4); [lia|].
      pose proof Hds1 as (_ & Hp0 & Hp1). rewrite zlen_block in Hp1. destruct (todword_block l datastream _ Hds1) as [Esz _]; [lia|]. rewrite Esz. rstep. rewrite (u32_small (zlen (payload c) + 4)), (u32_small size) by (unfold is_u32; lia).
      destruct (Z.ltb_spec size (zlen (payload c) + 4)); [lia|]. rstep. rewrite s32_small by lia. apply Hgo. lia. }
  unfold record_words in Hs1, Hone. destruct (Z.ltb_spec 0 (tag - la - 1)); cbn [app] in Hs1, Hone.
  - unfold words in Hs1. cbn [fmap list_fmap concat] in Hs1. apply reads_app in Hs1 as [Hskip Hs1]. rewrite zlen_le_bytes, app_nil_r in Hs1. set (w := (tag - la - 1 - 1) * 2 + 1) in *. assert (0 <= w < 0x10000) as Hw by (unfold w; lia).
    unfold record_words. destruct (Z.ltb_spec 0 (tag - la - 1)); [|lia]. cbn [length app Nat.add records_loop]. rewrite (toword_ok _ _ _ Hskip Hw). rstep.
    assert (Z.odd w = true) as -> by (unfold w; rewrite Z.add_comm, Z.mul_comm; by rewrite Z.odd_add_mul_2). replace (la + 1 + w / 2) with (tag - 1). 2: { unfold w. rewrite Z.div_add_l by lia. change (1 / 2) with 0. lia. }
    change SIZEOF_FIELD with 2. apply Hone; [done|]. change (zlen [w; v]) with 2. lia.
  - unfold words in Hs1. cbn [fmap list_fmap concat] in Hs1. rewrite app_nil_r in Hs1. unfold record_words. destruct (Z.ltb_spec 0 (tag - la - 1)); [lia|]. cbn [length app Nat.add]. replace la with (tag - 1) by lia. apply Hone; [done|]. change (zlen [v]) with 1. lia.
Qed.

End message.
End fields.

(** *** The message *)

Lemma fields_ok_tags order R h k t fs p : fields_ok order R h k t fs -> p ∈ fs -> exists f, f ∈ k /\ f_tag f = p.1.
Proof.
  revert fs. induction k as [|f k IH]; intros fs H Hp; [cbn in H; subst fs; by apply not_elem_of_nil in Hp|]. destruct H as [[_ H]|(c & fs' & -> & _ & H)].
  - destruct (IH _ H Hp) as (g & Hg & E). exists g. split; [set_solver|done].
  - apply elem_of_cons in Hp as [->|Hp]; [exists f; split; [set_solver|done]|]. destruct (IH _ H Hp) as (g & Hg & E). exists g. split; [set_solver|done].
Qed.

(** A table with what a message has in its fields carries it. *)
Lemma fields_transfer lv hs t0 H t k : forall fs last, tags_ascend last k -> fields_ok eq (item_ok T eq lv hs) hs k t0 fs ->
  (forall f c, f ∈ k -> (f_tag f, c) ∈ fs -> field_ok P (item_ok T P lv H) H f (rawget t (LString (f_name f))) c) ->
  (forall f, f ∈ k -> f_tag f ∉ fs.*1 -> rawget t (LString (f_name f)) = LNil) -> fields_ok P (item_ok T P lv H) H k t fs.
Proof.
  induction k as [|f k IH]; intros fs la Ha Hok Hin Hout; [done|]. destruct Ha as [Ht Ha]. pose proof (tags_ascend_head _ _ Ha) as Hlt. rewrite Forall_forall in Hlt.
  assert (Hafter : forall fs, fields_ok eq (item_ok T eq lv hs) hs k t0 fs -> f_tag f ∉ fs.*1).
  { intros fs' Hok' Hp. apply list_elem_of_fmap in Hp as (p & E & Hp). destruct (fields_ok_tags _ _ _ _ _ _ _ Hok' Hp) as (g & Hg & Eg). apply Hlt in Hg. lia. }
  destruct Hok as [[_ Hok]|(c & fs' & -> & _ & Hok)].
  - left. split; [apply Hout; [set_solver|by apply Hafter]|]. apply (IH fs (f_tag f)); [done|done|..]; intros g; intros; [apply Hin|apply Hout]; set_solver.
  - right. exists c, fs'. split; [done|]. split; [apply Hin; set_solver|]. apply (IH fs' (f_tag f)); [done|done|..].
    + intros g d Hg Hd. apply Hin; set_solver.
    + intros g Hg Hn. apply Hout; [set_solver|]. cbn. apply not_elem_of_cons. split; [|done]. apply Hlt in Hg. lia.
Qed.

Lemma records_bound lv st fs last : typed_fields lv st last fs -> zlen (records last (parts fs)) <= 0x7fff - last \/ fs = [].
Proof.
  revert last. induction fs as [|[tag c] fs IH]; intros la H; [by right|left]. destruct H as (Ht & _ & H). cbn [parts fmap list_fmap records]. rewrite zlen_app, zlen_cons. fold (parts fs).
  assert (zlen (records tag (parts fs)) <= 0x7fff - tag) as Hr by (destruct (IH _ H) as [?| ->]; [done|change (zlen (records tag (parts []))) with 0; lia]).
  destruct (Z.ltb_spec 0 (tag - la - 1)); [change (zlen [(tag - la - 1 - 1) * 2 + 1]) with 1|change (zlen (@nil Z)) with 0]; lia.
Qed.

Lemma struct_decoded lv : schema_wf T -> Forall (fun st => NoDup (f_name <$> t_f st)) T -> (forall lv', lv = S lv' -> struct_dec lv') -> struct_dec lv.
Proof.
  intros Hwf Hnames Hst st p sub h1 a fs h0 t0 Hstw Hnd Hfs Hp Er Ht Ea Ek. change (payload (CMsg fs)) with (message (parts fs)) in *. unfold message in Hp |- *. set (rs := records (-1) (parts fs)) in *. fold (words rs) in Hp |- *.
  assert (typed_fields lv st (-1) fs) as Hty by (eapply fields_typed with (st := st) (k := t_f st); try done; apply Hstw).
  pose proof (zlen_nonneg rs) as Hn. assert (zlen rs < 0x10000) as Hrs by (destruct (records_bound _ _ _ _ Hty) as [H| ->]; [unfold rs; lia|done]).
  pose proof (zlen_nonneg (datas (parts fs))) as Hd. pose proof Hp as (_ & Hp0 & Hp1). apply reads_app in Hp as [W1 Hp]. apply reads_app in Hp as [W2 W3]. rewrite !zlen_app, zlen_le_bytes, zlen_words in *.
  unfold sproto_decode. change SIZEOF_HEADER with 2. change SIZEOF_FIELD with 2. destruct (Z.ltb_spec (Z.of_nat 2 + (2 * zlen rs + zlen (datas (parts fs)))) 2); [lia|]. rewrite (toword_ok _ _ _ W1) by lia. rstep.
  destruct (Z.ltb_spec (Z.of_nat 2 + (2 * zlen rs + zlen (datas (parts fs))) - 2) (zlen rs * 2)); [lia|].
  destruct (records_dec lv Hst Hwf Hnames st Hstw Hnd a h1 (d_mainindex_tag sub) fs [] (-1) (p + 2) (p + 2 + zlen rs * 2) (zlen (datas (parts fs))) sub h1 Hty) as (self' & h' & la' & E & Hdone); [|by exists []|done|exact W2| |lia|].
  { constructor; try done; [by intros x Hx%not_elem_of_nil|by intros tag; rewrite Ea|by intros tag c Hx%not_elem_of_nil|]. exists []. split; [done|]. split; [by intros f c _ Hx%not_elem_of_nil|done]. }
  { by replace (p + 2 + zlen rs * 2) with (p + Z.of_nat 2 + 2 * zlen rs) by lia. }
  fold rs in E. replace (Z.to_nat (zlen rs)) with (length rs) by (unfold zlen; lia). replace (Z.of_nat 2 + (2 * zlen rs + zlen (datas (parts fs))) - 2 - zlen rs * 2) with (zlen (datas (parts fs))) by lia. rewrite E. rstep.
  destruct Hdone as [D1 D2 D3 D4 D5 D6 (t & D7 & D8 & D9)]. exists self', h', t. split; [do 2 f_equal; lia|]. split; [done|]. split; [done|]. split; [|done].
  eapply fields_transfer; [apply Hstw|exact Hfs|done|done].
Qed.

Lemma struct_dec_all : schema_wf T -> Forall (fun st => NoDup (f_name <$> t_f st)) T -> forall lv, struct_dec lv.
Proof. intros Hwf Hnames. induction lv as [|lv IH]; apply struct_decoded; try done. by intros lv' [= ->]. Qed.

(** *** The whole string *)

Lemma ldecode_ok (Hwf : schema_wf T) (Hnames : Forall (fun st => NoDup (f_name <$> t_f st)) T) st fs hs source (h : heap) : st ∈ T -> carries T eq 63 hs st source fs -> l = payload (CMsg fs) ->
  exists a h', ldecode T lua_newtable place l st None h = Ok (a, zlen l, h') /\ h !! a = None /\ h ⊆ h' /\ carries T P 63 (h' ∖ h) st a fs.
Proof.
  intros Hst (t0 & _ & Hfs) El. unfold ldecode, new_table. set (a := lua_newtable h). set (h1 := <[a := []]> h). change ENCODE_DEEPLEVEL with (S 63). rewrite s32_small by (pose proof (zlen_nonneg l); lia).
  pose proof Hwf as Hwf'. unfold schema_wf in Hwf'. rewrite Forall_forall in Hwf', Hnames.
  destruct (struct_dec_all Hwf ltac:(by apply Forall_forall) 63 st 0 (DecodeUd None None a (-1) LNil) h1 a fs hs t0) as (sub & h2 & t & E & Hext & Ht & Hok & _); try done.
  { by apply Hwf'. } { by apply Hnames. } { rewrite El. split; [|lia]. intros k x Hk. by rewrite Nat.add_0_l. } { apply lookup_insert_eq. }
  rewrite <- El in E. rewrite E. rstep. pose proof (zlen_nonneg l). destruct (Z.ltb_spec (zlen l) 0); [lia|]. exists a, h2. split; [done|]. assert (h !! a = None) as Ha by apply Hnew. split; [done|].
  split; [|exists t; split; [by apply diff_lookup|]].
  - apply map_subseteq_spec. intros x tx Hx. assert (x <> a) by congruence. assert (h1 !! x = Some tx) as Hx1 by (unfold h1; by rewrite lookup_insert_ne). rewrite Hext; [done|done|by eexists].
  - assert (h2 ∖ h1 ⊆ h2 ∖ h) as Hd. { apply diff_base. intros x [tx Hx]. unfold h1. destruct (decide (x = a)) as [->|]; [rewrite lookup_insert_eq; by eexists|]. rewrite lookup_insert_ne by done. by eexists. }
    eapply fields_ok_mono; [|exact Hd|exact Hok]. intros ty sub' x y Hx. eapply item_ok_mono; [exact Hd|exact Hx].
Qed.

End decode_ok.

(** ** Encoding and decoding *)

Section roundtrip.
Context (T : list sproto_type) (cvt_integer : lua_value -> option Z) (cvt_string : lua_value -> option (list Z)) (lua_newuserdata : Z -> list Z) (lua_newtable : heap -> nat) (place : table -> lua_value -> nat).

(** What [lencode] returns for a table is what [ldecode] turns into a new table
    with the same contents; the tables that were there stay as they are. *)
Definition transfers (st : sproto_type) (source : nat) (h : heap) (buffer : list Z) (fs : list (Z * content)) : Prop :=
  exists s buffer' a h', lencode T cvt_integer cvt_string h lua_newuserdata st source buffer = Ok (s, buffer') /\
    ldecode T lua_newtable place s st None h = Ok (a, zlen s, h') /\ h !! a = None /\ h ⊆ h' /\ carries T Permutation 63 (h' ∖ h) st a fs.

(** C18. A table that carries a message of a type of the schema (arrays, maps by a
    main index and structures inside each other included) survives [lencode] and
    [ldecode]: the string is read to its end and the new tables carry the same
    contents in every field, the elements of arrays in order and those of maps
    under their keys, wherever the traversal of the new tables puts them. The
    buffer may be too small at first; the message must surely fit half of the
    largest one. Excluded ([roomy]) are messages with an array in which an integer
    of more than 32 bits stands behind smaller ones, unless the buffer has the room
    for everything at the start: for those the code may write behind its buffer
    (sproto.c:756, [wide_integer_overflows]). *)
Theorem message_roundtrip (Hwf : schema_wf T) (Hnames : Forall (fun st => NoDup (f_name <$> t_f st)) T) (Hblock : forall n, 0 <= n -> zlen (lua_newuserdata n) = n) (Hnew : forall h, h !! lua_newtable h = None)
  (st : sproto_type) (source : nat) (h : heap) (buffer : list Z) (fs : list (Z * content)) (Hst : st ∈ T) (Hcarries : carries T eq 63 h st source fs)
  (Hb : 0 < zlen buffer <= ENCODE_MAXSIZE) (Hn : roomy (largest_maxn T) (CMsg fs) (zlen buffer)) (Hsize : 2 * need (largest_maxn T) (CMsg fs) <= ENCODE_MAXSIZE) :
  transfers st source h buffer fs.
Proof.
  destruct (lencode_loop_ok T cvt_integer cvt_string lua_newuserdata h Hwf Hblock st source fs Hst Hcarries 32 buffer Hb ltac:(lia) Hn) as [(buffer' & E & Hl)|[_ Hl]]; [|lia]. unfold ENCODE_MAXSIZE in Hl.
  destruct (ldecode_ok T lua_newtable place Hnew (payload (CMsg fs)) ltac:(lia) Hwf Hnames st fs h source h Hst Hcarries eq_refl) as (a & h' & E' & H').
  by exists (payload (CMsg fs)), buffer', a, h'.
Qed.

End roundtrip.

Lemma message_roundtrip_witness : transfers schema (fun _ => None) (fun _ => None) (fun n => replicate (Z.to_nat n) 0) (fun h => fresh (dom h)) (fun t _ => length t) Person 0 people (replicate 256 0) person.
Proof.
  apply message_roundtrip.
  - exact schema_ok.
  - repeat constructor; by apply (bool_decide_unpack _); vm_compute.
  - intros n Hn. unfold zlen. rewrite length_replicate. lia.
  - intros h. apply not_elem_of_dom, is_fresh.
  - by left.
  - apply person_carries.
  - by vm_compute.
  - right. by vm_compute.
  - by vm_compute.
Defined.
