(* ===== verification/SprotoType.v ===== *)
(** * Decoding any message (sproto.c, lsproto.c): types of the tables

    [ldecode] is given bytes from the network. Whatever they are, as long as no
    four of them are a length of 2^32 - 4 or more, the reads stay inside the
    message and the tables that are built have the types of the schema: what a
    table stands for ([description]) is recorded when it is made, and the entries
    of a table are described by the schema. *)
From S2P Require Import Prelude SprotoPack Sproto SprotoSchema SprotoEncode SprotoDecode.

(** ** Descriptions of tables *)

(** A table is a structure of type [T !! i] or holds the elements of a field. *)
Inductive description : Set :=
| DStruct (i : nat)
| DArray (f : field).

Notation descriptions := (gmap nat description).

Definition value_typed (S : descriptions) (ty : Z) (sub : option nat) (v : lua_value) : Prop :=
  match v with
  | LInteger _ => ty = SPROTO_TINTEGER
  | LBoolean _ => ty = SPROTO_TBOOLEAN
  | LString _ => ty = SPROTO_TSTRING
  | LTable a => ty = SPROTO_TSTRUCT /\ exists i, sub = Some i /\ S !! a = Some (DStruct i)
  | _ => False
  end.

Definition field_value (S : descriptions) (f : field) (v : lua_value) : Prop :=
  if is_array f then exists a, v = LTable a /\ S !! a = Some (DArray f) else value_typed S (base_type f) (f_st f) v.

(** The keys of an array are positive integers; those of a map have the type of
    the main index. *)
Definition key_of (T : list sproto_type) (S : descriptions) (f : field) (k : lua_value) : Prop :=
  if f_key f <? 0 then exists n, k = LInteger n /\ 0 < n
  else exists i st g, f_st f = Some i /\ T !! i = Some st /\ g ∈ t_f st /\ f_tag g = f_key f /\ field_value S g k.

Definition entry_typed (T : list sproto_type) (S : descriptions) (d : description) (k v : lua_value) : Prop :=
  match d with
  | DStruct i => exists st f, T !! i = Some st /\ f ∈ t_f st /\ k = LString (f_name f) /\ field_value S f v
  | DArray f => key_of T S f k /\ value_typed S (base_type f) (f_st f) v
  end.

(** The tables of [S] are new since [h0] and hold what their descriptions say. *)
Record typed_heap (T : list sproto_type) (h0 : heap) (S : descriptions) (h : heap) : Prop := TypedHeap {
  th_tables : forall a d, S !! a = Some d -> exists t, h !! a = Some t /\ forall k v, (k, v) ∈ t -> entry_typed T S d k v;
  th_old : h0 ⊆ h;
  th_new : forall a, is_Some (S !! a) -> h0 !! a = None
}.

(** The code returns something that satisfies [Q] or leaves with an error of Lua. *)
Definition yields {A} (Q : A -> Prop) (x : result A) : Prop :=
  match x with Ok a => Q a | LuaError _ => True | Fault => False end.

Lemma yields_bind {A B} (P : A -> Prop) (Q : B -> Prop) (x : result A) (f : A -> result B) : yields P x -> (forall a, P a -> yields Q (f a)) -> yields Q (x ≫= f).
Proof. destruct x; cbn; auto. Qed.

Lemma yields_impl {A} (P Q : A -> Prop) (x : result A) : yields P x -> (forall a, P a -> Q a) -> yields Q x.
Proof. destruct x; cbn; auto. Qed.

(** ** Larger descriptions *)

Lemma value_typed_mono S S' ty sub v : S ⊆ S' -> value_typed S ty sub v -> value_typed S' ty sub v.
Proof. intros HS. destruct v; cbn; try done. intros [-> (i & -> & Hi)]. split; [done|]. exists i. split; [done|by eapply lookup_weaken]. Qed.

Lemma field_value_mono S S' f v : S ⊆ S' -> field_value S f v -> field_value S' f v.
Proof.
  intros HS. unfold field_value. destruct (is_array f); [|by apply value_typed_mono]. intros (a & -> & Ha). exists a. split; [done|by eapply lookup_weaken].
Qed.

Lemma entry_typed_mono T S S' d k v : S ⊆ S' -> entry_typed T S d k v -> entry_typed T S' d k v.
Proof.
  intros HS. destruct d as [i|f]; cbn.
  - intros (st & f & Hst & Hf & -> & Hv). exists st, f. split; [done|]. split; [done|]. split; [done|by eapply field_value_mono].
  - intros [Hk Hv]. split; [|by eapply value_typed_mono]. unfold key_of in *. destruct (f_key f <? 0); [done|]. destruct Hk as (i & st & g & H1 & H2 & H3 & H4 & H5). exists i, st, g. repeat (split; [done|]). by eapply field_value_mono.
Qed.

Lemma rawset_elem place t k v k' v' : (k', v') ∈ rawset place t k v -> (k' = k /\ v' = v) \/ (k', v') ∈ t.
Proof.
  unfold rawset. destruct (has_key t k).
  - intros H. apply list_elem_of_fmap in H as ([k1 v1] & E & H). injection E as -> ->. destruct (decide (k = k1)) as [->|]; [by left|by right].
  - intros H. apply elem_of_app in H as [H|H]; [right|apply elem_of_cons in H as [[= -> ->]|H]; [by left|right]].
    + rewrite <- (take_drop (place t k) t). apply elem_of_app. by left.
    + rewrite <- (take_drop (place t k) t). apply elem_of_app. by right.
Qed.

Section decode_typed.
Context (T : list sproto_type) (lua_newtable : heap -> nat) (place : table -> lua_value -> nat) (Hnew : forall h, h !! lua_newtable h = None) (h0 : heap).
Notation typed_heap := (typed_heap T h0).

Lemma typed_new S h d : typed_heap S h -> S !! lua_newtable h = None /\ S ⊆ <[lua_newtable h := d]> S /\ typed_heap (<[lua_newtable h := d]> S) (<[lua_newtable h := []]> h).
Proof.
  intros [H1 H2 H3]. set (a := lua_newtable h). assert (h !! a = None) as Ha by apply Hnew. assert (S !! a = None) as HSa. { apply eq_None_not_Some. intros [d' Hd]. destruct (H1 _ _ Hd) as (t & Ht & _). congruence. }
  assert (S ⊆ <[a := d]> S) as HS by by apply insert_subseteq. split; [done|]. split; [done|]. constructor.
  - intros x d' Hx. destruct (decide (x = a)) as [->|Hne].
    + exists []. split; [apply lookup_insert_eq|]. intros k v Hkv. by apply not_elem_of_nil in Hkv.
    + rewrite lookup_insert_ne in Hx by done. destruct (H1 _ _ Hx) as (t & Ht & Hty). exists t. rewrite lookup_insert_ne by done. split; [done|]. intros k v Hkv. eapply entry_typed_mono; [exact HS|by apply Hty].
  - etransitivity; [exact H2|by apply insert_subseteq].
  - intros x Hx. destruct (decide (x = a)) as [->|Hne]; [|rewrite lookup_insert_ne in Hx by done; by apply H3]. apply eq_None_not_Some. intros [t Ht]. pose proof (lookup_weaken _ _ _ _ Ht H2). congruence.
Qed.

Lemma typed_set S h a d k v : typed_heap S h -> S !! a = Some d -> entry_typed T S d k v -> exists h', set_table place h a k v = Ok h' /\ typed_heap S h'.
Proof.
  intros [H1 H2 H3] Ha Hkv. destruct (H1 _ _ Ha) as (t & Ht & Hty). unfold set_table. rewrite Ht. cbn [deref]. rstep. eexists. split; [done|]. constructor; [| |done].
  - intros x d' Hx. destruct (decide (x = a)) as [->|Hne].
    + rewrite Ha in Hx. injection Hx as <-. eexists. split; [apply lookup_insert_eq|]. intros k' v' Hin. apply rawset_elem in Hin as [[-> ->]|Hin]; [done|by apply Hty].
    + rewrite lookup_insert_ne by done. by apply H1.
  - apply map_subseteq_spec. intros x tx Hx. assert (x <> a) by (intros ->; rewrite H3 in Hx; [done|by eexists]). rewrite lookup_insert_ne by done. by eapply lookup_weaken.
Qed.

(** ** The callback *)

Context (Hwf : schema_wf T).

(** The state of the callback inside a structure of type [st = T !! i]; the
    tags of its arrays so far are at most [top]. *)
Record state_typed (i : nat) (st : sproto_type) (mi top : Z) (S : descriptions) (self : decode_ud) (h : heap) : Prop := StateTyped {
  st_heap : typed_heap S h;
  st_result : S !! d_result self = Some (DStruct i);
  st_index : d_mainindex_tag self = mi;
  st_array : forall tag, d_array_tag self = Some tag -> tag <= top /\ forall f, f ∈ t_f st -> f_tag f = tag -> exists a, d_array self = Some a /\ S !! a = Some (DArray f);
  st_key : d_key self = LNil \/ exists g, g ∈ t_f st /\ f_tag g = mi /\ field_value S g (d_key self)
}.

Lemma state_mono i st mi top top' S S' self h h' : state_typed i st mi top S self h -> S ⊆ S' -> typed_heap S' h' -> top <= top' -> state_typed i st mi top' S' self h'.
Proof.
  intros [H1 H2 H3 H4 H5] HS Hh Ht. constructor; [done|by eapply lookup_weaken|done| |].
  - intros tag E. destruct (H4 _ E) as [H6 H7]. split; [lia|]. intros f Hf Et. destruct (H7 f Hf Et) as (a & Ea & Ha). exists a. split; [done|by eapply lookup_weaken].
  - destruct H5 as [H5|(g & Hg & Et & Hv)]; [by left|right]. exists g. split; [done|]. split; [done|by eapply field_value_mono].
Qed.

(** The state afterwards, with more tables. *)
Definition stays (i : nat) (st : sproto_type) (mi top : Z) (S : descriptions) (ud : decode_ud * heap) : Prop := exists S', S ⊆ S' /\ state_typed i st mi top S' ud.1 ud.2.
Definition holds (i : nat) (st : sproto_type) (mi top : Z) (S : descriptions) : result (Z * (decode_ud * heap)) -> Prop := yields (fun x => stays i st mi top S x.2).

Lemma stays_trans i st mi top S S' ud : S ⊆ S' -> stays i st mi top S' ud -> stays i st mi top S ud.
Proof. intros HS (S2 & HS2 & H). exists S2. split; [by etransitivity|done]. Qed.

Lemma holds_trans i st mi top S S' x : S ⊆ S' -> holds i st mi top S' x -> holds i st mi top S x.
Proof. intros HS H. eapply yields_impl; [exact H|]. intros [r ud]. by apply stays_trans. Qed.

Lemma stays_refl i st mi top S self h : state_typed i st mi top S self h -> stays i st mi top S (self, h).
Proof. intros H. by exists S. Qed.

Lemma tag_unique st f g : type_wf T st -> f ∈ t_f st -> g ∈ t_f st -> f_tag f = f_tag g -> f = g.
Proof.
  intros Hst Hf Hg E. apply list_elem_of_lookup in Hf as [i Hi]. apply list_elem_of_lookup in Hg as [j Hj]. pose proof (tw_tags _ _ Hst) as Ha.
  destruct (Nat.lt_total i j) as [Hij|[->|Hij]]; [pose proof (tags_ascend_lt _ _ _ _ _ _ Ha Hi Hj Hij); lia|congruence|pose proof (tags_ascend_lt _ _ _ _ _ _ Ha Hj Hi Hij); lia].
Qed.

Lemma st_wf i st : T !! i = Some st -> type_wf T st.
Proof. intros Hi. by apply (Forall_lookup_1 _ _ _ _ Hwf Hi). Qed.

Lemma st_field_wf i st f : T !! i = Some st -> f ∈ t_f st -> field_wf T f.
Proof. intros Hi Hf. pose proof (tw_fields _ _ (st_wf _ _ Hi)) as H. rewrite Forall_forall in H. by apply H. Qed.

Lemma store_typed i st mi S self h f v len idx : T !! i = Some st -> f ∈ t_f st -> state_typed i st mi (f_tag f) S self h -> value_typed S (base_type f) (f_st f) v -> 0 <= idx -> is_array f = negb (idx =? 0) ->
  (0 < idx -> d_array_tag self = Some (f_tag f) /\ f_key f < 0) -> holds i st mi (f_tag f) S (store place (at_value len idx (field_args f (base_type f))) v self h).
Proof.
  intros Hi Hf Hs Hv Hidx Ha Harr. unfold store. cbn [at_value field_args a_index a_tagid a_tagname]. destruct (Z.ltb_spec 0 idx) as [Hpos|Hz].
  - destruct (Harr Hpos) as [Et Hk]. destruct (st_array _ _ _ _ _ _ _ Hs _ Et) as [_ H]. destruct (H f Hf eq_refl) as (a & Ea & HSa). rewrite Ea. cbn [deref]. rstep.
    destruct (typed_set S h a (DArray f) (LInteger idx) v) as (h' & -> & Hh'); [apply Hs|done| |].
    { split; [|done]. unfold key_of. destruct (Z.ltb_spec (f_key f) 0); [by exists idx|lia]. }
    rstep. cbn. apply stays_refl. eapply state_mono; [exact Hs|done|done|lia].
  - assert (is_array f = false) as Ha' by (rewrite Ha; destruct (Z.eqb_spec idx 0); [done|lia]). assert (field_value S f v) as Hfv by (unfold field_value; by rewrite Ha').
    set (self' := if d_mainindex_tag self =? f_tag f then set_key v self else self). assert (d_result self' = d_result self) as Er by (unfold self'; by destruct (d_mainindex_tag self =? _)). rewrite Er.
    destruct (typed_set S h (d_result self) (DStruct i) (LString (f_name f)) v) as (h' & -> & Hh'); [apply Hs|apply Hs|by exists st, f|].
    rstep. cbn. apply stays_refl. assert (state_typed i st mi (f_tag f) S self h') as Hs' by (eapply state_mono; [exact Hs|done|done|lia]).
    unfold self'. destruct (Z.eqb_spec (d_mainindex_tag self) (f_tag f)) as [E|]; [|done]. destruct Hs' as [H1 H2 H3 H4 _]. constructor; try done. right. exists f. split; [done|]. split; [congruence|done].
Qed.

(** The first element of an array. *)
Lemma array_made i st mi top S self h f : T !! i = Some st -> f ∈ t_f st -> state_typed i st mi top S self h -> top <= f_tag f -> is_array f = true ->
  let a := lua_newtable h in exists S' h', S ⊆ S' /\ set_table place (<[a := []]> h) (d_result self) (LString (f_name f)) (LTable a) = Ok h' /\ state_typed i st mi (f_tag f) S' (set_array (f_tag f) a self) h'.
Proof.
  intros Hi Hf Hs Ht Ha a. destruct (typed_new S h (DArray f) (st_heap _ _ _ _ _ _ _ Hs)) as (HSa & HS & Hh). fold a in HSa, HS, Hh. set (S' := <[a := DArray f]> S) in *.
  assert (S' !! a = Some (DArray f)) as HSa' by apply lookup_insert_eq. assert (S' !! d_result self = Some (DStruct i)) as Hr by (eapply lookup_weaken; [apply Hs|done]).
  destruct (typed_set S' _ (d_result self) (DStruct i) (LString (f_name f)) (LTable a) Hh Hr) as (h' & E & Hh').
  { exists st, f. split; [done|]. split; [done|]. split; [done|]. unfold field_value. rewrite Ha. by exists a. }
  exists S', h'. split; [done|]. split; [done|]. destruct (state_mono _ _ _ _ (f_tag f) _ S' _ _ h' Hs HS Hh' Ht) as [H1 H2 H3 _ H5]. constructor; try done.
  intros tag [= <-]. split; [lia|]. intros g Hg Et. assert (g = f) as -> by (eapply tag_unique; [by eapply st_wf|done..]). by exists a.
Qed.

Context (l : list Z) (Hbytes : bytes l) (Hlen : zlen l < 2 ^ 31).
Notation decode := (Sproto.decode T lua_newtable place l).

(** What is passed to the callback: numbers for integers and booleans, a part of
    the message for strings and structures. *)
Definition fits (f : field) (value : decode_value) (len idx : Z) : Prop :=
  is_array f = negb (idx =? 0) /\
  (0 <= idx -> match value with
    | Number _ => base_type f = SPROTO_TINTEGER \/ base_type f = SPROTO_TBOOLEAN
    | Position p => (base_type f = SPROTO_TSTRING \/ base_type f = SPROTO_TSTRUCT) /\ 0 <= p /\ 0 <= len /\ p + len <= zlen l
    | NoValue => False
    end).

Definition cb_ok (lv : nat) : Prop := forall i st mi top S self h f value len idx, T !! i = Some st -> f ∈ t_f st -> state_typed i st mi top S self h -> top <= f_tag f -> (idx < 0 -> top < f_tag f) -> fits f value len idx ->
  holds i st mi (f_tag f) S (decode lv (at_value len idx (field_args f (base_type f))) value (self, h)).

Definition structs_ok (lv : nat) : Prop := forall i st mi S self h p size, T !! i = Some st -> state_typed i st mi (-1) S self h -> 0 <= p -> 0 <= size -> p + size <= zlen l ->
  yields (fun x => x.1 <= size /\ exists top, stays i st mi top S x.2) (sproto_decode l (decode lv) st p size (self, h)).

Lemma struct_typed lv i st mi S self h f p len idx : structs_ok lv -> T !! i = Some st -> f ∈ t_f st -> state_typed i st mi (f_tag f) S self h -> 0 <= idx -> is_array f = negb (idx =? 0) -> base_type f = SPROTO_TSTRUCT ->
  (0 < idx -> d_array_tag self = Some (f_tag f)) -> 0 <= p -> 0 <= len -> p + len <= zlen l ->
  holds i st mi (f_tag f) S (decode_struct T lua_newtable place l (decode lv) (at_value len idx (field_args f (base_type f))) p self h).
Proof.
  intros Hst Hi Hf Hs Hidx Ha Ety Harr Hp Hl Hpl. unfold decode_struct, new_table. set (a := lua_newtable h). cbn [at_value field_args a_index a_tagid a_tagname a_subtype a_mainindex a_length].
  destruct (fw_st _ _ (st_field_wf _ _ _ Hi Hf) Ety) as (i' & st' & Ei & Est). rewrite Ei. cbn [mbind option_bind]. rewrite Est. cbn [deref]. rstep.
  destruct (typed_new S h (DStruct i') (st_heap _ _ _ _ _ _ _ Hs)) as (HSa & HS & Hh). fold a in HSa, HS, Hh. set (S1 := <[a := DStruct i']> S) in *. set (mi' := if 0 <=? f_key f then f_key f else -1). set (sub := DecodeUd None None a mi' LNil).
  assert (S1 !! a = Some (DStruct i')) as HSa1 by apply lookup_insert_eq. assert (state_typed i' st' mi' (-1) S1 sub (<[a := []]> h)) as Hsub by (constructor; [done|done|done|done|by left]).
  eapply yields_bind; [by apply (Hst i' st' mi' S1 sub _ p len)|]. intros [r [sub' h2]] [_ (top & S2 & HS2 & Hsub2)]. cbn [fst snd] in Hsub2.
  assert (S ⊆ S2) as HSS by by etransitivity. assert (state_typed i st mi (f_tag f) S2 self h2) as Hs2 by (eapply state_mono; [exact Hs|done|apply Hsub2|lia]). assert (S2 !! a = Some (DStruct i')) as HSa2 by by eapply lookup_weaken.
  assert (value_typed S2 (base_type f) (f_st f) (LTable a)) as Hv by (split; [done|by exists i']).
  destruct (r <? 0); [cbn; by exists S2|]. destruct (negb (r =? len)); [cbn; by exists S2|]. destruct (Z.leb_spec 0 (f_key f)) as [Hk|Hk].
  - destruct (decide (d_key sub' = LNil)) as [|Hkey]; [done|]. destruct (fw_key _ _ (st_field_wf _ _ _ Hi Hf) Hk) as (Hfa & _). assert (0 < idx) as Hpos by (rewrite Hfa in Ha; destruct (Z.eqb_spec idx 0); [done|lia]).
    destruct (st_array _ _ _ _ _ _ _ Hs2 _ (Harr Hpos)) as [_ H]. destruct (H f Hf eq_refl) as (arr & Earr & HSarr). rewrite Earr. cbn [deref]. rstep.
    destruct (typed_set S2 h2 arr (DArray f) (d_key sub') (LTable a)) as (h' & -> & Hh'); [apply Hs2|done| |].
    { split; [|done]. unfold key_of. destruct (Z.ltb_spec (f_key f) 0); [lia|]. destruct (st_key _ _ _ _ _ _ _ Hsub2) as [|(g & Hg & Eg & Hgv)]; [done|]. exists i', st', g. by split_and!. }
    rstep. cbn. exists S2. split; [done|]. cbn. eapply state_mono; [exact Hs2|done|done|lia].
  - eapply holds_trans; [exact HSS|]. apply store_typed; try done. intros Hpos. split; [by apply Harr|done].
Qed.

Lemma ready_typed lv i st mi S self h f value len idx : structs_ok lv -> T !! i = Some st -> f ∈ t_f st -> state_typed i st mi (f_tag f) S self h -> 0 <= idx -> idx = 0 \/ d_array_tag self = Some (f_tag f) -> fits f value len idx ->
  holds i st mi (f_tag f) S (decode (Datatypes.S lv) (at_value len idx (field_args f (base_type f))) value (self, h)).
Proof.
  intros Hst Hi Hf Hs Hidx Hr [Ha Hfit]. specialize (Hfit Hidx). assert (0 < idx -> d_array_tag self = Some (f_tag f)) as Harr by (destruct Hr; [lia|done]).
  rewrite (decode_ready T lua_newtable place l lv) by done. cbn [at_value field_args a_type].
  assert (Hscalar : forall v, value_typed S (base_type f) (f_st f) v -> base_type f <> SPROTO_TSTRUCT -> holds i st mi (f_tag f) S (store place (at_value len idx (field_args f (base_type f))) v self h)).
  { intros v Hv Hns. apply store_typed; try done. intros Hpos. split; [by apply Harr|]. destruct (Z.lt_ge_cases (f_key f) 0) as [|Hk]; [done|]. by destruct (fw_key _ _ (st_field_wf _ _ _ Hi Hf) Hk) as (_ & ? & _). }
  destruct value as [v|p|]; [| |done].
  - destruct Hfit as [E|E]; rewrite E in *; cbn [Z.eqb Pos.eqb SPROTO_TINTEGER SPROTO_TBOOLEAN]; by apply Hscalar.
  - destruct Hfit as ([E|E] & Hp & Hl & Hpl); pose proof (struct_typed lv i st mi S self h f p len idx Hst Hi Hf Hs Hidx Ha) as Hstruct; rewrite E in *; cbn [Z.eqb Pos.eqb SPROTO_TINTEGER SPROTO_TBOOLEAN SPROTO_TSTRING SPROTO_TSTRUCT].
    + change (a_length (at_value len idx (field_args f SPROTO_TSTRING))) with len. unfold lua_pushlstring, sizeof_TString. rewrite u64_small by (unfold is_u64; lia). destruct (Z.leb_spec (2 ^ 63 - 1 - 24) len); [lia|]. rewrite slice_Ok by lia. rstep. by apply Hscalar.
    + by apply Hstruct.
Qed.

Lemma callback_typed lv : structs_ok lv -> cb_ok (Datatypes.S lv).
Proof.
  intros Hst i st mi top S self h f value len idx Hi Hf Hs Ht Hneg Hfit. pose proof Hfit as [Ha _].
  assert (Hgo : forall S' self' h', S ⊆ S' -> state_typed i st mi (f_tag f) S' self' h' -> 0 <= idx -> idx = 0 \/ d_array_tag self' = Some (f_tag f) ->
    holds i st mi (f_tag f) S (decode (Datatypes.S lv) (at_value len idx (field_args f (base_type f))) value (self', h'))) by (intros; eapply holds_trans; [done|by apply ready_typed]).
  destruct (decide (idx = 0 \/ d_array_tag self = Some (f_tag f))) as [Hr|Hr].
  - apply (Hgo S); [done|eapply state_mono; [exact Hs|done|apply Hs|done]| |done]. destruct (Z.lt_ge_cases idx 0) as [Hi0|]; [|done]. exfalso. destruct Hr as [|Hr]; [lia|]. specialize (Hneg Hi0). apply (st_array _ _ _ _ _ _ _ Hs) in Hr as [Hr _]. lia.
  - assert (idx <> 0 /\ d_array_tag self <> Some (f_tag f)) as [Hi0 Htag] by tauto. assert (is_array f = true) as Hfa by (rewrite Ha; by destruct (Z.eqb_spec idx 0)).
    destruct (array_made i st mi top S self h f Hi Hf Hs Ht Hfa) as (S' & h' & HS & E & Hs'). destruct (Z.lt_ge_cases idx 0) as [Hlt|Hge].
    + cbn [Sproto.decode at_value a_index a_tagid a_tagname field_args]. rewrite bool_decide_true by done. destruct (Z.eqb_spec idx 0); [lia|]. cbn [negb andb]. unfold new_table. rewrite E. rstep. destruct (Z.ltb_spec idx 0); [|lia]. rstep. cbn. by exists S'.
    + assert (decode (Datatypes.S lv) (at_value len idx (field_args f (base_type f))) value (self, h) = decode (Datatypes.S lv) (at_value len idx (field_args f (base_type f))) value (set_array (f_tag f) (lua_newtable h) self, h')) as ->.
      { rewrite (decode_ready _ _ _ _ _ _ _ (set_array _ _ _)) by by right. cbn [Sproto.decode at_value a_index a_tagid a_tagname field_args]. rewrite bool_decide_true by done. destruct (Z.eqb_spec idx 0); [lia|]. cbn [negb andb]. unfold new_table. rewrite E. rstep. destruct (Z.ltb_spec idx 0); [lia|]. done. }
      apply (Hgo S'); [done|done|done|by right].
Qed.

(** ** Reading *)

(** No four bytes are a length that wraps when the size of the length is added. *)
Context (Hwrap : forall p v, todword l p = Ok v -> v < 2 ^ 32 - 4).

Lemma le_val_slice p n w : slice l p n = Ok w -> 0 <= n -> 0 <= le_val w < 2 ^ (8 * n).
Proof.
  intros E Hn. unfold slice in E. destruct (_ && _) eqn:Eb in E; [|done]. injection E as <-. apply andb_true_iff in Eb as [Eb H3]. apply andb_true_iff in Eb as [H1 _].
  set (w := take _ _). assert (bytes w) as Hw by (by apply Forall_take, Forall_drop). pose proof (le_val_range w Hw) as Hr. replace (2 ^ (8 * n)) with (2 ^ (8 * zlen w)); [done|]. do 2 f_equal. unfold w, zlen in *. rewrite length_take, length_drop. lia.
Qed.

Lemma toword_in p : 0 <= p -> p + 2 <= zlen l -> exists v, toword l p = Ok v /\ 0 <= v < 0x10000.
Proof.
  intros H1 H2. unfold toword. destruct (slice l p 2) as [w| |] eqn:E; [|rewrite slice_Ok in E by lia; done..]. rstep. exists (le_val w). split; [done|]. by apply (le_val_slice _ _ _ E).
Qed.

Lemma todword_in p : 0 <= p -> p + 4 <= zlen l -> exists v, todword l p = Ok v /\ 0 <= v < 2 ^ 32 - 4.
Proof.
  intros H1 H2. assert (exists v, todword l p = Ok v /\ 0 <= v) as (v & E & Hv).
  { unfold todword. destruct (slice l p 4) as [w| |] eqn:E; [|rewrite slice_Ok in E by lia; done..]. rstep. exists (le_val w). split; [done|]. by apply (le_val_slice _ _ _ E). }
  exists v. split; [done|]. split; [done|by apply (Hwrap p)].
Qed.

Section reading.
Context (lv : nat) (Hcb : cb_ok lv) (i : nat) (st : sproto_type) (mi : Z) (Hi : T !! i = Some st).

Lemma elements_typed f read n : f ∈ t_f st -> is_array f = true -> base_type f = SPROTO_TINTEGER \/ base_type f = SPROTO_TBOOLEAN -> forall j top S ud, 0 <= j -> top <= f_tag f -> state_typed i st mi top S ud.1 ud.2 ->
  (forall k, j <= k < j + Z.of_nat n -> exists v, read k = Ok v) ->
  yields (stays i st mi (f_tag f) S) (elements_loop (decode lv) n read (field_args f (base_type f)) j ud).
Proof.
  intros Hf Ha Hty. induction n as [|n IH]; intros j top S [self h] Hj Ht Hs Hread; cbn [elements_loop].
  - cbn. apply stays_refl. eapply state_mono; [exact Hs|done|apply Hs|done].
  - destruct (Hread j ltac:(lia)) as [v ->]. rstep. eapply yields_bind; [apply (Hcb i st mi top S self h f (Number v) 8 (j + 1)); try done; [lia|]|].
    + split; [destruct (Z.eqb_spec (j + 1) 0); [lia|done]|done].
    + intros [r ud'] (S' & HS & Hs'). eapply yields_impl; [apply (IH (j + 1) (f_tag f) S'); [lia|lia|done|]|].
      * intros k Hk. apply Hread. lia.
      * intros ud2. by apply stays_trans.
Qed.

Lemma objects_typed f : f ∈ t_f st -> is_array f = true -> base_type f = SPROTO_TSTRING \/ base_type f = SPROTO_TSTRUCT -> forall fuel stream sz index top S ud, 0 < index -> top <= f_tag f -> state_typed i st mi top S ud.1 ud.2 ->
  0 <= stream -> 0 <= sz -> stream + sz <= zlen l -> sz < Z.of_nat fuel ->
  holds i st mi (f_tag f) S (array_object_loop l (decode lv) fuel (field_args f (base_type f)) stream sz index ud).
Proof.
  intros Hf Ha Hty. induction fuel as [|fuel IH]; intros stream sz index top S [self h] Hidx Ht Hs Hst Hsz Hl Hfuel; [lia|]. cbn [array_object_loop]. change SIZEOF_LENGTH with 4.
  assert (stays i st mi (f_tag f) S (self, h)) as Hstay by (apply stays_refl; eapply state_mono; [exact Hs|done|apply Hs|done]). destruct (Z.ltb_spec 0 sz); [|done]. destruct (Z.ltb_spec sz 4); [done|].
  destruct (todword_in stream) as (hsz & -> & Hh); [lia|lia|]. rstep. rewrite u32_small by (unfold is_u32; lia). destruct (Z.ltb_spec (sz - 4) hsz); [done|]. rewrite !s32_small by lia.
  eapply yields_bind; [apply (Hcb i st mi top S self h f (Position (stream + 4)) hsz index); try done; [lia|]|].
  - split; [destruct (Z.eqb_spec index 0); [lia|done]|]. intros _. split; [done|lia].
  - intros [r ud'] (S' & HS & Hs'). destruct (negb (r =? 0)); [cbn; by exists S'|]. eapply holds_trans; [exact HS|]. apply (IH _ _ _ (f_tag f)); try done; lia.
Qed.

Lemma array_typed f top S self h p sz : f ∈ t_f st -> is_array f = true -> top < f_tag f -> state_typed i st mi top S self h -> todword l p = Ok sz -> 0 <= sz -> 0 <= p -> p + 4 + sz <= zlen l ->
  holds i st mi (f_tag f) S (decode_array l (decode lv) (field_args f (base_type f)) p (self, h)).
Proof.
  intros Hf Ha Ht Hs Esz Hsz Hp Hl. unfold decode_array. rewrite Esz. rstep. change SIZEOF_LENGTH with 4.
  assert (stays i st mi (f_tag f) S (self, h)) as Hstay by (apply stays_refl; eapply state_mono; [exact Hs|done|apply Hs|lia]). destruct (Z.eqb_spec sz 0) as [->|Hne].
  { eapply yields_bind; [apply (Hcb i st mi top S self h f NoValue 0 (-1)); try done; lia|]. by intros [r ud'] Hud. }
  assert (Hloop : forall read n, base_type f = SPROTO_TINTEGER \/ base_type f = SPROTO_TBOOLEAN -> (forall k, 0 <= k < Z.of_nat n -> exists v, read k = Ok v) ->
    holds i st mi (f_tag f) S (ud ← elements_loop (decode lv) n read (field_args f (base_type f)) 0 (self, h); Ok (0, ud))).
  { intros read n Hty Hread. eapply yields_bind; [apply (elements_typed f read n Hf Ha Hty 0 top S (self, h)); try done; lia|]. by intros ud Hud. }
  unfold decode_elements. cbn [field_args a_type]. destruct (fw_type _ _ (st_field_wf _ _ _ Hi Hf)) as [[E|[E|E]]|E]; rewrite E in *; cbn [Z.eqb Pos.eqb orb SPROTO_TINTEGER SPROTO_TBOOLEAN SPROTO_TSTRING SPROTO_TSTRUCT].
  - destruct (zget_in_range l (p + 4)) as [len ->]; [lia|]. rstep. destruct (len =? 4); [|destruct (len =? 8); [|done]].
    + destruct (negb _); [done|]. apply Hloop; [by left|]. intros k Hk. pose proof (Z.mul_div_le (sz - 1) 4). destruct (todword_in (p + 4 + 1 + k * 4)) as (v & -> & _); [lia|lia|]. rstep. by eexists.
    + destruct (negb _); [done|]. apply Hloop; [by left|]. intros k Hk. pose proof (Z.mul_div_le (sz - 1) 8). destruct (todword_in (p + 4 + 1 + k * 8)) as (v & -> & _); [lia|lia|]. rstep. destruct (todword_in (p + 4 + 1 + k * 8 + 4)) as (v' & -> & _); [lia|lia|]. rstep. by eexists.
  - apply Hloop; [by right|]. intros k Hk. destruct (zget_in_range l (p + 4 + k)) as [v ->]; [lia|]. by eexists.
  - rewrite s32_small by lia. rewrite <- E. apply (objects_typed f Hf Ha (or_introl E) _ _ _ _ top); try done; lia.
  - rewrite s32_small by lia. rewrite <- E. apply (objects_typed f Hf Ha (or_intror E) _ _ _ _ top); try done; lia.
Qed.

Lemma one_field_typed f top S self h value cur : f ∈ t_f st -> top < f_tag f -> state_typed i st mi top S self h ->
  (value < 0 -> exists sz, todword l cur = Ok sz /\ 0 <= sz /\ 0 <= cur /\ cur + 4 + sz <= zlen l) ->
  holds i st mi (f_tag f) S (decode_field l (decode lv) f value cur (self, h)).
Proof.
  intros Hf Ht Hs Hval. assert (stays i st mi (f_tag f) S (self, h)) as Hstay by (apply stays_refl; eapply state_mono; [exact Hs|done|apply Hs|lia]).
  assert (Hcall : is_array f = false -> forall v r', base_type f = SPROTO_TINTEGER \/ base_type f = SPROTO_TBOOLEAN ->
    holds i st mi (f_tag f) S ('(_, ud) ← decode lv (at_value 8 0 (field_args f (base_type f))) (Number v) (self, h); Ok (r', ud))).
  { intros Ha v r' Hty. eapply yields_bind; [apply (Hcb i st mi top S self h f (Number v) 8 0); try done; lia|]. by intros [r ud] Hud. }
  unfold decode_field. destruct (is_array f) eqn:Ha.
  - destruct (Z.ltb_spec value 0) as [Hneg|].
    + destruct (Hval Hneg) as (sz & Esz & H1 & H2 & H3). eapply yields_bind; [by apply (array_typed f top S self h cur sz)|]. by intros [r ud] Hud.
    + assert (negb (f_type f =? SPROTO_TINTEGER) && negb (f_type f =? SPROTO_TBOOLEAN) = true) as ->; [|done]. destruct (Z.eqb_spec (f_type f) SPROTO_TINTEGER) as [E|]; [unfold is_array in Ha; by rewrite E in Ha|]. destruct (Z.eqb_spec (f_type f) SPROTO_TBOOLEAN) as [E|]; [unfold is_array in Ha; by rewrite E in Ha|done].
  - pose proof (base_nonarray f Ha (fw_range _ _ (st_field_wf _ _ _ Hi Hf))) as Eb. specialize (Hcall eq_refl). destruct (Z.ltb_spec value 0) as [Hneg|].
    + destruct (Hval Hneg) as (sz & Esz & H1 & H2 & H3). rewrite Esz. rstep. change SIZEOF_LENGTH with 4. destruct (Z.eqb_spec (f_type f) SPROTO_TINTEGER) as [E|_].
      * destruct (Z.eqb_spec sz 4) as [->|]; [|destruct (Z.eqb_spec sz 8) as [->|]; [|done]]; cbn [negb].
        -- destruct (todword_in (cur + 4)) as (v & -> & _); [lia|lia|]. rstep. apply Hcall. left. congruence.
        -- destruct (todword_in (cur + 4)) as (v & -> & _); [lia|lia|]. rstep. destruct (todword_in (cur + 4 + 4)) as (v' & -> & _); [lia|lia|]. rstep. apply Hcall. left. congruence.
      * destruct (_ || _) eqn:Eo; [|done]. rewrite s32_small by lia. eapply yields_bind; [apply (Hcb i st mi top S self h f (Position (cur + 4)) sz 0); try done; [lia|]|by intros [r ud] Hud].
        split; [done|]. intros _. rewrite Eb. split; [|lia]. apply orb_true_iff in Eo as [Eo|Eo]; apply Z.eqb_eq in Eo; [by left|by right].
    + destruct (_ && _) eqn:Eo; [done|]. apply Hcall. rewrite Eb. apply andb_false_iff in Eo as [Eo|Eo]; apply negb_false_iff, Z.eqb_eq in Eo; [by left|by right].
Qed.

Lemma records_typed n : forall stream datastream size tag top S ud, state_typed i st mi top S ud.1 ud.2 -> top <= tag -> 0 <= stream -> stream + 2 * Z.of_nat n <= zlen l -> 0 <= datastream -> 0 <= size -> datastream + size <= zlen l ->
  yields (fun x => match x.1 with inl r => r = -1 | inr size' => 0 <= size' <= size end /\ exists top', stays i st mi top' S x.2) (records_loop l (decode lv) n st stream datastream size tag ud).
Proof.
  induction n as [|n IH]; intros stream datastream size tag top S [self h] Hs Ht Hstr Hstr2 Hds Hsz Hl; cbn [records_loop].
  { split; [cbn; lia|]. exists top. by apply stays_refl. }
  destruct (toword_in stream) as (value & -> & Hv); [lia|lia|]. rstep. change SIZEOF_FIELD with 2. assert (0 <= value / 2) as Hv2 by (apply Z.div_pos; lia).
  assert (Hrec : forall ds sz tag' top' S' ud', S ⊆ S' -> state_typed i st mi top' S' ud'.1 ud'.2 -> top' <= tag' -> 0 <= ds -> 0 <= sz <= size -> ds + sz <= zlen l ->
    yields (fun x => match x.1 with inl r => r = -1 | inr size' => 0 <= size' <= size end /\ exists top', stays i st mi top' S x.2) (records_loop l (decode lv) n st (stream + 2) ds sz tag' ud')).
  { intros ds sz tag' top' S' ud' HS Hs' Ht' H1 H2 H3. eapply yields_impl; [apply (IH (stream + 2) ds sz tag' top' S' ud'); try done; lia|]. intros [[r|r] ud2] [H4 (top2 & H5)]; cbn in *; (split; [lia|]); exists top2; by eapply stays_trans. }
  destruct (Z.odd value); [apply (Hrec _ _ _ top S); done || lia|].
  assert (Hfield : forall ds sz, 0 <= ds -> 0 <= sz <= size -> ds + sz <= zlen l -> (value / 2 - 1 < 0 -> exists sz, todword l datastream = Ok sz /\ 0 <= sz /\ 0 <= datastream /\ datastream + 4 + sz <= zlen l) ->
    yields (fun x => match x.1 with inl r => r = -1 | inr size' => 0 <= size' <= size end /\ exists top', stays i st mi top' S x.2)
      (f ← findtag st (tag + 1); match f with None => records_loop l (decode lv) n st (stream + 2) ds sz (tag + 1) (self, h)
        | Some f => '(r, ud) ← decode_field l (decode lv) f (value / 2 - 1) datastream (self, h); if r <? 0 then Ok (inl (-1), ud) else records_loop l (decode lv) n st (stream + 2) ds sz (tag + 1) ud end)).
  { intros ds sz H1 H2 H3 Hval. rewrite (findtag_find T st _ (st_wf _ _ Hi)). rstep. destruct (List.find _ _) as [f|] eqn:Ef; [|apply (Hrec _ _ _ top S); done || lia].
    apply List.find_some in Ef as [Hf Et]. apply list_elem_of_In in Hf. apply Z.eqb_eq in Et. eapply yields_bind; [apply (one_field_typed f top S self h); try done; lia|].
    intros [r ud'] (S' & HS & Hs'). destruct (r <? 0); [cbn; split; [done|]; exists (f_tag f), S'; done|]. apply (Hrec _ _ _ (f_tag f) S'); done || lia. }
  destruct (Z.ltb_spec (value / 2 - 1) 0); [|rstep; apply Hfield; lia].
  change SIZEOF_LENGTH with 4. assert (stays i st mi top S (self, h)) as Hstay by by apply stays_refl. destruct (Z.ltb_spec size 4); [rstep; cbn; split; [done|by exists top]|].
  destruct (todword_in datastream) as (sz & Esz & Hz); [lia|lia|]. rewrite Esz. rstep. rewrite !u32_small by (unfold is_u32; lia). destruct (Z.ltb_spec size (sz + 4)); [rstep; cbn; split; [done|by exists top]|]. rstep. rewrite s32_small by lia.
  apply Hfield; [lia|lia|lia|]. intros _. exists sz. split; [done|lia].
Qed.

End reading.

Lemma structs_typed lv : cb_ok lv -> structs_ok lv.
Proof.
  intros Hcb i st mi S self h p size Hi Hs Hp Hsz Hl. assert (stays i st mi (-1) S (self, h)) as Hstay by by apply stays_refl.
  unfold sproto_decode. change SIZEOF_HEADER with 2. change SIZEOF_FIELD with 2. destruct (Z.ltb_spec size 2); [cbn; split; [lia|by exists (-1)]|]. destruct (toword_in p) as (fn & -> & Hfn); [lia|lia|]. rstep.
  destruct (Z.ltb_spec (size - 2) (fn * 2)); [cbn; split; [lia|by exists (-1)]|].
  eapply yields_bind; [apply (records_typed lv Hcb i st mi Hi (Z.to_nat fn) (p + 2) (p + 2 + fn * 2) (size - 2 - fn * 2) (-1) (-1) S (self, h)); try done; lia|].
  intros [[r|r] ud] [H1 H2]; cbn in *; (split; [lia|done]).
Qed.

Lemma levels_typed lv : cb_ok lv /\ structs_ok lv.
Proof.
  induction lv as [|lv [_ IH]]; [|by split; [|apply structs_typed]; apply callback_typed]. assert (cb_ok 0) as Hcb by done. split; [done|by apply structs_typed].
Qed.

End decode_typed.

(** ** The whole message *)

Definition no_wrap (l : list Z) : Prop := forall p v, todword l p = Ok v -> v < 2 ^ 32 - 4.

Definition no_wrap_b (l : list Z) : bool := forallb (fun p => match todword l (Z.of_nat p) with Ok v => v <? 2 ^ 32 - 4 | _ => true end) (seq 0 (length l)).

Lemma no_wrap_dec l : no_wrap_b l = true -> no_wrap l.
Proof.
  unfold no_wrap_b, no_wrap. rewrite forallb_forall. intros H p v E. assert (0 <= p /\ p + 4 <= zlen l) as [Hp Hl].
  { unfold todword, slice in E. destruct (_ && _) eqn:Eb in E; [lia|done]. }
  specialize (H (Z.to_nat p)). rewrite Z2Nat.id, E in H by done. apply Z.ltb_lt, H, in_seq. unfold zlen in Hl. lia.
Qed.

(** What [ldecode] promises for any bytes: an error of Lua, or tables with the
    types of the schema, the result among them, next to the tables there were. *)
Definition typed_result (T : list sproto_type) (i : nat) (l : list Z) (h : heap) : result (nat * Z * heap) -> Prop :=
  yields (fun '(a, n, h') => n <= zlen l /\ exists S, S !! a = Some (DStruct i) /\ typed_heap T h S h').

(** C19. Decoding is safe and type preserving for any bytes of any origin in which
    no four bytes are a length of 2^32 - 4 or more: [ldecode] terminates, never
    reads outside the message or follows a bad pointer, and ends with an error of
    Lua or with new tables whose keys and values have the types that the schema
    gives them, arrays, maps and structures inside included; the tables that were
    there stay as they are. *)
Theorem ldecode_typed (T : list sproto_type) (lua_newtable : heap -> nat) (place : table -> lua_value -> nat) (Hwf : schema_wf T) (Hnew : forall h, h !! lua_newtable h = None)
  (l : list Z) (Hbytes : bytes l) (Hlen : zlen l < 2 ^ 31) (Hwrap : no_wrap l) (i : nat) (st : sproto_type) (Hi : T !! i = Some st) (h : heap) :
  typed_result T i l h (ldecode T lua_newtable place l st None h).
Proof.
  unfold ldecode, new_table. set (a := lua_newtable h). assert (typed_heap T h ∅ h) as H0 by (constructor; [intros x d Hx; by rewrite lookup_empty in Hx|done|intros x [d Hx]; by rewrite lookup_empty in Hx]).
  destruct (typed_new T lua_newtable Hnew h ∅ h (DStruct i) H0) as (_ & _ & Hh). fold a in Hh. set (S := <[a := DStruct i]> (∅ : descriptions)) in *. assert (S !! a = Some (DStruct i)) as HSa by apply lookup_insert_eq.
  pose proof (zlen_nonneg l). rewrite s32_small by lia. destruct (levels_typed T lua_newtable place Hnew h Hwf l Hbytes Hlen Hwrap ENCODE_DEEPLEVEL) as [_ Hst].
  eapply yields_bind; [apply (Hst i st (-1) S); [done|by constructor; try left|lia|lia|lia]|]. intros [r [sub h2]] [Hr (top & S' & HS & Hs)]. cbn in Hr, Hs. destruct (r <? 0); [done|]. cbn. split; [done|]. exists S'. split; [by eapply lookup_weaken|apply Hs].
Qed.

(** A name, an integer, a number for the tag 2, which is not in the schema, and
    two bytes more. *)
Definition garbled : list Z := [3; 0; 0; 0; 26; 0; 2; 0] ++ [2; 0; 0; 0; 72; 105] ++ [1; 2].

Lemma ldecode_typed_witness : typed_result schema 0 garbled people (ldecode schema (fun h => fresh (dom h)) (fun t _ => length t) garbled Person None people).
Proof.
  apply ldecode_typed.
  - exact schema_ok.
  - intros h. apply not_elem_of_dom, is_fresh.
  - repeat (apply Forall_cons; split; [by split|]). by apply Forall_nil.
  - done.
  - by apply no_wrap_dec; vm_compute.
  - done.
Defined.

(** ** Lengths that wrap *)

(** An array of integers whose length is 2^32 - 3: with the size of the length
    this is 1, which the message has room for, but the elements are read far
    behind its end. *)
Definition wrapped : list Z := [2; 0; 9; 0; 0; 0] ++ [253; 255; 255; 255; 4].


Lemma first_fault {U} (cb : sproto_arg -> decode_value -> U -> result (Z * U)) n read args ud : (0 < n)%nat -> read 0 = Fault -> elements_loop cb n read args 0 ud = Fault.
Proof. destruct n; [lia|]. intros _ E. cbn. by rewrite E. Qed.

Lemma wrapped_elements {U} (cb : sproto_arg -> decode_value -> U -> result (Z * U)) args ud : a_type args = SPROTO_TINTEGER -> decode_elements wrapped cb args 10 4294967293 ud = Fault.
Proof. intros E. unfold decode_elements. rewrite E. cbn [Z.eqb SPROTO_TINTEGER]. change (zget wrapped 10) with (Ok 4). rstep. cbn [Z.eqb Pos.eqb]. change (negb ((4294967293 - 1) mod 4 =? 0)) with false. cbv iota. rewrite first_fault; [done| |done]. apply Nat2Z.inj_lt. rewrite Z2Nat.id by done. done. Qed.

Lemma wrapped_decode {U} (cb : sproto_arg -> decode_value -> U -> result (Z * U)) ud : sproto_decode wrapped cb Person 0 11 ud = Fault.
Proof.
  assert (decode_field wrapped cb (Field 5 128 [115] None (-1)) (-1) 6 ud = Fault) as E.
  { unfold decode_field, decode_array. cbn [Z.ltb Z.compare]. change (is_array (Field 5 128 [115] None (-1))) with true. cbv iota. change (todword wrapped 6) with (Ok 4294967293). rstep. cbn [Z.eqb].
    change (6 + SIZEOF_LENGTH) with 10. by rewrite wrapped_elements. }
  lazy -[decode_field] in E |- *. by rewrite E.
Qed.

(** The bytes of this message make the decoder read behind their end: an array
    of 2^32 - 3 bytes is accepted in a message of 11. *)
Theorem wrapped_length_faults (lua_newtable : heap -> nat) (place : table -> lua_value -> nat) (h : heap) : Forall is_byte wrapped /\ ~ no_wrap wrapped /\ ldecode schema lua_newtable place wrapped Person None h = Fault.
Proof.
  split; [repeat (apply Forall_cons; split; [by split|]); by apply Forall_nil|]. split; [intros H; specialize (H 6 4294967293 eq_refl); lia|].
  unfold ldecode, new_table. change (s32 (zlen wrapped)) with 11. by rewrite wrapped_decode.
Qed.
