(* ===== verification/SprotoCreate.v ===== *)
(** * Schemas from their binary form (sproto.c, lsproto.c)

    [sproto_create] reads a schema that the schema compiler has written: itself
    a message, in which types and fields are structures. Types, fields and names
    live in a pool of chunks that are freed together. Pointers to types are
    indices. *)
From S2P Require Import Prelude CString SprotoPack Sproto SprotoSchema SprotoEncode SprotoDecode.

(** ** The pool *)

Definition CHUNK_SIZE : Z := 1000.

(** The sizes of the chunks, the newest (the [header]) first; a chunk is named by
    how many are older. [NULL] is [None]. *)
Record pool : Set := Pool {
  po_chunks : list Z;
  po_current : option nat;
  po_used : Z
}.

(** A chunk and an offset in it. *)
Notation region := (nat * Z)%type.

Definition pool_init : pool := Pool [] None 0.

Definition pool_newchunk (p : pool) (sz : Z) : region * pool :=
  ((length (po_chunks p), 0), Pool (sz :: po_chunks p) (po_current p) (po_used p)).

Definition pool_alloc (p : pool) (sz : Z) : result (region * pool) :=
  let sz := Z.land (sz + 7) (Z.lnot 7) in
  if CHUNK_SIZE <=? sz then Ok (pool_newchunk p sz)
  else
    let p := match po_current p with
      | None => let p := (pool_newchunk p CHUNK_SIZE).2 in Pool (po_chunks p) (Some (length (po_chunks p) - 1)%nat) (po_used p)
      | Some _ => p
      end in
    if sz + po_used p <=? CHUNK_SIZE then
      c ← deref (po_current p);
      Ok ((c, po_used p), Pool (po_chunks p) (po_current p) (po_used p + sz))
    else if po_used p <=? sz then Ok (pool_newchunk p sz)
    else
      let '(ret, p) := pool_newchunk p CHUNK_SIZE in
      Ok (ret, Pool (po_chunks p) (Some (length (po_chunks p) - 1)%nat) sz).

(** The chunks that [pool_release] frees. *)
Definition pool_release (p : pool) : list nat := rev (seq 0 (length (po_chunks p))).

(** ** Reading a schema *)

Definition sizeof_field : Z := 32.
Definition sizeof_sproto_type : Z := 32.
Definition sizeof_protocol : Z := 32.
Definition sizeof_sproto : Z := 48.

(** [p_request] and [p_response] are [p[SPROTO_REQUEST]] and [p[SPROTO_RESPONSE]]. *)
Record protocol : Set := Protocol {
  p_name : list Z;
  p_tag : Z;
  p_request : option nat;
  p_response : option nat
}.

Record sproto : Set := Sproto {
  sp_type : list sproto_type;
  sp_proto : list protocol
}.

(** [None]: the function returns [NULL]. *)
Notation imports A := (result (option A * pool)).

Section bundle.
Context (l : list Z).

(** A length of 2^32 - 4 or more wraps; the loop does not end for 2^32 - 4. *)
Fixpoint count_loop (fuel : nat) (stream len n : Z) : result Z :=
  match fuel with
  | O => Fault
  | S fuel =>
      if 0 <? len then
        if len <? SIZEOF_LENGTH then Ok (-1)
        else
          nsz ← todword l stream;
          let nsz := u32 (nsz + SIZEOF_LENGTH) in
          if len <? nsz then Ok (-1) else count_loop fuel (stream + nsz) (len - nsz) (n + 1)
      else Ok n
  end.

Definition count_array (stream : Z) : result Z :=
  len ← todword l stream;
  count_loop (S (Z.to_nat len)) (stream + SIZEOF_LENGTH) len 0.

(** The loop of [struct_field] over the [n] records that are left. *)
Fixpoint struct_loop (n : nat) (field stream sz : Z) : result bool :=
  match n with
  | O => Ok true
  | S n =>
      value ← toword l field;
      if negb (value =? 0) then struct_loop n (field + SIZEOF_FIELD) stream sz
      else if sz <? SIZEOF_LENGTH then Ok false
      else
        dsz ← todword l stream;
        let dsz := u32 (SIZEOF_LENGTH + dsz) in
        if sz <? dsz then Ok false else struct_loop n (field + SIZEOF_FIELD) (stream + dsz) (sz - dsz)
  end.

Definition struct_field (stream sz : Z) : result Z :=
  if sz <? SIZEOF_LENGTH then Ok (-1)
  else
    fn ← toword l stream;
    let header := SIZEOF_HEADER + SIZEOF_FIELD * fn in
    if sz <? header then Ok (-1)
    else ok ← struct_loop (Z.to_nat fn) (stream + SIZEOF_HEADER) (stream + header) (sz - header); Ok (if ok : bool then fn else -1).

(** A string is used up to its first NUL. *)
Fixpoint c_str (s : list Z) : list Z :=
  match s with [] => [] | b :: s => if b =? 0 then [] else b :: c_str s end.

Definition import_string (p : pool) (stream : Z) : result (list Z * pool) :=
  sz ← todword l stream;
  '(_, p) ← pool_alloc p (u32 (sz + 1));
  s ← slice l (stream + SIZEOF_LENGTH) sz;
  Ok (c_str s, p).

(** A field while it is read, with the local variable [array]. *)
Record importing : Set := Importing {
  im_tag : Z;
  im_type : Z;
  im_name : option (list Z);
  im_st : option nat;
  im_key : Z;
  im_array : Z
}.

Definition new_field : importing := Importing (-1) (-1) None None (-1) 0.

(** One record of a field whose value is even; the names are at [data]. *)
Definition import_record (type_n data tag value : Z) (f : importing) (p : pool) : imports importing :=
  let 'Importing ftag type name st key array := f in
  if tag =? 0 then
    if negb (value =? 0) then Ok (None, p)
    else '(name, p) ← import_string p data; Ok (Some (Importing ftag type (Some name) st key array), p)
  else if value =? 0 then Ok (None, p)
  else
    let value := value / 2 - 1 in
    Ok (
      (if tag =? 1 then if SPROTO_TSTRUCT <=? value then None else Some (Importing ftag value name st key array)
       else if tag =? 2 then
         if type_n <=? value then None
         else if 0 <=? type then None
         else Some (Importing ftag SPROTO_TSTRUCT name (Some (Z.to_nat value)) key array)
       else if tag =? 3 then Some (Importing value type name st key array)
       else if tag =? 4 then Some (Importing ftag type name st key (if negb (value =? 0) then SPROTO_TARRAY else array))
       else if tag =? 5 then Some (Importing ftag type name st value array)
       else None), p).

Fixpoint import_loop (n : nat) (type_n data stream tag : Z) (f : importing) (p : pool) : imports importing :=
  match n with
  | O => Ok (Some f, p)
  | S n =>
      let tag := tag + 1 in
      value ← toword l stream;
      if Z.odd value then import_loop n type_n data (stream + SIZEOF_FIELD) (tag + value / 2) f p
      else
        '(o, p) ← import_record type_n data tag value f p;
        match o with None => Ok (None, p) | Some f => import_loop n type_n data (stream + SIZEOF_FIELD) tag f p end
  end.

Definition import_field (type_n stream : Z) (p : pool) : imports (field * Z) :=
  sz ← todword l stream;
  let stream := stream + SIZEOF_LENGTH in
  let end_ := stream + sz in
  fn ← struct_field stream sz;
  if fn <? 0 then Ok (None, p)
  else
    let stream := stream + SIZEOF_HEADER in
    '(o, p) ← import_loop (Z.to_nat fn) type_n (stream + fn * SIZEOF_FIELD) stream (-1) new_field p;
    match o with
    | Some (Importing tag type (Some name) st key array) =>
        if (tag <? 0) || (type <? 0) then Ok (None, p) else Ok (Some (Field tag (Z.lor type array) name st key, end_), p)
    | _ => Ok (None, p)
    end.

(** The [n] fields that are left; the tags ascend from [last]. *)
Fixpoint import_fields (n : nat) (type_n stream last maxn : Z) (p : pool) : imports (list field * Z) :=
  match n with
  | O => Ok (Some ([], maxn), p)
  | S n =>
      '(o, p) ← import_field type_n stream p;
      match o with
      | None => Ok (None, p)
      | Some (f, stream) =>
          let tag := f_tag f in
          if tag <=? last then Ok (None, p)
          else
            '(o, p) ← import_fields n type_n stream tag (if last + 1 <? tag then maxn + 1 else maxn) p;
            Ok (option_map (fun '(fs, maxn) => (f :: fs, maxn)) o, p)
      end
  end.

(** The records of name and fields are 0. *)
Fixpoint zero_records (n : nat) (stream : Z) : result bool :=
  match n with
  | O => Ok true
  | S n => v ← toword l stream; if negb (v =? 0) then Ok false else zero_records n (stream + SIZEOF_FIELD)
  end.

Definition import_type (type_n stream : Z) (p : pool) : imports (sproto_type * Z) :=
  sz ← todword l stream;
  let stream := stream + SIZEOF_LENGTH in
  let end_ := stream + sz in
  fn ← struct_field stream sz;
  if (fn <=? 0) || (2 <? fn) then Ok (None, p)
  else
    zero ← zero_records (Z.to_nat fn) (stream + SIZEOF_HEADER);
    if negb zero then Ok (None, p)
    else
      let stream := stream + SIZEOF_HEADER + fn * SIZEOF_FIELD in
      '(name, p) ← import_string p stream;
      if fn =? 1 then Ok (Some (SprotoType name 0 0 0 [], end_), p)
      else
        d ← todword l stream;
        let stream := stream + d + SIZEOF_LENGTH in
        n ← count_array stream;
        if n <? 0 then Ok (None, p)
        else
          let stream := stream + SIZEOF_LENGTH in
          '(_, p) ← pool_alloc p (sizeof_field * n);
          '(o, p) ← import_fields (Z.to_nat n) type_n stream (-1) n p;
          match o with
          | None => Ok (None, p)
          | Some (fs, maxn) =>
              first ← zget fs 0;
              last ← zget fs (n - 1);
              let base := f_tag first in
              Ok (Some (SprotoType name n (if negb (f_tag last - base + 1 =? n) then -1 else base) maxn fs, end_), p)
          end.

(** A protocol while it is read. *)
Definition opt_protocol : Set := option (list Z) * Z * option nat * option nat.

(** Record [i] of a protocol whose value is even. *)
Definition protocol_record (type_n data i value : Z) (q : opt_protocol) (p : pool) : imports opt_protocol :=
  let '(name, tag, request, response) := q in
  let value := value / 2 - 1 in
  if i =? 0 then
    if negb (value =? -1) then Ok (None, p) else '(name, p) ← import_string p data; Ok (Some (Some name, tag, request, response), p)
  else
    Ok (
      (if i =? 1 then if value <? 0 then None else Some (name, value, request, response)
       else if i =? 2 then if (value <? 0) || (type_n <=? value) then None else Some (name, tag, Some (Z.to_nat value), response)
       else if i =? 3 then if (value <? 0) || (type_n <=? value) then None else Some (name, tag, request, Some (Z.to_nat value))
       else None), p).

Fixpoint protocol_loop (n : nat) (type_n data stream i : Z) (q : opt_protocol) (p : pool) : imports opt_protocol :=
  match n with
  | O => Ok (Some q, p)
  | S n =>
      value ← toword l stream;
      if Z.odd value then protocol_loop n type_n data (stream + SIZEOF_FIELD) (i + 1) q p
      else
        '(o, p) ← protocol_record type_n data i value q p;
        match o with None => Ok (None, p) | Some q => protocol_loop n type_n data (stream + SIZEOF_FIELD) (i + 1) q p end
  end.

Definition import_protocol (type_n stream : Z) (p : pool) : imports (protocol * Z) :=
  sz ← todword l stream;
  let stream := stream + SIZEOF_LENGTH in
  let end_ := stream + sz in
  fn ← struct_field stream sz;
  let stream := stream + SIZEOF_HEADER in
  '(o, p) ← protocol_loop (Z.to_nat fn) type_n (stream + SIZEOF_FIELD * fn) stream 0 (None, -1, None, None) p;
  match o with
  | Some (Some name, tag, request, response) => if tag <? 0 then Ok (None, p) else Ok (Some (Protocol name tag request response, end_), p)
  | _ => Ok (None, p)
  end.

(** [n] elements one behind the other. *)
Fixpoint import_all {A} (import : Z -> pool -> imports (A * Z)) (n : nat) (stream : Z) (p : pool) : imports (list A) :=
  match n with
  | O => Ok (Some [], p)
  | S n =>
      '(o, p) ← import stream p;
      match o with
      | None => Ok (None, p)
      | Some (x, stream) => '(o, p) ← import_all import n stream p; Ok (option_map (cons x) o, p)
      end
  end.

(** The two arrays: their counts and their data. *)
Fixpoint bundle_loop (n : nat) (sizes : list Z) (stream content : Z) (p : pool) : imports (list (Z * Z)) :=
  match n, sizes with
  | S n, size :: sizes =>
      value ← toword l stream;
      if negb (value =? 0) then Ok (None, p)
      else
        m ← count_array content;
        if m <? 0 then Ok (None, p)
        else
          '(_, p) ← pool_alloc p (m * size);
          d ← todword l content;
          '(o, p) ← bundle_loop n sizes (stream + SIZEOF_FIELD) (content + (d + SIZEOF_LENGTH)) p;
          Ok (option_map (cons (m, content + SIZEOF_LENGTH)) o, p)
  | _, _ => Ok (Some [], p)
  end.

Definition create_from_bundle (sz : Z) (p : pool) : imports sproto :=
  fn ← struct_field 0 sz;
  if (fn <? 0) || (2 <? fn) then Ok (None, p)
  else
    '(o, p) ← bundle_loop (Z.to_nat fn) [sizeof_sproto_type; sizeof_protocol] SIZEOF_HEADER (SIZEOF_HEADER + fn * SIZEOF_FIELD) p;
    match o with
    | None => Ok (None, p)
    | Some arrays =>
        let '(type_n, typedata) := default (0, 0) (arrays !! 0%nat) in
        let '(protocol_n, protocoldata) := default (0, 0) (arrays !! 1%nat) in
        '(o, p) ← import_all (import_type type_n) (Z.to_nat type_n) typedata p;
        match o with
        | None => Ok (None, p)
        | Some types =>
            '(o, p) ← import_all (import_protocol type_n) (Z.to_nat protocol_n) protocoldata p;
            Ok (option_map (Sproto types) o, p)
        end
    end.

(** The schema with its pool, or the chunks that are freed. *)
Definition sproto_create : result (sproto * pool + list nat) :=
  '(_, p) ← pool_alloc pool_init sizeof_sproto;
  '(o, p) ← create_from_bundle (zlen l) p;
  match o with
  | None => Ok (inr (pool_release p))
  | Some s => Ok (inl (s, p))
  end.

End bundle.

(** ** Queries *)

Definition sproto_prototag (sp : sproto) (name : list Z) : Z :=
  match List.find (fun p => strcmp name (p_name p) =? 0) (sp_proto sp) with Some p => p_tag p | None => -1 end.

Definition query_proto (sp : sproto) (tag : Z) : result (option protocol) :=
  bisect p_tag (sp_proto sp) tag (S (length (sp_proto sp))) 0 (zlen (sp_proto sp)).

Definition SPROTO_REQUEST : Z := 0.
Definition SPROTO_RESPONSE : Z := 1.

Definition sproto_protoquery (sp : sproto) (proto what : Z) : result (option nat) :=
  if (what <? 0) || (1 <? what) then Ok None
  else
    p ← query_proto sp proto;
    Ok (p ← p; if what =? SPROTO_REQUEST then p_request p else p_response p).

Definition sproto_protoname (sp : sproto) (proto : Z) : result (option (list Z)) :=
  p ← query_proto sp proto;
  Ok (option_map p_name p).

Definition find_type (sp : sproto) (type_name : list Z) : option nat :=
  fst <$> list_find (fun st => strcmp type_name (t_name st) = 0) (sp_type sp).

(** The tag that is asked for, and the first value returned. *)
Definition protocol_key (sp : sproto) (key : Z + list Z) : result (Z * option (list Z + Z)) :=
  match key with
  | inl tag => name ← sproto_protoname sp (s32 tag); Ok (s32 tag, option_map inl name)
  | inr name => let tag := sproto_prototag sp name in Ok (tag, if tag <? 0 then None else Some (inr tag))
  end.

(** The name or the tag, and the types of request and response. *)
Definition lprotocol (sp : sproto) (key : Z + list Z) : result (option ((list Z + Z) * option nat * option nat)) :=
  '(tag, first) ← protocol_key sp key;
  match first with
  | None => Ok None
  | Some first =>
      request ← sproto_protoquery sp tag SPROTO_REQUEST;
      response ← sproto_protoquery sp tag SPROTO_RESPONSE;
      Ok (Some (first, request, response))
  end.

(** ** Schemas shared by all Lua states *)

Definition MAX_GLOBALSPROTO : Z := 16.

(** A schema is named by a number; [slots] is [G_sproto]. *)
Definition lsaveproto (sp : option nat) (index : Z) (slots : list (option nat)) : result (list (option nat)) :=
  if (index <? 0) || (MAX_GLOBALSPROTO <=? index) then LuaError "Invalid global slot index" else zset slots index sp.

Definition lloadproto (index : Z) (slots : list (option nat)) : result nat :=
  if (index <? 0) || (MAX_GLOBALSPROTO <=? index) then LuaError "Invalid global slot index"
  else
    sp ← zget slots index;
    match sp with None => LuaError "nil sproto at index" | Some sp => Ok sp end.
