(* ===== verification/SprotoCreateProps.v ===== *)
(** * Schemas from their binary form: correctness

    What the schema compiler writes is a message in the format of SprotoSchema.v;
    [sproto_create] reads the schema back. *)
From S2P Require Import Prelude CString SprotoPack Sproto SprotoSchema SprotoEncode SprotoDecode SprotoCreate.

(** ** The binary form *)

Definition field_content (f : field) : content :=
  CMsg ((0, CStr (f_name f)) ::
    (if base_type f =? SPROTO_TSTRUCT then (2, CInt (Z.of_nat (default 0%nat (f_st f)))) else (1, CInt (base_type f))) ::
    (3, CInt (f_tag f)) ::
    (if is_array f then [(4, CBool true)] else []) ++ (if 0 <=? f_key f then [(5, CInt (f_key f))] else [])).

Definition type_content (st : sproto_type) : content :=
  CMsg ((0, CStr (t_name st)) :: match t_f st with [] => [] | fs => [(1, CArr (field_content <$> fs))] end).

Definition optional (tag : Z) (i : option nat) : list (Z * content) := match i with Some i => [(tag, CInt (Z.of_nat i))] | None => [] end.

Definition protocol_content (p : protocol) : content :=
  CMsg ((0, CStr (p_name p)) :: (1, CInt (p_tag p)) :: optional 2 (p_request p) ++ optional 3 (p_response p)).

(** [packgroup] of lualib/sprotoparser.lua: without types (and so without
    protocols) the two bytes of a message without fields. *)
Definition bundle (sp : sproto) : content :=
  match sp_type sp with
  | [] => CMsg []
  | ts => CMsg ((0, CArr (type_content <$> ts)) :: match sp_proto sp with [] => [] | ps => [(1, CArr (protocol_content <$> ps))] end)
  end.

Definition Call : protocol := Protocol [99] 4 None (Some 1%nat).
Definition Ping : protocol := Protocol [112] 7 None None.
Definition example : sproto := Sproto schema [Call; Ping].

(** ** The pool *)

Definition align (sz : Z) : Z := Z.land (sz + 7) (Z.lnot 7).

Lemma align_spec sz : 0 <= sz -> sz <= align sz < sz + 8 /\ align sz mod 8 = 0.
Proof.
  intros Hs. unfold align. assert (Z.land (sz + 7) (Z.lnot 7) = (sz + 7) / 8 * 8) as ->.
  { rewrite <- Z.ldiff_land. change 7 with (Z.ones 3) at 2. rewrite Z.ldiff_ones_r, Z.shiftl_mul_pow2, Z.shiftr_div_pow2 by lia. done. }
  split; [dlia|]. by apply Z.mod_mul.
Qed.

(** The regions handed out so far, with their sizes. *)
Definition apart (r s : region * Z) : Prop := r.1.1 <> s.1.1 \/ r.1.2 + r.2 <= s.1.2 \/ s.1.2 + s.2 <= r.1.2.

(** The size of a chunk. *)
Definition chunk_size (p : pool) (c : nat) : option Z := rev (po_chunks p) !! c.

Record pool_wf (p : pool) (regions : list (region * Z)) : Prop := PoolWf {
  pw_inside : Forall (fun r => exists n, chunk_size p r.1.1 = Some n /\ 0 <= r.1.2 /\ 0 <= r.2 /\ r.1.2 + r.2 <= n /\ r.1.2 mod 8 = 0) regions;
  pw_apart : ForallOrdPairs apart regions;
  pw_current : match po_current p with
    | None => po_used p = 0
    | Some c => chunk_size p c = Some CHUNK_SIZE /\ Forall (fun r => r.1.1 = c -> r.1.2 + r.2 <= po_used p) regions
    end;
  pw_used : 0 <= po_used p <= CHUNK_SIZE /\ po_used p mod 8 = 0
}.

Lemma chunk_size_new p sz c n : chunk_size p c = Some n -> chunk_size (pool_newchunk p sz).2 c = Some n.
Proof. unfold chunk_size. cbn. intros H. by rewrite lookup_app_l by (by eapply lookup_lt_Some). Qed.

Lemma chunk_size_last p sz : chunk_size (pool_newchunk p sz).2 (length (po_chunks p)) = Some sz.
Proof. unfold chunk_size. cbn. rewrite lookup_app_r by (by rewrite length_rev). by rewrite length_rev, Nat.sub_diag. Qed.

Lemma old_region p regions r : pool_wf p regions -> r ∈ regions -> (r.1.1 < length (po_chunks p))%nat.
Proof.
  intros [H _ _ _] Hr. rewrite Forall_forall in H. destruct (H r Hr) as (n & Hn & _). unfold chunk_size in Hn. apply lookup_lt_Some in Hn. by rewrite length_rev in Hn.
Qed.

(** A new chunk for one region. *)
Lemma newchunk_wf p regions sz : pool_wf p regions -> 0 <= sz -> pool_wf (pool_newchunk p sz).2 (((pool_newchunk p sz).1, sz) :: regions).
Proof.
  intros Hwf Hs. pose proof Hwf as [H1 H2 H3 H4]. constructor.
  - constructor; [exists sz; split; [apply chunk_size_last|]; cbn [pool_newchunk fst snd]; split_and!; [lia|lia|lia|done]|]. eapply Forall_impl; [exact H1|]. intros r (n & Hn & H). exists n. split; [by apply chunk_size_new|done].
  - constructor; [|done]. apply Forall_forall. intros r Hr. left. cbn. pose proof (old_region _ _ _ Hwf Hr). lia.
  - cbn [pool_newchunk snd po_current po_used]. destruct (po_current p) as [c|]; [|done]. destruct H3 as [H3 H5]. split; [by apply (chunk_size_new p sz)|]. constructor; [|done]. cbn. intros E.
    unfold chunk_size in H3. apply lookup_lt_Some in H3. rewrite length_rev in H3. lia.
  - done.
Qed.

(** One more region in the current chunk. *)
Lemma bump_wf p regions sz c : pool_wf p regions -> po_current p = Some c -> 0 <= sz -> sz mod 8 = 0 -> sz + po_used p <= CHUNK_SIZE ->
  pool_wf (Pool (po_chunks p) (po_current p) (po_used p + sz)) (((c, po_used p), sz) :: regions).
Proof.
  intros Hwf Hc Hs Hm Hl. pose proof Hwf as [H1 H2 H3 H4]. rewrite Hc in *. destruct H3 as [H3 H5]. constructor.
  - constructor; [|done]. exists CHUNK_SIZE. cbn. split; [done|]. split_and!; lia.
  - constructor; [|done]. eapply Forall_impl; [exact H5|]. intros r Hr. unfold apart. cbn. destruct (decide (r.1.1 = c)) as [E|]; [right; right; by apply Hr|left; congruence].
  - split; [done|]. constructor; [cbn; lia|]. eapply Forall_impl; [exact H5|]. cbn. intros r Hr E. specialize (Hr E). lia.
  - cbn. rewrite Z.add_mod by lia. destruct H4 as [H4 ->]. rewrite Hm. split; [lia|done].
Qed.

(** The next regions come from a chunk that has just been made. *)
Lemma switch_wf p regions used sz c : pool_wf p regions -> chunk_size p c = Some CHUNK_SIZE -> used <= sz <= CHUNK_SIZE -> 0 <= used -> sz mod 8 = 0 ->
  (forall r, r ∈ regions -> r.1.1 = c -> r.1.2 + r.2 <= sz) -> pool_wf (Pool (po_chunks p) (Some c) sz) regions.
Proof.
  intros [H1 H2 H3 H4] Hc Hu Hu0 Hm Hr. constructor; [done|done| |cbn; split; [lia|done]]. cbn. split; [done|]. by apply Forall_forall.
Qed.

Lemma pool_alloc_ok p regions sz : pool_wf p regions -> 0 <= sz -> exists r p', pool_alloc p sz = Ok (r, p') /\ pool_wf p' ((r, align sz) :: regions).
Proof.
  intros Hwf Hs. destruct (align_spec sz Hs) as [Ha Hm]. unfold pool_alloc. fold (align sz). destruct (Z.leb_spec CHUNK_SIZE (align sz)) as [Hbig|Hsmall].
  { eexists _, _. split; [apply f_equal, surjective_pairing|]. apply newchunk_wf; [done|lia]. }
  set (p1 := match po_current p with None => _ | Some _ => p end). assert (pool_wf p1 regions /\ exists c, po_current p1 = Some c) as [Hwf1 [c Hc]].
  { unfold p1. destruct (po_current p) as [c|] eqn:E; [split; [done|by exists c]|]. split; [|by eexists]. pose proof (pw_current _ _ Hwf) as H3. rewrite E in H3. cbn zeta. change (po_used (pool_newchunk p CHUNK_SIZE).2) with (po_used p). rewrite H3.
    pose proof (newchunk_wf p regions CHUNK_SIZE Hwf ltac:(done)) as [N1 N2 N3 N4]. apply Forall_cons in N1 as [_ N1]. inversion N2 as [|? ? _ N2']; subst. cbn in N3. rewrite E in N3.
    assert ((length (po_chunks (pool_newchunk p CHUNK_SIZE).2) - 1)%nat = length (po_chunks p)) as -> by (cbn; lia). apply (switch_wf _ _ 0); [|apply chunk_size_last|by unfold CHUNK_SIZE|done|done|].
    - constructor; [done|done|cbn; by rewrite E|cbn; by rewrite H3].
    - intros r Hr Er. pose proof (old_region _ _ _ Hwf Hr). lia. }
  clearbody p1. destruct (Z.leb_spec (align sz + po_used p1) CHUNK_SIZE) as [Hfit|Hfull].
  { rewrite Hc. cbn [deref]. rstep. rewrite <- Hc. eexists _, _. split; [done|]. apply bump_wf; try done. lia. }
  destruct (Z.leb_spec (po_used p1) (align sz)).
  { eexists _, _. split; [apply f_equal, surjective_pairing|]. apply newchunk_wf; [done|lia]. }
  pose proof (newchunk_wf p1 regions CHUNK_SIZE Hwf1 ltac:(done)) as [N1 N2 N3 N4]. eexists _, _. split; [done|].
  cbn [po_chunks length]. replace (S (length (po_chunks p1)) - 1)%nat with (length (po_chunks p1)) by lia. apply Forall_cons in N1 as [_ N1].
  apply (switch_wf (pool_newchunk p1 CHUNK_SIZE).2 _ 0); [|apply chunk_size_last|lia|done|done|].
  - constructor.
    + constructor; [|done]. exists CHUNK_SIZE. split; [apply chunk_size_last|]. cbn. split_and!; lia || done.
    + inversion N2; subst. constructor; [|done]. apply Forall_forall. intros r Hr. left. cbn. pose proof (old_region _ _ _ Hwf1 Hr). lia.
    + cbn. rewrite Hc in *. cbn in N3. rewrite Hc in N3. destruct N3 as [N3 N5]. split; [done|]. apply Forall_cons in N5 as [_ N5]. constructor; [|done]. cbn. intros E.
      pose proof (pw_current _ _ Hwf1) as H3. rewrite Hc in H3. destruct H3 as [H3 _]. unfold chunk_size in H3. apply lookup_lt_Some in H3. rewrite length_rev in H3. lia.
    + apply Hwf1.
  - intros r Hr Er. apply elem_of_cons in Hr as [->|Hr]; [cbn; lia|]. pose proof (old_region _ _ _ Hwf1 Hr). lia.
Qed.

Definition pool_ok (p : pool) : Prop := exists regions, pool_wf p regions.

Lemma alloc_ok p sz : pool_ok p -> 0 <= sz -> exists r p', pool_alloc p sz = Ok (r, p') /\ pool_ok p'.
Proof. intros [regions Hp] Hs. destruct (pool_alloc_ok p regions sz Hp Hs) as (r & p' & E & H). exists r, p'. split; [done|by eexists]. Qed.

Lemma pool_init_wf : pool_wf pool_init [].
Proof. constructor; [constructor|constructor|done|done]. Qed.

(** ** What the compiler writes *)

Record written_field (f : field) : Prop := WrittenField {
  wr_tag : f_tag f < 0x7fff;
  wr_name : cstring (f_name f);
  wr_st : scalar_type (base_type f) -> f_st f = None;
  wr_key : f_key f = -1 \/ 0 <= f_key f < 0x7fff
}.

(** The first tag if the tags are consecutive. *)
Definition base_of (fs : list field) : Z :=
  match fs with
  | [] => 0
  | f :: _ => if default 0 (f_tag <$> last fs) - f_tag f + 1 =? zlen fs then f_tag f else -1
  end.

Record written_type (st : sproto_type) : Prop := WrittenType {
  wr_type_name : cstring (t_name st);
  wr_base : t_base st = base_of (t_f st);
  wr_fields : Forall written_field (t_f st)
}.

Definition small_index (n : Z) (i : option nat) : Prop := match i with Some i => Z.of_nat i < n | None => True end.

Record written_protocol (n : Z) (p : protocol) : Prop := WrittenProtocol {
  wr_protocol_name : cstring (p_name p);
  wr_protocol_tag : 0 <= p_tag p < 0x7fff;
  wr_request : small_index n (p_request p);
  wr_response : small_index n (p_response p)
}.

Record written (sp : sproto) : Prop := Written {
  wr_schema : schema_wf (sp_type sp);
  wr_types : Forall written_type (sp_type sp);
  wr_count : zlen (sp_type sp) <= 0x7fff;
  wr_protocols : Forall (written_protocol (zlen (sp_type sp))) (sp_proto sp)
}.

(** ** Reading *)

(** The import gives [x]. *)
Definition gives {A} (x : A) (r : result (option A * pool)) : Prop := exists p, r = Ok (Some x, p) /\ pool_ok p.

Definition is_word (w : Z) : Prop := 0 <= w < 0x10000.

Fixpoint good (last : Z) (ps : list (Z * option Z * list Z)) : Prop :=
  match ps with
  | [] => True
  | (tag, v, _) :: ps => last < tag < 0x8000 /\ (forall w, v = Some w -> is_word w /\ w <> 0) /\ good tag ps
  end.

Lemma good_records last ps : -1 <= last -> good last ps -> Forall is_word (records last ps).
Proof.
  revert last. induction ps as [|[[tag v] d] ps IH]; intros la Hl H; [constructor|]. destruct H as (Ht & Hv & H). cbn [records]. apply Forall_app. split; [|constructor].
  - destruct (Z.ltb_spec 0 (tag - la - 1)); [|constructor]. constructor; [unfold is_word; lia|constructor].
  - destruct v as [w|]; [by destruct (Hv w eq_refl)|by split].
  - apply IH; [lia|done].
Qed.

Lemma inline_small z : 0 <= z < 0x7fff -> inline (CInt z) = Some ((z + 1) * 2).
Proof. intros Hz. cbn [inline]. assert (fits32 z = true) as -> by (apply fits32_spec; lia). rewrite u32_small by (unfold is_u32; lia). by destruct (Z.ltb_spec z 0x7fff); [|lia]. Qed.

Section reading.
Context (l : list Z) (Hlen : zlen l < 2 ^ 31).

Lemma read_word w ws stream : reads l stream (words (w :: ws)) -> is_word w -> toword l stream = Ok w /\ reads l (stream + 2) (words ws).
Proof. intros H Hw. unfold words in H. cbn [fmap list_fmap concat] in H. apply reads_app in H as [H1 H2]. rewrite zlen_le_bytes in H2. split; [by apply toword_ok|done]. Qed.

Lemma struct_loop_ok ps : forall last field stream sz, -1 <= last -> good last ps -> reads l field (words (records last ps)) -> reads l stream (datas ps) -> zlen (datas ps) <= sz ->
  struct_loop l (length (records last ps)) field stream sz = Ok true.
Proof.
  induction ps as [|[[tag v] d] ps IH]; intros la field stream sz Hl Hg Hr Hd Hs; [done|]. pose proof (good_records _ _ Hl Hg) as Hw. destruct Hg as (Ht & Hv & Hg). cbn [records] in *.
  assert (Hlast : forall field, reads l field (words (default 0 v :: records tag ps)) -> struct_loop l (S (length (records tag ps))) field stream sz = Ok true).
  { clear Hr. intros fd Hr. apply Forall_app in Hw as [_ Hw]. apply Forall_cons in Hw as [Hw _]. destruct (read_word _ _ _ Hr Hw) as [E Hr']. cbn [struct_loop]. rewrite E. rstep. change SIZEOF_FIELD with 2. change SIZEOF_LENGTH with 4.
    unfold datas in Hd, Hs. cbn [fmap list_fmap concat] in Hd, Hs. fold (datas ps) in Hd, Hs. apply reads_app in Hd as [Hd1 Hd2]. rewrite zlen_app in Hs. pose proof (zlen_nonneg (datas ps)). destruct v as [w|]; cbn [default from_option id field_data] in *.
    - destruct (Hv w eq_refl) as [_ Hne]. destruct (Z.eqb_spec w 0); [done|]. cbn [negb]. change (zlen (@nil Z)) with 0 in *. rewrite Z.add_0_r in Hd2. apply (IH tag); done || lia.
    - cbn [Z.eqb negb]. pose proof Hd1 as (_ & Hp0 & Hp1). rewrite zlen_block in *. pose proof (zlen_nonneg d). destruct (Z.ltb_spec sz 4); [lia|]. destruct (todword_block l stream d Hd1) as [-> _]; [lia|]. rstep.
      rewrite u32_small by (unfold is_u32; lia). destruct (Z.ltb_spec sz (4 + zlen d)); [lia|]. apply (IH tag); done || lia. }
  destruct (Z.ltb_spec 0 (tag - la - 1)); cbn [app length] in *; [|by apply Hlast]. apply Forall_cons in Hw as [Hw _]. destruct (read_word _ _ _ Hr Hw) as [E Hr']. cbn [struct_loop]. rewrite E. rstep.
  destruct (Z.eqb_spec ((tag - la - 1 - 1) * 2 + 1) 0); [lia|]. cbn [negb]. change SIZEOF_FIELD with 2. by apply Hlast.
Qed.

(** The parts of a message. *)
Lemma struct_field_ok ps stream : good (-1) ps -> ps <> [] -> zlen (records (-1) ps) < 0x10000 -> reads l stream (message ps) ->
  struct_field l stream (zlen (message ps)) = Ok (zlen (records (-1) ps)) /\ reads l (stream + 2) (words (records (-1) ps)) /\ reads l (stream + 2 + zlen (records (-1) ps) * 2) (datas ps).
Proof.
  intros Hg Hne Hn Hr. unfold message in Hr. fold (words (records (-1) ps)) in Hr. apply reads_app in Hr as [W1 Hr]. apply reads_app in Hr as [W2 W3]. rewrite zlen_words, zlen_le_bytes in *. pose proof (zlen_nonneg (records (-1) ps)).
  replace (stream + Z.of_nat 2 + 2 * zlen (records (-1) ps)) with (stream + 2 + zlen (records (-1) ps) * 2) in W3 by lia. change (stream + Z.of_nat 2) with (stream + 2) in W2. split; [|done].
  assert (1 <= zlen (records (-1) ps)) as H1. { destruct ps as [|[[tag v] d] ps]; [done|]. cbn [records]. rewrite zlen_app, zlen_cons. pose proof (zlen_nonneg (if 0 <? tag - -1 - 1 then [(tag - -1 - 1 - 1) * 2 + 1] else [])). pose proof (zlen_nonneg (records tag ps)). lia. }
  assert (zlen (message ps) = 2 + 2 * zlen (records (-1) ps) + zlen (datas ps)) as -> by (unfold message; fold (words (records (-1) ps)); rewrite !zlen_app, zlen_words, zlen_le_bytes; lia). pose proof (zlen_nonneg (datas ps)).
  unfold struct_field. change SIZEOF_LENGTH with 4. change SIZEOF_HEADER with 2. change SIZEOF_FIELD with 2. destruct (Z.ltb_spec (2 + 2 * zlen (records (-1) ps) + zlen (datas ps)) 4); [lia|]. rewrite (toword_ok _ _ _ W1) by lia. rstep.
  destruct (Z.ltb_spec (2 + 2 * zlen (records (-1) ps) + zlen (datas ps)) (2 + 2 * zlen (records (-1) ps))); [lia|]. replace (Z.to_nat (zlen (records (-1) ps))) with (length (records (-1) ps)) by (unfold zlen; lia).
  rewrite (struct_loop_ok ps (-1)); [done|lia|done|done| |lia]. by replace (stream + (2 + 2 * zlen (records (-1) ps))) with (stream + 2 + zlen (records (-1) ps) * 2) by lia.
Qed.

Lemma c_str_id s : cstring s -> c_str s = s.
Proof. induction 1 as [|b s Hb _ IH]; [done|]. cbn [c_str]. destruct (Z.eqb_spec b 0); [lia|]. by rewrite IH. Qed.

Lemma import_string_ok p stream s : pool_ok p -> reads l stream (block s) -> cstring s -> exists p', import_string l p stream = Ok (s, p') /\ pool_ok p'.
Proof.
  intros Hp Hr Hs. pose proof Hr as (_ & Hp0 & Hp1). rewrite zlen_block in Hp1. pose proof (zlen_nonneg s). destruct (todword_block l stream s Hr) as [E Hr']; [lia|]. unfold import_string. rewrite E. rstep.
  rewrite u32_small by (unfold is_u32; lia). destruct (alloc_ok p (zlen s + 1) Hp ltac:(lia)) as (r & p' & -> & Hp'). rstep. change SIZEOF_LENGTH with 4. rewrite (reads_slice _ _ _ _ Hr') by done. rstep. exists p'. by rewrite c_str_id.
Qed.

(** A list of blocks. *)
Lemma count_array_ok (ds : list (list Z)) stream : reads l stream (block (concat (block <$> ds))) -> count_array l stream = Ok (zlen ds).
Proof.
  intros Hr. pose proof Hr as (_ & Hp0 & Hp1). rewrite zlen_block in Hp1. destruct (todword_block l stream _ Hr) as [E Hr']; [lia|]. unfold count_array. rewrite E. rstep. change SIZEOF_LENGTH with 4. clear Hr E.
  assert (Hgo : forall ds fuel stream n, zlen (concat (block <$> ds)) < Z.of_nat fuel -> reads l stream (concat (block <$> ds)) -> count_loop l fuel stream (zlen (concat (block <$> ds))) n = Ok (n + zlen ds)).
  { clear -Hlen. induction ds as [|d ds IH]; intros [|fuel] stream n Hf Hr; [by cbn in Hf| |by pose proof (zlen_nonneg (concat (block <$> d :: ds))); lia|].
    { cbn. f_equal. change (zlen (@nil (list Z))) with 0. lia. }
    cbn [fmap list_fmap concat] in Hf, Hr |- *. apply reads_app in Hr as [H1 H2]. rewrite zlen_app in *. rewrite zlen_block in *. pose proof (zlen_nonneg d). pose proof (zlen_nonneg (concat (block <$> ds))). cbn [count_loop]. change SIZEOF_LENGTH with 4.
    destruct (Z.ltb_spec 0 (4 + zlen d + zlen (concat (block <$> ds)))); [|lia]. destruct (Z.ltb_spec (4 + zlen d + zlen (concat (block <$> ds))) 4); [lia|]. pose proof H1 as (_ & Hp0 & Hp1). rewrite zlen_block in Hp1. destruct (todword_block l stream d H1) as [-> _]; [lia|]. rstep.
    rewrite u32_small by (unfold is_u32; lia). destruct (Z.ltb_spec (4 + zlen d + zlen (concat (block <$> ds))) (zlen d + 4)); [lia|]. replace (4 + zlen d + zlen (concat (block <$> ds)) - (zlen d + 4)) with (zlen (concat (block <$> ds))) by lia. replace (stream + (zlen d + 4)) with (stream + (4 + zlen d)) by lia.
    rewrite IH; [rewrite zlen_cons; f_equal; lia|lia|done]. }
  apply Hgo; [lia|done].
Qed.

(** *** Fields *)

Fixpoint import_words (type_n data : Z) (ws : list Z) (tag : Z) (f : importing) (p : pool) : result (option importing * pool) :=
  match ws with
  | [] => Ok (Some f, p)
  | value :: ws =>
      let tag := tag + 1 in
      if Z.odd value then import_words type_n data ws (tag + value / 2) f p
      else
        '(o, p) ← import_record l type_n data tag value f p;
        match o with None => Ok (None, p) | Some f => import_words type_n data ws tag f p end
  end.

Lemma import_loop_words type_n data ws : forall stream tag f p, Forall is_word ws -> reads l stream (words ws) -> import_loop l (length ws) type_n data stream tag f p = import_words type_n data ws tag f p.
Proof.
  induction ws as [|w ws IH]; intros stream tag f p Hw Hr; [done|]. apply Forall_cons in Hw as [Hw Hws]. destruct (read_word _ _ _ Hr Hw) as [E Hr']. cbn [length import_loop import_words]. rewrite E. rstep. change SIZEOF_FIELD with 2.
  destruct (Z.odd w); [by apply IH|]. destruct (import_record l type_n data (tag + 1) w f p) as [[[f'|] p']| |]; rstep; try done. by apply IH.
Qed.

(** A record with the number [v]. *)
Lemma even_word v : Z.odd ((v + 1) * 2) = false /\ (v + 1) * 2 / 2 - 1 = v.
Proof. split; [rewrite Z.mul_comm; apply Z.odd_mul|]. rewrite Z.div_mul by lia. lia. Qed.

Lemma import_words_skip type_n data ws tag tag' f p : tag + 1 = tag' -> import_words type_n data (1 :: ws) tag f p = import_words type_n data ws tag' f p.
Proof. intros <-. cbn [import_words]. change (Z.odd 1) with true. cbv iota. f_equal. change (1 / 2) with 0. lia. Qed.

Lemma import_words_value type_n data v ws tag tag' f p : tag + 1 = tag' -> 0 <= v ->
  import_words type_n data ((v + 1) * 2 :: ws) tag f p =
    '(o, p) ← import_record l type_n data tag' ((v + 1) * 2) f p;
    match o with None => Ok (None, p) | Some f => import_words type_n data ws tag' f p end.
Proof. intros <- Hv. cbn [import_words]. by destruct (even_word v) as [-> _]. Qed.

Lemma import_record_value type_n data tag v f p : 0 <= v -> tag <> 0 ->
  import_record l type_n data tag ((v + 1) * 2) f p =
    let 'Importing ftag type name st key array := f in
    Ok (
      (if tag =? 1 then if SPROTO_TSTRUCT <=? v then None else Some (Importing ftag v name st key array)
       else if tag =? 2 then
         if type_n <=? v then None
         else if 0 <=? type then None
         else Some (Importing ftag SPROTO_TSTRUCT name (Some (Z.to_nat v)) key array)
       else if tag =? 3 then Some (Importing v type name st key array)
       else if tag =? 4 then Some (Importing ftag type name st key (if negb (v =? 0) then SPROTO_TARRAY else array))
       else if tag =? 5 then Some (Importing ftag type name st v array)
       else None), p).
Proof.
  intros Hv Ht. unfold import_record. destruct f as [ftag type name st key array]. destruct (Z.eqb_spec tag 0); [done|]. destruct (Z.eqb_spec ((v + 1) * 2) 0); [lia|]. cbn zeta. by destruct (even_word v) as [_ ->].
Qed.

Definition field_words (f : field) : list Z :=
  0 :: (if base_type f =? SPROTO_TSTRUCT then [1; (Z.of_nat (default 0%nat (f_st f)) + 1) * 2] else [(base_type f + 1) * 2; 1]) ++
  (f_tag f + 1) * 2 :: (if is_array f then [(1 + 1) * 2] else []) ++ (if 0 <=? f_key f then [(f_key f + 1) * 2] else []).

(** What a field must satisfy; [type_n] types are in the schema. *)
Record plain_field (type_n : Z) (f : field) : Prop := PlainField {
  pf_tag : 0 <= f_tag f < 0x7fff;
  pf_type : Z.lor (base_type f) (if is_array f then SPROTO_TARRAY else 0) = f_type f;
  pf_base : (0 <= base_type f < SPROTO_TSTRUCT /\ f_st f = None) \/ (base_type f = SPROTO_TSTRUCT /\ exists i, f_st f = Some i /\ Z.of_nat i < type_n);
  pf_key : f_key f = -1 \/ (is_array f = true /\ 0 <= f_key f < 0x7fff);
  pf_name : cstring (f_name f)
}.

Definition field_parts (f : field) : list (Z * option Z * list Z) := parts ((0, CStr (f_name f)) ::
    (if base_type f =? SPROTO_TSTRUCT then (2, CInt (Z.of_nat (default 0%nat (f_st f)))) else (1, CInt (base_type f))) ::
    (3, CInt (f_tag f)) ::
    (if is_array f then [(4, CBool true)] else []) ++ (if 0 <=? f_key f then [(5, CInt (f_key f))] else [])).

Lemma field_layout type_n f : type_n <= 0x7fff -> plain_field type_n f -> records (-1) (field_parts f) = field_words f /\ datas (field_parts f) = block (f_name f) /\ good (-1) (field_parts f).
Proof.
  intros Hn [Ht _ Hb Hk _]. unfold field_parts, field_words.
  assert (Hgood : forall z w, 0 <= z < 0x7fff -> Some ((z + 1) * 2) = Some w -> is_word w /\ w <> 0) by (intros z w Hz [= <-]; unfold is_word; lia).
  assert (Hg1 : forall w, Some ((1 + 1) * 2) = Some w -> is_word w /\ w <> 0) by (intros w [= <-]; by split).
  assert (Htail : forall last, last < 3 -> let ps := parts ((3, CInt (f_tag f)) :: (if is_array f then [(4, CBool true)] else []) ++ (if 0 <=? f_key f then [(5, CInt (f_key f))] else [])) in
    records last ps = (if 0 <? 3 - last - 1 then [(3 - last - 1 - 1) * 2 + 1] else []) ++ (f_tag f + 1) * 2 :: (if is_array f then [(1 + 1) * 2] else []) ++ (if 0 <=? f_key f then [(f_key f + 1) * 2] else []) /\ datas ps = [] /\ good last ps).
  { intros la Hla. cbn zeta. unfold parts. cbn [fmap list_fmap]. rewrite (inline_small (f_tag f)) by lia. destruct Hk as [Hk|[Ha Hk]].
    - rewrite Hk. cbn [Z.leb Z.compare]. rewrite app_nil_r. destruct (is_array f); cbn [app fmap list_fmap records good inline Z.ltb Z.compare Z.sub Z.add Z.opp Z.pos_sub]; (split; [done|]); (split; [done|]); repeat (split; [lia|]; split; [first [exact Hg1|intros w; apply Hgood; lia]|]); done.
    - rewrite Ha. destruct (Z.leb_spec 0 (f_key f)); [|lia]. cbn [app fmap list_fmap]. rewrite (inline_small (f_key f)) by lia. cbn [records good inline]. split; [done|]. split; [done|]. repeat (split; [lia|]; split; [first [exact Hg1|intros w; apply Hgood; lia]|]); done. }
  destruct Hb as [[Hb Hst]|[Hb (i & Hst & Hi)]].
  - unfold SPROTO_TSTRUCT in *. destruct (Z.eqb_spec (base_type f) 3); [lia|]. destruct (Htail 1 ltac:(lia)) as (E1 & E2 & E3). unfold parts in *. cbn [fmap list_fmap] in *. rewrite (inline_small (base_type f)) by lia. cbn [records] in *. unfold datas in *. cbn [fmap list_fmap concat field_data inline] in *.
    rewrite E1, E2. split; [done|]. split; [by rewrite app_nil_r|]. cbn [good]. split; [lia|]. split; [by intros w|]. split; [lia|]. split; [|exact E3]. intros w. apply Hgood. lia.
  - rewrite Hb, Hst. cbn [default from_option id]. unfold SPROTO_TSTRUCT. cbn [Z.eqb Pos.eqb]. destruct (Htail 2 ltac:(lia)) as (E1 & E2 & E3). unfold parts in *. cbn [fmap list_fmap] in *. rewrite (inline_small (Z.of_nat i)) by lia. cbn [records] in *. unfold datas in *. cbn [fmap list_fmap concat field_data inline] in *.
    rewrite E1, E2. split; [done|]. split; [by rewrite app_nil_r|]. cbn [good]. split; [lia|]. split; [by intros w|]. split; [lia|]. split; [|exact E3]. intros w. apply Hgood. lia.
Qed.

(** The record of tag [k]. *)
Ltac record_step k := rewrite (import_words_value _ _ _ _ _ k) by lia; rewrite import_record_value by lia; rstep; cbn [Z.eqb Pos.eqb].

Lemma import_field_words type_n data f p : type_n <= 0x7fff -> plain_field type_n f -> pool_ok p -> reads l data (block (f_name f)) ->
  gives (Importing (f_tag f) (base_type f) (Some (f_name f)) (f_st f) (f_key f) (if is_array f then SPROTO_TARRAY else 0)) (import_words type_n data (field_words f) (-1) new_field p).
Proof.
  intros Hn [Ht _ Hb Hk Hname] Hp Hr. destruct (import_string_ok p data _ Hp Hr Hname) as (p' & E & Hp'). exists p'. split; [|done]. unfold field_words. cbn [import_words app]. change (Z.odd 0) with false. cbv iota. change (-1 + 1) with 0. unfold import_record at 1. cbn [new_field Z.eqb negb]. rewrite E. rstep.
  assert (Htail : forall ty st, import_words type_n data ((f_tag f + 1) * 2 :: (if is_array f then [(1 + 1) * 2] else []) ++ (if 0 <=? f_key f then [(f_key f + 1) * 2] else [])) 2 (Importing (-1) ty (Some (f_name f)) st (-1) 0) p' =
    Ok (Some (Importing (f_tag f) ty (Some (f_name f)) st (f_key f) (if is_array f then SPROTO_TARRAY else 0)), p')).
  { intros ty st. record_step 3. destruct Hk as [Hk|[Ha Hk]].
    - rewrite Hk. cbn [Z.leb Z.compare]. rewrite app_nil_r. destruct (is_array f); [|done]. record_step 4. done.
    - rewrite Ha. destruct (Z.leb_spec 0 (f_key f)); [|lia]. cbn [app]. record_step 4. record_step 5. done. }
  destruct Hb as [[Hb Hst]|[Hb (i & Hst & Hi)]].
  - unfold SPROTO_TSTRUCT in *. destruct (Z.eqb_spec (base_type f) 3); [lia|]. cbn [app]. record_step 1. unfold SPROTO_TSTRUCT. destruct (Z.leb_spec 3 (base_type f)); [lia|]. rewrite (import_words_skip _ _ _ _ 2) by lia. rewrite Hst. apply Htail.
  - rewrite Hb, Hst. cbn [default from_option id Z.eqb Pos.eqb SPROTO_TSTRUCT app]. rewrite (import_words_skip _ _ _ _ 1) by lia. record_step 2. destruct (Z.leb_spec type_n (Z.of_nat i)); [lia|]. cbn [Z.leb Z.compare]. rewrite Nat2Z.id. apply Htail.
Qed.

(** The block of contents [c]. *)
Notation block_of c := (block (payload c)).

Lemma import_field_ok type_n f stream p : type_n <= 0x7fff -> plain_field type_n f -> pool_ok p -> reads l stream (block_of (field_content f)) ->
  gives (f, stream + zlen (block_of (field_content f))) (import_field l type_n stream p).
Proof.
  intros Hn Hf Hp Hr. destruct (field_layout type_n f Hn Hf) as (E1 & E2 & Hg). change (payload (field_content f)) with (message (field_parts f)) in *. pose proof Hr as (_ & Hp0 & Hp1). rewrite zlen_block in *. destruct (todword_block l stream _ Hr) as [Esz Hm]; [lia|].
  assert (zlen (field_words f) < 0x10000 /\ 0 <= zlen (field_words f)) as [Hw Hw0]. { split; [|apply zlen_nonneg]. unfold field_words. rewrite zlen_cons, !zlen_app, zlen_cons, zlen_app. destruct (base_type f =? SPROTO_TSTRUCT), (is_array f), (0 <=? f_key f); by vm_compute. }
  destruct (struct_field_ok (field_parts f) (stream + 4) Hg) as (Efn & Hws & Hds); [done|by rewrite E1|done|]. rewrite E1, E2 in *. unfold import_field. rewrite Esz. rstep. change SIZEOF_LENGTH with 4. rewrite Efn. rstep. destruct (Z.ltb_spec (zlen (field_words f)) 0); [lia|].
  change SIZEOF_HEADER with 2. change SIZEOF_FIELD with 2. replace (Z.to_nat (zlen (field_words f))) with (length (field_words f)) by (unfold zlen; lia).
  rewrite import_loop_words; [|rewrite <- E1; by apply good_records|done]. destruct (import_field_words type_n (stream + 4 + 2 + zlen (field_words f) * 2) f p Hn Hf Hp Hds) as (p' & -> & Hp'). rstep. destruct Hf as [Ht Hty Hb _ _].
  exists p'. split; [|done]. unfold SPROTO_TSTRUCT in Hb. destruct (Z.ltb_spec (f_tag f) 0); [lia|]. destruct (Z.ltb_spec (base_type f) 0); [lia|]. cbn [orb]. rewrite Hty. do 4 f_equal; [by destruct f|lia].
Qed.

Lemma import_fields_ok type_n fs : type_n <= 0x7fff -> Forall (plain_field type_n) fs -> forall last stream maxn p, tags_ascend last fs -> pool_ok p -> reads l stream (concat (block <$> (payload <$> (field_content <$> fs)))) ->
  gives (fs, maxn + records_room last fs - zlen fs) (import_fields l (length fs) type_n stream last maxn p).
Proof.
  intros Hn. induction 1 as [|f fs Hf Hfs IH]; intros la stream maxn p Ha Hp Hr; cbn [import_fields length].
  - exists p. split; [|done]. cbn [records_room]. change (zlen (@nil field)) with 0. do 4 f_equal. lia.
  - destruct Ha as [Ht Ha]. cbn [fmap list_fmap concat] in Hr. apply reads_app in Hr as [Hr1 Hr2]. destruct (import_field_ok type_n f stream p Hn Hf Hp Hr1) as (p1 & -> & Hp1). rstep. destruct (Z.leb_spec (f_tag f) la); [lia|].
    destruct (IH (f_tag f) _ (if la + 1 <? f_tag f then maxn + 1 else maxn) p1 Ha Hp1 Hr2) as (p2 & -> & Hp2). rstep. exists p2. split; [|done]. cbn [option_map records_room]. rewrite zlen_cons. do 4 f_equal. destruct (la + 1 <? f_tag f); lia.
Qed.

(** A structure whose fields all have data. *)
Lemma two_layout (d1 d2 : list Z) : let ps := [(0, None, d1); (1, None, d2)] in records (-1) ps = [0; 0] /\ datas ps = block d1 ++ block d2 /\ good (-1) ps.
Proof. cbn. rewrite app_nil_r. split; [done|]. split; [done|]. split_and!; done. Qed.

Lemma one_layout (d1 : list Z) : let ps := [(0, None, d1)] in records (-1) ps = [0] /\ datas ps = block d1 /\ good (-1) ps.
Proof. cbn. rewrite app_nil_r. split; [done|]. split; [done|]. split_and!; done. Qed.

Lemma zero_words n stream : reads l stream (words (replicate n 0)) -> zero_records l n stream = Ok true.
Proof.
  revert stream. induction n as [|n IH]; intros stream Hr; [done|]. cbn [zero_records]. destruct (read_word 0 (replicate n 0) stream Hr) as [-> Hr']; [done|]. rstep. by apply IH.
Qed.

Lemma payload_structs (fs : list content) : Forall (fun c => exists x, c = CMsg x) fs -> payload (CArr fs) = concat (block <$> (payload <$> fs)).
Proof. intros H. destruct fs as [|c fs]; [done|]. apply Forall_cons in H as [[x ->] _]. cbn [payload]. f_equal. rewrite <- list_fmap_compose. done. Qed.

Lemma fields_struct fs : Forall (fun c => exists x, c = CMsg x) (field_content <$> fs).
Proof. apply Forall_fmap, Forall_true. intros f. by eexists. Qed.

Lemma split_type t : 0 <= t < 256 -> Z.lor (Z.land t (Z.lnot SPROTO_TARRAY)) (if negb (Z.land t SPROTO_TARRAY =? 0) then SPROTO_TARRAY else 0) = t.
Proof.
  intros Ht. assert (forallb (fun n => Z.lor (Z.land (Z.of_nat n) (Z.lnot SPROTO_TARRAY)) (if negb (Z.land (Z.of_nat n) SPROTO_TARRAY =? 0) then SPROTO_TARRAY else 0) =? Z.of_nat n) (seq 0 256) = true) as H by by vm_compute.
  rewrite forallb_forall in H. specialize (H (Z.to_nat t)). rewrite Z2Nat.id in H by lia. apply Z.eqb_eq, H, in_seq. lia.
Qed.

Lemma written_plain T f : field_wf T f -> written_field f -> 0 <= f_tag f -> plain_field (zlen T) f.
Proof.
  intros Hf [H1 H2 H3 H4] Ht. constructor; [done|apply split_type, Hf| | |done].
  - destruct (fw_type _ _ Hf) as [Hs|Hs]; [left; split; [unfold SPROTO_TSTRUCT; destruct Hs as [-> |[-> | ->]]; done|by apply H3]|right]. split; [done|]. destruct (fw_st _ _ Hf Hs) as (i & st & Ei & Est). exists i. split; [done|]. apply lookup_lt_Some in Est. unfold zlen. lia.
  - destruct H4 as [H4|H4]; [by left|right]. split; [|done]. by destruct (fw_key _ _ Hf (proj1 H4)) as [? _].
Qed.

Lemma import_type_ok T st stream p : zlen T <= 0x7fff -> type_wf T st -> written_type st -> pool_ok p -> reads l stream (block_of (type_content st)) ->
  gives (st, stream + zlen (block_of (type_content st))) (import_type l (zlen T) stream p).
Proof.
  intros Hn [H1 H2 H3 _ H5] [W1 W2 W3] Hp Hr. pose proof Hr as (_ & Hp0 & Hp1). destruct (todword_block l stream _ Hr) as [Esz Hm]; [rewrite zlen_block in Hp1; lia|]. rewrite zlen_block in *. unfold import_type. rewrite Esz. rstep. change SIZEOF_LENGTH with 4. change SIZEOF_HEADER with 2. change SIZEOF_FIELD with 2.
  destruct st as [name n base maxn fs]. cbn [t_name t_n t_base t_maxn t_f] in *. subst n maxn base. destruct fs as [|f0 fs0].
  - destruct (one_layout name) as (E1 & E2 & Hg). change (payload (type_content _)) with (message [(0, None, name)]) in *. destruct (struct_field_ok [(0, None, name)] (stream + 4) Hg) as (Efn & Hws & Hds); [done|by rewrite E1|done|]. rewrite E1, E2 in *. rewrite Efn. rstep. change (zlen [0]) with 1 in *. cbn [Z.leb Z.ltb Z.compare orb Z.to_nat].
    change (Pos.to_nat 1) with 1%nat. rewrite (zero_words 1) by exact Hws. rstep. cbn [negb]. change (1 * 2) with 2 in Hds |- *. destruct (import_string_ok p _ name Hp Hds W1) as (p' & -> & Hp'). rstep. cbn [Z.eqb Pos.eqb]. exists p'. split; [|done]. do 4 f_equal. lia.
  - set (fs := f0 :: fs0) in *. set (blocks := concat (block <$> (payload <$> (field_content <$> fs)))). destruct (two_layout name blocks) as (E1 & E2 & Hg).
    assert (payload (type_content (SprotoType name (zlen fs) (base_of fs) (records_room (-1) fs) fs)) = message [(0, None, name); (1, None, blocks)]) as Em by (unfold blocks; rewrite <- payload_structs by apply fields_struct; done). rewrite Em in *.
    destruct (struct_field_ok [(0, None, name); (1, None, blocks)] (stream + 4) Hg) as (Efn & Hws & Hds); [done|by rewrite E1|done|]. rewrite E1, E2 in *. rewrite Efn. rstep. change (zlen [0; 0]) with 2 in *. cbn [Z.leb Z.ltb Z.compare orb Pos.compare Pos.compare_cont].
    change (Z.to_nat 2) with 2%nat. rewrite (zero_words 2) by exact Hws. rstep. cbn [negb]. change (2 * 2) with 4 in Hds |- *. apply reads_app in Hds as [Hd1 Hd2]. destruct (import_string_ok p _ name Hp Hd1 W1) as (p1 & -> & Hp1'). rstep. cbn [Z.eqb Pos.eqb].
    pose proof Hd1 as (_ & _ & Hl1). rewrite zlen_block in Hl1. destruct (todword_block l _ name Hd1) as [-> _]; [lia|]. rstep. rewrite zlen_block in Hd2. replace (stream + 4 + 2 + 4 + (4 + zlen name)) with (stream + 4 + 2 + 4 + zlen name + 4) in Hd2 by lia.
    rewrite (count_array_ok (payload <$> (field_content <$> fs))) by exact Hd2. rstep. assert (zlen (payload <$> (field_content <$> fs)) = zlen fs) as -> by (unfold zlen; by rewrite !length_fmap). pose proof (zlen_nonneg fs). destruct (Z.ltb_spec (zlen fs) 0); [lia|].
    destruct (alloc_ok p1 (sizeof_field * zlen fs) Hp1') as (r & p2 & -> & Hp2); [unfold sizeof_field; lia|]. rstep. replace (Z.to_nat (zlen fs)) with (length fs) by (unfold zlen; lia).
    destruct (todword_block l _ blocks Hd2) as [_ Hbl]; [pose proof Hd2 as (_ & _ & Hl2); rewrite zlen_block in Hl2; pose proof (zlen_nonneg name); lia|]. assert (Forall (plain_field (zlen T)) fs) as Hplain.
    { pose proof (tags_ascend_head _ _ H2) as Htags. rewrite Forall_forall in *. intros f Hf. apply written_plain; [by apply H5|by apply W3|]. specialize (Htags f Hf). lia. }
    destruct (import_fields_ok (zlen T) fs Hn Hplain (-1) _ (zlen fs) p2 H2 Hp2 Hbl) as (p3 & -> & Hp3). rstep. destruct (zget_in_range fs 0) as [first Ef]; [unfold fs; rewrite zlen_cons; pose proof (zlen_nonneg fs0); lia|]. rewrite Ef. rstep.
    destruct (zget_in_range fs (zlen fs - 1)) as [lst El]; [unfold fs; rewrite zlen_cons; pose proof (zlen_nonneg fs0); lia|]. rewrite El. rstep. apply zget_Ok in Ef as [_ Ef]. apply zget_Ok in El as [_ El]. exists p3. split; [|done].
    assert (last fs = Some lst) as Elast by (rewrite last_lookup; replace (Init.Nat.pred (length fs)) with (Z.to_nat (zlen fs - 1)) by (unfold zlen; lia); done). cbn in Ef. injection Ef as <-. unfold base_of. fold fs. rewrite Elast. cbn [fmap option_fmap option_map default from_option id].
    do 4 f_equal; [|lia]. f_equal; [|lia]. unfold fs at 2. by destruct (f_tag lst - f_tag f0 + 1 =? zlen fs).
Qed.

(** *** Protocols *)

Fixpoint protocol_fold (type_n data : Z) (ws : list Z) (i : Z) (q : opt_protocol) (p : pool) : result (option opt_protocol * pool) :=
  match ws with
  | [] => Ok (Some q, p)
  | value :: ws =>
      if Z.odd value then protocol_fold type_n data ws (i + 1) q p
      else
        '(o, p) ← protocol_record l type_n data i value q p;
        match o with None => Ok (None, p) | Some q => protocol_fold type_n data ws (i + 1) q p end
  end.

Lemma protocol_loop_words type_n data ws : forall stream i q p, Forall is_word ws -> reads l stream (words ws) -> protocol_loop l (length ws) type_n data stream i q p = protocol_fold type_n data ws i q p.
Proof.
  induction ws as [|w ws IH]; intros stream i q p Hw Hr; [done|]. apply Forall_cons in Hw as [Hw Hws]. destruct (read_word _ _ _ Hr Hw) as [E Hr']. cbn [length protocol_loop protocol_fold]. rewrite E. rstep. change SIZEOF_FIELD with 2.
  destruct (Z.odd w); [by apply IH|]. destruct (protocol_record l type_n data i w q p) as [[[q'|] p']| |]; rstep; try done. by apply IH.
Qed.

Lemma protocol_fold_value type_n data v ws i q p : 0 <= v -> i <> 0 ->
  protocol_fold type_n data ((v + 1) * 2 :: ws) i q p =
    let '(name, tag, request, response) := q in
    match (if i =? 1 then if v <? 0 then None else Some (name, v, request, response)
       else if i =? 2 then if (v <? 0) || (type_n <=? v) then None else Some (name, tag, Some (Z.to_nat v), response)
       else if i =? 3 then if (v <? 0) || (type_n <=? v) then None else Some (name, tag, request, Some (Z.to_nat v))
       else None) with
    | None => Ok (None, p)
    | Some q => protocol_fold type_n data ws (i + 1) q p
    end.
Proof.
  intros Hv Hi. cbn [protocol_fold]. destruct (even_word v) as [-> E]. unfold protocol_record. destruct q as [[[name tag] request] response]. cbn zeta. destruct (Z.eqb_spec i 0); [done|]. by rewrite E.
Qed.

Lemma protocol_fold_name n data ws p : protocol_fold n data (0 :: ws) 0 (None, -1, None, None) p =
  '(name, p) ← import_string l p data; protocol_fold n data ws 1 (Some name, -1, None, None) p.
Proof. cbn [protocol_fold]. change (Z.odd 0) with false. cbv iota. unfold protocol_record. cbn [Z.eqb]. change (negb (0 / 2 - 1 =? -1)) with false. cbv iota. by destruct (import_string l p data) as [[name p']| |]. Qed.

Definition protocol_words (p : protocol) : list Z :=
  0 :: (p_tag p + 1) * 2 ::
  match p_request p, p_response p with
  | Some i, Some j => [(Z.of_nat i + 1) * 2; (Z.of_nat j + 1) * 2]
  | Some i, None => [(Z.of_nat i + 1) * 2]
  | None, Some j => [1; (Z.of_nat j + 1) * 2]
  | None, None => []
  end.

Definition protocol_parts (p : protocol) : list (Z * option Z * list Z) := parts ((0, CStr (p_name p)) :: (1, CInt (p_tag p)) :: optional 2 (p_request p) ++ optional 3 (p_response p)).

Lemma protocol_layout n p : n <= 0x7fff -> written_protocol n p -> records (-1) (protocol_parts p) = protocol_words p /\ datas (protocol_parts p) = block (p_name p) /\ good (-1) (protocol_parts p).
Proof.
  intros Hn [_ Ht Hq Hs]. unfold protocol_parts, protocol_words.
  assert (Hgood : forall z w, 0 <= z < 0x7fff -> Some ((z + 1) * 2) = Some w -> is_word w /\ w <> 0) by (intros z w Hz [= <-]; unfold is_word; lia).
  destruct (p_request p) as [i|], (p_response p) as [j|]; cbn [small_index optional app] in *; unfold parts; cbn [fmap list_fmap]; rewrite !inline_small by lia; cbn [records good];
    (split; [done|]); (split; [unfold datas; cbn; by rewrite app_nil_r|]); (split; [lia|]); (split; [done|]); repeat (split; [lia|]; split; [intros w; apply Hgood; lia|]); done.
Qed.

Lemma protocol_fold_ok n data q p : n <= 0x7fff -> written_protocol n q -> pool_ok p -> reads l data (block (p_name q)) ->
  gives (Some (p_name q), p_tag q, p_request q, p_response q) (protocol_fold n data (protocol_words q) 0 (None, -1, None, None) p).
Proof.
  intros Hn [Hname Ht Hq Hs] Hp Hr. destruct (import_string_ok p data _ Hp Hr Hname) as (p' & E & Hp'). exists p'. split; [|done]. unfold protocol_words. rewrite protocol_fold_name, E. rstep.
  rewrite protocol_fold_value by lia. cbn [Z.eqb Pos.eqb]. destruct (Z.ltb_spec (p_tag q) 0); [lia|]. change (1 + 1) with 2.
  destruct (p_request q) as [i|]; cbn [small_index] in Hq.
  - assert (forall ws, protocol_fold n data ((Z.of_nat i + 1) * 2 :: ws) 2 (Some (p_name q), p_tag q, None, None) p' = protocol_fold n data ws 3 (Some (p_name q), p_tag q, Some i, None) p') as Hreq.
    { intros ws. rewrite protocol_fold_value by lia. cbn [Z.eqb Pos.eqb]. destruct (Z.ltb_spec (Z.of_nat i) 0); [lia|]. destruct (Z.leb_spec n (Z.of_nat i)); [lia|]. cbn [orb]. by rewrite Nat2Z.id. }
    destruct (p_response q) as [j|]; cbn [small_index] in Hs; rewrite Hreq; [|done]. rewrite protocol_fold_value by lia. cbn [Z.eqb Pos.eqb]. destruct (Z.ltb_spec (Z.of_nat j) 0); [lia|]. destruct (Z.leb_spec n (Z.of_nat j)); [lia|]. cbn [orb protocol_fold]. by rewrite Nat2Z.id.
  - destruct (p_response q) as [j|]; cbn [small_index] in Hs; [|done]. cbn [protocol_fold]. change (Z.odd 1) with true. cbv iota. change (2 + 1) with 3.
    pose proof (protocol_fold_value n data (Z.of_nat j) [] 3 (Some (p_name q), p_tag q, None, None) p') as Hv. cbn [protocol_fold] in Hv. rewrite Hv by lia. cbn [Z.eqb Pos.eqb]. destruct (Z.ltb_spec (Z.of_nat j) 0); [lia|]. destruct (Z.leb_spec n (Z.of_nat j)); [lia|]. cbn [orb]. by rewrite Nat2Z.id.
Qed.

Lemma import_protocol_ok n q stream p : n <= 0x7fff -> written_protocol n q -> pool_ok p -> reads l stream (block_of (protocol_content q)) ->
  gives (q, stream + zlen (block_of (protocol_content q))) (import_protocol l n stream p).
Proof.
  intros Hn Hq Hp Hr. destruct (protocol_layout n q Hn Hq) as (E1 & E2 & Hg). change (payload (protocol_content q)) with (message (protocol_parts q)) in *. pose proof Hr as (_ & Hp0 & Hp1). rewrite zlen_block in *. destruct (todword_block l stream _ Hr) as [Esz Hm]; [lia|].
  assert (zlen (protocol_words q) < 0x10000) as Hw by (unfold protocol_words; destruct (p_request q), (p_response q); by vm_compute).
  destruct (struct_field_ok (protocol_parts q) (stream + 4) Hg) as (Efn & Hws & Hds); [done|by rewrite E1|done|]. rewrite E1, E2 in *. unfold import_protocol. rewrite Esz. rstep. change SIZEOF_LENGTH with 4. rewrite Efn. rstep.
  change SIZEOF_HEADER with 2. change SIZEOF_FIELD with 2. replace (Z.to_nat (zlen (protocol_words q))) with (length (protocol_words q)) by (unfold zlen; lia).
  rewrite protocol_loop_words; [|rewrite <- E1; by apply good_records|done]. rewrite (Z.mul_comm 2). destruct (protocol_fold_ok n (stream + 4 + 2 + zlen (protocol_words q) * 2) q p Hn Hq Hp Hds) as (p' & -> & Hp'). rstep. destruct Hq as [_ Ht _ _].
  exists p'. split; [|done]. destruct (Z.ltb_spec (p_tag q) 0); [lia|]. do 4 f_equal; [by destruct q|lia].
Qed.

(** *** The bundle *)

Lemma import_all_ok {A} (import : Z -> pool -> result (option (A * Z) * pool)) (bytes_of : A -> list Z) xs :
  Forall (fun x => forall stream p, pool_ok p -> reads l stream (block (bytes_of x)) -> gives (x, stream + zlen (block (bytes_of x))) (import stream p)) xs ->
  forall stream p, pool_ok p -> reads l stream (concat (block <$> (bytes_of <$> xs))) -> gives xs (import_all import (length xs) stream p).
Proof.
  induction 1 as [|x xs Hx _ IH]; intros stream p Hp Hr; cbn [import_all length]; [by exists p|]. cbn [fmap list_fmap concat] in Hr. apply reads_app in Hr as [Hr1 Hr2].
  destruct (Hx stream p Hp Hr1) as (p1 & -> & Hp1). rstep. destruct (IH _ p1 Hp1 Hr2) as (p2 & -> & Hp2). rstep. by exists p2.
Qed.

Lemma behind_length ct b : reads l ct (block b) -> reads l (ct + 4) b.
Proof. intros Hb. pose proof Hb as (_ & Hb0 & Hb1). rewrite zlen_block in Hb1. destruct (todword_block l ct _ Hb); [lia|done]. Qed.

Lemma bundle_step size stream ct m sizes (ds : list (list Z)) p : 0 <= size -> pool_ok p -> reads l stream (words (0 :: replicate m 0)) -> reads l ct (block (concat (block <$> ds))) ->
  exists p', pool_ok p' /\ bundle_loop l (S m) (size :: sizes) stream ct p =
    '(o, p) ← bundle_loop l m sizes (stream + 2) (ct + (zlen (concat (block <$> ds)) + 4)) p'; Ok (option_map (cons (zlen ds, ct + 4)) o, p).
Proof.
  intros Hs Hp Hr Hb. pose proof Hb as (_ & Hb0 & Hb1). rewrite zlen_block in Hb1. cbn [bundle_loop]. destruct (read_word _ _ _ Hr) as [-> _]; [done|]. rstep. cbn [Z.eqb negb]. rewrite (count_array_ok ds) by exact Hb. rstep. pose proof (zlen_nonneg ds). destruct (Z.ltb_spec (zlen ds) 0); [lia|].
  destruct (alloc_ok p (zlen ds * size) Hp ltac:(lia)) as (r & p' & -> & Hp'). rstep. destruct (todword_block l ct _ Hb) as [-> _]; [lia|]. rstep. by exists p'.
Qed.

(** Types and protocols from their arrays. *)
Notation blocks f xs := (concat (block <$> ((fun x => payload (f x)) <$> xs))).

Lemma types_ok T stream p : schema_wf T -> Forall written_type T -> zlen T <= 0x7fff -> pool_ok p -> reads l stream (blocks type_content T) -> gives T (import_all (import_type l (zlen T)) (length T) stream p).
Proof.
  intros Hwf Hty Hn Hp Hr. apply (import_all_ok _ (fun st => payload (type_content st))); [|done|done]. unfold schema_wf in Hwf. rewrite Forall_forall in *. intros st Hst s p' Hp' Hr'. apply import_type_ok; auto.
Qed.

Lemma protocols_ok n P stream p : n <= 0x7fff -> Forall (written_protocol n) P -> pool_ok p -> reads l stream (blocks protocol_content P) -> gives P (import_all (import_protocol l n) (length P) stream p).
Proof.
  intros Hn HP Hp Hr. apply (import_all_ok _ (fun q => payload (protocol_content q))); [|done|done]. rewrite Forall_forall in *. intros q Hq s p' Hp' Hr'. apply import_protocol_ok; auto.
Qed.

(** The two forms of a bundle, without protocols and with them. *)
Lemma bundle_types T p : schema_wf T -> Forall written_type T -> zlen T <= 0x7fff -> pool_ok p -> l = message [(0, None, blocks type_content T)] -> gives (Sproto T []) (create_from_bundle l (zlen l) p).
Proof.
  intros Hwf Hty Hn Hp El. set (tb := blocks type_content T) in *. destruct (one_layout tb) as (E1 & E2 & Hg). destruct (struct_field_ok [(0, None, tb)] 0 Hg) as (Efn & Hws & Hds); [done|by rewrite E1|rewrite <- El; split; [by intros k x Hk|lia]|]. rewrite <- El, E1, E2 in *.
  unfold create_from_bundle. rewrite Efn. rstep. change (zlen [0]) with 1 in *. cbn [Z.ltb Z.compare orb Pos.compare Pos.compare_cont]. change (Z.to_nat 1) with 1%nat. change (0 + 2 + 1 * 2) with 4 in Hds. change SIZEOF_HEADER with 2. change SIZEOF_FIELD with 2. change (2 + 1 * 2) with 4.
  destruct (bundle_step sizeof_sproto_type 2 4 0%nat [sizeof_protocol] ((fun x => payload (type_content x)) <$> T) p ltac:(done) Hp Hws Hds) as (p1 & Hp1 & ->). cbn [bundle_loop]. rstep. cbn [option_map].
  assert (zlen ((fun st => payload (type_content st)) <$> T) = zlen T) as -> by (unfold zlen; by rewrite length_fmap). cbn. replace (Z.to_nat (zlen T)) with (length T) by (unfold zlen; lia).
  destruct (types_ok T (4 + 4) p1 Hwf Hty Hn Hp1) as (p2 & -> & Hp2); [by apply (behind_length 4)|]. rstep. cbn. by exists p2.
Qed.

Lemma bundle_both T P p : schema_wf T -> Forall written_type T -> zlen T <= 0x7fff -> Forall (written_protocol (zlen T)) P -> pool_ok p -> l = message [(0, None, blocks type_content T); (1, None, blocks protocol_content P)] ->
  gives (Sproto T P) (create_from_bundle l (zlen l) p).
Proof.
  intros Hwf Hty Hn HP Hp El. set (tb := blocks type_content T) in *. set (pb := blocks protocol_content P) in *. destruct (two_layout tb pb) as (E1 & E2 & Hg).
  destruct (struct_field_ok [(0, None, tb); (1, None, pb)] 0 Hg) as (Efn & Hws & Hds); [done|by rewrite E1|rewrite <- El; split; [by intros k x Hk|lia]|]. rewrite <- El, E1, E2 in *.
  unfold create_from_bundle. rewrite Efn. rstep. change (zlen [0; 0]) with 2 in *. cbn [Z.ltb Z.compare orb Pos.compare Pos.compare_cont]. change (Z.to_nat 2) with 2%nat. change (0 + 2 + 2 * 2) with 6 in Hds. change SIZEOF_HEADER with 2. change SIZEOF_FIELD with 2. change (2 + 2 * 2) with 6. apply reads_app in Hds as [Hd1 Hd2]. rewrite zlen_block in Hd2.
  destruct (bundle_step sizeof_sproto_type 2 6 1%nat [sizeof_protocol] ((fun x => payload (type_content x)) <$> T) p ltac:(done) Hp Hws Hd1) as (p1 & Hp1 & ->). fold tb. replace (6 + (4 + zlen tb)) with (6 + (zlen tb + 4)) in Hd2 by lia. destruct (read_word 0 [0] (0 + 2) Hws) as [_ Hws2]; [done|].
  destruct (bundle_step sizeof_protocol (2 + 2) (6 + (zlen tb + 4)) 0%nat [] ((fun x => payload (protocol_content x)) <$> P) p1 ltac:(done) Hp1 Hws2 Hd2) as (p2 & Hp2 & ->). cbn [bundle_loop]. rstep. cbn [option_map]. rstep. cbn [option_map].
  assert (zlen ((fun st => payload (type_content st)) <$> T) = zlen T) as -> by (unfold zlen; by rewrite length_fmap). assert (zlen ((fun q => payload (protocol_content q)) <$> P) = zlen P) as -> by (unfold zlen; by rewrite length_fmap).
  cbn. replace (Z.to_nat (zlen T)) with (length T) by (unfold zlen; lia). replace (Z.to_nat (zlen P)) with (length P) by (unfold zlen; lia).
  destruct (types_ok T (6 + 4) p2 Hwf Hty Hn Hp2) as (p3 & -> & Hp3); [by apply (behind_length 6)|]. rstep. destruct (protocols_ok (zlen T) P (6 + (zlen tb + 4) + 4) p3 Hn HP Hp3) as (p4 & -> & Hp4); [by apply behind_length|]. rstep. cbn. by exists p4.
Qed.

End reading.

Lemma structs_payload {A} (f : A -> content) (xs : list A) : (forall x, exists fs, f x = CMsg fs) -> payload (CArr (f <$> xs)) = concat (block <$> ((fun x => payload (f x)) <$> xs)).
Proof.
  intros Hf. assert (Forall (fun c => exists fs, c = CMsg fs) (f <$> xs)) as H by (apply Forall_forall; intros c (x & -> & _)%list_elem_of_fmap; apply Hf). rewrite payload_structs by done. by rewrite <- (list_fmap_compose f payload xs).
Qed.

Lemma create_ok sp : written sp -> sp_type sp <> [] -> zlen (payload (bundle sp)) < 2 ^ 31 -> exists p, sproto_create (payload (bundle sp)) = Ok (inl (sp, p)) /\ pool_ok p.
Proof.
  intros [Hwf Hty Hn Hpr] Hsome Hlen. unfold sproto_create. destruct (alloc_ok pool_init sizeof_sproto) as (r0 & p0 & -> & Hp0); [eexists; apply pool_init_wf|done|]. rstep.
  assert (gives sp (create_from_bundle (payload (bundle sp)) (zlen (payload (bundle sp))) p0)) as (p & -> & Hp); [|by exists p].
  assert (forall st, exists fs, type_content st = CMsg fs) as Ht by (intros st; by eexists). assert (forall q, exists fs, protocol_content q = CMsg fs) as Hq by (intros q; by eexists).
  destruct sp as [T P]. unfold bundle in *. cbn [sp_type sp_proto] in *. destruct T as [|t T]; [done|]. destruct P as [|q P].
  - apply bundle_types; try done. rewrite <- structs_payload by done. done.
  - apply bundle_both; try done. rewrite <- !structs_payload by done. done.
Qed.

(** What the schema compiler writes for a schema without types is refused. *)
Lemma no_types_refused : payload (bundle (Sproto [] [])) = [0; 0] /\ exists freed, sproto_create [0; 0] = Ok (inr freed).
Proof. split; [by vm_compute|]. eexists. by vm_compute. Qed.

(** ** Queries *)

Section queries.
Context (sp : sproto) (Hw : written sp) (Hasc : ascending p_tag (sp_proto sp)) (Hprotocols : NoDup (p_name <$> sp_proto sp)) (Htypes : NoDup (t_name <$> sp_type sp)).

Lemma protoquery_find tag what : 0 <= what <= 1 -> sproto_protoquery sp tag what =
  Ok (List.find (fun p => p_tag p =? tag) (sp_proto sp) ≫= fun p => if what =? SPROTO_REQUEST then p_request p else p_response p).
Proof.
  intros Hwhat. unfold sproto_protoquery, query_proto. destruct (Z.ltb_spec what 0); [lia|]. destruct (Z.ltb_spec 1 what); [lia|]. cbn [orb]. rewrite bisect_all by done. by rstep.
Qed.

Lemma protocol_named q name : q ∈ sp_proto sp -> cstring name -> strcmp name (p_name q) = 0 -> name = p_name q.
Proof. intros Hq Hn. apply strcmp_eq; [done|]. pose proof (wr_protocols _ Hw) as H. rewrite Forall_forall in H. by apply (H q). Qed.

Lemma prototag_ok q : q ∈ sp_proto sp -> sproto_prototag sp (p_name q) = p_tag q.
Proof.
  intros Hq. assert (cstring (p_name q)) as Hc by (pose proof (wr_protocols _ Hw) as H; rewrite Forall_forall in H; by apply (H q)). unfold sproto_prototag. destruct (List.find _ _) as [q'|] eqn:E.
  - apply List.find_some in E as [Hq' E]. apply list_elem_of_In in Hq'. apply Z.eqb_eq in E. apply (protocol_named q' _ Hq' Hc) in E. apply list_elem_of_lookup in Hq as [i Hi]. apply list_elem_of_lookup in Hq' as [j Hj].
    assert (i = j) as ->; [|congruence]. eapply NoDup_lookup; [exact Hprotocols| |]; rewrite list_lookup_fmap; [by rewrite Hi|]. by rewrite Hj, E.
  - apply list_elem_of_In in Hq. apply (List.find_none _ _ E) in Hq. by rewrite strcmp_refl in Hq.
Qed.

Lemma prototag_none name : cstring name -> name ∉ p_name <$> sp_proto sp -> sproto_prototag sp name = -1.
Proof.
  intros Hc Hn. unfold sproto_prototag. destruct (List.find _ _) as [q'|] eqn:E; [|done]. exfalso. apply List.find_some in E as [Hq E]. apply list_elem_of_In in Hq. apply Z.eqb_eq in E. apply Hn. rewrite (protocol_named q' _ Hq Hc E). by apply list_elem_of_fmap_2.
Qed.

Lemma tag_found q : q ∈ sp_proto sp -> List.find (fun p => p_tag p =? p_tag q) (sp_proto sp) = Some q /\ s32 (p_tag q) = p_tag q /\ 0 <= p_tag q.
Proof.
  intros Hq. split; [apply find_spec; [done| |done]; by intros f [= <-]|]. pose proof (wr_protocols _ Hw) as H. rewrite Forall_forall in H. destruct (H q Hq) as [_ Ht _ _]. split; [apply s32_small; lia|lia].
Qed.

Lemma type_found i st : sp_type sp !! i = Some st -> find_type sp (t_name st) = Some i.
Proof.
  intros Hi. assert (forall st', st' ∈ sp_type sp -> cstring (t_name st')) as Hc by (intros st' Hst'; pose proof (wr_types _ Hw) as H; rewrite Forall_forall in H; by apply (H st')).
  unfold find_type. rewrite (proj2 (list_find_Some (fun st' => strcmp (t_name st) (t_name st') = 0) (sp_type sp) i st)); [done|]. split; [done|]. split; [apply strcmp_refl|]. intros j st' Hj Hlt E.
  apply strcmp_eq in E; [|apply Hc; by eapply list_elem_of_lookup_2..]. assert (i = j); [|lia]. eapply NoDup_lookup; [exact Htypes| |]; rewrite list_lookup_fmap; [by rewrite Hi|]. by rewrite Hj, E.
Qed.

End queries.

(** The schema is read back, and its types and protocols are found. *)
Definition loads (sp : sproto) : Prop :=
  exists p, sproto_create (payload (bundle sp)) = Ok (inl (sp, p)) /\ pool_ok p /\
    (forall i st, sp_type sp !! i = Some st -> find_type sp (t_name st) = Some i) /\
    (forall q, q ∈ sp_proto sp ->
      lprotocol sp (inl (p_tag q)) = Ok (Some (inl (p_name q), p_request q, p_response q)) /\
      lprotocol sp (inr (p_name q)) = Ok (Some (inr (p_tag q), p_request q, p_response q))) /\
    (forall tag, is_u32 tag -> s32 tag ∉ p_tag <$> sp_proto sp -> lprotocol sp (inl tag) = Ok None) /\
    (forall name, cstring name -> name ∉ p_name <$> sp_proto sp -> lprotocol sp (inr name) = Ok None).



(** A schema that is saved in a slot is loaded from it; the others stay. *)
Lemma saved_loaded sp index slots : length slots = Z.to_nat MAX_GLOBALSPROTO -> 0 <= index < MAX_GLOBALSPROTO ->
  exists slots', lsaveproto (Some sp) index slots = Ok slots' /\ lloadproto index slots' = Ok sp /\ length slots' = length slots /\ forall j, j <> index -> lloadproto j slots' = lloadproto j slots.
Proof.
  unfold lsaveproto, lloadproto, MAX_GLOBALSPROTO. intros Hl Hi. assert (E : (index <? 0) || (16 <=? index) = false) by lia. rewrite E. unfold zset. assert ((0 <=? index) && (index <? zlen slots) = true) as -> by (unfold zlen; lia).
  eexists. split; [done|]. rewrite length_insert. unfold zget. destruct (Z.leb_spec 0 index); [|lia]. rewrite list_lookup_insert_eq by lia. split; [done|]. split; [done|].
  intros j Hj. destruct ((j <? 0) || (16 <=? j)) eqn:Ej; [done|]. destruct (Z.leb_spec 0 j); [|lia]. by rewrite list_lookup_insert_ne by lia.
Qed.
