(* ===== verification/Sharedata.v ===== *)
(** * Tables shared by services (lualib-src/lua-sharedata.c)

    [lnewconf] copies a Lua table, with the tables in it, to C memory: a
    [struct table] has an array part and a hash part of exactly as many slots as
    there are other keys, where colliding keys are chained through free slots.
    Strings are interned in a Lua state of the configuration, whose stack holds
    them. Other services read the copy through [lindexconf] and [lnextkey] and
    hold it with reference counts.

    Lua tables live in a heap and are listed in the order of [lua_next]; C tables
    have addresses, are allocated and freed. A slot of the hash part that was
    never written is [None]: reading its key is a [Fault]. [depth] is the number
    of nested calls of C functions Lua allows, [checkstack n] tells whether its
    stack can grow by [n] slots. Floats are their 64 bits. *)
From S2P Require Import Prelude.

(** ** Lua values *)

Inductive lua : Set :=
| VNil
| VBoolean (b : bool)
| VInteger (d : Z)
| VNumber (bits : Z)
| VString (s : list Z)
| VTable (t : nat)
| VOther.

#[export] Instance lua_eq_dec : EqDecision lua.
Proof. solve_decision. Defined.

(** A Lua table: [lua_rawlen] and the entries in the order of [lua_next]. *)
Record lua_table : Set := LT {
  lt_len : Z;
  lt_entries : list (lua * lua)
}.

Notation lua_heap := (gmap nat lua_table).

(** [lua_rawget] *)
Fixpoint rawget (es : list (lua * lua)) (k : lua) : lua :=
  match es with
  | [] => VNil
  | (k', v) :: es => if decide (k' = k) then v else rawget es k
  end.

(** ** The data in C memory *)

Definition KEYTYPE_INTEGER : Z := 0.
Definition KEYTYPE_STRING : Z := 1.

(** [union value] with the [valuetype] that tells which member it holds. *)
Inductive value : Set :=
| NIL
| REAL (n : Z)
| STRING (string : Z)
| BOOLEAN (boolean : bool)
| TABLE (tbl : nat)
| INTEGER (d : Z).

Definition is_nil (v : value) : bool := match v with NIL => true | _ => false end.

Record node : Set := Node {
  n_v : value;
  n_key : Z;
  n_next : Z;
  n_keyhash : Z;
  n_keytype : Z;
  n_nocolliding : bool
}.

Record table : Set := Table {
  t_array : list value;
  t_hash : list (option node);
  t_L : option nat
}.

Definition sizearray (t : table) : Z := zlen (t_array t).
Definition sizehash (t : table) : Z := zlen (t_hash t).

(** The slot is free: [valuetype == VALUETYPE_NIL]. *)
Definition slot_nil (s : option node) : bool :=
  match s with None => true | Some n => is_nil (n_v n) end.

(** A table after [memset]. *)
Definition blank : table := Table [] [] None.

(** [struct state] at index 1 of the stack of the Lua state of a configuration,
    and the strings at the indices from 2 on. *)
Record lstate : Set := LState {
  s_dirty : Z;
  s_ref : Z;
  s_root : nat;
  s_strings : list (option (list Z))
}.

(** [struct ctrl], a full userdata with a user value. *)
Record ctrl : Set := Ctrl {
  c_root : option nat;
  c_update : option nat;
  c_uservalue : option nat
}.

Record memory : Set := Mem {
  m_tables : gmap nat table;
  m_states : gmap nat lstate;
  m_ctrls : gmap nat ctrl;
  m_next : nat
}.

(** ** Conversion *)

(** What changes during a conversion: the C tables, the next free address, the
    table of strings at index 1 of [ctx->L] and [ctx->string_index]. *)
Record context : Set := Ctx {
  x_tables : gmap nat table;
  x_next : nat;
  x_strings : gmap (list Z) Z;
  x_index : Z
}.

(** Computations that leave the memory as it is where they fail. *)
Definition conv (A : Type) : Type := context -> result A * context.

#[export] Instance conv_ret : MRet conv := fun A a x => (Ok a, x).
#[export] Instance conv_bind : MBind conv := fun A B f c x =>
  match c x with
  | (Ok a, x) => f a x
  | (LuaError e, x) => (LuaError e, x)
  | (Fault, x) => (Fault, x)
  end.

Definition lift {A} (r : result A) : conv A := fun x => (r, x).

Definition calchash_step (h c : Z) : Z :=
  Z.lxor h (u32 (u32 (Z.shiftl h 5) + Z.shiftr h 2 + c)).

Fixpoint calchash_loop (fuel : nat) (str : list Z) (step l1 h : Z) : result Z :=
  match fuel with
  | O => Fault
  | S fuel =>
    if step <=? l1
    then c ← zget str (l1 - 1); calchash_loop fuel str step (l1 - step) (calchash_step h c)
    else Ok h
  end.

Definition calchash (str : list Z) : result Z :=
  let l := zlen str in
  calchash_loop (S (length str)) str (Z.shiftr l 5 + 1) l (u32 l).

Definition stringindex (str : list Z) : conv Z := fun x =>
  match x_strings x !! str with
  | None =>
    let index := x_index x + 1 in
    (Ok index, Ctx (x_tables x) (x_next x) (<[str := index]> (x_strings x)) index)
  | Some index => (Ok index, x)
  end.

(** [malloc (sizeof (struct table))] and [memset] *)
Definition new_table : conv nat := fun x =>
  (Ok (x_next x), Ctx (<[x_next x := blank]> (x_tables x)) (S (x_next x)) (x_strings x) (x_index x)).

Definition read_table (p : nat) : conv table := fun x => (deref (x_tables x !! p), x).

Definition write_table (p : nat) (t : table) : conv unit := fun x =>
  match x_tables x !! p with
  | None => (Fault, x)
  | Some _ => (Ok tt, Ctx (<[p := t]> (x_tables x)) (x_next x) (x_strings x) (x_index x))
  end.

(** [tbl->hash[i] = n] *)
Definition write_slot (p : nat) (i : Z) (n : node) : conv unit :=
  t ← read_table p;
  hash ← lift (zset (t_hash t) i (Some n));
  write_table p (Table (t_array t) hash (t_L t)).

Definition read_slot (p : nat) (i : Z) : conv (option node) :=
  t ← read_table p; lift (zget (t_hash t) i).

(** A node that has been written. *)
Definition read_node (p : nat) (i : Z) : conv node := s ← read_slot p i; lift (deref s).

Definition set_v (v : value) (n : node) : node :=
  Node v (n_key n) (n_next n) (n_keyhash n) (n_keytype n) (n_nocolliding n).

(** [mainpos->next = next; mainpos->nocolliding = 0] *)
Definition set_next (next : Z) (n : node) : node :=
  Node (n_v n) (n_key n) next (n_keyhash n) (n_keytype n) false.

Definition update_node (p : nat) (i : Z) (f : node -> node) : conv unit :=
  n ← read_node p i; write_slot p i (f n).

Fixpoint countsize (es : list (lua * lua)) (size n : Z) : result Z :=
  match es with
  | [] => Ok n
  | (k, _) :: es =>
    match k with
    | VInteger nkey => countsize es size (if (0 <? nkey) && (nkey <=? size) then n else n + 1)
    | VNumber _ => LuaError "Invalid key"
    | VString _ | VTable _ => countsize es size (n + 1)
    | _ => LuaError "Invalid key type"
    end
  end.

(** The result of [ishashkey]. *)
Inductive key_class : Set :=
| ArrayKey (key : Z)
| HashKey (key keyhash keytype : Z).

(** The key is an [int]: an integer is truncated. A key that is neither a
    number nor a string (only a table passes [countsize]) is the empty string,
    since [lua_tolstring] returns [NULL] and the length 0. *)
Definition ishashkey (size : Z) (k : lua) : conv key_class :=
  match k with
  | VInteger d =>
    let key := s32 d in
    if (0 <? key) && (key <=? size) then mret (ArrayKey key)
    else mret (HashKey key (u32 key) KEYTYPE_INTEGER)
  | VNumber _ => lift Fault
  | _ =>
    let s := match k with VString s => s | _ => [] end in
    keyhash ← lift (calchash s);
    key ← stringindex s;
    mret (HashKey key keyhash KEYTYPE_STRING)
  end.

(** The first free slot; [emptyslot] stays 0 in the code. *)
Fixpoint find_empty (hash : list (option node)) (i : Z) : option Z :=
  match hash with
  | [] => None
  | s :: hash => if slot_nil s then Some i else find_empty hash (i + 1)
  end.

Section fill.
(** The recursive call [convtable] on a Lua table and a new C table. *)
Variable convtable : nat -> nat -> conv unit.

Definition setvalue (v : lua) : conv value :=
  match v with
  | VNil => mret NIL
  | VInteger d => mret (INTEGER d)
  | VNumber n => mret (REAL n)
  | VString s => i ← stringindex s; mret (STRING i)
  | VBoolean b => mret (BOOLEAN b)
  | VTable t => tbl ← new_table; convtable t tbl;; mret (TABLE tbl)
  | VOther => lift (LuaError "Unsupport value type")
  end.

Definition setarray (p : nat) (v : lua) (key : Z) : conv unit :=
  n ← setvalue v;
  t ← read_table p;
  array ← lift (zset (t_array t) (key - 1) n);
  write_table p (Table array (t_hash t) (t_L t)).

Definition fillnocolliding_step (p : nat) (kv : lua * lua) : conv unit :=
  t ← read_table p;
  c ← ishashkey (sizearray t) kv.1;
  match c with
  | ArrayKey key => setarray p kv.2 key
  | HashKey key keyhash keytype =>
    let i := keyhash mod sizehash t in
    s ← read_slot p i;
    if slot_nil s then
      write_slot p i (Node NIL key (-1) keyhash keytype true);;
      v ← setvalue kv.2;
      update_node p i (set_v v)
    else mret tt
  end.

Definition fillcolliding_step (p : nat) (kv : lua * lua) : conv unit :=
  t ← read_table p;
  c ← ishashkey (sizearray t) kv.1;
  match c with
  | ArrayKey _ => mret tt
  | HashKey key keyhash keytype =>
    let m := keyhash mod sizehash t in
    mainpos ← read_node p m;
    if (n_keytype mainpos =? keytype) && (n_key mainpos =? key) then mret tt
    else
      n ← lift (deref (find_empty (t_hash t) 0));
      write_slot p n (Node NIL key (n_next mainpos) keyhash keytype false);;
      update_node p m (set_next n);;
      v ← setvalue kv.2;
      update_node p n (set_v v)
  end.

Fixpoint for_each {A} (f : A -> conv unit) (l : list A) : conv unit :=
  match l with
  | [] => mret tt
  | a :: l => f a;; for_each f l
  end.

Definition fillnocolliding (p : nat) (es : list (lua * lua)) : conv unit :=
  for_each (fillnocolliding_step p) es.

Definition fillcolliding (p : nat) (es : list (lua * lua)) : conv unit :=
  for_each (fillcolliding_step p) es.

(** The body of [convtable]: allocation of both parts, then the entries. A
    length that is negative as an [int] asks [malloc] for too much. *)
Definition convbody (L : nat) (lt : lua_table) (p : nat) : conv unit :=
  t ← read_table p;
  write_table p (Table (t_array t) (t_hash t) (Some L));;
  let size := s32 (lt_len lt) in
  (if size <? 0 then lift (LuaError "memory error") else
     t ← read_table p;
     write_table p (Table (replicate (Z.to_nat size) NIL) (t_hash t) (t_L t)));;
  n ← lift (countsize (lt_entries lt) size 0);
  if n =? 0 then
    for_each (fun i => setarray p (rawget (lt_entries lt) (VInteger i)) i) (seqZ 1 size)
  else
    t ← read_table p;
    write_table p (Table (t_array t) (replicate (Z.to_nat n) None) (t_L t));;
    fillnocolliding p (lt_entries lt);;
    fillcolliding p (lt_entries lt).
End fill.

Fixpoint convtable (depth : nat) (h : lua_heap) (L : nat) (t p : nat) : conv unit :=
  match depth with
  | O => lift (LuaError "C stack overflow")
  | S depth =>
    lt ← lift (deref (h !! t));
    convbody (convtable depth h L) L lt p
  end.

(** The tables that the values of a table point to, array part first. *)
Definition children (t : table) : list nat :=
  let sub v := match v with TABLE q => Some q | _ => None end in
  omap sub (t_array t) ++ omap (fun s => n ← s; sub (n_v n)) (t_hash t).

Fixpoint delete_tbl (fuel : nat) (p : nat) (ts : gmap nat table) : result (gmap nat table) :=
  match fuel with
  | O => Fault
  | S fuel =>
    t ← deref (ts !! p);
    ts ← foldl (fun r q => ts ← r; delete_tbl fuel q ts) (Ok ts) (children t);
    _ ← deref (ts !! p);
    Ok (delete p ts)
  end.

(** [lua_replace (L, idx)] for each string; indices of a stack start at 1. *)
Fixpoint replace_strings (kvs : list (list Z * Z)) (stack : list (option (list Z))) : list (option (list Z)) :=
  match kvs with
  | [] => stack
  | (s, idx) :: kvs => replace_strings kvs (<[Z.to_nat (idx - 1) := Some s]> stack)
  end.

(** The stack from index 1 to [string_index]; its first slot is the
    [struct state]. *)
Definition convert_stringmap (x : context) (tbl : nat) : lstate :=
  LState 0 0 tbl (replace_strings (map_to_list (x_strings x)) (replicate (Z.to_nat (x_index x)) None)).

Section library.
Variable checkstack : Z -> bool.
Variable depth : nat.

Definition luaL_checkstack : conv unit := fun x =>
  if checkstack (x_index x + 3) then (Ok tt, x) else (LuaError "stack overflow", x).

(** [convtable] in a protected call, then room on the stack for the strings. *)
Definition pconv (h : lua_heap) (L t tbl : nat) : conv unit :=
  convtable depth h L t tbl;;
  luaL_checkstack.

Definition lnewconf (h : lua_heap) (arg : lua) (m : memory) : result nat * memory :=
  match arg with
  | VTable t =>
    let L := m_next m in
    let tbl := S L in
    match pconv h L t tbl (Ctx (<[tbl := blank]> (m_tables m)) (S tbl) ∅ 1) with
    | (Ok _, x) =>
      (Ok tbl, Mem (x_tables x) (<[L := convert_stringmap x tbl]> (m_states m)) (m_ctrls m) (x_next x))
    | (LuaError e, x) =>
      match delete_tbl (x_next x) tbl (x_tables x) with
      | Ok ts => (LuaError e, Mem ts (m_states m) (m_ctrls m) (x_next x))
      | _ => (Fault, m)
      end
    | (Fault, _) => (Fault, m)
    end
  | _ => (LuaError "bad argument", m)
  end.
End library.

(** ** Access from other services *)

(** An argument of a function of the library. *)
Inductive arg : Set :=
| AUserdata (c : nat)
| ALight (p : option nat)
| ALua (v : lua).

(** A full userdata is not a [struct table]. *)
Definition get_table (a : arg) : result nat :=
  match a with
  | ALight (Some p) => Ok p
  | AUserdata _ => Fault
  | _ => LuaError "Need a conf object"
  end.

(** A value pushed on the stack of the reader; a table is a light userdata. *)
Inductive pushed : Set :=
| PNil
| PBoolean (b : bool)
| PInteger (d : Z)
| PNumber (bits : Z)
| PString (s : list Z)
| PTable (p : nat).

(** [lua_tolstring (sL, idx)] and [lua_pushlstring]: nothing in the slot, or
    something else than a string, is pushed as the empty string. *)
Definition tolstring (m : memory) (sL : option nat) (idx : Z) : result (list Z) :=
  sL ← deref sL;
  st ← deref (m_states m !! sL);
  Ok (match s_strings st !! Z.to_nat (idx - 1) with Some (Some s) => s | _ => [] end).

Definition pushvalue (m : memory) (sL : option nat) (v : value) : result pushed :=
  match v with
  | REAL n => Ok (PNumber n)
  | INTEGER d => Ok (PInteger d)
  | STRING i => s ← tolstring m sL i; Ok (PString s)
  | BOOLEAN b => Ok (PBoolean b)
  | TABLE p => Ok (PTable p)
  | NIL => Ok PNil
  end.

(** The loop of [lookup_key] from slot [i] on; the index of the node. *)
Fixpoint lookup_loop (fuel : nat) (m : memory) (t : table) (keyhash key keytype : Z) (str : list Z) (i : Z) : result (option Z) :=
  match fuel with
  | O => Fault
  | S fuel =>
    s ← zget (t_hash t) i;
    n ← deref s;
    found ← (if negb (keyhash =? n_keyhash n) then Ok false
             else if n_keytype n =? KEYTYPE_INTEGER
             then Ok ((keytype =? KEYTYPE_INTEGER) && (n_key n =? key))
             else if keytype =? KEYTYPE_STRING
             then str2 ← tolstring m (t_L t) (n_key n); Ok (bool_decide (str = str2))
             else Ok false);
    if (found : bool) then Ok (Some i)
    else if n_next n <? 0 then Ok None
    else lookup_loop fuel m t keyhash key keytype str (n_next n)
  end.

Definition lookup_key (m : memory) (t : table) (keyhash key keytype : Z) (str : list Z) : result (option Z) :=
  if sizehash t =? 0 then Ok None
  else
    let i := keyhash mod sizehash t in
    s ← zget (t_hash t) i;
    n ← deref s;
    if negb (keyhash =? n_keyhash n) && n_nocolliding n then Ok None
    else lookup_loop (length (t_hash t)) m t keyhash key keytype str i.

(** [luaL_checklstring] of an argument that is not a number. *)
Definition checklstring (k : lua) : result (list Z) :=
  match k with VString s => Ok s | _ => LuaError "bad argument" end.

Definition lindexconf (m : memory) (a : arg) (k : lua) : result (option pushed) :=
  p ← get_table a;
  t ← deref (m_tables m !! p);
  let hashed keyhash key keytype str :=
    i ← lookup_key m t keyhash key keytype str;
    match i with
    | Some i =>
      s ← zget (t_hash t) i; n ← deref s; v ← pushvalue m (t_L t) (n_v n); Ok (Some v)
    | None => Ok None
    end in
  match k with
  | VNumber _ => LuaError "Invalid key"
  | VInteger d =>
    let key := s32 d in
    if (0 <? key) && (key <=? sizearray t)
    then v ← zget (t_array t) (key - 1); v ← pushvalue m (t_L t) v; Ok (Some v)
    else hashed (u32 key) key KEYTYPE_INTEGER []
  | _ =>
    str ← checklstring k;
    keyhash ← calchash str;
    hashed keyhash 0 KEYTYPE_STRING str
  end.

Definition pushkey (m : memory) (sL : option nat) (s : option node) : result lua :=
  n ← deref s;
  if n_keytype n =? KEYTYPE_INTEGER then Ok (VInteger (n_key n))
  else s ← tolstring m sL (n_key n); Ok (VString s).

Definition pushfirsthash (m : memory) (t : table) : result (option lua) :=
  if sizehash t =? 0 then Ok None
  else s ← zget (t_hash t) 0; k ← pushkey m (t_L t) s; Ok (Some k).

(** The first index from [i] on whose value is not nil. *)
Fixpoint first_nonnil (array : list value) (i : Z) : option Z :=
  match array with
  | [] => None
  | v :: array => if is_nil v then first_nonnil array (i + 1) else Some i
  end.

Definition lnextkey (m : memory) (a : arg) (k : lua) : result (option lua) :=
  p ← get_table a;
  t ← deref (m_tables m !! p);
  let after_array i :=
    match first_nonnil (drop (Z.to_nat i) (t_array t)) i with
    | Some i => Ok (Some (VInteger (i + 1)))
    | None => pushfirsthash m t
    end in
  let hashed keyhash key keytype str :=
    i ← lookup_key m t keyhash key keytype str;
    match i with
    | Some i =>
      if i + 1 =? sizehash t then Ok None
      else s ← zget (t_hash t) (i + 1); k ← pushkey m (t_L t) s; Ok (Some k)
    | None => Ok None
    end in
  match k with
  | VNil => after_array 0
  | VNumber _ => Ok None
  | VInteger d =>
    let key := s32 d in
    if (0 <? key) && (key <=? sizearray t) then after_array key
    else hashed (u32 key) key KEYTYPE_INTEGER []
  | _ =>
    str ← checklstring k;
    keyhash ← calchash str;
    hashed keyhash 0 KEYTYPE_STRING str
  end.

Definition llen (m : memory) (a : arg) : result Z :=
  p ← get_table a; t ← deref (m_tables m !! p); Ok (sizearray t).

Definition lhashlen (m : memory) (a : arg) : result Z :=
  p ← get_table a; t ← deref (m_tables m !! p); Ok (sizehash t).

(** ** Deletion, reference counts and updates *)

(** [lua_close (tbl->L)] and [delete_tbl]. *)
Definition ldeleteconf (m : memory) (a : arg) : result memory :=
  p ← get_table a;
  t ← deref (m_tables m !! p);
  L ← deref (t_L t);
  _ ← deref (m_states m !! L);
  ts ← delete_tbl (m_next m) p (m_tables m);
  Ok (Mem ts (delete L (m_states m)) (m_ctrls m) (m_next m)).

(** [lua_touserdata (tbl->L, 1)] *)
Definition state_of (m : memory) (p : nat) : result (nat * lstate) :=
  t ← deref (m_tables m !! p);
  L ← deref (t_L t);
  s ← deref (m_states m !! L);
  Ok (L, s).

Definition set_state (L : nat) (s : lstate) (m : memory) : memory :=
  Mem (m_tables m) (<[L := s]> (m_states m)) (m_ctrls m) (m_next m).

Definition set_ctrl (c : nat) (d : ctrl) (m : memory) : memory :=
  Mem (m_tables m) (m_states m) (<[c := d]> (m_ctrls m)) (m_next m).

Definition add_ref (s : lstate) (d : Z) : lstate :=
  LState (s_dirty s) (s32 (s_ref s + d)) (s_root s) (s_strings s).

(** The collector calls it once for each [struct ctrl], which it then frees. *)
Definition releaseobj (m : memory) (c : nat) : result memory :=
  d ← deref (m_ctrls m !! c);
  tbl ← deref (c_root d);
  '(L, s) ← state_of m tbl;
  Ok (set_ctrl c (Ctrl None None (c_uservalue d)) (set_state L (add_ref s (-1)) m)).

Definition lboxconf (m : memory) (a : arg) : result (nat * memory) :=
  tbl ← get_table a;
  '(L, s) ← state_of m tbl;
  let m := set_state L (add_ref s 1) m in
  let c := m_next m in
  Ok (c, Mem (m_tables m) (m_states m) (<[c := Ctrl (Some tbl) None None]> (m_ctrls m)) (S c)).

Definition lmarkdirty (m : memory) (a : arg) : result memory :=
  tbl ← get_table a;
  '(L, s) ← state_of m tbl;
  Ok (set_state L (LState 1 (s_ref s) (s_root s) (s_strings s)) m).

Definition lisdirty (m : memory) (a : arg) : result bool :=
  tbl ← get_table a;
  '(_, s) ← state_of m tbl;
  Ok (negb (s_dirty s =? 0)).

Definition lgetref (m : memory) (a : arg) : result Z :=
  tbl ← get_table a;
  '(_, s) ← state_of m tbl;
  Ok (s_ref s).

Definition lincref (m : memory) (a : arg) : result (Z * memory) :=
  tbl ← get_table a;
  '(L, s) ← state_of m tbl;
  let s := add_ref s 1 in
  Ok (s_ref s, set_state L s m).

Definition ldecref (m : memory) (a : arg) : result (Z * memory) :=
  tbl ← get_table a;
  '(L, s) ← state_of m tbl;
  let s := add_ref s (-1) in
  Ok (s_ref s, set_state L s m).

(** The new object and the user value of the userdata. *)
Definition lneedupdate (m : memory) (a : arg) : result (option (nat * option nat)) :=
  match a with
  | AUserdata c =>
    d ← deref (m_ctrls m !! c);
    match c_update d with
    | Some p => Ok (Some (p, c_uservalue d))
    | None => Ok None
    end
  | _ => Fault
  end.

Definition lupdate (m : memory) (a1 a2 a3 : arg) : result memory :=
  match a1, a2, a3 with
  | AUserdata c, ALight n, ALua (VTable u) =>
    d ← deref (m_ctrls m !! c);
    if decide (c_root d = n) then LuaError "You should update a new object"
    else Ok (set_ctrl c (Ctrl (c_root d) n (Some u)) m)
  | _, _, _ => LuaError "bad argument"
  end.

(** ** A configuration with colliding keys *)

Module Example_conf.
Definition s (n : Z) : lua := VString [n].
Definition h : lua_heap :=
  <[1%nat := LT 2 [(VInteger 1, s 97); (VInteger 2, VTable 2%nat);
                (s 120, VInteger 7); (s 121, VTable 3%nat); (VInteger 5, VBoolean true);
                (VInteger (-3), s 97); (VInteger 1000, VNumber 3)]]>
  (<[2%nat := LT 0 []]> (<[3%nat := LT 1 [(VInteger 1, VTable 2%nat); (s 97, s 98)]]> ∅)).
Definition m0 : memory := Mem ∅ ∅ ∅ 10.
Definition new : result nat * memory := lnewconf (fun _ => true) 3 h (VTable 1%nat) m0.
End Example_conf.
