(* ===== verification/SharedataHash.v ===== *)
(** * The hash part of shared tables

    What the hash part of a table holds, slot by slot, how its nodes are chained,
    and that [lookup_key] finds the node of a key in it, or none. *)
From S2P Require Import Prelude Sharedata.

(** ** Hash values *)

Lemma calchash_step_u32 h c : is_u32 h -> is_u32 (calchash_step h c).
Proof. intros. unfold calchash_step. auto with skynet. Qed.

Lemma calchash_loop_ok str step fuel l1 h : 1 <= step -> 0 <= l1 <= zlen str -> l1 < Z.of_nat fuel -> is_u32 h ->
  exists r, calchash_loop fuel str step l1 h = Ok r /\ is_u32 r.
Proof.
  intros Hs. revert l1 h. induction fuel as [|fuel IH]; intros l1 h Hl Hf Hh; [lia|]. cbn [calchash_loop].
  destruct (Z.leb_spec step l1); [|eauto].
  destruct (zget_in_range str (l1 - 1)) as [c ->]; [lia|]. rstep.
  apply IH; [lia..|]. by apply calchash_step_u32.
Qed.

(** [calchash] stays within the string and returns; the value it returns. *)
Definition hash_string (s : list Z) : Z := match calchash s with Ok h => h | _ => 0 end.

Lemma calchash_ok s : calchash s = Ok (hash_string s) /\ is_u32 (hash_string s).
Proof.
  unfold hash_string, calchash.
  destruct (calchash_loop_ok s (Z.shiftr (zlen s) 5 + 1) (S (length s)) (zlen s) (u32 (zlen s))) as (r & -> & Hr).
  - rewrite Z.shiftr_div_pow2 by lia. pose proof (Z.div_pos (zlen s) (2 ^ 5)). pose proof (zlen_nonneg s). lia.
  - pose proof (zlen_nonneg s). lia.
  - unfold zlen. lia.
  - auto with skynet.
  - done.
Qed.

(** ** Keys *)

(** The keys the library handles: strings, and integers that fit an [int]. *)
Definition plain_key (k : lua) : bool :=
  match k with
  | VInteger d => (- 2 ^ 31 <=? d) && (d <? 2 ^ 31)
  | VString _ => true
  | _ => false
  end.

(** The key goes to the hash part of a table whose array has [size] slots. *)
Definition hashed (size : Z) (k : lua) : bool :=
  match k with VInteger d => negb ((0 <? d) && (d <=? size)) | _ => true end.

Definition hashof (k : lua) : Z :=
  match k with VInteger d => u32 d | VString s => hash_string s | _ => 0 end.

Lemma hashof_u32 k : is_u32 (hashof k).
Proof. destruct k; cbn; auto using u32_range with skynet; try (unfold is_u32; lia). apply calchash_ok. Qed.

(** The arguments of [lookup_key] for a key. *)
Definition query_key (k : lua) : Z := match k with VInteger d => d | _ => 0 end.
Definition query_type (k : lua) : Z := match k with VInteger _ => KEYTYPE_INTEGER | _ => KEYTYPE_STRING end.
Definition query_str (k : lua) : list Z := match k with VString s => s | _ => [] end.

(** A node carries the key. *)
Definition slot_key (σ : gmap (list Z) Z) (n : node) (k : lua) : Prop :=
  n_keyhash n = hashof k /\
  match k with
  | VInteger d => n_keytype n = KEYTYPE_INTEGER /\ n_key n = d
  | VString s => n_keytype n = KEYTYPE_STRING /\ σ !! s = Some (n_key n)
  | _ => False
  end.

Lemma slot_key_mono σ σ' n k : σ ⊆ σ' -> slot_key σ n k -> slot_key σ' n k.
Proof. intros Hs [H1 H2]. split; [done|]. destruct k; naive_solver eauto using lookup_weaken. Qed.

(** ** Chains *)

(** The slot a hash value belongs to. *)
Definition mainpos (hash : list (option node)) (h : Z) : nat := Z.to_nat (h mod zlen hash).

Definition links (hash : list (option node)) (i : nat) : option (option nat) :=
  match hash !! i with
  | Some (Some n) => Some (if n_next n <? 0 then None else Some (Z.to_nat (n_next n)))
  | _ => None
  end.

(** [C q] are the slots chained behind the slot [q]. *)
Record chained (hash : list (option node)) (C : nat -> list nat) : Prop := {
  ch_main : forall i n, hash !! i = Some (Some n) ->
    i ∈ mainpos hash (n_keyhash n) :: C (mainpos hash (n_keyhash n)) /\
    exists n', hash !! mainpos hash (n_keyhash n) = Some (Some n') /\ mainpos hash (n_keyhash n') = mainpos hash (n_keyhash n);
  ch_chain : forall q n, hash !! q = Some (Some n) -> mainpos hash (n_keyhash n) = q ->
    chain (links hash) (Some q) (q :: C q);
  ch_members : forall q j, j ∈ C q -> exists n, hash !! j = Some (Some n) /\ mainpos hash (n_keyhash n) = q;
  ch_nocolliding : forall i n, hash !! i = Some (Some n) -> n_nocolliding n = true ->
    mainpos hash (n_keyhash n) = i /\ C i = []
}.

Lemma mainpos_lt hash h : (0 < length hash)%nat -> (mainpos hash h < length hash)%nat.
Proof. intros. unfold mainpos, zlen. pose proof (Z.mod_pos_bound h (Z.of_nat (length hash))). lia. Qed.

Lemma mainpos_length hash hash' h : length hash = length hash' -> mainpos hash h = mainpos hash' h.
Proof. intros E. unfold mainpos, zlen. by rewrite E. Qed.

Lemma chain_suffix nx p l i : chain nx p l -> i ∈ l -> exists k, chain nx (Some i) k /\ k ⊆ l.
Proof.
  intros H (l1 & l2 & ->)%list_elem_of_split. apply chain_app in H as (m & _ & H).
  exists (i :: l2). split; [|set_solver]. destruct H as [-> H]. by split.
Qed.

(** ** Lookup *)

Section lookup.
Context (m : memory) (t : table) (σ : gmap (list Z) Z) (ks : list lua).
Context (Hstr : forall s i, σ !! s = Some i -> tolstring m (t_L t) i = Ok s).
Context (Hkeys : Forall2 (fun s k => exists n, s = Some n /\ slot_key σ n k) (t_hash t) ks).

Lemma lookup_node i k : ks !! i = Some k -> exists n, t_hash t !! i = Some (Some n) /\ slot_key σ n k.
Proof. intros H. destruct (Forall2_lookup_r _ _ _ _ _ Hkeys H) as (s & Hs & n & -> & ?). eauto. Qed.

(** One step of the loop compares the keys. *)
Lemma lookup_found n k k' : plain_key k = true -> slot_key σ n k' ->
  (if negb (hashof k =? n_keyhash n) then Ok false
   else if n_keytype n =? KEYTYPE_INTEGER
   then Ok ((query_type k =? KEYTYPE_INTEGER) && (n_key n =? query_key k))
   else if query_type k =? KEYTYPE_STRING
   then str2 ← tolstring m (t_L t) (n_key n); Ok (bool_decide (query_str k = str2))
   else Ok false) = Ok (bool_decide (k' = k)).
Proof.
  intros Hp [Hh Hk]. destruct (Z.eqb_spec (hashof k) (n_keyhash n)) as [E|E]; cbn [negb].
  - destruct k' as [| |d'| |s'| |], k as [| |d| |s| |]; cbn in Hk, Hp; try done; destruct Hk as [-> Hk]; cbn.
    + subst. f_equal. destruct (Z.eqb_spec (n_key n) d); [rewrite bool_decide_true|rewrite bool_decide_false]; congruence.
    + by rewrite bool_decide_false.
    + by rewrite bool_decide_false.
    + erewrite Hstr by done. cbn. f_equal. apply bool_decide_ext. naive_solver.
  - rewrite bool_decide_false; [done|]. intros ->. by rewrite Hh in E.
Qed.

Lemma lookup_loop_step fuel i k k' : plain_key k = true -> ks !! i = Some k' ->
  lookup_loop (S fuel) m t (hashof k) (query_key k) (query_type k) (query_str k) (Z.of_nat i)
  = if decide (k' = k) then Ok (Some (Z.of_nat i))
    else match links (t_hash t) i with
    | Some (Some j) => lookup_loop fuel m t (hashof k) (query_key k) (query_type k) (query_str k) (Z.of_nat j)
    | _ => Ok None
    end.
Proof.
  intros Hp Hi. destruct (lookup_node i k' Hi) as (n & Hn & Hs). cbn [lookup_loop].
  rewrite (zget_Some _ _ (Some n)) by (rewrite ?Nat2Z.id; lia || done). rstep. cbn [deref]. rstep.
  rewrite (lookup_found n k k') by done. rstep.
  destruct (decide (k' = k)); [by rewrite bool_decide_true|]. rewrite bool_decide_false by done.
  unfold links. rewrite Hn. destruct (Z.ltb_spec (n_next n) 0); [done|]. by rewrite Z2Nat.id.
Qed.

Lemma lookup_loop_found l fuel i j k : plain_key k = true -> NoDup ks ->
  chain (links (t_hash t)) (Some i) l -> (length l <= fuel)%nat -> j ∈ l -> ks !! j = Some k ->
  lookup_loop fuel m t (hashof k) (query_key k) (query_type k) (query_str k) (Z.of_nat i) = Ok (Some (Z.of_nat j)).
Proof.
  intros Hp Hnd. revert fuel i. induction l as [|i' l IH]; intros fuel i Hc Hf Hj Hk; [set_solver|].
  cbn in Hc. destruct Hc as ([= <-] & q & Hq & Hc). cbn [length] in Hf. destruct fuel as [|fuel]; [lia|].
  assert (exists k', ks !! i = Some k') as [k' Hk'].
  { apply lookup_lt_is_Some. rewrite <- (Forall2_length _ _ _ Hkeys). unfold links in Hq.
    destruct (t_hash t !! i) eqn:E; [|done]. by eapply lookup_lt_Some. }
  rewrite (lookup_loop_step fuel i k k') by done. destruct (decide (k' = k)) as [->|Hne].
  - by rewrite (NoDup_lookup _ _ _ _ Hnd Hk Hk').
  - apply elem_of_cons in Hj as [->|Hj]; [congruence|]. rewrite Hq.
    destruct q as [q|]; [|by rewrite (chain_none _ _ Hc) in Hj; set_solver]. apply IH; [done|lia|done..].
Qed.

Lemma lookup_loop_none l fuel i k : plain_key k = true ->
  chain (links (t_hash t)) (Some i) l -> (length l <= fuel)%nat -> (forall j, j ∈ l -> ks !! j <> Some k) ->
  lookup_loop fuel m t (hashof k) (query_key k) (query_type k) (query_str k) (Z.of_nat i) = Ok None.
Proof.
  intros Hp. revert fuel i. induction l as [|i' l IH]; intros fuel i Hc Hf Hj; [by cbn in Hc|].
  cbn in Hc. destruct Hc as ([= <-] & q & Hq & Hc). cbn [length] in Hf. destruct fuel as [|fuel]; [lia|].
  assert (exists k', ks !! i = Some k') as [k' Hk'].
  { apply lookup_lt_is_Some. rewrite <- (Forall2_length _ _ _ Hkeys). unfold links in Hq.
    destruct (t_hash t !! i) eqn:E; [|done]. by eapply lookup_lt_Some. }
  rewrite (lookup_loop_step fuel i k k') by done. rewrite decide_False by (intros ->; by apply (Hj i); [left|]).
  rewrite Hq. destruct q as [q|]; [|done]. apply IH; [done|lia|]. intros j Hin. apply Hj. by right.
Qed.

Context (C : nat -> list nat) (HC : chained (t_hash t) C).

Lemma chain_length p l : chain (links (t_hash t)) p l -> (length l <= length (t_hash t))%nat.
Proof.
  intros H. rewrite <- (length_seq (length (t_hash t)) 0). apply submseteq_length, NoDup_submseteq.
  - by eapply chain_nodup.
  - intros i Hi. apply elem_of_seq. destruct (chain_alloc _ _ _ _ H Hi) as [? E]. unfold links in E.
    destruct (t_hash t !! i) eqn:E'; [|done]. apply lookup_lt_Some in E'. lia.
Qed.

(** The slot where the search begins; a node that is marked as not colliding
    is the only one that belongs there. *)
Lemma lookup_key_start k : plain_key k = true -> t_hash t <> [] -> exists n,
  t_hash t !! mainpos (t_hash t) (hashof k) = Some (Some n) /\
  lookup_key m t (hashof k) (query_key k) (query_type k) (query_str k)
  = if negb (hashof k =? n_keyhash n) && n_nocolliding n then Ok None
    else lookup_loop (length (t_hash t)) m t (hashof k) (query_key k) (query_type k) (query_str k)
           (Z.of_nat (mainpos (t_hash t) (hashof k))).
Proof.
  intros Hp Hne. assert (0 < length (t_hash t))%nat by (destruct (t_hash t); cbn; [done|lia]).
  destruct (lookup_lt_is_Some_2 ks (mainpos (t_hash t) (hashof k))) as [k' Hk'].
  { rewrite <- (Forall2_length _ _ _ Hkeys). by apply mainpos_lt. }
  destruct (lookup_node _ _ Hk') as (n & Hn & _). exists n. split; [done|].
  unfold lookup_key, sizehash. destruct (Z.eqb_spec (zlen (t_hash t)) 0); [unfold zlen in *; lia|].
  assert (0 <= hashof k mod zlen (t_hash t)) by (apply Z.mod_pos_bound; unfold zlen; lia).
  rewrite (zget_Some _ _ (Some n)) by done. rstep. cbn [deref]. rstep.
  unfold mainpos. by rewrite Z2Nat.id.
Qed.

Lemma lookup_key_found k j : plain_key k = true -> NoDup ks -> ks !! j = Some k ->
  lookup_key m t (hashof k) (query_key k) (query_type k) (query_str k) = Ok (Some (Z.of_nat j)).
Proof.
  intros Hp Hnd Hj. destruct (lookup_node _ _ Hj) as (nj & Hnj & Hs).
  destruct (lookup_key_start k Hp) as (n & Hn & ->); [by intros E; rewrite E in Hnj|].
  destruct (ch_main _ _ HC _ _ Hnj) as (Hin & n' & Hn' & Hm'). destruct Hs as [Hh _]. rewrite Hh in *.
  rewrite Hn in Hn'. injection Hn' as <-.
  pose proof (ch_chain _ _ HC _ _ Hn Hm') as Hc.
  destruct (negb (hashof k =? n_keyhash n) && n_nocolliding n) eqn:E.
  - apply andb_true_iff in E as [E1 E2]. destruct (ch_nocolliding _ _ HC _ _ Hn E2) as [_ HCn].
    rewrite HCn in Hin. apply list_elem_of_singleton in Hin. rewrite <- Hin in Hn.
    rewrite Hnj in Hn. injection Hn as <-. rewrite Hh, Z.eqb_refl in E1. done.
  - eapply lookup_loop_found; [done..| |exact Hin|done]. by eapply chain_length.
Qed.

Lemma lookup_key_none k : plain_key k = true -> k ∉ ks ->
  lookup_key m t (hashof k) (query_key k) (query_type k) (query_str k) = Ok None.
Proof.
  intros Hp Hk. destruct (decide (t_hash t = [])) as [E|Hne].
  { unfold lookup_key, sizehash. by rewrite E. }
  destruct (lookup_key_start k Hp Hne) as (n & Hn & ->).
  destruct (_ && _); [done|].
  destruct (ch_main _ _ HC _ _ Hn) as (Hin & n' & Hn' & Hm').
  pose proof (ch_chain _ _ HC _ _ Hn' ltac:(congruence)) as Hc.
  destruct (chain_suffix _ _ _ _ Hc Hin) as (l & Hl & _).
  eapply lookup_loop_none; [done|done|by eapply chain_length|].
  intros j _ Hj. apply Hk. by eapply list_elem_of_lookup_2.
Qed.
End lookup.

(** ** Filling *)

Lemma hash_links_insert_ne hash i s j : i <> j -> links (<[i:=s]> hash) j = links hash j.
Proof. intros. unfold links. by rewrite list_lookup_insert_ne. Qed.

Lemma links_insert hash i n : (i < length hash)%nat ->
  links (<[i:=Some n]> hash) i = Some (if n_next n <? 0 then None else Some (Z.to_nat (n_next n))).
Proof. intros. unfold links. by rewrite list_lookup_insert_eq. Qed.

Lemma mainpos_insert hash i s h : mainpos (<[i:=s]> hash) h = mainpos hash h.
Proof. apply mainpos_length, length_insert. Qed.

(** A lookup in an updated list of slots. *)
Ltac slot_cases H :=
  let E := fresh in
  apply list_lookup_insert_Some in H as [(<- & E & ?)|(? & H)];
  [try (injection E as <-)|].

(** A node put in its main position, while no chain has begun. *)
Lemma chained_first hash n :
  chained hash (fun _ => []) -> hash !! mainpos hash (n_keyhash n) = Some None -> n_next n = -1 ->
  chained (<[mainpos hash (n_keyhash n) := Some n]> hash) (fun _ => []).
Proof.
  intros [Hm Hc Hj Hn] He Hx. pose proof (lookup_lt_Some _ _ _ He) as Hlt.
  assert (forall i nd, hash !! i = Some (Some nd) -> i = mainpos hash (n_keyhash nd)) as Hown.
  { intros i nd Hi. destruct (Hm i nd Hi) as [Hin _]. by apply list_elem_of_singleton in Hin. }
  constructor.
  - intros i nd Hi. rewrite mainpos_insert. slot_cases Hi.
    + split; [left|]. exists n. rewrite list_lookup_insert_eq by done. by rewrite mainpos_insert.
    + rewrite <- (Hown _ _ Hi). split; [left|]. exists nd. rewrite list_lookup_insert_ne by done.
      rewrite mainpos_insert. split; [done|]. by rewrite <- (Hown _ _ Hi).
  - intros q nd Hq Hmq. rewrite mainpos_insert in Hmq. cbn. split; [done|]. slot_cases Hq.
    + exists None. rewrite links_insert by done. by rewrite Hx.
    + rewrite hash_links_insert_ne by done. specialize (Hc q nd Hq Hmq). cbn in Hc. naive_solver.
  - intros q j Hin. by apply elem_of_nil in Hin.
  - intros i nd Hi Hf. rewrite mainpos_insert. split; [|done]. slot_cases Hi; [done|]. symmetry. by apply Hown.
Qed.

(** A colliding node put in the free slot [e], linked behind the node [mp] in its
    main position [q]. *)
Section collide.
Context (hash : list (option node)) (C : nat -> list nat) (n mp : node) (e q : nat).
Context (HC : chained hash C) (He : hash !! e = Some None) (Hq : hash !! q = Some (Some mp)).
Context (Hn : mainpos hash (n_keyhash n) = q) (Hmq : mainpos hash (n_keyhash mp) = q).
Context (Hx : n_next n = n_next mp) (Hf : n_nocolliding n = false).

Definition collided : list (option node) := <[q := Some (set_next (Z.of_nat e) mp)]> (<[e := Some n]> hash).

Lemma collided_mainpos h : mainpos collided h = mainpos hash h.
Proof. unfold collided. by rewrite !mainpos_insert. Qed.

Lemma collided_ne : e <> q.
Proof. congruence. Qed.

Lemma collided_new : collided !! e = Some (Some n).
Proof.
  pose proof collided_ne. unfold collided. rewrite list_lookup_insert_ne by done.
  apply list_lookup_insert_eq. by eapply lookup_lt_Some.
Qed.

Lemma collided_main : collided !! q = Some (Some (set_next (Z.of_nat e) mp)).
Proof. apply list_lookup_insert_eq. rewrite length_insert. by eapply lookup_lt_Some. Qed.

Lemma collided_other i : i <> e -> i <> q -> collided !! i = hash !! i.
Proof. intros. unfold collided. by rewrite !list_lookup_insert_ne. Qed.

(** The members of the old chains are other slots. *)
Lemma collided_members r j : j ∈ C r -> j <> e /\ j <> q.
Proof.
  intros Hr. destruct (ch_members _ _ HC r j Hr) as (nj & Hnj & Hmj). split; [congruence|]. intros ->.
  rewrite Hq in Hnj. injection Hnj as <-. rewrite Hmq in Hmj. subst r.
  pose proof (ch_chain _ _ HC q mp Hq Hmq) as H. apply chain_nodup in H. by apply NoDup_cons in H as [H _].
Qed.

(** A slot of the new list: the new node, the main node or an old one. *)
Lemma collided_cases i nd : collided !! i = Some (Some nd) ->
  (i = e /\ nd = n) \/ (i = q /\ nd = set_next (Z.of_nat e) mp) \/ (i <> e /\ i <> q /\ hash !! i = Some (Some nd)).
Proof.
  intros Hi. destruct (decide (i = e)) as [->|Hie]; [rewrite collided_new in Hi; left; naive_solver|].
  destruct (decide (i = q)) as [->|Hiq]; [rewrite collided_main in Hi; right; left; naive_solver|].
  rewrite collided_other in Hi by done. by right; right.
Qed.

Lemma collided_chain r nr : collided !! r = Some (Some nr) -> mainpos hash (n_keyhash nr) = r ->
  chain (links collided) (Some r) (r :: if decide (r = q) then e :: C r else C r).
Proof.
  intros Hr Hmr. destruct (decide (r = q)) as [->|Hrq].
  - pose proof (ch_chain _ _ HC q mp Hq Hmq) as Hc. cbn in Hc. destruct Hc as (_ & p & Hp & Hc).
    cbn [chain]. split; [done|]. exists (Some e). unfold links at 1. rewrite collided_main. cbn [set_next n_next].
    destruct (Z.ltb_spec (Z.of_nat e) 0); [lia|]. rewrite Nat2Z.id. split; [done|].
    split; [done|]. exists p. split.
    + unfold links. rewrite collided_new, Hx. unfold links in Hp. by rewrite Hq in Hp.
    + eapply chain_ext; [|exact Hc]. intros j Hin. unfold links. destruct (collided_members _ _ Hin). by rewrite collided_other.
  - destruct (collided_cases _ _ Hr) as [[-> ->]|[[-> _]|(Hre & _ & Hr')]]; [congruence|done|].
    eapply chain_ext; [|by apply (ch_chain _ _ HC r nr)].
    intros j Hin. unfold links. apply elem_of_cons in Hin as [->|Hin]; [by rewrite collided_other|].
    destruct (collided_members _ _ Hin). by rewrite collided_other.
Qed.

Lemma collided_position i nd (r := mainpos hash (n_keyhash nd)) : collided !! i = Some (Some nd) ->
  i ∈ r :: (if decide (r = q) then e :: C r else C r) /\
  exists n', collided !! r = Some (Some n') /\ mainpos hash (n_keyhash n') = r.
Proof.
  intros Hi. assert (r = q -> exists n', collided !! r = Some (Some n') /\ mainpos hash (n_keyhash n') = r) as Hrq.
  { intros ->. exists (set_next (Z.of_nat e) mp). by rewrite collided_main. }
  destruct (collided_cases _ _ Hi) as [[-> ->]|[[-> ->]|(Hie & Hiq & Hi')]].
  - split; [|by apply Hrq]. unfold r. rewrite Hn, decide_True by done. set_solver.
  - split; [unfold r; cbn; rewrite Hmq; left|]. by apply Hrq.
  - destruct (ch_main _ _ HC i nd Hi') as (Hin & n' & Hn' & Hm'). fold r in Hin, Hn', Hm'.
    split; [case_decide; set_solver|]. destruct (decide (r = q)) as [E|E]; [by apply Hrq|].
    exists n'. rewrite collided_other; [done| |done]. congruence.
Qed.

Lemma chained_collide : chained collided (fun r => if decide (r = q) then e :: C r else C r).
Proof.
  constructor.
  - intros i nd Hi. rewrite collided_mainpos. destruct (collided_position i nd Hi) as (H1 & n' & H2 & H3).
    split; [done|]. exists n'. by rewrite collided_mainpos.
  - intros r nr Hr. rewrite collided_mainpos. by apply collided_chain.
  - intros r j Hin.
    assert (r = q /\ j = e \/ j ∈ C r) as [[-> ->]|Hin'] by (case_decide; set_solver).
    + exists n. by rewrite collided_new, collided_mainpos.
    + destruct (ch_members _ _ HC r j Hin') as (nj & Hnj & Hmj). destruct (collided_members _ _ Hin').
      exists nj. by rewrite collided_other, collided_mainpos.
  - intros i nd Hi Hnc. rewrite collided_mainpos.
    destruct (collided_cases _ _ Hi) as [[-> ->]|[[-> ->]|(Hie & Hiq & Hi')]]; [congruence|done|].
    rewrite decide_False by done. by apply (ch_nocolliding _ _ HC i nd).
Qed.
End collide.
