(* ===== verification/SharedataConv.v ===== *)
(** * The conversion of Lua tables to shared tables

    What [convtable] makes of any Lua table, the memory it allocates, and what it
    leaves where it fails. *)
From S2P Require Import Prelude Sharedata SharedataHash.

(** ** Computations of [conv] *)

(** The computation does not fault; [Q] holds where it returns, [E] where it
    leaves with an error of Lua. *)
Definition wp {A} (c : conv A) (Q : A -> context -> Prop) (E : context -> Prop) (x : context) : Prop :=
  match c x with
  | (Ok a, x') => Q a x'
  | (LuaError _, x') => E x'
  | (Fault, _) => False
  end.

Lemma wp_bind {A B} (c : conv A) (f : A -> conv B) Q E x :
  wp c (fun a => wp (f a) Q E) E x -> wp (c ≫= f) Q E x.
Proof. unfold wp, mbind, conv_bind. destruct (c x) as [[a|e|] x']; done. Qed.

Lemma wp_ret {A} (a : A) (Q : A -> context -> Prop) E x : Q a x -> wp (mret a) Q E x.
Proof. done. Qed.

Lemma wp_lift {A} (r : result A) a (Q : A -> context -> Prop) E x : r = Ok a -> Q a x -> wp (lift r) Q E x.
Proof. intros ->. done. Qed.

Lemma wp_mono {A} (c : conv A) (Q Q' : A -> context -> Prop) (E E' : context -> Prop) x :
  wp c Q E x -> (forall a x', Q a x' -> Q' a x') -> (forall x', E x' -> E' x') -> wp c Q' E' x.
Proof. unfold wp. destruct (c x) as [[a|e|] x']; naive_solver. Qed.

Lemma wp_read_table p t (Q : table -> context -> Prop) E x : x_tables x !! p = Some t -> Q t x -> wp (read_table p) Q E x.
Proof. unfold wp, read_table. by intros ->. Qed.

(** The memory with another table at [p]. *)
Definition put_table (p : nat) (t : table) (x : context) : context :=
  Ctx (<[p := t]> (x_tables x)) (x_next x) (x_strings x) (x_index x).

Lemma wp_write_table p t t' (Q : unit -> context -> Prop) E x :
  x_tables x !! p = Some t' -> Q tt (put_table p t x) -> wp (write_table p t) Q E x.
Proof. unfold wp, write_table. by intros ->. Qed.

Lemma wp_write_slot p i n t (Q : unit -> context -> Prop) E x :
  x_tables x !! p = Some t -> (i < length (t_hash t))%nat ->
  Q tt (put_table p (Table (t_array t) (<[i := Some n]> (t_hash t)) (t_L t)) x) ->
  wp (write_slot p (Z.of_nat i) n) Q E x.
Proof.
  intros Ht Hi HQ. apply wp_bind, (wp_read_table _ _ _ _ _ Ht), wp_bind.
  eapply wp_lift; [apply zset_Ok; zlia|]. rewrite Nat2Z.id. by eapply wp_write_table.
Qed.

Lemma wp_read_slot p i s t (Q : option node -> context -> Prop) E x :
  x_tables x !! p = Some t -> t_hash t !! i = Some s -> Q s x -> wp (read_slot p (Z.of_nat i)) Q E x.
Proof.
  intros Ht Hi HQ. apply wp_bind, (wp_read_table _ _ _ _ _ Ht).
  eapply wp_lift; [apply zget_Some; [lia|by rewrite Nat2Z.id]|done].
Qed.

Lemma wp_read_node p i n t (Q : node -> context -> Prop) E x :
  x_tables x !! p = Some t -> t_hash t !! i = Some (Some n) -> Q n x -> wp (read_node p (Z.of_nat i)) Q E x.
Proof. intros Ht Hi HQ. apply wp_bind, (wp_read_slot _ _ _ _ _ _ _ Ht Hi). by eapply wp_lift. Qed.

Lemma wp_update_node p i f n t (Q : unit -> context -> Prop) E x :
  x_tables x !! p = Some t -> t_hash t !! i = Some (Some n) ->
  Q tt (put_table p (Table (t_array t) (<[i := Some (f n)]> (t_hash t)) (t_L t)) x) ->
  wp (update_node p (Z.of_nat i) f) Q E x.
Proof.
  intros Ht Hi HQ. apply wp_bind, (wp_read_node _ _ _ _ _ _ _ Ht Hi).
  eapply wp_write_slot; [done|by eapply lookup_lt_Some|done].
Qed.

(** A loop with an invariant over the prefix of the list that is done. *)
Lemma wp_for_each {A} (f : A -> conv unit) (I : list A -> context -> Prop) E l : 
  (forall pre a post x, l = pre ++ a :: post -> I pre x -> wp (f a) (fun _ => I (pre ++ [a])) E x) ->
  forall x, I [] x -> wp (for_each f l) (fun _ => I l) E x.
Proof.
  intros Hstep. enough (forall post pre x, l = pre ++ post -> I pre x -> wp (for_each f post) (fun _ => I l) E x) as H.
  { intros x Hx. by apply (H l []). }
  intros post. induction post as [|a post IH]; intros pre x Hl HI.
  - rewrite app_nil_r in Hl. by subst.
  - cbn [for_each]. apply wp_bind. eapply wp_mono; [by eapply Hstep| |done].
    intros [] x' H'. cbv beta in H'. apply (IH (pre ++ [a])); [by rewrite <- app_assoc|done].
Qed.

(** ** The state of a conversion *)

(** Tables have addresses below the next free one, strings have different
    indices from 2 to [string_index]. *)
Record well_formed (x : context) : Prop := {
  wf_next : forall q t, x_tables x !! q = Some t -> (q < x_next x)%nat;
  wf_index : forall s i, x_strings x !! s = Some i -> 2 <= i <= x_index x;
  wf_inj : forall s s' i, x_strings x !! s = Some i -> x_strings x !! s' = Some i -> s = s';
  wf_low : 1 <= x_index x
}.

(** No table changes but [P]; the strings keep their indices. *)
Record extends (P : nat -> Prop) (x x' : context) : Prop := {
  ex_next : (x_next x <= x_next x')%nat;
  ex_tables : forall q, (q < x_next x)%nat -> ~ P q -> x_tables x' !! q = x_tables x !! q;
  ex_strings : x_strings x ⊆ x_strings x'
}.

Notation nothing := (fun _ : nat => False).

Lemma extends_nothing x x' q : extends nothing x x' -> (q < x_next x)%nat -> x_tables x' !! q = x_tables x !! q.
Proof. intros H Hq. apply (ex_tables _ _ _ H); [done|]. intros []. Qed.

Lemma extends_refl P x : extends P x x.
Proof. by constructor. Qed.

Lemma extends_trans P x y z : extends P x y -> extends P y z -> extends P x z.
Proof.
  intros [A1 A2 A3] [B1 B2 B3]. constructor; [lia| |by etrans].
  intros q Hq HP. rewrite B2 by (lia || done). by apply A2.
Qed.

Lemma extends_weaken (P P' : nat -> Prop) x y : (forall q, P q -> P' q) -> extends P x y -> extends P' x y.
Proof. intros HP [A1 A2 A3]. constructor; [done| |done]. intros q Hq Hn. apply A2; naive_solver. Qed.

Lemma extends_put p t x : extends (eq p) x (put_table p t x).
Proof. constructor; cbn; [done| |done]. intros q _ Hq. by rewrite lookup_insert_ne. Qed.

Lemma well_formed_put p t t' x : x_tables x !! p = Some t' -> well_formed x -> well_formed (put_table p t x).
Proof.
  intros Hp [H1 H2 H3 H4]. constructor; cbn; [|done..].
  intros q tq [[-> _]|[_ Hq]]%lookup_insert_Some; by eapply H1.
Qed.

Lemma stringindex_wp s (Q : Z -> context -> Prop) E x : well_formed x ->
  (forall i x', well_formed x' -> extends nothing x x' -> x_tables x' = x_tables x -> x_next x' = x_next x ->
     x_strings x' !! s = Some i -> Q i x') ->
  wp (stringindex s) Q E x.
Proof.
  intros [H1 H2 H3 H4] HQ. unfold wp, stringindex. destruct (x_strings x !! s) as [i|] eqn:Es.
  - by apply HQ.
  - apply HQ; cbn; [| |done|done|by rewrite lookup_insert_eq].
    + constructor; cbn; [done| | |lia].
      * intros s' i [[-> <-]|[_ Hs]]%lookup_insert_Some; [lia|]. apply H2 in Hs. lia.
      * intros s1 s2 i [[-> <-]|[N1 Hs1]]%lookup_insert_Some [[-> E2]|[N2 Hs2]]%lookup_insert_Some; try done.
        -- apply H2 in Hs2. lia.
        -- subst. apply H2 in Hs1. lia.
        -- by eapply H3.
    + constructor; cbn; [done..|]. by apply insert_subseteq.
Qed.

(** ** Keys *)

(** The key the library takes a key of Lua for. *)
Definition canon (k : lua) : lua :=
  match k with VInteger d => VInteger (s32 d) | VString s => VString s | _ => VString [] end.

Lemma canon_plain k : plain_key k = true -> canon k = k.
Proof. destruct k; try done. cbn. intros [H1 H2]%andb_true_iff. rewrite s32_small; [done|lia]. Qed.

(** What [ishashkey] returns for a key. *)
Definition classified (size : Z) (σ : gmap (list Z) Z) (k : lua) (c : key_class) : Prop :=
  match c with
  | ArrayKey key => hashed size (canon k) = false /\ canon k = VInteger key /\ 0 < key <= size
  | HashKey key keyhash keytype =>
    hashed size (canon k) = true /\ forall v next nc, slot_key σ (Node v key next keyhash keytype nc) (canon k)
  end.

Lemma ishashkey_wp size k (Q : key_class -> context -> Prop) E x :
  match k with VNumber _ => False | _ => True end -> well_formed x ->
  (forall c x', well_formed x' -> extends nothing x x' -> x_tables x' = x_tables x -> x_next x' = x_next x ->
     classified size (x_strings x') k c -> Q c x') ->
  wp (ishashkey size k) Q E x.
Proof.
  intros Hk Hwf HQ.
  assert (forall s, canon k = VString s ->
    wp (keyhash ← lift (calchash s); key ← stringindex s; mret (HashKey key keyhash KEYTYPE_STRING)) Q E x) as Hstr.
  { intros s Hs. apply wp_bind. eapply wp_lift; [apply calchash_ok|]. apply wp_bind, stringindex_wp; [done|].
    intros i x' Hwf' Hex Ht Hn Hi. apply wp_ret, HQ; try done. cbn. rewrite Hs. repeat split; done. }
  destruct k as [|b|d|n|s|t|]; try done; cbn [ishashkey]; try by apply Hstr.
  destruct ((0 <? s32 d) && (s32 d <=? size)) eqn:E1; apply wp_ret, HQ; try done; try apply extends_refl; cbn; rewrite E1.
  - apply andb_true_iff in E1 as [E1 E2]. repeat split; lia.
  - repeat split.
Qed.

(** ** What a shared table stands for *)

Definition value_sub (v : value) : option nat := match v with TABLE q => Some q | _ => None end.

(** The value stands for a value of Lua, [T] says so of tables. *)
Definition value_repr (T : nat -> nat -> Prop) (σ : gmap (list Z) Z) (v : value) (l : lua) : Prop :=
  match v, l with
  | REAL n, VNumber n' => n = n'
  | INTEGER d, VInteger d' => d = d'
  | BOOLEAN b, VBoolean b' => b = b'
  | STRING i, VString s => σ !! s = Some i
  | TABLE q, VTable t => T q t
  | _, _ => False
  end.

Lemma value_repr_mono (T T' : nat -> nat -> Prop) σ σ' v l : σ ⊆ σ' -> (forall q t, v = TABLE q -> T q t -> T' q t) ->
  value_repr T σ v l -> value_repr T' σ' v l.
Proof. intros Hs HT. destruct v, l; cbn; try done; eauto using lookup_weaken. Qed.

(** The array slot [i] holds the value of an entry, or there is none for it. *)
Definition array_repr (V : value -> lua -> Prop) (es : list (lua * lua)) (i : nat) (v : value) : Prop :=
  (v = NIL /\ forall k l, (k, l) ∈ es -> canon k <> VInteger (Z.of_nat i + 1)) \/
  exists k l, (k, l) ∈ es /\ canon k = VInteger (Z.of_nat i + 1) /\ V v l.

(** The slot is free, or holds the entry with the given number. *)
Definition slot_repr (V : value -> lua -> Prop) (σ : gmap (list Z) Z) (size : Z) (es : list (lua * lua))
    (s : option node) (o : option nat) : Prop :=
  match s, o with
  | None, None => True
  | Some n, Some j => exists k l, es !! j = Some (k, l) /\ hashed size (canon k) = true /\
                       slot_key σ n (canon k) /\ V (n_v n) l
  | _, _ => False
  end.

(** A node carries the key. *)
Definition present (σ : gmap (list Z) Z) (hash : list (option node)) (k : lua) : Prop :=
  exists i n, hash !! i = Some (Some n) /\ slot_key σ n k.

Record table_repr (V : value -> lua -> Prop) (σ : gmap (list Z) Z) (t : table) (lt : lua_table) : Prop := {
  tr_size : sizearray t = s32 (lt_len lt);
  tr_array : forall i v, t_array t !! i = Some v -> array_repr V (lt_entries lt) i v;
  tr_count : countsize (lt_entries lt) (sizearray t) 0 = Ok (sizehash t);
  tr_hash : exists js C, chained (t_hash t) C /\ NoDup (omap id js) /\
    Forall2 (slot_repr V σ (sizearray t) (lt_entries lt)) (t_hash t) js;
  tr_present : forall k l, (k, l) ∈ lt_entries lt -> hashed (sizearray t) (canon k) = true -> present σ (t_hash t) (canon k)
}.

Lemma slot_repr_mono (V V' : value -> lua -> Prop) σ σ' size es s o : σ ⊆ σ' ->
  (forall n l, s = Some n -> V (n_v n) l -> V' (n_v n) l) ->
  slot_repr V σ size es s o -> slot_repr V' σ' size es s o.
Proof.
  intros Hs HV. destruct s as [n|], o as [j|]; cbn; try done. intros (k & l & H1 & H2 & H3 & H4).
  exists k, l. repeat split; eauto using slot_key_mono. all: by eapply slot_key_mono.
Qed.

Lemma array_repr_mono (V V' : value -> lua -> Prop) es i v : (forall l, V v l -> V' v l) ->
  array_repr V es i v -> array_repr V' es i v.
Proof. intros HV [H|(k & l & H1 & H2 & H3)]; [by left|right]. exists k, l. auto. Qed.

Lemma present_mono σ σ' hash k : σ ⊆ σ' -> present σ hash k -> present σ' hash k.
Proof. intros Hs (i & n & H & Hk). exists i, n. split; [done|]. by eapply slot_key_mono. Qed.

Section repr.
Context (h : lua_heap) (L : nat).

(** The table at [p] is a copy of the Lua table [t], of depth at most [d]; the
    tables in it are at higher addresses. *)
Fixpoint repr (d : nat) (ts : gmap nat table) (σ : gmap (list Z) Z) (p t : nat) : Prop :=
  match d with
  | O => False
  | S d => exists tb lt, ts !! p = Some tb /\ h !! t = Some lt /\ t_L tb = Some L /\
      table_repr (value_repr (fun q t => (p < q)%nat /\ repr d ts σ q t) σ) σ tb lt
  end.

Lemma repr_mono d ts ts' σ σ' p t : σ ⊆ σ' ->
  (forall q tb, (p <= q)%nat -> ts !! q = Some tb -> ts' !! q = Some tb) ->
  repr d ts σ p t -> repr d ts' σ' p t.
Proof.
  intros Hs. revert p t. induction d as [|d IH]; intros p t Hts; [done|].
  intros (tb & lt & H1 & H2 & H3 & [T1 T2 T3 (js & C & HC & Hn & Hf) T5]). exists tb, lt. split_and!; [auto|done..|].
  assert (forall v l, value_repr (fun q t => (p < q)%nat /\ repr d ts σ q t) σ v l ->
    value_repr (fun q t => (p < q)%nat /\ repr d ts' σ' q t) σ' v l) as Hmono.
  { intros v l. apply value_repr_mono; [done|]. intros q t' _ [Hq HT]. split; [done|].
    eapply IH; [|exact HT]. intros q' tb' Hq'. apply Hts. lia. }
  constructor; [done| |done| |].
  - intros i v Hi. eapply array_repr_mono; [|by apply T2]. auto.
  - exists js, C. split_and!; [done..|]. eapply Forall2_impl; [exact Hf|]. intros s o. apply slot_repr_mono; auto.
  - intros k l Hk Hh. eapply present_mono; eauto.
Qed.

(** [ls] are the tables reached from [p], each once. *)
Fixpoint owns (d : nat) (ts : gmap nat table) (p : nat) (ls : list nat) : Prop :=
  match d with
  | O => False
  | S d => exists tb kss, ts !! p = Some tb /\ Forall2 (owns d ts) (children tb) kss /\
      ls ≡ₚ p :: concat kss /\ NoDup ls /\ Forall (fun q => (p < q)%nat) (concat kss)
  end.
End repr.

(** ** Plain tables *)

(** A table the library copies as it is: nested at most [d] deep, with plain
    keys, each once, values that are supported, and a length that fits an [int]. *)
Fixpoint plain (d : nat) (h : lua_heap) (v : lua) : bool :=
  match v with
  | VNil | VOther => false
  | VTable t =>
    match d, h !! t with
    | S d, Some lt =>
      ((0 <=? lt_len lt) && (lt_len lt <? 2 ^ 31)) && forallb (fun kv => plain_key kv.1) (lt_entries lt)
      && bool_decide (NoDup (lt_entries lt).*1) && forallb (fun kv => plain d h kv.2) (lt_entries lt)
    | _, _ => false
    end
  | _ => true
  end.

Arguments plain : simpl never.

Lemma plain_table d h t lt : h !! t = Some lt -> plain (S d) h (VTable t) = true ->
  0 <= lt_len lt < 2 ^ 31 /\ NoDup (lt_entries lt).*1 /\
  forall k v, (k, v) ∈ lt_entries lt -> plain_key k = true /\ plain d h v = true.
Proof.
  intros Ht. unfold plain; fold plain. rewrite Ht. intros [[[Hl Hk]%andb_true_iff Hn]%andb_true_iff Hv]%andb_true_iff.
  rewrite forallb_forall in Hk, Hv. split; [lia|]. split; [by apply bool_decide_eq_true in Hn|].
  intros k v Hin. apply list_elem_of_In in Hin. split; [by apply (Hk (k, v))|by apply (Hv (k, v))].
Qed.

(** What holds of the tables of a Lua state: they contain no nil, and the tables
    in them exist. *)
Definition exists_in (h : lua_heap) (v : lua) : Prop :=
  match v with VTable t => is_Some (h !! t) | _ => True end.

Definition lua_state (h : lua_heap) : Prop :=
  forall t lt k v, h !! t = Some lt -> (k, v) ∈ lt_entries lt -> v <> VNil /\ exists_in h v.

(** ** Ownership *)

Lemma owns_ext d ts ts' p ls : (forall q, q ∈ ls -> ts' !! q = ts !! q) -> owns d ts p ls -> owns d ts' p ls.
Proof.
  revert p ls. induction d as [|d IH]; intros p ls Hts; [done|].
  intros (tb & kss & H1 & H2 & H3 & H4 & H5). exists tb, kss.
  split_and!; [rewrite Hts; [done|rewrite H3; left]| |done..].
  assert (forall q, q ∈ concat kss -> q ∈ ls) as Hsub by (intros; rewrite H3; by right).
  clear - IH Hts H2 Hsub. induction H2 as [|c ks cs kss Hc _ IH2]; constructor.
  - apply IH; [|done]. intros q Hq. apply Hts, Hsub. cbn. set_solver.
  - apply IH2. intros q Hq. apply Hsub. cbn. set_solver.
Qed.

Lemma owns_list_ext d ts ts' cs kss : (forall q, q ∈ concat kss -> ts' !! q = ts !! q) ->
  Forall2 (owns d ts) cs kss -> Forall2 (owns d ts') cs kss.
Proof.
  intros Hts H. induction H as [|c ks cs kss Hc _ IH]; constructor.
  - eapply owns_ext; [|done]. intros q Hq. apply Hts. cbn. set_solver.
  - apply IH. intros q Hq. apply Hts. cbn. set_solver.
Qed.

Lemma owns_alloc d ts p ls q : owns d ts p ls -> q ∈ ls -> is_Some (ts !! q).
Proof.
  revert p ls q. induction d as [|d IH]; intros p ls q; [done|].
  intros (tb & kss & H1 & H2 & H3 & _) Hq. rewrite H3 in Hq. apply elem_of_cons in Hq as [->|Hq]; [done|].
  clear - IH H2 Hq. induction H2 as [|c ks cs kss Hc _ IH2]; cbn in Hq; [set_solver|].
  apply elem_of_app in Hq as [Hq|Hq]; [by eapply IH|auto].
Qed.

Lemma owns_list_alloc d ts cs kss q : Forall2 (owns d ts) cs kss -> q ∈ concat kss -> is_Some (ts !! q).
Proof.
  intros H Hq. induction H as [|c ks cs kss Hc _ IH]; cbn in Hq; [set_solver|].
  apply elem_of_app in Hq as [Hq|Hq]; [by eapply owns_alloc|auto].
Qed.

Lemma concat_Permutation {A} (l k : list (list A)) : l ≡ₚ k -> concat l ≡ₚ concat k.
Proof.
  induction 1 as [|x l k _ IH|x y l|l k m _ IH1 _ IH2]; cbn; [done|by rewrite IH| |by rewrite IH1].
  rewrite !app_assoc. by rewrite (Permutation_app_comm x y).
Qed.

(** Owners in another order. *)
Lemma owns_list_perm d ts cs cs' kss : cs ≡ₚ cs' -> Forall2 (owns d ts) cs kss ->
  exists kss', Forall2 (owns d ts) cs' kss' /\ concat kss' ≡ₚ concat kss.
Proof.
  intros Hp. revert kss. induction Hp as [|c cs cs' _ IH|c c' cs|cs cs' cs'' _ IH1 _ IH2]; intros kss H.
  - exists kss. done.
  - apply Forall2_cons_inv_l in H as (ks & kss1 & Hc & H & ->). destruct (IH _ H) as (kss' & H' & E).
    exists (ks :: kss'). split; [by constructor|]. cbn. by rewrite E.
  - apply Forall2_cons_inv_l in H as (ks & kss1 & Hc & H & ->).
    apply Forall2_cons_inv_l in H as (ks' & kss2 & Hc' & H & ->).
    exists (ks' :: ks :: kss2). split; [by repeat constructor|]. cbn. rewrite !app_assoc. by rewrite (Permutation_app_comm ks).
  - destruct (IH1 _ H) as (k1 & H1 & E1). destruct (IH2 _ H1) as (k2 & H2 & E2).
    exists k2. split; [done|]. by rewrite E2.
Qed.

(** ** Deletion *)

(** [delete_tbl] frees exactly the tables that are owned, each once. *)
Lemma delete_tbl_owned d ts p ls fuel : owns d ts p ls -> Forall (fun q => (q < p + fuel)%nat) ls ->
  exists ts', delete_tbl fuel p ts = Ok ts' /\ forall q, ts' !! q = if decide (q ∈ ls) then None else ts !! q.
Proof.
  revert ts p ls fuel. induction d as [|d IH]; intros ts p ls fuel; [done|].
  intros (tb & kss & H1 & H2 & H3 & H4 & H5) Hb.
  rewrite H3 in Hb, H4. apply Forall_cons in Hb as [Hp Hb]. apply NoDup_cons in H4 as [Hnp H4].
  destruct fuel as [|fuel]; [lia|]. cbn [delete_tbl]. rewrite H1. cbn [deref]. rstep.
  assert (exists ts1, foldl (fun r q => ts ← r; delete_tbl fuel q ts) (Ok ts) (children tb) = Ok ts1 /\
    forall q, ts1 !! q = if decide (q ∈ concat kss) then None else ts !! q) as (ts1 & E & Hts1).
  { clear H1 H3 Hnp. revert ts H2. generalize (children tb) as cs. intros cs ts H2.
    revert cs ts H2. induction kss as [|ks kss IHk]; intros cs ts H2.
    - apply Forall2_nil_inv_r in H2 as ->. exists ts. split; [done|]. intros q. by rewrite decide_False by set_solver.
    - apply Forall2_cons_inv_r in H2 as (c & cs' & Hc & H2 & ->). cbn in *.
      apply Forall_app in Hb as [Hb1 Hb2], H5 as [H51 H52]. apply NoDup_app in H4 as (N1 & N2 & N3).
      assert (c ∈ ks) as Hck.
      { destruct d; [done|]. destruct Hc as (? & ? & _ & _ & -> & _). left. }
      destruct (IH ts c ks fuel Hc) as (ts1 & E1 & Hts1).
      { rewrite Forall_forall in Hb1, H51 |- *. intros q Hq. specialize (Hb1 q Hq). specialize (H51 c Hck). lia. }
      rewrite E1. destruct (IHk N3 H52 Hb2 cs' ts1) as (ts2 & E2 & Hts2).
      { eapply owns_list_ext; [|done]. intros q Hq. rewrite Hts1, decide_False; [done|]. intros Hq'. by apply (N2 q). }
      exists ts2. split; [done|]. intros q. rewrite Hts2, Hts1. repeat case_decide; set_solver. }
  rewrite E. rstep. rewrite Hts1, decide_False by done. rewrite H1. cbn [deref]. rstep.
  eexists. split; [done|]. intros q. destruct (decide (q = p)) as [->|Hqp].
  - rewrite lookup_delete_eq, decide_True; [done|]. rewrite H3. left.
  - rewrite lookup_delete_ne, Hts1 by done. apply decide_ext. rewrite H3. set_solver.
Qed.

(** What [delete_tbl] can get at from a table: the table itself and, again and
    again, the tables in the values of its two parts. *)
Inductive reaches (ts : gmap nat table) (p : nat) : nat -> Prop :=
| reaches_root : reaches ts p p
| reaches_child q tb c : reaches ts p q -> ts !! q = Some tb -> c ∈ children tb -> reaches ts p c.

Lemma reaches_from ts p tb c q : ts !! p = Some tb -> c ∈ children tb -> reaches ts c q -> reaches ts p q.
Proof.
  intros Hp Hc H. induction H as [|q tq c' _ IH Hq Hc']; [eapply reaches_child; [constructor|done..]|by eapply reaches_child].
Qed.

Lemma owns_self d ts p ls : owns d ts p ls -> p ∈ ls.
Proof. destruct d as [|d]; [done|]. intros (tb & kss & _ & _ & -> & _). left. Qed.

Lemma owns_closed d ts p ls q tb c : owns d ts p ls -> q ∈ ls -> ts !! q = Some tb -> c ∈ children tb -> c ∈ ls.
Proof.
  revert p ls. induction d as [|d IH]; intros p ls; [done|]. intros (tb' & kss & H1 & H2 & H3 & _) Hq Htb Hc. rewrite H3 in Hq |- *. right.
  apply elem_of_cons in Hq as [->|Hq].
  - assert (tb' = tb) as -> by congruence. clear - H2 Hc. revert H2 Hc. generalize (children tb). intros cs H2 Hc. induction H2 as [|x ks cs kss Hx _ IH2]; [by apply not_elem_of_nil in Hc|].
    cbn. apply elem_of_app. apply elem_of_cons in Hc as [->|Hc]; [left; by eapply owns_self|right; by apply IH2].
  - clear - IH H2 Hq Htb Hc. revert H2 Hq. generalize (children tb'). intros cs H2 Hq. induction H2 as [|x ks cs kss Hx _ IH2]; [by apply not_elem_of_nil in Hq|]. cbn in Hq |- *. apply elem_of_app in Hq as [Hq|Hq]; apply elem_of_app; [left; by eapply IH|right; by apply IH2].
Qed.

Lemma owns_reaches d ts p ls q : owns d ts p ls -> q ∈ ls <-> reaches ts p q.
Proof.
  intros Ho. split.
  - revert p ls Ho. induction d as [|d IH]; intros p ls; [done|]. intros (tb & kss & H1 & H2 & H3 & _) Hq. rewrite H3 in Hq.
    apply elem_of_cons in Hq as [->|Hq]; [constructor|].
    assert (exists c, c ∈ children tb /\ reaches ts c q) as (c & Hc & Hr); [|by eapply reaches_from].
    clear - IH H2 Hq. revert H2 Hq. generalize (children tb). intros cs H2 Hq. induction H2 as [|x ks cs kss Hx _ IH2]; cbn in Hq; [by apply not_elem_of_nil in Hq|].
    apply elem_of_app in Hq as [Hq|Hq]; [exists x; split; [left|by eapply IH]|]. destruct (IH2 Hq) as (c & Hc & Hr). exists c. split; [by right|done].
  - induction 1 as [|q tb c _ IH Hq Hc]; [by eapply owns_self|by eapply owns_closed].
Qed.

(** [ts'] is [ts] without what can be reached from [p]. *)
Definition freed_from (ts : gmap nat table) (p : nat) (ts' : gmap nat table) : Prop :=
  forall q, (reaches ts p q -> ts' !! q = None) /\ (~ reaches ts p q -> ts' !! q = ts !! q).

Lemma owns_freed d ts p ls ts' : owns d ts p ls -> (forall q, ts' !! q = if decide (q ∈ ls) then None else ts !! q) -> freed_from ts p ts'.
Proof. intros Ho Hts q. rewrite <- (owns_reaches _ _ _ _ q Ho), Hts. by case_decide. Qed.
