(* ===== verification/SharedataFill.v ===== *)
(** * Filling a shared table

    The steps of [convtable] on one table, for any Lua table: what they store,
    and that they never fault. *)
From S2P Require Import Prelude Sharedata SharedataHash SharedataConv.

(** An element of a list replaced, seen through [omap]. *)
Lemma omap_insert {A B} (f : A -> option B) (l : list A) i a b : l !! i = Some a -> exists rest,
  omap f l ≡ₚ option_list (f a) ++ rest /\ omap f (<[i:=b]> l) ≡ₚ option_list (f b) ++ rest.
Proof.
  revert i. induction l as [|c l IH]; intros [|i] Hi; [done..| |].
  - injection Hi as ->. exists (omap f l). cbn. by destruct (f a), (f b).
  - destruct (IH i Hi) as (rest & E1 & E2). exists (option_list (f c) ++ rest). cbn.
    rewrite !(Permutation_app_swap_app (option_list (f _)) (option_list (f c))), <- E1, <- E2. by destruct (f c).
Qed.

Lemma omap_insert_same {A B} (f : A -> option B) (l : list A) i a b : l !! i = Some a -> f a = f b -> omap f (<[i:=b]> l) = omap f l.
Proof.
  revert i. induction l as [|c l IH]; intros [|i] Hi Hf; [done..| |].
  - injection Hi as ->. cbn. by rewrite Hf.
  - change (<[S i:=b]> (c :: l)) with (c :: <[i:=b]> l). cbn [omap list_omap]. by rewrite (IH i).
Qed.

Lemma filter_all {A} (P : A -> Prop) `{forall a, Decision (P a)} (l : list A) : Forall P l -> filter P l = l.
Proof. induction 1 as [|a l Ha _ IH]; [done|]. rewrite filter_cons_True by done. by rewrite IH. Qed.

Section fill.
Context (h : lua_heap) (Hh : lua_state h) (L d : nat).

(** The addresses allocated between two states. *)
Definition allocated (x x' : context) (q : nat) : Prop := (x_next x <= q < x_next x')%nat.

Definition copyable (v : lua) : Prop := v = VNil \/ plain d h v = true.

(** The result of the conversion of a value: it is stored in new tables, all of
    which it owns if the value is plain. *)
Record stored (x x' : context) (v : lua) (val : value) : Prop := {
  st_wf : well_formed x';
  st_ext : extends nothing x x';
  st_repr : v <> VNil -> value_repr (fun q t => (x_next x <= q)%nat /\ repr h L d (x_tables x') (x_strings x') q t) (x_strings x') val v;
  st_nil : v = VNil -> val = NIL;
  st_own : exists kss, Forall2 (owns d (x_tables x')) (option_list (value_sub val)) kss /\ NoDup (concat kss) /\
    Forall (allocated x x') (concat kss) /\
    (copyable v -> forall q, allocated x x' q -> q ∈ concat kss)
}.

(** The recursive call, on a table just allocated. *)
Definition conv_spec (conv : nat -> nat -> conv unit) : Prop := forall t p x,
  well_formed x -> x_tables x !! p = Some blank -> is_Some (h !! t) -> x_next x = S p ->
  wp (conv t p)
    (fun _ x' => well_formed x' /\ extends (eq p) x x' /\ repr h L d (x_tables x') (x_strings x') p t /\
       exists ls, owns d (x_tables x') p ls /\ NoDup ls /\ Forall (fun q => p <= q < x_next x')%nat ls /\
         (plain d h (VTable t) = true -> forall q, (p <= q < x_next x')%nat -> q ∈ ls))
    (fun x' => well_formed x' /\ extends (eq p) x x' /\ plain d h (VTable t) = false /\
       exists d' ls, owns d' (x_tables x') p ls) x.

Context (conv : nat -> nat -> conv unit) (Hconv : conv_spec conv).

Lemma stored_scalar x x' v val : well_formed x' -> extends nothing x x' -> x_next x' = x_next x ->
  (v <> VNil -> value_repr (fun _ _ => False) (x_strings x') val v) -> (v = VNil -> val = NIL) -> value_sub val = None ->
  stored x x' v val.
Proof.
  intros Hwf Hex Hn Hr Hnil Hs. constructor; try done.
  - intros Hv. eapply value_repr_mono; [done| |by apply Hr]. done.
  - exists []. rewrite Hs. split_and!; [constructor..|]. intros _ q Hq. unfold allocated in Hq. lia.
Qed.

Lemma setvalue_wp v x (Q : value -> context -> Prop) (E : context -> Prop) :
  well_formed x -> exists_in h v ->
  (forall val x', stored x x' v val -> Q val x') ->
  (forall x', well_formed x' -> extends nothing x x' -> ~ copyable v -> E x') ->
  wp (setvalue conv v) Q E x.
Proof.
  intros Hwf Hv HQ HE.
  destruct v as [|b|z|n|s|t|]; cbn [setvalue];
    try (apply wp_ret, HQ, stored_scalar; solve [done | apply extends_refl]).
  - apply wp_bind, stringindex_wp; [done|]. intros i x' Hwf' Hex Ht Hn Hi. by apply wp_ret, HQ, stored_scalar.
  - set (q := x_next x). set (x1 := Ctx (<[q := blank]> (x_tables x)) (S q) (x_strings x) (x_index x)).
    apply wp_bind. change (wp (conv t q;; mret (TABLE q)) Q E x1).
    assert (x_tables x !! q = None) as Hq.
    { apply eq_None_not_Some. intros [tb Htb]. apply (wf_next _ Hwf) in Htb. unfold q in Htb. lia. }
    assert (well_formed x1) as Hwf1.
    { destruct Hwf as [W1 W2 W3 W4]. constructor; cbn; try done.
      intros q' tb [[<- _]|[_ Htb]]%lookup_insert_Some; [lia|]. apply W1 in Htb. unfold q. lia. }
    assert (forall x', extends (eq q) x1 x' -> extends nothing x x') as Hext.
    { intros x' [A1 A2 A3]. constructor; [cbn in A1; unfold q in A1; lia| |done].
      intros q' Hq' _. rewrite A2 by (cbn; unfold q; lia). cbn. rewrite lookup_insert_ne; [done|unfold q; lia]. }
    apply wp_bind. eapply wp_mono; [apply Hconv; [done|cbn; by rewrite lookup_insert_eq|done|done]|..]; cbv beta.
    + intros [] x' (Hwf' & Hex & Hr & ls & Ho & Hnd & Hb & Hall). apply wp_ret, HQ.
      constructor; [done|by apply Hext|done|done|].
      exists [ls]. cbn. rewrite app_nil_r. repeat split; [by repeat constructor|done|done|].
      intros [|Hp]; [done|auto].
    + intros x' (Hwf' & Hex & Hp & _). apply HE; [done|by apply Hext|]. intros [|]; congruence.
  - unfold wp. cbn. apply HE; [done|apply extends_refl|]. by intros [|]; destruct d.
Qed.

(** ** The table being filled *)

Context (t : nat) (lt : lua_table) (Ht : h !! t = Some lt).
Context (p : nat) (x0 : context) (Hx0 : x_next x0 = S p).

Notation plain_here := (plain (S d) h (VTable t)).
Notation es := (lt_entries lt).

Record fills (x : context) (tb : table) : Prop := {
  fl_wf : well_formed x;
  fl_ext : extends (eq p) x0 x;
  fl_tb : x_tables x !! p = Some tb;
  fl_L : t_L tb = Some L;
  fl_own : exists kss, Forall2 (owns d (x_tables x)) (children tb) kss /\ NoDup (concat kss) /\
    Forall (allocated x0 x) (concat kss) /\
    (plain_here = true -> forall q, allocated x0 x q -> q ∈ concat kss)
}.

(** The state after an error: what is attached to the table can be freed. *)
Definition fails (x : context) : Prop :=
  well_formed x /\ extends (eq p) x0 x /\ plain_here = false /\ exists d' ls, owns d' (x_tables x) p ls.

(** A value stored in the table stands for a value of Lua. *)
Definition holds (x : context) : value -> lua -> Prop :=
  value_repr (fun q t => (p < q)%nat /\ repr h L d (x_tables x) (x_strings x) q t) (x_strings x).

Lemma holds_mono x x' v l : well_formed x -> extends (eq p) x x' -> holds x v l -> holds x' v l.
Proof.
  clear Hx0. intros Hwf [E1 E2 E3]. apply value_repr_mono; [done|]. intros q t' _ [Hq Hr]. split; [done|].
  eapply repr_mono; [done| |done]. intros q' tb Hq' Htb. rewrite E2; [done| |lia]. by eapply wf_next.
Qed.

Lemma holds_not_nil x v l : holds x v l -> is_nil v = false.
Proof. by destruct v. Qed.

Lemma fills_owns x tb : fills x tb -> exists ls, owns (S d) (x_tables x) p ls /\
  Forall (fun q => p <= q < x_next x)%nat ls /\
  (plain_here = true -> forall q, (p <= q < x_next x)%nat -> q ∈ ls).
Proof.
  intros [Hwf Hex Htb HL (kss & H1 & H2 & H3 & H4)].
  assert (Forall (fun q => p < q)%nat (concat kss)) as Hlow.
  { eapply Forall_impl; [exact H3|]. intros q [Hq _]. lia. }
  exists (p :: concat kss). split_and!.
  - exists tb, kss. split_and!; [done..| |done]. constructor; [|done].
    intros Hin. rewrite Forall_forall in Hlow. specialize (Hlow _ Hin). lia.
  - constructor; [apply (wf_next _ Hwf) in Htb; lia|].
    eapply Forall_impl; [exact H3|]. intros q [Hq Hq']. lia.
  - intros Hp q Hq. destruct (decide (q = p)) as [->|Hne]; [left|]. right. apply H4; [done|].
    unfold allocated. lia.
Qed.

Lemma fills_fail x tb x' : fills x tb -> well_formed x' -> extends nothing x x' -> plain_here = false -> fails x'.
Proof.
  intros Hf Hwf Hex Hp. destruct (fills_owns _ _ Hf) as (ls & Ho & Hb & _). destruct Hf as [Hw Hex0 Htb _ _].
  split; [done|]. split; [|split; [done|]].
  - eapply extends_trans; [done|]. by eapply extends_weaken; [|done].
  - exists (S d), ls. eapply owns_ext; [|done]. intros q Hq. apply (extends_nothing _ _ _ Hex).
    rewrite Forall_forall in Hb. by apply Hb.
Qed.

Lemma fills_same x tb x' : fills x tb -> well_formed x' -> extends nothing x x' ->
  x_tables x' = x_tables x -> x_next x' = x_next x -> fills x' tb.
Proof.
  intros [Hwf Hex Htb HL (kss & H1 & H2 & H3 & H4)] Hwf' Hex' Et En. constructor; [done| |by rewrite Et|done|].
  - eapply extends_trans; [done|]. by eapply extends_weaken; [|done].
  - exists kss. unfold allocated in *. by rewrite Et, En.
Qed.

Lemma fills_put x tb tb' : fills x tb -> children tb' = children tb -> t_L tb' = Some L -> fills (put_table p tb' x) tb'.
Proof.
  intros [Hwf Hex Htb HL (kss & H1 & H2 & H3 & H4)] Hc HL'. constructor; [|  |cbn; by rewrite lookup_insert_eq|done|].
  - by eapply well_formed_put.
  - eapply extends_trans; [done|apply extends_put].
  - exists kss. split_and!; [|done..]. rewrite Hc. eapply owns_list_ext; [|done]. intros q Hq. cbn.
    apply lookup_insert_ne. rewrite Forall_forall in H3. destruct (H3 _ Hq). lia.
Qed.

(** The result of a conversion put in the place of [drop]. *)
Lemma fills_store x tb x' v val tb' rest drop : fills x tb -> stored x x' v val ->
  children tb ≡ₚ drop ++ rest -> children tb' ≡ₚ option_list (value_sub val) ++ rest -> t_L tb' = Some L ->
  (plain_here = true -> drop = [] /\ copyable v) -> fills (put_table p tb' x') tb'.
Proof.
  intros [Hwf Hex Htb HL (kss & H1 & H2 & H3 & H4)] [Swf Sex Sr Sn (ksv & S1 & S2 & S3 & S4)] Hc Hc' HL' Hp.
  pose proof (ex_next _ _ _ Sex) as Hle. pose proof (ex_next _ _ _ Hex) as Hle0.
  pose proof (wf_next _ Hwf _ _ Htb) as Hpx.
  destruct (owns_list_perm _ _ _ _ _ Hc H1) as (kss1 & K1 & K2).
  apply Forall2_app_inv_l in K1 as (kd & kr & Kd & Kr & ->).
  rewrite concat_app in K2. rewrite <- K2 in H2, H3. apply NoDup_app in H2 as (N1 & N2 & N3).
  apply Forall_app in H3 as [D1 D2].
  assert (Forall2 (owns d (<[p:=tb']> (x_tables x'))) (option_list (value_sub val) ++ rest) (ksv ++ kr)) as Ho.
  { apply Forall2_app; (eapply owns_list_ext; [|eassumption]); intros q Hq; rewrite lookup_insert_ne.
    - done.
    - rewrite Forall_forall in S3. destruct (S3 _ Hq). lia.
    - rewrite Forall_forall in D2. destruct (D2 _ Hq). by apply (extends_nothing _ _ _ Sex).
    - rewrite Forall_forall in D2. destruct (D2 _ Hq). lia. }
  symmetry in Hc'. destruct (owns_list_perm _ _ _ _ _ Hc' Ho) as (kss' & Ho' & E).
  constructor; [| |cbn; by rewrite lookup_insert_eq|done|].
  - eapply well_formed_put; [|done]. by rewrite (extends_nothing _ _ _ Sex).
  - eapply extends_trans; [done|]. eapply extends_trans; [|apply extends_put]. by eapply extends_weaken; [|done].
  - exists kss'. rewrite E, concat_app. split_and!; [done|..].
    + apply NoDup_app. split_and!; [done| |done]. intros q Hq Hq'.
      rewrite Forall_forall in S3, D2. destruct (S3 _ Hq), (D2 _ Hq'). lia.
    + apply Forall_app. split; (eapply Forall_impl; [eassumption|]); unfold allocated; cbn; intros q; lia.
    + intros Hpl q Hq. destruct (Hp Hpl) as [-> Hpv]. apply Forall2_nil_inv_l in Kd as ->. cbn in K2.
      rewrite E, concat_app, elem_of_app. destruct Hq as [Hq1 Hq2]. cbn in Hq2.
      destruct (decide (q < x_next x)%nat); [right; rewrite K2; by apply H4|left; apply S4; [done|split; [lia|done]]].
Qed.

(** ** Storing in the array *)

Lemma setarray_wp x tb v key (Q : unit -> context -> Prop) (E : context -> Prop) : fills x tb -> exists_in h v ->
  0 < key <= sizearray tb -> (plain_here = true -> copyable v) ->
  (plain_here = true -> forall old, t_array tb !! Z.to_nat (key - 1) = Some old -> value_sub old = None) ->
  (forall val x', let tb' := Table (<[Z.to_nat (key - 1) := val]> (t_array tb)) (t_hash tb) (t_L tb) in
     fills x' tb' -> extends (eq p) x x' -> (v <> VNil -> holds x' val v) -> (v = VNil -> val = NIL) -> Q tt x') ->
  (forall x', fails x' -> E x') ->
  wp (setarray conv p v key) Q E x.
Proof.
  intros Hf Hv Hkey Hp Hold HQ HE. pose proof Hf as [Hwf Hex Htb HL _].
  apply wp_bind. apply setvalue_wp; [done|done| |].
  - intros val x' Hs. pose proof (st_ext _ _ _ _ Hs) as Sex.
    pose proof (wf_next _ Hwf _ _ Htb) as Hpx. pose proof (ex_next _ _ _ Hex) as Hle.
    assert (x_tables x' !! p = Some tb) as Htb' by (by rewrite (extends_nothing _ _ _ Sex)).
    apply wp_bind, (wp_read_table _ _ _ _ _ Htb'), wp_bind.
    eapply wp_lift; [apply zset_Ok; unfold sizearray in Hkey; lia|]. eapply wp_write_table; [done|].
    destruct (lookup_lt_is_Some_2 (t_array tb) (Z.to_nat (key - 1))) as [old Hi]; [unfold sizearray, zlen in Hkey; lia|].
    destruct (omap_insert value_sub _ _ _ val Hi) as (rest & E1 & E2).
    apply (HQ val).
    + eapply (fills_store _ _ _ _ _ _ _ (option_list (value_sub old)) Hf Hs); [|  |done|].
      * unfold children. cbn. rewrite E1, <- app_assoc. done.
      * unfold children. cbn. rewrite E2, <- app_assoc. done.
      * intros Hpl. split; [|auto]. by rewrite (Hold Hpl old).
    + eapply extends_trans; [|apply extends_put]. by eapply extends_weaken; [|done].
    + intros Hn. eapply (holds_mono x'); [by destruct Hs|apply extends_put|].
      eapply value_repr_mono; [done| |by apply (st_repr _ _ _ _ Hs)].
      intros q t' _ [Hq Hr]. split; [lia|done].
    + by apply (st_nil _ _ _ _ Hs).
  - intros x' Hwf' Hex' Hn. apply HE. eapply fills_fail; [done..|].
    apply not_true_is_false. intros Hpl. by apply Hn, Hp.
Qed.

(** ** Storing a node *)

Definition slot_sub (s : option node) : option nat := n ← s; value_sub (n_v n).

Lemma fills_write_slot x tb i s n : fills x tb -> t_hash tb !! i = Some s -> slot_sub s = value_sub (n_v n) ->
  let tb' := Table (t_array tb) (<[i:=Some n]> (t_hash tb)) (t_L tb) in fills (put_table p tb' x) tb'.
Proof.
  intros Hf Hi Hs tb'. apply fills_put with tb; [done| |by destruct Hf]. unfold children. cbn.
  f_equal. by apply (omap_insert_same slot_sub _ _ s (Some n)).
Qed.

(** The value of a node whose key has been written. *)
Lemma store_node_wp x tb i n v (Q : unit -> context -> Prop) (E : context -> Prop) : fills x tb -> exists_in h v ->
  t_hash tb !! i = Some (Some n) -> n_v n = NIL -> v <> VNil -> (plain_here = true -> copyable v) ->
  (forall val x', let tb' := Table (t_array tb) (<[i := Some (set_v val n)]> (t_hash tb)) (t_L tb) in
     fills x' tb' -> extends (eq p) x x' -> holds x' val v -> Q tt x') ->
  (forall x', fails x' -> E x') ->
  wp (v ← setvalue conv v; update_node p (Z.of_nat i) (set_v v)) Q E x.
Proof.
  intros Hf Hv Hi Hnil Hvn Hp HQ HE. pose proof Hf as [Hwf Hex Htb HL _].
  apply wp_bind. apply setvalue_wp; [done|done| |].
  - intros val x' Hs. pose proof (st_ext _ _ _ _ Hs) as Sex.
    pose proof (wf_next _ Hwf _ _ Htb) as Hpx. pose proof (ex_next _ _ _ Hex) as Hle.
    assert (x_tables x' !! p = Some tb) as Htb' by (by rewrite (extends_nothing _ _ _ Sex)).
    eapply wp_update_node; [done..|].
    destruct (omap_insert slot_sub _ _ _ (Some (set_v val n)) Hi) as (rest & E1 & E2).
    apply (HQ val).
    + eapply (fills_store _ _ _ _ _ _ (children tb) [] Hf Hs); [reflexivity| |exact HL|auto].
      unfold children. cbn. change (omap _ (<[i:=_]> (t_hash tb))) with (omap slot_sub (<[i:=Some (set_v val n)]> (t_hash tb))).
      change (omap _ (t_hash tb)) with (omap slot_sub (t_hash tb)). rewrite E2, E1. cbn. rewrite Hnil. cbn.
      by rewrite Permutation_app_swap_app.
    + eapply extends_trans; [|apply extends_put]. by eapply extends_weaken; [|done].
    + eapply (holds_mono x'); [by destruct Hs|apply extends_put|].
      eapply value_repr_mono; [done| |by apply (st_repr _ _ _ _ Hs)].
      intros q t' _ [Hq Hr]. split; [lia|done].
  - intros x' Hwf' Hex' Hn. apply HE. eapply fills_fail; [done..|].
    apply not_true_is_false. intros Hpl. by apply Hn, Hp.
Qed.

(** ** The contents of the table *)

Context (size n : Z) (Hsize : 0 <= size < 2 ^ 31).

Record part (x : context) (tb : table) (done : list (lua * lua)) (js : list (option nat)) (C : nat -> list nat) : Prop := {
  pt_fills : fills x tb;
  pt_size : sizearray tb = size;
  pt_hsize : sizehash tb = n;
  pt_array : forall i v, t_array tb !! i = Some v -> array_repr (holds x) done i v;
  pt_slots : Forall2 (slot_repr (holds x) (x_strings x) size es) (t_hash tb) js;
  pt_nodup : NoDup (omap id js);
  pt_chained : chained (t_hash tb) C
}.

Lemma slots_mono x x' hash js : well_formed x -> extends (eq p) x x' ->
  Forall2 (slot_repr (holds x) (x_strings x) size es) hash js -> Forall2 (slot_repr (holds x') (x_strings x') size es) hash js.
Proof.
  intros Hwf Hex H. eapply Forall2_impl; [exact H|]. intros s o. apply slot_repr_mono; [by destruct Hex|].
  intros nd l _. by apply holds_mono.
Qed.

(** The table as it is, in a later state. *)
Lemma part_mono x x' tb done js C : extends (eq p) x x' -> fills x' tb -> part x tb done js C -> part x' tb done js C.
Proof.
  intros Hex Hf [Hf0 H1 H2 H3 H4 H5 H6]. pose proof (fl_wf _ _ Hf0). constructor; try done.
  - intros i v Hi. eapply array_repr_mono; [|by apply H3]. intros l. by apply holds_mono.
  - by eapply slots_mono.
Qed.

(** An entry of the hash part does not concern the array. *)
Lemma array_repr_skip V done k v i val : hashed size (canon k) = true -> (Z.of_nat i < size) ->
  array_repr V done i val -> array_repr V (done ++ [(k, v)]) i val.
Proof.
  intros Hk Hi [[-> H]|(k' & l & H1 & H2 & H3)].
  - left. split; [done|]. intros k' l [Hin|[= -> ->]%list_elem_of_singleton]%elem_of_app; [by eapply H|].
    intros E. rewrite E in Hk. cbn in Hk. lia.
  - right. exists k', l. split; [set_solver|done].
Qed.

Lemma part_skip x tb done js C k v : hashed size (canon k) = true ->
  part x tb done js C -> part x tb (done ++ [(k, v)]) js C.
Proof.
  intros Hk [Hf0 H1 H2 H3 H4 H5 H6]. constructor; try done. intros i val Hi.
  apply array_repr_skip; [done| |auto]. apply lookup_lt_Some in Hi. unfold sizearray, zlen in H1. lia.
Qed.

(** An array slot written. *)
Lemma part_array x tb done js C x' k v key val :
  part x tb done js C -> canon k = VInteger key -> 0 < key <= size ->
  let tb' := Table (<[Z.to_nat (key - 1) := val]> (t_array tb)) (t_hash tb) (t_L tb) in
  fills x' tb' -> extends (eq p) x x' -> holds x' val v -> part x' tb' (done ++ [(k, v)]) js C.
Proof.
  intros [Hf0 H1 H2 H3 H4 H5 H6] Hk Hkey tb' Hf Hex Hv. pose proof (fl_wf _ _ Hf0).
  constructor; cbn; try done.
  - unfold sizearray, zlen in *. cbn. by rewrite length_insert.
  - intros i w [(<- & -> & _)|(Hne & Hi)]%list_lookup_insert_Some.
    + right. exists k, v. split; [set_solver|]. split; [|done]. rewrite Hk. f_equal. lia.
    + destruct (H3 i w Hi) as [[-> Ha]|(k' & l & Hin & Hc & Hl)].
      * left. split; [done|]. intros k' l [Hin|[= -> ->]%list_elem_of_singleton]%elem_of_app; [by eapply Ha|].
        rewrite Hk. intros [= E]. lia.
      * right. exists k', l. split; [set_solver|]. split; [done|]. by eapply holds_mono.
  - by eapply slots_mono.
Qed.

Lemma mainpos_Z hash hv : hash <> [] -> hv mod zlen hash = Z.of_nat (mainpos hash hv).
Proof.
  intros Hne. unfold mainpos. rewrite Z2Nat.id; [done|]. apply Z.mod_pos_bound.
  destruct hash; [done|]. rewrite zlen_cons. pose proof (zlen_nonneg hash). lia.
Qed.

Lemma slot_repr_nil x s o : slot_repr (holds x) (x_strings x) size es s o -> slot_nil s = true -> s = None /\ o = None.
Proof.
  destruct s as [nd|], o as [j|]; try done. intros (k & l & _ & _ & _ & Hv) Hn. cbn in Hn.
  by rewrite (holds_not_nil _ _ _ Hv) in Hn.
Qed.

(** The values and the memory of plain tables. *)
Lemma entry_ok k v : (k, v) ∈ es -> v <> VNil /\ exists_in h v /\ (plain_here = true -> copyable v).
Proof.
  intros Hin. destruct (Hh _ _ _ _ Ht Hin). split_and!; [done..|]. intros Hp. right.
  destruct (plain_table _ _ _ _ Ht Hp) as (_ & _ & H'). by eapply H'.
Qed.

(** With distinct plain keys an array slot is written once. *)
Lemma array_free x tb pre k v post js C key old : es = pre ++ (k, v) :: post -> part x tb pre js C ->
  canon k = VInteger key -> 0 < key <= size -> plain_here = true ->
  t_array tb !! Z.to_nat (key - 1) = Some old -> old = NIL.
Proof.
  intros Hes Hp Hk Hkey Hpl Hold. destruct (plain_table _ _ _ _ Ht Hpl) as (_ & Hnd & Hplain).
  destruct (pt_array _ _ _ _ _ Hp _ _ Hold) as [[-> _]|(k' & l & Hin & Hc & _)]; [done|]. exfalso.
  rewrite Hes in Hnd, Hplain. assert (canon k = canon k') as E by (rewrite Hk, Hc; f_equal; lia).
  destruct (Hplain k v) as [Hk1 _]; [apply elem_of_app; right; left|].
  destruct (Hplain k' l) as [Hk2 _]; [apply elem_of_app; by left|].
  rewrite !canon_plain in E by done. subst k'.
  rewrite fmap_app, fmap_cons in Hnd. apply NoDup_app in Hnd as (_ & Hd & _). apply (Hd k); [|left].
  by apply (list_elem_of_fmap_2 fst _ (k, l)).
Qed.

(** ** The first pass *)

Definition phase1 (done : list (lua * lua)) (x : context) : Prop := exists tb js,
  part x tb done js (fun _ => []) /\ Forall (fun j => j < length done)%nat (omap id js) /\
  forall k l, (k, l) ∈ done -> hashed size (canon k) = true ->
    exists nd, t_hash tb !! mainpos (t_hash tb) (hashof (canon k)) = Some (Some nd).

Lemma phase1_array pre k v tb js x x' key val :
  part x tb pre js (fun _ => []) -> Forall (fun j => j < length pre)%nat (omap id js) ->
  (forall k l, (k, l) ∈ pre -> hashed size (canon k) = true ->
    exists nd, t_hash tb !! mainpos (t_hash tb) (hashof (canon k)) = Some (Some nd)) ->
  hashed size (canon k) = false -> canon k = VInteger key -> 0 < key <= size ->
  fills x' (Table (<[Z.to_nat (key - 1) := val]> (t_array tb)) (t_hash tb) (t_L tb)) ->
  extends (eq p) x x' -> holds x' val v -> phase1 (pre ++ [(k, v)]) x'.
Proof.
  intros Hp Hj Hm Hh' Hk Hkey Hf Hex Hv. exists (Table (<[Z.to_nat (key - 1) := val]> (t_array tb)) (t_hash tb) (t_L tb)), js.
  split; [by eapply part_array|]. split.
  - eapply Forall_impl; [exact Hj|]. intros j. cbn. rewrite length_app. lia.
  - intros k' l [Hin|[= -> ->]%list_elem_of_singleton]%elem_of_app Hhk; [|congruence]. by apply (Hm k' l).
Qed.

(** A node written in a free slot with the entry [j]. *)
Lemma slots_insert x hash js i nd k v j : Forall2 (slot_repr (holds x) (x_strings x) size es) hash js ->
  es !! j = Some (k, v) -> hashed size (canon k) = true -> slot_key (x_strings x) nd (canon k) -> holds x (n_v nd) v ->
  Forall2 (slot_repr (holds x) (x_strings x) size es) (<[i := Some nd]> hash) (<[i := Some j]> js).
Proof. intros H H1 H2 H3 H4. apply Forall2_insert; [done|]. exists k, v. done. Qed.

Lemma omap_id_insert (js : list (option nat)) i j : js !! i = Some None -> omap id (<[i := Some j]> js) ≡ₚ j :: omap id js.
Proof. intros Hi. destruct (omap_insert id js i None (Some j) Hi) as (rest & E1 & E2). rewrite E2, E1. done. Qed.

(** The slot [i] is free: so is its owner. *)
Lemma slot_free x hash js i : Forall2 (slot_repr (holds x) (x_strings x) size es) hash js ->
  hash !! i = Some None -> js !! i = Some None.
Proof. intros H Hi. destruct (Forall2_lookup_l _ _ _ _ _ H Hi) as ([j|] & Hj & Hr); done. Qed.

Lemma phase1_node pre k v post tb js x x' nd val (q := mainpos (t_hash tb) (hashof (canon k))) :
  es = pre ++ (k, v) :: post ->
  part x tb pre js (fun _ => []) -> Forall (fun j => j < length pre)%nat (omap id js) ->
  (forall k l, (k, l) ∈ pre -> hashed size (canon k) = true ->
    exists nd, t_hash tb !! mainpos (t_hash tb) (hashof (canon k)) = Some (Some nd)) ->
  hashed size (canon k) = true -> t_hash tb !! q = Some None ->
  slot_key (x_strings x) nd (canon k) -> n_next nd = -1 ->
  fills x' (Table (t_array tb) (<[q := Some (set_v val nd)]> (t_hash tb)) (t_L tb)) ->
  extends (eq p) x x' -> holds x' val v -> phase1 (pre ++ [(k, v)]) x'.
Proof.
  intros Hes Hp Hj Hm Hhk Hq Hkey Hnx Hf Hex Hv.
  pose proof (part_skip _ _ _ _ _ _ v Hhk Hp) as [Hf0 H1 H2 H3 H4 H5 H6]. pose proof (fl_wf _ _ Hf0) as Hwf.
  assert (js !! q = Some None) as Hjq by (by eapply slot_free).
  assert (q < length (t_hash tb))%nat as Hlt by (by eapply lookup_lt_Some).
  eexists _, (<[q := Some (length pre)]> js). split; [|split].
  - constructor; cbn [t_array t_hash]; [exact Hf|done| | | | |].
    + unfold sizehash, zlen in *. cbn. by rewrite length_insert.
    + intros i w Hi. eapply array_repr_mono; [|by apply H3]. intros l. by apply holds_mono.
    + eapply (slots_insert _ _ _ _ _ k v); [by eapply slots_mono| |done| |done].
      * rewrite Hes. by rewrite list_lookup_middle.
      * destruct Hkey as [Hk1 Hk2]. eapply slot_key_mono; [by destruct Hex|]. by split.
    + rewrite omap_id_insert by done. constructor; [|done]. intros Hin.
      rewrite Forall_forall in Hj. specialize (Hj _ Hin). lia.
    + assert (q = mainpos (t_hash tb) (n_keyhash (set_v val nd))) as Eq.
      { unfold q. destruct Hkey as [<- _]. done. }
      rewrite Eq. apply chained_first; [done|by rewrite <- Eq|done].
  - rewrite omap_id_insert by done. constructor; [rewrite length_app; cbn; lia|].
    eapply Forall_impl; [exact Hj|]. intros j. cbn. rewrite length_app. lia.
  - cbn. intros k' l [Hin|[= -> ->]%list_elem_of_singleton]%elem_of_app Hhk'; rewrite mainpos_insert.
    + destruct (decide (q = mainpos (t_hash tb) (hashof (canon k')))) as [<-|Hne].
      * eexists. by rewrite list_lookup_insert_eq.
      * destruct (Hm k' l Hin Hhk') as [nd' Hnd']. exists nd'. by rewrite list_lookup_insert_ne.
    + eexists. by rewrite list_lookup_insert_eq.
Qed.

Lemma hash_nonempty tb : sizehash tb = n -> 0 < n -> t_hash tb <> [].
Proof. intros E Hn Hnil. unfold sizehash in E. rewrite Hnil in E. unfold zlen in E. cbn in E. lia. Qed.

(** Keys that are floats do not pass [countsize]. *)
Context (Hn : 0 < n) (Hcount : countsize es size 0 = Ok n).

Lemma countsize_keys l c r k v : countsize l size c = Ok r -> (k, v) ∈ l -> match k with VNumber _ => False | _ => True end.
Proof.
  revert c. induction l as [|[k' v'] l IH]; intros c Hc Hin; [set_solver|]. cbn in Hc.
  apply elem_of_cons in Hin as [[= <- <-]|Hin]; [by destruct k|]. destruct k'; try done; by eapply IH.
Qed.

Lemma fillnocolliding_step_wp pre k v post x : es = pre ++ (k, v) :: post -> phase1 pre x ->
  wp (fillnocolliding_step conv p (k, v)) (fun _ => phase1 (pre ++ [(k, v)])) fails x.
Proof.
  intros Hes (tb & js & Hp & Hj & Hm). pose proof Hp as [Hf Hs Hhs _ Hsl _ _].
  assert ((k, v) ∈ es) as Hin by (rewrite Hes; set_solver).
  destruct (entry_ok k v Hin) as (Hvn & Hvx & Hvc). pose proof (hash_nonempty _ Hhs Hn) as Hne.
  apply wp_bind, (wp_read_table _ _ _ _ _ (fl_tb _ _ Hf)), wp_bind. rewrite Hs.
  apply ishashkey_wp; [by eapply countsize_keys|by destruct Hf|].
  intros c x1 Hwf1 Hex1 Et1 En1 Hc. cbn [snd fst].
  assert (fills x1 tb) as Hf1 by (by eapply fills_same).
  assert (extends (eq p) x x1) as Hex1' by (by eapply extends_weaken; [|done]).
  pose proof (part_mono _ _ _ _ _ _ Hex1' Hf1 Hp) as Hp1.
  destruct c as [key|key keyhash keytype]; cbn in Hc.
  - destruct Hc as (Hhk & Hck & Hkey). eapply setarray_wp; [done|done|by rewrite Hs|done| | |done].
    + intros Hpl old Hold. by rewrite (array_free _ _ _ _ _ _ _ _ _ _ Hes Hp1 Hck Hkey Hpl Hold).
    + intros val x2 tb2 Hf2 Hex2 Hv2 _. eapply phase1_array; eauto.
  - destruct Hc as (Hhk & Hsk). pose proof (Hsk NIL (-1) true) as [Hkh _]. cbn in Hkh. subst keyhash.
    unfold sizehash. rewrite mainpos_Z by done. set (q := mainpos _ _).
    destruct (lookup_lt_is_Some_2 (t_hash tb) q) as [s Hq].
    { apply mainpos_lt. destruct (t_hash tb); [done|cbn; lia]. }
    apply wp_bind. eapply wp_read_slot; [by destruct Hf1|done|].
    destruct (Forall2_lookup_l _ _ _ _ _ (pt_slots _ _ _ _ _ Hp1) Hq) as (o & Ho & Hr).
    destruct (slot_nil s) eqn:Hnil.
    + destruct (slot_repr_nil _ _ _ Hr Hnil) as [-> ->]. apply wp_bind.
      eapply wp_write_slot; [by destruct Hf1|by eapply lookup_lt_Some|].
      set (nd := Node _ _ _ _ _ _). pose proof (fills_write_slot _ _ _ _ nd Hf1 Hq eq_refl) as Hf2. cbv zeta in Hf2.
      eapply store_node_wp; [exact Hf2|done|cbn; apply list_lookup_insert_eq; by eapply lookup_lt_Some|done..| |done].
      intros val x3 tb3 Hf3 Hex3 Hv3. unfold tb3 in *. cbn [t_array t_hash t_L] in *. rewrite list_insert_insert_eq in Hf3.
      eapply (phase1_node _ _ _ _ _ _ x1); [done..|apply Hsk|done|exact Hf3| |done].
      eapply extends_trans; [apply extends_put|done].
    + apply wp_ret. exists tb, js. split; [by apply part_skip|]. split.
      * eapply Forall_impl; [exact Hj|]. intros j. cbn. rewrite length_app. lia.
      * intros k' l [Hin'|[= -> ->]%list_elem_of_singleton]%elem_of_app Hhk'; [by eapply Hm|].
        destruct s as [nd|]; [|done]. by exists nd.
Qed.

(** ** The second pass *)

Notation main_filled tb := (forall k l, (k, l) ∈ es -> hashed size (canon k) = true ->
  exists nd, t_hash tb !! mainpos (t_hash tb) (hashof (canon k)) = Some (Some nd) /\
             mainpos (t_hash tb) (n_keyhash nd) = mainpos (t_hash tb) (hashof (canon k))).

Definition phase2 (done : list (lua * lua)) (x : context) : Prop := exists tb js C,
  part x tb es js C /\ main_filled tb /\
  (forall i nd j, t_hash tb !! i = Some (Some nd) -> js !! i = Some (Some j) ->
     mainpos (t_hash tb) (n_keyhash nd) = i \/ (j < length done)%nat) /\
  forall k l, (k, l) ∈ done -> hashed size (canon k) = true -> present (x_strings x) (t_hash tb) (canon k).

Lemma phase1_phase2 x : phase1 es x -> phase2 [] x.
Proof.
  intros (tb & js & Hp & Hj & Hm). pose proof (pt_chained _ _ _ _ _ Hp) as HC.
  assert (forall i nd, t_hash tb !! i = Some (Some nd) -> mainpos (t_hash tb) (n_keyhash nd) = i) as Hmain.
  { intros i nd Hi. destruct (ch_main _ _ HC _ _ Hi) as [Hin _]. by apply list_elem_of_singleton in Hin. }
  exists tb, js, (fun _ => []). split; [done|]. split_and!.
  - intros k l Hin Hhk. destruct (Hm k l Hin Hhk) as [nd Hnd]. exists nd. split; [done|by apply Hmain].
  - intros i nd j Hi _. left. by apply Hmain.
  - intros k l Hin. by apply elem_of_nil in Hin.
Qed.

(** The entries of the hash part, by number. *)
Definition hash_entry (kv : lua * lua) : bool := hashed size (canon kv.1).

Lemma countsize_hashed l c r : countsize l size c = Ok r -> c + zlen (List.filter hash_entry l) <= r.
Proof.
  revert c. induction l as [|[k v] l IH]; intros c Hc; [injection Hc as <-; unfold zlen; cbn; lia|].
  cbn [List.filter]. assert (forall c', countsize l size c' = Ok r -> c' = c + 1 \/ c' = c /\ hash_entry (k, v) = false ->
    c + zlen (if hash_entry (k, v) then (k, v) :: List.filter hash_entry l else List.filter hash_entry l) <= r) as Hstep.
  { intros c' Hc' Hcase. specialize (IH _ Hc'). pose proof (zlen_nonneg (List.filter hash_entry l)).
    destruct (hash_entry (k, v)) eqn:Eh; rewrite ?zlen_cons; destruct Hcase as [->|[-> ?]]; try done; lia. }
  destruct k as [|b|z|f|s|u|]; cbn in Hc; try done; eapply Hstep; eauto.
  destruct ((0 <? z) && (z <=? size)) eqn:Ez; [|by left]. right. split; [done|].
  unfold hash_entry, hashed, canon. cbn [fst]. rewrite s32_small by lia. by rewrite Ez.
Qed.

(** Different numbers of hashed entries are no more than the slots. *)
Lemma owners_bound (l : list (lua * lua)) js : NoDup js ->
  (forall j, j ∈ js -> exists kv, l !! j = Some kv /\ hash_entry kv = true) ->
  (length js <= length (List.filter hash_entry l))%nat.
Proof.
  revert js. induction l as [|kv l IH] using rev_ind; intros js Hnd Hjs.
  { destruct js as [|j js]; [done|]. destruct (Hjs j) as (kv & Hj & _); [left|done]. }
  rewrite List.filter_app, length_app. cbn [List.filter].
  assert (length js <= length (filter (fun j => j <> length l) js) + (if hash_entry kv then 1 else 0))%nat as Hlen.
  { clear IH. induction Hnd as [|j js Hj Hnd IHj]; [cbn; lia|]. rewrite filter_cons.
    specialize (IHj ltac:(intros; apply Hjs; by right)).
    case_decide as Hd; [cbn [length]; lia|]. assert (j = length l) as -> by lia.
    destruct (Hjs (length l)) as (kv' & Hk & Hh'); [left|]. rewrite lookup_app_r, Nat.sub_diag in Hk by done.
    injection Hk as <-. rewrite Hh' in *. rewrite (filter_all _ js); [cbn; lia|].
    apply Forall_forall. intros j Hj' ->. done. }
  etrans; [exact Hlen|]. specialize (IH (filter (fun j => j <> length l) js)).
  assert (length (filter (fun j => j <> length l) js) <= length (List.filter hash_entry l))%nat.
  { apply IH; [by apply NoDup_filter|]. intros j [Hne Hj]%list_elem_of_filter. destruct (Hjs j Hj) as (kv' & Hk & Hh').
    exists kv'. split; [|done]. apply lookup_app_Some in Hk as [Hk|[Hge Hk]]; [done|].
    apply lookup_lt_Some in Hk. cbn in Hk. lia. }
  destruct (hash_entry kv); cbn; lia.
Qed.

Lemma find_empty_spec hash i e : (exists k, hash !! k = Some None) -> find_empty hash i = Some e ->
  exists k s, e = i + Z.of_nat k /\ hash !! k = Some s /\ slot_nil s = true.
Proof.
  revert i. induction hash as [|s hash IH]; intros i [k Hk] He; [done|]. cbn in He.
  destruct (slot_nil s) eqn:Es.
  - injection He as <-. exists 0%nat, s. split_and!; [lia|done|done].
  - destruct k as [|k]; [injection Hk as ->; done|].
    destruct (IH (i + 1)) as (k' & s' & -> & H1 & H2); [by exists k|done|]. exists (S k'), s'. split_and!; [lia|done|done].
Qed.

Lemma find_empty_Some hash i k : hash !! k = Some None -> exists e, find_empty hash i = Some e.
Proof.
  revert i k. induction hash as [|s hash IH]; intros i k Hk; [done|]. cbn. destruct (slot_nil s) eqn:Es; [eauto|].
  destruct k as [|k]; [injection Hk as ->; done|]. by eapply IH.
Qed.

(** While an entry of the hash part is not stored, a slot is free. *)
Lemma free_slot x tb js C j k v : part x tb es js C -> es !! j = Some (k, v) -> hashed size (canon k) = true ->
  j ∉ omap id js -> exists e, find_empty (t_hash tb) 0 = Some (Z.of_nat e) /\ t_hash tb !! e = Some None.
Proof.
  intros [Hf0 H1 H2 H3 H4 H5 H6] Hj Hhk Hnin.
  destruct (decide (None ∈ js)) as [[i Hi]%list_elem_of_lookup|Hfull].
  - destruct (Forall2_lookup_r _ _ _ _ _ H4 Hi) as (s & Hs & Hr). destruct s as [nd|]; [done|].
    destruct (find_empty_Some _ 0 _ Hs) as [e He].
    destruct (find_empty_spec _ _ _ (ex_intro _ _ Hs) He) as (e' & s' & -> & Hs' & Hnil). exists e'.
    split; [by rewrite He|]. destruct (Forall2_lookup_l _ _ _ _ _ H4 Hs') as (o & _ & Hr').
    by destruct (slot_repr_nil _ _ _ Hr' Hnil) as [-> _].
  - exfalso. assert (length (omap id js) = length js) as Hl.
    { clear - Hfull. induction js as [|[j|] js IH]; cbn; [done|rewrite IH; [done|set_solver]|set_solver]. }
    assert (length (j :: omap id js) <= length (List.filter hash_entry es))%nat as Hb.
    { apply owners_bound; [by constructor|]. intros j' [->|Hj']%elem_of_cons; [by exists (k, v)|].
      apply list_elem_of_omap in Hj' as (o & Ho & Hid). cbn in Hid. subst o.
      apply list_elem_of_lookup in Ho as [i Hi].
      destruct (Forall2_lookup_r _ _ _ _ _ H4 Hi) as (s & _ & Hr). destruct s as [nd|]; [|done].
      destruct Hr as (k' & l' & Hk' & Hh' & _). by exists (k', l'). }
    cbn in Hb. pose proof (countsize_hashed _ _ _ Hcount) as Hc. pose proof (Forall2_length _ _ _ H4) as Hlen.
    unfold sizehash, zlen in *. lia.
Qed.

(** The test on the node in the main position compares the keys. *)
Lemma same_key x nd k k' v key next keyhash keytype nc : well_formed x -> slot_key (x_strings x) nd (canon k') ->
  slot_key (x_strings x) (Node v key next keyhash keytype nc) (canon k) ->
  (n_keytype nd =? keytype) && (n_key nd =? key) = true <-> canon k' = canon k.
Proof.
  intros Hwf [_ H1] [_ H2]. rewrite andb_true_iff, !Z.eqb_eq.
  destruct (canon k') as [| |d'| |s'| |]; try done; destruct (canon k) as [| |d0| |s0| |]; try done;
    cbn in *; destruct H1 as [-> H1], H2 as [-> H2]; split.
  - intros [_ E]. congruence.
  - intros [= ->]. split; congruence.
  - intros [E _]. done.
  - done.
  - intros [E _]. done.
  - done.
  - intros [_ E]. f_equal. eapply (wf_inj _ Hwf); [exact H1|]. by rewrite E.
  - intros [= ->]. split; congruence.
Qed.

Lemma set_next_key σ next nd k : slot_key σ nd k -> slot_key σ (set_next next nd) k.
Proof. done. Qed.

Lemma set_v_key σ val nd k : slot_key σ nd k -> slot_key σ (set_v val nd) k.
Proof. done. Qed.

(** The slots after a colliding node was stored in [e]. *)
Lemma slots_collide x hash js e q nd mp k v j : Forall2 (slot_repr (holds x) (x_strings x) size es) hash js ->
  hash !! q = Some (Some mp) -> e <> q ->
  es !! j = Some (k, v) -> hashed size (canon k) = true -> slot_key (x_strings x) nd (canon k) -> holds x (n_v nd) v ->
  Forall2 (slot_repr (holds x) (x_strings x) size es)
    (<[q := Some (set_next (Z.of_nat e) mp)]> (<[e := Some nd]> hash)) (<[e := Some j]> js).
Proof.
  intros H Hq Hne H1 H2 H3 H4.
  destruct (Forall2_lookup_l _ _ _ _ _ H Hq) as ([jq|] & Hjq & Hr); [|done].
  rewrite <- (list_insert_id (<[e := Some j]> js) q (Some jq)) by (by rewrite list_lookup_insert_ne).
  apply Forall2_insert; [by eapply slots_insert|]. destruct Hr as (k' & l & ? & ? & ? & ?). by exists k', l.
Qed.

Lemma phase2_present pre k v x tb js C : part x tb es js C -> main_filled tb ->
  (forall i nd j, t_hash tb !! i = Some (Some nd) -> js !! i = Some (Some j) ->
     mainpos (t_hash tb) (n_keyhash nd) = i \/ (j < length pre)%nat) ->
  (forall k l, (k, l) ∈ pre -> hashed size (canon k) = true -> present (x_strings x) (t_hash tb) (canon k)) ->
  (hashed size (canon k) = true -> present (x_strings x) (t_hash tb) (canon k)) ->
  phase2 (pre ++ [(k, v)]) x.
Proof.
  intros Hp Hm Hj Hpr Hk. exists tb, js, C. split_and!; [done|done|..].
  - intros i nd j Hi Hji. destruct (Hj i nd j Hi Hji); [by left|right]. rewrite length_app. lia.
  - intros k' l [Hin|[= -> ->]%list_elem_of_singleton]%elem_of_app Hhk; [by eapply Hpr|auto].
Qed.

Lemma phase2_node pre k v post x x' tb js C e nd mp val (q := mainpos (t_hash tb) (hashof (canon k))) :
  es = pre ++ (k, v) :: post -> part x tb es js C -> main_filled tb ->
  (forall i nd j, t_hash tb !! i = Some (Some nd) -> js !! i = Some (Some j) ->
     mainpos (t_hash tb) (n_keyhash nd) = i \/ (j < length pre)%nat) ->
  (forall k l, (k, l) ∈ pre -> hashed size (canon k) = true -> present (x_strings x) (t_hash tb) (canon k)) ->
  hashed size (canon k) = true -> slot_key (x_strings x) nd (canon k) ->
  t_hash tb !! e = Some None -> t_hash tb !! q = Some (Some mp) -> mainpos (t_hash tb) (n_keyhash mp) = q ->
  n_next nd = n_next mp -> n_nocolliding nd = false -> length pre ∉ omap id js ->
  let hash := <[q := Some (set_next (Z.of_nat e) mp)]> (<[e := Some (set_v val nd)]> (t_hash tb)) in
  fills x' (Table (t_array tb) hash (t_L tb)) -> extends (eq p) x x' -> holds x' val v -> phase2 (pre ++ [(k, v)]) x'.
Proof.
  intros Hes [Hf0 H1 H2 H3 H4 H5 H6] Hm Hj Hpr Hhk Hsk He Hq Hmq Hnx Hnc Hnin hash Hf Hex Hv.
  pose proof (fl_wf _ _ Hf0) as Hwf. assert (e <> q) as Hne by congruence.
  pose proof (lookup_lt_Some _ _ _ He) as Hle. pose proof (lookup_lt_Some _ _ _ Hq) as Hlq.
  assert (n_keyhash nd = hashof (canon k)) as Hkh by (by destruct Hsk).
  assert (length hash = length (t_hash tb)) as Hlen by (unfold hash; by rewrite !length_insert).
  assert (forall hv, mainpos hash hv = mainpos (t_hash tb) hv) as Emp by (intros; by apply mainpos_length).
  assert (forall i nd', t_hash tb !! i = Some (Some nd') -> exists nd'', hash !! i = Some (Some nd'') /\
    n_keyhash nd'' = n_keyhash nd' /\ forall σ k', slot_key σ nd' k' -> slot_key σ nd'' k') as Hkeep.
  { intros i nd' Hi. destruct (decide (i = q)) as [->|Hiq].
    - rewrite Hq in Hi. injection Hi as <-. exists (set_next (Z.of_nat e) mp). unfold hash.
      rewrite list_lookup_insert_eq by (by rewrite length_insert). done.
    - exists nd'. unfold hash. rewrite !list_lookup_insert_ne by congruence. done. }
  eexists _, (<[e := Some (length pre)]> js), _. split_and!.
  - constructor; cbn [t_array t_hash]; [exact Hf|done| | | | |].
    + unfold sizehash, zlen in *. cbn. by rewrite Hlen.
    + intros i w Hi. eapply array_repr_mono; [|by apply H3]. intros l. by apply holds_mono.
    + apply (slots_collide _ _ _ _ _ _ _ k v); [by eapply slots_mono|done..| |done| |done].
      * rewrite Hes. by rewrite list_lookup_middle.
      * eapply slot_key_mono; [by destruct Hex|done].
    + rewrite omap_id_insert by (by eapply slot_free). by constructor.
    + apply (chained_collide (t_hash tb) C (set_v val nd) mp e q); try done. cbn. by rewrite Hkh.
  - cbn. intros k' l Hin Hhk'. rewrite Emp. destruct (Hm k' l Hin Hhk') as (nd' & Hnd' & Hmn).
    destruct (Hkeep _ _ Hnd') as (nd'' & Hn'' & Ekh & _). exists nd''. rewrite Emp, Ekh. done.
  - cbn. intros i ndi ji Hi Hji. rewrite Emp, length_app. destruct (decide (i = e)) as [->|Hie].
    + rewrite list_lookup_insert_eq in Hji by (by rewrite <- (Forall2_length _ _ _ H4)). injection Hji as <-. right. cbn. lia.
    + rewrite list_lookup_insert_ne in Hji by done. unfold hash in Hi. destruct (decide (i = q)) as [->|Hiq].
      * rewrite list_lookup_insert_eq in Hi by (by rewrite length_insert). injection Hi as <-. left. done.
      * rewrite !list_lookup_insert_ne in Hi by done. destruct (Hj i ndi ji Hi Hji); [by left|right; cbn; lia].
  - cbn. intros k' l [Hin|[= -> ->]%list_elem_of_singleton]%elem_of_app Hhk'.
    + destruct (Hpr k' l Hin Hhk') as (i & ndi & Hi & Hk'). destruct (Hkeep _ _ Hi) as (nd'' & Hn'' & _ & Hks).
      exists i, nd''. split; [done|]. apply Hks. eapply slot_key_mono; [by destruct Hex|done].
    + exists e, (set_v val nd). split.
      * unfold hash. rewrite list_lookup_insert_ne by done. by rewrite list_lookup_insert_eq.
      * apply set_v_key. eapply slot_key_mono; [by destruct Hex|done].
Qed.

Lemma fillcolliding_step_wp pre k v post x : es = pre ++ (k, v) :: post -> phase2 pre x ->
  wp (fillcolliding_step conv p (k, v)) (fun _ => phase2 (pre ++ [(k, v)])) fails x.
Proof.
  intros Hes (tb & js & C & Hp & Hm & Hj & Hpr). pose proof Hp as [Hf Hs Hhs _ _ _ _].
  assert ((k, v) ∈ es) as Hin by (rewrite Hes; set_solver).
  destruct (entry_ok k v Hin) as (Hvn & Hvx & Hvc). pose proof (hash_nonempty _ Hhs Hn) as Hne.
  apply wp_bind, (wp_read_table _ _ _ _ _ (fl_tb _ _ Hf)), wp_bind. rewrite Hs.
  apply ishashkey_wp; [by eapply countsize_keys|by destruct Hf|].
  intros c x1 Hwf1 Hex1 Et1 En1 Hc. cbn [snd fst].
  assert (fills x1 tb) as Hf1 by (by eapply fills_same).
  assert (extends (eq p) x x1) as Hex1' by (by eapply extends_weaken; [|done]).
  pose proof (part_mono _ _ _ _ _ _ Hex1' Hf1 Hp) as Hp1.
  assert (forall k l, (k, l) ∈ pre -> hashed size (canon k) = true -> present (x_strings x1) (t_hash tb) (canon k)) as Hpr1.
  { intros k' l' Hin' Hhk'. eapply present_mono; [by destruct Hex1|]. by eapply Hpr. }
  destruct c as [key|key keyhash keytype]; cbn in Hc.
  { destruct Hc as (Hhk & _). apply wp_ret. eapply phase2_present; eauto. congruence. }
  destruct Hc as (Hhk & Hsk). pose proof (Hsk NIL (-1) true) as [Hkh _]. cbn in Hkh. subst keyhash.
  destruct (Hm k v Hin Hhk) as (mp & Hmp & Hmm).
  destruct (Forall2_lookup_l _ _ _ _ _ (pt_slots _ _ _ _ _ Hp1) Hmp) as ([jm|] & Hjm & Hrm); [|done].
  destruct Hrm as (km & lm & Hem & Hhm & Hkm & _).
  unfold sizehash. rewrite mainpos_Z by done. set (q := mainpos _ _) in *.
  apply wp_bind. eapply wp_read_node; [by destruct Hf1|done|].
  destruct ((n_keytype mp =? keytype) && (n_key mp =? key)) eqn:Etest.
  - apply wp_ret. eapply phase2_present; eauto. intros _. exists q, mp. split; [done|].
    apply (same_key x1 mp k km NIL key (-1) (hashof (canon k)) keytype true) in Etest as <-; done.
  - assert (length pre ∉ omap id js) as Hnin.
    { intros (o & Ho & Hid)%list_elem_of_omap. cbn in Hid. subst o. apply list_elem_of_lookup in Ho as [i Hi].
      destruct (Forall2_lookup_r _ _ _ _ _ (pt_slots _ _ _ _ _ Hp1) Hi) as ([nd|] & Hnd & Hrn); [|done].
      destruct Hrn as (k' & l' & Hk' & _ & Hs' & _).
      rewrite Hes, list_lookup_middle in Hk' by done. injection Hk' as <- <-.
      destruct (Hj i nd _ Hnd Hi) as [E|E]; [|lia]. destruct Hs' as [Hkh' Hs']. rewrite Hkh' in E. fold q in E. subst i.
      assert (nd = mp) as -> by congruence.
      destruct (same_key x1 mp k k NIL key (-1) (hashof (canon k)) keytype true Hwf1) as [_ Ek]; [by split|done|].
      rewrite Ek in Etest; done. }
    destruct (free_slot _ _ _ _ (length pre) k v Hp1) as (e & He & Hfree); [by rewrite Hes, list_lookup_middle|done|done|].
    apply wp_bind. eapply wp_lift; [by rewrite He|].
    set (nd := Node NIL key (n_next mp) (hashof (canon k)) keytype false).
    assert (e <> q) as Heq by congruence.
    apply wp_bind. eapply wp_write_slot; [by destruct Hf1|by eapply lookup_lt_Some|].
    pose proof (fills_write_slot _ _ _ _ nd Hf1 Hfree eq_refl) as Hf2. cbv zeta in Hf2.
    apply wp_bind. eapply wp_update_node; [by destruct Hf2|cbn; by rewrite list_lookup_insert_ne|].
    epose proof (fills_write_slot _ _ q (Some mp) (set_next (Z.of_nat e) mp) Hf2) as Hf3. cbn [t_hash t_array t_L] in *.
    specialize (Hf3 ltac:(by rewrite list_lookup_insert_ne) eq_refl). cbv zeta in Hf3.
    eapply (store_node_wp _ _ e nd); [exact Hf3|done| |done..| |done].
    { cbn. rewrite list_lookup_insert_ne by done. apply list_lookup_insert_eq. by eapply lookup_lt_Some. }
    intros val x3 tb3 Hf4 Hex4 Hv4. unfold tb3 in *. cbn [t_array t_hash t_L] in *.
    rewrite (list_insert_insert_ne _ e q), list_insert_insert_eq in Hf4 by done.
    eapply (phase2_node _ _ _ _ x1 _ _ _ _ e nd mp val); try done; [apply Hsk|].
    eapply extends_trans; [apply extends_put|]. eapply extends_trans; [apply extends_put|done].
Qed.
End fill.
