(* ===== verification/SharedataTable.v ===== *)
(** * The conversion of whole tables

    [convtable] on any Lua table: it copies it faithfully, or fails with an error
    of Lua and leaves tables that can be freed. *)
From S2P Require Import Prelude Sharedata SharedataHash SharedataConv SharedataFill.

(** ** [countsize] *)

Lemma countsize_mono l size c r : countsize l size c = Ok r -> c <= r.
Proof.
  revert c. induction l as [|[k v] l IH]; intros c Hc; [injection Hc as <-; lia|].
  destruct k; cbn in Hc; try done; apply IH in Hc; repeat case_match; lia.
Qed.

(** Nothing to count: all keys belong to the array. *)
Lemma countsize_zero l size c k v : countsize l size c = Ok c -> (k, v) ∈ l -> exists d, k = VInteger d /\ 0 < d <= size.
Proof.
  intros Hc. revert Hc. induction l as [|[k' v'] l IH]; intros Hc Hin; [set_solver|].
  apply elem_of_cons in Hin as [[= <- <-]|Hin].
  - destruct k; cbn in Hc; try done; try (apply countsize_mono in Hc; lia).
    destruct (_ && _) eqn:E; [|apply countsize_mono in Hc; lia]. exists d. split; [done|lia].
  - apply IH; [|done]. destruct k'; cbn in Hc; try done; try (apply countsize_mono in Hc; lia).
    destruct (_ && _); [done|apply countsize_mono in Hc; lia].
Qed.

Lemma countsize_plain l size c : (forall k v, (k, v) ∈ l -> plain_key k = true) -> exists r, countsize l size c = Ok r.
Proof.
  revert c. induction l as [|[k v] l IH]; intros c Hk; [eauto|].
  assert (plain_key k = true) as Hp by (eapply Hk; left).
  destruct k; try done; cbn; apply IH; intros k' v' Hin; eapply Hk; by right.
Qed.

Lemma countsize_no_fault l size c : countsize l size c <> Fault.
Proof. revert c. induction l as [|[k v] l IH]; intros c; [done|]. destruct k; cbn; auto. Qed.

(** ** [rawget] *)

Lemma rawget_in es k v : rawget es k = v -> v <> VNil -> (k, v) ∈ es.
Proof.
  induction es as [|[k' v'] es IH]; cbn; intros Hv Hn; [congruence|].
  case_decide; [subst; left|right; auto].
Qed.

Lemma heap_rawget_none es k v : (forall k v, (k, v) ∈ es -> v <> VNil) -> rawget es k = VNil -> (k, v) ∉ es.
Proof.
  intros Hn. induction es as [|[k' v'] es IH]; intros Hr Hin; [set_solver|]. cbn in Hr.
  case_decide as Hd; [subst; eapply (Hn k); [left|done]|].
  apply elem_of_cons in Hin as [[= -> ->]|Hin]; [done|]. apply IH; [|done..]. intros k1 v1 H. eapply Hn. by right.
Qed.

(** ** One table *)

Section table.
Context (h : lua_heap) (Hh : lua_state h) (L d : nat).
Context (conv : nat -> nat -> conv unit) (Hconv : conv_spec h L d conv).
Context (t : nat) (lt : lua_table) (Ht : h !! t = Some lt).
Context (p : nat) (x0 : context) (Hx0 : x_next x0 = S p).

Notation fills := (fills h L d t p x0).
Notation fails := (fails h d t p x0).
Notation holds := (holds h L d p).
Notation es := (lt_entries lt).
Notation size := (s32 (lt_len lt)).

Lemma fills_start tb0 tb : well_formed x0 -> x_tables x0 !! p = Some tb0 -> children tb = [] -> t_L tb = Some L ->
  fills (put_table p tb x0) tb.
Proof.
  intros Hwf Hp Hc HL. constructor; [by eapply well_formed_put|apply extends_put|cbn; by rewrite lookup_insert_eq|done|].
  exists []. rewrite Hc. split_and!; [constructor..|]. intros _ q [H1 H2]. cbn in H2. lia.
Qed.

(** The table is complete. *)
Definition complete (x : context) : Prop := exists tb, fills x tb /\ table_repr (holds x) (x_strings x) tb lt.

Lemma phase2_complete n x : countsize es size 0 = Ok n ->
  phase2 h L d t lt p x0 size n es x -> complete x.
Proof.
  intros Hc (tb & js & C & [Hf H1 H2 H3 H4 H5 H6] & _ & _ & Hpr). exists tb. split; [done|].
  constructor; rewrite ?H1; [done|done|by rewrite H2|by exists js, C|done].
Qed.

(** The loop when there is no hash part. *)
Definition array_done (done : list Z) (x : context) : Prop := exists tb, fills x tb /\ sizearray tb = size /\ t_hash tb = [] /\
  forall i v, t_array tb !! i = Some v ->
    (Z.of_nat i + 1 ∈ done -> array_repr (holds x) es i v) /\ (Z.of_nat i + 1 ∉ done -> v = NIL).

Lemma array_only k l i : countsize es size 0 = Ok 0 -> (k, l) ∈ es -> canon k = VInteger i -> k = VInteger i.
Proof.
  intros Hc Hin Hk. destruct (countsize_zero _ _ _ _ _ Hc Hin) as (z & -> & Hz). cbn in Hk.
  pose proof (swrap_range 32 (lt_len lt) ltac:(lia)). rewrite s32_small in Hk by (unfold s32 in *; lia). congruence.
Qed.

Lemma array_step_wp pre i post x : countsize es size 0 = Ok 0 -> seqZ 1 size = pre ++ i :: post -> array_done pre x ->
  wp (setarray conv p (rawget es (VInteger i)) i) (fun _ => array_done (pre ++ [i])) fails x.
Proof.
  intros Hc Hseq (tb & Hf & Hs & Hnil & Ha).
  assert (1 <= i <= size) as Hi.
  { assert (i ∈ seqZ 1 size) as H by (rewrite Hseq; set_solver). apply elem_of_seqZ in H. lia. }
  assert (i ∉ pre) as Hni.
  { intros Hin. pose proof (NoDup_seqZ 1 size) as Hnd. rewrite Hseq in Hnd. apply NoDup_app in Hnd as (_ & Hd & _).
    apply (Hd i); [done|left]. }
  set (v := rawget es (VInteger i)).
  assert (v <> VNil -> (VInteger i, v) ∈ es) as Hin by (by apply rawget_in).
  eapply setarray_wp; [done|done|exact Hf| |rewrite Hs; lia| | | |done].
  - destruct (decide (v = VNil)) as [->|Hne]; [done|]. by destruct (Hh _ _ _ _ Ht (Hin Hne)).
  - intros Hpl. destruct (decide (v = VNil)) as [->|Hne]; [by left|].
    by destruct (entry_ok h Hh d t lt Ht _ _ (Hin Hne)) as (_ & _ & ?); auto.
  - intros _ old Hold. destruct (Ha _ _ Hold) as [_ Hn]. rewrite Hn; [done|].
    replace (Z.of_nat (Z.to_nat (i - 1)) + 1) with i by lia. done.
  - intros val x' tb' Hf' Hex Hv Hvn. exists tb'. split; [done|]. split; [|split; [done|]].
    { unfold sizearray, zlen in *. cbn. by rewrite length_insert. }
    intros j w [(<- & -> & _)|(Hne & Hj)]%list_lookup_insert_Some; split.
    + intros _. destruct (decide (v = VNil)) as [E|Hvne].
      * left. split; [auto|]. intros k l Hkl Hk. apply (array_only _ _ _ Hc Hkl) in Hk as ->.
        eapply (heap_rawget_none es (VInteger i)); [|exact E|]; [intros k' v' Hkv; by destruct (Hh _ _ _ _ Ht Hkv)|].
        replace i with (Z.of_nat (Z.to_nat (i - 1)) + 1) by lia. done.
      * right. exists (VInteger i), v. split; [auto|]. split; [|auto]. cbn.
        pose proof (swrap_range 32 (lt_len lt) ltac:(lia)). rewrite s32_small by (unfold s32 in *; lia). f_equal. lia.
    + intros Hnin. exfalso. apply Hnin. apply elem_of_app. right. apply list_elem_of_singleton. lia.
    + intros Hjin. eapply array_repr_mono; [|apply Ha; [done|]].
      * intros l. apply holds_mono; [by destruct Hf|done].
      * apply elem_of_app in Hjin as [?|Hjin%list_elem_of_singleton]; [done|lia].
    + intros Hnin. apply (Ha j); [done|]. intros ?. apply Hnin. apply elem_of_app. by left.
Qed.

Lemma array_complete x : countsize es size 0 = Ok 0 -> array_done (seqZ 1 size) x -> complete x.
Proof.
  intros Hc (tb & Hf & Hs & Hnil & Ha). exists tb. split; [done|]. constructor; rewrite ?Hs, ?Hnil.
  - done.
  - intros i v Hi. apply Ha; [done|]. apply elem_of_seqZ. apply lookup_lt_Some in Hi. unfold sizearray, zlen in Hs. lia.
  - by unfold sizehash; rewrite Hnil.
  - exists [], (fun _ => []). split; [|split; constructor].
    constructor; intros *; rewrite ?lookup_nil; try done. by intros ?%elem_of_nil.
  - intros k l Hin. destruct (countsize_zero _ _ _ _ _ Hc Hin) as (z & -> & Hz). cbn.
    pose proof (swrap_range 32 (lt_len lt) ltac:(lia)). rewrite s32_small by (unfold s32 in *; lia).
    intros E. lia.
Qed.

Definition plain_here : bool := plain (S d) h (VTable t).

Lemma children_blank n m : children (Table (replicate n NIL) (replicate m None) (Some L)) = [].
Proof.
  unfold children. cbn. assert (forall {A B} (f : A -> option B) a k, f a = None -> omap f (replicate k a) = []) as H.
  { intros A B f a k Hf. induction k as [|k IH]; [done|]. cbn. by rewrite Hf. }
  by rewrite !H.
Qed.

Lemma part_start n x : 0 <= size -> countsize es size 0 = Ok n -> 0 < n ->
  fills x (Table (replicate (Z.to_nat size) NIL) (replicate (Z.to_nat n) None) (Some L)) ->
  phase1 h L d t lt p x0 size n [] x.
Proof.
  intros Hs Hc Hn Hf. eexists _, (replicate (Z.to_nat n) None). split; [|split].
  - constructor; cbn; [exact Hf| | | | | |].
    + unfold sizearray, zlen. cbn. rewrite length_replicate. lia.
    + unfold sizehash, zlen. cbn. rewrite length_replicate. lia.
    + intros i v [-> _]%lookup_replicate. left. split; [done|]. intros k l Hin. by apply elem_of_nil in Hin.
    + by apply Forall2_replicate.
    + generalize (Z.to_nat n). intros m. induction m; cbn; [constructor|done].
    + constructor.
      * by intros i nd [? _]%lookup_replicate.
      * by intros i nd [? _]%lookup_replicate.
      * by intros q j ?%elem_of_nil.
      * by intros i nd [? _]%lookup_replicate.
  - generalize (Z.to_nat n). intros m. induction m; cbn; [constructor|done].
  - intros k l Hin. by apply elem_of_nil in Hin.
Qed.

Lemma convbody_wp : well_formed x0 -> x_tables x0 !! p = Some blank ->
  wp (convbody conv L lt p) (fun _ => complete) fails x0.
Proof.
  intros Hwf Hp. pose proof (swrap_range 32 (lt_len lt) ltac:(lia)) as Hrange. change (swrap 32) with s32 in Hrange.
  assert (plain_here = true -> 0 <= size /\ forall k v, (k, v) ∈ es -> plain_key k = true) as Hplain.
  { intros Hpl. destruct (plain_table _ _ _ _ Ht Hpl) as (Hl & _ & Hk). split; [rewrite s32_small; lia|].
    intros k v Hin. by apply (Hk k v). }
  unfold convbody. apply wp_bind, (wp_read_table _ _ _ _ _ Hp), wp_bind. cbn [t_array t_hash blank].
  eapply wp_write_table; [done|].
  pose proof (fills_start _ (Table [] [] (Some L)) Hwf Hp eq_refl eq_refl) as Hf0.
  set (x1 := put_table p _ x0) in *. apply wp_bind.
  destruct (Z.ltb_spec size 0) as [Hneg|Hpos].
  { unfold wp. cbn. eapply fills_fail; [exact Hx0|exact Hf0|by destruct Hf0|apply extends_refl|].
    apply not_true_is_false. intros Hpl. destruct (Hplain Hpl). lia. }
  apply wp_bind. eapply wp_read_table; [by destruct Hf0|]. eapply wp_write_table; [by destruct Hf0|].
  cbn [t_array t_hash t_L].
  epose proof (fills_put _ _ _ _ _ _ Hx0 _ _ (Table (replicate (Z.to_nat size) NIL) [] (Some L)) Hf0) as Hf1.
  specialize (Hf1 (children_blank _ 0) eq_refl). set (x2 := put_table p _ x1) in *.
  apply wp_bind. pose proof (countsize_no_fault es size 0) as Hnf.
  destruct (countsize es size 0) as [n|e|] eqn:Hc; [|  |done].
  - eapply wp_lift; [done|]. pose proof (countsize_mono _ _ _ _ Hc). destruct (Z.eqb_spec n 0) as [->|Hn].
    + eapply wp_mono; [apply (wp_for_each _ array_done)|intros [] x'; by apply array_complete|done].
      * intros pre a post x Hseq. by apply (array_step_wp _ _ post).
      * exists (Table (replicate (Z.to_nat size) NIL) [] (Some L)). split; [done|]. split; [|split; [done|]].
        { unfold sizearray, zlen. cbn. rewrite length_replicate. lia. }
        intros i v [-> _]%lookup_replicate. split; [by intros ?%elem_of_nil|done].
    + apply wp_bind. eapply wp_read_table; [by destruct Hf1|]. apply wp_bind.
      eapply wp_write_table; [by destruct Hf1|]. cbn [t_array t_L].
      epose proof (fills_put _ _ _ _ _ _ Hx0 _ _ (Table (replicate (Z.to_nat size) NIL) (replicate (Z.to_nat n) None) (Some L)) Hf1) as Hf2.
      specialize (Hf2 ltac:(etrans; [apply (children_blank _ _)|symmetry; apply (children_blank _ 0)]) eq_refl). set (x3 := put_table p _ x2) in *.
      apply wp_bind. unfold fillnocolliding, fillcolliding.
      eapply wp_mono; [apply (wp_for_each _ (phase1 h L d t lt p x0 size n))| |done].
      * intros pre [k v] post x. apply fillnocolliding_step_wp; try done; lia.
      * apply part_start; [done|done|lia|done].
      * intros [] x4 H1. apply phase1_phase2 in H1.
        eapply wp_mono; [apply (wp_for_each _ (phase2 h L d t lt p x0 size n)); [|exact H1]|intros [] x5; by apply phase2_complete|done].
        intros pre [k v] post x. apply fillcolliding_step_wp; try done; lia.
  - unfold wp. cbn. eapply fills_fail; [exact Hx0|exact Hf1|by destruct Hf1|apply extends_refl|].
    apply not_true_is_false. intros Hpl. destruct (Hplain Hpl) as [_ Hk].
    destruct (countsize_plain es size 0 Hk) as [r Hr]. congruence.
Qed.
End table.

(** ** All tables *)

Theorem convtable_spec h L d : lua_state h -> conv_spec h L d (convtable d h L).
Proof.
  intros Hh. induction d as [|d IH]; intros t p x Hwf Hp [lt Ht] Hx; cbn [convtable].
  - unfold wp. cbn. split; [done|]. split; [apply extends_refl|]. split; [done|].
    exists 1%nat, [p], blank, []. split_and!; [done|constructor|done|apply NoDup_singleton|constructor].
  - apply wp_bind. eapply wp_lift; [by rewrite Ht|].
    eapply wp_mono; [by apply (convbody_wp h Hh L d _ IH t lt Ht p x Hx)|..].
    + intros [] x' (tb & Hf & Hr). destruct (fills_owns _ _ _ _ _ _ Hx _ _ Hf) as (ls & Ho & Hb & Hall).
      split; [by destruct Hf|]. split; [by destruct Hf|]. split.
      * exists tb, lt. split_and!; [by destruct Hf|done|by destruct Hf|exact Hr].
      * exists ls. split; [done|]. split; [|by split]. destruct Ho as (? & ? & _ & _ & _ & ? & _). done.
    + intros x' (Hwf' & Hex & Hpl & Ho). by split_and!.
Qed.
