(* ===== verification/SharedataRead.v ===== *)
(** * Reading shared tables

    Where [lindexconf] finds the value of a key of a copied table, and the order
    in which [lnextkey] enumerates its keys. *)
From S2P Require Import Prelude Sharedata SharedataHash SharedataConv SharedataFill SharedataTable.

(** ** The strings of a configuration *)

Lemma replace_strings_length kvs st : length (replace_strings kvs st) = length st.
Proof. revert st. induction kvs as [|[s i] kvs IH]; intros st; cbn; [done|]. by rewrite IH, length_insert. Qed.

Lemma replace_strings_other kvs st j : (forall s i, (s, i) ∈ kvs -> Z.to_nat (i - 1) <> j) -> replace_strings kvs st !! j = st !! j.
Proof.
  revert st. induction kvs as [|[s i] kvs IH]; intros st H; cbn; [done|].
  rewrite IH by (intros s' i' Hin; apply (H s' i'); by right). apply list_lookup_insert_ne. eapply H. left.
Qed.

Lemma replace_strings_lookup kvs st s i : (forall s i, (s, i) ∈ kvs -> 2 <= i <= zlen st) -> NoDup kvs.*2 -> (s, i) ∈ kvs ->
  replace_strings kvs st !! Z.to_nat (i - 1) = Some (Some s).
Proof.
  revert st. induction kvs as [|[s' i'] kvs IH]; intros st Hb Hnd Hin; [set_solver|]. cbn in Hnd |- *.
  apply NoDup_cons in Hnd as [Hn Hnd]. pose proof (Hb s' i' ltac:(left)) as Hi'.
  apply elem_of_cons in Hin as [[= <- <-]|Hin].
  - rewrite replace_strings_other; [rewrite list_lookup_insert_eq; [done|unfold zlen in Hi'; lia]|].
    intros s2 i2 Hin2 E. apply Hn. pose proof (Hb s2 i2 ltac:(by right)). replace i with i2 by lia.
    by apply (list_elem_of_fmap_2 snd _ (s2, i2)).
  - apply IH; [|done|done]. intros s2 i2 H2. unfold zlen. rewrite length_insert. apply (Hb s2 i2). by right.
Qed.

Lemma stringmap_strings x tbl s i : well_formed x -> x_strings x !! s = Some i ->
  s_strings (convert_stringmap x tbl) !! Z.to_nat (i - 1) = Some (Some s).
Proof.
  intros [_ Hb Hinj Hlow] Hs. cbn. apply replace_strings_lookup; [| |by apply elem_of_map_to_list].
  - intros s' i' Hin%elem_of_map_to_list. unfold zlen. rewrite length_replicate. apply Hb in Hin. lia.
  - apply NoDup_fmap_2_strong; [|apply NoDup_map_to_list].
    intros [s1 i1] [s2 i2] H1%elem_of_map_to_list H2%elem_of_map_to_list E. cbn in E. subst.
    by rewrite (Hinj _ _ _ H1 H2).
Qed.

(** The keys [lnextkey] enumerates after [k]. *)
Fixpoint keys_from (fuel : nat) (m : memory) (a : arg) (k : lua) : result (list lua) :=
  match fuel with
  | O => Fault
  | S fuel =>
    next ← lnextkey m a k;
    match next with
    | Some k' => ks ← keys_from fuel m a k'; Ok (k' :: ks)
    | None => Ok []
    end
  end.

(** ** The contents of a plain table *)

Section plain_table.
Context (m : memory) (σ : gmap (list Z) Z) (L : nat) (tb : table) (lt : lua_table) (V : value -> lua -> Prop).
Context (Hstr : forall s i, σ !! s = Some i -> tolstring m (Some L) i = Ok s) (HL : t_L tb = Some L).
Context (Hrep : table_repr V σ tb lt).
Notation es := (lt_entries lt).
Context (Hlen : 0 <= lt_len lt < 2 ^ 31) (Hnd : NoDup es.*1).
Context (Hplain : forall k v, (k, v) ∈ es -> plain_key k = true).

Lemma size_is : sizearray tb = lt_len lt.
Proof. rewrite (tr_size _ _ _ _ Hrep). apply s32_small. lia. Qed.

Lemma canon_entry k v : (k, v) ∈ es -> canon k = k.
Proof. intros H. by eapply canon_plain, Hplain. Qed.

Lemma rawget_entry k v : (k, v) ∈ es -> rawget es k = v.
Proof.
  clear Hplain Hrep. revert Hnd. generalize es as l. intros l. induction l as [|[k' v'] l IH]; intros Hn Hin; [set_solver|].
  cbn in Hn |- *. apply NoDup_cons in Hn as [Hk Hn]. apply elem_of_cons in Hin as [[= <- <-]|Hin]; [by rewrite decide_True|].
  rewrite decide_False; [auto|]. intros ->. apply Hk. by apply (list_elem_of_fmap_2 fst _ (k, v)).
Qed.

Lemma rawget_absent k : k ∉ es.*1 -> rawget es k = VNil.
Proof.
  clear. induction es as [|[k' v'] l IH]; intros Hk; [done|]. cbn in *.
  rewrite decide_False by set_solver. apply IH. set_solver.
Qed.

(** An entry is stored under its own key only. *)
Lemma entry_inj i j kv kv' : es !! i = Some kv -> es !! j = Some kv' -> kv.1 = kv'.1 -> i = j.
Proof.
  intros Hi Hj E. eapply (NoDup_lookup es.*1); [done|rewrite list_lookup_fmap, Hi; done|].
  by rewrite list_lookup_fmap, Hj, E.
Qed.

Lemma slot_key_inj n k k' : slot_key σ n k -> slot_key σ n k' -> k = k'.
Proof.
  intros [_ H1] [_ H2]. destruct k, k'; try done; destruct H1 as [E1 H1], H2 as [E2 H2].
  - congruence.
  - by rewrite E1 in E2.
  - by rewrite E1 in E2.
  - apply Hstr in H1. apply Hstr in H2. congruence.
Qed.

Lemma countsize_exact l size c : 0 <= size < 2 ^ 31 -> (forall k v, (k, v) ∈ l -> plain_key k = true) ->
  countsize l size c = Ok (c + zlen (List.filter (fun kv => hashed size kv.1) l)).
Proof.
  intros Hs. revert c. induction l as [|[k v] l IH]; intros c Hk; [cbn; unfold zlen; cbn; f_equal; lia|].
  assert (plain_key k = true) as Hp by (eapply Hk; left).
  assert (forall k v, (k, v) ∈ l -> plain_key k = true) as Hk' by (intros; eapply Hk; by right).
  destruct k as [| |z| |s| |]; try done; cbn; rewrite IH by done.
  - destruct (_ && _); cbn; rewrite ?zlen_cons; f_equal; lia.
  - rewrite zlen_cons. f_equal. lia.
Qed.

(** The key of the entry that owns a slot. *)
Definition owner_key (o : option nat) : option lua := j ← o; fst <$> es !! j.

Notation slots js := (Forall2 (slot_repr V σ (lt_len lt) es) (t_hash tb) js).

Lemma owner_keys_in js k : slots js -> k ∈ omap owner_key js <-> k ∈ es.*1 /\ hashed (lt_len lt) k = true.
Proof.
  intros Hsl. rewrite list_elem_of_omap. split.
  - intros (o & Ho & Hk). destruct o as [j|]; [|done]. cbn in Hk. apply fmap_Some in Hk as ([k' v] & Hj & ->).
    apply list_elem_of_lookup in Ho as [i Hi]. destruct (Forall2_lookup_r _ _ _ _ _ Hsl Hi) as ([n|] & _ & Hr); [|done].
    destruct Hr as (k1 & l1 & Hj1 & Hh1 & _). rewrite Hj in Hj1. injection Hj1 as <- <-.
    apply list_elem_of_lookup_2 in Hj. rewrite (canon_entry _ _ Hj) in Hh1. split; [|done].
    by apply (list_elem_of_fmap_2 fst _ (k', v)).
  - intros [([k' v] & -> & Hin)%list_elem_of_fmap Hh]. cbn in *. pose proof (canon_entry _ _ Hin) as Ec.
    destruct (tr_present _ _ _ _ Hrep k' v Hin) as (i & n & Hi & Hk); [by rewrite size_is, Ec|]. rewrite Ec in Hk.
    destruct (Forall2_lookup_l _ _ _ _ _ Hsl Hi) as ([j|] & Hj & Hr); [|done].
    destruct Hr as (k1 & l1 & Hj1 & Hh1 & Hk1 & _). exists (Some j). split; [by eapply list_elem_of_lookup_2|].
    cbn. rewrite Hj1. cbn. f_equal. rewrite <- (canon_entry k1 l1) by (by eapply list_elem_of_lookup_2).
    by eapply slot_key_inj.
Qed.

Lemma owner_keys_NoDup js : NoDup (omap id js) -> NoDup (omap owner_key js).
Proof.
  induction js as [|[j|] js IH]; cbn; intros Hjs; [constructor| |auto].
  apply NoDup_cons in Hjs as [Hj Hjs]. destruct (es !! j) as [kv|] eqn:Ej; cbn; [|auto]. constructor; [|auto].
  intros (o & Ho & Hk)%list_elem_of_omap. destruct o as [j'|]; [|done]. cbn in Hk.
  apply fmap_Some in Hk as (kv' & Hj' & E). apply Hj. rewrite (entry_inj _ _ _ _ Ej Hj' E).
  apply list_elem_of_omap. by exists (Some j').
Qed.

Notation hashed_entries := (List.filter (fun kv => hashed (lt_len lt) kv.1) es).

Lemma hashed_keys_NoDup : NoDup hashed_entries.*1.
Proof.
  revert Hnd. generalize es as l. clear. induction l as [|kv l IH]; cbn; intros Hnd; [constructor|].
  apply NoDup_cons in Hnd as [Hk Hnd]. destruct (hashed _ _); cbn; [|auto]. constructor; [|auto].
  intros (kv' & E & Hin)%list_elem_of_fmap. apply Hk.
  rewrite E. apply list_elem_of_fmap_2. apply list_elem_of_In in Hin. apply List.filter_In in Hin as [Hin _].
  by apply list_elem_of_In.
Qed.

(** There are as many slots as keys: every slot is used. *)
Lemma owner_keys_length js : slots js -> NoDup (omap id js) -> length (omap owner_key js) = length js.
Proof.
  intros Hsl Hjs. pose proof (tr_count _ _ _ _ Hrep) as Hcount. rewrite size_is, countsize_exact in Hcount by done.
  injection Hcount as Hc. rewrite <- (Forall2_length _ _ _ Hsl). apply Nat2Z.inj.
  change (Z.of_nat (length (t_hash tb))) with (sizehash tb).
  rewrite <- Hc, Z.add_0_l. unfold zlen. f_equal. rewrite <- (length_fmap fst hashed_entries). apply Permutation_length.
  apply NoDup_Permutation; [by apply owner_keys_NoDup|apply hashed_keys_NoDup|].
  intros k. rewrite owner_keys_in, !list_elem_of_fmap by done. split.
  - intros [(kv & -> & Hin) Hh]. exists kv. split; [done|]. apply list_elem_of_In, List.filter_In.
    by rewrite <- list_elem_of_In.
  - intros (kv & -> & Hin). apply list_elem_of_In, List.filter_In in Hin as [Hin Hh].
    split; [|done]. exists kv. by rewrite list_elem_of_In.
Qed.

(** The keys of the hash part, slot by slot. *)
Lemma hash_keys : exists ks C, chained (t_hash tb) C /\ NoDup ks /\
  Forall2 (fun s k => exists n, s = Some n /\ slot_key σ n k /\ V (n_v n) (rawget es k)) (t_hash tb) ks /\
  forall k, k ∈ ks <-> k ∈ es.*1 /\ hashed (lt_len lt) k = true.
Proof.
  destruct (tr_hash _ _ _ _ Hrep) as (js & C & HC & Hjs & Hsl). rewrite size_is in Hsl.
  exists (omap owner_key js), C. split_and!; [done|by apply owner_keys_NoDup| |intros; by apply owner_keys_in].
  pose proof (owner_keys_length js Hsl Hjs) as Hl. clear HC Hjs. revert Hl Hsl. generalize (t_hash tb) as hash.
  induction js as [|o js IH]; intros hash Hl Hsl; [apply Forall2_nil_inv_r in Hsl as ->; constructor|].
  apply Forall2_cons_inv_r in Hsl as (s & hash' & Hs & Hsl & ->).
  assert (length (omap owner_key js) <= length js)%nat as Hle.
  { clear. induction js as [|o js IH]; cbn; [lia|]. destruct (owner_key o); cbn; lia. }
  cbn [omap list_omap] in *. destruct (owner_key o) as [k|] eqn:Ek; cbn in Hl; [|lia].
  constructor; [|by apply IH; [lia|]]. destruct o as [j|]; [|done]. destruct s as [n|]; [|done].
  destruct Hs as (k1 & l1 & Hj1 & _ & Hk1 & Hv). cbn in Ek. rewrite Hj1 in Ek. injection Ek as <-.
  apply list_elem_of_lookup_2 in Hj1. rewrite (canon_entry _ _ Hj1) in Hk1. exists n.
  by rewrite (rawget_entry _ _ Hj1).
Qed.

Context (p : nat) (Hp : m_tables m !! p = Some tb).

(** The value a reader gets for the value at [v]. *)
Definition reads (v : value) (pv : pushed) : Prop := pushvalue m (Some L) v = Ok pv.

(** [lookup_key] on the keys of the table. *)
Lemma lookup_entry ks C k : chained (t_hash tb) C -> NoDup ks ->
  Forall2 (fun s k => exists n, s = Some n /\ slot_key σ n k /\ V (n_v n) (rawget es k)) (t_hash tb) ks ->
  plain_key k = true ->
  (forall j, ks !! j = Some k -> lookup_key m tb (hashof k) (query_key k) (query_type k) (query_str k) = Ok (Some (Z.of_nat j))) /\
  (k ∉ ks -> lookup_key m tb (hashof k) (query_key k) (query_type k) (query_str k) = Ok None).
Proof.
  intros HC Hn Hf Hk. rewrite <- HL in Hstr.
  assert (Forall2 (fun s k => exists n, s = Some n /\ slot_key σ n k) (t_hash tb) ks) as Hf'.
  { eapply Forall2_impl; [exact Hf|]. naive_solver. }
  split; [intros j Hj; by eapply lookup_key_found|intros Hni; by eapply lookup_key_none].
Qed.

(** Where [lindexconf] finds the value of a key. *)
Lemma index_table k : plain_key k = true ->
  (exists v, V v (rawget es k) /\ lindexconf m (ALight (Some p)) k = pv ← pushvalue m (t_L tb) v; Ok (Some pv)) \/
  (rawget es k = VNil /\ (lindexconf m (ALight (Some p)) k = Ok None \/ lindexconf m (ALight (Some p)) k = Ok (Some PNil))).
Proof.
  intros Hk. destruct hash_keys as (ks & C & HC & Hn & Hf & Hiff).
  destruct (lookup_entry _ _ k HC Hn Hf Hk) as [Hfound Hnone].
  assert (hashed (lt_len lt) k = true -> lindexconf m (ALight (Some p)) k =
    i ← lookup_key m tb (hashof k) (query_key k) (query_type k) (query_str k);
    match i with
    | Some i => s ← zget (t_hash tb) i; n ← deref s; v ← pushvalue m (t_L tb) (n_v n); Ok (Some v)
    | None => Ok None
    end) as Hix.
  { intros Hh. unfold lindexconf. cbn [get_table]. rstep. rewrite Hp. cbn [deref]. rstep.
    destruct k as [| |d| |s| |]; try done.
    - apply andb_true_iff in Hk as [Hk1 Hk2]. cbn [hashed] in Hh. rewrite s32_small by lia.
      rewrite size_is. apply negb_true_iff in Hh. by rewrite Hh.
    - cbn [checklstring]. rstep. destruct (calchash_ok s) as [-> _]. done. }
  destruct (hashed (lt_len lt) k) eqn:Hh.
  - specialize (Hix eq_refl). destruct (decide (k ∈ ks)) as [[j Hj]%list_elem_of_lookup|Hni].
    + rewrite (Hfound j Hj) in Hix. destruct (Forall2_lookup_r _ _ _ _ _ Hf Hj) as (s & Hs & n & -> & _ & Hv).
      left. exists (n_v n). split; [done|]. rewrite Hix. rstep.
      rewrite (zget_Some _ _ (Some n)) by (rewrite ?Nat2Z.id; lia || done). done.
    + rewrite (Hnone Hni) in Hix. right. split; [|by left]. apply rawget_absent. intros Hin. apply Hni. by apply Hiff.
  - destruct k as [| |d| |s| |]; try done. cbn in Hh. apply negb_false_iff in Hh.
    apply andb_true_iff in Hk as [Hk1 Hk2]. assert (0 < d <= lt_len lt) as Hd by lia.
    assert (exists v, t_array tb !! Z.to_nat (d - 1) = Some v) as [v Hv].
    { apply lookup_lt_is_Some. pose proof size_is as E. unfold sizearray, zlen in E. lia. }
    assert (lindexconf m (ALight (Some p)) (VInteger d) = pv ← pushvalue m (t_L tb) v; Ok (Some pv)) as Hgo.
    { unfold lindexconf. cbn [get_table]. rstep. rewrite Hp. cbn [deref]. rstep. rewrite s32_small by lia.
      rewrite size_is, Hh. by rewrite (zget_Some _ _ v) by (lia || done). }
    destruct (tr_array _ _ _ _ Hrep _ _ Hv) as [[-> Ha]|(k & l & Hin & Hc & Hl)].
    + right. split; [|by right]. apply rawget_absent. intros ([k v] & E & Hin)%list_elem_of_fmap. cbn in E. subst k.
      apply (Ha _ _ Hin). rewrite (canon_entry _ _ Hin). f_equal. lia.
    + left. exists v. split; [|done]. rewrite (canon_entry _ _ Hin) in Hc. subst k.
      replace (Z.of_nat (Z.to_nat (d - 1)) + 1) with d in Hin by lia. by rewrite (rawget_entry _ _ Hin).
Qed.

(** ** The order of [lnextkey] *)

(** The keys of the array slots that are not nil. *)
Fixpoint array_keys (array : list value) (i : Z) : list lua :=
  match array with
  | [] => []
  | v :: array => if is_nil v then array_keys array (i + 1) else VInteger (i + 1) :: array_keys array (i + 1)
  end.

Lemma first_nonnil_keys array i : match first_nonnil array i with
  | Some j => i <= j < i + zlen array /\ array_keys array i = VInteger (j + 1) :: array_keys (drop (Z.to_nat (j + 1 - i)) array) (j + 1)
  | None => array_keys array i = []
  end.
Proof.
  revert i. induction array as [|v array IH]; intros i; [done|]. cbn. destruct (is_nil v).
  - specialize (IH (i + 1)). destruct (first_nonnil array (i + 1)) as [j|]; [|done]. destruct IH as [Hj ->].
    rewrite zlen_cons. split; [lia|]. f_equal. replace (Z.to_nat (j + 1 - i)) with (S (Z.to_nat (j + 1 - (i + 1)))) by lia. done.
  - rewrite zlen_cons. pose proof (zlen_nonneg array). split; [lia|]. replace (Z.to_nat (i + 1 - i)) with 1%nat by lia. done.
Qed.

Lemma array_keys_elem array i k : k ∈ array_keys array i <->
  exists j v, array !! j = Some v /\ is_nil v = false /\ k = VInteger (i + Z.of_nat j + 1).
Proof.
  revert i. induction array as [|v array IH]; intros i; cbn.
  - split; [intros ?%elem_of_nil; done|]. intros (j & v & Hj & _). done.
  - destruct (is_nil v) eqn:Ev; rewrite ?elem_of_cons, IH; split.
    + intros (j & w & H1 & H2 & ->). exists (S j), w. split_and!; [done|done|f_equal; lia].
    + intros ([|j] & w & H1 & H2 & ->); [injection H1 as ->; congruence|]. exists j, w. split_and!; [done|done|f_equal; lia].
    + intros [->|(j & w & H1 & H2 & ->)]; [exists 0%nat, v; split_and!; [done|done|f_equal; lia]|].
      exists (S j), w. split_and!; [done|done|f_equal; lia].
    + intros ([|j] & w & H1 & H2 & ->); [left; f_equal; lia|]. right. exists j, w. split_and!; [done|done|f_equal; lia].
Qed.

Lemma array_keys_NoDup array i : NoDup (array_keys array i).
Proof.
  revert i. induction array as [|v array IH]; intros i; cbn; [constructor|]. destruct (is_nil v); [done|]. constructor; [|done].
  intros (j & w & _ & _ & [= E])%array_keys_elem. lia.
Qed.

Lemma pushkey_slot n k : slot_key σ n k -> pushkey m (t_L tb) (Some n) = Ok k.
Proof.
  intros [_ Hk]. unfold pushkey. cbn [deref]. rstep. rewrite HL.
  destruct k as [| |d| |s| |]; try done; destruct Hk as [-> Hk].
  - by subst.
  - change (KEYTYPE_STRING =? KEYTYPE_INTEGER) with false. by rewrite (Hstr _ _ Hk).
Qed.

(** [lnextkey] after all slots of the array below [i]. *)
Definition after_array (i : Z) : result (option lua) :=
  match first_nonnil (drop (Z.to_nat i) (t_array tb)) i with
  | Some i => Ok (Some (VInteger (i + 1)))
  | None => pushfirsthash m tb
  end.

Lemma pushfirsthash_head ks : Forall2 (fun s k => exists n, s = Some n /\ slot_key σ n k /\ V (n_v n) (rawget es k)) (t_hash tb) ks ->
  pushfirsthash m tb = Ok (head ks).
Proof.
  intros H. unfold pushfirsthash, sizehash. destruct H as [|s k hash ks (n & -> & Hk & _) H]; [done|].
  rewrite zlen_cons. pose proof (zlen_nonneg hash). destruct (Z.eqb_spec (1 + zlen hash) 0); [lia|].
  rewrite (zget_Some _ _ (Some n)) by done. rstep. by rewrite (pushkey_slot _ _ Hk).
Qed.

Lemma after_array_head i ks : Forall2 (fun s k => exists n, s = Some n /\ slot_key σ n k /\ V (n_v n) (rawget es k)) (t_hash tb) ks ->
  after_array i = Ok (head (array_keys (drop (Z.to_nat i) (t_array tb)) i ++ ks)).
Proof.
  intros H. unfold after_array. pose proof (first_nonnil_keys (drop (Z.to_nat i) (t_array tb)) i) as Hk.
  destruct (first_nonnil _ _) as [j|]; [by destruct Hk as [_ ->]|]. rewrite Hk. by apply pushfirsthash_head.
Qed.

(** The successor of a key of the array, of a key of the hash part. *)
Lemma nextkey_start : lnextkey m (ALight (Some p)) VNil = after_array 0.
Proof. unfold lnextkey. cbn [get_table]. rstep. by rewrite Hp. Qed.

Lemma nextkey_array d : 0 < d <= lt_len lt -> lnextkey m (ALight (Some p)) (VInteger d) = after_array d.
Proof.
  intros Hd. unfold lnextkey. cbn [get_table]. rstep. rewrite Hp. cbn [deref]. rstep. rewrite s32_small, size_is by lia.
  destruct (Z.ltb_spec 0 d), (Z.leb_spec d (lt_len lt)); try lia. done.
Qed.

Lemma nextkey_hash ks C j k : chained (t_hash tb) C -> NoDup ks ->
  Forall2 (fun s k => exists n, s = Some n /\ slot_key σ n k /\ V (n_v n) (rawget es k)) (t_hash tb) ks ->
  plain_key k = true -> hashed (lt_len lt) k = true -> ks !! j = Some k ->
  lnextkey m (ALight (Some p)) k = Ok (ks !! S j).
Proof.
  intros HC Hn Hf Hk Hh Hj. destruct (lookup_entry _ _ k HC Hn Hf Hk) as [Hfound _].
  assert (lnextkey m (ALight (Some p)) k =
    i ← lookup_key m tb (hashof k) (query_key k) (query_type k) (query_str k);
    match i with
    | Some i => if i + 1 =? sizehash tb then Ok None
                else s ← zget (t_hash tb) (i + 1); k ← pushkey m (t_L tb) s; Ok (Some k)
    | None => Ok None
    end) as ->.
  { unfold lnextkey. cbn [get_table]. rstep. rewrite Hp. cbn [deref]. rstep.
    destruct k as [| |d| |s| |]; try done.
    - apply andb_true_iff in Hk as [Hk1 Hk2]. cbn [hashed] in Hh. rewrite s32_small by lia.
      rewrite size_is. apply negb_true_iff in Hh. by rewrite Hh.
    - cbn [checklstring]. rstep. destruct (calchash_ok s) as [-> _]. done. }
  rewrite (Hfound j Hj). rstep. pose proof (Forall2_length _ _ _ Hf) as Hl. unfold sizehash, zlen. rewrite Hl.
  destruct (Z.eqb_spec (Z.of_nat j + 1) (Z.of_nat (length ks))) as [E|E].
  - rewrite (lookup_ge_None_2 ks (S j)); [done|lia].
  - apply lookup_lt_Some in Hj. destruct (lookup_lt_is_Some_2 ks (S j)) as [k' Hk']; [lia|].
    destruct (Forall2_lookup_r _ _ _ _ _ Hf Hk') as (s & Hs & n & -> & Hkn & _).
    rewrite (zget_Some _ _ (Some n)) by (lia || (replace (Z.to_nat (Z.of_nat j + 1)) with (S j) by lia; done)).
    rstep. by rewrite (pushkey_slot _ _ Hkn), Hk'.
Qed.

(** ** Enumeration *)

Context (HV : forall v l, V v l -> is_nil v = false).

Section enumeration.
Context (ks : list lua) (C : nat -> list nat) (HC : chained (t_hash tb) C) (Hn : NoDup ks).
Context (Hf : Forall2 (fun s k => exists n, s = Some n /\ slot_key σ n k /\ V (n_v n) (rawget es k)) (t_hash tb) ks).
Context (Hiff : forall k, k ∈ ks <-> k ∈ es.*1 /\ hashed (lt_len lt) k = true).

Lemma keys_from_hash fuel j k : ks !! j = Some k -> (length ks <= j + fuel)%nat ->
  keys_from fuel m (ALight (Some p)) k = Ok (drop (S j) ks).
Proof.
  revert j k. induction fuel as [|fuel IH]; intros j k Hj Hl; [apply lookup_lt_Some in Hj; lia|].
  destruct (proj1 (Hiff k)) as [([k' v] & E & Hin)%list_elem_of_fmap Hh]; [by eapply list_elem_of_lookup_2|]. cbn in E. subst k'.
  cbn [keys_from]. rewrite (nextkey_hash _ _ _ _ HC Hn Hf (Hplain _ _ Hin) Hh Hj). rstep.
  destruct (ks !! S j) as [k'|] eqn:Hj'.
  - rewrite (IH _ _ Hj') by lia. rstep. by rewrite (drop_S _ _ _ Hj').
  - apply lookup_ge_None_1 in Hj'. by rewrite drop_ge.
Qed.

Lemma keys_from_array fuel k i : 0 <= i <= lt_len lt -> lnextkey m (ALight (Some p)) k = after_array i ->
  (length (array_keys (drop (Z.to_nat i) (t_array tb)) i ++ ks) < fuel)%nat ->
  keys_from fuel m (ALight (Some p)) k = Ok (array_keys (drop (Z.to_nat i) (t_array tb)) i ++ ks).
Proof.
  revert k i. induction fuel as [|fuel IH]; intros k i Hi Hk Hl; [lia|].
  cbn [keys_from]. rewrite Hk. unfold after_array. pose proof (first_nonnil_keys (drop (Z.to_nat i) (t_array tb)) i) as Hfn.
  pose proof size_is as Hsz. unfold sizearray, zlen in Hsz. unfold zlen in Hfn. rewrite length_drop in Hfn.
  destruct (first_nonnil _ _) as [j|].
  - destruct Hfn as [Hj E]. rewrite E in *. rewrite drop_drop in *. rstep.
    replace (Z.to_nat i + Z.to_nat (j + 1 - i))%nat with (Z.to_nat (j + 1)) in * by lia.
    rewrite (IH _ (j + 1)); [done|lia|apply nextkey_array; lia|]. cbn in Hl. lia.
  - rewrite Hfn in *. rewrite (pushfirsthash_head _ Hf). rstep.
    destruct (head ks) as [k0|] eqn:Ehd; [|by apply head_None in Ehd as ->].
    rewrite head_lookup in Ehd. rewrite (keys_from_hash fuel 0 k0 Ehd) by (cbn in Hl; lia).
    rstep. f_equal. exact (eq_sym (drop_S _ _ _ Ehd)).
Qed.

Lemma keys_complete : array_keys (t_array tb) 0 ++ ks ≡ₚ es.*1.
Proof.
  pose proof size_is as Hsz. unfold sizearray, zlen in Hsz.
  assert (forall k, k ∈ array_keys (t_array tb) 0 <-> k ∈ es.*1 /\ hashed (lt_len lt) k = false) as Ha.
  { intros k. rewrite array_keys_elem. split.
    - intros (j & v & Hj & Hv & ->). destruct (tr_array _ _ _ _ Hrep _ _ Hj) as [[-> _]|(k & l & Hin & Hc & _)]; [done|].
      rewrite (canon_entry _ _ Hin) in Hc. subst k. apply lookup_lt_Some in Hj. split; [by apply (list_elem_of_fmap_2 fst _ (_, l))|].
      cbn. destruct (Z.ltb_spec 0 (Z.of_nat j + 1)), (Z.leb_spec (Z.of_nat j + 1) (lt_len lt)); try done; lia.
    - intros [([k' v] & -> & Hin)%list_elem_of_fmap Hh]. cbn [fst] in *. pose proof (canon_entry _ _ Hin) as Ec.
      pose proof (Hplain _ _ Hin) as Hp'. destruct k' as [| |d| | | |]; try done. cbn in Hh. apply negb_false_iff in Hh.
      destruct (lookup_lt_is_Some_2 (t_array tb) (Z.to_nat (d - 1))) as [w Hw]; [lia|]. exists (Z.to_nat (d - 1)), w.
      split; [done|]. split; [|f_equal; lia].
      destruct (tr_array _ _ _ _ Hrep _ _ Hw) as [[-> Hno]|(k & l & _ & _ & Hl)]; [|by eapply HV].
      exfalso. apply (Hno _ _ Hin). rewrite Ec. f_equal. lia. }
  apply NoDup_Permutation; [|done|].
  - apply NoDup_app. split_and!; [apply array_keys_NoDup| |done]. intros k H1 H2.
    apply Ha in H1 as [_ H1]. apply Hiff in H2 as [_ H2]. congruence.
  - intros k. rewrite elem_of_app, Ha, Hiff. destruct (hashed (lt_len lt) k); naive_solver.
Qed.
End enumeration.

Lemma keys_table fuel : (length es < fuel)%nat ->
  exists ks, keys_from fuel m (ALight (Some p)) VNil = Ok ks /\ ks ≡ₚ es.*1.
Proof.
  intros Hfuel. destruct hash_keys as (ks & C & HC & Hn & Hf & Hiff).
  pose proof (keys_complete ks Hn Hiff) as Hperm.
  exists (array_keys (t_array tb) 0 ++ ks). split; [|done].
  rewrite (keys_from_array ks C HC Hn Hf Hiff fuel VNil 0); [done|lia|apply nextkey_start|].
  change (drop (Z.to_nat 0) (t_array tb)) with (t_array tb). rewrite Hperm, length_fmap. done.
Qed.
End plain_table.
