(* ===== verification/SharedataProps.v ===== *)
(** * Shared tables: what the library promises

    A configuration made by [lnewconf] answers [lindexconf] and [lnextkey] as the
    Lua table it was made from would, and [ldeleteconf] gives its memory back. *)
From S2P Require Import Prelude Sharedata SharedataHash SharedataConv SharedataFill SharedataTable SharedataRead.

(** A memory whose addresses are below the next free one. *)
Record memory_ok (m : memory) : Prop := {
  mo_tables : forall q t, m_tables m !! q = Some t -> (q < m_next m)%nat;
  mo_states : forall q s, m_states m !! q = Some s -> (q < m_next m)%nat
}.

(** ** A new configuration *)

Section new.
Context (checkstack : Z -> bool) (depth : nat) (h : lua_heap) (Hh : lua_state h) (m : memory) (Hm : memory_ok m).
Context (t : nat) (Ht : is_Some (h !! t)).

Notation L := (m_next m).
Notation tbl := (S (m_next m)).

(** The state in which the conversion begins. *)
Definition start : context := Ctx (<[tbl := blank]> (m_tables m)) (S tbl) ∅ 1.

Lemma start_wf : well_formed start.
Proof.
  constructor; cbn; [|by intros s i; rewrite lookup_empty|by intros s s' i; rewrite lookup_empty|lia].
  intros q tq [[<- _]|[_ Hq]]%lookup_insert_Some; [lia|]. apply (mo_tables _ Hm) in Hq. lia.
Qed.

(** What is known of the memory when the conversion is over. *)
Record converted (x : context) (ls : list nat) : Prop := {
  cv_wf : well_formed x;
  cv_ext : extends (eq tbl) start x;
  cv_repr : repr h L depth (x_tables x) (x_strings x) tbl t;
  cv_owns : owns depth (x_tables x) tbl ls;
  cv_range : Forall (fun q => tbl <= q < x_next x)%nat ls;
  cv_all : plain depth h (VTable t) = true -> forall q, (tbl <= q < x_next x)%nat -> q ∈ ls
}.

Definition made (x : context) : memory :=
  Mem (x_tables x) (<[L := convert_stringmap x tbl]> (m_states m)) (m_ctrls m) (x_next x).

(** The tables that existed before are as they were. *)
Definition undisturbed (ts : gmap nat table) : Prop := forall q, (q < m_next m)%nat -> ts !! q = m_tables m !! q.

Lemma extends_undisturbed x : extends (eq tbl) start x -> undisturbed (x_tables x).
Proof.
  intros Hex q Hq. rewrite (ex_tables _ _ _ Hex) by (cbn; lia). cbn. apply lookup_insert_ne. lia.
Qed.

(** What can be freed in [delete_tbl] from the root. *)
Lemma delete_root d x ls : well_formed x -> extends (eq tbl) start x -> owns d (x_tables x) tbl ls ->
  Forall (fun q => tbl <= q)%nat ls -> exists ts, delete_tbl (x_next x) tbl (x_tables x) = Ok ts /\
    undisturbed ts /\ forall q, ts !! q = if decide (q ∈ ls) then None else x_tables x !! q.
Proof.
  intros Hwf Hex Ho Hlow. destruct (delete_tbl_owned _ _ _ _ (x_next x) Ho) as (ts & E & Hts).
  - apply Forall_forall. intros q Hq. destruct (owns_alloc _ _ _ _ _ Ho Hq) as [tq Htq].
    apply (wf_next _ Hwf) in Htq. lia.
  - exists ts. split; [done|]. split; [|done]. intros q Hq. rewrite Hts, decide_False; [by apply extends_undisturbed|].
    intros Hin. rewrite Forall_forall in Hlow. specialize (Hlow _ Hin). lia.
Qed.

Lemma owns_low d ts p ls : owns d ts p ls -> Forall (fun q => p <= q)%nat ls.
Proof.
  destruct d as [|d]; [done|]. intros (tb & kss & _ & _ & E & _ & Hlow). rewrite E. constructor; [lia|].
  eapply Forall_impl; [exact Hlow|]. intros q. cbn. lia.
Qed.

Lemma lnewconf_cases :
  (exists x ls, converted x ls /\ lnewconf checkstack depth h (VTable t) m = (Ok tbl, made x)) \/
  (exists e ts next, lnewconf checkstack depth h (VTable t) m = (LuaError e, Mem ts (m_states m) (m_ctrls m) next) /\
     undisturbed ts /\ (exists x, pconv checkstack depth h L t tbl start = (LuaError e, x) /\ freed_from (x_tables x) tbl ts) /\ ~ (plain depth h (VTable t) = true /\ forall n, checkstack n = true)).
Proof.
  pose proof (convtable_spec h L depth Hh t tbl start start_wf) as Hc.
  specialize (Hc ltac:(cbn; by rewrite lookup_insert_eq) Ht eq_refl). unfold wp in Hc.
  assert (pconv checkstack depth h L t tbl start = match convtable depth h L t tbl start with
    | (Ok _, x) => if checkstack (x_index x + 3) then (Ok tt, x) else (LuaError "stack overflow", x)
    | (LuaError e, x) => (LuaError e, x)
    | (Fault, x) => (Fault, x)
    end) as Ep by done.
  unfold lnewconf. fold start. rewrite Ep. clear Ep.
  destruct (convtable depth h L t tbl start) as [[u|e|] x]; [| |done].
  - destruct Hc as (Hwf & Hex & Hr & ls & Ho & Hnd & Hb & Hall).
    destruct (checkstack (x_index x + 3)) eqn:Ek.
    + left. exists x, ls. split; [by constructor|done].
    + right. destruct (delete_root _ _ _ Hwf Hex Ho (owns_low _ _ _ _ Ho)) as (ts & -> & Hts & Hf).
      eexists _, ts, _. split; [done|]. split; [done|]. split; [eexists; split; [done|by eapply owns_freed]|]. intros [_ Hst]. by rewrite Hst in Ek.
  - destruct Hc as (Hwf & Hex & Hpl & d' & ls & Ho). right.
    destruct (delete_root _ _ _ Hwf Hex Ho (owns_low _ _ _ _ Ho)) as (ts & -> & Hts & Hf).
    eexists _, ts, _. split; [done|]. split; [done|]. split; [eexists; split; [done|by eapply owns_freed]|]. intros [Hp _]. congruence.
Qed.

(** Deletion of the new configuration. *)
Lemma delete_made x ls : converted x ls -> exists ts,
  ldeleteconf (made x) (ALight (Some tbl)) = Ok (Mem ts (m_states m) (m_ctrls m) (x_next x)) /\ undisturbed ts /\
  freed_from (x_tables x) tbl ts /\ (plain depth h (VTable t) = true -> ts = m_tables m).
Proof.
  intros [Hwf Hex Hr Ho Hb Hall].
  destruct (delete_root _ _ _ Hwf Hex Ho (owns_low _ _ _ _ Ho)) as (ts & E & Hu & Hts). exists ts.
  destruct depth as [|d]; [done|]. destruct Hr as (tb & lt & Htb & _ & HL & _).
  split; [|split; [done|split; [by eapply owns_freed|]]].
  - unfold ldeleteconf. cbn [get_table made m_tables m_states m_ctrls m_next]. rstep. rewrite Htb. cbn [deref]. rstep.
    rewrite HL. cbn [deref]. rstep. rewrite lookup_insert_eq. cbn [deref]. rstep. rewrite E. rstep.
    rewrite delete_insert_eq, delete_id; [done|]. apply eq_None_not_Some. intros [s Hs]. apply (mo_states _ Hm) in Hs. lia.
  - intros Hpl. apply map_eq. intros q. destruct (decide (q < m_next m)%nat) as [Hq|Hq]; [by apply Hu|].
    assert (m_tables m !! q = None) as ->.
    { apply eq_None_not_Some. intros [s Hs]. apply (mo_tables _ Hm) in Hs. lia. }
    rewrite Hts. case_decide as Hin; [done|]. destruct (decide (q = L)) as [->|Hne].
    + rewrite (ex_tables _ _ _ Hex) by (cbn; lia). cbn. rewrite lookup_insert_ne by lia.
      apply eq_None_not_Some. intros [s Hs]. apply (mo_tables _ Hm) in Hs. lia.
    + apply eq_None_not_Some. intros [s Hs]. apply (wf_next _ Hwf) in Hs. apply Hin, Hall; [done|lia].
Qed.

(** The strings of the new configuration. *)
Lemma made_strings x ls s i : converted x ls -> x_strings x !! s = Some i -> tolstring (made x) (Some L) i = Ok s.
Proof.
  intros Hc Hs. unfold tolstring, made. cbn [deref m_states]. rstep. rewrite lookup_insert_eq. cbn [deref]. rstep.
  by rewrite (stringmap_strings x tbl s i) by (by destruct Hc).
Qed.
End new.

(** ** Reading along a path *)

(** The value at the end of a path of keys from a shared table, and from a Lua
    table; indexing something else is an error of Lua. *)
Fixpoint conf_path (m : memory) (ks : list lua) (v : pushed) : result pushed :=
  match ks with
  | [] => Ok v
  | k :: ks =>
    match v with
    | PTable p => r ← lindexconf m (ALight (Some p)) k; conf_path m ks (default PNil r)
    | _ => LuaError "attempt to index"
    end
  end.

Fixpoint lua_path (h : lua_heap) (ks : list lua) (v : lua) : result lua :=
  match ks with
  | [] => Ok v
  | k :: ks =>
    match v with
    | VTable t => lt ← deref (h !! t); lua_path h ks (rawget (lt_entries lt) k)
    | _ => LuaError "attempt to index"
    end
  end.

(** The same nil, boolean, number or string, or both a table. *)
Definition same_value (v : pushed) (l : lua) : bool :=
  match v, l with
  | PNil, VNil => true
  | PBoolean b, VBoolean b' => Bool.eqb b b'
  | PInteger d, VInteger d' => d =? d'
  | PNumber n, VNumber n' => n =? n'
  | PString s, VString s' => bool_decide (s = s')
  | PTable _, VTable _ => true
  | _, _ => false
  end.

Section path.
Context (h : lua_heap) (m : memory) (σ : gmap (list Z) Z) (L : nat).
Context (Hstr : forall s i, σ !! s = Some i -> tolstring m (Some L) i = Ok s).

(** A value of a reader that stands for a plain value. *)
Definition agrees (v : pushed) (l : lua) : Prop :=
  match v, l with
  | PTable p, VTable t => exists d, repr h L d (m_tables m) σ p t /\ plain d h (VTable t) = true
  | _, _ => same_value v l = true
  end.

Lemma agrees_same v l : agrees v l -> same_value v l = true.
Proof. by destruct v, l. Qed.

(** The parts of a plain table that is represented. *)
Lemma repr_plain d p t : repr h L d (m_tables m) σ p t -> plain d h (VTable t) = true ->
  exists tb lt d', d = S d' /\ m_tables m !! p = Some tb /\ h !! t = Some lt /\ t_L tb = Some L /\
    table_repr (value_repr (fun q t => (p < q)%nat /\ repr h L d' (m_tables m) σ q t) σ) σ tb lt /\
    0 <= lt_len lt < 2 ^ 31 /\ NoDup (lt_entries lt).*1 /\
    (forall k v, (k, v) ∈ lt_entries lt -> plain_key k = true /\ plain d' h v = true).
Proof.
  destruct d as [|d]; [done|]. intros (tb & lt & H1 & H2 & H3 & H4) Hp.
  destruct (plain_table _ _ _ _ H2 Hp) as (P1 & P2 & P3). by exists tb, lt, d.
Qed.

Lemma push_agrees d p v l : value_repr (fun q t => (p < q)%nat /\ repr h L d (m_tables m) σ q t) σ v l -> plain d h l = true ->
  exists pv, pushvalue m (Some L) v = Ok pv /\ agrees pv l.
Proof.
  intros Hv Hp. destruct v as [|n|i|b|q|z], l as [|b'|z'|n'|s|t|]; try done; cbn in Hv.
  - exists (PNumber n). split; [done|]. cbn. lia.
  - exists (PString s). unfold pushvalue. rewrite (Hstr _ _ Hv). split; [done|]. cbn. by apply bool_decide_eq_true.
  - exists (PBoolean b). split; [done|]. subst. by destruct b'.
  - exists (PTable q). split; [done|]. exists d. by destruct Hv.
  - exists (PInteger z). split; [done|]. cbn. lia.
Qed.

(** One step of a path. *)
Lemma index_agrees p t k : agrees (PTable p) (VTable t) -> plain_key k = true ->
  exists lt r, h !! t = Some lt /\ lindexconf m (ALight (Some p)) k = Ok r /\ agrees (default PNil r) (rawget (lt_entries lt) k).
Proof.
  intros (d & Hr & Hp) Hk. destruct (repr_plain _ _ _ Hr Hp) as (tb & lt & d' & -> & Htb & Ht & HL & Hrep & Hlen & Hnd & Hpl).
  exists lt. destruct (index_table m σ L tb lt _ Hstr HL Hrep Hlen Hnd (fun k v H => proj1 (Hpl k v H)) p Htb k Hk)
    as [(v & Hv & E)|[E1 [E2|E2]]].
  - assert (plain d' h (rawget (lt_entries lt) k) = true) as Hpv.
    { eapply (Hpl k), rawget_in; [done|]. intros E'. rewrite E' in Hv. by destruct v. }
    destruct (push_agrees _ _ _ _ Hv Hpv) as (pv & Epv & Ha). rewrite HL, Epv in E. by exists (Some pv).
  - exists None. by rewrite E1.
  - exists (Some PNil). by rewrite E1.
Qed.

Lemma path_agrees ks v l : Forall (fun k => plain_key k = true) ks -> agrees v l ->
  match lua_path h ks l with
  | Ok l' => exists v', conf_path m ks v = Ok v' /\ agrees v' l'
  | LuaError e => conf_path m ks v = LuaError e
  | Fault => False
  end.
Proof.
  intros Hks. revert v l. induction Hks as [|k ks Hk _ IH]; intros v l Ha; cbn [lua_path conf_path]; [eauto|].
  destruct l as [|b|z|n|s|t|], v as [|b'|z'|n'|s'|p]; try done.
  destruct (index_agrees _ _ _ Ha Hk) as (lt & r & -> & -> & Hr). cbn [deref]. rstep. by apply IH.
Qed.

Lemma keys_agrees p t : agrees (PTable p) (VTable t) -> exists lt ks, h !! t = Some lt /\
  keys_from (S (length (lt_entries lt))) m (ALight (Some p)) VNil = Ok ks /\ ks ≡ₚ (lt_entries lt).*1.
Proof.
  intros (d & Hr & Hp). destruct (repr_plain _ _ _ Hr Hp) as (tb & lt & d' & -> & Htb & Ht & HL & Hrep & Hlen & Hnd & Hpl).
  exists lt. destruct (keys_table m σ L tb lt _ Hstr HL Hrep Hlen Hnd (fun k v H => proj1 (Hpl k v H)) p Htb) with (S (length (lt_entries lt))) as (ks & E & Hks).
  - by intros [] [].
  - lia.
  - by exists ks.
Qed.
End path.

Lemma new_agrees checkstack depth h m t : lua_state h -> memory_ok m -> plain depth h (VTable t) = true ->
  (forall n, checkstack n = true) -> exists p m' σ L, lnewconf checkstack depth h (VTable t) m = (Ok p, m') /\
    (forall s i, σ !! s = Some i -> tolstring m' (Some L) i = Ok s) /\ agrees h m' σ L (PTable p) (VTable t).
Proof.
  intros Hh Hm Hp Hst.
  assert (is_Some (h !! t)) as Ht by (destruct depth as [|d]; [done|]; unfold plain in Hp; by destruct (h !! t)).
  destruct (lnewconf_cases checkstack depth h Hh m Hm t Ht) as [(x & ls & Hc & E)|(e & ts & nx & _ & _ & _ & Hn)]; [|tauto].
  exists (S (m_next m)), (made m x), (x_strings x), (m_next m). split; [done|]. split.
  - intros s i Hs. by eapply made_strings.
  - exists depth. split; [by destruct Hc|done].
Qed.

(** ** The properties *)

(** C23. A plain Lua table (integer keys that fit an [int] and string keys,
    supported values, nested no deeper than C calls may) is converted, and every
    path of keys from the configuration gives what it gives from the Lua table:
    the same scalar, a table, nil, or the error of indexing a scalar. The hash
    part is searched along its chains, in its bounds. *)
Theorem conf_reads_table checkstack depth h m t : lua_state h -> memory_ok m -> plain depth h (VTable t) = true ->
  (forall n, checkstack n = true) -> exists p m', lnewconf checkstack depth h (VTable t) m = (Ok p, m') /\
    forall ks, Forall (fun k => plain_key k = true) ks ->
      match lua_path h ks (VTable t) with
      | Ok l => exists v, conf_path m' ks (PTable p) = Ok v /\ same_value v l = true
      | LuaError e => conf_path m' ks (PTable p) = LuaError e
      | Fault => False
      end.
Proof.
  intros Hh Hm Hp Hst. destruct (new_agrees _ _ _ _ _ Hh Hm Hp Hst) as (p & m' & σ & L & E & Hstr & Ha).
  exists p, m'. split; [done|]. intros ks Hks. pose proof (path_agrees h m' σ L Hstr ks _ _ Hks Ha) as H.
  destruct (lua_path h ks (VTable t)) as [l|e|]; [|done..]. destruct H as (v & Hv & Hag). exists v.
  split; [done|]. by eapply agrees_same.
Qed.

(** C24. In a configuration made from a plain table, [lnextkey] enumerates the keys
    of every table reached by a path: beginning with nil it returns each key of
    the Lua table exactly once, in an order of its own, and then ends. *)
Theorem conf_enumerates_keys checkstack depth h m t : lua_state h -> memory_ok m -> plain depth h (VTable t) = true ->
  (forall n, checkstack n = true) -> exists p m', lnewconf checkstack depth h (VTable t) m = (Ok p, m') /\
    forall ks q, Forall (fun k => plain_key k = true) ks -> conf_path m' ks (PTable p) = Ok (PTable q) ->
      exists t' lt keys, lua_path h ks (VTable t) = Ok (VTable t') /\ h !! t' = Some lt /\
        keys_from (S (length (lt_entries lt))) m' (ALight (Some q)) VNil = Ok keys /\ keys ≡ₚ (lt_entries lt).*1.
Proof.
  intros Hh Hm Hp Hst. destruct (new_agrees _ _ _ _ _ Hh Hm Hp Hst) as (p & m' & σ & L & E & Hstr & Ha).
  exists p, m'. split; [done|]. intros ks q Hks Hq. pose proof (path_agrees h m' σ L Hstr ks _ _ Hks Ha) as H.
  destruct (lua_path h ks (VTable t)) as [l|e|]; [|congruence|done]. destruct H as (v & Hv & Hag).
  assert (v = PTable q) as -> by congruence. destruct l as [| | | | |t'|]; try done.
  destruct (keys_agrees h m' σ L Hstr _ _ Hag) as (lt & keys & Hlt & Hk & Hperm). by exists t', lt, keys.
Qed.

(** C25. Whatever the table, [lnewconf] ends without a fault (the assertion of
    [fillcolliding] holds, every index is in its array) and leaves all other
    tables and states as they were. Where it fails, every table that can be
    reached from the new root when the conversion stops is freed, the root
    included, and no other; it does not fail on plain tables. [ldeleteconf] frees
    the state and exactly the tables reached from the root of a configuration, each
    once: of a plain table nothing stays behind. *)
Theorem conf_memory_safe checkstack depth h m t : lua_state h -> memory_ok m -> is_Some (h !! t) ->
  match lnewconf checkstack depth h (VTable t) m with
  | (Ok p, m') => undisturbed m (m_tables m') /\ exists m'',
      ldeleteconf m' (ALight (Some p)) = Ok m'' /\ undisturbed m (m_tables m'') /\ m_states m'' = m_states m /\
      freed_from (m_tables m') p (m_tables m'') /\ (plain depth h (VTable t) = true -> m_tables m'' = m_tables m)
  | (LuaError e, m') => undisturbed m (m_tables m') /\ m_states m' = m_states m /\
      (exists x, pconv checkstack depth h (m_next m) t (S (m_next m)) (start m) = (LuaError e, x) /\ freed_from (x_tables x) (S (m_next m)) (m_tables m')) /\
      ~ (plain depth h (VTable t) = true /\ forall n, checkstack n = true)
  | (Fault, _) => False
  end.
Proof.
  intros Hh Hm Ht.
  destruct (lnewconf_cases checkstack depth h Hh m Hm t Ht) as [(x & ls & Hc & ->)|(e & ts & nx & -> & Hu & Hn)]; [|done].
  split; [eapply extends_undisturbed; by destruct Hc|].
  destruct (delete_made depth h m Hm t x ls Hc) as (ts & E & Hu & Hf & Hp). eexists. split; [exact E|]. done.
Qed.

(** ** Witnesses *)

Module Conf_example.
Import Example_conf.

Lemma h_ok : lua_state h.
Proof.
  intros t lt k v Ht Hin. unfold h in Ht.
  repeat (apply lookup_insert_Some in Ht as [[<- <-]|[_ Ht]]; [cbn in Hin; repeat (apply elem_of_cons in Hin as [[= -> ->]|Hin];
    [split; [done|]; vm_compute; eauto|]); by apply elem_of_nil in Hin|]).
  by rewrite lookup_empty in Ht.
Qed.

Lemma m0_ok : memory_ok m0.
Proof. constructor; cbn; intros q s Hq; by rewrite lookup_empty in Hq. Qed.

(** The path to the string in a nested table. *)
Definition path : list lua := [VString [121]; VString [97]].

Lemma path_ok : Forall (fun k => plain_key k = true) path.
Proof. repeat constructor. Qed.
End Conf_example.

Lemma conf_reads_table_witness : exists p m', Example_conf.new = (Ok p, m') /\
  exists v, conf_path m' Conf_example.path (PTable p) = Ok v /\ same_value v (VString [98]) = true.
Proof.
  destruct (conf_reads_table (fun _ => true) 3 Example_conf.h Example_conf.m0 1%nat Conf_example.h_ok Conf_example.m0_ok
    ltac:(vm_compute; reflexivity) (fun _ => eq_refl)) as (p & m' & E & H).
  exists p, m'. split; [exact E|]. exact (H Conf_example.path Conf_example.path_ok).
Defined.

Lemma conf_enumerates_keys_witness : exists p m', Example_conf.new = (Ok p, m') /\
  exists keys, keys_from 8 m' (ALight (Some p)) VNil = Ok keys /\
    keys ≡ₚ [VInteger 1; VInteger 2; VString [120]; VString [121]; VInteger 5; VInteger (-3); VInteger 1000].
Proof.
  destruct (conf_enumerates_keys (fun _ => true) 3 Example_conf.h Example_conf.m0 1%nat Conf_example.h_ok Conf_example.m0_ok
    ltac:(vm_compute; reflexivity) (fun _ => eq_refl)) as (p & m' & E & H).
  exists p, m'. split; [exact E|].
  destruct (H [] p ltac:(constructor) eq_refl) as (t' & lt & keys & Et & Elt & Ek & Hk).
  injection Et as <-. injection Elt as <-. exists keys. split; [exact Ek|exact Hk].
Defined.

Lemma conf_memory_safe_witness : exists p m', Example_conf.new = (Ok p, m') /\
  exists m'', ldeleteconf m' (ALight (Some p)) = Ok m'' /\ m_tables m'' = ∅.
Proof.
  pose proof (conf_memory_safe (fun _ => true) 3 Example_conf.h Example_conf.m0 1%nat Conf_example.h_ok Conf_example.m0_ok
    ltac:(by eexists)) as H.
  change (lnewconf (fun _ => true) 3 Example_conf.h (VTable 1%nat) Example_conf.m0) with Example_conf.new in H.
  destruct Example_conf.new as [[p|e|] m'] eqn:E.
  - exists p, m'. split; [reflexivity|]. destruct H as (_ & m'' & Hd & _ & _ & _ & Hp). exists m''.
    split; [exact Hd|]. apply Hp. vm_compute. reflexivity.
  - exfalso. assert (exists p, fst Example_conf.new = Ok p) as [p Ep] by (vm_compute; eauto). rewrite E in Ep. discriminate Ep.
  - destruct H.
Defined.

(** ** What the library does not do *)

(** An integer key is truncated to an [int]: the value of the key [2^32 + 1]
    replaces that of the key 1, the slot counted for it is never written, and
    looking up a missing key or the next one reads it. *)
Module Wide_key.
Definition h : lua_heap := <[1%nat := LT 1 [(VInteger 1, VInteger 10); (VInteger (2 ^ 32 + 1), VInteger 20)]]> ∅.
Definition new := lnewconf (fun _ => true) 3 h (VTable 1%nat) Example_conf.m0.
End Wide_key.

Theorem wide_key_faults : exists p m', Wide_key.new = (Ok p, m') /\
  lindexconf m' (ALight (Some p)) (VInteger 1) = Ok (Some (PInteger 20)) /\
  lindexconf m' (ALight (Some p)) (VInteger 2) = Fault /\
  lnextkey m' (ALight (Some p)) (VInteger 1) = Fault.
Proof. eexists _, _. split; [vm_compute; reflexivity|]. vm_compute. done. Qed.

(** A key that is a table passes [countsize] and becomes the empty string. *)
Theorem table_key_is_empty_string : exists p m',
  lnewconf (fun _ => true) 3 (<[1%nat := LT 0 [(VTable 2%nat, VInteger 10)]]> (<[2%nat := LT 0 []]> ∅)) (VTable 1%nat) Example_conf.m0 = (Ok p, m') /\
  lindexconf m' (ALight (Some p)) (VString []) = Ok (Some (PInteger 10)).
Proof. eexists _, _. split; [vm_compute; reflexivity|]. vm_compute. done. Qed.

(** When the conversion of a nested table fails, that table is not yet attached
    to its parent and is never freed. *)
Theorem failed_conversion_leaks : exists e m',
  lnewconf (fun _ => true) 3 (<[1%nat := LT 1 [(VInteger 1, VTable 2%nat)]]> (<[2%nat := LT 1 [(VInteger 1, VOther)]]> ∅)) (VTable 1%nat) Example_conf.m0
    = (LuaError e, m') /\ is_Some (m_tables m' !! 12%nat).
Proof. eexists _, _. split; [vm_compute; reflexivity|]. vm_compute. eauto. Qed.

(** A table that contains itself ends in an error when the C stack is used up. *)
Theorem cyclic_table_fails : exists m',
  lnewconf (fun _ => true) 200 (<[1%nat := LT 1 [(VInteger 1, VTable 1%nat)]]> ∅) (VTable 1%nat) Example_conf.m0
    = (LuaError "C stack overflow", m').
Proof. eexists. vm_compute. reflexivity. Qed.
