(* ===== verification/Multicast.v ===== *)
(** * Multicast packages (lualib-src/lua-multicast.c)

    A message for many services is held once, in a [struct mc_package] with the
    number of receivers that still have to close it. Until it is bound to its
    receivers it travels as a pointer to a pointer. A userdata argument is its
    address, [None] where [lua_touserdata] returns [NULL]. [mc_closelocal] is one
    step: after the atomic decrement to zero no other thread has the package. *)
From S2P Require Import Prelude.

Record mc_package : Set := Package {
  reference : Z;
  size : Z;
  data : option nat
}.

(** The packages, the [struct mc_package *] that point to them, and the blocks
    of the messages. *)
Record memory : Set := Mem {
  packs : gmap nat mc_package;
  boxes : gmap nat nat;
  blocks : gmap nat (list Z);
  next : nat
}.

(** [sizeof (struct mc_package * )] *)
Definition sizeof_ptr : Z := 8.

Definition pack (m : memory) (data : option nat) (size : Z) : nat * memory :=
  let pk := next m in
  let ret := S pk in
  (ret, Mem (<[pk := Package 0 (u32 size) data]> (packs m)) (<[ret := pk]> (boxes m)) (blocks m) (S ret)).

(** The arguments: a userdata and an integer of Lua. *)
Definition mc_packlocal (m : memory) (data : option nat) (n : Z) : result (nat * Z * memory) :=
  let size := u64 n in
  if negb (size =? u32 size) then LuaError "Size should be 32bit integer"
  else let '(ret, m) := pack m data size in Ok (ret, sizeof_ptr, m).

Definition mc_packremote (m : memory) (data : option nat) (n : Z) : result (nat * Z * memory) :=
  let size := u64 n in
  if negb (size =? u32 size) then LuaError "Size should be 32bit integer"
  else
    src ← deref data; block ← deref (blocks m !! src);
    bytes ← slice block 0 size;
    let msg := next m in
    let m := Mem (packs m) (boxes m) (<[msg := bytes]> (blocks m)) (S msg) in
    let '(ret, m) := pack m (Some msg) size in Ok (ret, sizeof_ptr, m).

(** [*pack] and the package it points to. *)
Definition unbox (m : memory) (box : option nat) : result (nat * nat * mc_package) :=
  b ← deref box; pk ← deref (boxes m !! b); p ← deref (packs m !! pk); Ok (b, pk, p).

Definition mc_unpacklocal (m : memory) (box : option nat) (n : Z) : result (nat * option nat * Z) :=
  let sz := s32 n in
  if negb (sz =? sizeof_ptr) then LuaError "Invalid multicast package size"
  else '(_, pk, p) ← unbox m box; Ok (pk, data p, size p).

Definition mc_bindrefer (m : memory) (box : option nat) (n : Z) : result (nat * memory) :=
  let ref := s32 n in
  '(b, pk, p) ← unbox m box;
  if negb (reference p =? 0) then LuaError "Can't bind a multicast package more than once"
  else Ok (pk, Mem (<[pk := Package ref (size p) (data p)]> (packs m)) (delete b (boxes m)) (blocks m) (next m)).

(** [skynet_free]; freeing [NULL] does nothing. *)
Definition free_block (m : memory) (b : option nat) : result memory :=
  match b with
  | None => Ok m
  | Some b => _ ← deref (blocks m !! b); Ok (Mem (packs m) (boxes m) (delete b (blocks m)) (next m))
  end.

(** An error is raised after the package was freed: the memory is returned with
    it. *)
Definition mc_closelocal (m : memory) (pk : option nat) : result (option string * memory) :=
  pk ← deref pk; p ← deref (packs m !! pk);
  let ref := s32 (reference p - 1) in
  if ref <=? 0 then
    m ← free_block m (data p);
    let m := Mem (delete pk (packs m)) (boxes m) (blocks m) (next m) in
    Ok (if ref <? 0 then Some "Invalid multicast package reference" else None, m)
  else Ok (None, Mem (<[pk := Package ref (size p) (data p)]> (packs m)) (boxes m) (blocks m) (next m)).

Definition mc_remote (m : memory) (box : option nat) : result (option nat * Z * memory) :=
  '(_, pk, p) ← unbox m box;
  Ok (data p, size p, Mem (delete pk (packs m)) (boxes m) (blocks m) (next m)).

Definition mc_nextid (n : Z) : Z := u32 (u32 n + 256).

(** ** The life of a package

    A message is published to [n] services: it is packed, its pointer is bound.
    Each of them reads it and closes it once, in any order and interleaved with
    other messages. [owed] counts the services that have not closed it yet. *)
Inductive event : Set :=
| Publish (bytes : list Z) (n : Z)
| Read (pk : nat)
| Close (pk : nat).

Definition system : Set := memory * gmap nat Z.

(** The message lies in a block of the publisher; [None]: something went wrong. *)
Definition run_event (s : system) (e : event) : option system :=
  let '(m, owed) := s in
  match e with
  | Publish bytes n =>
    let b := next m in
    let m := Mem (packs m) (boxes m) (<[b := bytes]> (blocks m)) (S b) in
    match mc_packlocal m (Some b) (zlen bytes) with
    | Ok (box, _, m) =>
      match mc_bindrefer m (Some box) n with
      | Ok (pk, m) => Some (m, <[pk := n]> owed)
      | _ => None
      end
    | _ => None
    end
  | Read pk =>
    match packs m !! pk with
    | Some p => match data p with Some b => match blocks m !! b with Some _ => Some s | None => None end | None => None end
    | None => None
    end
  | Close pk =>
    match mc_closelocal m (Some pk), owed !! pk with
    | Ok (None, m), Some k => Some (m, if k =? 1 then delete pk owed else <[pk := k - 1]> owed)
    | _, _ => None
    end
  end.

(** What the services do: messages of at most 4 GB to at least one of them, and
    each of them reads and closes what it was sent. *)
Definition event_ok (s : system) (e : event) : Prop :=
  match e with
  | Publish bytes n => zlen bytes < 2 ^ 32 /\ 0 < n < 2 ^ 31
  | Read pk | Close pk => is_Some (s.2 !! pk)
  end.

Definition nothing : system := (Mem ∅ ∅ ∅ 0, ∅).

Inductive reachable : system -> Prop :=
| reach_start : reachable nothing
| reach_step s e s' : reachable s -> event_ok s e -> run_event s e = Some s' -> reachable s'.

(** A package is held exactly as long as a service owes its closing, with the
    number of those services as its count and a block of its own. *)
Record counted (s : system) : Prop := {
  ct_owed : forall pk n, s.2 !! pk = Some n -> 0 < n < 2 ^ 31 /\
    exists sz b bytes, packs s.1 !! pk = Some (Package n sz (Some b)) /\ blocks s.1 !! b = Some bytes /\ sz = zlen bytes;
  ct_packs : forall pk p, packs s.1 !! pk = Some p -> is_Some (s.2 !! pk) /\ (pk < next s.1)%nat;
  ct_blocks : forall b bytes, blocks s.1 !! b = Some bytes -> (b < next s.1)%nat /\
    exists pk p, packs s.1 !! pk = Some p /\ data p = Some b;
  ct_own : forall pk pk' p p', packs s.1 !! pk = Some p -> packs s.1 !! pk' = Some p' -> data p = data p' -> pk = pk';
  ct_boxes : boxes s.1 = ∅
}.

Lemma counted_publish m owed bytes n : counted (m, owed) -> zlen bytes < 2 ^ 32 -> 0 < n < 2 ^ 31 ->
  exists m', run_event (m, owed) (Publish bytes n) = Some (m', <[S (next m) := n]> owed) /\ counted (m', <[S (next m) := n]> owed).
Proof.
  intros [H1 H2 H3 H4 H5] Hl Hn. pose proof (zlen_nonneg bytes). cbn [fst snd] in *.
  set (b := next m). set (pk := S b).
  assert (u64 (zlen bytes) = zlen bytes) as E64 by (apply u64_small; unfold is_u64; lia).
  assert (u32 (zlen bytes) = zlen bytes) as E32 by (apply u32_small; unfold is_u32; lia).
  assert (s32 n = n) as En by (apply s32_small; lia).
  exists (Mem (<[pk := Package n (zlen bytes) (Some b)]> (packs m)) (boxes m) (<[b := bytes]> (blocks m)) (S (S pk))).
  assert (boxes m !! S pk = None) as Hbox by (by rewrite H5).
  split.
  - unfold run_event, mc_packlocal. rewrite E64, E32, Z.eqb_refl. cbn [negb pack packs boxes blocks next]. fold b pk.
    unfold mc_bindrefer, unbox. cbn [deref packs boxes blocks next]. rstep. rewrite lookup_insert_eq. cbn [deref]. rstep.
    rewrite lookup_insert_eq. cbn [deref reference negb Z.eqb size data]. rstep.
    rewrite insert_insert_eq, delete_insert_id by done. by rewrite En, E32.
  - constructor; cbn [fst snd packs boxes blocks next]; [| | | |done].
    + intros pk' n' [[<- <-]|[Hne Hpk]]%lookup_insert_Some.
      * split; [done|]. exists (zlen bytes), b, bytes. by rewrite !lookup_insert_eq.
      * destruct (H1 pk' n' Hpk) as (Hr & sz & b' & bs & Hp & Hb & Hs). split; [done|]. exists sz, b', bs.
        rewrite !lookup_insert_ne by (apply H3 in Hb as [? _]; unfold b; lia || done). done.
    + intros pk' p [[<- _]|[Hne Hp]]%lookup_insert_Some; [rewrite lookup_insert_eq; split; [done|lia]|].
      destruct (H2 _ _ Hp) as [Ho Hlt]. rewrite lookup_insert_ne by done. split; [done|unfold pk, b; lia].
    + intros b' bs [[<- _]|[Hne Hb]]%lookup_insert_Some.
      * split; [unfold pk; lia|]. exists pk, (Package n (zlen bytes) (Some b)). by rewrite lookup_insert_eq.
      * destruct (H3 _ _ Hb) as (Hlt & pk' & p & Hp & Hd). split; [unfold pk, b; lia|]. exists pk', p.
        rewrite lookup_insert_ne; [done|]. apply H2 in Hp as [_ Hlt']. unfold pk, b. lia.
    + assert (forall pk' p, packs m !! pk' = Some p -> data p <> Some b) as Hfresh.
      { intros pk' p Hp Hd. destruct (H2 _ _ Hp) as [[k Hk] _]. destruct (H1 _ _ Hk) as (_ & sz & b' & bs & Hp' & Hb & _).
        rewrite Hp in Hp'. injection Hp' as ->. cbn in Hd. injection Hd as ->. apply H3 in Hb as [Hlt _]. unfold b in Hlt. lia. }
      intros pk1 pk2 p1 p2 [[<- <-]|[Hne1 Hp1]]%lookup_insert_Some [[<- <-]|[Hne2 Hp2]]%lookup_insert_Some Hd; try done.
      * by destruct (Hfresh _ _ Hp2).
      * by destruct (Hfresh _ _ Hp1).
      * by eapply H4.
Qed.

Lemma counted_close m owed pk n : counted (m, owed) -> owed !! pk = Some n ->
  exists m' owed', run_event (m, owed) (Close pk) = Some (m', owed') /\ counted (m', owed').
Proof.
  intros [H1 H2 H3 H4 H5] Hpk. cbn [fst snd] in *. destruct (H1 _ _ Hpk) as (Hr & sz & b & bs & Hp & Hb & Hs).
  unfold run_event, mc_closelocal. cbn [deref]. rstep. rewrite Hp. cbn [deref]. rstep. cbn [reference data size].
  rewrite s32_small by lia. rewrite Hpk. destruct (Z.leb_spec (n - 1) 0).
  - assert (n = 1) as -> by lia. cbn [free_block]. rewrite Hb. cbn [deref]. rstep. change (1 =? 1) with true. cbn iota.
    eexists _, _. split; [done|]. constructor; cbn [fst snd packs boxes blocks next]; [| | | |done].
    + intros pk' n' [Hne Hpk']%lookup_delete_Some. destruct (H1 _ _ Hpk') as (Hr' & sz' & b' & bs' & Hp' & Hb' & Hs').
      split; [done|]. exists sz', b', bs'. rewrite !lookup_delete_ne; [done| |done].
      intros ->. apply Hne. by eapply (H4 _ _ _ _ Hp Hp').
    + intros pk' p' [Hne Hp']%lookup_delete_Some. rewrite lookup_delete_ne by done. by eapply H2.
    + intros b' bs' [Hne Hb']%lookup_delete_Some. destruct (H3 _ _ Hb') as (Hlt & pk' & p' & Hp' & Hd').
      split; [done|]. exists pk', p'. rewrite lookup_delete_ne; [done|]. intros ->.
      rewrite Hp in Hp'. injection Hp' as <-. cbn in Hd'. congruence.
    + intros pk1 pk2 p1 p2 [_ Hp1]%lookup_delete_Some [_ Hp2]%lookup_delete_Some. by apply H4.
  - destruct (Z.eqb_spec n 1); [lia|]. eexists _, _. split; [done|].
    constructor; cbn [fst snd packs boxes blocks next]; [| | | |done].
    + intros pk' n' [[<- <-]|[Hne Hpk']]%lookup_insert_Some.
      * split; [lia|]. exists sz, b, bs. by rewrite lookup_insert_eq.
      * rewrite lookup_insert_ne by done. by apply H1.
    + intros pk' p' [[<- _]|[Hne Hp']]%lookup_insert_Some.
      * rewrite lookup_insert_eq. split; [done|]. by eapply H2.
      * rewrite lookup_insert_ne by done. by eapply H2.
    + intros b' bs' Hb'. destruct (H3 _ _ Hb') as (Hlt & pk' & p' & Hp' & Hd'). split; [done|].
      destruct (decide (pk = pk')) as [<-|Hne].
      * eexists pk, _. rewrite lookup_insert_eq. split; [done|]. rewrite Hp in Hp'. by injection Hp' as <-.
      * exists pk', p'. by rewrite lookup_insert_ne.
    + intros pk1 pk2 p1 p2 [[<- <-]|[Hn1 Hp1]]%lookup_insert_Some [[<- <-]|[Hn2 Hp2]]%lookup_insert_Some Hd; try done; cbn in Hd.
      * by eapply (H4 _ _ _ _ Hp Hp2).
      * by eapply (H4 _ _ _ _ Hp1 Hp).
      * by eapply H4.
Qed.

Lemma counted_read m owed pk : counted (m, owed) -> is_Some (owed !! pk) -> run_event (m, owed) (Read pk) = Some (m, owed).
Proof.
  intros [H1 _ _ _ _] [n Hn]. destruct (H1 _ _ Hn) as (_ & sz & b & bs & Hp & Hb & _). cbn [fst] in *. cbn [run_event].
  by rewrite Hp; cbn [data]; rewrite Hb.
Qed.

Lemma counted_step s e : counted s -> event_ok s e -> exists s', run_event s e = Some s' /\ counted s'.
Proof.
  destruct s as [m owed]. intros Hc He. destruct e as [bytes n|pk|pk]; cbn in He.
  - destruct He as [Hl Hn]. destruct (counted_publish m owed bytes n Hc Hl Hn) as (m' & E & Hc'). by eexists.
  - exists (m, owed). split; [by apply counted_read|done].
  - destruct He as [n Hn]. destruct (counted_close _ _ _ _ Hc Hn) as (m' & owed' & E & Hc'). by eexists.
Qed.

Lemma reachable_counted s : reachable s -> counted s.
Proof.
  induction 1 as [|s e s' _ IH He E].
  - constructor; cbn; try done; intros *; rewrite ?lookup_empty; done.
  - destruct (counted_step _ _ IH He) as (s1 & E1 & Hc). congruence.
Qed.

(** In every history of messages published to any numbers of services, reading and
    closing succeed for as long as a service owes its closing, a package and its
    block are freed by the last closing and not before, and when all is closed
    nothing is left. *)
Theorem packages_counted s : reachable s ->
  (forall e, event_ok s e -> exists s', run_event s e = Some s') /\
  (forall pk, is_Some (packs s.1 !! pk) <-> is_Some (s.2 !! pk)) /\
  (s.2 = ∅ -> packs s.1 = ∅ /\ blocks s.1 = ∅ /\ boxes s.1 = ∅).
Proof.
  intros Hr. pose proof (reachable_counted s Hr) as Hc. split; [|split].
  - intros e He. destruct (counted_step _ _ Hc He) as (s' & E & _). by eexists.
  - destruct Hc as [H1 H2 _ _ _]. intros pk. split.
    + intros [p Hp]. by eapply H2.
    + intros [n Hn]. destruct (H1 _ _ Hn) as (_ & sz & b & bs & Hp & _). by eexists.
  - destruct Hc as [_ H2 H3 _ H5]. intros E.
    assert (packs s.1 = ∅) as Ep.
    { apply map_empty. intros pk. apply eq_None_not_Some. intros [p Hp]. apply H2 in Hp as [Ho _]. rewrite E in Ho. by destruct Ho. }
    split; [done|]. split; [|done]. apply map_empty. intros b. apply eq_None_not_Some. intros [bs Hb].
    apply H3 in Hb as (_ & pk & p & Hp & _). by rewrite Ep in Hp.
Qed.

(** A remote package is taken apart, but the pointer to it is not freed. *)
Theorem remote_leaks_box m box pk p : boxes m !! box = Some pk -> packs m !! pk = Some p ->
  exists m', mc_remote m (Some box) = Ok (data p, size p, m') /\ boxes m' !! box = Some pk /\ packs m' !! pk = None.
Proof.
  intros Hb Hp. unfold mc_remote, unbox. cbn [deref]. rstep. rewrite Hb. cbn [deref]. rstep. rewrite Hp. cbn [deref]. rstep.
  eexists. split; [done|]. cbn. split; [done|]. apply lookup_delete_eq.
Qed.

(** Channel numbers keep their low 8 bits, the node, and the first 2^24 of them
    are different. *)
Lemma nextid_iter id k : is_u32 id -> Nat.iter k mc_nextid id = u32 (id + 256 * Z.of_nat k).
Proof.
  intros Hid. induction k as [|k IH]; [rewrite Z.add_0_r; symmetry; by apply u32_small|].
  rewrite Nat.iter_succ, IH. unfold mc_nextid, u32, wrap. rewrite Z.mod_mod, Zplus_mod_idemp_l by lia. f_equal. lia.
Qed.

Theorem nextid_channels id j k : is_u32 id -> (j < k)%nat -> Z.of_nat k < 2 ^ 24 + Z.of_nat j ->
  Nat.iter k mc_nextid id mod 256 = id mod 256 /\ Nat.iter j mc_nextid id <> Nat.iter k mc_nextid id.
Proof.
  intros Hid Hjk Hk. rewrite !nextid_iter by done. unfold u32, wrap. split; [dlia|]. intros E.
  assert ((256 * (Z.of_nat k - Z.of_nat j)) mod 2 ^ 32 = 0) as E0.
  { replace (256 * (Z.of_nat k - Z.of_nat j)) with ((id + 256 * Z.of_nat k) - (id + 256 * Z.of_nat j)) by lia.
    rewrite Zminus_mod, E, Z.sub_diag. done. }
  rewrite Z.mod_small in E0 by lia. lia.
Qed.
